(* ===== verification/_CoqProject ===== *)
-Q . S2P
Prelude.v
RustStr.v
ServiceRuntime.v
ServiceDef.v
StartOrder.v
Reach.v
Effects.v
Roles.v
Restart.v
Ids.v
Cgroup.v
Calendar.v
Timer.v
ServiceTable.v
ServiceReload.v
ServiceTableInv.v
FailureDispatch.v
Tty.v
Graph.v
Shutdown.v
OperationRecord.v
ExecCommand.v
OperationStore.v
OperationInv.v
StartPlan.v
StartPlanSpec.v
Lifecycle.v
BootGraph.v
BootGraphSpec.v
BootPlan.v
BootRun.v
ExecGraph.v
ExecGraphSpec.v
ExecGraphInv.v
JobRecord.v
JobStore.v
StartState.v
StartBegin.v
StartRun.v
MainProcess.v
StartInv.v
StartSpec.v
Release.v
ReleaseInv.v
ControlRun.v
Notify.v
SubmittedDef.v
NotifyRun.v
ControlInv.v
ControlSpec.v
SubmittedStore.v
SubmittedRun.v
ShutdownRun.v
ShutdownFinal.v
BootTrackers.v
SubmittedInv.v
ShutdownInv.v
SupWork.v
Relationships.v
SupervisorRun.v
SupervisorChecks.v
SupervisorStarts.v
SupervisorLifecycle.v
SupervisorNotify.v
SettleInv.v
SupervisorInv.v
SupervisorLifecycleInv.v
SupervisorEvents.v
SupervisorSpec.v
SupervisorLaunch.v
SupervisorLaunchInv.v
SupervisorContain.v
RegistryValue.v
RegistryService.v
RegistrySpec.v
RegistryConfig.v
ControlWire.v
ControlConnection.v
ControlConnectionSpec.v
SupervisorNotifySpec.v
