(* ===== verification/Prelude.v ===== *)
(** * peinit: a verification development

    peinit is the first process of a Peios system: it boots the machine, starts
    and supervises services, runs jobs, fires timers, answers control requests
    and shuts the system down. This library models the parts of it that decide
    as executable Rocq definitions translated from the Rust sources under
    [src/src/], and proves what makes them correct.

    ** How the program fits together, and which file models which part

    _Definitions_ of services are read from the registry, completed with derived
    dependencies, validated as a graph, and kept in the _service table_ beside
    the _runtime snapshot_ of each service, which a state machine moves. What
    callers ask for is an _operation_; what runs is a _job_; both live in stores
    with an active list per service. A boot plan or a start plan becomes a
    context of the _execution graph_, which releases each start when its
    dependencies are satisfied. The _supervisor_ composes all of these in
    transactions: an event works on a copy of the stores that is kept if it
    succeeds. Paths below are under [src/src/].

    Foundations:
    - [Prelude] (this file): Rust's [Result], fixed-width arithmetic, ordered
      maps and sets, iterator functions, and the index of active records by
      service that two stores share. [RustStr]: the functions of [str], [u8] and
      integer parsing in use. [Reach]: the two closures the planners share.
      [Effects]: the state and error monad of the transactions with its rules for
      invariants, and the class of the process controller ([boundary/model/]).

    Services and their definitions:
    - [ServiceRuntime] ([service/runtime/]): states, causes, the table of
      transitions. [ServiceDef] ([service/definition.rs],
      [security/identity.rs]), [StartOrder] ([service/dependency.rs]), [Roles]
      ([service/role.rs]), [Restart] ([service/restart.rs]), [Tty]
      ([service/tty.rs]), [Graph] ([service/graph/]).
    - [ServiceTable], [ServiceReload], [ServiceTableInv] ([service/table/]): the
      table, reloads of the definitions, and the invariant. [FailureDispatch]
      ([execution/failure/dispatch.rs]): a failure meets the restart policy.
    - [RegistryValue], [RegistryService], [RegistrySpec], [RegistryConfig]
      ([registry/], [client/definition.rs]): values and their encodings,
      definitions built from them, settings, edits.
    - [Calendar], [Timer] ([timer/]), [Ids] ([ids/]), [Cgroup]
      ([job/cgroup.rs]).

    Operations, jobs, plans:
    - [OperationRecord], [OperationStore], [OperationInv] ([operation/]);
      [JobRecord], [JobStore] ([job/]); [ExecCommand] ([security/],
      [execution/command.rs]).
    - [StartPlan], [StartPlanSpec], [Lifecycle] ([control/lifecycle/]): starts on
      demand, and the admission of commands.
    - [BootGraph], [BootGraphSpec], [BootPlan], [BootRun] ([boot/phase2/]),
      [BootTrackers] ([supervisor/boot_settle.rs], [boot_success.rs],
      [boot_window.rs]).
    - [ExecGraph], [ExecGraphSpec], [ExecGraphInv] ([execution/graph/]).

    Execution:
    - [StartState], [StartBegin], [StartRun], [MainProcess], [StartInv],
      [StartSpec] ([execution/start/], [execution/failure/],
      [execution/satisfaction/], [execution/job_started/],
      [execution/job_terminal/]): a start from its checks to its readiness, and
      the end of a main process.
    - [Release], [ReleaseInv] ([supervisor/ready.rs],
      [execution/restart_policy/]): the loop that lets starts go.
    - [ControlRun], [ControlInv], [ControlSpec] ([execution/control/]): stops,
      restarts and reloads. [Notify], [NotifyRun] ([notify/], [fd_store.rs],
      [execution/notify/]).
    - [SubmittedDef], [SubmittedStore], [SubmittedRun], [SubmittedInv]
      ([submitted/], [supervisor/submitted/]).
    - [Shutdown], [ShutdownRun], [ShutdownFinal], [ShutdownInv] ([shutdown/],
      [supervisor/shutdown*.rs], [supervisor/shutdown_*/]).

    The supervisor ([supervisor/]):
    - [SupWork]: its own stores (watchdogs, health checks, clean-ups,
      relationships) and its work. [Relationships]: conflicts, BindsTo,
      OnFailure, held starts. [SupervisorRun]: ends of main processes, control
      operations, timers. [SupervisorChecks]: watchdogs, health checks, control
      groups to clean up. [SupervisorStarts]: hooks, check helpers, reloads.
      [SupervisorLifecycle]: commands and upkeep. [SupervisorNotify]: notify
      messages. [SupervisorLaunch] (with [execution/launch/]): launches of every
      kind of job and reports of processes being set up. [SupervisorContain]:
      the containment of an internal error.
    - [SettleInv], [SupervisorInv], [SupervisorLifecycleInv], [SupervisorEvents],
      [SupervisorSpec], [SupervisorLaunchInv], [SupervisorNotifySpec]: their
      properties. [SettleInv.sup_wf] is the invariant of the whole, in which the
      invariants of the components are fields.
    - [ControlWire], [ControlConnection], [ControlConnectionSpec]
      ([control/wire/], [control/connection/], [jobs/connection/],
      [supervisor/control_connection/]): frames, buffers, connections and their
      turns.

    ** How code is translated

    A struct is a [Record] whose fields carry a short prefix, an enum an
    [Inductive], a [uN] a [Z] with its saturating, checked or wrapping arithmetic
    written out. A [&mut self] method maps the state to the state it leaves and
    its result; a failing method leaves what it had already changed. Where state
    and errors are threaded through many calls the steps are in the monad [Exec]
    of [Effects], whose [None] is a loop that ran out of its fuel. [BTreeMap] and
    [BTreeSet] are [gmap] and [gset], iterated in key order through [btree_iter]
    and [btree_elements]; a [Vec] is a list; a string its UTF-8 bytes. A
    transaction keeps the effects on the kernel and the descriptors it closed
    when it fails. Logging, metrics and error texts that nothing reads back are
    left out where a file says so.

    Code that is not part of the repository, and traits of the program that stand
    for the kernel, are parameters: the classes [Jiff] (civil time),
    [CalendarSyntax] (between the calendar and its users), [RegistryClient],
    [ProcessController], [FilesystemCheckHelperLauncher], [LaunchBoundary],
    [JobBoundary], [ShutdownFinalizer], [JsonNumber], [ControlConnectionIo],
    [ControlListener], [JobsConnectionIo], [ControlBody]; the functions
    [from_slice] and [to_vec] of [serde_json]; debug texts of errors. What a
    theorem needs of one of them is a hypothesis or a class of laws
    ([JsonNumberLaws], [ClockLaws]) that a small instance in the same file
    satisfies.

    ** What the theorems show

    - _Stores._ Every state that the operations reach satisfies the invariant of
      its component ([reachable_tables_wf], [op_reachable_stores_wf],
      [job_stores_wf], [graph_stores_wf], [start_events_keep_stores],
      [submitted_stores_agree]), and whatever the supervisor is told of and asked
      to launch, in any order and whatever the kernel answers, it answers and its
      stores stay well formed ([launches_keep_stores]). A refused event changes
      nothing ([supervisor_event_all_or_nothing], [shutdown_all_or_nothing]); an
      internal error is contained without raising another
      ([internal_error_contained]).
    - _Plans and graphs._ Validation accepts exactly the valid sets and an
      accepted set starts ([validate_ok_iff], [validated_graph_starts]); boot
      graph, start plan and shutdown plan are what they should be
      ([boot_graph_correct], [start_plan_correct], [shutdown_plan_correct]);
      releases and failures spread exactly as far as they should
      ([release_exact], [failure_spreads_exactly], [scheduler_progress]).
    - _Refinement and equivalence._ The loops of a reload implement a
      specification of one name at a time ([reload_refines_spec]); the order of
      registry values does not matter; checks split in two phases decide as
      one; a connection loses, repeats and reorders nothing.
    - _Behaviour of single steps._ Ends of main processes, stops, watchdogs,
      conflicts, extensions of timeouts, confirmation of a boot, final actions of
      a shutdown, the environment of a process.
    - _Termination and waking up._ Reactions and settlements end
      ([settlements_always_end]); a waiting shutdown has a deadline
      ([waiting_shutdown_wakes]); the upkeep timer is set exactly when there is
      something to do ([upkeep_timer_exact]).
    - _Round trips._ Identifiers, control-group paths, registry encodings, notify
      messages.
    - Some examples record behaviour that departs from what the code's comments
      or documentation say, or means to do; their comments say so.

    ** Fuel

    A recursion that is not structural has fuel, and a theorem states that it is
    enough: graph searches ([StartOrder], [Graph], [Reach], [BootGraph],
    [StartPlan], [ExecGraph], [Shutdown]) recurse or loop at most once more than
    there are services or members; the release loop has [release_fuel], one round
    for each thing left to do in the graph; a settlement has one level for each
    live member of the graph and one more; the stop waves of a shutdown one round
    for each wave and one more; a turn of a connection one frame for each byte of
    its buffer and one more; the number loops of the calendar the width of their
    range plus one. The search for an occurrence has the code's own bound
    [SEARCH_HORIZON_DAYS]. The rejection loop of the jitter is unbounded in the
    code; its theorem gives the fuel for each number of rejected samples.

    ** What is not modelled

    System calls and their wrappers ([boundary/], [runtime/linux/], [init/]), the
    event stream ([kmes/]), clients, the command line and the C interface apart
    from edits of a definition; the runtime's loop and the loop over due
    lifecycle deadlines, which call the modelled transactions; control queries,
    the bodies of control and jobs commands and the shape of their answers; the
    messages of submitted jobs; console texts. *)

From stdpp Require Export base tactics option list gmap strings sorting.
From Stdlib Require Export ZArith Lia.

(** ** Notations *)

Declare Scope rust_scope.
Delimit Scope rust_scope with rust.

(** Rust's [Result]: the value of a fallible call. *)
Inductive Result (T E : Type) : Type :=
| Ok (t : T)
| Err (e : E).
Arguments Ok {T E} t.
Arguments Err {T E} e.

(** [let? x := e in k] is [let x = e?; k] in a function that has no state to
    thread: an [Err] is returned at once. *)
Notation "'let?' x ':=' e 'in' k" :=
  (match e with Ok x => k | Err err => Err err end)
  (at level 10, x name, e at level 200, k at level 200) : rust_scope.
Notation "'let?' ' x ':=' e 'in' k" :=
  (match e with Ok x => k | Err err => Err err end)
  (at level 10, x strict pattern, e at level 200, k at level 200) : rust_scope.
Open Scope rust_scope.

#[export] Instance Result_eq_dec {T E} `{EqDecision T, EqDecision E} : EqDecision (Result T E).
Proof. solve_decision. Defined.

Definition is_ok {T E} (r : Result T E) : bool :=
  match r with Ok _ => true | Err _ => false end.

Definition map_err {T E F} (f : E → F) (r : Result T E) : Result T F :=
  match r with Ok t => Ok t | Err e => Err (f e) end.

Definition map_ok {T U E} (f : T → U) (r : Result T E) : Result U E :=
  match r with Ok t => Ok (f t) | Err e => Err e end.

(** [Option::ok_or]. *)
Definition ok_or {T E} (o : option T) (e : E) : Result T E :=
  match o with Some t => Ok t | None => Err e end.

(** [Option::is_some_and] and [Option::is_none_or]. *)
Definition is_some_and {T} (o : option T) (p : T → bool) : bool :=
  match o with Some t => p t | None => false end.

Definition is_none_or {T} (o : option T) (p : T → bool) : bool :=
  match o with Some t => p t | None => true end.

(** [bool::then_some] / [bool::then]. *)
Definition then_some {T} (b : bool) (t : T) : option T := if b then Some t else None.

(** ** Tactics and hint databases *)

Create HintDb peinit discriminated.
Create Rewrite HintDb peinit_rw.

(** Case analysis on the scrutinee of every [match] or [if] of the goal and
    the hypotheses, dismissing the contradictory branches. *)
Ltac split_matches :=
  repeat (case_match; simplify_eq/=; try done).

(** Case analysis on the scrutinees of one hypothesis. *)
Ltac split_matches_in H :=
  repeat (match type of H with
          | context [match ?x with _ => _ end] =>
              let E := fresh "E" in destruct x eqn:E
          end; simplify_eq/=; try done).

(** Turn boolean tests of the code into propositions. *)
Ltac breflect :=
  repeat match goal with
  | H : bool_decide _ = true |- _ => apply bool_decide_eq_true in H
  | H : bool_decide _ = false |- _ => apply bool_decide_eq_false in H
  | H : negb _ = true |- _ => apply negb_true_iff in H
  | H : negb _ = false |- _ => apply negb_false_iff in H
  | H : (_ && _) = true |- _ => apply andb_true_iff in H as [? ?]
  | H : (_ || _) = false |- _ => apply orb_false_iff in H as [? ?]
  | H : (_ <? _)%Z = true |- _ => apply Z.ltb_lt in H
  | H : (_ <? _)%Z = false |- _ => apply Z.ltb_ge in H
  | H : (_ <=? _)%Z = true |- _ => apply Z.leb_le in H
  | H : (_ <=? _)%Z = false |- _ => apply Z.leb_gt in H
  | H : (_ =? _)%Z = true |- _ => apply Z.eqb_eq in H
  | H : (_ =? _)%Z = false |- _ => apply Z.eqb_neq in H
  end.

(** ** Machine integers

    A [uN] is a [Z] with [0 ≤ n < 2^N]. The saturating, checked and wrapping
    operations of the Rust standard library are written out. *)

Definition u64_max : Z := 18446744073709551615.
Definition u32_max : Z := 4294967295.

Definition is_u64 (n : Z) : Prop := (0 ≤ n ≤ u64_max)%Z.
Definition is_u32 (n : Z) : Prop := (0 ≤ n ≤ u32_max)%Z.

#[export] Instance is_u64_dec n : Decision (is_u64 n).
Proof. unfold is_u64; apply _. Defined.
#[export] Instance is_u32_dec n : Decision (is_u32 n).
Proof. unfold is_u32; apply _. Defined.

Definition u64_saturating_add (a b : Z) : Z := Z.min (a + b) u64_max.
Definition u64_saturating_sub (a b : Z) : Z := Z.max (a - b) 0.
Definition u64_saturating_mul (a b : Z) : Z := Z.min (a * b) u64_max.
Definition u32_saturating_add (a b : Z) : Z := Z.min (a + b) u32_max.

Definition u64_checked_add (a b : Z) : option Z :=
  if (a + b <=? u64_max)%Z then Some (a + b)%Z else None.
Definition u64_checked_sub (a b : Z) : option Z :=
  if (b <=? a)%Z then Some (a - b)%Z else None.

(** [a + b] and [a - b] on a [u64] as a release build computes them. *)
Definition u64_wrapping_add (a b : Z) : Z := ((a + b) mod 18446744073709551616)%Z.
Definition u64_wrapping_sub (a b : Z) : Z := ((a - b) mod 18446744073709551616)%Z.

Lemma u64_wrapping_add_small a b :
  is_u64 (a + b) → u64_wrapping_add a b = (a + b)%Z.
Proof. unfold is_u64, u64_max, u64_wrapping_add. intros. apply Z.mod_small. lia. Qed.

Lemma u64_wrapping_sub_small a b :
  is_u64 (a - b) → u64_wrapping_sub a b = (a - b)%Z.
Proof. unfold is_u64, u64_max, u64_wrapping_sub. intros. apply Z.mod_small. lia. Qed.

Lemma u64_wrapping_add_range a b : is_u64 (u64_wrapping_add a b).
Proof.
  unfold is_u64, u64_max, u64_wrapping_add.
  pose proof (Z.mod_pos_bound (a + b) 18446744073709551616). lia.
Qed.

(** A boolean fact about every integer below a bound, by evaluation. *)
Lemma Z_forall_below (P : Z → bool) (n : nat) :
  forallb (λ i, P (Z.of_nat i)) (seq 0 n) = true → ∀ x, (0 ≤ x < Z.of_nat n)%Z → P x = true.
Proof.
  intros H x Hx. rewrite List.forallb_forall in H.
  rewrite <-(Z2Nat.id x) by lia. apply H, List.in_seq. lia.
Qed.

(** ** Ordered maps and sets

    A [BTreeMap<K, V>] is a [gmap K V]; what distinguishes it from a hash map
    is that it iterates in key order, which [btree_iter] makes explicit. A
    [BTreeSet<K>] is a [gset K] with [btree_elements]. *)

Class BTreeKey (K : Type) `{EqDecision K, Countable K} := {
  btree_le : relation K;
  btree_le_dec :: RelDecision btree_le;
  btree_le_trans :: Transitive btree_le;
  btree_le_total :: Total btree_le;
  btree_le_antisymm :: AntiSymm (=) btree_le;
}.

Section BTree.
Context {K V : Type} `{BTreeKey K}.

Definition entry_le (p q : K * V) : Prop := btree_le p.1 q.1.

#[export] Instance entry_le_dec (p q : K * V) : Decision (entry_le p q).
Proof. unfold entry_le. apply _. Defined.

#[local] Instance entry_le_trans : Transitive entry_le.
Proof. intros x y z. unfold entry_le. apply transitivity. Qed.

#[local] Instance entry_le_total : Total entry_le.
Proof. intros x y. unfold entry_le. apply (total btree_le). Qed.

(** [map.iter()]. *)
Definition btree_iter (m : gmap K V) : list (K * V) := merge_sort entry_le (map_to_list m).

(** [map.keys()] and [map.values()]. *)
Definition btree_keys (m : gmap K V) : list K := (btree_iter m).*1.
Definition btree_values (m : gmap K V) : list V := (btree_iter m).*2.

Lemma btree_iter_Permutation m : btree_iter m ≡ₚ map_to_list m.
Proof. apply merge_sort_Permutation. Qed.

Lemma elem_of_btree_iter m k v : (k, v) ∈ btree_iter m ↔ m !! k = Some v.
Proof. by rewrite btree_iter_Permutation, elem_of_map_to_list. Qed.

Lemma btree_iter_sorted m : StronglySorted entry_le (btree_iter m).
Proof. apply (StronglySorted_merge_sort _). Qed.

Lemma NoDup_btree_keys m : NoDup (btree_keys m).
Proof. unfold btree_keys. rewrite btree_iter_Permutation. apply NoDup_fst_map_to_list. Qed.

Lemma elem_of_btree_keys m k : k ∈ btree_keys m ↔ is_Some (m !! k).
Proof.
  unfold btree_keys. rewrite list_elem_of_fmap. split.
  - intros ([k' v] & -> & ?%elem_of_btree_iter). eauto.
  - intros [v ?]. exists (k, v). by rewrite elem_of_btree_iter.
Qed.

Lemma elem_of_btree_values m v : v ∈ btree_values m ↔ ∃ k, m !! k = Some v.
Proof.
  unfold btree_values. rewrite list_elem_of_fmap. split.
  - intros ([k' v'] & -> & ?%elem_of_btree_iter). eauto.
  - intros [k ?]. exists (k, v). by rewrite elem_of_btree_iter.
Qed.
End BTree.

(** [BTreeSet::iter()]. *)
Definition btree_elements `{BTreeKey K} (s : gset K) : list K :=
  merge_sort btree_le (elements s).

Lemma elem_of_btree_elements `{BTreeKey K} (s : gset K) k : k ∈ btree_elements s ↔ k ∈ s.
Proof. unfold btree_elements. by rewrite merge_sort_Permutation, elem_of_elements. Qed.

Lemma NoDup_btree_elements `{BTreeKey K} (s : gset K) : NoDup (btree_elements s).
Proof. unfold btree_elements. rewrite merge_sort_Permutation. apply NoDup_elements. Qed.

(** [BTreeSet::insert], without the walk over the whole set that a union with a
    singleton makes. *)
Definition set_insert `{Countable K} (x : K) (s : gset K) : gset K :=
  mapset.Mapset (<[x := tt]> (mapset.mapset_car s)).

Lemma elem_of_set_insert `{Countable K} (x y : K) (s : gset K) :
  y ∈ set_insert x s ↔ y = x ∨ y ∈ s.
Proof.
  unfold set_insert, elem_of, gset_elem_of, mapset.mapset_elem_of. simpl.
  rewrite lookup_insert_Some. destruct (decide (y = x)) as [->|]; naive_solver.
Qed.

#[export] Hint Rewrite @elem_of_btree_keys @elem_of_btree_iter @elem_of_btree_values
  @elem_of_btree_elements : peinit_rw.

(** Identifiers are ordered as integers. *)
#[export] Program Instance Z_btree_key : BTreeKey Z := {| btree_le := Z.le |}.

(** ** Strings

    A Rust [String] is its UTF-8 bytes: a [string] of Rocq, whose characters
    are bytes. [str]'s order is the bytewise lexicographic one. *)

Definition str_le (s t : string) : Prop := String.leb s t = true.
Definition str_lt (s t : string) : bool := String.ltb s t.

Lemma ascii_compare_N a b : Ascii.compare a b = N.compare (Ascii.N_of_ascii a) (Ascii.N_of_ascii b).
Proof. reflexivity. Qed.

Lemma N_of_ascii_inj a b : Ascii.N_of_ascii a = Ascii.N_of_ascii b → a = b.
Proof. intros E. by rewrite <-(Ascii.ascii_N_embedding a), E, Ascii.ascii_N_embedding. Qed.

Lemma str_le_cons a b s t :
  str_le (String a s) (String b t) ↔
  (Ascii.N_of_ascii a < Ascii.N_of_ascii b)%N ∨ a = b ∧ str_le s t.
Proof.
  unfold str_le, String.leb. simpl. rewrite ascii_compare_N.
  destruct (N.compare_spec (Ascii.N_of_ascii a) (Ascii.N_of_ascii b)) as [E|E|E].
  - apply N_of_ascii_inj in E as ->. split; [tauto|]. intros [?|[_ ?]]; [lia|done].
  - split; [auto|done].
  - split; [done|]. intros [?|[-> _]]; lia.
Qed.

#[export] Instance str_le_dec : RelDecision str_le.
Proof. intros s t. unfold str_le. apply _. Defined.

#[export] Instance str_le_trans : Transitive str_le.
Proof.
  intros s t u. revert s u. induction t as [|b t IH]; intros [|a s] [|c u]; try done.
  rewrite !str_le_cons. intros [?|[-> ?]] [?|[-> ?]]; [left; lia|auto|auto|].
  right. eauto.
Qed.

#[export] Instance str_le_total : Total str_le.
Proof. intros s t. apply String.leb_total. Qed.

#[export] Instance str_le_antisymm : AntiSymm (=) str_le.
Proof. intros s t. apply String.leb_antisym. Qed.

#[export] Instance string_btree_key : BTreeKey string := {| btree_le := str_le |}.

(** Pairs are ordered lexicographically. *)
Section ProdKey.
Context `{Countable K, !BTreeKey K, Countable L, !BTreeKey L}.

Definition prod_le (p q : K * L) : Prop :=
  btree_le p.1 q.1 ∧ (p.1 = q.1 → btree_le p.2 q.2).

#[export] Instance prod_le_dec : RelDecision prod_le.
Proof. intros p q. unfold prod_le. apply _. Defined.

#[export] Instance prod_le_trans : Transitive prod_le.
Proof.
  intros [a b] [c d] [e f] [H1 H2] [H3 H4]; simpl in *. split; simpl; [by etrans|]. intros <-.
  assert (a = c) as <- by (by apply (anti_symm btree_le)). by etrans; [apply H2|apply H4].
Qed.

#[export] Instance prod_le_total : Total prod_le.
Proof.
  intros [a b] [c d]. unfold prod_le. simpl. destruct (decide (a = c)) as [<-|Hne].
  - destruct (total btree_le a a), (total btree_le b d); auto.
  - destruct (total btree_le a c); [left|right]; split; try done; congruence.
Qed.

#[export] Instance prod_le_antisymm : AntiSymm (=) prod_le.
Proof.
  intros [a b] [c d] [H1 H2] [H3 H4]; simpl in *.
  assert (a = c) as <- by (by apply (anti_symm btree_le)).
  f_equal. apply (anti_symm btree_le); auto.
Qed.

#[export] Instance prod_btree_key : BTreeKey (K * L) := {| btree_le := prod_le |}.
End ProdKey.

Lemma str_lt_le s t : str_lt s t = true ↔ str_le s t ∧ s ≠ t.
Proof.
  unfold str_lt, str_le, String.ltb, String.leb.
  destruct (String.compare s t) eqn:E; split; try done.
  - intros [_ ?]. by apply String.compare_eq_iff in E.
  - intros _. split; [done|]. intros ->.
    pose proof (String.compare_antisym t t) as A. rewrite E in A. done.
  - by intros [? _].
Qed.

(** ** Lists *)

(** [Iterator::find_map]. *)
Fixpoint find_map {A B} (f : A → option B) (l : list A) : option B :=
  match l with
  | [] => None
  | x :: l => match f x with Some y => Some y | None => find_map f l end
  end.

(** [Iterator::find] with a boolean test. *)
Fixpoint find_first {A} (p : A → bool) (l : list A) : option A :=
  match l with
  | [] => None
  | x :: l => if p x then Some x else find_first p l
  end.

Lemma find_first_Some {A} (p : A → bool) l x :
  find_first p l = Some x → x ∈ l ∧ p x = true.
Proof.
  induction l as [|y l IH]; simpl; [done|]. case_match.
  - intros [= ->]. split; [left|done].
  - intros [? ?]%IH. split; [by right|done].
Qed.

Lemma find_first_None {A} (p : A → bool) l :
  find_first p l = None ↔ ∀ x, x ∈ l → p x = false.
Proof.
  induction l as [|y l IH]; simpl.
  - split; [intros _ x Hx; by apply elem_of_nil in Hx|done].
  - destruct (p y) eqn:E.
    + split; [done|]. intros H. specialize (H y). rewrite E in H. discriminate H. left.
    + rewrite IH. split.
      * intros H x [->|?]%elem_of_cons; auto.
      * intros H x ?. apply H. by right.
Qed.

Lemma find_map_Some {A B} (f : A → option B) l y :
  find_map f l = Some y → ∃ x, x ∈ l ∧ f x = Some y.
Proof.
  induction l as [|x l IH]; simpl; [done|]. destruct (f x) eqn:E.
  - intros [= ->]. exists x. split; [left|done].
  - intros (z & ? & ?)%IH. exists z. split; [by right|done].
Qed.

Lemma find_map_None {A B} (f : A → option B) l :
  find_map f l = None ↔ ∀ x, x ∈ l → f x = None.
Proof.
  induction l as [|y l IH]; simpl.
  - split; [intros _ x Hx; by apply elem_of_nil in Hx|done].
  - destruct (f y) eqn:E.
    + split; [done|]. intros H. specialize (H y). rewrite E in H. discriminate H. left.
    + rewrite IH. split.
      * intros H x [->|?]%elem_of_cons; auto.
      * intros H x ?. apply H. by right.
Qed.

(** [Iterator::min] over a sequence of integers. *)
Definition list_min (l : list Z) : option Z :=
  foldr (λ x acc, match acc with None => Some x | Some y => Some (Z.min x y) end) None l.

Lemma list_min_Some l m : list_min l = Some m → m ∈ l ∧ ∀ x, x ∈ l → (m ≤ x)%Z.
Proof.
  revert m. induction l as [|x l IH]; simpl; intros m; [done|].
  destruct (list_min l) as [y|] eqn:E.
  - intros [= <-]. destruct (IH y eq_refl) as [Hin Hmin]. split.
    + destruct (Z.min_spec x y) as [[_ ->]|[_ ->]]; [left|by right].
    + intros z [->|Hz]%elem_of_cons; [lia|]. specialize (Hmin z Hz). lia.
  - intros [= <-]. destruct l as [|? l']; [|simpl in E; case_match; done].
    split; [left|]. intros z [->|Hz]%elem_of_cons; [lia|by apply elem_of_nil in Hz].
Qed.

Lemma list_min_None l : list_min l = None ↔ l = [].
Proof. destruct l; simpl; [done|]. split; [by case_match|done]. Qed.

Lemma filter_none {A} (P : A → Prop) `{!∀ x, Decision (P x)} (l : list A) :
  (∀ x, x ∈ l → ¬ P x) → filter P l = [].
Proof.
  intros Hnone. destruct (filter P l) as [|x k] eqn:E; [done|].
  assert (x ∈ filter P l) as [? Hx]%list_elem_of_filter by (rewrite E; left). by destruct (Hnone x Hx).
Qed.

(** [Vec::retain]. *)
Definition retain {A} (p : A → bool) (l : list A) : list A := filter (λ x, p x = true) l.

Lemma elem_of_retain {A} (p : A → bool) l x : x ∈ retain p l ↔ p x = true ∧ x ∈ l.
Proof. unfold retain. by rewrite list_elem_of_filter. Qed.

Lemma NoDup_retain {A} (p : A → bool) l : NoDup l → NoDup (retain p l).
Proof. apply NoDup_filter. Qed.

#[export] Hint Rewrite @elem_of_retain : peinit_rw.
#[export] Hint Resolve NoDup_retain NoDup_btree_keys NoDup_btree_elements : peinit.

(** [Iterator::min_by_key]: the first of the least elements. *)
Definition min_by {A} (le : A → A → Prop) `{!RelDecision le} (l : list A) : option A :=
  match l with
  | [] => None
  | a :: l => Some (foldl (λ best x, if decide (le best x) then best else x) a l)
  end.

(** [sort_by_key] is stable: an element is inserted behind its equals. *)
Fixpoint insert_by {A} (le : A → A → Prop) `{!RelDecision le} (x : A) (l : list A) : list A :=
  match l with
  | [] => [x]
  | y :: l => if decide (le y x) then y :: insert_by le x l else x :: y :: l
  end.
Definition sort_by {A} (le : A → A → Prop) `{!RelDecision le} (l : list A) : list A :=
  foldl (λ sorted x, insert_by le x sorted) [] l.

Section MinSort.
Context {A : Type} (le : A → A → Prop) `{!RelDecision le, !Total le, !Transitive le}.

Lemma min_by_snoc l x :
  min_by le (l ++ [x]) =
    Some (match min_by le l with None => x | Some m => if decide (le m x) then m else x end).
Proof. destruct l as [|a l]; [done|]. simpl. by rewrite foldl_app. Qed.

Lemma head_insert_by x l :
  head (insert_by le x l) =
    Some (match head l with None => x | Some m => if decide (le m x) then m else x end).
Proof. destruct l as [|y l]; [done|]. simpl. by destruct (decide (le y x)). Qed.

Lemma head_sort_by l : head (sort_by le l) = min_by le l.
Proof.
  induction l as [|x l IH] using rev_ind; [done|]. unfold sort_by in *.
  rewrite foldl_app. cbn [foldl]. by rewrite head_insert_by, IH, min_by_snoc.
Qed.

Lemma min_by_filter (P : A → Prop) `{!∀ x, Decision (P x)} l :
  (∀ a b, le a b → P b → P a) →
  min_by le (filter P l) = match min_by le l with Some m => if decide (P m) then Some m else None | None => None end.
Proof.
  intros Hdown. induction l as [|x l IH] using rev_ind; [done|].
  rewrite filter_app, min_by_snoc. rewrite filter_cons, filter_nil.
  destruct (decide (P x)) as [Hx|Hx].
  - rewrite min_by_snoc, IH. destruct (min_by le l) as [m|]; [|by rewrite decide_True].
    destruct (decide (P m)) as [Hm|Hm]; destruct (decide (le m x)) as [Hle|Hle];
      rewrite ?decide_True by done; try done. by destruct Hm; eapply Hdown.
  - rewrite app_nil_r, IH. destruct (min_by le l) as [m|]; [|by rewrite decide_False].
    destruct (decide (le m x)) as [Hle|Hle]; [done|].
    rewrite (decide_False (P := P x)) by done. rewrite decide_False; [done|]. intros Hm. apply Hx.
    destruct (total le m x); [done|]. by eapply Hdown.
Qed.
End MinSort.

(** ** Loops whose body may fail

    [try_fold f l s] runs [f] on each element in turn, threading the state;
    [None] ends it. The loops whose body recurses on fuel are such loops. *)
Fixpoint try_fold {A S} (f : A → S → option S) (l : list A) (s : S) : option S :=
  match l with
  | [] => Some s
  | x :: l => s ← f x s; try_fold f l s
  end.

Lemma try_fold_app {A S} (f : A → S → option S) l k s :
  try_fold f (l ++ k) s = s ← try_fold f l s; try_fold f k s.
Proof. revert s. induction l as [|x l IH]; intros s; simpl; [done|]. by destruct (f x s); simpl. Qed.

Lemma try_fold_bind {A B S} (f : B → S → option S) (g : A → list B) l s :
  try_fold f (l ≫= g) s = try_fold (λ x, try_fold f (g x)) l s.
Proof.
  revert s. induction l as [|x l IH]; intros s; simpl; [done|]. rewrite try_fold_app.
  by destruct (try_fold f (g x) s); simpl.
Qed.

(** Two loops whose bodies agree where [P] holds, which the bodies keep. *)
Lemma try_fold_ext {A S} (f g : A → S → option S) (P : S → Prop) l s :
  (∀ x s, x ∈ l → P s → f x s = g x s ∧ ∀ s', g x s = Some s' → P s') → P s → try_fold f l s = try_fold g l s.
Proof.
  revert s. induction l as [|x l IH]; intros s Hfg Hs; simpl; [done|].
  destruct (Hfg x s ltac:(left) Hs) as [-> HP]. destruct (g x s) as [s'|]; simpl; [|done].
  apply IH; [|by apply HP]. intros. apply Hfg; [by right|done].
Qed.

Lemma try_fold_inv {A S} (f : A → S → option S) (P : S → Prop) l s s' :
  (∀ x s s', x ∈ l → P s → f x s = Some s' → P s') → P s → try_fold f l s = Some s' → P s'.
Proof.
  revert s. induction l as [|x l IH]; intros s Hf Hs; simpl; [by intros [= <-]|].
  destruct (f x s) as [s1|] eqn:E; simpl; [|done]. apply IH; [intros ????; apply Hf; by right|].
  eapply Hf; [left|done..].
Qed.

(** A loop whose every step succeeds and establishes a relation that composes
    does so as a whole. [P] holds of the state throughout. *)
Lemma try_fold_rel {A S} (f : A → S → option S) (P : S → Prop) (R : list A → S → S → Prop) :
  (∀ s, P s → R [] s s) →
  (∀ x l s s' s'', R [x] s s' → R l s' s'' → R (x :: l) s s'') →
  ∀ l, (∀ x s, x ∈ l → P s → ∃ s', f x s = Some s' ∧ P s' ∧ R [x] s s') →
  ∀ s, P s → ∃ s', try_fold f l s = Some s' ∧ P s' ∧ R l s s'.
Proof.
  intros Hnil Hcons l. induction l as [|x l IH]; intros Hf s Hs; simpl; [eauto|].
  destruct (Hf x s ltac:(left) Hs) as (s1 & -> & Hs1 & Hr). simpl.
  destruct (IH ltac:(intros; apply Hf; [by right|done]) s1 Hs1) as (s2 & -> & Hs2 & Hr2). eauto 6.
Qed.

(** ** Loops that visit each key once

    A loop over distinct keys whose body reads and writes only the entry of its
    own key: the table it leaves and what it accumulates are determined by the
    entries it started from. *)
Section KeyedLoop.
Context {K V S X : Type} `{Countable K}.
Context (f : K → X → option V → option V) (note : K → X → option V → S → S).

Definition keyed_step (st : gmap K V * S) (p : K * X) : gmap K V * S :=
  (partial_alter (f p.1 p.2) p.1 st.1, note p.1 p.2 (st.1 !! p.1) st.2).

Lemma keyed_loop_other l st k : k ∉ l.*1 → (foldl keyed_step st l).1 !! k = st.1 !! k.
Proof.
  revert st. induction l as [|[k' x] l IH]; intros st; simpl; [done|].
  rewrite not_elem_of_cons. intros [Hne Hk]. rewrite IH by done. simpl.
  by rewrite lookup_partial_alter_ne by congruence.
Qed.

Lemma keyed_loop_at l st k x :
  NoDup (l.*1) → (k, x) ∈ l → (foldl keyed_step st l).1 !! k = f k x (st.1 !! k).
Proof.
  revert st. induction l as [|[k' x'] l IH]; intros st; simpl; [by rewrite elem_of_nil|].
  rewrite NoDup_cons, elem_of_cons. intros [Hk' Hl] [[= -> ->]|Hin].
  - rewrite keyed_loop_other by done. simpl. by rewrite lookup_partial_alter_eq.
  - rewrite IH by done. simpl. rewrite lookup_partial_alter_ne; [done|].
    intros <-. apply Hk'. by apply (list_elem_of_fmap_2 fst l (k', x)).
Qed.

Lemma keyed_loop_notes l st :
  NoDup (l.*1) →
  (foldl keyed_step st l).2 = foldl (λ s p, note p.1 p.2 (st.1 !! p.1) s) st.2 l.
Proof.
  revert st. induction l as [|[k x] l IH]; intros [t s]; simpl; [done|].
  rewrite NoDup_cons. intros [Hk Hl]. rewrite IH by done. simpl.
  generalize (note k x (t !! k) s). clear IH Hl s. revert Hk.
  induction l as [|[k' x'] l IH]; intros Hk s; simpl; [done|].
  simpl in Hk. rewrite not_elem_of_cons in Hk. destruct Hk as [Hne Hk].
  rewrite lookup_partial_alter_ne by congruence. by apply IH.
Qed.
End KeyedLoop.

(** A table is unchanged when the entry is put back as it was. *)
Lemma partial_alter_same `{Countable K} {V} (f : option V → option V) (m : gmap K V) k :
  f (m !! k) = m !! k → partial_alter f k m = m.
Proof.
  intros E. apply map_eq. intros k'. destruct (decide (k = k')) as [->|].
  - by rewrite lookup_partial_alter_eq.
  - by rewrite lookup_partial_alter_ne.
Qed.

Lemma partial_alter_to_insert `{Countable K} {V} (f : option V → option V) (m : gmap K V) k v :
  f (m !! k) = Some v → partial_alter f k m = <[k := v]> m.
Proof.
  intros E. apply map_eq. intros k'. destruct (decide (k = k')) as [->|].
  - by rewrite lookup_partial_alter_eq, lookup_insert_eq.
  - by rewrite lookup_partial_alter_ne, lookup_insert_ne.
Qed.

Lemma partial_alter_to_delete `{Countable K} {V} (f : option V → option V) (m : gmap K V) k :
  f (m !! k) = None → partial_alter f k m = delete k m.
Proof.
  intros E. apply map_eq. intros k'. destruct (decide (k = k')) as [->|].
  - by rewrite lookup_partial_alter_eq, lookup_delete_eq.
  - by rewrite lookup_partial_alter_ne, lookup_delete_ne.
Qed.

(** ** Active lists

    A [BTreeMap<String, Vec<Id>>] that drops a key whose list becomes empty:
    the index both stores keep of what is active for each service. *)
Section ActiveIndex.
Context {A : Type} `{EqDecision A}.

Definition index_get (m : gmap string (list A)) (service : string) : list A :=
  default [] (m !! service).

Definition index_remove (service : string) (id : A) (m : gmap string (list A))
    : gmap string (list A) :=
  match m !! service with
  | None => m
  | Some active =>
      match retain (λ active_id, negb (bool_decide (active_id = id))) active with
      | [] => delete service m
      | active => <[service := active]> m
      end
  end.

(** Lists are never kept empty and name nothing twice. *)
Definition index_wf (m : gmap string (list A)) : Prop :=
  ∀ service l, m !! service = Some l → l ≠ [] ∧ NoDup l.

Lemma index_get_remove service id m service' :
  index_get (index_remove service id m) service' =
  if bool_decide (service' = service)
  then retain (λ i, negb (bool_decide (i = id))) (index_get m service')
  else index_get m service'.
Proof.
  unfold index_remove, index_get. destruct (m !! service) as [l|] eqn:E.
  - destruct (retain _ l) as [|x l'] eqn:Er; simpl; case_bool_decide as Hs; subst;
      rewrite ?lookup_delete_eq, ?lookup_insert_eq, ?E; simpl; rewrite ?Er; try done;
      by rewrite ?lookup_delete_ne, ?lookup_insert_ne.
  - case_bool_decide; subst; [|done]. by rewrite E.
Qed.

Lemma index_wf_remove service id m : index_wf m → index_wf (index_remove service id m).
Proof.
  intros Hl service' l. unfold index_remove.
  destruct (m !! service) as [l0|] eqn:E; [|apply Hl].
  destruct (retain _ l0) as [|x l'] eqn:Er.
  - intros [_ ?]%lookup_delete_Some. by apply (Hl service').
  - rewrite lookup_insert_Some. intros [[<- <-]|[_ ?]]; [|by apply (Hl service')]. split; [done|].
    rewrite <-Er. apply NoDup_retain. by destruct (Hl _ _ E).
Qed.

Lemma index_get_NoDup m service : index_wf m → NoDup (index_get m service).
Proof.
  intros Hm. unfold index_get. destruct (m !! service) as [l|] eqn:E; simpl; [|constructor].
  by destruct (Hm _ _ E).
Qed.

Lemma index_get_insert service l m service' :
  index_get (<[service := l]> m) service' =
  if bool_decide (service' = service) then l else index_get m service'.
Proof.
  unfold index_get. case_bool_decide as Hs; [by rewrite Hs, lookup_insert_eq|].
  by rewrite lookup_insert_ne by done.
Qed.

Lemma index_wf_insert service l m : l ≠ [] → NoDup l → index_wf m → index_wf (<[service := l]> m).
Proof. intros ? ? Hm service' l'. rewrite lookup_insert_Some. intros [[_ <-]|[_ ?]]; [done|]. by apply (Hm service'). Qed.

Lemma NoDup_snoc (l : list A) x : NoDup l → x ∉ l → NoDup (l ++ [x]).
Proof.
  intros Hl Hx. apply NoDup_app. split_and!; [done| |apply NoDup_singleton].
  by intros y Hy ->%list_elem_of_singleton.
Qed.
End ActiveIndex.
