(* ===== verification/RustStr.v ===== *)
(** * The parts of Rust's [str] and [u8] the program uses

    Strings are their UTF-8 bytes. Searching for an ASCII character or an ASCII
    substring in UTF-8 is a bytewise search, so the functions below work on
    bytes; [is_utf8] is the check [String::from_utf8] makes. *)

From stdpp Require Import pretty.
From S2P Require Import Prelude.
From Stdlib Require Import Ascii String.
Open Scope string_scope.

(** [+:+] reduces on a constructor, which stdpp switches off. *)
#[global] Arguments String.append !s1 s2 / : simpl nomatch.

(** ** Characters *)

Definition byte_val (c : ascii) : Z := Z.of_N (N_of_ascii c).

Definition in_range (lo hi : Z) (c : ascii) : bool :=
  (lo <=? byte_val c)%Z && (byte_val c <=? hi)%Z.

(** [u8::is_ascii_digit] and [u8::is_ascii_alphanumeric]. *)
Definition is_ascii_digit (c : ascii) : bool := in_range 48 57 c.
Definition is_ascii_alphanumeric (c : ascii) : bool :=
  is_ascii_digit c || in_range 65 90 c || in_range 97 122 c.

(** ** Whole strings *)

(** [bytes.iter().all(p)]. *)
Fixpoint str_all (p : ascii → bool) (s : string) : bool :=
  match s with EmptyString => true | String c s => p c && str_all p s end.

Definition str_is_empty (s : string) : bool :=
  match s with EmptyString => true | _ => false end.

Definition str_contains_char (c : ascii) (s : string) : bool :=
  negb (str_all (λ d, negb (Ascii.eqb d c)) s).

(** [str::split_once] at a character: the text before and after its first
    occurrence. *)
Fixpoint split_once (c : ascii) (s : string) : option (string * string) :=
  match s with
  | EmptyString => None
  | String d s =>
      if Ascii.eqb d c then Some (EmptyString, s)
      else match split_once c s with
           | Some (a, b) => Some (String d a, b)
           | None => None
           end
  end.

(** [str::strip_prefix] and [str::starts_with]. *)
Fixpoint strip_prefix (p s : string) : option string :=
  match p, s with
  | EmptyString, _ => Some s
  | String a p, String b s => if Ascii.eqb a b then strip_prefix p s else None
  | String _ _, EmptyString => None
  end.

Definition starts_with (p s : string) : bool :=
  match strip_prefix p s with Some _ => true | None => false end.

(** [str::split] at a character: at least one piece, [n] occurrences give
    [n + 1]. *)
Fixpoint split_char (c : ascii) (s : string) : list string :=
  match s with
  | EmptyString => [EmptyString]
  | String d s =>
      if Ascii.eqb d c then EmptyString :: split_char c s
      else match split_char c s with
           | piece :: rest => String d piece :: rest
           | [] => [String d EmptyString]
           end
  end.

(** The first piece of [str::split] at a substring: everything before its
    first occurrence. *)
Fixpoint split_str_first (sep s : string) : string :=
  if starts_with sep s then EmptyString
  else match s with
       | EmptyString => EmptyString
       | String c s => String c (split_str_first sep s)
       end.

(** [slice.join(sep)]. *)
Fixpoint str_join (sep : string) (l : list string) : string :=
  match l with
  | [] => EmptyString
  | [s] => s
  | s :: l => s +:+ sep +:+ str_join sep l
  end.

(** [str::lines]: the pieces between newlines, without a trailing empty piece,
    each without its final carriage return. *)
Definition newline : ascii := ascii_of_nat 10.
Definition carriage_return : ascii := ascii_of_nat 13.

Fixpoint strip_cr (s : string) : string :=
  match s with
  | EmptyString => EmptyString
  | String c EmptyString => if Ascii.eqb c carriage_return then EmptyString else s
  | String c s => String c (strip_cr s)
  end.

Fixpoint drop_last_empty (l : list string) : list string :=
  match l with
  | [] => []
  | [s] => if str_is_empty s then [] else [s]
  | s :: l => s :: drop_last_empty l
  end.

(** A final line not ended by a newline keeps its carriage return. *)
Fixpoint strip_line_ends (l : list string) : list string :=
  match l with
  | [] => []
  | [s] => [s]
  | s :: l => strip_cr s :: strip_line_ends l
  end.

Definition lines (s : string) : list string :=
  drop_last_empty (strip_line_ends (split_char newline s)).

(** ** Separators of more than one character *)

Definition dot : ascii := "."%char.

Definition push_char (c : ascii) (pieces : list string) : list string :=
  match pieces with
  | piece :: rest => String c piece :: rest
  | [] => [String c EmptyString]
  end.

(** [str::split("..")]: occurrences do not overlap. *)
Fixpoint split_dotdot (s : string) : list string :=
  match s with
  | EmptyString => [EmptyString]
  | String a s =>
      match s with
      | String b rest =>
          if Ascii.eqb a dot && Ascii.eqb b dot then EmptyString :: split_dotdot rest
          else push_char a (split_dotdot s)
      | EmptyString => [String a EmptyString]
      end
  end.

(** [str::split_once("..")]. *)
Fixpoint split_once_dotdot (s : string) : option (string * string) :=
  match s with
  | EmptyString => None
  | String a s =>
      match strip_prefix ".." (String a s) with
      | Some rest => Some (EmptyString, rest)
      | None =>
          match split_once_dotdot s with
          | Some (before, after) => Some (String a before, after)
          | None => None
          end
      end
  end.

(** [str::rsplit_once] at a character: the text around its last occurrence. *)
Fixpoint rsplit_once (c : ascii) (s : string) : option (string * string) :=
  match s with
  | EmptyString => None
  | String d s =>
      match rsplit_once c s with
      | Some (a, b) => Some (String d a, b)
      | None => if Ascii.eqb d c then Some (EmptyString, s) else None
      end
  end.

(** [str::strip_suffix] of a character. *)
Fixpoint strip_suffix_char (c : ascii) (s : string) : option string :=
  match s with
  | EmptyString => None
  | String d EmptyString => if Ascii.eqb d c then Some EmptyString else None
  | String d s => match strip_suffix_char c s with Some s => Some (String d s) | None => None end
  end.

(** ** White space

    [str::trim] and [str::split_whitespace] go by the Unicode property
    [White_Space]. [white_space_len] is the number of bytes of the white-space
    character the text starts with, 0 if it starts with none. *)

Definition white_space_len (s : string) : nat :=
  match s with
  | EmptyString => 0
  | String a s1 =>
      if in_range 9 13 a || in_range 32 32 a then 1
      else match s1 with
      | EmptyString => 0
      | String b s2 =>
          if in_range 194 194 a && (in_range 133 133 b || in_range 160 160 b) then 2
          else match s2 with
          | EmptyString => 0
          | String c _ =>
              if (in_range 225 225 a && in_range 154 154 b && in_range 128 128 c)
                 || (in_range 226 226 a && in_range 128 128 b
                     && (in_range 128 138 c || in_range 168 169 c || in_range 175 175 c))
                 || (in_range 226 226 a && in_range 129 129 b && in_range 159 159 c)
                 || (in_range 227 227 a && in_range 128 128 b && in_range 128 128 c)
              then 3 else 0
          end
      end
  end.

(** The pieces between white-space characters; [skip] counts the bytes left of
    the one being passed over. *)
Fixpoint split_at_white_space (skip : nat) (s : string) : list string :=
  match s with
  | EmptyString => [EmptyString]
  | String c rest =>
      match skip with
      | S skip => split_at_white_space skip rest
      | O =>
          match white_space_len s with
          | O => push_char c (split_at_white_space O rest)
          | S skip => EmptyString :: split_at_white_space skip rest
          end
      end
  end.

Definition split_whitespace (s : string) : list string :=
  List.filter (λ piece, negb (str_is_empty piece)) (split_at_white_space O s).

Fixpoint trim_start (skip : nat) (s : string) : string :=
  match s with
  | EmptyString => EmptyString
  | String _ rest =>
      match skip with
      | S skip => trim_start skip rest
      | O => match white_space_len s with O => s | S skip => trim_start skip rest end
      end
  end.

Fixpoint trim_end (s : string) : string :=
  match split_whitespace s with
  | [] => EmptyString
  | _ => match s with EmptyString => EmptyString | String c s => String c (trim_end s) end
  end.

Definition trim (s : string) : string := trim_end (trim_start O s).

(** [str::to_ascii_lowercase]. *)
Fixpoint to_ascii_lowercase (s : string) : string :=
  match s with
  | EmptyString => EmptyString
  | String c s =>
      String (if in_range 65 90 c then ascii_of_N (N_of_ascii c + 32) else c) (to_ascii_lowercase s)
  end.

(** [str::parse::<u16>]: an optional plus sign and at least one digit, without
    overflow. *)
Fixpoint parse_decimal (acc : Z) (s : string) : option Z :=
  match s with
  | EmptyString => Some acc
  | String c s =>
      if is_ascii_digit c then parse_decimal (acc * 10 + (byte_val c - 48))%Z s else None
  end.

Definition u16_max : Z := 65535.

Definition parse_u16 (s : string) : option Z :=
  let digits := match strip_prefix "+" s with Some digits => digits | None => s end in
  if str_is_empty digits then None
  else match parse_decimal 0 digits with
       | Some n => if (n <=? u16_max)%Z then Some n else None
       | None => None
       end.

(** [str::parse::<u64>]. *)
Definition parse_u64 (s : string) : option Z :=
  let digits := match strip_prefix "+" s with Some digits => digits | None => s end in
  if str_is_empty digits then None
  else match parse_decimal 0 digits with
       | Some n => if (n <=? u64_max)%Z then Some n else None
       | None => None
       end.

(** Decimal formatting of an unsigned integer, as [format!("{n}")]. *)
Definition u64_to_string (n : Z) : string := pretty (Z.to_N n).

(** ** Debug formatting of a string, [format!("{s:?}")]

    Quotes, backslashes and control characters are escaped. A byte past ASCII
    is left as it is, which is what happens to every printable character. *)

Definition quote : ascii := ascii_of_nat 34.
Definition backslash : ascii := ascii_of_nat 92.

Definition hex_lower (n : Z) : ascii :=
  if (n <? 10)%Z then ascii_of_nat (48 + Z.to_nat n) else ascii_of_nat (87 + Z.to_nat n).

Definition debug_char (c : ascii) : string :=
  let v := byte_val c in
  if (v =? 0)%Z then String backslash "0"
  else if (v =? 9)%Z then String backslash "t"
  else if (v =? 10)%Z then String backslash "n"
  else if (v =? 13)%Z then String backslash "r"
  else if Ascii.eqb c quote then String backslash (String quote "")
  else if Ascii.eqb c backslash then String backslash (String backslash "")
  else if (v <? 32)%Z || (v =? 127)%Z then
    String backslash ("u{" +:+
      (if (v <? 16)%Z then String (hex_lower v) "" else String (hex_lower (v / 16)) (String (hex_lower (v mod 16)) ""))
      +:+ "}")
  else String c "".

Fixpoint debug_chars (s : string) : string :=
  match s with
  | EmptyString => ""
  | String c s => debug_char c +:+ debug_chars s
  end.

Definition str_debug (s : string) : string := String quote (debug_chars s) +:+ String quote "".

(** ** UTF-8 *)

Definition is_continuation (c : ascii) : bool := in_range 128 191 c.

(** The well-formed byte sequences (Unicode, table 3-7), as
    [core::str::from_utf8] accepts them: no overlong forms, no surrogates,
    nothing past U+10FFFF. *)
Fixpoint is_utf8 (s : string) : bool :=
  match s with
  | EmptyString => true
  | String a s =>
      if in_range 0 127 a then is_utf8 s
      else match s with
           | EmptyString => false
           | String b s =>
               if in_range 194 223 a then is_continuation b && is_utf8 s
               else match s with
                    | EmptyString => false
                    | String c s =>
                        if in_range 224 239 a then
                          (if (byte_val a =? 224)%Z then in_range 160 191 b
                           else if (byte_val a =? 237)%Z then in_range 128 159 b
                           else is_continuation b) && is_continuation c && is_utf8 s
                        else match s with
                             | EmptyString => false
                             | String d s =>
                                 in_range 240 244 a &&
                                 (if (byte_val a =? 240)%Z then in_range 144 191 b
                                  else if (byte_val a =? 244)%Z then in_range 128 143 b
                                  else is_continuation b) &&
                                 is_continuation c && is_continuation d && is_utf8 s
                             end
                    end
           end
  end.

(** ** Lemmas *)

Lemma byte_val_range c : (0 ≤ byte_val c < 256)%Z.
Proof. unfold byte_val. pose proof (N_ascii_bounded c). lia. Qed.

Lemma byte_val_inj a b : byte_val a = byte_val b → a = b.
Proof. unfold byte_val. intros. apply N_of_ascii_inj. lia. Qed.

Lemma str_app_assoc (s t u : string) : (s +:+ t) +:+ u = s +:+ (t +:+ u).
Proof. induction s; simpl; congruence. Qed.

Lemma str_app_nil_r (s : string) : s +:+ "" = s.
Proof. induction s; simpl; congruence. Qed.

Lemma str_app_inj_l (s t u : string) : s +:+ t = s +:+ u → t = u.
Proof. induction s; simpl; [done|]. intros [= ?]. auto. Qed.

Lemma str_all_app p (s t : string) : str_all p (s +:+ t) = str_all p s && str_all p t.
Proof. induction s; simpl; [done|]. by rewrite IHs, andb_assoc. Qed.

Lemma str_all_impl (p q : ascii → bool) s :
  (∀ c, p c = true → q c = true) → str_all p s = true → str_all q s = true.
Proof. intros Hpq. induction s; simpl; [done|]. intros [? ?]%andb_true_iff. rewrite Hpq, IHs; done. Qed.

Lemma strip_prefix_app p s : strip_prefix p (p +:+ s) = Some s.
Proof. induction p; simpl; [done|]. by rewrite Ascii.eqb_refl. Qed.

Lemma strip_prefix_Some p s r : strip_prefix p s = Some r ↔ s = p +:+ r.
Proof.
  revert s. induction p as [|a p IH]; intros s; simpl.
  - split; congruence.
  - destruct s as [|b s]; [done|]. destruct (Ascii.eqb_spec a b) as [->|Hne].
    + rewrite IH. split; congruence.
    + split; [done|]. intros [= -> _]. done.
Qed.

Lemma split_once_app c a b :
  str_all (λ d, negb (Ascii.eqb d c)) a = true →
  split_once c (a +:+ String c b) = Some (a, b).
Proof.
  induction a as [|d a IH]; simpl.
  - intros _. by rewrite Ascii.eqb_refl.
  - intros [Hd Ha]%andb_true_iff. apply negb_true_iff in Hd. by rewrite Hd, IH.
Qed.

Lemma split_once_None c s :
  split_once c s = None ↔ str_all (λ d, negb (Ascii.eqb d c)) s = true.
Proof.
  induction s as [|d s IH]; simpl; [done|]. destruct (Ascii.eqb d c); simpl; [done|].
  destruct (split_once c s) as [[? ?]|]; rewrite <-IH; done.
Qed.

Lemma split_once_Some c s a b :
  split_once c s = Some (a, b) →
  s = a +:+ String c b ∧ str_all (λ d, negb (Ascii.eqb d c)) a = true.
Proof.
  revert a b. induction s as [|d s IH]; simpl; [done|]. intros a b.
  destruct (Ascii.eqb_spec d c) as [->|Hne].
  - by intros [= <- <-].
  - destruct (split_once c s) as [[a' b']|]; [|done]. intros [= <- <-].
    destruct (IH a' b' eq_refl) as [-> ?]. split; [done|]. simpl.
    by rewrite (proj2 (Ascii.eqb_neq d c) Hne).
Qed.

Lemma split_char_app c a b :
  str_all (λ d, negb (Ascii.eqb d c)) a = true →
  split_char c (a +:+ String c b) = a :: split_char c b.
Proof.
  induction a as [|d a IH]; simpl.
  - intros _. by rewrite Ascii.eqb_refl.
  - intros [Hd Ha]%andb_true_iff. apply negb_true_iff in Hd. by rewrite Hd, IH.
Qed.

Lemma split_char_none c a :
  str_all (λ d, negb (Ascii.eqb d c)) a = true → split_char c a = [a].
Proof.
  induction a as [|d a IH]; simpl; [done|].
  intros [Hd Ha]%andb_true_iff. apply negb_true_iff in Hd. by rewrite Hd, IH.
Qed.

(** Digits only: a decimal never contains a separator. *)
Lemma pretty_N_go_digits x s :
  str_all is_ascii_digit s = true → str_all is_ascii_digit (pretty_N_go x s) = true.
Proof.
  revert s. induction (N.lt_wf_0 x) as [x _ IH]. intros s Hs.
  destruct (decide (x = 0)%N) as [->|]; [done|].
  rewrite pretty_N_go_step by lia. apply IH; [by apply N.div_lt; lia|].
  simpl. rewrite Hs, andb_true_r.
  pose proof (N.mod_lt x 10). destruct (x `mod` 10)%N as [|q]; [done|].
  do 4 (destruct q as [q|q|]; try done; try lia).
Qed.

Lemma u64_to_string_digits n : str_all is_ascii_digit (u64_to_string n) = true.
Proof.
  unfold u64_to_string, pretty, pretty_N. case_decide; [done|]. by apply pretty_N_go_digits.
Qed.

Lemma u64_to_string_inj n m :
  (0 ≤ n)%Z → (0 ≤ m)%Z → u64_to_string n = u64_to_string m → n = m.
Proof. unfold u64_to_string. intros ? ? ?%(inj pretty). lia. Qed.

Lemma is_ascii_digit_not c d :
  is_ascii_digit d = true → is_ascii_digit c = false → negb (Ascii.eqb d c) = true.
Proof. intros Hd Hc. destruct (Ascii.eqb_spec d c); [congruence|done]. Qed.

#[export] Hint Rewrite str_app_assoc str_app_nil_r strip_prefix_app : peinit_rw.
#[export] Hint Resolve u64_to_string_digits : peinit.

(** Parsing undoes printing. *)
Lemma pretty_N_char_val d :
  (d < 10)%N → is_ascii_digit (pretty_N_char d) = true ∧ byte_val (pretty_N_char d) = (48 + Z.of_N d)%Z.
Proof.
  intros Hd. destruct d as [|q]; [done|]. do 4 (destruct q as [q|q|]; try done; try lia).
Qed.

Lemma parse_decimal_pretty_go x s : parse_decimal 0 (pretty_N_go x s) = parse_decimal (Z.of_N x) s.
Proof.
  revert s. induction (N.lt_wf_0 x) as [x _ IH]. intros s.
  destruct (decide (x = 0)%N) as [->|]; [done|].
  rewrite pretty_N_go_step by lia. rewrite IH by (by apply N.div_lt; lia). simpl.
  destruct (pretty_N_char_val (x mod 10)%N) as [-> ->]; [by apply N.mod_lt|].
  f_equal. rewrite N2Z.inj_div, N2Z.inj_mod. pose proof (Z.div_mod (Z.of_N x) 10). lia.
Qed.

Lemma parse_decimal_to_string n : (0 ≤ n)%Z → parse_decimal 0 (u64_to_string n) = Some n.
Proof.
  intros Hn. unfold u64_to_string, pretty, pretty_N. case_decide as E.
  - assert (n = 0%Z) as -> by lia. done.
  - rewrite parse_decimal_pretty_go. simpl. f_equal. lia.
Qed.

Lemma pretty_N_go_nonempty x s : s ≠ "" → pretty_N_go x s ≠ "".
Proof.
  revert s. induction (N.lt_wf_0 x) as [x _ IH]. intros s Hs.
  destruct (decide (x = 0)%N) as [->|]; [done|].
  rewrite pretty_N_go_step by lia. apply IH; [by apply N.div_lt; lia|done].
Qed.

Lemma u64_to_string_nonempty n : str_is_empty (u64_to_string n) = false.
Proof.
  unfold u64_to_string, pretty, pretty_N. case_decide; [done|].
  rewrite pretty_N_go_step by lia.
  match goal with |- str_is_empty (pretty_N_go ?x ?s) = _ =>
    pose proof (pretty_N_go_nonempty x s ltac:(done)); by destruct (pretty_N_go x s) end.
Qed.

Lemma parse_u16_to_string n : (0 ≤ n ≤ u16_max)%Z → parse_u16 (u64_to_string n) = Some n.
Proof.
  intros Hn. unfold parse_u16.
  assert (strip_prefix "+" (u64_to_string n) = None) as ->.
  { pose proof (u64_to_string_digits n) as Hd. destruct (u64_to_string n) as [|c s]; [done|].
    cbn [str_all] in Hd. apply andb_true_iff in Hd as [Hd _]. cbn [strip_prefix].
    destruct (Ascii.eqb_spec "+"%char c) as [<-|]; [by vm_compute in Hd|done]. }
  rewrite u64_to_string_nonempty, parse_decimal_to_string by lia.
  by rewrite (proj2 (Z.leb_le _ _)) by lia.
Qed.

Lemma parse_u16_range s n : parse_u16 s = Some n → (0 ≤ n ≤ u16_max)%Z.
Proof.
  assert (∀ s acc n, (0 ≤ acc)%Z → parse_decimal acc s = Some n → (0 ≤ n)%Z) as Hpos.
  { clear. induction s as [|c s IH]; intros acc n Hacc; simpl; [by intros [= <-]|].
    destruct (is_ascii_digit c) eqn:E; [|done]. apply IH. unfold is_ascii_digit, in_range in E. lia. }
  unfold parse_u16. destruct (str_is_empty _); [done|].
  destruct (parse_decimal 0 _) as [m|] eqn:E; [|done]. apply Hpos in E; [|lia].
  destruct (m <=? u16_max)%Z eqn:Em; [|done]. intros [= <-]. lia.
Qed.

Lemma split_once_dotdot_app a b :
  str_all (λ d, negb (Ascii.eqb d dot)) a = true →
  split_once_dotdot (a +:+ ".." +:+ b) = Some (a, b).
Proof.
  induction a as [|c a IH]; [done|]. cbn [str_all].
  intros [Hc%negb_true_iff Ha]%andb_true_iff. specialize (IH Ha).
  change ((String c a) +:+ ".." +:+ b) with (String c (a +:+ ".." +:+ b)).
  cbn [split_once_dotdot strip_prefix]. rewrite IH.
  rewrite Ascii.eqb_sym. unfold dot in Hc. by rewrite Hc.
Qed.

Lemma split_once_dotdot_None a :
  str_all (λ d, negb (Ascii.eqb d dot)) a = true → split_once_dotdot a = None.
Proof.
  induction a as [|c a IH]; [done|]. cbn [str_all].
  intros [Hc%negb_true_iff Ha]%andb_true_iff. cbn [split_once_dotdot strip_prefix].
  rewrite (IH Ha), Ascii.eqb_sym. unfold dot in Hc. by rewrite Hc.
Qed.
