(* ===== verification/ServiceRuntime.v ===== *)
(** * The service state machine

    Models [src/src/service/runtime/]: the states a supervised service can be
    in, the causes that move it, the table of permitted transitions
    ([rules.rs]), and what a transition does to the runtime snapshot
    ([transition.rs]). The progress types of [src/src/submitted/model.rs]
    that the snapshot retains are here too.

    Enum constructors carry a short prefix ([St], [Tc], [Rc], [Pp], [Hs],
    [Lk]) where Rust has the enum's name. *)

From S2P Require Import Prelude.

(** ** Data *)

Inductive ServiceState : Type :=
| StInactive | StStarting | StActive | StReloading | StStopping
| StCompleted | StBackoff | StFailed | StAbandoned | StSkipped.

Inductive ProcessPresence : Type := PpNone | PpOptional | PpExpected.

Inductive ServiceHealthStatus : Type := HsUnknown | HsHealthy | HsUnhealthy.

Record ServiceHealthSnapshot : Type := {
  hs_status : ServiceHealthStatus;
  hs_consecutive_failures : Z;
  hs_last_checked_at_ns : option Z;
}.

Inductive LeakedCgroupKind : Type := LkServiceTree | LkHealth | LkHooks | LkHelper.

Record LeakedCgroup : Type := {
  lk_path : string;
  lk_kind : LeakedCgroupKind;
  lk_detected_at_ns : Z;
}.

Inductive TransitionCause : Type :=
| TcExplicitStart | TcDependencyStart | TcRestartPolicy | TcBindsToRecovery
| TcExplicitStop | TcExplicitReload | TcExplicitReset | TcConflictEviction
| TcBindsToPropagation | TcTimer | TcShutdownWave | TcProcessCrash
| TcCleanExit | TcCleanExitRestart | TcReadinessTimeout | TcWatchdogTimeout
| TcHealthCheckFailure | TcPreHookFailure | TcParentSetupFailure
| TcPreExecFailure | TcDependencyFailure | TcRestartBudgetExhausted
| TcCycleDetected | TcValidationError | TcAssertionError
| TcConditionSkipped | TcTtyUnavailable | TcProcessUnkillable
| TcInternalError.

Record ServiceStoppingTimeoutEvidence : Type := {
  ste_started_at_ns : Z;
  ste_due_at_ns : Z;
  ste_cause : TransitionCause;
}.

Inductive RestartConsultation : Type :=
| RcRestartEligible | RcAlwaysOnly | RcBudgetExempt | RcNever.

Inductive JobProgressUnit : Type := UnitBytes | UnitItems | UnitPercent.

Record JobProgress : Type := {
  jp_current : Z;
  jp_total : option Z;
  jp_bounded : bool;
}.

Record ServiceProgressReport : Type := {
  spr_progress : option JobProgress;
  spr_unit : option JobProgressUnit;
}.

Record ServiceRuntimeSnapshot : Type := {
  rt_service : string;
  rt_state : ServiceState;
  rt_cause : option TransitionCause;
  rt_generation : Z;
  rt_cgroup_generation : Z;
  rt_dependent_satisfied_since_ns : option Z;
  rt_consecutive_restart_failures : Z;
  rt_restart_backoff_until_ns : option Z;
  rt_status_text : option string;
  rt_progress : option JobProgress;
  rt_progress_unit : option JobProgressUnit;
  rt_last_progress_event_ns : option Z;
  rt_levels : gset string;
  rt_stopping_acknowledged : bool;
  rt_stopping_timeout : option ServiceStoppingTimeoutEvidence;
  rt_pending_timer : bool;
  rt_health : ServiceHealthSnapshot;
  rt_leaked_cgroups : list LeakedCgroup;
}.

#[export] Instance ServiceState_eq_dec : EqDecision ServiceState.
Proof. solve_decision. Defined.
#[export] Instance TransitionCause_eq_dec : EqDecision TransitionCause.
Proof. solve_decision. Defined.
#[export] Instance LeakedCgroupKind_eq_dec : EqDecision LeakedCgroupKind.
Proof. solve_decision. Defined.
#[export] Instance RestartConsultation_eq_dec : EqDecision RestartConsultation.
Proof. solve_decision. Defined.

(** ** Classification of states and causes *)

Definition satisfies_dependents (self : ServiceState) : bool :=
  match self with
  | StActive | StReloading | StCompleted | StSkipped => true
  | _ => false
  end.

Definition process_presence (self : ServiceState) : ProcessPresence :=
  match self with
  | StStarting => PpOptional
  | StActive | StReloading | StStopping | StAbandoned => PpExpected
  | StInactive | StCompleted | StBackoff | StFailed | StSkipped => PpNone
  end.

Definition restart_consultation (self : TransitionCause) : RestartConsultation :=
  match self with
  | TcProcessCrash | TcWatchdogTimeout | TcHealthCheckFailure | TcReadinessTimeout
  | TcPreHookFailure | TcPreExecFailure | TcParentSetupFailure => RcRestartEligible
  | TcCleanExitRestart => RcAlwaysOnly
  | TcBindsToRecovery => RcBudgetExempt
  | TcExplicitStart | TcDependencyStart | TcRestartPolicy | TcExplicitStop
  | TcExplicitReload | TcExplicitReset | TcConflictEviction | TcBindsToPropagation
  | TcTimer | TcShutdownWave | TcCleanExit | TcProcessUnkillable
  | TcRestartBudgetExhausted | TcCycleDetected | TcValidationError
  | TcDependencyFailure | TcAssertionError | TcConditionSkipped
  | TcTtyUnavailable | TcInternalError => RcNever
  end.

Definition triggers_on_failure (self : TransitionCause) : bool :=
  negb
    match self with
    | TcShutdownWave | TcValidationError | TcCycleDetected | TcDependencyFailure
    | TcAssertionError | TcConditionSkipped | TcTtyUnavailable | TcInternalError => true
    | _ => false
    end.

(** ** Health *)

Definition health_unknown : ServiceHealthSnapshot := {|
  hs_status := HsUnknown;
  hs_consecutive_failures := 0;
  hs_last_checked_at_ns := None;
|}.

Definition record_success (checked_at_ns : Z) (self : ServiceHealthSnapshot) : ServiceHealthSnapshot := {|
  hs_status := HsHealthy;
  hs_consecutive_failures := 0;
  hs_last_checked_at_ns := Some checked_at_ns;
|}.

(** The returned count is the snapshot's new one. *)
Definition record_failure (checked_at_ns : Z) (self : ServiceHealthSnapshot) : ServiceHealthSnapshot * Z :=
  let failures := u32_saturating_add self.(hs_consecutive_failures) 1 in
  ({| hs_status := HsUnhealthy;
      hs_consecutive_failures := failures;
      hs_last_checked_at_ns := Some checked_at_ns |}, failures).

(** ** Snapshots *)

Definition inactive (service : string) : ServiceRuntimeSnapshot := {|
  rt_service := service;
  rt_state := StInactive;
  rt_cause := None;
  rt_generation := 0;
  rt_cgroup_generation := 0;
  rt_dependent_satisfied_since_ns := None;
  rt_consecutive_restart_failures := 0;
  rt_restart_backoff_until_ns := None;
  rt_status_text := None;
  rt_progress := None;
  rt_progress_unit := None;
  rt_last_progress_event_ns := None;
  rt_levels := ∅;
  rt_stopping_acknowledged := false;
  rt_stopping_timeout := None;
  rt_pending_timer := false;
  rt_health := health_unknown;
  rt_leaked_cgroups := [];
|}.

Definition mark_dependent_satisfied_since (satisfied_at_ns : Z) (self : ServiceRuntimeSnapshot)
    : ServiceRuntimeSnapshot :=
  if satisfies_dependents self.(rt_state)
  then {| self with rt_dependent_satisfied_since_ns := Some satisfied_at_ns |}
  else self.

(** ** The transition table ([rules.rs]) *)

Definition start_succeeded (cause : TransitionCause) : bool :=
  match cause with
  | TcExplicitStart | TcDependencyStart | TcRestartPolicy | TcBindsToRecovery | TcTimer => true
  | _ => false
  end.

Definition is_startup_retry_cause (cause : TransitionCause) : bool :=
  match cause with
  | TcReadinessTimeout | TcPreHookFailure | TcProcessCrash | TcPreExecFailure
  | TcParentSetupFailure => true
  | _ => false
  end.

Definition is_stop_cause (cause : TransitionCause) : bool :=
  match cause with
  | TcExplicitStop | TcConflictEviction | TcBindsToPropagation | TcShutdownWave => true
  | _ => false
  end.

Definition is_allowed_transition (from to : ServiceState) (cause : TransitionCause) : bool :=
  match from, to with
  | StInactive, StStarting =>
      match cause with TcExplicitStart | TcDependencyStart | TcTimer => true | _ => false end
  | StInactive, StSkipped =>
      match cause with TcConditionSkipped | TcTtyUnavailable => true | _ => false end
  | StInactive, StFailed =>
      match cause with
      | TcValidationError | TcAssertionError | TcCycleDetected | TcDependencyFailure => true
      | _ => false
      end
  | StStarting, StActive => start_succeeded cause
  | StStarting, StCompleted => start_succeeded cause
  | StStarting, StSkipped => bool_decide (cause = TcConditionSkipped)
  | StStarting, StBackoff => is_startup_retry_cause cause
  | StStarting, StStopping => bool_decide (cause = TcExplicitStop)
  | StStarting, StFailed =>
      match cause with
      | TcAssertionError | TcReadinessTimeout | TcPreHookFailure | TcParentSetupFailure
      | TcPreExecFailure | TcProcessCrash | TcShutdownWave | TcDependencyFailure
      | TcValidationError | TcCycleDetected | TcRestartBudgetExhausted | TcInternalError => true
      | _ => false
      end
  | StActive, StReloading => match cause with TcExplicitReload => true | _ => false end
  | StActive, StStopping => is_stop_cause cause
  | StActive, StBackoff =>
      match cause with
      | TcProcessCrash | TcCleanExitRestart | TcHealthCheckFailure | TcWatchdogTimeout => true
      | _ => false
      end
  | StActive, StFailed =>
      match cause with
      | TcProcessCrash | TcHealthCheckFailure | TcWatchdogTimeout | TcRestartBudgetExhausted
      | TcInternalError => true
      | _ => false
      end
  | StActive, StInactive => bool_decide (cause = TcCleanExit)
  | StBackoff, StStarting => bool_decide (cause = TcRestartPolicy)
  | StBackoff, StInactive => bool_decide (cause = TcExplicitStop)
  | StBackoff, StSkipped =>
      match cause with TcConditionSkipped | TcTtyUnavailable => true | _ => false end
  | StBackoff, StFailed => bool_decide (cause = TcInternalError)
  | StReloading, StActive => match cause with TcExplicitReload => true | _ => false end
  | StReloading, StStopping => is_stop_cause cause
  | StReloading, StBackoff => bool_decide (cause = TcProcessCrash)
  | StReloading, StFailed =>
      match cause with
      | TcProcessCrash | TcRestartBudgetExhausted | TcInternalError => true
      | _ => false
      end
  | StStopping, StInactive =>
      match cause with TcExplicitStop | TcShutdownWave => true | _ => false end
  | StStopping, StFailed =>
      match cause with
      | TcConflictEviction | TcBindsToPropagation | TcInternalError => true
      | _ => false
      end
  | StStopping, StAbandoned => bool_decide (cause = TcProcessUnkillable)
  | StStopping, StStarting => bool_decide (cause = TcExplicitStart)
  | StCompleted, StInactive =>
      match cause with TcCleanExit | TcExplicitStop | TcShutdownWave => true | _ => false end
  | StCompleted, StStarting =>
      match cause with TcExplicitStart | TcTimer => true | _ => false end
  | StFailed, StStarting =>
      match cause with TcExplicitStart | TcBindsToRecovery | TcTimer => true | _ => false end
  | StFailed, StInactive => bool_decide (cause = TcExplicitReset)
  | StFailed, StAbandoned => bool_decide (cause = TcProcessUnkillable)
  | StAbandoned, StInactive => bool_decide (cause = TcExplicitReset)
  | StSkipped, StInactive =>
      match cause with TcExplicitReset | TcExplicitStart => true | _ => false end
  | _, _ => false
  end.

(** ** Transitions ([transition.rs]) *)

Record ServiceTransition : Type := {
  st_to : ServiceState;
  st_cause : TransitionCause;
}.

Record ServiceTransitionEvent : Type := {
  ev_service : string;
  ev_from : ServiceState;
  ev_to : ServiceState;
  ev_cause : TransitionCause;
  ev_generation : Z;
}.

Inductive ServiceTransitionError : Type :=
| InvalidTransition (service : string) (from to : ServiceState) (cause : TransitionCause).

(** Entering [Starting] begins a new activation generation: what the last
    incarnation said of itself is dropped. *)
Definition begin_generation (self : ServiceRuntimeSnapshot) : ServiceRuntimeSnapshot :=
  {| self with
     rt_generation := u64_wrapping_add self.(rt_generation) 1;
     rt_status_text := None;
     rt_progress := None;
     rt_progress_unit := None;
     rt_last_progress_event_ns := None;
     rt_stopping_acknowledged := false;
     rt_pending_timer := false;
     rt_health := health_unknown |}.

Definition clear_stopping_timeout (self : ServiceRuntimeSnapshot) : ServiceRuntimeSnapshot :=
  {| self with rt_stopping_timeout := None |}.

Definition enter_state (t : ServiceTransition) (self : ServiceRuntimeSnapshot) : ServiceRuntimeSnapshot :=
  {| self with rt_state := t.(st_to); rt_cause := Some t.(st_cause) |}.

Definition clear_dependent_claims (self : ServiceRuntimeSnapshot) : ServiceRuntimeSnapshot :=
  {| self with rt_dependent_satisfied_since_ns := None; rt_levels := ∅ |}.

Definition transition (t : ServiceTransition) (self : ServiceRuntimeSnapshot)
    : ServiceRuntimeSnapshot * Result ServiceTransitionEvent ServiceTransitionError :=
  if negb (is_allowed_transition self.(rt_state) t.(st_to) t.(st_cause)) then
    (self, Err (InvalidTransition self.(rt_service) self.(rt_state) t.(st_to) t.(st_cause)))
  else
    let from := self.(rt_state) in
    let self := if bool_decide (t.(st_to) = StStarting) then begin_generation self else self in
    let self :=
      if bool_decide (t.(st_to) = StStopping) || bool_decide (from = StStopping)
      then clear_stopping_timeout self else self in
    let self := enter_state t self in
    let self :=
      if negb (satisfies_dependents self.(rt_state)) then clear_dependent_claims self else self in
    (self, Ok {| ev_service := self.(rt_service); ev_from := from; ev_to := t.(st_to);
                 ev_cause := t.(st_cause); ev_generation := self.(rt_generation) |}).

(** ** Behaviour of one transition *)

Section Transition.
Context (t : ServiceTransition) (s : ServiceRuntimeSnapshot).

Lemma transition_rejected :
  is_allowed_transition s.(rt_state) t.(st_to) t.(st_cause) = false →
  transition t s =
    (s, Err (InvalidTransition s.(rt_service) s.(rt_state) t.(st_to) t.(st_cause))).
Proof. intros E. unfold transition. by rewrite E. Qed.

Lemma transition_Ok_inv s' ev :
  transition t s = (s', Ok ev) →
  is_allowed_transition s.(rt_state) t.(st_to) t.(st_cause) = true ∧
  ev = {| ev_service := s.(rt_service); ev_from := s.(rt_state); ev_to := t.(st_to);
          ev_cause := t.(st_cause); ev_generation := s'.(rt_generation) |} ∧
  s'.(rt_service) = s.(rt_service) ∧
  s'.(rt_state) = t.(st_to) ∧
  s'.(rt_cause) = Some t.(st_cause) ∧
  s'.(rt_generation) =
    (if bool_decide (t.(st_to) = StStarting)
     then u64_wrapping_add s.(rt_generation) 1 else s.(rt_generation)) ∧
  s'.(rt_levels) = (if satisfies_dependents t.(st_to) then s.(rt_levels) else ∅) ∧
  s'.(rt_dependent_satisfied_since_ns) =
    (if satisfies_dependents t.(st_to) then s.(rt_dependent_satisfied_since_ns) else None) ∧
  s'.(rt_consecutive_restart_failures) = s.(rt_consecutive_restart_failures) ∧
  s'.(rt_restart_backoff_until_ns) = s.(rt_restart_backoff_until_ns) ∧
  s'.(rt_cgroup_generation) = s.(rt_cgroup_generation) ∧
  s'.(rt_leaked_cgroups) = s.(rt_leaked_cgroups).
Proof.
  unfold transition. destruct (is_allowed_transition _ _ _) eqn:E; simpl; [|done].
  intros [= <- <-].
  destruct (satisfies_dependents (st_to t)) eqn:Hs; simpl;
    repeat case_bool_decide; simpl; by rewrite ?Hs.
Qed.

Lemma transition_Err_inv s' e :
  transition t s = (s', Err e) →
  s' = s ∧ e = InvalidTransition s.(rt_service) s.(rt_state) t.(st_to) t.(st_cause) ∧
  is_allowed_transition s.(rt_state) t.(st_to) t.(st_cause) = false.
Proof. unfold transition. destruct (is_allowed_transition _ _ _); simpl; [done|]. by intros [= <- <-]. Qed.

(** The permitted transitions are exactly those that succeed. *)
Lemma transition_ok_iff :
  is_ok (transition t s).2 = is_allowed_transition s.(rt_state) t.(st_to) t.(st_cause).
Proof. unfold transition. by destruct (is_allowed_transition _ _ _). Qed.
End Transition.

(** ** Theorems about the transition table *)

(** A cause leads some state into [Backoff] exactly when the restart policy
    is consulted for it as restart-eligible or always-only, so a cause the
    policy never consults ([Never]) or exempts from the budget never parks a
    service in [Backoff]. *)
Theorem backoff_iff_restartable c :
  (∃ from, is_allowed_transition from StBackoff c = true) ↔
  restart_consultation c = RcRestartEligible ∨ restart_consultation c = RcAlwaysOnly.
Proof.
  split.
  - intros [from H]. destruct from, c; simpl in *; auto; done.
  - destruct c; simpl; intros [?|?]; try done;
      solve [by exists StStarting | by exists StActive].
Qed.

(** The states in which peinit has a service under supervision. *)
Definition supervised (s : ServiceState) : bool :=
  match s with
  | StStarting | StActive | StReloading | StStopping | StBackoff => true
  | _ => false
  end.

(** [InternalError] is the one cause under which every supervised state
    can fail: it permits the move to [Failed] from each of them and no other
    cause does. *)
Theorem internal_error_fails_every_supervised_state c :
  (∀ s, supervised s = true → is_allowed_transition s StFailed c = true) ↔ c = TcInternalError.
Proof.
  split.
  - intros H. specialize (H StBackoff eq_refl). simpl in H. by breflect.
  - intros -> s. by destruct s.
Qed.

(** A transition out of a state that has no process reaches a state that
    may have one only by starting the service; the one exception is [Failed]
    to [Abandoned], a failed service whose process turned out unkillable. *)
Theorem process_appears_only_by_starting from to c :
  is_allowed_transition from to c = true →
  process_presence from = PpNone → process_presence to ≠ PpNone →
  to = StStarting ∨ (from = StFailed ∧ to = StAbandoned ∧ c = TcProcessUnkillable).
Proof.
  destruct from, to; simpl; try done; auto;
    intros H _ _; breflect; subst; auto.
Qed.

Lemma process_appears_only_by_starting_witness :
  StStarting = StStarting ∨ (StBackoff = StFailed ∧ StStarting = StAbandoned ∧ TcRestartPolicy = TcProcessUnkillable).
Proof. apply (process_appears_only_by_starting StBackoff StStarting TcRestartPolicy); done. Defined.

(** One permitted move of the state machine, whatever its cause. *)
Definition state_step (from to : ServiceState) : Prop :=
  ∃ c, is_allowed_transition from to c = true.

Lemma state_step_intro from to c :
  is_allowed_transition from to c = true → state_step from to.
Proof. by exists c. Qed.

Lemma rtc_state_step from mid to c :
  is_allowed_transition from mid c = true → rtc state_step mid to → rtc state_step from to.
Proof. intros ? ?. eapply rtc_l; [by eapply state_step_intro|done]. Qed.

Lemma starting_reaches_active : rtc state_step StStarting StActive.
Proof. eapply (rtc_state_step _ StActive _ TcExplicitStart); [done|reflexivity]. Qed.

Lemma inactive_reaches_active : rtc state_step StInactive StActive.
Proof. by eapply (rtc_state_step _ StStarting _ TcExplicitStart), starting_reaches_active. Qed.

(** No state is a dead end: from every state, [Abandoned] and [Failed]
    included, some sequence of permitted transitions makes the service
    [Active]. *)
Theorem every_state_reaches_active s : rtc state_step s StActive.
Proof.
  pose proof inactive_reaches_active. pose proof starting_reaches_active.
  destruct s; try done.
  - by eapply (rtc_state_step _ StActive _ TcExplicitReload).
  - by eapply (rtc_state_step _ StInactive _ TcExplicitStop).
  - by eapply (rtc_state_step _ StStarting _ TcTimer).
  - by eapply (rtc_state_step _ StStarting _ TcRestartPolicy).
  - by eapply (rtc_state_step _ StStarting _ TcExplicitStart).
  - by eapply (rtc_state_step _ StInactive _ TcExplicitReset).
  - by eapply (rtc_state_step _ StInactive _ TcExplicitReset).
Qed.

(** ** Runs of transitions *)

(** Apply the transitions in turn, keeping the snapshot of a rejected one, and
    count the accepted ones into [Starting]. *)
Fixpoint run (ts : list ServiceTransition) (s : ServiceRuntimeSnapshot)
    : ServiceRuntimeSnapshot * nat :=
  match ts with
  | [] => (s, 0)
  | t :: ts =>
      let '(s', r) := transition t s in
      let '(s'', n) := run ts s' in
      (s'', if is_ok r && bool_decide (t.(st_to) = StStarting) then S n else n)
  end.

Lemma run_generation ts s :
  is_u64 s.(rt_generation) →
  (s.(rt_generation) + Z.of_nat (length ts) ≤ u64_max)%Z →
  (run ts s).1.(rt_generation) = (s.(rt_generation) + Z.of_nat (run ts s).2)%Z.
Proof.
  revert s. induction ts as [|t ts IH]; intros s Hs Hb; simpl; [lia|].
  destruct (transition t s) as [s' [ev|e]] eqn:E.
  - apply transition_Ok_inv in E as (_ & _ & _ & _ & _ & Hg & _).
    cbn [length] in Hb.
    assert (rt_generation s' = rt_generation s + (if bool_decide (t.(st_to) = StStarting) then 1 else 0))%Z as Hg'.
    { rewrite Hg. case_bool_decide; [|lia]. apply u64_wrapping_add_small. unfold is_u64 in *. lia. }
    specialize (IH s'). destruct (run ts s') as [s'' n]; simpl in *.
    unfold is_u64 in *. rewrite IH, Hg' by (case_bool_decide; lia). case_bool_decide; simpl; lia.
  - apply transition_Err_inv in E as (-> & _). specialize (IH s).
    destruct (run ts s) as [s'' n]; simpl in *. apply IH; [done|lia].
Qed.

(** The activation generation of a service is the number of times it has
    been started: over any run of transition requests from a fresh snapshot,
    accepted or rejected, the generation ends at the count of accepted moves
    into [Starting] (for runs shorter than the [u64] range). *)
Theorem generation_counts_activations service ts :
  (Z.of_nat (length ts) ≤ u64_max)%Z →
  (run ts (inactive service)).1.(rt_generation) = Z.of_nat (run ts (inactive service)).2.
Proof. intros H. rewrite run_generation; simpl; [done|by vm_compute|lia]. Qed.

Definition restart_run : list ServiceTransition :=
  [ {| st_to := StStarting; st_cause := TcExplicitStart |};
    {| st_to := StActive; st_cause := TcExplicitStart |};
    {| st_to := StStarting; st_cause := TcExplicitStart |};
    {| st_to := StBackoff; st_cause := TcProcessCrash |};
    {| st_to := StStarting; st_cause := TcRestartPolicy |} ].

Lemma generation_counts_activations_witness :
  (run restart_run (inactive "netd")).1.(rt_generation) = 2%Z.
Proof.
  rewrite (generation_counts_activations "netd" restart_run); [reflexivity|].
  unfold restart_run, u64_max; simpl; lia.
Defined.

#[export] Hint Resolve transition_rejected : peinit.
