(* ===== verification/ServiceDef.v ===== *)
(** * Service definitions and their declared dependencies

    Models [src/src/service/definition.rs] (the definition record, its
    defaults and the two definitions peinit makes itself), the identity tests
    of [src/src/security/identity.rs], and the dependency lists of
    [src/src/service/dependency.rs] up to the start order, which is in
    [StartOrder]. *)

From S2P Require Import Prelude RustStr.
From Stdlib Require Import Ascii String.
Open Scope string_scope.
Open Scope Z_scope.

(** ** The definition record *)

Inductive ServiceType : Type := TypeSimple | TypeOneshot.
Inductive Readiness : Type := ReadyAlive | ReadyNotify.
Inductive RestartPolicy : Type := PolicyNever | PolicyOnFailure | PolicyAlways.
Inductive ErrorControl : Type := EcNormal | EcCritical.
Inductive NotifyAccess : Type := NotifyMain.

Inductive ServiceTrigger : Type :=
| TriggerBoot
| TriggerBootSettled
| TriggerTtyReleased
| TriggerTimer (schedule : string)
| TriggerOther (text : string).

Inductive ServiceCheckKind : Type := CheckPath | CheckFile | CheckDirectory | CheckRegistry.

Record ServiceCheck : Type := {
  chk_kind : ServiceCheckKind;
  chk_argument : string;
}.

Inductive ServiceSecurityDescriptor : Type :=
| SdDefault
| SdRegistryBinary (bytes : string).

Record ServiceEnvironmentVariable : Type := {
  env_name : string;
  env_value : string;
}.

Record ServiceRuntimeDirectory : Type := { dir_name : string }.

Record ServiceDefinition : Type := {
  sd_name : string;
  sd_image_path : string;
  sd_arguments : list string;
  sd_service_type : ServiceType;
  sd_triggers : list ServiceTrigger;
  sd_disabled : bool;
  sd_safe_mode : bool;
  sd_identity : string;
  sd_required_privileges : list string;
  sd_requires : list string;
  sd_wants : list string;
  sd_binds_to : list string;
  sd_conflicts : list string;
  sd_provides : list string;
  sd_on_failure : option string;
  sd_readiness : Readiness;
  sd_notify_access : NotifyAccess;
  sd_remain_after_exit : bool;
  sd_success_exit_codes : list Z;
  sd_exec_start_pre : list string;
  sd_exec_start_post : list string;
  sd_hook_identity : option string;
  sd_exec_reload : option string;
  sd_pre_start_check_timeout_secs : Z;
  sd_start_timeout_secs : Z;
  sd_stop_timeout_secs : Z;
  sd_watchdog_timeout_secs : Z;
  sd_health_check : option string;
  sd_health_check_interval_secs : Z;
  sd_health_check_timeout_secs : Z;
  sd_health_check_retries : Z;
  sd_fd_store_max : Z;
  sd_environment : list ServiceEnvironmentVariable;
  sd_working_directory : string;
  sd_runtime_directories : list ServiceRuntimeDirectory;
  sd_limit_nofile : option Z;
  sd_limit_core : option Z;
  sd_conditions : list ServiceCheck;
  sd_asserts : list ServiceCheck;
  sd_display_name : option string;
  sd_description : option string;
  sd_restart_policy : RestartPolicy;
  sd_restart_max_retries : Z;
  sd_restart_window_secs : Z;
  sd_restart_delay_secs : Z;
  sd_error_control : ErrorControl;
  sd_service_security : ServiceSecurityDescriptor;
  sd_timer_persistent : bool;
  sd_timer_jitter_secs : Z;
  sd_console_path : option string;
  sd_console_precedence : Z;
  sd_compiled_in : bool;
}.

#[export] Instance ServiceType_eq_dec : EqDecision ServiceType.
Proof. solve_decision. Defined.
#[export] Instance Readiness_eq_dec : EqDecision Readiness.
Proof. solve_decision. Defined.
#[export] Instance RestartPolicy_eq_dec : EqDecision RestartPolicy.
Proof. solve_decision. Defined.
#[export] Instance ErrorControl_eq_dec : EqDecision ErrorControl.
Proof. solve_decision. Defined.
#[export] Instance NotifyAccess_eq_dec : EqDecision NotifyAccess.
Proof. solve_decision. Defined.
#[export] Instance ServiceTrigger_eq_dec : EqDecision ServiceTrigger.
Proof. solve_decision. Defined.
#[export] Instance ServiceCheckKind_eq_dec : EqDecision ServiceCheckKind.
Proof. solve_decision. Defined.
#[export] Instance ServiceCheck_eq_dec : EqDecision ServiceCheck.
Proof. solve_decision. Defined.
#[export] Instance ServiceSecurityDescriptor_eq_dec : EqDecision ServiceSecurityDescriptor.
Proof. solve_decision. Defined.
#[export] Instance ServiceEnvironmentVariable_eq_dec : EqDecision ServiceEnvironmentVariable.
Proof. solve_decision. Defined.
#[export] Instance ServiceRuntimeDirectory_eq_dec : EqDecision ServiceRuntimeDirectory.
Proof. solve_decision. Defined.
#[export] Instance ServiceDefinition_eq_dec : EqDecision ServiceDefinition.
Proof. solve_decision. Defined.

(** ** Service names *)

Definition service_name_char (byte : ascii) : bool :=
  is_ascii_alphanumeric byte ||
  (Ascii.eqb byte "."%char || Ascii.eqb byte "_"%char || Ascii.eqb byte "-"%char).

Definition is_valid_service_name (value : string) : bool :=
  negb (str_is_empty value) && (String.length value <=? 128)%nat && str_all service_name_char value.

(** ** Definitions peinit makes itself *)

Definition REGISTRYD_NAME : string := "registryd".
Definition REGISTRYD_IMAGE_PATH : string := "/sbin/registryd".
Definition REGISTRYD_ARGUMENTS : list string :=
  ["Machine=/var/state/loregd/Machine.hive"; "Users=/var/state/loregd/Users.hive"].

Definition simple_system_boot (name image_path : string) : ServiceDefinition := {|
  sd_name := name;
  sd_image_path := image_path;
  sd_arguments := [];
  sd_service_type := TypeSimple;
  sd_triggers := [TriggerBoot];
  sd_disabled := false;
  sd_safe_mode := false;
  sd_identity := "SYSTEM";
  sd_required_privileges := [];
  sd_requires := [];
  sd_wants := [];
  sd_binds_to := [];
  sd_conflicts := [];
  sd_provides := [];
  sd_on_failure := None;
  sd_readiness := ReadyNotify;
  sd_notify_access := NotifyMain;
  sd_remain_after_exit := false;
  sd_success_exit_codes := [];
  sd_exec_start_pre := [];
  sd_exec_start_post := [];
  sd_hook_identity := None;
  sd_exec_reload := None;
  sd_pre_start_check_timeout_secs := 5;
  sd_start_timeout_secs := 30;
  sd_stop_timeout_secs := 10;
  sd_watchdog_timeout_secs := 0;
  sd_health_check := None;
  sd_health_check_interval_secs := 30;
  sd_health_check_timeout_secs := 5;
  sd_health_check_retries := 3;
  sd_fd_store_max := 0;
  sd_environment := [];
  sd_working_directory := "/";
  sd_runtime_directories := [];
  sd_limit_nofile := None;
  sd_limit_core := None;
  sd_conditions := [];
  sd_asserts := [];
  sd_display_name := None;
  sd_description := None;
  sd_restart_policy := PolicyOnFailure;
  sd_restart_max_retries := 5;
  sd_restart_window_secs := 120;
  sd_restart_delay_secs := 1;
  sd_error_control := EcNormal;
  sd_service_security := SdDefault;
  sd_timer_persistent := true;
  sd_timer_jitter_secs := 0;
  sd_console_path := None;
  sd_console_precedence := 0;
  sd_compiled_in := false;
|}.

Definition undecodable_placeholder (name message : string) : ServiceDefinition :=
  {| (simple_system_boot name "") with
     sd_triggers := [];
     sd_disabled := true;
     sd_description := Some message |}.

Definition compiled_in_registryd : ServiceDefinition :=
  {| (simple_system_boot REGISTRYD_NAME REGISTRYD_IMAGE_PATH) with
     sd_arguments := REGISTRYD_ARGUMENTS;
     sd_error_control := EcCritical;
     sd_compiled_in := true |}.

(** ** Triggers *)

Definition has_boot_trigger (self : ServiceDefinition) : bool :=
  existsb (λ trigger, match trigger with TriggerBoot => true | _ => false end) self.(sd_triggers).

Definition has_boot_settled_trigger (self : ServiceDefinition) : bool :=
  existsb (λ trigger, match trigger with TriggerBootSettled => true | _ => false end)
    self.(sd_triggers).

Definition has_tty_released_trigger (self : ServiceDefinition) : bool :=
  existsb (λ trigger, match trigger with TriggerTtyReleased => true | _ => false end)
    self.(sd_triggers).

(** ** Identities *)

Definition SYSTEM_IDENTITY : string := "SYSTEM".

Definition is_system_identity (identity : string) : bool :=
  bool_decide (identity = SYSTEM_IDENTITY).

Definition hook_execution_identity (definition : ServiceDefinition) : string :=
  match definition.(sd_hook_identity) with
  | Some identity => identity
  | None => definition.(sd_identity)
  end.

(** ** Declared dependencies *)

Inductive ServiceDependencyKind : Type := DepRequires | DepWants | DepBindsTo.

Record ServiceDependency : Type := {
  dep_target : string;
  dep_level : option string;
  dep_kind : ServiceDependencyKind;
}.

Definition split_target (declared : string) : string * option string :=
  match split_once ":"%char declared with
  | Some (service, level) =>
      if negb (str_is_empty level) then (service, Some level) else (service, None)
  | None => (declared, None)
  end.

Definition dependency (declared : string) (kind : ServiceDependencyKind) : ServiceDependency :=
  let '(target, level) := split_target declared in
  {| dep_target := target; dep_level := level; dep_kind := kind |}.

Definition hard_dependencies (definition : ServiceDefinition) : list ServiceDependency :=
  map (λ d, dependency d DepRequires) definition.(sd_requires) ++
  map (λ d, dependency d DepBindsTo) definition.(sd_binds_to).

Definition all_declared_dependencies (definition : ServiceDefinition) : list ServiceDependency :=
  map (λ d, dependency d DepRequires) definition.(sd_requires) ++
  map (λ d, dependency d DepWants) definition.(sd_wants) ++
  map (λ d, dependency d DepBindsTo) definition.(sd_binds_to).

Definition start_order_dependency_targets (definition : ServiceDefinition) : list string :=
  map (λ declared, (split_target declared).1)
    (definition.(sd_requires) ++ definition.(sd_binds_to) ++ definition.(sd_wants)).

(** The iterator keeps the first of equal targets: [seen] is the set of those
    already passed on. *)
Fixpoint dedup_seen (seen : gset string) (l : list string) : list string :=
  match l with
  | [] => []
  | x :: l => if decide (x ∈ seen) then dedup_seen seen l else x :: dedup_seen ({[x]} ∪ seen) l
  end.

Definition existing_start_order_dependency_targets
    (definition : ServiceDefinition) (contains : string → bool) : list string :=
  dedup_seen ∅ (filter (λ target, contains target = true)
                  (start_order_dependency_targets definition)).

(** ** Lemmas *)

Lemma elem_of_dedup_seen seen l x : x ∈ dedup_seen seen l ↔ x ∈ l ∧ x ∉ seen.
Proof.
  revert seen. induction l as [|y l IH]; intros seen; simpl.
  - rewrite elem_of_nil. tauto.
  - case_decide as Hy.
    + rewrite IH, elem_of_cons. split; [tauto|]. intros [[->|?] ?]; [done|auto].
    + rewrite elem_of_cons, IH, elem_of_cons, not_elem_of_union, not_elem_of_singleton.
      destruct (decide (x = y)) as [->|]; tauto.
Qed.

Lemma NoDup_dedup_seen seen l : NoDup (dedup_seen seen l).
Proof.
  revert seen. induction l as [|y l IH]; intros seen; simpl; [constructor|].
  case_decide; [done|]. constructor; [|done]. rewrite elem_of_dedup_seen. set_solver.
Qed.

Lemma elem_of_existing_targets definition contains x :
  x ∈ existing_start_order_dependency_targets definition contains ↔
  contains x = true ∧ x ∈ start_order_dependency_targets definition.
Proof.
  unfold existing_start_order_dependency_targets.
  rewrite elem_of_dedup_seen, list_elem_of_filter.
  split; [tauto|]. intros H. split; [done|]. apply not_elem_of_empty.
Qed.

Lemma service_name_char_no_colon s :
  str_all service_name_char s = true → str_all (λ d, negb (Ascii.eqb d ":"%char)) s = true.
Proof.
  apply str_all_impl. intros c Hc. destruct (Ascii.eqb_spec c ":"%char) as [->|]; [|done].
  by vm_compute in Hc.
Qed.

(** The level syntax cannot collide with a service name: a declared
    dependency that is a valid service name names that service and no level,
    and appending [":level"] to one (with a non-empty level, colons allowed)
    names the same service with exactly that level. *)
Theorem split_target_valid_name name level :
  is_valid_service_name name = true →
  split_target name = (name, None) ∧
  (level ≠ "" → split_target (name +:+ ":" +:+ level) = (name, Some level)).
Proof.
  intros [_ Hname%service_name_char_no_colon]%andb_true_iff. unfold split_target. split.
  - by rewrite (proj2 (split_once_None _ _) Hname).
  - intros Hl. simpl. rewrite split_once_app by done. by destruct level.
Qed.

Lemma split_target_valid_name_witness :
  split_target "netd" = ("netd", None) ∧ split_target "netd:routed" = ("netd", Some "routed").
Proof.
  destruct (split_target_valid_name "netd" "routed") as [H1 H2]; [reflexivity|].
  split; [exact H1|apply H2; discriminate].
Defined.

(** Ordering targets never carry a level. *)
Lemma split_target_no_colon declared :
  str_all (λ d, negb (Ascii.eqb d ":"%char)) (split_target declared).1 = true.
Proof.
  unfold split_target. destruct (split_once ":" declared) as [[a b]|] eqn:E.
  - apply split_once_Some in E as [_ ?]. by destruct (negb _).
  - by apply split_once_None in E.
Qed.

#[export] Hint Resolve NoDup_dedup_seen split_target_no_colon : peinit.
#[export] Hint Rewrite elem_of_dedup_seen elem_of_existing_targets : peinit_rw.
