(* ===== verification/StartOrder.v ===== *)
(** * The start order

    Models [dependency_start_order] and [visit_order] of
    [src/src/service/dependency.rs]: a depth-first search that lists every
    startable service after the services it must be ordered after, or reports
    a dependency cycle.

    [visit_order]'s recursion is bounded by fuel. A visit that recurses has
    pushed one more startable service on [temporary], which never repeats one,
    so [size startable + 1] levels are enough, which
    [dependency_start_order_spec] shows. *)

From S2P Require Import Prelude.

(** ** Paths and cycles of a finite graph, shared with the cycle search *)

Section Paths.
Context {A : Type} (edge : A → A → Prop).

(** [chain x l y]: an edge path from [x] through the nodes [l] to [y]. *)
Fixpoint chain (x : A) (l : list A) (y : A) : Prop :=
  match l with
  | [] => edge x y
  | z :: l => edge x z ∧ chain z l y
  end.

(** A cycle as the code reports it: each node has an edge to the next and
    the last one to the first. *)
Definition is_cycle (c : list A) : Prop :=
  match c with [] => False | x :: l => chain x l x end.

(** Every node on the stack leads to [y] through the nodes above it. *)
Definition stack_to (stack : list A) (y : A) : Prop :=
  ∀ pre x suf, stack = pre ++ x :: suf → chain x suf y.

Lemma chain_snoc x l y z : chain x l y → edge y z → chain x (l ++ [y]) z.
Proof. revert x. induction l; simpl; intros x; [done|]. naive_solver. Qed.

Lemma stack_to_nil y : stack_to [] y.
Proof. by intros [] ? ?. Qed.

Lemma stack_to_snoc stack x y : stack_to stack x → edge x y → stack_to (stack ++ [x]) y.
Proof.
  intros Hs Hxy pre z suf E. destruct suf as [|s suf _] using rev_ind.
  - apply app_inj_tail in E as [_ <-]. done.
  - rewrite app_comm_cons, app_assoc in E. apply app_inj_tail in E as [E ->].
    apply chain_snoc; [by eapply Hs|done].
Qed.

Lemma stack_to_cycle pre x suf : stack_to (pre ++ x :: suf) x → is_cycle (x :: suf).
Proof. intros H. by eapply H. Qed.

(** A rank that every edge lowers excludes cycles. *)
Lemma chain_rank (rank : A → nat) x l y :
  (∀ a b, edge a b → rank b < rank a) → chain x l y → rank y < rank x.
Proof.
  intros Hr. revert x. induction l as [|z l IH]; simpl; intros x; [auto|].
  intros [H1%Hr H2%IH]. lia.
Qed.

Lemma ranked_acyclic (rank : A → nat) c :
  (∀ a b, edge a b → rank b < rank a) → ¬ is_cycle c.
Proof. intros Hr. destruct c as [|x l]; [tauto|]. simpl. intros H. apply (chain_rank rank _ _ _ Hr) in H. lia. Qed.

(** [order] lists a node after every node it has an edge to. *)
Definition ordered (order : list A) : Prop :=
  ∀ pre x suf, order = pre ++ x :: suf → ∀ y, edge x y → y ∈ pre.

Lemma ordered_nil : ordered [].
Proof. by intros [] ? ?. Qed.

Lemma ordered_snoc order x :
  ordered order → (∀ y, edge x y → y ∈ order) → ordered (order ++ [x]).
Proof.
  intros Ho Hx pre z suf E y Hy. destruct suf as [|s suf _] using rev_ind.
  - apply app_inj_tail in E as [-> ->]. auto.
  - rewrite app_comm_cons, app_assoc in E. apply app_inj_tail in E as [E ->]. by eapply Ho.
Qed.

Lemma ordered_closed order x y : ordered order → x ∈ order → edge x y → y ∈ order.
Proof.
  intros Ho [pre [suf ->]]%list_elem_of_split Hxy. apply elem_of_app. left. by eapply Ho.
Qed.
End Paths.

(** A node that starts a cycle stays inside an ordered list that has it, where
    the first of the cycle's nodes has nothing to follow. *)
Lemma ordered_acyclic {A} `{EqDecision A} (edge : A → A → Prop) order c :
  ordered edge order → (∀ x y, edge x y → x ∈ order) → ¬ is_cycle edge c.
Proof.
  intros Ho Hin. pose (rank x := from_option fst 0 (list_find (λ y, y = x) order)).
  apply (ranked_acyclic edge rank). intros a b Hab. unfold rank.
  destruct (list_find (λ y, y = a) order) as [[i a']|] eqn:Ea; simpl.
  2:{ eapply list_find_None in Ea. rewrite Forall_forall in Ea. by destruct (Ea a (Hin _ _ Hab)). }
  apply list_find_Some in Ea as (Hi & -> & _).
  assert (b ∈ take i order) as Hb.
  { eapply Ho; [|exact Hab]. symmetry. by apply take_drop_middle. }
  destruct (list_find (λ y, y = b) order) as [[j b']|] eqn:Eb; simpl.
  - apply list_find_Some in Eb as (Hj & -> & Hmin).
    apply list_elem_of_lookup in Hb as [k [Hk ?]%lookup_take_Some].
    destruct (decide (j ≤ k)) as [|Hjk]; [lia|]. exfalso. apply not_le in Hjk. by eapply (Hmin k b).
  - eapply list_find_None in Eb. rewrite Forall_forall in Eb.
    destruct (Eb b); [|done]. by eapply elem_of_take in Hb as (? & ?%list_elem_of_lookup_2 & _).
Qed.

(** ** The search *)

Section StartOrder.
Context (startable : gset string) (dependencies_for : string → list string).

(** [ServiceDependencyOrderCycle] is the list of its [services]. A call
    leaves [temporary] as it found it, so it is an argument; [permanent] and
    [order] are threaded. [None] is running out of fuel. *)
Definition Visit : Type := option (Result (gset string * list string) (list string)).

Fixpoint visit_dependencies
    (visit : string → gset string → list string → Visit)
    (dependencies : list string) (permanent : gset string) (order : list string) : Visit :=
  match dependencies with
  | [] => Some (Ok (permanent, order))
  | dependency :: dependencies =>
      if decide (dependency ∈ startable) then
        match visit dependency permanent order with
        | Some (Ok (permanent, order)) =>
            visit_dependencies visit dependencies permanent order
        | other => other
        end
      else visit_dependencies visit dependencies permanent order
  end.

Fixpoint visit_order (fuel : nat) (temporary : list string)
    (service : string) (permanent : gset string) (order : list string) : Visit :=
  match fuel with
  | O => None
  | S fuel =>
      if decide (service ∈ permanent) then Some (Ok (permanent, order))
      else match list_find (λ entry, entry = service) temporary with
      | Some (index, _) => Some (Err (drop index temporary))
      | None =>
          match visit_dependencies (visit_order fuel (temporary ++ [service]))
                  (dependencies_for service) permanent order with
          | Some (Ok (permanent, order)) =>
              Some (Ok ({[service]} ∪ permanent, order ++ [service]))
          | other => other
          end
      end
  end.

Fixpoint visit_all (services : list string) (permanent : gset string) (order : list string) : Visit :=
  match services with
  | [] => Some (Ok (permanent, order))
  | service :: services =>
      match visit_order (S (size startable)) [] service permanent order with
      | Some (Ok (permanent, order)) => visit_all services permanent order
      | other => other
      end
  end.

Definition dependency_start_order : option (Result (list string) (list string)) :=
  match visit_all (btree_elements startable) ∅ [] with
  | Some (Ok (_, order)) => Some (Ok order)
  | Some (Err cycle) => Some (Err cycle)
  | None => None
  end.

(** ** Correctness *)

(** The ordering constraint: a dependency that is itself startable. *)
Definition must_follow (service dependency : string) : Prop :=
  service ∈ startable ∧ dependency ∈ dependencies_for service ∧ dependency ∈ startable.

(** What holds between visits: [permanent] is the set of what [order] lists,
    without repetition and in an order that respects the dependencies. *)
Record visited (permanent : gset string) (order : list string) : Prop := {
  visited_elem x : x ∈ permanent ↔ x ∈ order;
  visited_nodup : NoDup order;
  visited_startable x : x ∈ order → x ∈ startable;
  visited_ordered : ordered must_follow order;
}.

(** What one visit, or the visits of a list, establish: success has extended
    the order, adding nothing that is on the stack, and listed the targets;
    failure has found a cycle. *)
Definition visit_ok (temporary targets : list string) (order : list string) (r : Visit) : Prop :=
  match r with
  | None => False
  | Some (Ok (permanent', order')) =>
      visited permanent' order' ∧
      (∀ x, x ∈ order → x ∈ order') ∧
      (∀ x, x ∈ temporary → x ∉ order → x ∉ order') ∧
      (∀ x, x ∈ targets → x ∈ startable → x ∈ order')
  | Some (Err cycle) => is_cycle must_follow cycle
  end.

Lemma visited_snoc permanent order service :
  visited permanent order → service ∈ startable → service ∉ order →
  (∀ y, must_follow service y → y ∈ order) →
  visited ({[service]} ∪ permanent) (order ++ [service]).
Proof.
  intros [He Hn Hs Ho] Hst Hni Hdeps. constructor.
  - intros x. rewrite elem_of_union, elem_of_singleton, elem_of_app, list_elem_of_singleton, He. tauto.
  - apply NoDup_app. split; [done|]. split; [|apply NoDup_singleton].
    intros x Hx ->%list_elem_of_singleton. done.
  - intros x [?| ->%list_elem_of_singleton]%elem_of_app; auto.
  - by apply ordered_snoc.
Qed.

Lemma visit_dependencies_ok visit temporary dependencies permanent order :
  (∀ d permanent order,
     d ∈ dependencies → d ∈ startable → visited permanent order →
     (∀ x, x ∈ temporary → x ∉ order) →
     visit_ok temporary [d] order (visit d permanent order)) →
  visited permanent order → (∀ x, x ∈ temporary → x ∉ order) →
  visit_ok temporary dependencies order (visit_dependencies visit dependencies permanent order).
Proof.
  revert permanent order. induction dependencies as [|d ds IH]; intros permanent order Hv Hvis Ht; simpl.
  { split_and!; try done. intros x []%elem_of_nil. }
  assert (∀ permanent order, visited permanent order → (∀ x, x ∈ temporary → x ∉ order) →
    visit_ok temporary ds order (visit_dependencies visit ds permanent order)) as IH'.
  { intros. apply IH; try done. intros. apply Hv; try done. by right. }
  clear IH. case_decide as Hd.
  - specialize (Hv d permanent order ltac:(left) Hd Hvis Ht) as Hone.
    destruct (visit d permanent order) as [[[p1 o1]|c]|]; simpl in *; try done.
    destruct Hone as (Hvis1 & Hext1 & Htmp1 & Hin1).
    specialize (IH' p1 o1 Hvis1 ltac:(auto)).
    destruct (visit_dependencies visit ds p1 o1) as [[[p2 o2]|c]|]; simpl in *; try done.
    destruct IH' as (Hvis2 & Hext2 & Htmp2 & Hin2). split_and!; try done; auto.
    intros x [->|?]%elem_of_cons ?; [|auto]. apply Hext2, Hin1; [left|done].
  - specialize (IH' permanent order Hvis Ht).
    destruct (visit_dependencies visit ds permanent order) as [[[p2 o2]|c]|]; simpl in *; try done.
    destruct IH' as (Hvis2 & Hext2 & Htmp2 & Hin2). split_and!; try done.
    intros x [->|?]%elem_of_cons ?; [done|auto].
Qed.

Lemma stack_bound temporary :
  NoDup temporary → (∀ x, x ∈ temporary → x ∈ startable) → length temporary ≤ size startable.
Proof.
  intros Hn Hs. rewrite <-(size_list_to_set (C := gset string) temporary) by done.
  apply subseteq_size. intros x ?%elem_of_list_to_set. auto.
Qed.

Lemma visit_order_ok fuel temporary service permanent order :
  size startable < fuel + length temporary → NoDup temporary →
  (∀ x, x ∈ temporary → x ∈ startable) → service ∈ startable →
  stack_to must_follow temporary service →
  visited permanent order → (∀ x, x ∈ temporary → x ∉ order) →
  visit_ok temporary [service] order (visit_order fuel temporary service permanent order).
Proof.
  revert temporary service permanent order. induction fuel as [|fuel IH];
    intros temporary service permanent order Hfuel Hn Hts Hs Hst Hvis Ht; simpl.
  { pose proof (stack_bound temporary Hn Hts). lia. }
  case_decide as Hp.
  { split_and!; try done. intros x ->%list_elem_of_singleton _. by apply (visited_elem _ _ Hvis). }
  destruct (list_find _ temporary) as [[i y]|] eqn:Ef.
  { apply list_find_Some in Ef as (Hi & -> & _).
    rewrite <-(take_drop_middle _ _ _ Hi) in Hst. apply stack_to_cycle in Hst.
    by rewrite (drop_S _ service i Hi). }
  apply list_find_None in Ef. rewrite Forall_forall in Ef.
  assert (service ∉ temporary) as Hfresh by (intros ?; by eapply Ef).
  assert (service ∉ order) as Hno by (by rewrite <-(visited_elem _ _ Hvis)).
  assert (∀ x, x ∈ temporary ++ [service] → x ∉ order) as Ht'
    by (intros x [?| ->%list_elem_of_singleton]%elem_of_app; auto).
  assert (visit_ok (temporary ++ [service]) (dependencies_for service) order
    (visit_dependencies (visit_order fuel (temporary ++ [service]))
       (dependencies_for service) permanent order)) as Hloop.
  { apply visit_dependencies_ok; [|done..]. intros d p o Hd Hdst Hpo Hto. apply IH; try done.
    - rewrite length_app; simpl; lia.
    - apply NoDup_app. split; [done|]. split; [|apply NoDup_singleton].
      by intros x Hx ->%list_elem_of_singleton.
    - intros x [?| ->%list_elem_of_singleton]%elem_of_app; auto.
    - apply stack_to_snoc; [done|]. by split. }
  destruct (visit_dependencies _ _ permanent order) as [[[p1 o1]|c]|]; simpl in *; try done.
  destruct Hloop as (Hv1 & Hext & Htmp & Hdeps).
  assert (service ∉ o1) as Hno1 by (apply Htmp; [set_solver|done]).
  split; [|split; [|split]].
  - apply visited_snoc; try done. intros y (_ & ? & ?). auto.
  - intros x ?. apply elem_of_app. auto.
  - intros x Hx Hxo [?| ->%list_elem_of_singleton]%elem_of_app; [|done].
    by eapply (Htmp x); [apply elem_of_app; left|..].
  - intros x ->%list_elem_of_singleton _. apply elem_of_app. right. left.
Qed.

Lemma visit_all_ok services permanent order :
  (∀ x, x ∈ services → x ∈ startable) → visited permanent order →
  visit_ok [] services order (visit_all services permanent order).
Proof.
  revert permanent order. induction services as [|s ss IH]; intros permanent order Hs Hvis.
  { simpl. split_and!; try done. intros x []%elem_of_nil. }
  assert (visit_ok [] [s] order (visit_order (S (size startable)) [] s permanent order)) as Hone.
  { apply visit_order_ok; try done; try (intros x []%elem_of_nil).
    - simpl; lia.
    - constructor.
    - apply Hs. left.
    - apply stack_to_nil. }
  cbn [visit_all].
  destruct (visit_order (S (size startable)) [] s permanent order) as [[[p1 o1]|c]|];
    cbn [visit_ok] in *; try done.
  destruct Hone as (Hv1 & Hext1 & _ & Hin1).
  specialize (IH p1 o1 ltac:(intros; apply Hs; by right) Hv1).
  destruct (visit_all ss p1 o1) as [[[p2 o2]|c]|]; simpl in *; try done.
  destruct IH as (Hv2 & Hext2 & _ & Hin2). split_and!; try done; auto.
  - intros x []%elem_of_nil.
  - intros x [->|?]%elem_of_cons ?; [|auto]. apply Hext2, Hin1; [left|done].
Qed.

Lemma visited_empty : visited ∅ [].
Proof.
  constructor; [set_solver|apply NoDup_nil_2|set_solver|apply ordered_nil].
Qed.

Lemma dependency_start_order_spec :
  match dependency_start_order with
  | Some (Ok order) => order ≡ₚ elements startable ∧ ordered must_follow order
  | Some (Err cycle) => is_cycle must_follow cycle
  | None => False
  end.
Proof.
  unfold dependency_start_order.
  pose proof (visit_all_ok (btree_elements startable) ∅ []
    (λ x, proj1 (elem_of_btree_elements startable x)) visited_empty) as H.
  destruct (visit_all _ ∅ []) as [[[p o]|c]|]; simpl in *; try done.
  destruct H as ([He Hn Hs Ho] & _ & _ & Hin). split; [|done].
  apply NoDup_Permutation; [done|apply NoDup_elements|]. intros x. rewrite elem_of_elements.
  split; [auto|]. intros ?. apply Hin; [by apply elem_of_btree_elements|done].
Qed.

(** The start-order search is total and correct: it always returns; when
    it succeeds the order lists every startable service exactly once, each
    one after all the startable services it depends on; when it fails the
    reported services are a real dependency cycle among startable services. *)
Theorem dependency_start_order_correct :
  match dependency_start_order with
  | Some (Ok order) => order ≡ₚ elements startable ∧ ordered must_follow order
  | Some (Err cycle) => is_cycle must_follow cycle
  | None => False
  end.
Proof. exact dependency_start_order_spec. Qed.

(** The start-order search succeeds exactly when the startable services
    have no dependency cycle. *)
Theorem start_order_succeeds_iff_acyclic :
  (∃ order, dependency_start_order = Some (Ok order)) ↔ ∀ cycle, ¬ is_cycle must_follow cycle.
Proof.
  pose proof dependency_start_order_spec as H. split.
  - intros [order E] cycle. rewrite E in H. destruct H as [Hp Ho].
    eapply ordered_acyclic; [exact Ho|]. intros x y (? & _ & _). rewrite Hp. by apply elem_of_elements.
  - intros Hac. destruct dependency_start_order as [[order|cycle]|]; [eauto| |done].
    by destruct (Hac cycle).
Qed.
End StartOrder.
