(* ===== verification/Reach.v ===== *)
(** * Closures over a finite graph

    The two computations the planners share, over strings as nodes: collecting
    everything reachable from a node while noting faults on the way
    ([reach]), and spreading a mark along dependencies until nothing changes
    ([spread]). Each is stated once, with its fuel bound and its exact result;
    the planners' own loops are instances. *)

From S2P Require Import Prelude.

(** ** Reachability with notes *)

(** What visiting a node does, in order: go to another node, or note a fault
    against the node itself. *)
Inductive Step (A : Type) : Type :=
| Follow (target : string)
| Note (a : A).
Arguments Follow {A} target.
Arguments Note {A} a.

Definition followed {A} (s : Step A) : option string :=
  match s with Follow t => Some t | Note _ => None end.
Definition noted {A} (s : Step A) : option A :=
  match s with Follow _ => None | Note a => Some a end.

Section Reach.
Context {A D : Type} (steps : string → list (Step A)) (note : string → A → option D → option D).

(** The visited nodes and the notes of each. *)
Definition Reached : Type := gset string * gmap string D.

Definition add_note (s : string) (a : A) (st : Reached) : Reached :=
  (st.1, partial_alter (note s a) s st.2).

Definition run_step (visit : string → Reached → option Reached) (s : string) (step : Step A)
    (st : Reached) : option Reached :=
  match step with
  | Follow t => visit t st
  | Note a => Some (add_note s a st)
  end.

Fixpoint reach (fuel : nat) (s : string) (st : Reached) : option Reached :=
  match fuel with
  | O => None
  | S fuel =>
      if bool_decide (s ∈ st.1) then Some st
      else try_fold (run_step (reach fuel) s) (steps s) (set_insert s st.1, st.2)
  end.

Definition goes (a b : string) : Prop := Follow b ∈ steps a.

(** Every note of a node, made in the order of its steps. *)
Definition noting (s : string) (l : list (Step A)) (o : option D) : option D :=
  foldl (λ o a, note s a o) o (omap noted l).

(** The notes of [st'] are those of [st], with the nodes that are new in it
    noted; those of [s] are as [l] makes them. *)
Record reached (targets : list string) (s : string) (l : list (Step A)) (st st' : Reached) : Prop := {
  rc_mono : st.1 ⊆ st'.1;
  rc_targets : ∀ t, t ∈ targets → t ∈ st'.1;
  rc_reach : ∀ x, x ∈ st'.1 → x ∉ st.1 → ∃ t, t ∈ targets ∧ rtc goes t x;
  rc_closed : ∀ x y, x ∈ st'.1 → x ∉ st.1 → goes x y → y ∈ st'.1;
  rc_new : ∀ x, x ∈ st'.1 → x ∉ st.1 → st'.2 !! x = noting x (steps x) (st.2 !! x);
  rc_old : ∀ x, x ∉ st'.1 ∨ x ∈ st.1 → x ≠ s → st'.2 !! x = st.2 !! x;
  rc_self : s ∈ st.1 → st'.2 !! s = noting s l (st.2 !! s);
}.

Lemma noting_app s l k o : noting s (l ++ k) o = noting s k (noting s l o).
Proof. unfold noting. by rewrite omap_app, foldl_app. Qed.

Lemma reached_refl s st : reached [] s [] st st.
Proof. split; try done. by intros ? []%elem_of_nil. Qed.

Lemma reached_trans ts1 ts2 s l1 l2 st1 st2 st3 :
  s ∈ st1.1 → reached ts1 s l1 st1 st2 → reached ts2 s l2 st2 st3 → reached (ts1 ++ ts2) s (l1 ++ l2) st1 st3.
Proof.
  intros Hs [M1 T1 R1 C1 N1 O1 S1] [M2 T2 R2 C2 N2 O2 S2]. assert (s ∈ st2.1) as Hs2 by auto. split.
  - set_solver.
  - intros t [?|?]%elem_of_app; auto.
  - intros x Hx Hn. setoid_rewrite elem_of_app. destruct (decide (x ∈ st2.1)).
    + destruct (R1 x) as (t & ? & ?); eauto.
    + destruct (R2 x) as (t & ? & ?); eauto.
  - intros x y Hx Hn Hg. destruct (decide (x ∈ st2.1)); [|by eapply C2]. eapply M2, C1; done.
  - intros x Hx Hn. assert (x ≠ s) by set_solver. destruct (decide (x ∈ st2.1)).
    + rewrite O2 by auto. by apply N1.
    + rewrite N2 by done. f_equal. apply O1; auto.
  - intros x Hx Hne. destruct (decide (x ∈ st2.1)) as [H2|H2].
    + rewrite O2 by auto. destruct Hx as [Hx|Hx]; [|by apply O1; auto]. set_solver.
    + rewrite O2, O1; auto. destruct Hx as [?|?]; [by left|set_solver].
  - intros _. by rewrite noting_app, <-S1, S2.
Qed.

(** A node included, with all its steps run, is one more reached node. *)
Lemma reached_node s ts st st' :
  s ∉ st.1 → (∀ t, t ∈ ts ↔ goes s t) → reached ts s (steps s) (set_insert s st.1, st.2) st' →
  reached [s] s [] st st'.
Proof.
  intros Hn Hts [M T R C N O S]. simpl in *.
  assert (∀ x, x ∈ set_insert s st.1 ↔ x = s ∨ x ∈ st.1) as Hins by (intros; apply elem_of_set_insert).
  assert (s ∈ st'.1) as Hs by (apply M, Hins; by left).
  split; simpl.
  - intros x Hx. apply M, Hins. by right.
  - by intros t ->%list_elem_of_singleton.
  - intros x Hx Hxn. exists s. split; [left|]. destruct (decide (x = s)) as [->|]; [done|].
    destruct (R x Hx) as (t & Ht%Hts & ?); [rewrite Hins; tauto|]. by eapply rtc_l.
  - intros x y Hx Hxn Hg. destruct (decide (x = s)) as [->|]; [by apply T, Hts|]. eapply (C x); [done| |done].
    rewrite Hins. tauto.
  - intros x Hx Hxn. destruct (decide (x = s)) as [->|]; [apply S, Hins; by left|].
    apply N; [done|]. rewrite Hins. tauto.
  - intros x Hx Hne. apply O; [|done]. rewrite Hins. tauto.
  - done.
Qed.

Lemma reach_mono fuel s st st' : reach fuel s st = Some st' → st.1 ⊆ st'.1.
Proof.
  revert s st st'. induction fuel as [|fuel IH]; intros s st st'; simpl; [done|].
  destruct (bool_decide (s ∈ st.1)); [by intros [= <-]|]. intros E.
  assert (set_insert s st.1 ⊆ st'.1) as H.
  { refine (try_fold_inv _ (λ st0 : Reached, set_insert s st.1 ⊆ st0.1) _ _ _ _ _ E); [|reflexivity].
    intros [t|a] st0 st1 _ H0; simpl; [|by intros [= <-]]. intros E1%IH. set_solver. }
  intros x Hx. apply H, elem_of_set_insert. by right.
Qed.

(** *** The search *)

Context (nodes : gset string) (Hnodes : ∀ a b, goes a b → b ∈ nodes).

Definition unvisited (st : Reached) : nat := size (nodes ∖ st.1).

Lemma reached_unvisited ts s l st st' : reached ts s l st st' → (unvisited st' ≤ unvisited st)%nat.
Proof. intros [M _ _ _ _ _ _]. unfold unvisited. apply subseteq_size. set_solver. Qed.

Lemma run_steps_ok visit fuel s l st :
  (∀ t st, t ∈ nodes → (unvisited st < fuel)%nat → ∃ st', visit t st = Some st' ∧ reached [t] t [] st st') →
  (∀ t, Follow t ∈ l → t ∈ nodes) → s ∈ st.1 → (unvisited st < fuel)%nat →
  ∃ st', try_fold (run_step visit s) l st = Some st' ∧ reached (omap followed l) s l st st'.
Proof.
  intros Hv. revert st. induction l as [|step l IH]; intros st Hl Hs Hu; cbn [try_fold].
  { exists st. split; [done|apply reached_refl]. }
  assert (∃ st1, run_step visit s step st = Some st1 ∧ reached (omap followed [step]) s [step] st st1) as (st1 & -> & H1).
  { destruct step as [t|a]; simpl.
    - destruct (Hv t st) as (st1 & E & [M T R C N O S]); [apply Hl; left|done|]. exists st1. split; [done|].
      split; try done.
      + intros x Hx Hne. destruct (decide (x = t)) as [->|]; [|by apply O]. destruct Hx as [Hx|Hx].
        * destruct Hx. apply T. left.
        * rewrite S by done. done.
      + intros _. destruct (decide (s = t)) as [->|]; [by rewrite S|]. apply O; [by right|done].
    - eexists. split; [done|]. split; simpl; try done; try (by intros ? []%elem_of_nil).
      + intros x _ Hne. by rewrite lookup_partial_alter_ne.
      + intros _. by rewrite lookup_partial_alter_eq. }
  cbn [mbind option_bind]. destruct (IH st1) as (st2 & -> & H2).
  - intros t Ht. apply Hl. by right.
  - by apply (rc_mono _ _ _ _ _ H1).
  - pose proof (reached_unvisited _ _ _ _ _ H1). lia.
  - exists st2. split; [done|]. change (step :: l) with ([step] ++ l).
    rewrite omap_app. by eapply reached_trans.
Qed.

Lemma reach_ok fuel s st :
  s ∈ nodes → (unvisited st < fuel)%nat → ∃ st', reach fuel s st = Some st' ∧ reached [s] s [] st st'.
Proof.
  revert s st. induction fuel as [|fuel IH]; intros s st Hs Hu; [lia|]. simpl.
  destruct (bool_decide (s ∈ st.1)) eqn:E; breflect.
  { exists st. split; [done|]. split; try done. by intros ? ->%list_elem_of_singleton. }
  destruct (run_steps_ok (reach fuel) fuel s (steps s) (set_insert s st.1, st.2)) as (st' & -> & H1).
  - intros t st0 Ht Hu0. by apply IH.
  - intros t Ht. by eapply Hnodes.
  - simpl. apply elem_of_set_insert. by left.
  - unfold unvisited in *. simpl. eapply Nat.lt_le_trans; [|apply Nat.lt_succ_r, Hu]. apply subset_size. split.
    + intros x. rewrite !elem_of_difference, elem_of_set_insert. tauto.
    + intros Hsub. assert (s ∈ nodes ∖ st.1) as Hin by set_solver. apply Hsub in Hin.
      rewrite elem_of_difference, elem_of_set_insert in Hin. tauto.
  - exists st'. split; [done|]. eapply reached_node; [done| |exact H1].
    intros t. unfold goes. rewrite list_elem_of_omap. split.
    + by intros ([t'|a] & Ht & [= ->]).
    + intros Ht. by exists (Follow t).
Qed.

(** From nothing visited, exactly the reachable nodes, each with its notes. *)
Lemma reach_from s :
  s ∈ nodes → ∃ st, reach (S (size nodes)) s (∅, ∅) = Some st ∧
    (∀ x, x ∈ st.1 ↔ rtc goes s x) ∧
    (∀ x, st.2 !! x = if decide (x ∈ st.1) then noting x (steps x) None else None).
Proof.
  intros Hs. destruct (reach_ok (S (size nodes)) s (∅, ∅) Hs) as (st & E & [M T R C N O S]).
  { unfold unvisited. simpl. rewrite difference_empty_L. lia. }
  assert (∀ x, x ∈ st.1 ↔ rtc goes s x) as Hin.
  { intros x. split.
    - intros Hx. destruct (R x Hx) as (t & ->%list_elem_of_singleton & ?); [set_solver|done].
    - intros Hr. refine (rtc_ind_r (R := goes) (λ y, y ∈ st.1) s _ _ x Hr); [apply T; left|].
      intros y z _ Hg Hy. apply (C y z); [done|set_solver|done]. }
  exists st. split; [done|]. split; [done|]. intros x. case_decide as Hx; [by apply N; [|set_solver]|].
  rewrite O; [done|by left|]. intros ->. apply Hx, T. left.
Qed.
End Reach.

(** ** Spreading a mark

    [hard s] lists what [s] needs, [on] is the node a need names. A node of
    [included] that needs a marked one is marked, with what [mark] makes of its
    first such need. *)
Section Spread.
Context {X D : Type} (included : gset string) (hard : string → list X) (on : X → string).
Context (mark : string → X → D).

Definition first_marked (s : string) (m : gmap string D) : option X :=
  find_first (λ x, bool_decide (is_Some (m !! on x))) (hard s).

Definition spread_one (st : gmap string D * bool) (s : string) : gmap string D * bool :=
  let '(m, changed) := st in
  match m !! s with
  | Some _ => st
  | None => match first_marked s m with
            | None => st
            | Some x => (<[s := mark s x]> m, true)
            end
  end.

Fixpoint spread_passes (fuel : nat) (m : gmap string D) : option (gmap string D) :=
  match fuel with
  | O => None
  | S fuel =>
      let '(m, changed) := foldl spread_one (m, false) (btree_elements included) in
      if changed then spread_passes fuel m else Some m
  end.

Definition spread (m : gmap string D) : option (gmap string D) := spread_passes (S (size included)) m.

(** The marked nodes, and those that need one of them through [included]. *)
Inductive doomed (m : gmap string D) : string → Prop :=
| doomed_marked s : is_Some (m !! s) → doomed m s
| doomed_needs s x : s ∈ included → x ∈ hard s → doomed m (on x) → doomed m s.

(** Marks are kept, and a new one has its cause in the result. *)
Record spreads (m m' : gmap string D) : Prop := {
  sp_keep : ∀ s d, m !! s = Some d → m' !! s = Some d;
  sp_new : ∀ s d, m' !! s = Some d → m !! s = None →
    s ∈ included ∧ ∃ x, x ∈ hard s ∧ d = mark s x ∧ is_Some (m' !! on x);
  sp_doomed : ∀ s, is_Some (m' !! s) → doomed m s;
}.

Lemma spreads_refl m : spreads m m.
Proof. split; [done|congruence|by constructor]. Qed.

Lemma spreads_trans m1 m2 m3 : spreads m1 m2 → spreads m2 m3 → spreads m1 m3.
Proof.
  intros [K1 N1 D1] [K2 N2 D2]. split; [auto| |].
  - intros s d H3 H1. destruct (m2 !! s) as [d2|] eqn:E; [|by apply N2].
    pose proof (K2 _ _ E). simplify_eq. destruct (N1 _ _ E H1) as (? & x & ? & ? & [? ?]). split; [done|].
    exists x. split_and!; try done. eauto.
  - intros s Hs%D2. clear - D1 Hs. induction Hs as [s Hs|s x]; [auto|]. by eapply doomed_needs.
Qed.

Definition settled (m : gmap string D) (s : string) : Prop :=
  ∀ x, x ∈ hard s → is_Some (m !! on x) → is_Some (m !! s).

Lemma spread_one_ok m c s :
  s ∈ included →
  let '(m', c') := spread_one (m, c) s in
  spreads m m' ∧
  ((m' = m ∧ c' = c ∧ settled m s) ∨ (c' = true ∧ m !! s = None ∧ is_Some (m' !! s))).
Proof.
  intros Hs. unfold spread_one. destruct (m !! s) as [d|] eqn:E.
  { split; [apply spreads_refl|]. left. split_and!; try done. intros ???. eauto. }
  destruct (first_marked s m) as [x|] eqn:Ef.
  - apply find_first_Some in Ef as [Hin [d Hd]%bool_decide_eq_true]. split; [split|].
    + intros s' d' Hs'. rewrite lookup_insert_ne; [done|congruence].
    + intros s' d' [[<- <-]|[_ ?]]%lookup_insert_Some Hn; [|congruence]. split; [done|]. exists x.
      split_and!; try done. rewrite lookup_insert_ne by congruence. eauto.
    + intros s' [d' [[<- <-]|[_ ?]]%lookup_insert_Some]; [|constructor; eauto].
      eapply doomed_needs; [done..|]. constructor. eauto.
    + right. split_and!; try done. rewrite lookup_insert_eq. eauto.
  - split; [apply spreads_refl|]. left. split_and!; try done. intros x Hx Hm.
    eapply find_first_None in Ef; [|exact Hx]. by apply bool_decide_eq_false in Ef.
Qed.

Definition unmarked (m : gmap string D) : nat := size (included ∖ dom m).

Lemma spreads_dom m m' : spreads m m' → dom m ⊆ dom m'.
Proof. intros [K _ _] x [d ?]%elem_of_dom. apply elem_of_dom. eauto. Qed.

Lemma newly_marked m m' s :
  spreads m m' → s ∈ included → m !! s = None → is_Some (m' !! s) → (unmarked m' < unmarked m)%nat.
Proof.
  intros HS%spreads_dom Hs Hn Hm'. apply elem_of_dom in Hm'. apply not_elem_of_dom in Hn.
  unfold unmarked. apply subset_size. set_solver.
Qed.

Lemma spread_pass_ok l m c :
  (∀ s, s ∈ l → s ∈ included) →
  let '(m', c') := foldl spread_one (m, c) l in
  spreads m m' ∧
  ((m' = m ∧ c' = c ∧ ∀ s, s ∈ l → settled m s) ∨ (c' = true ∧ (unmarked m' < unmarked m)%nat)).
Proof.
  revert m c. induction l as [|s l IH]; intros m c Hl; cbn [foldl].
  { split; [apply spreads_refl|]. left. split_and!; try done. by intros ? []%elem_of_nil. }
  pose proof (spread_one_ok m c s (Hl s ltac:(left))) as H1.
  destruct (spread_one (m, c) s) as [m1 c1]. destruct H1 as [P1 Hc1].
  specialize (IH m1 c1 (λ x Hx, Hl x (list_elem_of_further _ _ _ Hx))).
  destruct (foldl spread_one (m1, c1) l) as [m2 c2]. destruct IH as [P2 Hc2].
  split; [by eapply spreads_trans|]. destruct Hc1 as [(-> & -> & Hset)|(-> & Hn & Hm)].
  - destruct Hc2 as [(-> & -> & Hset2)|?]; [left|by right]. split_and!; try done.
    intros x [->|?]%elem_of_cons; auto.
  - right. pose proof (newly_marked m m1 s P1 (Hl s ltac:(left)) Hn Hm) as Hlt.
    destruct Hc2 as [(-> & -> & _)|(-> & ?)]; split; (done || lia).
Qed.

Lemma spread_passes_ok fuel m :
  (unmarked m < fuel)%nat →
  ∃ m', spread_passes fuel m = Some m' ∧ spreads m m' ∧ ∀ s, s ∈ included → settled m' s.
Proof.
  revert m. induction fuel as [|fuel IH]; intros m Hf; [lia|]. cbn [spread_passes].
  pose proof (spread_pass_ok (btree_elements included) m false
    (λ s, proj1 (elem_of_btree_elements included s))) as H.
  destruct (foldl spread_one (m, false) _) as [m1 c1]. destruct H as [P [(-> & -> & Hset)|(-> & Hlt)]].
  - exists m. split_and!; try done. intros s Hs. apply Hset. by apply elem_of_btree_elements.
  - destruct (IH m1) as (m2 & E & P2 & Hset); [lia|]. exists m2. split_and!; try done. by eapply spreads_trans.
Qed.

(** The loop ends, with exactly the doomed nodes marked. *)
Lemma spread_ok m :
  ∃ m', spread m = Some m' ∧ spreads m m' ∧ ∀ s, is_Some (m' !! s) ↔ doomed m s.
Proof.
  destruct (spread_passes_ok (S (size included)) m) as (m' & E & P & Hset).
  { unfold unmarked. apply Nat.lt_succ_r, subseteq_size. set_solver. }
  exists m'. split_and!; try done. intros s. split; [apply P|].
  induction 1 as [s [d Hd]|s x Hs Hx _ IH]; [|by eapply Hset]. exists d. by apply P.
Qed.
End Spread.
