(* ===== verification/Effects.v ===== *)
(** * Effects

    The state and error monad of the supervisor's transactions: a step maps
    the state to the state it leaves and its result, and an error leaves
    whatever had been done before it. Laws, loops and the rule for invariants
    that the transactions share. *)

From S2P Require Import Prelude.
From Stdlib Require Import String.

Definition Eff (S E A : Type) : Type := S → S * Result A E.

#[export] Instance eff_ret {S E} : MRet (Eff S E) := λ A a s, (s, Ok a).
#[export] Instance eff_bind {S E} : MBind (Eff S E) := λ A B k m s,
  match m s with
  | (s, Ok a) => k a s
  | (s, Err e) => (s, Err e)
  end.

Definition fail_with {S E A} (e : E) : Eff S E A := λ s, (s, Err e).
Definition get_with {S E A} (f : S → A) : Eff S E A := λ s, (s, Ok (f s)).
Definition update_with {S E} (f : S → S) : Eff S E unit := λ s, (f s, Ok tt).
Definition lift_result {S E A} (r : Result A E) : Eff S E A := λ s, (s, r).

(** [for x in xs { body(x)? }], the results collected. *)
Fixpoint for_each {S E X A} (body : X → Eff S E A) (xs : list X) : Eff S E (list A) :=
  match xs with
  | [] => mret []
  | x :: xs => a ← body x; l ← for_each body xs; mret (a :: l)
  end.

(** ** Steps that keep a relation between the states *)

Section Keeps.
Context {S E : Type} (R : S → S → Prop) `{!PreOrder R}.

Definition keeps {A} (m : Eff S E A) : Prop := ∀ s, R s (m s).1.

Lemma keeps_ret {A} (a : A) : keeps (mret a).
Proof. intros s. reflexivity. Qed.

Lemma keeps_fail {A} e : keeps (fail_with e : Eff S E A).
Proof. intros s. reflexivity. Qed.

Lemma keeps_get {A} (f : S → A) : keeps (get_with f).
Proof. intros s. reflexivity. Qed.

Lemma keeps_lift {A} (r : Result A E) : keeps (lift_result r).
Proof. intros s. reflexivity. Qed.

Lemma keeps_bind {A B} (m : Eff S E A) (k : A → Eff S E B) : keeps m → (∀ a, keeps (k a)) → keeps (m ≫= k).
Proof.
  intros Hm Hk s. specialize (Hm s). unfold mbind, eff_bind. destruct (m s) as [s1 [a|e]]; simpl in *; [|done].
  etrans; [exact Hm|apply Hk].
Qed.

Lemma keeps_for_each {X A} (body : X → Eff S E A) xs : (∀ x, keeps (body x)) → keeps (for_each body xs).
Proof.
  intros Hb. induction xs as [|x xs IH]; simpl; [apply keeps_ret|].
  apply keeps_bind; [done|]. intros a. apply keeps_bind; [done|]. intros l. apply keeps_ret.
Qed.
End Keeps.

#[export] Hint Resolve keeps_ret keeps_fail keeps_get keeps_lift keeps_bind keeps_for_each : peinit.

Lemma bind_Ok {S E A B} (m : Eff S E A) (k : A → Eff S E B) s s' a :
  m s = (s', Ok a) → (m ≫= k) s = k a s'.
Proof. intros H. unfold mbind, eff_bind. by rewrite H. Qed.

Lemma bind_Err {S E A B} (m : Eff S E A) (k : A → Eff S E B) s s' e :
  m s = (s', Err e) → (m ≫= k) s = (s', Err e).
Proof. intros H. unfold mbind, eff_bind. by rewrite H. Qed.

(** A transaction: run on a copy, keep the copy only if it succeeds. *)
Definition transaction {S E A} (m : Eff S E A) : Eff S E A := λ s,
  match m s with
  | (s', Ok a) => (s', Ok a)
  | (_, Err e) => (s, Err e)
  end.

(** ** Steps that may also run out of fuel

    [Exec] is [Eff] with [None] for a recursion that was given too little
    fuel. That the steps of the program always return is a theorem about each
    of them. *)
Definition Exec (S E A : Type) : Type := S → option (S * Result A E).

#[export] Instance exec_ret {S E} : MRet (Exec S E) := λ A a s, Some (s, Ok a).
#[export] Instance exec_bind {S E} : MBind (Exec S E) := λ A B k m s,
  match m s with
  | None => None
  | Some (s, Err e) => Some (s, Err e)
  | Some (s, Ok a) => k a s
  end.

Definition exec_fail {S E A} (e : E) : Exec S E A := λ s, Some (s, Err e).
Definition exec_get {S E A} (f : S → A) : Exec S E A := λ s, Some (s, Ok (f s)).
Definition exec_update {S E} (f : S → S) : Exec S E unit := λ s, Some (f s, Ok tt).
Definition exec_lift {S E A} (r : Result A E) : Exec S E A := λ s, Some (s, r).

(** [.map_err(f)]. *)
Definition exec_map_err {S E F A} (f : E → F) (m : Exec S E A) : Exec S F A := λ s,
  match m s with
  | None => None
  | Some (s, r) => Some (s, map_err f r)
  end.

(** A method of one component of the state, with its error wrapped. *)
Definition exec_on {S T E F A} (get : S → T) (set : T → S → S) (wrap : F → E)
    (f : T → T * Result A F) : Exec S E A := λ s,
  let (t, r) := f (get s) in Some (set t s, map_err wrap r).

Definition exec_within {S T E F A} (get : S → T) (set : T → S → S) (wrap : F → E)
    (m : Exec T F A) : Exec S E A := λ s,
  match m (get s) with
  | None => None
  | Some (t, r) => Some (set t s, map_err wrap r)
  end.

(** [for x in xs { body(x)? }]. *)
Fixpoint exec_each {S E X A} (body : X → Exec S E A) (xs : list X) : Exec S E (list A) :=
  match xs with
  | [] => mret []
  | x :: xs => a ← body x; l ← exec_each body xs; mret (a :: l)
  end.

(** A step does its work on a copy that is kept only on success; [undo now
    before] is what remains after a failure: the state before, with what the
    copy does not cover as it is now. *)
Definition exec_atomic {S E A} (undo : S → S → S) (m : Exec S E A) : Exec S E A := λ s,
  match m s with
  | None => None
  | Some (s', Ok a) => Some (s', Ok a)
  | Some (s', Err e) => Some (undo s' s, Err e)
  end.

(** *** Preserving an invariant, and returning *)

Section Serves.
Context {S : Type} (I : S → Prop).

(** [m] always returns and keeps the invariant. *)
Definition serves {E A} (m : Exec S E A) : Prop := ∀ s, I s → ∃ s' r, m s = Some (s', r) ∧ I s'.

Lemma serves_ret {E A} (a : A) : serves (mret a : Exec S E A).
Proof. intros s Hs. by eexists _, _. Qed.

Lemma serves_fail {E A} (e : E) : serves (exec_fail e : Exec S E A).
Proof. intros s Hs. by eexists _, _. Qed.

Lemma serves_get {E A} (f : S → A) : serves (exec_get f : Exec S E A).
Proof. intros s Hs. by eexists _, _. Qed.

Lemma serves_lift {E A} (r : Result A E) : serves (exec_lift r).
Proof. intros s Hs. by eexists _, _. Qed.

Lemma serves_update {E} (f : S → S) : (∀ s, I s → I (f s)) → serves (exec_update f : Exec S E unit).
Proof. intros Hf s Hs. eexists _, _. by split; [|apply Hf]. Qed.

Lemma serves_bind {E A B} (m : Exec S E A) (k : A → Exec S E B) :
  serves m → (∀ a, serves (k a)) → serves (m ≫= k).
Proof.
  intros Hm Hk s Hs. destruct (Hm s Hs) as (s1 & [a|e] & Em & H1); unfold mbind, exec_bind; rewrite Em; [|eauto].
  by apply Hk.
Qed.

Lemma serves_map_err {E F A} (f : E → F) (m : Exec S E A) : serves m → serves (exec_map_err f m).
Proof. intros Hm s Hs. destruct (Hm s Hs) as (s1 & r & Em & H1). unfold exec_map_err. rewrite Em. eauto. Qed.

Lemma serves_on {T E F A} (get : S → T) set (wrap : F → E) (f : T → T * Result A F) :
  (∀ s, I s → I (set (f (get s)).1 s)) → serves (exec_on get set wrap f).
Proof. intros Hf s Hs. unfold exec_on. specialize (Hf s Hs). destruct (f (get s)). eauto. Qed.

Lemma serves_within {T E F A} (get : S → T) set (wrap : F → E) (m : Exec T F A) :
  (∀ s, I s → ∃ t r, m (get s) = Some (t, r) ∧ I (set t s)) → serves (exec_within get set wrap m).
Proof. intros Hm s Hs. unfold exec_within. destruct (Hm s Hs) as (t & r & -> & H). eauto. Qed.

Lemma serves_each {E X A} (body : X → Exec S E A) xs : (∀ x, serves (body x)) → serves (exec_each body xs).
Proof.
  intros Hb. induction xs as [|x xs IH]; simpl; [apply serves_ret|].
  apply serves_bind; [done|]. intros a. apply serves_bind; [done|]. intros l. apply serves_ret.
Qed.

Lemma serves_atomic {E A} undo (m : Exec S E A) :
  serves m → (∀ now before, I now → I before → I (undo now before)) → serves (exec_atomic undo m).
Proof.
  intros Hm Hu s Hs. destruct (Hm s Hs) as (s1 & [a|e] & Em & H1); unfold exec_atomic; rewrite Em; eauto.
Qed.
End Serves.

#[export] Hint Resolve serves_ret serves_fail serves_get serves_lift serves_bind serves_map_err serves_each : peinit.

(** *** Pre- and postconditions

    [triple Pre m Post]: from a state with [Pre], [m] returns, and a success
    [a] leaves a state with [Post a]. Nothing is said of the state a failure
    leaves, which a step that works on a copy throws away. *)
Section Triples.
Context {S E : Type}.

Definition triple {A} (Pre : S → Prop) (m : Exec S E A) (Post : A → S → Prop) : Prop :=
  ∀ s, Pre s → ∃ s' r, m s = Some (s', r) ∧ ∀ a, r = Ok a → Post a s'.

Lemma triple_ret {A} (a : A) (Post : A → S → Prop) : triple (Post a) (mret a) Post.
Proof. intros s Hs. eexists _, _. split; [done|]. by intros ? [= <-]. Qed.

Lemma triple_ret' {A} (a : A) (Pre : S → Prop) (Post : A → S → Prop) :
  (∀ s, Pre s → Post a s) → triple Pre (mret a) Post.
Proof. intros H s Hs. eexists _, _. split; [done|]. intros ? [= <-]. auto. Qed.

Lemma triple_fail {A} e Pre (Post : A → S → Prop) : triple Pre (exec_fail e) Post.
Proof. intros s Hs. eexists _, _. by split. Qed.

Lemma triple_get {A} (f : S → A) (Pre : S → Prop) : triple Pre (exec_get f) (λ a s, Pre s ∧ a = f s).
Proof. intros s Hs. eexists _, _. split; [done|]. by intros ? [= <-]. Qed.

Lemma triple_lift {A} (r : Result A E) (Pre : S → Prop) : triple Pre (exec_lift r) (λ a s, Pre s ∧ r = Ok a).
Proof. intros s Hs. eexists _, _. split; [done|]. by intros ? ->. Qed.

Lemma triple_conseq {A} (Pre Pre' : S → Prop) (m : Exec S E A) (Post Post' : A → S → Prop) :
  triple Pre' m Post' → (∀ s, Pre s → Pre' s) → (∀ a s, Post' a s → Post a s) → triple Pre m Post.
Proof. intros Hm Hpre Hpost s Hs. destruct (Hm s (Hpre s Hs)) as (s' & r & ? & ?). eauto 10. Qed.

Lemma triple_bind {A B} Pre (Mid : A → S → Prop) (m : Exec S E A) (k : A → Exec S E B) Post :
  triple Pre m Mid → (∀ a, triple (Mid a) (k a) Post) → triple Pre (m ≫= k) Post.
Proof.
  intros Hm Hk s Hs. destruct (Hm s Hs) as (s1 & [a|e] & Em & H1); unfold mbind, exec_bind; rewrite Em.
  - by apply Hk, H1.
  - eexists _, _. by split.
Qed.

Lemma triple_serves {A} (I : S → Prop) (m : Exec S E A) : serves I m → triple I m (λ _, I).
Proof. intros Hm s Hs. destruct (Hm s Hs) as (s' & r & ? & ?). eauto. Qed.

Lemma serves_atomic_triple {A} (I : S → Prop) undo (m : Exec S E A) :
  triple I m (λ _, I) → (∀ now before, I before → I (undo now before)) → serves I (exec_atomic undo m).
Proof.
  intros Hm Hu s Hs. destruct (Hm s Hs) as (s1 & [a|e] & Em & H1); unfold exec_atomic; rewrite Em; eauto.
Qed.
End Triples.

Lemma triple_map_err {S E F A} (f : E → F) (Pre : S → Prop) (m : Exec S E A) Post :
  triple Pre m Post → triple Pre (exec_map_err f m) Post.
Proof.
  intros Hm s Hs. destruct (Hm s Hs) as (s1 & r & Em & H1). unfold exec_map_err. rewrite Em.
  eexists _, _. split; [done|]. intros a Ha. apply H1. by destruct r; simplify_eq/=.
Qed.

(** *** All or nothing

    [undone undo m]: a failure of [m] leaves nothing but what [undo] lets
    through. [reads m]: [m] does not change the state. *)
Section Undone.
Context {S E : Type} (undo : S → S → S).

Definition undone {A} (m : Exec S E A) : Prop := ∀ s s' e, m s = Some (s', Err e) → s' = undo s' s.
Definition reads {A} (m : Exec S E A) : Prop := ∀ s s' r, m s = Some (s', r) → s' = s.
Definition never_fails {A} (m : Exec S E A) : Prop := ∀ s s' e, m s ≠ Some (s', Err e).
Context (undo_same : ∀ s, undo s s = s) (undo_twice : ∀ a b, undo (undo a b) b = undo a b).

Lemma undone_reads {A} (m : Exec S E A) : reads m → undone m.
Proof using undo_same. intros Hm s s' e ->%Hm. by rewrite undo_same. Qed.

Lemma undone_atomic {A} (m : Exec S E A) : undone (exec_atomic undo m).
Proof using undo_twice.
  intros s s' e. unfold exec_atomic. destruct (m s) as [[s1 [a|e1]]|]; [done| |done]. intros [= <- _].
  by rewrite undo_twice.
Qed.

Lemma undone_bind_reads {A B} (m : Exec S E A) (k : A → Exec S E B) :
  reads m → (∀ a, undone (k a)) → undone (m ≫= k).
Proof using undo_same.
  intros Hm Hk s s' e. unfold mbind, exec_bind. destruct (m s) as [[s1 [a|e1]]|] eqn:Em; [| |done].
  - apply Hm in Em as ->. apply Hk.
  - apply Hm in Em as ->. intros [= <- _]. by rewrite undo_same.
Qed.

Lemma undone_bind_last {A B} (m : Exec S E A) (k : A → Exec S E B) :
  undone m → (∀ a, never_fails (k a)) → undone (m ≫= k).
Proof.
  intros Hm Hk s s' e. unfold mbind, exec_bind. destruct (m s) as [[s1 [a|e1]]|] eqn:Em; [| |done].
  - intros H. by destruct (Hk a s1 s' e).
  - intros [= <- _]. by apply (Hm s s1 e1).
Qed.

(** [m] changes only what [undo] lets through, whether it succeeds or not. *)
Definition passes {A} (m : Exec S E A) : Prop := ∀ s s' r, m s = Some (s', r) → s' = undo s' s.

Lemma passes_reads {A} (m : Exec S E A) : reads m → passes m.
Proof using undo_same. intros Hm s s' r ->%Hm. by rewrite undo_same. Qed.

Context (undo_trans : ∀ a b c, undo a (undo b c) = undo a c).

Lemma passes_bind {A B} (m : Exec S E A) (k : A → Exec S E B) : passes m → (∀ a, passes (k a)) → passes (m ≫= k).
Proof using undo_trans.
  intros Hm Hk s s' r. unfold mbind, exec_bind. destruct (m s) as [[s1 [a|e1]]|] eqn:Em; [| |done].
  - intros Ek. etrans; [exact (Hk _ _ _ _ Ek)|]. by rewrite (Hm _ _ _ Em), undo_trans.
  - intros [= <- _]. by apply Hm in Em.
Qed.

Lemma undone_bind_passes {A B} (m : Exec S E A) (k : A → Exec S E B) :
  passes m → (∀ a, undone (k a)) → undone (m ≫= k).
Proof using undo_trans.
  intros Hm Hk s s' e. unfold mbind, exec_bind. destruct (m s) as [[s1 [a|e1]]|] eqn:Em; [| |done].
  - intros Ek. etrans; [exact (Hk _ _ _ _ Ek)|]. by rewrite (Hm _ _ _ Em), undo_trans.
  - intros [= <- _]. by apply Hm in Em.
Qed.

Lemma reads_ret {A} (a : A) : reads (mret a).
Proof. intros s s' r. by intros [= <- _]. Qed.
Lemma reads_get {A} (f : S → A) : reads (exec_get f).
Proof. intros s s' r. by intros [= <- _]. Qed.
Lemma reads_lift {A} (r : Result A E) : reads (exec_lift r).
Proof. intros s s' r'. by intros [= <- _]. Qed.
Lemma reads_fail {A} e : reads (exec_fail e : Exec S E A).
Proof. intros s s' r'. by intros [= <- _]. Qed.
Lemma reads_bind {A B} (m : Exec S E A) (k : A → Exec S E B) : reads m → (∀ a, reads (k a)) → reads (m ≫= k).
Proof.
  intros Hm Hk s s' r. unfold mbind, exec_bind. destruct (m s) as [[s1 [a|e1]]|] eqn:Em; [| |done].
  - apply Hm in Em as ->. apply Hk.
  - apply Hm in Em as ->. by intros [= <- _].
Qed.
Lemma never_fails_ret {A} (a : A) : never_fails (mret a).
Proof. by intros s s' e. Qed.
End Undone.

Lemma undone_map_err {S E F A} (undo : S → S → S) (f : E → F) (m : Exec S E A) :
  undone undo m → undone undo (exec_map_err f m).
Proof.
  intros Hm s s' e. unfold exec_map_err. destruct (m s) as [[s1 [a|e1]]|] eqn:Em; [done| |done].
  intros [= <- _]. by eapply Hm.
Qed.

(** *** The errors a step can end in *)
Section Errs.
Context {S E : Type} (Q : E → Prop).

Definition errs {A} (m : Exec S E A) : Prop := ∀ s s' e, m s = Some (s', Err e) → Q e.

Lemma errs_ret {A} (a : A) : errs (mret a).
Proof. by intros s s' e. Qed.
Lemma errs_get {A} (f : S → A) : errs (exec_get f).
Proof. by intros s s' e. Qed.
Lemma errs_update f : errs (exec_update f).
Proof. by intros s s' e. Qed.
Lemma errs_lift {A} (r : Result A E) : (∀ e, r = Err e → Q e) → errs (exec_lift r).
Proof. intros H s s' e [= _ Hr]. auto. Qed.
Lemma errs_bind {A B} (m : Exec S E A) (k : A → Exec S E B) : errs m → (∀ a, errs (k a)) → errs (m ≫= k).
Proof.
  intros Hm Hk s s' e. unfold mbind, exec_bind. destruct (m s) as [[s1 [a|e1]]|] eqn:Em; [| |done].
  - apply Hk.
  - intros [= _ <-]. by eapply Hm.
Qed.
Lemma errs_on {T F A} (get : S → T) set (wrap : F → E) (f : T → T * Result A F) :
  (∀ e, Q (wrap e)) → errs (exec_on get set wrap f).
Proof.
  intros H s s' e. unfold exec_on. destruct (f (get s)) as [t [a|e']]; [done|]. intros [= _ <-]. apply H.
Qed.
Lemma errs_map_err {F A} (wrap : F → E) (m : Exec S F A) : (∀ e, Q (wrap e)) → errs (exec_map_err wrap m).
Proof.
  intros H s s' e. unfold exec_map_err. destruct (m s) as [[s1 [a|e']]|]; [done| |done]. intros [= _ <-]. apply H.
Qed.
Lemma errs_within {T F A} (get : S → T) set (wrap : F → E) (m : Exec T F A) :
  (∀ e, Q (wrap e)) → errs (exec_within get set wrap m).
Proof.
  intros H s s' e. unfold exec_within. destruct (m (get s)) as [[t [a|e']]|]; [done| |done]. intros [= _ <-]. apply H.
Qed.
Lemma errs_each {X A} (body : X → Exec S E A) xs : (∀ x, errs (body x)) → errs (exec_each body xs).
Proof.
  intros Hb. induction xs as [|x xs IH]; simpl; [apply errs_ret|].
  apply errs_bind; [done|]. intros a. apply errs_bind; [done|]. intros l. apply errs_ret.
Qed.
End Errs.

(** *** Steps that always return *)
Section Returns.
Context {S E : Type}.

Definition returns {A} (m : Exec S E A) : Prop := ∀ s, is_Some (m s).

Lemma returns_ret {A} (a : A) : returns (mret a).
Proof. intros s. by eexists. Qed.
Lemma returns_fail {A} e : returns (exec_fail e : Exec S E A).
Proof. intros s. by eexists. Qed.
Lemma returns_get {A} (f : S → A) : returns (exec_get f).
Proof. intros s. by eexists. Qed.
Lemma returns_lift {A} (r : Result A E) : returns (exec_lift r).
Proof. intros s. by eexists. Qed.
Lemma returns_update f : returns (exec_update f).
Proof. intros s. by eexists. Qed.
Lemma returns_bind {A B} (m : Exec S E A) (k : A → Exec S E B) : returns m → (∀ a, returns (k a)) → returns (m ≫= k).
Proof.
  intros Hm Hk s. unfold mbind, exec_bind. destruct (Hm s) as [[s1 [a|e]] ->]; [apply Hk|by eexists].
Qed.
Lemma returns_on {T F A} (get : S → T) set (wrap : F → E) (f : T → T * Result A F) : returns (exec_on get set wrap f).
Proof. intros s. unfold exec_on. destruct (f (get s)). by eexists. Qed.
Lemma returns_each {X A} (body : X → Exec S E A) xs : (∀ x, returns (body x)) → returns (exec_each body xs).
Proof.
  intros Hb. induction xs as [|x xs IH]; simpl; [apply returns_ret|].
  apply returns_bind; [done|]. intros a. apply returns_bind; [done|]. intros l. apply returns_ret.
Qed.
Lemma returns_atomic {A} undo (m : Exec S E A) : returns m → returns (exec_atomic undo m).
Proof. intros Hm s. unfold exec_atomic. destruct (Hm s) as [[s1 [a|e]] ->]; by eexists. Qed.
End Returns.

Lemma returns_map_err {S E F A} (f : E → F) (m : Exec S E A) : returns m → returns (exec_map_err f m).
Proof. intros Hm s. unfold exec_map_err. destruct (Hm s) as [[s1 r] ->]. by eexists. Qed.
Lemma returns_within {S T E F A} (get : S → T) set (wrap : F → E) (m : Exec T F A) :
  returns m → returns (exec_within get set wrap m).
Proof. intros Hm s. unfold exec_within. destruct (Hm (get s)) as [[t r] ->]. by eexists. Qed.

(** *** Steps that keep a relation between the states *)
Section Relates.
Context {S : Type} (R : S → S → Prop) `{!PreOrder R}.

Definition relates {E A} (m : Exec S E A) : Prop := ∀ s s' r, m s = Some (s', r) → R s s'.

Lemma relates_reads {E A} (m : Exec S E A) : reads m → relates m.
Proof. intros Hm s s' r ->%Hm. reflexivity. Qed.
Lemma relates_update {E} f : (∀ s, R s (f s)) → relates (exec_update f : Exec S E unit).
Proof. intros Hf s s' r [= <- _]. apply Hf. Qed.
Lemma relates_bind {E A B} (m : Exec S E A) (k : A → Exec S E B) :
  relates m → (∀ a, relates (k a)) → relates (m ≫= k).
Proof.
  intros Hm Hk s s' r. unfold mbind, exec_bind. destruct (m s) as [[s1 [a|e1]]|] eqn:Em; [| |done].
  - intros H%Hk. etrans; [by eapply Hm|done].
  - intros [= <- _]. by eapply Hm.
Qed.
Lemma relates_on {E T F A} (get : S → T) set (wrap : F → E) (f : T → T * Result A F) :
  (∀ s, R s (set (f (get s)).1 s)) → relates (exec_on get set wrap f).
Proof. intros Hf s s' r. unfold exec_on. specialize (Hf s). destruct (f (get s)). by intros [= <- _]. Qed.
Lemma relates_map_err {E F A} (f : E → F) (m : Exec S E A) : relates m → relates (exec_map_err f m).
Proof.
  intros Hm s s' r. unfold exec_map_err. destruct (m s) as [[s1 r1]|] eqn:Em; [|done].
  intros [= <- _]. by eapply Hm.
Qed.
Lemma relates_each {E X A} (body : X → Exec S E A) xs : (∀ x, relates (body x)) → relates (exec_each body xs).
Proof.
  intros Hb. induction xs as [|x xs IH]; simpl; [apply relates_reads, reads_ret|].
  apply relates_bind; [done|]. intros a. apply relates_bind; [done|]. intros l. apply relates_reads, reads_ret.
Qed.
Lemma relates_atomic {E A} undo (m : Exec S E A) :
  relates m → (∀ now before, R before now → R before (undo now before)) → relates (exec_atomic undo m).
Proof.
  intros Hm Hu s s' r. unfold exec_atomic. destruct (m s) as [[s1 [a|e]]|] eqn:Em; [| |done].
  - intros [= <- _]. by eapply Hm.
  - intros [= <- _]. apply Hu. by eapply Hm.
Qed.
End Relates.

Lemma relates_within {S T E F A} (R : S → S → Prop) (Q : T → T → Prop) (get : S → T) set (wrap : F → E) (m : Exec T F A) :
  relates Q m → (∀ s t, Q (get s) t → R s (set t s)) → relates R (exec_within get set wrap m).
Proof.
  intros Hm HQ s s' r. unfold exec_within. destruct (m (get s)) as [[t r1]|] eqn:Em; [|done].
  intros [= <- _]. apply HQ. by eapply Hm.
Qed.

#[export] Hint Resolve reads_ret reads_get reads_lift reads_fail reads_bind never_fails_ret : peinit.

(** *** Taking runs apart *)

Lemma exec_bind_Ok {S E A B} (m : Exec S E A) (k : A → Exec S E B) s s' b :
  (m ≫= k) s = Some (s', Ok b) ↔ ∃ s1 a, m s = Some (s1, Ok a) ∧ k a s1 = Some (s', Ok b).
Proof.
  unfold mbind, exec_bind. destruct (m s) as [[s1 [a|e]]|]; naive_solver.
Qed.

Lemma exec_bind_at {S E A B} (m : Exec S E A) (k : A → Exec S E B) s s1 a :
  m s = Some (s1, Ok a) → (m ≫= k) s = k a s1.
Proof. intros H. unfold mbind, exec_bind. by rewrite H. Qed.

Lemma exec_bind_Err_at {S E A B} (m : Exec S E A) (k : A → Exec S E B) s s1 e :
  m s = Some (s1, Err e) → (m ≫= k) s = Some (s1, Err e).
Proof. intros H. unfold mbind, exec_bind. by rewrite H. Qed.

#[export] Hint Resolve returns_ret returns_fail returns_get returns_lift returns_update returns_bind returns_on returns_each
  returns_map_err returns_within returns_atomic : peinit.

(** A loop whose body establishes [Q] for its element and its result, when
    nothing the rest of the loop does undoes it. *)
Lemma each_establishes {S E X A} (R : S → S → Prop) `{!PreOrder R} (Pre : X → S → Prop) (Q : X → A → S → Prop)
    (body : X → Exec S E A) xs s s' l :
  (∀ x, relates R (body x)) →
  (∀ x s s', Pre x s → R s s' → Pre x s') → (∀ x a s s', Q x a s → R s s' → Q x a s') →
  (∀ x s s' a, x ∈ xs → Pre x s → body x s = Some (s', Ok a) → Q x a s') →
  (∀ x, x ∈ xs → Pre x s) → exec_each body xs s = Some (s', Ok l) → Forall2 (λ x a, Q x a s') xs l.
Proof.
  intros Hrel HP HQ. revert s l. induction xs as [|x xs IH]; intros s l Hbody Hpre; simpl.
  { intros [= _ <-]. constructor. }
  intros (s1 & a & E1 & E0)%exec_bind_Ok. apply exec_bind_Ok in E0 as (s2 & l2 & E2 & [= <- <-]).
  assert (R s s1) by (by eapply Hrel). assert (R s1 s2) as H12.
  { eapply (relates_each R); [exact Hrel|exact E2]. }
  constructor.
  - eapply HQ; [|exact H12]. eapply Hbody; [left|apply Hpre; left|exact E1].
  - apply (IH s1 l2); [|intros y Hy; eapply HP; [apply Hpre; by right|done]|exact E2].
    intros y t t' b Hy. apply Hbody. by right.
Qed.

Lemma exec_on_Ok {S T E F A} (get : S → T) set (wrap : F → E) (f : T → T * Result A F) s s' a :
  exec_on get set wrap f s = Some (s', Ok a) → ∃ t, f (get s) = (t, Ok a) ∧ s' = set t s.
Proof.
  unfold exec_on. destruct (f (get s)) as [t [a'|e]]; [|done]. intros [= <- <-]. by exists t.
Qed.

Lemma exec_within_Ok {S T E F A} (get : S → T) set (wrap : F → E) (m : Exec T F A) s s' a :
  exec_within get set wrap m s = Some (s', Ok a) → ∃ t, m (get s) = Some (t, Ok a) ∧ s' = set t s.
Proof.
  unfold exec_within. destruct (m (get s)) as [[t [a'|e]]|]; [|done..]. intros [= <- <-]. by exists t.
Qed.

Lemma exec_atomic_Ok {S E A} undo (m : Exec S E A) s s' a :
  exec_atomic undo m s = Some (s', Ok a) → m s = Some (s', Ok a).
Proof. unfold exec_atomic. by destruct (m s) as [[s1 [a'|e]]|]. Qed.

Lemma exec_map_err_Ok {S E F A} (f : E → F) (m : Exec S E A) s s' a :
  exec_map_err f m s = Some (s', Ok a) → m s = Some (s', Ok a).
Proof. unfold exec_map_err. destruct (m s) as [[s1 [a'|e]]|]; [|done..]. by intros [= <- <-]. Qed.

(** * The kernel boundary

    The trait through which peinit signals processes and handles control
    groups ([src/src/boundary/model/process/control.rs]), as a class over the
    state of the kernel and its errors. What the kernel does is a parameter of
    everything that uses it. *)

Record ProcessTarget : Type := {
  pt_service : string;
  pt_pid : Z;
  pt_pidfd : Z;
  pt_cgroup_id : string;
}.

Inductive ProcessSignal : Type :=
| PsSigterm | PsSigkill | PsSighup | PsNamed (name : string) | PsNumber (number : Z).

Inductive CgroupRemoveOutcome : Type := CgRemoved | CgMissing | CgBusy.

Class ProcessController (P BoundaryError : Type) : Type := {
  pidfd_matches_pid : Z → Z → P → P * Result bool BoundaryError;
  close_pidfd : Z → P → P * Result unit BoundaryError;
  signal_main : ProcessTarget → ProcessSignal → P → P * Result unit BoundaryError;
  kill_cgroup : string → P → P * Result unit BoundaryError;
  cgroup_populated : string → P → P * Result bool BoundaryError;
  remove_cgroup : string → P → P * Result CgroupRemoveOutcome BoundaryError;
}.
