(* ===== verification/Roles.v ===== *)
(** * Roles: dependencies peinit derives

    Models [src/src/service/role.rs]: rewriting declared dependencies on a role
    into dependencies on the services that provide it, and adding the
    dependency on the authority that a non-SYSTEM identity implies. The whole
    definition set is rewritten at once; each function returns the new set. *)

From S2P Require Import Prelude RustStr ServiceDef.
From Stdlib Require Import Ascii String.
Open Scope string_scope.
Open Scope list_scope.

Definition AUTHN_ROLE : string := "authn".

Definition requires_authority (definition : ServiceDefinition) : bool :=
  if negb (is_system_identity definition.(sd_identity)) then true
  else
    let has_hooks :=
      negb (bool_decide (definition.(sd_exec_start_pre) = [])) ||
      negb (bool_decide (definition.(sd_exec_start_post) = [])) in
    has_hooks && negb (is_system_identity (hook_execution_identity definition)).

Definition role_providers (definitions : list ServiceDefinition) (role : string) : list string :=
  map sd_name (filter (λ definition, role ∈ definition.(sd_provides)) definitions).

(** ** Declared references to a role *)

(** The map from each role to its providers, in definition order. *)
Definition add_role (provider : string) (roles : gmap string (list string)) (role : string)
    : gmap string (list string) :=
  <[role := default [] (roles !! role) ++ [provider]]> roles.

Definition role_map (definitions : list ServiceDefinition) : gmap string (list string) :=
  foldl (λ roles definition, foldl (add_role definition.(sd_name)) roles definition.(sd_provides))
    ∅ definitions.

Definition push_new (resolved : list string) (replacement : string) : list string :=
  if bool_decide (replacement ∈ resolved) then resolved else resolved ++ [replacement].

Section Resolve.
Context (names : gset string) (roles : gmap string (list string)).

(** What one declared entry of the service [me] becomes. *)
Definition replacements (me entry : string) : list string :=
  let '(target, level) := split_target entry in
  match roles !! target with
  | Some providers =>
      if bool_decide (target ∉ names) then
        map (λ provider, match level with
                         | Some level => provider +:+ ":" +:+ level
                         | None => provider
                         end)
          (filter (λ provider, provider ≠ me) providers)
      else [entry]
  | None => [entry]
  end.

Definition resolve_list (me : string) (declared : list string) : list string :=
  foldl (λ resolved entry, foldl push_new resolved (replacements me entry)) [] declared.

Definition resolve_definition (definition : ServiceDefinition) : ServiceDefinition :=
  let me := definition.(sd_name) in
  {| definition with
     sd_requires := resolve_list me definition.(sd_requires);
     sd_wants := resolve_list me definition.(sd_wants);
     sd_binds_to := resolve_list me definition.(sd_binds_to) |}.
End Resolve.

Definition definition_names (definitions : list ServiceDefinition) : gset string :=
  list_to_set (map sd_name definitions).

Definition resolve_role_references (definitions : list ServiceDefinition) : list ServiceDefinition :=
  let roles := role_map definitions in
  if bool_decide (roles = ∅) then definitions
  else map (resolve_definition (definition_names definitions) roles) definitions.

(** ** The dependency an identity implies *)

Definition add_authority (providers : list string) (definition : ServiceDefinition) : ServiceDefinition :=
  if negb (requires_authority definition) || bool_decide (AUTHN_ROLE ∈ definition.(sd_provides))
  then definition
  else
    let declared : gset string :=
      list_to_set (map (λ entry, (split_target entry).1)
                     (definition.(sd_requires) ++ definition.(sd_binds_to))) in
    let additions :=
      filter (λ provider, provider ≠ definition.(sd_name) ∧ provider ∉ declared) providers in
    {| definition with sd_requires := definition.(sd_requires) ++ additions |}.

Definition synthesise_role_dependencies (definitions : list ServiceDefinition)
    : list ServiceDefinition :=
  let definitions := resolve_role_references definitions in
  let providers := role_providers definitions AUTHN_ROLE in
  if bool_decide (providers = []) then definitions
  else map (add_authority providers) definitions.

(** ** Lemmas *)

Lemma elem_of_push_new l r x : x ∈ push_new l r ↔ x ∈ l ∨ x = r.
Proof.
  unfold push_new. case_bool_decide.
  - split; [auto|]. by intros [?| ->].
  - rewrite elem_of_app, list_elem_of_singleton. done.
Qed.

Lemma elem_of_push_all l rs x : x ∈ foldl push_new l rs ↔ x ∈ l ∨ x ∈ rs.
Proof.
  revert l. induction rs as [|r rs IH]; intros l; simpl.
  - rewrite elem_of_nil. tauto.
  - rewrite IH, elem_of_push_new, elem_of_cons. tauto.
Qed.

Lemma NoDup_push_all l rs : NoDup l → NoDup (foldl push_new l rs).
Proof.
  revert l. induction rs as [|r rs IH]; intros l Hl; simpl; [done|]. apply IH.
  unfold push_new. case_bool_decide as Hr; [done|].
  apply NoDup_app. split; [done|]. split; [|apply NoDup_singleton].
  by intros x ? ->%list_elem_of_singleton.
Qed.

Section ResolveLemmas.
Context (names : gset string) (roles : gmap string (list string)) (me : string).

Lemma resolve_acc_elem acc l x :
  x ∈ foldl (λ resolved entry, foldl push_new resolved (replacements names roles me entry)) acc l ↔
  x ∈ acc ∨ ∃ entry, entry ∈ l ∧ x ∈ replacements names roles me entry.
Proof.
  revert acc. induction l as [|e l IH]; intros acc; simpl.
  - split; [auto|]. intros [?|(? & []%elem_of_nil & _)]. done.
  - rewrite IH, elem_of_push_all. setoid_rewrite elem_of_cons. naive_solver.
Qed.

Lemma elem_of_resolve_list l x :
  x ∈ resolve_list names roles me l ↔ ∃ entry, entry ∈ l ∧ x ∈ replacements names roles me entry.
Proof. unfold resolve_list. rewrite resolve_acc_elem, elem_of_nil. tauto. Qed.

Lemma NoDup_resolve_list l : NoDup (resolve_list names roles me l).
Proof.
  unfold resolve_list. generalize (NoDup_nil_2 (A := string)). generalize (@nil string).
  induction l as [|e l IH]; intros acc Hacc; simpl; [done|]. by apply IH, NoDup_push_all.
Qed.

(** A list without duplicates whose entries resolve to themselves is left
    alone. *)
Lemma resolve_list_fixed l :
  NoDup l → (∀ entry, entry ∈ l → replacements names roles me entry = [entry]) →
  resolve_list names roles me l = l.
Proof.
  unfold resolve_list. intros Hl Hfix.
  assert (∀ acc, NoDup (acc ++ l) →
    foldl (λ resolved entry, foldl push_new resolved (replacements names roles me entry)) acc l
    = acc ++ l) as H; [|by apply (H [])].
  clear Hl. induction l as [|e l IH]; intros acc Hacc; simpl; [by rewrite app_nil_r|].
  rewrite Hfix by left. simpl. unfold push_new. rewrite bool_decide_eq_false_2.
  - rewrite IH; [by rewrite <-app_assoc| |by rewrite <-app_assoc].
    intros. apply Hfix. by right.
  - apply NoDup_app in Hacc as (_ & Hd & _). intros He. apply (Hd e He). left.
Qed.
End ResolveLemmas.

Lemma replacements_named names roles me entry :
  (split_target entry).1 ∈ names → replacements names roles me entry = [entry].
Proof.
  unfold replacements. destruct (split_target entry) as [target level]; simpl. intros Ht.
  destruct (roles !! target); [|done]. by rewrite bool_decide_eq_false_2 by tauto.
Qed.

Lemma split_target_plain s :
  str_all (λ d, negb (Ascii.eqb d ":"%char)) s = true → split_target s = (s, None).
Proof. unfold split_target. intros E%split_once_None. by rewrite E. Qed.

Lemma split_target_level s level :
  str_all (λ d, negb (Ascii.eqb d ":"%char)) s = true → level ≠ "" →
  split_target (s +:+ ":" +:+ level) = (s, Some level).
Proof. unfold split_target. intros Hs Hl. simpl. rewrite split_once_app by done. by destruct level. Qed.

Lemma split_target_level_nonempty s target level :
  split_target s = (target, Some level) → level ≠ "".
Proof.
  unfold split_target. destruct (split_once ":" s) as [[a b]|]; [|done].
  destruct b; simpl; [done|]. by intros [= <- <-].
Qed.

(** *** The role map names only services *)

Definition roles_within (names : gset string) (roles : gmap string (list string)) : Prop :=
  ∀ role providers p, roles !! role = Some providers → p ∈ providers → p ∈ names.

Lemma add_role_within names provider roles role :
  provider ∈ names → roles_within names roles → roles_within names (add_role provider roles role).
Proof.
  intros Hp Hr r ps p. unfold add_role. rewrite lookup_insert. case_decide.
  - intros [= <-] [Hin| ->%list_elem_of_singleton]%elem_of_app; [|done].
    destruct (roles !! role) eqn:E; simpl in Hin; [by eapply Hr|by apply elem_of_nil in Hin].
  - intros. by eapply Hr.
Qed.

Lemma role_map_within definitions : roles_within (definition_names definitions) (role_map definitions).
Proof.
  unfold role_map. assert (roles_within (definition_names definitions) ∅) as H0 by (intros ??? H; by rewrite lookup_empty in H).
  revert H0. generalize (∅ : gmap string (list string)).
  assert (∀ d, d ∈ definitions → d.(sd_name) ∈ definition_names definitions) as Hin.
  { intros d Hd. apply elem_of_list_to_set, list_elem_of_fmap. eauto. }
  revert Hin. generalize (definition_names definitions) as names.
  induction definitions as [|d ds IH]; intros names Hin roles Hr; simpl; [done|].
  apply IH; [intros; apply Hin; by right|].
  assert (d.(sd_name) ∈ names) as Hd by (apply Hin; left). clear IH Hin.
  revert roles Hr. induction (sd_provides d) as [|r rs IH]; intros roles Hr; simpl; [done|].
  by apply IH, add_role_within.
Qed.

(** ** Theorems *)

(** The names of a definition set are plain: no colon, which every valid
    service name satisfies. *)
Definition plain_names (definitions : list ServiceDefinition) : Prop :=
  ∀ d, d ∈ definitions → str_all (λ c, negb (Ascii.eqb c ":"%char)) d.(sd_name) = true.

Section Synthesis.
Context (definitions : list ServiceDefinition) (Hplain : plain_names definitions).

Let names := definition_names definitions.
Let roles := role_map definitions.

Lemma names_plain p : p ∈ names → str_all (λ c, negb (Ascii.eqb c ":"%char)) p = true.
Proof.
  intros (d & -> & Hd)%elem_of_list_to_set%list_elem_of_fmap. by apply Hplain.
Qed.

(** Every entry of a resolved list resolves to itself. *)
Lemma resolved_entries_fixed me l entry :
  entry ∈ resolve_list names roles me l → replacements names roles me entry = [entry].
Proof.
  intros (e & _ & Hin)%elem_of_resolve_list. unfold replacements in Hin.
  destruct (split_target e) as [target level] eqn:Es.
  destruct (roles !! target) as [ps|] eqn:Er.
  2:{ apply list_elem_of_singleton in Hin as ->. unfold replacements. by rewrite Es, Er. }
  case_bool_decide as Ht.
  2:{ apply list_elem_of_singleton in Hin as ->. apply replacements_named. rewrite Es; simpl. tauto. }
  apply list_elem_of_fmap in Hin as (p & -> & [_ Hp]%list_elem_of_filter).
  pose proof (role_map_within definitions _ _ _ Er Hp) as Hname.
  apply replacements_named. destruct level as [level|].
  - rewrite split_target_level; [done|by apply names_plain|by eapply split_target_level_nonempty].
  - by rewrite split_target_plain by by apply names_plain.
Qed.

Lemma resolve_list_idempotent me l :
  resolve_list names roles me (resolve_list names roles me l) = resolve_list names roles me l.
Proof.
  apply resolve_list_fixed; [apply NoDup_resolve_list|]. intros. by eapply resolved_entries_fixed.
Qed.

Lemma resolve_definition_idempotent d :
  resolve_definition names roles (resolve_definition names roles d) =
  resolve_definition names roles d.
Proof.
  unfold resolve_definition; simpl. by rewrite !resolve_list_idempotent.
Qed.

Lemma resolve_definition_keeps d :
  let d' := resolve_definition names roles d in
  d'.(sd_name) = d.(sd_name) ∧ d'.(sd_provides) = d.(sd_provides) ∧
  requires_authority d' = requires_authority d.
Proof. done. Qed.

Lemma add_authority_keeps providers d :
  let d' := add_authority providers d in
  d'.(sd_name) = d.(sd_name) ∧ d'.(sd_provides) = d.(sd_provides) ∧
  requires_authority d' = requires_authority d.
Proof. simpl. unfold add_authority. by destruct (_ || _). Qed.
End Synthesis.

(** Passes that keep names and [Provides] keep the names, the role map and the
    providers of the set. *)
Section Keeps.
Context (f : ServiceDefinition → ServiceDefinition).
Context (Hname : ∀ d, (f d).(sd_name) = d.(sd_name)).
Context (Hprov : ∀ d, (f d).(sd_provides) = d.(sd_provides)).

Lemma keeps_names ds : map sd_name (map f ds) = map sd_name ds.
Proof. rewrite List.map_map. apply List.map_ext. done. Qed.

Lemma keeps_definition_names ds : definition_names (map f ds) = definition_names ds.
Proof. unfold definition_names. by rewrite keeps_names. Qed.

Lemma keeps_role_map ds : role_map (map f ds) = role_map ds.
Proof.
  unfold role_map. generalize (∅ : gmap string (list string)).
  induction ds as [|d ds IH]; intros roles; simpl; [done|]. by rewrite Hname, Hprov, IH.
Qed.

Lemma keeps_providers ds role : role_providers (map f ds) role = role_providers ds role.
Proof.
  unfold role_providers. induction ds as [|d ds IH]; simpl; [done|].
  rewrite !filter_cons, Hprov. case_decide; simpl; by rewrite ?Hname, IH.
Qed.
End Keeps.

(** Every provider the derived edges name is a plain service name. *)
Definition plain (providers : list string) : Prop :=
  ∀ p, p ∈ providers → str_all (λ c, negb (Ascii.eqb c ":"%char)) p = true.

Lemma elem_of_role_providers ds role p :
  p ∈ role_providers ds role ↔ ∃ d, d ∈ ds ∧ p = d.(sd_name) ∧ role ∈ d.(sd_provides).
Proof.
  unfold role_providers. rewrite list_elem_of_fmap. setoid_rewrite list_elem_of_filter. naive_solver.
Qed.

Lemma role_providers_sublist ds role : role_providers ds role `sublist_of` map sd_name ds.
Proof.
  unfold role_providers. induction ds as [|d ds IH]; simpl; [constructor|].
  rewrite filter_cons. case_decide; simpl; by constructor.
Qed.

Lemma role_providers_plain ds role : plain_names ds → plain (role_providers ds role).
Proof. intros H p (d & ? & -> & _)%elem_of_role_providers. by apply H. Qed.

Section AddAuthority.
Context (providers : list string) (Hplain : plain providers).

(** The hard targets of a definition after the pass. *)
Lemma add_authority_targets d p :
  requires_authority d = true → AUTHN_ROLE ∉ d.(sd_provides) →
  p ∈ providers → p ≠ d.(sd_name) →
  let d' := add_authority providers d in
  p ∈ map (λ entry, (split_target entry).1) (d'.(sd_requires) ++ d'.(sd_binds_to)).
Proof.
  intros Ha Hr Hp Hne. unfold add_authority.
  rewrite Ha, bool_decide_eq_false_2 by done. simpl.
  destruct (decide (p ∈ map (λ entry, (split_target entry).1) (sd_requires d ++ sd_binds_to d))) as [Hd|Hd].
  - revert Hd. rewrite !List.map_app, !elem_of_app. tauto.
  - rewrite <-(app_assoc), List.map_app, List.map_app, !elem_of_app. right. left.
    apply list_elem_of_fmap. exists p. split; [by rewrite split_target_plain by auto|].
    apply list_elem_of_filter. split; [|done]. split; [done|]. by rewrite elem_of_list_to_set.
Qed.

Lemma add_authority_idempotent d :
  add_authority providers (add_authority providers d) = add_authority providers d.
Proof.
  destruct (add_authority_keeps providers d) as (Hn & Hp & Hr).
  unfold add_authority at 1. rewrite Hr, Hp.
  destruct (negb (requires_authority d) || bool_decide (AUTHN_ROLE ∈ sd_provides d)) eqn:E; [done|].
  breflect. rewrite Hn.
  assert (filter (λ provider, provider ≠ sd_name d ∧
    provider ∉ (list_to_set (map (λ entry, (split_target entry).1)
      (sd_requires (add_authority providers d) ++ sd_binds_to (add_authority providers d))) : gset string))
    providers = []) as ->.
  { apply filter_none. intros p Hin [Hne Hno]. apply Hno, elem_of_list_to_set.
    by apply add_authority_targets. }
  rewrite app_nil_r. revert Hn Hp. destruct (add_authority providers d); simpl. by intros -> ->.
Qed.

(** The derived edges are new and named by services, so they resolve to
    themselves. *)
Lemma add_authority_resolved names roles d :
  (∀ p, p ∈ providers → p ∈ names) → NoDup providers → NoDup d.(sd_requires) →
  (∀ e, e ∈ d.(sd_requires) → replacements names roles d.(sd_name) e = [e]) →
  resolve_list names roles d.(sd_name) (add_authority providers d).(sd_requires) =
  (add_authority providers d).(sd_requires).
Proof.
  intros Hnames Hnd Hreq Hfix. unfold add_authority. destruct (_ || _); simpl.
  { by apply resolve_list_fixed. }
  apply resolve_list_fixed.
  - apply NoDup_app. split; [done|]. split; [|by apply NoDup_filter].
    intros e He [[_ Hno] Hp]%list_elem_of_filter. apply Hno, elem_of_list_to_set, list_elem_of_fmap.
    exists e. split; [by rewrite split_target_plain by auto|]. apply elem_of_app. by left.
  - intros e [?|[_ Hp]%list_elem_of_filter]%elem_of_app; [auto|].
    apply replacements_named. rewrite split_target_plain by auto. simpl. auto.
Qed.
End AddAuthority.

Lemma resolve_role_references_map definitions :
  ∃ f, resolve_role_references definitions = map f definitions ∧
       (∀ d, (f d).(sd_name) = d.(sd_name) ∧ (f d).(sd_provides) = d.(sd_provides) ∧
             requires_authority (f d) = requires_authority d).
Proof.
  unfold resolve_role_references. case_bool_decide.
  - exists id. split; [|done]. by rewrite List.map_id.
  - eexists. split; [done|]. intros d. apply resolve_definition_keeps.
Qed.

(** Synthesis of a set whose names and roles are those of [definitions]. *)
Lemma synthesise_map definitions f :
  (∀ d, (f d).(sd_name) = d.(sd_name) ∧ (f d).(sd_provides) = d.(sd_provides)) →
  let names := definition_names definitions in
  let roles := role_map definitions in
  let ps := role_providers definitions AUTHN_ROLE in
  let rs := if bool_decide (roles = ∅) then map f definitions
            else map (resolve_definition names roles) (map f definitions) in
  synthesise_role_dependencies (map f definitions) =
  if bool_decide (ps = []) then rs else map (add_authority ps) rs.
Proof.
  intros Hf. simpl. unfold synthesise_role_dependencies, resolve_role_references.
  rewrite keeps_role_map, keeps_definition_names by apply Hf.
  assert (∀ b : bool, role_providers (if b then map f definitions else
      map (resolve_definition (definition_names definitions) (role_map definitions))
        (map f definitions)) AUTHN_ROLE = role_providers definitions AUTHN_ROLE) as Hps.
  { intros []; rewrite ?keeps_providers; try done; apply Hf. }
  by rewrite Hps.
Qed.

(** Synthesis changes dependency lists only. *)
Lemma synthesise_names definitions :
  map sd_name (synthesise_role_dependencies definitions) = map sd_name definitions.
Proof.
  pose proof (synthesise_map definitions id ltac:(done)) as H. rewrite List.map_id in H. simpl in H.
  rewrite H. repeat case_bool_decide; rewrite ?keeps_names; try done;
    intros d; by destruct (add_authority_keeps (role_providers definitions AUTHN_ROLE) d) as (-> & _).
Qed.

(** Both passes applied to a definition leave it as it is when repeated. *)
Lemma passes_fixed definitions d :
  plain_names definitions → NoDup (map sd_name definitions) →
  let r := resolve_definition (definition_names definitions) (role_map definitions) in
  let a := add_authority (role_providers definitions AUTHN_ROLE) in
  a (r (a (r d))) = a (r d).
Proof.
  intros Hplain Hnd r a. set (ps := role_providers definitions AUTHN_ROLE) in a.
  pose proof (role_providers_plain _ AUTHN_ROLE Hplain : plain ps) as Hpp.
  pose proof (sublist_NoDup _ _ Hnd (role_providers_sublist definitions AUTHN_ROLE) : NoDup ps) as Hpnd.
  assert (∀ p, p ∈ ps → p ∈ definition_names definitions) as Hpn.
  { intros p (d' & ? & -> & _)%elem_of_role_providers. apply elem_of_list_to_set, list_elem_of_fmap. eauto. }
  pose proof (add_authority_resolved ps Hpp _ (role_map definitions) (r d) Hpn Hpnd
    (NoDup_resolve_list _ _ _ _) (resolved_entries_fixed definitions Hplain _ _)) as Hreq.
  transitivity (a (a (r d))); [|by apply add_authority_idempotent]. f_equal.
  revert Hreq. subst a. unfold add_authority. destruct (_ || _).
  - intros _. by apply resolve_definition_idempotent.
  - unfold r, resolve_definition; simpl. intros ->. by rewrite !resolve_list_idempotent.
Qed.

(** Synthesising the role dependencies is idempotent: on a set of
    distinctly named services whose names carry no colon, a second pass over
    the synthesised set changes nothing. *)
Theorem synthesise_idempotent definitions :
  plain_names definitions → NoDup (map sd_name definitions) →
  synthesise_role_dependencies (synthesise_role_dependencies definitions) =
  synthesise_role_dependencies definitions.
Proof.
  intros Hplain Hnd.
  pose proof (role_providers_plain _ AUTHN_ROLE Hplain) as Hpp.
  pose proof (synthesise_map definitions id ltac:(done)) as H1.
  rewrite List.map_id in H1. simpl in H1. rewrite H1. do 2 case_bool_decide.
  - exact H1.
  - rewrite synthesise_map by done. simpl.
    rewrite (bool_decide_eq_false_2 (role_map _ = _)), (bool_decide_eq_true_2 (role_providers _ _ = _)) by done.
    rewrite List.map_map. apply List.map_ext. intros d. by apply resolve_definition_idempotent.
  - rewrite synthesise_map by (intros d; by destruct (add_authority_keeps
      (role_providers definitions AUTHN_ROLE) d) as (-> & -> & _)). simpl.
    rewrite (bool_decide_eq_true_2 (role_map _ = _)), (bool_decide_eq_false_2 (role_providers _ _ = _)) by done.
    rewrite List.map_map. apply List.map_ext. intros d. by apply add_authority_idempotent.
  - rewrite List.map_map, synthesise_map.
    + simpl. rewrite !bool_decide_eq_false_2 by done. rewrite !List.map_map. apply List.map_ext.
      intros d. by apply passes_fixed.
    + intros d. by destruct (add_authority_keeps (role_providers definitions AUTHN_ROLE)
        (resolve_definition (definition_names definitions) (role_map definitions) d)) as (-> & -> & _).
Qed.

(** The definition set of the repository's own test: an authority, a service
    that runs as [LocalService] and one that names a role with a level. *)
Definition role_example : list ServiceDefinition :=
  [ {| (simple_system_boot "authd" "/sbin/authd") with sd_provides := ["authn"; "network"] |};
    {| (simple_system_boot "resolvd" "/sbin/resolvd") with sd_identity := "LocalService" |};
    {| (simple_system_boot "web" "/sbin/web") with sd_requires := ["network:routed"] |} ].

Lemma role_example_plain : plain_names role_example.
Proof.
  intros d Hd. unfold role_example in Hd.
  repeat (apply elem_of_cons in Hd as [->|Hd]; [reflexivity|]). by apply elem_of_nil in Hd.
Qed.

Lemma synthesise_idempotent_witness :
  synthesise_role_dependencies (synthesise_role_dependencies role_example) =
    synthesise_role_dependencies role_example ∧
  map sd_requires (synthesise_role_dependencies role_example) = [[]; ["authd"]; ["authd:routed"]].
Proof.
  split; [|reflexivity]. apply (synthesise_idempotent role_example).
  - apply role_example_plain.
  - unfold role_example; simpl. repeat constructor; set_solver.
Defined.

(** A service that needs the authority to start is ordered after it: in
    the synthesised set every service whose identity (or hook identity)
    requires the authority, and that does not itself fill the role, has a hard
    dependency ([Requires] or [BindsTo]) on every other service providing it. *)
Theorem authority_edge definitions d p :
  plain_names definitions →
  d ∈ synthesise_role_dependencies definitions →
  requires_authority d = true → AUTHN_ROLE ∉ d.(sd_provides) →
  p ∈ role_providers definitions AUTHN_ROLE → p ≠ d.(sd_name) →
  p ∈ map dep_target (hard_dependencies d).
Proof.
  intros Hplain Hd Ha Hr Hp Hne.
  assert (map dep_target (hard_dependencies d) =
    map (λ entry, (split_target entry).1) (d.(sd_requires) ++ d.(sd_binds_to))) as ->.
  { unfold hard_dependencies. rewrite !List.map_app, !List.map_map. f_equal; apply List.map_ext;
      intros e; unfold dependency; by destruct (split_target e). }
  destruct (resolve_role_references_map definitions) as (f & Hf & Hkeep).
  unfold synthesise_role_dependencies in Hd. rewrite Hf in Hd.
  rewrite keeps_providers in Hd by apply Hkeep.
  rewrite bool_decide_eq_false_2 in Hd by (intros E; rewrite E in Hp; by apply elem_of_nil in Hp).
  apply list_elem_of_fmap in Hd as (d0 & -> & _).
  destruct (add_authority_keeps (role_providers definitions AUTHN_ROLE) d0) as (Hn & Hpr & Hra).
  rewrite Hn in Hne. rewrite Hpr in Hr. rewrite Hra in Ha.
  apply add_authority_targets; try done. by apply role_providers_plain.
Qed.

Lemma authority_edge_witness :
  "authd" ∈ map dep_target (hard_dependencies
    {| (simple_system_boot "resolvd" "/sbin/resolvd") with
       sd_identity := "LocalService"; sd_requires := ["authd"] |}).
Proof.
  apply (authority_edge role_example _ "authd"); try reflexivity; try discriminate.
  - apply role_example_plain.
  - vm_compute. right. left.
  - simpl. apply not_elem_of_nil.
  - vm_compute. left.
Defined.
