(* ===== verification/Restart.v ===== *)
(** * The restart policy

    Models [src/src/service/restart.rs]: whether a failed service is restarted,
    after how long, and when its restart budget is spent. *)

From S2P Require Import Prelude RustStr ServiceRuntime ServiceDef.
Open Scope Z_scope.

Definition MAX_RESTART_DELAY_SECS : Z := 60.

Inductive RestartEvaluationAction : Type :=
| EvalBackoff (cause : TransitionCause) (delay_secs next_consecutive_failures : Z)
| EvalFail (cause : TransitionCause) (state : ServiceState).

Record RestartEvaluation : Type := { re_action : RestartEvaluationAction }.

Definition is_success_exit_code (definition : ServiceDefinition) (exit_code : Z) : bool :=
  (exit_code =? 0) || bool_decide (exit_code ∈ definition.(sd_success_exit_codes)).

(** [1_u64.checked_shl(n)]: [None] for a shift of 64 or more. *)
Definition u64_checked_shl_one (n : Z) : option Z :=
  if n <? 64 then Some (Z.shiftl 1 n) else None.

Definition restart_delay_secs (base_delay_secs consecutive_failures : Z) : Z :=
  let multiplier := default u64_max (u64_checked_shl_one consecutive_failures) in
  Z.min (u64_saturating_mul base_delay_secs multiplier) MAX_RESTART_DELAY_SECS.

Definition fail (cause : TransitionCause) : RestartEvaluation :=
  {| re_action := EvalFail cause StFailed |}.

Definition evaluate_restart_after_failure
    (definition : ServiceDefinition) (cause : TransitionCause)
    (exit_code : option Z) (consecutive_failures : Z) : RestartEvaluation :=
  if bool_decide (restart_consultation cause = RcNever) then fail cause
  else if bool_decide (cause = TcCleanExitRestart) &&
          negb (bool_decide (definition.(sd_restart_policy) = PolicyAlways)) then fail cause
  else if bool_decide (definition.(sd_restart_policy) = PolicyNever) then fail cause
  else if bool_decide (definition.(sd_restart_policy) = PolicyOnFailure) &&
          bool_decide (cause = TcProcessCrash) &&
          is_some_and exit_code (is_success_exit_code definition) then fail cause
  else if bool_decide (cause = TcCleanExitRestart) &&
          bool_decide (is_Some definition.(sd_console_path)) then
    {| re_action := EvalBackoff cause
         (Z.min definition.(sd_restart_delay_secs) MAX_RESTART_DELAY_SECS) 0 |}
  else if definition.(sd_restart_max_retries) <=? consecutive_failures then
    fail TcRestartBudgetExhausted
  else
    {| re_action := EvalBackoff cause
         (restart_delay_secs definition.(sd_restart_delay_secs) consecutive_failures)
         (u32_saturating_add consecutive_failures 1) |}.

(** ** Theorems *)

Lemma pow2_ge_64 n : 64 ≤ n → 18446744073709551616 ≤ 2 ^ n.
Proof.
  intros. change 18446744073709551616 with (2 ^ 64). apply Z.pow_le_mono_r; lia.
Qed.

(** The backoff delay is exponential and capped: for every failure count
    the overflow-guarded computation equals [min (base * 2^n) 60], so shifts
    past the width and products past [u64::MAX] change nothing. *)
Theorem restart_delay_exact base n :
  is_u64 base → is_u32 n →
  restart_delay_secs base n = Z.min (base * 2 ^ n) MAX_RESTART_DELAY_SECS.
Proof.
  unfold is_u64, is_u32, u64_max, restart_delay_secs, u64_checked_shl_one, u64_saturating_mul,
    MAX_RESTART_DELAY_SECS. intros Hb Hn.
  destruct (Z.ltb_spec n 64) as [Hlt|Hge]; simpl.
  - rewrite Z.shiftl_1_l. unfold u64_max. lia.
  - pose proof (pow2_ge_64 n Hge). unfold u64_max.
    destruct (decide (base = 0)) as [->|]; [lia|].
    assert (18446744073709551615 ≤ base * 2 ^ n) by nia. lia.
Qed.

Lemma restart_delay_exact_witness :
  restart_delay_secs 1 5 = 32 ∧ restart_delay_secs 3 4000000000 = 60.
Proof.
  split.
  - rewrite (restart_delay_exact 1 5); [reflexivity|unfold is_u64, u64_max; lia|unfold is_u32, u32_max; lia].
  - reflexivity.
Defined.

(** The verdict the supervisor acts on. *)
Definition backs_off (e : RestartEvaluation) : bool :=
  match e.(re_action) with EvalBackoff _ _ _ => true | EvalFail _ _ => false end.

(** When a restart is granted: exactly when the cause consults the policy,
    the policy covers it (always-only causes under [Always], crashes with a
    success code not under [OnFailure]), and the retry budget is not spent,
    which a clean exit of a console service never consumes. *)
Theorem restart_granted_iff definition cause exit_code failures :
  backs_off (evaluate_restart_after_failure definition cause exit_code failures) = true ↔
  restart_consultation cause ≠ RcNever ∧
  definition.(sd_restart_policy) ≠ PolicyNever ∧
  (cause = TcCleanExitRestart → definition.(sd_restart_policy) = PolicyAlways) ∧
  ¬ (definition.(sd_restart_policy) = PolicyOnFailure ∧ cause = TcProcessCrash ∧
     ∃ code, exit_code = Some code ∧ is_success_exit_code definition code = true) ∧
  (failures < definition.(sd_restart_max_retries) ∨
   cause = TcCleanExitRestart ∧ is_Some definition.(sd_console_path)).
Proof.
  unfold evaluate_restart_after_failure.
  destruct (decide (restart_consultation cause = RcNever)) as [Hc|Hc].
  { rewrite bool_decide_eq_true_2 by done. split; [done|tauto]. }
  rewrite (bool_decide_eq_false_2 _ Hc).
  destruct (decide (sd_restart_policy definition = PolicyNever)) as [Hp|Hp].
  { rewrite Hp. destruct (_ && _); (split; [done|tauto]). }
  rewrite (bool_decide_eq_false_2 _ Hp).
  destruct (decide (cause = TcCleanExitRestart)) as [->|Hce].
  - rewrite (bool_decide_eq_true_2 (TcCleanExitRestart = _)) by done.
    rewrite (bool_decide_eq_false_2 (TcCleanExitRestart = TcProcessCrash)) by done.
    rewrite andb_false_r. simpl.
    case_bool_decide as Ha; simpl; [|split; [done|naive_solver]].
    case_bool_decide as Ht; simpl; [split; [|done]; intros _; naive_solver|].
    destruct (Z.leb_spec (sd_restart_max_retries definition) failures); simpl;
      (split; [|naive_solver lia]); [done|]. intros _. naive_solver.
  - rewrite (bool_decide_eq_false_2 _ Hce). simpl.
    destruct (bool_decide _ && bool_decide _ && _) eqn:Eok; simpl.
    { apply andb_true_iff in Eok as [[?%bool_decide_eq_true ?%bool_decide_eq_true]%andb_true_iff Hs].
      destruct exit_code as [code|]; [|done]. split; [done|]. naive_solver. }
    assert (¬ (sd_restart_policy definition = PolicyOnFailure ∧ cause = TcProcessCrash ∧
      ∃ code, exit_code = Some code ∧ is_success_exit_code definition code = true)) as Hno.
    { intros (Hx & Hy & code & -> & Hz). rewrite Hx, Hy in Eok. simpl in Eok. by rewrite Hz in Eok. }
    destruct (Z.leb_spec (sd_restart_max_retries definition) failures); simpl;
      (split; [|naive_solver lia]); [done|]. naive_solver.
Qed.

(** A granted restart is scheduled within a minute and is a transition the
    state machine permits from some state, keeping the cause of the failure;
    a console service's clean exit does not count against its budget. *)
Theorem restart_schedule definition cause exit_code failures c delay next :
  is_u64 definition.(sd_restart_delay_secs) → is_u32 failures →
  restart_consultation cause ≠ RcBudgetExempt →
  evaluate_restart_after_failure definition cause exit_code failures =
    {| re_action := EvalBackoff c delay next |} →
  c = cause ∧ 0 ≤ delay ≤ 60 ∧ 0 ≤ next ≤ u32_max ∧
  (∃ from, is_allowed_transition from StBackoff c = true) ∧
  (cause = TcCleanExitRestart ∧ is_Some definition.(sd_console_path) → next = 0).
Proof.
  intros Hb Hf Hex. unfold evaluate_restart_after_failure, fail, is_u64, is_u32 in *.
  case_bool_decide as Hn; [done|]. destruct (_ && _) eqn:E1; [done|].
  destruct (bool_decide (_ = PolicyNever)); [done|]. destruct (_ && _ && _) eqn:E2; [done|].
  assert (∃ from, is_allowed_transition from StBackoff cause = true) as Hfrom.
  { destruct cause; simpl in *; try done; solve [by exists StStarting | by exists StActive]. }
  unfold MAX_RESTART_DELAY_SECS, u32_max in *.
  destruct (bool_decide (cause = TcCleanExitRestart) && bool_decide (is_Some _)) eqn:E3.
  { intros [= <- <- <-]. split_and!; try done; lia || auto. }
  destruct (_ <=? _); [done|]. intros [= <- <- <-].
  unfold restart_delay_secs, u64_saturating_mul, u64_checked_shl_one, u32_saturating_add, u64_max,
    u32_max, MAX_RESTART_DELAY_SECS.
  assert (0 ≤ default 18446744073709551615 (if failures <? 64 then Some (Z.shiftl 1 failures) else None)) as Hm.
  { destruct (_ <? _); simpl; [|lia]. rewrite Z.shiftl_1_l. by apply Z.pow_nonneg. }
  split_and!; try done; try lia; try nia.
  intros [-> Hs]. by rewrite (bool_decide_eq_true_2 _ Hs) in E3.
Qed.

Lemma restart_schedule_witness :
  TcProcessCrash = TcProcessCrash ∧ 0 ≤ 4 ≤ 60 ∧ 0 ≤ 3 ≤ u32_max ∧
  (∃ from, is_allowed_transition from StBackoff TcProcessCrash = true) ∧
  (TcProcessCrash = TcCleanExitRestart ∧ is_Some (sd_console_path (simple_system_boot "a" "/a")) → 3 = 0).
Proof.
  apply (restart_schedule (simple_system_boot "a" "/a") TcProcessCrash (Some 7) 2); try done.
Defined.
