(* ===== verification/Ids.v ===== *)
(** * Operation and job identifiers

    Models [src/src/ids/]: UUIDv7 values built from a timestamp and a sequence
    number ([uuid_v7.rs]), their canonical text form and its parser, the
    identifier newtypes ([model.rs]) and the batch allocators
    ([allocator.rs]).

    A [UuidV7] is a [[u8; 16]]; its derived order is the lexicographic one,
    which for arrays of one length is the order of their big-endian values. So
    a [UuidV7] is the 128-bit integer with those bytes ([uuid_of_bytes],
    [as_bytes]), and maps keyed by identifiers are ordered as integers. *)

From S2P Require Import Prelude RustStr.
From Stdlib Require Import Ascii String.
Open Scope string_scope.
Open Scope list_scope.
Open Scope Z_scope.

(** ** Bytes *)

Definition UuidV7 : Type := Z.
Definition OperationId : Type := UuidV7.
Definition JobId : Type := UuidV7.

(** The [i]-th byte, from the most significant, of an [n]-byte integer. *)
Definition be_byte (n : nat) (v : Z) (i : nat) : Z :=
  Z.land (Z.shiftr v (8 * Z.of_nat (n - 1 - i))) 255.

(** [u64::to_be_bytes], and the sixteen bytes of an identifier. *)
Definition to_be_bytes (n : nat) (v : Z) : list Z := map (be_byte n v) (seq 0 n).

Definition as_bytes (self : UuidV7) : list Z := to_be_bytes 16 self.

Definition uuid_of_bytes (bytes : list Z) : UuidV7 :=
  foldl (λ acc b, acc * 256 + b) 0 bytes.

(** ** Construction *)

Inductive IdAllocationError : Type :=
| CountOverflow (count : Z)
| SequenceExhausted (next_sequence count : Z)
| TimestampOverflow (observed_at_ns : Z).

Definition NANOS_PER_MILLI : Z := 1000000.
Definition UUIDV7_TIMESTAMP_MAX_MS : Z := 281474976710655.

Definition byte_at (bytes : list Z) (i : nat) : Z := default 0 (bytes !! i).

Definition from_seed (observed_at_ns sequence : Z) : Result UuidV7 IdAllocationError :=
  let timestamp_ms := observed_at_ns / NANOS_PER_MILLI in
  if UUIDV7_TIMESTAMP_MAX_MS <? timestamp_ms then Err (TimestampOverflow observed_at_ns)
  else
    let timestamp := byte_at (to_be_bytes 8 timestamp_ms) in
    let seq := byte_at (to_be_bytes 8 sequence) in
    Ok (uuid_of_bytes
      [ timestamp 2%nat; timestamp 3%nat; timestamp 4%nat;
        timestamp 5%nat; timestamp 6%nat; timestamp 7%nat;
        Z.lor 112 (Z.land (seq 0%nat) 15);
        seq 1%nat;
        Z.lor 128 (Z.land (seq 2%nat) 63);
        seq 3%nat; seq 4%nat; seq 5%nat; seq 6%nat; seq 7%nat;
        Z.land (Z.shiftr observed_at_ns 8) 255;
        Z.land observed_at_ns 255 ]).

(** ** Canonical text *)

Inductive UuidV7ParseError : Type :=
| ParseLength (actual : Z)
| ParseHyphen (index : nat)
| ParseHex (index : nat)
| ParseVersion (actual : Z)
| ParseVariant (actual : Z).

Definition from_canonical_bytes (bytes : list Z) : Result UuidV7 UuidV7ParseError :=
  if negb (Z.shiftr (byte_at bytes 6) 4 =? 7)
  then Err (ParseVersion (Z.shiftr (byte_at bytes 6) 4))
  else if negb (Z.shiftr (byte_at bytes 8) 6 =? 2)
  then Err (ParseVariant (Z.shiftr (byte_at bytes 8) 6))
  else Ok (uuid_of_bytes bytes).

(** The lower-case digit of a nibble, and [format!("{:02x}", b)]. *)
Definition hex_digit_lower (nibble : Z) : ascii :=
  ascii_of_nat (Z.to_nat (if nibble <? 10 then 48 + nibble else 87 + nibble)).

Definition hex_byte_lower (b : Z) : string :=
  String (hex_digit_lower (Z.shiftr b 4)) (String (hex_digit_lower (Z.land b 15)) "").

Definition hex_bytes_lower (bytes : list Z) : string :=
  foldr (λ b s, hex_byte_lower b +:+ s) "" bytes.

Definition to_canonical_string (self : UuidV7) : string :=
  let b := as_bytes self in
  hex_bytes_lower (take 4 b) +:+ "-" +:+
  hex_bytes_lower (take 2 (drop 4 b)) +:+ "-" +:+
  hex_bytes_lower (take 2 (drop 6 b)) +:+ "-" +:+
  hex_bytes_lower (take 2 (drop 8 b)) +:+ "-" +:+
  hex_bytes_lower (drop 10 b).

Definition hex_nibble (byte : ascii) : option Z :=
  let v := byte_val byte in
  if in_range 48 57 byte then Some (v - 48)
  else if in_range 97 102 byte then Some (v - 97 + 10)
  else if in_range 65 70 byte then Some (v - 65 + 10)
  else None.

Definition hyphen : ascii := "-"%char.

(** The digit loop: [index] is the position in the text, [bytes] the array
    being filled, [byte_index] its next free slot, [high_nibble] a digit
    waiting for its pair. *)
Fixpoint parse_digits (text : string) (index : nat) (bytes : list Z) (byte_index : nat)
    (high_nibble : option Z) : Result (list Z) UuidV7ParseError :=
  match text with
  | EmptyString => Ok bytes
  | String byte text =>
      if Ascii.eqb byte hyphen then parse_digits text (S index) bytes byte_index high_nibble
      else
        match hex_nibble byte with
        | None => Err (ParseHex index)
        | Some nibble =>
            match high_nibble with
            | Some high =>
                parse_digits text (S index)
                  (<[byte_index := Z.lor (Z.land (Z.shiftl high 4) 255) nibble]> bytes)
                  (S byte_index) None
            | None => parse_digits text (S index) bytes byte_index (Some nibble)
            end
        end
  end.

(** The first required hyphen that is missing. *)
Fixpoint missing_hyphen (value : string) (indexes : list nat) : option nat :=
  match indexes with
  | [] => None
  | index :: indexes =>
      match String.get index value with
      | Some byte =>
          if Ascii.eqb byte hyphen then missing_hyphen value indexes else Some index
      | None => Some index
      end
  end.

Definition parse_uuid_v7_canonical (value : string) : Result UuidV7 UuidV7ParseError :=
  if negb (String.length value =? 36)%nat then Err (ParseLength (Z.of_nat (String.length value)))
  else
    match missing_hyphen value [8; 13; 18; 23]%nat with
    | Some index => Err (ParseHyphen index)
    | None =>
        let? bytes := parse_digits value 0 (replicate 16 0) 0 None in
        from_canonical_bytes bytes
    end.

(** The PCDS binary form: the first three fields little-endian. *)
Definition pcds_guid_bytes (rfc : list Z) : list Z :=
  reverse (take 4 rfc) ++ reverse (take 2 (drop 4 rfc)) ++ reverse (take 2 (drop 6 rfc)) ++ drop 8 rfc.

Definition as_guid_bytes (self : UuidV7) : list Z := pcds_guid_bytes (as_bytes self).

(** ** Allocation

    [OperationIdAllocator] and [JobIdAllocator] are both their next sequence
    number. [usize] is 64 bits wide, so the conversion of the count never
    overflows. *)

Fixpoint seeds (observed_at_ns first : Z) (count : nat) : Result (list UuidV7) IdAllocationError :=
  match count with
  | O => Ok []
  | S count =>
      let? id := from_seed observed_at_ns first in
      let? ids := seeds observed_at_ns (first + 1) count in
      Ok (id :: ids)
  end.

Definition allocate_batch (next_sequence : Z) (count : nat) (observed_at_ns : Z)
    : Z * Result (list UuidV7) IdAllocationError :=
  if (count =? 0)%nat then (next_sequence, Ok [])
  else
    match u64_checked_add next_sequence (Z.of_nat count) with
    | None => (next_sequence, Err (SequenceExhausted next_sequence (Z.of_nat count)))
    | Some _ =>
        match seeds observed_at_ns next_sequence count with
        | Err e => (next_sequence, Err e)
        | Ok ids => (next_sequence + Z.of_nat count, Ok ids)
        end
    end.

(** ** Lemmas on bytes *)

Lemma be_byte_div n v i :
  be_byte n v i = (v / 2 ^ (8 * Z.of_nat (n - 1 - i))) mod 256.
Proof.
  unfold be_byte. rewrite Z.shiftr_div_pow2 by lia. change 255 with (Z.ones 8).
  by rewrite Z.land_ones.
Qed.

Lemma be_byte_range n v i : 0 ≤ be_byte n v i < 256.
Proof. rewrite be_byte_div. apply Z.mod_pos_bound. lia. Qed.

Lemma uuid_of_bytes_app l b : uuid_of_bytes (l ++ [b]) = uuid_of_bytes l * 256 + b.
Proof. unfold uuid_of_bytes. by rewrite foldl_app. Qed.

Lemma uuid_of_be_bytes n v : 0 ≤ v → uuid_of_bytes (to_be_bytes n v) = v mod 2 ^ (8 * Z.of_nat n).
Proof.
  intros Hv. revert v Hv. induction n as [|n IH]; intros v Hv.
  { unfold to_be_bytes; simpl. by rewrite Z.mod_1_r. }
  assert (to_be_bytes (S n) v = to_be_bytes n (v / 256) ++ [v mod 256]) as ->.
  { unfold to_be_bytes. rewrite seq_S, List.map_app. simpl. f_equal.
    - apply List.map_ext_in. intros i [_ Hi]%List.in_seq. rewrite !be_byte_div.
      replace (8 * Z.of_nat (S n - 1 - i)) with (8 + 8 * Z.of_nat (n - 1 - i)) by lia.
      rewrite Z.pow_add_r by lia. change (2 ^ 8) with 256. by rewrite Z.div_div by lia.
    - rewrite be_byte_div. replace (8 * Z.of_nat (S n - 1 - n)) with 0 by lia. by rewrite Z.div_1_r. }
  rewrite uuid_of_bytes_app, IH by (apply Z.div_pos; lia).
  replace (8 * Z.of_nat (S n)) with (8 + 8 * Z.of_nat n) by lia.
  rewrite Z.pow_add_r by lia. change (2 ^ 8) with 256.
  rewrite (Z.rem_mul_r v 256) by lia. lia.
Qed.

Lemma as_bytes_value u : 0 ≤ u < 2 ^ 128 → uuid_of_bytes (as_bytes u) = u.
Proof. intros Hu. unfold as_bytes. rewrite uuid_of_be_bytes by lia. by apply Z.mod_small. Qed.

(** ** Identifiers are unique and ordered *)

(** Sequence numbers below this bound occupy bits the version and variant
    fields leave alone. *)
Definition SEQUENCE_SPACE : Z := 70368744177664.

Lemma lor_variant x : 0 ≤ x < 64 → Z.lor 128 (Z.land x 63) = 128 + x.
Proof.
  intros Hx. apply Z.eqb_eq.
  apply (Z_forall_below (λ x, Z.lor 128 (Z.land x 63) =? 128 + x) 64); [reflexivity|lia].
Qed.

Lemma to_be_bytes_8 v :
  to_be_bytes 8 v =
    [v / 72057594037927936 mod 256; v / 281474976710656 mod 256; v / 1099511627776 mod 256;
     v / 4294967296 mod 256; v / 16777216 mod 256; v / 65536 mod 256; v / 256 mod 256; v mod 256].
Proof.
  unfold to_be_bytes. cbn [seq map]. rewrite !be_byte_div. change (2 ^ (8 * Z.of_nat (8 - 1 - 7))) with 1.
  by rewrite Z.div_1_r.
Qed.

Lemma from_seed_value t seq :
  0 ≤ t → t / NANOS_PER_MILLI ≤ UUIDV7_TIMESTAMP_MAX_MS → 0 ≤ seq < SEQUENCE_SPACE →
  from_seed t seq =
    Ok ((t / NANOS_PER_MILLI) * 2 ^ 80 + 28672 * 2 ^ 64 + 2 ^ 63 + seq * 2 ^ 16 + t mod 2 ^ 16).
Proof.
  unfold NANOS_PER_MILLI, UUIDV7_TIMESTAMP_MAX_MS, SEQUENCE_SPACE. intros Ht Hms Hs.
  unfold from_seed, NANOS_PER_MILLI, UUIDV7_TIMESTAMP_MAX_MS.
  destruct (Z.ltb_spec 281474976710655 (t / 1000000)) as [|_]; [lia|].
  set (ms := t / 1000000) in *. assert (0 ≤ ms) by (apply Z.div_pos; lia).
  rewrite !to_be_bytes_8. unfold byte_at. cbn [lookup list_lookup default from_option id].
  rewrite Z.shiftr_div_pow2 by lia. change 255 with (Z.ones 8). rewrite !Z.land_ones by lia.
  rewrite (Z.div_small seq 72057594037927936), (Z.div_small seq 281474976710656) by lia.
  change (Z.lor 112 (Z.land (0 mod 256) 15)) with 112. change (0 mod 256) with 0.
  assert (0 ≤ seq / 1099511627776 mod 256 < 64).
  { rewrite Z.mod_small; (split; [apply Z.div_pos; lia|apply Z.div_lt_upper_bound; lia]). }
  rewrite lor_variant by done. f_equal. unfold uuid_of_bytes. cbn [foldl].
  change (2 ^ 80) with 1208925819614629174706176. change (2 ^ 64) with 18446744073709551616.
  change (2 ^ 63) with 9223372036854775808. change (2 ^ 16) with 65536. change (2 ^ 8) with 256.
  clearbody ms. Z.to_euclidean_division_equations. lia.
Qed.

(** The sequence number an identifier carries. *)
Definition id_sequence (u : UuidV7) : Z := (u / 65536) mod SEQUENCE_SPACE.

Lemma from_seed_sequence t seq u :
  0 ≤ t → 0 ≤ seq < SEQUENCE_SPACE → from_seed t seq = Ok u → id_sequence u = seq.
Proof.
  intros Ht Hs Hu.
  assert (t / NANOS_PER_MILLI ≤ UUIDV7_TIMESTAMP_MAX_MS) as Hms.
  { unfold from_seed in Hu. destruct (Z.ltb_spec UUIDV7_TIMESTAMP_MAX_MS (t / NANOS_PER_MILLI)); [done|lia]. }
  rewrite from_seed_value in Hu by done. injection Hu as <-. unfold id_sequence.
  unfold SEQUENCE_SPACE in *.
  change (2 ^ 80) with (262144 * 70368744177664 * 65536).
  change (28672 * 2 ^ 64) with (28672 * 4 * 70368744177664 * 65536).
  change (2 ^ 63) with (2 * 70368744177664 * 65536). change (2 ^ 16) with 65536.
  pose proof (Z.mod_pos_bound t 65536).
  generalize (t / NANOS_PER_MILLI) as ms. intros ms.
  replace (ms * (262144 * 70368744177664 * 65536) + 28672 * 4 * 70368744177664 * 65536 +
    2 * 70368744177664 * 65536 + seq * 65536 + t mod 65536) with
    ((seq + (ms * 262144 + 28672 * 4 + 2) * 70368744177664) * 65536 + t mod 65536) by lia.
  rewrite Z.div_add_l, (Z.div_small (t mod 65536)), Z.add_0_r, Z_mod_plus_full by lia.
  apply Z.mod_small. lia.
Qed.

Lemma seeds_sequences t first count ids :
  0 ≤ t → 0 ≤ first → first + Z.of_nat count ≤ SEQUENCE_SPACE →
  seeds t first count = Ok ids →
  map id_sequence ids = map (λ i, first + Z.of_nat i) (seq 0 count).
Proof.
  intros Ht. revert first ids. induction count as [|count IH]; intros first ids Hf Hb; simpl.
  { by intros [= <-]. }
  destruct (from_seed t first) as [u|] eqn:Eu; [|done].
  destruct (seeds t (first + 1) count) as [us|] eqn:Es; [|done]. intros [= <-]. simpl.
  rewrite (from_seed_sequence t first u) by (done || lia).
  rewrite (IH (first + 1) us) by (done || lia). rewrite <-seq_shift, List.map_map.
  f_equal; [lia|]. apply List.map_ext. lia.
Qed.

Lemma map_seq_offset a b i j n :
  a + Z.of_nat i = b + Z.of_nat j →
  map (λ k, a + Z.of_nat k) (seq i n) = map (λ k, b + Z.of_nat k) (seq j n).
Proof.
  revert i j. induction n as [|n IH]; intros i j H; simpl; [done|]. f_equal; [done|]. apply IH. lia.
Qed.

(** Successive batches from one allocator: the identifiers of the batches that
    succeed, and the final sequence number. *)
Fixpoint allocate_all (next_sequence : Z) (batches : list (nat * Z)) : Z * list UuidV7 :=
  match batches with
  | [] => (next_sequence, [])
  | (count, observed_at_ns) :: batches =>
      let '(next, r) := allocate_batch next_sequence count observed_at_ns in
      let '(final, ids) := allocate_all next batches in
      (final, match r with Ok new => new ++ ids | Err _ => ids end)
  end.

Definition total_count (batches : list (nat * Z)) : nat := sum_list (map fst batches).

Lemma allocate_all_sequences next batches :
  0 ≤ next → next + Z.of_nat (total_count batches) ≤ SEQUENCE_SPACE →
  (∀ count t, (count, t) ∈ batches → 0 ≤ t) →
  let '(final, ids) := allocate_all next batches in
  next ≤ final ∧ map id_sequence ids = map (λ i, next + Z.of_nat i) (seq 0 (Z.to_nat (final - next))).
Proof.
  revert next. induction batches as [|[count t] batches IH]; intros next Hn Hb Ht; simpl.
  { replace (next - next) with 0 by lia. done. }
  unfold total_count in *. simpl in Hb.
  assert (∀ c t', (c, t') ∈ batches → 0 ≤ t') as Ht' by (intros; eapply Ht; by right).
  assert (0 ≤ t) as Ht0 by (eapply Ht; left).
  destruct (allocate_batch next count t) as [next' r] eqn:Ea.
  assert (next ≤ next' ≤ next + Z.of_nat count ∧
    map id_sequence (match r with Ok new => new | Err _ => [] end) =
    map (λ i, next + Z.of_nat i) (seq 0 (Z.to_nat (next' - next)))) as [Hn' Hr].
  { revert Ea. unfold allocate_batch. destruct (Nat.eqb_spec count 0) as [->|].
    { intros [= <- <-]. replace (next - next) with 0 by lia. split; [lia|done]. }
    destruct (u64_checked_add _ _); [|intros [= <- <-]; replace (next - next) with 0 by lia; split; [lia|done]].
    destruct (seeds t next count) as [ids|] eqn:Es; intros [= <- <-].
    - split; [lia|]. replace (Z.to_nat (next + Z.of_nat count - next)) with count by lia.
      apply (seeds_sequences t); (done || lia).
    - replace (next - next) with 0 by lia. split; [lia|done]. }
  specialize (IH next' ltac:(lia) ltac:(lia) Ht').
  destruct (allocate_all next' batches) as [final ids]. destruct IH as [Hf Hids]. split; [lia|].
  replace (match r with Ok new => new ++ ids | Err _ => ids end) with
    (match r with Ok new => new | Err _ => [] end ++ ids) by (by destruct r).
  rewrite List.map_app, Hr, Hids.
  replace (Z.to_nat (final - next)) with (Z.to_nat (next' - next) + Z.to_nat (final - next'))%nat by lia.
  rewrite seq_app, List.map_app. f_equal. apply map_seq_offset. lia.
Qed.

(** An allocator never hands out one identifier twice: over any succession
    of batch allocations, at any observed times, succeeding or failing, the
    identifiers handed out are pairwise distinct, as long as fewer than 2^46
    have been requested. *)
Theorem allocated_ids_unique batches :
  Z.of_nat (total_count batches) ≤ SEQUENCE_SPACE →
  (∀ count t, (count, t) ∈ batches → 0 ≤ t) →
  NoDup (allocate_all 0 batches).2.
Proof.
  intros Hb Ht. pose proof (allocate_all_sequences 0 batches ltac:(lia) ltac:(lia) Ht) as H.
  destruct (allocate_all 0 batches) as [final ids]. destruct H as [_ H]. simpl.
  apply (NoDup_fmap_1 id_sequence). change (NoDup (map id_sequence ids)). rewrite H.
  apply NoDup_ListNoDup, List.NoDup_map_inv with (f := Z.to_nat).
  rewrite List.map_map. erewrite List.map_ext; [rewrite List.map_id; apply List.seq_NoDup|].
  intros. simpl. lia.
Qed.

Lemma allocated_ids_unique_witness : NoDup (allocate_all 0 [(2%nat, 1700000000000000000); (1%nat, 5)]).2.
Proof.
  apply (allocated_ids_unique [(2%nat, 1700000000000000000); (1%nat, 5)]).
  - unfold total_count, SEQUENCE_SPACE; simpl; lia.
  - intros count t H. repeat (apply elem_of_cons in H as [[= -> ->]|H]; [lia|]). by apply elem_of_nil in H.
Defined.

(** ** Canonical text *)

(** A well-formed version 7 identifier, as [from_seed] builds them. *)
Definition is_uuid_v7 (u : UuidV7) : Prop :=
  0 ≤ u < 2 ^ 128 ∧ Z.shiftr (byte_at (as_bytes u) 6) 4 = 7 ∧ Z.shiftr (byte_at (as_bytes u) 8) 6 = 2.

#[export] Instance is_uuid_v7_dec u : Decision (is_uuid_v7 u).
Proof. unfold is_uuid_v7. apply _. Defined.

Lemma hex_nibble_digit n : 0 ≤ n < 16 → hex_nibble (hex_digit_lower n) = Some n ∧
  Ascii.eqb (hex_digit_lower n) hyphen = false.
Proof.
  intros Hn.
  pose proof (Z_forall_below (λ n, is_some_and (hex_nibble (hex_digit_lower n)) (λ m, m =? n) &&
    negb (Ascii.eqb (hex_digit_lower n) hyphen)) 16 eq_refl n ltac:(lia)) as H.
  simpl in H. apply andb_true_iff in H as [H ?%negb_true_iff].
  destruct (hex_nibble (hex_digit_lower n)) as [m|]; [|done]. simpl in H. apply Z.eqb_eq in H as ->. done.
Qed.

Lemma nibbles_join b : 0 ≤ b < 256 → Z.lor (Z.land (Z.shiftl (Z.shiftr b 4) 4) 255) (Z.land b 15) = b.
Proof.
  intros Hb. apply Z.eqb_eq.
  apply (Z_forall_below (λ b, Z.lor (Z.land (Z.shiftl (Z.shiftr b 4) 4) 255) (Z.land b 15) =? b) 256);
    [reflexivity|lia].
Qed.

Lemma nibble_ranges b : 0 ≤ b < 256 → 0 ≤ Z.shiftr b 4 < 16 ∧ 0 ≤ Z.land b 15 < 16.
Proof.
  intros Hb. change 15 with (Z.ones 4). rewrite Z.land_ones, Z.shiftr_div_pow2 by lia.
  change (2 ^ 4) with 16. split; [|apply Z.mod_pos_bound; lia].
  split; [apply Z.div_pos; lia|apply Z.div_lt_upper_bound; lia].
Qed.

Lemma parse_hex_byte b text index bytes k :
  0 ≤ b < 256 →
  parse_digits (hex_byte_lower b +:+ text) index bytes k None =
  parse_digits text (S (S index)) (<[k := b]> bytes) (S k) None.
Proof.
  intros Hb. destruct (nibble_ranges b Hb) as [Hhi Hlo].
  destruct (hex_nibble_digit _ Hhi) as [E1 E2]. destruct (hex_nibble_digit _ Hlo) as [E3 E4].
  unfold hex_byte_lower. simpl. rewrite E2, E1. simpl. by rewrite E4, E3, nibbles_join.
Qed.

Lemma parse_hyphen text index bytes k :
  parse_digits ("-" +:+ text) index bytes k None = parse_digits text (S index) bytes k None.
Proof. done. Qed.

Lemma hex_bytes_lower_cons b l : hex_bytes_lower (b :: l) = hex_byte_lower b +:+ hex_bytes_lower l.
Proof. done. Qed.

(** The text form with its sixteen bytes spelled out. *)
Lemma to_canonical_string_bytes u b0 b1 b2 b3 b4 b5 b6 b7 b8 b9 b10 b11 b12 b13 b14 b15 :
  as_bytes u = [b0; b1; b2; b3; b4; b5; b6; b7; b8; b9; b10; b11; b12; b13; b14; b15] →
  to_canonical_string u =
    hex_byte_lower b0 +:+ hex_byte_lower b1 +:+ hex_byte_lower b2 +:+ hex_byte_lower b3 +:+ "-" +:+
    hex_byte_lower b4 +:+ hex_byte_lower b5 +:+ "-" +:+ hex_byte_lower b6 +:+ hex_byte_lower b7 +:+ "-" +:+
    hex_byte_lower b8 +:+ hex_byte_lower b9 +:+ "-" +:+ hex_byte_lower b10 +:+ hex_byte_lower b11 +:+
    hex_byte_lower b12 +:+ hex_byte_lower b13 +:+ hex_byte_lower b14 +:+ hex_byte_lower b15 +:+ "".
Proof. unfold to_canonical_string. by intros ->. Qed.

(** Printing and parsing round-trip: the canonical text of a well-formed
    version 7 identifier parses back to that identifier. *)
Theorem canonical_round_trip u :
  is_uuid_v7 u → parse_uuid_v7_canonical (to_canonical_string u) = Ok u.
Proof.
  intros (Hu & Hver & Hvar).
  assert (Forall (λ b, 0 ≤ b < 256) (as_bytes u)) as Hb.
  { apply Forall_forall. intros b (i & -> & _)%list_elem_of_fmap. apply be_byte_range. }
  pose proof (as_bytes_value u Hu) as Hval.
  assert (List.length (as_bytes u) = 16%nat) as Hlen by reflexivity.
  destruct (as_bytes u) as [|b0 [|b1 [|b2 [|b3 [|b4 [|b5 [|b6 [|b7 [|b8 [|b9 [|b10 [|b11 [|b12 [|b13
    [|b14 [|b15 [|? ?]]]]]]]]]]]]]]]]] eqn:E; try discriminate Hlen.
  rewrite (to_canonical_string_bytes u _ _ _ _ _ _ _ _ _ _ _ _ _ _ _ _ E).
  unfold parse_uuid_v7_canonical.
  match goal with |- context [String.length ?s] => change (String.length s) with 36%nat end.
  match goal with |- context [missing_hyphen ?s ?l] => change (missing_hyphen s l) with (@None nat) end.
  cbn [negb Nat.eqb].
  rewrite !Forall_cons in Hb. destruct_and!.
  repeat first [rewrite parse_hex_byte by (split; assumption) | rewrite parse_hyphen].
  cbn [parse_digits].
  match goal with |- from_canonical_bytes ?l = _ =>
    change l with [b0; b1; b2; b3; b4; b5; b6; b7; b8; b9; b10; b11; b12; b13; b14; b15] end.
  unfold from_canonical_bytes. by rewrite Hver, Hvar, Hval.
Qed.

Lemma canonical_round_trip_witness :
  to_canonical_string 2055173893494096387082552025607949589 = "018bcfe5-687b-7000-8000-00000005cd15" ∧
  parse_uuid_v7_canonical (to_canonical_string 2055173893494096387082552025607949589) =
    Ok 2055173893494096387082552025607949589.
Proof.
  split; [reflexivity|]. apply (canonical_round_trip 2055173893494096387082552025607949589).
  unfold is_uuid_v7. split; [lia|]. split; reflexivity.
Defined.

(** The parser accepts text that is not in canonical form: it requires the
    four hyphens of the canonical layout but skips any other hyphen as well, so
    a 36-byte text whose last digits are hyphens parses to an identifier whose
    missing bytes are zero and whose canonical text is different. *)
Theorem parse_accepts_misplaced_hyphens :
  ∃ u, parse_uuid_v7_canonical "01234567-89ab-7def-8123-4567890abc--" = Ok u ∧
       to_canonical_string u = "01234567-89ab-7def-8123-4567890abc00".
Proof. eexists. split; [vm_compute; reflexivity|reflexivity]. Qed.
