(* ===== verification/Cgroup.v ===== *)
(** * Control-group paths

    Models [src/src/job/cgroup.rs]: the path of the control group a service's
    (or a submitted job's) processes run in, and its inverse, which reads the
    owner of a process back from [/proc/<pid>/cgroup]. *)

From S2P Require Import Prelude RustStr Ids.
From Stdlib Require Import Ascii String.
Open Scope string_scope.

Definition PEINIT_CGROUP_ROOT : string := "/sys/fs/cgroup/peinit".
Definition GENERATION_SEPARATOR : string := "%gen".

Inductive ServiceCgroupKind : Type := KindMain | KindHooks | KindHealth.

Definition path_component (self : ServiceCgroupKind) : string :=
  match self with KindMain => "main" | KindHooks => "hooks" | KindHealth => "health" end.

Definition is_cgroup_safe (byte : ascii) : bool :=
  is_ascii_alphanumeric byte ||
  (Ascii.eqb byte "."%char || Ascii.eqb byte "_"%char || Ascii.eqb byte "-"%char).

(** [HEX_DIGITS[n]]: the upper-case digit of a nibble. *)
Definition hex_digit_upper (nibble : Z) : ascii :=
  ascii_of_nat (Z.to_nat (if (nibble <? 10)%Z then 48 + nibble else 55 + nibble)%Z).

Definition percent : ascii := "%"%char.

Definition encode_byte (byte : ascii) : string :=
  if is_cgroup_safe byte then String byte ""
  else String percent
         (String (hex_digit_upper (Z.shiftr (byte_val byte) 4))
            (String (hex_digit_upper (Z.land (byte_val byte) 15)) "")).

Fixpoint encode_service_cgroup_id (service : string) : string :=
  match service with
  | EmptyString => ""
  | String byte service => encode_byte byte +:+ encode_service_cgroup_id service
  end.

Definition service_cgroup_root_path (service : string) (generation : Z) : string :=
  let encoded := encode_service_cgroup_id service in
  if (generation =? 0)%Z then PEINIT_CGROUP_ROOT +:+ "/" +:+ encoded
  else PEINIT_CGROUP_ROOT +:+ "/" +:+ encoded +:+ GENERATION_SEPARATOR +:+ u64_to_string generation.

Definition service_job_cgroup_path (service : string) (generation : Z) (kind : ServiceCgroupKind)
    : string :=
  service_cgroup_root_path service generation +:+ "/" +:+ path_component kind.

Definition submitted_job_cgroup_path (job_id : JobId) : string :=
  PEINIT_CGROUP_ROOT +:+ "/jobs/" +:+ to_canonical_string job_id.

(** ** Reading a membership back *)

Inductive ServicePart : Type := PartMain | PartHooks | PartHealth | PartChecks.

Inductive CgroupMember : Type :=
| MemberService (service : string) (part : option ServicePart)
| MemberJob (id : string).

Definition hex_value (c : ascii) : option Z := hex_nibble c.

(** [u8::from_str_radix(hex, 16)] of a two-byte text: two digits, or a plus
    sign and one digit. *)
Definition u8_from_hex2 (a b : ascii) : option ascii :=
  let digit v := ascii_of_nat (Z.to_nat v) in
  if Ascii.eqb a "+"%char then digit <$> hex_value b
  else match hex_value a, hex_value b with
       | Some hi, Some lo => Some (digit (16 * hi + lo)%Z)
       | _, _ => None
       end.

(** The bytes after a [%] are taken as a [str] slice, which requires both ends
    to be character boundaries. *)
Definition at_boundary (s : string) : bool :=
  match s with EmptyString => true | String c _ => negb (is_continuation c) end.

Fixpoint decode_bytes (encoded : string) : option string :=
  match encoded with
  | EmptyString => Some ""
  | String c rest =>
      if Ascii.eqb c percent then
        match rest with
        | String a (String b tail) =>
            if at_boundary rest && at_boundary tail then
              match u8_from_hex2 a b with
              | Some byte => String byte <$> decode_bytes tail
              | None => None
              end
            else None
        | _ => None
        end
      else String c <$> decode_bytes rest
  end.

Definition decode_service_cgroup_id (encoded : string) : option string :=
  match decode_bytes encoded with
  | Some out => if is_utf8 out then Some out else None
  | None => None
  end.

Definition part_of (name : string) : option ServicePart :=
  if bool_decide (name = "main") then Some PartMain
  else if bool_decide (name = "hooks") then Some PartHooks
  else if bool_decide (name = "health") then Some PartHealth
  else if bool_decide (name = "checks") then Some PartChecks
  else None.

Definition cgroup_member (proc_cgroup : string) : option CgroupMember :=
  path ← find_map (strip_prefix "0::") (lines proc_cgroup);
  rest ← strip_prefix "/peinit/" path;
  let parts := split_char "/"%char rest in
  first ← parts !! 0%nat;
  let second := parts !! 1%nat in
  match (if bool_decide (first = "jobs") then second else None) with
  | Some id =>
      match part_of id with
      | None => Some (MemberJob id)
      | Some part =>
          service ← decode_service_cgroup_id (split_str_first GENERATION_SEPARATOR first);
          Some (MemberService service (Some part))
      end
  | None =>
      service ← decode_service_cgroup_id (split_str_first GENERATION_SEPARATOR first);
      Some (MemberService service (name ← second; part_of name))
  end.

(** ** Lemmas *)

Definition is_hex_upper (c : ascii) : bool := in_range 48 57 c || in_range 65 70 c.

(** A character of an encoded identifier. *)
Definition is_encoded_char (c : ascii) : bool := is_cgroup_safe c || Ascii.eqb c percent.

Lemma hex_digit_upper_ok n : (0 ≤ n < 16)%Z →
  is_hex_upper (hex_digit_upper n) = true ∧ hex_value (hex_digit_upper n) = Some n.
Proof.
  intros Hn.
  pose proof (Z_forall_below (λ n, is_hex_upper (hex_digit_upper n) &&
    is_some_and (hex_value (hex_digit_upper n)) (λ m, m =? n)%Z) 16 eq_refl n ltac:(lia)) as H.
  simpl in H. apply andb_true_iff in H as [? H]. split; [done|].
  destruct (hex_value _) as [m|]; [|done]. simpl in H. by apply Z.eqb_eq in H as ->.
Qed.

(** Facts about single bytes, checked on all of them. *)
Lemma ascii_forall (P : ascii → bool) :
  forallb (λ i, P (ascii_of_nat i)) (seq 0 256) = true → ∀ c, P c = true.
Proof.
  intros H c. rewrite List.forallb_forall in H. rewrite <-(ascii_nat_embedding c).
  apply H, List.in_seq. pose proof (nat_ascii_bounded c). lia.
Qed.

Lemma is_hex_upper_facts c : is_hex_upper c = true →
  is_cgroup_safe c = true ∧ Ascii.eqb c "+"%char = false ∧ is_continuation c = false ∧
  Ascii.eqb c "g"%char = false.
Proof.
  pose proof (ascii_forall (λ c, implb (is_hex_upper c)
    (is_cgroup_safe c && negb (Ascii.eqb c "+") && negb (is_continuation c) && negb (Ascii.eqb c "g")))
    eq_refl c) as H.
  simpl in H. intros Hc. rewrite Hc in H. simpl in H.
  apply andb_true_iff in H as [[[? ?%negb_true_iff]%andb_true_iff ?%negb_true_iff]%andb_true_iff ?%negb_true_iff].
  done.
Qed.

(** A character that neither separates path components nor ends a line. *)
Definition is_path_clean (c : ascii) : bool :=
  negb (Ascii.eqb c "/") && negb (Ascii.eqb c newline) && negb (Ascii.eqb c carriage_return).

Lemma is_encoded_char_facts c : is_encoded_char c = true →
  Ascii.eqb c "/"%char = false ∧ is_continuation c = false ∧ is_path_clean c = true.
Proof.
  pose proof (ascii_forall (λ c, implb (is_encoded_char c)
    (negb (Ascii.eqb c "/") && negb (is_continuation c) && is_path_clean c)) eq_refl c) as H.
  simpl in H. intros Hc. rewrite Hc in H. simpl in H.
  apply andb_true_iff in H as [[?%negb_true_iff ?%negb_true_iff]%andb_true_iff ?]. done.
Qed.

Lemma is_cgroup_safe_not_percent c : is_cgroup_safe c = true → Ascii.eqb c percent = false.
Proof. intros Hc. destruct (Ascii.eqb_spec c percent) as [->|]; [|done]. by vm_compute in Hc. Qed.

Lemma byte_nibbles c : (0 ≤ Z.shiftr (byte_val c) 4 < 16 ∧ 0 ≤ Z.land (byte_val c) 15 < 16 ∧
  16 * Z.shiftr (byte_val c) 4 + Z.land (byte_val c) 15 = byte_val c)%Z.
Proof.
  pose proof (byte_val_range c). destruct (nibble_ranges (byte_val c) H) as [? ?].
  split_and!; try lia. change 15%Z with (Z.ones 4). rewrite Z.land_ones, Z.shiftr_div_pow2 by lia.
  change (2 ^ 4)%Z with 16%Z. pose proof (Z.div_mod (byte_val c) 16). lia.
Qed.

Lemma ascii_of_byte_val c : ascii_of_nat (Z.to_nat (byte_val c)) = c.
Proof.
  unfold byte_val, ascii_of_nat. rewrite <-(ascii_N_embedding c) at 2. f_equal. lia.
Qed.

Lemma encode_chars service : str_all is_encoded_char (encode_service_cgroup_id service) = true.
Proof.
  induction service as [|c s IH]; simpl; [done|]. rewrite str_all_app, IH, andb_true_r.
  unfold encode_byte. destruct (is_cgroup_safe c) eqn:Ec; simpl.
  - unfold is_encoded_char. by rewrite Ec.
  - destruct (byte_nibbles c) as (Hhi & Hlo & _).
    destruct (hex_digit_upper_ok _ Hhi) as [(S1 & _)%is_hex_upper_facts _].
    destruct (hex_digit_upper_ok _ Hlo) as [(S2 & _)%is_hex_upper_facts _].
    unfold is_encoded_char. by rewrite S1, S2.
Qed.

Lemma encode_no_char c service :
  is_encoded_char c = false →
  str_all (λ d, negb (Ascii.eqb d c)) (encode_service_cgroup_id service) = true.
Proof.
  intros Hc. eapply str_all_impl; [|apply encode_chars]. intros d Hd.
  destruct (Ascii.eqb_spec d c) as [->|]; [congruence|done].
Qed.

Lemma at_boundary_encoded s tail :
  str_all is_encoded_char s = true → at_boundary tail = true → at_boundary (s +:+ tail) = true.
Proof.
  destruct s as [|c s]; simpl; [done|]. intros [Hc _]%andb_true_iff _.
  apply is_encoded_char_facts in Hc as (_ & -> & _). done.
Qed.

Lemma decode_bytes_encode service : decode_bytes (encode_service_cgroup_id service) = Some service.
Proof.
  induction service as [|c s IH]; simpl; [done|]. unfold encode_byte.
  destruct (is_cgroup_safe c) eqn:Ec; simpl.
  - by rewrite (is_cgroup_safe_not_percent c Ec), IH.
  - destruct (byte_nibbles c) as (Hhi & Hlo & Hval).
    destruct (hex_digit_upper_ok _ Hhi) as [F1 V1]. destruct (hex_digit_upper_ok _ Hlo) as [F2 V2].
    apply is_hex_upper_facts in F1 as (_ & P1 & C1 & _).
    assert (at_boundary (encode_service_cgroup_id s) = true) as Hb.
    { rewrite <-(str_app_nil_r (encode_service_cgroup_id s)). apply at_boundary_encoded; [apply encode_chars|done]. }
    rewrite C1, Hb. simpl. unfold u8_from_hex2. rewrite P1, V1, V2, Hval, ascii_of_byte_val, IH. done.
Qed.

(** The last component of a service's root path. *)
Definition root_component (service : string) (generation : Z) : string :=
  if (generation =? 0)%Z then encode_service_cgroup_id service
  else encode_service_cgroup_id service +:+ GENERATION_SEPARATOR +:+ u64_to_string generation.

Lemma root_path_component service generation :
  service_cgroup_root_path service generation =
  PEINIT_CGROUP_ROOT +:+ "/" +:+ root_component service generation.
Proof. unfold service_cgroup_root_path, root_component. by destruct (_ =? _)%Z. Qed.

Lemma root_component_all (p : ascii → bool) service generation :
  (∀ c, is_encoded_char c = true → p c = true) →
  str_all p (root_component service generation) = true.
Proof.
  intros Hp. unfold root_component.
  pose proof (str_all_impl _ p _ Hp (encode_chars service)) as He.
  destruct (_ =? _)%Z; [done|]. rewrite !str_all_app, He. unfold GENERATION_SEPARATOR.
  rewrite (str_all_impl is_ascii_digit p (u64_to_string generation)); [|intros d Hd|apply u64_to_string_digits].
  - simpl. by rewrite !Hp by reflexivity.
  - apply Hp. unfold is_encoded_char, is_cgroup_safe, is_ascii_alphanumeric. by rewrite Hd.
Qed.

Lemma root_component_no_slash service generation :
  str_all (λ d, negb (Ascii.eqb d "/"%char)) (root_component service generation) = true.
Proof. apply root_component_all. intros c Hc. by apply is_encoded_char_facts in Hc as (-> & _). Qed.

Lemma root_component_clean service generation :
  str_all is_path_clean (root_component service generation) = true.
Proof. apply root_component_all. intros c Hc. by apply is_encoded_char_facts in Hc as (_ & _ & ->). Qed.

(** The generation separator does not occur in an encoded identifier. *)
Lemma split_encoded service tail :
  split_str_first GENERATION_SEPARATOR (encode_service_cgroup_id service +:+ tail) =
  encode_service_cgroup_id service +:+ split_str_first GENERATION_SEPARATOR tail.
Proof.
  assert (∀ c s, Ascii.eqb c percent = false →
    split_str_first GENERATION_SEPARATOR (String c s) =
    String c (split_str_first GENERATION_SEPARATOR s)) as Hstep.
  { intros c s Hc. change (split_str_first GENERATION_SEPARATOR (String c s)) with
      (if starts_with GENERATION_SEPARATOR (String c s) then ""
       else String c (split_str_first GENERATION_SEPARATOR s)).
    unfold starts_with at 1, GENERATION_SEPARATOR at 1. cbn [strip_prefix].
    rewrite Ascii.eqb_sym in Hc. unfold percent in Hc. by rewrite Hc. }
  induction service as [|c s IH]; [done|].
  change (encode_service_cgroup_id (String c s)) with (encode_byte c +:+ encode_service_cgroup_id s).
  rewrite str_app_assoc. unfold encode_byte. destruct (is_cgroup_safe c) eqn:Ec.
  - cbn [String.append]. rewrite Hstep by by apply is_cgroup_safe_not_percent. by rewrite IH.
  - destruct (byte_nibbles c) as (Hhi & Hlo & _).
    destruct (hex_digit_upper_ok _ Hhi) as [(S1 & _ & _ & G)%is_hex_upper_facts _].
    destruct (hex_digit_upper_ok _ Hlo) as [(S2 & _)%is_hex_upper_facts _].
    apply is_cgroup_safe_not_percent in S1, S2. cbn [String.append].
    set (d1 := hex_digit_upper _) in *. set (d2 := hex_digit_upper _) in *.
    change (split_str_first GENERATION_SEPARATOR (String percent ?s)) with
      (if starts_with GENERATION_SEPARATOR (String percent s) then ""
       else String percent (split_str_first GENERATION_SEPARATOR s)).
    unfold starts_with at 1, GENERATION_SEPARATOR at 1, percent at 1. cbn [strip_prefix].
    rewrite Ascii.eqb_refl, Ascii.eqb_sym, G, !Hstep, IH by done. done.
Qed.

Lemma split_root_component service generation :
  split_str_first GENERATION_SEPARATOR (root_component service generation) =
  encode_service_cgroup_id service.
Proof.
  unfold root_component. destruct (_ =? _)%Z.
  - rewrite <-(str_app_nil_r (encode_service_cgroup_id service)) at 1. by rewrite split_encoded, str_app_nil_r.
  - rewrite split_encoded. unfold GENERATION_SEPARATOR. simpl. by rewrite str_app_nil_r.
Qed.

Lemma encode_inj s t : encode_service_cgroup_id s = encode_service_cgroup_id t → s = t.
Proof.
  intros E. pose proof (decode_bytes_encode s) as Hs. rewrite E, decode_bytes_encode in Hs. congruence.
Qed.

Lemma root_component_inj s g t h :
  (0 ≤ g)%Z → (0 ≤ h)%Z → root_component s g = root_component t h → s = t ∧ g = h.
Proof.
  intros Hg Hh E. pose proof (f_equal (split_str_first GENERATION_SEPARATOR) E) as E'.
  rewrite !split_root_component in E'. apply encode_inj in E' as ->. split; [done|].
  assert (∀ k, root_component t k = encode_service_cgroup_id t +:+
    (if (k =? 0)%Z then "" else GENERATION_SEPARATOR +:+ u64_to_string k)) as Hk.
  { intros k. unfold root_component. destruct (_ =? _)%Z; by rewrite ?str_app_nil_r. }
  rewrite !Hk in E. apply str_app_inj_l in E.
  destruct (Z.eqb_spec g 0) as [->|], (Z.eqb_spec h 0) as [->|]; try done.
  apply u64_to_string_inj; [done..|]. by apply str_app_inj_l in E.
Qed.

(** Text up to the first slash is determined by the whole. *)
Lemma slash_app_inj a b x y :
  str_all (λ d, negb (Ascii.eqb d "/"%char)) a = true →
  str_all (λ d, negb (Ascii.eqb d "/"%char)) b = true →
  a +:+ String "/" x = b +:+ String "/" y → a = b ∧ x = y.
Proof.
  intros Ha Hb E. pose proof (split_once_app "/" a x Ha) as Hx.
  rewrite E, (split_once_app "/" b y Hb) in Hx. by simplify_eq.
Qed.

Definition kind_part (kind : ServiceCgroupKind) : ServicePart :=
  match kind with KindMain => PartMain | KindHooks => PartHooks | KindHealth => PartHealth end.

(** What the kernel prints for a process of the cgroup at [path]: its path below
    the cgroup mount, ["/sys/fs/cgroup"]. *)
Definition proc_cgroup_line (path : string) : option string :=
  below ← strip_prefix "/sys/fs/cgroup" path; Some ("0::" +:+ below +:+ String newline "").

Lemma lines_single line :
  str_all (λ d, negb (Ascii.eqb d newline)) line = true → strip_cr line = line → line ≠ "" →
  lines (line +:+ String newline "") = [line].
Proof.
  intros Hl Hcr Hne. unfold lines. rewrite split_char_app by done. simpl. by rewrite Hcr.
Qed.

Lemma strip_cr_none s :
  str_all (λ d, negb (Ascii.eqb d carriage_return)) s = true → strip_cr s = s.
Proof.
  induction s as [|c s IH]; [done|]. simpl. intros [Hc Hs]%andb_true_iff.
  destruct s; [|by rewrite IH]. by apply negb_true_iff in Hc as ->.
Qed.

Lemma str_all_clean s :
  str_all is_path_clean s = true →
  str_all (λ d, negb (Ascii.eqb d "/"%char)) s = true ∧
  str_all (λ d, negb (Ascii.eqb d newline)) s = true ∧
  str_all (λ d, negb (Ascii.eqb d carriage_return)) s = true.
Proof.
  intros Hs; split_and!; (eapply str_all_impl; [|exact Hs]); intros c;
    unfold is_path_clean; by intros [[? ?]%andb_true_iff ?]%andb_true_iff.
Qed.

(** The owner of a process in the group [first/second] below the root. *)
Definition member_of (first second : string) : option CgroupMember :=
  match (if bool_decide (first = "jobs") then part_of second else Some PartMain) with
  | None => Some (MemberJob second)
  | Some _ =>
      service ← decode_service_cgroup_id (split_str_first GENERATION_SEPARATOR first);
      Some (MemberService service (part_of second))
  end.

Lemma cgroup_member_read first second :
  str_all is_path_clean first = true → str_all is_path_clean second = true →
  cgroup_member ("0::/peinit/" +:+ first +:+ "/" +:+ second +:+ String newline "") =
  member_of first second.
Proof.
  intros (F1 & F2 & F3)%str_all_clean (S1 & S2 & S3)%str_all_clean. unfold cgroup_member.
  replace ("0::/peinit/" +:+ first +:+ "/" +:+ second +:+ String newline "")
    with (("0::" +:+ "/peinit/" +:+ first +:+ "/" +:+ second) +:+ String newline "")
    by by rewrite !str_app_assoc.
  rewrite lines_single; [| | |done].
  2: { rewrite !str_all_app, F2, S2. done. }
  2: { apply strip_cr_none. rewrite !str_all_app, F3, S3. done. }
  unfold find_map. rewrite strip_prefix_app. cbn [mbind option_bind].
  rewrite strip_prefix_app. cbn [mbind option_bind].
  change ("/" +:+ second) with (String "/"%char second).
  rewrite split_char_app, split_char_none by done. cbn [lookup list_lookup mbind option_bind].
  unfold member_of. destruct (bool_decide _); [|done]. by destruct (part_of second).
Qed.

Lemma canonical_clean id : str_all is_path_clean (to_canonical_string id) = true.
Proof.
  assert (∀ l, Forall (λ b, 0 ≤ b < 256)%Z l → str_all is_path_clean (hex_bytes_lower l) = true) as Hl.
  { induction 1 as [|b l Hb _ IH]; [done|]. rewrite hex_bytes_lower_cons, str_all_app, IH, andb_true_r.
    exact (Z_forall_below (λ b, str_all is_path_clean (hex_byte_lower b)) 256 eq_refl b Hb). }
  assert (Forall (λ b, 0 ≤ b < 256)%Z (as_bytes id)) as Hb.
  { apply Forall_forall. intros b (i & -> & _)%list_elem_of_fmap. apply be_byte_range. }
  unfold to_canonical_string. rewrite !str_all_app, !Hl; auto using Forall_take, Forall_drop.
Qed.

Lemma canonical_not_part id : part_of (to_canonical_string id) = None.
Proof.
  assert (String.length (to_canonical_string id) = 36%nat) as Hlen by reflexivity.
  unfold part_of. repeat (rewrite bool_decide_false by (intros E; rewrite E in Hlen; discriminate)). done.
Qed.

Lemma below_roots_inj s g t h x y :
  (0 ≤ g)%Z → (0 ≤ h)%Z →
  service_cgroup_root_path s g +:+ "/" +:+ x = service_cgroup_root_path t h +:+ "/" +:+ y →
  s = t ∧ g = h ∧ x = y.
Proof.
  intros Hg Hh E. rewrite !root_path_component, !str_app_assoc in E.
  do 2 apply str_app_inj_l in E.
  apply slash_app_inj in E as [E ->]; [|apply root_component_no_slash..].
  apply root_component_inj in E as [-> ->]; done.
Qed.

(** ** Theorems *)

(** The path encoding of a service name is injective and invertible: two
    service names share an encoded identifier only if they are equal, and
    decoding the encoded identifier of any (UTF-8) name gives the name back. *)
Theorem encode_injective_and_decodable s t :
  (encode_service_cgroup_id s = encode_service_cgroup_id t → s = t) ∧
  (is_utf8 s = true → decode_service_cgroup_id (encode_service_cgroup_id s) = Some s).
Proof.
  split.
  - apply encode_inj.
  - intros Hu. unfold decode_service_cgroup_id. by rewrite decode_bytes_encode, Hu.
Qed.

Lemma encode_injective_and_decodable_witness :
  decode_service_cgroup_id (encode_service_cgroup_id "app/x y") = Some "app/x y".
Proof. apply (encode_injective_and_decodable "app/x y" "app"); reflexivity. Defined.

(** No control group belongs to two service trees: if a path is below the
    root of service [s] at generation [g] and below the root of service [t] at
    generation [h], the services and the generations are the same. In
    particular a service never shares a tree with a leaked generation of
    another service, nor with one of its own. *)
Theorem service_trees_disjoint s g t h x y :
  is_u64 g → is_u64 h →
  service_cgroup_root_path s g +:+ "/" +:+ x = service_cgroup_root_path t h +:+ "/" +:+ y →
  s = t ∧ g = h ∧ x = y.
Proof.
  intros [Hg _] [Hh _]. by apply below_roots_inj.
Qed.

Lemma service_trees_disjoint_witness :
  is_u64 1 ∧ "app" = "app" ∧ 1%Z = 1%Z ∧ "main" = "main".
Proof.
  split; [by unfold is_u64, u64_max|].
  apply (service_trees_disjoint "app" 1 "app" 1 "main" "main"); by vm_compute.
Defined.

(** Reading the owner of a process back from the kernel's membership line
    inverts the path construction: for any service name, any generation and any
    kind of service process the path's line is read as that service and that
    part, and a submitted job's line is read as that job. *)
Theorem cgroup_member_inverts_paths :
  (∀ service generation kind, is_utf8 service = true →
     (proc_cgroup_line (service_job_cgroup_path service generation kind) ≫= cgroup_member) =
     Some (MemberService service (Some (kind_part kind)))) ∧
  (∀ id, (proc_cgroup_line (submitted_job_cgroup_path id) ≫= cgroup_member) =
     Some (MemberJob (to_canonical_string id))).
Proof.
  split.
  - intros service generation kind Hu. unfold proc_cgroup_line, service_job_cgroup_path.
    rewrite root_path_component. unfold PEINIT_CGROUP_ROOT.
    change ("/sys/fs/cgroup/peinit" +:+ ?x) with ("/sys/fs/cgroup" +:+ "/peinit" +:+ x).
    rewrite !str_app_assoc, strip_prefix_app. cbn [mbind option_bind].
    rewrite !str_app_assoc. change ("0::" +:+ "/peinit" +:+ "/" +:+ ?x) with ("0::/peinit/" +:+ x).
    rewrite cgroup_member_read; [|apply root_component_clean|by destruct kind].
    unfold member_of, decode_service_cgroup_id. rewrite split_root_component, decode_bytes_encode, Hu.
    destruct (bool_decide _), kind; done.
  - intros id. unfold proc_cgroup_line, submitted_job_cgroup_path, PEINIT_CGROUP_ROOT.
    change ("/sys/fs/cgroup/peinit" +:+ "/jobs/" +:+ ?x) with ("/sys/fs/cgroup" +:+ "/peinit/jobs/" +:+ x).
    rewrite strip_prefix_app. cbn [mbind option_bind].
    change ("0::" +:+ ("/peinit/jobs/" +:+ ?x) +:+ ?y) with ("0::/peinit/" +:+ "jobs" +:+ "/" +:+ (x +:+ y)).
    rewrite cgroup_member_read; [|done|apply canonical_clean].
    unfold member_of. by rewrite canonical_not_part.
Qed.

Lemma cgroup_member_inverts_paths_witness :
  (proc_cgroup_line (service_job_cgroup_path "jobs" 2 KindMain) ≫= cgroup_member) =
  Some (MemberService "jobs" (Some PartMain)).
Proof. apply (proj1 cgroup_member_inverts_paths "jobs" 2%Z KindMain). reflexivity. Defined.

(** The groups of submitted jobs are below the root of the service named
    [jobs] at generation 0, and below no other service's root: killing that
    service's tree reaches every submitted job. *)
Theorem submitted_jobs_under_service_jobs id service generation below :
  is_u64 generation →
  submitted_job_cgroup_path id = service_cgroup_root_path service generation +:+ "/" +:+ below ↔
  service = "jobs" ∧ generation = 0%Z ∧ below = to_canonical_string id.
Proof.
  intros [Hg _].
  change (submitted_job_cgroup_path id) with
    (PEINIT_CGROUP_ROOT +:+ "/" +:+ root_component "jobs" 0 +:+ "/" +:+ to_canonical_string id).
  split.
  - rewrite root_path_component, !str_app_assoc. intros E. do 2 apply str_app_inj_l in E.
    apply slash_app_inj in E as [E ->]; [|apply root_component_no_slash..].
    apply root_component_inj in E as [<- <-]; done.
  - intros (-> & -> & ->). by rewrite root_path_component, !str_app_assoc.
Qed.

Lemma submitted_jobs_under_service_jobs_witness :
  submitted_job_cgroup_path 5%Z = service_cgroup_root_path "jobs" 0 +:+ "/" +:+ to_canonical_string 5.
Proof.
  apply (submitted_jobs_under_service_jobs 5%Z "jobs" 0 (to_canonical_string 5)); [|done].
  by unfold is_u64, u64_max.
Defined.
