(* ===== verification/Calendar.v ===== *)
(** * Calendar schedules

    Models [src/src/timer/calendar/]: the parser of calendar expressions
    ([parse.rs], [parse/], [field/]) and the search for the next occurrence
    ([eval.rs]).

    Civil time and time zones are the [jiff] crate's, which is not part of the
    program: the class [Jiff] lists what the code calls. Numbers are [u16] in
    the code; [field] sets are [BTreeSet]s.

    The two insertion loops of the parser are bounded by fuel, the width of the
    range they walk plus one; that it is enough shows in
    [numeric_part_denotes], whose right-hand sides an early exit would miss. *)

From stdpp Require Import pretty.
From S2P Require Import Prelude RustStr.
From Stdlib Require Import Ascii String.
Open Scope string_scope.
Open Scope list_scope.
Open Scope Z_scope.

(** ** What the code calls of [jiff] *)

Class Jiff : Type := {
  TimeZone : Type;
  Timestamp : Type;
  Date : Type;
  DateTime : Type;
  (** [TimeZone::get], [TimeZone::system]; errors are their text. *)
  timezone_get : string → Result TimeZone string;
  timezone_system : TimeZone;
  (** [Timestamp::from_nanosecond], [Timestamp::to_zoned(tz).date()]. *)
  from_nanosecond : Z → Result Timestamp string;
  zoned_date : Timestamp → TimeZone → Date;
  (** The accessors of [civil::Date]; [date_weekday] is
      [weekday().to_monday_one_offset()]. *)
  date_year : Date → Z;
  date_month : Date → Z;
  date_day : Date → Z;
  date_days_in_month : Date → Z;
  date_weekday : Date → Z;
  (** [Date::tomorrow], which fails at the end of the representable range. *)
  date_tomorrow : Date → option Date;
  (** [DateTime::new(year, month, day, hour, minute, second, 0)]. *)
  datetime_new : Z → Z → Z → Z → Z → Z → Result DateTime string;
  (** [tz.to_ambiguous_zoned(datetime)]: whether its offset is a gap, and the
      nanosecond timestamp of [earlier()]. *)
  is_gap : TimeZone → DateTime → bool;
  earlier_ns : TimeZone → DateTime → Result Z string;
}.

(** ** Data ([mod.rs], [field/]) *)

(** [NumberField] and [WeekdayField] are their one field, the set of values. *)
Definition NumberField : Type := gset Z.
Definition WeekdayField : Type := gset Z.

Inductive DayField : Type :=
| MonthDay (days : NumberField)
| LastDay (offsets : gset Z).

Record CalendarSchedule : Type := {
  cal_weekdays : WeekdayField;
  cal_years : NumberField;
  cal_months : NumberField;
  cal_days : DayField;
  cal_hours : NumberField;
  cal_minutes : NumberField;
  cal_seconds : NumberField;
  cal_timezone : option string;
}.

Inductive CalendarParseError : Type :=
| CalEmpty
| CalMissingSchedule
| CalUnknownToken (token : string)
| CalTooManyParts (expression : string)
| CalInvalidField (field value reason : string)
| CalFractionalSecondsUnsupported (value : string)
| CalInvalidTimezone (timezone message : string).

Inductive CalendarNextError : Type :=
| TimestampOutOfRange (value : Z) (message : string)
| CivilTimeOutOfRange (message : string)
| TimezoneUnavailable (timezone message : string)
| NoFutureOccurrence.

(** [Display]. *)
Definition parse_error_text (self : CalendarParseError) : string :=
  match self with
  | CalEmpty => "calendar expression is empty"
  | CalMissingSchedule => "calendar expression has no schedule component"
  | CalUnknownToken token => "unknown calendar token '" +:+ token +:+ "'"
  | CalTooManyParts expression =>
      "calendar expression has too many parts: '" +:+ expression +:+ "'"
  | CalInvalidField field value reason =>
      "invalid " +:+ field +:+ " field '" +:+ value +:+ "': " +:+ reason
  | CalFractionalSecondsUnsupported value =>
      "fractional seconds are not supported in '" +:+ value +:+ "'"
  | CalInvalidTimezone timezone message =>
      "invalid timezone '" +:+ timezone +:+ "': " +:+ message
  end.

(** ** Fields of numbers ([field/number.rs]) *)

(** [(min..=max).collect()]. *)
Definition number_any (min max : Z) : NumberField :=
  foldr set_insert ∅ (seqZ min (max - min + 1)).

Definition split_step (expression field full_expression : string)
    : Result (string * option Z) CalendarParseError :=
  match split_once "/"%char expression with
  | None => Ok (expression, None)
  | Some (base, step) =>
      if str_is_empty base || str_is_empty step || str_contains_char "/"%char step
      then Err (CalInvalidField field full_expression "invalid repetition syntax")
      else
        let? step := ok_or (parse_u16 step) (CalInvalidField field full_expression "invalid step") in
        if step =? 0
        then Err (CalInvalidField field full_expression "step must be greater than zero")
        else Ok (base, Some step)
  end.

Definition parse_number (expression full_expression : string) (min max : Z) (field : string)
    : Result Z CalendarParseError :=
  if str_is_empty expression
  then Err (CalInvalidField field full_expression "number is empty")
  else
    let? value := ok_or (parse_u16 expression)
      (CalInvalidField field full_expression "invalid number") in
    if (value <? min) || (value >? max)
    then Err (CalInvalidField field full_expression "number is out of range")
    else Ok value.

(** [while value <= end { insert; value.checked_add(step) or break }]. *)
Fixpoint ascend (fuel : nat) (value finish step : Z) (values : gset Z) : gset Z :=
  match fuel with
  | O => values
  | S fuel =>
      if value <=? finish then
        let values := set_insert value values in
        if value + step <=? u16_max then ascend fuel (value + step) finish step values else values
      else values
  end.

Definition insert_ascending (start finish step : Z) (values : gset Z) : gset Z :=
  ascend (Z.to_nat (finish - start + 1)) start finish step values.

(** [while value >= end { insert; break if value < end.saturating_add(step);
    value -= step }]. *)
Fixpoint descend (fuel : nat) (value finish step : Z) (values : gset Z) : gset Z :=
  match fuel with
  | O => values
  | S fuel =>
      if value >=? finish then
        let values := set_insert value values in
        if value <? Z.min (finish + step) u16_max then values
        else descend fuel (value - step) finish step values
      else values
  end.

Definition insert_descending (start finish step : Z) (values : gset Z) : gset Z :=
  descend (Z.to_nat (start - finish + 1)) start finish step values.

Definition insert_numeric_part (part expression : string) (min max : Z) (field : string)
    (last_day_offsets : bool) (values : gset Z) : Result (gset Z) CalendarParseError :=
  let? '(base, step) := split_step part field expression in
  let has_step := bool_decide (is_Some step) in
  let? '(start, finish, single) :=
    (if bool_decide (base = "*") then Ok (min, max, false)
     else match split_once_dotdot base with
     | Some (start, finish) =>
         let? start := parse_number start expression min max field in
         let? finish := parse_number finish expression min max field in
         if start >? finish
         then Err (CalInvalidField field expression "range start is after range end")
         else Ok (start, finish, false)
     | None =>
         let? start := parse_number base expression min max field in
         Ok (start, start, true)
     end) in
  let step := default 1 step in
  if last_day_offsets && single && has_step then Ok (insert_descending start min step values)
  else
    let finish := if single && has_step then max else finish in
    Ok (insert_ascending start finish step values).

(** Inserting the parts of a list in turn. *)
Fixpoint insert_parts (field expression : string)
    (insert : string → gset Z → Result (gset Z) CalendarParseError)
    (parts : list string) (values : gset Z) : Result (gset Z) CalendarParseError :=
  match parts with
  | [] => Ok values
  | part :: parts =>
      if str_is_empty part
      then Err (CalInvalidField field expression "list contains an empty item")
      else
        let? values := insert part values in
        insert_parts field expression insert parts values
  end.

Definition parse_values (expression : string) (min max : Z) (field : string)
    (last_day_offsets : bool) : Result (gset Z) CalendarParseError :=
  if str_is_empty expression then Err (CalInvalidField field expression "field is empty")
  else insert_parts field expression
         (λ part, insert_numeric_part part expression min max field last_day_offsets)
         (split_char ","%char expression) ∅.

Definition number_parse (expression : string) (min max : Z) (field : string)
    : Result NumberField CalendarParseError :=
  parse_values expression min max field false.

(** ** Days and weekdays ([field/day.rs], [field/weekday.rs]) *)

Definition day_any : DayField := MonthDay (number_any 1 31).

Definition day_parse (expression : string) : Result DayField CalendarParseError :=
  match strip_prefix "~" expression with
  | Some offsets =>
      if str_is_empty offsets
      then Err (CalInvalidField "day" expression "last-day offset is empty")
      else
        let? offsets := parse_values offsets 1 31 "day" true in
        Ok (LastDay offsets)
  | None =>
      let? days := number_parse expression 1 31 "day" in
      Ok (MonthDay days)
  end.

Definition weekday_any : WeekdayField := number_any 1 7.

Definition weekday_number (name : string) : option Z :=
  if bool_decide (name ∈ ["mon"; "monday"]) then Some 1
  else if bool_decide (name ∈ ["tue"; "tues"; "tuesday"]) then Some 2
  else if bool_decide (name ∈ ["wed"; "wednesday"]) then Some 3
  else if bool_decide (name ∈ ["thu"; "thur"; "thurs"; "thursday"]) then Some 4
  else if bool_decide (name ∈ ["fri"; "friday"]) then Some 5
  else if bool_decide (name ∈ ["sat"; "saturday"]) then Some 6
  else if bool_decide (name ∈ ["sun"; "sunday"]) then Some 7
  else None.

Definition parse_weekday_name (expression full_expression : string) : Result Z CalendarParseError :=
  ok_or (weekday_number (to_ascii_lowercase expression))
    (CalInvalidField "weekday" full_expression "unknown weekday name").

Definition insert_weekday_part (part expression : string) (values : gset Z)
    : Result (gset Z) CalendarParseError :=
  let? '(base, step) := split_step part "weekday" expression in
  let? '(start, finish, single) :=
    (if bool_decide (base = "*") then Ok (1, 7, false)
     else match split_once_dotdot base with
     | Some (start, finish) =>
         let? start := parse_weekday_name start expression in
         let? finish := parse_weekday_name finish expression in
         if start >? finish
         then Err (CalInvalidField "weekday" expression "range start is after range end")
         else Ok (start, finish, false)
     | None =>
         let? start := parse_weekday_name base expression in
         Ok (start, start, true)
     end) in
  let finish := if single && bool_decide (is_Some step) then 7 else finish in
  Ok (insert_ascending start finish (default 1 step) values).

Definition weekday_parse (expression : string) : Result WeekdayField CalendarParseError :=
  if str_is_empty expression then Err (CalInvalidField "weekday" expression "field is empty")
  else insert_parts "weekday" expression (λ part, insert_weekday_part part expression)
         (split_char ","%char expression) ∅.

(** ** Dates and times ([parse/date.rs], [parse/time.rs]) *)

Record DateFields : Type := {
  df_years : NumberField;
  df_months : NumberField;
  df_days : DayField;
}.

Definition date_any : DateFields :=
  {| df_years := number_any 0 9999; df_months := number_any 1 12; df_days := day_any |}.

(** The month, the day and whether the day counts from the end of the month. *)
Definition split_date (expression rest : string)
    : Result (string * string * bool) CalendarParseError :=
  match split_once "~"%char rest with
  | Some (month, day) => Ok (default month (strip_suffix_char "-"%char month), day, true)
  | None =>
      match rsplit_once "-"%char rest with
      | Some (month, day) => Ok (month, day, false)
      | None => Err (CalInvalidField "date" expression "date must contain year, month and day")
      end
  end.

Definition parse_date (expression : string) : Result DateFields CalendarParseError :=
  match split_once "-"%char expression with
  | None => Err (CalUnknownToken expression)
  | Some (year, rest) =>
      let? '(month, day, last_day) := split_date expression rest in
      let day_expression := if (last_day : bool) then "~" +:+ day else day in
      let? years := number_parse year 0 9999 "year" in
      let? months := number_parse month 1 12 "month" in
      let? days := day_parse day_expression in
      Ok {| df_years := years; df_months := months; df_days := days |}
  end.

Record TimeFields : Type := {
  tf_hours : NumberField;
  tf_minutes : NumberField;
  tf_seconds : NumberField;
}.

Definition time_fields (hour minute second : string) : Result TimeFields CalendarParseError :=
  let? hours := number_parse hour 0 23 "hour" in
  let? minutes := number_parse minute 0 59 "minute" in
  let? seconds := number_parse second 0 59 "second" in
  Ok {| tf_hours := hours; tf_minutes := minutes; tf_seconds := seconds |}.

Definition midnight : Result TimeFields CalendarParseError := time_fields "0" "0" "0".

Definition reject_fractions (fields : list string) (expression : string)
    : Result unit CalendarParseError :=
  let has_fraction :=
    existsb (λ field,
      existsb (λ number, existsb (str_contains_char dot) (split_char "/"%char number))
        (split_dotdot field)) fields in
  if has_fraction then Err (CalFractionalSecondsUnsupported expression) else Ok tt.

Definition parse_time (expression : string) : Result TimeFields CalendarParseError :=
  let parts := split_char ":"%char expression in
  let? _ := reject_fractions parts expression in
  match parts with
  | [hour; minute] => time_fields hour minute "0"
  | [hour; minute; second] => time_fields hour minute second
  | _ => Err (CalInvalidField "time" expression
                "time must contain hour:minute or hour:minute:second")
  end.

(** ** Expressions ([parse.rs], [parse/shortcut.rs], [parse/timezone.rs]) *)

Definition shortcut_expression (shortcut : string) : option string :=
  let shortcut := to_ascii_lowercase shortcut in
  if bool_decide (shortcut = "minutely") then Some "*-*-* *:*:00"
  else if bool_decide (shortcut = "hourly") then Some "*-*-* *:00:00"
  else if bool_decide (shortcut = "daily") then Some "*-*-* 00:00:00"
  else if bool_decide (shortcut = "weekly") then Some "Mon *-*-* 00:00:00"
  else if bool_decide (shortcut = "monthly") then Some "*-*-01 00:00:00"
  else if bool_decide (shortcut = "quarterly") then Some "*-01,04,07,10-01 00:00:00"
  else if bool_decide (shortcut = "semiannually") then Some "*-01,07-01 00:00:00"
  else if bool_decide (shortcut ∈ ["annually"; "yearly"]) then Some "*-01-01 00:00:00"
  else None.

Definition expand_shortcut (expression : string) : string * bool :=
  match split_whitespace expression with
  | [] => (expression, false)
  | first :: tokens =>
      match shortcut_expression first with
      | None => (expression, false)
      | Some expanded =>
          match tokens with
          | [] => (expanded, true)
          | [timezone] => (expanded +:+ " " +:+ timezone, true)
          | _ => (expression, false)
          end
      end
  end.

Definition looks_like_weekday (token : string) : bool :=
  bool_decide (token = "*") || is_ok (weekday_parse token).

Definition looks_like_date (token : string) : bool :=
  str_contains_char "-"%char token || str_contains_char "~"%char token.

Definition looks_like_time (token : string) : bool :=
  str_contains_char ":"%char token &&
  match token with
  | EmptyString => false
  | String ch _ => is_ascii_digit ch || Ascii.eqb ch "*"%char
  end.

(** A component of the expression: taken from the next token if that looks like
    one, else the default. The flag is whether a token was taken. *)
Definition take_component {A} (looks_like : string → bool)
    (parse : string → Result A CalendarParseError) (otherwise : Result A CalendarParseError)
    (tokens : list string) : Result (A * list string * bool) CalendarParseError :=
  match tokens with
  | token :: rest =>
      if looks_like token then let? value := parse token in Ok (value, rest, true)
      else let? value := otherwise in Ok (value, tokens, false)
  | [] => let? value := otherwise in Ok (value, tokens, false)
  end.

Section Calendar.
Context `{Jiff}.

Definition validate_timezone (timezone : string) : Result unit CalendarParseError :=
  match timezone_get timezone with
  | Ok _ => Ok tt
  | Err message => Err (CalInvalidTimezone timezone message)
  end.

Definition take_timezone (tokens : list string)
    : Result (option string * list string) CalendarParseError :=
  match tokens with
  | [] => Ok (None, [])
  | timezone :: rest => let? _ := validate_timezone timezone in Ok (Some timezone, rest)
  end.

Definition parse_calendar_schedule (expression : string)
    : Result CalendarSchedule CalendarParseError :=
  let expression := trim expression in
  if str_is_empty expression then Err CalEmpty
  else
    let '(expression, from_shortcut) := expand_shortcut expression in
    match split_whitespace expression with
    | [] => Err CalEmpty
    | tokens =>
        let? '(weekdays, tokens, saw_weekday) :=
          take_component looks_like_weekday weekday_parse (Ok weekday_any) tokens in
        let? '(days, tokens, saw_date) :=
          take_component looks_like_date parse_date (Ok date_any) tokens in
        let? '(time, tokens, saw_time) :=
          take_component looks_like_time parse_time midnight tokens in
        let? '(timezone, tokens) := take_timezone tokens in
        if negb (bool_decide (tokens = [])) then Err (CalTooManyParts expression)
        else if negb (from_shortcut || saw_weekday || saw_date || saw_time)
        then Err CalMissingSchedule
        else Ok {| cal_weekdays := weekdays; cal_years := days.(df_years);
                   cal_months := days.(df_months); cal_days := days.(df_days);
                   cal_hours := time.(tf_hours); cal_minutes := time.(tf_minutes);
                   cal_seconds := time.(tf_seconds); cal_timezone := timezone |}
    end.

(** ** Evaluation ([eval.rs]) *)

Definition SEARCH_HORIZON_DAYS : nat := 3653.

(** [as u16], [as u8] and [as i8] between integers. *)
Definition as_u16 (n : Z) : Z := n mod 65536.
Definition as_u8 (n : Z) : Z := n mod 256.
Definition as_i8 (n : Z) : Z := (n + 128) mod 256 - 128.

Definition resolve_timezone (schedule : CalendarSchedule) : Result TimeZone CalendarNextError :=
  match schedule.(cal_timezone) with
  | Some timezone =>
      match timezone_get timezone with
      | Ok tz => Ok tz
      | Err message => Err (TimezoneUnavailable timezone message)
      end
  | None => Ok timezone_system
  end.

Definition scheduled_seconds_of_day (schedule : CalendarSchedule) : list Z :=
  hour ← btree_elements schedule.(cal_hours);
  minute ← btree_elements schedule.(cal_minutes);
  second ← btree_elements schedule.(cal_seconds);
  [hour * 3600 + minute * 60 + second].

Definition day_matches (self : DayField) (date : Date) : bool :=
  let day := as_u16 (date_day date) in
  match self with
  | MonthDay days => bool_decide (day ∈ days)
  | LastDay offsets =>
      let offset_from_last := as_u16 (date_days_in_month date) - day + 1 in
      bool_decide (offset_from_last ∈ offsets)
  end.

Definition weekday_matches (self : WeekdayField) (weekday : Z) : bool :=
  bool_decide (as_u8 weekday ∈ self).

Definition date_matches (schedule : CalendarSchedule) (date : Date) : bool :=
  bool_decide (as_u16 (date_year date) ∈ schedule.(cal_years)) &&
  bool_decide (as_u16 (date_month date) ∈ schedule.(cal_months)) &&
  day_matches schedule.(cal_days) date &&
  weekday_matches schedule.(cal_weekdays) (date_weekday date).

Definition EPOCH_ERROR (nanos : Z) : string :=
  "candidate timestamp " +:+ pretty nanos +:+ "ns is before the Unix epoch".

Definition candidate_ns (date : Date) (second_of_day : Z) (timezone : TimeZone)
    : Result (option Z) CalendarNextError :=
  let hour := second_of_day / 3600 in
  let minute := (second_of_day mod 3600) / 60 in
  let second := second_of_day mod 60 in
  match datetime_new (date_year date) (date_month date) (date_day date)
          (as_i8 hour) (as_i8 minute) (as_i8 second) with
  | Err message => Err (CivilTimeOutOfRange message)
  | Ok datetime =>
      if is_gap timezone datetime then Ok None
      else match earlier_ns timezone datetime with
      | Err message => Err (CivilTimeOutOfRange message)
      | Ok nanos =>
          if (0 <=? nanos) && (nanos <=? u64_max) then Ok (Some nanos)
          else Err (CivilTimeOutOfRange (EPOCH_ERROR nanos))
      end
  end.

(** The first candidate of a date that is late enough. *)
Fixpoint first_candidate (after_realtime_ns : Z) (date : Date) (timezone : TimeZone)
    (times : list Z) : Result (option Z) CalendarNextError :=
  match times with
  | [] => Ok None
  | second_of_day :: times =>
      let? candidate := candidate_ns date second_of_day timezone in
      match candidate with
      | Some ns =>
          if ns >? after_realtime_ns then Ok (Some ns)
          else first_candidate after_realtime_ns date timezone times
      | None => first_candidate after_realtime_ns date timezone times
      end
  end.

Fixpoint walk_dates (days : nat) (schedule : CalendarSchedule) (after_realtime_ns : Z)
    (date : Date) (timezone : TimeZone) (times : list Z) : Result Z CalendarNextError :=
  match days with
  | O => Err NoFutureOccurrence
  | S days =>
      let? found :=
        (if date_matches schedule date then first_candidate after_realtime_ns date timezone times
         else Ok None) in
      match found with
      | Some ns => Ok ns
      | None =>
          let? date := ok_or (date_tomorrow date) NoFutureOccurrence in
          walk_dates days schedule after_realtime_ns date timezone times
      end
  end.

Definition next_after_ns (schedule : CalendarSchedule) (after_realtime_ns : Z)
    : Result Z CalendarNextError :=
  match from_nanosecond after_realtime_ns with
  | Err message => Err (TimestampOutOfRange after_realtime_ns message)
  | Ok after =>
      let? timezone := resolve_timezone schedule in
      walk_dates SEARCH_HORIZON_DAYS schedule after_realtime_ns (zoned_date after timezone) timezone
        (scheduled_seconds_of_day schedule)
  end.
End Calendar.

(** ** What a list of numbers denotes

    The grammar of the numeric components as the manual states it, printed and
    given its meaning. *)

Inductive PartBase : Type :=
| AnyValue
| OneValue (n : Z)
| ValueRange (a b : Z).

Definition print_base (base : PartBase) : string :=
  match base with
  | AnyValue => "*"
  | OneValue n => u64_to_string n
  | ValueRange a b => u64_to_string a +:+ ".." +:+ u64_to_string b
  end.

Definition print_part (part : PartBase * option Z) : string :=
  match part.2 with
  | None => print_base part.1
  | Some step => print_base part.1 +:+ String "/"%char (u64_to_string step)
  end.

Definition part_ok (min max : Z) (part : PartBase * option Z) : Prop :=
  match part.1 with
  | AnyValue => True
  | OneValue n => min ≤ n ≤ max
  | ValueRange a b => min ≤ a ∧ a ≤ b ∧ b ≤ max
  end ∧ match part.2 with None => True | Some step => 1 ≤ step ≤ u16_max end.

Definition steps_up (start finish step x : Z) : Prop :=
  ∃ k, 0 ≤ k ∧ x = start + k * step ∧ x ≤ finish.
Definition steps_down (start finish step x : Z) : Prop :=
  ∃ k, 0 ≤ k ∧ x = start - k * step ∧ finish ≤ x.

Definition denotes (min max : Z) (last_day_offsets : bool) (part : PartBase * option Z) (x : Z) : Prop :=
  match part with
  | (AnyValue, step) => steps_up min max (default 1 step) x
  | (OneValue n, None) => x = n
  | (OneValue n, Some step) =>
      if last_day_offsets then steps_down n min step x else steps_up n max step x
  | (ValueRange a b, step) => steps_up a b (default 1 step) x
  end.

(** ** The insertion loops *)

Lemma steps_up_next start finish step x :
  1 ≤ step → start ≤ finish →
  steps_up start finish step x ↔ x = start ∨ steps_up (start + step) finish step x.
Proof.
  intros Hs Hf. split.
  - intros (k & Hk & -> & Hx). destruct (decide (k = 0)) as [->|]; [left; lia|].
    right. exists (k - 1). lia.
  - intros [->|(k & Hk & -> & Hx)]; [exists 0; lia|]. exists (k + 1). lia.
Qed.

Lemma steps_up_over start finish step x : 1 ≤ step → finish < start → ¬ steps_up start finish step x.
Proof. intros ? ? (k & ? & -> & ?). nia. Qed.

Lemma steps_down_next start finish step x :
  1 ≤ step → finish ≤ start →
  steps_down start finish step x ↔ x = start ∨ steps_down (start - step) finish step x.
Proof.
  intros Hs Hf. split.
  - intros (k & Hk & -> & Hx). destruct (decide (k = 0)) as [->|]; [left; lia|].
    right. exists (k - 1). lia.
  - intros [->|(k & Hk & -> & Hx)]; [exists 0; lia|]. exists (k + 1). lia.
Qed.

Lemma steps_down_under start finish step x : 1 ≤ step → start < finish → ¬ steps_down start finish step x.
Proof. intros ? ? (k & ? & -> & ?). nia. Qed.

Lemma steps_up_start start finish step : start ≤ finish → steps_up start finish step start.
Proof. exists 0. lia. Qed.

Lemma steps_down_start start finish step : finish ≤ start → steps_down start finish step start.
Proof. exists 0. lia. Qed.

Lemma elem_of_ascend fuel value finish step values x :
  1 ≤ step → finish ≤ u16_max → finish - value + 1 ≤ Z.of_nat fuel →
  x ∈ ascend fuel value finish step values ↔ x ∈ values ∨ steps_up value finish step x.
Proof.
  intros Hs Hf. revert value values. induction fuel as [|fuel IH]; intros value values Hfuel; cbn [ascend].
  { pose proof (steps_up_over value finish step x Hs ltac:(lia)). tauto. }
  destruct (value <=? finish) eqn:E.
  2:{ pose proof (steps_up_over value finish step x Hs ltac:(lia)). tauto. }
  rewrite (steps_up_next value) by lia. destruct (value + step <=? u16_max) eqn:E'.
  - rewrite IH, elem_of_set_insert by lia. tauto.
  - pose proof (steps_up_over (value + step) finish step x Hs ltac:(lia)).
    rewrite elem_of_set_insert. tauto.
Qed.

Lemma elem_of_descend fuel value finish step values x :
  1 ≤ step → value ≤ u16_max → value - finish + 1 ≤ Z.of_nat fuel →
  x ∈ descend fuel value finish step values ↔ x ∈ values ∨ steps_down value finish step x.
Proof.
  intros Hs. revert value values. induction fuel as [|fuel IH]; intros value values Hv Hfuel; cbn [descend].
  { pose proof (steps_down_under value finish step x Hs ltac:(lia)). tauto. }
  destruct (value >=? finish) eqn:E.
  2:{ pose proof (steps_down_under value finish step x Hs ltac:(lia)). tauto. }
  rewrite (steps_down_next value) by lia. destruct (value <? Z.min (finish + step) u16_max) eqn:E'.
  - pose proof (steps_down_under (value - step) finish step x Hs ltac:(lia)).
    rewrite elem_of_set_insert. tauto.
  - rewrite IH, elem_of_set_insert by lia. tauto.
Qed.

Lemma elem_of_insert_ascending start finish step values x :
  1 ≤ step → finish ≤ u16_max →
  x ∈ insert_ascending start finish step values ↔ x ∈ values ∨ steps_up start finish step x.
Proof. intros. apply elem_of_ascend; lia. Qed.

Lemma elem_of_insert_descending start finish step values x :
  1 ≤ step → start ≤ u16_max →
  x ∈ insert_descending start finish step values ↔ x ∈ values ∨ steps_down start finish step x.
Proof. intros. apply elem_of_descend; lia. Qed.

(** ** Reading printed parts *)

Lemma number_chars p n :
  (∀ c, is_ascii_digit c = true → p c = true) → str_all p (u64_to_string n) = true.
Proof. intros Hp. eapply str_all_impl; [exact Hp|]. apply u64_to_string_digits. Qed.

Lemma digit_is_not c : is_ascii_digit c = false → ∀ d, is_ascii_digit d = true → negb (Ascii.eqb d c) = true.
Proof. intros. by apply is_ascii_digit_not. Qed.

Lemma base_chars c base :
  is_ascii_digit c = false → c ≠ "*"%char → c ≠ "."%char →
  str_all (λ d, negb (Ascii.eqb d c)) (print_base base) = true.
Proof.
  intros Hc Hs Hd. pose proof (digit_is_not c Hc) as Hdig. destruct base as [|n|a b];
    cbn [print_base].
  - cbn [str_all]. destruct (Ascii.eqb_spec "*" c); [congruence|done].
  - by apply number_chars.
  - rewrite !str_all_app, !number_chars by done. cbn [str_all].
    by destruct (Ascii.eqb_spec "." c); [congruence|].
Qed.

Lemma base_nonempty base : str_is_empty (print_base base) = false.
Proof.
  destruct base as [|n|a b]; simpl; [done|apply u64_to_string_nonempty|].
  pose proof (u64_to_string_nonempty a). by destruct (u64_to_string a).
Qed.

Lemma split_step_printed part field full :
  (match part.2 with None => True | Some step => 1 ≤ step ≤ u16_max end) →
  split_step (print_part part) field full = Ok (print_base part.1, part.2).
Proof.
  destruct part as [base [step|]]; unfold split_step, print_part; cbn [fst snd]; intros Hs.
  - rewrite split_once_app by (by apply base_chars). rewrite base_nonempty, u64_to_string_nonempty.
    unfold str_contains_char. rewrite number_chars by (by apply digit_is_not). simpl.
    rewrite parse_u16_to_string by lia. simpl. by rewrite (proj2 (Z.eqb_neq _ _)) by lia.
  - by rewrite (proj2 (split_once_None _ _) (base_chars "/" base eq_refl ltac:(done) ltac:(done))).
Qed.

Lemma parse_number_printed n full min max field :
  0 ≤ min → max ≤ u16_max → min ≤ n ≤ max → parse_number (u64_to_string n) full min max field = Ok n.
Proof.
  intros. unfold parse_number. rewrite u64_to_string_nonempty, parse_u16_to_string by lia. simpl.
  by rewrite (proj2 (Z.ltb_ge n min)), Z.gtb_ltb, (proj2 (Z.ltb_ge max n)) by lia.
Qed.

Lemma number_not_star n : u64_to_string n ≠ "*".
Proof. intros E. pose proof (u64_to_string_digits n) as H. by rewrite E in H. Qed.

Lemma number_no_dot n : str_all (λ d, negb (Ascii.eqb d dot)) (u64_to_string n) = true.
Proof. by apply number_chars, digit_is_not. Qed.

Lemma insert_printed_part part expression min max field last values :
  0 ≤ min ≤ max → max ≤ u16_max → part_ok min max part →
  ∃ values', insert_numeric_part (print_part part) expression min max field last values = Ok values' ∧
    ∀ x, x ∈ values' ↔ x ∈ values ∨ denotes min max last part x.
Proof.
  intros Hmin Hmax [Hb Hs]. unfold insert_numeric_part. rewrite split_step_printed by done.
  destruct part as [base step]. cbn [fst snd] in *.
  assert (1 ≤ default 1 step) by (destruct step; simpl; lia).
  destruct base as [|n|a b]; cbn [print_base].
  - rewrite bool_decide_eq_true_2 by done. rewrite andb_false_r. cbn [andb].
    eexists. split; [done|]. intros x. by apply elem_of_insert_ascending.
  - rewrite bool_decide_eq_false_2 by apply number_not_star.
    rewrite split_once_dotdot_None by apply number_no_dot.
    rewrite parse_number_printed by lia. rewrite andb_true_r.
    destruct step as [step|]; cbn [default].
    + rewrite bool_decide_eq_true_2 by done. rewrite andb_true_r. destruct last; cbn [andb].
      * eexists. split; [done|]. intros x. rewrite elem_of_insert_descending by (simpl in *; lia). done.
      * eexists. split; [done|]. intros x. rewrite elem_of_insert_ascending by (simpl in *; lia). done.
    + rewrite bool_decide_eq_false_2 by (by intros [? ?]). rewrite andb_false_r. cbn [andb].
      eexists. split; [done|]. intros x. rewrite elem_of_insert_ascending by lia. simpl.
      rewrite steps_up_next by lia. pose proof (steps_up_over (n + 1) n 1 x ltac:(lia) ltac:(lia)). tauto.
  - rewrite bool_decide_eq_false_2.
    2:{ intros E. pose proof (u64_to_string_digits a) as Hd. pose proof (u64_to_string_nonempty a).
        destruct (u64_to_string a) as [|c s]; [done|]. injection E as -> _.
        apply andb_true_iff in Hd as [Hd _]. by vm_compute in Hd. }
    rewrite split_once_dotdot_app by apply number_no_dot. rewrite !parse_number_printed by lia.
    rewrite Z.gtb_ltb, (proj2 (Z.ltb_ge b a)) by lia. rewrite andb_false_r. cbn [andb].
    eexists. split; [done|]. intros x. by apply elem_of_insert_ascending; [|lia].
Qed.

Lemma split_char_join c pieces :
  pieces ≠ [] → Forall (λ p, str_all (λ d, negb (Ascii.eqb d c)) p = true) pieces →
  split_char c (str_join (String c "") pieces) = pieces.
Proof.
  intros Hne Hall. induction Hall as [|p pieces Hp Hall IH]; [done|]. destruct pieces as [|q pieces].
  - by apply split_char_none.
  - change (str_join (String c "") (p :: q :: pieces))
      with (p +:+ String c (str_join (String c "") (q :: pieces))).
    rewrite split_char_app by done. f_equal. by apply IH.
Qed.

Lemma part_chars part : str_all (λ d, negb (Ascii.eqb d ","%char)) (print_part part) = true.
Proof.
  unfold print_part. destruct part as [base [step|]]; cbn [fst snd]; [|by apply base_chars].
  rewrite str_all_app, base_chars by done. cbn [str_all]. by rewrite number_chars by (by apply digit_is_not).
Qed.

Lemma part_nonempty part : str_is_empty (print_part part) = false.
Proof.
  unfold print_part. pose proof (base_nonempty part.1). destruct (part.2); [|done].
  by destruct (print_base part.1).
Qed.

Lemma insert_printed_parts parts expression min max field last values :
  0 ≤ min ≤ max → max ≤ u16_max → Forall (part_ok min max) parts →
  ∃ values', insert_parts field expression
      (λ part, insert_numeric_part part expression min max field last) (map print_part parts) values
    = Ok values' ∧
    ∀ x, x ∈ values' ↔ x ∈ values ∨ ∃ part, part ∈ parts ∧ denotes min max last part x.
Proof.
  intros Hmin Hmax Hall. revert values. induction Hall as [|p parts Hp Hall IH]; intros values; simpl.
  { exists values. split; [done|]. intros x. setoid_rewrite elem_of_nil. naive_solver. }
  rewrite part_nonempty.
  destruct (insert_printed_part p expression min max field last values) as (v1 & -> & H1); [done..|].
  destruct (IH v1) as (v2 & -> & H2). exists v2. split; [done|].
  intros x. rewrite H2, H1. setoid_rewrite elem_of_cons. naive_solver.
Qed.

(** ** Parsed fields are in range *)

Definition field_wf (min max : Z) (values : gset Z) : Prop :=
  values ≠ ∅ ∧ ∀ x, x ∈ values → min ≤ x ≤ max.

Lemma split_step_Ok part field full base step :
  split_step part field full = Ok (base, step) → 1 ≤ default 1 step ≤ u16_max.
Proof.
  unfold split_step. destruct (split_once _ part) as [[b s]|]; [|by intros [= <- <-]].
  destruct (_ || _); [done|]. destruct (parse_u16 s) as [n|] eqn:E; simpl; [|done].
  apply parse_u16_range in E. destruct (n =? 0) eqn:E0; [done|]. intros [= <- <-]. simpl. lia.
Qed.

Lemma parse_number_Ok s full min max field n :
  parse_number s full min max field = Ok n → min ≤ n ≤ max.
Proof.
  unfold parse_number. destruct (str_is_empty s); [done|]. destruct (parse_u16 s) as [m|]; simpl; [|done].
  destruct ((m <? min) || (m >? max)) eqn:E; [done|]. intros [= <-].
  apply orb_false_iff in E as [? ?]. lia.
Qed.

(** The two inserters add something, and only what is in range. *)
Lemma insert_ascending_wf min max start finish step values :
  1 ≤ step → min ≤ start → start ≤ finish → finish ≤ max → max ≤ u16_max →
  (∀ x, x ∈ values → min ≤ x ≤ max) → field_wf min max (insert_ascending start finish step values).
Proof.
  intros Hs Hmin Hf Hmax Hu Hv. split.
  - intros E. assert (start ∈ insert_ascending start finish step values) as Hin; [|by rewrite E in Hin].
    apply elem_of_insert_ascending; [lia..|]. right. by apply steps_up_start.
  - intros x [?|(k & ? & -> & ?)]%elem_of_insert_ascending; first [by auto|lia|nia].
Qed.

Lemma insert_descending_wf min max start step values :
  1 ≤ step → min ≤ start ≤ max → max ≤ u16_max →
  (∀ x, x ∈ values → min ≤ x ≤ max) → field_wf min max (insert_descending start min step values).
Proof.
  intros Hs Hmin Hu Hv. split.
  - intros E. assert (start ∈ insert_descending start min step values) as Hin; [|by rewrite E in Hin].
    apply elem_of_insert_descending; [lia..|]. right. apply steps_down_start. lia.
  - intros x [?|(k & ? & -> & ?)]%elem_of_insert_descending; first [by auto|lia|nia].
Qed.

Lemma insert_numeric_part_wf part expression min max field last values values' :
  min ≤ max → max ≤ u16_max → (∀ x, x ∈ values → min ≤ x ≤ max) →
  insert_numeric_part part expression min max field last values = Ok values' →
  field_wf min max values'.
Proof.
  intros Hmm Hu Hv. unfold insert_numeric_part.
  destruct (split_step part field expression) as [[base step]|] eqn:Es; [|done].
  apply split_step_Ok in Es.
  match goal with |- match ?e with _ => _ end = _ → _ => destruct e as [[[start finish] single]|] eqn:Eb end;
    [|done].
  assert (min ≤ start ≤ max ∧ (if single then finish = start else start ≤ finish ≤ max)) as Hr.
  { destruct (bool_decide (base = "*")); [injection Eb as <- <- <-; lia|].
    destruct (split_once_dotdot base) as [[a b]|].
    - destruct (parse_number a _ _ _ _) as [sa|] eqn:Ea; [|done].
      destruct (parse_number b _ _ _ _) as [sb|] eqn:Eb'; [|done].
      apply parse_number_Ok in Ea, Eb'. destruct (sa >? sb) eqn:Eg; [done|].
      injection Eb as <- <- <-. lia.
    - destruct (parse_number base _ _ _ _) as [sa|] eqn:Ea; [|done].
      apply parse_number_Ok in Ea. by injection Eb as <- <- <-. }
  destruct (last && single && bool_decide (is_Some step)).
  - intros [= <-]. apply insert_descending_wf; try done; lia.
  - intros [= <-]. apply insert_ascending_wf; try done; destruct single, (bool_decide (is_Some step)); simpl; lia.
Qed.

Lemma insert_parts_wf min max field expression insert parts values values' :
  (∀ part values values', (∀ x, x ∈ values → min ≤ x ≤ max) →
     insert part values = Ok values' → field_wf min max values') →
  parts ≠ [] → (∀ x, x ∈ values → min ≤ x ≤ max) →
  insert_parts field expression insert parts values = Ok values' → field_wf min max values'.
Proof.
  intros Hins. revert values. induction parts as [|p parts IH]; intros values Hne Hv; simpl; [done|].
  destruct (str_is_empty p); [done|]. destruct (insert p values) as [v1|] eqn:E; [|done].
  apply Hins in E; [|done]. destruct parts as [|q parts]; [by intros [= <-]|].
  apply IH; [done|apply E].
Qed.

Lemma split_char_nonempty c s : split_char c s ≠ [].
Proof.
  induction s as [|d s IH]; simpl; [done|]. destruct (Ascii.eqb d c); [done|].
  by destruct (split_char c s).
Qed.

Lemma parse_values_wf expression min max field last values :
  min ≤ max → max ≤ u16_max → parse_values expression min max field last = Ok values →
  field_wf min max values.
Proof.
  intros Hmm Hu. unfold parse_values. destruct (str_is_empty expression); [done|].
  apply insert_parts_wf; [|apply split_char_nonempty|set_solver].
  intros part v v' Hv. by apply insert_numeric_part_wf.
Qed.

Lemma number_any_wf min max : min ≤ max → field_wf min max (number_any min max).
Proof.
  assert (∀ (l : list Z) x, x ∈ (foldr set_insert ∅ l : gset Z) ↔ x ∈ l) as Hl.
  { induction l as [|y l IH]; intros x; simpl; [set_solver|].
    by rewrite elem_of_set_insert, elem_of_cons, IH. }
  intros Hm. unfold number_any. split.
  - apply (non_empty_inhabited_L min), Hl, elem_of_seqZ. lia.
  - intros x Hx%Hl%elem_of_seqZ. lia.
Qed.

Lemma weekday_name_Ok s full n : parse_weekday_name s full = Ok n → 1 ≤ n ≤ 7.
Proof.
  unfold parse_weekday_name, weekday_number. repeat case_bool_decide; simpl; intros [= <-]; lia.
Qed.

Lemma insert_weekday_part_wf part expression values values' :
  (∀ x, x ∈ values → 1 ≤ x ≤ 7) →
  insert_weekday_part part expression values = Ok values' → field_wf 1 7 values'.
Proof.
  intros Hv. unfold insert_weekday_part.
  destruct (split_step part "weekday" expression) as [[base step]|] eqn:Es; [|done].
  apply split_step_Ok in Es.
  match goal with |- match ?e with _ => _ end = _ → _ => destruct e as [[[start finish] single]|] eqn:Eb end;
    [|done].
  assert (1 ≤ start ≤ 7 ∧ start ≤ finish ≤ 7) as Hr.
  { destruct (bool_decide (base = "*")); [injection Eb as <- <- <-; lia|].
    destruct (split_once_dotdot base) as [[a b]|].
    - destruct (parse_weekday_name a _) as [sa|] eqn:Ea; [|done].
      destruct (parse_weekday_name b _) as [sb|] eqn:Eb'; [|done].
      apply weekday_name_Ok in Ea, Eb'. destruct (sa >? sb) eqn:Eg; [done|].
      injection Eb as <- <- <-. lia.
    - destruct (parse_weekday_name base _) as [sa|] eqn:Ea; [|done].
      apply weekday_name_Ok in Ea. injection Eb as <- <- <-. lia. }
  intros [= <-]. apply insert_ascending_wf; try done; unfold u16_max in *;
    destruct (single && bool_decide (is_Some step)); lia.
Qed.

Lemma weekday_parse_wf expression values : weekday_parse expression = Ok values → field_wf 1 7 values.
Proof.
  unfold weekday_parse. destruct (str_is_empty expression); [done|].
  apply insert_parts_wf; [|apply split_char_nonempty|set_solver].
  intros part v v'. apply insert_weekday_part_wf.
Qed.

Definition day_wf (days : DayField) : Prop :=
  match days with MonthDay days => field_wf 1 31 days | LastDay offsets => field_wf 1 31 offsets end.

Lemma day_parse_wf expression days : day_parse expression = Ok days → day_wf days.
Proof.
  unfold day_parse, number_parse. destruct (strip_prefix "~" expression) as [offsets|].
  - destruct (str_is_empty offsets); [done|].
    destruct (parse_values offsets 1 31 "day" true) as [v|] eqn:E; [|done]. intros [= <-].
    by apply parse_values_wf in E.
  - destruct (parse_values expression 1 31 "day" false) as [v|] eqn:E; [|done]. intros [= <-].
    by apply parse_values_wf in E.
Qed.

Record date_wf (d : DateFields) : Prop := {
  dw_years : field_wf 0 9999 d.(df_years);
  dw_months : field_wf 1 12 d.(df_months);
  dw_days : day_wf d.(df_days);
}.

Lemma parse_date_wf expression d : parse_date expression = Ok d → date_wf d.
Proof.
  unfold parse_date, number_parse. destruct (split_once _ _) as [[year rest]|]; [|done].
  destruct (split_date expression rest) as [[[month day] last]|]; [|done].
  destruct (parse_values year _ _ _ _) as [y|] eqn:Ey; [|done].
  destruct (parse_values month _ _ _ _) as [m|] eqn:Em; [|done].
  destruct (day_parse _) as [ds|] eqn:Ed; [|done]. intros [= <-].
  split; simpl; [by apply parse_values_wf in Ey|by apply parse_values_wf in Em|by apply day_parse_wf in Ed].
Qed.

Record time_wf (t : TimeFields) : Prop := {
  tw_hours : field_wf 0 23 t.(tf_hours);
  tw_minutes : field_wf 0 59 t.(tf_minutes);
  tw_seconds : field_wf 0 59 t.(tf_seconds);
}.

Lemma time_fields_wf hour minute second t : time_fields hour minute second = Ok t → time_wf t.
Proof.
  unfold time_fields, number_parse.
  destruct (parse_values hour _ _ _ _) as [h|] eqn:Eh; [|done].
  destruct (parse_values minute _ _ _ _) as [m|] eqn:Em; [|done].
  destruct (parse_values second _ _ _ _) as [s|] eqn:Es; [|done]. intros [= <-].
  split; simpl; [by apply parse_values_wf in Eh|by apply parse_values_wf in Em|by apply parse_values_wf in Es].
Qed.

Lemma parse_time_wf expression t : parse_time expression = Ok t → time_wf t.
Proof.
  unfold parse_time. destruct (reject_fractions _ _); [|done].
  destruct (split_char _ _) as [|h [|m [|s []]]]; try done; apply time_fields_wf.
Qed.

Lemma take_component_Ok {A} looks_like parse otherwise tokens (v : A) rest taken (P : A → Prop) :
  (∀ token v, parse token = Ok v → P v) → (∀ v, otherwise = Ok v → P v) →
  take_component looks_like parse otherwise tokens = Ok (v, rest, taken) → P v.
Proof.
  intros Hp Ho. unfold take_component. destruct tokens as [|token tokens].
  - destruct otherwise; [|done]. intros [= <- _ _]. auto.
  - destruct (looks_like token).
    + destruct (parse token) eqn:E; [|done]. intros [= <- _ _]. eauto.
    + destruct otherwise; [|done]. intros [= <- _ _]. auto.
Qed.

(** ** The times of a day *)

Record schedule_wf (s : CalendarSchedule) : Prop := {
  sw_weekdays : field_wf 1 7 s.(cal_weekdays);
  sw_years : field_wf 0 9999 s.(cal_years);
  sw_months : field_wf 1 12 s.(cal_months);
  sw_days : day_wf s.(cal_days);
  sw_hours : field_wf 0 23 s.(cal_hours);
  sw_minutes : field_wf 0 59 s.(cal_minutes);
  sw_seconds : field_wf 0 59 s.(cal_seconds);
}.

Lemma parse_schedule_wf `{Jiff} expression schedule :
  parse_calendar_schedule expression = Ok schedule → schedule_wf schedule.
Proof.
  unfold parse_calendar_schedule. destruct (str_is_empty _); [done|].
  destruct (expand_shortcut _) as [expr shortcut].
  destruct (split_whitespace expr) as [|token tokens]; [done|].
  destruct (take_component looks_like_weekday _ _ _) as [[[w t1] s1]|] eqn:Ew; [|done].
  destruct (take_component looks_like_date _ _ _) as [[[d t2] s2]|] eqn:Ed; [|done].
  destruct (take_component looks_like_time _ _ _) as [[[t t3] s3]|] eqn:Et; [|done].
  destruct (take_timezone _) as [[tz t4]|]; [|done].
  destruct (negb (bool_decide _)); [done|]. destruct (negb _); [done|]. intros [= <-].
  apply (take_component_Ok _ _ _ _ _ _ _ (field_wf 1 7)) in Ew.
  2:{ apply weekday_parse_wf. } 2:{ intros v [= <-]. by apply number_any_wf. }
  apply (take_component_Ok _ _ _ _ _ _ _ date_wf) in Ed as [? ? ?].
  2:{ apply parse_date_wf. } 2:{ intros v [= <-]. split; simpl; apply number_any_wf; lia. }
  apply (take_component_Ok _ _ _ _ _ _ _ time_wf) in Et as [? ? ?].
  2:{ apply parse_time_wf. } 2:{ apply time_fields_wf. }
  by split.
Qed.

Lemma sorted_bind (f : Z → list Z) (lo width : Z) (xs : list Z) :
  0 ≤ width → StronglySorted Z.lt xs →
  (∀ x, x ∈ xs → StronglySorted Z.lt (f x) ∧ ∀ y, y ∈ f x → lo + x * width ≤ y < lo + x * width + width) →
  StronglySorted Z.lt (xs ≫= f).
Proof.
  intros Hw Hs. induction Hs as [|x xs Hxs IH Hx]; intros Hf; simpl; [constructor|].
  destruct (Hf x ltac:(left)) as [Hsx Hrx]. apply StronglySorted_app. split_and!; [|done|].
  - intros y z Hy (x' & Hz & Hx')%list_elem_of_bind.
    rewrite Forall_forall in Hx. specialize (Hx x' Hx').
    destruct (Hf x' ltac:(by right)) as [_ Hr']. specialize (Hrx y Hy). specialize (Hr' z Hz). nia.
  - apply IH. intros x' ?. apply Hf. by right.
Qed.

Lemma btree_elements_lt (s : gset Z) : StronglySorted Z.lt (btree_elements s).
Proof.
  assert (StronglySorted btree_le (btree_elements s)) as Hs by apply (StronglySorted_merge_sort _).
  pose proof (NoDup_btree_elements s) as Hn. induction Hs as [|x l Hl IH Hx]; [constructor|].
  apply NoDup_cons in Hn as [Hx' Hn]. constructor; [auto|]. rewrite Forall_forall in *.
  intros y Hy. specialize (Hx y Hy). simpl in Hx. assert (x ≠ y) by (by intros ->). lia.
Qed.

Lemma elem_of_times s t :
  schedule_wf s →
  t ∈ scheduled_seconds_of_day s ↔
  0 ≤ t < 86400 ∧ t / 3600 ∈ s.(cal_hours) ∧ (t mod 3600) / 60 ∈ s.(cal_minutes) ∧
  t mod 60 ∈ s.(cal_seconds).
Proof.
  intros [_ _ _ _ [_ Hh] [_ Hm] [_ Hs]]. unfold scheduled_seconds_of_day.
  rewrite list_elem_of_bind. setoid_rewrite list_elem_of_bind. setoid_rewrite list_elem_of_bind.
  setoid_rewrite list_elem_of_singleton. setoid_rewrite elem_of_btree_elements. split.
  - intros (h & (m & (sec & -> & Hsec) & Hmin) & Hhour).
    specialize (Hh h Hhour). specialize (Hm m Hmin). specialize (Hs sec Hsec).
    assert ((h * 3600 + m * 60 + sec) / 3600 = h) as ->
      by (symmetry; apply (Z.div_unique _ _ _ (m * 60 + sec)); lia).
    assert ((h * 3600 + m * 60 + sec) mod 3600 = m * 60 + sec) as ->
      by (symmetry; apply (Z.mod_unique _ _ h); lia).
    assert ((m * 60 + sec) / 60 = m) as -> by (symmetry; apply (Z.div_unique _ _ _ sec); lia).
    assert ((h * 3600 + m * 60 + sec) mod 60 = sec) as ->
      by (symmetry; apply (Z.mod_unique _ _ (h * 60 + m)); lia).
    split_and!; try done; lia.
  - intros (Ht & Hhour & Hmin & Hsec). exists (t / 3600). split; [|done].
    exists ((t mod 3600) / 60). split; [|done]. exists (t mod 60). split; [|done].
    pose proof (Z.div_mod t 3600). pose proof (Z.div_mod (t mod 3600) 60).
    assert ((t mod 3600) mod 60 = t mod 60).
    { apply (Z.mod_unique _ _ (t / 3600 * 60 + (t mod 3600) / 60)); [|lia].
      left. apply Z.mod_pos_bound. lia. }
    lia.
Qed.

Lemma times_sorted s : schedule_wf s → StronglySorted Z.lt (scheduled_seconds_of_day s).
Proof.
  intros [_ _ _ _ [_ Hh] [_ Hm] [_ Hs]]. unfold scheduled_seconds_of_day.
  assert (∀ h m, StronglySorted Z.lt (btree_elements (cal_seconds s) ≫= λ sec, [h * 3600 + m * 60 + sec]))
    as Hsec.
  { intros h m. apply (sorted_bind _ (h * 3600 + m * 60) 1); [lia|apply btree_elements_lt|].
    intros x _. split; [repeat constructor|]. intros y ->%list_elem_of_singleton. lia. }
  assert (∀ h, StronglySorted Z.lt (btree_elements (cal_minutes s) ≫= λ m,
    btree_elements (cal_seconds s) ≫= λ sec, [h * 3600 + m * 60 + sec])) as Hmin.
  { intros h. apply (sorted_bind _ (h * 3600) 60); [lia|apply btree_elements_lt|].
    intros m _. split; [auto|]. intros y (sec & ->%list_elem_of_singleton & Hin)%list_elem_of_bind.
    apply elem_of_btree_elements, Hs in Hin. lia. }
  apply (sorted_bind _ 0 3600); [lia|apply btree_elements_lt|]. intros h _. split; [auto|].
  intros y (m & (sec & ->%list_elem_of_singleton & Hin)%list_elem_of_bind & Hin')%list_elem_of_bind.
  apply elem_of_btree_elements, Hs in Hin. apply elem_of_btree_elements, Hm in Hin'. lia.
Qed.

Lemma as_i8_small n : 0 ≤ n < 128 → as_i8 n = n.
Proof. intros. unfold as_i8. rewrite Z.mod_small; lia. Qed.

(** ** The search *)

Section Search.
Context `{Jiff} (schedule : CalendarSchedule) (after : Z) (tz : TimeZone).

Fixpoint date_after (days : nat) (date : Date) : option Date :=
  match days with O => Some date | S days => date ← date_tomorrow date; date_after days date end.

(** A scheduled second that does not fire after [after]: it falls in a gap of
    the clock, or is not later. *)
Definition does_not_fire (date : Date) (second_of_day : Z) : Prop :=
  ∃ candidate, candidate_ns date second_of_day tz = Ok candidate ∧
    match candidate with Some ns => ns ≤ after | None => True end.

Definition nothing_fires (times : list Z) (date : Date) : Prop :=
  date_matches schedule date = true → Forall (does_not_fire date) times.

Lemma first_candidate_spec date times :
  match first_candidate after date tz times with
  | Ok (Some ns) => after < ns ∧ ∃ pre t suf, times = pre ++ t :: suf ∧
      candidate_ns date t tz = Ok (Some ns) ∧ Forall (does_not_fire date) pre
  | Ok None => Forall (does_not_fire date) times
  | Err e => e ≠ NoFutureOccurrence
  end.
Proof.
  induction times as [|t times IH]; simpl; [constructor|].
  destruct (candidate_ns date t tz) as [[ns|]|e] eqn:Ec.
  - rewrite Z.gtb_ltb. destruct (after <? ns) eqn:En.
    { split; [lia|]. exists [], t, times. by split_and!. }
    assert (does_not_fire date t) as Ht by (exists (Some ns); split; [done|lia]).
    destruct (first_candidate after date tz times) as [[ns'|]|e]; [|by constructor|done].
    destruct IH as (? & pre & t' & suf & -> & ? & ?). split; [done|]. exists (t :: pre), t', suf.
    split_and!; [done|done|by constructor].
  - assert (does_not_fire date t) as Ht by (by exists None).
    destruct (first_candidate after date tz times) as [[ns'|]|e]; [|by constructor|done].
    destruct IH as (? & pre & t' & suf & -> & ? & ?). split; [done|]. exists (t :: pre), t', suf.
    split_and!; [done|done|by constructor].
  - intros ->. unfold candidate_ns in Ec. destruct (datetime_new _ _ _ _ _ _); [|done].
    destruct (is_gap _ _); [done|]. destruct (earlier_ns _ _); [|done]. by destruct (_ && _).
Qed.

Lemma walk_dates_spec days date times :
  match walk_dates days schedule after date tz times with
  | Ok ns => after < ns ∧ ∃ k d pre t suf,
      (k < days)%nat ∧ date_after k date = Some d ∧ date_matches schedule d = true ∧
      times = pre ++ t :: suf ∧ candidate_ns d t tz = Ok (Some ns) ∧ Forall (does_not_fire d) pre ∧
      ∀ j d', (j < k)%nat → date_after j date = Some d' → nothing_fires times d'
  | Err NoFutureOccurrence =>
      ∀ j d', (j < days)%nat → date_after j date = Some d' → nothing_fires times d'
  | Err _ => True
  end.
Proof.
  revert date. induction days as [|days IH]; intros date; cbn [walk_dates]; [lia|].
  pose proof (first_candidate_spec date times) as Hs.
  set (found := if date_matches schedule date then first_candidate after date tz times else Ok None).
  assert (match found with
          | Ok (Some ns) => date_matches schedule date = true ∧ first_candidate after date tz times = Ok (Some ns)
          | Ok None => nothing_fires times date
          | Err e => e ≠ NoFutureOccurrence
          end) as Hf.
  { unfold found, nothing_fires. destruct (date_matches schedule date); [|done].
    destruct (first_candidate after date tz times) as [[ns|]|e]; by try split. }
  clearbody found. destruct found as [[ns|]|e]; [| |by destruct e].
  { destruct Hf as [Hm Ef]. rewrite Ef in Hs. destruct Hs as (Hns & pre & t & suf & -> & Hc & Hpre).
    split; [done|]. exists O, date, pre, t, suf. split_and!; try done; lia. }
  clear Hs. destruct (date_tomorrow date) as [d1|] eqn:Et; simpl.
  2:{ intros [|j] d' _ Hd'; simpl in Hd'; [by injection Hd' as <-|by rewrite Et in Hd']. }
  specialize (IH d1). destruct (walk_dates days schedule after d1 tz times) as [ns|e].
  - destruct IH as (Hns & k & d & pre & t & suf & Hk & Hd & Hm & Ht & Hc & Hpre & Hearlier).
    split; [done|]. exists (S k), d, pre, t, suf. simpl. rewrite Et. split_and!; try done; [lia|].
    intros [|j] d' Hj Hd'; simpl in Hd'; [by injection Hd' as <-|].
    rewrite Et in Hd'. apply (Hearlier j); [lia|done].
  - destruct e; try done. intros [|j] d' Hj Hd'; simpl in Hd'; [by injection Hd' as <-|].
    rewrite Et in Hd'. apply (IH j); [lia|done].
Qed.
End Search.

(** ** The calendar as validation uses it *)

(** What validation asks of a calendar: the text of the error that parsing a
    schedule gives, if it gives one. *)
Class CalendarSyntax : Type := schedule_error : string → option string.

#[export] Instance calendar_syntax `{Jiff} : CalendarSyntax := λ schedule,
  match parse_calendar_schedule schedule with
  | Ok _ => None
  | Err error => Some (parse_error_text error)
  end.

(** ** A concrete civil calendar

    The proleptic Gregorian calendar in UTC, with dates as days since the
    epoch: an instance of [Jiff] to evaluate schedules with. *)

Module Utc.
Definition civil_from_days (days : Z) : Z * Z * Z :=
  let z := days + 719468 in
  let era := z / 146097 in
  let doe := z mod 146097 in
  let yoe := (doe - doe / 1460 + doe / 36524 - doe / 146096) / 365 in
  let doy := doe - (365 * yoe + yoe / 4 - yoe / 100) in
  let mp := (5 * doy + 2) / 153 in
  let day := doy - (153 * mp + 2) / 5 + 1 in
  let month := if mp <? 10 then mp + 3 else mp - 9 in
  (yoe + era * 400 + (if month <=? 2 then 1 else 0), month, day).

Definition days_from_civil (year month day : Z) : Z :=
  let y := if month <=? 2 then year - 1 else year in
  let era := y / 400 in
  let yoe := y mod 400 in
  let mp := (month + 9) mod 12 in
  let doy := (153 * mp + 2) / 5 + day - 1 in
  let doe := yoe * 365 + yoe / 4 - yoe / 100 + doy in
  era * 146097 + doe - 719468.

Definition next_month (year month : Z) : Z * Z :=
  if month =? 12 then (year + 1, 1) else (year, month + 1).

Definition days_in_month (days : Z) : Z :=
  let '(year, month, _) := civil_from_days days in
  let '(year', month') := next_month year month in
  days_from_civil year' month' 1 - days_from_civil year month 1.

Definition nanos_per_second : Z := 1000000000.

Definition nanos (year month day hour minute second : Z) : Z :=
  (days_from_civil year month day * 86400 + hour * 3600 + minute * 60 + second) * nanos_per_second.

#[export] Instance utc : Jiff := {|
  TimeZone := unit;
  Timestamp := Z;
  Date := Z;
  DateTime := Z;
  timezone_get name := if bool_decide (name = "UTC") then Ok tt else Err "unknown time zone";
  timezone_system := tt;
  from_nanosecond := Ok;
  zoned_date ns _ := ns / nanos_per_second / 86400;
  date_year d := (civil_from_days d).1.1;
  date_month d := (civil_from_days d).1.2;
  date_day d := (civil_from_days d).2;
  date_days_in_month := days_in_month;
  date_weekday d := (d + 3) mod 7 + 1;
  date_tomorrow d := Some (d + 1);
  datetime_new year month day hour minute second := Ok (nanos year month day hour minute second);
  is_gap _ _ := false;
  earlier_ns _ ns := Ok ns;
|}.

Definition next (expression : string) (after : Z) : option Z :=
  match parse_calendar_schedule expression with
  | Ok schedule => match next_after_ns schedule after with Ok ns => Some ns | Err _ => None end
  | Err _ => None
  end.

(** Occurrences the program's own tests expect. *)
Example daily : next "daily UTC" (nanos 2024 5 1 12 0 0) = Some (nanos 2024 5 2 0 0 0).
Proof. vm_compute. reflexivity. Qed.

Example weekdays : next "Mon..Fri *-*-* 09:00 UTC" (nanos 2024 5 3 10 0 0) = Some (nanos 2024 5 6 9 0 0).
Proof. vm_compute. reflexivity. Qed.

Example last_day : next "*-*-~01 00:00 UTC" (nanos 2024 2 27 23 0 0) = Some (nanos 2024 2 29 0 0 0).
Proof. vm_compute. reflexivity. Qed.

Example last_monday : next "Mon *-05~07/1 00:00 UTC" (nanos 2024 5 1 0 0 0) = Some (nanos 2024 5 27 0 0 0).
Proof. vm_compute. reflexivity. Qed.

Example hour_range : next "*-*-* 8..17:00 UTC" (nanos 2024 5 1 17 30 0) = Some (nanos 2024 5 2 8 0 0).
Proof. vm_compute. reflexivity. Qed.
End Utc.

(** ** Theorems *)

(** A list of numbers denotes what the manual says: parsing the text of any
    list of wildcards, numbers, ranges and steps that are within the bounds of
    the field succeeds, with exactly the values that some item of the list
    denotes: a range or wildcard walks upwards from its start to its end, a
    number with a step walks upwards to the end of the field, or downwards where
    days count from the end of the month. *)
Theorem number_list_denotes parts min max field last_day_offsets :
  0 ≤ min ≤ max → max ≤ u16_max → parts ≠ [] → Forall (part_ok min max) parts →
  ∃ values, parse_values (str_join "," (map print_part parts)) min max field last_day_offsets = Ok values ∧
    ∀ x, x ∈ values ↔ ∃ part, part ∈ parts ∧ denotes min max last_day_offsets part x.
Proof.
  intros Hmin Hmax Hne Hall. unfold parse_values.
  set (text := str_join "," (map print_part parts)).
  assert (split_char "," text = map print_part parts) as Hsplit.
  { apply (split_char_join ","); [by destruct parts|]. apply Forall_map, Forall_true. apply part_chars. }
  assert (str_is_empty text = false) as ->.
  { destruct text; [|done]. destruct parts as [|p ps]; [done|]. injection Hsplit as Hp _.
    pose proof (part_nonempty p) as Hn. by rewrite <-Hp in Hn. }
  rewrite Hsplit.
  destruct (insert_printed_parts parts text min max field last_day_offsets ∅) as (v & -> & Hv); [done..|].
  exists v. split; [done|]. intros x. rewrite Hv. set_solver.
Qed.

(** Minutes 5, 20..40 in steps of ten, and every quarter from 45. *)
Lemma number_list_denotes_witness :
  ∃ values, parse_values "5,20..40/10,45/15" 0 59 "minute" false = Ok values ∧ 40 ∈ values.
Proof.
  destruct (number_list_denotes [(OneValue 5, None); (ValueRange 20 40, Some 10); (OneValue 45, Some 15)]
    0 59 "minute" false) as (v & E & Hv); [done|done|done| |].
  - unfold part_ok, u16_max. repeat constructor; simpl; lia.
  - exists v. split; [exact E|]. apply Hv. exists (ValueRange 20 40, Some 10).
    split; [right; left|]. exists 2. done.
Defined.

(** A parsed schedule fires at the seconds it names. Every field is within
    its bounds and not empty, so the day has at least one scheduled second; the
    scheduled seconds are listed in increasing order without repetition; they
    are the seconds of the day whose hour, minute and second the fields contain;
    and the casts to eight bits on the way to civil time lose nothing. *)
Theorem parsed_times_exact `{Jiff} expression schedule :
  parse_calendar_schedule expression = Ok schedule →
  schedule_wf schedule ∧ scheduled_seconds_of_day schedule ≠ [] ∧
  StronglySorted Z.lt (scheduled_seconds_of_day schedule) ∧
  (∀ t, t ∈ scheduled_seconds_of_day schedule ↔
     0 ≤ t < 86400 ∧ t / 3600 ∈ schedule.(cal_hours) ∧
     (t mod 3600) / 60 ∈ schedule.(cal_minutes) ∧ t mod 60 ∈ schedule.(cal_seconds)) ∧
  (∀ t, t ∈ scheduled_seconds_of_day schedule →
     as_i8 (t / 3600) = t / 3600 ∧ as_i8 ((t mod 3600) / 60) = (t mod 3600) / 60 ∧
     as_i8 (t mod 60) = t mod 60).
Proof.
  intros Hwf%parse_schedule_wf. split; [done|]. split.
  - destruct Hwf as [_ _ _ _ [Hh Hhr] [Hm Hmr] [Hs Hsr]].
    apply set_choose_L in Hh as [h Hh], Hm as [m Hm], Hs as [sec Hs].
    intros E. apply (not_elem_of_nil (h * 3600 + m * 60 + sec)). rewrite <-E.
    unfold scheduled_seconds_of_day. rewrite list_elem_of_bind. exists h.
    rewrite elem_of_btree_elements. split; [|done]. rewrite list_elem_of_bind. exists m.
    rewrite elem_of_btree_elements. split; [|done]. rewrite list_elem_of_bind. exists sec.
    rewrite elem_of_btree_elements, list_elem_of_singleton. done.
  - split; [by apply times_sorted|]. split; [by intros; apply elem_of_times|].
    intros t Ht%elem_of_times; [|done]. destruct Ht as (Ht & _).
    assert (0 ≤ t / 3600 < 24) by (split; [apply Z.div_pos; lia|apply Z.div_lt_upper_bound; lia]).
    pose proof (Z.mod_pos_bound t 3600 eq_refl). pose proof (Z.mod_pos_bound t 60 eq_refl).
    assert (0 ≤ (t mod 3600) / 60 < 60) by (split; [apply Z.div_pos; lia|apply Z.div_lt_upper_bound; lia]).
    rewrite !as_i8_small by lia. done.
Qed.

Lemma parsed_times_exact_witness :
  ∃ schedule, @parse_calendar_schedule Utc.utc "9,17:30 UTC" = Ok schedule ∧
    34200 ∈ scheduled_seconds_of_day schedule.
Proof.
  assert (match @parse_calendar_schedule Utc.utc "9,17:30 UTC" with
          | Ok s => bool_decide (9 ∈ s.(cal_hours) ∧ 30 ∈ s.(cal_minutes) ∧ 0 ∈ s.(cal_seconds))
          | Err _ => false
          end = true) as Hfields by (vm_compute; reflexivity).
  destruct (@parse_calendar_schedule Utc.utc "9,17:30 UTC") as [schedule|] eqn:E; [|discriminate].
  destruct (@parsed_times_exact Utc.utc "9,17:30 UTC" schedule E) as (_ & _ & _ & Ht & _).
  exists schedule. split; [done|]. apply Ht. apply bool_decide_eq_true in Hfields as (Hh & Hm & Hs).
  split; [lia|]. by split_and!.
Defined.

(** The search for the next occurrence returns the first one. A time it
    returns is later than the time asked about, is a scheduled second of a date
    that matches the schedule within the horizon of ten years, and nothing
    before it fires: every earlier scheduled second of that date, and of each
    matching date before it from the starting date on, falls in a gap of the
    clock or is not later than the time asked about. When it reports that there
    is no future occurrence, nothing within the horizon fires. *)
Theorem next_after_first `{Jiff} schedule after :
  match next_after_ns schedule after with
  | Ok ns => after < ns ∧ ∃ ts tz k d pre t suf,
      from_nanosecond after = Ok ts ∧ resolve_timezone schedule = Ok tz ∧
      (k < SEARCH_HORIZON_DAYS)%nat ∧ date_after k (zoned_date ts tz) = Some d ∧
      date_matches schedule d = true ∧
      scheduled_seconds_of_day schedule = pre ++ t :: suf ∧ candidate_ns d t tz = Ok (Some ns) ∧
      Forall (does_not_fire after tz d) pre ∧
      ∀ j d', (j < k)%nat → date_after j (zoned_date ts tz) = Some d' →
        nothing_fires schedule after tz (scheduled_seconds_of_day schedule) d'
  | Err NoFutureOccurrence => ∃ ts tz,
      from_nanosecond after = Ok ts ∧ resolve_timezone schedule = Ok tz ∧
      ∀ j d', (j < SEARCH_HORIZON_DAYS)%nat → date_after j (zoned_date ts tz) = Some d' →
        nothing_fires schedule after tz (scheduled_seconds_of_day schedule) d'
  | Err _ => True
  end.
Proof.
  unfold next_after_ns. destruct (from_nanosecond after) as [ts|]; [|done].
  destruct (resolve_timezone schedule) as [tz|e] eqn:Etz.
  2:{ unfold resolve_timezone in Etz. destruct (cal_timezone schedule); [|done].
      destruct (timezone_get _); [done|]. by injection Etz as <-. }
  pose proof (walk_dates_spec schedule after tz SEARCH_HORIZON_DAYS (zoned_date ts tz)
    (scheduled_seconds_of_day schedule)) as Hw.
  destruct (walk_dates _ _ _ _ _ _) as [ns|e].
  - destruct Hw as (Hns & k & d & pre & t & suf & Hrest). split; [done|].
    exists ts, tz, k, d, pre, t, suf. by split_and!; try apply Hrest.
  - destruct e; try done. by exists ts, tz.
Qed.

(** Weekday and time zone alone are a complete expression, but a hyphen in the
    name of the zone makes it look like a date. *)
Example hyphenated_zone_read_as_date `{Jiff} :
  parse_calendar_schedule "Mon America/Port-au-Prince" =
  Err (CalInvalidField "year" "America/Port" "invalid step").
Proof. reflexivity. Qed.
