(* ===== verification/Timer.v ===== *)
(** * Timers

    Models [src/src/timer/boot.rs] (which timers to arm at boot and on reload,
    and whether a firing was missed), [jitter.rs] (the random delay of a
    firing) and [state.rs] (where the last run of a timer is recorded).

    The registry and the random source are traits in the code; a call changes
    their state and may fail, so an operation of theirs maps a state to a state
    and a result. The rejection loop of the jitter has no bound of its own; it is
    given fuel, and [jitter_draws_terminate] shows that one unit more than the
    number of rejected samples is enough. *)

From S2P Require Import Prelude RustStr ServiceDef Ids Cgroup Calendar.
From Stdlib Require Import Ascii String.
Open Scope string_scope.
Open Scope list_scope.
Open Scope Z_scope.

(** ** Where the last run is recorded ([state.rs]) *)

Inductive TimerLastRunStorage : Type := SingleTimer | PerTrigger.

Definition is_value_name_passthrough (byte : ascii) : bool :=
  is_ascii_alphanumeric byte ||
  (Ascii.eqb byte "."%char || Ascii.eqb byte "_"%char || Ascii.eqb byte "-"%char).

Definition push_percent_encoded (byte : ascii) : string :=
  String "%"%char
    (String (hex_digit_upper (Z.shiftr (byte_val byte) 4))
       (String (hex_digit_upper (Z.land (byte_val byte) 15)) "")).

Fixpoint encode_timer_schedule_value_name (schedule : string) : string :=
  match schedule with
  | EmptyString => ""
  | String byte schedule =>
      (if is_value_name_passthrough byte then String byte "" else push_percent_encoded byte)
      +:+ encode_timer_schedule_value_name schedule
  end.

(** ** Planning ([boot.rs]) *)

Record TimerBootRegistration : Type := {
  tr_service : string;
  tr_schedule : string;
  tr_storage : TimerLastRunStorage;
  tr_persistent : bool;
  tr_jitter_secs : Z;
  tr_missed_firing : bool;
  tr_next_scheduled_ns : Z;
  tr_last_run_ns : option Z;
}.

Section Planning.
Context `{Jiff} {BoundaryError : Type}.

Inductive TimerBootPlanError : Type :=
| TimerRegistry (service schedule : string) (source : BoundaryError)
| TimerParseSchedule (service schedule : string) (source : CalendarParseError)
| TimerComputeNext (service schedule : string) (source : CalendarNextError).

Record TimerBootPlan : Type := {
  tp_registrations : list TimerBootRegistration;
  tp_rejected : list TimerBootPlanError;
}.

Definition timer_schedules (service : ServiceDefinition) : list string :=
  omap (λ trigger, match trigger with TriggerTimer schedule => Some schedule | _ => None end)
    service.(sd_triggers).

Definition timer_next_after (service schedule : string) (calendar : CalendarSchedule)
    (after_realtime_ns : Z) : Result Z TimerBootPlanError :=
  map_err (TimerComputeNext service schedule) (next_after_ns calendar after_realtime_ns).

Definition persistent_boot_decision (service schedule : string) (calendar : CalendarSchedule)
    (last_run_ns : option Z) (now_realtime_ns : Z)
    : Result (option Z * bool * Z) TimerBootPlanError :=
  match last_run_ns with
  | None =>
      let? next := timer_next_after service schedule calendar now_realtime_ns in
      Ok (None, true, next)
  | Some last_run_ns =>
      if last_run_ns >? now_realtime_ns then
        let? next := timer_next_after service schedule calendar now_realtime_ns in
        Ok (Some last_run_ns, true, next)
      else
        let? next_after_last_run := timer_next_after service schedule calendar last_run_ns in
        if next_after_last_run <=? now_realtime_ns then
          let? next := timer_next_after service schedule calendar now_realtime_ns in
          Ok (Some last_run_ns, true, next)
        else Ok (Some last_run_ns, false, next_after_last_run)
  end.

Definition parse_timer_schedule (service : ServiceDefinition) (schedule : string)
    : Result CalendarSchedule TimerBootPlanError :=
  map_err (TimerParseSchedule service.(sd_name) schedule) (parse_calendar_schedule schedule).

Definition timer_registration (service : ServiceDefinition) (schedule : string)
    (storage : TimerLastRunStorage) (missed_firing : bool) (next_scheduled_ns : Z)
    (last_run_ns : option Z) : TimerBootRegistration :=
  {| tr_service := service.(sd_name);
     tr_schedule := schedule;
     tr_storage := storage;
     tr_persistent := service.(sd_timer_persistent);
     tr_jitter_secs := service.(sd_timer_jitter_secs);
     tr_missed_firing := missed_firing;
     tr_next_scheduled_ns := next_scheduled_ns;
     tr_last_run_ns := last_run_ns |}.

Definition plan_reload_trigger (service : ServiceDefinition) (schedule : string)
    (storage : TimerLastRunStorage) (now_realtime_ns : Z)
    : Result TimerBootRegistration TimerBootPlanError :=
  let? calendar := parse_timer_schedule service schedule in
  let? next := timer_next_after service.(sd_name) schedule calendar now_realtime_ns in
  Ok (timer_registration service schedule storage false next None).

(** Each trigger of each enabled service, with where its last run is kept. *)
Definition timer_storage (schedules : list string) : TimerLastRunStorage :=
  if bool_decide (List.length schedules = 1%nat) then SingleTimer else PerTrigger.

Definition timer_triggers (services : list ServiceDefinition)
    : list (ServiceDefinition * string * TimerLastRunStorage) :=
  service ← filter (λ service, service.(sd_disabled) = false) services;
  let schedules := timer_schedules service in
  map (λ schedule, (service, schedule, timer_storage schedules)) schedules.

Definition push_registration (plan : TimerBootPlan) (registration : TimerBootRegistration) : TimerBootPlan :=
  {| plan with tp_registrations := plan.(tp_registrations) ++ [registration] |}.
Definition push_rejected (plan : TimerBootPlan) (error : TimerBootPlanError) : TimerBootPlan :=
  {| plan with tp_rejected := plan.(tp_rejected) ++ [error] |}.
Definition empty_plan : TimerBootPlan := {| tp_registrations := []; tp_rejected := [] |}.

Section Reload.
Context {S : Type}
  (needs_arming : S → ServiceDefinition → string → TimerLastRunStorage → S * bool).

Fixpoint plan_reload_triggers (now_realtime_ns : Z) (st : S)
    (triggers : list (ServiceDefinition * string * TimerLastRunStorage)) (plan : TimerBootPlan)
    : S * TimerBootPlan :=
  match triggers with
  | [] => (st, plan)
  | (service, schedule, storage) :: triggers =>
      let '(st, needed) := needs_arming st service schedule storage in
      let plan :=
        if (needed : bool) then
          match plan_reload_trigger service schedule storage now_realtime_ns with
          | Ok registration => push_registration plan registration
          | Err error => push_rejected plan error
          end
        else plan in
      plan_reload_triggers now_realtime_ns st triggers plan
  end.

(** The plan, and what the predicate has become. The [Result] of the code is
    always [Ok]. *)
Definition plan_timer_reload_where (services : list ServiceDefinition) (now_realtime_ns : Z) (st : S)
    : S * TimerBootPlan :=
  plan_reload_triggers now_realtime_ns st (timer_triggers services) empty_plan.
End Reload.

Definition plan_timer_reload (services : list ServiceDefinition) (now_realtime_ns : Z) : TimerBootPlan :=
  (plan_timer_reload_where (λ st _ _ _, (st, true)) services now_realtime_ns tt).2.

Section Boot.
Context {R : Type}
  (read_timer_last_run : string → string → TimerLastRunStorage → R → R * Result (option Z) BoundaryError).

Definition plan_timer_trigger (service : ServiceDefinition) (schedule : string)
    (storage : TimerLastRunStorage) (now_realtime_ns : Z) (registry : R)
    : R * Result TimerBootRegistration TimerBootPlanError :=
  match parse_timer_schedule service schedule with
  | Err error => (registry, Err error)
  | Ok calendar =>
      if service.(sd_timer_persistent) then
        let '(registry, read) := read_timer_last_run service.(sd_name) schedule storage registry in
        (registry,
         let? last_run_ns := map_err (TimerRegistry service.(sd_name) schedule) read in
         let? '(last_run_ns, missed_firing, next) :=
           persistent_boot_decision service.(sd_name) schedule calendar last_run_ns now_realtime_ns in
         Ok (timer_registration service schedule storage missed_firing next last_run_ns))
      else
        (registry,
         let? next := timer_next_after service.(sd_name) schedule calendar now_realtime_ns in
         Ok (timer_registration service schedule storage false next None))
  end.

Fixpoint plan_boot_triggers (now_realtime_ns : Z)
    (triggers : list (ServiceDefinition * string * TimerLastRunStorage))
    (registry : R) (plan : TimerBootPlan) : R * Result TimerBootPlan TimerBootPlanError :=
  match triggers with
  | [] => (registry, Ok plan)
  | (service, schedule, storage) :: triggers =>
      let '(registry, planned) := plan_timer_trigger service schedule storage now_realtime_ns registry in
      match planned with
      | Ok registration =>
          plan_boot_triggers now_realtime_ns triggers registry (push_registration plan registration)
      | Err (TimerRegistry _ _ _ as error) => (registry, Err error)
      | Err error => plan_boot_triggers now_realtime_ns triggers registry (push_rejected plan error)
      end
  end.

Definition plan_timer_boot (services : list ServiceDefinition) (registry : R) (now_realtime_ns : Z)
    : R * Result TimerBootPlan TimerBootPlanError :=
  plan_boot_triggers now_realtime_ns (timer_triggers services) registry empty_plan.
End Boot.
End Planning.

Arguments TimerBootPlanError : clear implicits.
Arguments TimerBootPlan : clear implicits.

(** ** Jitter ([jitter.rs]) *)

Definition TIMER_NANOS_PER_SEC : Z := 1000000000.

Record JitteredTimerDeadline : Type := {
  jd_scheduled_ns : Z;
  jd_armed_ns : Z;
  jd_delay_secs : Z;
}.

Section Jitter.
Context {BoundaryError R : Type} (random_u64 : R → R * Result Z BoundaryError).

Inductive TimerJitterError : Type :=
| JitterRandom (error : BoundaryError)
| JitterWindowOverflow (jitter_secs : Z)
| DeadlineOverflow (scheduled_ns delay_secs : Z).

(** The loop; [None] is running out of fuel. *)
Fixpoint draw_below (fuel : nat) (acceptance_zone range : Z) (random : R)
    : option (R * Result Z TimerJitterError) :=
  match fuel with
  | O => None
  | S fuel =>
      let '(random, sample) := random_u64 random in
      match sample with
      | Err error => Some (random, Err (JitterRandom error))
      | Ok sample =>
          if sample <? acceptance_zone then Some (random, Ok (sample mod range))
          else draw_below fuel acceptance_zone range random
      end
  end.

Definition acceptance_zone (range : Z) : Z := u64_max - u64_max mod range.

Definition timer_jitter_delay_secs (fuel : nat) (jitter_secs : Z) (random : R)
    : option (R * Result Z TimerJitterError) :=
  if jitter_secs =? 0 then Some (random, Ok 0)
  else match u64_checked_add jitter_secs 1 with
  | None => Some (random, Err (JitterWindowOverflow jitter_secs))
  | Some range => draw_below fuel (acceptance_zone range) range random
  end.

Definition u64_checked_mul (a b : Z) : option Z :=
  if a * b <=? u64_max then Some (a * b) else None.

Definition apply_timer_jitter (fuel : nat) (scheduled_ns jitter_secs : Z) (random : R)
    : option (R * Result JitteredTimerDeadline TimerJitterError) :=
  drawn ← timer_jitter_delay_secs fuel jitter_secs random;
  let '(random, delay) := drawn in
  Some (random,
    let? delay_secs := delay in
    let? delay_ns := ok_or (u64_checked_mul delay_secs TIMER_NANOS_PER_SEC)
                       (DeadlineOverflow scheduled_ns delay_secs) in
    let? armed_ns := ok_or (u64_checked_add scheduled_ns delay_ns)
                       (DeadlineOverflow scheduled_ns delay_secs) in
    Ok {| jd_scheduled_ns := scheduled_ns; jd_armed_ns := armed_ns; jd_delay_secs := delay_secs |}).
End Jitter.

(** ** Lemmas *)

Lemma encode_is_cgroup_encoding s : encode_timer_schedule_value_name s = encode_service_cgroup_id s.
Proof. induction s as [|c s IH]; simpl; [done|]. by rewrite IH. Qed.

Lemma next_after_later `{Jiff} schedule after ns : next_after_ns schedule after = Ok ns → after < ns.
Proof.
  unfold next_after_ns. destruct (from_nanosecond after) as [ts|]; [|done].
  destruct (resolve_timezone schedule) as [tz|]; [|done]. intros E.
  pose proof (walk_dates_spec schedule after tz SEARCH_HORIZON_DAYS (zoned_date ts tz)
    (scheduled_seconds_of_day schedule)) as Hw. rewrite E in Hw. apply Hw.
Qed.

Lemma timer_next_after_Ok `{Jiff} {B} service schedule calendar after ns :
  timer_next_after (BoundaryError := B) service schedule calendar after = Ok ns →
  next_after_ns calendar after = Ok ns ∧ after < ns.
Proof.
  unfold timer_next_after. destruct (next_after_ns calendar after) as [n|] eqn:E; simpl; [|done].
  intros [= <-]. split; [done|]. by eapply next_after_later.
Qed.

(** When a persistent timer was missed while the machine was down. *)
Definition missed `{Jiff} (calendar : CalendarSchedule) (last_run_ns : option Z) (now : Z) : Prop :=
  match last_run_ns with
  | None => True
  | Some last => now < last ∨ ∃ ns, next_after_ns calendar last = Ok ns ∧ ns ≤ now
  end.

Lemma persistent_decision `{Jiff} {B} service schedule calendar last now last' m next :
  persistent_boot_decision (BoundaryError := B) service schedule calendar last now = Ok (last', m, next) →
  last' = last ∧ now < next ∧ (m = true ↔ missed calendar last now) ∧
  (next_after_ns calendar now = Ok next ∨
   ∃ l, last = Some l ∧ l ≤ now ∧ next_after_ns calendar l = Ok next).
Proof.
  unfold persistent_boot_decision, missed. destruct last as [last|].
  2:{ destruct (timer_next_after _ _ _ now) as [n|] eqn:E; [|done]. intros [= <- <- <-].
      apply timer_next_after_Ok in E as [? ?]. by split_and!; auto. }
  rewrite Z.gtb_ltb. destruct (now <? last) eqn:El.
  { destruct (timer_next_after _ _ _ now) as [n|] eqn:E; [|done]. intros [= <- <- <-].
    apply timer_next_after_Ok in E as [? ?]. split_and!; auto. split; [left; lia|done]. }
  destruct (timer_next_after _ _ _ last) as [n1|] eqn:E1; [|done].
  apply timer_next_after_Ok in E1 as [E1 ?]. destruct (n1 <=? now) eqn:En.
  - destruct (timer_next_after _ _ _ now) as [n|] eqn:E; [|done]. intros [= <- <- <-].
    apply timer_next_after_Ok in E as [? ?]. split_and!; auto. split; [|done].
    intros _. right. exists n1. split; [done|lia].
  - intros [= <- <- <-]. split_and!; [done|lia| |].
    + split; [done|]. intros [?|(ns & Hns & ?)]; [lia|]. rewrite E1 in Hns. injection Hns as <-. lia.
    + right. exists last. split_and!; [done|lia|done].
Qed.

(** ** Theorems *)

(** What boot decides for a timer it can arm. The schedule is readable; the
    time it is armed for is after the present and is an occurrence of the
    schedule; and a firing counts as missed exactly when the timer is persistent
    and its last run is unknown, lies in the future, or was followed by an
    occurrence that is already past. *)
Theorem boot_timer_decision `{Jiff} {B R} read service schedule storage now (registry registry' : R) reg :
  plan_timer_trigger (BoundaryError := B) read service schedule storage now registry
    = (registry', Ok reg) →
  ∃ calendar, parse_calendar_schedule schedule = Ok calendar ∧
    now < reg.(tr_next_scheduled_ns) ∧
    (∃ from, from ≤ now ∧ next_after_ns calendar from = Ok reg.(tr_next_scheduled_ns)) ∧
    (reg.(tr_missed_firing) = true ↔
       service.(sd_timer_persistent) = true ∧ missed calendar reg.(tr_last_run_ns) now).
Proof.
  unfold plan_timer_trigger, parse_timer_schedule.
  destruct (parse_calendar_schedule schedule) as [calendar|]; simpl; [|done].
  destruct (sd_timer_persistent service) eqn:Ep.
  - destruct (read _ _ _ _) as [registry1 [last|e]]; simpl; [|done].
    destruct (persistent_boot_decision _ _ _ _ _) as [[[l m] next]|] eqn:Ed; [|done].
    intros [= <- <-]. simpl. apply persistent_decision in Ed as (-> & Hlt & Hm & Hn).
    exists calendar. split_and!; [done|done| |].
    + destruct Hn as [Hn|(from & _ & ? & Hn)]; [by exists now|by exists from].
    + rewrite Hm. tauto.
  - destruct (timer_next_after _ _ _ _) as [next|] eqn:En; simpl; [|done]. intros [= <- <-]. simpl.
    apply timer_next_after_Ok in En as [En Hlt]. exists calendar.
    split_and!; [done|done|by exists now|naive_solver].
Qed.

(** A daily job that ran two days before a boot at noon. *)
Definition nightly : ServiceDefinition :=
  {| (simple_system_boot "nightly" "/bin/nightly") with sd_triggers := [TriggerTimer "daily UTC"] |}.

Definition ran_at (ns : Z) (service schedule : string) (storage : TimerLastRunStorage) (registry : unit)
    : unit * Result (option Z) string :=
  (registry, Ok (Some ns)).

Lemma boot_timer_decision_witness :
  ∃ calendar reg, @parse_calendar_schedule Utc.utc "daily UTC" = Ok calendar ∧
    reg.(tr_missed_firing) = true ∧ Utc.nanos 2024 5 3 12 0 0 < reg.(tr_next_scheduled_ns) ∧
    missed (H := Utc.utc) calendar reg.(tr_last_run_ns) (Utc.nanos 2024 5 3 12 0 0).
Proof.
  assert (match (@plan_timer_trigger Utc.utc string unit (ran_at (Utc.nanos 2024 5 1 0 0 1)) nightly
    "daily UTC" SingleTimer (Utc.nanos 2024 5 3 12 0 0) tt).2 with
    Ok reg => reg.(tr_missed_firing) | Err _ => false end = true) as Hm by (vm_compute; reflexivity).
  destruct (@plan_timer_trigger Utc.utc string unit (ran_at (Utc.nanos 2024 5 1 0 0 1)) nightly
    "daily UTC" SingleTimer (Utc.nanos 2024 5 3 12 0 0) tt) as [u [reg|]] eqn:E; [|discriminate].
  destruct (@boot_timer_decision Utc.utc string unit _ _ _ _ _ _ _ _ E) as (calendar & Hp & Hlt & _ & Hiff).
  exists calendar, reg. split_and!; [exact Hp|exact Hm|exact Hlt|]. by apply Hiff.
Defined.

Section Accounting.
Context `{Jiff} {B R : Type}
  (read : string → string → TimerLastRunStorage → R → R * Result (option Z) B) (now : Z).

(** One outcome per trigger, each from the planning of that trigger. *)
Definition planned_as (trigger : ServiceDefinition * string * TimerLastRunStorage)
    (outcome : Result TimerBootRegistration (TimerBootPlanError B)) : Prop :=
  ∃ registry, (plan_timer_trigger read trigger.1.1 trigger.1.2 trigger.2 now registry).2 = outcome.

Definition outcome_ok (outcome : Result TimerBootRegistration (TimerBootPlanError B))
    : option TimerBootRegistration :=
  match outcome with Ok registration => Some registration | Err _ => None end.
Definition outcome_err (outcome : Result TimerBootRegistration (TimerBootPlanError B))
    : option (TimerBootPlanError B) :=
  match outcome with Ok _ => None | Err error => Some error end.

Definition is_registry_error (error : TimerBootPlanError B) : bool :=
  match error with TimerRegistry _ _ _ => true | _ => false end.

Lemma plan_boot_triggers_spec triggers registry plan :
  ∃ outcomes, match (plan_boot_triggers read now triggers registry plan).2 with
  | Ok plan' => Forall2 planned_as triggers outcomes ∧
      plan'.(tp_registrations) = plan.(tp_registrations) ++ omap outcome_ok outcomes ∧
      plan'.(tp_rejected) = plan.(tp_rejected) ++ omap outcome_err outcomes ∧
      Forall (λ e, is_registry_error e = false) (omap outcome_err outcomes)
  | Err error => is_registry_error error = true
  end.
Proof.
  revert registry plan. induction triggers as [|[[service schedule] storage] triggers IH];
    intros registry plan; simpl.
  { exists []. rewrite !app_nil_r. split_and!; constructor. }
  destruct (plan_timer_trigger read service schedule storage now registry) as [r1 o] eqn:E.
  assert (planned_as (service, schedule, storage) o) as Ho by (exists registry; simpl; by rewrite E).
  destruct o as [reg|[s c e|s c e|s c e]]; [| by exists [] | |].
  - destruct (IH r1 (push_registration plan reg)) as [outcomes Hs]. exists (Ok reg :: outcomes).
    destruct (plan_boot_triggers _ _ _ _ _).2; [|done]. destruct Hs as (? & Hr & Hj & ?).
    simpl in *. rewrite <-app_assoc in Hr. by split_and!; [constructor|..].
  - destruct (IH r1 (push_rejected plan (TimerParseSchedule s c e))) as [outcomes Hs].
    exists (Err (TimerParseSchedule s c e) :: outcomes).
    destruct (plan_boot_triggers _ _ _ _ _).2; [|done]. destruct Hs as (? & Hr & Hj & ?).
    simpl in *. rewrite <-app_assoc in Hj. by split_and!; [constructor|..|constructor].
  - destruct (IH r1 (push_rejected plan (TimerComputeNext s c e))) as [outcomes Hs].
    exists (Err (TimerComputeNext s c e) :: outcomes).
    destruct (plan_boot_triggers _ _ _ _ _).2; [|done]. destruct Hs as (? & Hr & Hj & ?).
    simpl in *. rewrite <-app_assoc in Hj. by split_and!; [constructor|..|constructor].
Qed.
End Accounting.

(** One bad schedule stops nothing but its own timer. Planning the timers of
    a boot fails only on a registry error; otherwise every timer trigger of
    every enabled service has an outcome of its own, and the plan arms, in
    order, exactly those that could be planned and reports, in order, exactly
    those that could not. *)
Theorem boot_plan_accounts_for_every_timer `{Jiff} {B R} read services (registry : R) now :
  ∃ outcomes, match (plan_timer_boot (BoundaryError := B) read services registry now).2 with
  | Ok plan => Forall2 (planned_as read now) (timer_triggers services) outcomes ∧
      plan.(tp_registrations) = omap outcome_ok outcomes ∧
      plan.(tp_rejected) = omap outcome_err outcomes ∧
      Forall (λ e, is_registry_error e = false) (omap outcome_err outcomes)
  | Err error => is_registry_error error = true
  end.
Proof. apply (plan_boot_triggers_spec read now (timer_triggers services) registry empty_plan). Qed.

(** [draws n random sample random']: the source gives [n] samples that are not
    below [zone], then [sample], which is. *)
Inductive draws {B R} (random_u64 : R → R * Result Z B) (zone : Z) : nat → R → Z → R → Prop :=
| draw_accepted random sample random' :
    random_u64 random = (random', Ok sample) → sample < zone → draws random_u64 zone 0 random sample random'
| draw_rejected n random rejected random1 sample random' :
    random_u64 random = (random1, Ok rejected) → zone ≤ rejected →
    draws random_u64 zone n random1 sample random' →
    draws random_u64 zone (S n) random sample random'.

Lemma draws_drawn {B R} (random_u64 : R → R * Result Z B) zone range n random sample random' fuel :
  draws random_u64 zone n random sample random' → (n < fuel)%nat →
  draw_below random_u64 fuel zone range random = Some (random', Ok (sample mod range)).
Proof.
  intros Hd. revert fuel. induction Hd as [random sample random' E Hs|n random rej r1 sample random' E Hr Hd IH];
    intros [|fuel] Hf; try lia; simpl; rewrite E.
  - by rewrite (proj2 (Z.ltb_lt _ _)) by lia.
  - rewrite (proj2 (Z.ltb_ge _ _)) by lia. apply IH. lia.
Qed.

Lemma acceptance_zone_multiple range :
  0 < range → acceptance_zone range = range * (u64_max / range).
Proof. intros. unfold acceptance_zone. pose proof (Z.div_mod u64_max range). lia. Qed.

(** The jitter is unbiased: each number of seconds from zero to the jitter
    window is the remainder of equally many accepted samples, namely of those at
    the multiples of the range up to the acceptance zone; and at least half of
    all samples are accepted. *)
Theorem jitter_uniform jitter delay sample :
  let range := jitter + 1 in
  0 < jitter < u64_max → 0 ≤ delay ≤ jitter →
  (0 ≤ sample < acceptance_zone range ∧ sample mod range = delay ↔
   ∃ k, 0 ≤ k < acceptance_zone range / range ∧ sample = delay + k * range) ∧
  u64_max ≤ 2 * acceptance_zone range.
Proof.
  intros range Hj Hd. assert (0 < range) by (subst range; lia).
  pose proof (acceptance_zone_multiple range ltac:(lia)) as Hz.
  assert (acceptance_zone range / range = u64_max / range) as Hq.
  { rewrite Hz, Z.mul_comm. apply Z.div_mul. lia. }
  split; [split|].
  - intros [Hs Hm]. exists (sample / range). pose proof (Z.div_mod sample range).
    split; [|lia]. split; [apply Z.div_pos; lia|]. rewrite Hq. apply Z.div_lt_upper_bound; [lia|].
    rewrite <-Hz. lia.
  - intros (k & Hk & ->). rewrite Hq in Hk. split; [subst range; nia|].
    rewrite Z.mod_add by lia. apply Z.mod_small. subst range. lia.
  - rewrite Hz. pose proof (Z.div_mod u64_max range). pose proof (Z.mod_pos_bound u64_max range).
    assert (1 ≤ u64_max / range) by (apply Z.div_le_lower_bound; subst range; lia). nia.
Qed.

Lemma jitter_uniform_witness :
  0 < 5 < u64_max ∧ u64_max ≤ 2 * acceptance_zone 6.
Proof.
  split; [done|]. destruct (jitter_uniform 5 2 14) as [_ H]; [done|done|]. exact H.
Defined.

(** A jittered timer is armed, and never early. Once the source has given a
    sample in the acceptance zone, after any number of rejected ones, a deadline
    results: the delay is between zero and the jitter window, and the deadline
    is the scheduled time plus that delay, unless it does not fit in 64 bits,
    which is reported. *)
Theorem jitter_draws_terminate {B R} (random_u64 : R → R * Result Z B)
    jitter scheduled n random sample random' fuel :
  0 < jitter < u64_max → 0 ≤ scheduled → 0 ≤ sample →
  draws random_u64 (acceptance_zone (jitter + 1)) n random sample random' → (n < fuel)%nat →
  ∃ delay, delay = sample mod (jitter + 1) ∧ 0 ≤ delay ≤ jitter ∧
    apply_timer_jitter random_u64 fuel scheduled jitter random =
    Some (random',
      if scheduled + delay * 1000000000 <=? u64_max
      then Ok {| jd_scheduled_ns := scheduled; jd_armed_ns := scheduled + delay * 1000000000;
                 jd_delay_secs := delay |}
      else Err (DeadlineOverflow scheduled delay)).
Proof.
  intros Hj Hs Hsam Hd Hf. exists (sample mod (jitter + 1)).
  pose proof (Z.mod_pos_bound sample (jitter + 1) ltac:(lia)) as Hb. split; [done|]. split; [lia|].
  unfold apply_timer_jitter, timer_jitter_delay_secs, u64_checked_add.
  rewrite (proj2 (Z.eqb_neq _ _)) by lia. rewrite (proj2 (Z.leb_le (jitter + 1) _)) by lia.
  rewrite (draws_drawn _ _ _ _ _ _ _ _ Hd Hf). cbn [mbind option_bind].
  set (delay := sample mod (jitter + 1)) in *. unfold u64_checked_mul, TIMER_NANOS_PER_SEC.
  do 2 f_equal. destruct (scheduled + delay * 1000000000 <=? u64_max) eqn:E.
  - rewrite (proj2 (Z.leb_le (delay * _) _)) by lia. cbn [ok_or]. by rewrite E.
  - destruct (delay * 1000000000 <=? u64_max); cbn [ok_or]; [|done]. by rewrite E.
Qed.

(** A source that counts up from a number. *)
Definition counting (n : Z) : Z * Result Z string := (n + 1, Ok n).

Lemma jitter_draws_terminate_witness :
  apply_timer_jitter counting 1 1000 5 11 =
  Some (12, Ok {| jd_scheduled_ns := 1000; jd_armed_ns := 5000001000; jd_delay_secs := 5 |}).
Proof.
  destruct (jitter_draws_terminate counting 5 1000 0 11 11 12 1) as (delay & -> & _ & E);
    [done|done|done| |lia|exact E]. by constructor.
Defined.

(** The value a timer's last run is recorded under determines its schedule:
    two schedules with the same value name are equal. *)
Theorem timer_value_names_distinct s t :
  encode_timer_schedule_value_name s = encode_timer_schedule_value_name t → s = t.
Proof. rewrite !encode_is_cgroup_encoding. apply encode_inj. Qed.

Lemma timer_value_names_distinct_witness :
  encode_timer_schedule_value_name "Europe/London" ≠ encode_timer_schedule_value_name "Europe-London".
Proof. intros E. apply (timer_value_names_distinct "Europe/London" "Europe-London") in E. discriminate. Defined.
