(* ===== verification/ServiceTable.v ===== *)
(** * The service table

    Models [src/src/service/table/]: the entries ([model.rs]), the table and its
    boot snapshot ([mod.rs]), and every operation of [activation/] that changes
    an entry. Reloading definitions ([reload.rs]) is in [ServiceReload]; only
    [map_definitions], which the boot snapshot shares with it, is here.

    The table is its one field, the [BTreeMap] of entries. An operation maps a
    table to the table it leaves and its result; an operation that fails keeps
    whatever it had already changed, as [&mut self] does in Rust. *)

From S2P Require Import Prelude RustStr ServiceRuntime ServiceDef Roles Restart Cgroup.
From Stdlib Require Import String.
Open Scope list_scope.
Open Scope Z_scope.

(** ** Data ([model.rs]) *)

Record ServiceEntry : Type := {
  en_definition : ServiceDefinition;
  en_pending_definition : option ServiceDefinition;
  en_runtime : ServiceRuntimeSnapshot;
  en_definition_removed : bool;
}.

(** [ServiceEntry::satisfies]. *)
Definition entry_satisfies (self : ServiceEntry) (level : option string) : bool :=
  if negb (satisfies_dependents self.(en_runtime).(rt_state)) then false
  else match level with
       | None => true
       | Some wanted => bool_decide (wanted ∈ self.(en_runtime).(rt_levels))
       end.

Record ServiceActivationSnapshot : Type := {
  as_service : string;
  as_activation_generation : Z;
  as_cgroup_generation : Z;
  as_definition : ServiceDefinition;
}.

Record ServiceTableTransition : Type := {
  tt_event : ServiceTransitionEvent;
  tt_discarded_definition_removed : bool;
  tt_released_tty : option string;
}.

Record RestartBackoffDeadline : Type := { bd_service : string; bd_due_at_ns : Z }.
Record RestartWindowResetDeadline : Type := { wd_service : string; wd_due_at_ns : Z }.

Inductive ServiceTableError : Type :=
| DuplicateService (service : string)
| UnknownService (service : string)
| DefinitionRemoved (service : string)
| TransitionError (error : ServiceTransitionError).

Definition retains_definition_after_removal (state : ServiceState) : bool :=
  match state with
  | StStarting | StActive | StReloading | StStopping => true
  | _ => false
  end.

(** ** The table ([mod.rs]) *)

Notation ServiceTable := (gmap string ServiceEntry) (only parsing).

Definition TableResult (A : Type) : Type := ServiceTable * Result A ServiceTableError.

Definition new_entry (name : string) (definition : ServiceDefinition) : ServiceEntry := {|
  en_definition := definition;
  en_pending_definition := None;
  en_runtime := inactive name;
  en_definition_removed := false;
|}.

(** The loop of [map_definitions]: [insert] replaces before it reports. *)
Fixpoint index_definitions (mapped : gmap string ServiceDefinition) (definitions : list ServiceDefinition)
    : Result (gmap string ServiceDefinition) ServiceTableError :=
  match definitions with
  | [] => Ok mapped
  | definition :: definitions =>
      let name := definition.(sd_name) in
      if bool_decide (is_Some (mapped !! name)) then Err (DuplicateService name)
      else index_definitions (<[name := definition]> mapped) definitions
  end.

Definition map_definitions (definitions : list ServiceDefinition)
    : Result (gmap string ServiceDefinition) ServiceTableError :=
  index_definitions ∅ (synthesise_role_dependencies definitions).

Definition from_boot_snapshot (definitions : list ServiceDefinition)
    : Result ServiceTable ServiceTableError :=
  let? mapped := map_definitions definitions in
  Ok (map_imap (λ name definition, Some (new_entry name definition)) mapped).

Definition placeholder_entry (service message : string) (runtime : ServiceRuntimeSnapshot)
    : ServiceEntry := {|
  en_definition := undecodable_placeholder service message;
  en_pending_definition := None;
  en_runtime := runtime;
  en_definition_removed := true;
|}.

Definition insert_undecodable_placeholder (service : string) (cause : TransitionCause)
    (message : string) (self : ServiceTable) : TableResult unit :=
  match transition {| st_to := StFailed; st_cause := cause |} (inactive service) with
  | (_, Err e) => (self, Err (TransitionError e))
  | (runtime, Ok _) => (<[service := placeholder_entry service message runtime]> self, Ok tt)
  end.

Definition service_names (self : ServiceTable) : list string := btree_keys self.

Definition table_definition (self : ServiceTable) (service : string) : option ServiceDefinition :=
  en_definition <$> self !! service.

Definition table_runtime (self : ServiceTable) (service : string) : option ServiceRuntimeSnapshot :=
  en_runtime <$> self !! service.

Definition require_entry (service : string) (self : ServiceTable)
    : Result ServiceEntry ServiceTableError :=
  ok_or (self !! service) (UnknownService service).

(** [let entry = self.require_entry_mut(service)?; ...]: [f] is what follows,
    the entry it leaves and its value. *)
Definition with_entry {A} (service : string) (f : ServiceEntry → ServiceEntry * A)
    (self : ServiceTable) : TableResult A :=
  match self !! service with
  | None => (self, Err (UnknownService service))
  | Some entry => let (entry, value) := f entry in (<[service := entry]> self, Ok value)
  end.

Definition set_runtime (entry : ServiceEntry) (runtime : ServiceRuntimeSnapshot) : ServiceEntry :=
  {| entry with en_runtime := runtime |}.

(** An operation that only updates the runtime snapshot. *)
Definition with_runtime {A} (service : string)
    (f : ServiceRuntimeSnapshot → ServiceRuntimeSnapshot * A) : ServiceTable → TableResult A :=
  with_entry service (λ entry, let (r, a) := f entry.(en_runtime) in (set_runtime entry r, a)).

(** ** Terminals ([tty.rs]) *)

Definition holds_tty (state : ServiceState) : bool :=
  match state with
  | StStarting | StActive | StReloading | StStopping | StBackoff => true
  | StInactive | StCompleted | StFailed | StSkipped | StAbandoned => false
  end.

(** ** Transitions ([activation/transition.rs]) *)

Definition prepare_activation_snapshot (service : string) (self : ServiceTable)
    : Result ServiceActivationSnapshot ServiceTableError :=
  let? entry := require_entry service self in
  if entry.(en_definition_removed) then Err (DefinitionRemoved service)
  else Ok {| as_service := service;
             as_activation_generation := u64_wrapping_add entry.(en_runtime).(rt_generation) 1;
             as_cgroup_generation := entry.(en_runtime).(rt_cgroup_generation);
             as_definition := entry.(en_definition) |}.

Definition clear_backoff_until (r : ServiceRuntimeSnapshot) : ServiceRuntimeSnapshot :=
  {| r with rt_restart_backoff_until_ns := None |}.

Definition set_restart_failures (n : Z) (r : ServiceRuntimeSnapshot) : ServiceRuntimeSnapshot :=
  {| r with rt_consecutive_restart_failures := n |}.

Definition update_restart_metadata_after_transition (event : ServiceTransitionEvent)
    (runtime : ServiceRuntimeSnapshot) : ServiceRuntimeSnapshot :=
  let runtime :=
    if negb (bool_decide (event.(ev_to) = StBackoff)) then clear_backoff_until runtime else runtime in
  if bool_decide (event.(ev_to) = StInactive) &&
     match event.(ev_cause) with TcCleanExit | TcExplicitReset => true | _ => false end
  then set_restart_failures 0 runtime else runtime.

Definition apply_pending_definition_if_drained (service : string) (self : ServiceTable) : ServiceTable :=
  match self !! service with
  | None => self
  | Some entry =>
      if entry.(en_definition_removed) || retains_definition_after_removal entry.(en_runtime).(rt_state)
      then self
      else match entry.(en_pending_definition) with
           | None => self
           | Some pending_definition =>
               <[service := {| entry with en_definition := pending_definition;
                                          en_pending_definition := None |}]> self
           end
  end.

Definition discard_drained_definition_removed (service : string) (self : ServiceTable)
    : ServiceTable * bool :=
  let should_discard := is_some_and (self !! service) (λ entry,
    entry.(en_definition_removed) &&
    negb (retains_definition_after_removal entry.(en_runtime).(rt_state))) in
  (if should_discard then delete service self else self, should_discard).

Definition transition_service (service : string) (t : ServiceTransition) (self : ServiceTable)
    : TableResult ServiceTableTransition :=
  match self !! service with
  | None => (self, Err (UnknownService service))
  | Some entry =>
      match transition t entry.(en_runtime) with
      | (runtime, Err e) => (<[service := set_runtime entry runtime]> self, Err (TransitionError e))
      | (runtime, Ok event) =>
          let runtime := update_restart_metadata_after_transition event runtime in
          let released_tty :=
            if holds_tty event.(ev_from) && negb (holds_tty event.(ev_to))
            then entry.(en_definition).(sd_console_path) else None in
          let self := <[service := set_runtime entry runtime]> self in
          let self := apply_pending_definition_if_drained service self in
          let (self, discarded) := discard_drained_definition_removed service self in
          (self, Ok {| tt_event := event; tt_discarded_definition_removed := discarded;
                       tt_released_tty := released_tty |})
      end
  end.

Definition table_mark_dependent_satisfied_since (service : string) (satisfied_at_ns : Z)
    : ServiceTable → TableResult unit :=
  with_runtime service (λ r, (mark_dependent_satisfied_since satisfied_at_ns r, tt)).

(** ** One-shot services ([activation/oneshot.rs]) *)

Definition release_completed_oneshot_if_not_retained (service : string) (self : ServiceTable)
    : TableResult (option ServiceTableTransition) :=
  match require_entry service self with
  | Err e => (self, Err e)
  | Ok entry =>
      if bool_decide (entry.(en_definition).(sd_service_type) = TypeOneshot) &&
         negb entry.(en_definition).(sd_remain_after_exit) &&
         bool_decide (entry.(en_runtime).(rt_state) = StCompleted)
      then
        let (self, r) :=
          transition_service service {| st_to := StInactive; st_cause := TcCleanExit |} self in
        (self, map_ok Some r)
      else (self, Ok None)
  end.

(** ** Restart bookkeeping ([activation/restart.rs]) *)

Definition NANOS_PER_SEC : Z := 1000000000.

Definition set_backoff (cause : TransitionCause) (backoff_until_ns : Z) (entry : ServiceEntry)
    : ServiceEntry :=
  let r := entry.(en_runtime) in
  let failures :=
    if bool_decide (cause = TcCleanExitRestart) &&
       bool_decide (is_Some entry.(en_definition).(sd_console_path)) then 0
    else u32_saturating_add r.(rt_consecutive_restart_failures) 1 in
  set_runtime entry
    {| r with rt_consecutive_restart_failures := failures;
              rt_restart_backoff_until_ns := Some backoff_until_ns |}.

Definition transition_service_to_restart_backoff (service : string) (cause : TransitionCause)
    (backoff_until_ns : Z) (self : ServiceTable) : TableResult ServiceTableTransition :=
  match transition_service service {| st_to := StBackoff; st_cause := cause |} self with
  | (self, Err e) => (self, Err e)
  | (self, Ok t) => with_entry service (λ entry, (set_backoff cause backoff_until_ns entry, t)) self
  end.

Definition consume_restart_backoff (service : string) : ServiceTable → TableResult unit :=
  with_runtime service (λ r, (clear_backoff_until r, tt)).

Definition reset_restart_failures_after_window (service : string) : ServiceTable → TableResult unit :=
  with_runtime service (λ r, (set_restart_failures 0 r, tt)).

Definition backoff_deadline_of (p : string * ServiceEntry) : option RestartBackoffDeadline :=
  let '(service, entry) := p in
  if negb entry.(en_definition_removed) && bool_decide (entry.(en_runtime).(rt_state) = StBackoff) then
    due_at_ns ← entry.(en_runtime).(rt_restart_backoff_until_ns);
    Some {| bd_service := service; bd_due_at_ns := due_at_ns |}
  else None.

Definition restart_backoff_deadlines (self : ServiceTable) : list RestartBackoffDeadline :=
  omap backoff_deadline_of (btree_iter self).

Definition due_restart_backoffs (now_ns : Z) (self : ServiceTable) : list RestartBackoffDeadline :=
  retain (λ d, d.(bd_due_at_ns) <=? now_ns) (restart_backoff_deadlines self).

(** [min_by_key] keeps the first of equal keys; keys order by time, then name. *)
Definition deadline_before (a b : RestartBackoffDeadline) : bool :=
  (a.(bd_due_at_ns) <? b.(bd_due_at_ns)) ||
  (a.(bd_due_at_ns) =? b.(bd_due_at_ns)) && str_lt a.(bd_service) b.(bd_service).

Definition min_deadline (best : option RestartBackoffDeadline) (d : RestartBackoffDeadline)
    : option RestartBackoffDeadline :=
  match best with
  | None => Some d
  | Some b => if deadline_before d b then Some d else Some b
  end.

Definition next_restart_backoff_deadline (self : ServiceTable) : option RestartBackoffDeadline :=
  foldl min_deadline None (restart_backoff_deadlines self).

Definition window_reset_of (p : string * ServiceEntry) : option RestartWindowResetDeadline :=
  let '(service, entry) := p in
  if negb entry.(en_definition_removed) && bool_decide (entry.(en_runtime).(rt_state) = StActive) &&
     (0 <? entry.(en_runtime).(rt_consecutive_restart_failures)) then
    since_ns ← entry.(en_runtime).(rt_dependent_satisfied_since_ns);
    Some {| wd_service := service;
            wd_due_at_ns := u64_saturating_add since_ns
              (u64_saturating_mul entry.(en_definition).(sd_restart_window_secs) NANOS_PER_SEC) |}
  else None.

Definition restart_window_reset_deadlines (self : ServiceTable) : list RestartWindowResetDeadline :=
  omap window_reset_of (btree_iter self).

Definition due_restart_window_resets (now_ns : Z) (self : ServiceTable)
    : list RestartWindowResetDeadline :=
  retain (λ d, d.(wd_due_at_ns) <=? now_ns) (restart_window_reset_deadlines self).

Definition next_restart_window_reset_deadline_ns (self : ServiceTable) : option Z :=
  list_min (wd_due_at_ns <$> restart_window_reset_deadlines self).

(** ** Control groups ([activation/cgroup.rs]) *)

Definition leak_affects_tree (path root : string) : bool :=
  bool_decide (path = root) || is_some_and (strip_prefix root path) (starts_with "/").

Definition record_leak (service path : string) (kind : LeakedCgroupKind) (detected_at_ns : Z)
    (r : ServiceRuntimeSnapshot) : ServiceRuntimeSnapshot * bool :=
  if existsb (λ leak, bool_decide (leak.(lk_path) = path) && bool_decide (leak.(lk_kind) = kind))
       r.(rt_leaked_cgroups)
  then (r, false)
  else
    let advances :=
      leak_affects_tree path (service_cgroup_root_path service r.(rt_cgroup_generation)) in
    let leak := {| lk_path := path; lk_kind := kind; lk_detected_at_ns := detected_at_ns |} in
    ({| r with
        rt_leaked_cgroups := r.(rt_leaked_cgroups) ++ [leak];
        rt_cgroup_generation :=
          if advances then u64_saturating_add r.(rt_cgroup_generation) 1
          else r.(rt_cgroup_generation) |}, true).

Definition record_leaked_cgroup (service path : string) (kind : LeakedCgroupKind)
    (detected_at_ns : Z) : ServiceTable → TableResult bool :=
  with_runtime service (record_leak service path kind detected_at_ns).

(** ** Health ([activation/health.rs]) *)

Definition record_health_success (service : string) (checked_at_ns : Z)
    : ServiceTable → TableResult unit :=
  with_runtime service (λ r, ({| r with rt_health := record_success checked_at_ns r.(rt_health) |}, tt)).

Definition record_health_failure (service : string) (checked_at_ns : Z)
    : ServiceTable → TableResult Z :=
  with_runtime service (λ r,
    let (health, failures) := record_failure checked_at_ns r.(rt_health) in
    ({| r with rt_health := health |}, failures)).

(** ** Status ([activation/status.rs]) *)

Definition PROGRESS_EVENT_INTERVAL_NS : Z := 1000000000.

Definition update_status_text (service status_text : string) : ServiceTable → TableResult unit :=
  with_runtime service (λ r, ({| r with rt_status_text := Some status_text |}, tt)).

Definition update_progress (service : string) (progress : JobProgress)
    : ServiceTable → TableResult unit :=
  with_runtime service (λ r, ({| r with rt_progress := Some progress |}, tt)).

Definition update_progress_unit (service : string) (unit_ : JobProgressUnit)
    : ServiceTable → TableResult unit :=
  with_runtime service (λ r, ({| r with rt_progress_unit := Some unit_ |}, tt)).

Definition take_progress (observed_at_ns : Z) (r : ServiceRuntimeSnapshot)
    : ServiceRuntimeSnapshot * option ServiceProgressReport :=
  let due := is_none_or r.(rt_last_progress_event_ns) (λ last,
    PROGRESS_EVENT_INTERVAL_NS <=? u64_saturating_sub observed_at_ns last) in
  if negb due then (r, None)
  else ({| r with rt_last_progress_event_ns := Some observed_at_ns |},
        Some {| spr_progress := r.(rt_progress); spr_unit := r.(rt_progress_unit) |}).

Definition take_progress_event (service : string) (observed_at_ns : Z)
    : ServiceTable → TableResult (option ServiceProgressReport) :=
  with_runtime service (take_progress observed_at_ns).

Definition update_levels (service : string) (levels : list string)
    : ServiceTable → TableResult bool :=
  with_runtime service (λ r,
    let next : gset string := list_to_set (retain (λ level, negb (str_is_empty level)) levels) in
    let changed := negb (bool_decide (r.(rt_levels) = next)) in
    ({| r with rt_levels := next |}, changed)).

Definition clear_level (service : string) : ServiceTable → TableResult bool :=
  with_runtime service (λ r,
    let changed := negb (bool_decide (r.(rt_levels) = ∅)) in
    ({| r with rt_levels := ∅ |}, changed)).

Definition acknowledge_stopping (service : string) : ServiceTable → TableResult unit :=
  with_runtime service (λ r, ({| r with rt_stopping_acknowledged := true |}, tt)).

Definition record_stopping_timeout (service : string) (evidence : ServiceStoppingTimeoutEvidence)
    : ServiceTable → TableResult unit :=
  with_runtime service (λ r, ({| r with rt_stopping_timeout := Some evidence |}, tt)).

(** ** Timers ([activation/timer.rs]) *)

Definition set_pending_timer_flag (flag : bool) (r : ServiceRuntimeSnapshot) : ServiceRuntimeSnapshot :=
  {| r with rt_pending_timer := flag |}.

Definition set_pending_timer (service : string) : ServiceTable → TableResult bool :=
  with_runtime service (λ r, (set_pending_timer_flag true r, negb r.(rt_pending_timer))).

Definition clear_pending_timer (service : string) : ServiceTable → TableResult bool :=
  with_runtime service (λ r, (set_pending_timer_flag false r, r.(rt_pending_timer))).

(** ** Lemmas: indexing definitions *)

Lemma index_definitions_spec m l :
  (∀ m', index_definitions m l = Ok m' →
     NoDup (map sd_name l) ∧ (∀ d, d ∈ l → m !! d.(sd_name) = None) ∧
     ∀ name d, m' !! name = Some d ↔ m !! name = Some d ∨ d ∈ l ∧ d.(sd_name) = name) ∧
  (NoDup (map sd_name l) → (∀ d, d ∈ l → m !! d.(sd_name) = None) →
     is_ok (index_definitions m l) = true) ∧
  (∀ e, index_definitions m l = Err e → ∃ d, d ∈ l ∧ e = DuplicateService d.(sd_name)).
Proof.
  revert m. induction l as [|d l IH]; intros m; simpl.
  { split_and!; [|done|done]. intros m' [= <-]. split_and!; [constructor|by intros d Hd%elem_of_nil|].
    intros name d. split; [by left|]. by intros [?|[?%elem_of_nil _]]. }
  case_bool_decide as Hd.
  { split_and!; [done| |].
    - intros _ Hf. destruct Hd as [? Hd]. specialize (Hf d ltac:(left)). congruence.
    - intros e [= <-]. exists d. split; [left|done]. }
  apply eq_None_not_Some in Hd. destruct (IH (<[sd_name d := d]> m)) as (H1 & H2 & H3). split_and!.
  - intros m' E. destruct (H1 m' E) as (Hnd & Hf & Hm').
    assert (∀ d', d' ∈ l → sd_name d' ≠ sd_name d ∧ m !! sd_name d' = None) as Hne.
    { intros d' Hd'. specialize (Hf d' Hd'). apply lookup_insert_None in Hf as [? ?]. done. }
    split_and!.
    + constructor; [|done]. intros (d' & E' & Hd')%list_elem_of_fmap. by destruct (Hne d' Hd').
    + intros d' [->|Hd']%elem_of_cons; [done|]. by apply Hne.
    + intros name d'. rewrite Hm', lookup_insert_Some, elem_of_cons. split.
      * intros [[[<- <-]|[? ?]]|[? ?]]; auto.
      * intros [Hm|[[->|?] <-]]; [|by left; left|by right].
        left; right. split; [|done]. intros <-. congruence.
  - intros [Hn Hnd]%NoDup_cons Hf. apply H2; [done|]. intros d' Hd'.
    rewrite lookup_insert_ne; [apply Hf; by right|]. intros E. apply Hn. rewrite E.
    by apply (list_elem_of_fmap_2 sd_name l d').
  - intros e E. destruct (H3 e E) as (d' & ? & ->). exists d'. split; [by right|done].
Qed.

Lemma map_definitions_Ok definitions incoming :
  map_definitions definitions = Ok incoming →
  NoDup (map sd_name definitions) ∧
  ∀ name d, incoming !! name = Some d ↔
    d ∈ synthesise_role_dependencies definitions ∧ d.(sd_name) = name.
Proof.
  intros E. destruct (index_definitions_spec ∅ (synthesise_role_dependencies definitions)) as (H & _ & _).
  destruct (H incoming E) as (Hnd & _ & Hm). rewrite synthesise_names in Hnd. split; [done|].
  intros name d. rewrite Hm, lookup_empty. naive_solver.
Qed.

Lemma map_definitions_None definitions incoming name :
  map_definitions definitions = Ok incoming →
  incoming !! name = None ↔ name ∉ map sd_name definitions.
Proof.
  intros E. destruct (map_definitions_Ok definitions incoming E) as [_ Hm].
  rewrite <-synthesise_names, list_elem_of_fmap. split.
  - intros Hn (d & -> & Hd). assert (incoming !! sd_name d = Some d) by (by apply Hm). congruence.
  - intros Hn. apply eq_None_not_Some. intros [d Hd]. apply Hm in Hd as [? <-]. eauto.
Qed.

Lemma map_definitions_ok_iff definitions :
  is_ok (map_definitions definitions) = true ↔ NoDup (map sd_name definitions).
Proof.
  unfold map_definitions. split.
  - destruct (index_definitions _ _) as [m|] eqn:E; [|done]. intros _.
    by apply (map_definitions_Ok definitions m).
  - intros Hnd. apply (index_definitions_spec ∅); [by rewrite synthesise_names|].
    intros d _. apply lookup_empty.
Qed.
