(* ===== verification/ServiceReload.v ===== *)
(** * Reloading service definitions

    Models [src/src/service/table/reload.rs]: applying a registry snapshot to
    the table, with keys that do not decode and with entries frozen for the
    boot window. The three loops are translated as written; [reload_entry] is
    the specification, the effect on one service name as a function of that
    name's entry alone, and the loops are shown to implement it. *)

From S2P Require Import Prelude RustStr ServiceRuntime ServiceDef Roles Restart Cgroup ServiceTable.
From Stdlib Require Import String.
Open Scope string_scope.
Open Scope list_scope.

(** ** Data *)

Record UndecodableService : Type := {
  un_name : string;
  un_field : option string;
  un_message : string;
}.

Record ServiceReloadSummary : Type := {
  rs_added : list string;
  rs_updated : list string;
  rs_restored : list string;
  rs_marked_removed : list string;
  rs_discarded : list string;
  rs_undecodable : list string;
  rs_deferred : list string;
}.

Definition empty_summary : ServiceReloadSummary := {|
  rs_added := []; rs_updated := []; rs_restored := []; rs_marked_removed := [];
  rs_discarded := []; rs_undecodable := []; rs_deferred := [];
|}.

Definition summary_is_empty (self : ServiceReloadSummary) : bool :=
  match self with Build_ServiceReloadSummary [] [] [] [] [] [] [] => true | _ => false end.

(** [summary.<list>.push(name.clone())]. *)
Definition push_added (n : string) (s : ServiceReloadSummary) := {| s with rs_added := s.(rs_added) ++ [n] |}.
Definition push_updated (n : string) (s : ServiceReloadSummary) :=
  {| s with rs_updated := s.(rs_updated) ++ [n] |}.
Definition push_restored (n : string) (s : ServiceReloadSummary) :=
  {| s with rs_restored := s.(rs_restored) ++ [n] |}.
Definition push_marked_removed (n : string) (s : ServiceReloadSummary) :=
  {| s with rs_marked_removed := s.(rs_marked_removed) ++ [n] |}.
Definition push_discarded (n : string) (s : ServiceReloadSummary) :=
  {| s with rs_discarded := s.(rs_discarded) ++ [n] |}.
Definition push_undecodable (n : string) (s : ServiceReloadSummary) :=
  {| s with rs_undecodable := s.(rs_undecodable) ++ [n] |}.
Definition push_deferred (n : string) (s : ServiceReloadSummary) :=
  {| s with rs_deferred := s.(rs_deferred) ++ [n] |}.

(** ** One entry *)

Definition desired_definition (entry : ServiceEntry) : ServiceDefinition :=
  default entry.(en_definition) entry.(en_pending_definition).

(** What a running instance keeps of the definition it was started from. *)
Definition runtime_effective_definition (current incoming : ServiceDefinition) : ServiceDefinition :=
  {| incoming with
     sd_image_path := current.(sd_image_path);
     sd_service_type := current.(sd_service_type);
     sd_identity := current.(sd_identity);
     sd_required_privileges := current.(sd_required_privileges);
     sd_error_control := current.(sd_error_control);
     sd_remain_after_exit := current.(sd_remain_after_exit);
     sd_requires := current.(sd_requires);
     sd_wants := current.(sd_wants);
     sd_binds_to := current.(sd_binds_to);
     sd_conflicts := current.(sd_conflicts);
     sd_on_failure := current.(sd_on_failure);
     sd_conditions := current.(sd_conditions);
     sd_asserts := current.(sd_asserts);
     sd_triggers := current.(sd_triggers);
     sd_disabled := current.(sd_disabled);
     sd_compiled_in := current.(sd_compiled_in) |}.

(** [if a == b { None } else { Some(b.clone()) }]. *)
Definition unless_equal (a b : ServiceDefinition) : option ServiceDefinition :=
  if bool_decide (a = b) then None else Some b.

Definition apply_reloaded_definition (entry : ServiceEntry) (incoming : ServiceDefinition)
    : ServiceEntry :=
  if retains_definition_after_removal entry.(en_runtime).(rt_state) then
    let effective := runtime_effective_definition entry.(en_definition) incoming in
    {| entry with en_pending_definition := unless_equal effective incoming;
                  en_definition := effective |}
  else {| entry with en_definition := incoming; en_pending_definition := None |}.

Definition set_definition_removed (flag : bool) (entry : ServiceEntry) : ServiceEntry :=
  {| entry with en_definition_removed := flag |}.

Definition defer_definition (entry : ServiceEntry) (definition : ServiceDefinition) : ServiceEntry :=
  {| entry with en_pending_definition := unless_equal entry.(en_definition) definition |}.

Definition undecodable_message (service : UndecodableService) : string :=
  "Service definition failed to decode: " +:+ service.(un_message).

Definition apply_undecodable (service : UndecodableService) (self : ServiceTable)
    : TableResult unit :=
  let insert :=
    insert_undecodable_placeholder service.(un_name) TcValidationError
      (undecodable_message service) self in
  match self !! service.(un_name) with
  | Some entry =>
      if retains_definition_after_removal entry.(en_runtime).(rt_state) then
        (<[service.(un_name) := {| entry with en_definition_removed := true;
                                              en_pending_definition := None |}]> self, Ok tt)
      else insert
  | None => insert
  end.

(** ** The three loops *)

Section Loops.
Context (frozen : gset string).

Definition reload_incoming (st : ServiceTable * ServiceReloadSummary)
    (p : string * ServiceDefinition) : ServiceTable * ServiceReloadSummary :=
  let (self, summary) := st in
  let (name, definition) := p in
  match self !! name with
  | Some entry =>
      if bool_decide (name ∈ frozen) then
        (<[name := defer_definition entry definition]> self,
         if bool_decide (desired_definition entry = definition) then summary
         else push_deferred name summary)
      else
        let summary := if bool_decide (desired_definition entry = definition) then summary
                       else push_updated name summary in
        let summary := if entry.(en_definition_removed) then push_restored name summary
                       else summary in
        (<[name := set_definition_removed false (apply_reloaded_definition entry definition)]> self,
         summary)
  | None => (<[name := new_entry name definition]> self, push_added name summary)
  end.

Definition reload_existing (incoming_names undecodable_names : gset string)
    (st : ServiceTable * ServiceReloadSummary) (name : string)
    : ServiceTable * ServiceReloadSummary :=
  let (self, summary) := st in
  if bool_decide (name ∈ incoming_names) || bool_decide (name ∈ undecodable_names) then st
  else if bool_decide (name ∈ frozen) then (self, push_deferred name summary)
  else match self !! name with
       | None => st
       | Some entry =>
           if entry.(en_definition).(sd_compiled_in) then st
           else if retains_definition_after_removal entry.(en_runtime).(rt_state) then
             if entry.(en_definition_removed) then st
             else (<[name := set_definition_removed true entry]> self,
                   push_marked_removed name summary)
           else (delete name self, push_discarded name summary)
       end.

Fixpoint reload_undecodable (incoming_names : gset string) (self : ServiceTable)
    (summary : ServiceReloadSummary) (undecodable : list UndecodableService)
    : TableResult ServiceReloadSummary :=
  match undecodable with
  | [] => (self, Ok summary)
  | service :: undecodable =>
      let name := service.(un_name) in
      if bool_decide (name ∈ incoming_names) then
        reload_undecodable incoming_names self summary undecodable
      else if bool_decide (name ∈ frozen) && bool_decide (is_Some (self !! name)) then
        reload_undecodable incoming_names self (push_deferred name summary) undecodable
      else match apply_undecodable service self with
           | (self, Err e) => (self, Err e)
           | (self, Ok _) =>
               reload_undecodable incoming_names self (push_undecodable name summary) undecodable
           end
  end.
End Loops.

Definition apply_definition_snapshot_with (definitions : list ServiceDefinition)
    (undecodable : list UndecodableService) (frozen : list string) (self : ServiceTable)
    : TableResult ServiceReloadSummary :=
  match map_definitions definitions with
  | Err e => (self, Err e)
  | Ok incoming =>
      let frozen : gset string := list_to_set frozen in
      let st := foldl (reload_incoming frozen) (self, empty_summary) (btree_iter incoming) in
      let incoming_names : gset string := dom incoming in
      let undecodable_names : gset string := list_to_set (un_name <$> undecodable) in
      let '(self, summary) :=
        foldl (reload_existing frozen incoming_names undecodable_names) st (btree_keys st.1) in
      reload_undecodable frozen incoming_names self summary undecodable
  end.

Definition apply_definition_snapshot_with_undecodable (definitions : list ServiceDefinition)
    (undecodable : list UndecodableService) : ServiceTable → TableResult ServiceReloadSummary :=
  apply_definition_snapshot_with definitions undecodable [].

Definition apply_definition_snapshot (definitions : list ServiceDefinition)
    : ServiceTable → TableResult ServiceReloadSummary :=
  apply_definition_snapshot_with_undecodable definitions [].

(** ** Compiled-in services in a snapshot *)

Definition definition_inheriting_service_security (self : ServiceTable) (service : string)
    (inherited : option ServiceSecurityDescriptor) : option ServiceDefinition :=
  definition ← table_definition self service;
  Some {| definition with sd_service_security := default SdDefault inherited |}.

Definition compiled_in_definitions_absent_from (self : ServiceTable)
    (snapshot : list ServiceDefinition) (inherited : option ServiceSecurityDescriptor)
    : list ServiceDefinition :=
  omap (λ '(name, entry),
    if entry.(en_definition).(sd_compiled_in) &&
       negb (existsb (λ d, bool_decide (d.(sd_name) = name)) snapshot)
    then definition_inheriting_service_security self name inherited else None)
    (btree_iter self).

(** ** Specification: the effect on one name *)

Definition incoming_entry (frozen : bool) (name : string) (definition : ServiceDefinition)
    (o : option ServiceEntry) : ServiceEntry :=
  match o with
  | None => new_entry name definition
  | Some entry =>
      if frozen then defer_definition entry definition
      else set_definition_removed false (apply_reloaded_definition entry definition)
  end.

Definition absent_entry (frozen : bool) (entry : ServiceEntry) : option ServiceEntry :=
  if frozen || entry.(en_definition).(sd_compiled_in) then Some entry
  else if retains_definition_after_removal entry.(en_runtime).(rt_state)
  then Some (set_definition_removed true entry) else None.

(** A name entered as [Failed] because its key does not decode. *)
Definition failed_placeholder (service : UndecodableService) : ServiceEntry :=
  placeholder_entry service.(un_name) (undecodable_message service)
    (transition {| st_to := StFailed; st_cause := TcValidationError |} (inactive service.(un_name))).1.

Definition undecodable_entry (frozen : bool) (service : UndecodableService) (o : option ServiceEntry)
    : ServiceEntry :=
  match o with
  | Some entry =>
      if frozen then entry
      else if retains_definition_after_removal entry.(en_runtime).(rt_state)
      then {| entry with en_definition_removed := true; en_pending_definition := None |}
      else failed_placeholder service
  | None => failed_placeholder service
  end.

Definition undecodable_entries (frozen : bool) (services : list UndecodableService)
    (o : option ServiceEntry) : option ServiceEntry :=
  foldl (λ o service, Some (undecodable_entry frozen service o)) o services.

(** The snapshot says of [name]: a definition that decoded, the keys of that
    name that did not, or nothing. *)
Definition reload_entry (frozen : bool) (name : string) (incoming : option ServiceDefinition)
    (undecodable : list UndecodableService) (o : option ServiceEntry) : option ServiceEntry :=
  match incoming, undecodable with
  | Some definition, _ => Some (incoming_entry frozen name definition o)
  | None, [] => o ≫= absent_entry frozen
  | None, _ => undecodable_entries frozen undecodable o
  end.

Definition named (name : string) (undecodable : list UndecodableService) : list UndecodableService :=
  retain (λ service, bool_decide (service.(un_name) = name)) undecodable.

(** ** The loops implement the specification *)

(** What the first two loops note of a name, given its entry. *)
Definition note_incoming (frozen : gset string) (name : string) (definition : ServiceDefinition)
    (o : option ServiceEntry) (summary : ServiceReloadSummary) : ServiceReloadSummary :=
  match o with
  | None => push_added name summary
  | Some entry =>
      if bool_decide (name ∈ frozen) then
        if bool_decide (desired_definition entry = definition) then summary
        else push_deferred name summary
      else
        let summary := if bool_decide (desired_definition entry = definition) then summary
                       else push_updated name summary in
        if entry.(en_definition_removed) then push_restored name summary else summary
  end.

Section Existing.
Context (frozen incoming_names undecodable_names : gset string).

Definition skips_existing (name : string) : bool :=
  bool_decide (name ∈ incoming_names) || bool_decide (name ∈ undecodable_names).

Definition existing_entry (name : string) (o : option ServiceEntry) : option ServiceEntry :=
  if skips_existing name then o else o ≫= absent_entry (bool_decide (name ∈ frozen)).

Definition note_existing (name : string) (o : option ServiceEntry) (summary : ServiceReloadSummary)
    : ServiceReloadSummary :=
  if skips_existing name then summary
  else if bool_decide (name ∈ frozen) then push_deferred name summary
  else match o with
       | None => summary
       | Some entry =>
           if entry.(en_definition).(sd_compiled_in) then summary
           else if retains_definition_after_removal entry.(en_runtime).(rt_state) then
             if entry.(en_definition_removed) then summary else push_marked_removed name summary
           else push_discarded name summary
       end.
End Existing.

Lemma reload_incoming_keyed frozen st p :
  reload_incoming frozen st p =
  keyed_step (λ name d o, Some (incoming_entry (bool_decide (name ∈ frozen)) name d o))
    (note_incoming frozen) st p.
Proof.
  destruct st as [self summary], p as [name d]. unfold keyed_step, reload_incoming.
  simpl.
  destruct (self !! name) as [e|] eqn:E; simpl.
  - destruct (bool_decide (name ∈ frozen)) eqn:Ef; f_equal; symmetry; apply partial_alter_to_insert;
      by rewrite E.
  - f_equal. symmetry; apply partial_alter_to_insert. by rewrite E.
Qed.

Lemma set_definition_removed_same e flag :
  e.(en_definition_removed) = flag → set_definition_removed flag e = e.
Proof. intros <-. by destruct e. Qed.

Lemma reload_existing_keyed frozen inc und st name :
  reload_existing frozen inc und st name =
  keyed_step (λ name (_ : unit) o, existing_entry frozen inc und name o)
    (λ name _ o, note_existing frozen inc und name o) st (name, tt).
Proof.
  destruct st as [self summary]. unfold keyed_step, reload_existing. simpl.
  change (bool_decide (name ∈ inc) || bool_decide (name ∈ und)) with (skips_existing inc und name).
  assert (∀ b, existing_entry frozen inc und name (self !! name) = b →
    b = self !! name → self = partial_alter (existing_entry frozen inc und name) name self) as Hsame.
  { intros b <- Hb. symmetry. by apply partial_alter_same. }
  unfold existing_entry, note_existing in *. destruct (skips_existing inc und name) eqn:Es; simpl.
  { f_equal. by eapply Hsame. }
  destruct (bool_decide (name ∈ frozen)) eqn:Ef; simpl.
  { f_equal. eapply Hsame; [done|]. by destruct (self !! name). }
  destruct (self !! name) as [e|] eqn:E; simpl; [|f_equal; by eapply Hsame].
  unfold absent_entry in *. simpl in *.
  destruct (sd_compiled_in (en_definition e)) eqn:Ec; [f_equal; by eapply Hsame|].
  destruct (retains_definition_after_removal _) eqn:Er.
  - destruct (en_definition_removed e) eqn:Ed.
    + f_equal. eapply Hsame; [done|]. by rewrite set_definition_removed_same.
    + f_equal. symmetry. apply partial_alter_to_insert. rewrite E. simpl. by rewrite Ec, Er.
  - f_equal. symmetry. apply partial_alter_to_delete. rewrite E. simpl. by rewrite Ec, Er.
Qed.

Lemma foldl_ext_eq {A B} (f g : A → B → A) (l : list B) a :
  (∀ a b, f a b = g a b) → foldl f a l = foldl g a l.
Proof. intros E. revert a. induction l as [|b l IH]; intros a; simpl; [done|]. by rewrite E, IH. Qed.

Lemma existing_loop_keyed frozen inc und st names :
  foldl (reload_existing frozen inc und) st names =
  foldl (keyed_step (λ name (_ : unit) o, existing_entry frozen inc und name o)
    (λ name _ o, note_existing frozen inc und name o)) st ((λ n, (n, tt)) <$> names).
Proof.
  revert st. induction names as [|n names IH]; intros st; simpl; [done|].
  by rewrite reload_existing_keyed, IH.
Qed.

(** The first loop. *)
Lemma incoming_loop frozen incoming t s :
  let st := foldl (reload_incoming frozen) (t, s) (btree_iter incoming) in
  (∀ name, st.1 !! name =
     match incoming !! name with
     | Some d => Some (incoming_entry (bool_decide (name ∈ frozen)) name d (t !! name))
     | None => t !! name
     end) ∧
  st.2 = foldl (λ s p, note_incoming frozen p.1 p.2 (t !! p.1) s) s (btree_iter incoming).
Proof.
  simpl. rewrite (foldl_ext_eq _ _ _ _ (reload_incoming_keyed frozen)).
  pose proof (NoDup_btree_keys incoming) as Hnd. split; [|by apply keyed_loop_notes].
  intros name. destruct (incoming !! name) as [d|] eqn:E.
  - rewrite keyed_loop_at with (x := d); [done..|]. by apply elem_of_btree_iter.
  - rewrite keyed_loop_other; [done|]. change ((btree_iter incoming).*1) with (btree_keys incoming).
    rewrite elem_of_btree_keys. intros [? ?]. congruence.
Qed.

(** The second loop. *)
Lemma existing_loop frozen inc und t s :
  let st := foldl (reload_existing frozen inc und) (t, s) (btree_keys t) in
  (∀ name, st.1 !! name = existing_entry frozen inc und name (t !! name)) ∧
  st.2 = foldl (λ s name, note_existing frozen inc und name (t !! name) s) s (btree_keys t).
Proof.
  simpl. rewrite existing_loop_keyed.
  assert (((λ n, (n, tt)) <$> btree_keys t).*1 = btree_keys t) as Hk.
  { rewrite <-list_fmap_compose. by rewrite list_fmap_id. }
  pose proof (NoDup_btree_keys t) as Hnd. rewrite <-Hk in Hnd. split.
  - intros name. destruct (t !! name) as [e|] eqn:E.
    + rewrite keyed_loop_at with (x := tt); [by simpl; rewrite E|done|].
      apply list_elem_of_fmap. exists name. split; [done|]. apply elem_of_btree_keys. eauto.
    + rewrite keyed_loop_other.
      * simpl. rewrite E. unfold existing_entry. by destruct (skips_existing _ _ _).
      * rewrite Hk, elem_of_btree_keys, E. by intros [? ?].
  - rewrite keyed_loop_notes by done. simpl. clear Hnd Hk.
    generalize (btree_keys t) as l. intros l. revert s.
    induction l as [|n l IH]; intros s; simpl; [done|]. apply IH.
Qed.

(** Entering a placeholder cannot fail. *)
Lemma apply_undecodable_at service t :
  apply_undecodable service t =
  (<[service.(un_name) := undecodable_entry false service (t !! service.(un_name))]> t, Ok tt).
Proof.
  unfold apply_undecodable, undecodable_entry. destruct (t !! _) as [e|] eqn:E; [|done].
  by destruct (retains_definition_after_removal _).
Qed.

(** The third loop. *)
Lemma undecodable_loop frozen inc t s us :
  ∃ t' deferred undecodable,
    reload_undecodable frozen inc t s us =
      (t', Ok {| s with rs_deferred := s.(rs_deferred) ++ deferred;
                        rs_undecodable := s.(rs_undecodable) ++ undecodable |}) ∧
    ∀ name, t' !! name =
      if bool_decide (name ∈ inc) then t !! name
      else undecodable_entries (bool_decide (name ∈ frozen)) (named name us) (t !! name).
Proof.
  revert t s. induction us as [|u us IH]; intros t s; simpl.
  { exists t, [], []. rewrite !app_nil_r. split; [by destruct s|]. intros name. by case_bool_decide. }
  destruct (bool_decide (un_name u ∈ inc)) eqn:Ei.
  { destruct (IH t s) as (t' & d & n & -> & Ht'). exists t', d, n. split; [done|]. intros name.
    rewrite Ht'. unfold named, retain. rewrite filter_cons.
    destruct (decide (bool_decide (un_name u = name) = true)) as [<-%bool_decide_eq_true|]; [|done].
    by rewrite Ei. }
  destruct (bool_decide (un_name u ∈ frozen) && bool_decide (is_Some (t !! un_name u))) eqn:Ef.
  - apply andb_true_iff in Ef as [Ef [e Ee]%bool_decide_eq_true].
    destruct (IH t (push_deferred (un_name u) s)) as (t' & d & n & -> & Ht').
    exists t', (un_name u :: d), n. split; [by simpl; rewrite <-app_assoc|].
    intros name. rewrite Ht'. unfold named, retain. rewrite filter_cons.
    destruct (decide (bool_decide (un_name u = name) = true)) as [<-%bool_decide_eq_true|]; [|done].
    rewrite Ei, Ef, Ee. done.
  - rewrite apply_undecodable_at.
    destruct (IH (<[un_name u:=undecodable_entry false u (t !! un_name u)]> t)
      (push_undecodable (un_name u) s)) as (t' & d & n & -> & Ht').
    exists t', d, (un_name u :: n). split; [by simpl; rewrite <-app_assoc|].
    intros name. rewrite Ht'. unfold named, retain. rewrite filter_cons.
    destruct (decide (bool_decide (un_name u = name) = true)) as [<-%bool_decide_eq_true|Hne].
    + rewrite Ei, lookup_insert_eq. unfold undecodable_entries at 2. simpl.
      destruct (bool_decide (un_name u ∈ frozen)), (t !! un_name u) as [e|]; try done.
    + rewrite lookup_insert_ne; [done|]. rewrite bool_decide_eq_true in Hne. done.
Qed.

(** The summary after the first two loops. *)
Definition loop_summary (frozen : gset string) (incoming : gmap string ServiceDefinition)
    (und : gset string) (t t1 : ServiceTable) : ServiceReloadSummary :=
  foldl (λ s name, note_existing frozen (dom incoming) und name (t1 !! name) s)
    (foldl (λ s p, note_incoming frozen p.1 p.2 (t !! p.1) s) empty_summary (btree_iter incoming))
    (btree_keys t1).

Lemma named_nil name us : named name us = [] ↔ name ∉ (list_to_set (un_name <$> us) : gset string).
Proof.
  rewrite elem_of_list_to_set, list_elem_of_fmap. unfold named. split.
  - intros E (u & -> & Hu). apply (not_elem_of_nil u). rewrite <-E. apply elem_of_retain.
    by rewrite bool_decide_true.
  - intros Hn. destruct (retain _ us) as [|u l] eqn:E; [done|].
    destruct Hn. exists u. assert (u ∈ retain (λ service, bool_decide (un_name service = name)) us) as Hu.
    { rewrite E. by left. }
    apply elem_of_retain in Hu as [->%bool_decide_eq_true ?]. done.
Qed.

Lemma apply_snapshot_spec definitions us frozen t incoming :
  map_definitions definitions = Ok incoming →
  ∃ t1 t' deferred undecodable,
    let s := loop_summary (list_to_set frozen) incoming (list_to_set (un_name <$> us)) t t1 in
    (∀ name, t1 !! name =
       match incoming !! name with
       | Some d => Some (incoming_entry (bool_decide (name ∈ frozen)) name d (t !! name))
       | None => t !! name
       end) ∧
    apply_definition_snapshot_with definitions us frozen t =
      (t', Ok {| s with rs_deferred := s.(rs_deferred) ++ deferred;
                        rs_undecodable := s.(rs_undecodable) ++ undecodable |}) ∧
    ∀ name, t' !! name =
      reload_entry (bool_decide (name ∈ frozen)) name (incoming !! name) (named name us) (t !! name).
Proof.
  intros Hm. unfold apply_definition_snapshot_with. rewrite Hm.
  set (fz := list_to_set frozen : gset string). set (und := list_to_set (un_name <$> us) : gset string).
  assert (∀ name, bool_decide (name ∈ fz) = bool_decide (name ∈ frozen)) as Hfz.
  { intros name. apply bool_decide_ext. apply elem_of_list_to_set. }
  destruct (incoming_loop fz incoming t empty_summary) as [H1 S1].
  destruct (foldl (reload_incoming fz) _ _) as [t1 s1]. simpl in H1, S1. subst s1. simpl.
  destruct (existing_loop fz (dom incoming) und t1
    (foldl (λ s p, note_incoming fz p.1 p.2 (t !! p.1) s) empty_summary (btree_iter incoming))) as [H2 S2].
  destruct (foldl (reload_existing _ _ _) _ _) as [t2 s2]. simpl in H2, S2. subst s2.
  destruct (undecodable_loop fz (dom incoming) t2 (loop_summary fz incoming und t t1) us)
    as (t' & d & n & E & H3).
  exists t1, t', d, n. split; [|split; [exact E|]].
  { intros name. by rewrite H1, Hfz. }
  intros name. rewrite H3, H2, H1. unfold existing_entry, skips_existing, reload_entry. rewrite !Hfz.
  destruct (incoming !! name) as [d'|] eqn:Ei.
  { rewrite bool_decide_true by (by apply elem_of_dom). done. }
  rewrite !(bool_decide_false (name ∈ dom incoming)) by (by apply not_elem_of_dom). simpl.
  destruct (named name us) as [|u l] eqn:Eu.
  - rewrite (bool_decide_false (name ∈ und)) by (by apply named_nil). done.
  - rewrite (bool_decide_true (name ∈ und)); [done|]. apply dec_stable. intros Hn. apply named_nil in Hn. congruence.
Qed.

(** ** Theorems *)

(** C3: Reload refines its specification. A snapshot with a duplicated name is
    refused and leaves the table as it was; any other snapshot is applied, never
    failing half-way, and the entry of every name afterwards is [reload_entry]
    of what the snapshot says of that name and of that name's entry before. *)
Theorem reload_refines_spec definitions undecodable frozen t :
  match map_definitions definitions with
  | Err e => apply_definition_snapshot_with definitions undecodable frozen t = (t, Err e)
  | Ok incoming =>
      ∃ t' summary,
        apply_definition_snapshot_with definitions undecodable frozen t = (t', Ok summary) ∧
        ∀ name, t' !! name =
          reload_entry (bool_decide (name ∈ frozen)) name (incoming !! name)
            (named name undecodable) (t !! name)
  end.
Proof.
  destruct (map_definitions definitions) as [incoming|e] eqn:Hm.
  - destruct (apply_snapshot_spec definitions undecodable frozen t incoming Hm)
      as (t1 & t' & d & n & _ & E & H). eauto.
  - unfold apply_definition_snapshot_with. by rewrite Hm.
Qed.

(** What a running instance keeps is kept by every later reload. *)
Lemma runtime_effective_idempotent current d :
  runtime_effective_definition (runtime_effective_definition current d) d =
  runtime_effective_definition current d.
Proof. done. Qed.

Lemma unless_equal_default a b : default a (unless_equal a b) = b.
Proof. unfold unless_equal. by case_bool_decide. Qed.

Lemma incoming_entry_idempotent frozen name d o :
  incoming_entry frozen name d (Some (incoming_entry frozen name d o)) = incoming_entry frozen name d o ∧
  desired_definition (incoming_entry frozen name d o) = d ∧
  (frozen = false → en_definition_removed (incoming_entry frozen name d o) = false).
Proof.
  destruct o as [e|]; simpl; [destruct frozen; simpl|].
  - split_and!; [done| |done]. apply unless_equal_default.
  - unfold apply_reloaded_definition.
    destruct (retains_definition_after_removal (rt_state (en_runtime e))) eqn:Er; simpl;
      rewrite Er; [|done]. split_and!; [done| |done]. apply unless_equal_default.
  - destruct frozen; (split_and!; [|done|done]).
    + unfold defer_definition, new_entry, unless_equal. simpl. by rewrite bool_decide_true.
    + done.
Qed.

Lemma absent_entry_idempotent frozen e e' :
  absent_entry frozen e = Some e' → absent_entry frozen e' = Some e'.
Proof.
  unfold absent_entry. destruct (frozen || _) eqn:E1; [by intros [= <-]; rewrite E1|].
  destruct (retains_definition_after_removal _) eqn:E2; [|done]. intros [= <-]. simpl. by rewrite E1, E2.
Qed.

Definition withdraw (e : ServiceEntry) : ServiceEntry :=
  {| e with en_definition_removed := true; en_pending_definition := None |}.

(** Where the keys of one name lead, in closed form. *)
Lemma undecodable_entries_cons frozen u us o :
  undecodable_entries frozen (u :: us) o = Some
    match o with
    | None => failed_placeholder (if frozen then u else default u (last us))
    | Some e =>
        if frozen then e
        else if retains_definition_after_removal e.(en_runtime).(rt_state) then withdraw e
        else failed_placeholder (default u (last us))
    end.
Proof.
  revert u o. induction us as [|u' us IH]; intros u o.
  - destruct o; simpl; by destruct frozen.
  - change (undecodable_entries frozen (u :: u' :: us) o) with
      (undecodable_entries frozen (u' :: us) (Some (undecodable_entry frozen u o))).
    rewrite IH. f_equal.
    assert (default u (last (u' :: us)) = default u' (last us)) as Hl.
    { rewrite last_cons. by destruct (last us). }
    rewrite Hl. destruct o as [e|]; simpl; destruct frozen; try done.
    destruct (retains_definition_after_removal (rt_state (en_runtime e))) eqn:Er; simpl; by rewrite ?Er.
Qed.

Lemma reload_entry_idempotent frozen name inc us o :
  reload_entry frozen name inc us (reload_entry frozen name inc us o) =
  reload_entry frozen name inc us o.
Proof.
  unfold reload_entry. destruct inc as [d|].
  - by rewrite (proj1 (incoming_entry_idempotent frozen name d o)).
  - destruct us as [|u us].
    + destruct o as [e|]; simpl; [|done]. destruct (absent_entry frozen e) as [e'|] eqn:E; simpl; [|done].
      by eapply absent_entry_idempotent.
    + rewrite !undecodable_entries_cons. destruct o as [e|]; destruct frozen; try done.
      destruct (retains_definition_after_removal (rt_state (en_runtime e))) eqn:Er; simpl; [|done].
      by rewrite Er.
Qed.

(** Second-round notes: nothing. *)
Lemma note_incoming_again frozen name d o s :
  let e := incoming_entry (bool_decide (name ∈ frozen)) name d o in
  note_incoming frozen name d (Some e) s = s.
Proof.
  simpl. destruct (incoming_entry_idempotent (bool_decide (name ∈ frozen)) name d o) as (_ & Hd & Hr).
  unfold note_incoming. rewrite Hd, (bool_decide_true (d = d)) by done.
  destruct (bool_decide (name ∈ frozen)) eqn:Ef; [done|]. by rewrite Hr.
Qed.

(** Every list but [undecodable] and [deferred] is empty: the table does not
    change. *)
Definition changes_nothing (s : ServiceReloadSummary) : bool :=
  match s with Build_ServiceReloadSummary [] [] [] [] [] _ _ => true | _ => false end.

Lemma note_existing_again frozen inc und name o s :
  changes_nothing s = true →
  existing_entry frozen inc und name o = o →
  changes_nothing (note_existing frozen inc und name o s) = true.
Proof.
  intros Hs. unfold existing_entry, note_existing. destruct (skips_existing _ _ _); [done|].
  destruct (bool_decide (name ∈ frozen)) eqn:Ef.
  { intros _. destruct s as [[] [] [] [] []]; done. }
  destruct o as [e|]; simpl; [|done]. unfold absent_entry. simpl.
  destruct (sd_compiled_in _); [done|]. destruct (retains_definition_after_removal _) eqn:Er; [|done].
  intros [= E]. rewrite <-E. done.
Qed.

Section Fixed.
Context (frozen : list string) (incoming : gmap string ServiceDefinition)
  (us : list UndecodableService) (t : ServiceTable).
Context (Hfix : ∀ name, reload_entry (bool_decide (name ∈ frozen)) name (incoming !! name)
  (named name us) (t !! name) = t !! name).

Lemma frozen_set name :
  bool_decide (name ∈ (list_to_set frozen : gset string)) = bool_decide (name ∈ frozen).
Proof. apply bool_decide_ext. apply elem_of_list_to_set. Qed.

Lemma fixed_incoming_notes l s :
  (∀ p, p ∈ l → incoming !! p.1 = Some p.2) →
  foldl (λ s p, note_incoming (list_to_set frozen) p.1 p.2 (t !! p.1) s) s l = s.
Proof.
  revert s. induction l as [|[name d] l IH]; intros s Hl; simpl; [done|].
  assert (incoming !! name = Some d) as Hin by (apply (Hl (name, d)); left).
  pose proof (Hfix name) as H. rewrite Hin in H. simpl in H.
  rewrite <-H, <-frozen_set, note_incoming_again. apply IH. intros p Hp. apply Hl. by right.
Qed.

Lemma fixed_existing name :
  existing_entry (list_to_set frozen) (dom incoming) (list_to_set (un_name <$> us)) name (t !! name) =
  t !! name.
Proof.
  unfold existing_entry. destruct (skips_existing _ _ _) eqn:Es; [done|].
  apply orb_false_iff in Es as [Ed%bool_decide_eq_false Eu%bool_decide_eq_false].
  apply not_elem_of_dom in Ed. apply named_nil in Eu. pose proof (Hfix name) as H.
  rewrite Ed, Eu in H. simpl in H. by rewrite frozen_set.
Qed.

Lemma fixed_summary :
  changes_nothing
    (loop_summary (list_to_set frozen) incoming (list_to_set (un_name <$> us)) t t) = true.
Proof.
  unfold loop_summary. rewrite fixed_incoming_notes by (intros [name d] Hp; by apply elem_of_btree_iter).
  assert (changes_nothing empty_summary = true) as Hs by done. revert Hs.
  generalize empty_summary. generalize (btree_keys t).
  induction l as [|name l IH]; intros s Hs; simpl; [done|].
  apply IH, note_existing_again; [done|]. apply fixed_existing.
Qed.
End Fixed.

(** Reload is idempotent: applying the same snapshot a second time leaves
    the table as the first application left it, and its summary reports nothing
    added, updated, restored, marked removed or discarded. *)
Theorem reload_idempotent definitions undecodable frozen t t1 summary :
  apply_definition_snapshot_with definitions undecodable frozen t = (t1, Ok summary) →
  ∃ summary',
    apply_definition_snapshot_with definitions undecodable frozen t1 = (t1, Ok summary') ∧
    changes_nothing summary' = true.
Proof.
  intros E1. destruct (map_definitions definitions) as [incoming|e] eqn:Hm.
  2: { unfold apply_definition_snapshot_with in E1. rewrite Hm in E1. done. }
  destruct (apply_snapshot_spec definitions undecodable frozen t incoming Hm)
    as (? & t' & ? & ? & _ & E & H1). simpl in E. rewrite E1 in E. injection E as <- _.
  destruct (apply_snapshot_spec definitions undecodable frozen t1 incoming Hm)
    as (t2 & t3 & d & n & H2 & E & H3).
  assert (∀ name, reload_entry (bool_decide (name ∈ frozen)) name (incoming !! name)
    (named name undecodable) (t1 !! name) = t1 !! name) as Hfix.
  { intros name. rewrite H1. apply reload_entry_idempotent. }
  assert (t3 = t1) as -> by (apply map_eq; intros name; by rewrite H3).
  assert (t2 = t1) as ->.
  { apply map_eq. intros name. rewrite H2. specialize (Hfix name). by destruct (incoming !! name). }
  eexists. split; [exact E|].
  pose proof (fixed_summary frozen incoming undecodable t1 Hfix) as Hs.
  by destruct (loop_summary _ _ _ _ _) as [[] [] [] [] []].
Qed.

Definition app_definition : ServiceDefinition := simple_system_boot "app" "/bin/app".
Definition broken_key : UndecodableService :=
  {| un_name := "broken"; un_field := None; un_message := "bad" |}.

Lemma reload_idempotent_witness :
  let r := apply_definition_snapshot_with [app_definition] [broken_key] [] ∅ in
  rs_added <$> (match r.2 with Ok s => Some s | _ => None end) = Some ["app"] ∧
  ∃ summary',
    apply_definition_snapshot_with [app_definition] [broken_key] [] r.1 = (r.1, Ok summary') ∧
    changes_nothing summary' = true.
Proof.
  intros r. split; [vm_compute; reflexivity|].
  destruct r as [t1 [s|e]] eqn:E.
  - exact (reload_idempotent [app_definition] [broken_key] [] ∅ t1 s E).
  - exfalso. apply (f_equal (λ r, is_ok r.2)) in E. vm_compute in E. discriminate E.
Defined.

(** A compiled-in service that the snapshot does not mention is left exactly
    as it is by a reload, in every state: it is neither marked removed nor
    discarded. *)
Theorem compiled_in_survives_absence definitions undecodable frozen t t1 summary name e :
  apply_definition_snapshot_with definitions undecodable frozen t = (t1, Ok summary) →
  name ∉ map sd_name definitions →
  name ∉ un_name <$> undecodable →
  t !! name = Some e → e.(en_definition).(sd_compiled_in) = true →
  t1 !! name = Some e.
Proof.
  intros E1 Hn Hu He Hc. destruct (map_definitions definitions) as [incoming|e'] eqn:Hm.
  2: { unfold apply_definition_snapshot_with in E1. rewrite Hm in E1. done. }
  destruct (apply_snapshot_spec definitions undecodable frozen t incoming Hm)
    as (? & t' & ? & ? & _ & E & H1). simpl in E. rewrite E1 in E. injection E as <- _.
  rewrite H1, (proj2 (map_definitions_None definitions incoming name Hm)) by done.
  rewrite (proj2 (named_nil name undecodable)) by (by rewrite elem_of_list_to_set).
  rewrite He. simpl. unfold absent_entry. by rewrite Hc, orb_true_r.
Qed.

(** A running registryd: the boot table taken through start and readiness. *)
Definition registryd_running : ServiceTable :=
  match from_boot_snapshot [compiled_in_registryd] with
  | Ok t =>
      let t := (transition_service "registryd" {| st_to := StStarting; st_cause := TcExplicitStart |} t).1 in
      (transition_service "registryd" {| st_to := StActive; st_cause := TcExplicitStart |} t).1
  | Err _ => ∅
  end.

Definition compiled_in_of (t : ServiceTable) (name : string) : option bool :=
  sd_compiled_in <$> table_definition t name.

Lemma compiled_in_survives_absence_witness :
  let t1 := (apply_definition_snapshot_with [app_definition] [] [] registryd_running).1 in
  match registryd_running !! "registryd" with
  | Some e => t1 !! "registryd" = Some e
  | None => False
  end.
Proof.
  intros t1. destruct (registryd_running !! "registryd") as [e|] eqn:E; [|by vm_compute in E].
  destruct (apply_definition_snapshot_with [app_definition] [] [] registryd_running)
    as [t [s|e']] eqn:Ea.
  - apply (compiled_in_survives_absence [app_definition] [] [] registryd_running t s "registryd" e);
      [exact Ea| | |exact E|].
    + apply (bool_decide_unpack _). vm_compute. exact I.
    + apply (bool_decide_unpack _). vm_compute. exact I.
    + assert (compiled_in_of registryd_running "registryd" = Some true) as Hc by (vm_compute; reflexivity).
      unfold compiled_in_of, table_definition in Hc. rewrite E in Hc. by injection Hc.
  - apply (f_equal (λ r, is_ok r.2)) in Ea. vm_compute in Ea. discriminate Ea.
Defined.

Definition shadow : ServiceDefinition := simple_system_boot "registryd" "/sbin/registryd".

(** A registry key that shadows a compiled-in name strips its provenance:
    while registryd runs the flag is kept, but the shadowing definition waits as
    pending, replaces it (flag and all) when the instance drains, and the next
    reload that no longer names the service discards it. *)
Theorem shadowed_compiled_in_is_removable :
  let t1 := (apply_definition_snapshot [shadow] registryd_running).1 in
  let t2 := (transition_service "registryd" {| st_to := StInactive; st_cause := TcCleanExit |} t1).1 in
  let t3 := (apply_definition_snapshot [] t2).1 in
  compiled_in_of t1 "registryd" = Some true ∧
  compiled_in_of t2 "registryd" = Some false ∧
  t3 !! "registryd" = None.
Proof. vm_compute. done. Qed.

(** The boot table exists exactly when no two definitions share a name, and
    then holds for each name an inactive entry with the definition as role
    synthesis leaves it, and nothing else. *)
Theorem boot_table_spec definitions :
  match from_boot_snapshot definitions with
  | Err e => ¬ NoDup (map sd_name definitions)
  | Ok t =>
      NoDup (map sd_name definitions) ∧
      ∀ name e, t !! name = Some e ↔
        ∃ d, d ∈ synthesise_role_dependencies definitions ∧ d.(sd_name) = name ∧ e = new_entry name d
  end.
Proof.
  unfold from_boot_snapshot. pose proof (map_definitions_ok_iff definitions) as Hok.
  destruct (map_definitions definitions) as [m|e] eqn:E; simpl in *.
  - destruct (map_definitions_Ok definitions m E) as [Hnd Hm]. split; [done|]. intros name e.
    rewrite map_lookup_imap, bind_Some. setoid_rewrite Hm. naive_solver.
  - rewrite <-Hok. done.
Qed.
