(* ===== verification/ServiceTableInv.v ===== *)
(** * What the service table maintains

    The operations of [ServiceTable] and [ServiceReload] as one step relation,
    the invariant every reachable table satisfies, and the behaviour of the
    operations that move a service: transitions, restart backoff, leaked control
    groups and progress events. *)

From S2P Require Import Prelude RustStr ServiceRuntime ServiceDef Roles Restart Cgroup.
From S2P Require Import ServiceTable ServiceReload.
From Stdlib Require Import String.
Open Scope string_scope.
Open Scope list_scope.
Open Scope Z_scope.

(** ** The invariant *)

(** A leaked path lies in the tree of generation [g] of [service]. *)
Definition leak_in_generation (service : string) (g : Z) (leak : LeakedCgroup) : bool :=
  leak_affects_tree leak.(lk_path) (service_cgroup_root_path service g).

Record runtime_wf (name : string) (r : ServiceRuntimeSnapshot) : Prop := {
  rw_service : r.(rt_service) = name;
  rw_backoff : is_Some r.(rt_restart_backoff_until_ns) → r.(rt_state) = StBackoff;
  rw_satisfied : is_Some r.(rt_dependent_satisfied_since_ns) →
    satisfies_dependents r.(rt_state) = true;
  rw_generation : is_u64 r.(rt_cgroup_generation);
  rw_leaks : ∀ leak g, leak ∈ r.(rt_leaked_cgroups) → is_u64 g →
    leak_in_generation name g leak = true →
    g < r.(rt_cgroup_generation) ∨ r.(rt_cgroup_generation) = u64_max;
}.

Record entry_wf (name : string) (e : ServiceEntry) : Prop := {
  ew_definition : e.(en_definition).(sd_name) = name;
  ew_pending : ∀ d, e.(en_pending_definition) = Some d → d.(sd_name) = name;
  ew_removed : e.(en_definition_removed) = true →
    retains_definition_after_removal e.(en_runtime).(rt_state) = true ∨
    e.(en_runtime).(rt_state) = StFailed;
  ew_runtime : runtime_wf name e.(en_runtime);
}.

Definition table_wf (t : ServiceTable) : Prop := map_Forall entry_wf t.

(** ** Steps *)

(** Every operation that changes the table. The control groups peinit reports
    as leaked are ones it made, so not of a generation still to come. *)
Inductive table_step (t : ServiceTable) : ServiceTable → Prop :=
| step_transition service tr : table_step t (transition_service service tr t).1
| step_oneshot service : table_step t (release_completed_oneshot_if_not_retained service t).1
| step_backoff service cause until :
    table_step t (transition_service_to_restart_backoff service cause until t).1
| step_consume_backoff service : table_step t (consume_restart_backoff service t).1
| step_reset_failures service : table_step t (reset_restart_failures_after_window service t).1
| step_satisfied service at_ns : table_step t (table_mark_dependent_satisfied_since service at_ns t).1
| step_leak service path kind at_ns :
    (∀ e g, t !! service = Some e → is_u64 g →
       leak_affects_tree path (service_cgroup_root_path service g) = true →
       g ≤ e.(en_runtime).(rt_cgroup_generation)) →
    table_step t (record_leaked_cgroup service path kind at_ns t).1
| step_health_success service at_ns : table_step t (record_health_success service at_ns t).1
| step_health_failure service at_ns : table_step t (record_health_failure service at_ns t).1
| step_status_text service text : table_step t (update_status_text service text t).1
| step_progress service progress : table_step t (update_progress service progress t).1
| step_progress_unit service u : table_step t (update_progress_unit service u t).1
| step_progress_event service at_ns : table_step t (take_progress_event service at_ns t).1
| step_levels service levels : table_step t (update_levels service levels t).1
| step_clear_level service : table_step t (clear_level service t).1
| step_acknowledge service : table_step t (acknowledge_stopping service t).1
| step_stopping_timeout service evidence : table_step t (record_stopping_timeout service evidence t).1
| step_set_timer service : table_step t (set_pending_timer service t).1
| step_clear_timer service : table_step t (clear_pending_timer service t).1
| step_placeholder service cause message :
    table_step t (insert_undecodable_placeholder service cause message t).1
| step_reload definitions undecodable frozen :
    table_step t (apply_definition_snapshot_with definitions undecodable frozen t).1.

(** The tables of a running peinit: the boot table, then any steps. *)
Definition reachable (t : ServiceTable) : Prop :=
  ∃ definitions t0, from_boot_snapshot definitions = Ok t0 ∧ rtc table_step t0 t.

(** ** Runtime updates preserve it *)

Lemma inactive_wf name : runtime_wf name (inactive name).
Proof.
  split; simpl; try done; try (intros [? ?]; done).
  intros leak g Hl. by apply not_elem_of_nil in Hl.
Qed.

Lemma with_entry_wf {A} service (f : ServiceEntry → ServiceEntry * A) t :
  (∀ e, t !! service = Some e → entry_wf service e → entry_wf service (f e).1) →
  table_wf t → table_wf (with_entry service f t).1.
Proof.
  intros Hf Ht. unfold with_entry. destruct (t !! service) as [e|] eqn:E; [|done].
  specialize (Hf e eq_refl (Ht _ _ E)). destruct (f e). by apply map_Forall_insert_2.
Qed.

Lemma with_runtime_wf {A} service (f : ServiceRuntimeSnapshot → ServiceRuntimeSnapshot * A) t :
  (∀ e, t !! service = Some e → runtime_wf service e.(en_runtime) →
     runtime_wf service (f e.(en_runtime)).1 ∧
     (f e.(en_runtime)).1.(rt_state) = e.(en_runtime).(rt_state)) →
  table_wf t → table_wf (with_runtime service f t).1.
Proof.
  intros Hf. apply with_entry_wf. intros e E [H1 H2 H3 H4]. destruct (Hf e E H4) as [Hr Hs].
  destruct (f (en_runtime e)) as [r a]; simpl in *. split; simpl; try done. rewrite Hs. done.
Qed.

Lemma record_leak_wf service path kind at_ns r :
  (∀ g, is_u64 g → leak_affects_tree path (service_cgroup_root_path service g) = true →
     g ≤ r.(rt_cgroup_generation)) →
  runtime_wf service r → runtime_wf service (record_leak service path kind at_ns r).1.
Proof.
  intros Hg Hwf. unfold record_leak. destruct (existsb _ _); [done|]. destruct Hwf as [H1 H2 H3 H4 H5].
  unfold is_u64, u64_saturating_add in *. split; simpl; try done.
  - unfold is_u64. destruct (leak_affects_tree _ _); lia.
  - intros leak g [Hl| ->%list_elem_of_singleton]%elem_of_app Hug Hin.
    + specialize (H5 leak g Hl Hug Hin). destruct (leak_affects_tree _ _); lia.
    + unfold leak_in_generation in Hin. simpl in Hin. specialize (Hg g Hug Hin).
      destruct (decide (g = rt_cgroup_generation r)) as [->|].
      * rewrite Hin. lia.
      * clear Hin. destruct (leak_affects_tree _ _); lia.
Qed.

Lemma transition_runtime_wf name tr r r' ev :
  transition tr r = (r', Ok ev) → runtime_wf name r →
  runtime_wf name (update_restart_metadata_after_transition ev r').
Proof.
  intros E [H1 H2 H3 H4 H5].
  apply transition_Ok_inv in E as (Ha & -> & Hs & Hst & _ & _ & _ & Hsat & _ & Hb & Hc & Hl).
  unfold update_restart_metadata_after_transition. simpl.
  assert (is_Some (rt_dependent_satisfied_since_ns r') → satisfies_dependents (rt_state r') = true) as Hsat'.
  { rewrite Hsat, Hst. destruct (satisfies_dependents (st_to tr)); [done|]. by intros [? ?]. }
  assert (bool_decide (st_to tr = StBackoff) = true → rt_state r' = StBackoff) as Hbk.
  { rewrite Hst. apply bool_decide_eq_true. }
  destruct (bool_decide (st_to tr = StBackoff)), (bool_decide (st_to tr = StInactive) && _);
    split; simpl; rewrite ?Hc, ?Hl, ?Hs; auto; by intros [? ?].
Qed.

(** What a permitted transition makes of an entry: its runtime moved on, its
    pending definition taken up if the instance has drained, and the entry
    itself gone if its definition was withdrawn. *)
Definition entry_after (e : ServiceEntry) (r : ServiceRuntimeSnapshot) (to : ServiceState)
    : option ServiceEntry :=
  if retains_definition_after_removal to then Some (set_runtime e r)
  else if e.(en_definition_removed) then None
  else Some {| en_definition := desired_definition e; en_pending_definition := None;
               en_runtime := r; en_definition_removed := false |}.

Definition released_by (e : ServiceEntry) (to : ServiceState) : option string :=
  if holds_tty e.(en_runtime).(rt_state) && negb (holds_tty to)
  then e.(en_definition).(sd_console_path) else None.

Lemma update_metadata_state ev r :
  (update_restart_metadata_after_transition ev r).(rt_state) = r.(rt_state).
Proof. unfold update_restart_metadata_after_transition. by repeat case_match. Qed.

Lemma set_runtime_same e : set_runtime e e.(en_runtime) = e.
Proof. by destruct e. Qed.

Lemma settle_drained service e r to t :
  r.(rt_state) = to →
  discard_drained_definition_removed service
    (apply_pending_definition_if_drained service (<[service := set_runtime e r]> t)) =
  (partial_alter (λ _, entry_after e r to) service t,
   e.(en_definition_removed) && negb (retains_definition_after_removal to)).
Proof.
  intros Hr. unfold apply_pending_definition_if_drained. rewrite lookup_insert_eq. simpl.
  unfold discard_drained_definition_removed, entry_after, desired_definition. rewrite Hr.
  destruct (retains_definition_after_removal to) eqn:Hret.
  - rewrite orb_true_r, lookup_insert_eq. simpl. rewrite Hr, Hret. simpl. by rewrite andb_false_r.
  - rewrite orb_false_r. destruct (en_definition_removed e) eqn:Hrem; simpl.
    + rewrite lookup_insert_eq. simpl. rewrite Hrem, Hr, Hret. simpl.
      by rewrite delete_insert_eq, (partial_alter_to_delete _ t).
    + destruct (en_pending_definition e) as [d|] eqn:Hp; simpl; rewrite lookup_insert_eq; simpl.
      * by rewrite insert_insert_eq.
      * rewrite Hrem. unfold set_runtime. by rewrite Hp, Hrem.
Qed.

Lemma transition_service_unfold service tr t :
  transition_service service tr t =
  match t !! service with
  | None => (t, Err (UnknownService service))
  | Some e =>
      match transition tr e.(en_runtime) with
      | (_, Err error) => (t, Err (TransitionError error))
      | (r, Ok event) =>
          (partial_alter (λ _, entry_after e (update_restart_metadata_after_transition event r) tr.(st_to))
             service t,
           Ok {| tt_event := event;
                 tt_discarded_definition_removed :=
                   e.(en_definition_removed) && negb (retains_definition_after_removal tr.(st_to));
                 tt_released_tty := released_by e tr.(st_to) |})
      end
  end.
Proof.
  unfold transition_service. destruct (t !! service) as [e|] eqn:E; [|done].
  destruct (transition tr (en_runtime e)) as [r [ev|err]] eqn:Et.
  - apply transition_Ok_inv in Et as (_ & Hev & _ & Hst & _). subst ev.
    pose proof (settle_drained service e (update_restart_metadata_after_transition
      {| ev_service := rt_service (en_runtime e); ev_from := rt_state (en_runtime e); ev_to := st_to tr;
         ev_cause := st_cause tr; ev_generation := rt_generation r |} r) (st_to tr) t) as Hs.
    rewrite update_metadata_state in Hs. by rewrite (Hs Hst).
  - apply transition_Err_inv in Et as (-> & _ & _). by rewrite set_runtime_same, insert_id.
Qed.

(** ** Every step preserves the invariant *)

Lemma entry_after_wf name e r to e' :
  entry_wf name e → runtime_wf name r → r.(rt_state) = to →
  entry_after e r to = Some e' → entry_wf name e'.
Proof.
  intros [H1 H2 H3 H4] Hr <-. unfold entry_after.
  destruct (retains_definition_after_removal (rt_state r)) eqn:Hret.
  - intros E. simplify_eq. split; simpl; auto.
  - destruct (en_definition_removed e); [done|]. intros E. simplify_eq. split; simpl; try done.
    unfold desired_definition. destruct (en_pending_definition e) as [d|]; simpl; auto.
Qed.

Lemma table_wf_alter f name t :
  table_wf t → (∀ e', f (t !! name) = Some e' → entry_wf name e') →
  table_wf (partial_alter f name t).
Proof.
  intros Ht Hf name' e'. destruct (decide (name = name')) as [<-|].
  - rewrite lookup_partial_alter_eq. apply Hf.
  - rewrite lookup_partial_alter_ne by done. apply Ht.
Qed.

Lemma transition_service_wf service tr t :
  table_wf t → table_wf (transition_service service tr t).1.
Proof.
  intros Ht. rewrite transition_service_unfold. destruct (t !! service) as [e|] eqn:E; [|done].
  destruct (transition tr (en_runtime e)) as [r [ev|]] eqn:Et; [|done]. simpl.
  apply table_wf_alter; [done|]. intros e' He'. pose proof (Ht _ _ E) as Hwf.
  eapply entry_after_wf; [done| | |done].
  - eapply transition_runtime_wf; [done|apply Hwf].
  - rewrite update_metadata_state. by apply transition_Ok_inv in Et as (_ & _ & _ & -> & _).
Qed.

(** The entry a successful transition leaves is in the state it asked for. *)
Lemma transition_service_state service tr t t' tt e' :
  transition_service service tr t = (t', Ok tt) → t' !! service = Some e' →
  e'.(en_runtime).(rt_state) = tr.(st_to).
Proof.
  rewrite transition_service_unfold. destruct (t !! service) as [e|] eqn:E; [|done].
  destruct (transition tr (en_runtime e)) as [r [ev|]] eqn:Et; [|done]. intros [= <- _].
  rewrite lookup_partial_alter_eq. apply transition_Ok_inv in Et as (_ & _ & _ & <- & _).
  rewrite <-(update_metadata_state ev). unfold entry_after.
  destruct (retains_definition_after_removal _); [by intros [= <-]|].
  destruct (en_definition_removed e); [done|]. by intros [= <-].
Qed.

Lemma backoff_wf service cause until t :
  table_wf t → table_wf (transition_service_to_restart_backoff service cause until t).1.
Proof.
  intros Ht. unfold transition_service_to_restart_backoff.
  pose proof (transition_service_wf service {| st_to := StBackoff; st_cause := cause |} t Ht) as Ht1.
  destruct (transition_service _ _ _) as [t1 [tt|]] eqn:E; [|done]. simpl in Ht1.
  apply with_entry_wf; [|done]. intros e He [H1 H2 H3 [R1 R2 R3 R4 R5]].
  pose proof (transition_service_state _ _ _ _ _ _ E He) as Hst. simpl in Hst.
  unfold set_backoff. split; simpl; [done|done| |split; simpl; done].
  intros Hr. destruct (H3 Hr) as [H|H]; rewrite Hst in H; done.
Qed.

Lemma failed_runtime_wf name cause r ev :
  transition {| st_to := StFailed; st_cause := cause |} (inactive name) = (r, Ok ev) →
  runtime_wf name r ∧ r.(rt_state) = StFailed.
Proof.
  intros E. apply transition_Ok_inv in E as (_ & _ & Hs & Hst & _ & _ & _ & Hsat & _ & Hb & Hc & Hl).
  simpl in *. split; [|done]. split; rewrite ?Hs, ?Hc, ?Hb, ?Hl, ?Hsat; simpl;
    try done; try (by intros [? ?]). intros leak g Hin. by apply not_elem_of_nil in Hin.
Qed.

Lemma placeholder_wf name message r :
  runtime_wf name r → r.(rt_state) = StFailed → entry_wf name (placeholder_entry name message r).
Proof. intros Hr Hst. split; simpl; auto; done. Qed.

Lemma failed_placeholder_wf u name : u.(un_name) = name → entry_wf name (failed_placeholder u).
Proof.
  intros <-. unfold failed_placeholder.
  destruct (transition _ _) as [r [ev|e]] eqn:E; [|done].
  apply failed_runtime_wf in E as [? ?]. by apply placeholder_wf.
Qed.

Lemma insert_placeholder_wf service cause message t :
  table_wf t → table_wf (insert_undecodable_placeholder service cause message t).1.
Proof.
  intros Ht. unfold insert_undecodable_placeholder.
  destruct (transition _ _) as [r [ev|e]] eqn:E; [|done].
  apply failed_runtime_wf in E as [? ?]. apply map_Forall_insert_2; [by apply placeholder_wf|done].
Qed.

Lemma new_entry_wf name d : d.(sd_name) = name → entry_wf name (new_entry name d).
Proof. intros <-. split; simpl; try done. apply inactive_wf. Qed.

Lemma incoming_entry_wf frozen name d o :
  d.(sd_name) = name → (∀ e, o = Some e → entry_wf name e) →
  entry_wf name (incoming_entry frozen name d o).
Proof.
  intros Hd Ho. destruct o as [e|]; [|by apply new_entry_wf].
  destruct (Ho e eq_refl) as [H1 H2 H3 H4].
  assert (∀ a d', unless_equal a d = Some d' → d'.(sd_name) = name) as Hu.
  { unfold unless_equal. intros a d'. case_bool_decide; naive_solver. }
  unfold incoming_entry. destruct frozen; [split; simpl; eauto|].
  unfold apply_reloaded_definition. destruct (retains_definition_after_removal (rt_state (en_runtime e)));
    split; simpl; eauto; done.
Qed.

Lemma reload_entry_wf frozen name inc us o e' :
  (∀ d, inc = Some d → d.(sd_name) = name) → (∀ u, u ∈ us → u.(un_name) = name) →
  (∀ e, o = Some e → entry_wf name e) →
  reload_entry frozen name inc us o = Some e' → entry_wf name e'.
Proof.
  intros Hi Hu Ho. unfold reload_entry. destruct inc as [d|].
  { intros [= <-]. apply incoming_entry_wf; auto. }
  destruct us as [|u us].
  - intros (e & -> & Ha)%bind_Some. specialize (Ho e eq_refl). unfold absent_entry in Ha.
    destruct (frozen || _); [by simplify_eq|].
    destruct (retains_definition_after_removal _) eqn:Hr; [|done]. simplify_eq.
    destruct Ho. split; simpl; auto.
  - rewrite undecodable_entries_cons. intros [= <-].
    assert (un_name (default u (last us)) = name) as Hl.
    { apply Hu. destruct (last us) as [v|] eqn:El; [|by left]. right. by apply last_Some_elem_of. }
    destruct o as [e|]; [specialize (Ho e eq_refl)|].
    + destruct frozen; [done|]. destruct (retains_definition_after_removal _) eqn:Hr.
      * destruct Ho. split; simpl; auto; done.
      * by apply failed_placeholder_wf.
    + destruct frozen; apply failed_placeholder_wf; [apply Hu; by left|done].
Qed.

Lemma reload_wf definitions us frozen t :
  table_wf t → table_wf (apply_definition_snapshot_with definitions us frozen t).1.
Proof.
  intros Ht. destruct (map_definitions definitions) as [incoming|e] eqn:Hm.
  2: { unfold apply_definition_snapshot_with. by rewrite Hm. }
  destruct (apply_snapshot_spec definitions us frozen t incoming Hm) as (? & t' & ? & ? & _ & E & H).
  simpl in E. rewrite E. simpl. intros name e'. rewrite H. apply reload_entry_wf.
  - intros d Hd. by apply (map_definitions_Ok definitions incoming Hm) in Hd as [_ ?].
  - intros u [Hn%bool_decide_eq_true _]%elem_of_retain. done.
  - intros e He. by apply Ht.
Qed.

Lemma step_wf t t' : table_wf t → table_step t t' → table_wf t'.
Proof.
  intros Ht Hstep.
  assert (∀ e service, t !! service = Some e → runtime_wf service e.(en_runtime)) as Hr.
  { intros e service E. apply (Ht _ _ E). }
  destruct Hstep; auto using transition_service_wf, backoff_wf, insert_placeholder_wf, reload_wf;
    try (apply with_runtime_wf; [|done]; intros e E [R1 R2 R3 R4 R5]; split; [|done];
         split; simpl; try done; by intros [? ?]).
  - unfold release_completed_oneshot_if_not_retained. destruct (require_entry _ _); [|done].
    destruct (_ && _ && _); [|done].
    pose proof (transition_service_wf service {| st_to := StInactive; st_cause := TcCleanExit |} t Ht).
    by destruct (transition_service _ _ _).
  - apply with_runtime_wf; [|done]. intros e E Hwf. unfold mark_dependent_satisfied_since. simpl.
    destruct (satisfies_dependents _) eqn:Hs; [|done]. split; [|done].
    destruct Hwf as [R1 R2 R3 R4 R5]. split; simpl; done.
  - apply with_runtime_wf; [|done]. intros e E Hwf. split; [by apply record_leak_wf; eauto|].
    unfold record_leak. by destruct (existsb _ _).
  - apply with_runtime_wf; [|done]. intros e E [R1 R2 R3 R4 R5]. unfold take_progress.
    destruct (negb _); split; try done; split; done.
Qed.

Lemma boot_wf definitions t : from_boot_snapshot definitions = Ok t → table_wf t.
Proof.
  unfold from_boot_snapshot. destruct (map_definitions definitions) as [m|] eqn:E; [|done]. simpl.
  intros [= <-] name e. rewrite map_lookup_imap. intros (d & Hd & He)%bind_Some. simplify_eq.
  apply new_entry_wf. by apply (map_definitions_Ok definitions m E) in Hd as [_ ?].
Qed.

(** ** Theorems *)



(** The effect of one transition, entry by entry. *)
Lemma transition_service_spec service tr t e :
  t !! service = Some e →
  let '(t', r) := transition_service service tr t in
  (∀ other, other ≠ service → t' !! other = t !! other) ∧
  if is_allowed_transition e.(en_runtime).(rt_state) tr.(st_to) tr.(st_cause) then
    ∃ result, r = Ok result ∧
      result.(tt_discarded_definition_removed) = bool_decide (t' !! service = None) ∧
      match t' !! service with
      | None => e.(en_definition_removed) = true ∧ retains_definition_after_removal tr.(st_to) = false
      | Some e' =>
          e'.(en_runtime).(rt_state) = tr.(st_to) ∧
          e'.(en_definition_removed) = e.(en_definition_removed) ∧
          (if retains_definition_after_removal tr.(st_to)
           then e'.(en_definition) = e.(en_definition) ∧
                e'.(en_pending_definition) = e.(en_pending_definition)
           else e.(en_definition_removed) = false ∧
                e'.(en_definition) = desired_definition e ∧ e'.(en_pending_definition) = None)
      end
  else t' = t ∧ is_ok r = false.
Proof.
  intros E. destruct (transition_service service tr t) as [t' r] eqn:Eop.
  pose proof (transition_ok_iff tr (en_runtime e)) as Hok.
  pose proof Eop as Eunf. rewrite transition_service_unfold, E in Eunf.
  destruct (transition tr (en_runtime e)) as [r0 [ev|err]] eqn:Et; simpl in Hok; rewrite <-Hok.
  - injection Eunf as <- <-. split; [intros other Ho; by rewrite lookup_partial_alter_ne|].
    eexists. split; [done|]. simpl. rewrite lookup_partial_alter_eq.
    pose proof (λ e', transition_service_state _ _ _ _ _ e' Eop) as Hst.
    rewrite lookup_partial_alter_eq in Hst. unfold entry_after in *.
    destruct (retains_definition_after_removal (st_to tr)), (en_definition_removed e) eqn:Hrem; simpl;
      rewrite ?Hrem; (split; [done|]); try (specialize (Hst _ eq_refl)); done.
  - injection Eunf as <- <-. done.
Qed.

(** What a transition of a known service does. A transition the rules do not
    permit is refused and changes nothing. A permitted one moves the service to
    the requested state and touches no other entry; when the new state has no
    instance left, the definition waiting since a reload takes effect, or, if
    the definition was withdrawn, the entry is discarded, and the result says
    so. *)
Theorem transition_service_effect service tr t e :
  t !! service = Some e →
  let '(t', r) := transition_service service tr t in
  (∀ other, other ≠ service → t' !! other = t !! other) ∧
  if is_allowed_transition e.(en_runtime).(rt_state) tr.(st_to) tr.(st_cause) then
    ∃ result, r = Ok result ∧
      result.(tt_discarded_definition_removed) = bool_decide (t' !! service = None) ∧
      match t' !! service with
      | None => e.(en_definition_removed) = true ∧ retains_definition_after_removal tr.(st_to) = false
      | Some e' =>
          e'.(en_runtime).(rt_state) = tr.(st_to) ∧
          e'.(en_definition_removed) = e.(en_definition_removed) ∧
          (if retains_definition_after_removal tr.(st_to)
           then e'.(en_definition) = e.(en_definition) ∧
                e'.(en_pending_definition) = e.(en_pending_definition)
           else e.(en_definition_removed) = false ∧
                e'.(en_definition) = desired_definition e ∧ e'.(en_pending_definition) = None)
      end
  else t' = t ∧ is_ok r = false.
Proof. apply transition_service_spec. Qed.

Lemma transition_service_effect_witness :
  let tr := {| st_to := StInactive; st_cause := TcCleanExit |} in
  match registryd_running !! "registryd" with
  | None => False
  | Some e =>
      let '(t', r) := transition_service "registryd" tr registryd_running in
      (∀ other, other ≠ "registryd" → t' !! other = registryd_running !! other)
  end.
Proof.
  intros tr. destruct (registryd_running !! "registryd") as [e|] eqn:E; [|by vm_compute in E].
  pose proof (transition_service_effect "registryd" tr registryd_running e E) as H.
  destruct (transition_service "registryd" tr registryd_running). apply H.
Defined.

(** ** Leaked control groups *)

Lemma leak_affects_tree_below p root :
  leak_affects_tree p root = true → ∃ y, p +:+ "/" = root +:+ "/" +:+ y.
Proof.
  unfold leak_affects_tree. rewrite orb_true_iff. intros [->%bool_decide_eq_true|H].
  - exists "". by rewrite str_app_nil_r.
  - destruct (strip_prefix root p) as [rest|] eqn:E; [|done]. apply strip_prefix_Some in E as ->.
    simpl in H. unfold starts_with in H. destruct (strip_prefix "/" rest) as [x|] eqn:Ex; [|done].
    apply strip_prefix_Some in Ex as ->. exists (x +:+ "/"). by rewrite !str_app_assoc.
Qed.

Lemma leak_one_tree p s g t h :
  is_u64 g → is_u64 h →
  leak_affects_tree p (service_cgroup_root_path s g) = true →
  leak_affects_tree p (service_cgroup_root_path t h) = true → s = t ∧ g = h.
Proof.
  intros [Hg _] [Hh _] [y Ey]%leak_affects_tree_below [z Ez]%leak_affects_tree_below.
  rewrite Ey in Ez. apply below_roots_inj in Ez as (-> & -> & _); done.
Qed.

(** Recording leaks one after another. *)
Definition record_leaks (service : string) (leaks : list (string * LeakedCgroupKind)) (at_ns : Z)
    (r : ServiceRuntimeSnapshot) : ServiceRuntimeSnapshot :=
  foldl (λ r '(path, kind), (record_leak service path kind at_ns r).1) r leaks.

Lemma record_leaks_behind service leaks at_ns r g :
  is_u64 g → is_u64 r.(rt_cgroup_generation) → g ≠ r.(rt_cgroup_generation) →
  Forall (λ l, leak_affects_tree l.1 (service_cgroup_root_path service g) = true) leaks →
  (record_leaks service leaks at_ns r).(rt_cgroup_generation) = r.(rt_cgroup_generation).
Proof.
  intros Hg Hr Hne Hall. revert r Hr Hne. induction Hall as [|[p k] l Hp _ IH]; intros r Hr Hne; [done|].
  simpl in *. unfold record_leak at 1. destruct (existsb _ _); [by apply IH|]. simpl.
  destruct (leak_affects_tree p (service_cgroup_root_path service (rt_cgroup_generation r))) eqn:E.
  - destruct Hne. by destruct (leak_one_tree p service g service (rt_cgroup_generation r)).
  - rewrite IH; done.
Qed.

(** The control-group generation advances once per leaked tree, not once per
    leaked path: however many paths of the tree in use are reported, in one
    order or another, the service ends one generation on, in a tree that holds
    none of them. *)
Theorem leaks_advance_generation_once service leaks at_ns r :
  let g := r.(rt_cgroup_generation) in
  let r' := record_leaks service leaks at_ns r in
  0 ≤ g < u64_max → leaks ≠ [] →
  Forall (λ l, leak_affects_tree l.1 (service_cgroup_root_path service g) = true) leaks →
  Forall (λ leak, leak_in_generation service g leak = false) r.(rt_leaked_cgroups) →
  r'.(rt_cgroup_generation) = g + 1 ∧
  Forall (λ l, leak_affects_tree l.1 (service_cgroup_root_path service r'.(rt_cgroup_generation)) = false)
    leaks.
Proof.
  intros g r' Hg Hne Hall Hnew.
  assert (is_u64 g ∧ is_u64 (g + 1)) as [Hg1 Hg2] by (unfold is_u64; lia).
  assert (r'.(rt_cgroup_generation) = g + 1) as Hgen.
  { subst r'. destruct leaks as [|[p k] leaks]; [done|]. apply Forall_cons in Hall as [Hp Hall].
    simpl. unfold record_leak at 1.
    destruct (existsb _ _) eqn:Ex.
    { apply existsb_exists in Ex as (leak & Hin & [E _]%andb_true_iff). apply bool_decide_eq_true in E.
      rewrite Forall_forall in Hnew. specialize (Hnew leak). rewrite list_elem_of_In in Hnew.
      unfold leak_in_generation in Hnew. rewrite E in Hnew.
      simpl in Hp. by rewrite (Hnew Hin) in Hp. }
    simpl in *. fold g. rewrite Hp. unfold u64_saturating_add.
    change (foldl _ ?r leaks) with (record_leaks service leaks at_ns r).
    rewrite (record_leaks_behind _ _ _ _ g); simpl; unfold u64_max in *; rewrite ?Z.min_l by lia; try done; lia. }
  split; [done|]. rewrite Hgen. eapply Forall_impl; [exact Hall|]. intros [p k] Hp. simpl in *.
  destruct (leak_affects_tree p (service_cgroup_root_path service (g + 1))) eqn:E; [|done].
  destruct (leak_one_tree p service g service (g + 1)) as [_ ?]; [done..|lia].
Qed.

Lemma leaks_advance_generation_once_witness :
  let leaks := [("/sys/fs/cgroup/peinit/app/main", LkServiceTree); ("/sys/fs/cgroup/peinit/app", LkHooks)] in
  (record_leaks "app" leaks 7 (inactive "app")).(rt_cgroup_generation) = 1.
Proof.
  apply (leaks_advance_generation_once "app"
    [("/sys/fs/cgroup/peinit/app/main", LkServiceTree); ("/sys/fs/cgroup/peinit/app", LkHooks)] 7
    (inactive "app")).
  - unfold u64_max. simpl. lia.
  - discriminate.
  - repeat constructor.
  - constructor.
Defined.

(** ** Restart deadlines *)

Lemma elem_of_backoff_deadlines t d :
  d ∈ restart_backoff_deadlines t ↔
  ∃ e, t !! d.(bd_service) = Some e ∧ e.(en_definition_removed) = false ∧
    e.(en_runtime).(rt_state) = StBackoff ∧
    e.(en_runtime).(rt_restart_backoff_until_ns) = Some d.(bd_due_at_ns).
Proof.
  unfold restart_backoff_deadlines. rewrite list_elem_of_omap. split.
  - intros ([name e] & Hin%elem_of_btree_iter & E). unfold backoff_deadline_of in E.
    destruct (negb _ && _) eqn:Ec; [|done]. apply andb_true_iff in Ec as [?%negb_true_iff ?%bool_decide_eq_true].
    destruct (rt_restart_backoff_until_ns _) as [due|] eqn:Ed; [|done]. simplify_eq/=. eauto.
  - intros (e & He & Hr & Hs & Hd). exists (bd_service d, e). rewrite elem_of_btree_iter. split; [done|].
    simpl. rewrite Hr, Hs, Hd. by destruct d.
Qed.

Lemma min_deadline_spec l best :
  match foldl min_deadline best l with
  | None => best = None ∧ l = []
  | Some m =>
      (best = Some m ∨ m ∈ l) ∧
      (∀ d, best = Some d ∨ d ∈ l → m.(bd_due_at_ns) ≤ d.(bd_due_at_ns))
  end.
Proof.
  revert best. induction l as [|x l IH]; intros best; simpl.
  { destruct best; [|done]. split; [by left|]. intros d [?|?%elem_of_nil]; by simplify_eq. }
  specialize (IH (min_deadline best x)).
  destruct (foldl min_deadline (min_deadline best x) l) as [m|].
  2: { destruct IH as [IH _]. destruct best; simpl in IH; [|done]. by destruct (deadline_before _ _). }
  destruct IH as [Hm Hmin].
  assert (∀ d, best = Some d ∨ d = x → ∃ d', min_deadline best x = Some d' ∧
    (best = Some d' ∨ d' = x) ∧ d'.(bd_due_at_ns) ≤ d.(bd_due_at_ns)) as Hstep.
  { intros d Hd. destruct best as [b|]; simpl.
    - unfold deadline_before. destruct ((_ <? _) || _) eqn:E; eexists; (split; [done|]).
      + apply orb_true_iff in E as [E%Z.ltb_lt|[E%Z.eqb_eq _]%andb_true_iff];
          (split; [by right|]); destruct Hd as [[= ->]| ->]; lia.
      + apply orb_false_iff in E as [E%Z.ltb_ge _]. split; [by left|]. destruct Hd as [[= ->]| ->]; lia.
    - exists x. split_and!; [done|by right|]. destruct Hd as [?| ->]; [done|lia]. }
  split.
  - destruct Hm as [Hm|Hm]; [|by right; right].
    destruct (Hstep x) as (d' & E & [->| ->] & _); [by right|by left; congruence|].
    right. assert (m = x) as -> by congruence. left.
  - intros d Hd. rewrite elem_of_cons in Hd.
    assert ((best = Some d ∨ d = x) ∨ d ∈ l) as [Hd'|Hd'] by naive_solver; [|by apply Hmin; right].
    destruct (Hstep d Hd') as (d' & E & _ & Hle). specialize (Hmin d' (or_introl E)). lia.
Qed.

(** The supervisor's wake-up time and its work list agree: a restart is due
    exactly for the services that are in [Backoff] with their definition in
    place and their deadline passed; the next deadline is one of the pending
    ones and none is earlier; so there is something due exactly when the next
    deadline has passed. *)
Theorem backoff_deadlines_agree now t :
  (∀ d, d ∈ due_restart_backoffs now t ↔
     ∃ e, t !! d.(bd_service) = Some e ∧ e.(en_definition_removed) = false ∧
       e.(en_runtime).(rt_state) = StBackoff ∧
       e.(en_runtime).(rt_restart_backoff_until_ns) = Some d.(bd_due_at_ns) ∧
       d.(bd_due_at_ns) ≤ now) ∧
  match next_restart_backoff_deadline t with
  | None => restart_backoff_deadlines t = []
  | Some m =>
      m ∈ restart_backoff_deadlines t ∧
      ∀ d, d ∈ restart_backoff_deadlines t → m.(bd_due_at_ns) ≤ d.(bd_due_at_ns)
  end ∧
  (due_restart_backoffs now t ≠ [] ↔
   ∃ m, next_restart_backoff_deadline t = Some m ∧ m.(bd_due_at_ns) ≤ now).
Proof.
  assert (∀ d, d ∈ due_restart_backoffs now t ↔
    d ∈ restart_backoff_deadlines t ∧ d.(bd_due_at_ns) ≤ now) as Hdue.
  { intros d. unfold due_restart_backoffs. rewrite elem_of_retain, Z.leb_le. tauto. }
  pose proof (min_deadline_spec (restart_backoff_deadlines t) None) as Hmin.
  fold (next_restart_backoff_deadline t) in Hmin.
  assert (match next_restart_backoff_deadline t with
    | None => restart_backoff_deadlines t = []
    | Some m => m ∈ restart_backoff_deadlines t ∧
        ∀ d, d ∈ restart_backoff_deadlines t → m.(bd_due_at_ns) ≤ d.(bd_due_at_ns)
    end) as Hnext.
  { destruct (next_restart_backoff_deadline t) as [m|]; [|tauto]. naive_solver. }
  split_and!; [|done|].
  - intros d. rewrite Hdue, elem_of_backoff_deadlines. naive_solver.
  - split.
    + intros Hne. destruct (due_restart_backoffs now t) as [|d l] eqn:El; [done|].
      assert (d ∈ restart_backoff_deadlines t ∧ bd_due_at_ns d ≤ now) as [Hd Hle] by (apply Hdue; by left).
      destruct (next_restart_backoff_deadline t) as [m|].
      * exists m. split; [done|]. destruct Hnext as [_ Hnext]. specialize (Hnext d Hd). lia.
      * rewrite Hnext in Hd. by apply not_elem_of_nil in Hd.
    + intros (m & Em & Hle) Hnil. rewrite Em in Hnext. apply (not_elem_of_nil m). rewrite <-Hnil.
      apply Hdue. naive_solver.
Qed.

(** ** Progress events *)

(** The times of the observations that became events. *)
Fixpoint progress_event_times (times : list Z) (r : ServiceRuntimeSnapshot) : list Z :=
  match times with
  | [] => []
  | observed :: times =>
      let (r, report) := take_progress observed r in
      match report with
      | Some _ => observed :: progress_event_times times r
      | None => progress_event_times times r
      end
  end.

(** Progress events of one incarnation are at least a second apart, whatever
    the times the observations are stamped with and in whatever order they
    come. *)
Theorem progress_events_rate_limited times r :
  Sorted (λ a b, a + PROGRESS_EVENT_INTERVAL_NS ≤ b)
    (option_list r.(rt_last_progress_event_ns) ++ progress_event_times times r).
Proof.
  revert r. induction times as [|obs times IH]; intros r; simpl.
  { rewrite app_nil_r. destruct (rt_last_progress_event_ns r); repeat constructor. }
  unfold take_progress. destruct (negb (is_none_or _ _)) eqn:Hdue; simpl; [apply IH|].
  apply negb_false_iff in Hdue.
  specialize (IH {| r with rt_last_progress_event_ns := Some obs |}). simpl in IH.
  destruct (rt_last_progress_event_ns r) as [last|]; simpl; [|done].
  constructor; [done|]. constructor. simpl in Hdue. apply Z.leb_le in Hdue.
  unfold u64_saturating_sub in Hdue. unfold PROGRESS_EVENT_INTERVAL_NS in *. lia.
Qed.
