(* ===== verification/FailureDispatch.v ===== *)
(** * Moving a failed service on

    Models where a failure meets the restart policy and the table:
    [transition_after_failure] of [src/src/execution/failure/dispatch.rs] and
    [apply_watchdog_timeout_transition] of
    [src/src/supervisor/watchdog/timeout.rs]. Of the supervisor's work only the
    service table takes part. *)

From S2P Require Import Prelude RustStr ServiceRuntime ServiceDef Roles Restart Cgroup.
From S2P Require Import ServiceTable ServiceReload ServiceTableInv.
From Stdlib Require Import String.
Open Scope string_scope.
Open Scope list_scope.
Open Scope Z_scope.

(** [now.saturating_add(delay_secs.saturating_mul(NANOS_PER_SEC))]. *)
Definition backoff_deadline (now_ns delay_secs : Z) : Z :=
  u64_saturating_add now_ns (u64_saturating_mul delay_secs NANOS_PER_SEC).

Definition apply_evaluation (service : string) (evaluation : RestartEvaluation) (now_ns : Z)
    (services : ServiceTable) : TableResult ServiceTableTransition :=
  match evaluation.(re_action) with
  | EvalBackoff cause delay_secs _ =>
      transition_service_to_restart_backoff service cause (backoff_deadline now_ns delay_secs) services
  | EvalFail cause state =>
      transition_service service {| st_to := state; st_cause := cause |} services
  end.

Definition transition_after_failure (service : string) (cause : TransitionCause)
    (failed_at_ns : Z) (exit_code : option Z) (services : ServiceTable)
    : TableResult ServiceTableTransition :=
  match ok_or (table_definition services service) (UnknownService service) with
  | Err e => (services, Err e)
  | Ok definition =>
      match ok_or (table_runtime services service) (UnknownService service) with
      | Err e => (services, Err e)
      | Ok runtime =>
          apply_evaluation service
            (evaluate_restart_after_failure definition cause exit_code
               runtime.(rt_consecutive_restart_failures))
            failed_at_ns services
      end
  end.

Inductive WatchdogTransitionError : Type :=
| WdUnknownService (service : string)
| WdServiceTable (error : ServiceTableError).

Definition apply_watchdog_timeout_transition (service : string) (definition : ServiceDefinition)
    (now_ns : Z) (services : ServiceTable)
    : ServiceTable * Result ServiceTableTransition WatchdogTransitionError :=
  match ok_or (table_runtime services service) (WdUnknownService service) with
  | Err e => (services, Err e)
  | Ok runtime =>
      let (services, r) :=
        apply_evaluation service
          (evaluate_restart_after_failure definition TcWatchdogTimeout None
             runtime.(rt_consecutive_restart_failures))
          now_ns services in
      (services, map_err WdServiceTable r)
  end.

(** ** Backing off a service *)

Lemma metadata_backoff ev r :
  ev.(ev_to) = StBackoff → update_restart_metadata_after_transition ev r = r.
Proof. intros E. unfold update_restart_metadata_after_transition. by rewrite E. Qed.

(** The service's entry after it backed off. *)
Lemma backoff_unfold service cause until t e :
  t !! service = Some e →
  is_allowed_transition e.(en_runtime).(rt_state) StBackoff cause = true →
  let t' := (transition_service_to_restart_backoff service cause until t).1 in
  let r := (transition_service_to_restart_backoff service cause until t).2 in
  if e.(en_definition_removed) then t' = delete service t ∧ r = Err (UnknownService service)
  else is_ok r = true ∧
    ∃ e', t' !! service = Some e' ∧ e'.(en_definition) = desired_definition e ∧
      e'.(en_definition_removed) = false ∧
      e'.(en_runtime).(rt_state) = StBackoff ∧
      e'.(en_runtime).(rt_restart_backoff_until_ns) = Some until ∧
      e'.(en_runtime).(rt_consecutive_restart_failures) =
        (if bool_decide (cause = TcCleanExitRestart) &&
            bool_decide (is_Some (desired_definition e).(sd_console_path)) then 0
         else u32_saturating_add e.(en_runtime).(rt_consecutive_restart_failures) 1).
Proof.
  intros E Hok. unfold transition_service_to_restart_backoff. rewrite transition_service_unfold, E.
  pose proof (transition_ok_iff {| st_to := StBackoff; st_cause := cause |} (en_runtime e)) as Hiff.
  simpl in Hiff. rewrite Hok in Hiff.
  destruct (transition _ _) as [r [ev|]] eqn:Et; [|done].
  apply transition_Ok_inv in Et as (_ & -> & _ & Hst & _ & _ & _ & _ & Hf & _ & _ & _). simpl in *.
  rewrite metadata_backoff by done.
  unfold entry_after, with_entry. simpl. destruct (en_definition_removed e) eqn:Hrem.
  - rewrite lookup_partial_alter_eq. simpl. split; [|done]. by apply partial_alter_to_delete.
  - rewrite lookup_partial_alter_eq. simpl. split; [done|]. eexists.
    rewrite lookup_insert_eq. split; [done|]. simpl. rewrite Hf. split_and!; done.
Qed.

(** Where the policy lets a service back off, under which cause, and the
    failure count it expects. *)
Lemma evaluation_backoff d cause code n cause' delay failures :
  evaluate_restart_after_failure d cause code n = {| re_action := EvalBackoff cause' delay failures |} →
  cause' = cause ∧
  failures = (if bool_decide (cause = TcCleanExitRestart) && bool_decide (is_Some d.(sd_console_path))
              then 0 else u32_saturating_add n 1).
Proof.
  unfold evaluate_restart_after_failure, fail.
  destruct (bool_decide (cause = TcCleanExitRestart) && bool_decide (is_Some _));
    repeat case_match; intros; by simplify_eq.
Qed.

Lemma evaluation_fail d cause code n cause' st :
  evaluate_restart_after_failure d cause code n = {| re_action := EvalFail cause' st |} → st = StFailed.
Proof. unfold evaluate_restart_after_failure, fail. repeat case_match; intros; by simplify_eq. Qed.

Lemma refused_backoff service cause until t e :
  t !! service = Some e →
  is_allowed_transition e.(en_runtime).(rt_state) StBackoff cause = false →
  is_ok (transition_service_to_restart_backoff service cause until t).2 = false.
Proof.
  intros E Hno. unfold transition_service_to_restart_backoff. rewrite transition_service_unfold, E.
  by rewrite (transition_rejected {| st_to := StBackoff; st_cause := cause |}).
Qed.

(** ** Theorems *)

(** A watchdog timeout cannot be applied to a running service whose
    definition was withdrawn and whose policy grants a restart: the entry leaves
    the table when it enters [Backoff], the bookkeeping that follows does not
    find it, and the timeout is reported as an error of an unknown service
    although the transition took place. The process-exit path skips the policy
    for such a service; this one does not. *)
Theorem watchdog_timeout_of_withdrawn_service_errs service definition now_ns t e :
  t !! service = Some e →
  e.(en_runtime).(rt_state) = StActive → e.(en_definition_removed) = true →
  backs_off (evaluate_restart_after_failure definition TcWatchdogTimeout None
    e.(en_runtime).(rt_consecutive_restart_failures)) = true →
  apply_watchdog_timeout_transition service definition now_ns t =
  (delete service t, Err (WdServiceTable (UnknownService service))).
Proof.
  intros E Hst Hrem Hb. unfold apply_watchdog_timeout_transition, table_runtime. rewrite E. simpl.
  unfold apply_evaluation, backs_off in *.
  destruct (evaluate_restart_after_failure _ _ _ _) as [[cause delay n|cause st]] eqn:Ev; [|done]. simpl.
  apply evaluation_backoff in Ev as [-> _].
  pose proof (backoff_unfold service TcWatchdogTimeout (backoff_deadline now_ns delay) t e E) as H.
  rewrite Hst, Hrem in H. specialize (H eq_refl).
  destruct (transition_service_to_restart_backoff _ _ _ _). simpl in H. by destruct H as [-> ->].
Qed.

(** A running service that a reload withdrew. *)
Definition app_running : ServiceTable :=
  let t := (apply_definition_snapshot [app_definition] ∅).1 in
  let t := (transition_service "app" {| st_to := StStarting; st_cause := TcExplicitStart |} t).1 in
  (transition_service "app" {| st_to := StActive; st_cause := TcExplicitStart |} t).1.
Definition app_withdrawn : ServiceTable := (apply_definition_snapshot [] app_running).1.

Lemma watchdog_timeout_of_withdrawn_service_errs_witness :
  is_Some (app_withdrawn !! "app") ∧
  (apply_watchdog_timeout_transition "app" app_definition 5 app_withdrawn).2 =
  Err (WdServiceTable (UnknownService "app")).
Proof.
  destruct (app_withdrawn !! "app") as [e|] eqn:E; [|by vm_compute in E].
  split; [eauto|].
  assert ((λ e, (rt_state (en_runtime e), en_definition_removed e,
    rt_consecutive_restart_failures (en_runtime e))) <$> app_withdrawn !! "app" =
    Some (StActive, true, 0)) as H by (vm_compute; reflexivity).
  rewrite E in H. injection H as H1 H2 H3.
  rewrite (watchdog_timeout_of_withdrawn_service_errs "app" app_definition 5 app_withdrawn e E H1 H2);
    [reflexivity|]. rewrite H3. reflexivity.
Defined.

(** A failure of a service whose definition stands moves it to where the
    policy says: to [Backoff] with the deadline the policy's delay gives, the
    failure counted (a clean exit of a console service resets the count), or to
    the failed state. No failure is lost: the transition is refused only if the
    rules do not permit it. *)
Theorem failure_follows_policy service cause failed_at_ns exit_code t e :
  t !! service = Some e → e.(en_definition_removed) = false →
  e.(en_pending_definition) = None →
  let evaluation := evaluate_restart_after_failure e.(en_definition) cause exit_code
    e.(en_runtime).(rt_consecutive_restart_failures) in
  let '(t', r) := transition_after_failure service cause failed_at_ns exit_code t in
  match evaluation.(re_action) with
  | EvalBackoff cause' delay failures =>
      is_ok r = is_allowed_transition e.(en_runtime).(rt_state) StBackoff cause' ∧
      (is_ok r = true → ∃ e', t' !! service = Some e' ∧
         e'.(en_runtime).(rt_state) = StBackoff ∧
         e'.(en_runtime).(rt_restart_backoff_until_ns) = Some (backoff_deadline failed_at_ns delay) ∧
         e'.(en_runtime).(rt_consecutive_restart_failures) = failures)
  | EvalFail cause' state =>
      is_ok r = is_allowed_transition e.(en_runtime).(rt_state) state cause' ∧
      (is_ok r = true → ∃ e', t' !! service = Some e' ∧ e'.(en_runtime).(rt_state) = state)
  end.
Proof.
  intros E Hrem Hpend evaluation. unfold transition_after_failure, table_definition, table_runtime.
  rewrite E. simpl. fold evaluation. unfold apply_evaluation.
  destruct evaluation as [[cause' delay failures|cause' st]] eqn:Ev; simpl.
  - apply evaluation_backoff in Ev as [-> Hf].
    set (until := backoff_deadline failed_at_ns delay).
    pose proof (backoff_unfold service cause until t e E) as Hyes.
    pose proof (refused_backoff service cause until t e E) as Hno.
    rewrite Hrem in Hyes. unfold desired_definition in Hyes. rewrite Hpend in Hyes. simpl in Hyes.
    rewrite <-Hf in Hyes.
    destruct (transition_service_to_restart_backoff _ _ _ _) as [t' r]. simpl in *.
    destruct (is_allowed_transition _ _ _).
    + destruct (Hyes eq_refl) as (-> & e' & ? & ? & ? & ? & ? & ?). eauto 10.
    + by rewrite Hno.
  - apply evaluation_fail in Ev as ->.
    pose proof (transition_ok_iff {| st_to := StFailed; st_cause := cause' |} (en_runtime e)) as Hok.
    destruct (transition_service _ _ _) as [t' r] eqn:Et.
    rewrite transition_service_unfold, E in Et.
    destruct (transition _ _) as [r0 [ev|err]] eqn:Er; simpl in Hok; rewrite <-Hok; simplify_eq; simpl;
      [|done].
    apply transition_Ok_inv in Er as (_ & _ & _ & Hst & _).
    split; [done|]. intros _. unfold entry_after. rewrite lookup_partial_alter_eq, Hrem. simpl. eexists.
    split; [done|]. simpl. by rewrite update_metadata_state.
Qed.

Lemma failure_follows_policy_witness :
  let r := transition_after_failure "app" TcProcessCrash 5 (Some 1) app_running in
  is_ok r.2 = true ∧
  (λ e, rt_restart_backoff_until_ns (en_runtime e)) <$> r.1 !! "app" = Some (Some 1000000005).
Proof.
  destruct (app_running !! "app") as [e|] eqn:E; [|by vm_compute in E].
  assert ((λ e, (en_definition e, en_definition_removed e, en_pending_definition e,
    rt_state (en_runtime e), rt_consecutive_restart_failures (en_runtime e))) <$> app_running !! "app" =
    Some (app_definition, false, None, StActive, 0)) as H by (vm_compute; reflexivity).
  rewrite E in H. injection H as H1 H2 H3 H4 H5.
  pose proof (failure_follows_policy "app" TcProcessCrash 5 (Some 1) app_running e E H2 H3) as P.
  simpl in P. destruct (transition_after_failure "app" TcProcessCrash 5 (Some 1) app_running) as [t' r].
  rewrite H1, H4, H5 in P. vm_compute evaluate_restart_after_failure in P. simpl in P.
  destruct P as [Hok Hyes]. split; [simpl; by rewrite Hok|].
  destruct (Hyes Hok) as (e' & He' & _ & Hd & _). simpl. rewrite He'. simpl. by rewrite Hd.
Defined.
