(* ===== verification/Tty.v ===== *)
(** * Terminals

    Models [src/src/service/tty.rs]: who is in possession of a terminal
    ([tty_holder]) and who is given it when it is released
    ([tty_release_candidate]). [holds_tty] is in [ServiceTable], whose
    transitions report the terminal they let go of. *)

From S2P Require Import Prelude RustStr ServiceRuntime ServiceDef Roles Restart Cgroup.
From S2P Require Import ServiceTable ServiceReload ServiceTableInv.
From Stdlib Require Import String.
Open Scope string_scope.
Open Scope list_scope.
Open Scope Z_scope.

(** ** Operations *)

Definition on_tty (entry : ServiceEntry) (tty : string) : bool :=
  bool_decide (entry.(en_definition).(sd_console_path) = Some tty) &&
  holds_tty entry.(en_runtime).(rt_state).

Definition tty_holder (services : ServiceTable) (tty except : string) : option string :=
  find_first (λ service, is_some_and (services !! service) (λ entry, on_tty entry tty))
    (retain (λ service, negb (bool_decide (service = except))) (service_names services)).

Definition waits_for_tty (definition : ServiceDefinition) (tty : string) : bool :=
  negb definition.(sd_disabled) &&
  bool_decide (definition.(sd_console_path) = Some tty) &&
  has_tty_released_trigger definition.

(** Whether [service] is offered the terminal: the four [continue]s. *)
Definition is_candidate (services : ServiceTable) (tty : string) (released_by : list string)
    (service : string) : option (string * Z) :=
  entry ← services !! service;
  if negb (waits_for_tty entry.(en_definition) tty) then None
  else if existsb (λ name, bool_decide (name = service)) released_by then None
  else if holds_tty entry.(en_runtime).(rt_state) then None
  else if entry.(en_definition_removed) then None
  else Some (service, entry.(en_definition).(sd_console_precedence)).

Definition better (candidate best : string * Z) : bool :=
  (best.2 <? candidate.2) || (candidate.2 =? best.2) && str_lt candidate.1 best.1.

Definition offer (services : ServiceTable) (tty : string) (released_by : list string)
    (best : option (string * Z)) (service : string) : option (string * Z) :=
  match is_candidate services tty released_by service with
  | None => best
  | Some candidate => if is_none_or best (better candidate) then Some candidate else best
  end.

Definition tty_release_candidate (services : ServiceTable) (tty : string) (released_by : list string)
    : option string :=
  fst <$> foldl (offer services tty released_by) None (service_names services).

(** ** Possession *)

Definition holds (t : ServiceTable) (tty service : string) : Prop :=
  ∃ e, t !! service = Some e ∧ on_tty e tty = true.

(** A terminal has one owner at a time. *)
Definition tty_exclusive (t : ServiceTable) : Prop :=
  ∀ tty a b, holds t tty a → holds t tty b → a = b.

Lemma is_some_and_holds t tty service :
  is_some_and (t !! service) (λ entry, on_tty entry tty) = true ↔ holds t tty service.
Proof. unfold holds. destruct (t !! service); simpl; naive_solver. Qed.

Lemma holds_name t tty service : holds t tty service → service ∈ service_names t.
Proof. intros (e & E & _). apply elem_of_btree_keys. eauto. Qed.

Lemma tty_holder_None t tty except :
  tty_holder t tty except = None ↔ ∀ service, holds t tty service → service = except.
Proof.
  unfold tty_holder. rewrite find_first_None. split.
  - intros Hn service Hs. destruct (decide (service = except)) as [|Hne]; [done|].
    assert (is_some_and (t !! service) (λ entry, on_tty entry tty) = true) as Ht
      by (by apply is_some_and_holds).
    rewrite Hn in Ht; [done|]. apply elem_of_retain. split; [|by eapply holds_name].
    by rewrite bool_decide_false.
  - intros H service [Hne%negb_true_iff%bool_decide_eq_false _]%elem_of_retain.
    destruct (is_some_and _ _) eqn:E; [|done]. apply is_some_and_holds in E. by destruct Hne; apply H.
Qed.

(** Not being better is a total preorder: higher precedence first, then name. *)
Lemma not_better a b :
  better a b = false ↔ a.2 < b.2 ∨ a.2 = b.2 ∧ str_le b.1 a.1.
Proof.
  unfold better. rewrite orb_false_iff, andb_false_iff, Z.ltb_ge, Z.eqb_neq.
  assert (str_lt a.1 b.1 = false ↔ str_le b.1 a.1) as ->.
  { rewrite <-not_true_iff_false, str_lt_le. split.
    - intros H. destruct (total str_le b.1 a.1) as [|Hle]; [done|].
      destruct (decide (a.1 = b.1)) as [->|]; [by destruct (total str_le b.1 b.1)|]. tauto.
    - intros H [Hle Hne]. by destruct Hne; apply (anti_symm str_le). }
  split.
  - intros [? [?|?]]; [left; lia|]. destruct (decide (a.2 = b.2)); [by right|left; lia].
  - intros [?|[? ?]]; (split; [lia|]); [left; lia|by right].
Qed.

Lemma not_better_trans a b c : better a b = false → better b c = false → better a c = false.
Proof.
  rewrite !not_better. intros [?|[? H1]] [?|[? H2]]; [left; lia..|].
  right. split; [lia|]. by transitivity b.1.
Qed.

Lemma better_asym a b : better a b = true → better b a = false.
Proof.
  intros H. rewrite not_better. unfold better in H.
  apply orb_true_iff in H as [?%Z.ltb_lt|[?%Z.eqb_eq [? _]%str_lt_le]%andb_true_iff]; [by left|by right].
Qed.

Lemma better_irrefl a : better a a = false.
Proof. apply not_better. right. split; [done|]. by destruct (total str_le a.1 a.1). Qed.

Definition pick (best : option (string * Z)) (candidate : string * Z) : option (string * Z) :=
  if is_none_or best (better candidate) then Some candidate else best.

(** Keeping the better of each pair keeps the best. *)
Lemma pick_best l b :
  ∃ w, foldl pick (Some b) l = Some w ∧ (w = b ∨ w ∈ l) ∧
    better b w = false ∧ ∀ c, c ∈ l → better c w = false.
Proof.
  revert b. induction l as [|c l IH]; intros b; simpl.
  { exists b. split_and!; [done|by left|apply better_irrefl|by intros c Hc%elem_of_nil]. }
  unfold pick at 2. simpl. destruct (better c b) eqn:Eb.
  - destruct (IH c) as (w & -> & Hw & Hc & Hl). exists w. split_and!; [done| | |].
    + right. rewrite elem_of_cons. tauto.
    + eapply not_better_trans; [by apply better_asym|done].
    + intros c' [->|?]%elem_of_cons; auto.
  - destruct (IH b) as (w & -> & Hw & Hb & Hl). exists w. split_and!; [done| |done|].
    + rewrite elem_of_cons. tauto.
    + intros c' [->|?]%elem_of_cons; [|auto]. by eapply not_better_trans.
Qed.

Lemma offers_pick t tty by_ names best :
  foldl (offer t tty by_) best names = foldl pick best (omap (is_candidate t tty by_) names).
Proof.
  revert best. induction names as [|s names IH]; intros best; simpl; [done|].
  rewrite IH. unfold offer. by destruct (is_candidate t tty by_ s).
Qed.

Lemma candidate_name t tty by_ s c : is_candidate t tty by_ s = Some c → c.1 = s ∧ s ∈ service_names t.
Proof.
  unfold is_candidate. destruct (t !! s) as [e|] eqn:E; simpl; [|done].
  repeat case_match; intros [= <-]. split; [done|]. apply elem_of_btree_keys. eauto.
Qed.

Lemma release_candidate_cases t tty by_ :
  match tty_release_candidate t tty by_ with
  | None => ∀ s, is_candidate t tty by_ s = None
  | Some w => ∃ p, is_candidate t tty by_ w = Some (w, p) ∧
      ∀ s c, is_candidate t tty by_ s = Some c → better c (w, p) = false
  end.
Proof.
  unfold tty_release_candidate. rewrite offers_pick.
  assert (∀ c, c ∈ omap (is_candidate t tty by_) (service_names t) ↔
    is_candidate t tty by_ c.1 = Some c) as Hin.
  { intros c. rewrite list_elem_of_omap. split.
    - intros (s & _ & Hs). by destruct (candidate_name _ _ _ _ _ Hs) as [<- _].
    - intros Hc. exists c.1. split; [|done]. by apply candidate_name in Hc as [_ ?]. }
  destruct (omap _ _) as [|c l] eqn:El; simpl.
  - intros s. destruct (is_candidate t tty by_ s) as [c|] eqn:Ec; [|done].
    destruct (candidate_name _ _ _ _ _ Ec) as [<- _]. apply Hin in Ec. by apply not_elem_of_nil in Ec.
  - change (pick None c) with (Some c). destruct (pick_best l c) as (w & -> & Hw & Hc & Hl). simpl.
    exists w.2. assert (w ∈ c :: l) as Hw'%Hin by (rewrite elem_of_cons; tauto).
    destruct w as [w p]. split; [done|]. simpl. intros s c' Hc'.
    destruct (candidate_name _ _ _ _ _ Hc') as [<- _]. apply Hin in Hc'.
    apply elem_of_cons in Hc' as [->|?]; auto.
Qed.

(** A service that may be given the terminal. *)
Definition may_take (t : ServiceTable) (tty : string) (released_by : list string) (service : string)
    (e : ServiceEntry) : Prop :=
  t !! service = Some e ∧
  e.(en_definition).(sd_disabled) = false ∧ e.(en_definition).(sd_console_path) = Some tty ∧
  has_tty_released_trigger e.(en_definition) = true ∧ service ∉ released_by ∧
  holds_tty e.(en_runtime).(rt_state) = false ∧ e.(en_definition_removed) = false.

Lemma is_candidate_iff t tty by_ s c :
  is_candidate t tty by_ s = Some c ↔
  ∃ e, may_take t tty by_ s e ∧ c = (s, e.(en_definition).(sd_console_precedence)).
Proof.
  unfold is_candidate, may_take, waits_for_tty.
  assert (existsb (λ name, bool_decide (name = s)) by_ = bool_decide (s ∈ by_)) as ->.
  { apply Bool.eq_iff_eq_true. rewrite existsb_exists, bool_decide_eq_true. split.
    - intros (x & Hx & ->%bool_decide_eq_true). by apply list_elem_of_In.
    - intros Hx. exists s. split; [by apply list_elem_of_In|]. by apply bool_decide_eq_true. }
  split.
  - destruct (t !! s) as [e|]; simpl; [|done].
    destruct (sd_disabled (en_definition e)) eqn:E1,
      (bool_decide (sd_console_path (en_definition e) = Some tty)) eqn:E2,
      (has_tty_released_trigger (en_definition e)) eqn:E3, (bool_decide (s ∈ by_)) eqn:E4; simpl; try done.
    destruct (holds_tty _) eqn:E5, (en_definition_removed e) eqn:E6; try done. intros [= <-].
    apply bool_decide_eq_true in E2. apply bool_decide_eq_false in E4. exists e. by split_and!.
  - intros (e & (E0 & E1 & E2 & E3 & E4 & E5 & E6) & ->). rewrite E0. simpl.
    rewrite E1, (bool_decide_true _ E2), E3, (bool_decide_false _ E4). simpl. by rewrite E5, E6.
Qed.

(** ** Theorems *)

(** [tty_holder] finds a holder other than the asking service exactly when
    there is one, and what it finds is one. *)
Theorem tty_holder_correct t tty except :
  match tty_holder t tty except with
  | Some service => service ≠ except ∧ holds t tty service
  | None => ∀ service, holds t tty service → service = except
  end.
Proof.
  destruct (tty_holder t tty except) as [service|] eqn:E; [|by apply tty_holder_None].
  unfold tty_holder in E. apply find_first_Some in E as (Hin & Hp).
  apply elem_of_retain in Hin as [?%negb_true_iff%bool_decide_eq_false _].
  split; [done|]. by apply is_some_and_holds.
Qed.

(** The released terminal goes to the right waiter: to an enabled service
    with the [tty:released] trigger on that terminal that is not running, still
    defined, and not among those whose exit freed it; of these to one no other
    exceeds in precedence, by name among equals; and to nobody only when there
    is none. *)
Theorem tty_release_candidate_correct t tty by_ :
  match tty_release_candidate t tty by_ with
  | None => ∀ s e, ¬ may_take t tty by_ s e
  | Some w =>
      ∃ e, may_take t tty by_ w e ∧
        ∀ s e', may_take t tty by_ s e' →
          e'.(en_definition).(sd_console_precedence) < e.(en_definition).(sd_console_precedence) ∨
          e'.(en_definition).(sd_console_precedence) = e.(en_definition).(sd_console_precedence) ∧
          str_le w s
  end.
Proof.
  pose proof (release_candidate_cases t tty by_) as H.
  destruct (tty_release_candidate t tty by_) as [w|].
  - destruct H as (p & Hc & Hbest). apply is_candidate_iff in Hc as (e & Hm & [= ->]).
    exists e. split; [done|]. intros s e' Hs.
    assert (is_candidate t tty by_ s = Some (s, sd_console_precedence (en_definition e'))) as Hc
      by (apply is_candidate_iff; eauto).
    by apply Hbest, not_better in Hc.
  - intros s e Hm.
    assert (is_candidate t tty by_ s = Some (s, sd_console_precedence (en_definition e))) as Hc
      by (apply is_candidate_iff; eauto).
    by rewrite H in Hc.
Qed.

(** ** Transitions and possession *)

(** A definition waiting for the instance to drain is on the same terminal. *)
Definition pending_tty_same (e : ServiceEntry) : Prop :=
  ∀ d, e.(en_pending_definition) = Some d → d.(sd_console_path) = e.(en_definition).(sd_console_path).

Lemma desired_tty e :
  pending_tty_same e →
  (desired_definition e).(sd_console_path) = e.(en_definition).(sd_console_path).
Proof. unfold desired_definition. intros H. destruct (en_pending_definition e) eqn:E; simpl; auto. Qed.

Lemma transition_holds service tr t e t' result tty :
  t !! service = Some e → pending_tty_same e →
  transition_service service tr t = (t', Ok result) →
  (∀ other, other ≠ service → holds t' tty other ↔ holds t tty other) ∧
  (holds t' tty service ↔
   e.(en_definition).(sd_console_path) = Some tty ∧ holds_tty tr.(st_to) = true ∧
   (e.(en_definition_removed) = false ∨ tr.(st_to) ≠ StBackoff)) ∧
  result.(tt_released_tty) = released_by e tr.(st_to).
Proof.
  intros E Hp. rewrite transition_service_unfold, E.
  destruct (transition tr (en_runtime e)) as [r [ev|]] eqn:Et; [|done]. intros [= <- <-].
  apply transition_Ok_inv in Et as (_ & _ & _ & Hst & _).
  split_and!; [|unfold holds at 1|done].
  { intros other Ho. unfold holds. by rewrite lookup_partial_alter_ne. }
  rewrite lookup_partial_alter_eq. unfold entry_after, on_tty. split.
  - intros (e' & He' & [Hc%bool_decide_eq_true Hh]%andb_true_iff). revert He' Hc Hh.
    destruct (retains_definition_after_removal (st_to tr)) eqn:Hr;
      [|destruct (en_definition_removed e) eqn:Hrem; [done|]]; intros [= <-]; simpl;
      rewrite update_metadata_state, Hst, ?desired_tty by done; intros Hc Hh; split_and!; auto.
    right. intros Hb. by rewrite Hb in Hr.
  - intros (Hc & Hh & Hor).
    destruct (retains_definition_after_removal (st_to tr)) eqn:Hr.
    + eexists. split; [done|]. simpl. rewrite update_metadata_state, Hst, Hh, Hc.
      by rewrite bool_decide_true.
    + assert (st_to tr = StBackoff) as Hb by (by destruct (st_to tr)).
      destruct Hor as [->|?]; [|done]. eexists. split; [done|]. simpl.
      rewrite update_metadata_state, Hst, Hh, desired_tty, Hc by done. by rewrite bool_decide_true.
Qed.

(** A transition reports a released terminal exactly when the service was in
    possession of it before and no longer is after: every terminal that becomes
    free is handed on, and none that is still held. *)
Theorem released_tty_exact service tr t e t' result tty :
  t !! service = Some e → pending_tty_same e →
  (e.(en_definition_removed) = false ∨ tr.(st_to) ≠ StBackoff) →
  transition_service service tr t = (t', Ok result) →
  result.(tt_released_tty) = Some tty ↔ holds t tty service ∧ ¬ holds t' tty service.
Proof.
  intros E Hp Hor Eop. destruct (transition_holds service tr t e t' result tty E Hp Eop) as (_ & Hs & ->).
  rewrite Hs. unfold holds. rewrite E. unfold released_by, on_tty. split.
  - destruct (holds_tty (rt_state (en_runtime e))) eqn:E1, (holds_tty (st_to tr)) eqn:E2; simpl; try done.
    intros Hc. split; [|naive_solver]. exists e. split; [done|]. by rewrite bool_decide_true, E1.
  - intros [(e' & [= <-] & [Hc%bool_decide_eq_true Hh]%andb_true_iff) Hn]. rewrite Hh.
    destruct (holds_tty (st_to tr)); simpl; [|done]. tauto.
Qed.

(** A terminal keeps at most one owner: if possession is exclusive and a
    service takes up its terminal only when [tty_holder] finds no one else on
    it, possession is exclusive after every transition. *)
Theorem transition_keeps_tty_exclusive service tr t e t' result :
  tty_exclusive t →
  t !! service = Some e → pending_tty_same e →
  (∀ tty, e.(en_definition).(sd_console_path) = Some tty →
     holds_tty e.(en_runtime).(rt_state) = true ∨ tty_holder t tty service = None) →
  transition_service service tr t = (t', Ok result) →
  tty_exclusive t'.
Proof.
  intros Hex E Hp Hadm Eop tty a b Ha Hb.
  destruct (transition_holds service tr t e t' result tty E Hp Eop) as (Ho & Hs & _).
  assert (∀ x, holds t' tty service → x ≠ service → holds t' tty x → False) as Hno.
  { intros x Hsv Hne Hx. apply (Ho x Hne) in Hx. apply Hs in Hsv as (Hc & _ & _).
    destruct (Hadm tty Hc) as [Hh|Hnone].
    - apply Hne. apply (Hex tty); [done|]. exists e. split; [done|].
      unfold on_tty. by rewrite bool_decide_true, Hh.
    - apply Hne. by eapply tty_holder_None. }
  destruct (decide (a = service)) as [->|Ha'], (decide (b = service)) as [->|Hb']; [done| | |].
  - by destruct (Hno b).
  - by destruct (Hno a).
  - apply (Hex tty); by apply Ho.
Qed.

(** ** A terminal changed by a reload *)

Definition getty (tty : string) : ServiceDefinition :=
  {| (simple_system_boot "getty" "/sbin/getty") with sd_console_path := Some tty |}.

Definition getty_running : ServiceTable :=
  let t := (apply_definition_snapshot [getty "/dev/tty1"] ∅).1 in
  let t := (transition_service "getty" {| st_to := StStarting; st_cause := TcExplicitStart |} t).1 in
  (transition_service "getty" {| st_to := StActive; st_cause := TcExplicitStart |} t).1.

Definition getty_exit : ServiceTransition := {| st_to := StInactive; st_cause := TcCleanExit |}.

(** A successful transition's result, when there is one. *)
Definition result_of {A E} (r : Result A E) : option A :=
  match r with Ok a => Some a | Err _ => None end.

(** Changing the terminal of a running service with a reload moves
    possession at once, although its process stays where it was started: the old
    terminal has no holder any more, so another service may be started on it,
    and when the process exits it is the new terminal that is reported
    released. *)
Theorem reload_moves_tty_of_running_service :
  let t := (apply_definition_snapshot [getty "/dev/tty2"] getty_running).1 in
  tty_holder getty_running "/dev/tty1" "other" = Some "getty" ∧
  tty_holder t "/dev/tty1" "other" = None ∧
  tty_holder t "/dev/tty2" "other" = Some "getty" ∧
  (tt_released_tty <$> result_of (transition_service "getty" getty_exit t).2) = Some (Some "/dev/tty2").
Proof. vm_compute. done. Qed.

Lemma getty_running_entry :
  ∃ e, getty_running !! "getty" = Some e ∧ pending_tty_same e ∧
    e.(en_definition_removed) = false ∧ on_tty e "/dev/tty1" = true.
Proof.
  destruct (getty_running !! "getty") as [e|] eqn:E; [|by vm_compute in E].
  exists e. split; [done|].
  assert ((λ e, (en_pending_definition e, en_definition_removed e, on_tty e "/dev/tty1")) <$>
    getty_running !! "getty" = Some (None, false, true)) as H by (vm_compute; reflexivity).
  rewrite E in H. injection H as H1 H2 H3. split_and!; [|done|done].
  intros d. rewrite H1. discriminate.
Qed.

Lemma released_tty_exact_witness :
  ∃ t' result, transition_service "getty" getty_exit getty_running = (t', Ok result) ∧
    (result.(tt_released_tty) = Some "/dev/tty1" ↔
     holds getty_running "/dev/tty1" "getty" ∧ ¬ holds t' "/dev/tty1" "getty").
Proof.
  destruct getty_running_entry as (e & E & Hp & Hr & _).
  destruct (transition_service "getty" getty_exit getty_running) as [t' [result|err]] eqn:Eop.
  - exists t', result. split; [done|].
    apply (released_tty_exact "getty" getty_exit getty_running e t' result "/dev/tty1" E Hp); [by left|done].
  - exfalso. apply (f_equal (λ r, is_ok r.2)) in Eop. vm_compute in Eop. discriminate Eop.
Defined.

Lemma transition_keeps_tty_exclusive_witness :
  tty_exclusive (transition_service "getty" getty_exit getty_running).1.
Proof.
  destruct getty_running_entry as (e & E & Hp & Hr & Hon).
  destruct (transition_service "getty" getty_exit getty_running) as [t' [result|err]] eqn:Eop.
  - apply (transition_keeps_tty_exclusive "getty" getty_exit getty_running e t' result); [|done..| |done].
    + assert (dom getty_running = {["getty"]}) as Hd by (vm_compute; reflexivity).
      assert (∀ tty a, holds getty_running tty a → a = "getty") as Hone.
      { intros tty a (e' & E' & _). assert (a ∈ dom getty_running) as Ha by (apply elem_of_dom; eauto).
        rewrite Hd in Ha. by apply elem_of_singleton in Ha. }
      intros tty a b ->%Hone ->%Hone. done.
    + intros tty _. left. by apply andb_true_iff in Hon as [_ ?].
  - exfalso. apply (f_equal (λ r, is_ok r.2)) in Eop. vm_compute in Eop. discriminate Eop.
Defined.
