(* ===== verification/Graph.v ===== *)
(** * Validating the service graph

    Models [src/src/service/graph/]: the search for dependency cycles
    ([cycle.rs]) and the validation of a definition set ([validate.rs],
    [model.rs]).

    The recursion of [CycleSearch::visit] is bounded by fuel: a visit that
    recurses has pushed a defined service that was not on the stack, so one more
    level than there are services is enough, which [find_cycles_spec] shows. Of
    the calendar validation only asks whether a schedule is readable, through
    the class [CalendarSyntax], which [Calendar] implements. *)

From S2P Require Import Prelude RustStr ServiceDef StartOrder Roles Calendar.
From Stdlib Require Import String.
Open Scope string_scope.
Open Scope list_scope.

(** ** Cycles ([cycle.rs]) *)

(** Lexicographic order of two sequences of names, [Iterator::lt]. *)
Fixpoint names_lt (a b : list string) : bool :=
  match a, b with
  | [], [] => false
  | [], _ :: _ => true
  | _ :: _, [] => false
  | x :: a, y :: b => if str_lt x y then true else if str_lt y x then false else names_lt a b
  end.

Definition rotation (cycle : list string) (index : nat) : list string :=
  drop index cycle ++ take index cycle.

Definition canonical_cycle (cycle : list string) : list string :=
  match cycle with
  | [] => []
  | first :: _ =>
      foldl (λ best index,
        if is_some_and (cycle !! index) (λ x, str_lt x first) || names_lt (rotation cycle index) best
        then rotation cycle index else best)
        cycle (seq 1 (List.length cycle - 1))
  end.

Record CycleSearch : Type := {
  cs_permanent : gset string;
  cs_active : gmap string nat;
  cs_stack : list string;
  cs_seen : gset (list string);
  cs_cycles : list (list string);
}.

Definition cycle_search_default : CycleSearch :=
  {| cs_permanent := ∅; cs_active := ∅; cs_stack := []; cs_seen := ∅; cs_cycles := [] |}.

Definition record_cycle (index : nat) (self : CycleSearch) : CycleSearch :=
  let cycle := drop index self.(cs_stack) in
  let canonical := canonical_cycle cycle in
  if bool_decide (canonical ∈ self.(cs_seen)) then self
  else {| self with cs_seen := {[canonical]} ∪ self.(cs_seen);
                    cs_cycles := self.(cs_cycles) ++ [cycle] |}.

Definition push_service (service : string) (self : CycleSearch) : CycleSearch :=
  {| self with cs_active := <[service := List.length self.(cs_stack)]> self.(cs_active);
               cs_stack := self.(cs_stack) ++ [service] |}.

Definition pop_service (service : string) (self : CycleSearch) : CycleSearch :=
  {| self with cs_stack := removelast self.(cs_stack);
               cs_active := delete service self.(cs_active);
               cs_permanent := {[service]} ∪ self.(cs_permanent) |}.

Section Search.
Context (by_name : gmap string ServiceDefinition).

Definition defined (target : string) : bool := bool_decide (is_Some (by_name !! target)).

Definition targets_of (definition : ServiceDefinition) : list string :=
  existing_start_order_dependency_targets definition defined.

(** Visiting each of a list in turn; [None] is running out of fuel. *)
Fixpoint visit_each (visit : string → CycleSearch → option CycleSearch)
    (services : list string) (self : CycleSearch) : option CycleSearch :=
  match services with
  | [] => Some self
  | service :: services => self ← visit service self; visit_each visit services self
  end.

Fixpoint visit (fuel : nat) (service : string) (self : CycleSearch) : option CycleSearch :=
  match fuel with
  | O => None
  | S fuel =>
      if bool_decide (service ∈ self.(cs_permanent)) then Some self
      else match self.(cs_active) !! service with
           | Some index => Some (record_cycle index self)
           | None =>
               match by_name !! service with
               | None => Some self
               | Some definition =>
                   self ← visit_each (visit fuel) (targets_of definition) (push_service service self);
                   Some (pop_service service self)
               end
           end
  end.

Definition find_cycles : option (list (list string)) :=
  cs_cycles <$> visit_each (visit (S (size by_name))) (btree_keys by_name) cycle_search_default.

(** ** The search is right *)

(** An ordering edge of the definition set. *)
Definition edge (a b : string) : Prop :=
  ∃ d, by_name !! a = Some d ∧ b ∈ targets_of d.

(** What holds between visits: the stack and its index agree, only cycles are
    reported, and until one is the finished services can be listed in an order
    that respects the edges. *)
Record search_wf (st : CycleSearch) : Prop := {
  se_nodup : NoDup st.(cs_stack);
  se_active : ∀ s i, st.(cs_active) !! s = Some i ↔ st.(cs_stack) !! i = Some s;
  se_defined : ∀ s, s ∈ st.(cs_stack) → is_Some (by_name !! s);
  se_cycles : Forall (is_cycle edge) st.(cs_cycles);
  se_seen : st.(cs_seen) ≠ ∅ → st.(cs_cycles) ≠ [];
  se_order : st.(cs_cycles) = [] →
    ∃ order, (∀ x, x ∈ st.(cs_permanent) ↔ x ∈ order) ∧ ordered edge order;
}.

(** What visiting [targets] does: the stack is left as it was found, and if no
    cycle has been reported every target is finished. *)
Record visit_post (targets : list string) (st st' : CycleSearch) : Prop := {
  vp_wf : search_wf st';
  vp_stack : st'.(cs_stack) = st.(cs_stack);
  vp_active : st'.(cs_active) = st.(cs_active);
  vp_permanent : st.(cs_permanent) ⊆ st'.(cs_permanent);
  vp_cycles : st'.(cs_cycles) = [] → st.(cs_cycles) = [];
  vp_targets : st'.(cs_cycles) = [] → ∀ x, x ∈ targets → x ∈ st'.(cs_permanent);
}.

Lemma targets_defined d x : x ∈ targets_of d → is_Some (by_name !! x).
Proof. unfold targets_of. rewrite elem_of_existing_targets. by intros [?%bool_decide_eq_true _]. Qed.

Lemma record_cycle_post index service st :
  search_wf st → is_cycle edge (drop index st.(cs_stack)) →
  visit_post [service] st (record_cycle index st).
Proof.
  intros [H1 H2 H3 H4 H5 H6] Hc. unfold record_cycle. case_bool_decide as Hs.
  - assert (cs_cycles st ≠ []) by (apply H5; intros E; by rewrite E in Hs). by split.
  - assert (∀ l : list (list string), l ++ [drop index (cs_stack st)] ≠ []) as Hne by (by intros []).
    split; simpl; try done; try (by intros []%Hne). split; simpl; try done.
    + apply Forall_app. split; [done|]. by constructor.
    + by intros []%Hne.
Qed.

Lemma push_service_wf service st :
  search_wf st → st.(cs_active) !! service = None → is_Some (by_name !! service) →
  search_wf (push_service service st).
Proof.
  intros [H1 H2 H3 H4 H5 H6] Hn Hd.
  assert (service ∉ cs_stack st) as Hni.
  { intros [i Hi]%list_elem_of_lookup. apply H2 in Hi. congruence. }
  split; simpl; try done.
  - by apply NoDup_snoc.
  - intros s i. rewrite lookup_insert_Some. split.
    + intros [[<- <-]|[Hne Hi%H2]].
      * by rewrite lookup_app_r, Nat.sub_diag.
      * by apply lookup_app_l_Some.
    + intros [Hi|[Hlen Hi]]%lookup_app_Some.
      * right. split; [|by apply H2]. intros <-. by apply Hni, (list_elem_of_lookup_2 _ i).
      * destruct (i - List.length (cs_stack st))%nat eqn:Ei; [|done]. injection Hi as <-. left. split; [done|lia].
  - intros s [?| ->%list_elem_of_singleton]%elem_of_app; auto.
Qed.

Lemma pop_service_post service d st st' :
  search_wf st → st.(cs_active) !! service = None → by_name !! service = Some d →
  visit_post (targets_of d) (push_service service st) st' →
  visit_post [service] st (pop_service service st').
Proof.
  intros Hwf Hn Hd [Hwf' Hs Ha Hp Hc Ht]. simpl in *.
  assert (removelast (cs_stack st') = cs_stack st) as Es by (rewrite Hs; apply removelast_last).
  assert (delete service (cs_active st') = cs_active st) as Ea by (rewrite Ha; by apply delete_insert_id).
  split; simpl; try done; [|set_solver|set_solver]. split; simpl; rewrite ?Es, ?Ea; try by apply Hwf.
  - apply Hwf'.
  - apply Hwf'.
  - intros Hnil. destruct (se_order _ Hwf' Hnil) as (order & Ho1 & Ho2).
    exists (order ++ [service]). split.
    + intros x. rewrite elem_of_union, elem_of_singleton, elem_of_app, list_elem_of_singleton, Ho1. tauto.
    + apply ordered_snoc; [done|]. intros y (d' & Hd' & Hy). simplify_eq. apply Ho1. auto.
Qed.

Lemma visit_each_post visit targets st :
  search_wf st →
  (∀ x st', x ∈ targets → search_wf st' → st'.(cs_stack) = st.(cs_stack) →
     ∃ st'', visit x st' = Some st'' ∧ visit_post [x] st' st'') →
  ∃ st', visit_each visit targets st = Some st' ∧ visit_post targets st st'.
Proof.
  revert st. induction targets as [|x xs IH]; intros st Hwf Hv; simpl.
  { exists st. split; [done|]. split; try done. intros _ x []%elem_of_nil. }
  destruct (Hv x st ltac:(left) Hwf eq_refl) as (st1 & -> & [Hw1 Hs1 Ha1 Hp1 Hc1 Ht1]). simpl.
  destruct (IH st1 Hw1) as (st2 & -> & [Hw2 Hs2 Ha2 Hp2 Hc2 Ht2]).
  { intros y st' Hy. rewrite Hs1. apply Hv. by right. }
  exists st2. split; [done|]. split; try congruence; auto.
  - by etrans.
  - intros Hnil y [->|Hy]%elem_of_cons; [|auto]. apply Hp2, Ht1; [auto|left].
Qed.

Lemma stack_size st : search_wf st → (List.length st.(cs_stack) ≤ size by_name)%nat.
Proof.
  intros Hwf. rewrite <-size_dom. apply (stack_bound (dom by_name)); [apply Hwf|].
  intros x Hx. apply elem_of_dom. by apply Hwf.
Qed.

Lemma visit_correct fuel service st :
  (size by_name < fuel + List.length st.(cs_stack))%nat → search_wf st → is_Some (by_name !! service) →
  stack_to edge st.(cs_stack) service →
  ∃ st', visit fuel service st = Some st' ∧ visit_post [service] st st'.
Proof.
  revert service st. induction fuel as [|fuel IH]; intros service st Hfuel Hwf [d Hd] Hto; simpl.
  { pose proof (stack_size st Hwf). lia. }
  case_bool_decide as Hp.
  { exists st. split; [done|]. split; try done. by intros _ x ->%list_elem_of_singleton. }
  destruct (cs_active st !! service) as [i|] eqn:Ei.
  { eexists. split; [done|]. apply record_cycle_post; [done|]. apply Hwf in Ei.
    rewrite <-(take_drop_middle _ _ _ Ei) in Hto. rewrite (drop_S _ _ _ Ei). by apply stack_to_cycle in Hto. }
  rewrite Hd. destruct (visit_each_post (visit fuel) (targets_of d) (push_service service st))
    as (st' & -> & Hpost).
  - apply push_service_wf; eauto.
  - intros x st' Hx Hwf' Hs. simpl in Hs. apply IH; [|done|by eapply targets_defined|].
    + rewrite Hs, length_app. simpl. lia.
    + rewrite Hs. apply stack_to_snoc; [done|]. by exists d.
  - simpl. eexists. split; [done|]. by eapply pop_service_post.
Qed.

Lemma search_start_wf : search_wf cycle_search_default.
Proof.
  split; simpl; try done.
  - constructor.
  - by intros s []%elem_of_nil.
  - intros _. exists []. split; [set_solver|apply ordered_nil].
Qed.

Lemma find_cycles_spec :
  ∃ cycles, find_cycles = Some cycles ∧ Forall (is_cycle edge) cycles ∧
    (cycles = [] → ∀ c, ¬ is_cycle edge c).
Proof.
  unfold find_cycles.
  destruct (visit_each_post (visit (S (size by_name))) (btree_keys by_name) cycle_search_default)
    as (st & -> & [Hwf _ _ _ _ Ht]); [apply search_start_wf| |].
  - intros x st Hx Hwf Hs. apply visit_correct; rewrite ?Hs; simpl; [lia|done| |apply stack_to_nil].
    by apply elem_of_btree_keys.
  - exists (cs_cycles st). split; [done|]. split; [apply Hwf|]. intros Hnil c.
    destruct (se_order _ Hwf Hnil) as (order & Ho1 & Ho2).
    eapply ordered_acyclic; [exact Ho2|]. intros x y (d & Hd & _).
    apply Ho1, Ht; [done|]. apply elem_of_btree_keys. eauto.
Qed.
End Search.

(** The canonical form is meant to identify the rotations of a cycle, but it
    compares with the first name and not with the best one so far: of the
    rotations of the cycle a-b-c, the one that starts at c gets another form. *)
Example canonical_cycle_misses_rotation :
  canonical_cycle ["a"; "b"; "c"] = ["a"; "b"; "c"] ∧
  canonical_cycle ["b"; "c"; "a"] = ["a"; "b"; "c"] ∧
  canonical_cycle ["c"; "a"; "b"] = ["b"; "c"; "a"].
Proof. vm_compute. done. Qed.

(** ** Findings and warnings ([model.rs]) *)

Inductive ServiceGraphFinding : Type :=
  | InvalidServiceName (service : string)
  | DuplicateService (service : string)
  | MissingHardDependency (service target : string) (kind : ServiceDependencyKind)
  | Cycle (services : list string)
  | ConflictingBootServices (service target : string)
  | InvalidHealthCheckRestartWindow (service : string) (retries interval_secs restart_window_secs : Z)
  | InvalidTimerSchedule (service schedule message : string)
  | UnschedulableHealthCheck (service : string) (service_type : ServiceType).

Inductive ServiceGraphWarning : Type :=
  | AliveReadinessWithHardDependents (service : string) (dependents : list string)
  | UnfilledRole (role : string) (services : list string).

Record ServiceGraphValidation : Type := {
  gv_service_count : nat;
  gv_warnings : list ServiceGraphWarning;
}.

Record ServiceGraphValidationFailure : Type := {
  gf_findings : list ServiceGraphFinding;
  gf_warnings : list ServiceGraphWarning;
}.

Definition warning_message (self : ServiceGraphWarning) : string :=
  match self with
  | AliveReadinessWithHardDependents service _ =>
      "service " +:+ service +:+ " uses Alive readiness while hard dependents require readiness"
  | UnfilledRole role _ =>
      "no service provides " +:+ role +:+ ", which other services need to start"
  end.

(** ** The checks ([validate.rs]) *)

(** The index and the set of names seen more than once. *)
Definition index_definition (index : gmap string ServiceDefinition * gset string)
    (definition : ServiceDefinition) : gmap string ServiceDefinition * gset string :=
  let '(by_name, duplicates) := index in
  match by_name !! definition.(sd_name) with
  | Some _ => (by_name, {[definition.(sd_name)]} ∪ duplicates)
  | None => (<[definition.(sd_name) := definition]> by_name, duplicates)
  end.

Record DefinitionIndex : Type := {
  di_by_name : gmap string ServiceDefinition;
  di_duplicate_findings : list ServiceGraphFinding;
}.

Definition index_graph (definitions : list ServiceDefinition) : DefinitionIndex :=
  let '(by_name, duplicates) := foldl index_definition (∅, ∅) definitions in
  {| di_by_name := by_name;
     di_duplicate_findings := map DuplicateService (btree_elements duplicates) |}.

Definition invalid_service_name_findings (definitions : list ServiceDefinition)
    : list ServiceGraphFinding :=
  map (λ definition, InvalidServiceName definition.(sd_name))
    (filter (λ definition, is_valid_service_name definition.(sd_name) = false) definitions).

Definition missing_hard_dependencies (definitions : list ServiceDefinition)
    (by_name : gmap string ServiceDefinition) : list ServiceGraphFinding :=
  definitions ≫= λ definition,
    map (λ dependency, MissingHardDependency definition.(sd_name)
                         dependency.(dep_target) dependency.(dep_kind))
      (filter (λ dependency, by_name !! dependency.(dep_target) = None) (hard_dependencies definition)).

(** The pairs one definition contributes, each with its names in order. *)
Definition ordered_pair (a b : string) : string * string :=
  if decide (str_le a b) then (a, b) else (b, a).

Definition conflict_pairs (by_name : gmap string ServiceDefinition) (definition : ServiceDefinition)
    : list (string * string) :=
  if has_boot_trigger definition then
    omap (λ target,
      match by_name !! target with
      | Some target_definition =>
          if has_boot_trigger target_definition
          then Some (ordered_pair definition.(sd_name) target) else None
      | None => None
      end) definition.(sd_conflicts)
  else [].

Definition conflicting_boot_services (by_name : gmap string ServiceDefinition)
    : list ServiceGraphFinding :=
  let pairs : gset (string * string) :=
    list_to_set (btree_values by_name ≫= conflict_pairs by_name) in
  map (λ pair, ConflictingBootServices pair.1 pair.2) (btree_elements pairs).

Definition health_check_is_scheduled (definition : ServiceDefinition) : bool :=
  bool_decide (is_Some definition.(sd_health_check)) &&
  bool_decide (definition.(sd_service_type) = TypeSimple).

Definition health_check_failure_window_secs (definition : ServiceDefinition) : Z :=
  u64_saturating_mul definition.(sd_health_check_retries) definition.(sd_health_check_interval_secs).

Definition health_check_restart_window_findings (definitions : list ServiceDefinition)
    : list ServiceGraphFinding :=
  map (λ definition,
         InvalidHealthCheckRestartWindow definition.(sd_name) definition.(sd_health_check_retries)
           definition.(sd_health_check_interval_secs) definition.(sd_restart_window_secs))
    (filter (λ definition,
       (definition.(sd_restart_window_secs) ≤ health_check_failure_window_secs definition)%Z)
      (filter (λ definition, health_check_is_scheduled definition = true) definitions)).

Definition unschedulable_health_check_findings (definitions : list ServiceDefinition)
    : list ServiceGraphFinding :=
  map (λ definition, UnschedulableHealthCheck definition.(sd_name) definition.(sd_service_type))
    (filter (λ definition, is_Some definition.(sd_health_check) ∧
                           health_check_is_scheduled definition = false) definitions).

Definition cycle_findings (by_name : gmap string ServiceDefinition)
    : option (list ServiceGraphFinding) :=
  map Cycle <$> find_cycles by_name.

(** ** Warnings *)

Definition add_dependent (by_name : gmap string ServiceDefinition) (service : string)
    (dependents : gmap string (list string)) (dependency : ServiceDependency)
    : gmap string (list string) :=
  match by_name !! dependency.(dep_target) with
  | Some _ =>
      <[dependency.(dep_target) := default [] (dependents !! dependency.(dep_target)) ++ [service]]>
        dependents
  | None => dependents
  end.

Definition hard_dependents (by_name : gmap string ServiceDefinition) : gmap string (list string) :=
  foldl (λ dependents definition,
      foldl (add_dependent by_name definition.(sd_name)) dependents (hard_dependencies definition))
    ∅ (btree_values by_name).

Definition readiness_warnings (by_name : gmap string ServiceDefinition) : list ServiceGraphWarning :=
  let dependents := hard_dependents by_name in
  omap (λ definition,
      match dependents !! definition.(sd_name) with
      | Some ((_ :: _) as entries) =>
          Some (AliveReadinessWithHardDependents definition.(sd_name) entries)
      | _ => None
      end)
    (filter (λ definition, definition.(sd_readiness) = ReadyAlive) (btree_values by_name)).

Definition unfilled_role_warnings (definitions : list ServiceDefinition) : list ServiceGraphWarning :=
  match role_providers definitions AUTHN_ROLE with
  | _ :: _ => []
  | [] =>
      match map sd_name (filter (λ definition, requires_authority definition = true) definitions) with
      | [] => []
      | services => [UnfilledRole AUTHN_ROLE services]
      end
  end.

Section Validate.
Context `{CalendarSyntax}.

Definition timer_finding (definition : ServiceDefinition) (trigger : ServiceTrigger)
    : option ServiceGraphFinding :=
  match trigger with
  | TriggerTimer schedule =>
      InvalidTimerSchedule definition.(sd_name) schedule <$> schedule_error schedule
  | _ => None
  end.

Definition invalid_timer_schedule_findings (definitions : list ServiceDefinition)
    : list ServiceGraphFinding :=
  definitions ≫= λ definition, omap (timer_finding definition) definition.(sd_triggers).

(** [None] is running out of fuel in the cycle search. *)
Definition validate_service_graph (definitions : list ServiceDefinition)
    : option (Result ServiceGraphValidation ServiceGraphValidationFailure) :=
  let definitions := synthesise_role_dependencies definitions in
  let index := index_graph definitions in
  cycles ← cycle_findings index.(di_by_name);
  let findings :=
    invalid_service_name_findings definitions
    ++ index.(di_duplicate_findings)
    ++ missing_hard_dependencies definitions index.(di_by_name)
    ++ conflicting_boot_services index.(di_by_name)
    ++ health_check_restart_window_findings definitions
    ++ unschedulable_health_check_findings definitions
    ++ invalid_timer_schedule_findings definitions
    ++ cycles in
  let warnings :=
    readiness_warnings index.(di_by_name) ++ unfilled_role_warnings definitions in
  Some match findings with
       | [] => Ok {| gv_service_count := size index.(di_by_name); gv_warnings := warnings |}
       | _ => Err {| gf_findings := findings; gf_warnings := warnings |}
       end.
End Validate.

(** The boot plan's order over an index of definitions
    ([src/src/boot/phase2/graph/order.rs]). *)
Definition boot_dependency_order (startable : gset string) (by_name : gmap string ServiceDefinition)
    : option (Result (list string) (list string)) :=
  dependency_start_order startable (λ service,
    match by_name !! service with
    | Some definition => start_order_dependency_targets definition
    | None => []
    end).

(** ** What a valid graph is *)

(** [a] must start after [b]. *)
Definition orders (definitions : list ServiceDefinition) (a b : string) : Prop :=
  ∃ d, d ∈ definitions ∧ d.(sd_name) = a ∧
       b ∈ start_order_dependency_targets d ∧ b ∈ map sd_name definitions.

Record valid_graph `{CalendarSyntax} (definitions : list ServiceDefinition) : Prop := {
  vg_names : ∀ d, d ∈ definitions → is_valid_service_name d.(sd_name) = true;
  vg_unique : NoDup (map sd_name definitions);
  vg_hard : ∀ d dep, d ∈ definitions → dep ∈ hard_dependencies d →
    dep.(dep_target) ∈ map sd_name definitions;
  vg_conflicts : ∀ d d', d ∈ definitions → d' ∈ definitions →
    has_boot_trigger d = true → has_boot_trigger d' = true → d'.(sd_name) ∉ d.(sd_conflicts);
  vg_health : ∀ d, d ∈ definitions → is_Some d.(sd_health_check) →
    d.(sd_service_type) = TypeSimple ∧
    (d.(sd_health_check_retries) * d.(sd_health_check_interval_secs) < d.(sd_restart_window_secs))%Z;
  vg_timers : ∀ d schedule, d ∈ definitions → TriggerTimer schedule ∈ d.(sd_triggers) →
    schedule_error schedule = None;
  vg_acyclic : ∀ c, ¬ is_cycle (orders definitions) c;
}.

(** ** Lemmas *)

Lemma map_filter_nil {A B} (f : A → B) (P : A → Prop) `{∀ x, Decision (P x)} l :
  map f (filter P l) = [] ↔ ∀ x, x ∈ l → ¬ P x.
Proof.
  split.
  - intros E x Hx HP. apply map_eq_nil in E.
    assert (x ∈ filter P l) as Hin by (by apply list_elem_of_filter). rewrite E in Hin. by apply elem_of_nil in Hin.
  - intros Hl. destruct (filter P l) as [|x l'] eqn:E; [done|]. exfalso.
    assert (x ∈ filter P l) as [HP Hx]%list_elem_of_filter by (rewrite E; left). by eapply Hl.
Qed.

Lemma omap_nil_iff {A B} (f : A → option B) l : omap f l = [] ↔ ∀ x, x ∈ l → f x = None.
Proof.
  induction l as [|x l IH]; simpl.
  - split; [|done]. by intros _ x []%elem_of_nil.
  - setoid_rewrite elem_of_cons. destruct (f x) eqn:E.
    + split; [done|]. intros Hx. rewrite (Hx x) in E; [done|by left].
    + rewrite IH. naive_solver.
Qed.

Lemma bind_nil_iff {A B} (f : A → list B) l : l ≫= f = [] ↔ ∀ x, x ∈ l → f x = [].
Proof.
  induction l as [|x l IH]; simpl.
  - split; [|done]. by intros _ x []%elem_of_nil.
  - setoid_rewrite elem_of_cons. rewrite app_nil. rewrite IH. naive_solver.
Qed.

Lemma NoDup_map_inj {A B} (f : A → B) l x y :
  NoDup (map f l) → x ∈ l → y ∈ l → f x = f y → x = y.
Proof.
  intros Hn Hx Hy E. apply list_elem_of_lookup in Hx as [i Hi], Hy as [j Hj].
  assert (i = j) as <-; [|congruence].
  eapply (NoDup_lookup _ i j (f x) Hn); rewrite list_lookup_fmap; [by rewrite Hi|by rewrite Hj, E].
Qed.

Lemma index_definition_spec definitions :
  let index := foldl index_definition (∅, ∅) definitions in
  (∀ n d, index.1 !! n = Some d → d ∈ definitions ∧ d.(sd_name) = n) ∧
  (∀ d, d ∈ definitions → is_Some (index.1 !! d.(sd_name))) ∧
  (index.2 = ∅ ↔ NoDup (map sd_name definitions)).
Proof.
  induction definitions as [|d ds IH] using rev_ind; simpl.
  { split_and!; [by intros|by intros ? []%elem_of_nil|]. split; [constructor|done]. }
  rewrite foldl_app, map_app. simpl in *.
  destruct (foldl index_definition (∅, ∅) ds) as [b u]. simpl in *. destruct IH as (H1 & H2 & H3).
  assert (d.(sd_name) ∈ map sd_name ds ↔ is_Some (b !! d.(sd_name))) as Hin.
  { split.
    - intros (d' & -> & Hd')%list_elem_of_fmap. auto.
    - intros [d' [Hd' <-]%H1]. by apply list_elem_of_fmap_2. }
  destruct (b !! sd_name d) as [d0|] eqn:E; simpl.
  - split_and!.
    + intros n d' [? ?]%H1. split; [|done]. apply elem_of_app. by left.
    + intros d' [?| ->%list_elem_of_singleton]%elem_of_app; [auto|by rewrite E].
    + split; [set_solver|]. intros (_ & Hd & _)%NoDup_app. exfalso.
      eapply (Hd (sd_name d)); [by apply Hin|left].
  - split_and!.
    + intros n d' [[<- <-]|[_ [? ?]%H1]]%lookup_insert_Some.
      * split; [|done]. apply elem_of_app. right. left.
      * split; [|done]. apply elem_of_app. by left.
    + intros d' [?| ->%list_elem_of_singleton]%elem_of_app.
      * apply lookup_insert_is_Some. destruct (decide (sd_name d = sd_name d')); auto.
      * by rewrite lookup_insert_eq.
    + rewrite H3. split; [|by intros (? & _ & _)%NoDup_app]. intros Hn. apply NoDup_snoc; [done|].
      rewrite Hin. by intros [? ?].
Qed.

(** Synthesis leaves the restart window of a definition alone. *)
Lemma synthesise_restart_windows definitions d :
  d ∈ synthesise_role_dependencies definitions →
  ∃ d', d' ∈ definitions ∧ d.(sd_restart_window_secs) = d'.(sd_restart_window_secs).
Proof.
  assert (∀ f ds, (∀ d, (f d).(sd_restart_window_secs) = d.(sd_restart_window_secs)) →
    d ∈ map f ds → ∃ d', d' ∈ ds ∧ d.(sd_restart_window_secs) = d'.(sd_restart_window_secs)) as Hmap.
  { intros f ds Hf (d' & -> & ?)%list_elem_of_fmap. eauto. }
  assert (∀ d, d ∈ resolve_role_references definitions →
    ∃ d', d' ∈ definitions ∧ d.(sd_restart_window_secs) = d'.(sd_restart_window_secs)) as Hres.
  { clear d Hmap. intros d. unfold resolve_role_references. case_bool_decide; [eauto|].
    intros (d' & -> & ?)%list_elem_of_fmap. eauto. }
  unfold synthesise_role_dependencies. case_bool_decide; [auto|].
  intros (d' & Hd' & ->)%Hmap; [auto|]. intros d'. unfold add_authority. by destruct (_ || _).
Qed.

Section Findings.
Context `{CalendarSyntax} (ds : list ServiceDefinition).

Let by_name := (index_graph ds).(di_by_name).

Lemma index_graph_eq :
  index_graph ds = {| di_by_name := (foldl index_definition (∅, ∅) ds).1;
    di_duplicate_findings := map DuplicateService (btree_elements (foldl index_definition (∅, ∅) ds).2) |}.
Proof. unfold index_graph. by destruct (foldl _ _ ds). Qed.

Lemma by_name_defined n : is_Some (by_name !! n) ↔ n ∈ map sd_name ds.
Proof.
  unfold by_name. rewrite index_graph_eq. simpl.
  destruct (index_definition_spec ds) as (H1 & H2 & _). split.
  - intros [d [Hd <-]%H1]. by apply list_elem_of_fmap_2.
  - intros (d & -> & Hd)%list_elem_of_fmap. auto.
Qed.

Lemma duplicate_findings_nil :
  (index_graph ds).(di_duplicate_findings) = [] ↔ NoDup (map sd_name ds).
Proof.
  rewrite index_graph_eq. simpl. destruct (index_definition_spec ds) as (_ & _ & <-). split.
  - intros E%map_eq_nil. apply set_eq. intros x. rewrite <-elem_of_btree_elements, E. set_solver.
  - intros ->. done.
Qed.

Lemma invalid_names_nil :
  invalid_service_name_findings ds = [] ↔
  ∀ d, d ∈ ds → is_valid_service_name d.(sd_name) = true.
Proof.
  unfold invalid_service_name_findings. rewrite map_filter_nil.
  split; intros Hd d Hin; specialize (Hd d Hin); by destruct (is_valid_service_name _).
Qed.

Lemma missing_nil :
  missing_hard_dependencies ds by_name = [] ↔
  ∀ d dep, d ∈ ds → dep ∈ hard_dependencies d → dep.(dep_target) ∈ map sd_name ds.
Proof.
  unfold missing_hard_dependencies. rewrite bind_nil_iff. setoid_rewrite map_filter_nil.
  setoid_rewrite <-by_name_defined. setoid_rewrite <-not_eq_None_Some. naive_solver.
Qed.

Lemma health_nil (Hu64 : ∀ d, d ∈ ds → is_u64 d.(sd_restart_window_secs)) :
  health_check_restart_window_findings ds = [] ∧ unschedulable_health_check_findings ds = [] ↔
  ∀ d, d ∈ ds → is_Some d.(sd_health_check) → d.(sd_service_type) = TypeSimple ∧
    (d.(sd_health_check_retries) * d.(sd_health_check_interval_secs) < d.(sd_restart_window_secs))%Z.
Proof.
  unfold health_check_restart_window_findings, unschedulable_health_check_findings.
  rewrite !map_filter_nil. setoid_rewrite list_elem_of_filter.
  unfold health_check_is_scheduled, health_check_failure_window_secs, u64_saturating_mul.
  split.
  - intros [H1 H2] d Hd Hh. specialize (H1 d). specialize (H2 d Hd). specialize (Hu64 d Hd).
    unfold is_u64 in Hu64. rewrite (bool_decide_eq_true_2 _ Hh) in *.
    destruct (decide (sd_service_type d = TypeSimple)) as [E|E].
    + split; [done|]. rewrite (bool_decide_eq_true_2 _ E) in *. assert (¬ _) as H1' by (by apply H1). lia.
    + rewrite (bool_decide_eq_false_2 _ E) in *. destruct H2. done.
  - intros Hv. split.
    + intros d [[Hh Ht]%andb_true_iff Hd] Hle. apply bool_decide_eq_true in Hh.
      destruct (Hv d Hd Hh) as [_ ?]. lia.
    + intros d Hd [Hh Hf]. destruct (Hv d Hd Hh) as [Ht _].
      by rewrite (bool_decide_eq_true_2 _ Hh), (bool_decide_eq_true_2 _ Ht) in Hf.
Qed.

Lemma timers_nil :
  invalid_timer_schedule_findings ds = [] ↔
  ∀ d schedule, d ∈ ds → TriggerTimer schedule ∈ d.(sd_triggers) → schedule_error schedule = None.
Proof.
  unfold invalid_timer_schedule_findings. rewrite bind_nil_iff. setoid_rewrite omap_nil_iff. split.
  - intros Hn d schedule Hd Ht. specialize (Hn d Hd _ Ht). simpl in Hn. by destruct (schedule_error schedule).
  - intros Hn d Hd [| | |schedule|] Ht; try done. simpl. by rewrite (Hn d schedule Hd Ht).
Qed.

Section Unique.
Context (Hn : NoDup (map sd_name ds)).

Lemma by_name_lookup n d : by_name !! n = Some d ↔ d ∈ ds ∧ d.(sd_name) = n.
Proof.
  unfold by_name. rewrite index_graph_eq. simpl.
  destruct (index_definition_spec ds) as (H1 & H2 & _). split; [apply H1|].
  intros [Hd <-]. destruct (H2 d Hd) as [d' E]. rewrite E. f_equal.
  destruct (H1 _ _ E) as [Hd' En]. by eapply NoDup_map_inj.
Qed.

Lemma conflicts_nil :
  conflicting_boot_services by_name = [] ↔
  ∀ d d', d ∈ ds → d' ∈ ds → has_boot_trigger d = true → has_boot_trigger d' = true →
    d'.(sd_name) ∉ d.(sd_conflicts).
Proof.
  assert (conflicting_boot_services by_name = [] ↔
    ∀ d, d ∈ ds → conflict_pairs by_name d = []) as ->.
  { unfold conflicting_boot_services. split.
    - intros E%map_eq_nil d Hd. destruct (conflict_pairs by_name d) as [|p ps] eqn:Ep; [done|].
      exfalso. apply (not_elem_of_nil p). rewrite <-E, elem_of_btree_elements, elem_of_list_to_set.
      apply list_elem_of_bind. exists d. rewrite Ep. split; [left|].
      apply elem_of_btree_values. exists (sd_name d). by apply by_name_lookup.
    - intros Hd. assert (btree_values by_name ≫= conflict_pairs by_name = []) as ->; [|done].
      apply bind_nil_iff. intros d [n [Hd' _]%by_name_lookup]%elem_of_btree_values. auto. }
  unfold conflict_pairs. split.
  - intros Hp d d' Hd Hd' Hb Hb' Hc. specialize (Hp d Hd). rewrite Hb, omap_nil_iff in Hp.
    specialize (Hp _ Hc). assert (by_name !! sd_name d' = Some d') as E by (by apply by_name_lookup).
    by rewrite E, Hb' in Hp.
  - intros Hp d Hd. destruct (has_boot_trigger d) eqn:Hb; [|done]. apply omap_nil_iff.
    intros n Hc. destruct (by_name !! n) as [d'|] eqn:E; [|done].
    destruct (has_boot_trigger d') eqn:Hb'; [|done].
    apply by_name_lookup in E as [Hd' <-]. by destruct (Hp d d').
Qed.

Lemma edge_orders a b : edge by_name a b ↔ orders ds a b.
Proof.
  unfold edge, orders. setoid_rewrite by_name_lookup. unfold targets_of.
  setoid_rewrite elem_of_existing_targets. unfold defined.
  setoid_rewrite bool_decide_eq_true. setoid_rewrite by_name_defined. naive_solver.
Qed.
End Unique.
End Findings.

Lemma is_cycle_mono {A} (R S : A → A → Prop) c :
  (∀ a b c, R a b → R b c → S a b) → is_cycle R c → is_cycle S c.
Proof.
  intros Hmono. assert (∀ l x y z, chain R x l y → R y z → chain S x l y) as Hchain.
  { induction l as [|w l IH]; simpl; intros x y z; [eauto|]. intros [Hxw Hc] Hyz. split; [|eauto].
    destruct l; [|destruct Hc]; eauto. }
  destruct c as [|x l]; [done|]. simpl. intros Hc.
  assert (∃ z, R x z) as [z Hz] by (destruct l; [|destruct Hc]; eauto). eauto.
Qed.

Lemma is_cycle_iff {A} (R S : A → A → Prop) c :
  (∀ a b, R a b ↔ S a b) → is_cycle R c ↔ is_cycle S c.
Proof. intros HRS. split; apply is_cycle_mono; intros a b ? ?%HRS _; done. Qed.

(** What validation answers, with its findings spelt out. *)
Lemma validate_findings `{CalendarSyntax} definitions :
  let ds := synthesise_role_dependencies definitions in
  ∃ cycles findings warnings,
    find_cycles (index_graph ds).(di_by_name) = Some cycles ∧
    findings = invalid_service_name_findings ds ++ (index_graph ds).(di_duplicate_findings)
      ++ missing_hard_dependencies ds (index_graph ds).(di_by_name)
      ++ conflicting_boot_services (index_graph ds).(di_by_name)
      ++ health_check_restart_window_findings ds ++ unschedulable_health_check_findings ds
      ++ invalid_timer_schedule_findings ds ++ map Cycle cycles ∧
    validate_service_graph definitions = Some
      match findings with
      | [] => Ok {| gv_service_count := size (index_graph ds).(di_by_name); gv_warnings := warnings |}
      | _ => Err {| gf_findings := findings; gf_warnings := warnings |}
      end.
Proof.
  intros ds. destruct (find_cycles_spec (index_graph ds).(di_by_name)) as (cycles & E & _).
  do 3 eexists. split; [done|]. split; [done|]. unfold validate_service_graph, cycle_findings.
  fold ds. by rewrite E.
Qed.

Lemma validate_ok_valid `{CalendarSyntax} definitions :
  (∀ d, d ∈ definitions → is_u64 d.(sd_restart_window_secs)) →
  (∃ validation, validate_service_graph definitions = Some (Ok validation)) ↔
  valid_graph (synthesise_role_dependencies definitions).
Proof.
  intros Hu. destruct (validate_findings definitions) as (cycles & findings & warnings & Ec & Ef & ->).
  set (ds := synthesise_role_dependencies definitions) in *.
  assert (∀ d, d ∈ ds → is_u64 (sd_restart_window_secs d)) as Hu'.
  { intros d (d' & ? & ->)%synthesise_restart_windows. auto. }
  trans (findings = []). { split; [by intros [v E]; destruct findings|]. intros ->. eauto. }
  assert (map Cycle cycles = [] ↔ cycles = []) as Hm by (by destruct cycles).
  rewrite Ef, !app_nil, Hm, missing_nil, invalid_names_nil, duplicate_findings_nil,
    timers_nil.
  destruct (find_cycles_spec (index_graph ds).(di_by_name)) as (cycles' & Ec' & Hc & Hac).
  rewrite Ec in Ec'. injection Ec' as <-. split.
  - intros (H1 & H2 & H3 & H4 & H5 & H6 & H7 & ->).
    split; [done|done|done|by apply conflicts_nil|by apply health_nil|done|].
    intros c. rewrite <-(is_cycle_iff (edge (index_graph ds).(di_by_name))); [by apply Hac|].
    intros. by apply edge_orders.
  - intros [H1 H2 H3 H4 H5 H6 H7]. apply (health_nil _ Hu') in H5 as [H5 H5'].
    split_and!; try done; [by apply conflicts_nil|].
    destruct cycles as [|c cs]; [done|]. exfalso. apply Forall_cons in Hc as [Hc _].
    apply (H7 c). eapply is_cycle_iff; [|exact Hc]. intros. symmetry. by apply edge_orders.
Qed.

(** ** Theorems *)

(** The search for dependency cycles always returns; every cycle it reports
    is a cycle of ordering dependencies between defined services; and it reports
    none exactly when there is none. *)
Theorem find_cycles_correct by_name :
  ∃ cycles, find_cycles by_name = Some cycles ∧ Forall (is_cycle (edge by_name)) cycles ∧
    (cycles = [] ↔ ∀ c, ¬ is_cycle (edge by_name) c).
Proof.
  destruct (find_cycles_spec by_name) as (cycles & E & Hc & Hac). exists cycles.
  split_and!; [done..|]. split; [done|]. intros Hno. destruct cycles as [|c cs]; [done|].
  apply Forall_cons in Hc as [Hc _]. by destruct (Hno c).
Qed.

(** C39: Validation accepts a definition set, whose restart windows fit in 64
    bits, exactly when the set that will be executed (with the derived role
    dependencies) is valid: names valid and unique, every hard dependency
    defined, no two boot services in conflict, health checks only on simple
    services and failing within less than the restart window (the saturating
    product makes no difference), every timer schedule readable, and no
    ordering cycle. *)
Theorem validate_ok_iff `{CalendarSyntax} definitions :
  (∀ d, d ∈ definitions → is_u64 d.(sd_restart_window_secs)) →
  (∃ validation, validate_service_graph definitions = Some (Ok validation)) ↔
  valid_graph (synthesise_role_dependencies definitions).
Proof. apply validate_ok_valid. Qed.

(** A web server that needs a database whose definition comes first. *)
Definition graph_example : list ServiceDefinition :=
  [ simple_system_boot "db" "/bin/db";
    {| (simple_system_boot "web" "/bin/web") with sd_requires := ["db:ready"]; sd_wants := ["log"] |} ].

Lemma validate_ok_iff_witness :
  valid_graph (H := λ _, Some "bad") (synthesise_role_dependencies graph_example).
Proof.
  apply (proj1 (validate_ok_iff (H := λ _, Some "bad") graph_example
    ltac:(intros d Hd; repeat (apply elem_of_cons in Hd as [->|Hd]; [done|]); by apply elem_of_nil in Hd))).
  eexists. vm_compute. reflexivity.
Defined.

(** C40: A definition set that passed validation never hangs a boot on a cycle:
    whatever subset of services is to be started, the order in which to start
    them is found. *)
Theorem validated_graph_starts `{CalendarSyntax} definitions validation startable :
  (∀ d, d ∈ definitions → is_u64 d.(sd_restart_window_secs)) →
  validate_service_graph definitions = Some (Ok validation) →
  ∃ order, boot_dependency_order startable
             (index_graph (synthesise_role_dependencies definitions)).(di_by_name) = Some (Ok order).
Proof.
  intros Hu Hv. assert (valid_graph (synthesise_role_dependencies definitions)) as [_ Hn _ _ _ _ Hac].
  { apply validate_ok_valid; [done|]. eauto. }
  set (ds := synthesise_role_dependencies definitions) in *. unfold boot_dependency_order.
  match goal with |- context [dependency_start_order startable ?f] =>
    pose proof (dependency_start_order_spec startable f) as Hspec end.
  destruct (dependency_start_order startable _) as [[order|cycle]|]; [by exists order| |done].
  destruct (Hac cycle). eapply is_cycle_mono; [|exact Hspec].
  intros a b c (_ & Hab & _) (_ & Hbc & _).
  destruct (di_by_name (index_graph ds) !! a) as [d|] eqn:Ea; [|by apply elem_of_nil in Hab].
  destruct (di_by_name (index_graph ds) !! b) as [d'|] eqn:Eb; [|by apply elem_of_nil in Hbc].
  apply by_name_lookup in Ea as [Hd <-]; [|done]. apply by_name_lookup in Eb as [Hd' <-]; [|done].
  exists d. split_and!; try done. by apply list_elem_of_fmap_2.
Qed.

Lemma validated_graph_starts_witness :
  boot_dependency_order {["web"; "db"]}
    (index_graph (synthesise_role_dependencies graph_example)).(di_by_name) = Some (Ok ["db"; "web"]).
Proof.
  destruct (validated_graph_starts (H := λ _, None) graph_example
    {| gv_service_count := 2; gv_warnings := [] |} {["web"; "db"]}) as [order E].
  - intros d Hd. repeat (apply elem_of_cons in Hd as [->|Hd]; [done|]). by apply elem_of_nil in Hd.
  - vm_compute. reflexivity.
  - rewrite E. vm_compute in E. by injection E as <-.
Defined.

(** A syntax that rejects only the empty schedule. *)
Definition any_calendar : CalendarSyntax := λ schedule, if str_is_empty schedule then Some "empty" else None.
