(* ===== verification/Shutdown.v ===== *)
(** * Shutdown planning

    Models [src/src/shutdown/model.rs] and [plan.rs]: the data of a shutdown,
    the SIGINT counter that turns a third press into a forced reboot, and the
    plan of a graceful shutdown, which classifies every service of the table
    by its state and orders the ones that run into _stop waves_, dependents
    before what they depend on and the compiled-in services last.

    [reverse_dependency_waves] loops while services remain and each pass
    removes at least one, so the number of candidates plus one bounds it;
    [shutdown_plan_correct] shows the bound is never met. *)

From S2P Require Import Prelude RustStr ServiceRuntime ServiceDef StartOrder Ids Roles Calendar Restart Cgroup.
From S2P Require Import ServiceTable ServiceReload Graph.
From Stdlib Require Import String.
Open Scope string_scope.
Open Scope list_scope.

(** ** Data ([model.rs]) *)

Inductive ShutdownKind : Type := KindPoweroff | KindReboot | KindHalt.
Inductive ShutdownSignal : Type := Sigint | Sigterm | Sigpwr.

#[export] Instance ShutdownKind_eq_dec : EqDecision ShutdownKind.
Proof. solve_decision. Defined.

Record ShutdownStopParticipant : Type := {
  sp_service : string;
  sp_state : ServiceState;
  sp_already_stopping : bool;
}.

Record ShutdownStopWave : Type := { sw_services : list ShutdownStopParticipant }.

Record ShutdownIgnoredService : Type := { ig_service : string; ig_state : ServiceState }.

Record ShutdownSettings : Type := {
  shs_global_timeout_secs : Z;
  shs_post_kill_timeout_secs : Z;
}.

Definition DEFAULT_GLOBAL_TIMEOUT_SECS : Z := 90.
Definition DEFAULT_POST_KILL_TIMEOUT_SECS : Z := 5.

Definition shutdown_settings_default : ShutdownSettings :=
  {| shs_global_timeout_secs := DEFAULT_GLOBAL_TIMEOUT_SECS;
     shs_post_kill_timeout_secs := DEFAULT_POST_KILL_TIMEOUT_SECS |}.

Record ShutdownPlan : Type := {
  sh_completed_to_clear : list string;
  sh_starting_to_kill : list string;
  sh_stop_waves : list ShutdownStopWave;
  sh_ignored : list ShutdownIgnoredService;
}.

Inductive ShutdownPlanError : Type :=
| MissingRuntime (service : string)
| MissingDefinition (service : string)
| MissingReadyService (service : string)
| DependencyCycle (services : list string).

(** ** The forced-reboot counter *)

Record ShutdownSignalTracker : Type := { recent_sigint_ns : list Z }.

Definition FORCED_REBOOT_PRESS_COUNT : nat := 3.
Definition FORCED_REBOOT_WINDOW_NS : Z := 5000000000.

Definition record_sigint (observed_at_ns : Z) (self : ShutdownSignalTracker)
    : ShutdownSignalTracker * bool :=
  let recent := retain (λ pressed_at_ns,
    u64_saturating_sub observed_at_ns pressed_at_ns <=? FORCED_REBOOT_WINDOW_NS)%Z
    self.(recent_sigint_ns) ++ [observed_at_ns] in
  ({| recent_sigint_ns := recent |}, (FORCED_REBOOT_PRESS_COUNT <=? List.length recent)%nat).

(** ** The plan ([plan.rs]) *)

(** [dependents.entry(target).or_default().insert(dependent)] *)
Definition add_dependent_of (dependent target : string) (dependents : gmap string (gset string))
    : gmap string (gset string) :=
  partial_alter (λ s, Some (set_insert dependent (default ∅ s))) target dependents.

Definition rests_on (services : ServiceTable) (candidates : gset string) : list string :=
  filter (λ service, is_some_and (table_definition services service) sd_compiled_in = true)
    (btree_elements candidates).

Definition add_dependents (candidates : gset string) (rests_on : list string) (dependent : string)
    (definition : ServiceDefinition) (dependents : gmap string (gset string))
    : gmap string (gset string) :=
  let dependents :=
    if negb definition.(sd_compiled_in)
    then foldl (λ ds target, add_dependent_of dependent target ds) dependents rests_on
    else dependents in
  foldl (λ ds dependency,
      if bool_decide (dependency.(dep_target) ∈ candidates)
      then add_dependent_of dependent dependency.(dep_target) ds else ds)
    dependents (hard_dependencies definition).

Fixpoint add_all_dependents (services : ServiceTable) (candidates : gset string) (l : list string)
    (dependents : gmap string (gset string)) : Result (gmap string (gset string)) ShutdownPlanError :=
  match l with
  | [] => Ok dependents
  | dependent :: l =>
      let? definition := ok_or (table_definition services dependent) (MissingDefinition dependent) in
      add_all_dependents services candidates l
        (add_dependents candidates (rests_on services candidates) dependent definition dependents)
  end.

Definition dependents_by_target (services : ServiceTable) (candidates : list string)
    : Result (gmap string (gset string)) ShutdownPlanError :=
  let candidates := list_to_set candidates in
  add_all_dependents services candidates (btree_elements candidates) ∅.

Definition remaining_keys (remaining : gmap string ShutdownStopParticipant) : gset string :=
  list_to_set (btree_keys remaining).

Fixpoint take_ready (ready : list string) (remaining : gmap string ShutdownStopParticipant)
    (wave : list ShutdownStopParticipant)
    : Result (gmap string ShutdownStopParticipant * list ShutdownStopParticipant) ShutdownPlanError :=
  match ready with
  | [] => Ok (remaining, wave)
  | service :: ready =>
      let? participant := ok_or (remaining !! service) (MissingReadyService service) in
      take_ready ready (delete service remaining) (wave ++ [participant])
  end.

Fixpoint wave_loop (fuel : nat) (services : ServiceTable)
    (remaining : gmap string ShutdownStopParticipant) (waves : list ShutdownStopWave)
    : option (Result (list ShutdownStopWave) ShutdownPlanError) :=
  match fuel with
  | O => None
  | S fuel =>
      if bool_decide (remaining = ∅) then Some (Ok waves)
      else
        match dependents_by_target services (btree_keys remaining) with
        | Err e => Some (Err e)
        | Ok dependents =>
            let ready := filter (λ service,
              is_none_or (dependents !! service)
                (λ entries, bool_decide (entries ## remaining_keys remaining)) = true)
              (btree_keys remaining) in
            match ready with
            | [] => Some (Err (DependencyCycle (btree_keys remaining)))
            | _ =>
                match take_ready ready remaining [] with
                | Err e => Some (Err e)
                | Ok (remaining, wave) =>
                    wave_loop fuel services remaining (waves ++ [{| sw_services := wave |}])
                end
            end
        end
  end.

Definition reverse_dependency_waves (services : ServiceTable)
    (remaining : gmap string ShutdownStopParticipant)
    : option (Result (list ShutdownStopWave) ShutdownPlanError) :=
  wave_loop (S (size remaining)) services remaining [].

(** The four lists one pass over the table fills. *)
Record Classified : Type := {
  cl_completed : list string;
  cl_starting : list string;
  cl_candidates : gmap string ShutdownStopParticipant;
  cl_ignored : list ShutdownIgnoredService;
}.

Definition classify_service (service : string) (state : ServiceState) (c : Classified) : Classified :=
  match state with
  | StCompleted => {| c with cl_completed := c.(cl_completed) ++ [service] |}
  | StStarting => {| c with cl_starting := c.(cl_starting) ++ [service] |}
  | StActive | StReloading | StStopping =>
      {| c with cl_candidates :=
           <[service := {| sp_service := service; sp_state := state;
                           sp_already_stopping := bool_decide (state = StStopping) |}]>
             c.(cl_candidates) |}
  | StInactive | StBackoff | StFailed | StAbandoned | StSkipped =>
      {| c with cl_ignored := c.(cl_ignored) ++ [{| ig_service := service; ig_state := state |}] |}
  end.

Fixpoint classify_all (services : ServiceTable) (names : list string) (c : Classified)
    : Result Classified ShutdownPlanError :=
  match names with
  | [] => Ok c
  | service :: names =>
      let? runtime := ok_or (table_runtime services service) (MissingRuntime service) in
      classify_all services names (classify_service service runtime.(rt_state) c)
  end.

Definition no_services : Classified :=
  {| cl_completed := []; cl_starting := []; cl_candidates := ∅; cl_ignored := [] |}.

Definition plan_graceful_shutdown (services : ServiceTable)
    : option (Result ShutdownPlan ShutdownPlanError) :=
  match classify_all services (service_names services) no_services with
  | Err e => Some (Err e)
  | Ok c =>
      match reverse_dependency_waves services c.(cl_candidates) with
      | None => None
      | Some (Err e) => Some (Err e)
      | Some (Ok waves) =>
          Some (Ok {| sh_completed_to_clear := c.(cl_completed); sh_starting_to_kill := c.(cl_starting);
                      sh_stop_waves := waves; sh_ignored := c.(cl_ignored) |})
      end
  end.

(** ** What the plan promises *)

(** States of a service that a shutdown stops. *)
Definition stops_in_wave (state : ServiceState) : bool :=
  match state with StActive | StReloading | StStopping => true | _ => false end.

Definition in_state (services : ServiceTable) (p : ServiceState → bool) (service : string) : Prop :=
  is_some_and (table_runtime services service) (λ r, p r.(rt_state)) = true.
#[export] Instance in_state_dec services p service : Decision (in_state services p service).
Proof. unfold in_state. apply _. Defined.

(** [a] must be stopped before [b]: both are running, and [a] has a hard
    dependency on [b], or [b] is compiled in and [a] is not. *)
Definition stops_first (services : ServiceTable) (b a : string) : Prop :=
  in_state services stops_in_wave a ∧ in_state services stops_in_wave b ∧
  ∃ da db, table_definition services a = Some da ∧ table_definition services b = Some db ∧
    (b ∈ map dep_target (hard_dependencies da) ∨ (db.(sd_compiled_in) = true ∧ da.(sd_compiled_in) = false)).

Definition participant_of (service : string) (state : ServiceState) : ShutdownStopParticipant :=
  {| sp_service := service; sp_state := state; sp_already_stopping := bool_decide (state = StStopping) |}.

Definition wave_names (w : ShutdownStopWave) : list string := map sp_service w.(sw_services).

(** *** Dependents *)

Definition dependent_in (ds : gmap string (gset string)) (a b : string) : Prop := a ∈ default ∅ (ds !! b).

Lemma add_dependent_of_in x y ds a b :
  dependent_in (add_dependent_of x y ds) a b ↔ (a = x ∧ b = y) ∨ dependent_in ds a b.
Proof.
  unfold dependent_in, add_dependent_of. destruct (decide (b = y)) as [->|].
  - rewrite lookup_partial_alter_eq. simpl. rewrite elem_of_set_insert. tauto.
  - rewrite lookup_partial_alter_ne by done. tauto.
Qed.

Lemma foldl_add_in {X} (f : X → option string) x l ds a b :
  dependent_in (foldl (λ ds y, match f y with Some t => add_dependent_of x t ds | None => ds end) ds l) a b ↔
  (a = x ∧ ∃ y, y ∈ l ∧ f y = Some b) ∨ dependent_in ds a b.
Proof.
  revert ds. induction l as [|y l IH]; intros ds; cbn [foldl].
  - setoid_rewrite elem_of_nil. naive_solver.
  - rewrite IH. setoid_rewrite elem_of_cons. destruct (f y) as [t|] eqn:E.
    + rewrite add_dependent_of_in. naive_solver.
    + naive_solver.
Qed.

Lemma foldl_ext_body {X S} (f g : S → X → S) l s : (∀ s x, f s x = g s x) → foldl f s l = foldl g s l.
Proof. intros H. revert s. induction l; intros s; simpl; [done|]. by rewrite H. Qed.

Lemma add_dependents_in candidates ro x d ds a b :
  dependent_in (add_dependents candidates ro x d ds) a b ↔
  (a = x ∧ ((d.(sd_compiled_in) = false ∧ b ∈ ro) ∨
            (b ∈ map dep_target (hard_dependencies d) ∧ b ∈ candidates))) ∨ dependent_in ds a b.
Proof.
  unfold add_dependents.
  rewrite (foldl_ext_body _ (λ ds y, match (if bool_decide (y.(dep_target) ∈ candidates)
     then Some y.(dep_target) else None) with Some t => add_dependent_of x t ds | None => ds end)).
  2:{ intros ? y. by case_bool_decide. }
  rewrite foldl_add_in.
  assert ((∃ y, y ∈ hard_dependencies d ∧
     (if bool_decide (dep_target y ∈ candidates) then Some (dep_target y) else None) = Some b) ↔
     (b ∈ map dep_target (hard_dependencies d) ∧ b ∈ candidates)) as ->.
  { rewrite list_elem_of_fmap. split.
    - intros (y & Hy & E). case_bool_decide; [|done]. injection E as <-. eauto.
    - intros ((y & -> & Hy) & Hc). exists y. by rewrite bool_decide_eq_true_2. }
  destruct (sd_compiled_in d); cbn [negb]; [naive_solver|].
  pose proof (foldl_add_in Some x ro ds a b) as H. cbn beta iota in H. rewrite H. naive_solver.
Qed.

Lemma add_all_dependents_spec services candidates l ds :
  (∀ x, x ∈ l → is_Some (table_definition services x)) →
  ∃ ds', add_all_dependents services candidates l ds = Ok ds' ∧
    ∀ a b, dependent_in ds' a b ↔
      (a ∈ l ∧ ∃ da, table_definition services a = Some da ∧
        ((da.(sd_compiled_in) = false ∧ b ∈ rests_on services candidates) ∨
         (b ∈ map dep_target (hard_dependencies da) ∧ b ∈ candidates))) ∨ dependent_in ds a b.
Proof.
  revert ds. induction l as [|x l IH]; intros ds Hl; simpl.
  - exists ds. split; [done|]. intros a b. rewrite elem_of_nil. tauto.
  - destruct (Hl x) as [d Ed]; [left|]. rewrite Ed. simpl.
    edestruct IH as (ds' & -> & H); [by intros; apply Hl; right|]. exists ds'. split; [done|].
    intros a b. rewrite H, add_dependents_in, elem_of_cons. split.
    + intros [?|[(-> & ?)|?]]; naive_solver.
    + intros [([->|?] & da & Eda & ?)|?]; [|naive_solver..]. right. left. by simplify_eq.
Qed.

(** *** One wave *)

Lemma take_ready_spec ready remaining wave :
  NoDup ready → (∀ x, x ∈ ready → is_Some (remaining !! x)) →
  ∃ ps, take_ready ready remaining wave =
    Ok (filter (λ p, p.1 ∉ ready) remaining, wave ++ ps) ∧ map Some ps = map (remaining !!.) ready.
Proof.
  revert remaining wave. induction ready as [|x ready IH]; intros remaining wave Hnd Hs; simpl.
  - exists []. split; [|done]. rewrite app_nil_r. f_equal. f_equal. symmetry. apply map_filter_id.
    intros i y _. simpl. apply not_elem_of_nil.
  - destruct (Hs x) as [p Ep]; [left|]. rewrite Ep. simpl. apply NoDup_cons in Hnd as [Hx Hnd].
    destruct (IH (delete x remaining) (wave ++ [p])) as (ps & -> & H); [done| |].
    { intros y Hy. rewrite lookup_delete_ne by set_solver. apply Hs. by right. }
    exists (p :: ps). split.
    + f_equal. f_equal; [|by rewrite <-app_assoc]. apply map_eq. intros i. apply option_eq. intros v.
      rewrite !map_lookup_filter_Some. simpl. rewrite lookup_delete_Some, elem_of_cons. naive_solver.
    + simpl. rewrite H. f_equal. apply list_fmap_ext. intros i y Hy%list_elem_of_lookup_2.
      apply lookup_delete_ne. set_solver.
Qed.

(** *** Cycles of a stuck set *)

(** Where every node of a finite nonempty set has an edge inside the set, a
    walk comes back to a node it has been at. *)
Lemma stuck_has_cycle {A} `{EqDecision A} (edge : A → A → Prop) (S : list A) (x : A) :
  x ∈ S → (∀ b, b ∈ S → ∃ a, a ∈ S ∧ edge b a) → ∃ c, is_cycle edge c ∧ ∀ y, y ∈ c → y ∈ S.
Proof.
  intros Hx HS.
  enough (∀ n stack y, (List.length S < n + List.length stack)%nat → NoDup stack → (∀ z, z ∈ stack → z ∈ S) → y ∈ S →
    stack_to edge stack y → ∃ c, is_cycle edge c ∧ ∀ z, z ∈ c → z ∈ S) as H.
  { apply (H (Datatypes.S (List.length S)) [] x); simpl; [lia|constructor|by intros ? ?%elem_of_nil|done|].
    apply stack_to_nil. }
  induction n as [|n IH]; intros stack y Hn Hnd Hsub Hy Hst.
  { pose proof (submseteq_length _ _ (NoDup_submseteq _ _ Hnd Hsub)). lia. }
  destruct (decide (y ∈ stack)) as [(pre & suf & ->)%list_elem_of_split|Hny].
  - exists (y :: suf). split; [by eapply stack_to_cycle|]. intros z Hz. apply Hsub, elem_of_app. by right.
  - destruct (HS y Hy) as (a & Ha & Hya).
    apply (IH (stack ++ [y]) a); [rewrite length_app; simpl; lia| |  |done|by apply stack_to_snoc].
    + apply NoDup_snoc; done.
    + intros z [Hz|Hz%list_elem_of_singleton]%elem_of_app; [by auto|by subst].
Qed.

(** *** The waves *)

Section Waves.
Context (services : ServiceTable).

(** [a] is stopped before [b] whenever both remain. *)
Definition stop_edge (b a : string) : Prop :=
  ∃ da db, table_definition services a = Some da ∧ table_definition services b = Some db ∧
    (b ∈ map dep_target (hard_dependencies da) ∨ (db.(sd_compiled_in) = true ∧ da.(sd_compiled_in) = false)).

Definition edge_among (remaining : gmap string ShutdownStopParticipant) (b a : string) : Prop :=
  is_Some (remaining !! a) ∧ is_Some (remaining !! b) ∧ stop_edge b a.

(** The waves take from [remaining], one after the other, every service that
    nothing remaining must be stopped before. *)
Fixpoint layered (remaining : gmap string ShutdownStopParticipant) (ws : list ShutdownStopWave) : Prop :=
  match ws with
  | [] => remaining = ∅
  | w :: ws =>
      ∃ ready, ready ≠ [] ∧ NoDup ready ∧
      (∀ b, b ∈ ready ↔ is_Some (remaining !! b) ∧ ∀ a, ¬ edge_among remaining b a) ∧
      (∀ b, is_Some (remaining !! b) → b ∉ ready → ∃ a, edge_among remaining b a) ∧
      map Some w.(sw_services) = map (remaining !!.) ready ∧
      layered (filter (λ p, p.1 ∉ ready) remaining) ws
  end.

Lemma dependents_by_target_spec remaining :
  (∀ x, is_Some (remaining !! x) → is_Some (table_definition services x)) →
  ∃ ds, dependents_by_target services (btree_keys remaining) = Ok ds ∧
    ∀ a b, is_Some (remaining !! b) → dependent_in ds a b ↔ edge_among remaining b a.
Proof.
  intros Hd. unfold dependents_by_target. set (cands := list_to_set (btree_keys remaining) : gset string).
  assert (∀ x, x ∈ cands ↔ is_Some (remaining !! x)) as Hc.
  { intros x. unfold cands. by rewrite elem_of_list_to_set, elem_of_btree_keys. }
  destruct (add_all_dependents_spec services cands (btree_elements cands) ∅) as (ds & -> & H).
  { intros x ?%elem_of_btree_elements. by apply Hd, Hc. }
  exists ds. split; [done|]. intros a b Hb. rewrite H, elem_of_btree_elements, Hc. unfold edge_among, stop_edge.
  destruct (Hd b Hb) as [db Edb].
  assert (b ∈ rests_on services cands ↔ sd_compiled_in db = true) as Hr.
  { unfold rests_on. rewrite list_elem_of_filter, elem_of_btree_elements, Hc, Edb. simpl. tauto. }
  setoid_rewrite Hr. setoid_rewrite Hc. unfold dependent_in. rewrite lookup_empty. simpl.
  split.
  - intros [(Ha & da & Eda & Hor)|[]%elem_of_empty]. split_and!; [done|done|]. exists da, db. naive_solver.
  - intros (Ha & _ & da & db' & Eda & Edb' & Hor). left. split; [done|]. exists da. simplify_eq.
    split; [done|]. naive_solver.
Qed.

Definition is_ready (ds : gmap string (gset string)) (remaining : gmap string ShutdownStopParticipant)
    (service : string) : bool :=
  is_none_or (ds !! service) (λ entries, bool_decide (entries ## remaining_keys remaining)).

Lemma is_ready_spec ds remaining b :
  (∀ a, dependent_in ds a b ↔ edge_among remaining b a) →
  if is_ready ds remaining b then ∀ a, ¬ edge_among remaining b a else ∃ a, edge_among remaining b a.
Proof.
  intros H. unfold is_ready. unfold dependent_in in H.
  destruct (ds !! b) as [entries|]; simpl in *; [|intros a Ha%H; set_solver].
  case_bool_decide as Hd.
  - intros a Ha. apply (Hd a); [by apply H|]. apply elem_of_list_to_set, elem_of_btree_keys, Ha.
  - destruct (decide (entries ∩ remaining_keys remaining = ∅)) as [He|He]; [set_solver|].
    apply set_choose_L in He as [a [Ha _]%elem_of_intersection]. exists a. by apply H.
Qed.

Lemma wave_loop_spec fuel remaining waves :
  (∀ x, is_Some (remaining !! x) → is_Some (table_definition services x)) →
  (size remaining < fuel)%nat →
  ∃ r, wave_loop fuel services remaining waves = Some r ∧
    match r with
    | Ok ws => ∃ new, ws = waves ++ new ∧ layered remaining new
    | Err e => ∃ stuck, e = DependencyCycle (btree_keys stuck) ∧ stuck ⊆ remaining ∧ stuck ≠ ∅ ∧
        ∀ b, is_Some (stuck !! b) → ∃ a, edge_among stuck b a
    end.
Proof.
  revert remaining waves. induction fuel as [|fuel IH]; intros remaining waves Hd Hf; [lia|]. cbn [wave_loop].
  case_bool_decide as He.
  { eexists. split; [done|]. exists []. by rewrite app_nil_r. }
  destruct (dependents_by_target_spec remaining Hd) as (ds & -> & Hds).
  change (λ service, _ = true) with (λ service, is_ready ds remaining service = true).
  set (ready := filter _ _).
  assert (∀ b, b ∈ ready ↔ is_Some (remaining !! b) ∧ is_ready ds remaining b = true) as Hready.
  { intros b. unfold ready. rewrite list_elem_of_filter, elem_of_btree_keys. tauto. }
  assert (NoDup ready) as Hnd by apply NoDup_filter, NoDup_btree_keys.
  clearbody ready. destruct ready as [|x l].
  { eexists. split; [done|]. exists remaining. split_and!; [done..|]. intros b Hb.
    pose proof (is_ready_spec ds remaining b (λ a, Hds a b Hb)) as H.
    destruct (is_ready ds remaining b) eqn:E; [|done]. destruct (not_elem_of_nil b). by apply Hready. }
  destruct (take_ready_spec (x :: l) remaining []) as (ps & -> & Hps); [done| |].
  { intros y Hy. by apply Hready. }
  edestruct IH as (r & -> & Hr).
  { intros y [? [? _]%map_lookup_filter_Some]. apply Hd. eauto. }
  { eapply Nat.lt_le_trans; [|apply (proj1 (Nat.lt_succ_r _ _) Hf)].
    apply (Nat.le_lt_trans _ (size (delete x remaining))).
    - apply map_subseteq_size, map_subseteq_spec. intros i v [Hi Hni]%map_lookup_filter_Some.
      rewrite lookup_delete_ne by set_solver. done.
    - apply map_subset_size, delete_subset, (Hready x). left. }
  eexists. split; [done|]. destruct r as [ws|e].
  - destruct Hr as (new & -> & Hl). eexists. rewrite <-app_assoc. split; [done|]. simpl.
    exists (x :: l). split_and!; [done|done| | |done|done].
    2:{ intros b Hb Hnb. pose proof (is_ready_spec ds remaining b (λ a, Hds a b Hb)) as H2.
        destruct (is_ready ds remaining b) eqn:Eb; [|done]. destruct Hnb. by apply Hready. }
    intros b. rewrite Hready. split; intros [Hb H]; (split; [done|]);
      pose proof (is_ready_spec ds remaining b (λ a, Hds a b Hb)) as H2.
    + by rewrite H in H2.
    + destruct (is_ready ds remaining b); [done|]. destruct H2 as [a Ha]. by destruct (H a).
  - destruct Hr as (stuck & ? & Hsub & ? & ?). exists stuck. split_and!; try done.
    etrans; [exact Hsub|apply map_filter_subseteq].
Qed.

(** *** What layering gives *)

Definition wave_at (ws : list ShutdownStopWave) (i : nat) (p : ShutdownStopParticipant) : Prop :=
  ∃ w, ws !! i = Some w ∧ p ∈ w.(sw_services).

Lemma wave_at_cons_0 w ws p : wave_at (w :: ws) 0 p ↔ p ∈ w.(sw_services).
Proof. unfold wave_at. simpl. naive_solver. Qed.
Lemma wave_at_cons_S w ws i p : wave_at (w :: ws) (S i) p ↔ wave_at ws i p.
Proof. done. Qed.

(** The participants of a map are named by their keys. *)
Definition keyed_by_name (remaining : gmap string ShutdownStopParticipant) : Prop :=
  ∀ x p, remaining !! x = Some p → p.(sp_service) = x.

Lemma keyed_by_name_filter (P : string * ShutdownStopParticipant → Prop) `{!∀ x, Decision (P x)} remaining :
  keyed_by_name remaining → keyed_by_name (filter P remaining).
Proof. intros Hn x p [E _]%map_lookup_filter_Some. by apply Hn. Qed.

Lemma wave_members w remaining ready p :
  keyed_by_name remaining → map Some w.(sw_services) = map (remaining !!.) ready →
  p ∈ w.(sw_services) ↔ p.(sp_service) ∈ ready ∧ remaining !! p.(sp_service) = Some p.
Proof.
  intros Hn E. split.
  - intros Hp. assert (Some p ∈ map Some w.(sw_services)) as Hs by (apply list_elem_of_fmap; eauto).
    rewrite E in Hs. apply list_elem_of_fmap in Hs as (x & Ex & Hx). by rewrite (Hn x p) by done.
  - intros [Hr Ep]. assert (Some p ∈ map Some w.(sw_services)) as (q & Eq & Hq)%list_elem_of_fmap; [|by simplify_eq].
    rewrite E, list_elem_of_fmap. eauto.
Qed.

Lemma layered_members remaining ws p :
  keyed_by_name remaining → layered remaining ws →
  (∃ i, wave_at ws i p) ↔ remaining !! p.(sp_service) = Some p.
Proof.
  revert remaining. induction ws as [|w ws IH]; intros remaining Hn; simpl.
  - intros ->. rewrite lookup_empty. split; [|done]. by intros (i & w & ? & _).
  - intros (ready & _ & _ & Hr & _ & E & Hl). apply IH in Hl; [|by apply keyed_by_name_filter].
    rewrite map_lookup_filter_Some in Hl. simpl in Hl.
    pose proof (wave_members w remaining ready p Hn E) as Hw. split.
    + intros [[|i] Hi]; [by apply wave_at_cons_0, Hw in Hi as []|].
      destruct (proj1 Hl) as []; [by exists i|done].
    + intros Ep. destruct (decide (sp_service p ∈ ready)).
      * exists 0%nat. apply wave_at_cons_0. tauto.
      * destruct (proj2 Hl) as [i Hi]; [done|]. by exists (S i).
Qed.

Lemma layered_order remaining ws i j p q :
  keyed_by_name remaining → layered remaining ws → wave_at ws i p → wave_at ws j q →
  stop_edge q.(sp_service) p.(sp_service) → (i < j)%nat.
Proof.
  revert remaining i j. induction ws as [|w ws IH]; intros remaining i j Hn; [by intros _ (? & ? & _)|].
  intros Hl Hp Hq He.
  pose proof (proj1 (layered_members _ _ _ Hn Hl) (ex_intro _ i Hp)) as Ep.
  pose proof (proj1 (layered_members _ _ _ Hn Hl) (ex_intro _ j Hq)) as Eq.
  destruct Hl as (ready & _ & _ & Hr & _ & E & Hl).
  destruct j as [|j].
  { apply wave_at_cons_0, (wave_members _ _ _ _ Hn E) in Hq as [[_ Hno]%Hr _]. destruct (Hno (sp_service p)).
    split_and!; eauto. }
  destruct i as [|i]; [lia|]. apply le_n_S, (IH _ i j (keyed_by_name_filter _ _ Hn) Hl); done.
Qed.

Lemma layered_tight remaining ws i q :
  keyed_by_name remaining → layered remaining ws → wave_at ws (S i) q →
  ∃ p, wave_at ws i p ∧ stop_edge q.(sp_service) p.(sp_service).
Proof.
  revert remaining i. induction ws as [|w ws IH]; intros remaining i Hn; [by intros _ (? & ? & _)|].
  intros Hl Hq. destruct Hl as (ready & _ & _ & _ & Hex & E & Hl).
  destruct i as [|i].
  2:{ destruct (IH _ i (keyed_by_name_filter _ _ Hn) Hl) as (p & ? & ?); [done|]. exists p. done. }
  assert (keyed_by_name (filter (λ p, p.1 ∉ ready) remaining)) as Hn2 by by apply keyed_by_name_filter.
  pose proof (proj1 (layered_members _ _ _ Hn2 Hl) (ex_intro _ 0%nat Hq)) as [Eq Hnq]%map_lookup_filter_Some.
  simpl in Hnq. destruct (Hex (sp_service q)) as (a & [pa Ea] & _ & He); [by eauto|done|].
  pose proof (Hn _ _ Ea) as Ena. subst a. exists pa. split; [|done]. apply wave_at_cons_0, (wave_members _ _ _ _ Hn E).
  split; [|done]. apply dec_stable. intros Hna.
  destruct ws as [|w2 ws]; [by destruct Hq as (? & ? & _)|].
  assert (q ∈ sw_services w2) as Hq2 by by destruct Hq as (? & [= <-] & ?).
  destruct Hl as (ready2 & _ & _ & Hr2 & _ & E2 & _).
  apply (wave_members _ _ _ _ Hn2 E2) in Hq2 as [[_ Hno]%Hr2 _].
  apply (Hno (sp_service pa)). split_and!; [|eexists; by apply map_lookup_filter_Some|done].
  exists pa. by apply map_lookup_filter_Some.
Qed.

Lemma layered_NoDup remaining ws :
  keyed_by_name remaining → layered remaining ws → NoDup (ws ≫= wave_names) ∧ Forall (λ w, sw_services w ≠ []) ws.
Proof.
  revert remaining. induction ws as [|w ws IH]; intros remaining Hn; simpl; [by split; constructor|].
  intros (ready & Hne & Hnd & Hr & _ & E & Hl).
  assert (keyed_by_name (filter (λ p, p.1 ∉ ready) remaining)) as Hn2 by by apply keyed_by_name_filter.
  destruct (IH _ Hn2 Hl) as [IH1 IH2].
  assert (wave_names w = ready) as Hw.
  { apply (f_equal (map (from_option sp_service EmptyString))) in E. unfold wave_names. rewrite !map_map in E. simpl in E.
    etrans; [exact E|]. etrans; [|apply map_id]. apply map_ext_in. intros x Hx%list_elem_of_In.
    apply Hr in Hx as [[p Ep] _]. simpl. rewrite Ep. simpl. by apply Hn. }
  rewrite Hw. split.
  - apply NoDup_app. split_and!; [done| |done]. intros x Hx Hin.
    apply list_elem_of_bind in Hin as (w' & Hx' & Hw'). apply list_elem_of_fmap in Hx' as (p & -> & Hp).
    apply list_elem_of_lookup in Hw' as [i Hi].
    pose proof (proj1 (layered_members _ _ p Hn2 Hl) (ex_intro _ i (ex_intro _ w' (conj Hi Hp)))) as Hf.
    by apply map_lookup_filter_Some in Hf as [_ []].
  - constructor; [|done]. intros E0. apply Hne. rewrite <-Hw. unfold wave_names. by rewrite E0.
Qed.
End Waves.

(** *** Classification *)

Definition is_ignored (state : ServiceState) : bool :=
  match state with StInactive | StBackoff | StFailed | StAbandoned | StSkipped => true | _ => false end.

Record classified (services : ServiceTable) (names : list string) (c c' : Classified) : Prop := {
  cd_completed : cl_completed c' =
    cl_completed c ++ filter (in_state services (λ s, bool_decide (s = StCompleted))) names;
  cd_starting : cl_starting c' =
    cl_starting c ++ filter (in_state services (λ s, bool_decide (s = StStarting))) names;
  cd_ignored : map ig_service (cl_ignored c') =
    map ig_service (cl_ignored c) ++ filter (in_state services is_ignored) names;
  cd_ignored_state : ∀ g, g ∈ cl_ignored c' → g ∈ cl_ignored c ∨
    rt_state <$> table_runtime services g.(ig_service) = Some g.(ig_state);
  cd_candidates : ∀ s p, cl_candidates c' !! s = Some p ↔
    (s ∈ names ∧ ∃ r, table_runtime services s = Some r ∧ stops_in_wave r.(rt_state) = true ∧
      p = participant_of s r.(rt_state)) ∨
    (cl_candidates c !! s = Some p ∧ ¬ (s ∈ names ∧ in_state services stops_in_wave s));
}.

Lemma classify_candidates s state c x :
  cl_candidates (classify_service s state c) !! x =
    if bool_decide (x = s) && stops_in_wave state then Some (participant_of s state) else cl_candidates c !! x.
Proof.
  case_bool_decide as H; [subst x|]; destruct state; simpl; try done;
    first [by rewrite lookup_insert_eq|by rewrite lookup_insert_ne].
Qed.

Lemma classify_all_spec services names c :
  NoDup names → (∀ s, s ∈ names → is_Some (table_runtime services s)) →
  ∃ c', classify_all services names c = Ok c' ∧ classified services names c c'.
Proof.
  revert c. induction names as [|s names IH]; intros c Hnd Hr; simpl.
  - exists c. split; [done|]. split; rewrite ?app_nil_r; auto.
    intros s p. rewrite elem_of_nil. naive_solver.
  - apply NoDup_cons in Hnd as [Hs Hnd]. destruct (Hr s) as [r Er]; [left|]. rewrite Er. simpl.
    edestruct (IH (classify_service s (rt_state r) c)) as (c' & -> & [H1 H2 H3 H4 H5]); [done|by intros; apply Hr; right|].
    exists c'. split; [done|].
    assert (∀ p, in_state services p s ↔ p (rt_state r) = true) as Hin.
    { intros p. unfold in_state. by rewrite Er. }
    split.
    + rewrite H1, filter_cons. destruct (decide _) as [Hd|Hd]; rewrite Hin in Hd;
        destruct (rt_state r); try done; simpl; by rewrite <-app_assoc.
    + rewrite H2, filter_cons. destruct (decide _) as [Hd|Hd]; rewrite Hin in Hd;
        destruct (rt_state r); try done; simpl; by rewrite <-app_assoc.
    + rewrite H3, filter_cons. destruct (decide _) as [Hd|Hd]; rewrite Hin in Hd;
        destruct (rt_state r); try done; simpl; by rewrite map_app, <-app_assoc.
    + intros g Hg. apply H4 in Hg as [Hg|?]; [|by right].
      destruct (rt_state r) eqn:Est; simpl in Hg; auto;
        apply elem_of_app in Hg as [?|Hg%list_elem_of_singleton]; auto; subst g; right; simpl;
        by rewrite Er; simpl; rewrite Est.
    + intros x p. rewrite H5, classify_candidates, elem_of_cons. destruct (decide (x = s)) as [->|Hne].
      * rewrite bool_decide_eq_true_2 by done. rewrite (Hin stops_in_wave), Er. simpl.
        destruct (stops_in_wave (rt_state r)) eqn:Est.
        -- split.
           ++ intros [[? _]|[[= <-] _]]; [done|]. left. split; [by left|]. by exists r.
           ++ intros [(_ & r' & [= <-] & _ & ->)|[_ []]]; [|by auto]. right. split; [done|]. by intros [? _].
        -- split.
           ++ intros [[? _]|[Ep _]]; [done|]. right. split; [done|]. by intros [_ ?].
           ++ intros [(_ & r' & [= <-] & ? & _)|[Ep _]]; [congruence|]. right. split; [done|]. by intros [? _].
      * rewrite bool_decide_eq_false_2 by done. simpl.
        assert (x = s ∨ x ∈ names ↔ x ∈ names) as -> by tauto. done.
Qed.

(** ** The theorems *)

(** What a plan does with the services of the table. *)
Record shutdown_plan_ok (services : ServiceTable) (plan : ShutdownPlan) : Prop := {
  po_completed : sh_completed_to_clear plan =
    filter (in_state services (λ s, bool_decide (s = StCompleted))) (service_names services);
  po_starting : sh_starting_to_kill plan =
    filter (in_state services (λ s, bool_decide (s = StStarting))) (service_names services);
  po_ignored : map ig_service (sh_ignored plan) =
    filter (in_state services is_ignored) (service_names services);
  po_ignored_state : ∀ g, g ∈ sh_ignored plan →
    rt_state <$> table_runtime services g.(ig_service) = Some g.(ig_state);
  po_waves : ∀ p, (∃ i, wave_at (sh_stop_waves plan) i p) ↔
    ∃ r, table_runtime services p.(sp_service) = Some r ∧ stops_in_wave r.(rt_state) = true ∧
      p = participant_of p.(sp_service) r.(rt_state);
  po_once : NoDup (sh_stop_waves plan ≫= wave_names);
  po_nonempty : Forall (λ w, sw_services w ≠ []) (sh_stop_waves plan);
  po_order : ∀ i j p q, wave_at (sh_stop_waves plan) i p → wave_at (sh_stop_waves plan) j q →
    stops_first services q.(sp_service) p.(sp_service) → (i < j)%nat;
  po_tight : ∀ i q, wave_at (sh_stop_waves plan) (S i) q →
    ∃ p, wave_at (sh_stop_waves plan) i p ∧ stops_first services q.(sp_service) p.(sp_service);
}.

Lemma in_state_iff services p s :
  in_state services p s ↔ ∃ r, table_runtime services s = Some r ∧ p r.(rt_state) = true.
Proof. unfold in_state. destruct (table_runtime services s); naive_solver. Qed.

(** A cycle of the stop order excludes a plan that has an order. *)
Lemma plan_acyclic services plan c : shutdown_plan_ok services plan → ¬ is_cycle (stops_first services) c.
Proof.
  intros [_ _ _ _ Hm Hnd _ Ho _].
  pose (rank x := from_option fst 0%nat (list_find (λ w, x ∈ wave_names w) (sh_stop_waves plan))).
  apply (ranked_acyclic _ rank). intros b a Hab.
  assert (∀ x, in_state services stops_in_wave x → ∃ p, wave_at (sh_stop_waves plan) (rank x) p ∧ sp_service p = x) as H.
  { intros x (r & Er & Hr)%in_state_iff. destruct (proj2 (Hm (participant_of x (rt_state r)))) as (i & w & Hw & Hp).
    { simpl. eauto. }
    unfold rank. destruct (list_find (λ w, x ∈ wave_names w) _) as [[j w']|] eqn:E; simpl.
    - apply list_find_Some in E as (Hj & Hx & _). apply list_elem_of_fmap in Hx as (p & -> & Hpw).
      exists p. split; [by exists w'|done].
    - eapply list_find_None, Forall_lookup_1 in E; [|exact Hw]. destruct E. apply list_elem_of_fmap.
      by exists (participant_of x (rt_state r)). }
  destruct Hab as (Ha & Hb & He). destruct (H a Ha) as (p & Hp & Ep). destruct (H b Hb) as (q & Hq & Eq).
  apply (Ho _ _ p q Hp Hq). subst. done.
Qed.

(** The stuck services of a planning error have a cycle. *)
Lemma stuck_cycle services (stuck : gmap string ShutdownStopParticipant) :
  (∀ s p, stuck !! s = Some p → in_state services stops_in_wave s) → stuck ≠ ∅ →
  (∀ b, is_Some (stuck !! b) → ∃ a, edge_among services stuck b a) →
  (∀ b, b ∈ btree_keys stuck → ∃ a, a ∈ btree_keys stuck ∧ stops_first services b a) ∧
  ∃ c, is_cycle (stops_first services) c ∧ ∀ x, x ∈ c → x ∈ btree_keys stuck.
Proof.
  intros Hs Hne He.
  assert (∀ b, b ∈ btree_keys stuck → ∃ a, a ∈ btree_keys stuck ∧ stops_first services b a) as Hstep.
  { intros b [p Hp]%elem_of_btree_keys. destruct (He b) as (a & [q Hq] & _ & Hab); [by eauto|].
    exists a. rewrite elem_of_btree_keys. split; [by eauto|]. split_and!; [by eapply Hs..|done]. }
  split; [done|]. apply map_choose in Hne as (x & p & Hx).
  apply (stuck_has_cycle _ _ x); [|done]. apply elem_of_btree_keys. eauto.
Qed.

Lemma plan_graceful_shutdown_spec services :
  ∃ r, plan_graceful_shutdown services = Some r ∧
  match r with
  | Ok plan => shutdown_plan_ok services plan
  | Err e => ∃ stuck, e = DependencyCycle stuck ∧
      (∀ b, b ∈ stuck → ∃ a, a ∈ stuck ∧ stops_first services b a) ∧
      ∃ c, is_cycle (stops_first services) c ∧ ∀ x, x ∈ c → x ∈ stuck
  end.
Proof.
  unfold plan_graceful_shutdown.
  destruct (classify_all_spec services (service_names services) no_services) as (c & -> & [H1 H2 H3 H4 H5]).
  { apply NoDup_btree_keys. }
  { intros s [e Ee]%elem_of_btree_keys. unfold table_runtime. rewrite Ee. by eexists. }
  assert (∀ s p, cl_candidates c !! s = Some p ↔ ∃ r, table_runtime services s = Some r ∧
    stops_in_wave (rt_state r) = true ∧ p = participant_of s (rt_state r)) as Hc.
  { intros s p. rewrite H5. simpl. rewrite lookup_empty. split; [naive_solver|]. intros (r & Hr & ?). left.
    split; [|by eauto]. apply elem_of_btree_keys. unfold table_runtime in Hr. by destruct (services !! s). }
  assert (keyed_by_name (cl_candidates c)) as Hn by (intros s p (? & _ & _ & ->)%Hc; done).
  destruct (wave_loop_spec services (S (size (cl_candidates c))) (cl_candidates c) []) as (r & Er & Hr).
  { intros s [p (r & Hr & _)%Hc]. unfold table_runtime, table_definition in *. by destruct (services !! s). }
  { lia. }
  unfold reverse_dependency_waves. rewrite Er. destruct r as [ws|e]; eexists; (split; [done|]).
  - destruct Hr as (new & -> & Hl). simpl.
    assert (∀ q p, stop_edge services q p → in_state services stops_in_wave p →
      in_state services stops_in_wave q → stops_first services q p) as Hsf by done.
    assert (∀ i p, wave_at new i p → in_state services stops_in_wave (sp_service p)) as Hst.
    { intros i p Hi. pose proof (proj1 (layered_members _ _ _ p Hn Hl) (ex_intro _ i Hi)) as (r & ? & ? & _)%Hc.
      apply in_state_iff. eauto. }
    destruct (layered_NoDup _ _ _ Hn Hl) as [Hnd Hne]. split; simpl; try done.
    + intros g [?%elem_of_nil|?]%H4; done.
    + intros p. by rewrite (layered_members _ _ _ p Hn Hl), Hc.
    + intros i j p q Hp Hq (_ & _ & He). by eapply layered_order.
    + intros i q Hq. destruct (layered_tight _ _ _ _ _ Hn Hl Hq) as (p & Hp & He). exists p. split; [done|].
      apply Hsf; [done|by eapply Hst..].
  - destruct Hr as (stuck & -> & Hsub & Hne & He). eexists. split; [done|]. apply stuck_cycle; [|done..].
    intros s p Hp. eapply lookup_weaken in Hp; [|exact Hsub]. apply Hc in Hp as (r & ? & ? & _).
    apply in_state_iff. eauto.
Qed.

(** C13: Planning a graceful shutdown always terminates, and either plans or
    reports a dependency cycle. A plan puts every service of the table in
    exactly one of its four parts by the state it is in: Completed ones are
    cleared, Starting ones killed, Active, Reloading and Stopping ones stopped
    in one wave each, the rest ignored. A service is stopped in a strictly
    earlier wave than every service it has a hard dependency on and than every
    compiled-in service, unless it is compiled in itself; no wave is empty,
    and no service waits for a wave it does not have to. Planning fails only
    when the running services really form a cycle of that order, and then the
    services it names contain one. *)
Theorem shutdown_plan_correct (services : ServiceTable) :
  match plan_graceful_shutdown services with
  | None => False
  | Some (Ok plan) => shutdown_plan_ok services plan ∧ ∀ c, ¬ is_cycle (stops_first services) c
  | Some (Err e) => ∃ stuck, e = DependencyCycle stuck ∧
      (∀ b, b ∈ stuck → ∃ a, a ∈ stuck ∧ stops_first services b a) ∧
      ∃ c, is_cycle (stops_first services) c ∧ ∀ x, x ∈ c → x ∈ stuck
  end.
Proof.
  destruct (plan_graceful_shutdown_spec services) as (r & -> & Hr). destruct r as [plan|e]; [|done].
  split; [done|]. intros c. by eapply plan_acyclic.
Qed.

(** *** Forced reboot *)

(** The tracker after the presses [ts], and whether the last one forced. *)
Definition press (st : ShutdownSignalTracker * bool) (t : Z) : ShutdownSignalTracker * bool :=
  record_sigint t st.1.
Definition presses (ts : list Z) : ShutdownSignalTracker * bool :=
  foldl press ({| recent_sigint_ns := [] |}, false) ts.

Definition still_counts (t x : Z) : bool := (u64_saturating_sub t x <=? FORCED_REBOOT_WINDOW_NS)%Z.

Lemma still_counts_iff t x : still_counts t x = true ↔ (t - x <= 5000000000)%Z.
Proof. unfold still_counts, u64_saturating_sub, FORCED_REBOOT_WINDOW_NS. rewrite Z.leb_le. lia. Qed.

(** On a clock that does not go back, the tracker holds the presses that
    still count at the last one. *)
Lemma presses_recent ts t :
  StronglySorted Z.le (ts ++ [t]) →
  recent_sigint_ns (presses (ts ++ [t])).1 = retain (still_counts t) ts ++ [t].
Proof.
  revert t. induction ts as [|u ts IH] using rev_ind; intros t Hs; [done|].
  assert (u ≤ t)%Z as Hut.
  { eapply StronglySorted_app_1_elem_of; [exact Hs|apply elem_of_app; right; left|left]. }
  unfold presses in *. rewrite foldl_app. simpl. f_equal.
  rewrite IH by by eapply StronglySorted_app_1_l. unfold retain. rewrite !filter_app.
  f_equal. apply list_filter_filter_l. intros x. rewrite !still_counts_iff. lia.
Qed.

Lemma presses_forced ts t :
  (presses (ts ++ [t])).2 = (3 <=? List.length (recent_sigint_ns (presses (ts ++ [t])).1))%nat.
Proof. unfold presses. by rewrite foldl_app. Qed.

(** A SIGINT forces the reboot exactly when it is the third within five
    seconds: the press two before it exists and came at most five seconds
    earlier. Presses that are older never count again, and a forced press does
    not reset the count. *)
Theorem forced_reboot_exact (ts : list Z) (t : Z) :
  StronglySorted Z.le (ts ++ [t]) →
  (presses (ts ++ [t])).2 = true ↔ ∃ pre x y, ts = pre ++ [x; y] ∧ (t - x ≤ 5000000000)%Z.
Proof.
  intros Hs. rewrite presses_forced, presses_recent, length_app, Nat.leb_le by done.
  cbn [List.length]. split.
  - intros Hl. destruct ts as [|y ts _] using rev_ind; [simpl in Hl; lia|].
    destruct ts as [|x ts _] using rev_ind.
    { pose proof (length_filter (λ x, still_counts t x = true) ([] ++ [y])). unfold retain in Hl. simpl in *. lia. }
    exists ts, x, y. rewrite <-app_assoc. split; [done|]. apply still_counts_iff, dec_stable. intros Hx.
    assert (retain (still_counts t) (ts ++ [x]) = []) as E.
    { unfold retain. apply filter_none. intros z Hz Hc. apply Hx. rewrite still_counts_iff in *.
      assert (z ≤ x)%Z; [|lia]. apply elem_of_app in Hz as [Hz|Hz%list_elem_of_singleton]; [|lia].
      rewrite <-!app_assoc in Hs. eapply StronglySorted_app_1_elem_of; [exact Hs|done|left]. }
    unfold retain in *. rewrite filter_app, E in Hl. rewrite length_app in Hl. simpl in Hl.
    pose proof (length_filter (λ x, still_counts t x = true) [y]). simpl in *. lia.
  - intros (pre & x & y & -> & Hx). unfold retain. rewrite filter_app, length_app.
    assert (x ≤ y)%Z.
    { rewrite <-app_assoc in Hs. apply StronglySorted_app_1_r in Hs.
      eapply (StronglySorted_app_1_elem_of _ [x] [y; t]); [exact Hs|left|left]. }
    rewrite !filter_cons_True by (apply still_counts_iff; lia). simpl. lia.
Qed.

Lemma forced_reboot_exact_witness :
  StronglySorted Z.le ([0; 4000000000; 6000000000] ++ [9000000000])%Z ∧
  ((presses ([0; 4000000000; 6000000000] ++ [9000000000])%Z).2 = true ↔
   ∃ pre x y, [0; 4000000000; 6000000000]%Z = pre ++ [x; y] ∧ (9000000000 - x ≤ 5000000000)%Z).
Proof.
  assert (StronglySorted Z.le ([0; 4000000000; 6000000000] ++ [9000000000])%Z) as Hs
    by (repeat constructor; lia).
  split; [exact Hs|]. exact (forced_reboot_exact [0; 4000000000; 6000000000]%Z 9000000000 Hs).
Defined.

(** ** Cycles across a reload *)

Definition front (requires : list string) : ServiceDefinition :=
  let d := simple_system_boot "front" "/bin/front" in {| d with sd_requires := requires |}.
Definition back (requires : list string) : ServiceDefinition :=
  let d := simple_system_boot "back" "/bin/back" in {| d with sd_requires := requires |}.

Definition run_transitions (l : list (string * ServiceTransition)) (t : ServiceTable) : ServiceTable :=
  foldl (λ t p, (transition_service p.1 p.2 t).1) t l.

Definition to_active (service : string) : list (string * ServiceTransition) :=
  [(service, {| st_to := StStarting; st_cause := TcExplicitStart |});
   (service, {| st_to := StActive; st_cause := TcExplicitStart |})].
Definition to_inactive (service : string) : list (string * ServiceTransition) :=
  [(service, {| st_to := StStopping; st_cause := TcExplicitStop |});
   (service, {| st_to := StInactive; st_cause := TcExplicitStop |})].

(** Two services run; a reload turns the dependency between them around; the
    one it now points from is restarted, which takes up its new definition,
    while the other still runs under its old one. *)
Definition turned_around : ServiceTable :=
  match from_boot_snapshot [front ["back"]; back []] with
  | Err _ => ∅
  | Ok t =>
      let t := run_transitions (to_active "back" ++ to_active "front") t in
      let t := (apply_definition_snapshot [front []; back ["front"]] t).1 in
      run_transitions (to_inactive "back" ++ to_active "back") t
  end.

(** Two definition snapshots that are each valid can leave a running system
    that no graceful shutdown can be planned for: the definitions the running
    instances keep form a cycle, and the plan is an error instead of a stop
    order. *)
Theorem reload_can_block_shutdown :
  is_ok <$> validate_service_graph (H := any_calendar) [front ["back"]; back []] = Some true ∧
  is_ok <$> validate_service_graph (H := any_calendar) [front []; back ["front"]] = Some true ∧
  plan_graceful_shutdown turned_around = Some (Err (DependencyCycle ["back"; "front"])).
Proof. vm_compute. done. Qed.
