(* ===== verification/OperationRecord.v ===== *)
(** * Operations

    Models one operation of [src/src/operation/]: the record ([model.rs],
    [builder.rs]), its life cycle ([lifecycle.rs]), the conflict table
    ([conflict.rs]), the events it emits ([store/event.rs]), and the result
    codes of [timeout.rs] and [internal_error.rs]. The caller's token summary is
    [src/src/security/summary.rs]. The store is in [OperationStore].

    A step of the life cycle either fails and leaves the record alone or yields
    the changed record, so it is a function to a [Result]. *)

From S2P Require Import Prelude RustStr ServiceDef Ids.
From Stdlib Require Import String.
Open Scope string_scope.
Open Scope list_scope.
Open Scope Z_scope.

(** ** Data *)

Record TokenSummary : Type := {
  ts_identity : string;
  ts_user_sid : string;
  ts_group_sids : list string;
  ts_present_privileges : list string;
  ts_enabled_privileges : list string;
}.

Definition caller_sid (self : TokenSummary) : string :=
  if str_is_empty self.(ts_user_sid) then self.(ts_identity) else self.(ts_user_sid).

Inductive OperationType : Type := OpStart | OpStop | OpRestart | OpReload | OpReset.

Inductive OperationSource : Type :=
| SrcAdmin | SrcBoot | SrcShutdown | SrcDependencyPropagation | SrcRestartPolicy | SrcTimer
| SrcBindsToRecovery | SrcBindsToPropagation | SrcConflictResolution | SrcOnFailure | SrcTtyRelease.

Inductive OperationState : Type :=
| OsPending | OsRunning | OsCompleted | OsFailed | OsMerged | OsCancelled | OsAborted.

#[export] Instance OperationType_eq_dec : EqDecision OperationType.
Proof. solve_decision. Defined.
#[export] Instance OperationSource_eq_dec : EqDecision OperationSource.
Proof. solve_decision. Defined.
#[export] Instance OperationState_eq_dec : EqDecision OperationState.
Proof. solve_decision. Defined.

Definition op_is_terminal (self : OperationState) : bool :=
  match self with
  | OsCompleted | OsFailed | OsMerged | OsCancelled | OsAborted => true
  | OsPending | OsRunning => false
  end.

Record OperationRecord : Type := {
  or_id : OperationId;
  or_operation_type : OperationType;
  or_service : string;
  or_state : OperationState;
  or_created_at_ns : Z;
  or_lifetime_from_ns : Z;
  or_started_at_ns : option Z;
  or_completed_at_ns : option Z;
  or_source : OperationSource;
  or_caller : option TokenSummary;
  or_result : option string;
  or_merged_into : option OperationId;
  or_service_security : option ServiceSecurityDescriptor;
}.

Inductive OperationTransitionAction : Type :=
| ActStart | ActComplete | ActFail | ActMerge | ActCancel | ActAbort.

Inductive OperationTransitionError : Type :=
| OpInvalidTransition (id : OperationId) (from : OperationState) (action : OperationTransitionAction)
| CompletionBeforeCreation (id : OperationId) (created_at_ns completed_at_ns : Z)
| StartBeforeCreation (id : OperationId) (created_at_ns started_at_ns : Z).

(** [OperationRecord::new]. *)
Definition operation_new (id : OperationId) (operation_type : OperationType) (service : string)
    (source : OperationSource) (caller : option TokenSummary) (created_at_ns : Z)
    : OperationRecord := {|
  or_id := id;
  or_operation_type := operation_type;
  or_service := service;
  or_state := OsPending;
  or_created_at_ns := created_at_ns;
  or_lifetime_from_ns := created_at_ns;
  or_started_at_ns := None;
  or_completed_at_ns := None;
  or_source := source;
  or_caller := caller;
  or_result := None;
  or_merged_into := None;
  or_service_security := None;
|}.

(** ** Life cycle ([lifecycle.rs]) *)

Definition OpStep : Type := Result OperationRecord OperationTransitionError.

Definition ensure_state (expected : OperationState) (action : OperationTransitionAction)
    (self : OperationRecord) : Result unit OperationTransitionError :=
  if bool_decide (self.(or_state) = expected) then Ok tt
  else Err (OpInvalidTransition self.(or_id) self.(or_state) action).

Definition ensure_completed_at (completed_at_ns : Z) (self : OperationRecord)
    : Result unit OperationTransitionError :=
  if completed_at_ns <? self.(or_created_at_ns)
  then Err (CompletionBeforeCreation self.(or_id) self.(or_created_at_ns) completed_at_ns)
  else Ok tt.

Definition op_restart_lifetime_clock (at_ns : Z) (self : OperationRecord) : OpStep :=
  let? _ := ensure_state OsPending ActStart self in
  Ok {| self with or_lifetime_from_ns := Z.max at_ns self.(or_created_at_ns) |}.

Definition op_start (started_at_ns : Z) (self : OperationRecord) : OpStep :=
  let? _ := ensure_state OsPending ActStart self in
  if started_at_ns <? self.(or_created_at_ns) then
    Err (StartBeforeCreation self.(or_id) self.(or_created_at_ns) started_at_ns)
  else Ok {| self with or_state := OsRunning; or_started_at_ns := Some started_at_ns |}.

Definition finished (state : OperationState) (completed_at_ns : Z) (result : string)
    (self : OperationRecord) : OperationRecord :=
  {| self with or_state := state; or_completed_at_ns := Some completed_at_ns;
               or_result := Some result |}.

Definition op_finish (state : OperationState) (action : OperationTransitionAction)
    (completed_at_ns : Z) (result : string) (self : OperationRecord) : OpStep :=
  if negb (bool_decide (self.(or_state) = OsPending)) && negb (bool_decide (self.(or_state) = OsRunning))
  then Err (OpInvalidTransition self.(or_id) self.(or_state) action)
  else
    let? _ := ensure_completed_at completed_at_ns self in
    Ok (finished state completed_at_ns result self).

Definition op_complete : Z → string → OperationRecord → OpStep := op_finish OsCompleted ActComplete.
Definition op_fail : Z → string → OperationRecord → OpStep := op_finish OsFailed ActFail.

Definition op_merge_into (merged_into : OperationId) (completed_at_ns : Z) (self : OperationRecord)
    : OpStep :=
  let? _ := ensure_state OsPending ActMerge self in
  let? _ := ensure_completed_at completed_at_ns self in
  Ok {| self with or_state := OsMerged; or_completed_at_ns := Some completed_at_ns;
                  or_merged_into := Some merged_into |}.

Definition op_cancel (completed_at_ns : Z) (reason : string) (self : OperationRecord) : OpStep :=
  let? _ := ensure_state OsPending ActCancel self in
  let? _ := ensure_completed_at completed_at_ns self in
  Ok (finished OsCancelled completed_at_ns reason self).

Definition op_abort (completed_at_ns : Z) (reason : string) (self : OperationRecord) : OpStep :=
  let? _ := ensure_state OsRunning ActAbort self in
  let? _ := ensure_completed_at completed_at_ns self in
  Ok (finished OsAborted completed_at_ns reason self).

Definition duration_ns (self : OperationRecord) : option Z :=
  completed_at_ns ← self.(or_completed_at_ns);
  Some (u64_wrapping_sub completed_at_ns self.(or_created_at_ns)).

(** ** The conflict table ([conflict.rs]) *)

Inductive OperationConflictRejection : Type :=
| ResetWhileOperationInProgress
| UnsupportedActiveConflict (existing_type : OperationType) (existing_state : OperationState)
    (requested_type : OperationType).

Inductive OperationConflictDecision : Type :=
| CreateNew
| MergeIntoExisting (existing_id : OperationId)
| CancelExistingThenCreate (existing_id : OperationId)
| AbortExistingThenCreate (existing_id : OperationId)
| CancelExistingThenQueue (existing_id : OperationId)
| QueueNew
| Reject (rejection : OperationConflictRejection).

Definition resolve_operation_conflict (existing : option OperationRecord)
    (requested_type : OperationType) : OperationConflictDecision :=
  match existing with
  | None => CreateNew
  | Some existing =>
      if op_is_terminal existing.(or_state) then CreateNew
      else if bool_decide (requested_type = OpReset) then Reject ResetWhileOperationInProgress
      else
        match existing.(or_operation_type), existing.(or_state), requested_type with
        | OpStart, _, OpStart | OpStop, _, OpStop | OpReload, _, OpReload | OpRestart, _, OpStart =>
            MergeIntoExisting existing.(or_id)
        | OpStart, OsPending, OpStop | OpRestart, OsPending, OpStop
        | OpReload, OsPending, OpStop | OpReload, OsPending, OpRestart =>
            CancelExistingThenCreate existing.(or_id)
        | OpStart, OsRunning, OpStop | OpRestart, OsRunning, OpStop
        | OpReload, OsRunning, OpStop | OpReload, OsRunning, OpRestart =>
            AbortExistingThenCreate existing.(or_id)
        | OpStop, _, OpStart | OpStop, _, OpRestart | OpRestart, _, OpRestart
        | OpStart, OsRunning, OpRestart => QueueNew
        | OpStart, OsPending, OpRestart => CancelExistingThenQueue existing.(or_id)
        | _, _, _ =>
            Reject (UnsupportedActiveConflict existing.(or_operation_type) existing.(or_state)
                      requested_type)
        end
  end.

(** ** Events ([store/event.rs]) *)

Inductive OperationEventDetail : Type :=
| EvRequested
| EvStarted
| EvCompleted (duration_ns : Z) (result : string)
| EvFailed (duration_ns : Z) (failure_reason : string)
| EvMerged (merged_into : OperationId)
| EvCancelled (reason : string)
| EvAborted (duration_ns : Z) (reason : string).

Record OperationEvent : Type := {
  oe_operation_id : OperationId;
  oe_operation_type : OperationType;
  oe_service : string;
  oe_source : OperationSource;
  oe_caller : option TokenSummary;
  oe_state : OperationState;
  oe_detail : OperationEventDetail;
}.

Inductive OperationStoreError : Type :=
| DuplicateOperationId (id : OperationId)
| UnknownOperation (id : OperationId)
| InvalidActiveIndex (service : string) (id : OperationId)
| InvalidEventRecord (id : OperationId) (state : OperationState) (reason : string)
| ConflictRejected (rejection : OperationConflictRejection)
| OpTransition (error : OperationTransitionError).

Definition event_new (record : OperationRecord) (detail : OperationEventDetail) : OperationEvent := {|
  oe_operation_id := record.(or_id);
  oe_operation_type := record.(or_operation_type);
  oe_service := record.(or_service);
  oe_source := record.(or_source);
  oe_caller := record.(or_caller);
  oe_state := record.(or_state);
  oe_detail := detail;
|}.

Definition invalid_record (record : OperationRecord) (reason : string) : OperationStoreError :=
  InvalidEventRecord record.(or_id) record.(or_state) reason.

Definition event_duration (record : OperationRecord) (reason : string) : Result Z OperationStoreError :=
  ok_or (duration_ns record) (invalid_record record reason).

Definition event_result (record : OperationRecord) (reason : string) : Result string OperationStoreError :=
  ok_or record.(or_result) (invalid_record record reason).

Definition event_requested (record : OperationRecord) : OperationEvent := event_new record EvRequested.
Definition event_started (record : OperationRecord) : OperationEvent := event_new record EvStarted.

Definition event_completed (record : OperationRecord) : Result OperationEvent OperationStoreError :=
  let? duration := event_duration record "completed operation has duration" in
  let? result := event_result record "completed operation has result" in
  Ok (event_new record (EvCompleted duration result)).

Definition event_failed (record : OperationRecord) : Result OperationEvent OperationStoreError :=
  let? duration := event_duration record "failed operation has duration" in
  let? reason := event_result record "failed operation has failure reason" in
  Ok (event_new record (EvFailed duration reason)).

Definition event_merged (record : OperationRecord) : Result OperationEvent OperationStoreError :=
  let? merged_into := ok_or record.(or_merged_into)
    (invalid_record record "merged operation records target") in
  Ok (event_new record (EvMerged merged_into)).

Definition event_cancelled (record : OperationRecord) : Result OperationEvent OperationStoreError :=
  let? reason := event_result record "cancelled operation has reason" in
  Ok (event_new record (EvCancelled reason)).

Definition event_aborted (record : OperationRecord) : Result OperationEvent OperationStoreError :=
  let? duration := event_duration record "aborted operation has duration" in
  let? reason := event_result record "aborted operation has reason" in
  Ok (event_new record (EvAborted duration reason)).

(** ** Result codes ([timeout.rs], [internal_error.rs]) *)

Definition OPERATION_TIMEOUT_RESULT_CODE : string := "operation_timeout".
Definition INTERNAL_ERROR_RESULT_CODE : string := "internal_error".

Definition operation_timeout_result (detail : string) : string :=
  OPERATION_TIMEOUT_RESULT_CODE +:+ ": " +:+ detail.
Definition internal_error_result (detail : string) : string :=
  INTERNAL_ERROR_RESULT_CODE +:+ ": " +:+ detail.

Definition is_operation_timeout_result (result : string) : bool :=
  bool_decide (result = OPERATION_TIMEOUT_RESULT_CODE) ||
  starts_with (OPERATION_TIMEOUT_RESULT_CODE +:+ ":") result.
Definition is_internal_error_result (result : string) : bool :=
  bool_decide (result = INTERNAL_ERROR_RESULT_CODE) ||
  starts_with (INTERNAL_ERROR_RESULT_CODE +:+ ":") result.

Definition is_operation_timeout (operation : OperationRecord) : bool :=
  bool_decide (operation.(or_state) = OsFailed) &&
  is_some_and operation.(or_result) is_operation_timeout_result.
Definition is_internal_error (operation : OperationRecord) : bool :=
  bool_decide (operation.(or_state) = OsFailed) &&
  is_some_and operation.(or_result) is_internal_error_result.

(** ** Well-formed records *)

Record op_wf (r : OperationRecord) : Prop := {
  ow_created : 0 ≤ r.(or_created_at_ns);
  ow_lifetime : r.(or_created_at_ns) ≤ r.(or_lifetime_from_ns);
  ow_pending : r.(or_state) = OsPending → r.(or_started_at_ns) = None;
  ow_running : r.(or_state) = OsRunning → is_Some r.(or_started_at_ns);
  ow_started : ∀ s, r.(or_started_at_ns) = Some s → r.(or_created_at_ns) ≤ s;
  ow_terminal : op_is_terminal r.(or_state) = true ↔ is_Some r.(or_completed_at_ns);
  ow_completed : ∀ c, r.(or_completed_at_ns) = Some c → r.(or_created_at_ns) ≤ c;
  ow_merged : r.(or_state) = OsMerged ↔ is_Some r.(or_merged_into);
  ow_result : is_Some r.(or_result) ↔ op_is_terminal r.(or_state) = true ∧ r.(or_state) ≠ OsMerged;
}.

(** ** One step *)

Lemma op_new_wf id ty service source caller created :
  0 ≤ created → op_wf (operation_new id ty service source caller created).
Proof.
  intros. split; simpl; try done; try lia; (split; [done|]);
    try (by intros [? ?]); by intros [? ?].
Qed.

Lemma ensure_state_Ok expected action r u :
  ensure_state expected action r = Ok u → r.(or_state) = expected.
Proof. unfold ensure_state. by case_bool_decide. Qed.

Lemma ensure_completed_at_Ok at_ns r u :
  ensure_completed_at at_ns r = Ok u → r.(or_created_at_ns) ≤ at_ns.
Proof. unfold ensure_completed_at. destruct (Z.ltb_spec at_ns (or_created_at_ns r)); [done|]. intros; lia. Qed.

(** What a finishing step needs and does: it moves a live record to a terminal
    state, with its result, at a time not before its creation. *)
Definition finishes (op : OperationRecord → OpStep) : Prop :=
  ∀ r r', op r = Ok r' →
    op_is_terminal r.(or_state) = false ∧
    ∃ state at_ns result, r' = finished state at_ns result r ∧
      op_is_terminal state = true ∧ state ≠ OsMerged ∧ r.(or_created_at_ns) ≤ at_ns.

Lemma op_finish_finishes state action at_ns result :
  op_is_terminal state = true → state ≠ OsMerged → finishes (op_finish state action at_ns result).
Proof.
  intros Hs Hm r r'. unfold op_finish.
  destruct (or_state r) eqn:Er; simpl; try done;
    destruct (ensure_completed_at at_ns r) eqn:Ec; simpl; try done;
    apply ensure_completed_at_Ok in Ec; intros [= <-]; eauto 10.
Qed.

Lemma op_complete_finishes at_ns result : finishes (op_complete at_ns result).
Proof. by apply op_finish_finishes. Qed.
Lemma op_fail_finishes at_ns result : finishes (op_fail at_ns result).
Proof. by apply op_finish_finishes. Qed.

Lemma op_cancel_finishes at_ns result : finishes (op_cancel at_ns result).
Proof.
  intros r r'. unfold op_cancel. destruct (ensure_state _ _ r) eqn:Es; simpl; [|done].
  apply ensure_state_Ok in Es. destruct (ensure_completed_at at_ns r) eqn:Ec; simpl; [|done].
  apply ensure_completed_at_Ok in Ec. intros [= <-]. rewrite Es. eauto 10.
Qed.

Lemma op_abort_finishes at_ns result : finishes (op_abort at_ns result).
Proof.
  intros r r'. unfold op_abort. destruct (ensure_state _ _ r) eqn:Es; simpl; [|done].
  apply ensure_state_Ok in Es. destruct (ensure_completed_at at_ns r) eqn:Ec; simpl; [|done].
  apply ensure_completed_at_Ok in Ec. intros [= <-]. rewrite Es. eauto 10.
Qed.

Lemma finished_wf state at_ns result r :
  op_is_terminal r.(or_state) = false → op_is_terminal state = true → state ≠ OsMerged →
  r.(or_created_at_ns) ≤ at_ns → op_wf r → op_wf (finished state at_ns result r).
Proof.
  intros Hl Ht Hm Hc [H1 H2 H3 H4 H5 H6 H7 H8 H9]. split; simpl.
  - done.
  - done.
  - intros ->. done.
  - intros ->. done.
  - done.
  - split; [eauto|done].
  - intros c [= <-]. done.
  - split; [done|]. intros Hmi. apply H8 in Hmi. rewrite Hmi in Hl. done.
  - split; eauto.
Qed.

Lemma finishes_wf op r r' : finishes op → op r = Ok r' → op_wf r → op_wf r'.
Proof.
  intros Hop E Hwf. destruct (Hop r r' E) as (Hl & state & at_ns & result & -> & ? & ? & ?).
  by apply finished_wf.
Qed.

Lemma op_start_Ok at_ns r r' :
  op_start at_ns r = Ok r' →
  r.(or_state) = OsPending ∧ r.(or_created_at_ns) ≤ at_ns ∧
  r' = {| r with or_state := OsRunning; or_started_at_ns := Some at_ns |}.
Proof.
  unfold op_start. destruct (ensure_state _ _ r) eqn:Es; simpl; [|done].
  apply ensure_state_Ok in Es. destruct (Z.ltb_spec at_ns (or_created_at_ns r)); [done|].
  by intros [= <-].
Qed.

Lemma op_start_wf at_ns r r' : op_start at_ns r = Ok r' → op_wf r → op_wf r'.
Proof.
  intros (Hs & Hc & ->)%op_start_Ok [H1 H2 H3 H4 H5 H6 H7 H8 H9].
  rewrite Hs in H6, H8, H9. split; simpl; try done; try (intros s [= <-]; done); eauto.
  - split; [done|]. intros Hm. by apply H8 in Hm.
  - split; [|by intros [? _]]. intros Hr. by apply H9 in Hr as [? _].
Qed.

Lemma op_clock_Ok at_ns r r' :
  op_restart_lifetime_clock at_ns r = Ok r' →
  r.(or_state) = OsPending ∧ r' = {| r with or_lifetime_from_ns := Z.max at_ns r.(or_created_at_ns) |}.
Proof.
  unfold op_restart_lifetime_clock. destruct (ensure_state _ _ r) eqn:Es; simpl; [|done].
  apply ensure_state_Ok in Es. by intros [= <-].
Qed.

Lemma op_clock_wf at_ns r r' : op_restart_lifetime_clock at_ns r = Ok r' → op_wf r → op_wf r'.
Proof.
  intros (Hs & ->)%op_clock_Ok [H1 H2 H3 H4 H5 H6 H7 H8 H9]. split; simpl; try done. lia.
Qed.
