(* ===== verification/ExecCommand.v ===== *)
(** * Identities of services, and command lines of hooks

    Models [src/src/security/identity.rs] and [TokenSummary::requested_identity]
    ([src/src/security/summary.rs]): the well-known identities, the security
    identifier an identity stands for, and the summary of a token that is yet
    to be made. [hook_execution_identity] is in [ServiceDef]. *)

From S2P Require Import Prelude RustStr ServiceDef OperationRecord.
From Stdlib Require Import Ascii String.
Open Scope string_scope.
Open Scope list_scope.

Definition LOCAL_SERVICE_IDENTITY : string := "LocalService".
Definition NETWORK_SERVICE_IDENTITY : string := "NetworkService".

Definition eq_ignore_ascii_case (a b : string) : bool :=
  bool_decide (to_ascii_lowercase a = to_ascii_lowercase b).

Definition canonical_well_known_identity (identity : string) : option string :=
  if eq_ignore_ascii_case identity SYSTEM_IDENTITY then Some SYSTEM_IDENTITY
  else if eq_ignore_ascii_case identity LOCAL_SERVICE_IDENTITY then Some LOCAL_SERVICE_IDENTITY
  else if eq_ignore_ascii_case identity NETWORK_SERVICE_IDENTITY then Some NETWORK_SERVICE_IDENTITY
  else None.

Definition is_number (part : string) : bool := negb (str_is_empty part) && str_all is_ascii_digit part.

Definition is_literal_sid (value : string) : bool :=
  match strip_prefix "S-" value with
  | None => false
  | Some rest =>
      match split_char "-" rest with
      | revision :: authority :: parts =>
          is_number revision && is_number authority && negb (bool_decide (parts = [])) && forallb is_number parts
      | _ => false
      end
  end.

Definition identity_user_sid (identity : string) : option string :=
  if bool_decide (identity = SYSTEM_IDENTITY) then Some "S-1-5-18"
  else if bool_decide (identity = LOCAL_SERVICE_IDENTITY) then Some "S-1-5-19"
  else if bool_decide (identity = NETWORK_SERVICE_IDENTITY) then Some "S-1-5-20"
  else if is_literal_sid identity then Some identity
  else None.

Definition requested_identity (identity : string) : TokenSummary := {|
  ts_identity := identity;
  ts_user_sid := default "" (identity_user_sid identity);
  ts_group_sids := [];
  ts_present_privileges := [];
  ts_enabled_privileges := [];
|}.

(** * Command lines of hooks

    Models [src/src/execution/command.rs]: splitting the text of a hook into
    its arguments. A [char] of the source that is compared here is ASCII, so
    the loop over characters is a loop over bytes. *)

Inductive ExecutableCommandParseError : Type :=
| CommandEmpty
| UnclosedDoubleQuote
| RelativeExecutable (executable : string).

Definition is_ascii_command_whitespace (ch : ascii) : bool :=
  existsb (λ n, Ascii.eqb ch (ascii_of_nat n)) [32; 9; 10; 13; 12; 11]%nat.

(** The loop, with its [argv], [current], [in_quote] and [started]. *)
Fixpoint split_loop (command : string) (argv : list string) (current : string) (in_quote started : bool)
    : list string * string * bool * bool :=
  match command with
  | "" => (argv, current, in_quote, started)
  | String ch command =>
      if is_ascii_command_whitespace ch && negb in_quote then
        if started then split_loop command (argv ++ [current]) "" in_quote false
        else split_loop command argv current in_quote started
      else if Ascii.eqb ch quote then split_loop command argv current (negb in_quote) true
      else split_loop command argv (current +:+ String ch "") in_quote true
  end.

Definition split_command_argv (command : string) : Result (list string) ExecutableCommandParseError :=
  let '(argv, current, in_quote, started) := split_loop command [] "" false false in
  if in_quote : bool then Err UnclosedDoubleQuote
  else
    let argv := if started : bool then argv ++ [current] else argv in
    if bool_decide (argv = []) then Err CommandEmpty else Ok argv.

Definition parse_executable_command (command : string) : Result (list string) ExecutableCommandParseError :=
  let? argv := split_command_argv command in
  match argv with
  | [] => Err CommandEmpty
  | executable :: _ =>
      if negb (starts_with "/" executable) then Err (RelativeExecutable executable) else Ok argv
  end.

(** ** What the parser accepts *)

(** The command that states [argv]: each argument between double quotes. *)
Definition quoted (arg : string) : string := String quote (arg +:+ String quote "").

Fixpoint command_of (argv : list string) : string :=
  match argv with
  | [] => ""
  | arg :: argv => quoted arg +:+ String " " (command_of argv)
  end.

Definition argv_ok (argv : list string) : Prop :=
  Forall (λ arg, str_contains_char quote arg = false) argv ∧
  ∃ executable rest, argv = executable :: rest ∧ starts_with "/" executable = true.

Lemma split_inside arg rest argv current :
  str_contains_char quote arg = false →
  split_loop (arg +:+ String quote rest) argv current true true =
  split_loop rest argv (current +:+ arg) false true.
Proof.
  unfold str_contains_char. revert current. induction arg as [|c arg IH]; intros current Hq.
  - simpl. by rewrite str_app_nil_r.
  - cbn [str_all] in Hq. apply negb_false_iff, andb_true_iff in Hq as [Hc Hq].
    change (String c arg +:+ String quote rest) with (String c (arg +:+ String quote rest)).
    cbn [split_loop]. rewrite andb_false_r. apply negb_true_iff in Hc. rewrite Hc.
    rewrite IH by (by rewrite Hq). by rewrite str_app_assoc.
Qed.

Lemma split_command_of argv before :
  Forall (λ arg, str_contains_char quote arg = false) argv →
  split_loop (command_of argv) before "" false false = (before ++ argv, "", false, false).
Proof.
  intros H. revert before. induction H as [|arg argv Ha _ IH]; intros before; simpl.
  - by rewrite app_nil_r.
  - unfold quoted.
    replace ((arg +:+ String quote "") +:+ String " " (command_of argv))
      with (arg +:+ String quote (String " " (command_of argv))).
    + rewrite split_inside by done. simpl. rewrite IH. by rewrite <-app_assoc.
    + by rewrite str_app_assoc.
Qed.

(** Quotes never end up in an argument. *)
Lemma split_loop_unquoted command argv current in_quote started :
  Forall (λ arg, str_contains_char quote arg = false) argv → str_contains_char quote current = false →
  let '(argv', current', _, _) := split_loop command argv current in_quote started in
  Forall (λ arg, str_contains_char quote arg = false) argv' ∧ str_contains_char quote current' = false.
Proof.
  revert argv current in_quote started. induction command as [|c command IH]; intros argv current q st Ha Hc; simpl; [done|].
  destruct (is_ascii_command_whitespace c && negb q).
  { destruct st; apply IH; try done. apply Forall_app. by split; [|constructor]. }
  destruct (Ascii.eqb c quote) eqn:E; [by apply IH|]. apply IH; [done|].
  unfold str_contains_char in *. rewrite str_all_app. simpl. rewrite E. apply negb_false_iff in Hc. by rewrite Hc.
Qed.

(** Which argument lists a hook can run: the command lines accepted are those
    whose arguments, of which there is at least one, hold no double quote, and
    whose first argument is an absolute path; and each such list is reached, by
    quoting every argument. *)
Theorem executable_commands_exact (argv : list string) :
  (parse_executable_command (command_of argv) = Ok argv ↔ argv_ok argv) ∧
  ∀ command, parse_executable_command command = Ok argv → argv_ok argv.
Proof.
  assert (∀ command, parse_executable_command command = Ok argv → argv_ok argv) as Hback.
  { intros command. unfold parse_executable_command, split_command_argv.
    pose proof (split_loop_unquoted command [] "" false false (Forall_nil_2 _) eq_refl) as H.
    destruct (split_loop command [] "" false false) as [[[l current] q] st]. destruct H as [Hl Hc].
    destruct q; simpl; [done|]. case_bool_decide as E; simpl; [done|].
    assert (Forall (λ arg, str_contains_char quote arg = false) (if st then l ++ [current] else l)) as Hall.
    { destruct st; [|done]. apply Forall_app. by split; [|constructor]. }
    destruct (if st then l ++ [current] else l) as [|executable rest]; [done|].
    destruct (starts_with "/" executable) eqn:Es; simpl; [|done]. intros [= <-]. split; [done|]. by eexists _, _. }
  split; [split; [apply Hback|]|apply Hback].
  intros (Hall & executable & rest & -> & Hs).
  unfold parse_executable_command, split_command_argv. rewrite (split_command_of _ [] Hall). simpl.
  by rewrite Hs.
Qed.
