(* ===== verification/OperationStore.v ===== *)
(** * The operation store

    Models [src/src/operation/store/]: the records, the active list of each
    service, and the queue of operations that wait for another ([mod.rs],
    [active.rs]); requests and what the conflict table makes of them
    ([request.rs], [replacement.rs]); the end of an operation and its retention
    ([terminal.rs]).

    An operation of the store returns the store it leaves and its result. *)

From S2P Require Import Prelude RustStr ServiceDef Ids ServiceRuntime Roles Restart Cgroup ServiceTable.
From S2P Require Import OperationRecord.
From Stdlib Require Import String.
Open Scope string_scope.
Open Scope list_scope.
Open Scope Z_scope.

(** ** Data *)

Record OperationStore : Type := {
  op_records : gmap OperationId OperationRecord;
  op_active_by_service : gmap string (list OperationId);
  op_queued_behind : gmap OperationId OperationId;
}.

Definition StoreResult (A : Type) : Type := OperationStore * Result A OperationStoreError.

Definition op_store_new : OperationStore :=
  {| op_records := ∅; op_active_by_service := ∅; op_queued_behind := ∅ |}.

Record OperationRequest : Type := {
  rq_id : OperationId;
  rq_operation_type : OperationType;
  rq_service : string;
  rq_source : OperationSource;
  rq_caller : option TokenSummary;
  rq_created_at_ns : Z;
}.

Record OperationRequestOutcome : Type := {
  ro_returned_operation_id : OperationId;
  ro_stored_operation_id : OperationId;
  ro_decision : OperationConflictDecision;
  ro_events : list OperationEvent;
}.

Definition set_op_records (s : OperationStore) (records : gmap OperationId OperationRecord) :=
  {| s with op_records := records |}.
Definition set_op_active (s : OperationStore) (active : gmap string (list OperationId)) :=
  {| s with op_active_by_service := active |}.
Definition set_op_queued (s : OperationStore) (queued : gmap OperationId OperationId) :=
  {| s with op_queued_behind := queued |}.

Definition put_record (id : OperationId) (r : OperationRecord) (s : OperationStore) : OperationStore :=
  set_op_records s (<[id := r]> s.(op_records)).

(** ** The active list and the queue ([active.rs]) *)

Inductive InsertPosition : Type := Front | Back.

Definition active_for_service (self : OperationStore) (service : string) : list OperationId :=
  index_get self.(op_active_by_service) service.

Definition current_for_service (self : OperationStore) (service : string) : option OperationRecord :=
  find_map (λ id, self.(op_records) !! id) (active_for_service self service).

Definition active_records (self : OperationStore) : list OperationRecord :=
  omap (λ id, self.(op_records) !! id) (List.concat (btree_values self.(op_active_by_service))).

Definition ensure_unused_id (id : OperationId) (self : OperationStore)
    : Result unit OperationStoreError :=
  if bool_decide (is_Some (self.(op_records) !! id)) then Err (DuplicateOperationId id) else Ok tt.

Definition insert_active (service : string) (id : OperationId) (position : InsertPosition)
    (self : OperationStore) : OperationStore :=
  let active := active_for_service self service in
  let active := match position with Front => id :: active | Back => active ++ [id] end in
  set_op_active self (<[service := active]> self.(op_active_by_service)).

Definition remove_active (service : string) (id : OperationId) (self : OperationStore)
    : OperationStore := {|
  op_records := self.(op_records);
  op_active_by_service := index_remove service id self.(op_active_by_service);
  op_queued_behind := delete id self.(op_queued_behind);
|}.

Definition queued_behind (self : OperationStore) (id : OperationId) : option OperationId :=
  self.(op_queued_behind) !! id.

Definition is_queued_behind_live (self : OperationStore) (id : OperationId) : bool :=
  is_some_and (queued_behind self id) (λ behind,
    is_some_and (self.(op_records) !! behind) (λ operation, negb (op_is_terminal operation.(or_state)))).

Definition ready_queued_operations (self : OperationStore) : list OperationRecord :=
  omap (λ '(id, behind),
    let predecessor_done := is_none_or (self.(op_records) !! behind) (λ operation,
      op_is_terminal operation.(or_state)) in
    if predecessor_done &&
       is_some_and (self.(op_records) !! id) (λ operation,
         bool_decide (operation.(or_state) = OsPending) &&
         is_some_and (current_for_service self operation.(or_service)) (λ head,
           bool_decide (head.(or_id) = operation.(or_id))))
    then self.(op_records) !! id else None)
    (btree_iter self.(op_queued_behind)).

Definition clear_queued_behind (id : OperationId) (self : OperationStore) : OperationStore :=
  set_op_queued self (delete id self.(op_queued_behind)).

Definition requeue_behind_head (id : OperationId) (self : OperationStore) : OperationStore :=
  match self.(op_records) !! id with
  | None => self
  | Some record =>
      let head := find_first (λ active, negb (bool_decide (active = id)))
        (active_for_service self record.(or_service)) in
      match head with
      | Some head => set_op_queued self (<[id := head]> self.(op_queued_behind))
      | None => self
      end
  end.

(** ** Retained security ([mod.rs]) *)

Definition adopt_security (services : ServiceTable) (record : OperationRecord) : OperationRecord :=
  match record.(or_service_security) with
  | Some _ => record
  | None =>
      match table_definition services record.(or_service) with
      | Some definition => {| record with or_service_security := Some definition.(sd_service_security) |}
      | None => record
      end
  end.

Definition adopt_service_security (services : ServiceTable) (self : OperationStore) : OperationStore :=
  set_op_records self (adopt_security services <$> self.(op_records)).

(** ** Requests ([request.rs], [replacement.rs]) *)

Definition record_from_request (request : OperationRequest) : OperationRecord :=
  operation_new request.(rq_id) request.(rq_operation_type) request.(rq_service) request.(rq_source)
    request.(rq_caller) request.(rq_created_at_ns).

Definition insert_requested (request : OperationRequest) (decision : OperationConflictDecision)
    (position : InsertPosition) (self : OperationStore) : OperationStore * OperationRequestOutcome :=
  let record := record_from_request request in
  let event := event_requested record in
  let id := record.(or_id) in
  let self := put_record id record self in
  let self := insert_active record.(or_service) id position self in
  (self, {| ro_returned_operation_id := id; ro_stored_operation_id := id;
            ro_decision := decision; ro_events := [event] |}).

Definition merge_request (request : OperationRequest) (decision : OperationConflictDecision)
    (existing_id : OperationId) (self : OperationStore) : StoreResult OperationRequestOutcome :=
  let record := record_from_request request in
  let requested := event_requested record in
  match op_merge_into existing_id record.(or_created_at_ns) record with
  | Err e => (self, Err (OpTransition e))
  | Ok record =>
      match event_merged record with
      | Err e => (self, Err e)
      | Ok merged =>
          let id := record.(or_id) in
          (put_record id record self,
           Ok {| ro_returned_operation_id := existing_id; ro_stored_operation_id := id;
                 ro_decision := decision; ro_events := [requested; merged] |})
      end
  end.

(** The shape of every operation that ends a record: the step, the event, the
    active list. *)
Definition end_operation (id : OperationId) (step : OperationRecord → OpStep)
    (event : OperationRecord → Result OperationEvent OperationStoreError) (self : OperationStore)
    : StoreResult OperationEvent :=
  match self.(op_records) !! id with
  | None => (self, Err (UnknownOperation id))
  | Some record =>
      match step record with
      | Err e => (self, Err (OpTransition e))
      | Ok record =>
          let self := put_record id record self in
          match event record with
          | Err e => (self, Err e)
          | Ok event => (remove_active event.(oe_service) id self, Ok event)
          end
      end
  end.

Inductive ExistingTermination : Type := TermCancel (reason : string) | TermAbort (reason : string).

Definition terminate_existing (id : OperationId) (completed_at_ns : Z)
    (termination : ExistingTermination) : OperationStore → StoreResult OperationEvent :=
  match termination with
  | TermCancel reason => end_operation id (op_cancel completed_at_ns reason) event_cancelled
  | TermAbort reason => end_operation id (op_abort completed_at_ns reason) event_aborted
  end.

Definition prepend_event (event : OperationEvent) (outcome : OperationRequestOutcome)
    : OperationRequestOutcome :=
  {| outcome with ro_events := event :: outcome.(ro_events) |}.

Definition replace_existing (request : OperationRequest) (decision : OperationConflictDecision)
    (existing_id : OperationId) (termination : ExistingTermination) (position : InsertPosition)
    (self : OperationStore) : StoreResult OperationRequestOutcome :=
  match terminate_existing existing_id request.(rq_created_at_ns) termination self with
  | (self, Err e) => (self, Err e)
  | (self, Ok terminated) =>
      let (self, outcome) := insert_requested request decision position self in
      (self, Ok (prepend_event terminated outcome))
  end.

(** The scan of [resolve_request]: the first active operation the request
    merges into, with [InvalidActiveIndex] for a stale index on the way. *)
Fixpoint find_merge (self : OperationStore) (request : OperationRequest) (active_ids : list OperationId)
    : Result (option OperationConflictDecision) OperationStoreError :=
  match active_ids with
  | [] => Ok None
  | id :: active_ids =>
      match self.(op_records) !! id with
      | None => Err (InvalidActiveIndex request.(rq_service) id)
      | Some existing =>
          match resolve_operation_conflict (Some existing) request.(rq_operation_type) with
          | MergeIntoExisting existing_id => Ok (Some (MergeIntoExisting existing_id))
          | _ => find_merge self request active_ids
          end
      end
  end.

Definition resolve_request (request : OperationRequest) (self : OperationStore)
    : Result OperationConflictDecision OperationStoreError :=
  let active_ids := active_for_service self request.(rq_service) in
  let? merge := find_merge self request active_ids in
  match merge with
  | Some decision => Ok decision
  | None =>
      let existing := id ← head active_ids; self.(op_records) !! id in
      Ok (resolve_operation_conflict existing request.(rq_operation_type))
  end.

(** [if let Some(head) = head { self.queued_behind.insert(id, head); }]. *)
Definition queue_behind (id : OperationId) (head : option OperationId) (self : OperationStore)
    : OperationStore :=
  match head with
  | Some head => set_op_queued self (<[id := head]> self.(op_queued_behind))
  | None => self
  end.

Definition head_id (self : OperationStore) (service : string) : option OperationId :=
  or_id <$> current_for_service self service.

Definition apply_decision (request : OperationRequest) (decision : OperationConflictDecision)
    (self : OperationStore) : StoreResult OperationRequestOutcome :=
  match decision with
  | CreateNew =>
      let (self, outcome) := insert_requested request decision Back self in (self, Ok outcome)
  | QueueNew =>
      let head := head_id self request.(rq_service) in
      let (self, outcome) := insert_requested request decision Back self in
      (queue_behind outcome.(ro_stored_operation_id) head self, Ok outcome)
  | MergeIntoExisting existing_id => merge_request request decision existing_id self
  | CancelExistingThenCreate existing_id =>
      replace_existing request decision existing_id (TermCancel "superseded_by_later_operation")
        Front self
  | AbortExistingThenCreate existing_id =>
      replace_existing request decision existing_id (TermAbort "superseded_by_later_operation")
        Front self
  | CancelExistingThenQueue existing_id =>
      match replace_existing request decision existing_id (TermCancel "superseded_by_restart")
              Back self with
      | (self, Err e) => (self, Err e)
      | (self, Ok outcome) =>
          let queued := outcome.(ro_stored_operation_id) in
          let head := service ← or_service <$> self.(op_records) !! queued;
                      head ← head_id self service;
                      if bool_decide (head = queued) then None else Some head in
          (queue_behind queued head self, Ok outcome)
      end
  | Reject rejection => (self, Err (ConflictRejected rejection))
  end.

Definition request_operation (request : OperationRequest) (self : OperationStore)
    : StoreResult OperationRequestOutcome :=
  match ensure_unused_id request.(rq_id) self with
  | Err e => (self, Err e)
  | Ok _ =>
      match resolve_request request self with
      | Err e => (self, Err e)
      | Ok decision => apply_decision request decision self
      end
  end.

Definition observe_shutdown_stop (id : OperationId) (service : string) (created_at_ns : Z)
    (self : OperationStore) : StoreResult OperationRequestOutcome :=
  match ensure_unused_id id self with
  | Err e => (self, Err e)
  | Ok _ =>
      let (self, outcome) :=
        insert_requested {| rq_id := id; rq_operation_type := OpStop; rq_service := service;
                            rq_source := SrcShutdown; rq_caller := None;
                            rq_created_at_ns := created_at_ns |} CreateNew Back self in
      (self, Ok outcome)
  end.

Definition merge_request_into (request : OperationRequest) (existing_id : OperationId)
    (self : OperationStore) : StoreResult OperationRequestOutcome :=
  match ensure_unused_id request.(rq_id) self with
  | Err e => (self, Err e)
  | Ok _ =>
      match self.(op_records) !! existing_id with
      | None => (self, Err (UnknownOperation existing_id))
      | Some existing =>
          if op_is_terminal existing.(or_state) then
            (self, Err (InvalidEventRecord existing_id existing.(or_state)
               "a request can only merge into an operation that is still live"))
          else merge_request request (MergeIntoExisting existing_id) existing_id self
      end
  end.

(** ** Steps and ends of operations ([terminal.rs]) *)

Definition store_restart_lifetime_clock (id : OperationId) (at_ns : Z) (self : OperationStore)
    : StoreResult unit :=
  match self.(op_records) !! id with
  | None => (self, Err (UnknownOperation id))
  | Some record =>
      match op_restart_lifetime_clock at_ns record with
      | Err e => (self, Err (OpTransition e))
      | Ok record => (put_record id record self, Ok tt)
      end
  end.

Definition start_operation (id : OperationId) (started_at_ns : Z) (self : OperationStore)
    : StoreResult OperationEvent :=
  match self.(op_records) !! id with
  | None => (self, Err (UnknownOperation id))
  | Some record =>
      match op_start started_at_ns record with
      | Err e => (self, Err (OpTransition e))
      | Ok record => (put_record id record self, Ok (event_started record))
      end
  end.

Definition complete_operation (id : OperationId) (completed_at_ns : Z) (result : string)
    : OperationStore → StoreResult OperationEvent :=
  end_operation id (op_complete completed_at_ns result) event_completed.
Definition fail_operation (id : OperationId) (completed_at_ns : Z) (reason : string)
    : OperationStore → StoreResult OperationEvent :=
  end_operation id (op_fail completed_at_ns reason) event_failed.
Definition cancel_operation (id : OperationId) (completed_at_ns : Z) (reason : string)
    : OperationStore → StoreResult OperationEvent :=
  end_operation id (op_cancel completed_at_ns reason) event_cancelled.
Definition abort_operation (id : OperationId) (completed_at_ns : Z) (reason : string)
    : OperationStore → StoreResult OperationEvent :=
  end_operation id (op_abort completed_at_ns reason) event_aborted.

(** When a terminal record completed. *)
Definition terminal_completed_at (record : OperationRecord) : option Z :=
  if op_is_terminal record.(or_state) then record.(or_completed_at_ns) else None.

Definition purge_terminal_completed_at_or_before (cutoff_ns : Z) (self : OperationStore)
    : OperationStore * list OperationId :=
  let purged := omap (λ '(id, record),
    completed_at_ns ← terminal_completed_at record;
    if completed_at_ns <=? cutoff_ns then Some id else None)
    (btree_iter self.(op_records)) in
  (set_op_records self (foldl (λ records id, delete id records) self.(op_records) purged), purged).

Definition purge_terminal_retained_until (now_ns retention_ns : Z) (self : OperationStore)
    : OperationStore * list OperationId :=
  match u64_checked_sub now_ns retention_ns with
  | None => (self, [])
  | Some cutoff_ns => purge_terminal_completed_at_or_before cutoff_ns self
  end.

Definition next_terminal_retention_deadline_ns (retention_ns : Z) (self : OperationStore) : option Z :=
  list_min (omap (λ record,
    completed_at_ns ← terminal_completed_at record;
    Some (u64_saturating_add completed_at_ns retention_ns))
    (btree_values self.(op_records))).
