(* ===== verification/OperationInv.v ===== *)
(** * What the operation store maintains

    The operations of [OperationStore] as one step relation, the invariant every
    reachable store satisfies, and what that gives: requests that fail change
    nothing, the operation a caller is told to wait for is live, records are
    kept for exactly their retention time. *)

From S2P Require Import Prelude RustStr ServiceDef Ids ServiceRuntime Roles Restart Cgroup ServiceTable.
From S2P Require Import OperationRecord OperationStore.
From Stdlib Require Import String.
Open Scope string_scope.
Open Scope list_scope.
Open Scope Z_scope.

(** ** The invariant *)

Definition live (r : OperationRecord) : Prop := op_is_terminal r.(or_state) = false.

Record store_wf (s : OperationStore) : Prop := {
  sw_records : ∀ id r, s.(op_records) !! id = Some r → r.(or_id) = id ∧ op_wf r;
  sw_lists : index_wf s.(op_active_by_service);
  sw_active_live : ∀ service id, id ∈ active_for_service s service →
    ∃ r, s.(op_records) !! id = Some r ∧ live r ∧ r.(or_service) = service;
  sw_live_active : ∀ id r, s.(op_records) !! id = Some r → live r →
    id ∈ active_for_service s r.(or_service);
  sw_queued : ∀ id behind, s.(op_queued_behind) !! id = Some behind →
    id ≠ behind ∧ ∃ r, s.(op_records) !! id = Some r ∧ live r;
}.

(** ** The primitive updates preserve it *)

Lemma active_after_remove service id s service' :
  active_for_service (remove_active service id s) service' =
  if bool_decide (service' = service)
  then retain (λ i, negb (bool_decide (i = id))) (active_for_service s service')
  else active_for_service s service'.
Proof. apply index_get_remove. Qed.

(** A record replaced by one that is as live, of the same service. *)
Lemma put_live_wf id r r' s :
  store_wf s → s.(op_records) !! id = Some r → r'.(or_id) = id → op_wf r' →
  live r' → live r → r'.(or_service) = r.(or_service) →
  store_wf (put_record id r' s).
Proof.
  intros [H1 H2 H3 H4 H5] E Hid Hwf Hl Hl0 Hsv. split; simpl; [|exact H2| | |].
  - intros id' r0. rewrite lookup_insert_Some. intros [[<- <-]|[_ ?]]; auto.
  - intros service id' Hin. destruct (H3 service id' Hin) as (r0 & E0 & ? & ?).
    destruct (decide (id = id')) as [<-|].
    + rewrite lookup_insert_eq. exists r'. split_and!; [done..|congruence].
    + rewrite lookup_insert_ne by done. eauto.
  - intros id' r0. rewrite lookup_insert_Some. intros [[<- <-]|[_ ?]] Hl'.
    + rewrite Hsv. by apply H4.
    + by apply H4.
  - intros id' b Hq. destruct (H5 id' b Hq) as (? & r0 & ? & ?). split; [done|].
    destruct (decide (id = id')) as [<-|]; [rewrite lookup_insert_eq|rewrite lookup_insert_ne by done]; eauto.
Qed.

(** A live record ended and taken off its service's list. *)
Lemma end_record_wf id r r' s :
  store_wf s → s.(op_records) !! id = Some r → r'.(or_id) = id → op_wf r' →
  op_is_terminal r'.(or_state) = true → r'.(or_service) = r.(or_service) →
  store_wf (remove_active r'.(or_service) id (put_record id r' s)).
Proof.
  intros [H1 H2 H3 H4 H5] E Hid Hwf Ht Hsv.
  assert (∀ service i, i ∈ active_for_service (remove_active (or_service r') id (put_record id r' s)) service →
    i ≠ id ∧ i ∈ active_for_service s service) as Hact.
  { intros service i. rewrite active_after_remove. case_bool_decide as Hs.
    - rewrite elem_of_retain. intros [?%negb_true_iff%bool_decide_eq_false ?]. done.
    - intros Hi. split; [|done]. intros ->. destruct (H3 service id Hi) as (r0 & ? & _ & ?). congruence. }
  split.
  - intros id' r0. simpl. rewrite lookup_insert_Some.
    intros [[<- <-]|[_ ?]]; auto.
  - by apply index_wf_remove.
  - intros service i Hi. destruct (Hact service i Hi) as [Hne Hin].
    destruct (H3 service i Hin) as (r0 & ? & ? & ?). simpl.
    rewrite lookup_insert_ne by congruence. eauto.
  - intros i r0. simpl. rewrite lookup_insert_Some.
    intros [[<- <-]|[Hne Hr]] Hl; [unfold live in Hl; congruence|].
    rewrite active_after_remove. specialize (H4 i r0 Hr Hl). case_bool_decide; [|done].
    apply elem_of_retain. split; [|done]. apply negb_true_iff, bool_decide_eq_false. congruence.
  - intros i b. simpl.
    intros [Hne Hq]%lookup_delete_Some. rewrite lookup_insert_ne by done. eauto.
Qed.

(** A new record and its place in its service's list. *)
Lemma insert_live_wf id r position s :
  store_wf s → s.(op_records) !! id = None → r.(or_id) = id → op_wf r → live r →
  store_wf (insert_active r.(or_service) id position (put_record id r s)).
Proof.
  intros [H1 H2 H3 H4 H5] E Hid Hwf Hl.
  set (l := active_for_service s (or_service r)).
  assert (id ∉ l) as Hnew.
  { intros Hin. destruct (H3 _ _ Hin) as (r0 & ? & _). congruence. }
  assert (∀ service, active_for_service (insert_active (or_service r) id position (put_record id r s)) service =
    if bool_decide (service = or_service r)
    then match position with Front => id :: l | Back => l ++ [id] end
    else active_for_service s service) as Hact.
  { intros service. unfold active_for_service at 1, insert_active. simpl. by rewrite index_get_insert. }
  assert (∀ service i, i ∈ active_for_service (insert_active (or_service r) id position (put_record id r s)) service ↔
    i = id ∧ service = or_service r ∨ i ∈ active_for_service s service) as Hin.
  { intros service i. rewrite Hact. case_bool_decide as Hs; [|naive_solver]. subst service. fold l.
    destruct position; rewrite ?elem_of_cons, ?elem_of_app, ?list_elem_of_singleton; naive_solver. }
  split.
  - simpl. intros id' r0. rewrite lookup_insert_Some. intros [[<- <-]|[_ ?]]; auto.
  - pose proof (index_get_NoDup _ (or_service r) H2 : NoDup l) as Hnd.
    apply index_wf_insert; [| |done]; simpl; change (active_for_service (put_record id r s) (or_service r)) with l.
    + destruct position; by destruct l.
    + destruct position; [by constructor|by apply NoDup_snoc].
  - intros service i Hi. simpl. apply Hin in Hi as [[-> ->]|Hi].
    + rewrite lookup_insert_eq. eauto.
    + destruct (H3 _ _ Hi) as (r0 & ? & ? & ?). rewrite lookup_insert_ne by congruence. eauto.
  - simpl. intros i r0. rewrite lookup_insert_Some, Hin. intros [[<- <-]|[? ?]] ?; auto.
  - simpl. intros i b Hq. destruct (H5 i b Hq) as (? & r0 & ? & ?).
    rewrite lookup_insert_ne by congruence. eauto.
Qed.

(** A new record that is already terminal. *)
Lemma put_terminal_wf id r s :
  store_wf s → s.(op_records) !! id = None → r.(or_id) = id → op_wf r →
  op_is_terminal r.(or_state) = true → store_wf (put_record id r s).
Proof.
  intros [H1 H2 H3 H4 H5] E Hid Hwf Ht. split; simpl; [|exact H2| | |].
  - intros id' r0. rewrite lookup_insert_Some. intros [[<- <-]|[_ ?]]; auto.
  - intros service i Hi. destruct (H3 _ _ Hi) as (r0 & ? & ? & ?).
    rewrite lookup_insert_ne by congruence. eauto.
  - intros i r0. rewrite lookup_insert_Some. intros [[<- <-]|[? ?]] Hl; [unfold live in Hl; congruence|].
    by apply H4.
  - intros i b Hq. destruct (H5 i b Hq) as (? & r0 & ? & ?).
    rewrite lookup_insert_ne by congruence. eauto.
Qed.

Lemma queue_wf id head s r :
  store_wf s → s.(op_records) !! id = Some r → live r → (∀ h, head = Some h → id ≠ h) →
  store_wf (queue_behind id head s).
Proof.
  intros [H1 H2 H3 H4 H5] E Hl Hh. destruct head as [h|]; [|done]. simpl. split; simpl; try done.
  intros i b. rewrite lookup_insert_Some. intros [[<- <-]|[_ ?]]; eauto.
Qed.

(** ** Ending an operation *)

(** An event constructor that accepts every finished record. *)
Definition reports (event : OperationRecord → Result OperationEvent OperationStoreError) : Prop :=
  ∀ state at_ns result r, ∃ ev,
    event (finished state at_ns result r) = Ok ev ∧ ev.(oe_service) = r.(or_service).

Lemma events_report :
  reports event_completed ∧ reports event_failed ∧ reports event_cancelled ∧ reports event_aborted.
Proof. split_and!; intros state at_ns result r; eexists; by split. Qed.

Lemma end_operation_spec id step event s :
  finishes step → reports event → store_wf s →
  match end_operation id step event s with
  | (s', Ok ev) =>
      store_wf s' ∧ ∃ r r', s.(op_records) !! id = Some r ∧ live r ∧ step r = Ok r' ∧
        ev.(oe_service) = r.(or_service) ∧
        op_is_terminal r'.(or_state) = true ∧
        s' = remove_active r.(or_service) id (put_record id r' s)
  | (s', Err e) => s' = s ∧
      match s.(op_records) !! id with
      | None => e = UnknownOperation id
      | Some r => ∃ t, step r = Err t ∧ e = OpTransition t
      end
  end.
Proof.
  intros Hstep Hev Hwf. unfold end_operation. destruct (op_records s !! id) as [r|] eqn:E; [|done].
  destruct (step r) as [r'|t] eqn:Es; [|by eauto].
  destruct (sw_records s Hwf id r E) as [Hid Hrwf].
  pose proof (finishes_wf step r r' Hstep Es Hrwf) as Hrwf'.
  destruct (Hstep r r' Es) as (Hl & state & at_ns & result & Er' & Ht & _).
  destruct (Hev state at_ns result r) as (ev & Eev & Hsv). rewrite <-Er' in Eev. rewrite Eev. subst r'.
  rewrite Hsv. split.
  - by apply (end_record_wf id r (finished state at_ns result r)).
  - exists r, (finished state at_ns result r). by split_and!.
Qed.

Lemma end_operation_wf id step event s :
  finishes step → reports event → store_wf s → store_wf (end_operation id step event s).1.
Proof.
  intros Hs He Hwf. pose proof (end_operation_spec id step event s Hs He Hwf) as H.
  destruct (end_operation id step event s) as [s' [ev|e]]; simpl; [by destruct H|by destruct H as [-> _]].
Qed.

(** ** Requests *)

#[local] Arguments resolve_operation_conflict : simpl never.

(** What the conflict table relies on, per decision. *)
Definition decision_ok (s : OperationStore) (service : string) (d : OperationConflictDecision) : Prop :=
  match d with
  | MergeIntoExisting x =>
      ∃ r, s.(op_records) !! x = Some r ∧ live r ∧ r.(or_service) = service
  | CancelExistingThenCreate x | CancelExistingThenQueue x =>
      ∃ r, s.(op_records) !! x = Some r ∧ r.(or_state) = OsPending ∧ r.(or_service) = service
  | AbortExistingThenCreate x =>
      ∃ r, s.(op_records) !! x = Some r ∧ r.(or_state) = OsRunning ∧ r.(or_service) = service
  | _ => True
  end.

Lemma conflict_decision_ok s service id r ty :
  store_wf s → s.(op_records) !! id = Some r → live r → r.(or_service) = service →
  decision_ok s service (resolve_operation_conflict (Some r) ty).
Proof.
  intros Hwf E Hl Hsv. destruct (sw_records s Hwf id r E) as [<- _]. unfold live in Hl.
  unfold resolve_operation_conflict. rewrite Hl. case_bool_decide; [done|].
  destruct (or_operation_type r), (or_state r) eqn:Es, ty; simpl; try done;
    exists r; unfold live; rewrite ?Es; split_and!; done.
Qed.

Lemma find_merge_spec s request ids :
  store_wf s →
  (∀ id, id ∈ ids → ∃ r, s.(op_records) !! id = Some r ∧ live r ∧ r.(or_service) = request.(rq_service)) →
  ∃ o, find_merge s request ids = Ok o ∧ ∀ d, o = Some d → decision_ok s request.(rq_service) d.
Proof.
  intros Hwf. induction ids as [|id ids IH]; intros Hids; simpl; [by eexists|].
  destruct (Hids id ltac:(left)) as (r & E & Hl & Hsv). rewrite E.
  pose proof (conflict_decision_ok s _ id r (rq_operation_type request) Hwf E Hl Hsv) as Hok.
  assert (∃ o, find_merge s request ids = Ok o ∧ ∀ d, o = Some d → decision_ok s (rq_service request) d)
    as Hrest by (apply IH; intros i Hi; apply Hids; by right).
  destruct (resolve_operation_conflict (Some r) (rq_operation_type request)); try exact Hrest.
  exists (Some (MergeIntoExisting existing_id)). split; [done|]. by intros d [= <-].
Qed.

Lemma resolve_request_spec request s :
  store_wf s →
  ∃ d, resolve_request request s = Ok d ∧ decision_ok s request.(rq_service) d.
Proof.
  intros Hwf. unfold resolve_request.
  set (ids := active_for_service s (rq_service request)).
  destruct (find_merge_spec s request ids Hwf) as (o & -> & Ho); [by apply sw_active_live|]. simpl.
  destruct o as [d|]; [by eauto|]. eexists. split; [done|].
  destruct ids as [|id ids'] eqn:Ei; simpl; [done|].
  destruct (sw_active_live s Hwf (rq_service request) id) as (r & E & Hl & Hsv).
  { fold ids. rewrite Ei. left. }
  rewrite E. by apply (conflict_decision_ok s _ id).
Qed.

Lemma request_record_wf request :
  0 ≤ request.(rq_created_at_ns) → op_wf (record_from_request request).
Proof. apply op_new_wf. Qed.

Lemma insert_requested_spec request d position s :
  store_wf s → s.(op_records) !! request.(rq_id) = None → 0 ≤ request.(rq_created_at_ns) →
  let '(s', o) := insert_requested request d position s in
  store_wf s' ∧ s'.(op_records) = <[request.(rq_id) := record_from_request request]> s.(op_records) ∧
  o.(ro_returned_operation_id) = request.(rq_id) ∧ o.(ro_stored_operation_id) = request.(rq_id).
Proof.
  intros Hwf Hnew Hc. unfold insert_requested. simpl. split_and!; [|done..].
  apply (insert_live_wf (rq_id request) (record_from_request request)); try done.
  by apply request_record_wf.
Qed.

(** The result of a request that was decided. *)
Definition request_result (request : OperationRequest) (s : OperationStore)
    (r : StoreResult OperationRequestOutcome) : Prop :=
  match r with
  | (s', Ok o) =>
      store_wf s' ∧ o.(ro_stored_operation_id) = request.(rq_id) ∧
      is_Some (s'.(op_records) !! request.(rq_id)) ∧
      ∃ r, s'.(op_records) !! o.(ro_returned_operation_id) = Some r ∧ live r ∧
        r.(or_service) = request.(rq_service)
  | (s', Err e) => s' = s ∧ ((∃ rejection, e = ConflictRejected rejection) ∨ ∃ t, e = OpTransition t)
  end.

Section Decided.
Context (request : OperationRequest) (s : OperationStore).
Context (Hwf : store_wf s) (Hnew : s.(op_records) !! request.(rq_id) = None)
  (Hcreated : 0 ≤ request.(rq_created_at_ns)).

(** A merged request is a new, terminal record. *)
Lemma merge_request_wf d x :
  ∃ o, merge_request request d x s =
    (put_record request.(rq_id)
       {| (record_from_request request) with or_state := OsMerged;
          or_completed_at_ns := Some request.(rq_created_at_ns); or_merged_into := Some x |} s, Ok o) ∧
    o.(ro_returned_operation_id) = x ∧ o.(ro_stored_operation_id) = request.(rq_id) ∧
    store_wf (merge_request request d x s).1.
Proof using Hwf Hnew Hcreated.
  unfold merge_request, op_merge_into, ensure_completed_at. simpl. rewrite Z.ltb_irrefl. simpl.
  eexists. split_and!; [done..|].
  apply put_terminal_wf; try done. split; simpl; try done; try lia; try (by intros [? ?]).
  - intros c [= <-]. lia.
  - split; [by intros [? ?]|]. by intros [_ []].
Qed.

Lemma merge_request_result d x :
  decision_ok s request.(rq_service) (MergeIntoExisting x) →
  request_result request s (merge_request request d x s).
Proof using Hwf Hnew Hcreated.
  intros (r & E & Hl & Hsv). destruct (merge_request_wf d x) as (o & Eop & Hret & Hst & Hwf').
  rewrite Eop in *. simpl in *. rewrite Hret, Hst. split_and!; [done..| |].
  - rewrite lookup_insert_eq. eauto.
  - exists r. rewrite lookup_insert_ne by congruence. done.
Qed.

Lemma replace_existing_result d x termination position :
  (∃ r, s.(op_records) !! x = Some r ∧ r.(or_service) = request.(rq_service)) →
  request_result request s (replace_existing request d x termination position s) ∧
  (∀ s' o, replace_existing request d x termination position s = (s', Ok o) →
     s'.(op_records) !! request.(rq_id) = Some (record_from_request request)).
Proof using Hwf Hnew Hcreated.
  intros (r & E & Hsv). unfold replace_existing.
  destruct events_report as (_ & _ & Rc & Ra).
  assert (match terminate_existing x (rq_created_at_ns request) termination s with
    | (s', Ok ev) => store_wf s' ∧ s'.(op_records) !! request.(rq_id) = None
    | (s', Err e) => s' = s ∧ ∃ t, e = OpTransition t
    end) as Hterm.
  { assert (∀ step event, finishes step → reports event →
      match end_operation x step event s with
      | (s', Ok ev) => store_wf s' ∧ s'.(op_records) !! request.(rq_id) = None
      | (s', Err e) => s' = s ∧ ∃ t, e = OpTransition t
      end) as Hgen; [|destruct termination; apply Hgen; auto using op_cancel_finishes, op_abort_finishes].
    intros step event Hs He. pose proof (end_operation_spec x step event s Hs He Hwf) as H.
    destruct (end_operation x step event s) as [s' [ev|e]].
    - destruct H as (Hwf' & r0 & r' & E0 & _ & _ & _ & _ & ->). split; [done|].
      simpl. rewrite lookup_insert_ne; [done|]. congruence.
    - destruct H as [-> H]. rewrite E in H. destruct H as (t & _ & ->). eauto. }
  destruct (terminate_existing _ _ _ _) as [s' [ev|e]].
  - destruct Hterm as [Hwf' Hnew'].
    pose proof (insert_requested_spec request d position s' Hwf' Hnew' Hcreated) as H.
    destruct (insert_requested request d position s') as [s2 o]. destruct H as (Hwf2 & Hrec & Hret & Hst).
    split.
    + simpl. rewrite Hst, Hret, Hrec, lookup_insert_eq. split_and!; [done..|eauto|]. by eexists.
    + intros s3 o3 [= <- _]. by rewrite Hrec, lookup_insert_eq.
  - destruct Hterm as [-> (t & ->)]. split; [|done]. split; [done|]. right. eauto.
Qed.

Lemma head_id_known service h : head_id s service = Some h → is_Some (s.(op_records) !! h).
Proof using Hwf.
  unfold head_id, current_for_service. intros (r & (i & _ & Hr)%find_map_Some & ->)%fmap_Some_1.
  destruct (sw_records s Hwf i r Hr) as [-> _]. eauto.
Qed.

Lemma apply_decision_result d :
  decision_ok s request.(rq_service) d → request_result request s (apply_decision request d s).
Proof using Hwf Hnew Hcreated.
  intros Hd. destruct d as [|x|x|x|x| |rejection]; simpl in Hd.
  - unfold apply_decision. pose proof (insert_requested_spec request CreateNew Back s Hwf Hnew Hcreated) as H.
    destruct (insert_requested _ _ _ _) as [s' o]. destruct H as (? & Hrec & Hret & Hst).
    simpl. rewrite Hst, Hret, Hrec, lookup_insert_eq. split_and!; [done..|eauto|by eexists].
  - by apply merge_request_result.
  - apply replace_existing_result. destruct Hd as (r & ? & _ & ?). eauto.
  - apply replace_existing_result. destruct Hd as (r & ? & _ & ?). eauto.
  - unfold apply_decision.
    destruct (replace_existing_result (CancelExistingThenQueue x) x (TermCancel "superseded_by_restart") Back)
      as [H Hrec]; [destruct Hd as (r & ? & _ & ?); eauto|].
    destruct (replace_existing _ _ _ _ _ _) as [s' [o|e]]; [|done].
    destruct H as (Hwf' & Hst & Hsome & r & Er & Hl & Hsv). specialize (Hrec s' o eq_refl).
    rewrite Hst, Hrec. simpl. set (head := _ ≫= _).
    assert (store_wf (queue_behind (rq_id request) head s')) as Hwf2.
    { apply (queue_wf _ _ _ (record_from_request request)); [done..|]. subst head. intros h.
      destruct (head_id s' (rq_service request)) as [h'|]; simpl; [|done].
      case_bool_decide; [done|]. by intros [= <-]. }
    assert ((queue_behind (rq_id request) head s').(op_records) = s'.(op_records)) as Hq
      by (by destruct head).
    simpl. rewrite Hq. split_and!; [done..|]. eauto.
  - unfold apply_decision. pose proof (insert_requested_spec request QueueNew Back s Hwf Hnew Hcreated) as H.
    destruct (insert_requested _ _ _ _) as [s' o]. destruct H as (Hwf' & Hrec & Hret & Hst).
    set (head := head_id s (rq_service request)). rewrite Hst.
    assert (store_wf (queue_behind (rq_id request) head s')) as Hwf2.
    { apply (queue_wf _ _ _ (record_from_request request)); [done|by rewrite Hrec, lookup_insert_eq|done|].
      intros h Hh <-. apply head_id_known in Hh as [? Hh]. congruence. }
    assert ((queue_behind (rq_id request) head s').(op_records) = s'.(op_records)) as Hq
      by (by destruct head).
    simpl. rewrite Hq, Hret, Hrec, lookup_insert_eq. split_and!; [done..|eauto|by eexists].
  - split; [done|]. left. eauto.
Qed.
End Decided.

Lemma request_operation_result request s :
  store_wf s → 0 ≤ request.(rq_created_at_ns) →
  if bool_decide (is_Some (s.(op_records) !! request.(rq_id)))
  then request_operation request s = (s, Err (DuplicateOperationId request.(rq_id)))
  else request_result request s (request_operation request s).
Proof.
  intros Hwf Hc. unfold request_operation, ensure_unused_id. case_bool_decide as Hnew; [done|].
  apply eq_None_not_Some in Hnew. destruct (resolve_request_spec request s Hwf) as (d & -> & Hd).
  by apply apply_decision_result.
Qed.

(** A request for a service with nothing active is stored and alone active. *)
Lemma quiet_request request s :
  store_wf s → s.(op_records) !! request.(rq_id) = None → active_for_service s request.(rq_service) = [] →
  0 ≤ request.(rq_created_at_ns) →
  ∃ s' events, request_operation request s =
      (s', Ok {| ro_returned_operation_id := request.(rq_id); ro_stored_operation_id := request.(rq_id);
                 ro_decision := CreateNew; ro_events := events |}) ∧
    store_wf s' ∧ s'.(op_records) = <[request.(rq_id) := record_from_request request]> s.(op_records) ∧
    ∀ other, active_for_service s' other =
      if decide (other = request.(rq_service)) then [request.(rq_id)] else active_for_service s other.
Proof.
  intros Hwf Hid Hq Hat. unfold request_operation, ensure_unused_id, resolve_request.
  rewrite Hid, Hq. simpl. eexists _, _. split; [done|].
  pose proof (insert_requested_spec request CreateNew Back s Hwf Hid Hat) as H.
  simpl in H. destruct H as (Hwf' & Hrec & _). split; [exact Hwf'|]. split; [exact Hrec|].
  intros other. unfold active_for_service, insert_active, set_op_active, put_record, set_op_records. simpl.
  rewrite index_get_insert. case_bool_decide; case_decide; try done.
  change (active_for_service s (rq_service request) ++ [rq_id request] = [rq_id request]). by rewrite Hq.
Qed.

(** ** Steps *)

(** Every operation that changes the store. Times are unsigned; only an
    operation that is still to run is requeued. *)
Inductive op_step (s : OperationStore) : OperationStore → Prop :=
| ostep_request request :
    0 ≤ request.(rq_created_at_ns) → op_step s (request_operation request s).1
| ostep_shutdown id service at_ns : 0 ≤ at_ns → op_step s (observe_shutdown_stop id service at_ns s).1
| ostep_merge request x :
    0 ≤ request.(rq_created_at_ns) → op_step s (merge_request_into request x s).1
| ostep_clock id at_ns : op_step s (store_restart_lifetime_clock id at_ns s).1
| ostep_start id at_ns : op_step s (start_operation id at_ns s).1
| ostep_complete id at_ns result : op_step s (complete_operation id at_ns result s).1
| ostep_fail id at_ns reason : op_step s (fail_operation id at_ns reason s).1
| ostep_cancel id at_ns reason : op_step s (cancel_operation id at_ns reason s).1
| ostep_abort id at_ns reason : op_step s (abort_operation id at_ns reason s).1
| ostep_purge now retention : op_step s (purge_terminal_retained_until now retention s).1
| ostep_clear id : op_step s (clear_queued_behind id s)
| ostep_requeue id r :
    s.(op_records) !! id = Some r → live r → op_step s (requeue_behind_head id s)
| ostep_security services : op_step s (adopt_service_security services s).

Definition op_reachable (s : OperationStore) : Prop := rtc op_step op_store_new s.

Lemma purged_records cutoff s id :
  (purge_terminal_completed_at_or_before cutoff s).1.(op_records) !! id =
  match s.(op_records) !! id with
  | Some r => if is_some_and (terminal_completed_at r) (λ c, c <=? cutoff) then None else Some r
  | None => None
  end.
Proof.
  unfold purge_terminal_completed_at_or_before. simpl.
  set (purged := omap _ _).
  assert (∀ l (m : gmap OperationId OperationRecord),
    foldl (λ records i, delete i records) m l !! id = if bool_decide (id ∈ l) then None else m !! id) as Hfold.
  { induction l as [|i l IH]; intros m; simpl; [done|]. rewrite IH.
    destruct (decide (id = i)) as [<-|Hne].
    - rewrite lookup_delete_eq, (bool_decide_true (id ∈ id :: l)) by left. by destruct (bool_decide _).
    - rewrite lookup_delete_ne by done. erewrite bool_decide_ext; [done|]. rewrite elem_of_cons. naive_solver. }
  rewrite Hfold.
  assert (id ∈ purged ↔ ∃ r, s.(op_records) !! id = Some r ∧
    is_some_and (terminal_completed_at r) (λ c, c <=? cutoff) = true) as Hp.
  { subst purged. rewrite list_elem_of_omap. split.
    - intros ([i r] & Hin%elem_of_btree_iter & Hc). destruct (terminal_completed_at r) as [c|] eqn:E; [|done].
      simpl in Hc. destruct (c <=? cutoff) eqn:Ec; [|done]. injection Hc as <-. exists r. by rewrite E.
    - intros (r & Hr & Hc). exists (id, r). rewrite elem_of_btree_iter. split; [done|].
      destruct (terminal_completed_at r) as [c|]; [|done]. simpl in *. by rewrite Hc. }
  case_bool_decide as Hin.
  - apply Hp in Hin as (r & -> & ->). done.
  - destruct (op_records s !! id) as [r|] eqn:E; [|done].
    destruct (is_some_and _ _) eqn:Ec; [|done]. destruct Hin. apply Hp. eauto.
Qed.

Lemma terminal_completed_at_live r : live r → terminal_completed_at r = None.
Proof. unfold live, terminal_completed_at. by intros ->. Qed.

Lemma purge_wf cutoff s : store_wf s → store_wf (purge_terminal_completed_at_or_before cutoff s).1.
Proof.
  intros [H1 H2 H3 H4 H5]. pose proof (purged_records cutoff s) as Hp.
  assert (∀ id r, s.(op_records) !! id = Some r → live r →
    (purge_terminal_completed_at_or_before cutoff s).1.(op_records) !! id = Some r) as Hkeep.
  { intros id r E Hl. rewrite Hp, E. by rewrite terminal_completed_at_live. }
  split; [|exact H2| | |].
  - intros id r E. rewrite Hp in E. destruct (op_records s !! id) as [r0|] eqn:E0; [|done].
    destruct (is_some_and _ _); simplify_eq. auto.
  - intros service id Hin. destruct (H3 _ _ Hin) as (r & ? & ? & ?). exists r. split_and!; auto.
  - intros id r E. rewrite Hp in E. destruct (op_records s !! id) as [r0|] eqn:E0; [|done].
    destruct (is_some_and _ _); simplify_eq. by apply H4.
  - intros id b Hq. destruct (H5 id b Hq) as (? & r & ? & ?). split; [done|]. exists r. split; auto.
Qed.

Lemma adopt_keeps services r :
  let r' := adopt_security services r in
  r'.(or_id) = r.(or_id) ∧ r'.(or_state) = r.(or_state) ∧ r'.(or_service) = r.(or_service) ∧
  (op_wf r → op_wf r').
Proof.
  simpl. unfold adopt_security. destruct (or_service_security r); [done|].
  destruct (table_definition _ _); [|done]. simpl. split_and!; try done. intros []. by split.
Qed.

Lemma adopt_wf services s : store_wf s → store_wf (adopt_service_security services s).
Proof.
  intros [H1 H2 H3 H4 H5]. split; simpl; [|exact H2| | |].
  - intros id r. rewrite lookup_fmap. intros (r0 & E & ->)%fmap_Some_1.
    destruct (H1 id r0 E) as [Hid Hw]. destruct (adopt_keeps services r0) as (-> & _ & _ & ?). auto.
  - intros service id Hin. destruct (H3 service id Hin) as (r & E & Hl & Hsv).
    exists (adopt_security services r). rewrite lookup_fmap, E. unfold live.
    destruct (adopt_keeps services r) as (_ & -> & -> & _). done.
  - intros id r. rewrite lookup_fmap. intros (r0 & E & ->)%fmap_Some_1. unfold live.
    destruct (adopt_keeps services r0) as (_ & -> & -> & _). by apply H4.
  - intros id b Hq. destruct (H5 id b Hq) as (? & r & E & Hl). split; [done|].
    exists (adopt_security services r). rewrite lookup_fmap, E. unfold live.
    destruct (adopt_keeps services r) as (_ & -> & _ & _). done.
Qed.

Lemma put_step_wf id r r' s :
  store_wf s → s.(op_records) !! id = Some r → op_wf r' → r'.(or_id) = r.(or_id) →
  live r → live r' → r'.(or_service) = r.(or_service) → store_wf (put_record id r' s).
Proof.
  intros Hwf E Hr' Hid Hl Hl' Hsv. destruct (sw_records s Hwf id r E) as [Hid0 _].
  apply (put_live_wf id r); try done. congruence.
Qed.

Lemma requeue_wf id r s :
  s.(op_records) !! id = Some r → live r → store_wf s → store_wf (requeue_behind_head id s).
Proof.
  intros E Hl Hwf. unfold requeue_behind_head. rewrite E.
  destruct (find_first _ _) as [h|] eqn:Eh; [|done].
  apply find_first_Some in Eh as [_ Hne%negb_true_iff%bool_decide_eq_false].
  apply (queue_wf id (Some h) s r); [done..|]. intros h' [= <-]. done.
Qed.

Lemma op_step_wf s s' : store_wf s → op_step s s' → store_wf s'.
Proof.
  intros Hwf Hstep. destruct events_report as (Rcompleted & Rfailed & Rcancelled & Raborted).
  destruct Hstep as [request Hc|id service at_ns Hc|request x Hc|id at_ns|id at_ns|id at_ns result
    |id at_ns reason|id at_ns reason|id at_ns reason|now retention|id|id r E Hl|services].
  - pose proof (request_operation_result request s Hwf Hc) as H. case_bool_decide; [by rewrite H|].
    destruct (request_operation request s) as [s' [o|e]]; [by destruct H|by destruct H as [-> _]].
  - unfold observe_shutdown_stop, ensure_unused_id. case_bool_decide as Hn; [done|].
    apply eq_None_not_Some in Hn.
    pose proof (insert_requested_spec {| rq_id := id; rq_operation_type := OpStop; rq_service := service;
      rq_source := SrcShutdown; rq_caller := None; rq_created_at_ns := at_ns |} CreateNew Back s Hwf Hn Hc) as H.
    destruct (insert_requested _ _ _ _). by destruct H.
  - unfold merge_request_into, ensure_unused_id. case_bool_decide as Hn; [done|].
    apply eq_None_not_Some in Hn. destruct (op_records s !! x) as [r|] eqn:E; [|done].
    destruct (op_is_terminal (or_state r)) eqn:Et; [done|].
    by destruct (merge_request_wf request s Hwf Hn Hc (MergeIntoExisting x) x) as (o & _ & _ & _ & ?).
  - unfold store_restart_lifetime_clock. destruct (op_records s !! id) as [r|] eqn:E; [|done].
    destruct (op_restart_lifetime_clock at_ns r) as [r'|] eqn:Er; [|done].
    destruct (sw_records s Hwf id r E) as [_ Hr]. pose proof (op_clock_wf _ _ _ Er Hr) as Hr'.
    apply op_clock_Ok in Er as [Hs ->]. apply (put_step_wf id r); try done; unfold live; simpl; by rewrite Hs.
  - unfold start_operation. destruct (op_records s !! id) as [r|] eqn:E; [|done].
    destruct (op_start at_ns r) as [r'|] eqn:Er; [|done].
    destruct (sw_records s Hwf id r E) as [_ Hr]. pose proof (op_start_wf _ _ _ Er Hr) as Hr'.
    apply op_start_Ok in Er as (Hs & _ & ->). apply (put_step_wf id r); try done; unfold live. by rewrite Hs.
  - apply end_operation_wf; auto using op_complete_finishes.
  - apply end_operation_wf; auto using op_fail_finishes.
  - apply end_operation_wf; auto using op_cancel_finishes.
  - apply end_operation_wf; auto using op_abort_finishes.
  - unfold purge_terminal_retained_until. destruct (u64_checked_sub _ _); [by apply purge_wf|done].
  - destruct Hwf as [H1 H2 H3 H4 H5]. split; simpl; try done. intros i b [_ ?]%lookup_delete_Some. eauto.
  - by apply (requeue_wf id r).
  - by apply adopt_wf.
Qed.

Lemma op_store_new_wf : store_wf op_store_new.
Proof.
  split; simpl; try done.
  intros service id Hin. unfold active_for_service, index_get in Hin. simpl in Hin.
  rewrite lookup_empty in Hin. by apply not_elem_of_nil in Hin.
Qed.

Lemma op_reachable_store_wf s : op_reachable s → store_wf s.
Proof.
  unfold op_reachable. intros H. pose proof op_store_new_wf as H0. revert H0.
  induction H as [|s1 s2 s3 Hstep _ IH]; [done|]. intros H1. apply IH. by apply (op_step_wf s1 s2).
Qed.

(** ** Theorems *)

(** C1: Every store peinit can reach is well formed: records are filed under
    their identifier with consistent times and results, a service's active list
    holds exactly its operations that have not ended, each once, and only an
    operation that has not ended waits for another. *)
Theorem op_reachable_stores_wf s : op_reachable s → store_wf s.
Proof. apply op_reachable_store_wf. Qed.

Definition example_request (id : OperationId) (ty : OperationType) (at_ns : Z) : OperationRequest :=
  {| rq_id := id; rq_operation_type := ty; rq_service := "app"; rq_source := SrcAdmin;
     rq_caller := None; rq_created_at_ns := at_ns |}.

Lemma op_reachable_stores_wf_witness :
  store_wf (start_operation 1 20 (request_operation (example_request 1 OpStart 10) op_store_new).1).1.
Proof.
  apply op_reachable_stores_wf. eapply rtc_l; [apply (ostep_request _ (example_request 1 OpStart 10)); simpl; lia|].
  apply rtc_once, ostep_start.
Defined.

(** A request is admitted or has no effect. On a reachable store a request
    that is refused leaves the store exactly as it was, and is refused only
    because its identifier is taken, the conflict table rejects it, or its time
    is before that of the operation it would end; an admitted request is
    recorded under its own identifier and answers with an operation of the same
    service that is still live, so a caller never waits for one that has
    ended. *)
Theorem request_all_or_nothing request s :
  op_reachable s → 0 ≤ request.(rq_created_at_ns) →
  match request_operation request s with
  | (s', Err e) => s' = s ∧
      (e = DuplicateOperationId request.(rq_id) ∨ (∃ rejection, e = ConflictRejected rejection) ∨
       ∃ t, e = OpTransition t)
  | (s', Ok outcome) =>
      outcome.(ro_stored_operation_id) = request.(rq_id) ∧
      is_Some (s'.(op_records) !! request.(rq_id)) ∧
      ∃ r, s'.(op_records) !! outcome.(ro_returned_operation_id) = Some r ∧
        op_is_terminal r.(or_state) = false ∧ r.(or_service) = request.(rq_service)
  end.
Proof.
  intros Hs Hc. pose proof (request_operation_result request s (op_reachable_store_wf s Hs) Hc) as H.
  case_bool_decide.
  - rewrite H. auto.
  - destruct (request_operation request s) as [s' [o|e]].
    + destruct H as (_ & ? & ? & r & ? & ? & ?). eauto 10.
    + destruct H as [-> H]. auto.
Qed.

Lemma request_all_or_nothing_witness :
  is_Some ((request_operation (example_request 1 OpStart 10) op_store_new).1.(op_records) !! 1).
Proof.
  assert (op_reachable op_store_new) as Hr by apply rtc_refl.
  pose proof (request_all_or_nothing (example_request 1 OpStart 10) op_store_new Hr) as H.
  destruct (request_operation (example_request 1 OpStart 10) op_store_new) as [s' [o|e]] eqn:E.
  - apply H. simpl. lia.
  - exfalso. apply (f_equal (λ r, is_ok r.2)) in E. vm_compute in E. discriminate E.
Defined.

(** The four ways to end an operation. *)
Definition endings (id : OperationId) (at_ns : Z) (text : string)
    : list (OperationStore → StoreResult OperationEvent) :=
  [complete_operation id at_ns text; fail_operation id at_ns text;
   cancel_operation id at_ns text; abort_operation id at_ns text].

Lemma ending_cases id at_ns text f :
  f ∈ endings id at_ns text →
  ∃ step event, f = end_operation id step event ∧ finishes step ∧ reports event.
Proof.
  destruct events_report as (? & ? & ? & ?). unfold endings.
  rewrite !elem_of_cons, elem_of_nil. intros [->|[->|[->|[->|[]]]]]; do 2 eexists;
    (split; [reflexivity|]); auto using op_complete_finishes, op_fail_finishes, op_cancel_finishes, op_abort_finishes.
Qed.

(** An operation ends once. When one of completing, failing, cancelling or
    aborting it has succeeded, the record is terminal and off its service's
    active list, and every later attempt to end it is refused and changes
    nothing. *)
Theorem operation_ends_once id at1 text1 at2 text2 f g s s' event :
  op_reachable s → f ∈ endings id at1 text1 → g ∈ endings id at2 text2 →
  f s = (s', Ok event) →
  (∀ service, id ∉ active_for_service s' service) ∧
  (∃ r, s'.(op_records) !! id = Some r ∧ op_is_terminal r.(or_state) = true) ∧
  (g s').1 = s' ∧ is_ok (g s').2 = false.
Proof.
  intros Hs%op_reachable_store_wf (step & ev & -> & Hf & He)%ending_cases
    (step2 & ev2 & -> & Hf2 & He2)%ending_cases E.
  pose proof (end_operation_spec id step ev s Hf He Hs) as H. rewrite E in H.
  destruct H as (Hwf' & r & r' & Er & Hl & _ & _ & Ht & ->).
  assert ((remove_active (or_service r) id (put_record id r' s)).(op_records) !! id = Some r') as Hr'
    by (apply lookup_insert_eq).
  split_and!.
  - intros service Hin. destruct (sw_active_live _ Hwf' service id Hin) as (r0 & E0 & Hl0 & _).
    unfold live in Hl0. congruence.
  - eauto.
  - pose proof (end_operation_spec id step2 ev2 _ Hf2 He2 Hwf') as H.
    destruct (end_operation id step2 ev2 _) as [s2 [ev'|e]]; [|by destruct H as [-> _]].
    destruct H as (_ & r0 & r1 & E0 & Hl0 & _). unfold live in Hl0. congruence.
  - pose proof (end_operation_spec id step2 ev2 _ Hf2 He2 Hwf') as H.
    destruct (end_operation id step2 ev2 _) as [s2 [ev'|e]]; [|done].
    destruct H as (_ & r0 & r1 & E0 & Hl0 & _). unfold live in Hl0. congruence.
Qed.

Lemma operation_ends_once_witness :
  let s := (request_operation (example_request 1 OpStart 10) op_store_new).1 in
  is_ok (complete_operation 1 20 "done" s).2 = true ∧
  is_ok (fail_operation 1 30 "late" (complete_operation 1 20 "done" s).1).2 = false.
Proof.
  intros s. split; [vm_compute; reflexivity|].
  destruct (complete_operation 1 20 "done" s) as [s' [ev|e]] eqn:E.
  - apply (operation_ends_once 1 20 "done" 30 "late" (complete_operation 1 20 "done") (fail_operation 1 30 "late")
      s s' ev); [|left|right; left|exact E].
    apply rtc_once, (ostep_request _ (example_request 1 OpStart 10)). simpl. lia.
  - exfalso. apply (f_equal (λ r, is_ok r.2)) in E. vm_compute in E. discriminate E.
Defined.

(** ** Retention *)

(** The record ended at least [retention] before [now]. *)
Definition expired (now retention : Z) (r : OperationRecord) : bool :=
  is_some_and (terminal_completed_at r) (λ c, c + retention <=? now).

Lemma purge_retained_records now retention s id :
  (∀ id r c, s.(op_records) !! id = Some r → terminal_completed_at r = Some c → 0 ≤ c) →
  (purge_terminal_retained_until now retention s).1.(op_records) !! id =
  match s.(op_records) !! id with
  | Some r => if expired now retention r then None else Some r
  | None => None
  end.
Proof.
  intros Hc. unfold purge_terminal_retained_until, u64_checked_sub, expired.
  destruct (Z.leb_spec retention now) as [Hle|Hlt].
  - rewrite purged_records. destruct (op_records s !! id) as [r|] eqn:E; [|done].
    assert (is_some_and (terminal_completed_at r) (λ c, c <=? now - retention) =
      is_some_and (terminal_completed_at r) (λ c, c + retention <=? now)) as ->; [|done].
    destruct (terminal_completed_at r) as [c|]; [|done]. simpl.
    apply Bool.eq_iff_eq_true. rewrite !Z.leb_le. lia.
  - simpl. destruct (op_records s !! id) as [r|] eqn:E; [|done].
    destruct (terminal_completed_at r) as [c|] eqn:Ec; [|done]. simpl.
    specialize (Hc id r c E Ec). destruct (Z.leb_spec (c + retention) now); [lia|done].
Qed.

(** A record is retained for exactly its retention time after it ended:
    purging at [now] removes the operations that ended at least [retention]
    before and no other, in particular none that is live; and there is something
    to remove exactly when the deadline the store announces has passed. *)
Theorem retention_exact now retention s :
  (∀ id r c, s.(op_records) !! id = Some r → terminal_completed_at r = Some c →
     0 ≤ c ∧ c + retention ≤ u64_max) →
  let s' := (purge_terminal_retained_until now retention s).1 in
  (∀ id, s'.(op_records) !! id =
     match s.(op_records) !! id with
     | Some r => if expired now retention r then None else Some r
     | None => None
     end) ∧
  (s'.(op_records) ≠ s.(op_records) ↔
   ∃ deadline, next_terminal_retention_deadline_ns retention s = Some deadline ∧ deadline ≤ now).
Proof.
  intros Hc s'.
  assert (∀ id, s'.(op_records) !! id = match s.(op_records) !! id with
    | Some r => if expired now retention r then None else Some r | None => None end) as Hs'.
  { intros id. apply purge_retained_records. intros i r c E Ec. by destruct (Hc i r c E Ec). }
  split; [done|]. unfold next_terminal_retention_deadline_ns.
  set (deadlines := omap _ _).
  assert (∀ d, d ∈ deadlines ↔ ∃ id r c, s.(op_records) !! id = Some r ∧
    terminal_completed_at r = Some c ∧ d = c + retention) as Hd.
  { intros d. subst deadlines. rewrite list_elem_of_omap. split.
    - intros (r & (id & E)%elem_of_btree_values & Hr). destruct (terminal_completed_at r) as [c|] eqn:Ec; [|done].
      injection Hr as <-. exists id, r, c. split_and!; [done..|]. destruct (Hc id r c E Ec).
      unfold u64_saturating_add. lia.
    - intros (id & r & c & E & Ec & ->). exists r. split; [apply elem_of_btree_values; eauto|].
      rewrite Ec. simpl. destruct (Hc id r c E Ec). unfold u64_saturating_add. f_equal. lia. }
  split.
  - intros Hne. assert (∃ d, d ∈ deadlines ∧ d ≤ now) as (d & Hin & Hle).
    { destruct (decide (Exists (λ d, d ≤ now) deadlines)) as [Hex|Hno]; [by apply Exists_exists in Hex|].
      exfalso. apply Hne, map_eq. intros id. rewrite Hs'.
      destruct (op_records s !! id) as [r|] eqn:E; [|done]. unfold expired.
      destruct (terminal_completed_at r) as [c|] eqn:Ec; simpl; [|done].
      destruct (Z.leb_spec (c + retention) now) as [Hle|]; [|done].
      destruct Hno. apply Exists_exists. exists (c + retention). rewrite Hd. eauto 10. }
    destruct (list_min deadlines) as [m|] eqn:Em.
    + exists m. split; [done|]. destruct (list_min_Some _ _ Em) as [_ Hmin]. specialize (Hmin d Hin). lia.
    + apply list_min_None in Em. rewrite Em in Hin. by apply not_elem_of_nil in Hin.
  - intros (m & Em & Hle) Heq. destruct (list_min_Some _ _ Em) as [(id & r & c & E & Ec & ->)%Hd _].
    specialize (Hs' id). rewrite Heq, E in Hs'. unfold expired in Hs'. rewrite Ec in Hs'. simpl in Hs'.
    by rewrite (proj2 (Z.leb_le _ _) Hle) in Hs'.
Qed.

Definition example_done : OperationStore :=
  (complete_operation 1 20 "done" (request_operation (example_request 1 OpStart 10) op_store_new).1).1.

Lemma retention_exact_witness :
  (purge_terminal_retained_until 100 80 example_done).1.(op_records) !! 1 = None.
Proof.
  etransitivity; [apply (proj1 (retention_exact 100 80 example_done ltac:(
    intros id r c E Ec;
    assert (map_Forall (λ _ r, is_none_or (terminal_completed_at r)
      (λ c, (0 <=? c) && (c + 80 <=? u64_max)) = true) example_done.(op_records)) as Hall
      by (apply (bool_decide_unpack _); vm_compute; exact I);
    specialize (Hall id r E); simpl in Hall; rewrite Ec in Hall; simpl in Hall;
    apply andb_true_iff in Hall as [?%Z.leb_le ?%Z.leb_le]; done)) 1)|].
  vm_compute. reflexivity.
Defined.

(** ** Conflicts *)

(** What is left of the operation that was there. *)
Definition existing_survives (d : OperationConflictDecision) : bool :=
  match d with
  | CancelExistingThenCreate _ | AbortExistingThenCreate _ | CancelExistingThenQueue _ => false
  | _ => true
  end.

(** The conflict table, in rules. Against an operation that has ended there
    is no conflict. Against a live one: a reset, and anything during a reset, is
    refused; a stop ends every other kind and joins a stop; a start joins a
    start or a restart and waits for a stop; a live operation is ended only in
    favour of a stop, or of a restart that replaces a reload or a start not yet
    running; and it is cancelled if it has not started and aborted if it has. *)
Theorem conflict_rules r ty :
  let d := resolve_operation_conflict (Some r) ty in
  let et := r.(or_operation_type) in
  (op_is_terminal r.(or_state) = true → d = CreateNew) ∧
  (op_is_terminal r.(or_state) = false →
    (ty = OpReset ∨ et = OpReset → ∃ rejection, d = Reject rejection) ∧
    (ty = OpStop → et ≠ OpReset →
       if bool_decide (et = OpStop) then d = MergeIntoExisting r.(or_id) else existing_survives d = false) ∧
    (ty = OpStart →
       (d = MergeIntoExisting r.(or_id) ↔ et = OpStart ∨ et = OpRestart) ∧
       (d = QueueNew ↔ et = OpStop)) ∧
    (existing_survives d = false →
       ty = OpStop ∨ ty = OpRestart ∧ (et = OpReload ∨ et = OpStart ∧ r.(or_state) = OsPending)) ∧
    (d = AbortExistingThenCreate r.(or_id) → r.(or_state) = OsRunning) ∧
    (d = CancelExistingThenCreate r.(or_id) ∨ d = CancelExistingThenQueue r.(or_id) →
       r.(or_state) = OsPending)).
Proof.
  unfold resolve_operation_conflict.
  destruct (or_state r), (or_operation_type r), ty; simpl; split_and!; try done; intros;
    split_and!; naive_solver.
Qed.

(** ** An operation queued behind its follower *)

(** A stop is running; a start and a restart are requested and wait for it; the
    stop completes; the start, now at the head of the list and ready, is
    promoted while the service is being stopped by something else, and so is put
    back in the queue. *)
Definition promoted_start_requeued : OperationStore :=
  let s := (request_operation (example_request 1 OpStop 10) op_store_new).1 in
  let s := (start_operation 1 11 s).1 in
  let s := (request_operation (example_request 2 OpStart 12) s).1 in
  let s := (request_operation (example_request 3 OpRestart 13) s).1 in
  let s := (complete_operation 1 14 "inactive" s).1 in
  let s := clear_queued_behind 2 s in
  requeue_behind_head 2 s.

(** Requeueing the operation at the head of its service's list queues it
    behind the next operation of that list, not behind the head: both are then
    stuck, the first waiting for the second, which is not at the head, and
    neither is ever ready although nothing of the service is running. *)
Theorem requeued_head_deadlocks :
  let s := promoted_start_requeued in
  active_for_service s "app" = [2; 3] ∧
  queued_behind s 2 = Some 3 ∧ queued_behind s 3 = Some 1 ∧
  ready_queued_operations s = [] ∧
  is_queued_behind_live s 2 = true ∧
  Forall (λ r, r.(or_state) = OsPending) (active_records s).
Proof. vm_compute. repeat (split; [done|]). repeat constructor. Qed.
