(* ===== verification/StartPlan.v ===== *)
(** * Starting a service on demand

    Models [src/src/control/lifecycle/start_plan/]: which services a start
    brings in and which block it ([closure.rs]), the plan in start order
    ([mod.rs], [order.rs]), and the operations a plan becomes ([dispatch.rs],
    [dispatch/planned.rs], [dispatch/blocked.rs]).

    The search and the propagation are bounded by fuel as in [Reach], of which
    they are instances; [None] is running out of it. *)

From S2P Require Import Prelude RustStr ServiceRuntime ServiceDef StartOrder Reach Ids Roles Calendar Restart.
From S2P Require Import Cgroup ServiceTable Graph OperationRecord OperationStore OperationInv.
From Stdlib Require Import String.
Open Scope string_scope.
Open Scope list_scope.

(** ** Data ([model.rs]) *)

Record PlannedStart : Type := {
  pst_service : string;
  pst_operation_source : OperationSource;
  pst_transition_cause : TransitionCause;
}.

Inductive DependencyAvailability : Type := AvMissing | AvDefinitionRemoved | AvDisabled.

Inductive StartBlockReason : Type :=
| StartHardDependencyUnavailable (target : string) (kind : ServiceDependencyKind)
    (availability : DependencyAvailability)
| StartHardDependencyBlocked (target : string) (kind : ServiceDependencyKind).

Record StartPlanBlockedService : Type := {
  spb_service : string;
  spb_reason : StartBlockReason;
}.

Record OnDemandStartPlan : Type := {
  osp_requested : string;
  osp_requested_operation_source : OperationSource;
  osp_requested_transition_cause : TransitionCause;
  osp_starts : list PlannedStart;
  osp_blocked : list StartPlanBlockedService;
}.

Inductive OnDemandStartPlanError : Type :=
| StartUnknownService (service : string)
| StartDefinitionRemoved (service : string)
| StartCycle (services : list string)
| StartValidation (findings : list ServiceGraphFinding).

Record OnDemandStartDispatch : Type := {
  osd_plan : OnDemandStartPlan;
  osd_requested_operation : OperationRequestOutcome;
  osd_dependency_operations : list OperationRequestOutcome;
  osd_events : list OperationEvent;
}.

Inductive OnDemandStartDispatchError : Type :=
| StartIdAllocation (error : IdAllocationError)
| StartOperationStore (error : OperationStoreError)
| MissingRequestedStart (service : string)
| MissingDependencyOperationId (service : string).

(** ** The closure ([closure.rs]) *)

Record StartClosure : Type := {
  scl_included : gset string;
  scl_blocked : gmap string StartPlanBlockedService;
}.

Definition closure_startable_services (self : StartClosure) : gset string :=
  filter (λ service, self.(scl_blocked) !! service = None) self.(scl_included).

Inductive IncludeMode : Type := IncludeRequested | IncludeDependency.

#[export] Instance IncludeMode_eq_dec : EqDecision IncludeMode.
Proof. solve_decision. Defined.

Inductive DependencyEntry : Type :=
| EntryStartable | EntrySatisfied | EntryDisabled | EntryMissing | EntryDefinitionRemoved.

Section Closure.
Context (services : ServiceTable).

Definition dependency_entry (service : string) (level : option string) : DependencyEntry :=
  match services !! service with
  | None => EntryMissing
  | Some entry =>
      if entry_satisfies entry level then EntrySatisfied
      else if entry.(en_definition_removed) then EntryDefinitionRemoved
      else if entry.(en_definition).(sd_disabled) then EntryDisabled
      else EntryStartable
  end.

(** [entry(..).or_insert(..)]. *)
Definition block_unavailable (service target : string) (kind : ServiceDependencyKind)
    (availability : DependencyAvailability) (self : StartClosure) : StartClosure :=
  match self.(scl_blocked) !! service with
  | Some _ => self
  | None =>
      {| self with scl_blocked := <[service := {| spb_service := service;
           spb_reason := StartHardDependencyUnavailable target kind availability |}]> self.(scl_blocked) |}
  end.

Definition include_hard_dependency (include : string → StartClosure → option StartClosure)
    (service : string) (dependency : ServiceDependency) (self : StartClosure) : option StartClosure :=
  let block := block_unavailable service dependency.(dep_target) dependency.(dep_kind) in
  match dependency_entry dependency.(dep_target) dependency.(dep_level) with
  | EntryStartable => include dependency.(dep_target) self
  | EntrySatisfied => Some self
  | EntryDisabled => Some (block AvDisabled self)
  | EntryMissing => Some (block AvMissing self)
  | EntryDefinitionRemoved => Some (block AvDefinitionRemoved self)
  end.

Definition include_wanted_dependency (include : string → StartClosure → option StartClosure)
    (declared : string) (self : StartClosure) : option StartClosure :=
  let '(target, level) := split_target declared in
  match dependency_entry target level with
  | EntryStartable => include target self
  | _ => Some self
  end.

Fixpoint include_service_with_mode (fuel : nat) (mode : IncludeMode) (service : string)
    (self : StartClosure) : option StartClosure :=
  match fuel with
  | O => None
  | S fuel =>
      match services !! service with
      | None => Some self
      | Some entry =>
          let state := entry.(en_runtime).(rt_state) in
          if bool_decide (mode = IncludeDependency) && satisfies_dependents state then Some self
          else if bool_decide (service ∈ self.(scl_included)) then Some self
          else
            let self := {| self with scl_included := set_insert service self.(scl_included) |} in
            if bool_decide (mode = IncludeDependency) && bool_decide (state = StBackoff) then Some self
            else
              let include := include_service_with_mode fuel IncludeDependency in
              self ← try_fold (include_hard_dependency include service)
                       (hard_dependencies entry.(en_definition)) self;
              try_fold (include_wanted_dependency include) entry.(en_definition).(sd_wants) self
      end
  end.

(** The inner loop of [propagate_blocked] with its [break]. *)
Definition blocked_dependency (entry : ServiceEntry) (blocked : gmap string StartPlanBlockedService)
    : option ServiceDependency :=
  find_first (λ dependency, bool_decide (is_Some (blocked !! dependency.(dep_target))))
    (hard_dependencies entry.(en_definition)).

Definition start_propagate_one (st : gmap string StartPlanBlockedService * bool) (service : string)
    : gmap string StartPlanBlockedService * bool :=
  let '(blocked, changed) := st in
  match blocked !! service with
  | Some _ => st
  | None =>
      match services !! service with
      | None => st
      | Some entry =>
          match blocked_dependency entry blocked with
          | None => st
          | Some dependency =>
              (<[service := {| spb_service := service;
                   spb_reason := StartHardDependencyBlocked dependency.(dep_target) dependency.(dep_kind) |}]>
                 blocked, true)
          end
      end
  end.

Fixpoint start_propagate_passes (fuel : nat) (included : gset string)
    (blocked : gmap string StartPlanBlockedService) : option (gmap string StartPlanBlockedService) :=
  match fuel with
  | O => None
  | S fuel =>
      let '(blocked, changed) := foldl start_propagate_one (blocked, false) (btree_elements included) in
      if changed then start_propagate_passes fuel included blocked else Some blocked
  end.

Definition start_propagate_blocked (self : StartClosure) : option StartClosure :=
  blocked ← start_propagate_passes (S (size self.(scl_included))) self.(scl_included) self.(scl_blocked);
  Some {| self with scl_blocked := blocked |}.

Definition collect_start_closure (service : string) : option StartClosure :=
  collector ← include_service_with_mode (S (S (size services))) IncludeRequested service
                {| scl_included := ∅; scl_blocked := ∅ |};
  start_propagate_blocked collector.

(** ** The plan ([order.rs], [mod.rs]) *)

Definition table_dependency_order (startable : gset string)
    : option (Result (list string) OnDemandStartPlanError) :=
  order ← dependency_start_order startable (λ service,
    match services !! service with
    | Some entry => start_order_dependency_targets entry.(en_definition)
    | None => []
    end);
  Some (map_err StartCycle order).

Definition planned_start (requested : string) (requested_operation_source : OperationSource)
    (requested_transition_cause : TransitionCause) (service : string) : PlannedStart :=
  if bool_decide (service = requested) then
    {| pst_service := service; pst_operation_source := requested_operation_source;
       pst_transition_cause := requested_transition_cause |}
  else
    {| pst_service := service; pst_operation_source := SrcDependencyPropagation;
       pst_transition_cause := TcDependencyStart |}.

(** The findings that refuse an administrator's start. *)
Definition refuses_start (finding : ServiceGraphFinding) : bool :=
  match finding with
  | InvalidHealthCheckRestartWindow _ _ _ _ | UnschedulableHealthCheck _ _ | InvalidTimerSchedule _ _ _ => true
  | _ => false
  end.

Context `{CalendarSyntax}.

Definition start_validation_findings (startable : gset string) : option (list ServiceGraphFinding) :=
  validation ← validate_service_graph (omap (table_definition services) (btree_elements startable));
  Some match validation with
       | Ok _ => []
       | Err failure => filter (λ finding, refuses_start finding = true) failure.(gf_findings)
       end.

(** The starts of a plan whose requested service is not blocked. *)
Definition plan_starts (service : string) (requested_operation_source : OperationSource)
    (requested_transition_cause : TransitionCause) (startable : gset string)
    : option (Result (list PlannedStart) OnDemandStartPlanError) :=
  findings ← (if bool_decide (requested_operation_source = SrcAdmin)
              then start_validation_findings startable else Some []);
  match findings with
  | _ :: _ => Some (Err (StartValidation findings))
  | [] =>
      order ← table_dependency_order startable;
      Some (map_ok (map (planned_start service requested_operation_source requested_transition_cause)) order)
  end.

Definition plan_start (service : string) (requested_operation_source : OperationSource)
    (requested_transition_cause : TransitionCause)
    : option (Result OnDemandStartPlan OnDemandStartPlanError) :=
  match services !! service with
  | None => Some (Err (StartUnknownService service))
  | Some target =>
      if target.(en_definition_removed) then Some (Err (StartDefinitionRemoved service))
      else
        closure ← collect_start_closure service;
        starts ← (if bool_decide (is_Some (closure.(scl_blocked) !! service)) then Some (Ok [])
                  else plan_starts service requested_operation_source requested_transition_cause
                         (closure_startable_services closure));
        Some (let? starts := starts in
              Ok {| osp_requested := service;
                    osp_requested_operation_source := requested_operation_source;
                    osp_requested_transition_cause := requested_transition_cause;
                    osp_starts := starts;
                    osp_blocked := btree_values closure.(scl_blocked) |})
  end.

Definition plan_queued_start (service : string) (source : OperationSource) :=
  plan_start service source TcExplicitStart.
Definition plan_on_demand_start (service : string) := plan_queued_start service SrcAdmin.
Definition plan_restart_policy_start (service : string) := plan_start service SrcRestartPolicy TcRestartPolicy.
Definition plan_timer_start (service : string) := plan_start service SrcTimer TcTimer.
Definition plan_binds_to_recovery_start (service : string) :=
  plan_start service SrcBindsToRecovery TcBindsToRecovery.
Definition plan_on_failure_start (service : string) := plan_start service SrcOnFailure TcExplicitStart.
Definition plan_tty_release_start (service : string) := plan_start service SrcTtyRelease TcExplicitStart.
End Closure.

(** ** Dispatching a plan ([dispatch.rs], [dispatch/planned.rs], [dispatch/blocked.rs])

    The store is cloned at the start and assigned at the end, so an error
    leaves it and the allocator as they were. *)

Definition dependency_start_count (plan : OnDemandStartPlan) : nat :=
  List.length (filter (λ start, start.(pst_service) ≠ plan.(osp_requested)) plan.(osp_starts)).

Definition caller_for_start (caller : option TokenSummary) (start : PlannedStart) : option TokenSummary :=
  if bool_decide (start.(pst_operation_source) = SrcAdmin) then caller else None.

Definition request_start (id : OperationId) (start : PlannedStart) (caller : option TokenSummary)
    (created_at_ns : Z) (operations : OperationStore)
    : OperationStore * Result OperationRequestOutcome OnDemandStartDispatchError :=
  let '(operations, outcome) := request_operation {|
    rq_id := id;
    rq_operation_type := OpStart;
    rq_service := start.(pst_service);
    rq_source := start.(pst_operation_source);
    rq_caller := caller;
    rq_created_at_ns := created_at_ns |} operations in
  (operations, map_err StartOperationStore outcome).

(** What the loop over the starts has so far. *)
Record DispatchState : Type := {
  ds_operations : OperationStore;
  ds_dependency_ids : list OperationId;
  ds_requested : option OperationRequestOutcome;
  ds_dependencies : list OperationRequestOutcome;
  ds_events : list OperationEvent;
}.

Definition dispatch_begin (operations : OperationStore) (dependency_ids : list OperationId)
    : DispatchState := {|
  ds_operations := operations;
  ds_dependency_ids := dependency_ids;
  ds_requested := None;
  ds_dependencies := [];
  ds_events := [];
|}.

(** The iterator's [next], or the error. *)
Definition next_dependency_id (start : PlannedStart) (st : DispatchState)
    : Result (OperationId * DispatchState) OnDemandStartDispatchError :=
  match st.(ds_dependency_ids) with
  | [] => Err (MissingDependencyOperationId start.(pst_service))
  | id :: ids => Ok (id, {| st with ds_dependency_ids := ids |})
  end.

Definition dispatch_dependency (start : PlannedStart) (caller : option TokenSummary) (created_at_ns : Z)
    (st : DispatchState) : Result DispatchState OnDemandStartDispatchError :=
  let? '(id, st) := next_dependency_id start st in
  let '(operations, outcome) := request_start id start caller created_at_ns st.(ds_operations) in
  let? outcome := outcome in
  Ok {| st with ds_operations := operations;
                ds_dependencies := st.(ds_dependencies) ++ [outcome];
                ds_events := st.(ds_events) ++ outcome.(ro_events) |}.

Definition dispatch_one (plan : OnDemandStartPlan) (requested_operation_id : OperationId)
    (caller : option TokenSummary) (created_at_ns : Z) (start : PlannedStart) (st : DispatchState)
    : Result DispatchState OnDemandStartDispatchError :=
  if bool_decide (start.(pst_service) = plan.(osp_requested)) then
    let '(operations, outcome) := request_start requested_operation_id start
      (caller_for_start caller start) created_at_ns st.(ds_operations) in
    let? outcome := outcome in
    Ok {| st with ds_operations := operations;
                  ds_requested := Some outcome;
                  ds_events := st.(ds_events) ++ outcome.(ro_events) |}
  else dispatch_dependency start (caller_for_start caller start) created_at_ns st.

Definition existing_requested_start (id : OperationId) (service : string) (operations : OperationStore)
    : Result OperationRequestOutcome OnDemandStartDispatchError :=
  match operations.(op_records) !! id with
  | None => Err (StartOperationStore (UnknownOperation id))
  | Some operation =>
      if negb (bool_decide (operation.(or_operation_type) = OpStart) ||
               bool_decide (operation.(or_operation_type) = OpRestart)) ||
         bool_decide (operation.(or_service) ≠ service) || bool_decide (operation.(or_state) ≠ OsPending)
      then Err (StartOperationStore (InvalidEventRecord id operation.(or_state)
             "a deferred backoff operation must be a pending start or restart for the requested service"))
      else Ok {| ro_returned_operation_id := id; ro_stored_operation_id := id;
                 ro_decision := CreateNew; ro_events := [] |}
  end.

Definition dispatch_one_existing (plan : OnDemandStartPlan) (requested_operation_id : OperationId)
    (created_at_ns : Z) (start : PlannedStart) (st : DispatchState)
    : Result DispatchState OnDemandStartDispatchError :=
  if bool_decide (start.(pst_service) = plan.(osp_requested)) then
    let? outcome := existing_requested_start requested_operation_id plan.(osp_requested) st.(ds_operations) in
    Ok {| st with ds_requested := Some outcome |}
  else dispatch_dependency start None created_at_ns st.

Fixpoint dispatch_starts (body : PlannedStart → DispatchState → Result DispatchState OnDemandStartDispatchError)
    (starts : list PlannedStart) (st : DispatchState) : Result DispatchState OnDemandStartDispatchError :=
  match starts with
  | [] => Ok st
  | start :: starts => let? st := body start st in dispatch_starts body starts st
  end.

Definition finish_dispatch (plan : OnDemandStartPlan) (st : DispatchState)
    : Result (OperationStore * OnDemandStartDispatch) OnDemandStartDispatchError :=
  let? requested := ok_or st.(ds_requested) (MissingRequestedStart plan.(osp_requested)) in
  Ok (st.(ds_operations), {| osd_plan := plan; osd_requested_operation := requested;
        osd_dependency_operations := st.(ds_dependencies); osd_events := st.(ds_events) |}).

Definition dispatch_planned_starts (plan : OnDemandStartPlan) (requested_operation_id : OperationId)
    (caller : option TokenSummary) (created_at_ns : Z) (dependency_ids : list OperationId)
    (operations : OperationStore) : Result (OperationStore * OnDemandStartDispatch) OnDemandStartDispatchError :=
  let? st := dispatch_starts (dispatch_one plan requested_operation_id caller created_at_ns) plan.(osp_starts)
    (dispatch_begin operations dependency_ids) in
  finish_dispatch plan st.

Definition dispatch_planned_starts_with_existing_requested (plan : OnDemandStartPlan)
    (requested_operation_id : OperationId) (created_at_ns : Z) (dependency_ids : list OperationId)
    (operations : OperationStore) : Result (OperationStore * OnDemandStartDispatch) OnDemandStartDispatchError :=
  let? st := dispatch_starts (dispatch_one_existing plan requested_operation_id created_at_ns) plan.(osp_starts)
    (dispatch_begin operations dependency_ids) in
  finish_dispatch plan st.

Definition kind_debug (kind : ServiceDependencyKind) : string :=
  match kind with DepRequires => "Requires" | DepWants => "Wants" | DepBindsTo => "BindsTo" end.

Definition start_blocked_reason (plan : OnDemandStartPlan) : string :=
  match find_first (λ blocked, bool_decide (blocked.(spb_service) = plan.(osp_requested))) plan.(osp_blocked) with
  | Some blocked =>
      match blocked.(spb_reason) with
      | StartHardDependencyUnavailable target kind _ =>
          "DependencyFailure: " +:+ kind_debug kind +:+ " dependency " +:+ target +:+ " is unavailable"
      | StartHardDependencyBlocked target kind =>
          "DependencyFailure: " +:+ kind_debug kind +:+ " dependency " +:+ target +:+ " is blocked"
      end
  | None => "DependencyFailure: requested service is blocked"
  end.

Definition dispatch_blocked_requested_start (plan : OnDemandStartPlan) (requested_operation_id : OperationId)
    (caller : option TokenSummary) (created_at_ns : Z) (operations : OperationStore)
    : Result (OperationStore * OnDemandStartDispatch) OnDemandStartDispatchError :=
  let '(operations, outcome) := request_operation {|
    rq_id := requested_operation_id;
    rq_operation_type := OpStart;
    rq_service := plan.(osp_requested);
    rq_source := plan.(osp_requested_operation_source);
    rq_caller := caller;
    rq_created_at_ns := created_at_ns |} operations in
  let? outcome := map_err StartOperationStore outcome in
  let dispatch events := {| osd_plan := plan; osd_requested_operation := outcome;
    osd_dependency_operations := []; osd_events := events |} in
  if bool_decide (outcome.(ro_returned_operation_id) = requested_operation_id) then
    let '(operations, event) :=
      fail_operation requested_operation_id created_at_ns (start_blocked_reason plan) operations in
    let? event := map_err StartOperationStore event in
    Ok (operations, dispatch (outcome.(ro_events) ++ [event]))
  else Ok (operations, dispatch outcome.(ro_events)).

(** The store and the allocator's sequence number, with the result. *)
Definition StartResult (A E : Type) : Type := OperationStore * Z * Result A E.

Definition dispatch_on_demand_start_plan (plan : OnDemandStartPlan) (requested_operation_id : OperationId)
    (caller : option TokenSummary) (created_at_ns : Z) (operations : OperationStore) (operation_ids : Z)
    : StartResult OnDemandStartDispatch OnDemandStartDispatchError :=
  match allocate_batch operation_ids (dependency_start_count plan) created_at_ns with
  | (_, Err error) => (operations, operation_ids, Err (StartIdAllocation error))
  | (next_operation_ids, Ok dependency_ids) =>
      let dispatch :=
        match plan.(osp_starts), plan.(osp_blocked) with
        | [], _ :: _ => dispatch_blocked_requested_start plan requested_operation_id caller created_at_ns operations
        | _, _ => dispatch_planned_starts plan requested_operation_id caller created_at_ns dependency_ids operations
        end in
      match dispatch with
      | Err error => (operations, operation_ids, Err error)
      | Ok (next_operations, dispatch) => (next_operations, next_operation_ids, Ok dispatch)
      end
  end.

Definition dispatch_existing_requested_start_plan (plan : OnDemandStartPlan)
    (requested_operation_id : OperationId) (created_at_ns : Z) (operations : OperationStore) (operation_ids : Z)
    : StartResult OnDemandStartDispatch OnDemandStartDispatchError :=
  match allocate_batch operation_ids (dependency_start_count plan) created_at_ns with
  | (_, Err error) => (operations, operation_ids, Err (StartIdAllocation error))
  | (next_operation_ids, Ok dependency_ids) =>
      match dispatch_planned_starts_with_existing_requested plan requested_operation_id created_at_ns
              dependency_ids operations with
      | Err error => (operations, operation_ids, Err error)
      | Ok (next_operations, dispatch) => (next_operations, next_operation_ids, Ok dispatch)
      end
  end.
