(* ===== verification/StartPlanSpec.v ===== *)
(** * On-demand starts are right

    What a start plan contains, stated on the service table: the requested
    service and what it must bring up, in an order that respects the
    dependencies, or why it cannot start. The closure and the propagation are
    shown to be the searches of [Reach]. *)

From S2P Require Import Prelude RustStr ServiceRuntime ServiceDef StartOrder Reach Ids Roles Calendar Restart.
From S2P Require Import Cgroup ServiceTable Graph OperationRecord OperationStore OperationInv StartPlan.
From Stdlib Require Import String.
Open Scope string_scope.
Open Scope list_scope.

(** ** The closure as a search *)

Section Closure.
Context (services : ServiceTable) (requested : string).

Definition state_of (service : string) : option ServiceState :=
  (λ e, e.(en_runtime).(rt_state)) <$> services !! service.

(** A service that already satisfies its dependents, whatever its levels. *)
Definition is_up (service : string) : bool := is_some_and (state_of service) satisfies_dependents.

Definition follow_startable (target : string) : list (Step (ServiceDependency * DependencyAvailability)) :=
  if is_up target then [] else [Follow target].

Definition hard_step (dep : ServiceDependency) : list (Step (ServiceDependency * DependencyAvailability)) :=
  match dependency_entry services dep.(dep_target) dep.(dep_level) with
  | EntryStartable => follow_startable dep.(dep_target)
  | EntrySatisfied => []
  | EntryDisabled => [Note (dep, AvDisabled)]
  | EntryMissing => [Note (dep, AvMissing)]
  | EntryDefinitionRemoved => [Note (dep, AvDefinitionRemoved)]
  end.

Definition want_step (declared : string) : list (Step (ServiceDependency * DependencyAvailability)) :=
  match dependency_entry services (split_target declared).1 (split_target declared).2 with
  | EntryStartable => follow_startable (split_target declared).1
  | _ => []
  end.

(** A dependency in Backoff is waited for and not expanded. *)
Definition expanded (service : string) : bool :=
  bool_decide (service = requested) || negb (bool_decide (state_of service = Some StBackoff)).

Definition start_steps (service : string) : list (Step (ServiceDependency * DependencyAvailability)) :=
  match services !! service with
  | None => []
  | Some entry =>
      if expanded service then
        (hard_dependencies entry.(en_definition) ≫= hard_step) ++ (entry.(en_definition).(sd_wants) ≫= want_step)
      else []
  end.

Definition first_block (service : string) (p : ServiceDependency * DependencyAvailability)
    (o : option StartPlanBlockedService) : option StartPlanBlockedService :=
  match o with
  | Some b => Some b
  | None => Some {| spb_service := service; spb_reason :=
      StartHardDependencyUnavailable p.1.(dep_target) p.1.(dep_kind) p.2 |}
  end.

Definition as_reached (c : StartClosure) : gset string * gmap string StartPlanBlockedService :=
  (c.(scl_included), c.(scl_blocked)).
Definition of_reached (r : gset string * gmap string StartPlanBlockedService) : StartClosure :=
  {| scl_included := r.1; scl_blocked := r.2 |}.

Lemma of_as_reached c : of_reached (as_reached c) = c.
Proof. by destruct c. Qed.

Lemma block_note service p c :
  block_unavailable service p.1.(dep_target) p.1.(dep_kind) p.2 c =
  of_reached (add_note first_block service p (as_reached c)).
Proof.
  destruct c as [i b]. unfold block_unavailable, add_note, as_reached, of_reached. simpl. f_equal.
  destruct (b !! service) as [x|] eqn:E; simpl.
  - f_equal. symmetry. apply partial_alter_same. by rewrite E.
  - f_equal. symmetry. apply partial_alter_to_insert. by rewrite E.
Qed.

(** Where the search of [Reach] answers, with the requested service already
    included, the closure's own recursion answers the same. *)
Definition agrees (include : string → StartClosure → option StartClosure)
    (visit : string → Reached → option (Reached (D := StartPlanBlockedService))) : Prop :=
  ∀ t c r, is_Some (services !! t) → is_up t = false → requested ∈ c.(scl_included) →
  visit t (as_reached c) = Some r → include t c = Some (of_reached r).

Definition skips_up (include : string → StartClosure → option StartClosure) : Prop :=
  ∀ t c, is_up t = true → include t c = Some c.

Lemma startable_defined target level :
  dependency_entry services target level = EntryStartable → is_Some (services !! target).
Proof. unfold dependency_entry. destruct (services !! target); [eauto|done]. Qed.

Lemma follow_agrees include visit service target c r :
  agrees include visit → skips_up include → is_Some (services !! target) → requested ∈ c.(scl_included) →
  try_fold (run_step first_block visit service) (follow_startable target) (as_reached c) = Some r →
  include target c = Some (of_reached r).
Proof.
  intros Ha Hup Ht Hr. unfold follow_startable. destruct (is_up target) eqn:E; simpl.
  - intros [= <-]. rewrite Hup by done. by rewrite of_as_reached.
  - destruct (visit target (as_reached c)) as [r'|] eqn:Ev; simpl; [|done]. intros [= <-]. by apply Ha.
Qed.

Lemma hard_agrees include visit service dep c r :
  agrees include visit → skips_up include → requested ∈ c.(scl_included) →
  try_fold (run_step first_block visit service) (hard_step dep) (as_reached c) = Some r →
  include_hard_dependency services include service dep c = Some (of_reached r).
Proof.
  intros Ha Hup Hr. unfold include_hard_dependency, hard_step.
  destruct (dependency_entry services dep.(dep_target) dep.(dep_level)) eqn:E; simpl.
  - apply follow_agrees; try done. by eapply startable_defined.
  - intros [= <-]. by rewrite of_as_reached.
  - intros [= <-]. f_equal. apply (block_note service (dep, AvDisabled)).
  - intros [= <-]. f_equal. apply (block_note service (dep, AvMissing)).
  - intros [= <-]. f_equal. apply (block_note service (dep, AvDefinitionRemoved)).
Qed.

Lemma want_agrees include visit service declared c r :
  agrees include visit → skips_up include → requested ∈ c.(scl_included) →
  try_fold (run_step first_block visit service) (want_step declared) (as_reached c) = Some r →
  include_wanted_dependency services include declared c = Some (of_reached r).
Proof.
  intros Ha Hup Hr. unfold include_wanted_dependency, want_step. destruct (split_target declared) as [t l]. simpl.
  destruct (dependency_entry services t l) eqn:E; simpl; try (intros [= <-]; by rewrite of_as_reached).
  apply follow_agrees; try done. by eapply startable_defined.
Qed.

(** Loops that agree element by element agree. *)
Lemma loops_agree {A} (body : A → StartClosure → option StartClosure)
    (step : A → Reached → option (Reached (D := StartPlanBlockedService))) l c r :
  (∀ x c r, requested ∈ c.(scl_included) → step x (as_reached c) = Some r → body x c = Some (of_reached r)) →
  (∀ x r r', step x r = Some r' → r.1 ⊆ r'.1) → requested ∈ c.(scl_included) →
  try_fold step l (as_reached c) = Some r → try_fold body l c = Some (of_reached r).
Proof.
  intros Hb Hm. revert c. induction l as [|x l IH]; intros c Hr; simpl.
  { intros [= <-]. by rewrite of_as_reached. }
  destruct (step x (as_reached c)) as [r1|] eqn:E; simpl; [|done]. rewrite (Hb _ _ _ Hr E). simpl. intros El.
  apply IH; [by apply (Hm _ _ _ E)|]. by destruct r1.
Qed.

Lemma steps_mono fuel service l r r' :
  try_fold (run_step first_block (reach start_steps first_block fuel) service) l r = Some r' → r.1 ⊆ r'.1.
Proof.
  intros E. refine (try_fold_inv _ (λ r0 : Reached, r.1 ⊆ r0.1) _ _ _ _ _ E); [|done].
  intros [t|a] r0 r1 _ H0; simpl; [|by intros [= <-]]. intros E1%reach_mono. set_solver.
Qed.

Lemma include_up fuel : skips_up (include_service_with_mode services (S fuel) IncludeDependency).
Proof.
  intros t c. unfold is_up, state_of. simpl. destruct (services !! t) as [e|]; [|done]. simpl. by intros ->.
Qed.

(** In [mode], [t] is where the search may be. *)
Definition include_pre (mode : IncludeMode) (t : string) (c : StartClosure) : Prop :=
  match mode with
  | IncludeRequested => t = requested
  | IncludeDependency => is_up t = false ∧ requested ∈ c.(scl_included)
  end.

Lemma include_of_reach fuel mode t c r :
  is_Some (services !! t) → include_pre mode t c →
  reach start_steps first_block fuel t (as_reached c) = Some r →
  include_service_with_mode services (S fuel) mode t c = Some (of_reached r).
Proof.
  revert mode t c r. induction fuel as [|fuel IH]; intros mode t c r [e Et] Hpre; [done|].
  assert (agrees (include_service_with_mode services (S fuel) IncludeDependency)
    (reach start_steps first_block fuel)) as Ha by (intros t' c' r' ? ? ?; by apply IH).
  pose proof (include_up fuel) as Hup.
  remember (S fuel) as n. cbn [include_service_with_mode]. subst n. rewrite Et. cbn [reach as_reached fst snd].
  assert (bool_decide (mode = IncludeDependency) && satisfies_dependents (rt_state (en_runtime e)) = false) as ->.
  { destruct mode; [done|]. destruct Hpre as [Hu _]. unfold is_up, state_of in Hu. rewrite Et in Hu. done. }
  destruct (bool_decide (t ∈ scl_included c)) eqn:Ev.
  { intros [= <-]. f_equal. by destruct c. }
  set (c0 := {| c with scl_included := _ |}). change (set_insert t c.(scl_included), c.(scl_blocked)) with (as_reached c0).
  assert (requested ∈ c0.(scl_included)) as Hr0.
  { apply elem_of_set_insert. destruct mode; simpl in Hpre; [by left|by right; apply Hpre]. }
  assert (start_steps t = if bool_decide (mode = IncludeDependency) && bool_decide (rt_state (en_runtime e) = StBackoff)
    then [] else (hard_dependencies e.(en_definition) ≫= hard_step) ++ (e.(en_definition).(sd_wants) ≫= want_step)) as Es.
  { unfold start_steps, expanded, state_of. rewrite Et. simpl.
    destruct mode; simpl in *.
    - rewrite Hpre, bool_decide_eq_true_2 by done. done.
    - rewrite (bool_decide_eq_false_2 (t = requested)); [|intros ->; breflect; tauto]. simpl.
      destruct (decide (rt_state (en_runtime e) = StBackoff)) as [Eb|Eb].
      + by rewrite Eb, !bool_decide_eq_true_2.
      + rewrite !bool_decide_eq_false_2 by congruence. done. }
  rewrite Es. destruct (_ && _) in |- *; cbn [try_fold].
  { intros [= <-]. by rewrite of_as_reached. }
  rewrite try_fold_app, try_fold_bind. intros Ef.
  match type of Ef with (?m ≫= _) = _ => destruct m as [r1|] eqn:E1 end; simpl in Ef; [|done].
  rewrite try_fold_bind in Ef.
  rewrite (loops_agree (include_hard_dependency services
    (include_service_with_mode services (S fuel) IncludeDependency) t) _ _ c0 r1
    (λ x c1 r1' Hr1, hard_agrees _ _ t x c1 r1' Ha Hup Hr1) (λ x r1 r2, steps_mono fuel t _ r1 r2) Hr0 E1).
  cbn [mbind option_bind]. assert (requested ∈ r1.1) as Hr1.
  { refine (try_fold_inv _ (λ r0 : Reached, requested ∈ r0.1) _ _ _ _ _ E1); [|done].
    intros x ra rb _ Hra Hab%steps_mono. auto. }
  apply (loops_agree (include_wanted_dependency services
    (include_service_with_mode services (S fuel) IncludeDependency)) _ _ (of_reached r1) r
    (λ x c1 r1' Hr1', want_agrees _ _ t x c1 r1' Ha Hup Hr1') (λ x ra rb, steps_mono fuel t _ ra rb) Hr1).
  destruct r1. exact Ef.
Qed.

(** [a] brings [b] up: [b] is a declared dependency that is there, enabled, not
    removed and down. *)
Definition brings (a b : string) : Prop := goes start_steps a b.

Lemma follow_startable_spec t x : Follow t ∈ follow_startable x ↔ t = x ∧ is_up x = false.
Proof.
  unfold follow_startable. destruct (is_up x).
  - rewrite elem_of_nil. naive_solver.
  - rewrite list_elem_of_singleton. naive_solver.
Qed.

Lemma brings_spec a b :
  brings a b ↔ ∃ e target level, services !! a = Some e ∧ expanded a = true ∧
    (target, level) ∈ map (λ d, (d.(dep_target), d.(dep_level))) (hard_dependencies e.(en_definition)) ++
                      map split_target e.(en_definition).(sd_wants) ∧
    dependency_entry services target level = EntryStartable ∧ is_up target = false ∧ b = target.
Proof.
  unfold brings, goes, start_steps. destruct (services !! a) as [e|]; [|rewrite elem_of_nil; naive_solver].
  destruct (expanded a); [|rewrite elem_of_nil; naive_solver].
  rewrite elem_of_app, !list_elem_of_bind. split.
  - intros [(dep & Hf & Hd)|(w & Hf & Hw)].
    + unfold hard_step in Hf. destruct (dependency_entry _ _ _) eqn:E; try (by apply elem_of_nil in Hf);
        try (apply list_elem_of_singleton in Hf; done). apply follow_startable_spec in Hf as [-> Hu].
      exists e, dep.(dep_target), dep.(dep_level). split_and!; try done. apply elem_of_app. left. apply list_elem_of_fmap. by exists dep.
    + unfold want_step in Hf. destruct (dependency_entry _ _ _) eqn:E; try (by apply elem_of_nil in Hf).
      apply follow_startable_spec in Hf as [-> Hu].
      exists e, (split_target w).1, (split_target w).2. split_and!; try done. apply elem_of_app. right. apply list_elem_of_fmap.
      exists w. split; [by destruct (split_target w)|done].
  - intros (e' & t & l & [= <-] & _ & Hin & Hs & Hu & ->). apply elem_of_app in Hin as [(dep & [= -> ->] & Hd)%list_elem_of_fmap|(w & Ew & Hw)%list_elem_of_fmap].
    + left. exists dep. split; [|done]. unfold hard_step. rewrite Hs. by apply follow_startable_spec.
    + right. exists w. split; [|done]. unfold want_step. rewrite <-Ew. simpl. rewrite Hs. by apply follow_startable_spec.
Qed.

Lemma brings_defined a b : brings a b → b ∈ dom services.
Proof.
  intros (e & t & l & _ & _ & _ & Hs & _ & ->)%brings_spec. by apply elem_of_dom, (startable_defined t l).
Qed.

(** The faults noted against an expanded service, in order of declaration. *)
Definition unavailable_notes (service : string) : list (ServiceDependency * DependencyAvailability) :=
  omap noted (start_steps service).

Lemma noting_first service l :
  noting first_block service l None =
  (λ p, {| spb_service := service; spb_reason :=
     StartHardDependencyUnavailable p.1.(dep_target) p.1.(dep_kind) p.2 |}) <$> head (omap noted l).
Proof.
  unfold noting. destruct (omap noted l) as [|p k]; simpl; [done|].
  induction k as [|q k IH]; simpl; done.
Qed.

Definition table_hard (service : string) : list ServiceDependency :=
  from_option (λ e, hard_dependencies e.(en_definition)) [] (services !! service).

Definition start_mark (service : string) (dep : ServiceDependency) : StartPlanBlockedService :=
  {| spb_service := service; spb_reason := StartHardDependencyBlocked dep.(dep_target) dep.(dep_kind) |}.

Lemma start_propagate_spread fuel included b :
  start_propagate_passes services fuel included b =
  spread_passes included table_hard dep_target start_mark fuel b.
Proof.
  assert (∀ st s, start_propagate_one services st s = spread_one table_hard dep_target start_mark st s) as Hone.
  { intros [m c] s. unfold start_propagate_one, spread_one, first_marked, table_hard, blocked_dependency.
    destruct (m !! s); [done|]. by destruct (services !! s). }
  assert (∀ l st, foldl (start_propagate_one services) st l =
    foldl (spread_one table_hard dep_target start_mark) st l) as Hf.
  { induction l as [|s l IH]; intros st; simpl; [done|]. by rewrite Hone, IH. }
  revert b. induction fuel as [|fuel IH]; intros b; simpl; [done|]. rewrite Hf.
  destruct (foldl _ _ _) as [b' []]; [apply IH|done].
Qed.

(** What a closure holds. *)
Record start_closure (c : StartClosure) : Prop := {
  sc_included : ∀ x, x ∈ c.(scl_included) ↔ rtc brings requested x;
  sc_blocked : ∀ x, is_Some (c.(scl_blocked) !! x) ↔
    ∃ y, rtc brings requested y ∧ unavailable_notes y ≠ [] ∧
      rtc (λ a b, rtc brings requested a ∧ b ∈ map dep_target (table_hard a)) x y;
  sc_service : ∀ x b, c.(scl_blocked) !! x = Some b → b.(spb_service) = x ∧ x ∈ c.(scl_included);
}.

Lemma collect_start_closure_ok :
  is_Some (services !! requested) → ∃ c, collect_start_closure services requested = Some c ∧ start_closure c.
Proof.
  intros Hd. destruct (reach_from start_steps first_block (dom services) brings_defined requested) as (r & E & Hin & Hn).
  { by apply elem_of_dom. }
  rewrite size_dom in E. unfold collect_start_closure.
  rewrite (include_of_reach (S (size services)) IncludeRequested requested {| scl_included := ∅; scl_blocked := ∅ |} r Hd eq_refl E).
  cbn [mbind option_bind]. unfold start_propagate_blocked, of_reached. simpl scl_included. simpl scl_blocked.
  rewrite start_propagate_spread. destruct (spread_ok r.1 table_hard dep_target start_mark r.2) as (m & Em & [K N _] & Hdoom).
  unfold spread in Em. rewrite Em. cbn [mbind option_bind]. eexists. split; [done|].
  assert (∀ x, is_Some (r.2 !! x) ↔ rtc brings requested x ∧ unavailable_notes x ≠ []) as Hnote.
  { intros x. rewrite Hn. case_decide as Hx.
    - rewrite noting_first. apply Hin in Hx. unfold unavailable_notes. destruct (omap noted (start_steps x)); simpl.
      + split; [by intros [? ?]|tauto].
      + split; [done|eauto].
    - split; [by intros [? ?]|]. rewrite <-Hin. tauto. }
  split; simpl; [exact Hin| |].
  - intros x. rewrite Hdoom. split.
    + induction 1 as [x [? ?]%Hnote|x dep Hx Hdep _ (y & Hy & Hny & Hr)]; [by exists x|].
      exists y. split_and!; try done. eapply rtc_l; [|exact Hr]. split; [by apply Hin|by apply list_elem_of_fmap_2].
    + intros (y & Hy & Hny & Hr). induction Hr as [x|x z y [Hx (dep & -> & Hdep)%list_elem_of_fmap] _ IH].
      * apply doomed_marked, Hnote. done.
      * eapply doomed_needs; [by apply Hin|done|]. by apply IH.
  - intros x b Hb. destruct (r.2 !! x) as [b0|] eqn:E0.
    + rewrite (K _ _ E0) in Hb. simplify_eq. rewrite Hn in E0. case_decide as Hx; [|done].
      rewrite noting_first in E0. destruct (head _); simplify_eq/=. done.
    + destruct (N _ _ Hb E0) as (Hx & dep & _ & -> & _). done.
Qed.
End Closure.

(** ** Plans *)

Section Plan.
Context `{CalendarSyntax} (services : ServiceTable).

Definition table_targets (service : string) : list string :=
  match services !! service with
  | Some entry => start_order_dependency_targets entry.(en_definition)
  | None => []
  end.

(** A hard dependency of a planned service is in order: already satisfied, up
    with its level still to come, or planned too. *)
Definition dependency_planned (starts : list string) (dep : ServiceDependency) : Prop :=
  match dependency_entry services dep.(dep_target) dep.(dep_level) with
  | EntrySatisfied => True
  | EntryStartable => is_up services dep.(dep_target) = true ∨ dep.(dep_target) ∈ starts
  | _ => False
  end.

(** What a plan with starts promises. *)
Record starts_ok (service : string) (source : OperationSource) (cause : TransitionCause)
    (plan : OnDemandStartPlan) : Prop := {
  so_nodup : NoDup (map pst_service plan.(osp_starts));
  so_requested : service ∈ map pst_service plan.(osp_starts);
  so_reach : ∀ s, s ∈ map pst_service plan.(osp_starts) → rtc (brings services service) service s;
  so_hard : ∀ s dep, s ∈ map pst_service plan.(osp_starts) → expanded services service s = true →
    dep ∈ table_hard services s → dependency_planned (map pst_service plan.(osp_starts)) dep;
  so_ordered : ordered (λ a b, a ∈ map pst_service plan.(osp_starts) ∧ b ∈ table_targets a ∧
    b ∈ map pst_service plan.(osp_starts)) (map pst_service plan.(osp_starts));
  so_sources : ∀ p, p ∈ plan.(osp_starts) → p = planned_start service source cause p.(pst_service);
}.

Lemma planned_names service source cause l :
  map pst_service (map (planned_start service source cause) l) = l.
Proof.
  induction l as [|x l IH]; simpl; [done|]. rewrite IH. f_equal. unfold planned_start. by case_bool_decide.
Qed.

Lemma table_dependency_order_spec startable :
  ∃ r, table_dependency_order services startable = Some r ∧
  match r with
  | Ok order => order ≡ₚ elements startable ∧ ordered (must_follow startable table_targets) order
  | Err error => ∃ c, error = StartCycle c ∧ is_cycle (must_follow startable table_targets) c
  end.
Proof.
  unfold table_dependency_order. pose proof (dependency_start_order_spec startable table_targets) as Hs.
  change (λ service, match services !! service with
    | Some entry => start_order_dependency_targets (en_definition entry) | None => [] end) with table_targets.
  destruct (dependency_start_order startable table_targets) as [[order|c]|]; [| |done]; eexists; (split; [done|]); simpl; eauto.
Qed.

Lemma start_validation_total startable : is_Some (start_validation_findings services startable).
Proof.
  unfold start_validation_findings, validate_service_graph, cycle_findings.
  destruct (find_cycles_spec (di_by_name (index_graph (synthesise_role_dependencies
    (omap (table_definition services) (btree_elements startable)))))) as (c & -> & _). by eexists.
Qed.

Lemma plan_starts_spec service source cause startable :
  ∃ r, plan_starts services service source cause startable = Some r ∧
  match r with
  | Ok starts => ∃ order, starts = map (planned_start service source cause) order ∧
      order ≡ₚ elements startable ∧ ordered (must_follow startable table_targets) order
  | Err (StartCycle c) => is_cycle (must_follow startable table_targets) c
  | Err (StartValidation findings) =>
      source = SrcAdmin ∧ findings ≠ [] ∧ Forall (λ f, refuses_start f = true) findings
  | Err _ => False
  end.
Proof.
  unfold plan_starts. destruct (bool_decide (source = SrcAdmin)) eqn:Es.
  - destruct (start_validation_total startable) as [fs Ef]. rewrite Ef. cbn [mbind option_bind].
    destruct fs as [|f fs].
    + destruct (table_dependency_order_spec startable) as (r & -> & Hr). cbn [mbind option_bind].
      eexists. split; [done|]. destruct r as [order|error]; simpl; [|by destruct Hr as (c & -> & ?)].
      exists order. done.
    + eexists. split; [done|]. simpl. breflect. split_and!; try done.
      unfold start_validation_findings in Ef. destruct (validate_service_graph _) as [[v|fl]|]; simpl in Ef; try done.
      injection Ef as Ef. rewrite <-Ef. apply Forall_forall. by intros x [? _]%list_elem_of_filter.
  - cbn [mbind option_bind]. destruct (table_dependency_order_spec startable) as (r & -> & Hr). cbn [mbind option_bind].
    eexists. split; [done|]. destruct r as [order|error]; simpl; [|by destruct Hr as (c & -> & ?)].
    exists order. done.
Qed.

Lemma unblocked_hard service c s dep :
  start_closure services service c → s ∈ closure_startable_services c → expanded services service s = true →
  dep ∈ table_hard services s →
  match dependency_entry services dep.(dep_target) dep.(dep_level) with
  | EntrySatisfied => True
  | EntryStartable => is_up services dep.(dep_target) = true ∨ dep.(dep_target) ∈ closure_startable_services c
  | _ => False
  end.
Proof.
  intros [Hin Hb _] [Hn Hi]%elem_of_filter Hexp Hdep. apply Hin in Hi.
  assert (¬ is_Some (c.(scl_blocked) !! s)) as Hns by (rewrite Hn; by intros [? ?]).
  unfold table_hard in Hdep. destruct (services !! s) as [e|] eqn:Es; [|by apply elem_of_nil in Hdep]. simpl in Hdep.
  assert (∀ a, Note (dep, a) ∈ hard_step services dep → False) as Hnote.
  { intros a Ha. apply Hns, Hb. exists s. split_and!; [done| |done]. unfold unavailable_notes, start_steps.
    rewrite Es, Hexp. intros E. assert ((dep, a) ∈ omap noted ((hard_dependencies e.(en_definition) ≫= hard_step services) ++
      (e.(en_definition).(sd_wants) ≫= want_step services))) as Hm.
    { apply list_elem_of_omap. exists (Note (dep, a)). split; [|done]. apply elem_of_app. left.
      apply list_elem_of_bind. by exists dep. }
    rewrite E in Hm. by apply elem_of_nil in Hm. }
  unfold hard_step in Hnote. destruct (dependency_entry services dep.(dep_target) dep.(dep_level)) eqn:Ee; try done.
  - destruct (is_up services dep.(dep_target)) eqn:Eu; [by left|right].
    assert (brings services service s dep.(dep_target)) as Hbr.
    { apply brings_spec. exists e, dep.(dep_target), dep.(dep_level). split_and!; try done.
      apply elem_of_app. left. apply list_elem_of_fmap. by exists dep. }
    apply elem_of_filter. split; [|by apply Hin; eapply rtc_r].
    apply eq_None_not_Some. intros (y & Hy & Hny & Hr)%Hb. apply Hns, Hb. exists y. split_and!; try done.
    eapply rtc_l; [|exact Hr]. split; [done|]. unfold table_hard. rewrite Es. by apply list_elem_of_fmap_2.
  - eapply Hnote. left.
  - eapply Hnote. left.
  - eapply Hnote. left.
Qed.

Lemma plan_start_spec service source cause :
  ∃ r, plan_start services service source cause = Some r ∧
  match r with
  | Err (StartUnknownService s) => s = service ∧ services !! service = None
  | Err (StartDefinitionRemoved s) =>
      s = service ∧ ∃ e, services !! service = Some e ∧ e.(en_definition_removed) = true
  | Err (StartCycle c) => is_cycle (λ a b, rtc (brings services service) service a ∧ b ∈ table_targets a) c
  | Err (StartValidation findings) =>
      source = SrcAdmin ∧ findings ≠ [] ∧ Forall (λ f, refuses_start f = true) findings
  | Ok plan =>
      plan.(osp_requested) = service ∧ plan.(osp_requested_operation_source) = source ∧
      plan.(osp_requested_transition_cause) = cause ∧
      ((service ∈ map spb_service plan.(osp_blocked) ∧ plan.(osp_starts) = []) ∨
       (service ∉ map spb_service plan.(osp_blocked) ∧ starts_ok service source cause plan))
  end.
Proof.
  unfold plan_start. destruct (services !! service) as [e|] eqn:Es; [|by eexists].
  destruct (en_definition_removed e) eqn:Er; [by eexists; split; [done|]; split; [done|]; exists e|].
  destruct (collect_start_closure_ok services service) as (c & -> & Hc); [eauto|]. cbn [mbind option_bind].
  assert (∀ x, x ∈ map spb_service (btree_values c.(scl_blocked)) ↔ is_Some (c.(scl_blocked) !! x)) as Hbl.
  { intros x. rewrite list_elem_of_fmap. setoid_rewrite elem_of_btree_values. split.
    - intros (b & -> & k & Hk). by destruct (sc_service _ _ _ Hc _ _ Hk) as [-> _].
    - intros [b Hb]. exists b. destruct (sc_service _ _ _ Hc _ _ Hb) as [-> _]. eauto. }
  destruct (bool_decide (is_Some (scl_blocked c !! service))) eqn:Eb; breflect; cbn [mbind option_bind].
  { eexists. split; [done|]. simpl. split_and!; try done. left. split; [by apply Hbl|done]. }
  destruct (plan_starts_spec service source cause (closure_startable_services c)) as (r & -> & Hr). cbn [mbind option_bind].
  eexists. split; [done|]. destruct r as [starts|error].
  - destruct Hr as (order & -> & Hp & Ho). simpl. split_and!; try done. right. split; [by rewrite Hbl|].
    assert (∀ x, x ∈ order ↔ x ∈ closure_startable_services c) as Hord by (intros; by rewrite Hp, elem_of_elements).
    split; simpl; rewrite ?planned_names.
    + rewrite Hp. apply NoDup_elements.
    + apply Hord, elem_of_filter. split; [by apply eq_None_not_Some|]. by apply (sc_included _ _ _ Hc).
    + intros s [_ Hs]%Hord%elem_of_filter. by apply (sc_included _ _ _ Hc).
    + intros s dep Hs%Hord Hexp Hdep. pose proof (unblocked_hard service c s dep Hc Hs Hexp Hdep) as H1.
      unfold dependency_planned. destruct (dependency_entry _ _ _); try done. by rewrite Hord.
    + intros pre x suf Eo y (Hx & Hy & Hyo). eapply Ho; [done|]. by rewrite Hord in Hx, Hyo.
    + intros p (x & -> & _)%list_elem_of_fmap. unfold planned_start. repeat case_bool_decide; simplify_eq/=; done.
  - destruct error; simpl in *; try done. eapply is_cycle_mono; [|exact Hr].
    intros a b ? (Ha & Hb & _) _. split; [|done]. apply elem_of_filter in Ha as [_ Ha]. by apply (sc_included _ _ _ Hc).
Qed.
End Plan.


(** ** Dispatch *)

Lemma request_start_wf id start caller t s :
  store_wf s → (0 ≤ t)%Z → store_wf (request_start id start caller t s).1.
Proof.
  intros Hwf Ht. unfold request_start. set (rq := {| rq_id := id |}).
  pose proof (request_operation_result rq s Hwf Ht) as H. case_bool_decide; [by rewrite H|].
  destruct (request_operation rq s) as [s' [o|e]]; simpl; [by destruct H|by destruct H as [-> _]].
Qed.

Lemma request_start_err id start caller t s e :
  (request_start id start caller t s).2 = Err e → ∃ a, e = StartOperationStore a.
Proof.
  unfold request_start. destruct (request_operation _ s) as [s' [o|e']]; simpl; [done|]. intros [= <-]. eauto.
Qed.

(** The dependency starts of a list of starts. *)
Definition dependencies_in (requested : string) (starts : list PlannedStart) : nat :=
  List.length (filter (λ start, start.(pst_service) ≠ requested) starts).

Lemma dependencies_in_cons requested p l :
  dependencies_in requested (p :: l) =
  ((if bool_decide (p.(pst_service) = requested) then 0 else 1) + dependencies_in requested l)%nat.
Proof. unfold dependencies_in. rewrite filter_cons. case_bool_decide; case_decide; try done; simpl; lia. Qed.

Lemma dispatch_starts_ok plan id caller t l st :
  store_wf st.(ds_operations) → (0 ≤ t)%Z →
  (dependencies_in plan.(osp_requested) l ≤ List.length st.(ds_dependency_ids))%nat →
  match dispatch_starts (dispatch_one plan id caller t) l st with
  | Ok st' => store_wf st'.(ds_operations) ∧
      List.length st'.(ds_dependencies) =
        (List.length st.(ds_dependencies) + dependencies_in plan.(osp_requested) l)%nat ∧
      (is_Some st.(ds_requested) ∨ plan.(osp_requested) ∈ map pst_service l → is_Some st'.(ds_requested))
  | Err e => ∃ a, e = StartOperationStore a
  end.
Proof.
  revert st. induction l as [|p l IH]; intros st Hwf Ht Hids; cbn [dispatch_starts].
  { split_and!; [done|unfold dependencies_in; simpl; lia|]. intros [?|[]%elem_of_nil]. done. }
  rewrite dependencies_in_cons in Hids.
  assert (match dispatch_one plan id caller t p st with
    | Ok st1 => store_wf st1.(ds_operations) ∧
        (dependencies_in plan.(osp_requested) l ≤ List.length st1.(ds_dependency_ids))%nat ∧
        List.length st1.(ds_dependencies) = (List.length st.(ds_dependencies) +
          (if bool_decide (p.(pst_service) = plan.(osp_requested)) then 0 else 1))%nat ∧
        (is_Some st.(ds_requested) ∨ p.(pst_service) = plan.(osp_requested) → is_Some st1.(ds_requested))
    | Err e => ∃ a, e = StartOperationStore a end) as H1.
  { unfold dispatch_one, dispatch_dependency, next_dependency_id. case_bool_decide as Hp.
    - pose proof (request_start_wf id p (caller_for_start caller p) t st.(ds_operations) Hwf Ht) as Hw.
      pose proof (request_start_err id p (caller_for_start caller p) t st.(ds_operations)) as He.
      destruct (request_start _ _ _ _ _) as [s1 [o|e]]; simpl in *; [|by apply He]. split_and!; [done..|lia|eauto].
    - destruct (st.(ds_dependency_ids)) as [|i ids] eqn:Ei; simpl in *; [lia|].
      pose proof (request_start_wf i p (caller_for_start caller p) t st.(ds_operations) Hwf Ht) as Hw.
      pose proof (request_start_err i p (caller_for_start caller p) t st.(ds_operations)) as He.
      destruct (request_start _ _ _ _ _) as [s1 [o|e]]; simpl in *; [|by apply He].
      split_and!; [done|lia|rewrite length_app; simpl; lia|]. intros [?|?]; [done|congruence]. }
  destruct (dispatch_one plan id caller t p st) as [st1|e]; [|done]. destruct H1 as (Hw1 & Hi1 & Hd1 & Hr1).
  specialize (IH st1 Hw1 Ht Hi1). destruct (dispatch_starts _ l st1) as [st2|e]; [|done].
  destruct IH as (Hw2 & Hd2 & Hr2). rewrite dependencies_in_cons. split_and!; [done|lia|].
  intros [?|[E|?]%elem_of_cons]; apply Hr2; [left; auto|left; auto|by right].
Qed.

Lemma allocated_length next count t next' ids :
  allocate_batch next count t = (next', Ok ids) → List.length ids = count ∧ next' = (next + Z.of_nat count)%Z.
Proof.
  unfold allocate_batch. destruct (Nat.eqb_spec count 0) as [->|]; [intros [= <- <-]; split; [done|lia]|].
  destruct (u64_checked_add _ _); [|done]. destruct (seeds t next count) as [l|] eqn:E; [|done].
  intros [= <- <-]. split; [|done]. revert next l E. clear. induction count as [|c IH]; simpl; intros n0 l0; [by intros [= <-]|].
  destruct (from_seed t n0); [|done]. destruct (seeds t (n0 + 1) c) eqn:Es; [|done]. intros [= <-]. simpl. f_equal. by eapply IH.
Qed.

Lemma start_dispatch_spec `{CalendarSyntax} services service source cause plan id caller t s ids :
  plan_start services service source cause = Some (Ok plan) → store_wf s → (0 ≤ t)%Z →
  let '(s', ids', r) := dispatch_on_demand_start_plan plan id caller t s ids in
  store_wf s' ∧
  match r with
  | Err e => s' = s ∧ ids' = ids ∧ ((∃ a, e = StartIdAllocation a) ∨ ∃ a, e = StartOperationStore a)
  | Ok d =>
      d.(osd_plan) = plan ∧
      List.length d.(osd_dependency_operations) = pred (List.length plan.(osp_starts)) ∧
      ids' = (ids + Z.of_nat (pred (List.length plan.(osp_starts))))%Z
  end.
Proof.
  intros Ep Hwf Ht. destruct (plan_start_spec services service source cause) as (r & Er & Hr).
  rewrite Ep in Er. injection Er as <-. destruct Hr as (Hreq & _ & _ & Hstarts).
  assert (dependency_start_count plan = pred (List.length plan.(osp_starts)) ∧
    (plan.(osp_starts) ≠ [] → service ∈ map pst_service plan.(osp_starts))) as [Hcount Hin].
  { unfold dependency_start_count. rewrite Hreq. destruct Hstarts as [[_ ->]|[_ [Hn Hs _ _ _ _]]]; [done|]. split; [|done].
    clear - Hn Hs. induction plan.(osp_starts) as [|p l IH]; simpl in *; [done|]. apply NoDup_cons in Hn as [Hp Hn].
    rewrite filter_cons. apply elem_of_cons in Hs as [->|Hs].
    - rewrite decide_False by tauto. clear - Hp. induction l as [|q l IH]; simpl; [done|].
      apply not_elem_of_cons in Hp as [? ?]. rewrite filter_cons, decide_True by congruence. simpl. f_equal. by apply IH.
    - rewrite decide_True; [|intros E; by rewrite E in Hp]. simpl. rewrite IH by done. destruct l; [by apply elem_of_nil in Hs|done]. }
  unfold dispatch_on_demand_start_plan.
  destruct (allocate_batch ids _ t) as [ids' [dep_ids|e]] eqn:Ea; [|by eauto 6].
  apply allocated_length in Ea as [Hlen ->]. rewrite Hcount in *.
  destruct (osp_starts plan) as [|p l] eqn:El.
  - destruct (osp_blocked plan) as [|b bs] eqn:Eb.
    { exfalso. destruct Hstarts as [[Hb _]|[_ [_ Hs _ _ _ _]]]; [by rewrite ?Eb in Hb; apply elem_of_nil in Hb|].
      rewrite ?El in Hs. by apply elem_of_nil in Hs. }
    unfold dispatch_blocked_requested_start. set (rq := {| rq_id := id |}).
    pose proof (request_operation_result rq s Hwf Ht) as H1. case_bool_decide as Hd.
    { rewrite H1. simpl. eauto 6. }
    destruct (request_operation rq s) as [s1 [o|e]]; simpl in *; [|by eauto 8]. destruct H1 as (Hw1 & _).
    case_bool_decide; [|by split].
    pose proof (end_operation_wf id (op_fail t (start_blocked_reason plan)) event_failed s1
      (op_fail_finishes _ _) (proj1 (proj2 events_report)) Hw1) as Hw2.
    unfold fail_operation. destruct (end_operation _ _ _ s1) as [s2 [ev|e]]; simpl in *; [done|eauto 8].
  - unfold dispatch_planned_starts. rewrite El.
    assert (dependencies_in plan.(osp_requested) (p :: l) = List.length l) as Hdep.
    { unfold dependency_start_count in Hcount. rewrite El in Hcount. exact Hcount. }
    pose proof (dispatch_starts_ok plan id caller t (p :: l) (dispatch_begin s dep_ids) Hwf Ht) as H1.
    destruct (dispatch_starts _ (p :: l) _) as [st|e].
    + destruct H1 as (Hw & Hd & Hq); [rewrite Hdep; by apply Nat.eq_le_incl|]. unfold finish_dispatch.
      destruct Hq as [o ->]; [right; rewrite Hreq; by apply Hin|]. simpl. split_and!; try done. rewrite Hd, Hdep. done.
    + destruct H1 as [a ->]; [rewrite Hdep; by apply Nat.eq_le_incl|]. eauto 8.
Qed.

(** What a dispatch from [s] and [ids] that ended in [s'], [ids'] and [r] has
    done: the whole plan, or nothing. *)
Definition dispatched_whole (plan : OnDemandStartPlan) (s : OperationStore) (ids : Z) (s' : OperationStore) (ids' : Z)
    (r : Result OnDemandStartDispatch OnDemandStartDispatchError) : Prop :=
  match r with
  | Err e => s' = s ∧ ids' = ids ∧ ((∃ a, e = StartIdAllocation a) ∨ ∃ a, e = StartOperationStore a)
  | Ok d =>
      d.(osd_plan) = plan ∧
      List.length d.(osd_dependency_operations) = pred (List.length plan.(osp_starts)) ∧
      ids' = (ids + Z.of_nat (pred (List.length plan.(osp_starts))))%Z
  end.

(** Dispatching a start plan is all or nothing. For any plan the planner
    made, and any store that satisfies the invariant, the store still does
    afterwards; a failure, which can only come from the identifiers or from the
    operation store, changes neither the store nor the sequence; a success has
    one dependency operation for each planned service but the requested one,
    and has used exactly that many identifiers. *)
Theorem start_dispatch_all_or_nothing `{CalendarSyntax} services service source cause plan id caller t s ids :
  plan_start services service source cause = Some (Ok plan) → store_wf s → (0 ≤ t)%Z →
  let '(s', ids', r) := dispatch_on_demand_start_plan plan id caller t s ids in
  store_wf s' ∧ dispatched_whole plan s ids s' ids' r.
Proof. apply start_dispatch_spec. Qed.

Definition start_example : ServiceTable :=
  map_imap (λ name definition, Some (new_entry name definition))
    (list_to_map [("web", {| (simple_system_boot "web" "/bin/web") with sd_requires := ["db"]; sd_wants := ["log"] |});
                  ("db", simple_system_boot "db" "/bin/db");
                  ("log", {| (simple_system_boot "log" "/bin/log") with sd_disabled := true |})]
       : gmap string ServiceDefinition).

Lemma start_dispatch_all_or_nothing_witness :
  ∃ plan d s', @plan_on_demand_start start_example any_calendar "web" = Some (Ok plan) ∧
    map pst_service plan.(osp_starts) = ["db"; "web"] ∧
    dispatch_on_demand_start_plan plan 7 None 1000000 op_store_new 3 = (s', 4, Ok d)%Z ∧
    store_wf s' ∧ List.length d.(osd_dependency_operations) = 1%nat.
Proof.
  destruct (@plan_on_demand_start start_example any_calendar "web") as [[plan|]|] eqn:E; [|by vm_compute in E..].
  assert (map pst_service plan.(osp_starts) = ["db"; "web"]) as Hp.
  { apply (f_equal (λ r, match r with Some (Ok p) => map pst_service p.(osp_starts) | _ => [] end)) in E.
    vm_compute in E. exact (eq_sym E). }
  pose proof (@start_dispatch_all_or_nothing any_calendar _ _ _ _ plan 7 None 1000000 op_store_new 3 E op_store_new_wf
    ltac:(lia)) as H.
  assert (List.length plan.(osp_starts) = 2%nat) as Hl by (by rewrite <-(length_map pst_service), Hp).
  unfold dispatched_whole in H. rewrite Hl in H. destruct (dispatch_on_demand_start_plan plan 7 None 1000000 op_store_new 3) as [[s' ids'] [d|e]] eqn:Ed.
  - destruct H as (Hw & Hd & Hn & ->). exists plan, d, s'. split_and!; [done|done|done|done|exact Hn].
  - exfalso. assert (is_ok (dispatch_on_demand_start_plan plan 7 None 1000000 op_store_new 3).2 = true) as Hok.
    { vm_compute in E. injection E as <-. vm_compute. reflexivity. }
    by rewrite Ed in Hok.
Defined.
