(* ===== verification/Lifecycle.v ===== *)
(** * Admission of lifecycle commands

    Models [src/src/control/lifecycle/]: the commands and their outcomes
    ([model.rs]), the table that says what a command comes to in a service
    state ([matrix.rs]), admission against the operation store
    ([admission.rs]), admission of a start with its dependencies
    ([dependency_admission.rs]) and the commands that only clear a state
    ([synchronous_clear.rs]). [None] is the fuel of the start planner running
    out. *)

From S2P Require Import Prelude RustStr ServiceRuntime ServiceDef StartOrder Ids Roles Calendar Restart.
From S2P Require Import Cgroup ServiceTable ServiceTableInv Graph OperationRecord OperationStore OperationInv StartPlan StartPlanSpec.
From Stdlib Require Import String.
Open Scope string_scope.
Open Scope list_scope.

(** ** Data ([model.rs]) *)

Inductive LifecycleCommand : Type := CmdStart | CmdStop | CmdRestart | CmdReload | CmdReset.

#[export] Instance LifecycleCommand_eq_dec : EqDecision LifecycleCommand.
Proof. solve_decision. Defined.

Definition operation_type (self : LifecycleCommand) : OperationType :=
  match self with
  | CmdStart => OpStart
  | CmdStop => OpStop
  | CmdRestart => OpRestart
  | CmdReload => OpReload
  | CmdReset => OpReset
  end.

Record LifecycleCommandRequest : Type := {
  lr_id : OperationId;
  lr_command : LifecycleCommand;
  lr_service : string;
  lr_caller : option TokenSummary;
  lr_created_at_ns : Z;
}.

Record ServiceStatusSnapshot : Type := {
  sn_service : string;
  sn_state : ServiceState;
  sn_cause : option TransitionCause;
  sn_generation : Z;
  sn_definition_removed : bool;
}.

Record SynchronousClearOutcome : Type := {
  sc_request : OperationRequestOutcome;
  sc_started : OperationEvent;
  sc_service_transition : ServiceTableTransition;
  sc_completed : OperationEvent;
}.

Inductive LifecycleCommandOutcome : Type :=
| OperationAccepted (outcome : OperationRequestOutcome)
| OnDemandStart (dispatch : OnDemandStartDispatch)
| OutcomeAlready (status : ServiceStatusSnapshot)
| OutcomeNoop (status : ServiceStatusSnapshot)
| SynchronousClear (outcome : SynchronousClearOutcome).

Inductive LifecycleCommandError : Type :=
| LcUnknownService (service : string)
| LcDefinitionRemoved (service : string)
| LcInvalidState (service : string) (command : LifecycleCommand) (state : ServiceState)
| LcExpectedMerge (service : string) (command : LifecycleCommand)
| LcExpectedQueue (service : string) (command : LifecycleCommand)
| LcStartPlan (error : OnDemandStartPlanError)
| LcStartDispatch (error : OnDemandStartDispatchError)
| LcOperationStore (error : OperationStoreError)
| LcServiceTable (error : ServiceTableError).

(** ** The table ([matrix.rs]) *)

Inductive OperationExpectation : Type :=
| ExpectAny | ExpectDeferredStart | ExpectDeferredRestart | ExpectMerge | ExpectQueue.

#[export] Instance OperationExpectation_eq_dec : EqDecision OperationExpectation.
Proof. solve_decision. Defined.

Inductive CommandAdmission : Type :=
| AdmitOperation (expectation : OperationExpectation)
| AdmitSynchronousClear (cause : TransitionCause) (result : string)
| AdmitAlready
| AdmitNoop
| AdmitInvalid.

Definition classify_start (state : ServiceState) : CommandAdmission :=
  match state with
  | StInactive | StCompleted | StFailed | StSkipped => AdmitOperation ExpectAny
  | StStarting => AdmitOperation ExpectMerge
  | StBackoff => AdmitOperation ExpectDeferredStart
  | StActive | StReloading => AdmitAlready
  | StStopping => AdmitOperation ExpectQueue
  | StAbandoned => AdmitInvalid
  end.

Definition classify_stop (state : ServiceState) : CommandAdmission :=
  match state with
  | StInactive | StFailed | StSkipped => AdmitNoop
  | StStarting | StActive | StReloading => AdmitOperation ExpectAny
  | StStopping => AdmitOperation ExpectMerge
  | StCompleted => AdmitSynchronousClear TcExplicitStop "inactive"
  | StBackoff => AdmitSynchronousClear TcExplicitStop "inactive"
  | StAbandoned => AdmitInvalid
  end.

Definition classify_restart (state : ServiceState) : CommandAdmission :=
  match state with
  | StInactive | StActive | StReloading | StCompleted | StFailed | StSkipped => AdmitOperation ExpectAny
  | StBackoff => AdmitOperation ExpectDeferredRestart
  | StStarting | StStopping => AdmitOperation ExpectQueue
  | StAbandoned => AdmitInvalid
  end.

Definition classify_reload (state : ServiceState) : CommandAdmission :=
  match state with
  | StActive => AdmitOperation ExpectAny
  | StReloading => AdmitOperation ExpectMerge
  | StInactive | StStarting | StStopping | StCompleted | StBackoff | StFailed | StAbandoned | StSkipped =>
      AdmitInvalid
  end.

Definition classify_reset (state : ServiceState) : CommandAdmission :=
  match state with
  | StInactive => AdmitNoop
  | StFailed | StAbandoned | StSkipped => AdmitSynchronousClear TcExplicitReset "inactive"
  | StStarting | StActive | StReloading | StStopping | StCompleted | StBackoff => AdmitInvalid
  end.

Definition classify (command : LifecycleCommand) (state : ServiceState) : CommandAdmission :=
  match command with
  | CmdStart => classify_start state
  | CmdStop => classify_stop state
  | CmdRestart => classify_restart state
  | CmdReload => classify_reload state
  | CmdReset => classify_reset state
  end.

Definition start_is_already_satisfied (state : ServiceState) : bool :=
  match classify_start state with AdmitAlready => true | _ => false end.

Inductive Admission : Type := Acts | Already | Nothing | Refused.

Definition admission (command : LifecycleCommand) (state : ServiceState) : Admission :=
  match classify command state with
  | AdmitOperation _ | AdmitSynchronousClear _ _ => Acts
  | AdmitAlready => Already
  | AdmitNoop => Nothing
  | AdmitInvalid => Refused
  end.

(** ** Admission ([admission.rs]) *)

Definition status_for (services : ServiceTable) (service : string)
    : Result ServiceStatusSnapshot LifecycleCommandError :=
  let? entry := ok_or (services !! service) (LcUnknownService service) in
  Ok {| sn_service := service;
        sn_state := entry.(en_runtime).(rt_state);
        sn_cause := entry.(en_runtime).(rt_cause);
        sn_generation := entry.(en_runtime).(rt_generation);
        sn_definition_removed := entry.(en_definition_removed) |}.

Definition rejects_definition_removed (command : LifecycleCommand) : bool :=
  match command with CmdStart | CmdRestart | CmdReload => true | _ => false end.

Definition operation_request (request : LifecycleCommandRequest) : OperationRequest := {|
  rq_id := request.(lr_id);
  rq_operation_type := operation_type request.(lr_command);
  rq_service := request.(lr_service);
  rq_source := SrcAdmin;
  rq_caller := request.(lr_caller);
  rq_created_at_ns := request.(lr_created_at_ns);
|}.

Definition deferred_restart_to_merge_into (operations : OperationStore) (service : string)
    (expectation : OperationExpectation) : option OperationId :=
  if bool_decide (expectation ≠ ExpectDeferredRestart) then None
  else
    existing ← current_for_service operations service;
    if bool_decide (existing.(or_operation_type) = OpRestart) && bool_decide (existing.(or_state) = OsPending)
    then Some existing.(or_id) else None.

Definition validate_expectation (decision : OperationConflictDecision) (expectation : OperationExpectation)
    (service : string) (command : LifecycleCommand) : Result unit LifecycleCommandError :=
  match expectation with
  | ExpectAny => Ok tt
  | ExpectDeferredStart =>
      match decision with
      | CreateNew | MergeIntoExisting _ => Ok tt
      | _ => Err (LcExpectedMerge service command)
      end
  | ExpectDeferredRestart =>
      match decision with
      | CreateNew | CancelExistingThenQueue _ | MergeIntoExisting _ => Ok tt
      | _ => Err (LcExpectedMerge service command)
      end
  | ExpectMerge =>
      let abort_for_stop := bool_decide (command = CmdStop) &&
        match decision with AbortExistingThenCreate _ => true | _ => false end in
      if abort_for_stop || match decision with MergeIntoExisting _ => true | _ => false end
      then Ok tt else Err (LcExpectedMerge service command)
  | ExpectQueue =>
      let merge_into_restart := bool_decide (command = CmdStart) &&
        match decision with MergeIntoExisting _ => true | _ => false end in
      if merge_into_restart ||
         match decision with QueueNew | CancelExistingThenQueue _ => true | _ => false end
      then Ok tt else Err (LcExpectedQueue service command)
  end.

(** The clone of the store is assigned only on success. *)
Definition admit_operation (request : LifecycleCommandRequest) (expectation : OperationExpectation)
    (operations : OperationStore) : OperationStore * Result LifecycleCommandOutcome LifecycleCommandError :=
  let command := request.(lr_command) in
  let service := request.(lr_service) in
  let '(next_operations, outcome) :=
    match deferred_restart_to_merge_into operations service expectation with
    | Some existing_id => merge_request_into (operation_request request) existing_id operations
    | None => request_operation (operation_request request) operations
    end in
  match (let? outcome := map_err LcOperationStore outcome in
         let? _ := validate_expectation outcome.(ro_decision) expectation service command in
         Ok outcome) with
  | Err error => (operations, Err error)
  | Ok outcome => (next_operations, Ok (OperationAccepted outcome))
  end.

(** ** Clearing a state ([synchronous_clear.rs]) *)

Definition AdmissionState : Type := ServiceTable * OperationStore.

Definition admit_synchronous_clear (request : LifecycleCommandRequest) (cause : TransitionCause)
    (result : string) (self : AdmissionState)
    : AdmissionState * Result LifecycleCommandOutcome LifecycleCommandError :=
  let '(services, operations) := self in
  let operation := operation_request request in
  let id := operation.(rq_id) in
  let service := operation.(rq_service) in
  let created_at_ns := operation.(rq_created_at_ns) in
  match request_operation operation operations with
  | (_, Err error) => (self, Err (LcOperationStore error))
  | (operations, Ok requested) =>
      match start_operation id created_at_ns operations with
      | (_, Err error) => (self, Err (LcOperationStore error))
      | (operations, Ok started) =>
          match transition_service service {| st_to := StInactive; st_cause := cause |} services with
          | (_, Err error) => (self, Err (LcServiceTable error))
          | (services, Ok service_transition) =>
              match complete_operation id created_at_ns result operations with
              | (_, Err error) => (self, Err (LcOperationStore error))
              | (operations, Ok completed) =>
                  (services, operations,
                   Ok (SynchronousClear {| sc_request := requested; sc_started := started;
                         sc_service_transition := service_transition; sc_completed := completed |}))
              end
          end
      end
  end.

Definition admit_lifecycle_command (request : LifecycleCommandRequest) (self : AdmissionState)
    : AdmissionState * Result LifecycleCommandOutcome LifecycleCommandError :=
  let '(services, operations) := self in
  match status_for services request.(lr_service) with
  | Err error => (self, Err error)
  | Ok status =>
      if status.(sn_definition_removed) && rejects_definition_removed request.(lr_command)
      then (self, Err (LcDefinitionRemoved request.(lr_service)))
      else
        match classify request.(lr_command) status.(sn_state) with
        | AdmitAlready => (self, Ok (OutcomeAlready status))
        | AdmitNoop => (self, Ok (OutcomeNoop status))
        | AdmitInvalid =>
            (self, Err (LcInvalidState request.(lr_service) request.(lr_command) status.(sn_state)))
        | AdmitOperation expectation =>
            let '(operations, outcome) := admit_operation request expectation operations in
            (services, operations, outcome)
        | AdmitSynchronousClear cause result => admit_synchronous_clear request cause result self
        end
  end.

(** ** Starts with their dependencies ([dependency_admission.rs]) *)

Definition should_plan_on_demand_start (command : LifecycleCommand) (expectation : OperationExpectation)
    (state : ServiceState) : bool :=
  if bool_decide (expectation ≠ ExpectAny) then false
  else
    match command with
    | CmdStart => true
    | CmdRestart => match state with StInactive | StCompleted | StFailed | StSkipped => true | _ => false end
    | _ => false
    end.

Section DependencyAdmission.
Context `{CalendarSyntax}.

Definition admit_on_demand_start (request : LifecycleCommandRequest) (services : ServiceTable)
    (operations : OperationStore) (operation_ids : Z)
    : option (StartResult LifecycleCommandOutcome LifecycleCommandError) :=
  plan ← plan_on_demand_start services request.(lr_service);
  Some match plan with
       | Err error => (operations, operation_ids, Err (LcStartPlan error))
       | Ok plan =>
           let '(operations, operation_ids, dispatch) :=
             dispatch_on_demand_start_plan plan request.(lr_id) request.(lr_caller)
               request.(lr_created_at_ns) operations operation_ids in
           (operations, operation_ids, map_ok OnDemandStart (map_err LcStartDispatch dispatch))
       end.

Definition admit_lifecycle_command_with_operation_ids (request : LifecycleCommandRequest)
    (self : AdmissionState) (operation_ids : Z)
    : option (AdmissionState * Z * Result LifecycleCommandOutcome LifecycleCommandError) :=
  let '(services, operations) := self in
  match status_for services request.(lr_service) with
  | Err error => Some (self, operation_ids, Err error)
  | Ok status =>
      if status.(sn_definition_removed) && rejects_definition_removed request.(lr_command)
      then Some (self, operation_ids, Err (LcDefinitionRemoved request.(lr_service)))
      else
        match classify request.(lr_command) status.(sn_state) with
        | AdmitAlready => Some (self, operation_ids, Ok (OutcomeAlready status))
        | AdmitNoop => Some (self, operation_ids, Ok (OutcomeNoop status))
        | AdmitInvalid =>
            Some (self, operation_ids,
              Err (LcInvalidState request.(lr_service) request.(lr_command) status.(sn_state)))
        | AdmitOperation expectation =>
            if should_plan_on_demand_start request.(lr_command) expectation status.(sn_state) then
              r ← admit_on_demand_start request services operations operation_ids;
              let '(operations, operation_ids, outcome) := r in
              Some (services, operations, operation_ids, outcome)
            else
              let '(operations, outcome) := admit_operation request expectation operations in
              Some (services, operations, operation_ids, outcome)
        | AdmitSynchronousClear cause result =>
            let '(self, outcome) := admit_synchronous_clear request cause result self in
            Some (self, operation_ids, outcome)
        end
  end.
End DependencyAdmission.

(** ** Every command is answered, and changes what it says *)

(** One result of admission: the state before, the state after, the answer. *)
Definition answered (request : LifecycleCommandRequest) (before : AdmissionState) (ids : Z)
    (after : AdmissionState) (ids' : Z) (r : Result LifecycleCommandOutcome LifecycleCommandError) : Prop :=
  let '(services, operations) := before in
  let '(services', operations') := after in
  match r with
  | Err _ | Ok (OutcomeAlready _) | Ok (OutcomeNoop _) =>
      services' = services ∧ operations' = operations ∧ ids' = ids
  | Ok (OperationAccepted o) =>
      services' = services ∧ ids' = ids ∧ o.(ro_stored_operation_id) = request.(lr_id) ∧
      is_Some (operations'.(op_records) !! request.(lr_id)) ∧
      ∃ live_record, operations'.(op_records) !! o.(ro_returned_operation_id) = Some live_record ∧ live live_record
  | Ok (OnDemandStart d) =>
      services' = services ∧ d.(osd_plan).(osp_requested) = request.(lr_service) ∧
      List.length d.(osd_dependency_operations) = pred (List.length d.(osd_plan).(osp_starts)) ∧
      ids' = (ids + Z.of_nat (List.length d.(osd_dependency_operations)))%Z
  | Ok (SynchronousClear o) =>
      ids' = ids ∧ (∀ other, other ≠ request.(lr_service) → services' !! other = services !! other) ∧
      match services' !! request.(lr_service) with
      | Some e => e.(en_runtime).(rt_state) = StInactive
      | None => o.(sc_service_transition).(tt_discarded_definition_removed) = true
      end ∧
      ∃ record, operations'.(op_records) !! request.(lr_id) = Some record ∧
        record.(or_state) = OsCompleted ∧ record.(or_result) = Some "inactive"
  end.

Section Admit.
Context (request : LifecycleCommandRequest) (services : ServiceTable) (operations : OperationStore) (ids : Z).
Context (Hs : table_wf services) (Ho : store_wf operations) (Ht : (0 ≤ request.(lr_created_at_ns))%Z).

Lemma request_accepted s' o :
  request_operation (operation_request request) operations = (s', Ok o) →
  store_wf s' ∧ o.(ro_stored_operation_id) = request.(lr_id) ∧ is_Some (s'.(op_records) !! request.(lr_id)) ∧
  ∃ r, s'.(op_records) !! o.(ro_returned_operation_id) = Some r ∧ live r.
Proof using Ho Ht.
  intros E. pose proof (request_operation_result (operation_request request) operations Ho Ht) as H.
  case_bool_decide; [by rewrite E in H|]. rewrite E in H. destruct H as (? & ? & ? & r & ? & ? & _). eauto 10.
Qed.

Lemma merge_accepted x s' o :
  merge_request_into (operation_request request) x operations = (s', Ok o) →
  store_wf s' ∧ o.(ro_stored_operation_id) = request.(lr_id) ∧ is_Some (s'.(op_records) !! request.(lr_id)) ∧
  ∃ r, s'.(op_records) !! o.(ro_returned_operation_id) = Some r ∧ live r.
Proof using Ho Ht.
  unfold merge_request_into, ensure_unused_id. case_bool_decide as Hn; [done|]. apply eq_None_not_Some in Hn.
  destruct (op_records operations !! x) as [r|] eqn:E; [|done].
  destruct (op_is_terminal r.(or_state)) eqn:El; [done|].
  destruct (merge_request_wf (operation_request request) operations Ho Hn Ht (MergeIntoExisting x) x)
    as (o' & Em & Hret & Hst & Hw). rewrite Em in *. intros [= <- <-]. simpl in *.
  rewrite Hret, Hst. split_and!; [done..| |].
  - rewrite lookup_insert_eq. eauto.
  - exists r. rewrite lookup_insert_ne by congruence. done.
Qed.

Lemma admit_operation_spec expectation :
  let '(operations', r) := admit_operation request expectation operations in
  store_wf operations' ∧ answered request (services, operations) ids (services, operations') ids r.
Proof using Ho Ht.
  unfold admit_operation.
  destruct (match deferred_restart_to_merge_into _ _ _ with Some _ => _ | None => _ end) as [s' [o|e]] eqn:E; [|done].
  assert (store_wf s' ∧ o.(ro_stored_operation_id) = request.(lr_id) ∧
    is_Some (s'.(op_records) !! request.(lr_id)) ∧
    ∃ r, s'.(op_records) !! o.(ro_returned_operation_id) = Some r ∧ live r) as (Hw & H)
    by (destruct (deferred_restart_to_merge_into _ _ _); eauto using request_accepted, merge_accepted).
  simpl. destruct (validate_expectation _ _ _ _); [|done]. by destruct H as (? & ? & ?).
Qed.

Lemma admit_synchronous_clear_spec cause :
  let '((services', operations'), r) := admit_synchronous_clear request cause "inactive" (services, operations) in
  table_wf services' ∧ store_wf operations' ∧
  answered request (services, operations) ids (services', operations') ids r.
Proof using Hs Ho Ht.
  unfold admit_synchronous_clear.
  destruct (request_operation (operation_request request) operations) as [s1 [o1|e]] eqn:E1; [|done].
  apply request_accepted in E1 as (Hw1 & _).
  destruct (start_operation _ _ s1) as [s2 [ev|e]] eqn:E2; [|done].
  pose proof (op_step_wf _ _ Hw1 (ostep_start s1 request.(lr_id) request.(lr_created_at_ns))) as Hw2.
  simpl in E2. rewrite E2 in Hw2. simpl in Hw2.
  destruct (transition_service _ _ services) as [services' [tr|e]] eqn:E3; [|done].
  pose proof (transition_service_wf request.(lr_service) {| st_to := StInactive; st_cause := cause |} _ Hs) as Hs'.
  simpl in E3. rewrite E3 in Hs'. simpl in Hs'.
  pose proof (end_operation_spec request.(lr_id) (op_complete request.(lr_created_at_ns) "inactive")
    event_completed s2 (op_complete_finishes _ _) (proj1 events_report) Hw2) as H4.
  unfold complete_operation. destruct (end_operation _ _ _ s2) as [s4 [ev4|e]]; [|done].
  destruct H4 as (Hw4 & r & r' & Er & _ & Estep & _ & _ & ->).
  split_and!; [done..|]. simpl.
  destruct (services !! request.(lr_service)) as [e|] eqn:Ee;
    [|by rewrite transition_service_unfold, Ee in E3].
  pose proof (transition_service_spec request.(lr_service) {| st_to := StInactive; st_cause := cause |} services e Ee) as H.
  rewrite E3 in H. destruct H as [Hother H]. split_and!; [done..| |].
  - destruct (is_allowed_transition _ _ _); [|by destruct H as [_ ?]].
    destruct H as (result & [= <-] & Hd & H).
    destruct (services' !! request.(lr_service)) as [e'|]; [by destruct H|]. by rewrite Hd.
  - exists r'. unfold remove_active. simpl. rewrite lookup_insert_eq. split; [done|].
    unfold op_complete, op_finish in Estep. destruct (_ && _); [done|].
    destruct (ensure_completed_at _ _); [|done]. by injection Estep as <-.
Qed.

Lemma admit_on_demand_start_spec `{CalendarSyntax} :
  ∃ operations' ids' r, admit_on_demand_start request services operations ids = Some (operations', ids', r) ∧
    store_wf operations' ∧ answered request (services, operations) ids (services, operations') ids' r.
Proof using Ho Ht.
  unfold admit_on_demand_start.
  destruct (plan_start_spec services request.(lr_service) SrcAdmin TcExplicitStart) as (p & Ep & Hp).
  unfold plan_on_demand_start, plan_queued_start. rewrite Ep. simpl.
  destruct p as [plan|e]; [|by do 3 eexists].
  pose proof (start_dispatch_spec _ _ _ _ plan request.(lr_id) request.(lr_caller) request.(lr_created_at_ns)
    operations ids Ep Ho Ht) as Hd.
  destruct (dispatch_on_demand_start_plan plan _ _ _ operations ids) as [[operations' ids'] [d|e]].
  - destruct Hd as (Hw & <- & Hn & ->). do 3 eexists. split; [done|]. split; [done|]. simpl.
    destruct Hp as (Hreq & _). rewrite Hn. done.
  - destruct Hd as (Hw & -> & -> & _). by do 3 eexists.
Qed.
End Admit.

(** What admission does, whatever the command. *)
Lemma admission_answers `{CalendarSyntax} request services operations ids :
  table_wf services → store_wf operations → (0 ≤ request.(lr_created_at_ns))%Z →
  ∃ services' operations' ids' r,
    admit_lifecycle_command_with_operation_ids request (services, operations) ids =
      Some (services', operations', ids', r) ∧
    table_wf services' ∧ store_wf operations' ∧
    answered request (services, operations) ids (services', operations') ids' r.
Proof.
  intros Hs Ho Ht. unfold admit_lifecycle_command_with_operation_ids.
  destruct (status_for services _) as [status|e]; [|by do 4 eexists].
  destruct (_ && rejects_definition_removed _); [by do 4 eexists|].
  destruct (classify _ _) as [expectation|cause result| | |] eqn:Ec; [| |by do 4 eexists..].
  - destruct (should_plan_on_demand_start _ _ _).
    + destruct (admit_on_demand_start_spec request services operations ids Ho Ht) as (o' & ids' & r & -> & Hw & Ha).
      simpl. by do 4 eexists.
    + pose proof (admit_operation_spec request services operations ids Ho Ht expectation) as Ha.
      destruct (admit_operation _ _ _) as [o' r]. by do 4 eexists.
  - assert (result = "inactive") as ->.
    { destruct request.(lr_command), status.(sn_state); simpl in Ec; congruence. }
    pose proof (admit_synchronous_clear_spec request services operations ids Hs Ho Ht cause) as Ha.
    destruct (admit_synchronous_clear _ _ _ _) as [[s' o'] r]. by do 4 eexists.
Qed.

(** Every lifecycle command gets an answer, and the answer says what
    changed. On a service table and an operation store that satisfy their
    invariants, admission of any command ends, both invariants hold afterwards,
    and: a refusal, an "already" and a "nothing to do" leave the table, the
    store and the identifier sequence exactly as they were; an accepted
    operation is stored under the request's identifier and answers with a live
    one; a start changes no service and has used one identifier for each
    dependency it starts; a command that clears a state leaves every other
    service alone, puts this one in Inactive (or discards it, when its
    definition was withdrawn, and says so) and has recorded a completed
    operation. *)
Theorem lifecycle_all_or_nothing `{CalendarSyntax} request services operations ids :
  table_wf services → store_wf operations → (0 ≤ request.(lr_created_at_ns))%Z →
  ∃ services' operations' ids' r,
    admit_lifecycle_command_with_operation_ids request (services, operations) ids =
      Some (services', operations', ids', r) ∧
    table_wf services' ∧ store_wf operations' ∧
    answered request (services, operations) ids (services', operations') ids' r.
Proof. apply admission_answers. Qed.

(** A table with one service in each of two states. *)
Definition lifecycle_example : ServiceTable :=
  let entry name state := {| (new_entry name (simple_system_boot name "/bin/x")) with
    en_runtime := {| (inactive name) with rt_state := state |} |} in
  list_to_map [("app", entry "app" StFailed); ("db", entry "db" StActive)].

Lemma lifecycle_example_wf : table_wf lifecycle_example.
Proof.
  apply map_Forall_insert_2; [|apply map_Forall_insert_2; [|apply map_Forall_empty]];
    (split; [done..|]; split; simpl; try done; try (by intros [? ?]); try (by intros ?? ?%elem_of_nil)).
Qed.

Definition example_command (command : LifecycleCommand) : LifecycleCommandRequest :=
  {| lr_id := 7; lr_command := command; lr_service := "app"; lr_caller := None; lr_created_at_ns := 1000000 |}.

Definition example_admission (command : LifecycleCommand) :=
  @admit_lifecycle_command_with_operation_ids any_calendar (example_command command)
    (lifecycle_example, op_store_new) 3.

Lemma lifecycle_all_or_nothing_witness :
  ∃ services' operations' ids' o,
    example_admission CmdReset = Some (services', operations', ids', Ok (SynchronousClear o)) ∧
    services' !! "db" = lifecycle_example !! "db" ∧ ids' = 3%Z.
Proof.
  destruct (@lifecycle_all_or_nothing any_calendar (example_command CmdReset) lifecycle_example op_store_new 3
    lifecycle_example_wf op_store_new_wf ltac:(simpl; lia)) as (s' & o' & ids' & r & E & _ & _ & Ha).
  assert (match example_admission CmdReset with Some (_, Ok (SynchronousClear _)) => true | _ => false end = true)
    as Hc by (vm_compute; reflexivity).
  unfold example_admission in *. rewrite E in *. destruct r as [[]|]; try discriminate Hc.
  simpl in Ha. destruct Ha as (-> & Hother & _). do 4 eexists. split; [done|]. split; [by apply Hother|done].
Defined.

(** ** The admission table and the transition table *)

(** What the runtime allows for each answer of the table. *)
Definition runtime_allows (command : LifecycleCommand) (state : ServiceState) : Prop :=
  let allowed := is_allowed_transition state in
  let never to := ∀ cause, allowed to cause = false in
  match classify command state with
  | AdmitSynchronousClear cause _ => (state = StAbandoned ∨ process_presence state = PpNone) ∧ allowed StInactive cause = true
  | AdmitAlready => satisfies_dependents state = true ∧ never StStarting
  | AdmitNoop => process_presence state = PpNone ∧ never StStopping
  | AdmitInvalid =>
      match command with
      | CmdStart => never StStarting
      | CmdStop => never StStopping ∧ allowed StInactive TcExplicitStop = false
      | CmdRestart => never StStarting ∧ never StStopping
      | CmdReload => never StReloading
      | CmdReset => allowed StInactive TcExplicitReset = false
      end
  | AdmitOperation expectation =>
      if should_plan_on_demand_start command expectation state then
        allowed StStarting TcExplicitStart = true ∨
        (allowed StInactive TcExplicitStart = true ∧ is_allowed_transition StInactive StStarting TcExplicitStart = true)
      else
        match expectation, command with
        | ExpectAny, (CmdStop | CmdRestart) => allowed StStopping TcExplicitStop = true
        | ExpectAny, _ => allowed StReloading TcExplicitReload = true
        | (ExpectDeferredStart | ExpectDeferredRestart), _ =>
            process_presence state = PpNone ∧ allowed StStarting TcRestartPolicy = true
        | ExpectMerge, CmdStart => state = StStarting
        | ExpectMerge, CmdStop => state = StStopping
        | ExpectMerge, _ => state = StReloading
        | ExpectQueue, _ => process_presence state = PpExpected ∨ process_presence state = PpOptional
        end
  end.

Lemma admission_allows command state : runtime_allows command state.
Proof. destruct command, state; unfold runtime_allows; simpl; try (split_and!); try intros []; auto; done. Qed.

(** The admission table agrees with the transition table. For each of the
    five commands in each of the ten states: a command admitted to act has the
    transition that begins it (a start from a resting state can enter Starting,
    from Skipped through Inactive; a stop or restart of a running service can
    enter Stopping; a deferred one waits in Backoff, which can only be left
    into Starting by the restart policy), a command that clears a state at once
    names a cause that is allowed to enter Inactive, and a command refused as
    invalid, already so, or empty has no transition it could have taken. *)
Theorem admission_agrees_with_transitions command state : runtime_allows command state.
Proof. apply admission_allows. Qed.

(** A command that clears a state works on an idle service. When the table
    has the service in a state such a command clears (Stop in Completed or
    Backoff, Reset in Failed, Abandoned or Skipped), no operation of the service
    is live and the request's identifier is new, the command succeeds, also for
    a service whose definition was withdrawn: it cannot be left parked. *)
Theorem idle_service_is_cleared request services operations entry cause result :
  services !! request.(lr_service) = Some entry →
  classify request.(lr_command) entry.(en_runtime).(rt_state) = AdmitSynchronousClear cause result →
  store_wf operations → (0 ≤ request.(lr_created_at_ns))%Z →
  operations.(op_records) !! request.(lr_id) = None →
  active_for_service operations request.(lr_service) = [] →
  ∃ after o, admit_lifecycle_command request (services, operations) = (after, Ok (SynchronousClear o)).
Proof.
  intros Ee Ec Hw Ht Hn Hq. pose proof (admission_allows request.(lr_command) entry.(en_runtime).(rt_state)) as Ha.
  unfold runtime_allows in Ha. rewrite Ec in Ha. destruct Ha as [_ Ha].
  assert (rejects_definition_removed request.(lr_command) = false) as Hrej
    by (destruct request.(lr_command), entry.(en_runtime).(rt_state); simpl in *; congruence).
  unfold admit_lifecycle_command, status_for. rewrite Ee. simpl. rewrite Hrej, andb_false_r, Ec.
  unfold admit_synchronous_clear.
  destruct (quiet_request (operation_request request) operations Hw Hn Hq Ht) as (s1 & ev & -> & _ & Hr & _).
  unfold start_operation. simpl. rewrite Hr, lookup_insert_eq. unfold op_start, ensure_state. simpl. rewrite Z.ltb_irrefl.
  pose proof (transition_service_spec request.(lr_service) {| st_to := StInactive; st_cause := cause |} services entry Ee) as Hs.
  destruct (transition_service _ _ services) as [services' tr]. destruct Hs as [_ Hs]. simpl in Hs. rewrite Ha in Hs.
  destruct Hs as (x & -> & _). unfold complete_operation, end_operation. simpl. rewrite lookup_insert_eq.
  unfold op_complete, op_finish, ensure_completed_at. simpl. rewrite Z.ltb_irrefl. simpl. eauto.
Qed.

Lemma idle_service_is_cleared_witness :
  ∃ after o, admit_lifecycle_command (example_command CmdReset) (lifecycle_example, op_store_new) =
    (after, Ok (SynchronousClear o)).
Proof.
  destruct (lifecycle_example !! "app") as [e|] eqn:E; [|by vm_compute in E].
  apply (idle_service_is_cleared (example_command CmdReset) lifecycle_example op_store_new e TcExplicitReset "inactive" E);
    [|apply op_store_new_wf|simpl; lia|done|done].
  vm_compute in E. by injection E as <-.
Defined.

(** A restart of a service that is not running is recorded as a start. The
    comment on [should_plan_on_demand_start] quotes the rule that the operation
    type remains Restart; the dispatch of the start plan stores the request as
    a Start. *)
Theorem restart_at_rest_is_recorded_as_start :
  ∃ after ids d record,
    example_admission CmdRestart = Some (after, ids, Ok (OnDemandStart d)) ∧
    after.2.(op_records) !! (example_command CmdRestart).(lr_id) = Some record ∧
    operation_type CmdRestart = OpRestart ∧ record.(or_operation_type) = OpStart.
Proof.
  destruct (example_admission CmdRestart) as [[[after ids] r]|] eqn:E; [|by vm_compute in E].
  vm_compute in E. injection E as <- <- <-. do 4 eexists. split; [reflexivity|]. split; [reflexivity|]. done.
Qed.
