(* ===== verification/BootGraph.v ===== *)
(** * The boot graph

    Models [src/src/boot/phase2/graph/] and the data of
    [src/src/boot/phase2/model.rs]: which services a boot includes, which of
    them are blocked and why, the order the others start in, and the findings
    that turn a Full boot into a Safe one.

    Three recursions are bounded by fuel. [include_closure] recurses on a
    defined service it has just included, so one level more than there are
    definitions is enough; a pass of [propagate_blocked] that changes something
    blocks one more included service; the cycle loops remove the services of a
    cycle from a finite set. [None] is running out of fuel, which
    [build_phase2_boot_graph_spec] shows does not happen. *)

From S2P Require Import Prelude RustStr ServiceRuntime ServiceDef StartOrder Ids Roles Calendar Graph.
From Stdlib Require Import String.
Open Scope string_scope.
Open Scope list_scope.

(** ** Boot modes ([boot/mod.rs]) *)

Inductive BootMode : Type := ModeFull | ModeSafe | ModeRecovery.

#[export] Instance BootMode_eq_dec : EqDecision BootMode.
Proof. solve_decision. Defined.

Definition boot_mode_wire (self : BootMode) : string :=
  match self with ModeFull => "full" | ModeSafe => "safe" | ModeRecovery => "recovery" end.

Inductive BootModeReason : Type := ReasonNormal | ReasonRequested | ReasonSafeModeDowngrade.

Definition boot_mode_reason_wire (self : BootModeReason) : string :=
  match self with
  | ReasonNormal => "normal"
  | ReasonRequested => "requested"
  | ReasonSafeModeDowngrade => "safe_mode_downgrade"
  end.

(** ** The model of a plan ([model.rs], [graph/model.rs]) *)

Inductive StartCause : Type := ExplicitStart | DependencyStart.

Inductive BlockedReason : Type :=
| HardDependencyUnavailable (target : string) (kind : ServiceDependencyKind)
| HardDependencyBlocked (target : string) (kind : ServiceDependencyKind)
| CycleDetected (services : list string)
| ConflictingBootService (target : string)
| ValidationError (message : string).

#[export] Instance ServiceDependencyKind_eq_dec : EqDecision ServiceDependencyKind.
Proof. solve_decision. Defined.
#[export] Instance BlockedReason_eq_dec : EqDecision BlockedReason.
Proof. solve_decision. Defined.

Definition blocked_transition_cause (self : BlockedReason) : TransitionCause :=
  match self with
  | HardDependencyUnavailable _ _ | HardDependencyBlocked _ _ => TcDependencyFailure
  | CycleDetected _ => TcCycleDetected
  | ConflictingBootService _ | ValidationError _ => TcValidationError
  end.

Inductive SafeModeDowngrade : Type :=
| CriticalCycle (services : list string)
| CriticalBootConflict (service target : string).

Definition safe_mode_downgrade_text (self : SafeModeDowngrade) : string :=
  match self with
  | CriticalCycle services => "critical service in dependency cycle " +:+ str_join " -> " services
  | CriticalBootConflict service target =>
      "critical boot-triggered services " +:+ service +:+ " and " +:+ target +:+ " conflict"
  end.

Inductive Phase2BootPlanError : Type :=
| InvalidMaxParallelStarts
| PlanDuplicateService (service : string)
| MissingServiceDefinition (service : string)
| PlanCycle (services : list string)
| OperationIdAllocation (error : IdAllocationError)
| JobIdAllocation (error : IdAllocationError).

Record StartableService : Type := {
  ss_name : string;
  ss_cause : StartCause;
  ss_identity : string;
}.

Record BlockedServiceDraft : Type := {
  bd_service : string;
  bd_reason : BlockedReason;
  bd_additional_reasons : list BlockedReason;
}.

Record Phase2BootGraph : Type := {
  bg_ordered_startable : list StartableService;
  bg_blocked : list BlockedServiceDraft;
}.

(** ** Recording a finding ([blocked.rs]) *)

Definition failed_cause_precedence (reason : BlockedReason) : Z :=
  match reason with
  | CycleDetected _ => 3
  | ConflictingBootService _ | ValidationError _ => 2
  | HardDependencyUnavailable _ _ | HardDependencyBlocked _ _ => 1
  end.

(** The branch for a service that already has a finding. *)
Definition add_reason (existing : BlockedServiceDraft) (reason : BlockedReason) : BlockedServiceDraft :=
  if bool_decide (existing.(bd_reason) = reason) ||
     bool_decide (reason ∈ existing.(bd_additional_reasons)) then existing
  else if (failed_cause_precedence existing.(bd_reason) <? failed_cause_precedence reason)%Z then
    {| existing with bd_reason := reason;
         bd_additional_reasons := existing.(bd_additional_reasons) ++ [existing.(bd_reason)] |}
  else {| existing with bd_additional_reasons := existing.(bd_additional_reasons) ++ [reason] |}.

Definition block_service (service : string) (reason : BlockedReason)
    (blocked : gmap string BlockedServiceDraft) : gmap string BlockedServiceDraft :=
  match blocked !! service with
  | None =>
      <[service := {| bd_service := service; bd_reason := reason; bd_additional_reasons := [] |}]> blocked
  | Some existing => <[service := add_reason existing reason]> blocked
  end.

(** ** Services by name ([service.rs]) *)

Fixpoint index_services (services : list ServiceDefinition) (by_name : gmap string ServiceDefinition)
    : Result (gmap string ServiceDefinition) Phase2BootPlanError :=
  match services with
  | [] => Ok by_name
  | service :: services =>
      match by_name !! service.(sd_name) with
      | Some _ => Err (PlanDuplicateService service.(sd_name))
      | None => index_services services (<[service.(sd_name) := service]> by_name)
      end
  end.

Definition service_map (services : list ServiceDefinition)
    : Result (gmap string ServiceDefinition) Phase2BootPlanError := index_services services ∅.

Definition startable_service (service : string) (by_name : gmap string ServiceDefinition)
    : Result StartableService Phase2BootPlanError :=
  let? definition := ok_or (by_name !! service) (MissingServiceDefinition service) in
  Ok {| ss_name := service;
        ss_cause := if has_boot_trigger definition then ExplicitStart else DependencyStart;
        ss_identity := definition.(sd_identity) |}.

(** ** The boot closure ([closure.rs]) *)

Definition dependency_eligible (mode : BootMode) (definition : ServiceDefinition) : bool :=
  bool_decide (mode = ModeFull) ||
  (has_boot_trigger definition &&
   (definition.(sd_safe_mode) || bool_decide (definition.(sd_error_control) = EcCritical))).

Definition boot_roots (services : list ServiceDefinition) (mode : BootMode) : list string :=
  map sd_name
    (filter (λ service, has_boot_trigger service = true)
      (filter (λ service, bool_decide (mode = ModeFull) || dependency_eligible mode service = true)
        (filter (λ service, service.(sd_disabled) = false) services))).

(** [included] and [blocked] while the closure is collected. *)
Record BootClosure : Type := {
  bc_included : gset string;
  bc_blocked : gmap string BlockedServiceDraft;
}.

Section Closure.
Context (mode : BootMode) (by_name : gmap string ServiceDefinition).

(** The loop body over the hard dependencies of [definition]. *)
Definition include_hard (include : string → BootClosure → option BootClosure)
    (definition : ServiceDefinition) (dependency : ServiceDependency) (st : BootClosure)
    : option BootClosure :=
  let block := {| st with bc_blocked :=
    block_service definition.(sd_name)
      (HardDependencyUnavailable dependency.(dep_target) dependency.(dep_kind)) st.(bc_blocked) |} in
  match by_name !! dependency.(dep_target) with
  | Some target_definition =>
      if negb target_definition.(sd_disabled) && dependency_eligible mode target_definition
      then include target_definition.(sd_name) st
      else if negb target_definition.(sd_disabled) && bool_decide (mode ≠ ModeFull) then Some st
      else Some block
  | None => Some block
  end.

(** The loop body over [definition.wants]. *)
Definition include_want (include : string → BootClosure → option BootClosure)
    (declared : string) (st : BootClosure) : option BootClosure :=
  match by_name !! (split_target declared).1 with
  | Some target_definition =>
      if negb target_definition.(sd_disabled) && dependency_eligible mode target_definition
      then include target_definition.(sd_name) st
      else Some st
  | None => Some st
  end.

Fixpoint include_closure (fuel : nat) (service : string) (st : BootClosure) : option BootClosure :=
  match fuel with
  | O => None
  | S fuel =>
      if bool_decide (service ∈ st.(bc_included)) then Some st
      else
        let st := {| st with bc_included := set_insert service st.(bc_included) |} in
        match by_name !! service with
        | None => Some st
        | Some definition =>
            st ← try_fold (include_hard (include_closure fuel) definition) (hard_dependencies definition) st;
            try_fold (include_want (include_closure fuel)) definition.(sd_wants) st
        end
  end.

(** The inner loop of [propagate_blocked], with its [break]: the first blocked
    hard dependency. *)
Definition first_blocked_dependency (definition : ServiceDefinition)
    (blocked : gmap string BlockedServiceDraft) : option ServiceDependency :=
  find_first (λ dependency, bool_decide (is_Some (blocked !! dependency.(dep_target))))
    (hard_dependencies definition).

Definition propagate_one (st : gmap string BlockedServiceDraft * bool) (service : string)
    : gmap string BlockedServiceDraft * bool :=
  let '(blocked, changed) := st in
  match blocked !! service with
  | Some _ => st
  | None =>
      match by_name !! service with
      | None => st
      | Some definition =>
          match first_blocked_dependency definition blocked with
          | None => st
          | Some dependency =>
              (block_service definition.(sd_name)
                 (HardDependencyBlocked dependency.(dep_target) dependency.(dep_kind)) blocked, true)
          end
      end
  end.

Fixpoint propagate_passes (fuel : nat) (included : gset string)
    (blocked : gmap string BlockedServiceDraft) : option (gmap string BlockedServiceDraft) :=
  match fuel with
  | O => None
  | S fuel =>
      let '(blocked, changed) := foldl propagate_one (blocked, false) (btree_elements included) in
      if changed then propagate_passes fuel included blocked else Some blocked
  end.

Definition propagate_blocked (included : gset string) (blocked : gmap string BlockedServiceDraft)
    : option (gmap string BlockedServiceDraft) :=
  propagate_passes (S (size included)) included blocked.

Definition collect_boot_closure (services : list ServiceDefinition) : option BootClosure :=
  st ← try_fold (include_closure (S (size by_name))) (boot_roots services mode)
         {| bc_included := ∅; bc_blocked := ∅ |};
  blocked ← propagate_blocked st.(bc_included) st.(bc_blocked);
  Some {| bc_included := st.(bc_included); bc_blocked := blocked |}.
End Closure.

(** ** Conflicts ([conflict.rs]) *)

Section Conflicts.
Context (by_name : gmap string ServiceDefinition).

(** [sort] and [dedup] leave the distinct names in order. *)
Definition sort_dedup (names : list string) : list string :=
  btree_elements (list_to_set names : gset string).

Definition symmetric_conflicts (definition : ServiceDefinition) : list string :=
  sort_dedup (definition.(sd_conflicts) ++
    map sd_name (filter (λ other, other.(sd_name) ≠ definition.(sd_name) ∧
                                  definition.(sd_name) ∈ other.(sd_conflicts))
                   (btree_values by_name))).

Definition is_critical (definition : ServiceDefinition) : bool :=
  bool_decide (definition.(sd_error_control) = EcCritical).

(** An included, defined, boot-triggered conflict target. *)
Definition boot_conflict_target (included : gset string) (target : string) : bool :=
  bool_decide (target ∈ included) && is_some_and (by_name !! target) has_boot_trigger.

Definition block_conflict (included : gset string) (service : string)
    (blocked : gmap string BlockedServiceDraft) (target : string) : gmap string BlockedServiceDraft :=
  if boot_conflict_target included target then
    block_service target (ConflictingBootService service)
      (block_service service (ConflictingBootService target) blocked)
  else blocked.

Definition block_conflicts_of (included : gset string) (blocked : gmap string BlockedServiceDraft)
    (service : string) : gmap string BlockedServiceDraft :=
  match by_name !! service with
  | None => blocked
  | Some definition =>
      if has_boot_trigger definition
      then foldl (block_conflict included service) blocked (symmetric_conflicts definition)
      else blocked
  end.

Definition block_unresolvable_conflicts (included : gset string)
    (blocked : gmap string BlockedServiceDraft) : gmap string BlockedServiceDraft :=
  foldl (block_conflicts_of included) blocked (btree_elements included).

Definition critical_conflict_pairs (included : gset string) (service : string)
    : list (string * string) :=
  match by_name !! service with
  | None => []
  | Some definition =>
      if has_boot_trigger definition && is_critical definition then
        map (ordered_pair definition.(sd_name))
          (filter (λ target, boot_conflict_target included target = true)
             (symmetric_conflicts definition))
      else []
  end.

Definition critical_boot_conflicts (included : gset string) : list (string * string) :=
  btree_elements (list_to_set (btree_elements included ≫= critical_conflict_pairs included)
                    : gset (string * string)).
End Conflicts.

(** ** Blocking what cannot start, and the order of the rest ([validation.rs]) *)

Section Validation.
Context `{CalendarSyntax} (by_name : gmap string ServiceDefinition).

Definition timer_message (schedule error : string) : string :=
  "Timer schedule " +:+ str_debug schedule +:+ " is invalid: " +:+ error.

Definition block_timer (definition : ServiceDefinition)
    (blocked : gmap string BlockedServiceDraft) (trigger : ServiceTrigger)
    : gmap string BlockedServiceDraft :=
  match trigger with
  | TriggerTimer schedule =>
      match schedule_error schedule with
      | Some error =>
          block_service definition.(sd_name)
            (ValidationError (timer_message schedule error)) blocked
      | None => blocked
      end
  | _ => blocked
  end.

Definition block_invalid_timer_schedules (blocked : gmap string BlockedServiceDraft)
    : gmap string BlockedServiceDraft :=
  foldl (λ blocked definition, foldl (block_timer definition) blocked definition.(sd_triggers))
    blocked (btree_values by_name).

Definition service_type_debug (service_type : ServiceType) : string :=
  match service_type with TypeSimple => "Simple" | TypeOneshot => "Oneshot" end.

Definition health_type_message (definition : ServiceDefinition) : string :=
  "HealthCheck declared on a " +:+ service_type_debug definition.(sd_service_type) +:+
  " service; health checks are scheduled for Simple services only".

Definition health_window_message (definition : ServiceDefinition) : string :=
  "HealthCheck timing violates RestartWindow: retries " +:+
  u64_to_string definition.(sd_health_check_retries) +:+ " * interval " +:+
  u64_to_string definition.(sd_health_check_interval_secs) +:+ " >= window " +:+
  u64_to_string definition.(sd_restart_window_secs).

Definition block_health_check (blocked : gmap string BlockedServiceDraft) (service : string)
    : gmap string BlockedServiceDraft :=
  match by_name !! service with
  | None => blocked
  | Some definition =>
      match definition.(sd_health_check) with
      | None => blocked
      | Some _ =>
          if bool_decide (definition.(sd_service_type) ≠ TypeSimple) then
            block_service service (ValidationError (health_type_message definition)) blocked
          else if (definition.(sd_restart_window_secs) <=?
                   u64_saturating_mul definition.(sd_health_check_retries)
                     definition.(sd_health_check_interval_secs))%Z then
            block_service service (ValidationError (health_window_message definition)) blocked
          else blocked
      end
  end.

Definition block_invalid_health_checks (included : gset string)
    (blocked : gmap string BlockedServiceDraft) : gmap string BlockedServiceDraft :=
  foldl block_health_check blocked (btree_elements included).

(** The loop over the services of a reported cycle. *)
Definition block_cycle (services : list string) (blocked : gmap string BlockedServiceDraft)
    : gmap string BlockedServiceDraft :=
  foldl (λ blocked service, block_service service (CycleDetected services) blocked) blocked services.

Definition remove_services (services : list string) (remaining : gset string) : gset string :=
  foldl (λ remaining service, remaining ∖ {[service]}) remaining services.

(** [while !remaining.is_empty()] and the early [return] both end it. *)
Fixpoint block_cycles_from (fuel : nat) (remaining : gset string)
    (blocked : gmap string BlockedServiceDraft) : option (gmap string BlockedServiceDraft) :=
  match fuel with
  | O => None
  | S fuel =>
      if bool_decide (remaining = ∅) then Some blocked
      else
        order ← boot_dependency_order remaining by_name;
        match order with
        | Ok _ => Some blocked
        | Err services =>
            block_cycles_from fuel (remove_services services remaining) (block_cycle services blocked)
        end
  end.

Definition block_dependency_cycles (included : gset string)
    (blocked : gmap string BlockedServiceDraft) : option (gmap string BlockedServiceDraft) :=
  block_cycles_from (S (size included)) included blocked.

Definition startable_services (included : gset string) (blocked : gmap string BlockedServiceDraft)
    : gset string :=
  filter (λ service, blocked !! service = None) included.

Fixpoint order_passes (fuel : nat) (included : gset string)
    (blocked : gmap string BlockedServiceDraft)
    : option (list string * gmap string BlockedServiceDraft) :=
  match fuel with
  | O => None
  | S fuel =>
      blocked ← propagate_blocked by_name included blocked;
      order ← boot_dependency_order (startable_services included blocked) by_name;
      match order with
      | Ok order => Some (order, blocked)
      | Err services => order_passes fuel included (block_cycle services blocked)
      end
  end.

Definition start_order_after_validation (included : gset string)
    (blocked : gmap string BlockedServiceDraft)
    : option (list string * gmap string BlockedServiceDraft) :=
  let blocked := block_invalid_timer_schedules blocked in
  let blocked := block_invalid_health_checks included blocked in
  blocked ← block_dependency_cycles included blocked;
  order_passes (S (size included)) included blocked.
End Validation.

(** ** The graph ([build.rs]) *)

Fixpoint startable_all (order : list string) (by_name : gmap string ServiceDefinition)
    : Result (list StartableService) Phase2BootPlanError :=
  match order with
  | [] => Ok []
  | service :: order =>
      let? startable := startable_service service by_name in
      let? rest := startable_all order by_name in
      Ok (startable :: rest)
  end.

Definition build_phase2_boot_graph `{CalendarSyntax} (mode : BootMode) (services : list ServiceDefinition)
    : option (Result Phase2BootGraph Phase2BootPlanError) :=
  match service_map services with
  | Err error => Some (Err error)
  | Ok by_name =>
      closure ← collect_boot_closure mode by_name services;
      let blocked := block_unresolvable_conflicts by_name closure.(bc_included) closure.(bc_blocked) in
      '(order, blocked) ← start_order_after_validation by_name closure.(bc_included) blocked;
      Some (let? ordered_startable := startable_all order by_name in
            Ok {| bg_ordered_startable := ordered_startable; bg_blocked := btree_values blocked |})
  end.

(** ** Downgrading to Safe mode ([safe_mode.rs]) *)

Definition remaining_order (remaining : gset string) (by_name : gmap string ServiceDefinition)
    : option (Result (list string) (list string)) :=
  dependency_start_order remaining (λ service,
    match by_name !! service with
    | Some definition => filter (.∈ remaining) (start_order_dependency_targets definition)
    | None => []
    end).

Fixpoint critical_cycles_from (fuel : nat) (remaining : gset string)
    (by_name : gmap string ServiceDefinition) (critical : list (list string))
    : option (list (list string)) :=
  match fuel with
  | O => None
  | S fuel =>
      if bool_decide (remaining = ∅) then Some critical
      else
        order ← remaining_order remaining by_name;
        match order with
        | Ok _ => Some critical
        | Err services =>
            critical_cycles_from fuel (remove_services services remaining) by_name
              (if existsb (λ service, is_some_and (by_name !! service) is_critical) services
               then critical ++ [services] else critical)
        end
  end.

Definition critical_cycles (included : gset string) (by_name : gmap string ServiceDefinition)
    : option (list (list string)) :=
  critical_cycles_from (S (size included)) included by_name [].

Definition safe_mode_downgrade_findings (services : list ServiceDefinition)
    : option (Result (list SafeModeDowngrade) Phase2BootPlanError) :=
  match service_map services with
  | Err error => Some (Err error)
  | Ok by_name =>
      closure ← collect_boot_closure ModeFull by_name services;
      cycles ← critical_cycles closure.(bc_included) by_name;
      Some (Ok (map (λ pair, CriticalBootConflict pair.1 pair.2)
                  (critical_boot_conflicts by_name closure.(bc_included))
                ++ map CriticalCycle cycles))
  end.
