(* ===== verification/BootGraphSpec.v ===== *)
(** * The boot graph is right

    What [BootGraph] computes, stated without its loops: the included services
    are the ones reachable from the boot roots, every recorded finding is true
    of its service and none is lost, what starts is exactly what is included
    and not blocked, and its order respects every dependency. *)

From S2P Require Import Prelude RustStr ServiceRuntime ServiceDef StartOrder Reach Ids Roles Calendar.
From S2P Require Import Graph BootGraph.
From Stdlib Require Import String.
Open Scope string_scope.
Open Scope list_scope.

(** ** The findings of a service *)

Definition draft_findings (draft : BlockedServiceDraft) : list BlockedReason :=
  draft.(bd_reason) :: draft.(bd_additional_reasons).

(** Every finding recorded against [service], the primary one first. *)
Definition findings (blocked : gmap string BlockedServiceDraft) (service : string)
    : list BlockedReason :=
  from_option draft_findings [] (blocked !! service).

Lemma findings_nil blocked service : findings blocked service = [] ↔ blocked !! service = None.
Proof. unfold findings. by destruct (blocked !! service). Qed.

Lemma findings_some blocked service r : r ∈ findings blocked service → is_Some (blocked !! service).
Proof. unfold findings. destruct (blocked !! service); [eauto|]. by intros []%elem_of_nil. Qed.

Lemma blocked_has_finding blocked service :
  is_Some (blocked !! service) → ∃ r, r ∈ findings blocked service.
Proof. intros [d E]. exists d.(bd_reason). unfold findings. rewrite E. left. Qed.

(** A draft is filed under its own service, repeats no finding, and its
    primary one is of the highest precedence among them. *)
Record draft_wf (service : string) (draft : BlockedServiceDraft) : Prop := {
  dw_service : draft.(bd_service) = service;
  dw_nodup : NoDup (draft_findings draft);
  dw_primary : ∀ r, r ∈ draft_findings draft →
    (failed_cause_precedence r ≤ failed_cause_precedence draft.(bd_reason))%Z;
}.

Definition blocked_wf (blocked : gmap string BlockedServiceDraft) : Prop :=
  map_Forall draft_wf blocked.

(** [adds own blocked blocked']: [blocked'] has the findings of [blocked] and
    those of [own], and no others. *)
Record adds (own : string → BlockedReason → Prop) (blocked blocked' : gmap string BlockedServiceDraft)
    : Prop := {
  adds_findings : ∀ s r, r ∈ findings blocked' s ↔ r ∈ findings blocked s ∨ own s r;
  adds_wf : blocked_wf blocked → blocked_wf blocked';
}.

Lemma adds_refl (own : string → BlockedReason → Prop) blocked :
  (∀ s r, ¬ own s r) → adds own blocked blocked.
Proof. intros Hno. split; [|done]. intros s r. split; [tauto|]. intros [?|?%Hno]; done. Qed.

Lemma adds_trans own1 own2 own b1 b2 b3 :
  (∀ s r, own s r ↔ own1 s r ∨ own2 s r) → adds own1 b1 b2 → adds own2 b2 b3 → adds own b1 b3.
Proof.
  intros Hown [H1 W1] [H2 W2]. split; [|tauto]. intros s r. rewrite H2, H1, Hown. tauto.
Qed.

Lemma adds_then own1 own2 b1 b2 b3 :
  adds own1 b1 b2 → adds own2 b2 b3 → adds (λ s r, own1 s r ∨ own2 s r) b1 b3.
Proof. by apply adds_trans. Qed.

Lemma adds_ext own own' b b' : (∀ s r, own s r ↔ own' s r) → adds own b b' → adds own' b b'.
Proof. intros Hown [H1 W1]. split; [|done]. intros s r. by rewrite H1, Hown. Qed.

Lemma adds_blocked own b b' s : adds own b b' → is_Some (b !! s) → is_Some (b' !! s).
Proof.
  intros [H _] [r Hr]%blocked_has_finding. eapply findings_some, H. by left.
Qed.

(** A loop that adds the findings of each element adds those of all. *)
Lemma adds_foldl {A} (f : gmap string BlockedServiceDraft → A → gmap string BlockedServiceDraft)
    (own : A → string → BlockedReason → Prop) l b :
  (∀ x b, x ∈ l → adds (own x) b (f b x)) →
  adds (λ s r, ∃ x, x ∈ l ∧ own x s r) b (foldl f b l).
Proof.
  revert b. induction l as [|x l IH]; intros b Hf; simpl.
  { apply adds_refl. intros s r (x & []%elem_of_nil & _). }
  eapply adds_trans; [|apply Hf; left|apply IH; intros; apply Hf; by right].
  intros s r. cbn. setoid_rewrite elem_of_cons. naive_solver.
Qed.

Lemma add_reason_findings draft reason r :
  r ∈ draft_findings (add_reason draft reason) ↔ r ∈ draft_findings draft ∨ r = reason.
Proof.
  unfold add_reason, draft_findings.
  destruct (bool_decide (bd_reason draft = reason)) eqn:E1; breflect; simpl.
  { subst. rewrite !elem_of_cons. tauto. }
  destruct (bool_decide (reason ∈ bd_additional_reasons draft)) eqn:E2; breflect; simpl.
  { rewrite !elem_of_cons. naive_solver. }
  case_match; simpl; rewrite !elem_of_cons, elem_of_app, list_elem_of_singleton; tauto.
Qed.

Lemma add_reason_wf service draft reason : draft_wf service draft → draft_wf service (add_reason draft reason).
Proof.
  intros [Hs Hn Hp]. pose proof (add_reason_findings draft reason) as Hf.
  unfold add_reason, draft_findings in *.
  destruct (bool_decide (bd_reason draft = reason)) eqn:E1; breflect; simpl in *; [by split|].
  destruct (bool_decide (reason ∈ bd_additional_reasons draft)) eqn:E2; breflect; simpl in *; [by split|].
  apply NoDup_cons in Hn as [Hn1 Hn2].
  destruct (_ <? _)%Z eqn:E3; breflect; simpl in *.
  - split; [done|unfold draft_findings; simpl|unfold draft_findings; simpl].
    + apply NoDup_cons. split; [|by apply NoDup_snoc]. rewrite elem_of_app, list_elem_of_singleton. naive_solver.
    + intros r [Hr| ->]%Hf; [|lia]. specialize (Hp r Hr). lia.
  - split; [done|unfold draft_findings; simpl|unfold draft_findings; simpl].
    + apply NoDup_cons. rewrite elem_of_app, list_elem_of_singleton. split; [naive_solver|by apply NoDup_snoc].
    + intros r [Hr| ->]%Hf; [by apply Hp|lia].
Qed.

Lemma block_service_adds service reason blocked :
  adds (λ s r, s = service ∧ r = reason) blocked (block_service service reason blocked).
Proof.
  unfold block_service. split.
  - intros s r. unfold findings. destruct (blocked !! service) as [d|] eqn:E;
      (destruct (decide (s = service)) as [->|]; [rewrite lookup_insert_eq|rewrite lookup_insert_ne by done]; simpl).
    + rewrite E. simpl. rewrite add_reason_findings. tauto.
    + tauto.
    + rewrite E. unfold draft_findings. simpl. rewrite list_elem_of_singleton, elem_of_nil. tauto.
    + tauto.
  - intros Hwf. destruct (blocked !! service) as [d|] eqn:E; apply map_Forall_insert_2; try done.
    + apply add_reason_wf. by apply Hwf.
    + split; [done|apply NoDup_singleton|]. unfold draft_findings. simpl.
      intros r ->%list_elem_of_singleton. lia.
Qed.

(** ** The services by name *)

(** A service is filed under its own name. *)
Definition by_name_wf (by_name : gmap string ServiceDefinition) : Prop :=
  ∀ n d, by_name !! n = Some d → d.(sd_name) = n.

Lemma index_services_spec services by_name :
  match index_services services by_name with
  | Ok by_name' =>
      NoDup (map sd_name services) ∧
      (∀ d, d ∈ services → by_name !! d.(sd_name) = None) ∧
      ∀ n d, by_name' !! n = Some d ↔ by_name !! n = Some d ∨ d ∈ services ∧ d.(sd_name) = n
  | Err error => ∃ n, error = PlanDuplicateService n
  end.
Proof.
  revert by_name. induction services as [|s ss IH]; intros by_name; simpl.
  { split_and!; [constructor|by intros ? []%elem_of_nil|]. intros. rewrite elem_of_nil. tauto. }
  destruct (by_name !! s.(sd_name)) as [d0|] eqn:E; [by eexists|].
  specialize (IH (<[s.(sd_name) := s]> by_name)). destruct (index_services _ _) as [m|]; [|done].
  destruct IH as (Hn & Hfresh & Hm).
  assert (s.(sd_name) ∉ map sd_name ss) as Hs.
  { intros (d & Ed & Hd)%list_elem_of_fmap. specialize (Hfresh d Hd). rewrite <-Ed, lookup_insert_eq in Hfresh. done. }
  split_and!.
  - by constructor.
  - intros d [->|Hd]%elem_of_cons; [done|]. apply Hfresh in Hd. by apply lookup_insert_None in Hd as [? _].
  - intros n d. rewrite Hm, elem_of_cons, lookup_insert_Some. split; [naive_solver|].
    intros [Hd|[[->|?] <-]]; [|by left; left|by right]. left. right. split; [|done]. intros <-. congruence.
Qed.

Lemma service_map_spec services :
  match service_map services with
  | Ok by_name =>
      NoDup (map sd_name services) ∧ by_name_wf by_name ∧
      ∀ n d, by_name !! n = Some d ↔ d ∈ services ∧ d.(sd_name) = n
  | Err error => ¬ NoDup (map sd_name services)
  end.
Proof.
  unfold service_map. assert (∀ ss b, NoDup (map sd_name ss) → (∀ d, d ∈ ss → b !! d.(sd_name) = None) →
    ∃ m, index_services ss b = Ok m) as Hok.
  { intros ss. induction ss as [|s ss IH]; intros b Hn Hb; simpl; [eauto|].
    apply NoDup_cons in Hn as [Hs Hn]. rewrite (Hb s) by left. apply IH; [done|].
    intros d Hd. rewrite lookup_insert_ne; [by apply Hb; right|].
    intros E. apply Hs. rewrite E. by apply list_elem_of_fmap_2. }
  pose proof (index_services_spec services ∅) as H.
  destruct (index_services services ∅) as [m|e] eqn:E.
  - destruct H as (Hn & _ & Hm). split_and!; [done| |].
    + intros n d Hd. apply Hm in Hd as [?|[_ ?]]; [|done]. by rewrite lookup_empty in *.
    + intros n d. rewrite Hm, lookup_empty. naive_solver.
  - intros Hn. destruct (Hok services ∅ Hn) as [m Em]; [done|congruence].
Qed.

(** ** The closure *)

Section Closure.
Context (mode : BootMode) (by_name : gmap string ServiceDefinition) (Hwf : by_name_wf by_name).

(** A dependency target the closure follows. *)
Definition follows (target : string) : Prop :=
  ∃ td, by_name !! target = Some td ∧ td.(sd_disabled) = false ∧ dependency_eligible mode td = true.

(** A hard dependency that blocks: the target is missing or disabled. In the
    other modes a target left out only by the eligibility filter does not. *)
Definition unavailable (target : string) : Prop :=
  match by_name !! target with
  | None => True
  | Some td => td.(sd_disabled) = true ∨ dependency_eligible mode td = false ∧ mode = ModeFull
  end.

Definition declared_targets (d : ServiceDefinition) : list string :=
  map dep_target (hard_dependencies d) ++ map (λ w, (split_target w).1) d.(sd_wants).

(** [a] pulls [b] into the boot. *)
Definition pulls (a b : string) : Prop :=
  ∃ d, by_name !! a = Some d ∧ b ∈ declared_targets d ∧ follows b.

(** The finding a missing hard dependency of [d] causes. *)
Definition unavailable_finding (d : ServiceDefinition) (r : BlockedReason) : Prop :=
  ∃ dep, dep ∈ hard_dependencies d ∧ unavailable dep.(dep_target) ∧
    r = HardDependencyUnavailable dep.(dep_target) dep.(dep_kind).

Definition newly (st st' : BootClosure) (s : string) : Prop :=
  s ∈ st'.(bc_included) ∧ s ∉ st.(bc_included).

(** What including [targets] does: everything new was reached from a target,
    has had its own dependencies included and its missing ones recorded. [own]
    is what is recorded besides. *)
Record includes (targets : list string) (own : string → BlockedReason → Prop)
    (st st' : BootClosure) : Prop := {
  in_mono : st.(bc_included) ⊆ st'.(bc_included);
  in_targets : ∀ t, t ∈ targets → t ∈ st'.(bc_included);
  in_reach : ∀ x, newly st st' x → ∃ t, t ∈ targets ∧ rtc pulls t x;
  in_closed : ∀ x y, newly st st' x → pulls x y → y ∈ st'.(bc_included);
  in_adds : adds (λ s r, (∃ d, newly st st' s ∧ by_name !! s = Some d ∧ unavailable_finding d r) ∨ own s r)
              st.(bc_blocked) st'.(bc_blocked);
}.

Lemma includes_refl own st : (∀ s r, ¬ own s r) → includes [] own st st.
Proof.
  intros Hno. split; try done.
  - intros ? []%elem_of_nil.
  - intros x [? ?]. done.
  - intros x y [? ?]. done.
  - apply adds_refl. intros s r [(d & [? ?] & _)|?%Hno]; done.
Qed.

Lemma includes_trans t1 t2 own1 own2 own st1 st2 st3 :
  (∀ s r, own s r ↔ own1 s r ∨ own2 s r) →
  includes t1 own1 st1 st2 → includes t2 own2 st2 st3 → includes (t1 ++ t2) own st1 st3.
Proof.
  intros Hown [M1 T1 R1 C1 A1] [M2 T2 R2 C2 A2].
  assert (∀ s, newly st1 st3 s ↔ newly st1 st2 s ∨ newly st2 st3 s) as Hnew.
  { intros s. unfold newly. destruct (decide (s ∈ st2.(bc_included))); set_solver. }
  split.
  - set_solver.
  - intros t [?|?]%elem_of_app; set_solver.
  - intros x [Hx|Hx]%Hnew.
    + destruct (R1 x Hx) as (t & ? & ?). exists t. rewrite elem_of_app. auto.
    + destruct (R2 x Hx) as (t & ? & ?). exists t. rewrite elem_of_app. auto.
  - intros x y [Hx|Hx]%Hnew Hp; [|by eapply C2]. eapply M2, C1; done.
  - eapply adds_trans; [|exact A1|exact A2]. intros s r. cbn. setoid_rewrite Hnew. rewrite Hown. naive_solver.
Qed.

Lemma includes_ext ts own own' st st' :
  (∀ s r, own s r ↔ own' s r) → includes ts own st st' → includes ts own' st st'.
Proof.
  intros Hown [M T R C A]. split; try done. eapply adds_ext; [|exact A]. intros s r. cbn. by rewrite Hown.
Qed.

Lemma followed_or_not target :
  (∃ td, by_name !! target = Some td ∧ follows target ∧ ¬ unavailable target ∧
     negb td.(sd_disabled) && dependency_eligible mode td = true) ∨
  ¬ follows target ∧
  (∀ td, by_name !! target = Some td → negb td.(sd_disabled) && dependency_eligible mode td = false ∧
     (negb td.(sd_disabled) && bool_decide (mode ≠ ModeFull) = true ↔ ¬ unavailable target)).
Proof.
  unfold follows, unavailable. destruct (by_name !! target) as [td|]; [|right; naive_solver].
  assert ((∃ td0, Some td = Some td0 ∧ sd_disabled td0 = false ∧ dependency_eligible mode td0 = true) →
    sd_disabled td = false ∧ dependency_eligible mode td = true) as Hcase by (by intros (? & [= <-] & ? & ?)).
  destruct (sd_disabled td) eqn:Ed, (dependency_eligible mode td) eqn:Ee.
  - right. split; [intros [? ?]%Hcase; congruence|]. intros ? [= <-]. rewrite Ed. simpl. split; [done|]. split; [done|]. intros Hn. destruct Hn. by left.
  - right. split; [intros [? ?]%Hcase; congruence|]. intros ? [= <-]. rewrite Ed. simpl. split; [done|]. split; [done|]. intros Hn. destruct Hn. by left.
  - left. exists td. rewrite Ed, Ee. split_and!; [done|eauto| |done]. by intros [?|[? ?]].
  - right. split; [intros [? ?]%Hcase; congruence|]. intros ? [= <-]. rewrite Ed, Ee. split; [done|]. simpl.
    rewrite bool_decide_eq_true. split; [intros Hm [?|[_ ?]]; done|]. intros Hn Hm. apply Hn. by right.
Qed.

(** What one level of the recursion may assume of the level below. *)
Definition include_ok (include : string → BootClosure → option BootClosure)
    (P : BootClosure → Prop) : Prop :=
  ∀ t st, is_Some (by_name !! t) → P st →
  ∃ st', include t st = Some st' ∧ P st' ∧ includes [t] (λ _ _, False) st st'.

Lemma include_hard_ok include P d dep st :
  include_ok include P → (∀ st b, P st → P {| st with bc_blocked := b |}) →
  P st → ∃ st', include_hard mode by_name include d dep st = Some st' ∧ P st' ∧
    ∃ ts, includes ts (λ s r, s = d.(sd_name) ∧ unavailable dep.(dep_target) ∧
                r = HardDependencyUnavailable dep.(dep_target) dep.(dep_kind)) st st' ∧
      ∀ t, t ∈ ts ↔ t = dep.(dep_target) ∧ follows t.
Proof.
  intros Hi Hb HP. unfold include_hard.
  destruct (followed_or_not dep.(dep_target)) as [(td & E & Hf & Hu & Hc)|[Hf Hc]].
  - rewrite E, Hc, (Hwf _ _ E). destruct (Hi dep.(dep_target) st) as (st' & -> & HP' & Hinc); [eauto|done|].
    exists st'. split_and!; [done..|]. exists [dep.(dep_target)]. split.
    + eapply includes_ext; [|exact Hinc]. tauto.
    + intros t. rewrite list_elem_of_singleton. naive_solver.
  - assert (∃ ts, (∀ t, t ∈ ts ↔ t = dep.(dep_target) ∧ follows t) ∧ ts = []) as (ts & Hts & ->).
    { exists []. split; [|done]. intros t. rewrite elem_of_nil. naive_solver. }
    assert (unavailable dep.(dep_target) → includes [] (λ s r, s = d.(sd_name) ∧ unavailable dep.(dep_target) ∧
        r = HardDependencyUnavailable dep.(dep_target) dep.(dep_kind)) st
        {| st with bc_blocked := block_service d.(sd_name)
             (HardDependencyUnavailable dep.(dep_target) dep.(dep_kind)) st.(bc_blocked) |}) as Hblock.
    { intros Hu. split; simpl; try done.
      - by intros ? []%elem_of_nil.
      - intros x [? ?]; done.
      - intros x y [? ?]; done.
      - eapply adds_ext; [|apply block_service_adds]. intros s r. unfold newly. simpl. naive_solver. }
    destruct (by_name !! dep.(dep_target)) as [td|] eqn:E.
    + destruct (Hc td eq_refl) as [-> Hc2]. destruct (_ && _) eqn:E2.
      * exists st. split_and!; [done..|]. exists []. split; [|done]. apply includes_refl. tauto.
      * eexists. split_and!; [done|by apply Hb|]. exists []. split; [|done]. apply Hblock.
        destruct (decide (sd_disabled td = true ∨ dependency_eligible mode td = false ∧ mode = ModeFull)) as [Hd|Hd].
        { unfold unavailable. by rewrite E. }
        exfalso. assert (false = true); [|done]. apply Hc2. unfold unavailable. by rewrite E.
    + eexists. split_and!; [done|by apply Hb|]. exists []. split; [|done]. apply Hblock. unfold unavailable. by rewrite E.
Qed.

Lemma include_want_ok include P declared st :
  include_ok include P → P st →
  ∃ st', include_want mode by_name include declared st = Some st' ∧ P st' ∧
    ∃ ts, includes ts (λ _ _, False) st st' ∧ ∀ t, t ∈ ts ↔ t = (split_target declared).1 ∧ follows t.
Proof.
  intros Hi HP. unfold include_want.
  destruct (followed_or_not (split_target declared).1) as [(td & E & Hf & Hu & Hc)|[Hf Hc]].
  - rewrite E, Hc, (Hwf _ _ E). destruct (Hi (split_target declared).1 st) as (st' & -> & HP' & Hinc); [eauto|done|].
    exists st'. split_and!; [done..|]. exists [(split_target declared).1]. split; [done|].
    intros t. rewrite list_elem_of_singleton. naive_solver.
  - exists st. split_and!; [|done|].
    + destruct (by_name !! _) as [td|]; [|done]. by destruct (Hc td eq_refl) as [-> _].
    + exists []. split; [by apply includes_refl; tauto|]. intros t. rewrite elem_of_nil. naive_solver.
Qed.

Lemma include_hard_all_ok include P d st :
  include_ok include P → (∀ st b, P st → P {| st with bc_blocked := b |}) → P st →
  ∃ st', try_fold (include_hard mode by_name include d) (hard_dependencies d) st = Some st' ∧ P st' ∧
    ∃ ts, includes ts (λ s r, s = d.(sd_name) ∧ unavailable_finding d r) st st' ∧
      ∀ t, t ∈ ts ↔ t ∈ map dep_target (hard_dependencies d) ∧ follows t.
Proof.
  intros Hi Hb HP. pose (R l st st' := ∃ ts,
    includes ts (λ s r, s = d.(sd_name) ∧ ∃ dep, dep ∈ l ∧ unavailable dep.(dep_target) ∧
      r = HardDependencyUnavailable dep.(dep_target) dep.(dep_kind)) st st' ∧
    ∀ t, t ∈ ts ↔ t ∈ map dep_target l ∧ follows t).
  apply (try_fold_rel (include_hard mode by_name include d) P R).
  - intros s0 _. exists []. split; [|intros t; simpl; rewrite elem_of_nil; tauto].
    apply includes_refl. intros s r (_ & dep & []%elem_of_nil & _).
  - intros dep l s1 s2 s3 (ts1 & H1 & T1) (ts2 & H2 & T2). exists (ts1 ++ ts2). split.
    + eapply includes_trans; [|exact H1|exact H2]. intros s r. cbn.
      setoid_rewrite elem_of_cons. setoid_rewrite elem_of_nil. naive_solver.
    + intros t. rewrite elem_of_app, T1, T2. simpl. rewrite !elem_of_cons, elem_of_nil. tauto.
  - intros dep s1 _ HP1. destruct (include_hard_ok include P d dep s1 Hi Hb HP1) as (s2 & E & HP2 & ts & H & T).
    exists s2. split_and!; [done..|]. exists ts. split.
    + eapply includes_ext; [|exact H]. intros s r. cbn. setoid_rewrite list_elem_of_singleton. naive_solver.
    + intros t. rewrite T. simpl. rewrite list_elem_of_singleton. tauto.
  - done.
Qed.

Lemma include_want_all_ok include P d st :
  include_ok include P → P st →
  ∃ st', try_fold (include_want mode by_name include) d.(sd_wants) st = Some st' ∧ P st' ∧
    ∃ ts, includes ts (λ _ _, False) st st' ∧
      ∀ t, t ∈ ts ↔ t ∈ map (λ w, (split_target w).1) d.(sd_wants) ∧ follows t.
Proof.
  intros Hi HP. pose (R l st st' := ∃ ts, includes ts (λ _ _, False) st st' ∧
    ∀ t, t ∈ ts ↔ t ∈ map (λ w, (split_target w).1) l ∧ follows t).
  apply (try_fold_rel (include_want mode by_name include) P R).
  - intros s0 _. exists []. split; [by apply includes_refl; tauto|]. intros t; simpl; rewrite elem_of_nil; tauto.
  - intros w l s1 s2 s3 (ts1 & H1 & T1) (ts2 & H2 & T2). exists (ts1 ++ ts2). split.
    + eapply includes_trans; [|exact H1|exact H2]. cbn. tauto.
    + intros t. rewrite elem_of_app, T1, T2. simpl. rewrite !elem_of_cons, elem_of_nil. tauto.
  - intros w s1 _ HP1. destruct (include_want_ok include P w s1 Hi HP1) as (s2 & E & HP2 & ts & H & T).
    exists s2. split_and!; [done..|]. exists ts. split; [done|].
    intros t. rewrite T. simpl. rewrite list_elem_of_singleton. tauto.
  - done.
Qed.

(** A service that was not included, once it has been and its dependencies
    have, counts as one more included service. *)
Lemma includes_insert t d ts1 ts2 st st1 st2 :
  by_name !! t = Some d → t ∉ st.(bc_included) →
  includes ts1 (λ s r, s = d.(sd_name) ∧ unavailable_finding d r)
    {| st with bc_included := set_insert t st.(bc_included) |} st1 →
  includes ts2 (λ _ _, False) st1 st2 →
  (∀ x, x ∈ ts1 ++ ts2 ↔ x ∈ declared_targets d ∧ follows x) →
  includes [t] (λ _ _, False) st st2.
Proof.
  intros E Hni H1 H2 Hts.
  eapply (includes_trans _ _ _ _ (λ s r, s = t ∧ unavailable_finding d r)) in H2; [|..|exact H1].
  2:{ intros s r. cbn. rewrite (Hwf _ _ E). tauto. }
  destruct H2 as [M T R C A]. simpl in *.
  assert (t ∈ st2.(bc_included)) as Ht by (apply M; by apply elem_of_set_insert; left).
  assert (∀ x, newly st st2 x ↔ x = t ∨ newly {| st with bc_included := set_insert t st.(bc_included) |} st2 x) as Hnew.
  { intros x. unfold newly. simpl. rewrite elem_of_set_insert. destruct (decide (x = t)); naive_solver. }
  split.
  - intros x Hx. apply M, elem_of_set_insert. by right.
  - by intros x ->%list_elem_of_singleton.
  - intros x [->|Hx]%Hnew; exists t; (split; [left|]); [done|].
    destruct (R x Hx) as (y & [Hy1 Hy2]%Hts & Hr). eapply rtc_l; [|exact Hr]. by exists d.
  - intros x y [->|Hx]%Hnew Hp; [|by eapply C]. destruct Hp as (d' & E' & Hin & Hf). simplify_eq.
    apply T, Hts. done.
  - eapply adds_ext; [|exact A]. intros s r. cbn. setoid_rewrite Hnew. naive_solver.
Qed.

Definition unvisited (st : BootClosure) : nat := size (dom by_name ∖ st.(bc_included)).

Lemma includes_unvisited ts own st st' n :
  includes ts own st st' → (unvisited st < n)%nat → (unvisited st' < n)%nat.
Proof.
  intros [M _ _ _ _] Hn. eapply Nat.le_lt_trans; [|exact Hn].
  unfold unvisited. apply subseteq_size. set_solver.
Qed.

Lemma include_closure_ok fuel :
  include_ok (include_closure mode by_name fuel) (λ st, (unvisited st < fuel)%nat).
Proof.
  induction fuel as [|fuel IH]; intros t st [d E] Hm; [lia|]. simpl.
  destruct (bool_decide (t ∈ bc_included st)) eqn:Et; breflect.
  { exists st. split_and!; [done..|]. destruct (includes_refl (λ _ _, False) st) as [M T R C A]; [tauto|].
    split; try done. by intros ? ->%list_elem_of_singleton. intros x Hx. by destruct (R x Hx) as (? & []%elem_of_nil & _). }
  rewrite E. set (st0 := {| st with bc_included := _ |}).
  assert (unvisited st0 < fuel)%nat as H0.
  { unfold unvisited in *. eapply Nat.lt_le_trans; [|apply Nat.lt_succ_r, Hm]. apply subset_size.
    unfold st0. simpl. split; [intros x; rewrite !elem_of_difference, elem_of_set_insert; tauto|].
    intros Hsub. assert (t ∈ dom by_name ∖ bc_included st) as Hin by (apply elem_of_difference; split; [by eapply elem_of_dom_2|done]).
    apply Hsub in Hin. rewrite elem_of_difference, elem_of_set_insert in Hin. tauto. }
  destruct (include_hard_all_ok (include_closure mode by_name fuel) _ d st0 IH ltac:(done) H0)
    as (st1 & -> & H1 & ts1 & I1 & T1). simpl.
  destruct (include_want_all_ok (include_closure mode by_name fuel) _ d st1 IH H1)
    as (st2 & -> & H2 & ts2 & I2 & T2).
  exists st2. split; [done|]. assert (includes [t] (λ _ _, False) st st2) as Hinc.
  { eapply (includes_insert t d ts1 ts2 st st1 st2); try done. intros x.
    unfold declared_targets. rewrite !elem_of_app, T1, T2. tauto. }
  split; [by eapply includes_unvisited|done].
Qed.
End Closure.

Lemma collect_included_ok mode by_name roots :
  by_name_wf by_name → (∀ r, r ∈ roots → is_Some (by_name !! r)) →
  ∃ st, try_fold (include_closure mode by_name (S (size by_name))) roots
          {| bc_included := ∅; bc_blocked := ∅ |} = Some st ∧
    (∀ x, x ∈ st.(bc_included) ↔ ∃ r, r ∈ roots ∧ rtc (pulls mode by_name) r x) ∧
    adds (λ s r, ∃ d, s ∈ st.(bc_included) ∧ by_name !! s = Some d ∧ unavailable_finding mode by_name d r)
      ∅ st.(bc_blocked).
Proof.
  intros Hwf Hroots. set (st0 := {| bc_included := ∅; bc_blocked := ∅ |}).
  pose (P st := (unvisited by_name st < S (size by_name))%nat).
  assert (P st0) as HP0.
  { unfold P, unvisited, st0. simpl. rewrite difference_empty_L, size_dom. lia. }
  destruct (try_fold_rel (include_closure mode by_name (S (size by_name))) P
    (λ l, includes mode by_name l (λ _ _, False))) with (l := roots) (s := st0)
    as (st & E & _ & [M T R C A]).
  - intros s _. apply includes_refl. tauto.
  - intros x l s s' s'' H1 H2. change (x :: l) with ([x] ++ l). eapply includes_trans; [done| |exact H1|exact H2]. cbn. tauto.
  - intros x s Hx Hs. apply include_closure_ok; auto.
  - done.
  - exists st. split; [done|]. assert (∀ x, newly st0 st x ↔ x ∈ st.(bc_included)) as Hnew.
    { intros x. unfold newly. simpl. set_solver. }
    split.
    + intros x. split; [intros Hx; apply R, Hnew, Hx|]. intros (r & Hr & Hp).
      assert (r ∈ st.(bc_included)) as Hin by auto. clear Hr.
      induction Hp as [|a b c Hab _ IH]; [done|]. apply IH. by apply (C a b); [apply Hnew|].
    + eapply adds_ext; [|exact A]. intros s r. cbn. setoid_rewrite Hnew. naive_solver.
Qed.

(** ** Propagation *)

Section Propagate.
Context (by_name : gmap string ServiceDefinition) (Hwf : by_name_wf by_name) (included : gset string).

(** The hard dependencies of a service by name. *)
Definition hard_of (service : string) : list ServiceDependency :=
  from_option hard_dependencies [] (by_name !! service).

Definition blocked_by (service : string) (dep : ServiceDependency) : BlockedServiceDraft := {|
  bd_service := service;
  bd_reason := HardDependencyBlocked dep.(dep_target) dep.(dep_kind);
  bd_additional_reasons := [];
|}.

(** The finding propagation records, once, against a service that had none. *)
Definition propagated_finding (b b' : gmap string BlockedServiceDraft) (s : string) (r : BlockedReason) : Prop :=
  b !! s = None ∧ s ∈ included ∧
  ∃ d dep, by_name !! s = Some d ∧ dep ∈ hard_dependencies d ∧
    r = HardDependencyBlocked dep.(dep_target) dep.(dep_kind) ∧ is_Some (b' !! dep.(dep_target)).

Definition propagates (b b' : gmap string BlockedServiceDraft) : Prop :=
  ∃ own, adds own b b' ∧ ∀ s r, own s r → propagated_finding b b' s r.

(** The pass is the one of [Reach]. *)
Lemma propagate_one_spread st s :
  propagate_one by_name st s = spread_one hard_of dep_target blocked_by st s.
Proof.
  destruct st as [b c]. unfold propagate_one, spread_one, first_marked, hard_of, first_blocked_dependency.
  destruct (b !! s) eqn:Eb; [done|]. destruct (by_name !! s) as [d|] eqn:Ed; [|done]. simpl.
  destruct (find_first _ _) as [dep|]; [|done]. unfold block_service. by rewrite (Hwf _ _ Ed), Eb.
Qed.

Lemma propagate_passes_spread fuel b :
  propagate_passes by_name fuel included b = spread_passes included hard_of dep_target blocked_by fuel b.
Proof.
  assert (∀ l st, foldl (propagate_one by_name) st l = foldl (spread_one hard_of dep_target blocked_by) st l) as Hf.
  { induction l as [|s l IH]; intros st; simpl; [done|]. by rewrite propagate_one_spread, IH. }
  revert b. induction fuel as [|fuel IH]; intros b; simpl; [done|]. rewrite Hf.
  destruct (foldl _ _ _) as [b' []]; [apply IH|done].
Qed.

Lemma spreads_propagates b b' :
  spreads included hard_of dep_target blocked_by b b' → propagates b b'.
Proof.
  intros [K N _]. exists (λ s r, b !! s = None ∧ r ∈ findings b' s). split; [split|].
  - intros s r. unfold findings. destruct (b !! s) as [d|] eqn:E.
    + rewrite (K _ _ E). simpl. naive_solver.
    + simpl. rewrite elem_of_nil. tauto.
  - intros Hb s d Hd. destruct (b !! s) as [d0|] eqn:E.
    + rewrite (K _ _ E) in Hd. simplify_eq. by apply Hb.
    + destruct (N _ _ Hd E) as (_ & x & _ & -> & _). split; [done|apply NoDup_singleton|].
      intros r ->%list_elem_of_singleton. done.
  - intros s r [E Hr]. unfold findings in Hr. destruct (b' !! s) as [d|] eqn:Ed; [|by apply elem_of_nil in Hr].
    destruct (N _ _ Ed E) as (Hs & x & Hx & -> & Hon). apply list_elem_of_singleton in Hr as ->.
    unfold hard_of in Hx. destruct (by_name !! s) as [d|] eqn:Es; [|by apply elem_of_nil in Hx].
    split_and!; [done..|]. by exists d, x.
Qed.

(** The loop ends with exactly the doomed services blocked. *)
Lemma propagate_blocked_ok b :
  ∃ b', propagate_blocked by_name included b = Some b' ∧ propagates b b' ∧
    ∀ s, is_Some (b' !! s) ↔ doomed included hard_of dep_target b s.
Proof.
  destruct (spread_ok included hard_of dep_target blocked_by b) as (b' & E & P & Hd).
  exists b'. split_and!; [|by apply spreads_propagates|done].
  unfold propagate_blocked. by rewrite propagate_passes_spread.
Qed.
End Propagate.

(** ** Conflicts, timers and health checks *)

Section Blocking.
Context (by_name : gmap string ServiceDefinition) (included : gset string).

Definition conflict_named (ds dt : ServiceDefinition) : Prop :=
  dt.(sd_name) ∈ ds.(sd_conflicts) ∨ ds.(sd_name) ∈ dt.(sd_conflicts).

(** Two included boot-triggered services one of which names the other. *)
Definition boot_conflict (s t : string) : Prop :=
  s ∈ included ∧ t ∈ included ∧ ∃ ds dt,
    by_name !! s = Some ds ∧ by_name !! t = Some dt ∧
    has_boot_trigger ds = true ∧ has_boot_trigger dt = true ∧ conflict_named ds dt.

Lemma elem_of_sort_dedup names x : x ∈ sort_dedup names ↔ x ∈ names.
Proof. unfold sort_dedup. by rewrite elem_of_btree_elements, elem_of_list_to_set. Qed.

Lemma elem_of_symmetric_conflicts (Hwf : by_name_wf by_name) s ds t dt :
  by_name !! s = Some ds → by_name !! t = Some dt →
  t ∈ symmetric_conflicts by_name ds ↔ conflict_named ds dt.
Proof.
  intros Es Et. unfold symmetric_conflicts, conflict_named.
  rewrite elem_of_sort_dedup, elem_of_app, list_elem_of_fmap, (Hwf _ _ Es), (Hwf _ _ Et).
  setoid_rewrite list_elem_of_filter. setoid_rewrite elem_of_btree_values. split.
  - intros [?|(o & -> & [_ ?] & n & E)]; [by left|]. right.
    rewrite (Hwf _ _ E) in Et. rewrite Et in E. by simplify_eq.
  - intros [?|Hc]; [by left|]. destruct (decide (t = s)) as [->|]; [left; by simplify_eq|].
    right. exists dt. rewrite (Hwf _ _ Et). split_and!; eauto.
Qed.

Lemma boot_conflict_target_spec t :
  boot_conflict_target by_name included t = true ↔
  t ∈ included ∧ ∃ dt, by_name !! t = Some dt ∧ has_boot_trigger dt = true.
Proof.
  unfold boot_conflict_target. rewrite andb_true_iff, bool_decide_eq_true.
  destruct (by_name !! t); simpl; naive_solver.
Qed.

Lemma block_conflict_adds s t b :
  adds (λ x r, boot_conflict_target by_name included t = true ∧
          (x = s ∧ r = ConflictingBootService t ∨ x = t ∧ r = ConflictingBootService s))
    b (block_conflict by_name included s b t).
Proof.
  unfold block_conflict. destruct (boot_conflict_target by_name included t).
  - eapply adds_trans; [|apply block_service_adds|apply block_service_adds]. cbn. tauto.
  - apply adds_refl. by intros ?? [? _].
Qed.

Lemma block_unresolvable_conflicts_adds (Hwf : by_name_wf by_name) b :
  adds (λ s r, ∃ t, boot_conflict s t ∧ r = ConflictingBootService t)
    b (block_unresolvable_conflicts by_name included b).
Proof.
  unfold block_unresolvable_conflicts. eapply adds_ext; [|apply (adds_foldl _ (λ s x r,
    ∃ t, boot_conflict s t ∧ (x = s ∧ r = ConflictingBootService t ∨ x = t ∧ r = ConflictingBootService s)))].
  - intros s r. cbn. setoid_rewrite elem_of_btree_elements. split.
    + intros (x & Hx & t & Hc & [[-> ->]|[-> ->]]); [eauto|]. exists x. split; [|done].
      destruct Hc as (? & ? & ds & dt & ? & ? & ? & ? & Hn). split_and!; try done. exists dt, ds.
      unfold conflict_named in *. tauto.
    + intros (t & Hc & ->). exists s. split; [apply Hc|]. eauto.
  - intros s b' Hs%elem_of_btree_elements. unfold block_conflicts_of.
    destruct (by_name !! s) as [ds|] eqn:Es.
    2:{ apply adds_refl. intros x r (t & (_ & _ & ds & dt & E & _) & _). congruence. }
    destruct (has_boot_trigger ds) eqn:Eb.
    2:{ apply adds_refl. intros x r (t & (_ & _ & ds' & dt & E & _ & E2 & _) & _). congruence. }
    eapply adds_ext; [|apply adds_foldl; intros; apply block_conflict_adds]. intros x r. cbn. split.
    + intros (t & Ht & [Hi (dt & Et & Hbt)]%boot_conflict_target_spec & Hor). exists t. split; [|done].
      split_and!; try done. exists ds, dt. split_and!; try done. by eapply elem_of_symmetric_conflicts.
    + intros (t & (_ & Hi & ds' & dt & E & Et & _ & Hbt & Hn) & Hor). simplify_eq. exists t.
      split_and!; [by eapply elem_of_symmetric_conflicts|by apply boot_conflict_target_spec; eauto|done].
Qed.

(** *** Timers and health checks *)

Context `{CalendarSyntax}.

Definition timer_fault (d : ServiceDefinition) (r : BlockedReason) : Prop :=
  ∃ schedule error, TriggerTimer schedule ∈ d.(sd_triggers) ∧ schedule_error schedule = Some error ∧
    r = ValidationError (timer_message schedule error).

Definition health_fault (d : ServiceDefinition) (r : BlockedReason) : Prop :=
  is_Some d.(sd_health_check) ∧
  (d.(sd_service_type) ≠ TypeSimple ∧ r = ValidationError (health_type_message d) ∨
   d.(sd_service_type) = TypeSimple ∧
   (d.(sd_restart_window_secs) ≤
      u64_saturating_mul d.(sd_health_check_retries) d.(sd_health_check_interval_secs))%Z ∧
   r = ValidationError (health_window_message d)).

Lemma block_timers_adds (Hwf : by_name_wf by_name) b :
  adds (λ s r, ∃ d, by_name !! s = Some d ∧ timer_fault d r) b (block_invalid_timer_schedules by_name b).
Proof.
  unfold block_invalid_timer_schedules. eapply adds_ext; [|apply (adds_foldl _ (λ d x r,
    ∃ trigger, trigger ∈ d.(sd_triggers) ∧ x = d.(sd_name) ∧ ∃ schedule error, trigger = TriggerTimer schedule ∧
      schedule_error schedule = Some error ∧ r = ValidationError (timer_message schedule error)))].
  - intros s r. cbn. setoid_rewrite elem_of_btree_values. unfold timer_fault. split.
    + intros (d & [n En] & tr & Htr & -> & sch & e & -> & He & ->). exists d. rewrite (Hwf _ _ En). eauto 6.
    + intros (d & Ed & sch & e & Htr & He & ->). exists d. split; [eauto|]. rewrite (Hwf _ _ Ed). eauto 10.
  - intros d b' _. apply adds_foldl. intros tr b2 _. unfold block_timer. destruct tr;
      try (apply adds_refl; intros ?? (_ & ? & ? & [=] & _)).
    destruct (schedule_error schedule) eqn:E.
    + eapply adds_ext; [|apply block_service_adds]. intros x r. cbn. split; [|naive_solver].
      intros [-> ->]. eauto 8.
    + apply adds_refl. intros ?? (_ & ? & ? & [= <-] & ? & _). congruence.
Qed.

Lemma block_health_adds b :
  adds (λ s r, s ∈ included ∧ ∃ d, by_name !! s = Some d ∧ health_fault d r)
    b (block_invalid_health_checks by_name included b).
Proof.
  unfold block_invalid_health_checks. eapply adds_ext; [|apply (adds_foldl _ (λ x s r,
    s = x ∧ ∃ d, by_name !! s = Some d ∧ health_fault d r))].
  - intros s r. cbn. setoid_rewrite elem_of_btree_elements. naive_solver.
  - intros x b' _. unfold block_health_check, health_fault. destruct (by_name !! x) as [d|] eqn:Ed.
    2:{ apply adds_refl. naive_solver. }
    assert (∀ r, adds (λ s r0, s = x ∧ r0 = r) b' (block_service x r b')) as Hb by (intros; apply block_service_adds).
    destruct (sd_health_check d) as [hc|] eqn:Eh.
    2:{ apply adds_refl. intros s r (-> & d' & ? & [? ?] & _). congruence. }
    destruct (bool_decide (sd_service_type d ≠ TypeSimple)) eqn:Et; breflect.
    { eapply adds_ext; [|apply Hb]. intros s r. cbn. split; [intros [-> ->]; eauto 8|naive_solver]. }
    apply dec_stable in Et. destruct (_ <=? _)%Z eqn:Ew; breflect.
    + eapply adds_ext; [|apply Hb]. intros s r. cbn. split; [intros [-> ->]; rewrite Ed; eauto 10|].
      intros (-> & d' & ? & _ & [[? ?]|(? & ? & ->)]); [congruence|]. by simplify_eq.
    + apply adds_refl. intros s r (-> & d' & ? & _ & [[? ?]|(_ & ? & _)]); simplify_eq. lia.
Qed.
End Blocking.

(** ** Cycles and the order *)

Section Cycles.
Context (by_name : gmap string ServiceDefinition).

(** The ordering dependencies of a service. *)
Definition targets_by_name (service : string) : list string :=
  match by_name !! service with
  | Some definition => start_order_dependency_targets definition
  | None => []
  end.

(** [a] must start after [b], among the services of [set]. *)
Definition after (set : gset string) : string → string → Prop := must_follow set targets_by_name.

Lemma chain_node {A} (edge : A → A → Prop) x l y z : chain edge x l y → z ∈ x :: l → ∃ w, edge z w.
Proof.
  revert x. induction l as [|a l IH]; simpl; intros x.
  - intros ? ->%list_elem_of_singleton. eauto.
  - intros [? ?] [->|?]%elem_of_cons; eauto.
Qed.

Lemma cycle_node {A} (edge : A → A → Prop) c z : is_cycle edge c → z ∈ c → ∃ w, edge z w.
Proof. destruct c as [|x l]; [done|]. apply chain_node. Qed.

Lemma cycle_in set c z : is_cycle (after set) c → z ∈ c → z ∈ set.
Proof. intros Hc Hz. by destruct (cycle_node _ _ _ Hc Hz) as (w & ? & _). Qed.

Lemma after_mono set set' a b : set ⊆ set' → after set a b → after set' a b.
Proof. intros Hs (? & ? & ?). split_and!; auto. Qed.

Lemma after_cycle_mono set set' c : set ⊆ set' → is_cycle (after set) c → is_cycle (after set') c.
Proof. intros Hs. apply is_cycle_mono. intros a b ? Hab _. by eapply after_mono. Qed.

Lemma elem_of_remove_services services set x :
  x ∈ remove_services services set ↔ x ∈ set ∧ x ∉ services.
Proof.
  revert set. induction services as [|s ss IH]; intros set; simpl.
  - rewrite elem_of_nil. tauto.
  - fold (remove_services ss (set ∖ {[s]})). rewrite IH, elem_of_difference, elem_of_singleton, elem_of_cons. tauto.
Qed.

Lemma remove_cycle_smaller set c : is_cycle (after set) c → (size (remove_services c set) < size set)%nat.
Proof.
  intros Hc. apply subset_size. split; [intros x; rewrite elem_of_remove_services; tauto|].
  destruct c as [|x l]; [done|]. intros Hsub. pose proof (cycle_in _ _ x Hc ltac:(left)) as Hx.
  apply Hsub, elem_of_remove_services in Hx as [_ Hx]. apply Hx. left.
Qed.

Lemma block_cycle_adds c b : adds (λ s r, s ∈ c ∧ r = CycleDetected c) b (block_cycle c b).
Proof.
  unfold block_cycle. eapply adds_ext; [|apply adds_foldl; intros; apply block_service_adds].
  intros s r. cbn. naive_solver.
Qed.

Lemma boot_dependency_order_spec set :
  match boot_dependency_order set by_name with
  | Some (Ok order) => order ≡ₚ elements set ∧ ordered (after set) order
  | Some (Err cycle) => is_cycle (after set) cycle
  | None => False
  end.
Proof. exact (dependency_start_order_spec set targets_by_name). Qed.

Lemma order_acyclic set order c :
  boot_dependency_order set by_name = Some (Ok order) → ¬ is_cycle (after set) c.
Proof.
  intros E. pose proof (boot_dependency_order_spec set) as H. rewrite E in H. destruct H as [Hp Ho].
  eapply ordered_acyclic; [exact Ho|]. intros x y (? & _ & _). rewrite Hp. by apply elem_of_elements.
Qed.

Lemma block_cycles_from_ok included fuel remaining b :
  (size remaining < fuel)%nat → remaining ⊆ included →
  (∀ s, s ∈ included → s ∉ remaining → is_Some (b !! s)) →
  ∃ b', block_cycles_from by_name fuel remaining b = Some b' ∧
    (∃ own, adds own b b' ∧
       ∀ s r, own s r → ∃ c, r = CycleDetected c ∧ s ∈ c ∧ is_cycle (after included) c) ∧
    ∀ c, ¬ is_cycle (after (startable_services included b')) c.
Proof.
  revert remaining b. induction fuel as [|fuel IH]; intros remaining b Hf Hr Hb; [lia|]. simpl.
  assert (∃ own, adds own b b ∧
       ∀ s r, own s r → ∃ c, r = CycleDetected c ∧ s ∈ c ∧ is_cycle (after included) c) as Hrefl.
  { exists (λ _ _, False). split; [by apply adds_refl; tauto|done]. }
  assert (startable_services included b ⊆ remaining) as Hsub.
  { intros x [Hx Hin]%elem_of_filter. destruct (decide (x ∈ remaining)); [done|].
    destruct (Hb x Hin) as [? ?]; [done|congruence]. }
  destruct (bool_decide (remaining = ∅)) eqn:Ee; breflect.
  { exists b. split_and!; try done. intros [|x l] Hc; [done|].
    pose proof (cycle_in _ _ x Hc ltac:(left)) as Hx%Hsub. set_solver. }
  pose proof (boot_dependency_order_spec remaining) as Hspec.
  destruct (boot_dependency_order remaining by_name) as [[order|c]|] eqn:E; simpl; [| |done].
  - exists b. split_and!; try done. intros c Hc. eapply order_acyclic; [exact E|].
    by eapply after_cycle_mono.
  - destruct (IH (remove_services c remaining) (block_cycle c b)) as (b' & E' & (own & A & Ho) & Hac).
    + pose proof (remove_cycle_smaller _ _ Hspec). lia.
    + intros x [? _]%elem_of_remove_services. auto.
    + intros s Hs Hn. rewrite elem_of_remove_services in Hn. destruct (decide (s ∈ remaining)).
      * eapply findings_some, (adds_findings _ _ _ (block_cycle_adds c b)). right. split; [|done].
        destruct (decide (s ∈ c)); tauto.
      * eapply adds_blocked; [apply block_cycle_adds|auto].
    + exists b'. split_and!; try done. exists (λ s r, (s ∈ c ∧ r = CycleDetected c) ∨ own s r).
      split; [by eapply adds_trans; [|apply block_cycle_adds|exact A]|].
      intros s r [[? ->]|?]; [|auto]. exists c. split_and!; try done. by eapply after_cycle_mono.
Qed.

(** The outer loop never needs a second pass: the cycles were broken before
    it, and blocking more services makes no new ones. *)
Lemma order_passes_ok (Hwf : by_name_wf by_name) included fuel b :
  (∀ c, ¬ is_cycle (after (startable_services included b)) c) →
  ∃ b' order, order_passes by_name (S fuel) included b = Some (order, b') ∧
    propagates by_name included b b' ∧ (∀ s, is_Some (b' !! s) ↔ doomed included (hard_of by_name) dep_target b s) ∧
    order ≡ₚ elements (startable_services included b') ∧
    ordered (after (startable_services included b')) order.
Proof.
  intros Hac. destruct (propagate_blocked_ok by_name Hwf included b) as (b' & E & P & Hd).
  cbn [order_passes]. rewrite E. cbn [mbind option_bind].
  pose proof (boot_dependency_order_spec (startable_services included b')) as Hspec.
  destruct (boot_dependency_order _ by_name) as [[order|c]|] eqn:E2; cbn [mbind option_bind]; [| |done].
  - by exists b', order.
  - destruct (Hac c). eapply after_cycle_mono; [|exact Hspec].
    intros z [Hz ?]%elem_of_filter. apply elem_of_filter. split; [|done].
    destruct (b !! z) eqn:Ez; [|done]. destruct P as (own & A & _).
    destruct (adds_blocked _ _ _ z A) as [? ?]; [eauto|congruence].
Qed.
End Cycles.

(** ** The graph *)

Section Facts.
Context `{CalendarSyntax} (mode : BootMode) (services : list ServiceDefinition).
Context (by_name : gmap string ServiceDefinition).

(** In the boot: reachable from a boot root. *)
Definition in_boot (x : string) : Prop :=
  ∃ r, r ∈ boot_roots services mode ∧ rtc (pulls mode by_name) r x.

(** What is wrong with [s] whatever else is blocked. *)
Inductive direct_fault (included : gset string) (s : string) (r : BlockedReason) : Prop :=
| fault_unavailable d :
    s ∈ included → by_name !! s = Some d → unavailable_finding mode by_name d r →
    direct_fault included s r
| fault_conflict t :
    boot_conflict by_name included s t → r = ConflictingBootService t → direct_fault included s r
| fault_timer d : by_name !! s = Some d → timer_fault d r → direct_fault included s r
| fault_health d :
    s ∈ included → by_name !! s = Some d → health_fault d r → direct_fault included s r.

(** What follows from other services: a cycle through [s], or a hard
    dependency of [s] that is itself blocked. *)
Inductive derived_fault (included : gset string) (blocked : gmap string BlockedServiceDraft)
    (s : string) (r : BlockedReason) : Prop :=
| fault_cycle c :
    is_cycle (after by_name included) c → s ∈ c → r = CycleDetected c → derived_fault included blocked s r
| fault_blocked d dep :
    s ∈ included → by_name !! s = Some d → dep ∈ hard_dependencies d →
    is_Some (blocked !! dep.(dep_target)) →
    r = HardDependencyBlocked dep.(dep_target) dep.(dep_kind) → derived_fault included blocked s r.

Record boot_facts (included : gset string) (blocked : gmap string BlockedServiceDraft)
    (order : list string) : Prop := {
  bf_included : ∀ x, x ∈ included ↔ in_boot x;
  bf_wf : blocked_wf blocked;
  bf_sound : ∀ s r, r ∈ findings blocked s → direct_fault included s r ∨ derived_fault included blocked s r;
  bf_complete : ∀ s r, direct_fault included s r → r ∈ findings blocked s;
  bf_settled : ∀ s d dep, s ∈ included → by_name !! s = Some d → dep ∈ hard_dependencies d →
    is_Some (blocked !! dep.(dep_target)) → is_Some (blocked !! s);
  bf_order : order ≡ₚ elements (startable_services included blocked);
  bf_ordered : ordered (after by_name (startable_services included blocked)) order;
}.

Lemma derived_fault_mono included b b' s r :
  (∀ x, is_Some (b !! x) → is_Some (b' !! x)) →
  derived_fault included b s r → derived_fault included b' s r.
Proof. intros Hb []; [by eapply fault_cycle|eapply fault_blocked; eauto]. Qed.

Lemma propagated_derived included own b b' s r :
  (∀ s r, own s r → propagated_finding by_name included b b' s r) → own s r → derived_fault included b' s r.
Proof. intros Ho (_ & ? & d & dep & ? & ? & -> & ?)%Ho. by eapply fault_blocked. Qed.

Lemma start_order_after_validation_ok included b :
  by_name_wf by_name →
  ∃ b' order, start_order_after_validation by_name included b = Some (order, b') ∧
    (∃ own, adds own b b' ∧
       (∀ s r, own s r → direct_fault included s r ∨ derived_fault included b' s r) ∧
       ∀ s d r, by_name !! s = Some d → (timer_fault d r ∨ s ∈ included ∧ health_fault d r) → own s r) ∧
    (∀ s d dep, s ∈ included → by_name !! s = Some d → dep ∈ hard_dependencies d →
       is_Some (b' !! dep.(dep_target)) → is_Some (b' !! s)) ∧
    order ≡ₚ elements (startable_services included b') ∧
    ordered (after by_name (startable_services included b')) order.
Proof.
  intros Hwf. unfold start_order_after_validation.
  pose proof (block_timers_adds by_name Hwf b) as A1. set (b1 := block_invalid_timer_schedules _ _) in *.
  pose proof (block_health_adds by_name included b1) as A2. set (b2 := block_invalid_health_checks _ _ _) in *.
  destruct (block_cycles_from_ok by_name included (S (size included)) included b2)
    as (b3 & E3 & (o3 & A3 & O3) & Hac); [lia|done|by intros|].
  unfold block_dependency_cycles. rewrite E3. cbn [mbind option_bind].
  destruct (order_passes_ok by_name Hwf included (size included) b3 Hac)
    as (b4 & order & E4 & (o4 & A4 & O4) & Hd & Hp & Ho).
  exists b4, order. split_and!; try done.
  - eexists. split; [|split].
    + eapply adds_then; [exact A1|]. eapply adds_then; [exact A2|]. eapply adds_then; [exact A3|exact A4].
    + intros s r [(d & ? & ?)|[(? & d & ? & ?)|[(c & -> & ? & ?)%O3|?]]].
      * left. by eapply fault_timer.
      * left. by eapply fault_health.
      * right. by eapply fault_cycle.
      * right. by eapply propagated_derived.
    + intros s d r Ed [?|[? ?]]; eauto 6.
  - intros s d dep Hs Ed Hdep Hb. apply Hd. eapply doomed_needs; [done| |by apply Hd].
    unfold hard_of. by rewrite Ed.
Qed.

Lemma collect_boot_closure_ok :
  by_name_wf by_name → (∀ n d, by_name !! n = Some d ↔ d ∈ services ∧ d.(sd_name) = n) →
  ∃ closure, collect_boot_closure mode by_name services = Some closure ∧
    (∀ x, x ∈ closure.(bc_included) ↔ in_boot x) ∧
    ∃ own, adds own ∅ closure.(bc_blocked) ∧
      (∀ s r, own s r → direct_fault closure.(bc_included) s r ∨
         derived_fault closure.(bc_included) closure.(bc_blocked) s r) ∧
      ∀ s d r, s ∈ closure.(bc_included) → by_name !! s = Some d →
        unavailable_finding mode by_name d r → own s r.
Proof.
  intros Hwf Hmap. destruct (collect_included_ok mode by_name (boot_roots services mode) Hwf) as (st & E & Hin & A1).
  { intros r (d & -> & [_ [_ [_ ?]%list_elem_of_filter]%list_elem_of_filter]%list_elem_of_filter)%list_elem_of_fmap.
    exists d. by apply Hmap. }
  unfold collect_boot_closure. rewrite E. cbn [mbind option_bind].
  destruct (propagate_blocked_ok by_name Hwf st.(bc_included) st.(bc_blocked)) as (b & E2 & (o2 & A2 & O2) & _).
  rewrite E2. cbn [mbind option_bind]. eexists. split; [done|]. split; [exact Hin|]. cbn [bc_included bc_blocked].
  eexists. split; [eapply adds_then; [exact A1|exact A2]|]. split.
  - intros s r [(d & ? & ? & ?)|?]; [left; by eapply fault_unavailable|right; by eapply propagated_derived].
  - intros s d r Hs Ed Hu. left. eauto.
Qed.

Lemma in_boot_defined x :
  (∀ n d, by_name !! n = Some d ↔ d ∈ services ∧ d.(sd_name) = n) → in_boot x → is_Some (by_name !! x).
Proof.
  intros Hmap (r & (d & -> & [_ [_ [_ ?]%list_elem_of_filter]%list_elem_of_filter]%list_elem_of_filter)%list_elem_of_fmap & Hp).
  apply rtc_inv_r in Hp as [<-|(y & _ & _ & _ & _ & td & ? & _)]; [|eauto]. exists d. by apply Hmap.
Qed.
End Facts.

Lemma startable_all_ok order by_name :
  (∀ s, s ∈ order → is_Some (by_name !! s)) →
  ∃ l, startable_all order by_name = Ok l ∧ Forall2 (λ s x, startable_service s by_name = Ok x) order l.
Proof.
  induction order as [|s order IH]; intros Hs; simpl; [by exists []; split; [|constructor]|].
  destruct (Hs s ltac:(left)) as [d E]. unfold startable_service at 1. rewrite E. simpl.
  destruct IH as (l & -> & Hl); [intros; apply Hs; by right|]. eexists. split; [done|].
  constructor; [|done]. unfold startable_service. by rewrite E.
Qed.

Lemma startable_names order l by_name :
  Forall2 (λ s x, startable_service s by_name = Ok x) order l → map ss_name l = order.
Proof.
  induction 1 as [|s x order l Hx _ IH]; simpl; [done|]. rewrite IH. f_equal.
  unfold startable_service in Hx. destruct (by_name !! s); by simplify_eq/=.
Qed.

(** A graph, for definitions with distinct names: what it holds comes from
    facts about the definitions alone. *)
Record graph_of `{CalendarSyntax} (mode : BootMode) (services : list ServiceDefinition)
    (by_name : gmap string ServiceDefinition) (graph : Phase2BootGraph)
    (included : gset string) (blocked : gmap string BlockedServiceDraft) : Prop := {
  go_by_name : ∀ n d, by_name !! n = Some d ↔ d ∈ services ∧ d.(sd_name) = n;
  go_facts : boot_facts mode services by_name included blocked (map ss_name graph.(bg_ordered_startable));
  go_blocked : graph.(bg_blocked) = btree_values blocked;
  go_starts : Forall (λ x, startable_service x.(ss_name) by_name = Ok x) graph.(bg_ordered_startable);
}.

Lemma build_phase2_boot_graph_spec `{CalendarSyntax} mode services :
  match service_map services with
  | Err error => build_phase2_boot_graph mode services = Some (Err error)
  | Ok by_name => ∃ graph included blocked,
      build_phase2_boot_graph mode services = Some (Ok graph) ∧
      graph_of mode services by_name graph included blocked
  end.
Proof.
  unfold build_phase2_boot_graph. pose proof (service_map_spec services) as Hm.
  destruct (service_map services) as [by_name|e]; [|done]. destruct Hm as (Hn & Hwf & Hmap).
  destruct (collect_boot_closure_ok mode services by_name Hwf Hmap) as (cl & -> & Hin & o1 & A1 & S1 & C1).
  cbn [mbind option_bind]. set (included := cl.(bc_included)) in *.
  pose proof (block_unresolvable_conflicts_adds by_name included Hwf cl.(bc_blocked)) as A2.
  set (b2 := block_unresolvable_conflicts _ _ _) in *.
  destruct (start_order_after_validation_ok mode by_name included b2 Hwf)
    as (b & order & -> & (o3 & A3 & S3 & C3) & Hset & Hp & Ho).
  cbn [mbind option_bind].
  assert (∀ x, is_Some (cl.(bc_blocked) !! x) → is_Some (b !! x)) as Hmono.
  { intros x Hx. by eapply adds_blocked, adds_blocked. }
  destruct (startable_all_ok order by_name) as (l & El & Hl).
  { intros s Hs. rewrite Hp, elem_of_elements in Hs. apply elem_of_filter in Hs as [_ Hs].
    by eapply in_boot_defined, Hin. }
  rewrite El. eexists _, included, b. split; [done|]. split; cbn [bg_ordered_startable bg_blocked]; try done.
  - rewrite (startable_names _ _ _ Hl). split; try done.
    + eapply adds_wf; [exact A3|]. eapply adds_wf; [exact A2|]. eapply adds_wf; [exact A1|]. apply map_Forall_empty.
    + intros s r [[[Hr|Hr%S1]%A1|(t & ? & ->)]%A2|Hr%S3]%A3; [|..|done].
      * unfold findings in Hr. rewrite lookup_empty in Hr. by apply elem_of_nil in Hr.
      * destruct Hr as [?|Hr]; [by left|right]. by eapply derived_fault_mono.
      * left. by eapply fault_conflict.
    + intros s r Hf. apply A3. destruct Hf as [d Hs Ed Hu|t Hc ->|d Ed Ht|d Hs Ed Hh].
      * left. apply A2. left. apply A1. right. eauto.
      * left. apply A2. right. eauto.
      * right. eauto.
      * right. eauto.
  - clear - Hl. induction Hl as [|s x ? ? Hx ? IH]; constructor; [|done].
    assert (x.(ss_name) = s) as ->; [|done]. unfold startable_service in Hx. destruct (by_name !! s); by simplify_eq/=.
Qed.

Lemma elem_of_blocked_services blocked s :
  blocked_wf blocked → s ∈ map bd_service (btree_values blocked) ↔ is_Some (blocked !! s).
Proof.
  intros Hwf. split.
  - intros (d & -> & [k Ek]%elem_of_btree_values)%list_elem_of_fmap. rewrite (dw_service _ _ (Hwf _ _ Ek)). eauto.
  - intros [d E]. rewrite <-(dw_service _ _ (Hwf _ _ E)). apply list_elem_of_fmap_2, elem_of_btree_values. eauto.
Qed.

Lemma blocked_services_keys blocked : blocked_wf blocked → map bd_service (btree_values blocked) = btree_keys blocked.
Proof.
  intros Hwf. unfold btree_values, btree_keys. rewrite <-!list_fmap_compose. apply list_fmap_ext.
  intros i [k d] Hi%list_elem_of_lookup_2. apply elem_of_btree_iter in Hi. simpl. by apply Hwf.
Qed.

(** A hard dependency Safe mode leaves out: there, enabled, not eligible. *)
Definition left_out (mode : BootMode) (by_name : gmap string ServiceDefinition) (target : string) : Prop :=
  mode ≠ ModeFull ∧ ∃ td, by_name !! target = Some td ∧ td.(sd_disabled) = false ∧
    dependency_eligible mode td = false.

(** What a started service may rely on. *)
Record may_start `{CalendarSyntax} (mode : BootMode) (by_name : gmap string ServiceDefinition)
    (starts : list string) (d : ServiceDefinition) : Prop := {
  ms_hard : ∀ dep, dep ∈ hard_dependencies d →
    dep.(dep_target) ∈ starts ∨ left_out mode by_name dep.(dep_target);
  ms_conflicts : ∀ d', d'.(sd_name) ∈ starts → by_name !! d'.(sd_name) = Some d' →
    has_boot_trigger d = true → has_boot_trigger d' = true → ¬ conflict_named d d';
  ms_timers : ∀ r, ¬ timer_fault d r;
  ms_health : ∀ r, ¬ health_fault d r;
}.

Section GraphOf.
Context `{CalendarSyntax} (mode : BootMode) (services : list ServiceDefinition)
  (by_name : gmap string ServiceDefinition) (graph : Phase2BootGraph)
  (included : gset string) (blocked : gmap string BlockedServiceDraft).

Lemma graph_starts (G : graph_of mode services by_name graph included blocked) s :
  s ∈ map ss_name graph.(bg_ordered_startable) ↔
  in_boot mode services by_name s ∧ s ∉ map bd_service graph.(bg_blocked).
Proof.
  destruct G as [_ F -> _]. destruct F as [Fi Fw _ _ _ Fo _].
  rewrite Fo, elem_of_elements, (elem_of_blocked_services _ _ Fw), <-Fi. unfold startable_services.
  rewrite elem_of_filter, eq_None_not_Some. tauto.
Qed.

Lemma no_direct_fault (G : graph_of mode services by_name graph included blocked) s r :
  s ∈ map ss_name graph.(bg_ordered_startable) → ¬ direct_fault mode by_name included s r.
Proof.
  intros [_ Hs]%(graph_starts G) Hf%(bf_complete _ _ _ _ _ _ (go_facts _ _ _ _ _ _ G)).
  apply findings_some in Hf. apply Hs. rewrite (go_blocked _ _ _ _ _ _ G).
  apply elem_of_blocked_services; [|done]. apply (go_facts _ _ _ _ _ _ G).
Qed.

Lemma graph_may_start (G : graph_of mode services by_name graph included blocked) s d :
  s ∈ map ss_name graph.(bg_ordered_startable) → by_name !! s = Some d →
  may_start mode by_name (map ss_name graph.(bg_ordered_startable)) d.
Proof.
  intros Hs Ed. pose proof (λ r, no_direct_fault G s r Hs) as Hno.
  pose proof (proj1 (graph_starts G s) Hs) as [Hin Hnb].
  pose proof (go_facts _ _ _ _ _ _ G) as F. pose proof (bf_included _ _ _ _ _ _ F) as Fi.
  pose proof (go_by_name _ _ _ _ _ _ G) as Hmap.
  assert (∀ t, is_Some (blocked !! t) ↔ t ∈ map bd_service graph.(bg_blocked)) as Hbl.
  { intros t. rewrite (go_blocked _ _ _ _ _ _ G), elem_of_blocked_services; [done|apply F]. }
  assert (sd_name d = s) as Hname by (by apply Hmap in Ed as [_ ?]). split.
  - intros dep Hdep. destruct (followed_or_not mode by_name dep.(dep_target)) as [(td & Et & Hf & _)|[Hf Hc]].
    + left. apply (graph_starts G). split.
      * destruct Hin as (r & Hr & Hp). exists r. split; [done|]. eapply rtc_r; [exact Hp|].
        exists d. split_and!; try done. unfold declared_targets. apply elem_of_app. left. by apply list_elem_of_fmap_2.
      * rewrite <-Hbl. intros Hb. apply Hnb, Hbl. eapply (bf_settled _ _ _ _ _ _ F); [by apply Fi|done..].
    + right. assert (¬ unavailable mode by_name dep.(dep_target)) as Hav.
      { intros Hu. eapply Hno, fault_unavailable; [by apply Fi|done|]. by exists dep. }
      unfold unavailable in Hav. destruct (by_name !! dep.(dep_target)) as [td|] eqn:Et; [|tauto].
      destruct (sd_disabled td) eqn:Edis; [tauto|]. destruct (dependency_eligible mode td) eqn:Eel.
      { destruct Hf. by exists td. }
      split; [tauto|]. by exists td.
  - intros d' Hs' Ed' Hb Hb' Hc. eapply Hno, fault_conflict; [|done].
    apply (graph_starts G) in Hs' as [Hin' _]. split_and!; [by apply Fi..|]. by exists d, d'.
  - intros r Hr. eapply Hno, fault_timer; done.
  - intros r Hr. eapply Hno, fault_health; [by apply Fi|done..].
Qed.
End GraphOf.


(** The diagnosis of a boot is complete and true. A blocked service is
    reported once, with no finding repeated and a primary cause that no other
    finding outranks; every fault of a service on its own (a missing hard
    dependency, a boot conflict, an unreadable timer schedule, an ill-fitting
    health check) is among its findings; and every finding recorded is real:
    such a fault, a dependency cycle through the service, or a hard dependency
    that is blocked. *)
Theorem blocked_findings_exact `{CalendarSyntax} mode services graph :
  build_phase2_boot_graph mode services = Some (Ok graph) →
  ∃ by_name included blocked,
    service_map services = Ok by_name ∧ (∀ x, x ∈ included ↔ in_boot mode services by_name x) ∧
    graph.(bg_blocked) = btree_values blocked ∧ map_Forall draft_wf blocked ∧
    (∀ s r, direct_fault mode by_name included s r → r ∈ findings blocked s) ∧
    (∀ s r, r ∈ findings blocked s →
       direct_fault mode by_name included s r ∨ derived_fault by_name included blocked s r).
Proof.
  intros Eg. pose proof (build_phase2_boot_graph_spec mode services) as Hs.
  destruct (service_map services) as [by_name|e]; [|by rewrite Hs in Eg].
  destruct Hs as (g & included & blocked & E & [Hm F Hb _]). rewrite E in Eg. simplify_eq.
  exists by_name, included, blocked. destruct F. done.
Qed.

(** A service that can only start after two others, one of them missing. *)
Definition boot_example : list ServiceDefinition :=
  [ {| (simple_system_boot "web" "/bin/web") with sd_requires := ["db"; "mail:up"]; sd_wants := ["log"] |};
    {| (simple_system_boot "db" "/bin/db") with sd_triggers := [] |};
    {| (simple_system_boot "log" "/bin/log") with sd_triggers := []; sd_conflicts := ["web"] |};
    {| (simple_system_boot "ui" "/bin/ui") with sd_binds_to := ["web"] |} ].

Lemma blocked_findings_exact_witness :
  ∃ graph by_name (included : gset string) (blocked : gmap string BlockedServiceDraft),
    service_map boot_example = Ok by_name ∧
    (∀ x, x ∈ included ↔ in_boot ModeFull boot_example by_name x) ∧
    graph.(bg_blocked) = btree_values blocked ∧ map_Forall draft_wf blocked ∧
    map ss_name graph.(bg_ordered_startable) = ["db"; "log"] ∧
    map bd_reason graph.(bg_blocked) =
      [HardDependencyBlocked "web" DepBindsTo; HardDependencyUnavailable "mail" DepRequires].
Proof.
  destruct (build_phase2_boot_graph (H := any_calendar) ModeFull boot_example) as [[graph|]|] eqn:E;
    [|by vm_compute in E..].
  destruct (@blocked_findings_exact any_calendar ModeFull boot_example graph E) as (bn & inc & bl & H1 & H2 & H3 & H4 & _).
  exists graph, bn, inc, bl. vm_compute in E. injection E as E.
  split_and!; [exact H1|exact H2|exact H3|exact H4|by rewrite <-E..].
Defined.

(** ** Safe mode *)

Section SafeMode.
Context (by_name : gmap string ServiceDefinition).

Definition critical_on (c : list string) : Prop :=
  ∃ s d, s ∈ c ∧ by_name !! s = Some d ∧ is_critical d = true.

Lemma critical_on_spec c :
  existsb (λ service, is_some_and (by_name !! service) is_critical) c = true ↔ critical_on c.
Proof.
  rewrite existsb_exists. setoid_rewrite <-list_elem_of_In. unfold critical_on. split.
  - intros (s & Hs & Hc). destruct (by_name !! s) as [d|] eqn:E; [|done]. exists s, d. done.
  - intros (s & d & Hs & E & Hc). exists s. by rewrite E.
Qed.

Lemma remaining_order_spec set :
  match remaining_order set by_name with
  | Some (Ok order) => ∀ c, ¬ is_cycle (after by_name set) c
  | Some (Err cycle) => is_cycle (after by_name set) cycle
  | None => False
  end.
Proof.
  set (deps := λ service, match by_name !! service with
    | Some definition => filter (.∈ set) (start_order_dependency_targets definition) | None => [] end).
  assert (∀ a b, must_follow set deps a b ↔ after by_name set a b) as Heq.
  { intros a b. unfold after, must_follow, deps, targets_by_name.
    destruct (by_name !! a); [rewrite list_elem_of_filter|]; tauto. }
  pose proof (dependency_start_order_spec set deps) as Hs. change (dependency_start_order set deps)
    with (remaining_order set by_name) in Hs.
  destruct (remaining_order set by_name) as [[order|c]|]; [| |done].
  - intros c Hc. destruct Hs as [Hp Ho]. apply (is_cycle_iff _ _ c Heq) in Hc. revert Hc.
    apply (ordered_acyclic _ order); [exact Ho|]. intros x y (? & _ & _). rewrite Hp. by apply elem_of_elements.
  - by apply (is_cycle_iff _ _ c Heq).
Qed.

Lemma cycle_restrict set set' c :
  is_cycle (after by_name set) c → (∀ x, x ∈ c → x ∈ set') → is_cycle (after by_name set') c.
Proof.
  assert (∀ l x y, chain (after by_name set) x l y → (∀ z, z ∈ x :: l ++ [y] → z ∈ set') →
    chain (after by_name set') x l y) as Hchain.
  { induction l as [|w l IH]; simpl; intros x y Hc Hin.
    - destruct Hc as (_ & ? & _). split_and!; [|done|]; apply Hin; set_solver.
    - destruct Hc as [(_ & ? & _) Hc]. split; [split_and!; [|done|]; apply Hin; set_solver|].
      apply IH; [done|]. intros z Hz. apply Hin. by right. }
  destruct c as [|x l]; [done|]. simpl. intros Hc Hin. apply Hchain; [done|].
  intros z [->|[?| ->%list_elem_of_singleton]%elem_of_app]%elem_of_cons; apply Hin; (left || by right).
Qed.

(** Removing a cycle breaks exactly the cycles that meet it. *)
Lemma meets_or_survives remaining c c' :
  is_cycle (after by_name remaining) c' →
  (∃ x, x ∈ c' ∧ x ∈ c) ∨ is_cycle (after by_name (remove_services c remaining)) c'.
Proof.
  intros Hc'. destruct (decide (Exists (.∈ c) c')) as [Hx%Exists_exists|Hx]; [by left|right].
  eapply cycle_restrict; [exact Hc'|]. intros x Hx'. apply elem_of_remove_services.
  split; [by eapply cycle_in|]. intros ?. apply Hx, Exists_exists. eauto.
Qed.

(** Which cycles the search reports, and which it can miss: a cycle through a
    Critical service is reported or loses a service to a cycle that has none. *)
Record critical_cycles_ok (remaining : gset string) (critical found : list (list string)) : Prop := {
  cc_kept : ∃ more, found = critical ++ more ∧
    Forall (λ c, is_cycle (after by_name remaining) c ∧ critical_on c) more;
  cc_found : ∀ c, is_cycle (after by_name remaining) c → critical_on c →
    (∃ c', c' ∈ found ∧ ∃ x, x ∈ c ∧ x ∈ c') ∨
    ∃ c', is_cycle (after by_name remaining) c' ∧ ¬ critical_on c' ∧ ∃ x, x ∈ c ∧ x ∈ c';
}.

Lemma critical_cycles_from_ok fuel remaining critical :
  (size remaining < fuel)%nat →
  ∃ found, critical_cycles_from fuel remaining by_name critical = Some found ∧
    critical_cycles_ok remaining critical found.
Proof.
  revert remaining critical. induction fuel as [|fuel IH]; intros remaining critical Hf; [lia|]. simpl.
  assert ((∀ c, ¬ is_cycle (after by_name remaining) c) → critical_cycles_ok remaining critical critical) as Hdone.
  { intros Hno. split; [|by intros c ?%Hno]. exists []. by rewrite app_nil_r. }
  destruct (bool_decide (remaining = ∅)) eqn:Ee; breflect.
  { exists critical. split; [done|]. apply Hdone. intros [|x l] Hc; [done|].
    pose proof (cycle_in _ _ _ x Hc ltac:(left)). set_solver. }
  pose proof (remaining_order_spec remaining) as Hspec.
  destruct (remaining_order remaining by_name) as [[order|c]|]; simpl; [| |done].
  { exists critical. split; [done|]. by apply Hdone. }
  pose proof (remove_cycle_smaller _ _ _ Hspec) as Hlt.
  assert (remove_services c remaining ⊆ remaining) as Hsub by (intros x [? _]%elem_of_remove_services; done).
  destruct (IH (remove_services c remaining)
    (if existsb (λ service, is_some_and (by_name !! service) is_critical) c then critical ++ [c] else critical))
    as (found & E & [(more & -> & Hmore) Hfound]); [lia|].
  eexists. split; [exact E|]. clear E IH.
  pose proof (critical_on_spec c) as Hcrit. destruct (existsb _ c); split.
  - exists (c :: more). rewrite <-app_assoc. split; [done|]. constructor; [by split; [|apply Hcrit]|].
    eapply Forall_impl; [exact Hmore|]. intros c' [? ?]. split; [|done]. by eapply after_cycle_mono.
  - intros c' Hc' Hon. destruct (meets_or_survives remaining c c' Hc') as [Hx|Hx].
    { left. exists c. split; [set_solver|done]. }
    destruct (Hfound c' Hx Hon) as [?|(c2 & ? & ? & ?)]; [by left|].
    right. exists c2. split_and!; try done. by eapply after_cycle_mono.
  - exists more. split; [done|]. eapply Forall_impl; [exact Hmore|]. intros c' [? ?]. split; [|done].
    by eapply after_cycle_mono.
  - intros c' Hc' Hon. destruct (meets_or_survives remaining c c' Hc') as [Hx|Hx].
    { right. exists c. split_and!; try done. intros ?%Hcrit. done. }
    destruct (Hfound c' Hx Hon) as [?|(c2 & ? & ? & ?)]; [by left|].
    right. exists c2. split_and!; try done. by eapply after_cycle_mono.
Qed.
End SafeMode.

Lemma boot_conflict_sym by_name included a b : boot_conflict by_name included a b → boot_conflict by_name included b a.
Proof.
  intros (? & ? & da & db & ? & ? & ? & ? & Hn). split_and!; try done. exists db, da.
  unfold conflict_named in *. tauto.
Qed.

Lemma ordered_pair_cases a b : ordered_pair a b = (a, b) ∨ ordered_pair a b = (b, a).
Proof. unfold ordered_pair. case_decide; auto. Qed.

Lemma elem_of_critical_pairs by_name included (Hwf : by_name_wf by_name) s p :
  s ∈ included →
  p ∈ critical_conflict_pairs by_name included s ↔
  ∃ t d, boot_conflict by_name included s t ∧ by_name !! s = Some d ∧ is_critical d = true ∧ p = ordered_pair s t.
Proof.
  intros Hs. unfold critical_conflict_pairs. destruct (by_name !! s) as [d|] eqn:Ed.
  2:{ split; [by intros []%elem_of_nil|naive_solver]. }
  destruct (has_boot_trigger d && is_critical d) eqn:Eb; breflect.
  2:{ split; [by intros []%elem_of_nil|]. intros (t & d' & (_ & _ & ds & dt & ? & _ & ? & _) & [= <-] & Hc & _).
      simplify_eq. apply andb_false_iff in Eb as [?|?]; congruence. }
  rewrite list_elem_of_fmap. setoid_rewrite list_elem_of_filter. setoid_rewrite boot_conflict_target_spec.
  rewrite (Hwf _ _ Ed). split.
  - intros (t & -> & (Hi & dt & Et & Hb) & Hc). exists t, d. split_and!; try done. split_and!; try done.
    exists d, dt. split_and!; try done. by eapply elem_of_symmetric_conflicts.
  - intros (t & d' & (_ & Hi & ds & dt & ? & Et & ? & Hb & Hn) & [= <-] & _ & ->). simplify_eq. exists t.
    split_and!; eauto. by eapply elem_of_symmetric_conflicts.
Qed.

Lemma critical_boot_conflicts_spec by_name included (Hwf : by_name_wf by_name) p :
  p ∈ critical_boot_conflicts by_name included ↔
  ∃ s t d, boot_conflict by_name included s t ∧ by_name !! s = Some d ∧ is_critical d = true ∧ p = ordered_pair s t.
Proof.
  unfold critical_boot_conflicts. rewrite elem_of_btree_elements, elem_of_list_to_set, list_elem_of_bind. split.
  - intros (s & Hp & Hs%elem_of_btree_elements). eapply elem_of_critical_pairs in Hp; [|done..]. naive_solver.
  - intros (s & t & d & Hc & ? & ? & ->). exists s. assert (s ∈ included) by apply Hc.
    split; [|by apply elem_of_btree_elements]. eapply elem_of_critical_pairs; eauto 6.
Qed.

(** The findings that turn a Full boot into a Safe one. They are computed
    for every set of distinctly named definitions; a conflict is reported
    exactly when two boot-triggered services of the boot conflict and one is
    Critical; a reported cycle is a real dependency cycle of the boot through
    a Critical service; and a cycle through a Critical service is missed only
    when it shares a service with a cycle that has no Critical one. *)
Theorem safe_mode_downgrade_exact services :
  match safe_mode_downgrade_findings services with
  | Some (Ok found) =>
      ∃ by_name (included : gset string), service_map services = Ok by_name ∧
        (∀ x, x ∈ included ↔ in_boot ModeFull services by_name x) ∧
        (∀ a b, boot_conflict by_name included a b ∧ critical_on by_name [a; b] ↔
           CriticalBootConflict a b ∈ found ∨ CriticalBootConflict b a ∈ found) ∧
        (∀ c, CriticalCycle c ∈ found → is_cycle (after by_name included) c ∧ critical_on by_name c) ∧
        (∀ c, is_cycle (after by_name included) c → critical_on by_name c →
           (∃ c', CriticalCycle c' ∈ found ∧ ∃ x, x ∈ c ∧ x ∈ c') ∨
           ∃ c', is_cycle (after by_name included) c' ∧ ¬ critical_on by_name c' ∧ ∃ x, x ∈ c ∧ x ∈ c')
  | Some (Err _) => ¬ NoDup (map sd_name services)
  | None => False
  end.
Proof.
  unfold safe_mode_downgrade_findings. pose proof (service_map_spec services) as Hm.
  destruct (service_map services) as [by_name|e]; [|done]. destruct Hm as (Hn & Hwf & Hmap).
  destruct (collect_boot_closure_ok (H := λ _, None) ModeFull services by_name Hwf Hmap) as (cl & -> & Hin & _).
  cbn [mbind option_bind]. set (included := cl.(bc_included)) in *.
  destruct (critical_cycles_from_ok by_name (S (size included)) included []) as (cs & E & [(more & -> & Hmore) Hf]); [lia|].
  unfold critical_cycles. rewrite E. cbn [mbind option_bind app] in *.
  assert (∀ a b, CriticalBootConflict a b ∈ map (λ pair, CriticalBootConflict pair.1 pair.2)
    (critical_boot_conflicts by_name included) ++ map CriticalCycle more ↔
    (a, b) ∈ critical_boot_conflicts by_name included) as Hpair.
  { intros a b. rewrite elem_of_app, !list_elem_of_fmap. split; [|left; exists (a, b); done].
    intros [([x y] & [= -> ->] & ?)|(? & [=] & _)]. done. }
  assert (∀ c, CriticalCycle c ∈ map (λ pair, CriticalBootConflict pair.1 pair.2)
    (critical_boot_conflicts by_name included) ++ map CriticalCycle more ↔ c ∈ more) as Hcyc.
  { intros c. rewrite elem_of_app, !list_elem_of_fmap. split; [|right; exists c; done].
    intros [([x y] & [=] & ?)|(? & [= ->] & ?)]. done. }
  exists by_name, included. split_and!; try done.
  - intros a b. rewrite !Hpair, !critical_boot_conflicts_spec by done. split.
    + intros [Hc (s & d & Hs & Ed & Hd)]. pose proof (boot_conflict_sym _ _ _ _ Hc) as Hc'.
      rewrite !elem_of_cons, elem_of_nil in Hs. destruct Hs as [->|[->|[]]].
      * destruct (ordered_pair_cases a b) as [Eo|Eo]; [left|right]; exists a, b, d; done.
      * destruct (ordered_pair_cases b a) as [Eo|Eo]; [right|left]; exists b, a, d; done.
    + assert (∀ a b, (∃ s t d, boot_conflict by_name included s t ∧ by_name !! s = Some d ∧
        is_critical d = true ∧ (a, b) = ordered_pair s t) → boot_conflict by_name included a b ∧
        critical_on by_name [a; b]) as Hone.
      { intros x y (s & t & d & Hc & Ed & Hd & Ep). destruct (ordered_pair_cases s t) as [Eo|Eo];
          rewrite Eo in Ep; simplify_eq; (split; [first [exact Hc|by apply boot_conflict_sym]|exists s, d; set_solver]). }
      intros [Hc%Hone|[Hc%boot_conflict_sym (s & d & Hs & ?)]%Hone]; [done|]. split; [done|]. exists s, d. set_solver.
  - intros c Hc%Hcyc. rewrite Forall_forall in Hmore. by apply Hmore.
  - intros c Hc Hon. destruct (Hf c Hc Hon) as [(c' & ? & ?)|?]; [left|by right]. exists c'. by rewrite Hcyc.
Qed.

(** A Critical service [c] in a cycle with [b], which is also in a cycle with
    [a]. *)
Definition masked_example : list ServiceDefinition :=
  [ {| (simple_system_boot "a" "/bin/a") with sd_requires := ["b"] |};
    {| (simple_system_boot "b" "/bin/b") with sd_requires := ["a"; "c"] |};
    {| (simple_system_boot "c" "/bin/c") with sd_requires := ["b"]; sd_error_control := EcCritical |} ].

(** A Critical service in a dependency cycle does not always force Safe
    mode: here [b] and the Critical [c] require each other, but [b] is also
    in a cycle with [a], which is found first and removed. The boot stays
    Full, and [c] is blocked for its dependency on [b]. *)
Theorem masked_critical_cycle :
  safe_mode_downgrade_findings masked_example = Some (Ok []) ∧
  is_cycle (λ a b, ∃ d, d ∈ masked_example ∧ d.(sd_name) = a ∧ b ∈ start_order_dependency_targets d) ["b"; "c"] ∧
  ∀ cal : CalendarSyntax, ∃ graph,
    build_phase2_boot_graph ModeFull masked_example = Some (Ok graph) ∧
    map (λ d, (d.(bd_service), d.(bd_reason))) graph.(bg_blocked) =
      [("a", CycleDetected ["a"; "b"]); ("b", CycleDetected ["a"; "b"]);
       ("c", HardDependencyBlocked "b" DepRequires)].
Proof.
  split_and!; [by vm_compute| |].
  - repeat split.
    + exists {| (simple_system_boot "b" "/bin/b") with sd_requires := ["a"; "c"] |}.
      split_and!; [right; left|done|right; left].
    + exists {| (simple_system_boot "c" "/bin/c") with sd_requires := ["b"]; sd_error_control := EcCritical |}.
      split_and!; [right; right; left|done|left].
  - intros cal. eexists. split; by vm_compute.
Qed.
