(* ===== verification/BootPlan.v ===== *)
(** * The boot plan and its dispatch

    Models [src/src/boot/phase2/planner.rs] (the plan of a boot: its mode, the
    services to start with their identifiers, the blocked ones) with the data of
    [src/src/boot/phase2/model.rs], and [src/src/operation/store/boot.rs]
    (the operations a plan becomes).

    The two allocators are their next sequence numbers, as in [Ids]; a call
    returns the numbers it leaves. [None] is running out of fuel in the graph
    searches, which does not happen. *)

From S2P Require Import Prelude RustStr ServiceRuntime ServiceDef StartOrder Ids Roles Calendar.
From S2P Require Import Restart Cgroup ServiceTable ServiceReload Graph BootGraph BootGraphSpec OperationRecord OperationStore OperationInv.
From Stdlib Require Import String.
Open Scope string_scope.
Open Scope list_scope.

(** ** Data *)

Record PreparedStart : Type := {
  ps_service : string;
  ps_operation_id : OperationId;
  ps_job_id : JobId;
  ps_cause : StartCause;
  ps_identity : string;
}.

Record BlockedService : Type := {
  bs_service : string;
  bs_operation_id : OperationId;
  bs_reason : BlockedReason;
  bs_additional_reasons : list BlockedReason;
}.

Record Phase2BootPlan : Type := {
  bp_mode : BootMode;
  bp_observed_at_ns : Z;
  bp_max_parallel_starts : Z;
  bp_starts : list PreparedStart;
  bp_blocked : list BlockedService;
  bp_safe_mode_downgrade : list SafeModeDowngrade;
  bp_warnings : list ServiceGraphWarning;
}.

Record Phase2PlanContext : Type := {
  pc_retained_satisfied : list string;
  pc_undecodable : list UndecodableService;
}.

(** The next operation and job sequence numbers. *)
Definition Allocators : Type := Z * Z.

(** ** The plan ([planner.rs]) *)

Definition recovery_plan (observed_at_ns max_parallel_starts : Z) : Phase2BootPlan := {|
  bp_mode := ModeRecovery;
  bp_observed_at_ns := observed_at_ns;
  bp_max_parallel_starts := max_parallel_starts;
  bp_starts := [];
  bp_blocked := [];
  bp_safe_mode_downgrade := [];
  bp_warnings := [];
|}.

Definition undecodable_draft (service : UndecodableService) : BlockedServiceDraft := {|
  bd_service := service.(un_name);
  bd_reason := ValidationError ("Service definition failed to decode: " +:+ service.(un_message));
  bd_additional_reasons := [];
|}.

Definition prepared_start (p : StartableService * OperationId * JobId) : PreparedStart :=
  let '(service, operation_id, job_id) := p in {|
  ps_service := service.(ss_name);
  ps_operation_id := operation_id;
  ps_job_id := job_id;
  ps_cause := service.(ss_cause);
  ps_identity := service.(ss_identity);
|}.

Definition blocked_service (p : BlockedServiceDraft * OperationId) : BlockedService :=
  let '(blocked, operation_id) := p in {|
  bs_service := blocked.(bd_service);
  bs_operation_id := operation_id;
  bs_reason := blocked.(bd_reason);
  bs_additional_reasons := blocked.(bd_additional_reasons);
|}.

(** The last part: identifiers for the starts and the blocked services, and
    the allocators advanced once both batches have succeeded. *)
Definition allocate_plan (mode : BootMode) (observed_at_ns max_parallel_starts : Z)
    (safe_mode_downgrade : list SafeModeDowngrade) (warnings : list ServiceGraphWarning)
    (order : list StartableService) (blocked : list BlockedServiceDraft) (ids : Allocators)
    : Allocators * Result Phase2BootPlan Phase2BootPlanError :=
  let '(operation_ids, job_ids) := ids in
  match allocate_batch job_ids (List.length order) observed_at_ns with
  | (_, Err error) => (ids, Err (JobIdAllocation error))
  | (next_job_ids, Ok allocated_job_ids) =>
      match allocate_batch operation_ids (List.length order + List.length blocked) observed_at_ns with
      | (_, Err error) => (ids, Err (OperationIdAllocation error))
      | (next_operation_ids, Ok allocated_operation_ids) =>
          ((next_operation_ids, next_job_ids),
           Ok {| bp_mode := mode;
                 bp_observed_at_ns := observed_at_ns;
                 bp_max_parallel_starts := max_parallel_starts;
                 bp_starts := map prepared_start
                   (combine (combine order allocated_operation_ids) allocated_job_ids);
                 bp_blocked := map blocked_service
                   (combine blocked (drop (List.length order) allocated_operation_ids));
                 bp_safe_mode_downgrade := safe_mode_downgrade;
                 bp_warnings := warnings |})
      end
  end.

Section Planner.
Context `{CalendarSyntax}.

Definition downgrade_findings (mode : BootMode) (services : list ServiceDefinition)
    : option (Result (list SafeModeDowngrade) Phase2BootPlanError) :=
  if bool_decide (mode = ModeFull) then safe_mode_downgrade_findings services else Some (Ok []).

Definition effective_mode (mode : BootMode) (safe_mode_downgrade : list SafeModeDowngrade) : BootMode :=
  match safe_mode_downgrade with [] => mode | _ :: _ => ModeSafe end.

Definition plan_warnings (validation : Result ServiceGraphValidation ServiceGraphValidationFailure)
    : list ServiceGraphWarning :=
  match validation with Ok v => v.(gv_warnings) | Err f => f.(gf_warnings) end.

(** The plan for definitions whose roles have been synthesised, in a mode that
    starts services. *)
Definition plan_services (mode : BootMode) (services : list ServiceDefinition)
    (max_parallel_starts observed_at_ns : Z) (context : Phase2PlanContext) (ids : Allocators)
    : option (Allocators * Result Phase2BootPlan Phase2BootPlanError) :=
  downgrade ← downgrade_findings mode services;
  match downgrade with
  | Err error => Some (ids, Err error)
  | Ok safe_mode_downgrade =>
      let mode := effective_mode mode safe_mode_downgrade in
      validation ← validate_service_graph services;
      graph ← build_phase2_boot_graph mode services;
      match graph with
      | Err error => Some (ids, Err error)
      | Ok graph =>
          let blocked := graph.(bg_blocked) ++ map undecodable_draft context.(pc_undecodable) in
          let order := filter (λ service, service.(ss_name) ∉ context.(pc_retained_satisfied))
                         graph.(bg_ordered_startable) in
          Some (allocate_plan mode observed_at_ns max_parallel_starts safe_mode_downgrade
                  (plan_warnings validation) order blocked ids)
      end
  end.

Definition prepare_phase2_boot_plan_with_retained (mode : BootMode) (services : list ServiceDefinition)
    (max_parallel_starts observed_at_ns : Z) (context : Phase2PlanContext) (ids : Allocators)
    : option (Allocators * Result Phase2BootPlan Phase2BootPlanError) :=
  if (max_parallel_starts =? 0)%Z then Some (ids, Err InvalidMaxParallelStarts)
  else if bool_decide (mode = ModeRecovery) then
    Some (ids, Ok (recovery_plan observed_at_ns max_parallel_starts))
  else plan_services mode (synthesise_role_dependencies services) max_parallel_starts observed_at_ns
         context ids.

Definition prepare_phase2_boot_plan (mode : BootMode) (services : list ServiceDefinition)
    (max_parallel_starts observed_at_ns : Z) (ids : Allocators)
    : option (Allocators * Result Phase2BootPlan Phase2BootPlanError) :=
  prepare_phase2_boot_plan_with_retained mode services max_parallel_starts observed_at_ns
    {| pc_retained_satisfied := []; pc_undecodable := [] |} ids.
End Planner.

(** ** Dispatching a plan ([operation/store/boot.rs]) *)

Record Phase2BootDispatch : Type := {
  bx_blocked_operation_ids : list OperationId;
  bx_start_operation_ids : list OperationId;
  bx_events : list OperationEvent;
}.

Definition dependency_kind_name (kind : ServiceDependencyKind) : string :=
  match kind with DepRequires => "Requires" | DepWants => "Wants" | DepBindsTo => "BindsTo" end.

Definition blocked_failure_reason (reason : BlockedReason) : string :=
  match reason with
  | HardDependencyUnavailable target kind =>
      "DependencyFailure: " +:+ dependency_kind_name kind +:+ " dependency " +:+ target +:+ " is unavailable"
  | HardDependencyBlocked target kind =>
      "DependencyFailure: " +:+ dependency_kind_name kind +:+ " dependency " +:+ target +:+ " is blocked"
  | CycleDetected services => "CycleDetected: dependency cycle " +:+ str_join " -> " services
  | ConflictingBootService target => "ValidationError: boot conflict with " +:+ target
  | ValidationError message => "ValidationError: " +:+ message
  end.

Definition blocked_failure_message (blocked : BlockedService) : string :=
  let primary := blocked_failure_reason blocked.(bs_reason) in
  match blocked.(bs_additional_reasons) with
  | [] => primary
  | additional_reasons =>
      primary +:+ " (also: " +:+ str_join "; " (map blocked_failure_reason additional_reasons) +:+ ") [" +:+
      u64_to_string (Z.of_nat (List.length additional_reasons + 1)) +:+ " findings]"
  end.

Definition boot_request (id : OperationId) (service : string) (observed_at_ns : Z) : OperationRequest := {|
  rq_id := id;
  rq_operation_type := OpStart;
  rq_service := service;
  rq_source := SrcBoot;
  rq_caller := None;
  rq_created_at_ns := observed_at_ns;
|}.

(** The body of each of the two loops. A failing call returns with what the
    calls before it have done to the store. *)
Definition dispatch_blocked (observed_at_ns : Z) (blocked : BlockedService) (self : OperationStore)
    : StoreResult (list OperationEvent) :=
  match request_operation (boot_request blocked.(bs_operation_id) blocked.(bs_service) observed_at_ns) self with
  | (self, Err error) => (self, Err error)
  | (self, Ok outcome) =>
      match fail_operation blocked.(bs_operation_id) observed_at_ns (blocked_failure_message blocked) self with
      | (self, Err error) => (self, Err error)
      | (self, Ok event) => (self, Ok (outcome.(ro_events) ++ [event]))
      end
  end.

Definition dispatch_start (observed_at_ns : Z) (start : PreparedStart) (self : OperationStore)
    : StoreResult (list OperationEvent) :=
  match request_operation (boot_request start.(ps_operation_id) start.(ps_service) observed_at_ns) self with
  | (self, Err error) => (self, Err error)
  | (self, Ok outcome) => (self, Ok outcome.(ro_events))
  end.

(** Running a body over a list, collecting the events. *)
Fixpoint dispatch_each {A} (body : A → OperationStore → StoreResult (list OperationEvent))
    (l : list A) (self : OperationStore) : StoreResult (list OperationEvent) :=
  match l with
  | [] => (self, Ok [])
  | x :: l =>
      match body x self with
      | (self, Err error) => (self, Err error)
      | (self, Ok events) =>
          match dispatch_each body l self with
          | (self, Err error) => (self, Err error)
          | (self, Ok rest) => (self, Ok (events ++ rest))
          end
      end
  end.

Definition dispatch_phase2_boot_plan (plan : Phase2BootPlan) (self : OperationStore)
    : StoreResult Phase2BootDispatch :=
  match dispatch_each (dispatch_blocked plan.(bp_observed_at_ns)) plan.(bp_blocked) self with
  | (self, Err error) => (self, Err error)
  | (self, Ok blocked_events) =>
      match dispatch_each (dispatch_start plan.(bp_observed_at_ns)) plan.(bp_starts) self with
      | (self, Err error) => (self, Err error)
      | (self, Ok start_events) =>
          (self, Ok {| bx_blocked_operation_ids := map bs_operation_id plan.(bp_blocked);
                       bx_start_operation_ids := map ps_operation_id plan.(bp_starts);
                       bx_events := blocked_events ++ start_events |})
      end
  end.

(** ** Identifiers *)

Lemma allocate_batch_ids next count t next' ids :
  allocate_batch next count t = (next', Ok ids) →
  List.length ids = count ∧ next' = (next + Z.of_nat count)%Z ∧
  (0 ≤ t → 0 ≤ next → next + Z.of_nat count ≤ SEQUENCE_SPACE → NoDup ids)%Z.
Proof.
  unfold allocate_batch. destruct (Nat.eqb_spec count 0) as [->|].
  { intros [= <- <-]. split_and!; [done|lia|]. intros. constructor. }
  destruct (u64_checked_add _ _); [|done]. destruct (seeds t next count) as [l|] eqn:E; [|done].
  intros [= <- <-]. assert (∀ n c l, seeds t n c = Ok l → List.length l = c) as Hlen.
  { intros n0 c. revert n0. induction c as [|c IH]; simpl; intros n0 l0; [by intros [= <-]|].
    destruct (from_seed t n0); [|done]. destruct (seeds t (n0 + 1) c) eqn:Es; [|done].
    intros [= <-]. simpl. f_equal. by eapply IH. }
  split_and!; [by eapply Hlen|done|]. intros Ht Hn Hb.
  apply (NoDup_fmap_1 id_sequence). change (NoDup (map id_sequence l)). rewrite (seeds_sequences t next count l) by done.
  apply NoDup_ListNoDup, List.NoDup_map_inv with (f := λ z, Z.to_nat (z - next)).
  rewrite List.map_map. erewrite List.map_ext; [rewrite List.map_id; apply List.seq_NoDup|].
  intros. simpl. lia.
Qed.

Lemma map_combine_fst {A B C} (f : A → C) (l : list A) (k : list B) :
  (List.length l ≤ List.length k)%nat → map (λ p, f p.1) (combine l k) = map f l.
Proof. revert k. induction l as [|x l IH]; intros [|y k] Hl; simpl in *; try (done || lia). rewrite IH by lia. done. Qed.

Lemma map_combine_snd {A B} (l : list A) (k : list B) :
  map snd (combine l k) = take (List.length l) k.
Proof. revert k. induction l as [|x l IH]; intros [|y k]; simpl; [done..|]. by rewrite IH. Qed.

Lemma length_drop_app {A} (l : list A) n m : List.length l = (n + m)%nat → List.length (drop n l) = m.
Proof. intros H. rewrite length_drop. lia. Qed.

Lemma map_filter_names {A B} (f : A → B) (P : B → Prop) `{∀ y, Decision (P y), ∀ x, Decision (P (f x))} l :
  map f (filter (λ x, P (f x)) l) = filter P (map f l).
Proof. induction l as [|x l IH]; simpl; [done|]. rewrite !filter_cons. by repeat case_decide; simpl; rewrite IH. Qed.

(** What a plan is made of. *)
Record planned (ids ids' : Allocators) (mode : BootMode) (observed_at_ns max_parallel_starts : Z)
    (downgrade : list SafeModeDowngrade) (order : list StartableService)
    (blocked : list BlockedServiceDraft) (plan : Phase2BootPlan) : Prop := {
  pl_mode : plan.(bp_mode) = mode;
  pl_observed : plan.(bp_observed_at_ns) = observed_at_ns;
  pl_max : plan.(bp_max_parallel_starts) = max_parallel_starts;
  pl_downgrade : plan.(bp_safe_mode_downgrade) = downgrade;
  pl_starts : map (λ s, (s.(ps_service), s.(ps_cause), s.(ps_identity))) plan.(bp_starts) =
    map (λ s, (s.(ss_name), s.(ss_cause), s.(ss_identity))) order;
  pl_blocked : map (λ b, (b.(bs_service), b.(bs_reason), b.(bs_additional_reasons))) plan.(bp_blocked) =
    map (λ d, (d.(bd_service), d.(bd_reason), d.(bd_additional_reasons))) blocked;
  pl_ids : ids' = ((ids.1 + Z.of_nat (List.length order + List.length blocked))%Z,
                   (ids.2 + Z.of_nat (List.length order))%Z);
  pl_operation_ids : (0 ≤ observed_at_ns ∧ 0 ≤ ids.1 ∧ ids'.1 ≤ SEQUENCE_SPACE)%Z →
    NoDup (map ps_operation_id plan.(bp_starts) ++ map bs_operation_id plan.(bp_blocked));
  pl_job_ids : (0 ≤ observed_at_ns ∧ 0 ≤ ids.2 ∧ ids'.2 ≤ SEQUENCE_SPACE)%Z →
    NoDup (map ps_job_id plan.(bp_starts));
}.

Lemma allocate_plan_spec mode observed_at_ns max downgrade warnings order blocked ids :
  let '(ids', r) := allocate_plan mode observed_at_ns max downgrade warnings order blocked ids in
  match r with
  | Err _ => ids' = ids
  | Ok plan => planned ids ids' mode observed_at_ns max downgrade order blocked plan
  end.
Proof.
  destruct ids as [op job]. unfold allocate_plan.
  destruct (allocate_batch job _ _) as [job' [jl|]] eqn:Ej; [|done].
  destruct (allocate_batch op _ _) as [op' [ol|]] eqn:Eo; [|done].
  apply allocate_batch_ids in Ej as (Lj & -> & Nj), Eo as (Lo & -> & No).
  assert (List.length (combine order ol) = List.length order) as Lc by (rewrite length_combine; lia).
  assert (map prepared_start (combine (combine order ol) jl) =
    map (λ p, {| ps_service := p.1.1.(ss_name); ps_operation_id := p.1.2; ps_job_id := p.2;
                 ps_cause := p.1.1.(ss_cause); ps_identity := p.1.1.(ss_identity) |})
      (combine (combine order ol) jl)) as -> by (apply List.map_ext; by intros [[? ?] ?]).
  assert (map blocked_service (combine blocked (drop (List.length order) ol)) =
    map (λ p, {| bs_service := p.1.(bd_service); bs_operation_id := p.2; bs_reason := p.1.(bd_reason);
                 bs_additional_reasons := p.1.(bd_additional_reasons) |})
      (combine blocked (drop (List.length order) ol))) as -> by (apply List.map_ext; by intros [? ?]).
  pose proof (length_drop_app _ _ _ Lo) as Ld.
  assert (map ps_operation_id (map (λ p, {| ps_service := p.1.1.(ss_name); ps_operation_id := p.1.2; ps_job_id := p.2;
     ps_cause := p.1.1.(ss_cause); ps_identity := p.1.1.(ss_identity) |}) (combine (combine order ol) jl)) =
     take (List.length order) ol) as Hops.
  { rewrite List.map_map. transitivity (map snd (combine order ol)); [|apply map_combine_snd].
    apply (map_combine_fst snd (combine order ol) jl). lia. }
  split; cbn [bp_mode bp_observed_at_ns bp_max_parallel_starts bp_safe_mode_downgrade bp_starts bp_blocked fst snd]; try done.
  - rewrite List.map_map. transitivity (map (λ q, (q.1.(ss_name), q.1.(ss_cause), q.1.(ss_identity))) (combine order ol)).
    + apply (map_combine_fst (λ q, (q.1.(ss_name), q.1.(ss_cause), q.1.(ss_identity))) (combine order ol) jl). lia.
    + apply (map_combine_fst (λ s, (s.(ss_name), s.(ss_cause), s.(ss_identity))) order ol). lia.
  - rewrite List.map_map.
    apply (map_combine_fst (λ d, (d.(bd_service), d.(bd_reason), d.(bd_additional_reasons))) blocked (drop (List.length order) ol)). lia.
  - intros (Ht & Hn & Hb). rewrite Hops, List.map_map.
    change (NoDup (take (List.length order) ol ++ map snd (combine blocked (drop (List.length order) ol)))).
    rewrite map_combine_snd, (take_ge (drop _ _)) by lia. rewrite take_drop. apply No; lia.
  - intros (Ht & Hn & Hb). rewrite List.map_map.
    change (NoDup (map snd (combine (combine order ol) jl))). rewrite map_combine_snd, take_ge by lia. apply Nj; lia.
Qed.

(** ** Plans *)

Lemma validate_service_graph_total `{CalendarSyntax} services : is_Some (validate_service_graph services).
Proof.
  unfold validate_service_graph, cycle_findings.
  destruct (find_cycles_spec (di_by_name (index_graph (synthesise_role_dependencies services)))) as (c & -> & _).
  by eexists.
Qed.

Lemma downgrade_findings_total mode services :
  ∃ r, downgrade_findings mode services = Some r ∧ (mode ≠ ModeFull → r = Ok []).
Proof.
  unfold downgrade_findings. case_bool_decide as Hm; [|by eexists].
  pose proof (service_map_spec services) as Hs. unfold safe_mode_downgrade_findings.
  destruct (service_map services) as [by_name|e]; [|by eexists]. destruct Hs as (_ & Hwf & Hmap).
  destruct (collect_boot_closure_ok (H := λ _, None) ModeFull services by_name Hwf Hmap) as (cl & -> & _).
  destruct (critical_cycles_from_ok by_name (S (size cl.(bc_included))) cl.(bc_included) []) as (cs & E & _); [lia|].
  cbn [mbind option_bind]. unfold critical_cycles. rewrite E. by eexists.
Qed.

Lemma build_graph_total `{CalendarSyntax} mode services : is_Some (build_phase2_boot_graph mode services).
Proof.
  pose proof (build_phase2_boot_graph_spec mode services) as Hs.
  destruct (service_map services); [destruct Hs as (? & ? & ? & -> & _)|rewrite Hs]; eauto.
Qed.

(** The services a plan starts and those it fails, from the graph. *)
Definition planned_order (context : Phase2PlanContext) (graph : Phase2BootGraph) : list StartableService :=
  filter (λ service, service.(ss_name) ∉ context.(pc_retained_satisfied)) graph.(bg_ordered_startable).

Definition planned_blocked (context : Phase2PlanContext) (graph : Phase2BootGraph) : list BlockedServiceDraft :=
  graph.(bg_blocked) ++ map undecodable_draft context.(pc_undecodable).

Lemma plan_services_spec `{CalendarSyntax} mode services max at_ns context ids :
  ∃ ids' r, plan_services mode services max at_ns context ids = Some (ids', r) ∧
  match r with
  | Err _ => ids' = ids
  | Ok plan => ∃ graph downgrade,
      downgrade_findings mode services = Some (Ok downgrade) ∧
      build_phase2_boot_graph (effective_mode mode downgrade) services = Some (Ok graph) ∧
      planned ids ids' (effective_mode mode downgrade) at_ns max downgrade (planned_order context graph)
        (planned_blocked context graph) plan
  end.
Proof.
  unfold plan_services. destruct (downgrade_findings_total mode services) as ([dg|e] & -> & _); cbn [mbind option_bind];
    [|by eexists _, _].
  destruct (validate_service_graph_total services) as [v ->]. cbn [mbind option_bind].
  destruct (build_graph_total (effective_mode mode dg) services) as [[graph|e] E]; rewrite E; cbn [mbind option_bind];
    [|by eexists _, _].
  pose proof (allocate_plan_spec (effective_mode mode dg) at_ns max dg (plan_warnings v)
    (planned_order context graph) (planned_blocked context graph) ids) as Hp.
  fold (planned_order context graph) (planned_blocked context graph).
  destruct (allocate_plan _ _ _ _ _ _ _ _) as [ids' r]. eexists ids', r. split; [done|].
  destruct r as [plan|]; [|done]. by exists graph, dg.
Qed.

(** A boot plan accounts for every service of its graph. Planning always
    answers; on an error neither identifier sequence has moved; a Recovery boot
    plans nothing; otherwise the plan's mode is the requested one, or Safe when
    a Full boot had to be downgraded, its starts are the startable services of
    that mode's graph in order, less those a retained process already
    satisfies, its blocked services are the graph's and the undecodable ones,
    and the operation identifiers of all of them, and the job identifiers of the
    starts, are pairwise distinct. *)
Theorem boot_plan_accounts_for_every_service `{CalendarSyntax} mode services max at_ns context ids :
  match prepare_phase2_boot_plan_with_retained mode services max at_ns context ids with
  | None => False
  | Some (ids', Err _) => ids' = ids
  | Some (ids', Ok plan) =>
      (mode = ModeRecovery ∧ ids' = ids ∧ plan = recovery_plan at_ns max) ∨
      (mode ≠ ModeRecovery ∧
       ∃ graph downgrade,
         downgrade_findings mode (synthesise_role_dependencies services) = Some (Ok downgrade) ∧
         plan.(bp_mode) = (if decide (downgrade = []) then mode else ModeSafe) ∧
         build_phase2_boot_graph plan.(bp_mode) (synthesise_role_dependencies services) = Some (Ok graph) ∧
         map ps_service plan.(bp_starts) =
           filter (.∉ context.(pc_retained_satisfied)) (map ss_name graph.(bg_ordered_startable)) ∧
         map bs_service plan.(bp_blocked) =
           map bd_service graph.(bg_blocked) ++ map un_name context.(pc_undecodable) ∧
         ((0 ≤ at_ns ∧ 0 ≤ ids.1 ∧ ids'.1 ≤ SEQUENCE_SPACE)%Z →
          NoDup (map ps_operation_id plan.(bp_starts) ++ map bs_operation_id plan.(bp_blocked))) ∧
         ((0 ≤ at_ns ∧ 0 ≤ ids.2 ∧ ids'.2 ≤ SEQUENCE_SPACE)%Z → NoDup (map ps_job_id plan.(bp_starts))))
  end.
Proof.
  unfold prepare_phase2_boot_plan_with_retained. destruct (max =? 0)%Z; [done|]. case_bool_decide as Hm; [by left|].
  destruct (plan_services_spec mode (synthesise_role_dependencies services) max at_ns context ids)
    as (ids' & r & -> & Hr). destruct r as [plan|]; [|done]. right. split; [done|].
  destruct Hr as (graph & dg & Hdg & Hg & P). exists graph, dg.
  pose proof (pl_starts _ _ _ _ _ _ _ _ _ P) as Hst. pose proof (pl_blocked _ _ _ _ _ _ _ _ _ P) as Hbl.
  apply (f_equal (map (λ t : string * StartCause * string, t.1.1))) in Hst.
  apply (f_equal (map (λ t : string * BlockedReason * list BlockedReason, t.1.1))) in Hbl.
  rewrite !List.map_map in Hst, Hbl. simpl in Hst, Hbl.
  split_and!; [done| | | | |apply P|apply P].
  - rewrite (pl_mode _ _ _ _ _ _ _ _ _ P). by destruct dg.
  - by rewrite (pl_mode _ _ _ _ _ _ _ _ _ P).
  - etransitivity; [exact Hst|]. unfold planned_order. apply (map_filter_names ss_name (.∉ context.(pc_retained_satisfied))).
  - etransitivity; [exact Hbl|]. unfold planned_blocked. rewrite List.map_app, List.map_map. done.
Qed.

(** ** Dispatch *)

Section Dispatch.
Context (at_ns : Z) (Hat : (0 ≤ at_ns)%Z).

Definition boot_record (id : OperationId) (service : string) : OperationRecord :=
  record_from_request (boot_request id service at_ns).

(** A request for a service with nothing active is stored and alone active. *)
Lemma request_when_quiet id service s :
  store_wf s → s.(op_records) !! id = None → active_for_service s service = [] →
  ∃ s' events, request_operation (boot_request id service at_ns) s =
      (s', Ok {| ro_returned_operation_id := id; ro_stored_operation_id := id;
                 ro_decision := CreateNew; ro_events := events |}) ∧
    store_wf s' ∧ s'.(op_records) = <[id := boot_record id service]> s.(op_records) ∧
    ∀ other, active_for_service s' other = if decide (other = service) then [id] else active_for_service s other.
Proof. intros Hwf Hid Hq. by apply (quiet_request (boot_request id service at_ns)). Qed.

Definition failed_boot_record (blocked : BlockedService) : OperationRecord :=
  finished OsFailed at_ns (blocked_failure_message blocked)
    (boot_record blocked.(bs_operation_id) blocked.(bs_service)).

(** A blocked service: its operation is recorded as failed, nothing stays
    active. *)
Lemma dispatch_blocked_ok b s :
  store_wf s → s.(op_records) !! b.(bs_operation_id) = None → active_for_service s b.(bs_service) = [] →
  ∃ s' events, dispatch_blocked at_ns b s = (s', Ok events) ∧ store_wf s' ∧
    s'.(op_records) = <[b.(bs_operation_id) := failed_boot_record b]> s.(op_records) ∧
    ∀ other, active_for_service s' other = active_for_service s other.
Proof.
  intros Hwf Hid Hq. unfold dispatch_blocked.
  destruct (request_when_quiet b.(bs_operation_id) b.(bs_service) s Hwf Hid Hq) as (s1 & ev & -> & Hwf1 & Hr1 & Ha1).
  pose proof (end_operation_spec b.(bs_operation_id) (op_fail at_ns (blocked_failure_message b)) event_failed s1
    (op_fail_finishes _ _) (proj1 (proj2 events_report)) Hwf1) as H.
  unfold fail_operation. destruct (end_operation _ _ _ s1) as [s2 [e2|e2]].
  - destruct H as (Hwf2 & r & r' & Er & _ & Es & _ & _ & ->).
    rewrite Hr1, lookup_insert_eq in Er. injection Er as <-. eexists _, _. split; [done|]. split; [done|].
    assert (r' = failed_boot_record b) as ->.
    { unfold op_fail, op_finish, ensure_completed_at in Es. simpl in Es.
      destruct (Z.ltb_spec at_ns at_ns); [lia|]. simpl in Es. by injection Es as <-. }
    split; [simpl; rewrite Hr1; apply insert_insert_eq|].
    intros other. rewrite active_after_remove. change (active_for_service (put_record _ _ s1)) with (active_for_service s1).
    rewrite !Ha1. simpl. case_bool_decide; case_decide; try done. subst. rewrite Hq. unfold retain.
    rewrite filter_cons. rewrite bool_decide_eq_true_2 by done. done.
  - destruct H as [_ H]. rewrite Hr1, lookup_insert_eq in H. destruct H as (t & Et & _).
    unfold op_fail, op_finish, ensure_completed_at in Et. simpl in Et.
    destruct (Z.ltb_spec at_ns at_ns); [lia|]. done.
Qed.

Lemma dispatch_all_blocked l s :
  store_wf s → NoDup (map bs_operation_id l) →
  (∀ b, b ∈ l → s.(op_records) !! b.(bs_operation_id) = None ∧ active_for_service s b.(bs_service) = []) →
  ∃ s' events, dispatch_each (dispatch_blocked at_ns) l s = (s', Ok events) ∧ store_wf s' ∧
    (∀ b, b ∈ l → s'.(op_records) !! b.(bs_operation_id) = Some (failed_boot_record b)) ∧
    (∀ id, id ∉ map bs_operation_id l → s'.(op_records) !! id = s.(op_records) !! id) ∧
    ∀ other, active_for_service s' other = active_for_service s other.
Proof.
  revert s. induction l as [|b l IH]; intros s Hwf Hn Hl; simpl.
  { eexists _, _. split; [done|]. split_and!; try done. by intros ? []%elem_of_nil. }
  apply NoDup_cons in Hn as [Hb Hn]. destruct (Hl b ltac:(left)) as [Hid Hq].
  destruct (dispatch_blocked_ok b s Hwf Hid Hq) as (s1 & e1 & -> & Hwf1 & Hr1 & Ha1).
  destruct (IH s1 Hwf1 Hn) as (s2 & e2 & -> & Hwf2 & Hin & Hout & Ha2).
  { intros b' Hb'. destruct (Hl b' ltac:(by right)) as [? ?]. rewrite Hr1, Ha1. split; [|done].
    rewrite lookup_insert_ne; [done|]. intros E. apply Hb. rewrite E. by apply list_elem_of_fmap_2. }
  eexists _, _. split; [done|]. split_and!; [done| | |].
  - intros b' [->|Hb']%elem_of_cons; [|auto]. rewrite Hout by done. by rewrite Hr1, lookup_insert_eq.
  - intros id [? ?]%not_elem_of_cons. rewrite Hout by done. by rewrite Hr1, lookup_insert_ne.
  - intros other. by rewrite Ha2, Ha1.
Qed.

Lemma dispatch_all_starts l s :
  store_wf s → NoDup (map ps_operation_id l) → NoDup (map ps_service l) →
  (∀ p, p ∈ l → s.(op_records) !! p.(ps_operation_id) = None ∧ active_for_service s p.(ps_service) = []) →
  ∃ s' events, dispatch_each (dispatch_start at_ns) l s = (s', Ok events) ∧ store_wf s' ∧
    (∀ p, p ∈ l → s'.(op_records) !! p.(ps_operation_id) = Some (boot_record p.(ps_operation_id) p.(ps_service)) ∧
       active_for_service s' p.(ps_service) = [p.(ps_operation_id)]) ∧
    (∀ id, id ∉ map ps_operation_id l → s'.(op_records) !! id = s.(op_records) !! id) ∧
    ∀ other, other ∉ map ps_service l → active_for_service s' other = active_for_service s other.
Proof.
  revert s. induction l as [|p l IH]; intros s Hwf Hn Hns Hl; simpl.
  { eexists _, _. split; [done|]. split_and!; try done. by intros ? []%elem_of_nil. }
  apply NoDup_cons in Hn as [Hp Hn], Hns as [Hps Hns]. destruct (Hl p ltac:(left)) as [Hid Hq].
  unfold dispatch_start at 1.
  destruct (request_when_quiet p.(ps_operation_id) p.(ps_service) s Hwf Hid Hq) as (s1 & ev & -> & Hwf1 & Hr1 & Ha1).
  assert (∀ p', p' ∈ l → p'.(ps_operation_id) ≠ p.(ps_operation_id) ∧ p'.(ps_service) ≠ p.(ps_service)) as Hne.
  { intros p' Hp'. split; intros E; [apply Hp|apply Hps]; rewrite <-E; by apply list_elem_of_fmap_2. }
  destruct (IH s1 Hwf1 Hn Hns) as (s2 & e2 & -> & Hwf2 & Hin & Hout & Ha2).
  { intros p' Hp'. destruct (Hl p' ltac:(by right)) as [? ?]. destruct (Hne p' Hp') as [? ?].
    rewrite Hr1, Ha1, lookup_insert_ne, decide_False by done. done. }
  eexists _, _. split; [done|]. split_and!; [done| | |].
  - intros p' [->|Hp']%elem_of_cons; [|auto]. rewrite Hout, Ha2 by done.
    rewrite Hr1, lookup_insert_eq, Ha1, decide_True by done. done.
  - intros id [? ?]%not_elem_of_cons. rewrite Hout by done. by rewrite Hr1, lookup_insert_ne.
  - intros other [? ?]%not_elem_of_cons. rewrite Ha2 by done. by rewrite Ha1, decide_False.
Qed.
End Dispatch.

Lemma graph_starts_nodup `{CalendarSyntax} mode services graph :
  build_phase2_boot_graph mode services = Some (Ok graph) → NoDup (map ss_name graph.(bg_ordered_startable)).
Proof.
  intros E. pose proof (build_phase2_boot_graph_spec mode services) as Hs.
  destruct (service_map services); [|by rewrite Hs in E]. destruct Hs as (g & inc & bl & E' & G).
  rewrite E' in E. simplify_eq. rewrite (bf_order _ _ _ _ _ _ (go_facts _ _ _ _ _ _ G)). apply NoDup_elements.
Qed.

(** The identifiers an allocator still has left. *)
Definition ids_in_range (at_ns : Z) (ids ids' : Allocators) : Prop :=
  (0 ≤ at_ns ∧ 0 ≤ ids.1 ∧ ids'.1 ≤ SEQUENCE_SPACE)%Z.

(** What dispatching [plan] into [s] leaves. *)
Record dispatched (plan : Phase2BootPlan) (s s' : OperationStore) (d : Phase2BootDispatch) : Prop := {
  di_wf : store_wf s';
  di_starts : ∀ p, p ∈ plan.(bp_starts) →
    s'.(op_records) !! p.(ps_operation_id) =
      Some (boot_record plan.(bp_observed_at_ns) p.(ps_operation_id) p.(ps_service)) ∧
    active_for_service s' p.(ps_service) = [p.(ps_operation_id)];
  di_blocked : ∀ b, b ∈ plan.(bp_blocked) →
    s'.(op_records) !! b.(bs_operation_id) = Some (failed_boot_record plan.(bp_observed_at_ns) b);
  di_others : ∀ id, id ∉ map ps_operation_id plan.(bp_starts) ++ map bs_operation_id plan.(bp_blocked) →
    s'.(op_records) !! id = s.(op_records) !! id;
  di_start_ids : d.(bx_start_operation_ids) = map ps_operation_id plan.(bp_starts);
  di_blocked_ids : d.(bx_blocked_operation_ids) = map bs_operation_id plan.(bp_blocked);
}.

Lemma dispatch_plan_ok plan s :
  store_wf s → (0 ≤ plan.(bp_observed_at_ns))%Z → NoDup (map ps_service plan.(bp_starts)) →
  NoDup (map ps_operation_id plan.(bp_starts) ++ map bs_operation_id plan.(bp_blocked)) →
  (∀ id, id ∈ map ps_operation_id plan.(bp_starts) ++ map bs_operation_id plan.(bp_blocked) →
     s.(op_records) !! id = None) →
  (∀ service, service ∈ map ps_service plan.(bp_starts) ++ map bs_service plan.(bp_blocked) →
     active_for_service s service = []) →
  ∃ s' d, dispatch_phase2_boot_plan plan s = (s', Ok d) ∧ dispatched plan s s' d.
Proof.
  intros Hwf Hat Hns (Hn1 & Hdis & Hn2)%NoDup_app Hfresh Hquiet. unfold dispatch_phase2_boot_plan.
  destruct (dispatch_all_blocked plan.(bp_observed_at_ns) Hat plan.(bp_blocked) s Hwf Hn2)
    as (s1 & e1 & -> & Hwf1 & Hin1 & Hout1 & Ha1).
  { intros b Hb. split; [apply Hfresh|apply Hquiet]; apply elem_of_app; right; by apply list_elem_of_fmap_2. }
  destruct (dispatch_all_starts plan.(bp_observed_at_ns) Hat plan.(bp_starts) s1 Hwf1 Hn1 Hns)
    as (s2 & e2 & -> & Hwf2 & Hin2 & Hout2 & Ha2).
  { intros p Hp. assert (p.(ps_operation_id) ∈ map ps_operation_id plan.(bp_starts)) as Hid by (by apply list_elem_of_fmap_2).
    rewrite Ha1, Hout1 by (intros ?; by eapply Hdis).
    split; [apply Hfresh|apply Hquiet]; apply elem_of_app; left; by apply list_elem_of_fmap_2. }
  eexists s2, _. split; [done|]. split; try done.
  - intros b Hb. rewrite Hout2; [auto|]. intros ?. eapply Hdis; [done|]. by apply list_elem_of_fmap_2.
  - intros id [? ?]%not_elem_of_app. by rewrite Hout2, Hout1.
Qed.

Lemma dispatch_of_plan `{CalendarSyntax} mode services max at_ns context ids ids' plan :
  prepare_phase2_boot_plan_with_retained mode services max at_ns context ids = Some (ids', Ok plan) →
  ids_in_range at_ns ids ids' →
  ∃ s d, dispatch_phase2_boot_plan plan op_store_new = (s, Ok d) ∧ dispatched plan op_store_new s d.
Proof.
  intros E Hr. unfold prepare_phase2_boot_plan_with_retained in E. destruct (max =? 0)%Z; [done|].
  destruct (bool_decide (mode = ModeRecovery)).
  { injection E as <- <-. apply dispatch_plan_ok; simpl; try apply op_store_new_wf; try constructor;
      try apply Hr; by intros ? []%elem_of_nil. }
  destruct (plan_services_spec mode (synthesise_role_dependencies services) max at_ns context ids)
    as (ids1 & r & E1 & Hplan). rewrite E1 in E. injection E as <- ->.
  destruct Hplan as (graph & dg & _ & Hg & P). apply dispatch_plan_ok; try done.
  - apply op_store_new_wf.
  - rewrite (pl_observed _ _ _ _ _ _ _ _ _ P). apply Hr.
  - pose proof (pl_starts _ _ _ _ _ _ _ _ _ P) as Hst.
    apply (f_equal (map (λ t : string * StartCause * string, t.1.1))) in Hst. rewrite !List.map_map in Hst. simpl in Hst.
    change (NoDup (map (λ x, ps_service x) plan.(bp_starts))). rewrite Hst. unfold planned_order.
    change (NoDup (map ss_name (filter (λ x, ss_name x ∉ pc_retained_satisfied context) (bg_ordered_startable graph)))).
    rewrite (map_filter_names ss_name (.∉ context.(pc_retained_satisfied))). apply NoDup_filter. by eapply graph_starts_nodup.
  - by apply (pl_operation_ids _ _ _ _ _ _ _ _ _ P).
Qed.

(** Dispatching the plan of a boot into the empty operation store never
    fails: every service to start has exactly one active operation, pending and
    sourced from the boot, every blocked service has an operation that failed
    with the message listing its findings, there is no other record, and the
    store satisfies its invariant. *)
Theorem boot_plan_dispatches `{CalendarSyntax} mode services max at_ns context ids ids' plan :
  prepare_phase2_boot_plan_with_retained mode services max at_ns context ids = Some (ids', Ok plan) →
  ids_in_range at_ns ids ids' →
  ∃ s d, dispatch_phase2_boot_plan plan op_store_new = (s, Ok d) ∧ dispatched plan op_store_new s d.
Proof. apply dispatch_of_plan. Qed.

Lemma boot_plan_dispatches_witness :
  ∃ s d plan, dispatch_phase2_boot_plan plan op_store_new = (s, Ok d) ∧ dispatched plan op_store_new s d ∧
    map ps_service plan.(bp_starts) = ["db"] ∧ map bs_service plan.(bp_blocked) = ["ui"; "web"; "junk"].
Proof.
  destruct (prepare_phase2_boot_plan_with_retained (H := any_calendar) ModeFull boot_example 10 1000000
    {| pc_retained_satisfied := ["log"];
       pc_undecodable := [{| un_name := "junk"; un_field := None; un_message := "bad type" |}] |} (0, 0)%Z)
    as [[ids' [plan|]]|] eqn:E; [|by vm_compute in E..].
  destruct (@boot_plan_dispatches any_calendar _ _ _ _ _ _ _ _ E) as (s & d & H1 & H2).
  - vm_compute in E. injection E as <- <-. vm_compute. done.
  - exists s, d, plan. vm_compute in E. injection E as _ E. split; [exact H1|]. split; [exact H2|].
    rewrite <-E. split; reflexivity.
Defined.
