(* ===== verification/BootRun.v ===== *)
(** * The run of phase 2

    Models [src/src/boot/phase2/coordinator.rs] with [coordinator/model.rs] and
    [coordinator/registry.rs], the settings they read ([ShutdownSettings] of
    [src/src/shutdown/model.rs], [RuntimeLogConfig] of
    [src/src/logging/config.rs] and the log reader of
    [src/src/registry/config.rs]), and the trait [RegistryClient] of
    [src/src/boundary/model/registry.rs] as a class.

    A registry client is a state: a read may change it, so a run is a
    computation in a state and error monad over the client. What the operation
    store, the two allocators and the clock do is passed explicitly. *)

From S2P Require Import Prelude RustStr ServiceRuntime ServiceDef Ids Roles Calendar Restart Cgroup ServiceTable Shutdown.
From S2P Require Import ServiceReload Graph OperationRecord OperationStore OperationInv BootGraph BootGraphSpec BootPlan.
From Stdlib Require Import String.
Open Scope string_scope.
Open Scope list_scope.

(** ** Settings *)

Definition DEFAULT_MAX_PARALLEL_STARTS : Z := 10.
Definition DEFAULT_BOOT_SUCCESS_GRACE_SECS : Z := 30.
Definition DEFAULT_SETTLE_TIMEOUT_SECS : Z := 5.

Record Phase2BootSettings : Type := {
  bset_mode : BootMode;
  bset_max_parallel_starts : Z;
  bset_boot_success_grace_secs : Z;
  bset_settle_timeout_secs : Z;
}.

Definition boot_settings_default : Phase2BootSettings := {|
  bset_mode := ModeFull;
  bset_max_parallel_starts := DEFAULT_MAX_PARALLEL_STARTS;
  bset_boot_success_grace_secs := DEFAULT_BOOT_SUCCESS_GRACE_SECS;
  bset_settle_timeout_secs := DEFAULT_SETTLE_TIMEOUT_SECS;
|}.

Definition DEFAULT_MAX_LOG_LINE_BYTES : Z := 8192.
Definition DEFAULT_MAX_LOG_BUFFER_PER_SERVICE_BYTES : Z := 65536.
Definition DEFAULT_LOG_READ_BYTES_PER_EVENT : Z := 16384.
Definition DEFAULT_EVENTD_LOG_DATAGRAM_BYTES : Z := 262144.
Definition DEFAULT_PRE_EVENTD_BUFFER_BYTES : Z := 1048576.

Record RuntimeLogConfig : Type := {
  lc_max_line_bytes : Z;
  lc_read_bytes_per_event : Z;
  lc_pre_eventd_buffer_bytes : Z;
  lc_max_buffer_per_service_bytes : Z;
  lc_eventd_log_datagram_bytes : Z;
}.

Definition log_config_default : RuntimeLogConfig := {|
  lc_max_line_bytes := DEFAULT_MAX_LOG_LINE_BYTES;
  lc_read_bytes_per_event := DEFAULT_LOG_READ_BYTES_PER_EVENT;
  lc_pre_eventd_buffer_bytes := DEFAULT_PRE_EVENTD_BUFFER_BYTES;
  lc_max_buffer_per_service_bytes := DEFAULT_MAX_LOG_BUFFER_PER_SERVICE_BYTES;
  lc_eventd_log_datagram_bytes := DEFAULT_EVENTD_LOG_DATAGRAM_BYTES;
|}.

Inductive RegistryConfigWarning : Type :=
| NewerServicesSchemaVersion (observed supported : Z)
| LogConfigValueBelowMinimum (key : string) (configured minimum default : Z).

Definition SUPPORTED_SERVICES_SCHEMA_VERSION : Z := 1.
Definition MIN_MAX_LOG_LINE_BYTES : Z := 256.
Definition MIN_MAX_LOG_BUFFER_PER_SERVICE_BYTES : Z := 4096.
Definition MIN_LOG_READ_BYTES_PER_EVENT : Z := 512.
Definition MIN_PRE_EVENTD_BUFFER_BYTES : Z := 4096.

Definition config_warning_text (self : RegistryConfigWarning) : string :=
  match self with
  | NewerServicesSchemaVersion observed supported =>
      "services schema version " +:+ u64_to_string observed +:+ " is newer than supported version " +:+
      u64_to_string supported +:+ "; continuing with forward-compatible decoding"
  | LogConfigValueBelowMinimum key configured minimum default =>
      "Machine\System\Init\" +:+ key +:+ " is " +:+ u64_to_string configured +:+ ", below the minimum " +:+
      u64_to_string minimum +:+ "; using the default " +:+ u64_to_string default
  end.

Definition services_schema_warnings (schema_version : Z) : list RegistryConfigWarning :=
  if (SUPPORTED_SERVICES_SCHEMA_VERSION <? schema_version)%Z
  then [NewerServicesSchemaVersion schema_version SUPPORTED_SERVICES_SCHEMA_VERSION] else [].

Inductive ControlSecurityDescriptor : Type :=
| CsdDefault
| CsdRegistryBinary (bytes : string).

Record ControlSocketLimits : Type := {
  csl_max_connections : Z;
  csl_max_connections_per_user : Z;
  csl_max_request_bytes : Z;
  csl_connection_timeout_secs : Z;
}.

Record JobsSocketLimits : Type := {
  jsl_max_connections : Z;
  jsl_max_message_bytes : Z;
  jsl_connection_timeout_secs : Z;
  jsl_max_jobs_per_submitter : Z;
}.

Record ServiceDefinitionsRead : Type := {
  sdr_definitions : list ServiceDefinition;
  sdr_undecodable : list UndecodableService;
  sdr_inherited_service_security : option ServiceSecurityDescriptor;
}.

(** ** Reads *)

(** A computation over the client [R] that fails with [E]. *)
Definition Read (R E A : Type) : Type := R → R * Result A E.

Definition read_ret {R E A} (a : A) : Read R E A := λ r, (r, Ok a).
Definition read_bind {R E A B} (m : Read R E A) (k : A → Read R E B) : Read R E B :=
  λ r, match m r with (r, Ok a) => k a r | (r, Err e) => (r, Err e) end.
Definition read_map_err {R E F A} (f : E → F) (m : Read R E A) : Read R F A :=
  λ r, let (r, a) := m r in (r, map_err f a).

Notation "'let!' x ':=' m 'in' k" := (read_bind m (λ x, k))
  (at level 10, x name, m at level 200, k at level 200) : rust_scope.
Notation "'let!' ' x ':=' m 'in' k" := (read_bind m (λ x, k))
  (at level 10, x strict pattern, m at level 200, k at level 200) : rust_scope.

(** The reads of the trait [RegistryClient] phase 2 makes, with the [Clock].
    [E] is [BoundaryError], which the run only passes on. *)
Class RegistryClient (R E : Type) : Type := {
  read_max_parallel_starts : Read R E (option Z);
  read_boot_success_grace_secs : Read R E (option Z);
  read_settle_timeout_secs : Read R E (option Z);
  read_shutdown_timeout_secs : Read R E (option Z);
  read_post_kill_timeout_secs : Read R E (option Z);
  read_max_log_line_length : Read R E (option Z);
  read_max_log_buffer_per_service : Read R E (option Z);
  read_log_read_bytes_per_event : Read R E (option Z);
  read_pre_eventd_buffer_bytes : Read R E (option Z);
  read_service_definitions_partial : Read R E ServiceDefinitionsRead;
  read_services_schema_version : Read R E Z;
  read_control_security : Read R E ControlSecurityDescriptor;
  read_control_socket_limits : Read R E ControlSocketLimits;
  read_jobs_socket_limits : Read R E JobsSocketLimits;
  read_global_environment : Read R E (list ServiceEnvironmentVariable);
  read_eventd_log_socket_path : Read R E (option string);
  monotonic_ns : Read R E Z;
}.

Section Run.
Context {R E : Type} `{RegistryClient R E, CalendarSyntax}.

Inductive Phase2RecoveryReason : Type :=
| RecoveryInvalidMaxParallelStarts
| RecoveryRegistryRead (error : E)
| RecoveryClock (error : E).

Inductive Phase2BootRunError : Type :=
| RecoveryRequired (reason : Phase2RecoveryReason)
| PlanFailed (error : Phase2BootPlanError)
| DispatchFailed (error : OperationStoreError)
| ServiceTableFailed (error : ServiceTableError).

(** [.map_err(Phase2RecoveryReason::RegistryRead).map_err(RecoveryRequired)]. *)
Definition or_recover {A} (m : Read R E A) : Read R Phase2BootRunError A :=
  read_map_err (λ e, RecoveryRequired (RecoveryRegistryRead e)) m.

(** *** [registry/config.rs] *)

(** The closure [accept] for one field, given the default the field holds. *)
Definition accept_log_value (key : string) (configured : option Z) (minimum default : Z)
    : Z * list RegistryConfigWarning :=
  match configured with
  | None => (default, [])
  | Some configured =>
      if (configured <? minimum)%Z
      then (default, [LogConfigValueBelowMinimum key configured minimum default])
      else (configured, [])
  end.

Definition read_log_config_from_registry
    : Read R E (RuntimeLogConfig * list RegistryConfigWarning) :=
  let! line := read_max_log_line_length in
  let '(max_line_bytes, w1) :=
    accept_log_value "MaxLogLineLength" line MIN_MAX_LOG_LINE_BYTES DEFAULT_MAX_LOG_LINE_BYTES in
  let! buffer := read_max_log_buffer_per_service in
  let '(max_buffer, w2) :=
    accept_log_value "MaxLogBufferPerService" buffer MIN_MAX_LOG_BUFFER_PER_SERVICE_BYTES
      DEFAULT_MAX_LOG_BUFFER_PER_SERVICE_BYTES in
  let! event := read_log_read_bytes_per_event in
  let '(read_bytes, w3) :=
    accept_log_value "LogReadBytesPerEvent" event MIN_LOG_READ_BYTES_PER_EVENT
      DEFAULT_LOG_READ_BYTES_PER_EVENT in
  let! pre_eventd := read_pre_eventd_buffer_bytes in
  let '(pre_eventd_bytes, w4) :=
    accept_log_value "PreEventdBuffer" pre_eventd MIN_PRE_EVENTD_BUFFER_BYTES
      DEFAULT_PRE_EVENTD_BUFFER_BYTES in
  read_ret ({| lc_max_line_bytes := max_line_bytes;
               lc_read_bytes_per_event := read_bytes;
               lc_pre_eventd_buffer_bytes := pre_eventd_bytes;
               lc_max_buffer_per_service_bytes := max_buffer;
               lc_eventd_log_datagram_bytes := DEFAULT_EVENTD_LOG_DATAGRAM_BYTES |}, w1 ++ w2 ++ w3 ++ w4).

(** *** [coordinator/registry.rs] *)

Definition read_effective_log_config
    : Read R Phase2BootRunError (RuntimeLogConfig * list RegistryConfigWarning) :=
  or_recover read_log_config_from_registry.

Definition read_effective_boot_settings (settings : Phase2BootSettings)
    : Read R Phase2BootRunError Phase2BootSettings :=
  let! max_parallel_starts := or_recover read_max_parallel_starts in
  let settings := match max_parallel_starts with
    | Some n => {| settings with bset_max_parallel_starts := n |} | None => settings end in
  let! boot_success_grace_secs := or_recover read_boot_success_grace_secs in
  let settings := match boot_success_grace_secs with
    | Some n => {| settings with bset_boot_success_grace_secs := n |} | None => settings end in
  let! settle_timeout_secs := or_recover read_settle_timeout_secs in
  let settings := match settle_timeout_secs with
    | Some n => {| settings with bset_settle_timeout_secs := n |} | None => settings end in
  read_ret settings.

Definition read_effective_shutdown_settings : Read R Phase2BootRunError ShutdownSettings :=
  let settings := shutdown_settings_default in
  let! global := or_recover read_shutdown_timeout_secs in
  let settings := match global with
    | Some n => {| settings with shs_global_timeout_secs := n |} | None => settings end in
  let! post_kill := or_recover read_post_kill_timeout_secs in
  let settings := match post_kill with
    | Some n => {| settings with shs_post_kill_timeout_secs := n |} | None => settings end in
  read_ret settings.

(** *** [coordinator.rs] *)

Record Phase2BootRun : Type := {
  run_settings : Phase2BootSettings;
  run_services_schema_version : Z;
  run_config_warnings : list RegistryConfigWarning;
  run_shutdown_settings : ShutdownSettings;
  run_control_security : ControlSecurityDescriptor;
  run_control_limits : ControlSocketLimits;
  run_jobs_limits : JobsSocketLimits;
  run_log_config : RuntimeLogConfig;
  run_service_table : ServiceTable;
  run_inherited_service_security : option ServiceSecurityDescriptor;
  run_global_environment : list ServiceEnvironmentVariable;
  run_eventd_log_socket_path : option string;
  run_plan : Phase2BootPlan;
  run_dispatch : Phase2BootDispatch;
}.

(** What a run changes besides the client: the allocators and the store. *)
Record BootState : Type := {
  bst_ids : Allocators;
  bst_operations : OperationStore;
}.

Definition reject_no_parallel_starts (settings : Phase2BootSettings) : Read R Phase2BootRunError unit :=
  λ r, if (settings.(bset_max_parallel_starts) =? 0)%Z
       then (r, Err (RecoveryRequired RecoveryInvalidMaxParallelStarts)) else (r, Ok tt).

(** A read whose failure is no failure: [.unwrap_or(None)]. *)
Definition or_none {A} (m : Read R E (option A)) : Read R Phase2BootRunError (option A) :=
  λ r, let (r, a) := m r in (r, Ok match a with Ok o => o | Err _ => None end).

(** The steps after the reads: the plan, its dispatch into a copy of the store
    and the service table, then the new state. [None] is running out of fuel. *)
Definition commit_run (settings : Phase2BootSettings) (services : ServiceDefinitionsRead)
    (retained_satisfied : list string) (observed_at_ns : Z) (st : BootState)
    : option (Result (BootState * (ServiceTable * Phase2BootPlan * Phase2BootDispatch)) Phase2BootRunError) :=
  plan ← prepare_phase2_boot_plan_with_retained settings.(bset_mode) services.(sdr_definitions)
    settings.(bset_max_parallel_starts) observed_at_ns
    {| pc_retained_satisfied := retained_satisfied; pc_undecodable := services.(sdr_undecodable) |}
    st.(bst_ids);
  Some match plan with
  | (_, Err error) => Err (PlanFailed error)
  | (ids, Ok plan) =>
      match dispatch_phase2_boot_plan plan st.(bst_operations) with
      | (_, Err error) => Err (DispatchFailed error)
      | (operations, Ok dispatch) =>
          match from_boot_snapshot services.(sdr_definitions) with
          | Err error => Err (ServiceTableFailed error)
          | Ok service_table =>
              Ok ({| bst_ids := ids; bst_operations := operations |}, (service_table, plan, dispatch))
          end
      end
  end.

(** The reads, and what is left to fill in: the table, the plan and its
    dispatch. *)
Definition read_run (settings : Phase2BootSettings)
    : Read R Phase2BootRunError (Phase2BootSettings * ServiceDefinitionsRead * Z *
        (ServiceTable → Phase2BootPlan → Phase2BootDispatch → Phase2BootRun)) :=
  let! _ := reject_no_parallel_starts settings in
  let! settings := read_effective_boot_settings settings in
  let! _ := reject_no_parallel_starts settings in
  let! shutdown_settings := read_effective_shutdown_settings in
  let! services_read := or_recover read_service_definitions_partial in
  let! services_schema_version := or_recover read_services_schema_version in
  let! control_security := or_recover read_control_security in
  let! control_limits := or_recover read_control_socket_limits in
  let! jobs_limits := or_recover read_jobs_socket_limits in
  let! '(log_config, log_config_warnings) := read_effective_log_config in
  let! global_environment := or_recover read_global_environment in
  let! eventd_log_socket_path := or_none read_eventd_log_socket_path in
  let! observed_at_ns := read_map_err (λ e, RecoveryRequired (RecoveryClock e)) monotonic_ns in
  read_ret (settings, services_read, observed_at_ns, λ service_table plan dispatch, {|
    run_settings := settings;
    run_services_schema_version := services_schema_version;
    run_config_warnings := services_schema_warnings services_schema_version ++ log_config_warnings;
    run_shutdown_settings := shutdown_settings;
    run_control_security := control_security;
    run_control_limits := control_limits;
    run_jobs_limits := jobs_limits;
    run_log_config := log_config;
    run_service_table := service_table;
    run_inherited_service_security := services_read.(sdr_inherited_service_security);
    run_global_environment := global_environment;
    run_eventd_log_socket_path := eventd_log_socket_path;
    run_plan := plan;
    run_dispatch := dispatch;
  |}).

Definition run_phase2_boot_with_retained (settings : Phase2BootSettings) (retained_satisfied : list string)
    (st : BootState) (r : R)
    : option (R * BootState * Result Phase2BootRun Phase2BootRunError) :=
  match read_run settings r with
  | (r, Err error) => Some (r, st, Err error)
  | (r, Ok (settings, services_read, observed_at_ns, finish)) =>
      committed ← commit_run settings services_read retained_satisfied observed_at_ns st;
      Some match committed with
           | Err error => (r, st, Err error)
           | Ok (st, (service_table, plan, dispatch)) => (r, st, Ok (finish service_table plan dispatch))
           end
  end.

Definition run_phase2_boot (settings : Phase2BootSettings) (st : BootState)
    : R → option (R * BootState * Result Phase2BootRun Phase2BootRunError) :=
  run_phase2_boot_with_retained settings [] st.
End Run.

(** ** A run is all or nothing *)

Section RunSpec.
Context {R E : Type} `{RegistryClient R E, CalendarSyntax}.

Lemma planned_start_defined mode services max at_ns context ids ids' plan service :
  prepare_phase2_boot_plan_with_retained mode services max at_ns context ids = Some (ids', Ok plan) →
  service ∈ map ps_service plan.(bp_starts) →
  service ∈ map sd_name (synthesise_role_dependencies services) ∧ service ∉ context.(pc_retained_satisfied).
Proof.
  intros Ep Hs. unfold prepare_phase2_boot_plan_with_retained in Ep. destruct (max =? 0)%Z; [done|].
  destruct (bool_decide (mode = ModeRecovery)).
  { injection Ep as <- <-. by apply elem_of_nil in Hs. }
  destruct (plan_services_spec mode (synthesise_role_dependencies services) max at_ns context ids)
    as (ids1 & r & E1 & Hplan). rewrite E1 in Ep. injection Ep as <- ->.
  destruct Hplan as (graph & dg & _ & Hg & P). pose proof (pl_starts _ _ _ _ _ _ _ _ _ P) as Hst.
  apply (f_equal (map (λ t : string * StartCause * string, t.1.1))) in Hst. rewrite !List.map_map in Hst. simpl in Hst.
  change (service ∈ map (λ x, ps_service x) plan.(bp_starts)) in Hs. rewrite Hst in Hs.
  apply list_elem_of_fmap in Hs as (x & -> & [Hret Hx]%list_elem_of_filter). split; [|done].
  pose proof (build_phase2_boot_graph_spec (effective_mode mode dg) (synthesise_role_dependencies services)) as Hb.
  destruct (service_map _) as [by_name|e]; [|by rewrite Hb in Hg]. destruct Hb as (g & inc & bl & E' & G).
  rewrite E' in Hg. simplify_eq. pose proof (go_by_name _ _ _ _ _ _ G) as Hmap.
  assert (ss_name x ∈ map ss_name (bg_ordered_startable graph)) as [Hin _]%(graph_starts _ _ _ _ _ _ G)
    by (by apply list_elem_of_fmap_2).
  apply (in_boot_defined _ _ _ _ Hmap) in Hin as [d [Hd <-]%Hmap]. by apply list_elem_of_fmap_2.
Qed.

Lemma plan_observed mode services max at_ns context ids ids' plan :
  prepare_phase2_boot_plan_with_retained mode services max at_ns context ids = Some (ids', Ok plan) →
  plan.(bp_observed_at_ns) = at_ns.
Proof.
  intros Ep. unfold prepare_phase2_boot_plan_with_retained in Ep. destruct (max =? 0)%Z; [done|].
  destruct (bool_decide (mode = ModeRecovery)); [by injection Ep as <- <-|].
  destruct (plan_services_spec mode (synthesise_role_dependencies services) max at_ns context ids)
    as (ids1 & r & E1 & Hplan). rewrite E1 in Ep. injection Ep as <- ->.
  destruct Hplan as (graph & dg & _ & _ & P). apply P.
Qed.

Lemma snapshot_has definitions table service :
  from_boot_snapshot definitions = Ok table → service ∈ map sd_name (synthesise_role_dependencies definitions) →
  ∃ entry, table !! service = Some entry ∧ entry.(en_runtime) = inactive service.
Proof.
  unfold from_boot_snapshot. destruct (map_definitions definitions) as [m|] eqn:Em; [|done].
  intros [= <-] (d & -> & Hd)%list_elem_of_fmap. destruct (map_definitions_Ok _ _ Em) as [_ Hm].
  eexists. rewrite map_lookup_imap, (proj2 (Hm (sd_name d) d)); [|done]. simpl. done.
Qed.

Lemma prepare_total mode services max at_ns context ids :
  ∃ x, prepare_phase2_boot_plan_with_retained mode services max at_ns context ids = Some x.
Proof.
  unfold prepare_phase2_boot_plan_with_retained. destruct (max =? 0)%Z; [eauto|]. destruct (bool_decide _); [eauto|].
  destruct (plan_services_spec mode (synthesise_role_dependencies services) max at_ns context ids) as (? & ? & -> & _).
  eauto.
Qed.

Lemma read_run_ok settings r r' s sv t f :
  read_run settings r = (r', Ok (s, sv, t, f)) →
  s.(bset_max_parallel_starts) ≠ 0%Z ∧
  ∀ table plan d, run_settings (f table plan d) = s ∧ run_plan (f table plan d) = plan ∧
    run_dispatch (f table plan d) = d ∧ run_service_table (f table plan d) = table.
Proof.
  unfold read_run, read_bind, read_ret. intros Hr.
  repeat match type of Hr with
  | match ?m with (_, _) => _ end = _ => destruct m as [? [?|?]] eqn:?; [|done]
  | (let (_, _) := ?m in _) _ = _ => destruct m
  end.
  injection Hr as <- <- <- <- <-. split; [|done].
  match goal with Hb : reject_no_parallel_starts ?s _ = _ |- bset_max_parallel_starts ?s ≠ _ =>
    unfold reject_no_parallel_starts in Hb; destruct (Z.eqb_spec (bset_max_parallel_starts s) 0); done end.
Qed.

(** The phase-2 run is all or nothing. It always answers; a run that
    fails, at any read, in the plan, in the dispatch or in the service table,
    leaves the identifier sequences and the operation store as they were; a run
    that succeeds started from a non-zero parallelism, dispatched its plan (into
    an empty store: without fail and exactly, as the plan's operations), and
    every service it is to start has an inactive entry in the service table and
    no retained process. *)
Theorem phase2_run_all_or_nothing settings retained st (r : R) :
  match run_phase2_boot_with_retained settings retained st r with
  | None => False
  | Some (_, st', Err _) => st' = st
  | Some (_, st', Ok run) =>
      run.(run_settings).(bset_max_parallel_starts) ≠ 0%Z ∧
      dispatch_phase2_boot_plan run.(run_plan) st.(bst_operations) = (st'.(bst_operations), Ok run.(run_dispatch)) ∧
      (∀ p, p ∈ run.(run_plan).(bp_starts) →
         p.(ps_service) ∉ retained ∧
         ∃ entry, run.(run_service_table) !! p.(ps_service) = Some entry ∧
                  entry.(en_runtime) = inactive p.(ps_service)) ∧
      (st.(bst_operations) = op_store_new →
       ids_in_range run.(run_plan).(bp_observed_at_ns) st.(bst_ids) st'.(bst_ids) →
       dispatched run.(run_plan) op_store_new st'.(bst_operations) run.(run_dispatch))
  end.
Proof.
  unfold run_phase2_boot_with_retained. destruct (read_run settings r) as [r' [[[[s sv] t] f]|e]] eqn:Er; [|done].
  apply read_run_ok in Er as [Hmax Hf]. unfold commit_run.
  destruct (prepare_total s.(bset_mode) sv.(sdr_definitions) s.(bset_max_parallel_starts) t
    {| pc_retained_satisfied := retained; pc_undecodable := sv.(sdr_undecodable) |} st.(bst_ids)) as ([ids' [plan|e]] & Ep);
    rewrite Ep; cbn [mbind option_bind]; [|done].
  destruct (dispatch_phase2_boot_plan plan st.(bst_operations)) as [ops [d|e]] eqn:Ed; [|done].
  destruct (from_boot_snapshot sv.(sdr_definitions)) as [table|e] eqn:Et; [|done].
  destruct (Hf table plan d) as (-> & -> & -> & ->). cbn [bst_operations bst_ids]. split_and!; [done..| |].
  - intros p Hp. apply (list_elem_of_fmap_2 ps_service) in Hp.
    destruct (planned_start_defined _ _ _ _ _ _ _ _ _ Ep Hp) as [Hin Hret]. split; [done|]. by eapply snapshot_has.
  - intros Hst Hr. rewrite Hst in Ed. rewrite (plan_observed _ _ _ _ _ _ _ _ Ep) in Hr.
    destruct (dispatch_of_plan _ _ _ _ _ _ _ _ Ep Hr) as (s2 & d2 & E2 & D2). rewrite E2 in Ed. by simplify_eq.
Qed.
End RunSpec.

(** A client with fixed answers: the definitions of [boot_example], a log value
    that is too small, defaults elsewhere. *)
#[local] Instance fixed_client : RegistryClient unit string := {|
  read_max_parallel_starts := read_ret (Some 4%Z);
  read_boot_success_grace_secs := read_ret None;
  read_settle_timeout_secs := read_ret None;
  read_shutdown_timeout_secs := read_ret (Some 60%Z);
  read_post_kill_timeout_secs := read_ret None;
  read_max_log_line_length := read_ret (Some 16%Z);
  read_max_log_buffer_per_service := read_ret None;
  read_log_read_bytes_per_event := read_ret None;
  read_pre_eventd_buffer_bytes := read_ret None;
  read_service_definitions_partial :=
    read_ret {| sdr_definitions := boot_example; sdr_undecodable := []; sdr_inherited_service_security := None |};
  read_services_schema_version := read_ret 1%Z;
  read_control_security := read_ret CsdDefault;
  read_control_socket_limits := read_ret {| csl_max_connections := 8; csl_max_connections_per_user := 4;
    csl_max_request_bytes := 4096; csl_connection_timeout_secs := 30 |};
  read_jobs_socket_limits := read_ret {| jsl_max_connections := 8; jsl_max_message_bytes := 4096;
    jsl_connection_timeout_secs := 30; jsl_max_jobs_per_submitter := 4 |};
  read_global_environment := read_ret [];
  read_eventd_log_socket_path := λ r, (r, Err "no such key");
  monotonic_ns := read_ret 1000000%Z;
|}.

Definition fresh_boot : BootState := {| bst_ids := (0, 0)%Z; bst_operations := op_store_new |}.

Definition fixed_run : option (unit * BootState * Result Phase2BootRun Phase2BootRunError) :=
  @run_phase2_boot_with_retained unit string fixed_client any_calendar boot_settings_default ["log"] fresh_boot tt.

Definition fixed_run_check : bool :=
  match fixed_run with
  | Some (_, st, Ok run) =>
      bool_decide (map ps_service run.(run_plan).(bp_starts) = ["db"]) &&
      bool_decide (map config_warning_text run.(run_config_warnings) =
        ["Machine\System\Init\MaxLogLineLength is 16, below the minimum 256; using the default 8192"]) &&
      bool_decide (run.(run_plan).(bp_observed_at_ns) = 1000000%Z) && bool_decide (st.(bst_ids) = (3, 1)%Z)
  | _ => false
  end.

Lemma phase2_run_all_or_nothing_witness :
  ∃ st run, fixed_run = Some (tt, st, Ok run) ∧ map ps_service run.(run_plan).(bp_starts) = ["db"] ∧
    dispatched run.(run_plan) op_store_new st.(bst_operations) run.(run_dispatch).
Proof.
  pose proof (@phase2_run_all_or_nothing unit string fixed_client any_calendar boot_settings_default ["log"] fresh_boot tt) as H.
  fold fixed_run in H. assert (fixed_run_check = true) as Hc by (vm_compute; reflexivity).
  unfold fixed_run_check in Hc. destruct fixed_run as [[[[] st] [run|e]]|]; [|discriminate Hc..].
  rewrite !andb_true_iff, !bool_decide_eq_true in Hc. destruct Hc as [[[H1 _] H3] H4].
  exists st, run. split; [reflexivity|]. split; [exact H1|]. destruct H as (_ & _ & _ & Hd).
  apply Hd; [reflexivity|]. rewrite H3, H4. unfold ids_in_range, SEQUENCE_SPACE. simpl. lia.
Defined.
