(* ===== verification/ExecGraph.v ===== *)
(** * Execution graphs

    Models [src/src/execution/graph/]: the contexts that carry a boot plan or a
    start plan out, one member per service ([model.rs], [build.rs],
    [dependencies.rs]), which members may go ahead ([release.rs],
    [precheck.rs], [probe.rs]), how an end spreads ([terminal.rs],
    [prune.rs]), what a waiting member is held on ([held.rs]), and the store of
    contexts ([store.rs]).

    A context or a store is changed in place, also by a call that then fails:
    the operations are in a state-and-error monad that keeps the state on an
    error. [None] is a recursion that ran out of its fuel. *)

From S2P Require Import Prelude RustStr ServiceRuntime ServiceDef Ids ServiceTable OperationRecord OperationStore.
From S2P Require Import StartPlan BootGraph BootPlan.
From Stdlib Require Import String.
Open Scope string_scope.
Open Scope list_scope.

(** ** Data ([model.rs]) *)

Definition GraphContextId : Type := Z.

Inductive GraphContextKind : Type :=
| KindBoot
| KindOnDemand (requested_service : string) (requested_operation_id : OperationId).

Inductive GraphMemberStatus : Type :=
| GsDormant | GsWaitingForPreStartCheck | GsWaitingForDependencies | GsRunning | GsAwaitingRestart
| GsSatisfied | GsFailed | GsPruned.

#[export] Instance GraphMemberStatus_eq_dec : EqDecision GraphMemberStatus.
Proof. solve_decision. Defined.

Definition status_is_terminal (self : GraphMemberStatus) : bool :=
  match self with GsSatisfied | GsFailed | GsPruned => true | _ => false end.

Record GraphMember : Type := {
  gm_service : string;
  gm_operation_id : OperationId;
  gm_reserved_job_id : option JobId;
  gm_transition_cause : TransitionCause;
  gm_sequence : Z;
  gm_status : GraphMemberStatus;
  gm_held_without_clock : bool;
}.

Record GraphDependency : Type := {
  gd_dependent : string;
  gd_target : string;
  gd_level : option string;
  gd_kind : ServiceDependencyKind;
}.

#[export] Instance GraphDependency_eq_dec : EqDecision GraphDependency.
Proof. solve_decision. Defined.

Inductive LevelProbe : Type := ProbeSatisfied | ProbeNotYetPublished | ProbeAbsent.

#[export] Instance LevelProbe_eq_dec : EqDecision LevelProbe.
Proof. solve_decision. Defined.

Record GraphExecutionContext : Type := {
  gc_id : GraphContextId;
  gc_kind : GraphContextKind;
  gc_members : gmap string GraphMember;
  gc_dependencies : list GraphDependency;
}.

Inductive GraphTerminalOutcome : Type := OutSatisfied | OutFailed.

#[export] Instance GraphTerminalOutcome_eq_dec : EqDecision GraphTerminalOutcome.
Proof. solve_decision. Defined.

Record GraphExecutionEvent : Type := {
  ge_context_id : GraphContextId;
  ge_service : string;
  ge_operation_id : OperationId;
  ge_outcome : GraphTerminalOutcome;
}.

Record GraphPrunedOperation : Type := {
  gp_context_id : GraphContextId;
  gp_service : string;
  gp_operation_id : OperationId;
}.

Inductive ReadyGraphOperationAction : Type := ReadyPreStartCheck | ReadyStart.

Record ReadyGraphOperation : Type := {
  rg_context_id : GraphContextId;
  rg_service : string;
  rg_operation_id : OperationId;
  rg_reserved_job_id : option JobId;
  rg_transition_cause : TransitionCause;
  rg_action : ReadyGraphOperationAction;
  rg_released_from_hold : bool;
}.

Inductive GraphContextBuildError : Type :=
| MissingServiceDefinition (service : string)
| DuplicateServiceMember (service : string)
| MissingDependencyOperationOutcome (service : string).

Inductive GraphExecutionError : Type :=
| UnknownContext (context_id : GraphContextId)
| InvalidMaxParallelStarts
| UnknownAssociatedOperation (operation_id : OperationId)
| MissingMember (context_id : GraphContextId) (service : string)
| MemberAlreadyTerminal (context_id : GraphContextId) (service : string) (status : GraphMemberStatus).

(** ** The monad *)

Definition GraphM (S A : Type) : Type := S → option (S * Result A GraphExecutionError).

#[export] Instance graph_ret {S} : MRet (GraphM S) := λ A a s, Some (s, Ok a).
#[export] Instance graph_bind {S} : MBind (GraphM S) := λ A B k m s,
  match m s with
  | None => None
  | Some (s, Err e) => Some (s, Err e)
  | Some (s, Ok a) => k a s
  end.

Definition throw {S A} (e : GraphExecutionError) : GraphM S A := λ s, Some (s, Err e).
Definition gets {S A} (f : S → A) : GraphM S A := λ s, Some (s, Ok (f s)).
Definition modify {S} (f : S → S) : GraphM S unit := λ s, Some (f s, Ok tt).
Definition ok_or_throw {S A} (o : option A) (e : GraphExecutionError) : GraphM S A :=
  match o with Some a => mret a | None => throw e end.

(** [for x in xs { out.extend(body(x)?) }]. *)
Fixpoint extend_each {S X A} (body : X → GraphM S (list A)) (xs : list X) : GraphM S (list A) :=
  match xs with
  | [] => mret []
  | x :: xs => a ← body x; b ← extend_each body xs; mret (a ++ b)
  end.

(** ** Contexts *)

Definition member_for_operation (self : GraphExecutionContext) (operation_id : OperationId)
    : option GraphMember :=
  find_first (λ member, bool_decide (member.(gm_operation_id) = operation_id)) (btree_values self.(gc_members)).

Definition is_drained (self : GraphExecutionContext) : bool :=
  forallb (λ member, status_is_terminal member.(gm_status)) (btree_values self.(gc_members)).

Definition status_in (self : GraphExecutionContext) (service : string) : option GraphMemberStatus :=
  gm_status <$> self.(gc_members) !! service.

Definition with_status (status : GraphMemberStatus) (member : GraphMember) : GraphMember :=
  {| member with gm_status := status |}.

Definition update_member (service : string) (f : GraphMember → GraphMember) (self : GraphExecutionContext)
    : GraphExecutionContext :=
  {| self with gc_members := alter f service self.(gc_members) |}.

(** The edges out of [service], in order. *)
Definition edges_of (self : GraphExecutionContext) (service : string) : list GraphDependency :=
  filter (λ edge, edge.(gd_dependent) = service) self.(gc_dependencies).

(** *** Settled launches *)

Definition decided_at_once (self : GraphExecutionContext) : gset string :=
  list_to_set (map gm_service (filter (λ member,
    status_is_terminal member.(gm_status) = true ∨ member.(gm_status) = GsAwaitingRestart)
    (btree_values self.(gc_members)))).

Definition waits_only_on_decided (self : GraphExecutionContext) (decided : gset string) (member : GraphMember)
    : bool :=
  match member.(gm_status) with
  | GsDormant | GsWaitingForDependencies =>
      forallb (λ edge, bool_decide (edge.(gd_target) ∈ decided))
        (filter (λ edge, is_Some (self.(gc_members) !! edge.(gd_target))) (edges_of self member.(gm_service)))
  | _ => false
  end.

Definition settle_one (self : GraphExecutionContext) (st : gset string * bool) (member : GraphMember)
    : gset string * bool :=
  let '(decided, grew) := st in
  if bool_decide (member.(gm_service) ∈ decided) then st
  else if waits_only_on_decided self decided member then (set_insert member.(gm_service) decided, true)
  else st.

Fixpoint settle_passes (fuel : nat) (self : GraphExecutionContext) (decided : gset string)
    : option (gset string) :=
  match fuel with
  | O => None
  | S fuel =>
      let '(decided, grew) := foldl (settle_one self) (decided, false) (btree_values self.(gc_members)) in
      if grew then settle_passes fuel self decided else Some decided
  end.

Definition settled_launches (self : GraphExecutionContext) : option (gset string) :=
  settle_passes (S (size self.(gc_members))) self (decided_at_once self).

Definition has_attempted_every_launch (self : GraphExecutionContext) : option bool :=
  settled ← settled_launches self;
  Some (bool_decide (size settled = size self.(gc_members))).

Definition launch_attempted (self : GraphExecutionContext) (service : string) : option bool :=
  settled ← settled_launches self;
  Some (bool_decide (self.(gc_members) !! service = None) || bool_decide (service ∈ settled)).

(** The members are visited in key order, so a stable sort by sequence is the
    sort by sequence, then key. *)
Definition member_before (a b : GraphMember) : Prop :=
  btree_le (a.(gm_sequence), a.(gm_service)) (b.(gm_sequence), b.(gm_service)).

#[export] Instance member_before_dec : RelDecision member_before.
Proof. intros a b. unfold member_before. apply _. Defined.

Definition unattempted_launches (self : GraphExecutionContext) : option (list string) :=
  settled ← settled_launches self;
  Some (map gm_service (merge_sort member_before
    (filter (λ member, member.(gm_service) ∉ settled) (btree_values self.(gc_members))))).

(** ** Holds ([held.rs]) *)

Inductive EdgeWait : Type := EwSettled | EwUndecided | EwClocked.

(** [waits] answers whether a waiting target is itself held without a clock. *)
Definition edge_wait (waits : string → option bool) (self : GraphExecutionContext) (edge : GraphDependency)
    : option EdgeWait :=
  let waiting := held ← waits edge.(gd_target); Some (if held : bool then EwUndecided else EwClocked) in
  match edge.(gd_level) with
  | Some _ =>
      match status_in self edge.(gd_target) with
      | None | Some (GsSatisfied | GsAwaitingRestart) => Some EwUndecided
      | Some (GsFailed | GsPruned) => Some EwSettled
      | Some GsWaitingForDependencies => waiting
      | Some _ => Some EwClocked
      end
  | None =>
      match status_in self edge.(gd_target) with
      | None | Some (GsSatisfied | GsFailed | GsPruned) => Some EwSettled
      | Some GsAwaitingRestart => Some EwUndecided
      | Some GsWaitingForDependencies => waiting
      | Some _ => Some EwClocked
      end
  end.

(** The loop over the edges: how many are undecided, or [None] inside for the
    [break] on a clocked one. *)
Fixpoint count_undecided (wait : GraphDependency → option EdgeWait) (edges : list GraphDependency)
    (undecided : nat) : option (option nat) :=
  match edges with
  | [] => Some (Some undecided)
  | edge :: edges =>
      w ← wait edge;
      match w with
      | EwSettled => count_undecided wait edges undecided
      | EwUndecided => count_undecided wait edges (S undecided)
      | EwClocked => Some None
      end
  end.

Fixpoint waits_without_clock_visiting (fuel : nat) (self : GraphExecutionContext) (visiting : list string)
    (service : string) : option bool :=
  match fuel with
  | O => None
  | S fuel =>
      if bool_decide (status_in self service ≠ Some GsWaitingForDependencies) then Some false
      else if bool_decide (service ∈ visiting) then Some false
      else
        undecided ← count_undecided
          (edge_wait (waits_without_clock_visiting fuel self (visiting ++ [service])) self)
          (edges_of self service) 0;
        Some match undecided with Some n => bool_decide (0 < n)%nat | None => false end
  end.

Definition waits_without_clock (self : GraphExecutionContext) (service : string) : option bool :=
  waits_without_clock_visiting (S (S (size self.(gc_members)))) self [] service.

Definition set_held (held : bool) (member : GraphMember) : GraphMember :=
  {| member with gm_held_without_clock := held |}.

Definition note_holds_without_clock : GraphM GraphExecutionContext unit := λ self,
  holds ← try_fold (λ member acc,
      held ← waits_without_clock self member.(gm_service);
      Some (acc ++ [(member.(gm_service), held)]))
    (filter (λ member, member.(gm_status) = GsWaitingForDependencies) (btree_values self.(gc_members))) [];
  Some (foldl (λ self '(service, held), update_member service (set_held held) self) self holds, Ok tt).

(** ** Pre-start checks ([precheck.rs]) *)

Definition activate_dependency (self : GraphExecutionContext) (target : string) : GraphExecutionContext :=
  update_member target (λ member,
    if bool_decide (member.(gm_status) = GsDormant) then with_status GsWaitingForPreStartCheck member
    else member) self.

Definition activate_dependencies (service : string) (self : GraphExecutionContext) : GraphExecutionContext :=
  foldl activate_dependency self (map gd_target (edges_of self service)).

(** [context.member_for_operation(operation_id).ok_or(..)?.service]. *)
Definition associated_service (operation_id : OperationId) : GraphM GraphExecutionContext string :=
  found ← gets (λ context, member_for_operation context operation_id);
  member ← ok_or_throw found (UnknownAssociatedOperation operation_id);
  mret member.(gm_service).

(** [context.members.get_mut(service).ok_or(..)?]. *)
Definition get_member (service : string) : GraphM GraphExecutionContext GraphMember :=
  id ← gets gc_id;
  found ← gets (λ context, context.(gc_members) !! service);
  ok_or_throw found (MissingMember id service).

(** Its use for a member that must not have ended. *)
Definition get_live_member (service : string) : GraphM GraphExecutionContext GraphMember :=
  id ← gets gc_id;
  member ← get_member service;
  if status_is_terminal member.(gm_status)
  then throw (MemberAlreadyTerminal id service member.(gm_status)) else mret member.

Definition mark_pre_start_check_passed (operation_id : OperationId) : GraphM GraphExecutionContext bool :=
  service ← associated_service operation_id;
  member ← get_live_member service;
  if bool_decide (member.(gm_status) = GsWaitingForDependencies) then mret false
  else
    _ ← modify (update_member service (with_status GsWaitingForDependencies));
    _ ← modify (activate_dependencies service);
    mret true.

(** ** Pruning ([prune.rs]) *)

Definition can_prune_dormant_member (context : GraphExecutionContext) (service : string) : bool :=
  match context.(gc_members) !! service with
  | None => false
  | Some member =>
      if bool_decide (member.(gm_status) ≠ GsDormant) then false
      else
        forallb (λ dependent, match dependent.(gm_status) with
                              | GsDormant | GsSatisfied | GsFailed | GsPruned => true
                              | _ => false
                              end)
          (omap (λ dependency, context.(gc_members) !! dependency.(gd_dependent))
             (filter (λ dependency, dependency.(gd_target) = service) context.(gc_dependencies)))
  end.

Definition prune_dependencies_with (prune : string → GraphM GraphExecutionContext (list GraphPrunedOperation))
    (service : string) : GraphM GraphExecutionContext (list GraphPrunedOperation) :=
  targets ← gets (λ context, map gd_target (edges_of context service));
  extend_each prune targets.

Fixpoint prune_dormant_subtree (fuel : nat) (service : string)
    : GraphM GraphExecutionContext (list GraphPrunedOperation) :=
  match fuel with
  | O => λ _, None
  | S fuel =>
      prunable ← gets (λ context, can_prune_dormant_member context service);
      if negb prunable then mret []
      else
        id ← gets gc_id;
        member ← get_member service;
        _ ← modify (update_member service (with_status GsPruned));
        rest ← prune_dependencies_with (prune_dormant_subtree fuel) service;
        mret ({| gp_context_id := id; gp_service := service; gp_operation_id := member.(gm_operation_id) |} :: rest)
  end.

Definition prune_dependencies_for_service (service : string)
    : GraphM GraphExecutionContext (list GraphPrunedOperation) := λ context,
  prune_dependencies_with (prune_dormant_subtree (S (size context.(gc_members)))) service context.

(** ** Ends ([terminal.rs]) *)

Definition mark_terminal (service : string) (outcome : GraphTerminalOutcome) : GraphM GraphExecutionContext unit :=
  _ ← get_live_member service;
  modify (update_member service
    (with_status match outcome with OutSatisfied => GsSatisfied | OutFailed => GsFailed end)).

Definition mark_awaiting_restart (service : string) : GraphM GraphExecutionContext unit :=
  _ ← get_live_member service;
  modify (update_member service (λ member, set_held false (with_status GsAwaitingRestart member))).

(** [matches!(status, WaitingForDependencies | Running)]. *)
Definition fails_with_dependency (status : GraphMemberStatus) : bool :=
  match status with GsWaitingForDependencies | GsRunning => true | _ => false end.

Definition graph_hard_dependents (context : GraphExecutionContext) (failed_service : string) : list string :=
  omap (λ dependency,
    member ← context.(gc_members) !! dependency.(gd_dependent);
    if fails_with_dependency member.(gm_status) then Some dependency.(gd_dependent) else None)
  (filter (λ dependency, dependency.(gd_target) = failed_service ∧
     (dependency.(gd_kind) = DepRequires ∨ dependency.(gd_kind) = DepBindsTo)) context.(gc_dependencies)).

Fixpoint propagate_hard_dependency_failure_visiting (fuel : nat) (failed_service : string)
    : GraphM GraphExecutionContext (list GraphExecutionEvent) :=
  match fuel with
  | O => λ _, None
  | S fuel =>
      dependents ← gets (λ context, graph_hard_dependents context failed_service);
      extend_each (λ dependent,
        id ← gets gc_id;
        member ← get_member dependent;
        if negb (fails_with_dependency member.(gm_status)) then mret []
        else
          _ ← mark_terminal dependent OutFailed;
          events ← propagate_hard_dependency_failure_visiting fuel dependent;
          mret ({| ge_context_id := id; ge_service := dependent;
                   ge_operation_id := member.(gm_operation_id); ge_outcome := OutFailed |} :: events))
        dependents
  end.

Definition propagate_hard_dependency_failure (failed_service : string)
    : GraphM GraphExecutionContext (list GraphExecutionEvent) := λ context,
  propagate_hard_dependency_failure_visiting (S (S (size context.(gc_members)))) failed_service context.

(** The member ends; a failure spreads from it. *)
Definition end_member (context_id : GraphContextId) (service : string) (operation_id : OperationId)
    (outcome : GraphTerminalOutcome) : GraphM GraphExecutionContext (list GraphExecutionEvent) :=
  _ ← mark_terminal service outcome;
  propagated ← (if bool_decide (outcome = OutFailed) then propagate_hard_dependency_failure service else mret []);
  mret ({| ge_context_id := context_id; ge_service := service; ge_operation_id := operation_id;
           ge_outcome := outcome |} :: propagated).

(** ** Building contexts ([build.rs], [dependencies.rs]) *)

Definition insert_member (members : gmap string GraphMember) (member : GraphMember)
    : Result (gmap string GraphMember) GraphContextBuildError :=
  if bool_decide (is_Some (members !! member.(gm_service)))
  then Err (DuplicateServiceMember member.(gm_service))
  else Ok (<[member.(gm_service) := member]> members).

Fixpoint insert_members (members : gmap string GraphMember) (new : list GraphMember)
    : Result (gmap string GraphMember) GraphContextBuildError :=
  match new with
  | [] => Ok members
  | member :: new => let? members := insert_member members member in insert_members members new
  end.

Definition definitions_by_name (definitions : list ServiceDefinition) : gmap string ServiceDefinition :=
  foldl (λ by_name definition, <[definition.(sd_name) := definition]> by_name) ∅ definitions.

Definition add_dependency (members : gmap string GraphMember) (service : string)
    (dependencies : list GraphDependency) (dependency : ServiceDependency) : list GraphDependency :=
  if bool_decide (members !! dependency.(dep_target) = None) && bool_decide (dependency.(dep_level) = None)
  then dependencies
  else
    let dependency := {| gd_dependent := service; gd_target := dependency.(dep_target);
                         gd_level := dependency.(dep_level); gd_kind := dependency.(dep_kind) |} in
    if bool_decide (dependency ∈ dependencies) then dependencies else dependencies ++ [dependency].

Fixpoint dependencies_of (members : gmap string GraphMember) (definition : string → option ServiceDefinition)
    (services : list string) (dependencies : list GraphDependency)
    : Result (list GraphDependency) GraphContextBuildError :=
  match services with
  | [] => Ok dependencies
  | service :: services =>
      let? declared := ok_or (definition service) (MissingServiceDefinition service) in
      dependencies_of members definition services
        (foldl (add_dependency members service) dependencies (all_declared_dependencies declared))
  end.

Definition context_dependencies (members : gmap string GraphMember)
    (definition : string → option ServiceDefinition) : Result (list GraphDependency) GraphContextBuildError :=
  dependencies_of members definition (btree_keys members) [].

Definition activate_roots (members : gmap string GraphMember) (dependencies : list GraphDependency)
    : gmap string GraphMember :=
  (λ member,
     if bool_decide (member.(gm_status) = GsDormant) &&
        negb (bool_decide (member.(gm_service) ∈ map gd_target dependencies))
     then with_status GsWaitingForPreStartCheck member else member) <$> members.

Definition transition_cause_for_phase2_start (cause : StartCause) : TransitionCause :=
  match cause with ExplicitStart => TcExplicitStart | DependencyStart => TcDependencyStart end.

Definition boot_start_member (sequence : nat) (start : PreparedStart) : GraphMember := {|
  gm_service := start.(ps_service);
  gm_operation_id := start.(ps_operation_id);
  gm_reserved_job_id := Some start.(ps_job_id);
  gm_transition_cause := transition_cause_for_phase2_start start.(ps_cause);
  gm_sequence := Z.of_nat sequence;
  gm_status := GsDormant;
  gm_held_without_clock := false;
|}.

Definition boot_blocked_member (starts offset : nat) (blocked : BlockedService) : GraphMember := {|
  gm_service := blocked.(bs_service);
  gm_operation_id := blocked.(bs_operation_id);
  gm_reserved_job_id := None;
  gm_transition_cause := blocked_transition_cause blocked.(bs_reason);
  gm_sequence := Z.of_nat (starts + offset);
  gm_status := GsFailed;
  gm_held_without_clock := false;
|}.

Definition finish_context (id : GraphContextId) (kind : GraphContextKind) (members : gmap string GraphMember)
    (definition : string → option ServiceDefinition) : Result GraphExecutionContext GraphContextBuildError :=
  let? dependencies := context_dependencies members definition in
  Ok {| gc_id := id; gc_kind := kind; gc_members := activate_roots members dependencies;
        gc_dependencies := dependencies |}.

Definition boot_context (id : GraphContextId) (plan : Phase2BootPlan) (definitions : list ServiceDefinition)
    : Result GraphExecutionContext GraphContextBuildError :=
  let? members := insert_members ∅
    (imap boot_start_member plan.(bp_starts) ++
     imap (boot_blocked_member (List.length plan.(bp_starts))) plan.(bp_blocked)) in
  let by_name := definitions_by_name definitions in
  finish_context id KindBoot members (λ service, by_name !! service).

Definition on_demand_member (services : ServiceTable) (dispatch : OnDemandStartDispatch) (sequence : Z)
    (start : PlannedStart) (outcome : OperationRequestOutcome) : GraphMember :=
  let backoff := is_some_and (table_runtime services start.(pst_service))
                   (λ runtime, bool_decide (runtime.(rt_state) = StBackoff)) in
  let status :=
    if backoff && bool_decide (start.(pst_service) ≠ dispatch.(osd_plan).(osp_requested)) then GsAwaitingRestart
    else match outcome.(ro_decision) with MergeIntoExisting _ => GsRunning | _ => GsDormant end in
  {| gm_service := start.(pst_service);
     gm_operation_id := outcome.(ro_returned_operation_id);
     gm_reserved_job_id := None;
     gm_transition_cause := start.(pst_transition_cause);
     gm_sequence := sequence;
     gm_status := status;
     gm_held_without_clock := backoff |}.

(** The loop over the starts, with the iterator over the dependency outcomes. *)
Fixpoint on_demand_members (services : ServiceTable) (dispatch : OnDemandStartDispatch)
    (dependency_outcomes : list OperationRequestOutcome) (sequence : Z) (starts : list PlannedStart)
    (members : gmap string GraphMember) : Result (gmap string GraphMember) GraphContextBuildError :=
  match starts with
  | [] => Ok members
  | start :: starts =>
      let? '(outcome, dependency_outcomes) :=
        if bool_decide (start.(pst_service) = dispatch.(osd_plan).(osp_requested))
        then Ok (dispatch.(osd_requested_operation), dependency_outcomes)
        else match dependency_outcomes with
             | [] => Err (MissingDependencyOperationOutcome start.(pst_service))
             | outcome :: dependency_outcomes => Ok (outcome, dependency_outcomes)
             end in
      let? members := insert_member members (on_demand_member services dispatch sequence start outcome) in
      on_demand_members services dispatch dependency_outcomes (sequence + 1)%Z starts members
  end.

Definition blocked_requested_status (dispatch : OnDemandStartDispatch) : GraphMemberStatus :=
  if bool_decide (dispatch.(osd_requested_operation).(ro_returned_operation_id) =
                  dispatch.(osd_requested_operation).(ro_stored_operation_id))
  then GsFailed else GsRunning.

Definition blocked_requested_member (dispatch : OnDemandStartDispatch) : GraphMember := {|
  gm_service := dispatch.(osd_plan).(osp_requested);
  gm_operation_id := dispatch.(osd_requested_operation).(ro_returned_operation_id);
  gm_reserved_job_id := None;
  gm_transition_cause := TcDependencyFailure;
  gm_sequence := 0;
  gm_status := blocked_requested_status dispatch;
  gm_held_without_clock := false;
|}.

Definition on_demand_context (id : GraphContextId) (dispatch : OnDemandStartDispatch) (services : ServiceTable)
    : Result GraphExecutionContext GraphContextBuildError :=
  let? members := on_demand_members services dispatch dispatch.(osd_dependency_operations) 0
                    dispatch.(osd_plan).(osp_starts) ∅ in
  let? members :=
    if bool_decide (members = ∅) then insert_member members (blocked_requested_member dispatch) else Ok members in
  finish_context id
    (KindOnDemand dispatch.(osd_plan).(osp_requested)
       dispatch.(osd_requested_operation).(ro_returned_operation_id))
    members (table_definition services).

(** ** The store ([store.rs]) *)

Record GraphExecutionStore : Type := {
  gs_next_context_id : Z;
  gs_contexts : gmap GraphContextId GraphExecutionContext;
  gs_associations : gmap OperationId (gset GraphContextId);
}.

Definition graph_store_new : GraphExecutionStore :=
  {| gs_next_context_id := 0; gs_contexts := ∅; gs_associations := ∅ |}.

Definition associate (context_id : GraphContextId) (associations : gmap OperationId (gset GraphContextId))
    (member : GraphMember) : gmap OperationId (gset GraphContextId) :=
  <[member.(gm_operation_id) := set_insert context_id (default ∅ (associations !! member.(gm_operation_id)))]>
    associations.

Definition insert_context (context : GraphExecutionContext) (self : GraphExecutionStore) : GraphExecutionStore := {|
  gs_next_context_id := u64_wrapping_add context.(gc_id) 1;
  gs_contexts := <[context.(gc_id) := context]> self.(gs_contexts);
  gs_associations := foldl (associate context.(gc_id)) self.(gs_associations) (btree_values context.(gc_members));
|}.

Definition create_boot_context (plan : Phase2BootPlan) (definitions : list ServiceDefinition)
    (self : GraphExecutionStore) : GraphExecutionStore * Result GraphContextId GraphContextBuildError :=
  match boot_context self.(gs_next_context_id) plan definitions with
  | Err e => (self, Err e)
  | Ok context => (insert_context context self, Ok self.(gs_next_context_id))
  end.

Definition create_on_demand_context (dispatch : OnDemandStartDispatch) (services : ServiceTable)
    (self : GraphExecutionStore) : GraphExecutionStore * Result GraphContextId GraphContextBuildError :=
  match on_demand_context self.(gs_next_context_id) dispatch services with
  | Err e => (self, Err e)
  | Ok context => (insert_context context self, Ok self.(gs_next_context_id))
  end.

Definition context_count (self : GraphExecutionStore) : nat := size self.(gs_contexts).
Definition association_count (self : GraphExecutionStore) : nat := size self.(gs_associations).

Definition contexts_with_level_dependency_on (service : string) (self : GraphExecutionStore)
    : list GraphContextId :=
  map gc_id (filter (λ context, existsb (λ dependency,
      bool_decide (dependency.(gd_target) = service) && bool_decide (is_Some dependency.(gd_level)))
      context.(gc_dependencies) = true)
    (filter (λ context, is_drained context = false) (btree_values self.(gs_contexts)))).

Definition boot_launch_attempted (context_id : GraphContextId) (service : string) (self : GraphExecutionStore)
    : option bool :=
  match self.(gs_contexts) !! context_id with
  | None => Some true
  | Some context => launch_attempted context service
  end.

Definition store_unattempted_launches (context_id : GraphContextId) (self : GraphExecutionStore)
    : option (list string) :=
  match self.(gs_contexts) !! context_id with
  | None => Some []
  | Some context => unattempted_launches context
  end.

Definition associated_contexts (operation_id : OperationId) (self : GraphExecutionStore) : list GraphContextId :=
  match self.(gs_associations) !! operation_id with
  | Some contexts => btree_elements contexts
  | None => []
  end.

Definition retained_association (retired : list GraphContextId) (contexts : gset GraphContextId)
    : option (gset GraphContextId) :=
  let contexts := filter (λ context_id, context_id ∉ retired) contexts in
  if bool_decide (contexts = ∅) then None else Some contexts.

Definition retire_drained_contexts (self : GraphExecutionStore) : GraphExecutionStore * list GraphContextId :=
  let retired := map gc_id (filter (λ context, is_drained context = true) (btree_values self.(gs_contexts))) in
  match retired with
  | [] => (self, retired)
  | _ =>
      ({| self with
          gs_contexts := foldl (λ contexts id, delete id contexts) self.(gs_contexts) retired;
          gs_associations := omap (retained_association retired) self.(gs_associations) |}, retired)
  end.

(** [self.contexts.get_mut(&context_id).ok_or(UnknownContext)?], and what is
    then done to the context. *)
Definition on_context {A} (context_id : GraphContextId) (m : GraphM GraphExecutionContext A)
    : GraphM GraphExecutionStore A := λ self,
  match self.(gs_contexts) !! context_id with
  | None => Some (self, Err (UnknownContext context_id))
  | Some context =>
      match m context with
      | None => None
      | Some (context, r) =>
          Some ({| self with gs_contexts := <[context_id := context]> self.(gs_contexts) |}, r)
      end
  end.

(** [let Some(context_ids) = self.associations.get(..) else { return Ok(vec![]) }],
    then the loop over them. *)
Definition each_associated {A} (operation_id : OperationId)
    (body : GraphContextId → GraphM GraphExecutionStore (list A)) : GraphM GraphExecutionStore (list A) :=
  context_ids ← gets (associated_contexts operation_id);
  extend_each body context_ids.

Definition apply_pre_start_check_passed (operation_id : OperationId)
    : GraphM GraphExecutionStore (list GraphContextId) :=
  each_associated operation_id (λ context_id,
    changed ← on_context context_id (mark_pre_start_check_passed operation_id);
    mret (if changed : bool then [context_id] else [])).

Definition prune_dormant_dependencies (operation_id : OperationId)
    : GraphM GraphExecutionStore (list GraphPrunedOperation) :=
  each_associated operation_id (λ context_id,
    on_context context_id (service ← associated_service operation_id; prune_dependencies_for_service service)).

Definition apply_operation_awaiting_restart (operation_id : OperationId)
    : GraphM GraphExecutionStore (list GraphContextId) :=
  each_associated operation_id (λ context_id,
    _ ← on_context context_id
          (service ← associated_service operation_id;
           _ ← mark_awaiting_restart service;
           note_holds_without_clock);
    mret [context_id]).

Definition is_awaiting_restart (service : string) (self : GraphExecutionStore) : bool :=
  existsb (λ context, bool_decide (status_in context service = Some GsAwaitingRestart))
    (btree_values self.(gs_contexts)).

(** [sort] and [dedup] of the names: the set of them, in order. *)
Definition awaiting_restart_services (self : GraphExecutionStore) : list string :=
  btree_elements (list_to_set (map gm_service
    (filter (λ member, member.(gm_status) = GsAwaitingRestart)
       (mjoin (map (λ context, btree_values context.(gc_members)) (btree_values self.(gs_contexts)))))) : gset string).

Definition settle_context (service : string) (outcome : GraphTerminalOutcome)
    : GraphM GraphExecutionContext (list GraphExecutionEvent) :=
  found ← gets (λ context, context.(gc_members) !! service);
  match found with
  | None => mret []
  | Some member =>
      if bool_decide (member.(gm_status) ≠ GsAwaitingRestart) then mret []
      else id ← gets gc_id; end_member id service member.(gm_operation_id) outcome
  end.

Definition settle_awaiting_restart (service : string) (outcome : GraphTerminalOutcome)
    : GraphM GraphExecutionStore (list GraphExecutionEvent) :=
  context_ids ← gets (λ self, btree_keys self.(gs_contexts));
  extend_each (λ context_id, on_context context_id (settle_context service outcome)) context_ids.

Definition apply_context_terminal (context_id : GraphContextId) (operation_id : OperationId)
    (outcome : GraphTerminalOutcome) : GraphM GraphExecutionStore (list GraphExecutionEvent) :=
  on_context context_id
    (service ← associated_service operation_id; end_member context_id service operation_id outcome).

Definition apply_operation_terminal (operation_id : OperationId) (outcome : GraphTerminalOutcome)
    : GraphM GraphExecutionStore (list GraphExecutionEvent) :=
  events ← each_associated operation_id (λ context_id, apply_context_terminal context_id operation_id outcome);
  match events with
  | [] => mret []
  | event :: _ =>
      settled ← settle_awaiting_restart event.(ge_service) outcome;
      mret (events ++ settled)
  end.

Definition apply_operation_satisfied (operation_id : OperationId) := apply_operation_terminal operation_id OutSatisfied.
Definition apply_operation_failed (operation_id : OperationId) := apply_operation_terminal operation_id OutFailed.

(** *** Recorded holds ([held.rs]) *)

Definition recorded_held_operations (self : GraphExecutionStore) : gset OperationId :=
  list_to_set (map gm_operation_id
    (filter (λ member, member.(gm_status) = GsWaitingForDependencies ∧ member.(gm_held_without_clock) = true)
       (mjoin (map (λ context, btree_values context.(gc_members)) (btree_values self.(gs_contexts)))))).

Definition clear_context_hold (operation_id : OperationId) (context : GraphExecutionContext)
    : GraphExecutionContext :=
  {| context with gc_members :=
       (λ member, if bool_decide (member.(gm_operation_id) = operation_id) then set_held false member else member)
         <$> context.(gc_members) |}.

Definition clear_recorded_operation_hold (operation_id : OperationId) (self : GraphExecutionStore)
    : GraphExecutionStore :=
  {| self with gs_contexts :=
       foldl (λ contexts context_id, alter (clear_context_hold operation_id) context_id contexts)
         self.(gs_contexts) (associated_contexts operation_id self) |}.

Definition operation_members (operation_id : OperationId) (self : GraphExecutionStore)
    : list (GraphExecutionContext * GraphMember) :=
  omap (λ context_id,
    context ← self.(gs_contexts) !! context_id;
    member ← member_for_operation context operation_id;
    Some (context, member)) (associated_contexts operation_id self).

Definition is_operation_held (operation_id : OperationId) (self : GraphExecutionStore) : option bool :=
  let members := operation_members operation_id self in
  waiting ← try_fold (λ '(context, member) acc,
    held ← waits_without_clock context member.(gm_service); Some (acc || held)) members false;
  Some (waiting ||
    (existsb (λ '(_, member), bool_decide (member.(gm_status) = GsAwaitingRestart) && member.(gm_held_without_clock))
       members &&
     negb (existsb (λ '(_, member), bool_decide (member.(gm_status) = GsRunning)) members))).

(** ** Releases ([release.rs], [probe.rs]) *)

Definition probe_level (services : ServiceTable) (target level : string) : LevelProbe :=
  match services !! target with
  | None => ProbeAbsent
  | Some entry =>
      if negb (satisfies_dependents entry.(en_runtime).(rt_state)) then ProbeAbsent
      else if bool_decide (level ∈ entry.(en_runtime).(rt_levels)) then ProbeSatisfied
      else ProbeNotYetPublished
  end.

Section Release.
Context (probe : string → string → LevelProbe).

Definition dependency_settled (context : GraphExecutionContext) (dependency : GraphDependency)
    : Result bool GraphExecutionError :=
  let member := context.(gc_members) !! dependency.(gd_target) in
  match dependency.(gd_level) with
  | None =>
      let? target := ok_or member (MissingMember context.(gc_id) dependency.(gd_target)) in
      Ok match dependency.(gd_kind) with
         | DepRequires | DepBindsTo => bool_decide (target.(gm_status) = GsSatisfied)
         | DepWants => status_is_terminal target.(gm_status)
         end
  | Some level =>
      let probed := probe dependency.(gd_target) level in
      Ok match dependency.(gd_kind) with
         | DepRequires | DepBindsTo =>
             is_none_or member (λ target, bool_decide (target.(gm_status) = GsSatisfied)) &&
             bool_decide (probed = ProbeSatisfied)
         | DepWants =>
             is_none_or member (λ target, status_is_terminal target.(gm_status)) &&
             bool_decide (probed ≠ ProbeNotYetPublished)
         end
  end.

Fixpoint all_settled (context : GraphExecutionContext) (dependencies : list GraphDependency) (settled : bool)
    : Result bool GraphExecutionError :=
  match dependencies with
  | [] => Ok settled
  | dependency :: dependencies =>
      let? settled := if negb settled then Ok false else dependency_settled context dependency in
      all_settled context dependencies settled
  end.

Definition dependencies_settled (context : GraphExecutionContext) (service : string)
    : Result bool GraphExecutionError :=
  all_settled context (edges_of context service) true.

Definition ready_action (context : GraphExecutionContext) (member : GraphMember)
    : Result (option ReadyGraphOperationAction) GraphExecutionError :=
  match member.(gm_status) with
  | GsWaitingForPreStartCheck => Ok (Some ReadyPreStartCheck)
  | GsWaitingForDependencies =>
      let? settled := dependencies_settled context member.(gm_service) in
      Ok (if settled then Some ReadyStart else None)
  | _ => Ok None
  end.

Fixpoint collect_ready (context : GraphExecutionContext) (members : list GraphMember)
    : Result (list (GraphMember * ReadyGraphOperationAction)) GraphExecutionError :=
  match members with
  | [] => Ok []
  | member :: members =>
      let? action := ready_action context member in
      let? ready := collect_ready context members in
      Ok match action with Some action => (member, action) :: ready | None => ready end
  end.

(** By sequence, in key order for equal ones, as in [unattempted_launches]. *)
Definition ready_before (a b : GraphMember * ReadyGraphOperationAction) : Prop := member_before a.1 b.1.

#[export] Instance ready_before_dec : RelDecision ready_before.
Proof. intros a b. unfold ready_before. apply _. Defined.

Definition ready_members (limit : nat) (context : GraphExecutionContext)
    : Result (list (string * ReadyGraphOperationAction)) GraphExecutionError :=
  if (limit =? 0)%nat then Ok []
  else
    let? ready := collect_ready context (btree_values context.(gc_members)) in
    Ok (map (λ '(member, action), (member.(gm_service), action)) (take limit (merge_sort ready_before ready))).

Definition running_members (context : GraphExecutionContext) : nat :=
  List.length (filter (λ member, member.(gm_status) = GsRunning) (btree_values context.(gc_members))).

Definition available_slots (max_parallel_starts : nat) (context : GraphExecutionContext) : nat :=
  (max_parallel_starts - running_members context)%nat.

Definition release_operation (context_id : GraphContextId) (released : string * ReadyGraphOperationAction)
    : GraphM GraphExecutionContext (list ReadyGraphOperation) :=
  let '(service, action) := released in
  context ← gets id;
  member ← ok_or_throw (context.(gc_members) !! service) (MissingMember context_id service);
  mret [{| rg_context_id := context_id; rg_service := service;
           rg_operation_id := member.(gm_operation_id);
           rg_reserved_job_id := member.(gm_reserved_job_id);
           rg_transition_cause := member.(gm_transition_cause);
           rg_action := action;
           rg_released_from_hold := member.(gm_held_without_clock) |}].

Definition mark_running (context_id : GraphContextId) (released : string * ReadyGraphOperationAction)
    : GraphM GraphExecutionContext (list unit) :=
  let '(service, _) := released in
  context ← gets id;
  _ ← ok_or_throw (context.(gc_members) !! service) (MissingMember context_id service);
  _ ← modify (update_member service (with_status GsRunning));
  mret [].

Definition release_context (context_id : GraphContextId) (max_parallel_starts : nat)
    : GraphM GraphExecutionContext (list ReadyGraphOperation) :=
  ready ← gets (λ context, ready_members (available_slots max_parallel_starts context) context);
  ready ← match ready with Ok ready => mret ready | Err e => throw e end;
  _ ← extend_each (mark_running context_id) ready;
  operations ← extend_each (release_operation context_id) ready;
  _ ← note_holds_without_clock;
  mret operations.

Definition release_ready (context_id : GraphContextId) (max_parallel_starts : nat)
    : GraphM GraphExecutionStore (list ReadyGraphOperation) :=
  if (max_parallel_starts =? 0)%nat then throw InvalidMaxParallelStarts
  else on_context context_id (release_context context_id max_parallel_starts).
End Release.
