(* ===== verification/ExecGraphSpec.v ===== *)
(** * Properties of execution graphs

    About [ExecGraph]: the invariant of the store of contexts, what an end does
    to the members that depend on it, what a release lets go, and which starts
    are held without a clock. *)

From S2P Require Import Prelude RustStr ServiceRuntime ServiceDef StartOrder Reach Ids ServiceTable OperationRecord.
From S2P Require Import OperationStore StartPlan BootGraph BootPlan ExecGraph.
From Stdlib Require Import String.
Open Scope string_scope.
Open Scope list_scope.

(** ** Computations *)

Section Monad.
Context {S : Type}.

Lemma bind_ok {A B} (m : GraphM S A) (k : A → GraphM S B) s s' a :
  m s = Some (s', Ok a) → (m ≫= k) s = k a s'.
Proof. intros E. unfold mbind, graph_bind. by rewrite E. Qed.

Lemma extend_each_ext {X A} (f g : X → GraphM S (list A)) l s :
  (∀ x s, x ∈ l → f x s = g x s) → extend_each f l s = extend_each g l s.
Proof.
  revert s. induction l as [|x l IH]; intros s H; simpl; [done|]. unfold mbind, graph_bind. rewrite H by left.
  destruct (g x s) as [[s1 [a|e]]|]; [|done..]. rewrite IH; [done|]. intros y s' Hy. apply H. by right.
Qed.

(** A computation that ends, and takes [s] to a related state whatever it
    answers. *)
Definition acts {A} (P : S → Prop) (R : S → S → Prop) (m : GraphM S A) : Prop :=
  ∀ s, P s → ∃ s' r, m s = Some (s', r) ∧ R s s'.

Section Acts.
Context (P : S → Prop) (R : S → S → Prop) `{!PreOrder R} (HP : ∀ s s', P s → R s s' → P s').

Lemma acts_ret {A} (a : A) : acts P R (mret a).
Proof. intros s _. by exists s, (Ok a). Qed.

Lemma acts_throw {A} e : acts P R (throw e : GraphM S A).
Proof. intros s _. by exists s, (Err e). Qed.

Lemma acts_gets {A} (f : S → A) : acts P R (gets f).
Proof. intros s _. by exists s, (Ok (f s)). Qed.

Lemma acts_ok_or {A} (o : option A) e : acts P R (ok_or_throw o e).
Proof. destruct o; [apply acts_ret|apply acts_throw]. Qed.

Lemma acts_modify f : (∀ s, P s → R s (f s)) → acts P R (modify f).
Proof. intros H s Hs. exists (f s), (Ok tt). auto. Qed.

Lemma acts_bind {A B} (m : GraphM S A) (k : A → GraphM S B) :
  acts P R m → (∀ a, acts P R (k a)) → acts P R (m ≫= k).
Proof using HP PreOrder0.
  intros Hm Hk s Hs. destruct (Hm s Hs) as (s1 & [a|e] & E & H1); unfold mbind, graph_bind; rewrite E.
  - destruct (Hk a s1) as (s2 & r & -> & H2); [by eapply HP|]. exists s2, r. split; [done|]. by etrans.
  - by exists s1, (Err e).
Qed.

Lemma acts_each {X A} (f : X → GraphM S (list A)) l : (∀ x, acts P R (f x)) → acts P R (extend_each f l).
Proof using HP PreOrder0.
  intros Hf. induction l as [|x l IH]; simpl; [apply acts_ret|].
  apply acts_bind; [done|]. intros a. apply acts_bind; [done|]. intros b. apply acts_ret.
Qed.
End Acts.
End Monad.

(** ** Marking everything that can be reached

    What failure and pruning have in common: visit a node; if it is a
    candidate, mark it and visit what follows. *)
Section Marking.
Context {S E : Type} (ok : S → Prop) (cand : S → string → bool) (next : S → string → list string).
Context (all : string → list string) (mark : string → S → S) (report : S → string → E) (svc : E → string).
Context (nodes : gset string).

Fixpoint mark_visit (fuel : nat) (d : string) (s : S) : option (S * Result (list E) GraphExecutionError) :=
  match fuel with
  | O => None
  | Datatypes.S fuel =>
      if cand s d then
        (rest ← extend_each (mark_visit fuel) (next (mark d s) d); mret (report s d :: rest)) (mark d s)
      else Some (s, Ok [])
  end.

Class Markable : Prop := {
  mk_ok : ∀ s d, ok s → cand s d = true → ok (mark d s);
  mk_cand : ∀ s d x, ok s → cand s d = true → cand (mark d s) x = cand s x && bool_decide (x ≠ d);
  mk_next : ∀ s x y, ok s → y ∈ next s x → y ∈ all x;
  mk_all : ∀ s x y, ok s → y ∈ all x → cand s y = true → y ∈ next s x;
  mk_svc : ∀ s d, svc (report s d) = d;
  mk_report : ∀ s d x, ok s → cand s d = true → report (mark d s) x = report s x;
  mk_nodes : ∀ s x, ok s → cand s x = true → x ∈ nodes;
}.
Context {HM : Markable}.

Definition leads (s : S) (a b : string) : Prop := b ∈ all a ∧ cand s b = true.

(** [s'] is [s] with the nodes of [events] marked in turn. *)
Record marked (roots : list string) (s s' : S) (events : list E) : Prop := {
  md_state : s' = foldl (λ s d, mark d s) s (map svc events);
  md_nodup : NoDup (map svc events);
  md_cand : ∀ x, x ∈ map svc events → cand s x = true;
  md_left : ∀ x, cand s' x = cand s x && bool_decide (x ∉ map svc events);
  md_reach : ∀ x, x ∈ map svc events → ∃ t, t ∈ roots ∧ cand s t = true ∧ rtc (leads s) t x;
  md_closed : ∀ x y, x ∈ map svc events → y ∈ all x → cand s' y = false;
  md_roots : ∀ t, t ∈ roots → cand s' t = false;
  md_report : ∀ e, e ∈ events → e = report s (svc e);
  md_reports : ∀ x, report s' x = report s x;
}.

Lemma marked_nil s : marked [] s s [].
Proof.
  split; try done; try (by intros ? []%elem_of_nil); try (by intros ?? []%elem_of_nil); [constructor|].
  intros x. rewrite bool_decide_eq_true_2 by (intros []%elem_of_nil). by rewrite andb_true_r.
Qed.

Lemma marked_app r1 r2 s1 s2 s3 e1 e2 :
  marked r1 s1 s2 e1 → marked r2 s2 s3 e2 → marked (r1 ++ r2) s1 s3 (e1 ++ e2).
Proof.
  intros [A1 N1 C1 L1 R1 D1 T1 P1 Q1] [A2 N2 C2 L2 R2 D2 T2 P2 Q2].
  assert (∀ x, cand s2 x = true → cand s1 x = true ∧ x ∉ map svc e1) as H12.
  { intros x. rewrite L1, andb_true_iff, bool_decide_eq_true. done. }
  assert (∀ x, cand s2 x = false → cand s3 x = false) as H23 by (intros x Hx; by rewrite L2, Hx).
  assert (∀ t x, rtc (leads s2) t x → rtc (leads s1) t x) as Hrtc.
  { intros t x. apply rtc_congruence with (f := id). intros a b [? ?%H12]. split; [done|tauto]. }
  split; rewrite ?map_app.
  - by rewrite foldl_app, <-A1.
  - apply NoDup_app. split_and!; [done| |done]. intros x Hx Hx2%C2%H12. tauto.
  - intros x [?|Hx%C2%H12]%elem_of_app; [auto|tauto].
  - intros x. rewrite L2, L1, <-andb_assoc. f_equal. rewrite <-bool_decide_and.
    apply bool_decide_ext. rewrite not_elem_of_app. done.
  - intros x [Hx|Hx]%elem_of_app; [destruct (R1 x Hx) as (t & ? & ? & ?)|destruct (R2 x Hx) as (t & ? & Ht%H12 & ?)];
      exists t; rewrite elem_of_app; [auto|]. split_and!; [by right|tauto|auto].
  - intros x y [Hx|Hx]%elem_of_app Hy; [|by eapply D2]. by apply H23, (D1 x).
  - intros t [?|?]%elem_of_app; auto.
  - intros e [?|He]%elem_of_app; [auto|]. rewrite (P2 e He) at 1. apply Q1.
  - intros x. by rewrite Q2.
Qed.

Lemma marked_node d s s' rest :
  ok s → cand s d = true → marked (next (mark d s) d) (mark d s) s' rest →
  marked [d] s s' (report s d :: rest).
Proof using HM.
  intros Hs Hd [A N C L R D T P Q]. pose proof (mk_ok s d Hs Hd) as Hok.
  assert (∀ x, cand (mark d s) x = true → cand s x = true ∧ x ≠ d) as Hm.
  { intros x. rewrite mk_cand by done. rewrite andb_true_iff, bool_decide_eq_true. done. }
  assert (cand (mark d s) d = false) as Hdd.
  { rewrite mk_cand by done. rewrite bool_decide_eq_false_2 by tauto. apply andb_false_r. }
  assert (∀ t x, rtc (leads (mark d s)) t x → rtc (leads s) t x) as Hrtc.
  { intros t x. apply rtc_congruence with (f := id). intros a b [? ?%Hm]. split; [done|tauto]. }
  split; simpl; rewrite ?mk_svc.
  - done.
  - apply NoDup_cons. split; [|done]. intros Hin%C. congruence.
  - intros x [->|Hx%C%Hm]%elem_of_cons; [done|tauto].
  - intros x. rewrite L, mk_cand by done. rewrite <-andb_assoc. f_equal. rewrite <-bool_decide_and.
    apply bool_decide_ext. rewrite not_elem_of_cons. done.
  - intros x [->|Hx]%elem_of_cons; exists d; (split; [left|]); (split; [done|]); [done|].
    destruct (R x Hx) as (t & Ht & Hc & Hr). eapply rtc_l; [|by apply Hrtc]. split; [|apply Hm, Hc].
    by eapply mk_next.
  - intros x y [->|Hx]%elem_of_cons Hy; [|by eapply D]. destruct (cand (mark d s) y) eqn:Ey.
    + apply T. by eapply mk_all.
    + by rewrite L, Ey.
  - intros t ->%list_elem_of_singleton. by rewrite L, Hdd.
  - intros e [->|He]%elem_of_cons; [by rewrite mk_svc|]. rewrite (P e He) at 1. by apply mk_report.
  - intros x. rewrite Q. by apply mk_report.
Qed.

Definition candidates (s : S) : nat := size (filter (λ x, cand s x = true) nodes).

Lemma marked_candidates r s s' ev : marked r s s' ev → (candidates s' ≤ candidates s)%nat.
Proof.
  intros [_ _ _ L _ _ _ _ _]. unfold candidates. apply subseteq_size. intros x. rewrite !elem_of_filter, L.
  rewrite andb_true_iff. tauto.
Qed.

Lemma candidates_mark s d : ok s → cand s d = true → (candidates (mark d s) < candidates s)%nat.
Proof using HM.
  intros Hs Hd. unfold candidates. apply subset_size. split.
  - intros x. rewrite !elem_of_filter, mk_cand by done. rewrite andb_true_iff. tauto.
  - intros Hsub. assert (d ∈ filter (λ x, cand s x = true) nodes) as Hin
      by (apply elem_of_filter; split; [done|by eapply mk_nodes]).
    apply Hsub, elem_of_filter in Hin as [Hc _]. rewrite mk_cand in Hc by done.
    rewrite andb_true_iff, bool_decide_eq_true in Hc. tauto.
Qed.

Lemma visit_each_ok fuel l s :
  (∀ d s, ok s → (candidates s < fuel)%nat → ∃ s' ev, mark_visit fuel d s = Some (s', Ok ev) ∧ ok s' ∧ marked [d] s s' ev) →
  ok s → (candidates s < fuel)%nat →
  ∃ s' ev, extend_each (mark_visit fuel) l s = Some (s', Ok ev) ∧ ok s' ∧ marked l s s' ev.
Proof.
  intros Hv. revert s. induction l as [|d l IH]; intros s Hs Hc; cbn [extend_each].
  { exists s, []. split_and!; [done..|apply marked_nil]. }
  destruct (Hv d s Hs Hc) as (s1 & e1 & E1 & Hs1 & M1). rewrite (bind_ok _ _ _ _ _ E1).
  destruct (IH s1 Hs1) as (s2 & e2 & E2 & Hs2 & M2); [pose proof (marked_candidates _ _ _ _ M1); lia|].
  rewrite (bind_ok _ _ _ _ _ E2). exists s2, (e1 ++ e2). split_and!; [done..|].
  by apply (marked_app [d] l s s1 s2).
Qed.

Lemma visit_ok fuel d s :
  ok s → (candidates s < fuel)%nat →
  ∃ s' ev, mark_visit fuel d s = Some (s', Ok ev) ∧ ok s' ∧ marked [d] s s' ev.
Proof using HM.
  revert d s. induction fuel as [|fuel IH]; intros d s Hs Hc; [lia|]. cbn [mark_visit].
  destruct (cand s d) eqn:Ed.
  - destruct (visit_each_ok fuel (next (mark d s) d) (mark d s)) as (s' & ev & Ev & Hs' & M); [done| | |].
    + by apply mk_ok.
    + pose proof (candidates_mark s d Hs Ed). lia.
    + rewrite (bind_ok _ _ _ _ _ Ev). exists s', (report s d :: ev). split_and!; [done..|].
      by apply marked_node.
  - exists s, []. split_and!; [done..|]. destruct (marked_nil s) as [A N C L R D T P Q].
    split; [exact A|exact N|exact C|exact L|by intros ? []%elem_of_nil|exact D| |exact P|exact Q].
    by intros t ->%list_elem_of_singleton.
Qed.

Lemma visit_members_ok fuel l s :
  ok s → (candidates s < fuel)%nat →
  ∃ s' ev, extend_each (mark_visit fuel) l s = Some (s', Ok ev) ∧ ok s' ∧ marked l s s' ev.
Proof using HM. intros. apply visit_each_ok; [|done..]. intros. by apply visit_ok. Qed.

Lemma each_visits fuel g l s :
  (∀ d s, d ∈ l → ok s → (candidates s < fuel)%nat → g d s = mark_visit fuel d s) →
  ok s → (candidates s < fuel)%nat → extend_each g l s = extend_each (mark_visit fuel) l s.
Proof using HM.
  revert s. induction l as [|d l IH]; intros s Hg Hs Hc; cbn [extend_each]; [done|].
  destruct (visit_ok fuel d s Hs Hc) as (s1 & e1 & E1 & Hs1 & M1).
  rewrite (bind_ok _ _ _ _ _ E1). rewrite <-Hg in E1 by (done || left). rewrite (bind_ok _ _ _ _ _ E1).
  assert (candidates s1 < fuel)%nat as Hc1 by (pose proof (marked_candidates _ _ _ _ M1); lia).
  unfold mbind, graph_bind. rewrite IH; [done| |done|done]. intros x s' Hx. apply Hg. by right.
Qed.

(** Exactly the candidates that the roots lead to. *)
Lemma marked_exact roots s s' ev x :
  marked roots s s' ev →
  x ∈ map svc ev ↔ ∃ t, t ∈ roots ∧ cand s t = true ∧ rtc (leads s) t x.
Proof.
  intros [A N C L R D T P Q]. split; [apply R|]. intros (t & Ht & Hc & Hr).
  assert (∀ y, cand s y = true → cand s' y = false → y ∈ map svc ev) as Hin.
  { intros y Hy. rewrite L, Hy. simpl. intros ?%bool_decide_eq_false. by apply dec_stable. }
  refine (rtc_ind_r (R := leads s) (λ y, y ∈ map svc ev) t _ _ x Hr); [by apply Hin, T|].
  intros y z _ [Hz Hcz] Hy. apply Hin; [done|]. by eapply D.
Qed.
End Marking.

(** ** Contexts *)

Record context_wf (c : GraphExecutionContext) : Prop := {
  cw_keys : ∀ s m, c.(gc_members) !! s = Some m → m.(gm_service) = s;
  cw_dependent : ∀ d, d ∈ c.(gc_dependencies) → is_Some (c.(gc_members) !! d.(gd_dependent));
  cw_target : ∀ d, d ∈ c.(gc_dependencies) → d.(gd_level) = None → is_Some (c.(gc_members) !! d.(gd_target));
}.

(** What no operation on a member changes; a status that has ended is kept. *)
Record same_member (m m' : GraphMember) : Prop := {
  sm_service : m'.(gm_service) = m.(gm_service);
  sm_operation : m'.(gm_operation_id) = m.(gm_operation_id);
  sm_job : m'.(gm_reserved_job_id) = m.(gm_reserved_job_id);
  sm_cause : m'.(gm_transition_cause) = m.(gm_transition_cause);
  sm_sequence : m'.(gm_sequence) = m.(gm_sequence);
  sm_ended : status_is_terminal m.(gm_status) = true → m'.(gm_status) = m.(gm_status);
}.

#[export] Instance same_member_preorder : PreOrder same_member.
Proof.
  split; [by intros m|]. intros a b c [A1 A2 A3 A4 A5 A6] [B1 B2 B3 B4 B5 B6]. split; try congruence.
  intros Ha. rewrite B6; [auto|]. by rewrite A6.
Qed.

Record evolves (c c' : GraphExecutionContext) : Prop := {
  ev_id : c'.(gc_id) = c.(gc_id);
  ev_kind : c'.(gc_kind) = c.(gc_kind);
  ev_dependencies : c'.(gc_dependencies) = c.(gc_dependencies);
  ev_members : ∀ s, option_Forall2 same_member (c.(gc_members) !! s) (c'.(gc_members) !! s);
}.

#[export] Instance evolves_preorder : PreOrder evolves.
Proof.
  split.
  - intros c. by split.
  - intros a b c [A1 A2 A3 A4] [B1 B2 B3 B4]. split; try congruence. intros s. specialize (A4 s). specialize (B4 s).
    destruct A4; inversion B4; constructor. by etrans.
Qed.

Lemma evolves_wf c c' : evolves c c' → context_wf c → context_wf c'.
Proof.
  intros [_ _ Hd Hm] [K D T].
  assert (∀ s, is_Some (gc_members c !! s) → is_Some (gc_members c' !! s)) as Hs.
  { intros s [m E]. specialize (Hm s). rewrite E in Hm. inversion Hm. eauto. }
  split; rewrite ?Hd; [|auto..]. intros s m' E. specialize (Hm s). rewrite E in Hm.
  inversion Hm as [m m'' [Hsv _ _ _ _ _] E1|]. subst. symmetry in E1. rewrite Hsv. auto.
Qed.

Lemma lookup_update_member s f c x :
  (update_member s f c).(gc_members) !! x =
  if bool_decide (x = s) then f <$> c.(gc_members) !! x else c.(gc_members) !! x.
Proof.
  simpl. case_bool_decide as H; [subst; apply lookup_alter_eq|]. by rewrite lookup_alter_ne by congruence.
Qed.

Lemma update_member_evolves s f c :
  (∀ m, c.(gc_members) !! s = Some m → same_member m (f m)) → evolves c (update_member s f c).
Proof.
  intros H. split; try done. intros x. rewrite lookup_update_member. case_bool_decide as Hx; [|done].
  subst. destruct (gc_members c !! s) eqn:E; constructor. by apply H.
Qed.

Lemma same_status status m :
  status_is_terminal m.(gm_status) = false → same_member m (with_status status m).
Proof. intros H. split; try done. by rewrite H. Qed.

Lemma same_held held m : same_member m (set_held held m).
Proof. by split. Qed.

Lemma update_status_evolves s status c :
  (∀ m, c.(gc_members) !! s = Some m → status_is_terminal m.(gm_status) = false) →
  evolves c (update_member s (with_status status) c).
Proof. intros H. apply update_member_evolves. intros m E. apply same_status. by apply H. Qed.

(** A fold of updates that each leave the context related. *)
Lemma foldl_evolves {X} (f : GraphExecutionContext → X → GraphExecutionContext) l c :
  (∀ c x, evolves c (f c x)) → evolves c (foldl f c l).
Proof. intros H. revert c. induction l as [|x l IH]; intros c; simpl; [done|]. etrans; [apply H|apply IH]. Qed.

Lemma evolves_size c c' : evolves c c' → size c'.(gc_members) = size c.(gc_members).
Proof.
  intros [_ _ _ Hm]. rewrite <-!size_dom. f_equal. apply set_eq. intros x. rewrite !elem_of_dom.
  specialize (Hm x). split; intros [m E]; rewrite E in Hm; inversion Hm; eauto.
Qed.

(** *** Failure *)

Definition fails_now (c : GraphExecutionContext) (s : string) : bool :=
  is_some_and (c.(gc_members) !! s) (λ m, fails_with_dependency m.(gm_status)).

Definition hard_edge (d : GraphDependency) : Prop := d.(gd_kind) = DepRequires ∨ d.(gd_kind) = DepBindsTo.

(** Everything declared to need [failed], whatever its status. *)
Definition needing (dependencies : list GraphDependency) (failed : string) : list string :=
  map gd_dependent (filter (λ d, d.(gd_target) = failed ∧ (d.(gd_kind) = DepRequires ∨ d.(gd_kind) = DepBindsTo))
    dependencies).

Definition failure_event (c : GraphExecutionContext) (s : string) : GraphExecutionEvent := {|
  ge_context_id := c.(gc_id);
  ge_service := s;
  ge_operation_id := match c.(gc_members) !! s with Some m => m.(gm_operation_id) | None => 0%Z end;
  ge_outcome := OutFailed;
|}.

Definition fail_member (s : string) : GraphExecutionContext → GraphExecutionContext :=
  update_member s (with_status GsFailed).

Section Failure.
Context (c0 : GraphExecutionContext).

Definition fail_visit :=
  mark_visit fails_now graph_hard_dependents fail_member failure_event.

#[local] Instance failure_markable :
  Markable (evolves c0) fails_now graph_hard_dependents (needing c0.(gc_dependencies)) fail_member failure_event
    ge_service (dom c0.(gc_members)).
Proof.
  assert (∀ c d m, c.(gc_members) !! d = Some m → fails_with_dependency m.(gm_status) = true →
    status_is_terminal m.(gm_status) = false) as Hlive by (intros c d m _; by destruct m.(gm_status)).
  split.
  - intros c d Hc Hd. etrans; [exact Hc|]. apply update_status_evolves. intros m E. unfold fails_now in Hd.
    rewrite E in Hd. eauto.
  - intros c d x _ Hd. unfold fails_now, fail_member. rewrite lookup_update_member.
    case_bool_decide as Hx; [subst x|by rewrite bool_decide_eq_true_2, andb_true_r].
    rewrite bool_decide_eq_false_2 by tauto. rewrite andb_false_r. by destruct (gc_members c !! d).
  - intros c x y [_ _ Hdeps _] (dep & Hdep & E)%list_elem_of_omap. unfold needing. rewrite <-Hdeps.
    destruct (gc_members c !! gd_dependent dep); [|done]. simpl in E. destruct (fails_with_dependency _); [|done].
    injection E as <-. by apply list_elem_of_fmap_2.
  - intros c x y [_ _ Hdeps _] (dep & -> & Hdep)%list_elem_of_fmap Hy. rewrite <-Hdeps in Hdep.
    apply list_elem_of_omap. exists dep. split; [done|]. unfold fails_now in Hy.
    destruct (gc_members c !! gd_dependent dep); [|done]. simpl in *. by rewrite Hy.
  - done.
  - intros c d x _ Hd. unfold failure_event, fail_member. f_equal. rewrite lookup_update_member.
    case_bool_decide; [|done]. by destruct (gc_members c !! x).
  - intros c x [_ _ _ Hm] Hx. apply elem_of_dom. unfold fails_now in Hx. specialize (Hm x).
    destruct (gc_members c !! x) eqn:E; [|done]. inversion Hm. eauto.
Qed.

Lemma get_member_ok c s m : c.(gc_members) !! s = Some m → get_member s c = Some (c, Ok m).
Proof. intros E. unfold get_member, mbind, graph_bind, gets. by rewrite E. Qed.

Lemma mark_terminal_ok c s m outcome :
  c.(gc_members) !! s = Some m → status_is_terminal m.(gm_status) = false →
  mark_terminal s outcome c =
    Some (update_member s (with_status match outcome with OutSatisfied => GsSatisfied | OutFailed => GsFailed end) c,
          Ok tt).
Proof.
  intros E Hl. unfold mark_terminal, get_live_member.
  rewrite (bind_ok _ _ c c m); [done|]. rewrite (bind_ok _ _ c c c.(gc_id)) by done.
  rewrite (bind_ok _ _ c c m) by (by apply get_member_ok). by rewrite Hl.
Qed.

Lemma propagate_unfold fuel failed c :
  propagate_hard_dependency_failure_visiting (S fuel) failed c =
  extend_each (λ dependent,
    id ← gets gc_id;
    member ← get_member dependent;
    if negb (fails_with_dependency member.(gm_status)) then mret []
    else
      _ ← mark_terminal dependent OutFailed;
      events ← propagate_hard_dependency_failure_visiting fuel dependent;
      mret ({| ge_context_id := id; ge_service := dependent;
               ge_operation_id := member.(gm_operation_id); ge_outcome := OutFailed |} :: events))
    (graph_hard_dependents c failed) c.
Proof. reflexivity. Qed.

Lemma propagate_visits fuel s c :
  evolves c0 c → (candidates fails_now (dom c0.(gc_members)) c < fuel)%nat →
  propagate_hard_dependency_failure_visiting (S fuel) s c = extend_each (fail_visit fuel) (graph_hard_dependents c s) c.
Proof using.
  revert s c. induction fuel as [|fuel IH]; intros s c Hc Hf; [lia|].
  rewrite propagate_unfold.
  apply (each_visits (evolves c0) fails_now graph_hard_dependents (needing c0.(gc_dependencies)) fail_member failure_event
    ge_service (dom c0.(gc_members))); [|done..].
  intros d c' Hd Hc' Hf'. cbn [mark_visit].
  assert (∃ m, c'.(gc_members) !! d = Some m) as [m Em].
  { apply list_elem_of_omap in Hd as (dep & _ & E). destruct Hc as [_ _ _ H1], Hc' as [_ _ _ H2].
    specialize (H1 (gd_dependent dep)). specialize (H2 (gd_dependent dep)).
    destruct (gc_members c !! gd_dependent dep); [|done]. simpl in E. destruct (fails_with_dependency _); [|done].
    injection E as <-. inversion H1 as [m0 ? ? E0|]. rewrite <-E0 in H2. inversion H2. eauto. }
  rewrite (bind_ok _ _ c' c' c'.(gc_id)) by done. rewrite (bind_ok _ _ c' c' m) by (by apply get_member_ok).
  assert (fails_now c' d = fails_with_dependency m.(gm_status)) as Hcand by (unfold fails_now; by rewrite Em).
  rewrite Hcand. destruct (fails_with_dependency m.(gm_status)) eqn:Ef; cbn [negb]; [|done].
  rewrite (bind_ok _ _ c' (fail_member d c') tt)
    by (apply (mark_terminal_ok c' d m OutFailed Em); by destruct m.(gm_status)).
  unfold mbind at 1, graph_bind at 1.
  pose proof (candidates_mark (evolves c0) fails_now graph_hard_dependents (needing c0.(gc_dependencies)) fail_member
    failure_event ge_service (dom c0.(gc_members)) c' d Hc' Hcand) as Hlt.
  pose proof (@mk_ok _ _ _ _ _ _ _ _ _ _ failure_markable c' d Hc' Hcand) as Hok.
  rewrite IH by (done || lia). unfold mbind, graph_bind, fail_visit, failure_event. by rewrite Em.
Qed.

Lemma propagate_spec s :
  ∃ c' events, propagate_hard_dependency_failure s c0 = Some (c', Ok events) ∧ evolves c0 c' ∧
    marked fails_now (needing c0.(gc_dependencies)) fail_member failure_event ge_service
      (graph_hard_dependents c0 s) c0 c' events.
Proof using.
  unfold propagate_hard_dependency_failure.
  assert (candidates fails_now (dom c0.(gc_members)) c0 < S (size c0.(gc_members)))%nat as Hf.
  { unfold candidates. apply Nat.lt_succ_r. rewrite <-size_dom. apply subseteq_size. set_solver. }
  rewrite propagate_visits by done.
  by apply (visit_members_ok (evolves c0) fails_now graph_hard_dependents (needing c0.(gc_dependencies)) fail_member
    failure_event ge_service (dom c0.(gc_members))).
Qed.
End Failure.

(** Marking is a change of the marked members only. *)
Lemma foldl_update_members status l c x :
  (foldl (λ c d, update_member d (with_status status) c) c l).(gc_members) !! x =
  if bool_decide (x ∈ l) then with_status status <$> c.(gc_members) !! x else c.(gc_members) !! x.
Proof.
  revert c. induction l as [|d l IH]; intros c; cbn [foldl].
  { by rewrite bool_decide_eq_false_2 by (intros []%elem_of_nil). }
  rewrite IH, lookup_update_member. case_bool_decide as H1; case_bool_decide as H2; case_bool_decide as H3;
    rewrite elem_of_cons in *; try tauto; by destruct (gc_members c !! x).
Qed.

Lemma tc_first {A} (R : relation A) x y : tc R x y → ∃ t, R x t ∧ rtc R t y.
Proof. intros [? ?|? t ? ? ?]; eauto using rtc_refl, tc_rtc. Qed.

(** The members that fail with [s]: the started or waiting ones that need it,
    directly or through such members. *)
Definition fails_with (c : GraphExecutionContext) (s x : string) : Prop :=
  tc (λ a b, b ∈ needing c.(gc_dependencies) a ∧ fails_now c b = true) s x.

(** C34: A failure reaches exactly the members it dooms. When a member that has
    not ended fails, the operation ends, the member is Failed, and so is every
    member that has been released or passed its checks and needs it by Requires
    or BindsTo, directly or through other such members; no other member
    changes. Each of them is reported exactly once, with its own operation. *)
Theorem failure_spreads_exactly context_id s operation_id c member :
  c.(gc_members) !! s = Some member → status_is_terminal member.(gm_status) = false →
  let c1 := fail_member s c in
  ∃ c' events, end_member context_id s operation_id OutFailed c = Some (c', Ok events) ∧
    NoDup (map ge_service events) ∧
    (∀ x, x ∈ map ge_service events ↔ x = s ∨ fails_with c1 s x) ∧
    (∀ x, c'.(gc_members) !! x =
       if bool_decide (x ∈ map ge_service events) then with_status GsFailed <$> c.(gc_members) !! x
       else c.(gc_members) !! x) ∧
    (∀ e, e ∈ events → e.(ge_outcome) = OutFailed ∧
       (e.(ge_service) = s ∧ e.(ge_operation_id) = operation_id ∨
        ∃ m, c.(gc_members) !! e.(ge_service) = Some m ∧ e.(ge_operation_id) = m.(gm_operation_id))) ∧
    evolves c c'.
Proof.
  intros E Hl c1. destruct (propagate_spec c1 s) as (c' & events & Ep & Hev & M).
  pose proof (λ x, marked_exact _ _ _ _ _ _ _ _ _ x M) as Hx. destruct M as [A N C L R D T P Q].
  assert (fails_now c1 s = false) as Hs.
  { unfold fails_now, c1, fail_member. rewrite lookup_update_member, bool_decide_eq_true_2, E by done. done. }
  assert (s ∉ map ge_service events) as Hns by (intros Hin%C; congruence).
  exists c', ({| ge_context_id := context_id; ge_service := s; ge_operation_id := operation_id;
                 ge_outcome := OutFailed |} :: events).
  assert (evolves c c1) as Hc1 by (apply update_status_evolves; intros m Em; simplify_eq; done).
  split_and!.
  - unfold end_member. rewrite (bind_ok _ _ c c1 tt) by (by apply (mark_terminal_ok c s member OutFailed)).
    rewrite bool_decide_eq_true_2 by done. by rewrite (bind_ok _ _ c1 c' events).
  - simpl. by apply NoDup_cons.
  - intros x. simpl. rewrite elem_of_cons, Hx. split; (intros [?|H]; [by left|right]).
    + destruct H as (t & Ht & Hc & Hr). eapply tc_rtc_r; [apply tc_once|exact Hr]. split; [|done].
      by apply (@mk_next _ _ _ _ _ _ _ _ _ _ (failure_markable c1) c1 s t).
    + apply tc_first in H as (t & [Ht Hc] & Hr). exists t. split; [|done]. by apply (@mk_all _ _ _ _ _ _ _ _ _ _ (failure_markable c1) c1 s t).
  - intros x. rewrite A. unfold fail_member. rewrite foldl_update_members.
    unfold c1, fail_member. rewrite lookup_update_member. simpl.
    repeat case_bool_decide; rewrite ?elem_of_cons in *; try tauto; by destruct (gc_members c !! x).
  - intros e [->|He]%elem_of_cons; [by auto|]. pose proof (P e He) as Pe. rewrite Pe. split; [done|]. right. simpl.
    assert (cand : fails_now c1 (ge_service e) = true) by (apply C, list_elem_of_fmap_2, He).
    unfold fails_now, c1, fail_member in *. rewrite lookup_update_member in *.
    case_bool_decide as Hes; [destruct Hns; rewrite <-Hes; by apply list_elem_of_fmap_2|].
    destruct (gc_members c !! ge_service e) as [m|] eqn:Em; [|done]. exists m. split; [done|].
    by rewrite lookup_alter_ne, Em by congruence.
  - by etrans.
Qed.

(** *** Pruning *)

Definition prune_member (s : string) : GraphExecutionContext → GraphExecutionContext :=
  update_member s (with_status GsPruned).

Definition edge_targets (dependencies : list GraphDependency) (s : string) : list string :=
  map gd_target (filter (λ d, d.(gd_dependent) = s) dependencies).

Definition pruned_report (c : GraphExecutionContext) (s : string) : GraphPrunedOperation := {|
  gp_context_id := c.(gc_id);
  gp_service := s;
  gp_operation_id := match c.(gc_members) !! s with Some m => m.(gm_operation_id) | None => 0%Z end;
|}.

(** Statuses of dependents that let a dormant member go. *)
Definition spares (status : GraphMemberStatus) : bool :=
  match status with GsDormant | GsSatisfied | GsFailed | GsPruned => true | _ => false end.

Lemma can_prune_spec c s :
  can_prune_dormant_member c s = true ↔
  status_in c s = Some GsDormant ∧
  ∀ d status, d ∈ c.(gc_dependencies) → d.(gd_target) = s → status_in c d.(gd_dependent) = Some status →
    spares status = true.
Proof.
  unfold can_prune_dormant_member, status_in. destruct (gc_members c !! s) as [m|]; [|by split; [|intros [? _]]].
  simpl. destruct (bool_decide (gm_status m ≠ GsDormant)) eqn:Em; breflect.
  { split; [done|]. intros [[= ?] _]. tauto. }
  rewrite forallb_forall. split.
  - intros H. split; [by f_equal; apply dec_stable|]. intros d status Hd Ht.
    destruct (gc_members c !! gd_dependent d) as [m'|] eqn:E'; [|done]. intros [= <-].
    apply (H m'), list_elem_of_In, list_elem_of_omap. exists d. split; [|done]. by apply list_elem_of_filter.
  - intros [_ H] m' (d & [? Hd]%list_elem_of_filter & E')%list_elem_of_In%list_elem_of_omap.
    apply (H d); [done..|]. by rewrite E'.
Qed.

Lemma status_update s f c x :
  status_in (update_member s f c) x =
  if bool_decide (x = s) then gm_status ∘ f <$> c.(gc_members) !! x else status_in c x.
Proof. unfold status_in. rewrite lookup_update_member. case_bool_decide; [|done]. by destruct (gc_members c !! x). Qed.

Section Pruning.
Context (c0 : GraphExecutionContext).

#[local] Instance prune_markable :
  Markable (evolves c0) can_prune_dormant_member (λ c s, map gd_target (edges_of c s))
    (edge_targets c0.(gc_dependencies)) prune_member pruned_report gp_service (dom c0.(gc_members)).
Proof.
  split.
  - intros c d Hc [Hd _]%can_prune_spec. etrans; [exact Hc|]. apply update_status_evolves. intros m E.
    unfold status_in in Hd. rewrite E in Hd. by injection Hd as ->.
  - intros c d x _ [Hd _]%can_prune_spec. apply eq_iff_eq_true.
    rewrite andb_true_iff, bool_decide_eq_true, !can_prune_spec. unfold prune_member.
    assert (∀ y status, status_in (update_member d (with_status GsPruned) c) y = Some status →
      ∃ status', status_in c y = Some status' ∧ spares status = spares status') as Hst.
    { intros y status. rewrite status_update. case_bool_decide as Hy; [subst y|eauto].
      unfold status_in in *. destruct (gc_members c !! d); [|done]. intros [= <-]. by exists GsDormant. }
    assert (∀ y status, status_in c y = Some status → ∃ status',
      status_in (update_member d (with_status GsPruned) c) y = Some status' ∧ spares status' = spares status) as Hst'.
    { intros y status Hy. rewrite status_update. case_bool_decide as Hyd; [subst y|eauto].
      rewrite Hy in Hd. injection Hd as ->. unfold status_in in *. destruct (gc_members c !! d); [|done]. by exists GsPruned. }
    split.
    + intros [Hx H]. rewrite status_update in Hx. case_bool_decide as Hxd.
      { destruct (gc_members c !! x); done. }
      split; [|done]. split; [done|]. intros e status He Ht Hs. destruct (Hst' _ _ Hs) as (? & ? & <-). by eapply (H e).
    + intros [[Hx H] Hxd]. rewrite status_update, bool_decide_eq_false_2 by done. split; [done|].
      intros e status He Ht Hs. destruct (Hst _ _ Hs) as (? & ? & ->). by eapply (H e).
  - intros c x y [_ _ Hdeps _]. unfold edges_of, edge_targets. by rewrite Hdeps.
  - intros c x y [_ _ Hdeps _]. unfold edges_of, edge_targets. by rewrite Hdeps.
  - done.
  - intros c d x _ Hd. unfold pruned_report, prune_member. f_equal. rewrite lookup_update_member.
    case_bool_decide; [|done]. by destruct (gc_members c !! x).
  - intros c x [_ _ _ Hm] [Hx _]%can_prune_spec. apply elem_of_dom. unfold status_in in Hx. specialize (Hm x).
    destruct (gc_members c !! x) eqn:E; [|done]. inversion Hm. eauto.
Qed.

Lemma prune_visits fuel s c :
  prune_dormant_subtree fuel s c =
  mark_visit can_prune_dormant_member (λ c s, map gd_target (edges_of c s)) prune_member pruned_report fuel s c.
Proof.
  revert s c. induction fuel as [|fuel IH]; intros s c; [done|].
  cbn [prune_dormant_subtree mark_visit]. rewrite (bind_ok _ _ c c (can_prune_dormant_member c s)) by done.
  destruct (can_prune_dormant_member c s) eqn:Ec; cbn [negb]; [|done].
  apply can_prune_spec in Ec as [Hs _]. unfold status_in in Hs.
  destruct (gc_members c !! s) as [m|] eqn:Em; [|done].
  rewrite (bind_ok _ _ c c c.(gc_id)) by done. rewrite (bind_ok _ _ c c m) by (by apply get_member_ok).
  rewrite (bind_ok _ _ c (prune_member s c) tt) by done.
  unfold prune_dependencies_with, pruned_report. rewrite Em. unfold mbind, graph_bind, gets.
  by rewrite (extend_each_ext (prune_dormant_subtree fuel) (mark_visit can_prune_dormant_member
    (λ c s, map gd_target (edges_of c s)) prune_member pruned_report fuel)) by (intros; apply IH).
Qed.

Lemma prune_spec s :
  ∃ c' pruned, prune_dependencies_for_service s c0 = Some (c', Ok pruned) ∧ evolves c0 c' ∧
    marked can_prune_dormant_member (edge_targets c0.(gc_dependencies)) prune_member pruned_report gp_service
      (edge_targets c0.(gc_dependencies) s) c0 c' pruned.
Proof.
  assert (candidates can_prune_dormant_member (dom c0.(gc_members)) c0 < S (size c0.(gc_members)))%nat as Hf.
  { unfold candidates. apply Nat.lt_succ_r. rewrite <-size_dom. apply subseteq_size. set_solver. }
  unfold prune_dependencies_for_service, prune_dependencies_with.
  rewrite (bind_ok _ _ c0 c0 (edge_targets c0.(gc_dependencies) s)) by done.
  erewrite extend_each_ext by (intros; apply prune_visits).
  by apply (visit_members_ok (evolves c0) can_prune_dormant_member (λ c s, map gd_target (edges_of c s))
    (edge_targets c0.(gc_dependencies)) prune_member pruned_report gp_service (dom c0.(gc_members))).
Qed.
End Pruning.

(** Dormant, and needed by nothing that is still to run. *)
Definition unneeded (c : GraphExecutionContext) (x : string) : Prop :=
  status_in c x = Some GsDormant ∧
  ∀ d status, d ∈ c.(gc_dependencies) → d.(gd_target) = x → status_in c d.(gd_dependent) = Some status →
    spares status = true.

(** Pruning takes exactly the dependencies nobody needs any more. For a
    service that will not start, the pruned members are those that were never
    asked to start and whose every dependent is dormant or has ended, reached
    from the service through such members; each is reported once, nothing else
    changes, and afterwards no dependent of a pruned member is waiting,
    checking or running. *)
Theorem pruning_spares_the_needed s c :
  ∃ c' pruned, prune_dependencies_for_service s c = Some (c', Ok pruned) ∧
    NoDup (map gp_service pruned) ∧
    (∀ x, x ∈ map gp_service pruned ↔
       tc (λ a b, b ∈ edge_targets c.(gc_dependencies) a ∧ unneeded c b) s x) ∧
    (∀ x, c'.(gc_members) !! x =
       if bool_decide (x ∈ map gp_service pruned) then with_status GsPruned <$> c.(gc_members) !! x
       else c.(gc_members) !! x) ∧
    (∀ x d status, x ∈ map gp_service pruned → d ∈ c.(gc_dependencies) → d.(gd_target) = x →
       status_in c' d.(gd_dependent) = Some status → spares status = true) ∧
    evolves c c'.
Proof.
  destruct (prune_spec c s) as (c' & pruned & E & Hev & M). exists c', pruned.
  pose proof (λ x, marked_exact _ _ _ _ _ _ _ _ _ x M) as Hx. destruct M as [A N C _ _ _ _ _ _].
  assert (∀ x, c'.(gc_members) !! x = if bool_decide (x ∈ map gp_service pruned)
    then with_status GsPruned <$> c.(gc_members) !! x else c.(gc_members) !! x) as Hm
    by (intros x; rewrite A; apply foldl_update_members).
  split_and!; [done|done| |done| |done].
  - intros x. rewrite Hx. assert (∀ a b, leads can_prune_dormant_member (edge_targets (gc_dependencies c)) c a b ↔
      b ∈ edge_targets c.(gc_dependencies) a ∧ unneeded c b) as Hl by (intros a b; unfold leads; by rewrite can_prune_spec).
    split.
    + intros (t & Ht & Hc%can_prune_spec & Hr). eapply tc_rtc_r; [apply tc_once; by split|].
      revert Hr. apply rtc_congruence with (f := id). intros a b. apply Hl.
    + intros (t & [Ht Hc] & Hr)%tc_first. exists t. split_and!; [done|by apply can_prune_spec|].
      revert Hr. apply rtc_congruence with (f := id). intros a b. apply Hl.
  - intros x d status Hp%C%can_prune_spec Hd Ht Hs. destruct Hp as [_ Hp]. unfold status_in in Hs. rewrite Hm in Hs.
    case_bool_decide; [|by eapply (Hp d)]. destruct (gc_members c !! gd_dependent d); [|done]. by injection Hs as <-.
Qed.

(** *** Holds *)

Section Holds.
Context (c : GraphExecutionContext).

(** An edge that asks for nothing any more. *)
Definition edge_done (d : GraphDependency) : bool :=
  match d.(gd_level), status_in c d.(gd_target) with
  | Some _, Some (GsFailed | GsPruned) => true
  | None, (None | Some (GsSatisfied | GsFailed | GsPruned)) => true
  | _, _ => false
  end.

(** An edge on a fact that nothing bounds in time: a level not yet published by
    a service that is up or outside the context, or a service in Backoff. *)
Definition edge_open (d : GraphDependency) : bool :=
  match d.(gd_level), status_in c d.(gd_target) with
  | Some _, (None | Some (GsSatisfied | GsAwaitingRestart)) => true
  | None, Some GsAwaitingRestart => true
  | _, _ => false
  end.

Definition waiting (s : string) : bool := bool_decide (status_in c s = Some GsWaitingForDependencies).

(** A start held without a clock: it waits, on at least one thing, and each
    edge is done, open, or on a start that is itself so held. *)
Inductive held (s : string) : Prop :=
| held_intro (on : gset string) :
    waiting s = true →
    (∀ t, t ∈ on → held t) →
    (∃ d, d ∈ edges_of c s ∧ (edge_open d = true ∨ d.(gd_target) ∈ on)) →
    (∀ d, d ∈ edges_of c s → edge_done d = true ∨ edge_open d = true ∨ d.(gd_target) ∈ on) →
    held s.

(** The same up to a number of steps. *)
Fixpoint held_within (n : nat) (s : string) : bool :=
  match n with
  | O => false
  | S n =>
      let undecided d := edge_open d || (waiting d.(gd_target) && held_within n d.(gd_target)) in
      waiting s && existsb undecided (edges_of c s) &&
      forallb (λ d, edge_done d || undecided d) (edges_of c s)
  end.

Definition undecided_within (n : nat) (d : GraphDependency) : bool :=
  edge_open d || (waiting d.(gd_target) && held_within n d.(gd_target)).

Lemma held_within_S n s :
  held_within (S n) s = true ↔
  waiting s = true ∧ (∃ d, d ∈ edges_of c s ∧ undecided_within n d = true) ∧
  ∀ d, d ∈ edges_of c s → edge_done d = true ∨ undecided_within n d = true.
Proof.
  change (held_within (S n) s) with (waiting s && existsb (undecided_within n) (edges_of c s) &&
    forallb (λ d, edge_done d || undecided_within n d) (edges_of c s)).
  generalize (undecided_within n) as u. intros u. rewrite !andb_true_iff, existsb_exists, forallb_forall.
  setoid_rewrite <-list_elem_of_In. setoid_rewrite orb_true_iff. tauto.
Qed.

Lemma undecided_mono n m d :
  (∀ s, held_within n s = true → held_within m s = true) → undecided_within n d = true → undecided_within m d = true.
Proof. unfold undecided_within. intros H. rewrite !orb_true_iff, !andb_true_iff. intros [?|[? ?]]; auto. Qed.

Lemma held_within_mono n m s : (n ≤ m)%nat → held_within n s = true → held_within m s = true.
Proof.
  revert m s. induction n as [|n IH]; intros [|m] s Hle; try done; [lia|]. rewrite !held_within_S.
  assert (∀ d, undecided_within n d = true → undecided_within m d = true) as Hu
    by (intros d; apply undecided_mono; intros; apply IH; [lia|done]).
  intros (? & (d & ? & ?) & Hall). split_and!; [done|eauto|]. intros d' Hd'. destruct (Hall d' Hd'); auto.
Qed.

Lemma held_iff_within s : held s ↔ ∃ n, held_within n s = true.
Proof.
  split.
  - induction 1 as [s on Hw Hon IH Hex Hall].
    assert (∃ n, ∀ t, t ∈ on → held_within n t = true) as [n Hn].
    { clear - IH. induction on as [|t on Ht IHon] using set_ind_L; [exists 0%nat; set_solver|].
      destruct IHon as [n Hn]; [intros; apply IH; set_solver|]. destruct (IH t) as [k Hk]; [set_solver|].
      exists (n `max` k)%nat. intros x [->%elem_of_singleton|Hx]%elem_of_union;
        (eapply held_within_mono; [|eauto]); lia. }
    assert (∀ d, edge_open d = true ∨ gd_target d ∈ on → undecided_within n d = true) as Hu.
    { intros d [Hd|Hd]; unfold undecided_within; [by rewrite Hd|]. destruct (Hon _ Hd) as [? -> _ _ _].
      by rewrite Hn, orb_true_r. }
    exists (S n). apply held_within_S. destruct Hex as (d & Hd & Hex). split_and!; [done|by eauto|].
    intros d' Hd'. destruct (Hall d' Hd') as [?|?]; auto.
  - intros [n Hn]. revert s Hn. induction n as [|n IH]; intros s; [done|]. rewrite held_within_S.
    intros (Hw & (d & Hd & Hu) & Hall).
    set (on := list_to_set (filter (λ t, waiting t = true ∧ held_within n t = true) (map gd_target (edges_of c s))) : gset string).
    assert (∀ d, d ∈ edges_of c s → undecided_within n d = true → edge_open d = true ∨ gd_target d ∈ on) as Hon.
    { intros d' Hd' [?|[? ?]%andb_true_iff]%orb_true_iff; [by left|right]. apply elem_of_list_to_set, list_elem_of_filter.
      split; [done|]. by apply list_elem_of_fmap_2. }
    apply (held_intro s on); [done| |eauto|].
    + intros t [[? ?] _]%elem_of_list_to_set%list_elem_of_filter. auto.
    + intros d' Hd'. destruct (Hall d' Hd') as [?|?]; auto.
Qed.

Lemma edge_wait_spec waits d :
  edge_wait waits c d =
  if edge_done d then Some EwSettled
  else if edge_open d then Some EwUndecided
  else if waiting d.(gd_target) then h ← waits d.(gd_target); Some (if h : bool then EwUndecided else EwClocked)
  else Some EwClocked.
Proof.
  unfold edge_wait, edge_done, edge_open, waiting. destruct (gd_level d), (status_in c (gd_target d)) as [[]|]; done.
Qed.

Lemma count_undecided_spec wait edges n :
  (∀ d, d ∈ edges → is_Some (wait d)) →
  ∃ r, count_undecided wait edges n = Some r ∧
    match r with
    | None => ∃ d, d ∈ edges ∧ wait d = Some EwClocked
    | Some k => (∀ d, d ∈ edges → wait d ≠ Some EwClocked) ∧ (n ≤ k)%nat ∧
        ((n < k)%nat ↔ ∃ d, d ∈ edges ∧ wait d = Some EwUndecided)
    end.
Proof.
  revert n. induction edges as [|d edges IH]; intros n Hw; cbn [count_undecided].
  { exists (Some n). split; [done|]. split_and!; [by intros ? []%elem_of_nil|done|].
    split; [lia|]. by intros (? & []%elem_of_nil & _). }
  destruct (Hw d) as [w Ew]; [left|]. rewrite Ew. cbn [mbind option_bind].
  assert (∀ d, d ∈ edges → is_Some (wait d)) as Hw' by (intros; apply Hw; by right).
  destruct w.
  - destruct (IH n Hw') as ([k|] & -> & H); eexists; (split; [done|]).
    + destruct H as (H1 & H2 & H3). split_and!; [|done|].
      * intros x [->|?]%elem_of_cons; [congruence|auto].
      * rewrite H3. setoid_rewrite elem_of_cons. split; [naive_solver|]. intros (x & [->|?] & ?); [congruence|eauto].
    + destruct H as (x & ? & ?). exists x. by rewrite elem_of_cons; auto.
  - destruct (IH (S n) Hw') as ([k|] & -> & H); eexists; (split; [done|]).
    + destruct H as (H1 & H2 & H3). split_and!; [|lia|].
      * intros x [->|?]%elem_of_cons; [congruence|auto].
      * split; [|lia]. intros _. exists d. split; [left|done].
    + destruct H as (x & ? & ?). exists x. by rewrite elem_of_cons; auto.
  - exists None. split; [done|]. exists d. split; [left|done].
Qed.

Lemma edge_done_excludes n d : edge_done d = true → undecided_within n d = false.
Proof.
  unfold edge_done, undecided_within, edge_open, waiting.
  by destruct (gd_level d), (status_in c (gd_target d)) as [[]|].
Qed.

Lemma held_least n s :
  held_within n s = true → ∃ m, (m < n)%nat ∧ held_within (S m) s = true ∧ held_within m s = false.
Proof.
  induction n as [|n IH]; [done|]. intros H. destruct (held_within n s) eqn:E; [|eauto].
  destruct (IH eq_refl) as (m & ? & ?). exists m. split; [lia|done].
Qed.

Lemma visiting_bound visiting :
  NoDup visiting → (∀ v, v ∈ visiting → is_Some (c.(gc_members) !! v)) →
  (List.length visiting ≤ size c.(gc_members))%nat.
Proof.
  intros Hn Hv. rewrite <-(size_list_to_set (C := gset string)) by done. rewrite <-size_dom.
  apply subseteq_size. intros x Hx%elem_of_list_to_set. apply elem_of_dom. auto.
Qed.

(** Whether the search along a path holds [s]. *)
Definition search_ok (visiting : list string) (s : string) (b : bool) : Prop :=
  (b = true → held s) ∧
  (∀ n, held_within n s = true → (∀ v, v ∈ visiting → held_within n v = false) → b = true).

Lemma search_edges visiting s (waits : string → option bool) :
  waiting s = true → (∀ t, ∃ b, waits t = Some b ∧ search_ok (visiting ++ [s]) t b) →
  ∃ r, count_undecided (edge_wait waits c) (edges_of c s) 0 = Some r ∧
    search_ok visiting s match r with Some k => bool_decide (0 < k)%nat | None => false end.
Proof.
  intros Hw Hwaits. destruct (count_undecided_spec (edge_wait waits c) (edges_of c s) 0) as (r & E & Hr).
  { intros d _. rewrite edge_wait_spec. destruct (Hwaits (gd_target d)) as (b & -> & _). simpl.
    destruct (edge_done d), (edge_open d), (waiting (gd_target d)); by eexists. }
  exists r. split; [done|]. split.
  - intros Hb. destruct r as [k|]; [|done]. apply bool_decide_eq_true in Hb. destruct Hr as (Hnc & _ & Hu).
    apply Hu in Hb as (d & Hd & Ed). clear Hu.
    set (on := list_to_set (filter (λ t, waits t = Some true) (map gd_target (edges_of c s))) : gset string).
    assert (∀ d, d ∈ edges_of c s → edge_wait waits c d = Some EwUndecided → edge_open d = true ∨ gd_target d ∈ on) as Hon.
    { intros d' Hd'. rewrite edge_wait_spec. destruct (edge_done d'); [done|]. destruct (edge_open d'); [by left|].
      destruct (waiting (gd_target d')); [|done]. destruct (waits (gd_target d')) as [[]|] eqn:Et; try done. intros _. right.
      apply elem_of_list_to_set, list_elem_of_filter. split; [done|]. by apply list_elem_of_fmap_2. }
    apply (held_intro s on); [done| |eauto|].
    + intros t [Ht _]%elem_of_list_to_set%list_elem_of_filter. destruct (Hwaits t) as (b & Eb & Hs & _).
      rewrite Ht in Eb. injection Eb as <-. auto.
    + intros d' Hd'. specialize (Hnc d' Hd'). destruct (edge_done d') eqn:Edone; [by left|right]. apply Hon; [done|].
      rewrite edge_wait_spec, Edone in *. destruct (edge_open d'), (waiting (gd_target d')); try done.
      destruct (waits (gd_target d')) as [[]|] eqn:Et; try done. by destruct (Hwaits (gd_target d')) as (? & ? & _); congruence.
  - intros n Hn Hv. destruct (held_least n s Hn) as (m & Hmn & Hm & Hms).
    apply held_within_S in Hm as (_ & (d0 & Hd0 & Hu0) & Hall).
    assert (∀ d, undecided_within m d = true → edge_wait waits c d = Some EwUndecided) as Hund.
    { intros d Hd. rewrite edge_wait_spec. destruct (edge_done d) eqn:Edone.
      { by rewrite (edge_done_excludes m d Edone) in Hd. }
      unfold undecided_within in Hd. destruct (edge_open d); [done|]. apply andb_true_iff in Hd as [-> Ht].
      destruct (Hwaits (gd_target d)) as (b & -> & _ & Hc). simpl. rewrite (Hc m Ht); [done|].
      intros v [Hvis|Hvis%list_elem_of_singleton]%elem_of_app; [|by subst v].
      destruct (held_within m v) eqn:Ev; [|done]. rewrite <-(Hv v Hvis). symmetry.
      eapply held_within_mono; [|done]. lia. }
    destruct r as [k|].
    + apply bool_decide_eq_true. destruct Hr as (_ & _ & ->). eauto.
    + destruct Hr as (d & Hd & Ed). destruct (Hall d Hd) as [Hdone|Hu%Hund]; [|congruence].
      rewrite edge_wait_spec, Hdone in Ed. done.
Qed.

Lemma waits_visiting_spec fuel visiting s :
  NoDup visiting → (∀ v, v ∈ visiting → is_Some (c.(gc_members) !! v)) →
  (size c.(gc_members) < fuel + List.length visiting)%nat →
  ∃ b, waits_without_clock_visiting fuel c visiting s = Some b ∧ search_ok visiting s b.
Proof.
  revert visiting s. induction fuel as [|fuel IH]; intros visiting s Hn Hv Hf.
  { pose proof (visiting_bound visiting Hn Hv). lia. }
  cbn [waits_without_clock_visiting]. case_bool_decide as Hw.
  { exists false. split; [done|]. split; [done|]. intros [|n]; [done|]. rewrite held_within_S.
    intros (?%bool_decide_eq_true & _). tauto. }
  case_bool_decide as Hs.
  { exists false. split; [done|]. split; [done|]. intros n Hh Hvis. by rewrite Hvis in Hh. }
  destruct (search_edges visiting s (waits_without_clock_visiting fuel c (visiting ++ [s]))) as (r & -> & Hr).
  - by apply bool_decide_eq_true.
  - intros t. apply IH.
    + apply NoDup_app. split_and!; [done| |apply NoDup_singleton]. intros x Hx ->%list_elem_of_singleton. done.
    + intros v [Hin|Hin%list_elem_of_singleton]%elem_of_app; [auto|]. subst v.
      unfold status_in in Hw. destruct (gc_members c !! s); [eauto|done].
    + rewrite length_app. simpl. lia.
  - simpl. eauto.
Qed.
End Holds.

Lemma waits_without_clock_spec c s :
  ∃ b, waits_without_clock c s = Some b ∧ (b = true ↔ held c s).
Proof.
  destruct (waits_visiting_spec c (S (S (size c.(gc_members)))) [] s) as (b & E & H1 & H2);
    [constructor|by intros ? []%elem_of_nil|simpl; lia|].
  exists b. split; [done|]. split; [done|]. intros [n Hn]%held_iff_within. apply (H2 n Hn). by intros ? []%elem_of_nil.
Qed.

(** Exactly the starts that wait on nothing with a clock are exempt from
    their lifetime. The search of [waits_without_clock], which follows waiting
    targets along a path and gives up on a service it is already visiting, ends
    for every context, also a cyclic one, and answers whether the start is
    held: it waits for dependencies, has at least one undecided edge, and each
    of its edges is done, open (a level a service may still publish, a service
    in Backoff), or on another start that is held in the same sense. *)
Theorem held_without_clock_exact c s : ∃ b, waits_without_clock c s = Some b ∧ (b = true ↔ held c s).
Proof. apply waits_without_clock_spec. Qed.

(** *** Releases *)

Lemma values_by_key c m :
  context_wf c → m ∈ btree_values c.(gc_members) ↔ c.(gc_members) !! m.(gm_service) = Some m.
Proof.
  intros [K _ _]. rewrite elem_of_btree_values. split; [|eauto]. intros [k E]. by rewrite (K k m E).
Qed.

Lemma NoDup_services c : context_wf c → NoDup (map gm_service (btree_values c.(gc_members))).
Proof.
  intros [K _ _]. assert (map gm_service (btree_values c.(gc_members)) = btree_keys c.(gc_members)) as ->;
    [|apply NoDup_btree_keys].
  unfold btree_values, btree_keys. rewrite <-list_fmap_compose. apply list_fmap_ext. intros i [k m] E. simpl.
  apply list_elem_of_lookup_2, elem_of_btree_iter in E. eauto.
Qed.

Section ReleaseSpec.
Context (probe : string → string → LevelProbe) (c : GraphExecutionContext) (Hwf : context_wf c).

(** When an edge lets its dependent go. *)
Definition edge_allows (d : GraphDependency) : Prop :=
  match d.(gd_kind) with
  | DepRequires | DepBindsTo =>
      (status_in c d.(gd_target) = Some GsSatisfied ∨ status_in c d.(gd_target) = None) ∧
      ∀ level, d.(gd_level) = Some level → probe d.(gd_target) level = ProbeSatisfied
  | DepWants =>
      (∀ status, status_in c d.(gd_target) = Some status → status_is_terminal status = true) ∧
      ∀ level, d.(gd_level) = Some level → probe d.(gd_target) level ≠ ProbeNotYetPublished
  end.

Lemma dependency_settled_spec d :
  d ∈ c.(gc_dependencies) → ∃ b, dependency_settled probe c d = Ok b ∧ (b = true ↔ edge_allows d).
Proof using Hwf.
  intros Hd. unfold dependency_settled, edge_allows, status_in.
  destruct d.(gd_level) as [level|] eqn:El.
  - assert (∀ P : string → Prop, (∀ l, Some level = Some l → P l) ↔ P level) as Hl
      by (intros P; split; [auto|by intros ? ? [= <-]]).
    eexists. split; [done|]. destruct d.(gd_kind); rewrite andb_true_iff, bool_decide_eq_true, Hl;
      destruct (gc_members c !! gd_target d) as [m|]; simpl; rewrite ?bool_decide_eq_true;
      (split; intros [H1 H2]; split; try done);
      first [by left; f_equal|by right|by destruct H1 as [[= ?]|?]|by intros ? [= <-]|by apply H1].
  - destruct (cw_target c Hwf d Hd El) as [m ->]. eexists. split; [done|].
    destruct d.(gd_kind); simpl; rewrite ?bool_decide_eq_true; split.
    + intros ->. split; [by left|done].
    + by intros [[[= ?]|?] _].
    + intros H. split; [by intros ? [= <-]|done].
    + intros [H _]. by apply H.
    + intros ->. split; [by left|done].
    + by intros [[[= ?]|?] _].
Qed.

Definition allowsb (d : GraphDependency) : bool :=
  match dependency_settled probe c d with Ok b => b | Err _ => false end.

Lemma allowsb_spec d : d ∈ c.(gc_dependencies) → allowsb d = true ↔ edge_allows d.
Proof using Hwf. intros Hd. unfold allowsb. by destruct (dependency_settled_spec d Hd) as (b & -> & ?). Qed.

Lemma all_settled_spec ds b :
  (∀ d, d ∈ ds → d ∈ c.(gc_dependencies)) → all_settled probe c ds b = Ok (b && forallb allowsb ds).
Proof using Hwf.
  revert b. induction ds as [|d ds IH]; intros b Hds; simpl; [by rewrite andb_true_r|].
  assert (∀ d, d ∈ ds → d ∈ c.(gc_dependencies)) as Hds' by (intros; apply Hds; by right).
  destruct b; simpl; [|by rewrite IH].
  destruct (dependency_settled_spec d) as (b & E & _); [apply Hds; left|]. unfold allowsb at 1. rewrite E. simpl. by rewrite IH.
Qed.

Definition readiness (m : GraphMember) : option ReadyGraphOperationAction :=
  match m.(gm_status) with
  | GsWaitingForPreStartCheck => Some ReadyPreStartCheck
  | GsWaitingForDependencies => if forallb allowsb (edges_of c m.(gm_service)) then Some ReadyStart else None
  | _ => None
  end.

Definition readies : list (GraphMember * ReadyGraphOperationAction) :=
  omap (λ m, action ← readiness m; Some (m, action)) (btree_values c.(gc_members)).

Lemma collect_ready_spec ms :
  collect_ready probe c ms = Ok (omap (λ m, action ← readiness m; Some (m, action)) ms).
Proof using Hwf.
  induction ms as [|m ms IH]; simpl; [done|].
  assert (ready_action probe c m = Ok (readiness m)) as ->.
  { unfold ready_action, readiness, dependencies_settled. destruct m.(gm_status); try done.
    rewrite all_settled_spec; [done|]. by intros d [_ ?]%list_elem_of_filter. }
  simpl. rewrite IH. simpl. by destruct (readiness m).
Qed.

Lemma elem_of_readies m action :
  (m, action) ∈ readies ↔ c.(gc_members) !! m.(gm_service) = Some m ∧ readiness m = Some action.
Proof using Hwf.
  pose proof (λ m, values_by_key c m Hwf) as Hv. unfold readies. rewrite list_elem_of_omap. split.
  - intros (m' & Hm' & E). apply Hv in Hm'. destruct (readiness m') eqn:Er; [|done]. simpl in E. by injection E as -> ->.
  - intros [Hm Er]. exists m. rewrite Hv, Er. done.
Qed.

Lemma NoDup_readies : NoDup (map (λ r, r.1.(gm_service)) readies).
Proof using Hwf.
  pose proof (NoDup_services c Hwf) as Hn. unfold readies. revert Hn.
  induction (btree_values c.(gc_members)) as [|m ms IH]; simpl; [constructor|].
  intros [Hm Hn]%NoDup_cons. destruct (readiness m); simpl; [|auto]. apply NoDup_cons. split; [|auto].
  intros ([m' a] & Heq & (m'' & Hin & E)%list_elem_of_omap)%list_elem_of_fmap. destruct Hm.
  destruct (readiness m''); [|done]. simpl in *. injection E as <- _. rewrite Heq. by apply list_elem_of_fmap_2.
Qed.

(** Those that go: the first ready ones, as many as there are slots. *)
Definition chosen (slots : nat) : list (GraphMember * ReadyGraphOperationAction) :=
  take slots (merge_sort ready_before readies).

Lemma ready_members_spec slots :
  ready_members probe slots c = Ok (map (λ '(m, action), (m.(gm_service), action)) (chosen slots)).
Proof using Hwf.
  unfold ready_members, chosen. destruct (Nat.eqb_spec slots 0) as [->|]; [done|].
  rewrite collect_ready_spec. done.
Qed.

Lemma elem_of_chosen slots r : r ∈ chosen slots → r ∈ readies.
Proof.
  intros Hr%subseteq_take. by rewrite merge_sort_Permutation in Hr.
Qed.

Lemma NoDup_chosen slots : NoDup (map (λ r, r.1.(gm_service)) (chosen slots)).
Proof using Hwf.
  unfold chosen. eapply sublist_NoDup; [|eapply fmap_sublist, sublist_take].
  rewrite merge_sort_Permutation. apply NoDup_readies.
Qed.
End ReleaseSpec.

(** *** The flags of waiting members *)

Lemma note_holds_spec c :
  ∃ c', note_holds_without_clock c = Some (c', Ok tt) ∧ evolves c c' ∧
    (∀ x, status_in c' x = status_in c x) ∧
    (context_wf c → ∀ x m, c'.(gc_members) !! x = Some m → m.(gm_status) = GsWaitingForDependencies →
       m.(gm_held_without_clock) = true ↔ held c x).
Proof.
  set (f s := default false (waits_without_clock c s)).
  assert (∀ s, waits_without_clock c s = Some (f s) ∧ (f s = true ↔ held c s)) as Hf.
  { intros s. unfold f. by destruct (waits_without_clock_spec c s) as (b & -> & ?). }
  set (ms := filter (λ m, m.(gm_status) = GsWaitingForDependencies) (btree_values c.(gc_members))).
  assert (∀ ms acc, try_fold (λ m acc, held ← waits_without_clock c m.(gm_service);
      Some (acc ++ [(m.(gm_service), held)])) ms acc =
    Some (acc ++ map (λ m, (m.(gm_service), f m.(gm_service))) ms)) as Hfold.
  { clear ms. intros ms. induction ms as [|m ms IH]; intros acc; cbn [try_fold]; [by rewrite app_nil_r|].
    rewrite (proj1 (Hf _)). cbn [mbind option_bind]. rewrite IH, <-app_assoc. done. }
  set (step := λ c '(service, held), update_member service (set_held held) c).
  assert (∀ l c0 x, (foldl step c0 (map (λ m, (m.(gm_service), f m.(gm_service))) l)).(gc_members) !! x =
    if bool_decide (x ∈ map gm_service l) then set_held (f x) <$> c0.(gc_members) !! x else c0.(gc_members) !! x) as Hlook.
  { intros l. induction l as [|m l IH]; intros c0 x; cbn [map foldl].
    { by rewrite bool_decide_eq_false_2 by (intros []%elem_of_nil). }
    rewrite IH. unfold step at 1 2. rewrite lookup_update_member.
    case_bool_decide as H1; case_bool_decide as H2; case_bool_decide as H3; rewrite elem_of_cons in *; try tauto;
      subst; by destruct (gc_members c0 !! _). }
  eexists. split.
  { unfold note_holds_without_clock. fold ms. rewrite Hfold. cbn [mbind option_bind app]. reflexivity. }
  split_and!.
  - apply foldl_evolves. intros c0 [s h]. apply update_member_evolves. intros. apply same_held.
  - intros x. unfold status_in. fold step. rewrite Hlook. case_bool_decide; [|done]. by destruct (gc_members c !! x).
  - intros Hwf x m. fold step. rewrite Hlook. case_bool_decide as Hx.
    + destruct (gc_members c !! x); [|done]. intros [= <-] _. simpl. apply Hf.
    + intros E Hm. destruct Hx. rewrite <-(cw_keys c Hwf x m E). apply list_elem_of_fmap_2, list_elem_of_filter.
      split; [done|]. apply elem_of_btree_values. eauto.
Qed.

Lemma mark_running_each id l c :
  (∀ r, r ∈ l → is_Some (c.(gc_members) !! r.1)) →
  extend_each (mark_running id) l c =
    Some (foldl (λ c d, update_member d (with_status GsRunning) c) c l.*1, Ok []).
Proof.
  revert c. induction l as [|[s a] l IH]; intros c Hl; [done|]. cbn [extend_each fmap list_fmap foldl fst].
  destruct (Hl (s, a)) as [m Em]; [left|]. simpl in Em.
  rewrite (bind_ok _ _ c (update_member s (with_status GsRunning) c) []).
  2: { unfold mark_running. rewrite (bind_ok _ _ c c c) by done. by rewrite (bind_ok _ _ c c m) by (by rewrite Em). }
  rewrite (bind_ok _ _ _ (foldl (λ c d, update_member d (with_status GsRunning) c)
    (update_member s (with_status GsRunning) c) l.*1) []); [done|].
  apply IH. intros r Hr. rewrite lookup_update_member. destruct (Hl r) as [m' Em']; [by right|].
  rewrite Em'. case_bool_decide; eauto.
Qed.

Definition released_as (id : GraphContextId) (c : GraphExecutionContext) (r : string * ReadyGraphOperationAction)
    (op : ReadyGraphOperation) : Prop :=
  ∃ m, c.(gc_members) !! r.1 = Some m ∧
    op = {| rg_context_id := id; rg_service := r.1; rg_operation_id := m.(gm_operation_id);
            rg_reserved_job_id := m.(gm_reserved_job_id); rg_transition_cause := m.(gm_transition_cause);
            rg_action := r.2; rg_released_from_hold := m.(gm_held_without_clock) |}.

Lemma release_operation_each id l c :
  (∀ r, r ∈ l → is_Some (c.(gc_members) !! r.1)) →
  ∃ ops, extend_each (release_operation id) l c = Some (c, Ok ops) ∧ Forall2 (released_as id c) l ops.
Proof.
  induction l as [|[s a] l IH]; intros Hl; [by exists []|]. cbn [extend_each].
  destruct (Hl (s, a)) as [m Em]; [left|]. simpl in Em.
  destruct IH as (ops & E & H); [intros; apply Hl; by right|].
  eexists. split.
  { erewrite (bind_ok (release_operation id (s, a))).
    2: { unfold release_operation. rewrite (bind_ok _ _ c c c) by done. by rewrite (bind_ok _ _ c c m) by (by rewrite Em). }
    rewrite (bind_ok _ _ c c ops) by done. reflexivity. }
  simpl. constructor; [|done]. exists m. done.
Qed.

Definition running_set (c : GraphExecutionContext) : gset string :=
  filter (λ x, status_in c x = Some GsRunning) (dom c.(gc_members)).

Lemma elem_of_running_set c x : x ∈ running_set c ↔ status_in c x = Some GsRunning.
Proof.
  unfold running_set. rewrite elem_of_filter, elem_of_dom. unfold status_in.
  destruct (gc_members c !! x); simpl; split; [tauto|eauto|tauto|done].
Qed.

Lemma running_members_size c : context_wf c → running_members c = size (running_set c).
Proof.
  intros Hwf. unfold running_members.
  set (l := filter (λ m, m.(gm_status) = GsRunning) (btree_values c.(gc_members))).
  assert (NoDup (map gm_service l)) as Hn.
  { eapply sublist_NoDup; [apply (NoDup_services c Hwf)|]. apply fmap_sublist, sublist_filter. }
  rewrite <-(length_map gm_service l), <-(size_list_to_set (C := gset string)) by done. f_equal. apply set_eq. intros x.
  rewrite elem_of_list_to_set, elem_of_running_set. unfold status_in. split.
  - intros (m & -> & [Hm Hin]%list_elem_of_filter)%list_elem_of_fmap. apply (values_by_key c m Hwf) in Hin.
    rewrite Hin. simpl. by rewrite Hm.
  - destruct (gc_members c !! x) as [m|] eqn:E; [|done]. simpl. intros [= Hm].
    rewrite <-(cw_keys c Hwf x m E). apply list_elem_of_fmap_2, list_elem_of_filter. split; [done|].
    apply elem_of_btree_values. eauto.
Qed.

(** What the scheduler may let go: a member whose check is due, or one whose
    check has passed and whose every edge allows it. *)
Definition may_go (probe : string → string → LevelProbe) (c : GraphExecutionContext) (m : GraphMember)
    (action : ReadyGraphOperationAction) : Prop :=
  match action with
  | ReadyPreStartCheck => m.(gm_status) = GsWaitingForPreStartCheck
  | ReadyStart =>
      m.(gm_status) = GsWaitingForDependencies ∧
      ∀ d, d ∈ c.(gc_dependencies) → d.(gd_dependent) = m.(gm_service) → edge_allows probe c d
  end.

Lemma readiness_spec probe c m action :
  context_wf c → readiness probe c m = Some action ↔ may_go probe c m action.
Proof.
  intros Hwf. unfold readiness, may_go.
  assert (forallb (allowsb probe c) (edges_of c m.(gm_service)) = true ↔
    ∀ d, d ∈ c.(gc_dependencies) → d.(gd_dependent) = m.(gm_service) → edge_allows probe c d) as Hall.
  { rewrite forallb_forall. unfold edges_of. split.
    - intros H d Hd Hdep. apply (allowsb_spec probe c Hwf d Hd), H, list_elem_of_In, list_elem_of_filter. done.
    - intros H d [? ?]%list_elem_of_In%list_elem_of_filter. apply (allowsb_spec probe c Hwf); auto. }
  destruct action; [|rewrite <-Hall]; clear Hall;
    destruct m.(gm_status), (forallb (allowsb probe c) (edges_of c m.(gm_service))); split; try done; by intros [? ?].
Qed.

Definition released_member (r : GraphMember * ReadyGraphOperationAction) (op : ReadyGraphOperation) : Prop :=
  op.(rg_service) = r.1.(gm_service) ∧ op.(rg_operation_id) = r.1.(gm_operation_id) ∧ op.(rg_action) = r.2.

Lemma released_services l ops :
  Forall2 released_member l ops → map rg_service ops = map (λ r, r.1.(gm_service)) l.
Proof. induction 1 as [|r op l ops (Hs & _ & _) _ IH]; simpl; [done|]. by rewrite IH, Hs. Qed.

Lemma released_members id c picked ops :
  (∀ m a, (m, a) ∈ picked → ∃ m1, c.(gc_members) !! m.(gm_service) = Some m1 ∧
     m1.(gm_operation_id) = m.(gm_operation_id)) →
  Forall2 (released_as id c) (map (λ '(m, action), (m.(gm_service), action)) picked) ops →
  Forall2 released_member picked ops.
Proof.
  revert ops. induction picked as [|[m a] l IH]; intros ops Hl H; inversion H as [|? op ? ? (m1 & E & ->) H']; subst; [constructor|].
  constructor; [|apply IH; [|done]; intros; apply (Hl _ a0); by right].
  destruct (Hl m a) as (m2 & E2 & Hop); [left|]. simpl in E. rewrite E2 in E. injection E as <-. by split_and!.
Qed.

Lemma release_run probe id slots c :
  context_wf c →
  ∃ c' ops, release_context probe id slots c = Some (c', Ok ops) ∧ evolves c c' ∧
    Forall2 released_member (chosen probe c (slots - running_members c)) ops ∧
    ∀ x, status_in c' x = if bool_decide (x ∈ map rg_service ops) then Some GsRunning else status_in c x.
Proof.
  intros Hwf. unfold release_context, available_slots.
  set (picked := chosen probe c (slots - running_members c)).
  set (l := map (λ '(m, action), (m.(gm_service), action)) picked).
  assert (∀ m a, (m, a) ∈ picked → c.(gc_members) !! m.(gm_service) = Some m ∧ may_go probe c m a) as Hp.
  { intros m a [? Hr]%elem_of_chosen%elem_of_readies; [|done]. split; [done|]. by apply readiness_spec. }
  assert (l.*1 = map (λ r, r.1.(gm_service)) picked) as Hl1.
  { unfold l. clear. induction picked as [|[m a] l IH]; simpl; [done|]. by f_equal. }
  assert (∀ r, r ∈ l → ∃ m, (m, r.2) ∈ picked ∧ r.1 = m.(gm_service)) as Hl.
  { intros r ([m a] & -> & Hin)%list_elem_of_fmap. by exists m. }
  rewrite (bind_ok _ _ c c (Ok l)) by (unfold gets; by rewrite ready_members_spec).
  rewrite (bind_ok _ _ c c l) by done.
  set (c1 := foldl (λ c d, update_member d (with_status GsRunning) c) c l.*1).
  rewrite (bind_ok _ _ c c1 []).
  2: { apply mark_running_each. intros r Hr. destruct (Hl r Hr) as (m & Hin & Er). rewrite Er.
       destruct (Hp _ _ Hin) as [-> _]. eauto. }
  assert (∀ x, c1.(gc_members) !! x = if bool_decide (x ∈ l.*1) then with_status GsRunning <$> c.(gc_members) !! x
    else c.(gc_members) !! x) as Hc1 by (intros x; apply foldl_update_members).
  assert (evolves c c1) as Hev.
  { split; [by unfold c1; clear; induction l.*1 as [|? ? IH] using rev_ind; rewrite ?foldl_app; simpl..|].
    intros x. rewrite Hc1. case_bool_decide as Hx; [|done]. rewrite Hl1 in Hx.
    apply list_elem_of_fmap in Hx as ([m a] & Ex & Hin). simpl in Ex. subst x. destruct (Hp m a Hin) as [-> Hgo].
    constructor.
    apply same_status. destruct a; simpl in Hgo; [by rewrite Hgo|by destruct Hgo as [-> _]]. }
  destruct (release_operation_each id l c1) as (ops & Eops & Hops).
  { intros r Hr. destruct (Hl r Hr) as (m & Hin & Er). rewrite Er, Hc1. destruct (Hp _ _ Hin) as [-> _].
    case_bool_decide; eauto. }
  rewrite (bind_ok _ _ c1 c1 ops) by done.
  destruct (note_holds_spec c1) as (c2 & E2 & Hev2 & Hst & _). rewrite (bind_ok _ _ c1 c2 tt) by done.
  exists c2, ops. assert (Forall2 released_member picked ops) as Hrel.
  { eapply released_members; [|exact Hops]. intros m a Hin. rewrite Hc1. destruct (Hp m a Hin) as [-> _].
    case_bool_decide; eauto. }
  split_and!; [done|by etrans|done|]. intros x. rewrite Hst. unfold status_in. rewrite Hc1.
  rewrite (released_services picked ops Hrel), Hl1. case_bool_decide as Hx; [|done].
  apply list_elem_of_fmap in Hx as ([m a] & Ex & Hin). simpl in Ex. subst x. by destruct (Hp m a Hin) as [-> _].
Qed.

#[export] Instance ready_before_trans : Transitive ready_before.
Proof. intros a b c. unfold ready_before, member_before. apply (btree_le_trans (K := Z * string)). Qed.
#[export] Instance ready_before_total : Total ready_before.
Proof. intros a b. unfold ready_before, member_before. apply (btree_le_total (K := Z * string)). Qed.

(** A ready member that was not chosen comes after those that were, and they
    fill the slots. *)
Lemma not_chosen probe c slots r :
  r ∈ readies probe c → r ∉ chosen probe c slots →
  List.length (chosen probe c slots) = slots ∧
  ∀ r', r' ∈ chosen probe c slots → (r'.1.(gm_sequence) ≤ r.1.(gm_sequence))%Z.
Proof.
  intros Hr Hn. unfold chosen in *. set (l := merge_sort ready_before (readies probe c)) in *.
  assert (r ∈ l) as Hl by (unfold l; by rewrite merge_sort_Permutation).
  assert (StronglySorted ready_before l) as Hs by (apply (StronglySorted_merge_sort _)).
  assert (r ∈ drop slots l) as Hd by (rewrite <-(take_drop slots l) in Hl; apply elem_of_app in Hl; tauto).
  split.
  - rewrite length_take. apply Nat.min_l. destruct (decide (slots ≤ List.length l)%nat); [done|].
    rewrite drop_ge in Hd by lia. by apply elem_of_nil in Hd.
  - intros r' Hr'. assert (ready_before r' r) as [Hle _]; [|done]. rewrite <-(take_drop slots l) in Hs.
    apply StronglySorted_app in Hs as (Hs & _). by apply Hs.
Qed.

(** C33: A release is safe, fair to the plan's order and wastes no slot. On a
    well-formed context with at least one parallel start, it ends without an
    error; what it lets go is a member whose check is due, or one whose check
    has passed and whose every edge allows it (a hard dependency Satisfied, a
    wanted one ended, a level published); each released member becomes Running
    and no other status changes; the number of Running members grows by the
    number released and by no more than the free slots; and a member that may
    go is left only when no slot is free, behind members of no later sequence. *)
Theorem release_exact probe id slots c :
  context_wf c →
  ∃ c' ops, release_context probe id slots c = Some (c', Ok ops) ∧
    evolves c c' ∧ NoDup (map rg_service ops) ∧
    (∀ op, op ∈ ops → ∃ m, c.(gc_members) !! op.(rg_service) = Some m ∧
       op.(rg_operation_id) = m.(gm_operation_id) ∧ may_go probe c m op.(rg_action)) ∧
    (∀ x, status_in c' x = if bool_decide (x ∈ map rg_service ops) then Some GsRunning else status_in c x) ∧
    running_members c' = (running_members c + List.length ops)%nat ∧
    (List.length ops ≤ slots - running_members c)%nat ∧
    (∀ x m action, c.(gc_members) !! x = Some m → may_go probe c m action → x ∉ map rg_service ops →
       List.length ops = (slots - running_members c)%nat ∧
       ∀ op m', op ∈ ops → c.(gc_members) !! op.(rg_service) = Some m' → (m'.(gm_sequence) ≤ m.(gm_sequence))%Z).
Proof.
  intros Hwf. destruct (release_run probe id slots c Hwf) as (c' & ops & E & Hev & Hrel & Hst).
  pose proof (released_services _ _ Hrel) as Hsv. pose proof (NoDup_chosen probe c Hwf (slots - running_members c)) as Hn.
  assert (∀ op, op ∈ ops → ∃ m, c.(gc_members) !! op.(rg_service) = Some m ∧
    op.(rg_operation_id) = m.(gm_operation_id) ∧ may_go probe c m op.(rg_action) ∧
    (m, op.(rg_action)) ∈ chosen probe c (slots - running_members c)) as Hops.
  { intros op (i & Hi)%list_elem_of_lookup. destruct (Forall2_lookup_r _ _ _ _ _ Hrel Hi) as ([m a] & Hm & -> & Hid & ->).
    apply list_elem_of_lookup_2 in Hm. pose proof Hm as [? ?]%elem_of_chosen%elem_of_readies; [|done].
    exists m. split_and!; [done..|by apply readiness_spec|done]. }
  assert (NoDup (map rg_service ops)) as Hn' by (by rewrite Hsv).
  exists c', ops. split_and!; [done..| | | | |].
  - intros op Hop. destruct (Hops op Hop) as (m & ? & ? & ? & _). eauto.
  - done.
  - rewrite !running_members_size by (done || by eapply evolves_wf).
    rewrite <-(length_map rg_service ops), <-(size_list_to_set (C := gset string)) by done.
    rewrite <-size_union.
    + f_equal. apply set_eq. intros x. rewrite elem_of_union, elem_of_list_to_set, !elem_of_running_set, Hst.
      case_bool_decide; tauto.
    + intros x Hx Hin%elem_of_list_to_set. apply elem_of_running_set in Hx.
      apply list_elem_of_fmap in Hin as (op & -> & Hop). destruct (Hops op Hop) as (m & Em & _ & Hgo & _).
      unfold status_in in Hx. rewrite Em in Hx. injection Hx as Hx. unfold may_go in Hgo. rewrite Hx in Hgo.
      destruct (rg_action op); [done|]. by destruct Hgo.
  - rewrite <-(Forall2_length _ _ _ Hrel). unfold chosen. rewrite length_take. lia.
  - intros x m action Em Hgo Hx. rewrite <-(Forall2_length _ _ _ Hrel).
    pose proof (cw_keys c Hwf x m Em) as Hk. destruct (not_chosen probe c (slots - running_members c) (m, action)) as [Hlen Hseq].
    + apply elem_of_readies; [done|]. rewrite Hk. split; [done|]. by apply readiness_spec.
    + intros Hin. destruct Hx. rewrite Hsv, <-Hk. by apply (list_elem_of_fmap_2 (λ r, r.1.(gm_service)) _ (m, action)).
    + split; [done|]. intros op m' Hop Em'. destruct (Hops op Hop) as (m'' & Em'' & _ & _ & Hin).
      rewrite Em' in Em''. injection Em'' as <-. exact (Hseq _ Hin).
Qed.
