(* ===== verification/ExecGraphInv.v ===== *)
(** * The invariant of the store of execution graphs

    About [ExecGraph]: every context the planners build is well formed, every
    operation of the store ends, and the contexts and the associations of
    operations with contexts agree after each of them. *)

From S2P Require Import Prelude RustStr ServiceRuntime ServiceDef StartOrder Reach Ids ServiceTable OperationRecord.
From S2P Require Import OperationStore StartPlan BootGraph BootPlan ExecGraph ExecGraphSpec Calendar Graph.
From Stdlib Require Import String.
Open Scope string_scope.
Open Scope list_scope.

(** ** New contexts *)

Definition keyed (members : gmap string GraphMember) : Prop :=
  map_Forall (λ s m, m.(gm_service) = s) members.

Lemma insert_member_keyed members m members' :
  keyed members → insert_member members m = Ok members' → keyed members'.
Proof.
  unfold insert_member. case_bool_decide; [done|]. intros Hk [= <-]. by apply map_Forall_insert_2.
Qed.

Lemma insert_members_keyed new members members' :
  keyed members → insert_members members new = Ok members' → keyed members'.
Proof.
  revert members. induction new as [|m new IH]; intros members Hk; simpl; [by intros [= <-]|].
  destruct (insert_member members m) eqn:E; simpl; [|done]. apply IH. by eapply insert_member_keyed.
Qed.

Lemma on_demand_members_keyed services dispatch outcomes n starts members members' :
  keyed members → on_demand_members services dispatch outcomes n starts members = Ok members' → keyed members'.
Proof.
  revert outcomes n members. induction starts as [|start starts IH]; intros outcomes n members Hk; simpl;
    [by intros [= <-]|].
  destruct (if bool_decide _ then _ else _) as [[outcome outcomes']|]; simpl; [|done].
  destruct (insert_member members _) eqn:E; simpl; [|done]. apply IH. by eapply insert_member_keyed.
Qed.

Definition edge_known (members : gmap string GraphMember) (d : GraphDependency) : Prop :=
  is_Some (members !! d.(gd_dependent)) ∧ (d.(gd_level) = None → is_Some (members !! d.(gd_target))).

Lemma dependencies_known members definition services deps deps' :
  (∀ s, s ∈ services → is_Some (members !! s)) → (∀ d, d ∈ deps → edge_known members d) →
  dependencies_of members definition services deps = Ok deps' → ∀ d, d ∈ deps' → edge_known members d.
Proof.
  revert deps. induction services as [|s services IH]; intros deps Hs Hd; simpl; [by intros [= <-]|].
  destruct (definition s) as [declared|]; simpl; [|done]. apply IH; [intros; apply Hs; by right|].
  revert deps Hd. induction (all_declared_dependencies declared) as [|dep l IHl]; intros deps Hd; simpl; [done|].
  apply IHl. unfold add_dependency. destruct (_ && _) eqn:Eskip; [done|].
  destruct (bool_decide (_ ∈ deps)); [done|].
  intros d [?|Hin%list_elem_of_singleton]%elem_of_app; [auto|]. subst d. split; simpl; [apply Hs; left|].
  intros El. apply andb_false_iff in Eskip as [E|E]; apply bool_decide_eq_false in E; [|done].
  by apply not_eq_None_Some.
Qed.

Lemma finish_context_wf id kind members definition c :
  keyed members → finish_context id kind members definition = Ok c → context_wf c ∧ c.(gc_id) = id.
Proof.
  intros Hk. unfold finish_context. destruct (context_dependencies members definition) as [deps|] eqn:E; [|done].
  simpl. intros [= <-]. split; [|done].
  assert (∀ d, d ∈ deps → edge_known members d) as Hd.
  { eapply dependencies_known; [| |exact E]; [|by intros ? []%elem_of_nil]. intros s. apply elem_of_btree_keys. }
  assert (∀ s, is_Some (members !! s) → is_Some (activate_roots members deps !! s)) as Hs.
  { intros s [m Em]. unfold activate_roots. rewrite lookup_fmap, Em. simpl. eauto. }
  split; simpl.
  - intros s m. unfold activate_roots. rewrite lookup_fmap. destruct (members !! s) as [m0|] eqn:Em; [|done].
    simpl. intros [= <-]. destruct (_ && _); simpl; by apply Hk.
  - intros d Hin. apply Hs. by apply Hd.
  - intros d Hin Hl. apply Hs. by apply Hd.
Qed.

Lemma boot_context_wf id plan definitions c :
  boot_context id plan definitions = Ok c → context_wf c ∧ c.(gc_id) = id.
Proof.
  unfold boot_context. destruct (insert_members ∅ _) as [members|] eqn:E; simpl; [|done].
  apply finish_context_wf. eapply insert_members_keyed; [|exact E]. apply map_Forall_empty.
Qed.

Lemma on_demand_context_wf id dispatch services c :
  on_demand_context id dispatch services = Ok c → context_wf c ∧ c.(gc_id) = id.
Proof.
  unfold on_demand_context. destruct (on_demand_members _ _ _ _ _ ∅) as [members|] eqn:E; simpl; [|done].
  assert (keyed members) as Hk by (eapply on_demand_members_keyed; [|exact E]; apply map_Forall_empty).
  destruct (if bool_decide (members = ∅) then _ else _) as [members'|] eqn:E'; simpl; [|done].
  apply finish_context_wf. case_bool_decide; [by eapply insert_member_keyed|]. by injection E' as <-.
Qed.

(** ** The store *)

Record graph_wf (s : GraphExecutionStore) : Prop := {
  gw_next : (0 ≤ s.(gs_next_context_id))%Z;
  gw_contexts : ∀ id c, s.(gs_contexts) !! id = Some c →
    c.(gc_id) = id ∧ (0 ≤ id < s.(gs_next_context_id))%Z ∧ context_wf c;
  gw_association : ∀ op ids, s.(gs_associations) !! op = Some ids → ids ≠ ∅ ∧
    ∀ id, id ∈ ids → ∃ c x m, s.(gs_contexts) !! id = Some c ∧ c.(gc_members) !! x = Some m ∧
      m.(gm_operation_id) = op;
  gw_member : ∀ id c x m, s.(gs_contexts) !! id = Some c → c.(gc_members) !! x = Some m →
    ∃ ids, s.(gs_associations) !! m.(gm_operation_id) = Some ids ∧ id ∈ ids;
}.

(** What every operation but creation and retirement does to the store. *)
Record store_evolves (s s' : GraphExecutionStore) : Prop := {
  se_next : s'.(gs_next_context_id) = s.(gs_next_context_id);
  se_associations : s'.(gs_associations) = s.(gs_associations);
  se_contexts : ∀ id, option_Forall2 evolves (s.(gs_contexts) !! id) (s'.(gs_contexts) !! id);
}.

#[export] Instance store_evolves_preorder : PreOrder store_evolves.
Proof.
  split.
  - intros s. by split.
  - intros a b c [A1 A2 A3] [B1 B2 B3]. split; try congruence. intros id. specialize (A3 id). specialize (B3 id).
    destruct A3; inversion B3; constructor. by etrans.
Qed.

Lemma evolves_member c c' x m' :
  evolves c c' → c'.(gc_members) !! x = Some m' → ∃ m, c.(gc_members) !! x = Some m ∧ same_member m m'.
Proof. intros [_ _ _ Hm] E. specialize (Hm x). rewrite E in Hm. inversion Hm; eauto. Qed.

Lemma evolves_member_l c c' x m :
  evolves c c' → c.(gc_members) !! x = Some m → ∃ m', c'.(gc_members) !! x = Some m' ∧ same_member m m'.
Proof. intros [_ _ _ Hm] E. specialize (Hm x). rewrite E in Hm. inversion Hm; eauto. Qed.

Lemma store_evolves_wf s s' : store_evolves s s' → graph_wf s → graph_wf s'.
Proof.
  intros [En Ea Ec] [W1 W2 W3 W4]. split; rewrite ?En, ?Ea.
  - done.
  - intros id c' E. specialize (Ec id). rewrite E in Ec. inversion Ec as [c ? Hev Ec1|]. subst.
    destruct (W2 id c) as (Hid & ? & ?); [done|]. split_and!; [|lia..|by eapply evolves_wf].
    by rewrite (ev_id _ _ Hev).
  - intros op ids E. destruct (W3 op ids E) as [? H]. split; [done|]. intros id Hid.
    destruct (H id Hid) as (c & x & m & E1 & E2 & <-). specialize (Ec id). rewrite E1 in Ec. inversion Ec as [c0 c' Hev E0 E1'|].
    subst. destruct (evolves_member_l _ _ _ _ Hev E2) as (m' & ? & Hs). exists c', x, m'.
    split_and!; [done..|]. apply Hs.
  - intros id c' x m' E1 E2. specialize (Ec id). rewrite E1 in Ec. inversion Ec as [c ? Hev Ec1|]. subst.
    destruct (evolves_member _ _ _ _ Hev E2) as (m & Em & Hs). rewrite (sm_operation _ _ Hs). by eapply W4.
Qed.

(** ** Every operation on a context ends and keeps it *)

Definition context_acts {A} (m : GraphM GraphExecutionContext A) : Prop := acts context_wf evolves m.
Definition store_acts {A} (m : GraphM GraphExecutionStore A) : Prop := acts graph_wf store_evolves m.

Lemma context_acts_bind {A B} (m : GraphM GraphExecutionContext A) (k : A → GraphM GraphExecutionContext B) :
  context_acts m → (∀ a, context_acts (k a)) → context_acts (m ≫= k).
Proof. apply acts_bind; [apply _|]. intros c c' ? ?. by eapply evolves_wf. Qed.

Lemma store_acts_bind {A B} (m : GraphM GraphExecutionStore A) (k : A → GraphM GraphExecutionStore B) :
  store_acts m → (∀ a, store_acts (k a)) → store_acts (m ≫= k).
Proof. apply acts_bind; [apply _|]. intros s s' ? ?. by eapply store_evolves_wf. Qed.

Lemma store_acts_each {X A} (f : X → GraphM GraphExecutionStore (list A)) l :
  (∀ x, store_acts (f x)) → store_acts (extend_each f l).
Proof. apply acts_each; [apply _|]. intros s s' ? ?. by eapply store_evolves_wf. Qed.

Lemma on_context_acts {A} id (m : GraphM GraphExecutionContext A) : context_acts m → store_acts (on_context id m).
Proof.
  intros Hm s Hs. unfold on_context. destruct (gs_contexts s !! id) as [c|] eqn:E.
  - destruct (Hm c) as (c' & r & -> & Hev); [by apply (gw_contexts s Hs id c E)|]. do 2 eexists. split; [done|].
    split; try done. intros i. simpl. destruct (decide (i = id)) as [->|].
    + rewrite lookup_insert_eq, E. by constructor.
    + rewrite lookup_insert_ne by done. done.
  - by exists s, (Err (UnknownContext id)).
Qed.

Lemma associated_service_acts op : context_acts (associated_service op).
Proof.
  apply context_acts_bind; [by apply acts_gets; apply _|]. intros o.
  apply context_acts_bind; [by apply acts_ok_or; apply _|]. intros m. by apply acts_ret; apply _.
Qed.

Lemma get_live_member_spec s c :
  ∃ r, get_live_member s c = Some (c, r) ∧
    ∀ m, r = Ok m → c.(gc_members) !! s = Some m ∧ status_is_terminal m.(gm_status) = false.
Proof.
  unfold get_live_member. rewrite (bind_ok _ _ c c c.(gc_id)) by done.
  destruct (gc_members c !! s) as [m|] eqn:E.
  - rewrite (bind_ok _ _ c c m) by (by apply get_member_ok). destruct (status_is_terminal _) eqn:Et; eexists; (split; [done|]).
    + done.
    + by intros ? [= <-].
  - exists (Err (MissingMember c.(gc_id) s)). split; [|done].
    unfold get_member, mbind, graph_bind, gets, ok_or_throw, throw. by rewrite E.
Qed.

(** A change of a member that must be live. *)
Lemma live_member_acts {A} s (k : GraphMember → GraphM GraphExecutionContext A) :
  (∀ c m, context_wf c → c.(gc_members) !! s = Some m → status_is_terminal m.(gm_status) = false →
     ∃ c' r, k m c = Some (c', r) ∧ evolves c c') →
  context_acts (m ← get_live_member s; k m).
Proof.
  intros Hk c Hc. destruct (get_live_member_spec s c) as ([m|e] & E & H).
  - rewrite (bind_ok _ _ c c m) by done. destruct (H m eq_refl). by apply Hk.
  - exists c, (Err e). unfold mbind, graph_bind. by rewrite E.
Qed.

Lemma activate_dependencies_evolves s c : evolves c (activate_dependencies s c).
Proof.
  apply foldl_evolves. intros c0 t. apply update_member_evolves. intros m _. case_bool_decide as Hd; [|done].
  apply same_status. by rewrite Hd.
Qed.

Lemma precheck_acts op : context_acts (mark_pre_start_check_passed op).
Proof.
  apply context_acts_bind; [apply associated_service_acts|]. intros s. apply live_member_acts. intros c m Hc E Hl.
  case_bool_decide; [by exists c, (Ok false)|]. do 2 eexists. split; [done|].
  etrans; [|apply activate_dependencies_evolves]. apply update_status_evolves. intros m' E'. by simplify_eq.
Qed.

Lemma prune_acts op :
  context_acts (service ← associated_service op; prune_dependencies_for_service service).
Proof.
  apply context_acts_bind; [apply associated_service_acts|]. intros s c _.
  destruct (prune_spec c s) as (c' & pruned & E & ? & _). eauto.
Qed.

Lemma note_holds_acts : context_acts note_holds_without_clock.
Proof. intros c _. destruct (note_holds_spec c) as (c' & E & ? & _). eauto. Qed.

Lemma awaiting_acts op :
  context_acts (service ← associated_service op; _ ← mark_awaiting_restart service; note_holds_without_clock).
Proof.
  apply context_acts_bind; [apply associated_service_acts|]. intros s.
  apply context_acts_bind; [|intros; apply note_holds_acts]. apply live_member_acts. intros c m Hc E Hl.
  do 2 eexists. split; [done|]. apply update_member_evolves. intros m' E'. simplify_eq.
  etrans; [by apply same_status|apply same_held].
Qed.

Lemma end_member_acts id s op outcome : context_acts (end_member id s op outcome).
Proof.
  unfold end_member, mark_terminal. apply context_acts_bind.
  - apply live_member_acts. intros c m _ E Hl. do 2 eexists. split; [done|].
    apply update_status_evolves. intros m' E'. by simplify_eq.
  - intros _. apply context_acts_bind; [|intros; by apply acts_ret; apply _].
    case_bool_decide; [|by apply acts_ret; apply _]. intros c _.
    destruct (propagate_spec c s) as (c' & ev & E & ? & _). eauto.
Qed.

Lemma settle_acts s outcome : context_acts (settle_context s outcome).
Proof.
  apply context_acts_bind; [by apply acts_gets; apply _|]. intros [m|]; [|by apply acts_ret; apply _].
  case_bool_decide; [by apply acts_ret; apply _|]. apply context_acts_bind; [by apply acts_gets; apply _|].
  intros. apply end_member_acts.
Qed.

Lemma release_acts probe id slots : context_acts (release_context probe id slots).
Proof. intros c Hc. destruct (release_run probe id slots c Hc) as (c' & ops & E & ? & _). eauto. Qed.

(** ** Every operation on the store ends and keeps it *)

Lemma each_associated_acts {A} op (body : GraphContextId → GraphM GraphExecutionStore (list A)) :
  (∀ id, store_acts (body id)) → store_acts (each_associated op body).
Proof. intros H. apply store_acts_bind; [by apply acts_gets; apply _|]. intros ids. by apply store_acts_each. Qed.

Lemma store_operations_act :
  (∀ op, store_acts (apply_pre_start_check_passed op)) ∧
  (∀ op, store_acts (prune_dormant_dependencies op)) ∧
  (∀ op, store_acts (apply_operation_awaiting_restart op)) ∧
  (∀ s outcome, store_acts (settle_awaiting_restart s outcome)) ∧
  (∀ op outcome, store_acts (apply_operation_terminal op outcome)) ∧
  (∀ probe id slots, store_acts (release_ready probe id slots)).
Proof.
  assert (∀ s outcome, store_acts (settle_awaiting_restart s outcome)) as Hsettle.
  { intros s outcome. apply store_acts_bind; [by apply acts_gets; apply _|]. intros ids. apply store_acts_each.
    intros id. apply on_context_acts, settle_acts. }
  split_and!; [..|done| |].
  - intros op. apply each_associated_acts. intros id. apply store_acts_bind; [apply on_context_acts, precheck_acts|].
    intros b. by apply acts_ret; apply _.
  - intros op. apply each_associated_acts. intros id. apply on_context_acts, prune_acts.
  - intros op. apply each_associated_acts. intros id. apply store_acts_bind; [apply on_context_acts, awaiting_acts|].
    intros b. by apply acts_ret; apply _.
  - intros op outcome. apply store_acts_bind.
    + apply each_associated_acts. intros id. apply on_context_acts, context_acts_bind; [apply associated_service_acts|].
      intros s. apply end_member_acts.
    + intros [|ev evs]; [by apply acts_ret; apply _|]. apply store_acts_bind; [apply Hsettle|].
      intros. by apply acts_ret; apply _.
  - intros probe id slots. unfold release_ready. destruct (slots =? 0)%nat; [by apply acts_throw; apply _|].
    apply on_context_acts, release_acts.
Qed.

(** ** Creation, retirement, holds *)

Lemma associate_lookup id l associations op :
  foldl (associate id) associations l !! op =
  if bool_decide (op ∈ map gm_operation_id l)
  then Some (set_insert id (default ∅ (associations !! op))) else associations !! op.
Proof.
  revert associations. induction l as [|m l IH]; intros a; cbn [foldl map].
  { by rewrite bool_decide_eq_false_2 by (intros []%elem_of_nil). }
  rewrite IH. unfold associate. destruct (decide (op = gm_operation_id m)) as [->|Hne].
  - rewrite lookup_insert_eq. simpl. rewrite (bool_decide_eq_true_2 (_ ∈ _ :: _)) by left.
    case_bool_decide; [|done]. f_equal. apply set_eq. intros x. rewrite !elem_of_set_insert. tauto.
  - rewrite lookup_insert_ne by done. case_bool_decide as H1; case_bool_decide as H2; rewrite elem_of_cons in *;
      try done; tauto.
Qed.

Lemma insert_context_wf c s :
  graph_wf s → context_wf c → c.(gc_id) = s.(gs_next_context_id) → (s.(gs_next_context_id) < u64_max)%Z →
  graph_wf (insert_context c s).
Proof.
  intros [W1 W2 W3 W4] Hc Hid Hmax.
  assert (u64_wrapping_add (gc_id c) 1 = (gs_next_context_id s + 1)%Z) as Hn
    by (rewrite Hid; apply u64_wrapping_add_small; unfold is_u64, u64_max in *; lia).
  assert (gs_contexts s !! gc_id c = None) as Hfresh.
  { destruct (gs_contexts s !! gc_id c) as [c'|] eqn:E; [|done]. destruct (W2 _ _ E) as (_ & ? & _). lia. }
  split; cbn [insert_context gs_next_context_id gs_contexts gs_associations]; rewrite ?Hn.
  - lia.
  - intros id c' [[<- <-]|[_ E]]%lookup_insert_Some; [split_and!; (done || lia)|].
    destruct (W2 id c' E) as (? & ? & ?). split_and!; (done || lia).
  - intros op ids. rewrite associate_lookup. case_bool_decide as Hop.
    + intros [= <-]. split.
      { intros E. assert (gc_id c ∈ set_insert (gc_id c) (default ∅ (gs_associations s !! op))) as Hin
          by (apply elem_of_set_insert; by left). rewrite E in Hin. by apply not_elem_of_empty in Hin. }
      intros id [->|Hin]%elem_of_set_insert.
      * apply list_elem_of_fmap in Hop as (m & -> & [x Hx]%elem_of_btree_values). exists c, x, m.
        by rewrite lookup_insert_eq.
      * destruct (gs_associations s !! op) as [ids|] eqn:E; simpl in Hin; [|by apply not_elem_of_empty in Hin].
        destruct (W3 op ids E) as [_ H]. destruct (H id Hin) as (c' & x & m & ? & ?). exists c', x, m.
        rewrite lookup_insert_ne by congruence. done.
    + intros E. destruct (W3 op ids E) as [? H]. split; [done|]. intros id Hin.
      destruct (H id Hin) as (c' & x & m & ? & ?). exists c', x, m. rewrite lookup_insert_ne by congruence. done.
  - intros id c' x m [[<- <-]|[Hne E]]%lookup_insert_Some Em; rewrite associate_lookup.
    + rewrite bool_decide_eq_true_2 by (apply list_elem_of_fmap_2, elem_of_btree_values; eauto).
      eexists. split; [done|]. apply elem_of_set_insert. by left.
    + destruct (W4 id c' x m E Em) as (ids & Ea & Hin). case_bool_decide; [|eauto]. eexists. split; [done|].
      rewrite Ea. apply elem_of_set_insert. by right.
Qed.

Lemma deleted_lookup {V} (l : list GraphContextId) (m : gmap GraphContextId V) id :
  foldl (λ m i, delete i m) m l !! id = if bool_decide (id ∈ l) then None else m !! id.
Proof.
  revert m. induction l as [|i l IH]; intros m; cbn [foldl].
  { by rewrite bool_decide_eq_false_2 by (intros []%elem_of_nil). }
  rewrite IH. destruct (decide (id = i)) as [->|Hne].
  - rewrite lookup_delete_eq, (bool_decide_eq_true_2 (_ ∈ _ :: _)) by left. by case_bool_decide.
  - rewrite lookup_delete_ne by done. case_bool_decide as H1; case_bool_decide as H2; rewrite elem_of_cons in *;
      try done; tauto.
Qed.

Lemma retired_spec s id :
  graph_wf s → id ∈ (retire_drained_contexts s).2 ↔ ∃ c, s.(gs_contexts) !! id = Some c ∧ is_drained c = true.
Proof.
  intros Hs. assert ((retire_drained_contexts s).2 =
    map gc_id (filter (λ context, is_drained context = true) (btree_values s.(gs_contexts)))) as ->
    by (unfold retire_drained_contexts; by destruct (map gc_id _)).
  rewrite list_elem_of_fmap. split.
  - intros (c & -> & [Hd (i & E)%elem_of_btree_values]%list_elem_of_filter). exists c.
    by destruct (gw_contexts s Hs i c E) as (-> & _).
  - intros (c & E & Hd). exists c. destruct (gw_contexts s Hs id c E) as (-> & _). split; [done|].
    apply list_elem_of_filter. split; [done|]. apply elem_of_btree_values. eauto.
Qed.

Lemma retire_lookup s :
  graph_wf s →
  let '(s', retired) := retire_drained_contexts s in
  s'.(gs_next_context_id) = s.(gs_next_context_id) ∧
  (∀ id, s'.(gs_contexts) !! id = if bool_decide (id ∈ retired) then None else s.(gs_contexts) !! id) ∧
  (∀ op, s'.(gs_associations) !! op = s.(gs_associations) !! op ≫= retained_association retired).
Proof.
  intros Hs. unfold retire_drained_contexts. destruct (map gc_id _) as [|i l] eqn:E.
  - split_and!; [done| |].
    + intros id. by rewrite bool_decide_eq_false_2 by (intros []%elem_of_nil).
    + intros op. destruct (gs_associations s !! op) as [ids|] eqn:Ea; [|done]. simpl. unfold retained_association.
      destruct (gw_association s Hs op ids Ea) as [Hne _].
      assert (filter (λ id, id ∉ ([] : list GraphContextId)) ids = ids) as ->.
      { apply set_eq. intros x. rewrite elem_of_filter. split; [tauto|]. intros. split; [by apply not_elem_of_nil|done]. }
      by rewrite bool_decide_eq_false_2.
  - split_and!; [done| |].
    + intros id. simpl. apply (deleted_lookup (i :: l)).
    + intros op. simpl. apply lookup_omap.
Qed.

Lemma retire_wf s : graph_wf s → graph_wf (retire_drained_contexts s).1.
Proof.
  intros Hs. pose proof (retire_lookup s Hs) as H. destruct (retire_drained_contexts s) as [s' retired].
  destruct H as (Hn & Hc & Ha). destruct Hs as [W1 W2 W3 W4]. simpl. split; rewrite ?Hn.
  - done.
  - intros id c. rewrite Hc. case_bool_decide; [done|]. apply W2.
  - intros op ids. rewrite Ha. destruct (gs_associations s !! op) as [ids0|] eqn:E; [|done]. simpl.
    unfold retained_association. case_bool_decide; [done|]. intros [= <-]. split; [done|].
    intros id [Hr Hin]%elem_of_filter. destruct (W3 op ids0 E) as [_ H'].
    destruct (H' id Hin) as (c & x & m & ? & ?). exists c, x, m. by rewrite Hc, bool_decide_eq_false_2.
  - intros id c x m. rewrite Hc. case_bool_decide as Hr; [done|]. intros E Em. destruct (W4 id c x m E Em) as (ids & Ea & Hin).
    rewrite Ha, Ea. simpl. unfold retained_association.
    assert (id ∈ filter (λ context_id, context_id ∉ retired) ids) as Hin' by (apply elem_of_filter; done).
    eexists. split; [|exact Hin']. rewrite bool_decide_eq_false_2; [done|]. intros E0. rewrite E0 in Hin'.
    by apply not_elem_of_empty in Hin'.
Qed.

Lemma clear_hold_evolves op s : store_evolves s (clear_recorded_operation_hold op s).
Proof.
  split; try done. intros id. unfold clear_recorded_operation_hold. cbn [gs_contexts].
  generalize (gs_contexts s) as contexts. induction (associated_contexts op s) as [|i l IH]; intros contexts; cbn [foldl].
  { destruct (contexts !! id); by constructor. }
  assert (option_Forall2 evolves (contexts !! id) (alter (clear_context_hold op) i contexts !! id)) as H1.
  { destruct (decide (i = id)) as [->|].
    - rewrite lookup_alter_eq. destruct (contexts !! id) as [c|]; constructor. split; try done. intros x. simpl.
      rewrite lookup_fmap. destruct (gc_members c !! x); constructor. case_bool_decide; [apply same_held|done].
    - rewrite lookup_alter_ne by done. destruct (contexts !! id); by constructor. }
  specialize (IH (alter (clear_context_hold op) i contexts)). destruct H1; inversion IH; constructor. by etrans.
Qed.

(** ** Reachable stores *)

(** Every operation that changes the store. *)
Inductive graph_step (s : GraphExecutionStore) : GraphExecutionStore → Prop :=
| gstep_boot plan definitions :
    (s.(gs_next_context_id) < u64_max)%Z → graph_step s (create_boot_context plan definitions s).1
| gstep_on_demand dispatch services :
    (s.(gs_next_context_id) < u64_max)%Z → graph_step s (create_on_demand_context dispatch services s).1
| gstep_retire : graph_step s (retire_drained_contexts s).1
| gstep_clear op : graph_step s (clear_recorded_operation_hold op s)
| gstep_precheck op s' r : apply_pre_start_check_passed op s = Some (s', r) → graph_step s s'
| gstep_prune op s' r : prune_dormant_dependencies op s = Some (s', r) → graph_step s s'
| gstep_awaiting op s' r : apply_operation_awaiting_restart op s = Some (s', r) → graph_step s s'
| gstep_settle service outcome s' r : settle_awaiting_restart service outcome s = Some (s', r) → graph_step s s'
| gstep_terminal op outcome s' r : apply_operation_terminal op outcome s = Some (s', r) → graph_step s s'
| gstep_release probe id slots s' r : release_ready probe id slots s = Some (s', r) → graph_step s s'.

Definition graph_reachable (s : GraphExecutionStore) : Prop := rtc graph_step graph_store_new s.

(** Contexts are kept, in the sense of [evolves], or dropped when drained; an
    identifier is never used again. *)
Record kept (s s' : GraphExecutionStore) : Prop := {
  kp_next : (s.(gs_next_context_id) ≤ s'.(gs_next_context_id))%Z;
  kp_context : ∀ id c, s.(gs_contexts) !! id = Some c →
    s'.(gs_contexts) !! id = None ∨ ∃ c', s'.(gs_contexts) !! id = Some c' ∧ evolves c c';
  kp_gone : ∀ id : GraphContextId, (id < s.(gs_next_context_id))%Z → s.(gs_contexts) !! id = None → s'.(gs_contexts) !! id = None;
}.

Lemma kept_trans a b c : graph_wf a → kept a b → kept b c → kept a c.
Proof.
  intros Ha [A1 A2 A3] [B1 B2 B3]. split; [lia| |].
  - intros id x E. destruct (gw_contexts a Ha id x E) as (_ & ? & _). destruct (A2 id x E) as [Hn|(y & Ey & Hxy)].
    + left. apply B3; [lia|done].
    + destruct (B2 id y Ey) as [?|(z & ? & ?)]; [by left|right]. exists z. split; [done|]. by etrans.
  - intros id Hid E. apply B3; [lia|]. by apply A3.
Qed.

Lemma acted_kept s s' : store_evolves s s' → kept s s'.
Proof.
  intros [En _ Ec]. split.
  - by rewrite En.
  - intros id c E. specialize (Ec id). rewrite E in Ec. inversion Ec; eauto.
  - intros id _ E. specialize (Ec id). rewrite E in Ec. by inversion Ec.
Qed.

Lemma insert_kept c s :
  c.(gc_id) = s.(gs_next_context_id) → (0 ≤ s.(gs_next_context_id) < u64_max)%Z → graph_wf s →
  kept s (insert_context c s).
Proof.
  intros Hid Hmax Hs. split; cbn [insert_context gs_next_context_id gs_contexts].
  - rewrite Hid, u64_wrapping_add_small; unfold is_u64, u64_max in *; lia.
  - intros id c' E. right. exists c'. rewrite lookup_insert_ne; [done|].
    destruct (gw_contexts s Hs id c' E) as (_ & ? & _). lia.
  - intros id Hlt E. rewrite lookup_insert_ne; [done|]. rewrite Hid. lia.
Qed.

Lemma graph_step_keeps s s' : graph_wf s → graph_step s s' → graph_wf s' ∧ kept s s'.
Proof.
  intros Hs Hstep. destruct store_operations_act as (H1 & H2 & H3 & H4 & H5 & H6).
  assert (∀ A (m : GraphM GraphExecutionStore A) r, store_acts m → m s = Some (s', r) → graph_wf s' ∧ kept s s') as Hact.
  { intros A m r Hm E. destruct (Hm s Hs) as (s1 & r1 & E1 & Hev). rewrite E in E1. injection E1 as <- <-.
    split; [by eapply store_evolves_wf|by apply acted_kept]. }
  destruct Hstep as [plan definitions Hmax|dispatch services Hmax| |op|op s' r E|op s' r E|op s' r E
    |service outcome s' r E|op outcome s' r E|probe id slots s' r E]; try (by eapply Hact, E).
  - unfold create_boot_context. destruct (boot_context _ plan definitions) as [c|] eqn:E; simpl.
    + apply boot_context_wf in E as [? ?]. pose proof (gw_next s Hs). split; [by apply insert_context_wf|by apply insert_kept].
    + split; [done|by apply acted_kept].
  - unfold create_on_demand_context. destruct (on_demand_context _ dispatch services) as [c|] eqn:E; simpl.
    + apply on_demand_context_wf in E as [? ?]. pose proof (gw_next s Hs). split; [by apply insert_context_wf|by apply insert_kept].
    + split; [done|by apply acted_kept].
  - split; [by apply retire_wf|]. pose proof (retire_lookup s Hs) as H. destruct (retire_drained_contexts s) as [s' l].
    destruct H as (Hn & Hc & _). simpl. split; [by rewrite Hn| |].
    + intros id c E. rewrite Hc. case_bool_decide; [by left|right]. by exists c.
    + intros id _ E. rewrite Hc, E. by case_bool_decide.
  - pose proof (clear_hold_evolves op s). split; [by eapply store_evolves_wf|by apply acted_kept].
Qed.

Lemma graph_store_new_wf : graph_wf graph_store_new.
Proof. split; simpl; try done. Qed.

Lemma graph_steps_keep s s' : graph_wf s → rtc graph_step s s' → graph_wf s' ∧ kept s s'.
Proof.
  intros Hs H. revert Hs. induction H as [s|a b c Hab _ IH]; intros Hs; [by split; [|apply acted_kept]|].
  destruct (graph_step_keeps a b Hs Hab) as [Hb Kab]. destruct (IH Hb) as [Hc Kbc].
  split; [done|]. by eapply kept_trans.
Qed.

Lemma graph_reachable_wf s : graph_reachable s → graph_wf s.
Proof. intros H. by apply (graph_steps_keep graph_store_new s graph_store_new_wf). Qed.

(** C8: The store of execution graphs stays consistent and never hangs. In
    every reachable store each context is well formed (keyed by its identifier,
    members by their service, every edge from a member, and every edge without
    a level to one), an operation is associated with exactly the contexts that
    have a member for it, and every operation of the store, releases, ends,
    restarts, prunes and checks alike, returns a result: no recursion over the
    graph runs forever. *)
Theorem graph_stores_wf s :
  graph_reachable s →
  graph_wf s ∧
  (∀ op, is_Some (apply_pre_start_check_passed op s)) ∧ (∀ op, is_Some (prune_dormant_dependencies op s)) ∧
  (∀ op, is_Some (apply_operation_awaiting_restart op s)) ∧
  (∀ service outcome, is_Some (settle_awaiting_restart service outcome s)) ∧
  (∀ op outcome, is_Some (apply_operation_terminal op outcome s)) ∧
  (∀ probe id slots, is_Some (release_ready probe id slots s)).
Proof.
  intros Hs%graph_reachable_wf. destruct store_operations_act as (H1 & H2 & H3 & H4 & H5 & H6). split; [done|].
  split_and!; intros; [edestruct H1 as (? & ? & -> & _)|edestruct H2 as (? & ? & -> & _)
    |edestruct H3 as (? & ? & -> & _)|edestruct H4 as (? & ? & -> & _)|edestruct H5 as (? & ? & -> & _)
    |edestruct H6 as (? & ? & -> & _)]; eauto.
Qed.

(** A member of an execution graph ends once. Whatever happens to a
    reachable store, a member that is Satisfied, Failed or Pruned keeps that
    status, its operation and its place, until its context as a whole is
    dropped; and no later context takes the identifier. *)
Theorem members_end_once s s' id c x m :
  graph_reachable s → rtc graph_step s s' →
  s.(gs_contexts) !! id = Some c → c.(gc_members) !! x = Some m → status_is_terminal m.(gm_status) = true →
  s'.(gs_contexts) !! id = None ∨
  ∃ c' m', s'.(gs_contexts) !! id = Some c' ∧ c'.(gc_members) !! x = Some m' ∧
    m'.(gm_status) = m.(gm_status) ∧ m'.(gm_operation_id) = m.(gm_operation_id) ∧
    c'.(gc_dependencies) = c.(gc_dependencies).
Proof.
  intros Hs%graph_reachable_wf Hsteps Ec Em Ht. destruct (graph_steps_keep s s' Hs Hsteps) as [_ [_ K _]].
  destruct (K id c Ec) as [?|(c' & Ec' & Hev)]; [by left|right].
  destruct (evolves_member_l _ _ _ _ Hev Em) as (m' & Em' & Hsame). exists c', m'.
  split_and!; [done|done|by apply Hsame|apply Hsame|apply Hev].
Qed.

(** Retirement drops exactly what is finished. On a reachable store the
    retired contexts are those in which every member has ended; the others are
    untouched; and an operation keeps an association exactly while some
    remaining context has a member for it, so nothing is leaked and nothing in
    use is lost. *)
Theorem retirement_exact s :
  graph_reachable s →
  let '(s', retired) := retire_drained_contexts s in
  (∀ id, id ∈ retired ↔ ∃ c, s.(gs_contexts) !! id = Some c ∧
     ∀ x m, c.(gc_members) !! x = Some m → status_is_terminal m.(gm_status) = true) ∧
  (∀ id, s'.(gs_contexts) !! id = if bool_decide (id ∈ retired) then None else s.(gs_contexts) !! id) ∧
  (∀ op id, id ∈ associated_contexts op s' ↔
     ∃ c x m, s'.(gs_contexts) !! id = Some c ∧ c.(gc_members) !! x = Some m ∧ m.(gm_operation_id) = op).
Proof.
  intros Hs%graph_reachable_wf. pose proof (retired_spec s) as Hr. pose proof (retire_lookup s Hs) as Hl.
  pose proof (retire_wf s Hs) as Hs'. destruct (retire_drained_contexts s) as [s' retired]. simpl in *.
  destruct Hl as (_ & Hc & _). split_and!; [|done|].
  - intros id. rewrite Hr by done. apply exist_proper. intros c. apply and_iff_compat_l. unfold is_drained.
    rewrite forallb_forall. split.
    + intros H x m E. apply H, list_elem_of_In, elem_of_btree_values. eauto.
    + intros H m [x E]%list_elem_of_In%elem_of_btree_values. eauto.
  - intros op id. unfold associated_contexts. split.
    + destruct (gs_associations s' !! op) as [ids|] eqn:E; [|by intros []%elem_of_nil].
      rewrite elem_of_btree_elements. by apply (gw_association s' Hs' op ids E).
    + intros (c & x & m & Ec & Em & <-). destruct (gw_member s' Hs' id c x m Ec Em) as (ids & -> & ?).
      by apply elem_of_btree_elements.
Qed.

(** ** Progress *)

(** A live member: one that has not ended. *)
Definition live_in (c : GraphExecutionContext) (x : string) (m : GraphMember) : Prop :=
  c.(gc_members) !! x = Some m ∧ status_is_terminal m.(gm_status) = false.

(** The state in which a scheduler that nothing outside holds up must move. *)
Record unhindered (probe : string → string → LevelProbe) (c : GraphExecutionContext) : Prop := {
  uh_idle : ∀ x, status_in c x ≠ Some GsRunning ∧ status_in c x ≠ Some GsAwaitingRestart;
  uh_order : ∀ d m t, d ∈ c.(gc_dependencies) → live_in c d.(gd_dependent) m → live_in c d.(gd_target) t →
    (t.(gm_sequence) < m.(gm_sequence))%Z;
  uh_dormant : ∀ x, status_in c x = Some GsDormant →
    ∃ d, d ∈ c.(gc_dependencies) ∧ d.(gd_target) = x ∧
      (status_in c d.(gd_dependent) = Some GsDormant ∨ status_in c d.(gd_dependent) = Some GsWaitingForPreStartCheck);
  uh_failed : ∀ d, d ∈ c.(gc_dependencies) → hard_edge d →
    status_in c d.(gd_dependent) = Some GsWaitingForDependencies →
    status_in c d.(gd_target) ≠ Some GsFailed ∧ status_in c d.(gd_target) ≠ Some GsPruned;
  uh_levels : ∀ d level, d ∈ c.(gc_dependencies) → d.(gd_level) = Some level →
    probe d.(gd_target) level = ProbeSatisfied;
}.

Lemma live_extreme (f : Z → Z) c (P : GraphMember → Prop) `{!∀ m, Decision (P m)} :
  (∃ x m, c.(gc_members) !! x = Some m ∧ P m) →
  ∃ x m, c.(gc_members) !! x = Some m ∧ P m ∧
    ∀ y n, c.(gc_members) !! y = Some n → P n → (f m.(gm_sequence) ≤ f n.(gm_sequence))%Z.
Proof.
  intros (x0 & m0 & E0 & H0).
  set (l := map (λ m, f m.(gm_sequence)) (filter P (btree_values c.(gc_members)))).
  assert (∀ y n, c.(gc_members) !! y = Some n → P n → f n.(gm_sequence) ∈ l) as Hl.
  { intros y n E Hn. apply (list_elem_of_fmap_2 (λ m, f m.(gm_sequence))), list_elem_of_filter. split; [done|].
    apply elem_of_btree_values. eauto. }
  destruct (list_min l) as [k|] eqn:Ek; [|by apply list_min_None in Ek; rewrite Ek in Hl; destruct (elem_of_nil (f m0.(gm_sequence))) as [[] _]; eauto].
  apply list_min_Some in Ek as [Hk Hmin].
  apply list_elem_of_fmap in Hk as (m & -> & [Hm [x E]%elem_of_btree_values]%list_elem_of_filter).
  exists x, m. split_and!; [done..|]. intros y n Ey Hn. by eapply Hmin, Hl.
Qed.

Section Progress.
Context (probe : string → string → LevelProbe) (c : GraphExecutionContext).
Context (Hwf : context_wf c) (Hu : unhindered probe c).

Lemma live_status x m : live_in c x m → status_in c x = Some m.(gm_status).
Proof. intros [E _]. unfold status_in. by rewrite E. Qed.

(** The last dormant member could only be activated by a member to be checked. *)
Lemma dormant_behind_check :
  (∃ x, status_in c x = Some GsDormant) → ∃ x, status_in c x = Some GsWaitingForPreStartCheck.
Proof using Hu.
  intros [x0 Hx0]. unfold status_in in Hx0. destruct (gc_members c !! x0) as [m0|] eqn:E0; [|done]. injection Hx0 as Hm0.
  destruct (live_extreme Z.opp c (λ m, m.(gm_status) = GsDormant)) as (x & m & E & Hm & Hmax); [eauto|].
  destruct (uh_dormant _ _ Hu x) as (d & Hd & Ht & Hdep); [unfold status_in; by rewrite E; simpl; rewrite Hm|].
  destruct Hdep as [Hdep|?]; [|eauto]. unfold status_in in Hdep.
  destruct (gc_members c !! gd_dependent d) as [n|] eqn:En; [|done]. injection Hdep as Hn.
  assert (gm_sequence m < gm_sequence n)%Z; [|specialize (Hmax _ n En Hn); lia].
  apply (uh_order _ _ Hu d n m Hd); split; rewrite ?Ht, ?Hn, ?Hm; done.
Qed.

(** The first live member, once all live ones wait for dependencies, may go. *)
Lemma first_waiter_goes x m :
  (∀ y n, live_in c y n → n.(gm_status) = GsWaitingForDependencies) → live_in c x m →
  ∃ y n, c.(gc_members) !! y = Some n ∧ may_go probe c n ReadyStart.
Proof using Hu Hwf.
  intros Hall Hx.
  destruct (live_extreme id c (λ m, status_is_terminal m.(gm_status) = false)) as (y & n & E & Hl & Hmin);
    [destruct Hx; eauto|]. assert (n.(gm_status) = GsWaitingForDependencies) as Hn by (by apply (Hall y); split).
  exists y, n. split; [done|]. split; [done|]. intros d Hd Hdep. pose proof (cw_keys c Hwf y n E) as Hk.
  assert (∀ t, c.(gc_members) !! gd_target d = Some t → status_is_terminal t.(gm_status) = true) as Hend.
  { intros t Et. destruct (status_is_terminal (gm_status t)) eqn:Hlt; [done|].
    assert (gm_sequence t < gm_sequence n)%Z; [|specialize (Hmin _ t Et Hlt); unfold id in *; lia].
    apply (uh_order _ _ Hu d n t Hd); split; rewrite ?Hdep, ?Hk; done. }
  assert (status_in c (gd_dependent d) = Some GsWaitingForDependencies) as Hst
    by (unfold status_in; rewrite Hdep, Hk, E; simpl; by rewrite Hn).
  pose proof (uh_levels _ _ Hu d) as Hlev. pose proof (uh_failed _ _ Hu d Hd) as Hf. unfold hard_edge in Hf.
  unfold edge_allows, status_in in *. destruct d.(gd_kind), (gc_members c !! gd_target d) as [t|]; split;
    try (intros level Hlvl; rewrite (Hlev level Hd Hlvl); done); try (by right); try done.
  - left. specialize (Hend t eq_refl). destruct Hf as [? ?]; [by auto..|]. simpl in *. destruct (gm_status t); done.
  - intros status [= <-]. by apply Hend.
  - left. specialize (Hend t eq_refl). destruct Hf as [? ?]; [by auto..|]. simpl in *. destruct (gm_status t); done.
Qed.

Lemma something_may_go x m :
  live_in c x m → ∃ y n action, c.(gc_members) !! y = Some n ∧ may_go probe c n action.
Proof using Hu Hwf.
  intros Hx. destruct (decide (Exists (λ n, n.(gm_status) = GsWaitingForPreStartCheck) (btree_values c.(gc_members))))
    as [(n & [y Ey]%elem_of_btree_values & Hn)%Exists_exists|Hno].
  { by exists y, n, ReadyPreStartCheck. }
  assert (∀ y, status_in c y ≠ Some GsWaitingForPreStartCheck) as Hpre.
  { intros y Hy. apply Hno, Exists_exists. unfold status_in in Hy. destruct (gc_members c !! y) as [n|] eqn:Ey; [|done].
    injection Hy as Hy. exists n. split; [|done]. apply elem_of_btree_values. eauto. }
  destruct (first_waiter_goes x m) as (y & n & ? & ?); [|done|by exists y, n, ReadyStart].
  intros y n Hy. pose proof (live_status y n Hy) as Hs. destruct (uh_idle _ _ Hu y) as [Hr Ha]. rewrite Hs in *.
  destruct Hy as [_ Hl]. destruct (gm_status n) eqn:En; try done.
  - exfalso. destruct dormant_behind_check as [z Hz]; [eauto|]. by apply (Hpre z).
  - exfalso. by apply (Hpre y).
Qed.
End Progress.

(** C35: The scheduler does not stall by itself. In a well-formed context with a
    member that has not ended, in which nothing runs or awaits a restart, live
    members depend on earlier ones, levels are published, no waiting member
    needs a failed one, and every dormant member is a dependency of one that is
    dormant or about to be checked, a release with a free slot lets a member
    go. *)
Theorem scheduler_progress probe id slots c x m :
  context_wf c → unhindered probe c → live_in c x m → (0 < slots)%nat →
  ∃ c' op ops, release_context probe id slots c = Some (c', Ok (op :: ops)).
Proof.
  intros Hwf Hu Hx Hslots. destruct (something_may_go probe c Hwf Hu x m Hx) as (y & n & action & Ey & Hgo).
  destruct (release_run probe id slots c Hwf) as (c' & ops & E & _ & Hrel & _).
  assert (running_members c = 0%nat) as Hrun.
  { rewrite running_members_size by done. apply size_empty_iff, elem_of_equiv_empty. intros z Hz%elem_of_running_set.
    by destruct (uh_idle _ _ Hu z). }
  destruct ops as [|op ops]; [|eauto]. exfalso. inversion Hrel as [Hc|]. symmetry in Hc.
  destruct (not_chosen probe c (slots - running_members c) (n, action)) as [Hlen _].
  - apply elem_of_readies; [done|]. rewrite (cw_keys c Hwf y n Ey). split; [done|]. by apply readiness_spec.
  - rewrite Hc. by intros []%elem_of_nil.
  - rewrite Hc, Hrun in Hlen. simpl in Hlen. lia.
Qed.

(** ** An example: two services that need a third, one start at a time *)

Definition late_plan : Phase2BootPlan :=
  let start service id := {| ps_service := service; ps_operation_id := id; ps_job_id := id + 10;
                             ps_cause := ExplicitStart; ps_identity := "system" |}%Z in
  {| bp_mode := ModeFull; bp_observed_at_ns := 0; bp_max_parallel_starts := 1;
     bp_starts := [start "db" 1; start "app" 2; start "web" 3]%Z; bp_blocked := [];
     bp_safe_mode_downgrade := []; bp_warnings := [] |}.

Definition late_definitions : list ServiceDefinition :=
  [ simple_system_boot "db" "/bin/db";
    {| (simple_system_boot "app" "/bin/app") with sd_requires := ["db"] |};
    {| (simple_system_boot "web" "/bin/web") with sd_requires := ["db"] |} ].

Definition late_store : GraphExecutionStore := (create_boot_context late_plan late_definitions graph_store_new).1.

(** The check of "app" passes, "db" is checked, starts and fails; only then is
    "web" checked. *)
Definition late_run : GraphM GraphExecutionStore unit :=
  let release := release_ready (λ _ _, ProbeAbsent) 0 1 in
  _ ← release; _ ← apply_pre_start_check_passed 2;
  _ ← release; _ ← apply_pre_start_check_passed 1;
  _ ← release; _ ← apply_operation_failed 1;
  _ ← release; _ ← apply_pre_start_check_passed 3;
  mret tt.

Definition late_end : option GraphExecutionContext :=
  match late_run late_store with Some (s, Ok _) => s.(gs_contexts) !! 0%Z | _ => None end.

Lemma late_reachable : graph_reachable late_store.
Proof. apply rtc_once, gstep_boot. vm_compute. done. Qed.

(** A dependent that is checked late outlives the failure of what it needs.
    [propagate_hard_dependency_failure] fails the dependents that wait or run;
    one that is still dormant, or whose check is not yet due because the
    parallel starts are used up, is passed over. In this boot "web" requires
    "db", "db" has failed, and "web" then waits for it: no release can ever let
    it go, and since it waits on nothing undecided, only its operation's
    timeout ends it. *)
Theorem late_dependent_waits_on_failed :
  ∃ c, late_end = Some c ∧
    status_in c "db" = Some GsFailed ∧ status_in c "app" = Some GsFailed ∧
    status_in c "web" = Some GsWaitingForDependencies ∧
    {| gd_dependent := "web"; gd_target := "db"; gd_level := None; gd_kind := DepRequires |} ∈ c.(gc_dependencies) ∧
    waits_without_clock c "web" = Some false ∧
    (∀ probe slots, ∃ c', release_context probe 0 slots c = Some (c', Ok [])).
Proof.
  destruct late_end as [c|] eqn:E; [|by vm_compute in E]. exists c. split; [done|].
  vm_compute in E. injection E as <-.
  split; [done|]. split; [done|]. split; [done|]. split; [by right; left|]. split; [done|].
  intros probe [|slots]; eexists; vm_compute; reflexivity.
Qed.

(** A service started at boot, and another that needs it and a missing one. *)
Definition stranded_definitions : list ServiceDefinition :=
  [ simple_system_boot "db" "/bin/db";
    {| (simple_system_boot "web" "/bin/web") with sd_requires := ["db"; "missing"] |} ].

Definition stranded_boot (calendar : CalendarSyntax) : option (Phase2BootPlan * GraphExecutionContext) :=
  match prepare_phase2_boot_plan_with_retained (H := calendar) ModeFull stranded_definitions 10 1000000
          {| pc_retained_satisfied := []; pc_undecodable := [] |} (0, 0)%Z with
  | Some (_, Ok plan) =>
      match boot_context 0 plan stranded_definitions with Ok c => Some (plan, c) | Err _ => None end
  | _ => None
  end.

(** A blocked service strands the boot services it depends on. The plan of
    this boot starts "db" and blocks "web", whose other requirement is missing.
    [activate_roots] leaves a member dormant when it is the target of any edge,
    also one from a member that has already failed: "db" is dormant, the only
    member that could activate it has ended, and no release ever lets it go. *)
Theorem blocked_dependent_strands_dependency :
  ∃ plan c, stranded_boot any_calendar = Some (plan, c) ∧
    map ps_service plan.(bp_starts) = ["db"] ∧ map bs_service plan.(bp_blocked) = ["web"] ∧
    status_in c "db" = Some GsDormant ∧ status_in c "web" = Some GsFailed ∧
    is_drained c = false ∧ (∀ probe slots, ∃ c', release_context probe 0 slots c = Some (c', Ok [])).
Proof.
  destruct (stranded_boot any_calendar) as [[plan c]|] eqn:E; [|by vm_compute in E]. exists plan, c. split; [done|].
  vm_compute in E. injection E as <- <-.
  split; [done|]. split; [done|]. split; [done|]. split; [done|]. split; [done|].
  intros probe [|slots]; eexists; vm_compute; reflexivity.
Qed.

(** ** Instances of the theorems *)

Lemma graph_stores_wf_witness : graph_wf late_store ∧ is_Some (apply_operation_terminal 1 OutFailed late_store).
Proof.
  destruct (graph_stores_wf late_store late_reachable) as (H & _ & _ & _ & _ & H5 & _). split; [exact H|apply H5].
Defined.

(** The store after "db" has failed. *)
Definition late_failed : option (GraphExecutionStore * Result (list GraphExecutionEvent) GraphExecutionError) :=
  apply_operation_failed 1 late_store.

Lemma members_end_once_witness :
  ∃ s1 r c m, late_failed = Some (s1, r) ∧ s1.(gs_contexts) !! 0%Z = Some c ∧ c.(gc_members) !! "db" = Some m ∧
    m.(gm_status) = GsFailed ∧
    ((retire_drained_contexts s1).1.(gs_contexts) !! 0%Z = None ∨
     ∃ c' m', (retire_drained_contexts s1).1.(gs_contexts) !! 0%Z = Some c' ∧ c'.(gc_members) !! "db" = Some m' ∧
       m'.(gm_status) = GsFailed).
Proof.
  destruct late_failed as [[s1 r]|] eqn:E; [|by vm_compute in E].
  assert (graph_reachable s1) as Hs1.
  { eapply rtc_r; [apply late_reachable|]. by eapply gstep_terminal. }
  destruct (s1.(gs_contexts) !! 0%Z) as [c|] eqn:Ec; [|vm_compute in E; injection E as <- _; by vm_compute in Ec].
  destruct (c.(gc_members) !! "db") as [m|] eqn:Em;
    [|vm_compute in E; injection E as <- _; vm_compute in Ec; injection Ec as <-; by vm_compute in Em].
  assert (m.(gm_status) = GsFailed) as Hf.
  { vm_compute in E. injection E as <- _. vm_compute in Ec. injection Ec as <-. vm_compute in Em. by injection Em as <-. }
  destruct (members_end_once s1 (retire_drained_contexts s1).1 0%Z c "db" m Hs1 (rtc_once _ _ (gstep_retire s1)) Ec Em)
    as [H|(c' & m' & H1 & H2 & H3 & _)].
  - by rewrite Hf.
  - exists s1, r, c, m. split_and!; [done..|left; exact H].
  - exists s1, r, c, m. split_and!; [done..|right]. exists c', m'.
    split; [exact H1|]. split; [exact H2|]. by rewrite H3.
Defined.

Lemma retirement_exact_witness :
  let '(s', retired) := retire_drained_contexts late_store in
  (∀ id, s'.(gs_contexts) !! id = if bool_decide (id ∈ retired) then None else late_store.(gs_contexts) !! id) ∧
  retired = [].
Proof.
  pose proof (retirement_exact late_store late_reachable) as H.
  assert ((retire_drained_contexts late_store).2 = []) as Hr by (vm_compute; reflexivity).
  destruct (retire_drained_contexts late_store) as [s' retired]. destruct H as (_ & H & _). by split.
Defined.

Definition late_context : option GraphExecutionContext := late_store.(gs_contexts) !! 0%Z.

Lemma release_exact_witness :
  ∃ c c' ops, late_context = Some c ∧ release_context (λ _ _, ProbeAbsent) 0 1 c = Some (c', Ok ops) ∧
    map rg_service ops = ["app"] ∧ running_members c' = 1%nat.
Proof.
  destruct late_context as [c|] eqn:E; [|by vm_compute in E].
  assert (context_wf c) as Hc by exact (proj2 (proj2 (gw_contexts late_store (graph_reachable_wf _ late_reachable) 0%Z c E))).
  destruct (release_exact (λ _ _, ProbeAbsent) 0 1 c Hc) as (c' & ops & E1 & _ & _ & _ & _ & Hrun & _).
  exists c, c', ops. split; [reflexivity|]. split; [exact E1|]. split.
  - vm_compute in E. injection E as <-. vm_compute in E1. by injection E1 as _ <-.
  - rewrite Hrun. vm_compute in E. injection E as <-. vm_compute in E1. by injection E1 as _ <-.
Defined.

Lemma failure_spreads_exactly_witness :
  ∃ c c' events, late_context = Some c ∧ end_member 0 "db" 1 OutFailed c = Some (c', Ok events) ∧
    map ge_service events = ["db"] ∧ status_in c' "db" = Some GsFailed.
Proof.
  destruct late_context as [c|] eqn:E; [|by vm_compute in E].
  destruct (c.(gc_members) !! "db") as [m|] eqn:Em; [|vm_compute in E; injection E as <-; by vm_compute in Em].
  assert (status_is_terminal m.(gm_status) = false) as Hm.
  { vm_compute in E. injection E as <-. vm_compute in Em. by injection Em as <-. }
  destruct (failure_spreads_exactly 0 "db" 1 c m Em Hm) as (c' & events & E1 & _).
  exists c, c', events. split; [reflexivity|]. split; [exact E1|]. split; vm_compute in E; injection E as <-; vm_compute in E1;
    injection E1 as <- <-; reflexivity.
Defined.

Lemma late_unhindered c : late_context = Some c → unhindered (λ _ _, ProbeAbsent) c.
Proof.
  intros E. assert (∀ x, is_Some (status_in c x) → x = "app" ∨ x = "db" ∨ x = "web") as Hdom.
  { intros x [st Hx]. assert (x ∈ btree_keys c.(gc_members)) as Hin.
    { apply elem_of_btree_keys. unfold status_in in Hx. destruct (gc_members c !! x); [eauto|done]. }
    vm_compute in E. injection E as <-. vm_compute in Hin.
    repeat (apply elem_of_cons in Hin as [->|Hin]; [auto|]). by apply elem_of_nil in Hin. }
  assert (∀ x m, live_in c x m → is_Some (status_in c x)) as Hlive by (intros x m [Em _]; unfold status_in; rewrite Em; eauto).
  vm_compute in E. injection E as <-. split.
  - intros x. split; intros Hx; destruct (Hdom x) as [->|[->| ->]]; eauto; vm_compute in Hx; discriminate Hx.
  - intros d m t Hd [Hm _] [Ht _]. repeat (apply elem_of_cons in Hd as [->|Hd]; [vm_compute in Hm, Ht; simplify_eq; vm_compute; reflexivity|]).
    by apply elem_of_nil in Hd.
  - intros x Hx. destruct (Hdom x) as [->|[->| ->]]; eauto; vm_compute in Hx; try discriminate Hx.
    eexists. split; [left|]. split; [reflexivity|]. right. reflexivity.
  - intros d Hd _. repeat (apply elem_of_cons in Hd as [->|Hd]; [by vm_compute|]). by apply elem_of_nil in Hd.
  - intros d level Hd. repeat (apply elem_of_cons in Hd as [->|Hd]; [done|]). by apply elem_of_nil in Hd.
Qed.

Lemma scheduler_progress_witness :
  ∃ c c' op ops, late_context = Some c ∧ release_context (λ _ _, ProbeAbsent) 0 1 c = Some (c', Ok (op :: ops)).
Proof.
  destruct late_context as [c|] eqn:E; [|by vm_compute in E].
  assert (context_wf c) as Hc by exact (proj2 (proj2 (gw_contexts late_store (graph_reachable_wf _ late_reachable) 0%Z c E))).
  destruct (c.(gc_members) !! "db") as [m|] eqn:Em; [|vm_compute in E; injection E as <-; by vm_compute in Em].
  assert (live_in c "db" m) as Hl.
  { split; [exact Em|]. vm_compute in E. injection E as <-. vm_compute in Em. by injection Em as <-. }
  destruct (scheduler_progress (λ _ _, ProbeAbsent) 0 1 c "db" m Hc (late_unhindered c E) Hl ltac:(lia)) as (c' & op & ops & H).
  exists c, c', op, ops. split; [reflexivity|exact H].
Defined.
