(* ===== verification/JobRecord.v ===== *)
(** * Jobs

    Models one job of [src/src/job/]: the record ([model.rs]), how the records
    of service processes, hooks, health checks and submitted jobs are built
    ([builder.rs], [hook_builder.rs]), the life cycle ([lifecycle.rs]) and the
    events ([event.rs]). The store is in [JobStore]. *)

From S2P Require Import Prelude RustStr ServiceDef Ids Cgroup OperationRecord.
From Stdlib Require Import String.
Open Scope string_scope.
Open Scope list_scope.
Open Scope Z_scope.

(** ** Data *)

Inductive JobType : Type :=
| JtServiceMain | JtPreExecHook | JtPostExecHook | JtReloadHook | JtHealthCheck | JtSubmitted.

Inductive JobState : Type := JsCreated | JsRunning | JsCompleted | JsFailed | JsAbandoned.

#[export] Instance JobType_eq_dec : EqDecision JobType.
Proof. solve_decision. Defined.
#[export] Instance JobState_eq_dec : EqDecision JobState.
Proof. solve_decision. Defined.

Definition job_is_terminal (self : JobState) : bool :=
  match self with JsCompleted | JsFailed | JsAbandoned => true | JsCreated | JsRunning => false end.

Record ProcessHandle : Type := { ph_pid : Z; ph_pidfd : Z }.

Inductive JobExit : Type := ExitCode (code : Z) | Signal (signal : Z).

Record JobRecord : Type := {
  jr_id : JobId;
  jr_service : option string;
  jr_job_type : JobType;
  jr_hook_index : option Z;
  jr_state : JobState;
  jr_pid : option Z;
  jr_pidfd : option Z;
  jr_resolved_identity : string;
  jr_token_summary : TokenSummary;
  jr_required_privileges : list string;
  jr_image_path : string;
  jr_arguments : list string;
  jr_environment : list ServiceEnvironmentVariable;
  jr_working_directory : string;
  jr_limit_nofile : option Z;
  jr_limit_core : option Z;
  jr_oom_score_adj : Z;
  jr_created_at_ns : Z;
  jr_started_at_ns : option Z;
  jr_ended_at_ns : option Z;
  jr_exit_code : option Z;
  jr_exit_signal : option Z;
  jr_failure_cause : option string;
  jr_cgroup_id : string;
  jr_activation_generation : Z;
  jr_cgroup_generation : Z;
  jr_operation_id : option OperationId;
  jr_console_path : option string;
}.

Inductive JobTransitionAction : Type :=
| JaStart | JaComplete | JaFailBeforeStart | JaFailRunning | JaAbandon.

Inductive JobTransitionError : Type :=
| JobInvalidTransition (id : JobId) (from : JobState) (action : JobTransitionAction)
| JobStartBeforeCreation (id : JobId) (created_at_ns started_at_ns : Z)
| JobEndBeforeCreation (id : JobId) (created_at_ns ended_at_ns : Z)
| JobEndBeforeStart (id : JobId) (started_at_ns ended_at_ns : Z).

(** ** Building records *)

Record ServiceMainJobSpec : Type := {
  ms_service : ServiceDefinition;
  ms_resolved_identity : string;
  ms_token_summary : TokenSummary;
  ms_activation_generation : Z;
  ms_cgroup_generation : Z;
  ms_operation_id : OperationId;
  ms_created_at_ns : Z;
}.

Record SubmittedJobSpec : Type := {
  ss_identity_user_sid : string;
  ss_token_summary : TokenSummary;
  ss_image_path : string;
  ss_arguments : list string;
  ss_environment : list ServiceEnvironmentVariable;
  ss_working_directory : string;
  ss_created_at_ns : Z;
}.

Record ServiceHookJobSpec : Type := {
  hk_service : ServiceDefinition;
  hk_argv : list string;
  hk_hook_index : option Z;
  hk_resolved_identity : string;
  hk_token_summary : TokenSummary;
  hk_activation_generation : Z;
  hk_cgroup_generation : Z;
  hk_operation_id : OperationId;
  hk_created_at_ns : Z;
}.

Record ServiceHealthCheckJobSpec : Type := {
  hc_service : ServiceDefinition;
  hc_argv : list string;
  hc_resolved_identity : string;
  hc_token_summary : TokenSummary;
  hc_activation_generation : Z;
  hc_cgroup_generation : Z;
  hc_created_at_ns : Z;
}.

Inductive ServiceHookJobBuildError : Type := EmptyArgv (service : string) (job_type : JobType).

Definition oom_score_adj (error_control : ErrorControl) : Z :=
  match error_control with EcCritical => -1000 | EcNormal => 0 end.

Definition new_service_main (id : JobId) (spec : ServiceMainJobSpec) : JobRecord :=
  let service := spec.(ms_service) in {|
  jr_id := id;
  jr_service := Some service.(sd_name);
  jr_job_type := JtServiceMain;
  jr_hook_index := None;
  jr_state := JsCreated;
  jr_pid := None;
  jr_pidfd := None;
  jr_resolved_identity := spec.(ms_resolved_identity);
  jr_token_summary := spec.(ms_token_summary);
  jr_required_privileges := service.(sd_required_privileges);
  jr_image_path := service.(sd_image_path);
  jr_arguments := service.(sd_arguments);
  jr_environment := service.(sd_environment);
  jr_working_directory := service.(sd_working_directory);
  jr_limit_nofile := service.(sd_limit_nofile);
  jr_limit_core := service.(sd_limit_core);
  jr_oom_score_adj := oom_score_adj service.(sd_error_control);
  jr_created_at_ns := spec.(ms_created_at_ns);
  jr_started_at_ns := None;
  jr_ended_at_ns := None;
  jr_exit_code := None;
  jr_exit_signal := None;
  jr_failure_cause := None;
  jr_cgroup_id := service_job_cgroup_path service.(sd_name) spec.(ms_cgroup_generation) KindMain;
  jr_activation_generation := spec.(ms_activation_generation);
  jr_cgroup_generation := spec.(ms_cgroup_generation);
  jr_operation_id := Some spec.(ms_operation_id);
  jr_console_path := service.(sd_console_path);
|}.

Definition new_submitted (id : JobId) (spec : SubmittedJobSpec) : JobRecord := {|
  jr_id := id;
  jr_service := None;
  jr_job_type := JtSubmitted;
  jr_hook_index := None;
  jr_state := JsCreated;
  jr_pid := None;
  jr_pidfd := None;
  jr_resolved_identity := spec.(ss_identity_user_sid);
  jr_token_summary := spec.(ss_token_summary);
  jr_required_privileges := [];
  jr_image_path := spec.(ss_image_path);
  jr_arguments := spec.(ss_arguments);
  jr_environment := spec.(ss_environment);
  jr_working_directory := spec.(ss_working_directory);
  jr_limit_nofile := None;
  jr_limit_core := None;
  jr_oom_score_adj := 0;
  jr_created_at_ns := spec.(ss_created_at_ns);
  jr_started_at_ns := None;
  jr_ended_at_ns := None;
  jr_exit_code := None;
  jr_exit_signal := None;
  jr_failure_cause := None;
  jr_cgroup_id := submitted_job_cgroup_path id;
  jr_activation_generation := 0;
  jr_cgroup_generation := 0;
  jr_operation_id := None;
  jr_console_path := None;
|}.

Definition new_service_hook_job (id : JobId) (spec : ServiceHookJobSpec) (job_type : JobType)
    : Result JobRecord ServiceHookJobBuildError :=
  let service := spec.(hk_service) in
  match spec.(hk_argv) with
  | [] => Err (EmptyArgv service.(sd_name) job_type)
  | image_path :: arguments => Ok {|
      jr_id := id;
      jr_service := Some service.(sd_name);
      jr_job_type := job_type;
      jr_hook_index := spec.(hk_hook_index);
      jr_state := JsCreated;
      jr_pid := None;
      jr_pidfd := None;
      jr_resolved_identity := spec.(hk_resolved_identity);
      jr_token_summary := spec.(hk_token_summary);
      jr_required_privileges := service.(sd_required_privileges);
      jr_image_path := image_path;
      jr_arguments := arguments;
      jr_environment := service.(sd_environment);
      jr_working_directory := service.(sd_working_directory);
      jr_limit_nofile := service.(sd_limit_nofile);
      jr_limit_core := service.(sd_limit_core);
      jr_oom_score_adj := 0;
      jr_created_at_ns := spec.(hk_created_at_ns);
      jr_started_at_ns := None;
      jr_ended_at_ns := None;
      jr_exit_code := None;
      jr_exit_signal := None;
      jr_failure_cause := None;
      jr_cgroup_id := service_job_cgroup_path service.(sd_name) spec.(hk_cgroup_generation) KindHooks;
      jr_activation_generation := spec.(hk_activation_generation);
      jr_cgroup_generation := spec.(hk_cgroup_generation);
      jr_operation_id := Some spec.(hk_operation_id);
      jr_console_path := None |}
  end.

Definition new_reload_hook (id : JobId) (spec : ServiceHookJobSpec) :=
  new_service_hook_job id spec JtReloadHook.
Definition new_pre_exec_hook (id : JobId) (spec : ServiceHookJobSpec) :=
  new_service_hook_job id spec JtPreExecHook.
Definition new_post_exec_hook (id : JobId) (spec : ServiceHookJobSpec) :=
  new_service_hook_job id spec JtPostExecHook.

Definition new_health_check (id : JobId) (spec : ServiceHealthCheckJobSpec)
    : Result JobRecord ServiceHookJobBuildError :=
  let service := spec.(hc_service) in
  match spec.(hc_argv) with
  | [] => Err (EmptyArgv service.(sd_name) JtHealthCheck)
  | image_path :: arguments => Ok {|
      jr_id := id;
      jr_service := Some service.(sd_name);
      jr_job_type := JtHealthCheck;
      jr_hook_index := None;
      jr_state := JsCreated;
      jr_pid := None;
      jr_pidfd := None;
      jr_resolved_identity := spec.(hc_resolved_identity);
      jr_token_summary := spec.(hc_token_summary);
      jr_required_privileges := service.(sd_required_privileges);
      jr_image_path := image_path;
      jr_arguments := arguments;
      jr_environment := service.(sd_environment);
      jr_working_directory := service.(sd_working_directory);
      jr_limit_nofile := service.(sd_limit_nofile);
      jr_limit_core := service.(sd_limit_core);
      jr_oom_score_adj := 0;
      jr_created_at_ns := spec.(hc_created_at_ns);
      jr_started_at_ns := None;
      jr_ended_at_ns := None;
      jr_exit_code := None;
      jr_exit_signal := None;
      jr_failure_cause := None;
      jr_cgroup_id := service_job_cgroup_path service.(sd_name) spec.(hc_cgroup_generation) KindHealth;
      jr_activation_generation := spec.(hc_activation_generation);
      jr_cgroup_generation := spec.(hc_cgroup_generation);
      jr_operation_id := None;
      jr_console_path := None |}
  end.

(** ** Life cycle ([lifecycle.rs]) *)

Definition JobStep : Type := Result JobRecord JobTransitionError.

Definition job_ensure_state (expected : JobState) (action : JobTransitionAction) (self : JobRecord)
    : Result unit JobTransitionError :=
  if bool_decide (self.(jr_state) = expected) then Ok tt
  else Err (JobInvalidTransition self.(jr_id) self.(jr_state) action).

Definition ensure_ended_at (ended_at_ns : Z) (self : JobRecord) : Result unit JobTransitionError :=
  if ended_at_ns <? self.(jr_created_at_ns)
  then Err (JobEndBeforeCreation self.(jr_id) self.(jr_created_at_ns) ended_at_ns)
  else match self.(jr_started_at_ns) with
       | Some started_at_ns =>
           if ended_at_ns <? started_at_ns
           then Err (JobEndBeforeStart self.(jr_id) started_at_ns ended_at_ns) else Ok tt
       | None => Ok tt
       end.

Definition job_start (process : ProcessHandle) (started_at_ns : Z) (self : JobRecord) : JobStep :=
  let? _ := job_ensure_state JsCreated JaStart self in
  if started_at_ns <? self.(jr_created_at_ns)
  then Err (JobStartBeforeCreation self.(jr_id) self.(jr_created_at_ns) started_at_ns)
  else Ok {| self with jr_state := JsRunning; jr_pid := Some process.(ph_pid);
                       jr_pidfd := Some process.(ph_pidfd); jr_started_at_ns := Some started_at_ns |}.

Definition ended_as (state : JobState) (ended_at_ns : Z) (failure_cause : option string)
    (exit : option JobExit) (self : JobRecord) : JobRecord :=
  {| self with
     jr_state := state;
     jr_ended_at_ns := Some ended_at_ns;
     jr_failure_cause := match failure_cause with Some c => Some c | None => self.(jr_failure_cause) end;
     jr_exit_code := match exit with Some (ExitCode code) => Some code | _ => self.(jr_exit_code) end;
     jr_exit_signal := match exit with Some (Signal n) => Some n | _ => self.(jr_exit_signal) end |}.

Definition job_end (expected : JobState) (action : JobTransitionAction) (state : JobState)
    (ended_at_ns : Z) (failure_cause : option string) (exit : option JobExit) (self : JobRecord)
    : JobStep :=
  let? _ := job_ensure_state expected action self in
  let? _ := ensure_ended_at ended_at_ns self in
  Ok (ended_as state ended_at_ns failure_cause exit self).

Definition job_complete (ended_at_ns exit_code : Z) : JobRecord → JobStep :=
  job_end JsRunning JaComplete JsCompleted ended_at_ns None (Some (ExitCode exit_code)).
Definition job_fail_before_start (ended_at_ns : Z) (failure_cause : string) : JobRecord → JobStep :=
  job_end JsCreated JaFailBeforeStart JsFailed ended_at_ns (Some failure_cause) None.
Definition job_fail_running (ended_at_ns : Z) (exit : option JobExit) (failure_cause : string)
    : JobRecord → JobStep :=
  job_end JsRunning JaFailRunning JsFailed ended_at_ns (Some failure_cause) exit.
Definition job_abandon (ended_at_ns : Z) (failure_cause : string) : JobRecord → JobStep :=
  job_end JsRunning JaAbandon JsAbandoned ended_at_ns (Some failure_cause) None.

Definition job_duration_ns (self : JobRecord) : option Z :=
  ended_at_ns ← self.(jr_ended_at_ns);
  Some (u64_wrapping_sub ended_at_ns self.(jr_created_at_ns)).

(** ** Events ([event.rs]) *)

Inductive JobStoreError : Type :=
| DuplicateJobId (id : JobId)
| UnknownJob (id : JobId)
| InvalidInitialState (id : JobId) (state : JobState)
| ServiceMainAlreadyActive (service : string) (active_job_id : JobId)
| JobInvalidEventRecord (id : JobId) (state : JobState) (reason : string)
| JobTransition (error : JobTransitionError).

Inductive JobEventDetail : Type :=
| JevCreated (image_path identity : string) (operation_id : option OperationId)
| JevStarted (started_at_ns pid : Z) (cgroup_id : string)
| JevEnded (ended_at_ns duration_ns : Z) (exit_code exit_signal : option Z) (failure_cause : option string).

Record JobEvent : Type := {
  je_job_id : JobId;
  je_service : option string;
  je_job_type : JobType;
  je_hook_index : option Z;
  je_state : JobState;
  je_pid : option Z;
  je_pidfd : option Z;
  je_resolved_identity : string;
  je_operation_id : option OperationId;
  je_token_summary : TokenSummary;
  je_image_path : string;
  je_arguments : list string;
  je_created_at_ns : Z;
  je_started_at_ns : option Z;
  je_ended_at_ns : option Z;
  je_exit_code : option Z;
  je_exit_signal : option Z;
  je_failure_cause : option string;
  je_cgroup_id : string;
  je_activation_generation : Z;
  je_cgroup_generation : Z;
  je_detail : JobEventDetail;
}.

Definition job_event_new (record : JobRecord) (detail : JobEventDetail) : JobEvent := {|
  je_job_id := record.(jr_id);
  je_service := record.(jr_service);
  je_job_type := record.(jr_job_type);
  je_hook_index := record.(jr_hook_index);
  je_state := record.(jr_state);
  je_pid := record.(jr_pid);
  je_pidfd := record.(jr_pidfd);
  je_resolved_identity := record.(jr_resolved_identity);
  je_operation_id := record.(jr_operation_id);
  je_token_summary := record.(jr_token_summary);
  je_image_path := record.(jr_image_path);
  je_arguments := record.(jr_arguments);
  je_created_at_ns := record.(jr_created_at_ns);
  je_started_at_ns := record.(jr_started_at_ns);
  je_ended_at_ns := record.(jr_ended_at_ns);
  je_exit_code := record.(jr_exit_code);
  je_exit_signal := record.(jr_exit_signal);
  je_failure_cause := record.(jr_failure_cause);
  je_cgroup_id := record.(jr_cgroup_id);
  je_activation_generation := record.(jr_activation_generation);
  je_cgroup_generation := record.(jr_cgroup_generation);
  je_detail := detail;
|}.

Definition job_invalid_record (record : JobRecord) (reason : string) : JobStoreError :=
  JobInvalidEventRecord record.(jr_id) record.(jr_state) reason.

Definition job_event_created (record : JobRecord) : JobEvent :=
  job_event_new record
    (JevCreated record.(jr_image_path) record.(jr_resolved_identity) record.(jr_operation_id)).

Definition job_event_started (record : JobRecord) : Result JobEvent JobStoreError :=
  let? started_at_ns := ok_or record.(jr_started_at_ns)
    (job_invalid_record record "started job has start timestamp") in
  let? pid := ok_or record.(jr_pid) (job_invalid_record record "started job has pid") in
  Ok (job_event_new record (JevStarted started_at_ns pid record.(jr_cgroup_id))).

Definition job_event_ended (record : JobRecord) : Result JobEvent JobStoreError :=
  let? ended_at_ns := ok_or record.(jr_ended_at_ns)
    (job_invalid_record record "ended job has end timestamp") in
  let? duration_ns := ok_or (job_duration_ns record)
    (job_invalid_record record "ended job has duration") in
  Ok (job_event_new record (JevEnded ended_at_ns duration_ns record.(jr_exit_code)
        record.(jr_exit_signal) record.(jr_failure_cause))).

(** ** Steps *)

Lemma job_start_Ok process at_ns r r' :
  job_start process at_ns r = Ok r' →
  r.(jr_state) = JsCreated ∧ r.(jr_created_at_ns) ≤ at_ns ∧
  r' = {| r with jr_state := JsRunning; jr_pid := Some process.(ph_pid);
                 jr_pidfd := Some process.(ph_pidfd); jr_started_at_ns := Some at_ns |}.
Proof.
  unfold job_start, job_ensure_state. case_bool_decide; simpl; [|done].
  destruct (Z.ltb_spec at_ns (jr_created_at_ns r)); [done|]. by intros [= <-].
Qed.

Lemma job_end_Ok expected action state at_ns cause exit r r' :
  job_end expected action state at_ns cause exit r = Ok r' →
  r.(jr_state) = expected ∧ r.(jr_created_at_ns) ≤ at_ns ∧
  (∀ s, r.(jr_started_at_ns) = Some s → s ≤ at_ns) ∧ r' = ended_as state at_ns cause exit r.
Proof.
  unfold job_end, job_ensure_state, ensure_ended_at. case_bool_decide; simpl; [|done].
  destruct (Z.ltb_spec at_ns (jr_created_at_ns r)); simpl; [done|].
  destruct (jr_started_at_ns r) as [s|] eqn:Es; simpl.
  - destruct (Z.ltb_spec at_ns s); simpl; [done|]. intros [= <-]. split_and!; [done..| |done].
    by intros ? [= <-].
  - intros [= <-]. by split_and!.
Qed.
