(* ===== verification/JobStore.v ===== *)
(** * The job store

    Models [src/src/job/store.rs] and [src/src/job/store/]: the records of the
    jobs that have not ended, each service's active jobs, and the process
    descriptors released by jobs that have; the invariant all of it maintains;
    and the accounting of process descriptors. *)

From S2P Require Import Prelude RustStr ServiceDef Ids Cgroup OperationRecord JobRecord.
From Stdlib Require Import String.
Open Scope string_scope.
Open Scope list_scope.
Open Scope Z_scope.

(** ** Data *)

Record JobStore : Type := {
  js_records : gmap JobId JobRecord;
  js_active_by_service : gmap string (list JobId);
  js_released_pidfds : list Z;
}.

Definition job_store_new : JobStore :=
  {| js_records := ∅; js_active_by_service := ∅; js_released_pidfds := [] |}.

Definition JobResult (A : Type) : Type := JobStore * Result A JobStoreError.

Definition set_js_records (s : JobStore) (records : gmap JobId JobRecord) : JobStore :=
  {| s with js_records := records |}.
Definition set_js_active (s : JobStore) (active : gmap string (list JobId)) : JobStore :=
  {| s with js_active_by_service := active |}.

Definition put_job (id : JobId) (r : JobRecord) (s : JobStore) : JobStore :=
  set_js_records s (<[id := r]> s.(js_records)).

(** ** Operations *)

Definition take_released_pidfds (self : JobStore) : JobStore * list Z :=
  ({| self with js_released_pidfds := [] |}, self.(js_released_pidfds)).

Definition active_jobs_for_service (self : JobStore) (service : string) : list JobId :=
  index_get self.(js_active_by_service) service.

Definition current_service_main_job (self : JobStore) (service : string) : option JobId :=
  find_first (λ id, is_some_and (self.(js_records) !! id) (λ record,
      bool_decide (record.(jr_job_type) = JtServiceMain)))
    (active_jobs_for_service self service).

Definition active_job_by_pid (self : JobStore) (pid : Z) : option JobId :=
  find_map (λ '(id, record), if bool_decide (record.(jr_pid) = Some pid) then Some id else None)
    (btree_iter self.(js_records)).

Definition insert_active_job (service : string) (id : JobId) (self : JobStore) : JobStore :=
  set_js_active self
    (<[service := active_jobs_for_service self service ++ [id]]> self.(js_active_by_service)).

Definition remove_active_job (service : string) (id : JobId) (self : JobStore) : JobStore :=
  set_js_active self (index_remove service id self.(js_active_by_service)).

Definition ensure_can_create (job : JobRecord) (self : JobStore) : Result unit JobStoreError :=
  if bool_decide (is_Some (self.(js_records) !! job.(jr_id))) then Err (DuplicateJobId job.(jr_id))
  else if negb (bool_decide (job.(jr_state) = JsCreated))
  then Err (InvalidInitialState job.(jr_id) job.(jr_state))
  else match job.(jr_service) with
       | Some service =>
           if bool_decide (job.(jr_job_type) = JtServiceMain) then
             match current_service_main_job self service with
             | Some active_job_id => Err (ServiceMainAlreadyActive service active_job_id)
             | None => Ok tt
             end
           else Ok tt
       | None => Ok tt
       end.

Definition create_job (job : JobRecord) (self : JobStore) : JobResult JobEvent :=
  match ensure_can_create job self with
  | Err e => (self, Err e)
  | Ok _ =>
      let event := job_event_created job in
      let self := put_job job.(jr_id) job self in
      let self := match job.(jr_service) with
                  | Some service => insert_active_job service job.(jr_id) self
                  | None => self
                  end in
      (self, Ok event)
  end.

Definition set_token_summary (summary : TokenSummary) (r : JobRecord) : JobRecord :=
  {| r with jr_token_summary := summary |}.

(** The summary is written before the step that may fail. *)
Definition start_job_with_token_summary (id : JobId) (process : ProcessHandle)
    (token_summary : TokenSummary) (started_at_ns : Z) (self : JobStore) : JobResult JobEvent :=
  match self.(js_records) !! id with
  | None => (self, Err (UnknownJob id))
  | Some record =>
      let record := set_token_summary token_summary record in
      let self := put_job id record self in
      match job_start process started_at_ns record with
      | Err e => (self, Err (JobTransition e))
      | Ok record => (put_job id record self, job_event_started record)
      end
  end.

Definition start_job (id : JobId) (process : ProcessHandle) (started_at_ns : Z) (self : JobStore)
    : JobResult JobEvent :=
  match self.(js_records) !! id with
  | None => (self, Err (UnknownJob id))
  | Some record =>
      start_job_with_token_summary id process record.(jr_token_summary) started_at_ns self
  end.

Definition release_pidfd (pidfd : option Z) (self : JobStore) : JobStore :=
  match pidfd with
  | Some pidfd => {| self with js_released_pidfds := self.(js_released_pidfds) ++ [pidfd] |}
  | None => self
  end.

Definition finish_job (id : JobId) (finish : JobRecord → JobStep) (self : JobStore)
    : JobResult JobEvent :=
  match self.(js_records) !! id with
  | None => (self, Err (UnknownJob id))
  | Some record =>
      match finish record with
      | Err e => (self, Err (JobTransition e))
      | Ok record =>
          match job_event_ended record with
          | Err e => (put_job id record self, Err e)
          | Ok event =>
              let self := set_js_records self (delete id self.(js_records)) in
              let self := release_pidfd record.(jr_pidfd) self in
              let self := match event.(je_service) with
                          | Some service => remove_active_job service id self
                          | None => self
                          end in
              (self, Ok event)
          end
      end
  end.

Definition complete_job (id : JobId) (ended_at_ns exit_code : Z) : JobStore → JobResult JobEvent :=
  finish_job id (job_complete ended_at_ns exit_code).
Definition fail_job_before_start (id : JobId) (ended_at_ns : Z) (failure_cause : string)
    : JobStore → JobResult JobEvent :=
  finish_job id (job_fail_before_start ended_at_ns failure_cause).
Definition fail_running_job (id : JobId) (ended_at_ns : Z) (exit : option JobExit)
    (failure_cause : string) : JobStore → JobResult JobEvent :=
  finish_job id (job_fail_running ended_at_ns exit failure_cause).
Definition abandon_job (id : JobId) (ended_at_ns : Z) (failure_cause : string)
    : JobStore → JobResult JobEvent :=
  finish_job id (job_abandon ended_at_ns failure_cause).

(** ** The invariant *)

(** A job as its builder leaves it. *)
Record job_fresh (r : JobRecord) : Prop := {
  jf_state : r.(jr_state) = JsCreated;
  jf_pid : r.(jr_pid) = None;
  jf_pidfd : r.(jr_pidfd) = None;
  jf_started : r.(jr_started_at_ns) = None;
  jf_ended : r.(jr_ended_at_ns) = None;
}.

Record job_running (r : JobRecord) : Prop := {
  jn_state : r.(jr_state) = JsRunning;
  jn_pid : is_Some r.(jr_pid);
  jn_pidfd : is_Some r.(jr_pidfd);
  jn_started : ∃ s, r.(jr_started_at_ns) = Some s ∧ r.(jr_created_at_ns) ≤ s;
  jn_ended : r.(jr_ended_at_ns) = None;
}.

(** The running [ServiceMain] of a service. *)
Definition is_main_of (s : JobStore) (service : string) (id : JobId) : Prop :=
  ∃ r, s.(js_records) !! id = Some r ∧ r.(jr_job_type) = JtServiceMain ∧ r.(jr_service) = Some service.

Record jobs_wf (s : JobStore) : Prop := {
  jw_records : ∀ id r, s.(js_records) !! id = Some r →
    r.(jr_id) = id ∧ (job_fresh r ∨ job_running r);
  jw_lists : index_wf s.(js_active_by_service);
  jw_active : ∀ service id, id ∈ active_jobs_for_service s service ↔
    ∃ r, s.(js_records) !! id = Some r ∧ r.(jr_service) = Some service;
  jw_main : ∀ service id id', is_main_of s service id → is_main_of s service id' → id = id';
}.

(** What identifies a job and does not change in its life. *)
Definition same_job (r r' : JobRecord) : Prop :=
  r'.(jr_id) = r.(jr_id) ∧ r'.(jr_service) = r.(jr_service) ∧ r'.(jr_job_type) = r.(jr_job_type).

Lemma put_job_wf id r r' s :
  jobs_wf s → s.(js_records) !! id = Some r → same_job r r' → (job_fresh r' ∨ job_running r') →
  jobs_wf (put_job id r' s).
Proof.
  intros [H1 H2 H3 H4] E (Hid & Hsv & Hty) Hst.
  assert (∀ service i, (∃ r0, (put_job id r' s).(js_records) !! i = Some r0 ∧ jr_service r0 = Some service) ↔
    ∃ r0, s.(js_records) !! i = Some r0 ∧ jr_service r0 = Some service) as Hsame.
  { intros service i. simpl. destruct (decide (i = id)) as [->|]; [rewrite lookup_insert_eq|rewrite lookup_insert_ne by done; done].
    split; intros (r0 & Hr0 & Hs); [exists r|exists r']; split; congruence. }
  assert (∀ service i, is_main_of (put_job id r' s) service i → is_main_of s service i) as Hmain.
  { intros service i (r0 & Hr & Ht & Hs). simpl in Hr. destruct (decide (i = id)) as [->|].
    - rewrite lookup_insert_eq in Hr. injection Hr as <-. exists r. split_and!; congruence.
    - rewrite lookup_insert_ne in Hr by done. by exists r0. }
  split.
  - intros i r0. simpl. rewrite lookup_insert_Some. intros [[<- <-]|[_ ?]]; [|auto].
    destruct (H1 id r E) as [? _]. split; [congruence|done].
  - exact H2.
  - intros service i. rewrite Hsame. apply H3.
  - intros service i i' Hi Hi'. eapply H4; by apply Hmain.
Qed.

(** A job that may be created is new, and no other main job of its service is
    in the way. *)
Lemma can_create_new job s :
  jobs_wf s → ensure_can_create job s = Ok tt →
  s.(js_records) !! job.(jr_id) = None ∧
  ∀ service i, job.(jr_job_type) = JtServiceMain → job.(jr_service) = Some service → ¬ is_main_of s service i.
Proof.
  intros [_ _ H3 _]. unfold ensure_can_create.
  case_bool_decide as Hnew; [done|]. apply eq_None_not_Some in Hnew. destruct (negb _); [done|].
  intros Ec. split; [done|]. intros service i Ht Hs (r & Hr & Hrt & Hrs).
  rewrite Hs, Ht in Ec. simpl in Ec. destruct (current_service_main_job s service) eqn:Em; [done|].
  unfold current_service_main_job in Em. rewrite find_first_None in Em.
  assert (i ∈ active_jobs_for_service s service) as Hin by (apply H3; eauto).
  specialize (Em i Hin). rewrite Hr in Em. simpl in Em. by rewrite Hrt in Em.
Qed.

(** The store a created job is added to. *)
Definition with_job (job : JobRecord) (s : JobStore) : JobStore :=
  match job.(jr_service) with
  | Some service => insert_active_job service job.(jr_id) (put_job job.(jr_id) job s)
  | None => put_job job.(jr_id) job s
  end.

Lemma with_job_records job s : (with_job job s).(js_records) = <[job.(jr_id) := job]> s.(js_records).
Proof. unfold with_job. by destruct (jr_service job). Qed.

Lemma with_job_active job s service i :
  i ∈ active_jobs_for_service (with_job job s) service ↔
  i = job.(jr_id) ∧ job.(jr_service) = Some service ∨ i ∈ active_jobs_for_service s service.
Proof.
  unfold with_job. destruct (jr_service job) as [sv|]; simpl; [|naive_solver].
  unfold active_jobs_for_service at 1, insert_active_job. simpl. rewrite index_get_insert.
  destruct (decide (service = sv)) as [->|Hne].
  - rewrite bool_decide_true, elem_of_app, list_elem_of_singleton by done. naive_solver.
  - rewrite bool_decide_false by done. naive_solver.
Qed.

Lemma create_job_wf job s : job_fresh job → jobs_wf s → jobs_wf (create_job job s).1.
Proof.
  intros Hfresh Hwf. unfold create_job. destruct (ensure_can_create job s) as [[]|e] eqn:Ec; [|done].
  destruct (can_create_new job s Hwf Ec) as [Hnew Hno]. destruct Hwf as [H1 H2 H3 H4].
  change (jobs_wf (with_job job s)). split.
  - intros i r. rewrite with_job_records, lookup_insert_Some. intros [[<- <-]|[_ ?]]; auto.
  - unfold with_job. destruct (jr_service job) as [sv|]; [|done]. simpl. apply index_wf_insert; [| |done].
    + by destruct (active_jobs_for_service _ _).
    + apply NoDup_snoc; [by apply index_get_NoDup|]. intros Hin.
      apply H3 in Hin as (r & Hr & _). congruence.
  - intros service i. rewrite with_job_active, with_job_records. destruct (decide (i = jr_id job)) as [->|Hne].
    + rewrite lookup_insert_eq. split.
      * intros [[_ ?]|(r & ? & ?)%H3]; [eauto|congruence].
      * intros (r & [= <-] & ?). auto.
    + rewrite lookup_insert_ne by congruence. rewrite H3. naive_solver.
  - intros service i i' (r & Hr & Ht & Hs) (r' & Hr' & Ht' & Hs').
    rewrite with_job_records, lookup_insert_Some in Hr, Hr'.
    destruct Hr as [[<- <-]|[Hne Hr]], Hr' as [[<- <-]|[Hne' Hr']].
    + done.
    + destruct (Hno service i' Ht Hs). by exists r'.
    + destruct (Hno service i Ht' Hs'). by exists r.
    + apply (H4 service); [by exists r|by exists r'].
Qed.

Lemma start_job_spec id process summary at_ns s :
  jobs_wf s →
  match start_job_with_token_summary id process summary at_ns s with
  | (s', Ok event) =>
      jobs_wf s' ∧ ∃ r r', s.(js_records) !! id = Some r ∧ r.(jr_pidfd) = None ∧
        r'.(jr_pidfd) = Some process.(ph_pidfd) ∧ r'.(jr_pid) = Some process.(ph_pid) ∧
        r'.(jr_state) = JsRunning ∧ s' = put_job id r' s
  | (s', Err e) =>
      jobs_wf s' ∧
      match s.(js_records) !! id with
      | None => s' = s
      | Some r => s' = put_job id (set_token_summary summary r) s
      end
  end.
Proof.
  intros Hwf. unfold start_job_with_token_summary. destruct (js_records s !! id) as [r|] eqn:E; [|done].
  destruct (jw_records s Hwf id r E) as [Hid Hst].
  destruct (job_start process at_ns (set_token_summary summary r)) as [r'|e] eqn:Es.
  - apply job_start_Ok in Es as (Hs & Hc & ->). simpl in Hs, Hc. unfold job_event_started. simpl.
    assert (jr_pidfd r = None) as Hp. { destruct Hst as [[]|[]]; congruence. }
    assert (∀ a b, put_job id b (put_job id a s) = put_job id b s) as Hput.
    { intros a b. unfold put_job, set_js_records. simpl. by rewrite insert_insert_eq. }
    rewrite Hput. split.
    + apply (put_job_wf id r); [done..|]. right. destruct Hst as [[]|[]]; [|congruence].
      split; simpl; eauto.
    + eexists r, _. split_and!; [done|done| | | |reflexivity]; done.
  - simpl. split; [|done]. apply (put_job_wf id r); [done..|]. by destruct Hst as [[]|[]]; [left|right]; split.
Qed.

Lemma start_job_is s id process at_ns :
  ∃ summary, start_job id process at_ns s = start_job_with_token_summary id process summary at_ns s.
Proof.
  unfold start_job. destruct (js_records s !! id) as [r|] eqn:E; [eauto|].
  exists {| ts_identity := ""; ts_user_sid := ""; ts_group_sids := []; ts_present_privileges := [];
            ts_enabled_privileges := [] |}.
  unfold start_job_with_token_summary. by rewrite E.
Qed.

(** The steps that end a job. *)
Definition job_ends (finish : JobRecord → JobStep) : Prop :=
  ∃ expected action state at_ns cause exit,
    finish = job_end expected action state at_ns cause exit ∧ job_is_terminal state = true.

Lemma ends_fail_before_start at_ns cause : job_ends (job_fail_before_start at_ns cause).
Proof. do 6 eexists. split; [done|done]. Qed.
Lemma ends_complete at_ns code : job_ends (job_complete at_ns code).
Proof. do 6 eexists. split; [done|done]. Qed.
Lemma ends_fail_running at_ns exit cause : job_ends (job_fail_running at_ns exit cause).
Proof. do 6 eexists. split; [done|done]. Qed.
Lemma ends_abandon at_ns cause : job_ends (job_abandon at_ns cause).
Proof. do 6 eexists. split; [done|done]. Qed.

Lemma finish_job_spec id finish s :
  job_ends finish → jobs_wf s →
  match finish_job id finish s with
  | (s', Ok event) =>
      jobs_wf s' ∧ ∃ r, s.(js_records) !! id = Some r ∧ event.(je_job_id) = id ∧
        job_is_terminal event.(je_state) = true ∧
        s'.(js_records) = delete id s.(js_records) ∧
        s'.(js_released_pidfds) = s.(js_released_pidfds) ++ option_list r.(jr_pidfd)
  | (s', Err e) => s' = s
  end.
Proof.
  intros (expected & action & state & at_ns & cause & exit & -> & Ht) Hwf. unfold finish_job.
  destruct (js_records s !! id) as [r|] eqn:E; [|done].
  destruct (job_end _ _ _ _ _ _ r) as [r'|e] eqn:Ee; [|done].
  apply job_end_Ok in Ee as (Hs & Hc & Hst & ->). unfold job_event_ended. simpl.
  destruct (jw_records s Hwf id r E) as [Hid _].
  set (base := release_pidfd (jr_pidfd r) (set_js_records s (delete id s.(js_records)))).
  assert (base.(js_active_by_service) = s.(js_active_by_service) ∧
    base.(js_records) = delete id s.(js_records) ∧
    base.(js_released_pidfds) = s.(js_released_pidfds) ++ option_list r.(jr_pidfd)) as (Ha & Hr & Hp).
  { subst base. destruct (jr_pidfd r); simpl; by rewrite ?app_nil_r. }
  set (s' := match jr_service r with Some service => remove_active_job service id base | None => base end).
  assert (s'.(js_records) = delete id s.(js_records)) as Hr' by (subst s'; by destruct (jr_service r)).
  split; [|exists r; split_and!; try done; subst s'; by destruct (jr_service r)].
  destruct Hwf as [H1 H2 H3 H4]. split.
  - intros i r0. rewrite Hr'. intros [_ ?]%lookup_delete_Some. auto.
  - subst s'. destruct (jr_service r); simpl; rewrite Ha; [by apply index_wf_remove|done].
  - intros service i. rewrite Hr'.
    assert (i ∈ active_jobs_for_service s' service ↔ i ≠ id ∧ i ∈ active_jobs_for_service s service) as ->.
    { subst s'. unfold active_jobs_for_service. destruct (jr_service r) as [sv|] eqn:Esv; simpl; rewrite Ha.
      - rewrite index_get_remove. destruct (decide (service = sv)) as [->|Hne].
        + rewrite bool_decide_true, elem_of_retain, negb_true_iff, bool_decide_eq_false by done. done.
        + rewrite bool_decide_false by done. split; [|by intros [_ ?]]. intros Hin. split; [|done].
          intros ->. apply H3 in Hin as (r0 & ? & ?). congruence.
      - split; [|by intros [_ ?]]. intros Hin. split; [|done]. intros ->.
        apply H3 in Hin as (r0 & ? & ?). congruence. }
    rewrite H3. destruct (decide (i = id)) as [->|Hne].
    + rewrite lookup_delete_eq. naive_solver.
    + rewrite lookup_delete_ne by congruence. naive_solver.
  - assert (∀ service i, is_main_of s' service i → is_main_of s service i) as Hm.
    { intros service i (r0 & Hr0 & ?). rewrite Hr' in Hr0. apply lookup_delete_Some in Hr0 as [_ ?]. by exists r0. }
    intros service i i' Hi Hi'. eapply H4; by apply Hm.
Qed.

Lemma finish_job_wf id finish s : job_ends finish → jobs_wf s → jobs_wf (finish_job id finish s).1.
Proof.
  intros He Hs. pose proof (finish_job_spec id finish s He Hs) as H.
  destruct (finish_job id finish s) as [s' [ev|e]]; [by destruct H|by subst].
Qed.

(** ** Process descriptors *)

(** The descriptors the store's jobs hold. *)
Definition held (records : gmap JobId JobRecord) : list Z :=
  omap jr_pidfd (map_to_list records).*2.

Lemma held_delete records id r :
  records !! id = Some r → held records ≡ₚ option_list r.(jr_pidfd) ++ held (delete id records).
Proof.
  intros E. unfold held. rewrite <-(map_to_list_delete records id r E). simpl.
  by destruct (jr_pidfd r).
Qed.

Lemma held_insert records id r :
  records !! id = None → held (<[id := r]> records) ≡ₚ option_list r.(jr_pidfd) ++ held records.
Proof.
  intros E. unfold held. rewrite (map_to_list_insert records id r E). simpl. by destruct (jr_pidfd r).
Qed.

Lemma held_update records id r r' :
  records !! id = Some r → r.(jr_pidfd) = None →
  held (<[id := r']> records) ≡ₚ option_list r'.(jr_pidfd) ++ held records.
Proof.
  intros E Hp. rewrite <-insert_delete_eq, held_insert by apply lookup_delete_eq.
  rewrite (held_delete records id r E), Hp. done.
Qed.

(** The store with an account of the descriptors it was given and the ones
    handed back to be closed. *)
Record ledger : Type := { lg_store : JobStore; lg_opened : list Z; lg_closed : list Z }.

Inductive job_step (l : ledger) : ledger → Prop :=
| jstep_create job : job_fresh job →
    job_step l {| l with lg_store := (create_job job l.(lg_store)).1 |}
| jstep_start id process summary at_ns :
    let r := start_job_with_token_summary id process summary at_ns l.(lg_store) in
    job_step l {| l with lg_store := r.1;
      lg_opened := if is_ok r.2 then l.(lg_opened) ++ [process.(ph_pidfd)] else l.(lg_opened) |}
| jstep_complete id at_ns code :
    job_step l {| l with lg_store := (complete_job id at_ns code l.(lg_store)).1 |}
| jstep_fail_before_start id at_ns cause :
    job_step l {| l with lg_store := (fail_job_before_start id at_ns cause l.(lg_store)).1 |}
| jstep_fail_running id at_ns exit cause :
    job_step l {| l with lg_store := (fail_running_job id at_ns exit cause l.(lg_store)).1 |}
| jstep_abandon id at_ns cause :
    job_step l {| l with lg_store := (abandon_job id at_ns cause l.(lg_store)).1 |}
| jstep_take :
    let r := take_released_pidfds l.(lg_store) in
    job_step l {| l with lg_store := r.1; lg_closed := l.(lg_closed) ++ r.2 |}.

Definition empty_ledger : ledger :=
  {| lg_store := job_store_new; lg_opened := []; lg_closed := [] |}.

Definition job_reachable (l : ledger) : Prop := rtc job_step empty_ledger l.

Definition balanced (l : ledger) : Prop :=
  l.(lg_opened) ≡ₚ
  l.(lg_closed) ++ l.(lg_store).(js_released_pidfds) ++ held l.(lg_store).(js_records).

Definition ledger_wf (l : ledger) : Prop := jobs_wf l.(lg_store) ∧ balanced l.

Lemma finish_balanced id finish l :
  job_ends finish → ledger_wf l →
  ledger_wf {| l with lg_store := (finish_job id finish l.(lg_store)).1 |}.
Proof.
  intros Hf [Hwf Hb]. pose proof (finish_job_spec id finish _ Hf Hwf) as H.
  destruct (finish_job id finish (lg_store l)) as [s' [ev|e]]; [|by subst s'; destruct l].
  destruct H as (Hwf' & r & Hr & _ & _ & Hrec & Hrel). split; [done|].
  unfold balanced in *. simpl. rewrite Hb, Hrec, Hrel, (held_delete _ id r Hr).
  by rewrite <-!app_assoc.
Qed.

Lemma create_balanced job l :
  job_fresh job → ledger_wf l → ledger_wf {| l with lg_store := (create_job job l.(lg_store)).1 |}.
Proof.
  intros Hf [Hwf Hb]. split; [by apply create_job_wf|]. unfold balanced in *. simpl.
  unfold create_job. destruct (ensure_can_create job (lg_store l)) as [[]|] eqn:E; [|done].
  unfold ensure_can_create in E. case_bool_decide as Hn; [done|]. apply eq_None_not_Some in Hn.
  assert (held (<[jr_id job := job]> (js_records (lg_store l))) ≡ₚ held (js_records (lg_store l))) as Hh.
  { rewrite held_insert by done. by rewrite (jf_pidfd job Hf). }
  simpl. destruct (jr_service job); simpl; by rewrite Hh.
Qed.

Lemma start_balanced id process summary at_ns l :
  let r := start_job_with_token_summary id process summary at_ns l.(lg_store) in
  ledger_wf l →
  ledger_wf {| l with lg_store := r.1;
    lg_opened := if is_ok r.2 then l.(lg_opened) ++ [process.(ph_pidfd)] else l.(lg_opened) |}.
Proof.
  intros r [Hwf Hb]. subst r. pose proof (start_job_spec id process summary at_ns _ Hwf) as H.
  destruct (start_job_with_token_summary _ _ _ _ _) as [s' [ev|e]]; simpl; destruct H as [Hwf' H];
    (split; [done|]); unfold balanced in *; simpl.
  - destruct H as (r & r' & Hr & Hp & Hp' & _ & _ & ->). simpl.
    rewrite (held_update _ id r r' Hr Hp), Hp', Hb. simpl. solve_Permutation.
  - destruct (js_records (lg_store l) !! id) as [r|] eqn:Er; [|by subst s']. subst s'. simpl.
    rewrite Hb. do 2 f_equiv.
    rewrite <-insert_delete_eq, held_insert by apply lookup_delete_eq.
    exact (held_delete _ id r Er).
Qed.

Lemma job_step_wf l l' : ledger_wf l → job_step l l' → ledger_wf l'.
Proof.
  intros Hl Hstep. destruct Hstep.
  - by apply create_balanced.
  - by apply start_balanced.
  - apply finish_balanced; [|done]. by do 6 eexists.
  - apply finish_balanced; [|done]. by do 6 eexists.
  - apply finish_balanced; [|done]. by do 6 eexists.
  - apply finish_balanced; [|done]. by do 6 eexists.
  - destruct Hl as [[H1 H2 H3 H4] Hb]. split; [by split|]. unfold balanced in *. simpl. subst r.
    rewrite Hb. by rewrite <-app_assoc.
Qed.

Lemma job_reachable_ledger_wf l : job_reachable l → ledger_wf l.
Proof.
  intros H. assert (ledger_wf empty_ledger) as H0.
  { split; [|by vm_compute]. split; simpl; try done.
    - intros service id. unfold active_jobs_for_service, index_get. simpl. rewrite lookup_empty. simpl.
      split; [by intros ?%not_elem_of_nil|]. by intros (r & ? & _).
    - by intros service id id' (r & ? & _). }
  unfold job_reachable in H. revert H0. induction H as [|l1 l2 l3 Hs _ IH]; [done|].
  intros H1. apply IH. by apply (job_step_wf l1 l2).
Qed.

(** ** Theorems *)

(** C38: Every job store peinit can reach is well formed: it holds only jobs that
    have not ended, a running one with its process and start time and one still
    to start with none; a service's active list holds exactly its jobs, each
    once; and no service has two main processes. *)
Theorem job_stores_wf l : job_reachable l → jobs_wf l.(lg_store).
Proof. intros H. by apply job_reachable_ledger_wf. Qed.

(** Process descriptors are accounted for: counting multiplicity, the
    descriptors the store was given at starts are exactly those handed back to
    be closed, those waiting to be taken and those of running jobs, after any
    sequence of operations, failed ones included. None is lost and none is
    released twice. *)
Theorem pidfds_balanced l : job_reachable l → balanced l.
Proof. intros H. by apply job_reachable_ledger_wf. Qed.

Definition example_summary : TokenSummary :=
  {| ts_identity := "SYSTEM"; ts_user_sid := "S-1-5-18"; ts_group_sids := [];
     ts_present_privileges := []; ts_enabled_privileges := [] |}.

Definition example_main (id : JobId) : JobRecord :=
  new_service_main id
    {| ms_service := simple_system_boot "app" "/bin/app"; ms_resolved_identity := "SYSTEM";
       ms_token_summary := example_summary; ms_activation_generation := 1; ms_cgroup_generation := 0;
       ms_operation_id := 9; ms_created_at_ns := 10 |}.

(** One job created, started, completed and its descriptor taken. *)
Definition example_ledger : ledger :=
  let s := (create_job (example_main 1) job_store_new).1 in
  let s := (start_job_with_token_summary 1 {| ph_pid := 100; ph_pidfd := 7 |} example_summary 11 s).1 in
  let s := (complete_job 1 12 0 s).1 in
  {| lg_store := (take_released_pidfds s).1; lg_opened := [7]; lg_closed := (take_released_pidfds s).2 |}.

Lemma example_reachable : job_reachable example_ledger.
Proof.
  eapply rtc_l; [apply (jstep_create _ (example_main 1)); by split|].
  eapply rtc_l; [apply (jstep_start _ 1 {| ph_pid := 100; ph_pidfd := 7 |} example_summary 11)|].
  eapply rtc_l; [apply (jstep_complete _ 1 12 0)|].
  apply rtc_once.
  match goal with |- job_step ?l ?l' =>
    assert (l' = {| l with lg_store := (take_released_pidfds l.(lg_store)).1;
      lg_closed := l.(lg_closed) ++ (take_released_pidfds l.(lg_store)).2 |}) as -> by (vm_compute; reflexivity)
  end.
  apply jstep_take.
Qed.

Lemma job_stores_wf_witness : jobs_wf example_ledger.(lg_store).
Proof. apply (job_stores_wf example_ledger). apply example_reachable. Defined.

Lemma pidfds_balanced_witness : example_ledger.(lg_closed) = [7] ∧ balanced example_ledger.
Proof. split; [vm_compute; reflexivity|]. apply (pidfds_balanced example_ledger). apply example_reachable. Defined.

(** A second main process is refused: while a service has a main job in the
    store, creating another fails, names the one there, and changes nothing. *)
Theorem second_main_refused l job service active :
  job_reachable l → is_main_of l.(lg_store) service active →
  job.(jr_job_type) = JtServiceMain → job.(jr_service) = Some service → job.(jr_state) = JsCreated →
  l.(lg_store).(js_records) !! job.(jr_id) = None →
  create_job job l.(lg_store) = (l.(lg_store), Err (ServiceMainAlreadyActive service active)).
Proof.
  intros [Hwf _]%job_reachable_ledger_wf Hm Ht Hs Hst Hnew. unfold create_job, ensure_can_create.
  rewrite (bool_decide_false (is_Some _)) by (by apply eq_None_not_Some).
  rewrite Hst, Hs, Ht. simpl.
  destruct (current_service_main_job (lg_store l) service) as [i|] eqn:E.
  - unfold current_service_main_job in E. apply find_first_Some in E as [Hin Hp].
    apply jw_active in Hin as (r & Hr & Hrs); [|done]. rewrite Hr in Hp. simpl in Hp.
    apply bool_decide_eq_true in Hp.
    by rewrite (jw_main _ Hwf service active i Hm ltac:(by exists r)).
  - unfold current_service_main_job in E. rewrite find_first_None in E.
    destruct Hm as (r & Hr & Hrt & Hrs). specialize (E active). rewrite Hr in E. simpl in E.
    rewrite Hrt in E. exfalso. by discriminate E; apply (jw_active _ Hwf); exists r.
Qed.

Lemma second_main_refused_witness :
  let s := (create_job (example_main 1) job_store_new).1 in
  create_job (example_main 2) s = (s, Err (ServiceMainAlreadyActive "app" 1)).
Proof.
  apply (second_main_refused
    {| lg_store := (create_job (example_main 1) job_store_new).1; lg_opened := []; lg_closed := [] |}
    (example_main 2) "app" 1); try reflexivity.
  - apply rtc_once. apply (jstep_create empty_ledger (example_main 1)). by split.
  - exists (example_main 1). vm_compute. done.
Defined.
