(* ===== verification/StartState.v ===== *)
(** * What a start is waiting for

    Models the store of the start executor ([src/src/execution/start/store/]):
    filesystem checks that wait for a helper or run in one, starts whose checks
    passed, hook sequences, and the deadlines of all of them; and the deadlines
    themselves ([start/deadline.rs]). *)

From S2P Require Import Prelude RustStr ServiceRuntime ServiceDef Ids Cgroup ServiceTable OperationRecord.
From S2P Require Import OperationStore ExecGraph JobRecord Restart FailureDispatch JobStore Effects ExecCommand.
From Stdlib Require Import String.
Open Scope string_scope.
Open Scope list_scope.
Open Scope Z_scope.

(** ** Filesystem checks ([store/checks/model.rs], [boundary/model/pre_start_check.rs]) *)

Inductive PendingPreStartCheckStart : Type :=
| PendGraph (ready : ReadyGraphOperation) (resolved_identity : string) (token_summary : TokenSummary)
| PendGraphPreDependency (ready : ReadyGraphOperation) (resolved_identity : string) (token_summary : TokenSummary)
| PendRestart (resolved_identity : string) (token_summary : TokenSummary).

Record PendingPreStartCheck : Type := {
  pc_operation_id : OperationId;
  pc_service : string;
  pc_activation : ServiceActivationSnapshot;
  pc_checks : list ServiceCheck;
  pc_started_at_ns : Z;
  pc_timeout_secs : Z;
  pc_operation_deadline_ns : Z;
  pc_start : PendingPreStartCheckStart;
  pc_cleared_skipped : option ServiceTableTransition;
}.

(** [PendingPreStartCheck::new(..).with_cleared_skipped(..)]. *)
Definition pending_check_new (operation_id : OperationId) (service : string)
    (activation : ServiceActivationSnapshot) (checks : list ServiceCheck) (started_at_ns operation_deadline_ns : Z)
    (start : PendingPreStartCheckStart) (cleared : option ServiceTableTransition) : PendingPreStartCheck := {|
  pc_operation_id := operation_id;
  pc_service := service;
  pc_activation := activation;
  pc_checks := checks;
  pc_started_at_ns := started_at_ns;
  pc_timeout_secs := activation.(as_definition).(sd_pre_start_check_timeout_secs);
  pc_operation_deadline_ns := operation_deadline_ns;
  pc_start := start;
  pc_cleared_skipped := cleared;
|}.

Definition pending_service_cgroup_id (self : PendingPreStartCheck) : string :=
  service_cgroup_root_path self.(pc_service) self.(pc_activation).(as_cgroup_generation).

Definition pending_helper_cgroup_id (self : PendingPreStartCheck) : string :=
  pending_service_cgroup_id self +:+ "/checks".

Record PendingPreStartCheckRegistration : Type := {
  reg_checks : list ServiceCheck;
  reg_helper_cgroup_id : string;
}.

Record PrecheckedGraphStart : Type := {
  pg_ready : ReadyGraphOperation;
  pg_activation : ServiceActivationSnapshot;
  pg_resolved_identity : string;
  pg_token_summary : TokenSummary;
  pg_checked_at_ns : Z;
  pg_cleared_skipped : option ServiceTableTransition;
}.

Record LaunchedFilesystemCheckHelper : Type := {
  lh_service : string;
  lh_operation_id : OperationId;
  lh_checks : list ServiceCheck;
  lh_pid : Z;
  lh_pidfd : Z;
  lh_result_fd : Z;
  lh_cgroup_id : string;
}.

Record FilesystemCheckResult : Type := { fr_check : ServiceCheck; fr_satisfied : bool }.

Record FilesystemCheckReport : Type := {
  frp_service : string;
  frp_operation_id : OperationId;
  frp_results : list FilesystemCheckResult;
}.

Record RunningPreStartCheckHelper : Type := {
  rh_helper : LaunchedFilesystemCheckHelper;
  rh_pending : PendingPreStartCheck;
}.

Record PreStartCheckDeadline : Type := {
  cd_operation_id : OperationId;
  cd_service : string;
  cd_helper_cgroup_id : string;
  cd_result_fd : Z;
  cd_pidfd : Z;
  cd_due_at_ns : Z;
}.

(** ** Hooks and readiness ([store/hooks.rs], [store/readiness.rs]) *)

Record PreStartHookSequence : Type := {
  hs_service : string;
  hs_operation_id : OperationId;
  hs_main_job_id : JobId;
  hs_definition : ServiceDefinition;
  hs_resolved_identity : string;
  hs_token_summary : TokenSummary;
  hs_activation_generation : Z;
  hs_cgroup_generation : Z;
  hs_commands : list (list string);
  hs_next_index : nat;
  hs_deadline_ns : Z;
}.

Definition pre_next_command (self : PreStartHookSequence) : option (list string) :=
  self.(hs_commands) !! self.(hs_next_index).
Definition pre_advance (self : PreStartHookSequence) : PreStartHookSequence :=
  {| self with hs_next_index := S self.(hs_next_index) |}.

Record PreStartHookDeadline : Type := {
  hd_operation_id : OperationId;
  hd_job_id : JobId;
  hd_service : string;
  hd_hooks_cgroup_id : string;
  hd_service_cgroup_id : string;
  hd_due_at_ns : Z;
}.

Record PostStartHookSequence : Type := {
  qs_service : string;
  qs_operation_id : OperationId;
  qs_definition : ServiceDefinition;
  qs_resolved_identity : string;
  qs_token_summary : TokenSummary;
  qs_activation_generation : Z;
  qs_cgroup_generation : Z;
  qs_commands : list (list string);
  qs_next_index : nat;
  qs_deadline_ns : Z;
  qs_readiness_result : string;
  qs_had_failure : bool;
}.

Definition post_next_command (self : PostStartHookSequence) : option (list string) :=
  self.(qs_commands) !! self.(qs_next_index).
Definition post_advance (self : PostStartHookSequence) : PostStartHookSequence :=
  {| self with qs_next_index := S self.(qs_next_index) |}.
Definition post_record_failure (self : PostStartHookSequence) : PostStartHookSequence :=
  {| self with qs_had_failure := true |}.

Record PostStartHookDeadline : Type := {
  qd_operation_id : OperationId;
  qd_job_id : JobId;
  qd_service : string;
  qd_hooks_cgroup_id : string;
  qd_service_cgroup_id : string;
  qd_due_at_ns : Z;
}.

Record ReadinessDeadline : Type := {
  rd_operation_id : OperationId;
  rd_job_id : JobId;
  rd_service : string;
  rd_service_cgroup_id : string;
  rd_due_at_ns : Z;
}.

(** ** The store *)

Record StartExecutionStore : Type := {
  ses_pending_checks : gmap OperationId PendingPreStartCheck;
  ses_pending_check_launches : list OperationId;
  ses_running_helpers : gmap Z RunningPreStartCheckHelper;
  ses_check_deadlines : gmap OperationId PreStartCheckDeadline;
  ses_prechecked : gmap OperationId PrecheckedGraphStart;
  ses_pre_sequences : gmap OperationId PreStartHookSequence;
  ses_pre_deadlines : gmap OperationId PreStartHookDeadline;
  ses_post_sequences : gmap OperationId PostStartHookSequence;
  ses_post_deadlines : gmap OperationId PostStartHookDeadline;
  ses_readiness : gmap OperationId ReadinessDeadline;
}.

Definition start_store_new : StartExecutionStore :=
  {| ses_pending_checks := ∅; ses_pending_check_launches := []; ses_running_helpers := ∅;
     ses_check_deadlines := ∅; ses_prechecked := ∅; ses_pre_sequences := ∅; ses_pre_deadlines := ∅;
     ses_post_sequences := ∅; ses_post_deadlines := ∅; ses_readiness := ∅ |}.

Definition record_pending_pre_start_check (pending : PendingPreStartCheck) (self : StartExecutionStore)
    : StartExecutionStore * PendingPreStartCheckRegistration :=
  ({| self with
      ses_pending_checks := <[pending.(pc_operation_id) := pending]> self.(ses_pending_checks);
      ses_pending_check_launches := self.(ses_pending_check_launches) ++ [pending.(pc_operation_id)] |},
   {| reg_checks := pending.(pc_checks); reg_helper_cgroup_id := pending_helper_cgroup_id pending |}).

Definition remove_pending_pre_start_check (operation_id : OperationId) (self : StartExecutionStore)
    : StartExecutionStore * option PendingPreStartCheck :=
  ({| self with ses_pending_checks := delete operation_id self.(ses_pending_checks) |},
   self.(ses_pending_checks) !! operation_id).

(** The [while let] over the queue: its entries without a pending check are
    dropped. *)
Fixpoint pop_launch (pending : gmap OperationId PendingPreStartCheck) (launches : list OperationId)
    : list OperationId * option PendingPreStartCheck :=
  match launches with
  | [] => ([], None)
  | operation_id :: launches =>
      match pending !! operation_id with
      | Some check => (launches, Some check)
      | None => pop_launch pending launches
      end
  end.

Definition pop_pending_pre_start_check_launch (self : StartExecutionStore)
    : StartExecutionStore * option PendingPreStartCheck :=
  let (launches, check) := pop_launch self.(ses_pending_checks) self.(ses_pending_check_launches) in
  ({| self with ses_pending_check_launches := launches |}, check).

Definition seconds_after (started_at_ns timeout_secs : Z) : Z :=
  u64_saturating_add started_at_ns (u64_saturating_mul timeout_secs NANOS_PER_SEC).

Definition record_running_pre_start_check_helper (helper : LaunchedFilesystemCheckHelper) (launched_at_ns : Z)
    (self : StartExecutionStore) : StartExecutionStore * option RunningPreStartCheckHelper :=
  match self.(ses_pending_checks) !! helper.(lh_operation_id) with
  | None => (self, None)
  | Some pending =>
      let running := {| rh_helper := helper; rh_pending := pending |} in
      let deadline := {|
        cd_operation_id := pending.(pc_operation_id);
        cd_service := pending.(pc_service);
        cd_helper_cgroup_id := pending_helper_cgroup_id pending;
        cd_result_fd := helper.(lh_result_fd);
        cd_pidfd := helper.(lh_pidfd);
        cd_due_at_ns := Z.min (seconds_after launched_at_ns pending.(pc_timeout_secs))
                              pending.(pc_operation_deadline_ns) |} in
      ({| self with
          ses_check_deadlines := <[pending.(pc_operation_id) := deadline]> self.(ses_check_deadlines);
          ses_running_helpers := <[helper.(lh_result_fd) := running]> self.(ses_running_helpers) |}, Some running)
  end.

Definition running_helper_by_pidfd (pidfd : Z) (self : StartExecutionStore) : option RunningPreStartCheckHelper :=
  find_first (λ running, bool_decide (running.(rh_helper).(lh_pidfd) = pidfd))
    (btree_values self.(ses_running_helpers)).

Definition remove_running_helper_by_result_fd (result_fd : Z) (self : StartExecutionStore)
    : StartExecutionStore * option RunningPreStartCheckHelper :=
  match self.(ses_running_helpers) !! result_fd with
  | None => (self, None)
  | Some running =>
      ({| self with
          ses_running_helpers := delete result_fd self.(ses_running_helpers);
          ses_check_deadlines := delete running.(rh_pending).(pc_operation_id) self.(ses_check_deadlines);
          ses_pending_checks := delete running.(rh_pending).(pc_operation_id) self.(ses_pending_checks) |},
       Some running)
  end.

Definition remove_running_helper_by_operation_id (operation_id : OperationId) (self : StartExecutionStore)
    : StartExecutionStore * option RunningPreStartCheckHelper :=
  match find_first (λ p, bool_decide (p.2.(rh_pending).(pc_operation_id) = operation_id))
          (btree_iter self.(ses_running_helpers)) with
  | None => (self, None)
  | Some (result_fd, _) => remove_running_helper_by_result_fd result_fd self
  end.

Definition remove_pre_start_check_deadline (operation_id : OperationId) (self : StartExecutionStore)
    : StartExecutionStore :=
  {| self with ses_check_deadlines := delete operation_id self.(ses_check_deadlines) |}.

Definition record_prechecked_graph_start (prechecked : PrecheckedGraphStart) (self : StartExecutionStore)
    : StartExecutionStore :=
  {| self with ses_prechecked := <[prechecked.(pg_ready).(rg_operation_id) := prechecked]> self.(ses_prechecked) |}.

Definition remove_prechecked_graph_start (operation_id : OperationId) (self : StartExecutionStore)
    : StartExecutionStore :=
  {| self with ses_prechecked := delete operation_id self.(ses_prechecked) |}.

Definition record_pre_start_sequence (sequence : PreStartHookSequence) (self : StartExecutionStore)
    : StartExecutionStore :=
  {| self with ses_pre_sequences := <[sequence.(hs_operation_id) := sequence]> self.(ses_pre_sequences) |}.

Definition remove_pre_start_sequence (operation_id : OperationId) (self : StartExecutionStore)
    : StartExecutionStore :=
  {| self with ses_pre_sequences := delete operation_id self.(ses_pre_sequences) |}.

Definition record_pre_start_hook_deadline (deadline : PreStartHookDeadline) (self : StartExecutionStore)
    : StartExecutionStore :=
  {| self with ses_pre_deadlines := <[deadline.(hd_operation_id) := deadline]> self.(ses_pre_deadlines) |}.

Definition remove_pre_start_hook_deadline (operation_id : OperationId) (self : StartExecutionStore)
    : StartExecutionStore :=
  {| self with ses_pre_deadlines := delete operation_id self.(ses_pre_deadlines) |}.

Definition record_post_start_sequence (sequence : PostStartHookSequence) (self : StartExecutionStore)
    : StartExecutionStore :=
  {| self with ses_post_sequences := <[sequence.(qs_operation_id) := sequence]> self.(ses_post_sequences) |}.

Definition remove_post_start_sequence (operation_id : OperationId) (self : StartExecutionStore)
    : StartExecutionStore :=
  {| self with ses_post_sequences := delete operation_id self.(ses_post_sequences) |}.

Definition record_post_start_hook_deadline (deadline : PostStartHookDeadline) (self : StartExecutionStore)
    : StartExecutionStore :=
  {| self with ses_post_deadlines := <[deadline.(qd_operation_id) := deadline]> self.(ses_post_deadlines) |}.

Definition remove_post_start_hook_deadline (operation_id : OperationId) (self : StartExecutionStore)
    : StartExecutionStore :=
  {| self with ses_post_deadlines := delete operation_id self.(ses_post_deadlines) |}.

Definition cancel_post_start_for_service (service : string) (self : StartExecutionStore)
    : StartExecutionStore * list PostStartHookDeadline :=
  ({| self with
      ses_post_sequences := filter (λ p, p.2.(qs_service) ≠ service) self.(ses_post_sequences);
      ses_post_deadlines := filter (λ p, p.2.(qd_service) ≠ service) self.(ses_post_deadlines) |},
   filter (λ deadline, deadline.(qd_service) = service) (btree_values self.(ses_post_deadlines))).

Definition record_readiness_deadline (deadline : ReadinessDeadline) (self : StartExecutionStore)
    : StartExecutionStore :=
  {| self with ses_readiness := <[deadline.(rd_operation_id) := deadline]> self.(ses_readiness) |}.

Definition remove_readiness_deadline (operation_id : OperationId) (self : StartExecutionStore)
    : StartExecutionStore * option ReadinessDeadline :=
  ({| self with ses_readiness := delete operation_id self.(ses_readiness) |},
   self.(ses_readiness) !! operation_id).

(** The names are collected first, then removed one by one. *)
Definition remove_readiness_deadlines_for_service (service : string) (self : StartExecutionStore)
    : StartExecutionStore * list ReadinessDeadline :=
  let operations := map rd_operation_id
    (filter (λ deadline, deadline.(rd_service) = service) (btree_values self.(ses_readiness))) in
  foldl (λ '(self, removed) operation_id,
    let (self, deadline) := remove_readiness_deadline operation_id self in (self, removed ++ option_list deadline))
    (self, []) operations.

Definition readiness_le (a b : ReadinessDeadline) : Prop := a.(rd_due_at_ns) ≤ b.(rd_due_at_ns).

#[export] Instance readiness_le_dec : RelDecision readiness_le.
Proof. intros a b. unfold readiness_le. apply _. Defined.

Definition readiness_deadline_for_service (service : string) (self : StartExecutionStore)
    : option ReadinessDeadline :=
  min_by readiness_le
    (filter (λ deadline, deadline.(rd_service) = service) (btree_values self.(ses_readiness))).

Definition extend_readiness_deadline (operation_id : OperationId) (due_at_ns : Z) (self : StartExecutionStore)
    : StartExecutionStore * option ReadinessDeadline :=
  match self.(ses_readiness) !! operation_id with
  | None => (self, None)
  | Some deadline =>
      let deadline := {| deadline with rd_due_at_ns := due_at_ns |} in
      ({| self with ses_readiness := <[operation_id := deadline]> self.(ses_readiness) |}, Some deadline)
  end.

(** *** Due and next deadlines, the same for each kind *)

Section Due.
Context {D : Type} (due_at_ns : D → Z) (service : D → string).

Definition due_before (now_ns : Z) (deadlines : gmap OperationId D) : list D :=
  filter (λ deadline, due_at_ns deadline ≤ now_ns) (btree_values deadlines).

Definition due_le (a b : D) : Prop := prod_le (due_at_ns a, service a) (due_at_ns b, service b).

#[export] Instance due_le_dec : RelDecision due_le.
Proof. intros a b. unfold due_le. apply _. Defined.

Definition next_due (deadlines : gmap OperationId D) : option D := min_by due_le (btree_values deadlines).
End Due.

Definition due_pre_start_check_deadlines (now_ns : Z) (self : StartExecutionStore) : list PreStartCheckDeadline :=
  due_before cd_due_at_ns now_ns self.(ses_check_deadlines).
Definition next_pre_start_check_timeout (self : StartExecutionStore) : option PreStartCheckDeadline :=
  next_due cd_due_at_ns cd_service self.(ses_check_deadlines).
Definition due_pre_start_hook_deadlines (now_ns : Z) (self : StartExecutionStore) : list PreStartHookDeadline :=
  due_before hd_due_at_ns now_ns self.(ses_pre_deadlines).
Definition next_pre_start_hook_timeout (self : StartExecutionStore) : option PreStartHookDeadline :=
  next_due hd_due_at_ns hd_service self.(ses_pre_deadlines).
Definition due_post_start_hook_deadlines (now_ns : Z) (self : StartExecutionStore) : list PostStartHookDeadline :=
  due_before qd_due_at_ns now_ns self.(ses_post_deadlines).
Definition next_post_start_hook_timeout (self : StartExecutionStore) : option PostStartHookDeadline :=
  next_due qd_due_at_ns qd_service self.(ses_post_deadlines).
Definition due_readiness_deadlines (now_ns : Z) (self : StartExecutionStore) : list ReadinessDeadline :=
  due_before rd_due_at_ns now_ns self.(ses_readiness).
Definition next_readiness_timeout (self : StartExecutionStore) : option ReadinessDeadline :=
  next_due rd_due_at_ns rd_service self.(ses_readiness).

(** ** Deadlines ([start/deadline.rs]) *)

Definition pre_start_hook_deadline (sequence : PreStartHookSequence) (job_id : JobId) : PreStartHookDeadline := {|
  hd_operation_id := sequence.(hs_operation_id);
  hd_job_id := job_id;
  hd_service := sequence.(hs_service);
  hd_hooks_cgroup_id := service_job_cgroup_path sequence.(hs_service) sequence.(hs_cgroup_generation) KindHooks;
  hd_service_cgroup_id := service_cgroup_root_path sequence.(hs_service) sequence.(hs_cgroup_generation);
  hd_due_at_ns := sequence.(hs_deadline_ns);
|}.

Definition post_start_hook_deadline (sequence : PostStartHookSequence) (job_id : JobId)
    : PostStartHookDeadline := {|
  qd_operation_id := sequence.(qs_operation_id);
  qd_job_id := job_id;
  qd_service := sequence.(qs_service);
  qd_hooks_cgroup_id := service_job_cgroup_path sequence.(qs_service) sequence.(qs_cgroup_generation) KindHooks;
  qd_service_cgroup_id := service_cgroup_root_path sequence.(qs_service) sequence.(qs_cgroup_generation);
  qd_due_at_ns := sequence.(qs_deadline_ns);
|}.

Definition requires_notify_readiness (definition : ServiceDefinition) : bool :=
  bool_decide (definition.(sd_service_type) = TypeSimple) && bool_decide (definition.(sd_readiness) = ReadyNotify).

Definition readiness_deadline (sequence : PreStartHookSequence) : option ReadinessDeadline :=
  then_some (requires_notify_readiness sequence.(hs_definition)) {|
    rd_operation_id := sequence.(hs_operation_id);
    rd_job_id := sequence.(hs_main_job_id);
    rd_service := sequence.(hs_service);
    rd_service_cgroup_id := service_cgroup_root_path sequence.(hs_service) sequence.(hs_cgroup_generation);
    rd_due_at_ns := sequence.(hs_deadline_ns) |}.

Definition start_operation_deadline_ns (operation : OperationRecord) (definition : ServiceDefinition)
    (started_at_ns : Z) : Z :=
  match operation.(or_operation_type) with
  | OpRestart =>
      Z.min (seconds_after started_at_ns definition.(sd_start_timeout_secs))
        (seconds_after operation.(or_lifetime_from_ns)
           (u64_saturating_add definition.(sd_stop_timeout_secs) definition.(sd_start_timeout_secs)))
  | _ => seconds_after operation.(or_lifetime_from_ns) definition.(sd_start_timeout_secs)
  end.

(** * The stores of a start, its failure and its success

    Models the stores a start works on ([src/src/execution/start/model/context.rs]),
    the check that an operation is a running start ([execution/start_validation.rs]),
    the failure of a start ([execution/failure/]) and its success
    ([execution/satisfaction/]).

    A step maps the stores to the stores it leaves and its result. The clones
    that a step works on and assigns back at its end are [atomic]: after an
    error the stores are what they were, while a control group that was killed
    stays killed. *)

(** ** Errors *)

Inductive RunningStartValidationError : Type :=
| RvUnknownOperation (operation_id : OperationId)
| RvOperationServiceMismatch (operation_id : OperationId) (expected_service actual_service : string)
| RvUnsupportedOperationType (operation_id : OperationId) (operation_type : OperationType)
| RvOperationNotRunning (operation_id : OperationId) (state : OperationState).

Inductive StartFailureError : Type :=
| SfUnknownOperation (operation_id : OperationId)
| SfOperationServiceMismatch (operation_id : OperationId) (expected_service actual_service : string)
| SfUnsupportedOperationType (operation_id : OperationId) (operation_type : OperationType)
| SfOperationNotRunning (operation_id : OperationId) (state : OperationState)
| SfServiceTable (error : ServiceTableError)
| SfOperationStore (error : OperationStoreError)
| SfGraph (error : GraphExecutionError).

Inductive StartSatisfactionError : Type :=
| SsUnknownOperation (operation_id : OperationId)
| SsOperationServiceMismatch (operation_id : OperationId) (expected_service actual_service : string)
| SsUnsupportedOperationType (operation_id : OperationId) (operation_type : OperationType)
| SsOperationNotRunning (operation_id : OperationId) (state : OperationState)
| SsServiceTable (error : ServiceTableError)
| SsOperationStore (error : OperationStoreError)
| SsGraph (error : GraphExecutionError).

Definition start_failure_from (error : RunningStartValidationError) : StartFailureError :=
  match error with
  | RvUnknownOperation id => SfUnknownOperation id
  | RvOperationServiceMismatch id expected actual => SfOperationServiceMismatch id expected actual
  | RvUnsupportedOperationType id type => SfUnsupportedOperationType id type
  | RvOperationNotRunning id state => SfOperationNotRunning id state
  end.

Definition start_satisfaction_from (error : RunningStartValidationError) : StartSatisfactionError :=
  match error with
  | RvUnknownOperation id => SsUnknownOperation id
  | RvOperationServiceMismatch id expected actual => SsOperationServiceMismatch id expected actual
  | RvUnsupportedOperationType id type => SsUnsupportedOperationType id type
  | RvOperationNotRunning id state => SsOperationNotRunning id state
  end.

(** ** Running starts ([start_validation.rs]) *)

Definition validate_running_start_operation (service : string) (operation_id : OperationId)
    (operations : OperationStore) : Result unit RunningStartValidationError :=
  let? record := ok_or (operations.(op_records) !! operation_id) (RvUnknownOperation operation_id) in
  if bool_decide (record.(or_service) ≠ service) then
    Err (RvOperationServiceMismatch operation_id service record.(or_service))
  else if negb match record.(or_operation_type) with OpStart | OpRestart => true | _ => false end then
    Err (RvUnsupportedOperationType operation_id record.(or_operation_type))
  else if bool_decide (record.(or_state) ≠ OsRunning) then
    Err (RvOperationNotRunning operation_id record.(or_state))
  else Ok tt.

Definition start_transition_cause (operation_id : OperationId) (operations : OperationStore)
    : Result TransitionCause RunningStartValidationError :=
  let? record := ok_or (operations.(op_records) !! operation_id) (RvUnknownOperation operation_id) in
  Ok match record.(or_source) with
     | SrcDependencyPropagation => TcDependencyStart
     | SrcRestartPolicy => TcRestartPolicy
     | SrcBindsToRecovery => TcBindsToRecovery
     | _ => TcExplicitStart
     end.

(** ** The stores *)

Section Stores.
Context {P : Type}.

Record ExecState : Type := {
  xs_services : gmap string ServiceEntry;
  xs_operations : OperationStore;
  xs_graph : GraphExecutionStore;
  xs_jobs : JobStore;
  xs_job_ids : Z;
  xs_start : StartExecutionStore;
  xs_controller : P;
}.

Definition Step (E A : Type) : Type := Exec ExecState E A.

Definition set_services (v : gmap string ServiceEntry) (s : ExecState) : ExecState := {| s with xs_services := v |}.
Definition set_operations (v : OperationStore) (s : ExecState) : ExecState := {| s with xs_operations := v |}.
Definition set_graph (v : GraphExecutionStore) (s : ExecState) : ExecState := {| s with xs_graph := v |}.
Definition set_jobs (v : JobStore) (s : ExecState) : ExecState := {| s with xs_jobs := v |}.
Definition set_job_ids (v : Z) (s : ExecState) : ExecState := {| s with xs_job_ids := v |}.
Definition set_start (v : StartExecutionStore) (s : ExecState) : ExecState := {| s with xs_start := v |}.
Definition set_controller (v : P) (s : ExecState) : ExecState := {| s with xs_controller := v |}.

Definition on_services {E A} (wrap : ServiceTableError → E) (f : gmap string ServiceEntry → TableResult A)
    : Step E A := exec_on xs_services set_services wrap f.
Definition on_operations {E A} (wrap : OperationStoreError → E) (f : OperationStore → StoreResult A)
    : Step E A := exec_on xs_operations set_operations wrap f.
Definition on_graph {E A} (wrap : GraphExecutionError → E) (m : GraphM GraphExecutionStore A)
    : Step E A := exec_within xs_graph set_graph wrap m.
Definition on_jobs {E A} (wrap : JobStoreError → E) (f : JobStore → JobResult A)
    : Step E A := exec_on xs_jobs set_jobs wrap f.
Definition on_start {E} (f : StartExecutionStore → StartExecutionStore) : Step E unit :=
  exec_update (λ s, set_start (f s.(xs_start)) s).
Definition on_start_with {E A} (f : StartExecutionStore → StartExecutionStore * A) : Step E A :=
  exec_on xs_start set_start (λ e : E, e) (λ start, let (start, a) := f start in (start, Ok a)).

(** [job_ids.allocate_batch(1, t).map(|ids| ids[0])]: a batch of one has one
    identifier. *)
Definition allocate_job_id {E} (wrap : IdAllocationError → E) (observed_at_ns : Z) : Step E JobId :=
  ids ← exec_on xs_job_ids set_job_ids wrap (λ n, allocate_batch n 1 observed_at_ns);
  mret (default 0 (head ids)).

Definition restore (now before : ExecState) : ExecState := set_controller now.(xs_controller) before.
Definition atomic {E A} (m : Step E A) : Step E A := exec_atomic restore m.

Definition require {E A} (e : E) (f : ExecState → option A) : Step E A :=
  found ← exec_get f;
  exec_lift (ok_or found e).

(** ** The failure of a start ([failure/dispatch.rs]) *)

Record StartFailureRequest : Type := {
  sfr_service : string;
  sfr_operation_id : OperationId;
  sfr_failed_at_ns : Z;
  sfr_failure_cause : TransitionCause;
  sfr_reason : string;
  sfr_exit_code : option Z;
}.

Record StartFailureDispatch : Type := {
  sfd_operation_events : list OperationEvent;
  sfd_service_transitions : list ServiceTableTransition;
  sfd_graph_events : list GraphExecutionEvent;
}.

Record DependentFailures : Type := {
  df_operation_events : list OperationEvent;
  df_service_transitions : list ServiceTableTransition;
}.

Definition DEPENDENCY_FAILURE_REASON : string := "DependencyFailure: dependency failed during graph start".

(** One dependent: its operation fails, and its service if nothing else has
    moved it. *)
Definition fail_dependent (event : GraphExecutionEvent) (failed_at_ns : Z) (reason : string)
    : Step StartFailureError (OperationEvent * option ServiceTableTransition) :=
  inactive ← exec_get (λ s, is_some_and (table_runtime s.(xs_services) event.(ge_service))
                              (λ runtime, bool_decide (runtime.(rt_state) = StInactive)));
  moved ← (if inactive : bool then
             t ← on_services SfServiceTable
                   (transition_after_failure event.(ge_service) TcDependencyFailure failed_at_ns None);
             mret (Some t)
           else mret None);
  failed ← on_operations SfOperationStore (fail_operation event.(ge_operation_id) failed_at_ns reason);
  mret (failed, moved).

Definition ended_or_unknown (operations : OperationStore) (operation_id : OperationId) : bool :=
  is_none_or (operations.(op_records) !! operation_id) (λ record, op_is_terminal record.(or_state)).

Fixpoint fail_dependents (failed_target : string) (failed_at_ns : Z) (reason : string) (seen : gset string)
    (graph_events : list GraphExecutionEvent) : Step StartFailureError DependentFailures :=
  match graph_events with
  | [] => mret {| df_operation_events := []; df_service_transitions := [] |}
  | event :: graph_events =>
      if bool_decide (event.(ge_outcome) ≠ OutFailed) || bool_decide (event.(ge_service) = failed_target) ||
         bool_decide (event.(ge_service) ∈ seen)
      then fail_dependents failed_target failed_at_ns reason seen graph_events
      else
        let seen := set_insert event.(ge_service) seen in
        ended ← exec_get (λ s, ended_or_unknown s.(xs_operations) event.(ge_operation_id));
        if ended : bool then fail_dependents failed_target failed_at_ns reason seen graph_events
        else
          '(failed, moved) ← fail_dependent event failed_at_ns reason;
          rest ← fail_dependents failed_target failed_at_ns reason seen graph_events;
          mret {| df_operation_events := failed :: rest.(df_operation_events);
                  df_service_transitions := option_list moved ++ rest.(df_service_transitions) |}
  end.

Definition fail_dependents_after_graph_events (graph_events : list GraphExecutionEvent) (failed_target : string)
    (failed_at_ns : Z) (reason : string) : Step StartFailureError DependentFailures :=
  fail_dependents failed_target failed_at_ns reason ∅ graph_events.

Definition hold_for_restart (request : StartFailureRequest) (cause : TransitionCause) (delay_secs : Z)
    : Step StartFailureError StartFailureDispatch :=
  _ ← on_graph SfGraph (apply_operation_awaiting_restart request.(sfr_operation_id));
  transition ← on_services SfServiceTable
    (transition_service_to_restart_backoff request.(sfr_service) cause
       (backoff_deadline request.(sfr_failed_at_ns) delay_secs));
  operation_event ← on_operations SfOperationStore
    (fail_operation request.(sfr_operation_id) request.(sfr_failed_at_ns) request.(sfr_reason));
  mret {| sfd_operation_events := [operation_event]; sfd_service_transitions := [transition];
          sfd_graph_events := [] |}.

Definition fail_with_dependents (request : StartFailureRequest) (cause : TransitionCause) (state : ServiceState)
    : Step StartFailureError StartFailureDispatch :=
  graph_events ← on_graph SfGraph (apply_operation_failed request.(sfr_operation_id));
  transition ← on_services SfServiceTable
    (transition_service request.(sfr_service) {| st_to := state; st_cause := cause |});
  operation_event ← on_operations SfOperationStore
    (fail_operation request.(sfr_operation_id) request.(sfr_failed_at_ns) request.(sfr_reason));
  dependents ← fail_dependents_after_graph_events graph_events request.(sfr_service)
    request.(sfr_failed_at_ns) DEPENDENCY_FAILURE_REASON;
  mret {| sfd_operation_events := operation_event :: dependents.(df_operation_events);
          sfd_service_transitions := transition :: dependents.(df_service_transitions);
          sfd_graph_events := graph_events |}.

Definition restart_evaluation (request : StartFailureRequest) : Step StartFailureError RestartEvaluation :=
  definition ← require (SfServiceTable (UnknownService request.(sfr_service)))
    (λ s, table_definition s.(xs_services) request.(sfr_service));
  runtime ← require (SfServiceTable (UnknownService request.(sfr_service)))
    (λ s, table_runtime s.(xs_services) request.(sfr_service));
  mret (evaluate_restart_after_failure definition request.(sfr_failure_cause) request.(sfr_exit_code)
          runtime.(rt_consecutive_restart_failures)).

Definition apply_start_failure (request : StartFailureRequest) : Step StartFailureError StartFailureDispatch :=
  valid ← exec_get (λ s,
    validate_running_start_operation request.(sfr_service) request.(sfr_operation_id) s.(xs_operations));
  _ ← exec_lift (map_err start_failure_from valid);
  atomic (
    evaluation ← restart_evaluation request;
    match evaluation.(re_action) with
    | EvalBackoff cause delay_secs _ => hold_for_restart request cause delay_secs
    | EvalFail cause state => fail_with_dependents request cause state
    end).

(** ** The success of a start ([satisfaction/dispatch.rs]) *)

Record StartSatisfactionRequest : Type := {
  ssr_service : string;
  ssr_operation_id : OperationId;
  ssr_satisfied_at_ns : Z;
  ssr_result : string;
}.

Record StartSatisfactionDispatch : Type := {
  ssd_operation_event : OperationEvent;
  ssd_service_transitions : list ServiceTableTransition;
  ssd_graph_events : list GraphExecutionEvent;
}.

Definition state_of_success (definition : ServiceDefinition) : ServiceState :=
  match definition.(sd_service_type) with TypeSimple => StActive | TypeOneshot => StCompleted end.

Definition satisfied_state {E} (wrap : ServiceTableError → E) (service : string) : Step E ServiceState :=
  definition ← require (wrap (UnknownService service)) (λ s, table_definition s.(xs_services) service);
  mret (state_of_success definition).

Definition apply_start_satisfaction (request : StartSatisfactionRequest)
    : Step StartSatisfactionError StartSatisfactionDispatch :=
  valid ← exec_get (λ s,
    validate_running_start_operation request.(ssr_service) request.(ssr_operation_id) s.(xs_operations));
  _ ← exec_lift (map_err start_satisfaction_from valid);
  atomic (
    to ← satisfied_state SsServiceTable request.(ssr_service);
    cause ← exec_get (λ s, start_transition_cause request.(ssr_operation_id) s.(xs_operations));
    cause ← exec_lift (map_err start_satisfaction_from cause);
    transition ← on_services SsServiceTable
      (transition_service request.(ssr_service) {| st_to := to; st_cause := cause |});
    _ ← on_services SsServiceTable
      (table_mark_dependent_satisfied_since request.(ssr_service) request.(ssr_satisfied_at_ns));
    operation_event ← on_operations SsOperationStore
      (complete_operation request.(ssr_operation_id) request.(ssr_satisfied_at_ns) request.(ssr_result));
    graph_events ← on_graph SsGraph (apply_operation_satisfied request.(ssr_operation_id));
    release ← on_services SsServiceTable (release_completed_oneshot_if_not_retained request.(ssr_service));
    mret {| ssd_operation_event := operation_event;
            ssd_service_transitions := transition :: option_list release;
            ssd_graph_events := graph_events |}).
End Stores.

Arguments ExecState : clear implicits.
Arguments Step : clear implicits.
