(* ===== verification/StartBegin.v ===== *)
(** * Beginning a start

    Models how a start begins ([src/src/execution/start/]): the conditions and
    assertions of a service ([checks.rs], [service/registry_check.rs]), the
    first job with its hooks ([initial.rs], [initial_pre.rs], [job_id.rs],
    [skipped.rs]), and the three ways in: a start released by the graph in one
    step ([dispatch.rs]) or in two ([graph_precheck.rs], [graph_precheck/outcome.rs],
    [pre_dependency.rs]), and the start leg of a restart ([restart.rs]); then
    the completion of filesystem checks ([pre_start_check/]). *)

From S2P Require Import Prelude RustStr ServiceRuntime ServiceDef Ids Restart Cgroup ServiceTable Tty FailureDispatch.
From S2P Require Import OperationRecord OperationStore ExecCommand ExecGraph JobRecord JobStore.
From S2P Require Import Effects StartState.
From Stdlib Require Import Ascii String.
Open Scope string_scope.
Open Scope list_scope.
Open Scope Z_scope.

(** ** Conditions and assertions ([checks.rs]) *)

Inductive CachedRegistryKey : Type := KeyRoot | KeyService (name : string).

Definition cached_registry_key (key : string) : option CachedRegistryKey :=
  if bool_decide (key = "Machine\System\Services") || bool_decide (key = "Machine\System\Init") then Some KeyRoot
  else
    service ← strip_prefix "Machine\System\Services\" key;
    if str_is_empty service || str_contains_char backslash service then None else Some (KeyService service).

Inductive SkipReason : Type :=
| SkipCondition (check : ServiceCheck)
| SkipTtyHeld (tty holder : string).

Inductive StartPreCheckTerminalOutcome : Type :=
| OutConditionSkipped (check : string)
| OutTtyUnavailable (tty holder : string)
| OutAssertionFailed (check : string).

Inductive PreStartCheckDecision : Type :=
| DecPassed
| DecSkipped (reason : SkipReason)
| DecAssertionFailed (check : ServiceCheck)
| DecRequiresFilesystemHelper (checks : list ServiceCheck).

Definition format_check (check : ServiceCheck) : string :=
  match check.(chk_kind) with
  | CheckPath => "path" | CheckFile => "file" | CheckDirectory => "directory" | CheckRegistry => "registry"
  end +:+ ":" +:+ check.(chk_argument).

Definition skip_cause (self : SkipReason) : TransitionCause :=
  match self with SkipCondition _ => TcConditionSkipped | SkipTtyHeld _ _ => TcTtyUnavailable end.

Definition skip_message (self : SkipReason) : string :=
  match self with
  | SkipCondition check => "ConditionSkipped: " +:+ format_check check +:+ " not satisfied"
  | SkipTtyHeld tty holder => "TtyUnavailable: " +:+ tty +:+ " is held by " +:+ holder
  end.

Definition skip_outcome (self : SkipReason) : StartPreCheckTerminalOutcome :=
  match self with
  | SkipCondition check => OutConditionSkipped (format_check check)
  | SkipTtyHeld tty holder => OutTtyUnavailable tty holder
  end.

Definition assertion_message (check : ServiceCheck) : string :=
  "AssertionError: " +:+ format_check check +:+ " not satisfied".

Section Checks.
Context (services : gmap string ServiceEntry).

Definition tty_unavailable (service : string) (definition : ServiceDefinition) : option SkipReason :=
  tty ← definition.(sd_console_path);
  holder ← tty_holder services tty service;
  Some (SkipTtyHeld tty holder).

Definition cached_registry_key_exists (key : string) : bool :=
  match cached_registry_key key with
  | Some KeyRoot => true
  | Some (KeyService name) => bool_decide (is_Some (table_definition services name))
  | None => false
  end.

Inductive CheckSetDecision : Type :=
| SetPassed
| SetFailed (check : ServiceCheck)
| SetRequiresFilesystemHelper (checks : list ServiceCheck).

Fixpoint evaluate_checks (filesystem_checks checks : list ServiceCheck) : CheckSetDecision :=
  match checks with
  | [] => if bool_decide (filesystem_checks = []) then SetPassed else SetRequiresFilesystemHelper filesystem_checks
  | check :: checks =>
      match check.(chk_kind) with
      | CheckRegistry =>
          if negb (cached_registry_key_exists check.(chk_argument)) then SetFailed check
          else evaluate_checks filesystem_checks checks
      | CheckPath | CheckFile | CheckDirectory => evaluate_checks (filesystem_checks ++ [check]) checks
      end
  end.

Definition evaluate_check_set (checks : list ServiceCheck) : CheckSetDecision := evaluate_checks [] checks.

Definition extend_filesystem_checks (gathered checks : list ServiceCheck) : list ServiceCheck :=
  foldl (λ gathered check, if bool_decide (check ∈ gathered) then gathered else gathered ++ [check])
    gathered checks.

Definition evaluate_cacheable_pre_start_checks (service : string) (definition : ServiceDefinition)
    : PreStartCheckDecision :=
  match tty_unavailable service definition with
  | Some reason => DecSkipped reason
  | None =>
      match evaluate_check_set definition.(sd_conditions) with
      | SetFailed check => DecSkipped (SkipCondition check)
      | conditions =>
          let filesystem_checks :=
            match conditions with
            | SetRequiresFilesystemHelper checks => extend_filesystem_checks [] checks
            | _ => []
            end in
          let finish filesystem_checks :=
            if bool_decide (filesystem_checks = []) then DecPassed
            else DecRequiresFilesystemHelper filesystem_checks in
          match evaluate_check_set definition.(sd_asserts) with
          | SetPassed => finish filesystem_checks
          | SetFailed check =>
              if bool_decide (filesystem_checks = []) then DecAssertionFailed check else finish filesystem_checks
          | SetRequiresFilesystemHelper checks => finish (extend_filesystem_checks filesystem_checks checks)
          end
      end
  end.

Definition filesystem_check_satisfied (check : ServiceCheck) (results : list FilesystemCheckResult) : bool :=
  is_some_and (find_first (λ result, bool_decide (result.(fr_check) = check)) results) fr_satisfied.

Definition failed_check_with_filesystem_results (checks : list ServiceCheck) (results : list FilesystemCheckResult)
    : option ServiceCheck :=
  find_first (λ check, negb match check.(chk_kind) with
    | CheckRegistry => cached_registry_key_exists check.(chk_argument)
    | CheckPath | CheckFile | CheckDirectory => filesystem_check_satisfied check results
    end) checks.

Definition evaluate_pre_start_checks_with_filesystem_results (service : string) (definition : ServiceDefinition)
    (results : list FilesystemCheckResult) : PreStartCheckDecision :=
  match tty_unavailable service definition with
  | Some reason => DecSkipped reason
  | None =>
      match failed_check_with_filesystem_results definition.(sd_conditions) results with
      | Some check => DecSkipped (SkipCondition check)
      | None =>
          match failed_check_with_filesystem_results definition.(sd_asserts) results with
          | Some check => DecAssertionFailed check
          | None => DecPassed
          end
      end
  end.
End Checks.

(** ** Errors and dispatches ([model/]) *)

Inductive StartExecutionError {BoundaryError : Type} : Type :=
| SeJobIdAllocation (error : IdAllocationError)
| SeServiceTable (error : ServiceTableError)
| SeOperationStore (error : OperationStoreError)
| SeJobStore (error : JobStoreError)
| SeHookJob (error : ServiceHookJobBuildError)
| SeGraph (error : GraphExecutionError)
| SeBoundary (error : BoundaryError)
| SeStartFailure (error : StartFailureError)
| SeStartSatisfaction (error : StartSatisfactionError)
| SeInvalidExecStartPreCommand (service : string) (command_index : nat) (command : string)
    (source : ExecutableCommandParseError)
| SeInvalidExecStartPostCommand (service : string) (command_index : nat) (command : string)
    (source : ExecutableCommandParseError)
| SeEmptyExecStartPreSequence (service : string)
| SeEmptyExecStartPostSequence (service : string)
| SeNotPreExecHookJob (job_id : JobId) (job_type : JobType)
| SeNotPostExecHookJob (job_id : JobId) (job_type : JobType)
| SeMissingService (job_id : JobId)
| SeMissingOperation (job_id : JobId) (service : string)
| SeMissingPreStartHookSequence (operation_id : OperationId)
| SeMissingPostStartHookSequence (operation_id : OperationId)
| SeMissingPrecheckedGraphStart (operation_id : OperationId)
| SeUnknownPreStartCheckHelper (result_fd : Z)
| SeMismatchedPreStartCheckReport (expected_operation_id actual_operation_id : OperationId)
| SeUnexpectedFilesystemCheckContinuation (operation_id : OperationId)
| SeNotTerminalJobEvent (job_id : JobId) (state : JobState).
Arguments StartExecutionError : clear implicits.

Inductive StartExecutionJobKind : Type := StartsServiceMain | StartsPreStartHook (main_job_id : JobId).

Record StartExecutionRequest : Type := {
  ser_ready : ReadyGraphOperation;
  ser_resolved_identity : string;
  ser_token_summary : TokenSummary;
  ser_started_at_ns : Z;
}.

Record StartExecutionDispatch : Type := {
  sed_ready : ReadyGraphOperation;
  sed_job_id : JobId;
  sed_operation_event : OperationEvent;
  sed_cleared_skipped : option ServiceTableTransition;
  sed_service_transition : ServiceTableTransition;
  sed_job_event : JobEvent;
  sed_job_kind : StartExecutionJobKind;
}.

(** A start that ended before a job was made, one struct for the two of the
    source that have the same fields ([StartExecutionTerminalDispatch],
    [GraphPreStartCheckTerminalDispatch]). *)
Record StartTerminalDispatch : Type := {
  std_ready : ReadyGraphOperation;
  std_outcome : StartPreCheckTerminalOutcome;
  std_operation_events : list OperationEvent;
  std_service_transitions : list ServiceTableTransition;
  std_graph_events : list GraphExecutionEvent;
}.

Record StartExecutionCheckPendingDispatch : Type := {
  scp_ready : ReadyGraphOperation;
  scp_operation_event : OperationEvent;
  scp_service : string;
  scp_operation_id : OperationId;
  scp_checks : list ServiceCheck;
  scp_helper_cgroup_id : string;
}.

Inductive StartExecutionOutcome : Type :=
| OutJob (dispatch : StartExecutionDispatch)
| OutTerminal (dispatch : StartTerminalDispatch)
| OutCheckPending (dispatch : StartExecutionCheckPendingDispatch).

Record GraphPreStartCheckPassedDispatch : Type := {
  gpp_ready : ReadyGraphOperation;
  gpp_service : string;
  gpp_operation_id : OperationId;
  gpp_graph_context_ids : list GraphContextId;
}.

Record GraphPreStartCheckPendingDispatch : Type := {
  gpd_ready : ReadyGraphOperation;
  gpd_service : string;
  gpd_operation_id : OperationId;
  gpd_checks : list ServiceCheck;
  gpd_helper_cgroup_id : string;
}.

Inductive GraphPreStartCheckOutcome : Type :=
| GpPassed (dispatch : GraphPreStartCheckPassedDispatch)
| GpTerminal (dispatch : StartTerminalDispatch)
| GpCheckPending (dispatch : GraphPreStartCheckPendingDispatch).

Inductive PrecheckedReadyStartOutcome : Type :=
| PrJob (dispatch : StartExecutionDispatch)
| PrTerminal (dispatch : StartTerminalDispatch).

Record InitialStartJobRequest : Type := {
  isr_service : string;
  isr_operation_id : OperationId;
  isr_resolved_identity : string;
  isr_token_summary : TokenSummary;
  isr_started_at_ns : Z;
  isr_operation_deadline_ns : Z;
  isr_activation : ServiceActivationSnapshot;
  isr_main_job_id : JobId;
}.

Record InitialStartJob : Type := {
  isj_job_id : JobId;
  isj_job_event : JobEvent;
  isj_job_kind : StartExecutionJobKind;
}.

(** [commands.iter().enumerate().map(parse).collect()]. *)
Fixpoint parse_hook_commands {E} (invalid : nat → string → ExecutableCommandParseError → E) (command_index : nat)
    (commands : list string) : Result (list (list string)) E :=
  match commands with
  | [] => Ok []
  | command :: commands =>
      let? argv := map_err (invalid command_index command) (parse_executable_command command) in
      let? rest := parse_hook_commands invalid (S command_index) commands in
      Ok (argv :: rest)
  end.

Section Begin.
Context {P BoundaryError : Type}.
Notation Start := (Step P (StartExecutionError BoundaryError)).

(** ** The first job ([initial.rs], [initial_pre.rs], [job_id.rs], [skipped.rs]) *)

Definition job_id_for_ready_start (reserved_job_id : option JobId) (started_at_ns : Z) : Start JobId :=
  match reserved_job_id with
  | Some job_id => mret job_id
  | None => allocate_job_id SeJobIdAllocation started_at_ns
  end.

Definition job_id_for_request (request : StartExecutionRequest) : Start JobId :=
  job_id_for_ready_start request.(ser_ready).(rg_reserved_job_id) request.(ser_started_at_ns).

Definition clear_skipped_for_explicit_start (service : string) (cause : TransitionCause)
    : Start (option ServiceTableTransition) :=
  if bool_decide (cause ≠ TcExplicitStart) then mret None
  else
    state ← exec_get (λ s, rt_state <$> table_runtime s.(xs_services) service);
    if bool_decide (state ≠ Some StSkipped) then mret None
    else
      t ← on_services SeServiceTable (transition_service service {| st_to := StInactive; st_cause := cause |});
      mret (Some t).

Definition parse_pre_start_hooks (activation : ServiceActivationSnapshot)
    : Result (list (list string)) (StartExecutionError BoundaryError) :=
  parse_hook_commands (SeInvalidExecStartPreCommand activation.(as_service)) 0
    activation.(as_definition).(sd_exec_start_pre).

Definition service_main_job (request : InitialStartJobRequest) (activation : ServiceActivationSnapshot)
    (job_id : JobId) : JobRecord :=
  new_service_main job_id {|
    ms_service := activation.(as_definition);
    ms_resolved_identity := request.(isr_resolved_identity);
    ms_token_summary := request.(isr_token_summary);
    ms_activation_generation := activation.(as_activation_generation);
    ms_cgroup_generation := activation.(as_cgroup_generation);
    ms_operation_id := request.(isr_operation_id);
    ms_created_at_ns := request.(isr_started_at_ns) |}.

Definition record_request_readiness_deadline (request : InitialStartJobRequest) (job_id : JobId) : Start unit :=
  if negb (requires_notify_readiness request.(isr_activation).(as_definition)) then mret tt
  else on_start (record_readiness_deadline {|
    rd_operation_id := request.(isr_operation_id);
    rd_job_id := job_id;
    rd_service := request.(isr_service);
    rd_service_cgroup_id :=
      service_cgroup_root_path request.(isr_service) request.(isr_activation).(as_cgroup_generation);
    rd_due_at_ns := request.(isr_operation_deadline_ns) |}).

Definition create_initial_main_job (request : InitialStartJobRequest) : Start InitialStartJob :=
  let job_id := request.(isr_main_job_id) in
  job_event ← on_jobs SeJobStore (create_job (service_main_job request request.(isr_activation) job_id));
  _ ← record_request_readiness_deadline request job_id;
  mret {| isj_job_id := job_id; isj_job_event := job_event; isj_job_kind := StartsServiceMain |}.

Definition pre_start_hook_job (request : InitialStartJobRequest) (job_id : JobId) (argv : list string)
    : Result JobRecord (StartExecutionError BoundaryError) :=
  let definition := request.(isr_activation).(as_definition) in
  map_err SeHookJob (new_pre_exec_hook job_id {|
    hk_service := definition;
    hk_argv := argv;
    hk_hook_index := Some 0;
    hk_resolved_identity := hook_execution_identity definition;
    hk_token_summary := requested_identity (hook_execution_identity definition);
    hk_activation_generation := request.(isr_activation).(as_activation_generation);
    hk_cgroup_generation := request.(isr_activation).(as_cgroup_generation);
    hk_operation_id := request.(isr_operation_id);
    hk_created_at_ns := request.(isr_started_at_ns) |}).

Definition initial_pre_start_sequence (request : InitialStartJobRequest) (commands : list (list string))
    : PreStartHookSequence := {|
  hs_service := request.(isr_service);
  hs_operation_id := request.(isr_operation_id);
  hs_main_job_id := request.(isr_main_job_id);
  hs_definition := request.(isr_activation).(as_definition);
  hs_resolved_identity := request.(isr_resolved_identity);
  hs_token_summary := request.(isr_token_summary);
  hs_activation_generation := request.(isr_activation).(as_activation_generation);
  hs_cgroup_generation := request.(isr_activation).(as_cgroup_generation);
  hs_commands := commands;
  hs_next_index := 1;
  hs_deadline_ns := request.(isr_operation_deadline_ns);
|}.

Definition create_initial_pre_start_hook (request : InitialStartJobRequest) (commands : list (list string))
    : Start InitialStartJob :=
  hook_job_id ← allocate_job_id SeJobIdAllocation request.(isr_started_at_ns);
  match commands with
  | [] => exec_fail (SeEmptyExecStartPreSequence request.(isr_service))
  | first_command :: _ =>
      job ← exec_lift (pre_start_hook_job request hook_job_id first_command);
      job_event ← on_jobs SeJobStore (create_job job);
      _ ← on_start (record_pre_start_sequence (initial_pre_start_sequence request commands));
      _ ← on_start (record_pre_start_hook_deadline {|
            hd_operation_id := request.(isr_operation_id);
            hd_job_id := hook_job_id;
            hd_service := request.(isr_service);
            hd_hooks_cgroup_id := job.(jr_cgroup_id);
            hd_service_cgroup_id :=
              service_cgroup_root_path request.(isr_service) request.(isr_activation).(as_cgroup_generation);
            hd_due_at_ns := request.(isr_operation_deadline_ns) |});
      mret {| isj_job_id := hook_job_id; isj_job_event := job_event;
              isj_job_kind := StartsPreStartHook request.(isr_main_job_id) |}
  end.

Definition create_initial_start_job (request : InitialStartJobRequest) : Start InitialStartJob :=
  commands ← exec_lift (parse_pre_start_hooks request.(isr_activation));
  if bool_decide (commands = []) then create_initial_main_job request
  else create_initial_pre_start_hook request commands.

(** [operations.get(id).ok_or(UnknownOperation)?]. *)
Definition get_operation (operation_id : OperationId) : Start OperationRecord :=
  require (SeOperationStore (UnknownOperation operation_id)) (λ s, s.(xs_operations).(op_records) !! operation_id).

Definition initial_request (service : string) (operation_id : OperationId) (resolved_identity : string)
    (token_summary : TokenSummary) (started_at_ns operation_deadline_ns : Z)
    (activation : ServiceActivationSnapshot) (main_job_id : JobId) : InitialStartJobRequest := {|
  isr_service := service;
  isr_operation_id := operation_id;
  isr_resolved_identity := resolved_identity;
  isr_token_summary := token_summary;
  isr_started_at_ns := started_at_ns;
  isr_operation_deadline_ns := operation_deadline_ns;
  isr_activation := activation;
  isr_main_job_id := main_job_id;
|}.

(** ** A start in one step ([dispatch.rs]) *)

(** The service is skipped: it satisfies its dependents and the operation
    completes with the reason. *)
Definition skip_service (service : string) (operation_id : OperationId) (at_ns : Z)
    (cause : TransitionCause) (message : string) : Start (ServiceTableTransition * OperationEvent) :=
  transition ← on_services SeServiceTable (transition_service service {| st_to := StSkipped; st_cause := cause |});
  _ ← on_services SeServiceTable (table_mark_dependent_satisfied_since service at_ns);
  completed ← on_operations SeOperationStore (complete_operation operation_id at_ns message);
  mret (transition, completed).

Definition assertion_failure (service : string) (operation_id : OperationId) (at_ns : Z) (reason : string)
    : StartFailureRequest := {|
  sfr_service := service;
  sfr_operation_id := operation_id;
  sfr_failed_at_ns := at_ns;
  sfr_failure_cause := TcAssertionError;
  sfr_reason := reason;
  sfr_exit_code := None;
|}.

(** [if released_from_hold { restart_lifetime_clock }], then the operation
    starts; its deadline is read back from the record. *)
Definition start_released_operation (request : StartExecutionRequest) (definition : ServiceDefinition)
    : Start (OperationEvent * Z) :=
  let operation_id := request.(ser_ready).(rg_operation_id) in
  _ ← (if request.(ser_ready).(rg_released_from_hold)
       then on_operations SeOperationStore (store_restart_lifetime_clock operation_id request.(ser_started_at_ns))
       else mret tt);
  operation_event ← on_operations SeOperationStore (start_operation operation_id request.(ser_started_at_ns));
  record ← get_operation operation_id;
  mret (operation_event, start_operation_deadline_ns record definition request.(ser_started_at_ns)).

(** The service enters Starting and its first job is created. *)
Definition launch_ready_start (request : StartExecutionRequest) (resolved_identity : string)
    (token_summary : TokenSummary) (activation : ServiceActivationSnapshot)
    (cleared_skipped : option ServiceTableTransition) (operation_event : OperationEvent)
    (operation_deadline_ns : Z) : Start StartExecutionDispatch :=
  let ready := request.(ser_ready) in
  main_job_id ← job_id_for_request request;
  service_transition ← on_services SeServiceTable
    (transition_service ready.(rg_service) {| st_to := StStarting; st_cause := ready.(rg_transition_cause) |});
  initial ← create_initial_start_job
    (initial_request ready.(rg_service) ready.(rg_operation_id) resolved_identity token_summary
       request.(ser_started_at_ns) operation_deadline_ns activation main_job_id);
  mret {| sed_ready := ready; sed_job_id := initial.(isj_job_id); sed_operation_event := operation_event;
          sed_cleared_skipped := cleared_skipped; sed_service_transition := service_transition;
          sed_job_event := initial.(isj_job_event); sed_job_kind := initial.(isj_job_kind) |}.

(** The pending check of a start in one step is the one exit that does not
    keep the service table: a Skipped service that was cleared is Skipped
    again. *)
Definition begin_ready_start (request : StartExecutionRequest) : Start StartExecutionOutcome :=
  let ready := request.(ser_ready) in
  before ← exec_get xs_services;
  atomic (
    cleared_skipped ← clear_skipped_for_explicit_start ready.(rg_service) ready.(rg_transition_cause);
    activation ← exec_get (λ s, prepare_activation_snapshot ready.(rg_service) s.(xs_services));
    activation ← exec_lift (map_err SeServiceTable activation);
    '(operation_event, operation_deadline_ns) ← start_released_operation request activation.(as_definition);
    decision ← exec_get (λ s,
      evaluate_cacheable_pre_start_checks s.(xs_services) ready.(rg_service) activation.(as_definition));
    match decision with
    | DecPassed =>
        dispatch ← launch_ready_start request request.(ser_resolved_identity) request.(ser_token_summary)
                     activation cleared_skipped operation_event operation_deadline_ns;
        mret (OutJob dispatch)
    | DecSkipped reason =>
        '(transition, completed) ← skip_service ready.(rg_service) ready.(rg_operation_id)
          request.(ser_started_at_ns) (skip_cause reason) (skip_message reason);
        graph_events ← on_graph SeGraph (apply_operation_satisfied ready.(rg_operation_id));
        mret (OutTerminal {| std_ready := ready; std_outcome := skip_outcome reason;
          std_operation_events := [operation_event; completed];
          std_service_transitions := option_list cleared_skipped ++ [transition];
          std_graph_events := graph_events |})
    | DecAssertionFailed check =>
        failure ← exec_map_err SeStartFailure (apply_start_failure
          (assertion_failure ready.(rg_service) ready.(rg_operation_id) request.(ser_started_at_ns)
             (assertion_message check)));
        mret (OutTerminal {| std_ready := ready; std_outcome := OutAssertionFailed (format_check check);
          std_operation_events := operation_event :: failure.(sfd_operation_events);
          std_service_transitions := option_list cleared_skipped ++ failure.(sfd_service_transitions);
          std_graph_events := failure.(sfd_graph_events) |})
    | DecRequiresFilesystemHelper checks =>
        registration ← on_start_with (record_pending_pre_start_check
          (pending_check_new ready.(rg_operation_id) ready.(rg_service) activation checks
             request.(ser_started_at_ns) operation_deadline_ns
             (PendGraph ready request.(ser_resolved_identity) request.(ser_token_summary)) cleared_skipped));
        _ ← exec_update (set_services before);
        mret (OutCheckPending {| scp_ready := ready; scp_operation_event := operation_event;
          scp_service := ready.(rg_service); scp_operation_id := ready.(rg_operation_id);
          scp_checks := registration.(reg_checks); scp_helper_cgroup_id := registration.(reg_helper_cgroup_id) |})
    end).

(** ** A start in two steps ([graph_precheck.rs], [pre_dependency.rs]) *)

Definition PRECHECK_PRUNED_REASON : string :=
  "DependencyPruned: dependency was not resolved because dependent precheck did not pass".

Definition cancel_pruned_operations (pruned : list GraphPrunedOperation) (observed_at_ns : Z)
    : Start (list OperationEvent) :=
  exec_each (λ p, on_operations SeOperationStore
    (cancel_operation p.(gp_operation_id) observed_at_ns PRECHECK_PRUNED_REASON)) pruned.

Definition cancel_dormant_dependencies (operation_id : OperationId) (observed_at_ns : Z)
    : Start (list OperationEvent) :=
  pruned ← on_graph SeGraph (prune_dormant_dependencies operation_id);
  cancel_pruned_operations pruned observed_at_ns.

Record PendingPreDependencyFailure : Type := {
  pdf_operation_events : list OperationEvent;
  pdf_service_transitions : list ServiceTableTransition;
  pdf_graph_events : list GraphExecutionEvent;
}.

Definition apply_pending_pre_dependency_failure (operation_id : OperationId) (failed_at_ns : Z)
    (failure_cause : TransitionCause) (reason : string) : Start PendingPreDependencyFailure :=
  graph_events ← on_graph SeGraph (apply_operation_failed operation_id);
  failed ← exec_each (λ event,
    let '(cause, result) :=
      if bool_decide (event.(ge_operation_id) = operation_id) then (failure_cause, reason)
      else (TcDependencyFailure, DEPENDENCY_FAILURE_REASON) in
    transition ← on_services SeServiceTable
      (transition_service event.(ge_service) {| st_to := StFailed; st_cause := cause |});
    operation_event ← on_operations SeOperationStore
      (fail_operation event.(ge_operation_id) failed_at_ns result);
    mret (transition, operation_event)) graph_events;
  cancelled ← cancel_dormant_dependencies operation_id failed_at_ns;
  mret {| pdf_operation_events := map snd failed ++ cancelled; pdf_service_transitions := map fst failed;
          pdf_graph_events := graph_events |}.

Definition precheck_passed (request : StartExecutionRequest) (activation : ServiceActivationSnapshot)
    (cleared_skipped : option ServiceTableTransition) : Start GraphPreStartCheckOutcome :=
  let ready := request.(ser_ready) in
  _ ← on_start (record_prechecked_graph_start {|
        pg_ready := ready; pg_activation := activation;
        pg_resolved_identity := request.(ser_resolved_identity);
        pg_token_summary := request.(ser_token_summary);
        pg_checked_at_ns := request.(ser_started_at_ns);
        pg_cleared_skipped := cleared_skipped |});
  graph_context_ids ← on_graph SeGraph (apply_pre_start_check_passed ready.(rg_operation_id));
  mret (GpPassed {| gpp_ready := ready; gpp_service := ready.(rg_service);
                    gpp_operation_id := ready.(rg_operation_id); gpp_graph_context_ids := graph_context_ids |}).

Definition precheck_skipped (request : StartExecutionRequest) (reason : SkipReason)
    (cleared_skipped : option ServiceTableTransition) : Start StartTerminalDispatch :=
  let ready := request.(ser_ready) in
  '(transition, completed) ← skip_service ready.(rg_service) ready.(rg_operation_id)
    request.(ser_started_at_ns) (skip_cause reason) (skip_message reason);
  graph_events ← on_graph SeGraph (apply_operation_satisfied ready.(rg_operation_id));
  cancelled ← cancel_dormant_dependencies ready.(rg_operation_id) request.(ser_started_at_ns);
  mret {| std_ready := ready; std_outcome := skip_outcome reason;
          std_operation_events := completed :: cancelled;
          std_service_transitions := option_list cleared_skipped ++ [transition];
          std_graph_events := graph_events |}.

Definition precheck_assertion_failed (request : StartExecutionRequest) (check : ServiceCheck)
    (cleared_skipped : option ServiceTableTransition) : Start GraphPreStartCheckOutcome :=
  let ready := request.(ser_ready) in
  failure ← apply_pending_pre_dependency_failure ready.(rg_operation_id) request.(ser_started_at_ns)
    TcAssertionError (assertion_message check);
  mret (GpTerminal {| std_ready := ready; std_outcome := OutAssertionFailed (format_check check);
          std_operation_events := failure.(pdf_operation_events);
          std_service_transitions := option_list cleared_skipped ++ failure.(pdf_service_transitions);
          std_graph_events := failure.(pdf_graph_events) |}).

Definition precheck_filesystem_pending (request : StartExecutionRequest) (activation : ServiceActivationSnapshot)
    (checks : list ServiceCheck) (cleared_skipped : option ServiceTableTransition)
    : Start GraphPreStartCheckOutcome :=
  let ready := request.(ser_ready) in
  record ← get_operation ready.(rg_operation_id);
  registration ← on_start_with (record_pending_pre_start_check
    (pending_check_new ready.(rg_operation_id) ready.(rg_service) activation checks request.(ser_started_at_ns)
       (start_operation_deadline_ns record activation.(as_definition) request.(ser_started_at_ns))
       (PendGraphPreDependency ready request.(ser_resolved_identity) request.(ser_token_summary)) cleared_skipped));
  mret (GpCheckPending {| gpd_ready := ready; gpd_service := ready.(rg_service);
          gpd_operation_id := ready.(rg_operation_id); gpd_checks := registration.(reg_checks);
          gpd_helper_cgroup_id := registration.(reg_helper_cgroup_id) |}).

Definition begin_graph_pre_start_check (request : StartExecutionRequest) : Start GraphPreStartCheckOutcome :=
  let ready := request.(ser_ready) in
  atomic (
    cleared_skipped ← clear_skipped_for_explicit_start ready.(rg_service) ready.(rg_transition_cause);
    activation ← exec_get (λ s, prepare_activation_snapshot ready.(rg_service) s.(xs_services));
    activation ← exec_lift (map_err SeServiceTable activation);
    decision ← exec_get (λ s,
      evaluate_cacheable_pre_start_checks s.(xs_services) ready.(rg_service) activation.(as_definition));
    match decision with
    | DecPassed => precheck_passed request activation cleared_skipped
    | DecSkipped reason =>
        terminal ← precheck_skipped request reason cleared_skipped; mret (GpTerminal terminal)
    | DecAssertionFailed check => precheck_assertion_failed request check cleared_skipped
    | DecRequiresFilesystemHelper checks => precheck_filesystem_pending request activation checks cleared_skipped
    end).

Definition begin_prechecked_ready_start (request : StartExecutionRequest) : Start PrecheckedReadyStartOutcome :=
  let ready := request.(ser_ready) in
  atomic (
    prechecked ← require (SeMissingPrecheckedGraphStart ready.(rg_operation_id))
      (λ s, s.(xs_start).(ses_prechecked) !! ready.(rg_operation_id));
    _ ← on_start (remove_prechecked_graph_start ready.(rg_operation_id));
    unavailable ← exec_get (λ s,
      tty_unavailable s.(xs_services) ready.(rg_service) prechecked.(pg_activation).(as_definition));
    match unavailable with
    | Some reason =>
        terminal ← precheck_skipped request reason prechecked.(pg_cleared_skipped); mret (PrTerminal terminal)
    | None =>
        '(operation_event, operation_deadline_ns) ←
          start_released_operation request prechecked.(pg_activation).(as_definition);
        dispatch ← launch_ready_start request prechecked.(pg_resolved_identity) prechecked.(pg_token_summary)
                     prechecked.(pg_activation) prechecked.(pg_cleared_skipped) operation_event operation_deadline_ns;
        mret (PrJob dispatch)
    end).
End Begin.
