(* ===== verification/StartRun.v ===== *)
(** * Carrying a start through

    Models what follows the beginning of a start: the start leg of a restart
    ([src/src/execution/start/restart.rs]), the completion and the timeout of
    filesystem checks ([start/pre_start_check/]), the ends of the hooks before
    and after the main process ([start/terminal.rs], [start/terminal_apply.rs],
    [start/event.rs], [start/post/]), the timeouts of a start
    ([start/timeout/]), a main process that has started
    ([execution/job_started/]) and one that has ended
    ([execution/job_terminal/]). *)

From S2P Require Import Prelude RustStr ServiceRuntime ServiceDef Ids Restart Cgroup ServiceTable FailureDispatch.
From S2P Require Import OperationRecord OperationStore ExecCommand ExecGraph JobRecord JobStore.
From S2P Require Import Effects StartState StartBegin.
From stdpp Require Import pretty.
From Stdlib Require Import String.
Open Scope string_scope.
Open Scope list_scope.
Open Scope Z_scope.

Section Run.
Context {P BoundaryError : Type} `{!ProcessController P BoundaryError}.
Notation Error := (StartExecutionError BoundaryError).
Notation Start := (Step P Error).

(** [controller.kill_cgroup(id).map_err(..)?]. *)
Definition kill {E} (wrap : BoundaryError → E) (cgroup_id : string) : Step P E unit :=
  exec_on xs_controller set_controller wrap (kill_cgroup cgroup_id).

(** ** The start leg of a restart ([restart.rs]) *)

Record RestartStartExecutionRequest : Type := {
  rsr_service : string;
  rsr_operation_id : OperationId;
  rsr_resolved_identity : string;
  rsr_token_summary : TokenSummary;
  rsr_started_at_ns : Z;
}.

Record RestartStartExecutionDispatch : Type := {
  rsd_service : string;
  rsd_operation_id : OperationId;
  rsd_job_id : JobId;
  rsd_service_transition : ServiceTableTransition;
  rsd_job_event : JobEvent;
  rsd_job_kind : StartExecutionJobKind;
}.

Record RestartStartExecutionTerminalDispatch : Type := {
  rst_service : string;
  rst_operation_id : OperationId;
  rst_outcome : StartPreCheckTerminalOutcome;
  rst_operation_events : list OperationEvent;
  rst_service_transitions : list ServiceTableTransition;
  rst_graph_events : list GraphExecutionEvent;
}.

Record RestartStartExecutionCheckPendingDispatch : Type := {
  rsp_service : string;
  rsp_operation_id : OperationId;
  rsp_service_transition : ServiceTableTransition;
  rsp_checks : list ServiceCheck;
  rsp_helper_cgroup_id : string;
}.

Inductive RestartStartExecutionOutcome : Type :=
| RsJob (dispatch : RestartStartExecutionDispatch)
| RsTerminal (dispatch : RestartStartExecutionTerminalDispatch)
| RsCheckPending (dispatch : RestartStartExecutionCheckPendingDispatch).

Definition invalid_restart_start (request : RestartStartExecutionRequest) (state : OperationState) : Error :=
  SeOperationStore (OpTransition (OpInvalidTransition request.(rsr_operation_id) state ActStart)).

Definition validate_restart_operation (request : RestartStartExecutionRequest) (operations : OperationStore)
    : Result unit Error :=
  match operations.(op_records) !! request.(rsr_operation_id) with
  | None => Err (SeOperationStore (UnknownOperation request.(rsr_operation_id)))
  | Some operation =>
      if bool_decide (operation.(or_operation_type) ≠ OpRestart) ||
         bool_decide (operation.(or_service) ≠ request.(rsr_service))
      then Err (invalid_restart_start request operation.(or_state))
      else if bool_decide (operation.(or_state) ≠ OsRunning)
      then Err (invalid_restart_start request operation.(or_state))
      else Ok tt
  end.

Definition begin_restart_start_leg (request : RestartStartExecutionRequest) : Start RestartStartExecutionOutcome :=
  let service := request.(rsr_service) in
  let operation_id := request.(rsr_operation_id) in
  valid ← exec_get (λ s, validate_restart_operation request s.(xs_operations));
  _ ← exec_lift valid;
  atomic (
    activation ← exec_get (λ s, prepare_activation_snapshot service s.(xs_services));
    activation ← exec_lift (map_err SeServiceTable activation);
    record ← get_operation operation_id;
    let operation_deadline_ns :=
      start_operation_deadline_ns record activation.(as_definition) request.(rsr_started_at_ns) in
    service_transition ← on_services SeServiceTable
      (transition_service service {| st_to := StStarting; st_cause := TcExplicitStart |});
    decision ← exec_get (λ s,
      evaluate_cacheable_pre_start_checks s.(xs_services) service activation.(as_definition));
    match decision with
    | DecPassed =>
        main_job_id ← allocate_job_id SeJobIdAllocation request.(rsr_started_at_ns);
        initial ← create_initial_start_job
          (initial_request service operation_id request.(rsr_resolved_identity) request.(rsr_token_summary)
             request.(rsr_started_at_ns) operation_deadline_ns activation main_job_id);
        mret (RsJob {| rsd_service := service; rsd_operation_id := operation_id;
          rsd_job_id := initial.(isj_job_id); rsd_service_transition := service_transition;
          rsd_job_event := initial.(isj_job_event); rsd_job_kind := initial.(isj_job_kind) |})
    | DecSkipped reason =>
        '(skipped, completed) ← skip_service service operation_id request.(rsr_started_at_ns)
          (skip_cause reason) (skip_message reason);
        mret (RsTerminal {| rst_service := service; rst_operation_id := operation_id;
          rst_outcome := skip_outcome reason; rst_operation_events := [completed];
          rst_service_transitions := [service_transition; skipped]; rst_graph_events := [] |})
    | DecAssertionFailed check =>
        failure ← exec_map_err SeStartFailure (apply_start_failure
          (assertion_failure service operation_id request.(rsr_started_at_ns) (assertion_message check)));
        mret (RsTerminal {| rst_service := service; rst_operation_id := operation_id;
          rst_outcome := OutAssertionFailed (format_check check);
          rst_operation_events := failure.(sfd_operation_events);
          rst_service_transitions := service_transition :: failure.(sfd_service_transitions);
          rst_graph_events := failure.(sfd_graph_events) |})
    | DecRequiresFilesystemHelper checks =>
        registration ← on_start_with (record_pending_pre_start_check
          (pending_check_new operation_id service activation checks request.(rsr_started_at_ns)
             operation_deadline_ns
             (PendRestart request.(rsr_resolved_identity) request.(rsr_token_summary)) None));
        mret (RsCheckPending {| rsp_service := service; rsp_operation_id := operation_id;
          rsp_service_transition := service_transition; rsp_checks := registration.(reg_checks);
          rsp_helper_cgroup_id := registration.(reg_helper_cgroup_id) |})
    end).

(** ** The end of a filesystem check ([pre_start_check/]) *)

Record PreStartCheckCompletionDispatch : Type := {
  pcd_result_fd : Z;
  pcd_job_id : option JobId;
  pcd_job_event : option JobEvent;
  pcd_job_kind : option StartExecutionJobKind;
  pcd_operation_events : list OperationEvent;
  pcd_service_transitions : list ServiceTableTransition;
  pcd_graph_events : list GraphExecutionEvent;
  pcd_graph_context_ids : list GraphContextId;
}.

(** A completion without a job. *)
Definition completion_without_job (result_fd : Z) (operation_events : list OperationEvent)
    (service_transitions : list ServiceTableTransition) (graph_events : list GraphExecutionEvent)
    (graph_context_ids : list GraphContextId) : PreStartCheckCompletionDispatch := {|
  pcd_result_fd := result_fd; pcd_job_id := None; pcd_job_event := None; pcd_job_kind := None;
  pcd_operation_events := operation_events; pcd_service_transitions := service_transitions;
  pcd_graph_events := graph_events; pcd_graph_context_ids := graph_context_ids;
|}.

(** The job of a start whose check passed. *)
Definition check_passed_job (result_fd : Z) (pending : PendingPreStartCheck) (operation_id : OperationId)
    (resolved_identity : string) (token_summary : TokenSummary)
    (service_transition : option ServiceTableTransition) (job_id : JobId) : Start PreStartCheckCompletionDispatch :=
  initial ← create_initial_start_job
    (initial_request pending.(pc_service) operation_id resolved_identity token_summary
       pending.(pc_started_at_ns) pending.(pc_operation_deadline_ns) pending.(pc_activation) job_id);
  mret {| pcd_result_fd := result_fd; pcd_job_id := Some initial.(isj_job_id);
          pcd_job_event := Some initial.(isj_job_event); pcd_job_kind := Some initial.(isj_job_kind);
          pcd_operation_events := [];
          pcd_service_transitions := option_list pending.(pc_cleared_skipped) ++ option_list service_transition;
          pcd_graph_events := []; pcd_graph_context_ids := [] |}.

Definition apply_check_passed (result_fd : Z) (pending : PendingPreStartCheck)
    : Start PreStartCheckCompletionDispatch :=
  match pending.(pc_start) with
  | PendGraph ready resolved_identity token_summary =>
      transition ← on_services SeServiceTable
        (transition_service ready.(rg_service) {| st_to := StStarting; st_cause := ready.(rg_transition_cause) |});
      job_id ← job_id_for_ready_start ready.(rg_reserved_job_id) pending.(pc_started_at_ns);
      check_passed_job result_fd pending ready.(rg_operation_id) resolved_identity token_summary (Some transition) job_id
  | PendGraphPreDependency ready resolved_identity token_summary =>
      _ ← on_start (record_prechecked_graph_start {|
            pg_ready := ready; pg_activation := pending.(pc_activation);
            pg_resolved_identity := resolved_identity; pg_token_summary := token_summary;
            pg_checked_at_ns := pending.(pc_started_at_ns);
            pg_cleared_skipped := pending.(pc_cleared_skipped) |});
      graph_context_ids ← on_graph SeGraph (apply_pre_start_check_passed pending.(pc_operation_id));
      mret (completion_without_job result_fd [] [] [] graph_context_ids)
  | PendRestart resolved_identity token_summary =>
      job_id ← allocate_job_id SeJobIdAllocation pending.(pc_started_at_ns);
      check_passed_job result_fd pending pending.(pc_operation_id) resolved_identity token_summary None job_id
  end.

Definition is_graph_start (start : PendingPreStartCheckStart) : bool :=
  match start with PendGraph _ _ _ | PendGraphPreDependency _ _ _ => true | PendRestart _ _ => false end.

Definition apply_check_skipped (result_fd : Z) (pending : PendingPreStartCheck) (cause : TransitionCause)
    (reason : string) : Start PreStartCheckCompletionDispatch :=
  '(transition, operation_event) ← skip_service pending.(pc_service) pending.(pc_operation_id)
    pending.(pc_started_at_ns) cause reason;
  graph_events ← (if is_graph_start pending.(pc_start)
    then on_graph SeGraph (apply_operation_satisfied pending.(pc_operation_id)) else mret []);
  pruned ← (if is_graph_start pending.(pc_start)
    then cancel_dormant_dependencies pending.(pc_operation_id) pending.(pc_started_at_ns) else mret []);
  mret (completion_without_job result_fd (operation_event :: pruned)
          (option_list pending.(pc_cleared_skipped) ++ [transition]) graph_events []).

Definition apply_check_assertion_failed (result_fd : Z) (pending : PendingPreStartCheck) (reason : string)
    : Start PreStartCheckCompletionDispatch :=
  let finish operation_events service_transitions graph_events :=
    completion_without_job result_fd operation_events
      (option_list pending.(pc_cleared_skipped) ++ service_transitions) graph_events [] in
  match pending.(pc_start) with
  | PendGraphPreDependency _ _ _ =>
      failure ← apply_pending_pre_dependency_failure pending.(pc_operation_id) pending.(pc_started_at_ns)
        TcAssertionError reason;
      mret (finish failure.(pdf_operation_events) failure.(pdf_service_transitions) failure.(pdf_graph_events))
  | _ =>
      failure ← exec_map_err SeStartFailure (apply_start_failure
        (assertion_failure pending.(pc_service) pending.(pc_operation_id) pending.(pc_started_at_ns) reason));
      mret (finish failure.(sfd_operation_events) failure.(sfd_service_transitions) failure.(sfd_graph_events))
  end.

Definition complete_pre_start_check_from_pending (result_fd : Z) (pending : PendingPreStartCheck)
    (results : list FilesystemCheckResult) : Start PreStartCheckCompletionDispatch :=
  decision ← exec_get (λ s, evaluate_pre_start_checks_with_filesystem_results s.(xs_services)
    pending.(pc_service) pending.(pc_activation).(as_definition) results);
  match decision with
  | DecPassed => apply_check_passed result_fd pending
  | DecSkipped reason => apply_check_skipped result_fd pending (skip_cause reason) (skip_message reason)
  | DecAssertionFailed check => apply_check_assertion_failed result_fd pending (assertion_message check)
  | DecRequiresFilesystemHelper _ =>
      exec_fail (SeUnexpectedFilesystemCheckContinuation pending.(pc_operation_id))
  end.

Definition complete_pre_start_check_helper (result_fd : Z) (report : FilesystemCheckReport)
    : Start PreStartCheckCompletionDispatch :=
  atomic (
    running ← on_start_with (remove_running_helper_by_result_fd result_fd);
    running ← exec_lift (ok_or running (SeUnknownPreStartCheckHelper result_fd));
    if bool_decide (running.(rh_pending).(pc_operation_id) ≠ report.(frp_operation_id)) then
      exec_fail (SeMismatchedPreStartCheckReport running.(rh_pending).(pc_operation_id) report.(frp_operation_id))
    else complete_pre_start_check_from_pending result_fd running.(rh_pending) report.(frp_results)).

Definition failed_results (pending : PendingPreStartCheck) : list FilesystemCheckResult :=
  map (λ check, {| fr_check := check; fr_satisfied := false |}) pending.(pc_checks).

Record PreStartCheckTimeoutDispatch : Type := {
  pct_completion : PreStartCheckCompletionDispatch;
  pct_pidfd : Z;
  pct_killed_cgroup_id : string;
  pct_timed_out_at_ns : Z;
}.

Definition timeout_pre_start_check_helper (deadline : PreStartCheckDeadline) (now_ns : Z)
    : Start PreStartCheckTimeoutDispatch :=
  atomic (
    _ ← on_start (remove_pre_start_check_deadline deadline.(cd_operation_id));
    running ← on_start_with (remove_running_helper_by_operation_id deadline.(cd_operation_id));
    running ← exec_lift (ok_or running (SeUnknownPreStartCheckHelper deadline.(cd_result_fd)));
    _ ← kill SeBoundary deadline.(cd_helper_cgroup_id);
    completion ← complete_pre_start_check_from_pending deadline.(cd_result_fd) running.(rh_pending)
      (failed_results running.(rh_pending));
    mret {| pct_completion := completion; pct_pidfd := deadline.(cd_pidfd);
            pct_killed_cgroup_id := deadline.(cd_helper_cgroup_id); pct_timed_out_at_ns := now_ns |}).

(** ** Hooks before the main process ([event.rs], [terminal.rs], [terminal_apply.rs]) *)

Record HookTerminalDispatch : Type := {
  htd_job_event : JobEvent;
  htd_next_job_event : option JobEvent;
  htd_operation_events : list OperationEvent;
  htd_service_transitions : list ServiceTableTransition;
  htd_graph_events : list GraphExecutionEvent;
  htd_killed_cgroup_id : option string;
}.

Definition validate_pre_start_hook_terminal_event (job_event : JobEvent) : Result unit Error :=
  if bool_decide (job_event.(je_job_type) ≠ JtPreExecHook)
  then Err (SeNotPreExecHookJob job_event.(je_job_id) job_event.(je_job_type))
  else if negb (job_is_terminal job_event.(je_state))
  then Err (SeNotTerminalJobEvent job_event.(je_job_id) job_event.(je_state))
  else Ok tt.

Definition event_service (job_event : JobEvent) : Result string Error :=
  ok_or job_event.(je_service) (SeMissingService job_event.(je_job_id)).

Definition event_operation_id (job_event : JobEvent) (service : string) : Result OperationId Error :=
  ok_or job_event.(je_operation_id) (SeMissingOperation job_event.(je_job_id) service).

Definition hook_succeeded (job_event : JobEvent) : bool :=
  match job_event.(je_detail) with
  | JevEnded _ _ (Some 0) None None => true
  | _ => false
  end.

Definition event_ended_at_ns (job_event : JobEvent) : Result Z Error :=
  match job_event.(je_detail) with
  | JevEnded ended_at_ns _ _ _ _ => Ok ended_at_ns
  | _ => Err (SeNotTerminalJobEvent job_event.(je_job_id) job_event.(je_state))
  end.

Definition pre_start_hook_failure_reason (job_event : JobEvent) : Result string Error :=
  match job_event.(je_detail) with
  | JevEnded _ _ (Some code) _ _ => Ok ("ExecStartPre command failed (exit " +:+ pretty code +:+ ")")
  | JevEnded _ _ None (Some signal) _ => Ok ("ExecStartPre command failed (signal " +:+ pretty signal +:+ ")")
  | JevEnded _ _ None None (Some cause) => Ok ("ExecStartPre command failed (" +:+ cause +:+ ")")
  | JevEnded _ _ None None None => Ok "ExecStartPre command failed"
  | _ => Err (SeNotTerminalJobEvent job_event.(je_job_id) job_event.(je_state))
  end.

Definition create_next_hook (job_event : JobEvent) (sequence : PreStartHookSequence) (command : list string)
    (created_at_ns : Z) : Start HookTerminalDispatch :=
  job_id ← allocate_job_id SeJobIdAllocation created_at_ns;
  job ← exec_lift (map_err SeHookJob (new_pre_exec_hook job_id {|
    hk_service := sequence.(hs_definition);
    hk_argv := command;
    hk_hook_index := Some (Z.of_nat sequence.(hs_next_index));
    hk_resolved_identity := hook_execution_identity sequence.(hs_definition);
    hk_token_summary := requested_identity (hook_execution_identity sequence.(hs_definition));
    hk_activation_generation := sequence.(hs_activation_generation);
    hk_cgroup_generation := sequence.(hs_cgroup_generation);
    hk_operation_id := sequence.(hs_operation_id);
    hk_created_at_ns := created_at_ns |}));
  next_job_event ← on_jobs SeJobStore (create_job job);
  let sequence := pre_advance sequence in
  _ ← on_start (record_pre_start_sequence sequence);
  _ ← on_start (record_pre_start_hook_deadline (pre_start_hook_deadline sequence job_id));
  mret {| htd_job_event := job_event; htd_next_job_event := Some next_job_event; htd_operation_events := [];
          htd_service_transitions := []; htd_graph_events := []; htd_killed_cgroup_id := None |}.

Definition create_main_after_hooks (job_event : JobEvent) (sequence : PreStartHookSequence) (created_at_ns : Z)
    : Start HookTerminalDispatch :=
  _ ← on_start (remove_pre_start_sequence sequence.(hs_operation_id));
  let hooks_cgroup_id := (pre_start_hook_deadline sequence job_event.(je_job_id)).(hd_hooks_cgroup_id) in
  _ ← kill SeBoundary hooks_cgroup_id;
  next_job_event ← on_jobs SeJobStore (create_job (new_service_main sequence.(hs_main_job_id) {|
    ms_service := sequence.(hs_definition);
    ms_resolved_identity := sequence.(hs_resolved_identity);
    ms_token_summary := sequence.(hs_token_summary);
    ms_activation_generation := sequence.(hs_activation_generation);
    ms_cgroup_generation := sequence.(hs_cgroup_generation);
    ms_operation_id := sequence.(hs_operation_id);
    ms_created_at_ns := created_at_ns |}));
  _ ← match readiness_deadline sequence with
      | Some deadline => on_start (record_readiness_deadline deadline)
      | None => mret tt
      end;
  mret {| htd_job_event := job_event; htd_next_job_event := Some next_job_event; htd_operation_events := [];
          htd_service_transitions := []; htd_graph_events := []; htd_killed_cgroup_id := Some hooks_cgroup_id |}.

Definition apply_pre_start_hook_success (job_event : JobEvent) (sequence : PreStartHookSequence)
    (created_at_ns : Z) : Start HookTerminalDispatch :=
  match pre_next_command sequence with
  | Some command => create_next_hook job_event sequence command created_at_ns
  | None => create_main_after_hooks job_event sequence created_at_ns
  end.

Definition apply_pre_start_hook_failure (job_event : JobEvent) (sequence : PreStartHookSequence)
    (failed_at_ns : Z) : Start HookTerminalDispatch :=
  _ ← on_start (remove_pre_start_sequence sequence.(hs_operation_id));
  let service_cgroup_id := (pre_start_hook_deadline sequence job_event.(je_job_id)).(hd_service_cgroup_id) in
  _ ← kill SeBoundary service_cgroup_id;
  reason ← exec_lift (pre_start_hook_failure_reason job_event);
  failure ← exec_map_err SeStartFailure (apply_start_failure {|
    sfr_service := sequence.(hs_service);
    sfr_operation_id := sequence.(hs_operation_id);
    sfr_failed_at_ns := failed_at_ns;
    sfr_failure_cause := TcPreHookFailure;
    sfr_reason := reason;
    sfr_exit_code := None |});
  mret {| htd_job_event := job_event; htd_next_job_event := None;
          htd_operation_events := failure.(sfd_operation_events);
          htd_service_transitions := failure.(sfd_service_transitions);
          htd_graph_events := failure.(sfd_graph_events); htd_killed_cgroup_id := Some service_cgroup_id |}.

Definition complete_pre_start_hook_job (job_event : JobEvent) : Start HookTerminalDispatch :=
  _ ← exec_lift (validate_pre_start_hook_terminal_event job_event);
  service ← exec_lift (event_service job_event);
  operation_id ← exec_lift (event_operation_id job_event service);
  atomic (
    _ ← on_start (remove_pre_start_hook_deadline operation_id);
    sequence ← require (SeMissingPreStartHookSequence operation_id)
      (λ s, s.(xs_start).(ses_pre_sequences) !! operation_id);
    ended_at_ns ← exec_lift (event_ended_at_ns job_event);
    if hook_succeeded job_event then apply_pre_start_hook_success job_event sequence ended_at_ns
    else apply_pre_start_hook_failure job_event sequence ended_at_ns).

(** ** Readiness and the hooks after it ([post/]) *)

Record StartReadyRequest : Type := {
  srr_service : string;
  srr_operation_id : OperationId;
  srr_job_id : JobId;
  srr_job_created_at_ns : Z;
  srr_activation_generation : Z;
  srr_cgroup_generation : Z;
  srr_ready_at_ns : Z;
  srr_result : string;
}.

Record StartReadyDispatch : Type := {
  srd_operation_events : list OperationEvent;
  srd_service_transitions : list ServiceTableTransition;
  srd_graph_events : list GraphExecutionEvent;
  srd_post_start_hook : option JobEvent;
}.

Definition parse_post_start_hooks (definition : ServiceDefinition) : Result (list (list string)) Error :=
  parse_hook_commands (SeInvalidExecStartPostCommand definition.(sd_name)) 0 definition.(sd_exec_start_post).

Definition post_start_hook_job (sequence : PostStartHookSequence) (job_id : JobId) (argv : list string)
    (hook_index : nat) (created_at_ns : Z) : Result JobRecord Error :=
  map_err SeHookJob (new_post_exec_hook job_id {|
    hk_service := sequence.(qs_definition);
    hk_argv := argv;
    hk_hook_index := Some (Z.of_nat hook_index);
    hk_resolved_identity := sequence.(qs_resolved_identity);
    hk_token_summary := sequence.(qs_token_summary);
    hk_activation_generation := sequence.(qs_activation_generation);
    hk_cgroup_generation := sequence.(qs_cgroup_generation);
    hk_operation_id := sequence.(qs_operation_id);
    hk_created_at_ns := created_at_ns |}).

Definition initial_post_start_sequence (request : StartReadyRequest) (definition : ServiceDefinition)
    (commands : list (list string)) (deadline_ns : Z) : PostStartHookSequence := {|
  qs_service := request.(srr_service);
  qs_operation_id := request.(srr_operation_id);
  qs_definition := definition;
  qs_resolved_identity := hook_execution_identity definition;
  qs_token_summary := requested_identity (hook_execution_identity definition);
  qs_activation_generation := request.(srr_activation_generation);
  qs_cgroup_generation := request.(srr_cgroup_generation);
  qs_commands := commands;
  qs_next_index := 1;
  qs_deadline_ns := deadline_ns;
  qs_readiness_result := request.(srr_result);
  qs_had_failure := false;
|}.

(** The part of [complete_start_readiness] for a service with hooks. *)
Definition begin_post_start_hooks (request : StartReadyRequest) (definition : ServiceDefinition)
    (commands : list (list string)) : Start StartReadyDispatch :=
  let service := request.(srr_service) in
  let operation_id := request.(srr_operation_id) in
  valid ← exec_get (λ s, validate_running_start_operation service operation_id s.(xs_operations));
  _ ← exec_lift (map_err (λ e, SeStartSatisfaction (start_satisfaction_from e)) valid);
  record ← get_operation operation_id;
  to ← satisfied_state SeServiceTable service;
  cause ← exec_get (λ s, start_transition_cause operation_id s.(xs_operations));
  cause ← exec_lift (map_err (λ e, SeStartSatisfaction (start_satisfaction_from e)) cause);
  transition ← on_services SeServiceTable (transition_service service {| st_to := to; st_cause := cause |});
  job_id ← allocate_job_id SeJobIdAllocation request.(srr_ready_at_ns);
  match commands with
  | [] => exec_fail (SeEmptyExecStartPostSequence service)
  | first_command :: _ =>
      let sequence := initial_post_start_sequence request definition commands
        (start_operation_deadline_ns record definition request.(srr_job_created_at_ns)) in
      job ← exec_lift (post_start_hook_job sequence job_id first_command 0 request.(srr_ready_at_ns));
      job_event ← on_jobs SeJobStore (create_job job);
      _ ← on_start (record_post_start_sequence sequence);
      _ ← on_start (record_post_start_hook_deadline (post_start_hook_deadline sequence job_id));
      mret {| srd_operation_events := []; srd_service_transitions := [transition]; srd_graph_events := [];
              srd_post_start_hook := Some job_event |}
  end.

Definition complete_start_readiness (request : StartReadyRequest) : Start StartReadyDispatch :=
  definition ← require (SeServiceTable (UnknownService request.(srr_service)))
    (λ s, table_definition s.(xs_services) request.(srr_service));
  commands ← exec_lift (parse_post_start_hooks definition);
  if bool_decide (commands = []) then
    dispatch ← exec_map_err SeStartSatisfaction (apply_start_satisfaction {|
      ssr_service := request.(srr_service);
      ssr_operation_id := request.(srr_operation_id);
      ssr_satisfied_at_ns := request.(srr_ready_at_ns);
      ssr_result := request.(srr_result) |});
    mret {| srd_operation_events := [dispatch.(ssd_operation_event)];
            srd_service_transitions := dispatch.(ssd_service_transitions);
            srd_graph_events := dispatch.(ssd_graph_events); srd_post_start_hook := None |}
  else atomic (begin_post_start_hooks request definition commands).

Definition post_start_result (sequence : PostStartHookSequence) : string :=
  if sequence.(qs_had_failure) then sequence.(qs_readiness_result) +:+ "; ExecStartPost failure ignored"
  else sequence.(qs_readiness_result) +:+ "; ExecStartPost completed".

Record PostStartCompletion : Type := {
  psc_operation_events : list OperationEvent;
  psc_service_transitions : list ServiceTableTransition;
  psc_graph_events : list GraphExecutionEvent;
}.

Definition complete_post_start_operation (sequence : PostStartHookSequence) (completed_at_ns : Z)
    : Start PostStartCompletion :=
  valid ← exec_get (λ s,
    validate_running_start_operation sequence.(qs_service) sequence.(qs_operation_id) s.(xs_operations));
  _ ← exec_lift (map_err (λ e, SeStartSatisfaction (start_satisfaction_from e)) valid);
  _ ← on_services SeServiceTable (table_mark_dependent_satisfied_since sequence.(qs_service) completed_at_ns);
  operation_event ← on_operations SeOperationStore
    (complete_operation sequence.(qs_operation_id) completed_at_ns (post_start_result sequence));
  graph_events ← on_graph SeGraph (apply_operation_satisfied sequence.(qs_operation_id));
  release ← on_services SeServiceTable (release_completed_oneshot_if_not_retained sequence.(qs_service));
  mret {| psc_operation_events := [operation_event]; psc_service_transitions := option_list release;
          psc_graph_events := graph_events |}.

Definition validate_post_start_hook_terminal_event (job_event : JobEvent) : Result unit Error :=
  if bool_decide (job_event.(je_job_type) ≠ JtPostExecHook)
  then Err (SeNotPostExecHookJob job_event.(je_job_id) job_event.(je_job_type))
  else if negb (job_is_terminal job_event.(je_state))
  then Err (SeNotTerminalJobEvent job_event.(je_job_id) job_event.(je_state))
  else Ok tt.

Definition create_next_post_start_hook (job_event : JobEvent) (sequence : PostStartHookSequence)
    (command : list string) (created_at_ns : Z) : Start HookTerminalDispatch :=
  job_id ← allocate_job_id SeJobIdAllocation created_at_ns;
  job ← exec_lift (post_start_hook_job sequence job_id command sequence.(qs_next_index) created_at_ns);
  next_job_event ← on_jobs SeJobStore (create_job job);
  let sequence := post_advance sequence in
  _ ← on_start (record_post_start_sequence sequence);
  _ ← on_start (record_post_start_hook_deadline (post_start_hook_deadline sequence job_id));
  mret {| htd_job_event := job_event; htd_next_job_event := Some next_job_event; htd_operation_events := [];
          htd_service_transitions := []; htd_graph_events := []; htd_killed_cgroup_id := None |}.

Definition apply_post_start_hook_terminal (job_event : JobEvent) (sequence : PostStartHookSequence)
    (ended_at_ns : Z) : Start HookTerminalDispatch :=
  let sequence := if negb (hook_succeeded job_event) then post_record_failure sequence else sequence in
  match post_next_command sequence with
  | Some command => create_next_post_start_hook job_event sequence command ended_at_ns
  | None =>
      _ ← on_start (remove_post_start_sequence sequence.(qs_operation_id));
      let hooks_cgroup_id := (post_start_hook_deadline sequence job_event.(je_job_id)).(qd_hooks_cgroup_id) in
      _ ← kill SeBoundary hooks_cgroup_id;
      completion ← complete_post_start_operation sequence ended_at_ns;
      mret {| htd_job_event := job_event; htd_next_job_event := None;
              htd_operation_events := completion.(psc_operation_events);
              htd_service_transitions := completion.(psc_service_transitions);
              htd_graph_events := completion.(psc_graph_events);
              htd_killed_cgroup_id := Some hooks_cgroup_id |}
  end.

Definition complete_post_start_hook_job (job_event : JobEvent) : Start HookTerminalDispatch :=
  _ ← exec_lift (validate_post_start_hook_terminal_event job_event);
  service ← exec_lift (event_service job_event);
  operation_id ← exec_lift (event_operation_id job_event service);
  atomic (
    _ ← on_start (remove_post_start_hook_deadline operation_id);
    sequence ← require (SeMissingPostStartHookSequence operation_id)
      (λ s, s.(xs_start).(ses_post_sequences) !! operation_id);
    ended_at_ns ← exec_lift (event_ended_at_ns job_event);
    apply_post_start_hook_terminal job_event sequence ended_at_ns).

(** ** Timeouts ([timeout/], [post/timeout.rs]) *)

Record StartTimeoutDispatch : Type := {
  tod_job_event : option JobEvent;
  tod_operation_events : list OperationEvent;
  tod_service_transitions : list ServiceTableTransition;
  tod_graph_events : list GraphExecutionEvent;
  tod_killed_cgroup_id : option string;
  tod_timed_out_at_ns : Z;
}.

Definition SIGKILL : Z := 9.

Definition fail_timed_out_job (job_id : JobId) (now_ns : Z) (before_launch_reason running_reason : string)
    : Start JobEvent :=
  record ← require (SeJobStore (UnknownJob job_id)) (λ s, s.(xs_jobs).(js_records) !! job_id);
  match record.(jr_state) with
  | JsCreated => on_jobs SeJobStore (fail_job_before_start job_id now_ns before_launch_reason)
  | _ => on_jobs SeJobStore (fail_running_job job_id now_ns (Some (Signal 9)) running_reason)
  end.

Definition timeout_failure (service : string) (operation_id : OperationId) (now_ns : Z) (cause : TransitionCause)
    (detail : string) : StartFailureRequest := {|
  sfr_service := service;
  sfr_operation_id := operation_id;
  sfr_failed_at_ns := now_ns;
  sfr_failure_cause := cause;
  sfr_reason := operation_timeout_result detail;
  sfr_exit_code := None;
|}.

Definition timeout_dispatch (job_event : option JobEvent) (failure : StartFailureDispatch)
    (killed_cgroup_id : option string) (now_ns : Z) : StartTimeoutDispatch := {|
  tod_job_event := job_event;
  tod_operation_events := failure.(sfd_operation_events);
  tod_service_transitions := failure.(sfd_service_transitions);
  tod_graph_events := failure.(sfd_graph_events);
  tod_killed_cgroup_id := killed_cgroup_id;
  tod_timed_out_at_ns := now_ns;
|}.

Definition timeout_pre_start_hook (deadline : PreStartHookDeadline) (now_ns : Z) : Start StartTimeoutDispatch :=
  atomic (
    _ ← on_start (remove_pre_start_hook_deadline deadline.(hd_operation_id));
    sequence ← require (SeMissingPreStartHookSequence deadline.(hd_operation_id))
      (λ s, s.(xs_start).(ses_pre_sequences) !! deadline.(hd_operation_id));
    _ ← on_start (remove_pre_start_sequence deadline.(hd_operation_id));
    _ ← kill SeBoundary deadline.(hd_service_cgroup_id);
    job_event ← fail_timed_out_job deadline.(hd_job_id) now_ns "pre-start hook timed out before launch"
      "pre-start hook timed out";
    failure ← exec_map_err SeStartFailure (apply_start_failure
      (timeout_failure sequence.(hs_service) sequence.(hs_operation_id) now_ns TcPreHookFailure
         "ExecStartPre command timed out"));
    mret (timeout_dispatch (Some job_event) failure (Some deadline.(hd_service_cgroup_id)) now_ns)).

Definition fail_killed_main_job (deadline : ReadinessDeadline) (now_ns : Z) : Start (option JobEvent) :=
  running ← exec_get (λ s, is_some_and (s.(xs_jobs).(js_records) !! deadline.(rd_job_id))
                             (λ job, bool_decide (job.(jr_state) = JsRunning)));
  if negb running then mret None
  else
    job_event ← on_jobs SeJobStore
      (fail_running_job deadline.(rd_job_id) now_ns (Some (Signal SIGKILL)) "readiness timed out");
    mret (Some job_event).

Definition timeout_readiness (deadline : ReadinessDeadline) (now_ns : Z) : Start StartTimeoutDispatch :=
  atomic (
    _ ← on_start_with (remove_readiness_deadline deadline.(rd_operation_id));
    _ ← kill SeBoundary deadline.(rd_service_cgroup_id);
    job_event ← fail_killed_main_job deadline now_ns;
    failure ← exec_map_err SeStartFailure (apply_start_failure
      (timeout_failure deadline.(rd_service) deadline.(rd_operation_id) now_ns TcReadinessTimeout
         "start timed out waiting for READY=1"));
    mret (timeout_dispatch job_event failure (Some deadline.(rd_service_cgroup_id)) now_ns)).

Definition timeout_service_main_start (job_id : JobId) (now_ns : Z) : Start StartTimeoutDispatch :=
  atomic (
    job ← require (SeJobStore (UnknownJob job_id)) (λ s, s.(xs_jobs).(js_records) !! job_id);
    service ← exec_lift (ok_or job.(jr_service) (SeMissingService job_id));
    operation_id ← exec_lift (ok_or job.(jr_operation_id) (SeMissingOperation job_id service));
    killed_cgroup_id ← (if bool_decide (job.(jr_state) = JsRunning) then
        let cgroup_id := service_cgroup_root_path service job.(jr_cgroup_generation) in
        _ ← kill SeBoundary cgroup_id;
        mret (Some cgroup_id)
      else mret None);
    job_event ← fail_timed_out_job job_id now_ns "service main timed out before launch" "service main timed out";
    failure ← exec_map_err SeStartFailure (apply_start_failure
      (timeout_failure service operation_id now_ns TcReadinessTimeout "start operation timed out"));
    mret (timeout_dispatch (Some job_event) failure killed_cgroup_id now_ns)).

Definition timeout_post_start_hook (deadline : PostStartHookDeadline) (now_ns : Z) : Start StartTimeoutDispatch :=
  atomic (
    _ ← on_start (remove_post_start_hook_deadline deadline.(qd_operation_id));
    sequence ← require (SeMissingPostStartHookSequence deadline.(qd_operation_id))
      (λ s, s.(xs_start).(ses_post_sequences) !! deadline.(qd_operation_id));
    _ ← on_start (remove_post_start_sequence deadline.(qd_operation_id));
    _ ← kill SeBoundary deadline.(qd_hooks_cgroup_id);
    job_event ← fail_timed_out_job deadline.(qd_job_id) now_ns "post-start hook timed out before launch"
      "post-start hook timed out";
    completion ← complete_post_start_operation (post_record_failure sequence) now_ns;
    mret {| tod_job_event := Some job_event; tod_operation_events := completion.(psc_operation_events);
            tod_service_transitions := completion.(psc_service_transitions);
            tod_graph_events := completion.(psc_graph_events);
            tod_killed_cgroup_id := Some deadline.(qd_hooks_cgroup_id); tod_timed_out_at_ns := now_ns |}).
End Run.
