(* ===== verification/MainProcess.v ===== *)
(** * Main processes that start and end

    Models [src/src/execution/job_started/] and [src/src/execution/job_terminal/]:
    what the start of a service's main process means for a start that waits for
    it, and what its end means in each state of the service. *)

From S2P Require Import Prelude RustStr ServiceRuntime ServiceDef Ids Restart Cgroup ServiceTable FailureDispatch.
From S2P Require Import OperationRecord OperationStore ExecGraph JobRecord JobStore.
From S2P Require Import Effects StartState StartBegin StartRun.
From stdpp Require Import pretty.
From Stdlib Require Import String.
Open Scope string_scope.
Open Scope list_scope.
Open Scope Z_scope.

Section Main.
Context {P BoundaryError : Type}.
Notation StartError := (StartExecutionError BoundaryError).

(** ** A main process that has started ([job_started/]) *)

Inductive ServiceMainJobStartedError : Type :=
| JsNotServiceMainJob (job_id : JobId) (job_type : JobType)
| JsMissingService (job_id : JobId)
| JsMissingOperation (job_id : JobId) (service : string)
| JsNotStartedEvent (job_id : JobId)
| JsUnsupportedServiceState (service : string) (state : ServiceState)
| JsServiceTable (error : ServiceTableError)
| JsStart (error : StartError).

Record ServiceMainJobStartedDispatch : Type := {
  jsd_job_event : JobEvent;
  jsd_operation_events : list OperationEvent;
  jsd_service_transitions : list ServiceTableTransition;
  jsd_graph_events : list GraphExecutionEvent;
  jsd_post_start_hook : option JobEvent;
}.

Definition validate_started_service_main_event (event : JobEvent) : Result Z ServiceMainJobStartedError :=
  if bool_decide (event.(je_job_type) ≠ JtServiceMain)
  then Err (JsNotServiceMainJob event.(je_job_id) event.(je_job_type))
  else if bool_decide (event.(je_service) = None) then Err (JsMissingService event.(je_job_id))
  else match event.(je_detail) with
       | JevStarted started_at_ns _ _ => Ok started_at_ns
       | _ => Err (JsNotStartedEvent event.(je_job_id))
       end.

Definition started_event_service (event : JobEvent) : Result string ServiceMainJobStartedError :=
  ok_or event.(je_service) (JsMissingService event.(je_job_id)).

(** The request a job's event makes of [complete_start_readiness]. *)
Definition ready_request (event : JobEvent) (service : string) (operation_id : OperationId) (ready_at_ns : Z)
    (result : string) : StartReadyRequest := {|
  srr_service := service;
  srr_operation_id := operation_id;
  srr_job_id := event.(je_job_id);
  srr_job_created_at_ns := event.(je_created_at_ns);
  srr_activation_generation := event.(je_activation_generation);
  srr_cgroup_generation := event.(je_cgroup_generation);
  srr_ready_at_ns := ready_at_ns;
  srr_result := result;
|}.

Definition apply_alive_readiness (event : JobEvent) (started_at_ns : Z)
    : Step P ServiceMainJobStartedError ServiceMainJobStartedDispatch :=
  service ← exec_lift (started_event_service event);
  operation_id ← exec_lift (ok_or event.(je_operation_id) (JsMissingOperation event.(je_job_id) service));
  dispatch ← exec_map_err JsStart (complete_start_readiness
    (ready_request event service operation_id started_at_ns "alive readiness: process started"));
  mret {| jsd_job_event := event; jsd_operation_events := dispatch.(srd_operation_events);
          jsd_service_transitions := dispatch.(srd_service_transitions);
          jsd_graph_events := dispatch.(srd_graph_events);
          jsd_post_start_hook := dispatch.(srd_post_start_hook) |}.

Definition apply_service_main_job_started (event : JobEvent)
    : Step P ServiceMainJobStartedError ServiceMainJobStartedDispatch :=
  started_at_ns ← exec_lift (validate_started_service_main_event event);
  service ← exec_lift (started_event_service event);
  definition ← require (JsServiceTable (UnknownService service)) (λ s, table_definition s.(xs_services) service);
  runtime ← require (JsServiceTable (UnknownService service)) (λ s, table_runtime s.(xs_services) service);
  if bool_decide (runtime.(rt_state) ≠ StStarting) then
    exec_fail (JsUnsupportedServiceState service runtime.(rt_state))
  else match definition.(sd_service_type), definition.(sd_readiness) with
       | TypeSimple, ReadyAlive => apply_alive_readiness event started_at_ns
       | _, _ => mret {| jsd_job_event := event; jsd_operation_events := []; jsd_service_transitions := [];
                         jsd_graph_events := []; jsd_post_start_hook := None |}
       end.

(** ** A main process that has ended ([job_terminal/]) *)

Inductive ServiceMainJobTerminalError : Type :=
| JtNotServiceMainJob (job_id : JobId) (job_type : JobType)
| JtMissingService (job_id : JobId)
| JtMissingOperation (job_id : JobId) (service : string)
| JtNotTerminalEvent (job_id : JobId)
| JtMissingStoppingOperation (service : string)
| JtUnsupportedStoppingOperation (service : string) (operation_type : OperationType)
| JtServiceTable (error : ServiceTableError)
| JtOperationStore (error : OperationStoreError)
| JtStart (error : StartError)
| JtStartFailure (error : StartFailureError).

Record ServiceMainJobTerminalDispatch : Type := {
  jtd_job_event : JobEvent;
  jtd_operation_events : list OperationEvent;
  jtd_service_transitions : list ServiceTableTransition;
  jtd_graph_events : list GraphExecutionEvent;
  jtd_post_start_hook : option JobEvent;
  jtd_late_exit : option ServiceState;
}.

Notation Terminal := (Step P ServiceMainJobTerminalError).

Record EndedJob : Type := {
  ej_ended_at_ns : Z;
  ej_exit_code : option Z;
  ej_exit_signal : option Z;
  ej_failure_cause : option string;
}.

Definition is_success_for (self : EndedJob) (definition : ServiceDefinition) : bool :=
  bool_decide (self.(ej_exit_signal) = None) && bool_decide (self.(ej_failure_cause) = None) &&
  is_some_and self.(ej_exit_code) (is_success_exit_code definition).

Definition ended_result (self : EndedJob) : string :=
  match self.(ej_exit_code) with
  | Some code => "exit code " +:+ pretty code
  | None => "completed"
  end.

Definition failure_reason (self : EndedJob) : string :=
  match self.(ej_failure_cause), self.(ej_exit_signal), self.(ej_exit_code) with
  | Some cause, _, _ => cause
  | None, Some signal, _ => "ProcessCrash: signal " +:+ pretty signal
  | None, None, Some code => "ProcessCrash: exit code " +:+ pretty code
  | None, None, None => "ProcessCrash: service-main job ended without exit status"
  end.

Definition validate_terminal_service_main_event (event : JobEvent)
    : Result (string * EndedJob) ServiceMainJobTerminalError :=
  if bool_decide (event.(je_job_type) ≠ JtServiceMain)
  then Err (JtNotServiceMainJob event.(je_job_id) event.(je_job_type))
  else
    let? service := ok_or event.(je_service) (JtMissingService event.(je_job_id)) in
    match event.(je_detail) with
    | JevEnded ended_at_ns _ exit_code exit_signal failure_cause =>
        Ok (service, {| ej_ended_at_ns := ended_at_ns; ej_exit_code := exit_code; ej_exit_signal := exit_signal;
                        ej_failure_cause := failure_cause |})
    | _ => Err (JtNotTerminalEvent event.(je_job_id))
    end.

(** A dispatch that says nothing but what happened to the service. *)
Definition terminal_dispatch (event : JobEvent) (operation_events : list OperationEvent)
    (transitions : list ServiceTableTransition) (late_exit : option ServiceState)
    : ServiceMainJobTerminalDispatch := {|
  jtd_job_event := event; jtd_operation_events := operation_events; jtd_service_transitions := transitions;
  jtd_graph_events := []; jtd_post_start_hook := None; jtd_late_exit := late_exit;
|}.

Definition terminal_operation_id (event : JobEvent) (service : string) : Terminal OperationId :=
  exec_lift (ok_or event.(je_operation_id) (JtMissingOperation event.(je_job_id) service)).

(** *** While it was starting ([start.rs]) *)

Definition apply_oneshot_start_success (service : string) (event : JobEvent) (ended : EndedJob)
    : Terminal ServiceMainJobTerminalDispatch :=
  operation_id ← terminal_operation_id event service;
  dispatch ← exec_map_err JtStart (complete_start_readiness
    (ready_request event service operation_id ended.(ej_ended_at_ns) (ended_result ended)));
  mret {| jtd_job_event := event; jtd_operation_events := dispatch.(srd_operation_events);
          jtd_service_transitions := dispatch.(srd_service_transitions);
          jtd_graph_events := dispatch.(srd_graph_events);
          jtd_post_start_hook := dispatch.(srd_post_start_hook); jtd_late_exit := None |}.

Definition apply_start_process_failure (service : string) (event : JobEvent) (ended : EndedJob)
    : Terminal ServiceMainJobTerminalDispatch :=
  operation_id ← terminal_operation_id event service;
  atomic (
    failure ← exec_map_err JtStartFailure (apply_start_failure {|
      sfr_service := service;
      sfr_operation_id := operation_id;
      sfr_failed_at_ns := ended.(ej_ended_at_ns);
      sfr_failure_cause := TcProcessCrash;
      sfr_reason := failure_reason ended;
      sfr_exit_code := ended.(ej_exit_code) |});
    mret {| jtd_job_event := event; jtd_operation_events := failure.(sfd_operation_events);
            jtd_service_transitions := failure.(sfd_service_transitions);
            jtd_graph_events := failure.(sfd_graph_events);
            jtd_post_start_hook := None; jtd_late_exit := None |}).

(** *** While it was up ([active.rs]) *)

Definition apply_active_transition (service : string) (event : JobEvent) (to : ServiceState)
    (cause : TransitionCause) : Terminal ServiceMainJobTerminalDispatch :=
  atomic (
    transition ← on_services JtServiceTable (transition_service service {| st_to := to; st_cause := cause |});
    mret (terminal_dispatch event [] [transition] None)).

Definition apply_restart_backoff (service : string) (event : JobEvent) (cause : TransitionCause)
    (backoff_until_ns : Z) : Terminal ServiceMainJobTerminalDispatch :=
  atomic (
    transition ← on_services JtServiceTable (transition_service_to_restart_backoff service cause backoff_until_ns);
    mret (terminal_dispatch event [] [transition] None)).

Definition definition_removed (services : gmap string ServiceEntry) (service : string) : bool :=
  is_some_and (services !! service) en_definition_removed.

Definition apply_restart_evaluation (service : string) (event : JobEvent) (definition : ServiceDefinition)
    (ended : EndedJob) (cause : TransitionCause) : Terminal ServiceMainJobTerminalDispatch :=
  removed ← exec_get (λ s, definition_removed s.(xs_services) service);
  if removed : bool then
    match cause with
    | TcCleanExitRestart => apply_active_transition service event StInactive TcCleanExit
    | _ => apply_active_transition service event StFailed cause
    end
  else
    runtime ← require (JtServiceTable (UnknownService service)) (λ s, table_runtime s.(xs_services) service);
    match (evaluate_restart_after_failure definition cause ended.(ej_exit_code)
             runtime.(rt_consecutive_restart_failures)).(re_action) with
    | EvalBackoff cause delay_secs _ =>
        apply_restart_backoff service event cause (backoff_deadline ended.(ej_ended_at_ns) delay_secs)
    | EvalFail cause state => apply_active_transition service event state cause
    end.

Definition apply_active_simple_exit (service : string) (event : JobEvent) (definition : ServiceDefinition)
    (ended : EndedJob) : Terminal ServiceMainJobTerminalDispatch :=
  if is_success_for ended definition then
    if bool_decide (definition.(sd_restart_policy) = PolicyAlways) then
      apply_restart_evaluation service event definition ended TcCleanExitRestart
    else apply_active_transition service event StInactive TcCleanExit
  else apply_restart_evaluation service event definition ended TcProcessCrash.

Definition apply_reloading_simple_exit (service : string) (event : JobEvent) (definition : ServiceDefinition)
    (ended : EndedJob) : Terminal ServiceMainJobTerminalDispatch :=
  apply_restart_evaluation service event definition ended TcProcessCrash.

(** *** While it was being stopped ([stopping.rs]) *)

Definition stopped_state (cause : TransitionCause) : ServiceState :=
  match cause with TcConflictEviction | TcBindsToPropagation => StFailed | _ => StInactive end.

Definition stopped_cause (cause : TransitionCause) : TransitionCause :=
  match cause with
  | TcConflictEviction | TcBindsToPropagation | TcShutdownWave => cause
  | _ => TcExplicitStop
  end.

Definition apply_stopped_transition (service : string) : Terminal ServiceTableTransition :=
  cause ← exec_get (λ s, default TcExplicitStop (table_runtime s.(xs_services) service ≫= rt_cause));
  on_services JtServiceTable
    (transition_service service {| st_to := stopped_state cause; st_cause := stopped_cause cause |}).

Definition apply_stopping_simple_exit (service : string) (event : JobEvent) (ended : EndedJob)
    : Terminal ServiceMainJobTerminalDispatch :=
  operation ← require (JtMissingStoppingOperation service)
    (λ s, current_for_service s.(xs_operations) service);
  if negb match operation.(or_operation_type) with OpStop | OpRestart => true | _ => false end then
    exec_fail (JtUnsupportedStoppingOperation service operation.(or_operation_type))
  else atomic (
    service_transition ← apply_stopped_transition operation.(or_service);
    operation_events ← (if bool_decide (operation.(or_operation_type) = OpStop) then
        completed ← on_operations JtOperationStore
          (complete_operation operation.(or_id) ended.(ej_ended_at_ns) "inactive");
        mret [completed]
      else mret []);
    mret (terminal_dispatch event operation_events [service_transition] None)).

(** *** Each state ([dispatch.rs]) *)

Definition apply_service_main_job_terminal (event : JobEvent) : Terminal ServiceMainJobTerminalDispatch :=
  '(service, ended) ← exec_lift (validate_terminal_service_main_event event);
  definition ← require (JtServiceTable (UnknownService service)) (λ s, table_definition s.(xs_services) service);
  runtime ← require (JtServiceTable (UnknownService service)) (λ s, table_runtime s.(xs_services) service);
  match runtime.(rt_state), definition.(sd_service_type), is_success_for ended definition with
  | StStarting, TypeOneshot, true => apply_oneshot_start_success service event ended
  | StStarting, _, _ => apply_start_process_failure service event ended
  | StActive, TypeSimple, _ => apply_active_simple_exit service event definition ended
  | StReloading, TypeSimple, _ => apply_reloading_simple_exit service event definition ended
  | StStopping, TypeSimple, _ => apply_stopping_simple_exit service event ended
  | state, _, _ => mret (terminal_dispatch event [] [] (Some state))
  end.
End Main.
