(* ===== verification/StartInv.v ===== *)
(** * Properties of starts

    About [StartState], [StartBegin], [StartRun] and [MainProcess]: every step
    of a start answers, keeps the stores well formed, and does all of its work
    or none of it. *)

From S2P Require Import Prelude RustStr ServiceRuntime ServiceDef Ids Restart Cgroup ServiceTable ServiceTableInv FailureDispatch.
From S2P Require Import OperationRecord OperationStore OperationInv ExecCommand ExecGraph ExecGraphSpec ExecGraphInv.
From S2P Require Import JobRecord JobStore Effects StartState StartBegin StartRun MainProcess.
From Stdlib Require Import String.
Open Scope string_scope.
Open Scope list_scope.
Open Scope Z_scope.

(** ** The start store *)

Record start_wf (st : StartExecutionStore) : Prop := {
  stw_pending : ∀ op p, st.(ses_pending_checks) !! op = Some p → p.(pc_operation_id) = op;
  stw_prechecked : ∀ op p, st.(ses_prechecked) !! op = Some p → p.(pg_ready).(rg_operation_id) = op;
  stw_check_deadline : ∀ op d, st.(ses_check_deadlines) !! op = Some d →
    d.(cd_operation_id) = op ∧
    ∃ h, st.(ses_running_helpers) !! d.(cd_result_fd) = Some h ∧ h.(rh_pending).(pc_operation_id) = op;
  stw_pre : ∀ op q, st.(ses_pre_sequences) !! op = Some q →
    q.(hs_operation_id) = op ∧ (1 ≤ q.(hs_next_index) ≤ List.length q.(hs_commands))%nat;
  stw_pre_deadline : ∀ op d, st.(ses_pre_deadlines) !! op = Some d →
    d.(hd_operation_id) = op ∧ ∃ q, st.(ses_pre_sequences) !! op = Some q ∧ q.(hs_service) = d.(hd_service);
  stw_post : ∀ op q, st.(ses_post_sequences) !! op = Some q →
    q.(qs_operation_id) = op ∧ (1 ≤ q.(qs_next_index) ≤ List.length q.(qs_commands))%nat;
  stw_post_deadline : ∀ op d, st.(ses_post_deadlines) !! op = Some d →
    d.(qd_operation_id) = op ∧ ∃ q, st.(ses_post_sequences) !! op = Some q ∧ q.(qs_service) = d.(qd_service);
  stw_readiness : ∀ op d, st.(ses_readiness) !! op = Some d → d.(rd_operation_id) = op;
}.

Lemma start_store_new_wf : start_wf start_store_new.
Proof. split; intros op ? H; simpl in H; by rewrite lookup_empty in H. Qed.

(** Look a key up in a map that was changed. *)
Ltac lookups :=
  repeat match goal with
  | H : <[_ := _]> _ !! _ = Some _ |- _ => apply lookup_insert_Some in H as [[? ?]|[? H]]; subst
  | H : delete _ _ !! _ = Some _ |- _ => apply lookup_delete_Some in H as [? H]
  | |- context [<[?k := _]> _ !! ?k] => rewrite lookup_insert_eq
  | H : ?k ≠ ?j |- context [<[?k := _]> _ !! ?j] => rewrite lookup_insert_ne by exact H
  | H : ?k ≠ ?j |- context [delete ?k _ !! ?j] => rewrite lookup_delete_ne by exact H
  end.

(** The change concerns some of the fields; the others are as they were. *)
Ltac start_fields := split; simpl; [try eassumption..]; intros; lookups; eauto.

(** What a deadline belongs to. *)
Tactic Notation "owner" hyp(Hd) "as" ident(q) :=
  match goal with H : _ !! _ = Some _ |- _ => destruct (Hd _ _ H) as (? & q & ? & ?) end.

Section StartStore.
Context (st : StartExecutionStore) (Hst : start_wf st).

Lemma record_pending_wf p : start_wf (record_pending_pre_start_check p st).1.
Proof using Hst. destruct Hst. start_fields. Qed.

Lemma record_prechecked_wf p : start_wf (record_prechecked_graph_start p st).
Proof using Hst. destruct Hst. start_fields. Qed.

Lemma remove_prechecked_wf op : start_wf (remove_prechecked_graph_start op st).
Proof using Hst. destruct Hst. start_fields. Qed.

Lemma remove_check_deadline_wf op : start_wf (remove_pre_start_check_deadline op st).
Proof using Hst. destruct Hst. start_fields. Qed.

Lemma remove_helper_wf fd : start_wf (remove_running_helper_by_result_fd fd st).1.
Proof using Hst.
  unfold remove_running_helper_by_result_fd. destruct (ses_running_helpers st !! fd) as [h|] eqn:E; [|done].
  destruct Hst as [? ? Hd]. start_fields. owner Hd as h'. split; [done|].
  exists h'. split; [|done]. rewrite lookup_delete_ne; [done|]. intros ->. congruence.
Qed.

Lemma remove_helper_by_operation_wf op : start_wf (remove_running_helper_by_operation_id op st).1.
Proof using Hst.
  unfold remove_running_helper_by_operation_id. destruct (find_first _ _) as [[fd h]|]; [|done].
  apply remove_helper_wf.
Qed.

Lemma record_running_wf helper at_ns :
  st.(ses_running_helpers) !! helper.(lh_result_fd) = None →
  start_wf (record_running_pre_start_check_helper helper at_ns st).1.
Proof using Hst.
  intros Hnew. unfold record_running_pre_start_check_helper.
  destruct (ses_pending_checks st !! lh_operation_id helper) as [p|] eqn:E; [|done].
  destruct Hst as [? ? Hd]. start_fields.
  - split; [done|]. eexists. by rewrite lookup_insert_eq.
  - owner Hd as h'. split; [done|]. exists h'.
    rewrite lookup_insert_ne; [done|]. intros Eq. congruence.
Qed.

Lemma record_pre_sequence_wf q :
  (1 ≤ q.(hs_next_index) ≤ List.length q.(hs_commands))%nat →
  (∀ d, st.(ses_pre_deadlines) !! q.(hs_operation_id) = Some d → d.(hd_service) = q.(hs_service)) →
  start_wf (record_pre_start_sequence q st).
Proof using Hst.
  intros Hi Hsv. destruct Hst as [? ? ? ? Hd]. start_fields. owner Hd as q'.
  split; [done|]. destruct (decide (hs_operation_id q = op)) as [<-|Hne]; lookups; [|by eauto].
  exists q. split; [done|]. symmetry. auto.
Qed.

Lemma record_pre_deadline_wf d :
  (∃ q, st.(ses_pre_sequences) !! d.(hd_operation_id) = Some q ∧ q.(hs_service) = d.(hd_service)) →
  start_wf (record_pre_start_hook_deadline d st).
Proof using Hst. intros Hq. destruct Hst. start_fields. Qed.

Lemma remove_pre_deadline_wf op : start_wf (remove_pre_start_hook_deadline op st).
Proof using Hst. destruct Hst. start_fields. Qed.

Lemma remove_pre_sequence_wf op :
  st.(ses_pre_deadlines) !! op = None → start_wf (remove_pre_start_sequence op st).
Proof using Hst.
  intros Hn. destruct Hst as [? ? ? ? Hd]. start_fields. owner Hd as q'.
  split; [done|]. exists q'. split; [|done]. rewrite lookup_delete_ne; [done|]. congruence.
Qed.

Lemma record_post_sequence_wf q :
  (1 ≤ q.(qs_next_index) ≤ List.length q.(qs_commands))%nat →
  (∀ d, st.(ses_post_deadlines) !! q.(qs_operation_id) = Some d → d.(qd_service) = q.(qs_service)) →
  start_wf (record_post_start_sequence q st).
Proof using Hst.
  intros Hi Hsv. destruct Hst as [? ? ? ? ? ? Hd]. start_fields. owner Hd as q'.
  split; [done|]. destruct (decide (qs_operation_id q = op)) as [<-|Hne]; lookups; [|by eauto].
  exists q. split; [done|]. symmetry. auto.
Qed.

Lemma record_post_deadline_wf d :
  (∃ q, st.(ses_post_sequences) !! d.(qd_operation_id) = Some q ∧ q.(qs_service) = d.(qd_service)) →
  start_wf (record_post_start_hook_deadline d st).
Proof using Hst. intros Hq. destruct Hst. start_fields. Qed.

Lemma remove_post_deadline_wf op : start_wf (remove_post_start_hook_deadline op st).
Proof using Hst. destruct Hst. start_fields. Qed.

Lemma remove_post_sequence_wf op :
  st.(ses_post_deadlines) !! op = None → start_wf (remove_post_start_sequence op st).
Proof using Hst.
  intros Hn. destruct Hst as [? ? ? ? ? ? Hd]. start_fields. owner Hd as q'.
  split; [done|]. exists q'. split; [|done]. rewrite lookup_delete_ne; [done|]. congruence.
Qed.

Lemma record_readiness_wf d : start_wf (record_readiness_deadline d st).
Proof using Hst. destruct Hst. start_fields. Qed.

Lemma remove_readiness_wf op : start_wf (remove_readiness_deadline op st).1.
Proof using Hst. destruct Hst. start_fields. Qed.
End StartStore.

(** ** The stores together *)

Lemma hook_job_fresh id spec type job : new_service_hook_job id spec type = Ok job → job_fresh job.
Proof. unfold new_service_hook_job. destruct (hk_argv spec); [done|]. by intros [= <-]. Qed.

Lemma main_job_fresh id spec : job_fresh (new_service_main id spec).
Proof. done. Qed.

Section Inv.
Context {P BoundaryError : Type} `{!ProcessController P BoundaryError}.
Notation Error := (StartExecutionError BoundaryError).
Notation State := (ExecState P).

Record stores_wf (s : State) : Prop := {
  xw_services : table_wf s.(xs_services);
  xw_operations : store_wf s.(xs_operations);
  xw_graph : graph_wf s.(xs_graph);
  xw_jobs : jobs_wf s.(xs_jobs);
}.

(** The start store is exactly [st]. *)
Definition starts_at (st : StartExecutionStore) (s : State) : Prop := stores_wf s ∧ s.(xs_start) = st.

(** Steps that leave the start store alone, keep the others well formed, and
    always return. *)
Definition quiet {E A} (m : Step P E A) : Prop := ∀ st, triple (starts_at st) m (λ _, starts_at st).

Lemma quiet_ret {E A} (a : A) : quiet (mret a : Step P E A).
Proof. intros st. by apply triple_ret'. Qed.

Lemma quiet_fail {E A} (e : E) : quiet (exec_fail e : Step P E A).
Proof. intros st. apply triple_fail. Qed.

Lemma quiet_get {E A} (f : State → A) : quiet (exec_get f : Step P E A).
Proof. intros st. eapply triple_conseq; [apply triple_get|done|]. by intros a s [? _]. Qed.

Lemma quiet_lift {E A} (r : Result A E) : quiet (exec_lift r : Step P E A).
Proof. intros st. eapply triple_conseq; [apply triple_lift|done|]. by intros a s [? _]. Qed.

Lemma quiet_bind {E A B} (m : Step P E A) (k : A → Step P E B) : quiet m → (∀ a, quiet (k a)) → quiet (m ≫= k).
Proof. intros Hm Hk st. eapply triple_bind; [apply Hm|]. intros a. apply Hk. Qed.

Lemma quiet_map_err {E F A} (f : E → F) (m : Step P E A) : quiet m → quiet (exec_map_err f m).
Proof. intros Hm st. apply triple_map_err, Hm. Qed.

Lemma quiet_require {E A} (e : E) (f : State → option A) : quiet (require e f).
Proof. apply quiet_bind; [apply quiet_get|]. intros. apply quiet_lift. Qed.

Lemma quiet_each {E X A} (body : X → Step P E A) xs : (∀ x, quiet (body x)) → quiet (exec_each body xs).
Proof.
  intros Hb. induction xs as [|x xs IH]; simpl; [apply quiet_ret|].
  apply quiet_bind; [done|]. intros a. apply quiet_bind; [done|]. intros l. apply quiet_ret.
Qed.

Lemma quiet_atomic {E A} (m : Step P E A) : quiet m → quiet (atomic m).
Proof.
  intros Hm st s Hs. destruct (Hm st s Hs) as (s1 & [a|e] & Em & H1); unfold atomic, exec_atomic; rewrite Em;
    eexists _, _; (split; [done|]); [|done]. exact H1.
Qed.

Lemma quiet_on {T E F A} (get : State → T) set (wrap : F → E) (f : T → T * Result A F) :
  (∀ s, stores_wf s → stores_wf (set (f (get s)).1 s)) →
  (∀ t s, (set t s).(xs_start) = s.(xs_start)) → quiet (exec_on get set wrap f).
Proof.
  intros Hf Hst st s [Hs E0]. unfold exec_on. specialize (Hf s Hs). destruct (f (get s)) as [t r].
  eexists _, _. split; [done|]. intros a _. split; [done|]. by rewrite Hst.
Qed.

Lemma quiet_services {E A} (wrap : ServiceTableError → E) (f : gmap string ServiceEntry → TableResult A) :
  (∀ t, table_wf t → table_wf (f t).1) → quiet (on_services wrap f).
Proof. intros Hf. apply quiet_on; [|done]. intros s [? ? ? ?]. split; simpl; auto. Qed.

Lemma quiet_table_step {E A} (wrap : ServiceTableError → E) (f : gmap string ServiceEntry → TableResult A) :
  (∀ t, table_step t (f t).1) → quiet (on_services wrap f).
Proof. intros Hf. apply quiet_services. intros t Ht. by eapply step_wf. Qed.

Lemma quiet_operations {E A} (wrap : OperationStoreError → E) (f : OperationStore → StoreResult A) :
  (∀ s, op_step s (f s).1) → quiet (on_operations wrap f).
Proof. intros Hf. apply quiet_on; [|done]. intros s [? ? ? ?]. split; simpl; try done. by eapply op_step_wf. Qed.

Lemma quiet_jobs {E A} (wrap : JobStoreError → E) (f : JobStore → JobResult A) :
  (∀ s, jobs_wf s → jobs_wf (f s).1) → quiet (on_jobs wrap f).
Proof. intros Hf. apply quiet_on; [|done]. intros s [? ? ? ?]. split; simpl; auto. Qed.

Lemma quiet_graph {E A} (wrap : GraphExecutionError → E) (m : GraphM GraphExecutionStore A) :
  store_acts m → quiet (on_graph wrap m).
Proof.
  intros Hm st s [[? ? Hg ?] E0]. unfold on_graph, exec_within. destruct (Hm _ Hg) as (g & r & -> & Hev).
  eexists _, _. split; [done|]. intros a _. split; [|done]. split; simpl; try done. by eapply store_evolves_wf.
Qed.

Lemma quiet_job_id {E} (wrap : IdAllocationError → E) at_ns : quiet (allocate_job_id wrap at_ns : Step P E JobId).
Proof.
  apply quiet_bind; [|intros; apply quiet_ret]. apply quiet_on; [|done]. intros s [? ? ? ?]. by split.
Qed.

Lemma quiet_kill {E} (wrap : BoundaryError → E) cgroup_id : quiet (kill wrap cgroup_id : Step P E unit).
Proof. apply quiet_on; [|done]. intros s [? ? ? ?]. by split. Qed.

Create HintDb quiet discriminated.

(** Go through a step, one binding or case at a time. *)
Ltac quiet_step :=
  match goal with
  | |- quiet (mret _) => apply quiet_ret
  | |- quiet (exec_fail _) => apply quiet_fail
  | |- quiet (exec_get _) => apply quiet_get
  | |- quiet (exec_lift _) => apply quiet_lift
  | |- quiet (require _ _) => apply quiet_require
  | |- quiet (allocate_job_id _ _) => apply quiet_job_id
  | |- quiet (kill _ _) => apply quiet_kill
  | |- quiet (exec_map_err _ _) => apply quiet_map_err
  | |- quiet (exec_each _ _) => apply quiet_each; intros ?
  | |- quiet (atomic _) => apply quiet_atomic
  | |- quiet (_ ≫= _) => apply quiet_bind; [|intros ?]
  | |- quiet (match ?x with _ => _ end) => destruct x
  | |- quiet (let _ := _ in _) => cbv zeta
  | |- _ => solve [auto with quiet nocore]
  end.
Ltac quietly := repeat quiet_step.

(** *** The operations the steps use *)

Lemma quiet_transition {E} (wrap : ServiceTableError → E) service tr :
  quiet (on_services wrap (transition_service service tr)).
Proof. apply quiet_table_step. intros t. apply step_transition. Qed.

Lemma quiet_backoff {E} (wrap : ServiceTableError → E) service cause until :
  quiet (on_services wrap (transition_service_to_restart_backoff service cause until)).
Proof. apply quiet_table_step. intros t. apply step_backoff. Qed.

Lemma quiet_satisfied_since {E} (wrap : ServiceTableError → E) service at_ns :
  quiet (on_services wrap (table_mark_dependent_satisfied_since service at_ns)).
Proof. apply quiet_table_step. intros t. apply step_satisfied. Qed.

Lemma quiet_oneshot {E} (wrap : ServiceTableError → E) service :
  quiet (on_services wrap (release_completed_oneshot_if_not_retained service)).
Proof. apply quiet_table_step. intros t. apply step_oneshot. Qed.

Lemma quiet_after_failure {E} (wrap : ServiceTableError → E) service cause at_ns exit_code :
  quiet (on_services wrap (transition_after_failure service cause at_ns exit_code)).
Proof.
  apply quiet_services. intros t Ht. unfold transition_after_failure. destruct (ok_or _ _); [|done].
  destruct (ok_or _ _); [|done]. unfold apply_evaluation. destruct (re_action _).
  - by apply backoff_wf.
  - by apply transition_service_wf.
Qed.

Lemma quiet_start_operation {E} (wrap : OperationStoreError → E) op at_ns :
  quiet (on_operations wrap (start_operation op at_ns)).
Proof. apply quiet_operations. intros s. apply ostep_start. Qed.

Lemma quiet_clock {E} (wrap : OperationStoreError → E) op at_ns :
  quiet (on_operations wrap (store_restart_lifetime_clock op at_ns)).
Proof. apply quiet_operations. intros s. apply ostep_clock. Qed.

Lemma quiet_complete {E} (wrap : OperationStoreError → E) op at_ns result :
  quiet (on_operations wrap (complete_operation op at_ns result)).
Proof. apply quiet_operations. intros s. apply ostep_complete. Qed.

Lemma quiet_fail_operation {E} (wrap : OperationStoreError → E) op at_ns reason :
  quiet (on_operations wrap (fail_operation op at_ns reason)).
Proof. apply quiet_operations. intros s. apply ostep_fail. Qed.

Lemma quiet_cancel {E} (wrap : OperationStoreError → E) op at_ns reason :
  quiet (on_operations wrap (cancel_operation op at_ns reason)).
Proof. apply quiet_operations. intros s. apply ostep_cancel. Qed.

Lemma quiet_graph_operations {E} (wrap : GraphExecutionError → E) op :
  quiet (on_graph wrap (apply_pre_start_check_passed op)) ∧
  quiet (on_graph wrap (prune_dormant_dependencies op)) ∧
  quiet (on_graph wrap (apply_operation_awaiting_restart op)) ∧
  quiet (on_graph wrap (apply_operation_satisfied op)) ∧
  quiet (on_graph wrap (apply_operation_failed op)).
Proof.
  destruct store_operations_act as (H1 & H2 & H3 & H4 & H5 & H6). split_and!; apply quiet_graph; try done; apply H5.
Qed.

Lemma quiet_check_passed {E} (wrap : GraphExecutionError → E) op : quiet (on_graph wrap (apply_pre_start_check_passed op)).
Proof. apply quiet_graph_operations. Qed.
Lemma quiet_prune {E} (wrap : GraphExecutionError → E) op : quiet (on_graph wrap (prune_dormant_dependencies op)).
Proof. apply quiet_graph_operations. Qed.
Lemma quiet_awaiting {E} (wrap : GraphExecutionError → E) op : quiet (on_graph wrap (apply_operation_awaiting_restart op)).
Proof. apply quiet_graph_operations. Qed.
Lemma quiet_op_satisfied {E} (wrap : GraphExecutionError → E) op : quiet (on_graph wrap (apply_operation_satisfied op)).
Proof. apply quiet_graph_operations. Qed.
Lemma quiet_op_failed {E} (wrap : GraphExecutionError → E) op : quiet (on_graph wrap (apply_operation_failed op)).
Proof. apply quiet_graph_operations. Qed.

Lemma quiet_create_job {E} (wrap : JobStoreError → E) job : job_fresh job → quiet (on_jobs wrap (create_job job)).
Proof. intros Hj. apply quiet_jobs. intros s. by apply create_job_wf. Qed.

Lemma quiet_fail_job {E} (wrap : JobStoreError → E) id at_ns exit cause :
  quiet (on_jobs wrap (fail_running_job id at_ns exit cause)) ∧
  quiet (on_jobs wrap (fail_job_before_start id at_ns cause)).
Proof.
  split; apply quiet_jobs; intros s; apply finish_job_wf; auto using ends_fail_running, ends_fail_before_start.
Qed.

Lemma quiet_fail_running {E} (wrap : JobStoreError → E) id at_ns exit cause :
  quiet (on_jobs wrap (fail_running_job id at_ns exit cause)).
Proof. by apply quiet_fail_job. Qed.

Lemma quiet_fail_before {E} (wrap : JobStoreError → E) id at_ns cause :
  quiet (on_jobs wrap (fail_job_before_start id at_ns cause)).
Proof. by apply (quiet_fail_job wrap id at_ns None). Qed.

#[local] Hint Resolve quiet_transition quiet_backoff quiet_satisfied_since quiet_oneshot quiet_after_failure
  quiet_start_operation quiet_clock quiet_complete quiet_fail_operation quiet_cancel quiet_check_passed quiet_prune
  quiet_awaiting quiet_op_satisfied quiet_op_failed quiet_fail_running quiet_fail_before : quiet.

(** *** Failure and satisfaction *)

Lemma quiet_fail_dependents target at_ns reason seen events :
  quiet (fail_dependents target at_ns reason seen events : Step P _ _).
Proof.
  revert seen. induction events as [|event events IH]; intros seen; simpl; [apply quiet_ret|].
  unfold fail_dependent. quietly; apply IH.
Qed.

#[local] Hint Resolve quiet_fail_dependents : quiet.

Lemma quiet_start_failure request : quiet (apply_start_failure request : Step P _ _).
Proof.
  unfold apply_start_failure, restart_evaluation, hold_for_restart, fail_with_dependents,
    fail_dependents_after_graph_events. quietly.
Qed.

Lemma quiet_start_satisfaction request : quiet (apply_start_satisfaction request : Step P _ _).
Proof. unfold apply_start_satisfaction, satisfied_state. quietly. Qed.

#[local] Hint Resolve quiet_start_failure quiet_start_satisfaction : quiet.

(** *** Steps that change the start store *)

Definition holds (J : StartExecutionStore → Prop) (s : State) : Prop := stores_wf s ∧ J s.(xs_start).

(** Every store is well formed. *)
Definition exec_wf : State → Prop := holds start_wf.

Notation keeping J m := (triple (holds J) m (λ _, exec_wf)).

Lemma quiet_holds {E A} J (m : Step P E A) : quiet m → triple (holds J) m (λ _, holds J).
Proof. intros Hm s [Hs HJ]. destruct (Hm s.(xs_start) s) as (s' & r & Em & H); [by split|].
  exists s', r. split; [done|]. intros a Ha. destruct (H a Ha) as [? Est]. split; [done|]. by rewrite Est. Qed.

Lemma keeping_ret {E A} (a : A) (J : StartExecutionStore → Prop) :
  (∀ st, J st → start_wf st) → keeping J (mret a : Step P E A).
Proof. intros H. apply triple_ret'. intros s [? ?]. split; auto. Qed.

Lemma keeping_quiet {E A B} J (m : Step P E A) (k : A → Step P E B) :
  quiet m → (∀ a, keeping J (k a)) → keeping J (m ≫= k).
Proof. intros Hm Hk. eapply triple_bind; [by apply quiet_holds|done]. Qed.

Lemma keeping_update {E B} (J : StartExecutionStore → Prop) f (k : unit → Step P E B) K :
  (∀ st, J st → K (f st)) → keeping K (k ()) → keeping J (on_start f ≫= k).
Proof.
  intros Hf Hk. apply triple_bind with (Mid := λ _, holds K); [|by intros []].
  intros s [[? ? ? ?] HJ]. eexists _, _. split; [done|]. intros [] _. split; [by split|]. by apply Hf.
Qed.

Lemma keeping_updates {E B A} (J : StartExecutionStore → Prop) (f : StartExecutionStore → StartExecutionStore * A)
    (k : A → Step P E B) (K : A → StartExecutionStore → Prop) :
  (∀ st, J st → K (f st).2 (f st).1) → (∀ a, keeping (K a) (k a)) → keeping J (on_start_with f ≫= k).
Proof.
  intros Hf Hk. apply triple_bind with (Mid := λ a, holds (K a)); [|done].
  intros s [[? ? ? ?] HJ]. unfold on_start_with, exec_on. specialize (Hf _ HJ). destruct (f (xs_start s)) as [st a].
  eexists _, _. split; [done|]. intros ? [= <-]. split; [by split|]. done.
Qed.

(** [require] hands over what it found. *)
Lemma keeping_require {E A B} (J : StartExecutionStore → Prop) (e : E) (f : StartExecutionStore → option A)
    (k : A → Step P E B) :
  (∀ a, keeping (λ st, J st ∧ f st = Some a) (k a)) → keeping J (require e (λ s, f s.(xs_start)) ≫= k).
Proof.
  intros Hk. eapply triple_bind; [|exact Hk]. intros s [Hs HJ]. unfold require, mbind, exec_bind, exec_get, exec_lift.
  destruct (f (xs_start s)) as [a|] eqn:E1; simpl; eexists _, _; (split; [done|]); [|done].
  intros ? [= <-]. by split.
Qed.

Lemma keeping_weaken {E A} (J J' : StartExecutionStore → Prop) (m : Step P E A) :
  (∀ st, J st → J' st) → keeping J' m → keeping J m.
Proof. intros HJ Hm. eapply triple_conseq; [exact Hm| |done]. intros s [? ?]. split; auto. Qed.

Lemma keeping_fail {E A} J (e : E) : keeping J (exec_fail e : Step P E A).
Proof. apply triple_fail. Qed.

Lemma keeping_bind {E A B} J (m : Step P E A) (k : A → Step P E B) :
  keeping J m → (∀ a, keeping start_wf (k a)) → keeping J (m ≫= k).
Proof. intros Hm Hk. by eapply triple_bind. Qed.

Lemma keeping_lift {E A B} J (r : Result A E) (k : A → Step P E B) :
  (∀ a, r = Ok a → keeping J (k a)) → keeping J (exec_lift r ≫= k).
Proof.
  intros Hk. destruct r as [a|e]; [by apply Hk|]. intros s Hs. eexists _, _. by split.
Qed.

(** A step that works on a copy. *)
Lemma serves_keeping {E A} (m : Step P E A) : keeping start_wf m → serves exec_wf (atomic m).
Proof.
  intros Hm. apply serves_atomic_triple; [exact Hm|]. intros now before [[? ? ? ?] ?]. by split; [split|].
Qed.

Ltac keep_step :=
  match goal with
  | |- keeping _ (mret _) => apply keeping_ret; tauto
  | |- keeping _ (exec_fail _) => apply keeping_fail
  | |- keeping _ (exec_lift _ ≫= _) => apply keeping_lift; intros ? ?
  | |- keeping _ (match ?x with _ => _ end) => destruct x
  | |- keeping _ (_ ≫= _) => apply keeping_quiet; [solve [quietly]|intros ?]
  end.
Ltac keep := repeat (keep_step; cbv beta zeta in * ).

(** *** Beginning a start *)

Lemma keeping_readiness {B} request job_id (k : unit → Step P Error B) :
  keeping start_wf (k ()) → keeping start_wf (record_request_readiness_deadline request job_id ≫= k).
Proof.
  intros Hk. unfold record_request_readiness_deadline. destruct (negb _); [by apply Hk|].
  eapply keeping_update; [|exact Hk]. intros st Hst. by apply record_readiness_wf.
Qed.

Lemma pre_sequence_with_deadline_wf q d st :
  start_wf st → (1 ≤ q.(hs_next_index) ≤ List.length q.(hs_commands))%nat →
  d.(hd_operation_id) = q.(hs_operation_id) → d.(hd_service) = q.(hs_service) →
  start_wf (record_pre_start_hook_deadline d (record_pre_start_sequence q st)).
Proof.
  intros Hst Hi Ho Hs.
  assert (start_wf (remove_pre_start_hook_deadline q.(hs_operation_id) st)) as H0 by by apply remove_pre_deadline_wf.
  eapply record_pre_sequence_wf with (q := q) in H0; [|done|by intros ?; simpl; rewrite lookup_delete_eq].
  eapply record_pre_deadline_wf with (d := d) in H0; [|exists q; simpl; by rewrite Ho, lookup_insert_eq].
  revert H0. unfold record_pre_start_hook_deadline, record_pre_start_sequence, remove_pre_start_hook_deadline. simpl.
  by rewrite Ho, insert_delete_eq.
Qed.

Lemma post_sequence_with_deadline_wf q d st :
  start_wf st → (1 ≤ q.(qs_next_index) ≤ List.length q.(qs_commands))%nat →
  d.(qd_operation_id) = q.(qs_operation_id) → d.(qd_service) = q.(qs_service) →
  start_wf (record_post_start_hook_deadline d (record_post_start_sequence q st)).
Proof.
  intros Hst Hi Ho Hs.
  assert (start_wf (remove_post_start_hook_deadline q.(qs_operation_id) st)) as H0 by by apply remove_post_deadline_wf.
  eapply record_post_sequence_wf with (q := q) in H0; [|done|by intros ?; simpl; rewrite lookup_delete_eq].
  eapply record_post_deadline_wf with (d := d) in H0; [|exists q; simpl; by rewrite Ho, lookup_insert_eq].
  revert H0. unfold record_post_start_hook_deadline, record_post_start_sequence, remove_post_start_hook_deadline. simpl.
  by rewrite Ho, insert_delete_eq.
Qed.

Lemma keeping_pre_hook {B} q d (k : unit → Step P Error B) :
  (1 ≤ q.(hs_next_index) ≤ List.length q.(hs_commands))%nat →
  d.(hd_operation_id) = q.(hs_operation_id) → d.(hd_service) = q.(hs_service) →
  keeping start_wf (k ()) →
  keeping start_wf (_ ← on_start (record_pre_start_sequence q); on_start (record_pre_start_hook_deadline d) ≫= k).
Proof.
  intros Hi Ho Hs Hk. eapply keeping_update with (K := λ st, ∃ st0, start_wf st0 ∧ st = record_pre_start_sequence q st0).
  { eauto. }
  eapply keeping_update; [|exact Hk]. intros st (st0 & Hst & ->). by apply pre_sequence_with_deadline_wf.
Qed.

Lemma keeping_post_hook {B} q d (k : unit → Step P Error B) :
  (1 ≤ q.(qs_next_index) ≤ List.length q.(qs_commands))%nat →
  d.(qd_operation_id) = q.(qs_operation_id) → d.(qd_service) = q.(qs_service) →
  keeping start_wf (k ()) →
  keeping start_wf (_ ← on_start (record_post_start_sequence q); on_start (record_post_start_hook_deadline d) ≫= k).
Proof.
  intros Hi Ho Hs Hk. eapply keeping_update with (K := λ st, ∃ st0, start_wf st0 ∧ st = record_post_start_sequence q st0).
  { eauto. }
  eapply keeping_update; [|exact Hk]. intros st (st0 & Hst & ->). by apply post_sequence_with_deadline_wf.
Qed.

Lemma keeping_initial request : keeping start_wf (create_initial_start_job request : Step P Error _).
Proof.
  unfold create_initial_start_job, create_initial_main_job, create_initial_pre_start_hook. keep_step. case_bool_decide.
  - apply keeping_quiet; [apply quiet_create_job, main_job_fresh|]. intros ev. apply keeping_readiness. keep.
  - keep_step. destruct a as [|command commands]; [apply keeping_fail|].
    apply keeping_lift. intros job Hjob. apply keeping_quiet.
    { apply quiet_create_job. unfold pre_start_hook_job in Hjob.
      destruct (new_pre_exec_hook _ _) eqn:E; [|done]. injection Hjob as <-. by eapply hook_job_fresh. }
    intros ev. apply keeping_pre_hook; simpl; [lia|done..|]. keep.
Qed.

Lemma quiet_job_id_for reserved at_ns : quiet (job_id_for_ready_start reserved at_ns : Step P Error _).
Proof. unfold job_id_for_ready_start. quietly. Qed.

Lemma quiet_clear_skipped service cause : quiet (clear_skipped_for_explicit_start service cause : Step P Error _).
Proof. unfold clear_skipped_for_explicit_start. quietly. Qed.

Lemma quiet_get_operation op : quiet (get_operation op : Step P Error _).
Proof. unfold get_operation. quietly. Qed.

Lemma quiet_skip service op at_ns cause message : quiet (skip_service service op at_ns cause message : Step P Error _).
Proof. unfold skip_service. quietly. Qed.

Lemma quiet_cancel_dormant op at_ns : quiet (cancel_dormant_dependencies op at_ns : Step P Error _).
Proof. unfold cancel_dormant_dependencies, cancel_pruned_operations. quietly. Qed.

#[local] Hint Resolve quiet_job_id_for quiet_clear_skipped quiet_get_operation quiet_skip quiet_cancel_dormant : quiet.

Lemma quiet_released request definition : quiet (start_released_operation request definition : Step P Error _).
Proof. unfold start_released_operation. quietly. Qed.

Lemma quiet_pre_dependency op at_ns cause reason :
  quiet (apply_pending_pre_dependency_failure op at_ns cause reason : Step P Error _).
Proof. unfold apply_pending_pre_dependency_failure. quietly. Qed.

Lemma quiet_precheck_skipped request reason cleared : quiet (precheck_skipped request reason cleared : Step P Error _).
Proof. unfold precheck_skipped. quietly. Qed.

#[local] Hint Resolve quiet_released quiet_pre_dependency quiet_precheck_skipped : quiet.

Lemma keeping_launch request identity token activation cleared event deadline :
  keeping start_wf (launch_ready_start request identity token activation cleared event deadline : Step P Error _).
Proof.
  unfold launch_ready_start, job_id_for_request. keep. apply keeping_bind; [apply keeping_initial|]. intros. keep.
Qed.

Lemma keeping_pending {B} p (k : _ → Step P Error B) :
  (∀ a, keeping start_wf (k a)) → keeping start_wf (on_start_with (record_pending_pre_start_check p) ≫= k).
Proof. intros Hk. eapply keeping_updates; [|exact Hk]. intros st Hst. by apply record_pending_wf. Qed.

(** The one exit of [begin_ready_start] that puts the service table back. *)
Lemma pending_exit_wf before activation request op deadline cleared (k : _ → Step P Error StartExecutionOutcome) checks :
  table_wf before → (∀ registration, ∃ out, k registration = mret out) →
  keeping start_wf (registration ← on_start_with (record_pending_pre_start_check
    (pending_check_new op request.(ser_ready).(rg_service) activation checks request.(ser_started_at_ns) deadline
       (PendGraph request.(ser_ready) request.(ser_resolved_identity) request.(ser_token_summary)) cleared));
    _ ← exec_update (set_services before); k registration).
Proof.
  intros Hb Hk. apply keeping_pending. intros registration. destruct (Hk registration) as [out ->].
  intros s [[? ? ? ?] ?]. eexists _, _. split; [done|]. intros ? _. by split; [split|].
Qed.

Lemma begin_ready_start_serves request : serves exec_wf (begin_ready_start request : Step P Error _).
Proof.
  unfold begin_ready_start. cbv zeta. intros s Hs. refine (serves_keeping _ _ s Hs). assert (table_wf s.(xs_services)) as Ht by apply Hs. clear Hs. keep.
  - apply keeping_bind; [apply keeping_launch|]. intros. keep.
  - apply pending_exit_wf; [done|]. intros. by eexists.
Qed.

Lemma begin_graph_pre_start_check_serves request :
  serves exec_wf (begin_graph_pre_start_check request : Step P Error _).
Proof.
  apply serves_keeping. cbv zeta. unfold precheck_passed, precheck_assertion_failed, precheck_filesystem_pending. keep.
  - eapply keeping_update; [intros st Hst; by apply record_prechecked_wf|]. keep.
  - apply keeping_pending. intros. keep.
Qed.

Lemma begin_prechecked_ready_start_serves request :
  serves exec_wf (begin_prechecked_ready_start request : Step P Error _).
Proof.
  apply serves_keeping. cbv zeta. keep_step. eapply keeping_update; [intros st Hst; by apply remove_prechecked_wf|].
  keep. apply keeping_bind; [apply keeping_launch|]. intros. keep.
Qed.

(** *** Restarts and filesystem checks *)

Lemma begin_restart_start_leg_serves request : serves exec_wf (begin_restart_start_leg request : Step P Error _).
Proof.
  unfold begin_restart_start_leg. cbv zeta. apply serves_bind; [apply serves_get|]. intros valid.
  apply serves_bind; [apply serves_lift|]. intros _. apply serves_keeping. keep.
  - apply keeping_bind; [apply keeping_initial|]. intros. keep.
  - apply keeping_pending. intros. keep.
Qed.

Lemma keeping_check_passed fd pending : keeping start_wf (apply_check_passed fd pending : Step P Error _).
Proof.
  unfold apply_check_passed, check_passed_job. keep; try (apply keeping_bind; [apply keeping_initial|]; intros; keep).
  eapply keeping_update; [intros st Hst; by apply record_prechecked_wf|]. keep.
Qed.

Lemma keeping_check_complete fd pending results :
  keeping start_wf (complete_pre_start_check_from_pending fd pending results : Step P Error _).
Proof.
  unfold complete_pre_start_check_from_pending. keep_step. destruct a as [|reason|check|checks].
  - apply keeping_check_passed.
  - unfold apply_check_skipped. keep.
  - unfold apply_check_assertion_failed. cbv zeta. keep.
  - apply keeping_fail.
Qed.

Lemma complete_pre_start_check_helper_serves fd report :
  serves exec_wf (complete_pre_start_check_helper fd report : Step P Error _).
Proof.
  apply serves_keeping. apply keeping_updates with (K := λ _, start_wf); [intros st Hst; by apply remove_helper_wf|]. intros running. keep_step.
  case_bool_decide; [apply keeping_fail|apply keeping_check_complete].
Qed.

Lemma timeout_pre_start_check_helper_serves deadline now_ns :
  serves exec_wf (timeout_pre_start_check_helper deadline now_ns : Step P Error _).
Proof.
  apply serves_keeping. eapply keeping_update; [intros st Hst; by apply remove_check_deadline_wf|].
  apply keeping_updates with (K := λ _, start_wf); [intros st Hst; by apply remove_helper_by_operation_wf|]. intros running. keep_step.
  keep_step. apply keeping_bind; [apply keeping_check_complete|]. intros. keep.
Qed.

(** *** Hooks *)

(** The hook of [op] has ended: its deadline is gone, its sequence is not. *)
Definition hook_ended (op : OperationId) (q : PreStartHookSequence) (st : StartExecutionStore) : Prop :=
  (start_wf st ∧ st.(ses_pre_deadlines) !! op = None) ∧ st.(ses_pre_sequences) !! op = Some q.

Definition post_hook_ended (op : OperationId) (q : PostStartHookSequence) (st : StartExecutionStore) : Prop :=
  (start_wf st ∧ st.(ses_post_deadlines) !! op = None) ∧ st.(ses_post_sequences) !! op = Some q.

Lemma hook_ended_remove op q st : hook_ended op q st → start_wf (remove_pre_start_sequence q.(hs_operation_id) st).
Proof. intros [[Hst Hd] Hq]. destruct (stw_pre _ Hst _ _ Hq) as [-> _]. by apply remove_pre_sequence_wf. Qed.

Lemma post_hook_ended_remove op q st :
  post_hook_ended op q st → start_wf (remove_post_start_sequence q.(qs_operation_id) st).
Proof. intros [[Hst Hd] Hq]. destruct (stw_post _ Hst _ _ Hq) as [-> _]. by apply remove_post_sequence_wf. Qed.

Lemma keeping_next_hook job_event q command at_ns :
  pre_next_command q = Some command →
  keeping start_wf (create_next_hook job_event q command at_ns : Step P Error _).
Proof.
  intros Hc%lookup_lt_Some. unfold create_next_hook. keep_step. apply keeping_lift. intros job Hjob. apply keeping_quiet.
  { apply quiet_create_job. destruct (new_pre_exec_hook _ _) eqn:E; [|done]. injection Hjob as <-. by eapply hook_job_fresh. }
  intros ev. apply keeping_pre_hook; simpl; [lia|done..|]. keep.
Qed.

Lemma keeping_main_after_hooks op job_event q at_ns :
  keeping (hook_ended op q) (create_main_after_hooks job_event q at_ns : Step P Error _).
Proof.
  unfold create_main_after_hooks. eapply keeping_update; [apply hook_ended_remove|]. keep.
  apply keeping_quiet; [apply quiet_create_job, main_job_fresh|]. intros ev.
  destruct (readiness_deadline q); [|by apply keeping_ret].
  eapply keeping_update; [intros st Hst; by apply record_readiness_wf|]. keep.
Qed.

Lemma complete_pre_start_hook_job_serves job_event :
  serves exec_wf (complete_pre_start_hook_job job_event : Step P Error _).
Proof.
  unfold complete_pre_start_hook_job. do 3 (apply serves_bind; [apply serves_lift|]; intros ?). apply serves_keeping.
  apply keeping_update with (K := λ st, start_wf st ∧ st.(ses_pre_deadlines) !! a1 = None).
  { intros st Hst. split; [by apply remove_pre_deadline_wf|]. apply lookup_delete_eq. }
  apply (keeping_require _ _ (λ st, st.(ses_pre_sequences) !! a1)). intros q. fold (hook_ended a1 q). keep_step.
  destruct (hook_succeeded _).
  - unfold apply_pre_start_hook_success. destruct (pre_next_command q) eqn:E; [|apply keeping_main_after_hooks].
    eapply keeping_weaken; [|by apply keeping_next_hook]. by intros st [[? ?] ?].
  - unfold apply_pre_start_hook_failure. eapply keeping_update; [apply hook_ended_remove|]. keep.
Qed.

(** *** Readiness *)

Lemma post_hook_fresh q id argv i at_ns job : (post_start_hook_job q id argv i at_ns : Result _ Error) = Ok job → job_fresh job.
Proof using.
  unfold post_start_hook_job. destruct (new_post_exec_hook _ _) eqn:E; [|done]. intros [= <-]. by eapply hook_job_fresh.
Qed.

Lemma keeping_post_hooks request definition commands :
  keeping start_wf (begin_post_start_hooks request definition commands : Step P Error _).
Proof.
  unfold begin_post_start_hooks, satisfied_state. keep.
  apply keeping_quiet; [by eapply quiet_create_job, post_hook_fresh|]. intros ev.
  apply keeping_post_hook; simpl; [lia|done..|]. keep.
Qed.

(** A quiet step on a copy. *)
Lemma serves_quiet_atomic {E A} (m : Step P E A) : quiet m → serves exec_wf (atomic m).
Proof. intros Hm. apply serves_keeping. by apply quiet_holds. Qed.

Lemma apply_start_satisfaction_serves request : serves exec_wf (apply_start_satisfaction request : Step P _ _).
Proof.
  unfold apply_start_satisfaction. apply serves_bind; [apply serves_get|]. intros valid.
  apply serves_bind; [apply serves_lift|]. intros _. apply serves_quiet_atomic. unfold satisfied_state. quietly.
Qed.

Lemma apply_start_failure_serves request : serves exec_wf (apply_start_failure request : Step P _ _).
Proof.
  unfold apply_start_failure. apply serves_bind; [apply serves_get|]. intros valid.
  apply serves_bind; [apply serves_lift|]. intros _. apply serves_quiet_atomic.
  unfold restart_evaluation, hold_for_restart, fail_with_dependents, fail_dependents_after_graph_events. quietly.
Qed.

Lemma serves_require {E A} I (e : E) (f : State → option A) : serves I (require e f).
Proof. apply serves_bind; [apply serves_get|]. intros. apply serves_lift. Qed.

Lemma complete_start_readiness_serves request : serves exec_wf (complete_start_readiness request : Step P Error _).
Proof.
  unfold complete_start_readiness. apply serves_bind; [apply serves_require|]. intros definition.
  apply serves_bind; [apply serves_lift|]. intros commands. case_bool_decide.
  - apply serves_bind; [|intros; apply serves_ret]. apply serves_map_err, apply_start_satisfaction_serves.
  - apply serves_keeping, keeping_post_hooks.
Qed.

Lemma quiet_complete_post q at_ns : quiet (complete_post_start_operation q at_ns : Step P Error _).
Proof. unfold complete_post_start_operation. quietly. Qed.

#[local] Hint Resolve quiet_complete_post : quiet.

Lemma keeping_next_post_hook job_event q command at_ns :
  post_next_command q = Some command →
  keeping start_wf (create_next_post_start_hook job_event q command at_ns : Step P Error _).
Proof.
  intros Hc%lookup_lt_Some. unfold create_next_post_start_hook. keep_step. apply keeping_lift. intros job Hjob.
  apply keeping_quiet; [by eapply quiet_create_job, post_hook_fresh|].
  intros ev. apply keeping_post_hook; simpl; [lia|done..|]. keep.
Qed.

Lemma complete_post_start_hook_job_serves job_event :
  serves exec_wf (complete_post_start_hook_job job_event : Step P Error _).
Proof.
  unfold complete_post_start_hook_job. do 3 (apply serves_bind; [apply serves_lift|]; intros ?). apply serves_keeping.
  apply keeping_update with (K := λ st, start_wf st ∧ st.(ses_post_deadlines) !! a1 = None).
  { intros st Hst. split; [by apply remove_post_deadline_wf|]. apply lookup_delete_eq. }
  apply (keeping_require _ _ (λ st, st.(ses_post_sequences) !! a1)). intros q. fold (post_hook_ended a1 q). keep_step.
  unfold apply_post_start_hook_terminal. cbv zeta.
  set (q' := if negb (hook_succeeded job_event) then _ else _).
  assert (q'.(qs_operation_id) = q.(qs_operation_id)) as Ho by (subst q'; by destruct (negb _)). clearbody q'.
  destruct (post_next_command q') eqn:E.
  - eapply keeping_weaken; [|by apply keeping_next_post_hook]. by intros st [[? ?] ?].
  - eapply keeping_update; [rewrite Ho; apply post_hook_ended_remove|]. keep.
Qed.

(** *** Timeouts *)

Lemma quiet_fail_timed_out id now_ns before running : quiet (fail_timed_out_job id now_ns before running : Step P Error _).
Proof. unfold fail_timed_out_job. quietly. Qed.

Lemma quiet_fail_killed deadline now_ns : quiet (fail_killed_main_job deadline now_ns : Step P Error _).
Proof. unfold fail_killed_main_job. quietly. Qed.

#[local] Hint Resolve quiet_fail_timed_out quiet_fail_killed : quiet.

Lemma timeout_pre_start_hook_serves deadline now_ns :
  serves exec_wf (timeout_pre_start_hook deadline now_ns : Step P Error _).
Proof.
  apply serves_keeping.
  apply keeping_update with (K := λ st, start_wf st ∧ st.(ses_pre_deadlines) !! deadline.(hd_operation_id) = None).
  { intros st Hst. split; [by apply remove_pre_deadline_wf|]. apply lookup_delete_eq. }
  apply (keeping_require _ _ (λ st, st.(ses_pre_sequences) !! deadline.(hd_operation_id))). intros q.
  eapply keeping_update; [intros st [[Hst Hd] _]; by apply remove_pre_sequence_wf|]. keep.
Qed.

Lemma timeout_post_start_hook_serves deadline now_ns :
  serves exec_wf (timeout_post_start_hook deadline now_ns : Step P Error _).
Proof.
  apply serves_keeping.
  apply keeping_update with (K := λ st, start_wf st ∧ st.(ses_post_deadlines) !! deadline.(qd_operation_id) = None).
  { intros st Hst. split; [by apply remove_post_deadline_wf|]. apply lookup_delete_eq. }
  apply (keeping_require _ _ (λ st, st.(ses_post_sequences) !! deadline.(qd_operation_id))). intros q.
  eapply keeping_update; [intros st [[Hst Hd] _]; by apply remove_post_sequence_wf|]. keep.
Qed.

Lemma timeout_readiness_serves deadline now_ns : serves exec_wf (timeout_readiness deadline now_ns : Step P Error _).
Proof.
  apply serves_keeping. apply keeping_updates with (K := λ _, start_wf); [intros st Hst; by apply remove_readiness_wf|].
  intros. keep.
Qed.

Lemma timeout_service_main_start_serves id now_ns :
  serves exec_wf (timeout_service_main_start id now_ns : Step P Error _).
Proof. apply serves_keeping. keep. Qed.

(** *** Main processes *)

Lemma apply_service_main_job_started_serves event :
  serves exec_wf (apply_service_main_job_started (BoundaryError := BoundaryError) event : Step P _ _).
Proof.
  unfold apply_service_main_job_started, apply_alive_readiness.
  do 2 (apply serves_bind; [apply serves_lift|]; intros ?). apply serves_bind; [apply serves_require|]. intros d.
  apply serves_bind; [apply serves_require|]. intros r.
  case_bool_decide; [apply serves_fail|]. destruct (sd_service_type d), (sd_readiness d); try apply serves_ret.
  do 2 (apply serves_bind; [apply serves_lift|]; intros ?). apply serves_bind; [|intros; apply serves_ret].
  apply serves_map_err, complete_start_readiness_serves.
Qed.

Lemma apply_restart_evaluation_serves service event definition ended cause :
  serves exec_wf
    (apply_restart_evaluation (BoundaryError := BoundaryError) service event definition ended cause : Step P _ _).
Proof.
  unfold apply_restart_evaluation, apply_active_transition, apply_restart_backoff.
  apply serves_bind; [apply serves_get|]. intros [].
  - destruct cause; apply serves_quiet_atomic; quietly.
  - apply serves_bind; [apply serves_require|]. intros runtime. destruct (re_action _);
      apply serves_quiet_atomic; quietly.
Qed.

Lemma apply_service_main_job_terminal_serves event :
  serves exec_wf (apply_service_main_job_terminal (BoundaryError := BoundaryError) event : Step P _ _).
Proof.
  unfold apply_service_main_job_terminal. apply serves_bind; [apply serves_lift|]. intros [service ended].
  apply serves_bind; [apply serves_require|]. intros d. apply serves_bind; [apply serves_require|]. intros r.
  assert (serves exec_wf (apply_start_process_failure (P := P) (BoundaryError := BoundaryError) service event ended)) as Hfail.
  { unfold apply_start_process_failure. apply serves_bind; [apply serves_lift|]. intros op.
    apply serves_quiet_atomic. quietly. }
  destruct (rt_state r), (sd_service_type d), (is_success_for ended d) eqn:Es; try exact Hfail; try apply serves_ret.
  - unfold apply_oneshot_start_success. apply serves_bind; [apply serves_lift|]. intros op.
    apply serves_bind; [|intros; apply serves_ret]. apply serves_map_err, complete_start_readiness_serves.
  - unfold apply_active_simple_exit. rewrite Es. case_bool_decide; [apply apply_restart_evaluation_serves|].
    apply serves_quiet_atomic. quietly.
  - unfold apply_active_simple_exit. rewrite Es. apply apply_restart_evaluation_serves.
  - apply apply_restart_evaluation_serves.
  - apply apply_restart_evaluation_serves.
  - unfold apply_stopping_simple_exit. apply serves_bind; [apply serves_require|]. intros op.
    destruct (negb _); [apply serves_fail|]. apply serves_quiet_atomic. unfold apply_stopped_transition. quietly.
  - unfold apply_stopping_simple_exit. apply serves_bind; [apply serves_require|]. intros op.
    destruct (negb _); [apply serves_fail|]. apply serves_quiet_atomic. unfold apply_stopped_transition. quietly.
Qed.

(** ** Everything that happens to a start *)

Inductive StartEvent : Type :=
| EvPrecheck (request : StartExecutionRequest)
| EvStart (request : StartExecutionRequest)
| EvStartAtOnce (request : StartExecutionRequest)
| EvRestartLeg (request : RestartStartExecutionRequest)
| EvCheckReport (result_fd : Z) (report : FilesystemCheckReport)
| EvCheckTimeout (deadline : PreStartCheckDeadline) (now_ns : Z)
| EvPreHookEnded (job_event : JobEvent)
| EvPreHookTimeout (deadline : PreStartHookDeadline) (now_ns : Z)
| EvReady (request : StartReadyRequest)
| EvReadinessTimeout (deadline : ReadinessDeadline) (now_ns : Z)
| EvPostHookEnded (job_event : JobEvent)
| EvPostHookTimeout (deadline : PostStartHookDeadline) (now_ns : Z)
| EvMainTimeout (job_id : JobId) (now_ns : Z)
| EvMainStarted (job_event : JobEvent)
| EvMainEnded (job_event : JobEvent).

Inductive StartEventError : Type :=
| FailedStart (error : Error)
| FailedMainStarted (error : ServiceMainJobStartedError (BoundaryError := BoundaryError))
| FailedMainEnded (error : ServiceMainJobTerminalError (BoundaryError := BoundaryError)).

Definition answer {E A} (wrap : E → StartEventError) (m : Step P E A) : Step P StartEventError unit :=
  _ ← exec_map_err wrap m; mret tt.

Definition handle_start_event (event : StartEvent) : Step P StartEventError unit :=
  match event with
  | EvPrecheck request => answer FailedStart (begin_graph_pre_start_check request)
  | EvStart request => answer FailedStart (begin_prechecked_ready_start request)
  | EvStartAtOnce request => answer FailedStart (begin_ready_start request)
  | EvRestartLeg request => answer FailedStart (begin_restart_start_leg request)
  | EvCheckReport result_fd report => answer FailedStart (complete_pre_start_check_helper result_fd report)
  | EvCheckTimeout deadline now_ns => answer FailedStart (timeout_pre_start_check_helper deadline now_ns)
  | EvPreHookEnded job_event => answer FailedStart (complete_pre_start_hook_job job_event)
  | EvPreHookTimeout deadline now_ns => answer FailedStart (timeout_pre_start_hook deadline now_ns)
  | EvReady request => answer FailedStart (complete_start_readiness request)
  | EvReadinessTimeout deadline now_ns => answer FailedStart (timeout_readiness deadline now_ns)
  | EvPostHookEnded job_event => answer FailedStart (complete_post_start_hook_job job_event)
  | EvPostHookTimeout deadline now_ns => answer FailedStart (timeout_post_start_hook deadline now_ns)
  | EvMainTimeout job_id now_ns => answer FailedStart (timeout_service_main_start job_id now_ns)
  | EvMainStarted job_event => answer FailedMainStarted (apply_service_main_job_started job_event)
  | EvMainEnded job_event => answer FailedMainEnded (apply_service_main_job_terminal job_event)
  end.

(** Events one after the other; one that fails does not stop the next. *)
Fixpoint handle_start_events (events : list StartEvent) (s : State) : option State :=
  match events with
  | [] => Some s
  | event :: events =>
      match handle_start_event event s with
      | Some (s, _) => handle_start_events events s
      | None => None
      end
  end.

Lemma serves_answer {E A} (wrap : E → StartEventError) (m : Step P E A) : serves exec_wf m → serves exec_wf (answer wrap m).
Proof. intros Hm. apply serves_bind; [by apply serves_map_err|]. intros. apply serves_ret. Qed.

Lemma handle_serves event : serves exec_wf (handle_start_event event).
Proof.
  destruct event; apply serves_answer; auto using begin_graph_pre_start_check_serves,
    begin_prechecked_ready_start_serves, begin_ready_start_serves, begin_restart_start_leg_serves,
    complete_pre_start_check_helper_serves, timeout_pre_start_check_helper_serves, complete_pre_start_hook_job_serves,
    timeout_pre_start_hook_serves, complete_start_readiness_serves, timeout_readiness_serves,
    complete_post_start_hook_job_serves, timeout_post_start_hook_serves, timeout_service_main_start_serves,
    apply_service_main_job_started_serves, apply_service_main_job_terminal_serves.
Qed.

(** *** All or nothing *)

Notation undoes := (undone restore).

Lemma undoes_atomic {E A} (m : Step P E A) : undoes (atomic m).
Proof. by apply undone_atomic. Qed.

Lemma reads_require {E A} (e : E) (f : State → option A) : reads (require e f).
Proof. apply reads_bind; [apply reads_get|]. intros. apply reads_lift. Qed.

Ltac undo_step :=
  match goal with
  | |- undoes (atomic _) => apply undoes_atomic
  | |- undoes (exec_map_err _ _) => apply undone_map_err
  | |- undoes (mret _) => by apply undone_reads; [intros []|apply reads_ret]
  | |- undoes (exec_fail _) => by apply undone_reads; [intros []|apply reads_fail]
  | |- undoes (exec_lift _) => by apply undone_reads; [intros []|apply reads_lift]
  | |- undoes (exec_get _ ≫= _) => apply undone_bind_reads; [by intros []|apply reads_get|intros ?]
  | |- undoes (exec_lift _ ≫= _) => apply undone_bind_reads; [by intros []|apply reads_lift|intros ?]
  | |- undoes (require _ _ ≫= _) => apply undone_bind_reads; [by intros []|apply reads_require|intros ?]
  | |- undoes (_ ≫= λ _, mret _) => apply undone_bind_last; [|intros ?; apply never_fails_ret]
  | |- undoes (match ?x with _ => _ end) => destruct x
  end.
Ltac undo := repeat undo_step.

Lemma undoes_satisfaction request : undoes (apply_start_satisfaction request : Step P _ _).
Proof. unfold apply_start_satisfaction. undo. Qed.

Lemma undoes_failure request : undoes (apply_start_failure request : Step P _ _).
Proof. unfold apply_start_failure. undo. Qed.

Lemma undoes_readiness request : undoes (complete_start_readiness request : Step P Error _).
Proof. unfold complete_start_readiness. undo. apply undoes_satisfaction. Qed.

Lemma undoes_main_ended event :
  undoes (apply_service_main_job_terminal event : Step P (ServiceMainJobTerminalError (BoundaryError := BoundaryError)) _).
Proof.
  unfold apply_service_main_job_terminal, apply_oneshot_start_success, apply_start_process_failure,
    apply_active_simple_exit, apply_reloading_simple_exit, apply_restart_evaluation, apply_active_transition,
    apply_restart_backoff, apply_stopping_simple_exit, terminal_operation_id.
  undo; apply undoes_readiness.
Qed.

Lemma handle_undoes event : undoes (handle_start_event event).
Proof.
  destruct event; unfold answer; apply undone_bind_last; try (intros; apply never_fails_ret); apply undone_map_err;
    auto using undoes_readiness, undoes_main_ended;
    try exact (undoes_atomic _); unfold begin_ready_start, begin_restart_start_leg, complete_pre_start_hook_job,
      complete_post_start_hook_job, apply_service_main_job_started, apply_alive_readiness; undo; apply undoes_readiness.
Qed.

(** *** Deadlines find what they are for *)

(** The operations a start is waiting on a clock for. *)
Definition pre_hook_due (s : State) (d : PreStartHookDeadline) : Prop :=
  s.(xs_start).(ses_pre_deadlines) !! d.(hd_operation_id) = Some d.
Definition post_hook_due (s : State) (d : PostStartHookDeadline) : Prop :=
  s.(xs_start).(ses_post_deadlines) !! d.(qd_operation_id) = Some d.
Definition check_due (s : State) (d : PreStartCheckDeadline) : Prop :=
  s.(xs_start).(ses_check_deadlines) !! d.(cd_operation_id) = Some d.

Lemma helper_of_operation st fd h op :
  st.(ses_running_helpers) !! fd = Some h → h.(rh_pending).(pc_operation_id) = op →
  ∃ h', (remove_running_helper_by_operation_id op st).2 = Some h' ∧ h'.(rh_pending).(pc_operation_id) = op.
Proof using.
  intros Eh Ho. unfold remove_running_helper_by_operation_id. destruct (find_first _ _) as [[fd' h']|] eqn:Ef.
  - apply find_first_Some in Ef as [Hin%elem_of_btree_iter Hop%bool_decide_eq_true]. exists h'.
    unfold remove_running_helper_by_result_fd. by rewrite Hin.
  - eapply find_first_None in Ef; [|apply elem_of_btree_iter, Eh]. simpl in Ef. by rewrite bool_decide_eq_false in Ef.
Qed.

(** The timeout did not fail for want of the start it is for. *)
Definition found_start (e : Error) : Prop :=
  match e with
  | SeMissingPreStartHookSequence _ | SeMissingPostStartHookSequence _ | SeUnknownPreStartCheckHelper _ => False
  | _ => True
  end.

Ltac finds :=
  repeat match goal with
  | |- errs _ (mret _) => apply errs_ret
  | |- errs _ (exec_get _) => apply errs_get
  | |- errs _ (on_start _) => apply errs_update
  | |- errs _ (exec_lift _) => apply errs_lift; intros ? ?
  | |- errs _ (exec_fail _) => apply errs_lift; intros ? [= <-]; exact I
  | |- errs _ (require _ _) => apply errs_bind; [apply errs_get|intros ?; apply errs_lift; intros ? ?]
  | |- errs _ (exec_map_err _ _) => by apply errs_map_err
  | |- errs _ (exec_each _ _) => apply errs_each; intros ?
  | |- errs _ (_ ≫= _) => apply errs_bind; [|intros ?]
  | |- errs _ (match ?x with _ => _ end) => destruct x
  | H : ok_or ?o _ = Err _ |- found_start _ => destruct o; [done|injection H as <-; exact I]
  | H : map_err _ ?r = Err _ |- found_start _ => destruct r; [done|injection H as <-; exact I]
  | |- errs _ (on_graph _ _) => by apply errs_within
  | |- errs _ _ => by apply errs_on
  end.

Lemma timed_out_job_found id now_ns before running :
  errs found_start (fail_timed_out_job id now_ns before running : Step P Error _).
Proof. unfold fail_timed_out_job. finds. Qed.

Lemma complete_post_found q at_ns : errs found_start (complete_post_start_operation q at_ns : Step P Error _).
Proof. unfold complete_post_start_operation. finds. Qed.

Lemma parse_hooks_found invalid i commands e :
  (∀ i c x, found_start (invalid i c x)) → parse_hook_commands invalid i commands = Err e → found_start e.
Proof using.
  intros Hi. revert i. induction commands as [|c commands IH]; intros i; simpl; [done|].
  destruct (parse_executable_command c); simpl; [|intros [= <-]; apply Hi].
  destruct (parse_hook_commands _ _ _) eqn:E; simpl; [done|]. intros [= <-]. by eapply IH.
Qed.

Lemma check_complete_found fd pending results :
  errs found_start (complete_pre_start_check_from_pending fd pending results : Step P Error _).
Proof.
  unfold complete_pre_start_check_from_pending, apply_check_passed, check_passed_job, apply_check_skipped,
    apply_check_assertion_failed, apply_pending_pre_dependency_failure, job_id_for_ready_start,
    create_initial_start_job, create_initial_main_job, create_initial_pre_start_hook,
    record_request_readiness_deadline, skip_service, cancel_dormant_dependencies, cancel_pruned_operations,
    allocate_job_id.
  finds; first [by (eapply parse_hooks_found; [|eassumption])|unfold pre_start_hook_job in *; finds].
Qed.

Lemma undone_err {E A} (Q : E → Prop) (m : Step P E A) s s' e :
  (∀ s1, m s = Some (s1, Err e) → Q e) → atomic m s = Some (s', Err e) → Q e.
Proof.
  intros Hm. unfold atomic, exec_atomic. destruct (m s) as [[s1 [a|e1]]|] eqn:Em; [done| |done].
  intros [= _ <-]. by apply (Hm s1).
Qed.

(** A timeout whose start is found fails only where its work fails. *)
Lemma found_errs {E A B} (Q : E → Prop) f (g : StartExecutionStore → option A) e0 (k : A → Step P E B) s s' e q :
  g (f s.(xs_start)) = Some q → errs Q (k q) →
  atomic (_ ← on_start f; x ← require e0 (λ s, g s.(xs_start)); k x) s = Some (s', Err e) → Q e.
Proof.
  intros Eq Hk. apply undone_err. intros s1. unfold require, on_start, mbind, exec_bind, exec_update, exec_get, exec_lift.
  simpl. rewrite Eq. simpl. apply Hk.
Qed.

Lemma found_errs_with {E A B} (Q : E → Prop) f (g : StartExecutionStore → StartExecutionStore * option A) e0
    (k : A → Step P E B) s s' e q :
  (g (f s.(xs_start))).2 = Some q → errs Q (k q) →
  atomic (_ ← on_start f; x ← on_start_with g; y ← exec_lift (ok_or x e0); k y) s = Some (s', Err e) → Q e.
Proof.
  intros Eq Hk. apply undone_err. intros s1. unfold on_start, on_start_with, mbind, exec_bind, exec_update, exec_on.
  simpl. destruct (g (f (xs_start s))) as [st o]. simpl in Eq. subst o. simpl. apply Hk.
Qed.

(** A deadline of a start never fires in vain: in a well-formed state, a
    hook that times out still has its sequence, and a filesystem check that
    times out still has its helper, so no timeout fails for want of the start
    it is for. *)
Theorem due_deadlines_find_their_start s :
  exec_wf s →
  (∀ d now_ns, pre_hook_due s d →
     ∃ s' r, timeout_pre_start_hook d now_ns s = Some (s', r) ∧ ∀ e, r = Err e → found_start e) ∧
  (∀ d now_ns, post_hook_due s d →
     ∃ s' r, timeout_post_start_hook d now_ns s = Some (s', r) ∧ ∀ e, r = Err e → found_start e) ∧
  (∀ d now_ns, check_due s d →
     ∃ s' r, timeout_pre_start_check_helper d now_ns s = Some (s', r) ∧ ∀ e, r = Err e → found_start e).
Proof.
  intros Hs. pose proof Hs as [Hwf Hst]. split_and!; intros d now_ns Hd.
  - destruct (timeout_pre_start_hook_serves d now_ns s Hs) as (s' & r & E & _). exists s', r. split; [done|].
    intros e ->. revert E. destruct (stw_pre_deadline _ Hst _ _ Hd) as (_ & q & Eq & _).
    apply (found_errs _ _ (λ st, st.(ses_pre_sequences) !! d.(hd_operation_id)) _ _ _ _ _ q); [done|].
    finds. apply timed_out_job_found.
  - destruct (timeout_post_start_hook_serves d now_ns s Hs) as (s' & r & E & _). exists s', r. split; [done|].
    intros e ->. revert E. destruct (stw_post_deadline _ Hst _ _ Hd) as (_ & q & Eq & _).
    apply (found_errs _ _ (λ st, st.(ses_post_sequences) !! d.(qd_operation_id)) _ _ _ _ _ q); [done|].
    finds; [apply timed_out_job_found|apply complete_post_found].
  - destruct (timeout_pre_start_check_helper_serves d now_ns s Hs) as (s' & r & E & _). exists s', r. split; [done|].
    intros e ->. revert E. destruct (stw_check_deadline _ Hst _ _ Hd) as (_ & h & Eh & Ho).
    destruct (helper_of_operation (remove_pre_start_check_deadline d.(cd_operation_id) s.(xs_start)) _ h _ Eh Ho)
      as (h' & Eh' & _).
    by apply (found_errs_with _ _ _ _ _ _ _ _ h'); [|finds; apply check_complete_found].
Qed.

(** C7: Whatever happens to starts, and in whatever order - a start released by
    the graph in one step or two, the start leg of a restart, the report or the
    timeout of a filesystem check, the end or the timeout of a hook, readiness
    or its timeout, a main process that starts, ends or times out - every event
    is answered, and the service table, the operations, the graph contexts, the
    jobs and the start store stay well formed. *)
Theorem start_events_keep_stores events s :
  exec_wf s → ∃ s', handle_start_events events s = Some s' ∧ exec_wf s'.
Proof.
  revert s. induction events as [|event events IH]; intros s Hs; simpl; [by exists s|].
  destruct (handle_serves event s Hs) as (s1 & r & -> & H1). by apply IH.
Qed.

(** An event of a start does all of its work or none: when it is refused,
    every store is exactly as it was, and only a control group that was killed
    on the way stays killed. *)
Theorem start_event_all_or_nothing event s s' e :
  handle_start_event event s = Some (s', Err e) →
  s'.(xs_services) = s.(xs_services) ∧ s'.(xs_operations) = s.(xs_operations) ∧ s'.(xs_graph) = s.(xs_graph) ∧
  s'.(xs_jobs) = s.(xs_jobs) ∧ s'.(xs_job_ids) = s.(xs_job_ids) ∧ s'.(xs_start) = s.(xs_start).
Proof. intros E%handle_undoes. rewrite E. done. Qed.
End Inv.

(** ** A start with a hook *)

(** A kernel that does as it is told, or refuses to kill control groups. *)
#[local] Instance start_kernel : ProcessController bool string := {|
  pidfd_matches_pid (_ _ : Z) (c : bool) := (c, Ok true);
  close_pidfd (_ : Z) (c : bool) := (c, Ok tt);
  signal_main (_ : ProcessTarget) (_ : ProcessSignal) (c : bool) := (c, Ok tt);
  kill_cgroup (_ : string) (c : bool) := (c, if c then Ok tt else Err "no such control group");
  cgroup_populated (_ : string) (c : bool) := (c, Ok false);
  remove_cgroup (_ : string) (c : bool) := (c, Ok CgRemoved) |}.

Definition hooked_app : ServiceDefinition :=
  {| (simple_system_boot "app" "/bin/app") with sd_exec_start_pre := ["/bin/prepare --all"] |}.

(** "app" has been asked for and nothing has begun. *)
Definition asked_state (kernel : bool) : ExecState bool := {|
  xs_services := match from_boot_snapshot [hooked_app] with Ok t => t | Err _ => ∅ end;
  xs_operations := (request_operation (example_request 1 OpStart 10) op_store_new).1;
  xs_graph := graph_store_new;
  xs_jobs := job_store_new;
  xs_job_ids := 0;
  xs_start := start_store_new;
  xs_controller := kernel;
|}.

Definition app_request : StartExecutionRequest := {|
  ser_ready := {| rg_context_id := 0; rg_service := "app"; rg_operation_id := 1; rg_reserved_job_id := None;
    rg_transition_cause := TcExplicitStart; rg_action := ReadyStart; rg_released_from_hold := false |};
  ser_resolved_identity := "SYSTEM";
  ser_token_summary := requested_identity "SYSTEM";
  ser_started_at_ns := 20;
|}.

(** Its first hook is running. *)
Definition hook_state (kernel : bool) : ExecState bool :=
  default (asked_state kernel) (handle_start_events [EvStartAtOnce app_request] (asked_state kernel)).

Definition hook_deadline (kernel : bool) : option PreStartHookDeadline :=
  (hook_state kernel).(xs_start).(ses_pre_deadlines) !! 1.

Lemma asked_state_wf kernel : exec_wf (asked_state kernel).
Proof.
  split; [|apply start_store_new_wf]. split; simpl.
  - destruct (from_boot_snapshot [hooked_app]) as [t|] eqn:E; [by eapply boot_wf|done].
  - apply op_reachable_store_wf. apply rtc_once, ostep_request. simpl. lia.
  - apply graph_store_new_wf.
  - apply (job_reachable_ledger_wf empty_ledger), rtc_refl.
Qed.

Lemma hook_state_wf kernel : exec_wf (hook_state kernel).
Proof.
  unfold hook_state. cbn [handle_start_events].
  destruct (handle_serves (EvStartAtOnce app_request) _ (asked_state_wf kernel)) as (s & r & -> & H). done.
Qed.

(** *** The theorems on it *)

Definition the_hook_deadline : PreStartHookDeadline := {|
  hd_operation_id := 1;
  hd_job_id := 528914269453437118775316;
  hd_service := "app";
  hd_hooks_cgroup_id := "/sys/fs/cgroup/peinit/app/hooks";
  hd_service_cgroup_id := "/sys/fs/cgroup/peinit/app";
  hd_due_at_ns := 30000000010;
|}.

Lemma start_events_keep_stores_witness :
  ∃ s, handle_start_events [EvStartAtOnce app_request; EvPreHookTimeout the_hook_deadline 30000000010] (asked_state true)
         = Some s ∧ exec_wf s.
Proof. apply start_events_keep_stores. apply asked_state_wf. Defined.

(** The hook times out, its service fails and waits for its restart. *)
Example hook_timeout_fails_start :
  match handle_start_events [EvPreHookTimeout the_hook_deadline 30000000010] (hook_state true) with
  | Some s => rt_state <$> table_runtime s.(xs_services) "app" = Some StBackoff ∧
              or_state <$> s.(xs_operations).(op_records) !! 1 = Some OsFailed ∧
              s.(xs_start).(ses_pre_sequences) !! 1 = None
  | None => False
  end.
Proof. vm_compute. auto. Qed.

(** The kernel does not kill the control group: the timeout is refused. *)
Lemma start_event_all_or_nothing_witness :
  ∃ s' e, handle_start_event (EvPreHookTimeout the_hook_deadline 30000000010) (hook_state false) = Some (s', Err e) ∧
    s'.(xs_jobs) = (hook_state false).(xs_jobs).
Proof.
  destruct (handle_start_event (EvPreHookTimeout the_hook_deadline 30000000010) (hook_state false))
    as [[s' [[]|e]]|] eqn:E; [by vm_compute in E| |by vm_compute in E].
  exists s', e. split; [reflexivity|]. destruct (start_event_all_or_nothing _ _ _ _ E) as (_ & _ & _ & H & _). exact H.
Defined.

Lemma due_deadlines_find_their_start_witness :
  ∃ s' r, timeout_pre_start_hook the_hook_deadline 30000000010 (hook_state true) = Some (s', r) ∧
    ∀ e, r = Err e → found_start e.
Proof.
  destruct (due_deadlines_find_their_start (hook_state true) (hook_state_wf true)) as (H & _ & _).
  apply (H the_hook_deadline 30000000010). vm_compute. reflexivity.
Defined.
