(* ===== verification/StartSpec.v ===== *)
(** * What a start does

    About [StartBegin], [StartState] and [MainProcess]: the checks before a
    start decide as their definitions say, however they are split between the
    cached registry and the filesystem helper; a start that fails is held for a
    restart exactly when the restart policy grants one, and otherwise takes its
    dependents with it; the end of a main process has one outcome per state. *)

From S2P Require Import Prelude RustStr ServiceRuntime ServiceDef Ids Restart Cgroup ServiceTable ServiceReload ServiceTableInv Tty FailureDispatch.
From S2P Require Import OperationRecord OperationStore OperationInv ExecCommand ExecGraph ExecGraphSpec ExecGraphInv.
From S2P Require Import JobRecord JobStore Effects StartState StartBegin StartRun MainProcess StartInv.
From Stdlib Require Import String.
Open Scope string_scope.
Open Scope list_scope.
Open Scope Z_scope.

(** ** Checks *)

(** What a start is to do. *)
Inductive Verdict : Type := VStart | VSkip (cause : TransitionCause) | VFail.

Section Checks.
Context (services : gmap string ServiceEntry).
(** What the filesystem holds: the answer of [stat] to each check. *)
Context (filesystem : ServiceCheck → bool).

Definition on_filesystem (check : ServiceCheck) : bool :=
  match check.(chk_kind) with CheckRegistry => false | _ => true end.

Definition check_holds (check : ServiceCheck) : bool :=
  if on_filesystem check then filesystem check else cached_registry_key_exists services check.(chk_argument).

(** The rule: a terminal that is taken skips the start, so does a condition
    that does not hold; then an assertion that does not hold fails it. *)
Definition verdict (service : string) (definition : ServiceDefinition) : Verdict :=
  match tty_unavailable services service definition with
  | Some reason => VSkip (skip_cause reason)
  | None =>
      if forallb check_holds definition.(sd_conditions)
      then if forallb check_holds definition.(sd_asserts) then VStart else VFail
      else VSkip TcConditionSkipped
  end.

Definition verdict_of (decision : PreStartCheckDecision) : option Verdict :=
  match decision with
  | DecPassed => Some VStart
  | DecSkipped reason => Some (VSkip (skip_cause reason))
  | DecAssertionFailed _ => Some VFail
  | DecRequiresFilesystemHelper _ => None
  end.

Definition helper_results (checks : list ServiceCheck) : list FilesystemCheckResult :=
  map (λ check, {| fr_check := check; fr_satisfied := filesystem check |}) checks.

(** What peinit does: the cached part first, and the helper if it must. *)
Definition decide_in_two_phases (service : string) (definition : ServiceDefinition) : PreStartCheckDecision :=
  match evaluate_cacheable_pre_start_checks services service definition with
  | DecRequiresFilesystemHelper checks =>
      evaluate_pre_start_checks_with_filesystem_results services service definition (helper_results checks)
  | decision => decision
  end.

Definition registry_fails (check : ServiceCheck) : bool := negb (on_filesystem check) && negb (check_holds check).

Lemma evaluate_checks_spec acc checks :
  evaluate_checks services acc checks =
  match find_first registry_fails checks with
  | Some check => SetFailed check
  | None =>
      let pending := acc ++ filter (λ c, on_filesystem c = true) checks in
      if bool_decide (pending = []) then SetPassed else SetRequiresFilesystemHelper pending
  end.
Proof.
  revert acc. induction checks as [|c checks IH]; intros acc; simpl; [by rewrite app_nil_r|].
  assert (on_filesystem c = match c.(chk_kind) with CheckRegistry => false | _ => true end) as Hf by done.
  unfold registry_fails at 1, check_holds. rewrite filter_cons. destruct (chk_kind c); rewrite Hf; simpl;
    rewrite ?decide_True, ?decide_False, ?IH, <-?app_assoc by done; try done.
  by destruct (cached_registry_key_exists _ _).
Qed.

Lemma extend_filesystem_spec gathered checks c :
  c ∈ extend_filesystem_checks gathered checks ↔ c ∈ gathered ∨ c ∈ checks.
Proof.
  unfold extend_filesystem_checks. revert gathered. induction checks as [|x checks IH]; intros gathered; simpl.
  { rewrite elem_of_nil. tauto. }
  rewrite IH, elem_of_cons. case_bool_decide; [naive_solver|]. rewrite elem_of_app, list_elem_of_singleton. tauto.
Qed.

Lemma extend_filesystem_empty gathered checks :
  extend_filesystem_checks gathered checks = [] ↔ gathered = [] ∧ checks = [].
Proof.
  split.
  - intros E. assert (∀ c, ¬ (c ∈ gathered ∨ c ∈ checks)) as H.
    { intros c Hc%extend_filesystem_spec. rewrite E in Hc. by apply elem_of_nil in Hc. }
    split; [destruct gathered as [|c l]|destruct checks as [|c l]]; try done; destruct (H c); [left|right]; left.
  - by intros [-> ->].
Qed.

Lemma find_first_forallb {A} (p : A → bool) l :
  find_first (λ x, negb (p x)) l = None ↔ forallb p l = true.
Proof.
  induction l as [|x l IH]; simpl; [done|]. destruct (p x); simpl; [exact IH|done].
Qed.

Lemma satisfied_in_results check checks :
  check ∈ checks → filesystem_check_satisfied check (helper_results checks) = filesystem check.
Proof.
  intros Hc. unfold filesystem_check_satisfied. destruct (find_first _ _) as [r|] eqn:E; simpl.
  - apply find_first_Some in E as [(c & -> & _)%list_elem_of_fmap H%bool_decide_eq_true]. simpl in *. by subst.
  - eapply find_first_None in E; [|by apply list_elem_of_fmap_2]. simpl in E. by rewrite bool_decide_eq_false in E.
Qed.

Lemma find_first_ext {A} (p q : A → bool) l : (∀ x, x ∈ l → p x = q x) → find_first p l = find_first q l.
Proof.
  induction l as [|x l IH]; intros H; simpl; [done|]. rewrite H by left. rewrite IH; [done|]. intros. apply H. by right.
Qed.

(** The checks the helper was asked about are judged as the filesystem is. *)
Lemma failed_check_with_results checks asked :
  (∀ c, c ∈ checks → on_filesystem c = true → c ∈ asked) →
  failed_check_with_filesystem_results services checks (helper_results asked) =
  find_first (λ c, negb (check_holds c)) checks.
Proof.
  intros Ha. apply find_first_ext. intros c Hc. f_equal. specialize (Ha c Hc). unfold check_holds.
  unfold on_filesystem in *. destruct (chk_kind c); rewrite ?satisfied_in_results; auto.
Qed.

Definition filesystem_checks (checks : list ServiceCheck) : list ServiceCheck :=
  filter (λ c, on_filesystem c = true) checks.

(** The decision from the cache, in closed form. *)
Lemma cacheable_spec service definition :
  tty_unavailable services service definition = None →
  evaluate_cacheable_pre_start_checks services service definition =
  let waiting := extend_filesystem_checks [] (filesystem_checks definition.(sd_conditions)) in
  let all := extend_filesystem_checks waiting (filesystem_checks definition.(sd_asserts)) in
  match find_first registry_fails definition.(sd_conditions), find_first registry_fails definition.(sd_asserts) with
  | Some check, _ => DecSkipped (SkipCondition check)
  | None, Some check => if bool_decide (waiting = []) then DecAssertionFailed check else DecRequiresFilesystemHelper waiting
  | None, None => if bool_decide (all = []) then DecPassed else DecRequiresFilesystemHelper all
  end.
Proof.
  intros Et. unfold evaluate_cacheable_pre_start_checks, evaluate_check_set. rewrite Et, !evaluate_checks_spec. simpl.
  fold (filesystem_checks (sd_conditions definition)) (filesystem_checks (sd_asserts definition)).
  destruct (find_first registry_fails (sd_conditions definition)); [done|].
  destruct (filesystem_checks (sd_conditions definition)) as [|c cs] eqn:Ec; simpl;
    destruct (find_first registry_fails (sd_asserts definition)); try done;
    destruct (filesystem_checks (sd_asserts definition)) as [|d ds] eqn:Ed; simpl; try done.
  - by case_bool_decide.
  - by case_bool_decide.
Qed.

Lemma registry_holds checks :
  find_first registry_fails checks = None → filesystem_checks checks = [] → forallb check_holds checks = true.
Proof.
  intros Hr Hf. apply find_first_forallb, find_first_None. intros c Hc. eapply find_first_None in Hr; [|exact Hc].
  unfold registry_fails in Hr. destruct (on_filesystem c) eqn:Eo; [|by destruct (check_holds c)].
  assert (c ∈ filesystem_checks checks) as H by (by apply list_elem_of_filter). rewrite Hf in H. by apply elem_of_nil in H.
Qed.

Lemma registry_refutes checks c : find_first registry_fails checks = Some c → forallb check_holds checks = false.
Proof.
  intros [Hc Hr]%find_first_Some. apply not_true_iff_false. rewrite <-find_first_forallb, find_first_None. intros H.
  specialize (H c Hc). unfold registry_fails in Hr. apply andb_true_iff in Hr as [_ Hr]. congruence.
Qed.

(** A set whose checks the helper was asked about. *)
Lemma asked_verdict checks asked :
  (∀ c, c ∈ filesystem_checks checks → c ∈ asked) →
  is_Some (failed_check_with_filesystem_results services checks (helper_results asked)) ↔
  forallb check_holds checks = false.
Proof.
  intros Ha. rewrite failed_check_with_results by (intros c ? ?; apply Ha; by apply list_elem_of_filter).
  rewrite <-not_true_iff_false, <-find_first_forallb. symmetry. apply not_eq_None_Some.
Qed.

(** A set with a registry check that fails, whatever the helper was asked. *)
Lemma refuted_verdict checks asked c :
  find_first registry_fails checks = Some c →
  is_Some (failed_check_with_filesystem_results services checks (helper_results asked)).
Proof.
  intros [Hc Hr]%find_first_Some. apply not_eq_None_Some. unfold failed_check_with_filesystem_results.
  rewrite find_first_None. intros H. specialize (H c Hc). revert H Hr. unfold registry_fails, check_holds, on_filesystem.
  destruct (chk_kind c); simpl; [done..|]. by destruct (cached_registry_key_exists _ _).
Qed.

Lemma extend_NoDup gathered checks : NoDup gathered → NoDup (extend_filesystem_checks gathered checks).
Proof.
  unfold extend_filesystem_checks. revert gathered. induction checks as [|x checks IH]; intros gathered Hg; simpl; [done|].
  apply IH. case_bool_decide; [done|]. by apply NoDup_snoc.
Qed.

(** C36: Splitting the checks does not change the decision. Whatever the
    registry and the filesystem hold, evaluating the cached part first and the
    rest with the helper's report starts, skips or fails the service exactly as
    evaluating every check would: conditions come before assertions, also when
    a condition must wait for the helper and a cached assertion has already
    failed. The helper is asked only about the filesystem, about every such
    check of a set it decides, and never a second time. *)
Theorem two_phase_checks_agree service definition :
  verdict_of (decide_in_two_phases service definition) = Some (verdict service definition) ∧
  ∀ checks, evaluate_cacheable_pre_start_checks services service definition = DecRequiresFilesystemHelper checks →
    checks ≠ [] ∧ NoDup checks ∧ ∀ check, check ∈ checks →
      on_filesystem check = true ∧ (check ∈ definition.(sd_conditions) ∨ check ∈ definition.(sd_asserts)).
Proof.
  destruct (tty_unavailable services service definition) as [reason|] eqn:Et.
  { unfold decide_in_two_phases, verdict, evaluate_cacheable_pre_start_checks. by rewrite Et. }
  unfold decide_in_two_phases, verdict. rewrite (cacheable_spec _ _ Et), Et. cbv zeta.
  set (waiting := extend_filesystem_checks [] (filesystem_checks (sd_conditions definition))).
  set (all := extend_filesystem_checks waiting (filesystem_checks (sd_asserts definition))).
  assert (∀ c, c ∈ waiting ↔ c ∈ filesystem_checks (sd_conditions definition)) as Hw.
  { intros c. unfold waiting. rewrite extend_filesystem_spec. rewrite elem_of_nil. tauto. }
  assert (∀ c, c ∈ all ↔ c ∈ waiting ∨ c ∈ filesystem_checks (sd_asserts definition)) as Hall
    by apply extend_filesystem_spec.
  assert (∀ c, c ∈ all → on_filesystem c = true ∧ (c ∈ sd_conditions definition ∨ c ∈ sd_asserts definition)) as Hfs.
  { intros c. rewrite Hall, Hw. unfold filesystem_checks. rewrite !list_elem_of_filter. tauto. }
  assert (NoDup waiting) as Nw by (apply extend_NoDup; constructor).
  assert (NoDup all) as Na by by apply extend_NoDup.
  split.
  - destruct (find_first registry_fails (sd_conditions definition)) as [c|] eqn:Ec.
    { by rewrite (registry_refutes _ _ Ec). }
    destruct (find_first registry_fails (sd_asserts definition)) as [a|] eqn:Ea.
    + rewrite (registry_refutes _ _ Ea). case_bool_decide as Hn.
      { rewrite registry_holds; [done..|]. by apply extend_filesystem_empty in Hn as [_ ?]. }
      unfold evaluate_pre_start_checks_with_filesystem_results. rewrite Et.
      destruct (asked_verdict (sd_conditions definition) waiting) as [H1 H2]; [intros c Hc; by apply Hw|].
      destruct (forallb check_holds (sd_conditions definition)); [|by destruct H2 as [? ->]].
      destruct (failed_check_with_filesystem_results _ (sd_conditions definition) _); [by specialize (H1 (mk_is_Some _ _ eq_refl))|].
      by destruct (refuted_verdict (sd_asserts definition) waiting a Ea) as [? ->].
    + case_bool_decide as Hn.
      { apply extend_filesystem_empty in Hn as [[_ ?]%extend_filesystem_empty ?]. by rewrite !registry_holds. }
      unfold evaluate_pre_start_checks_with_filesystem_results. rewrite Et.
      destruct (asked_verdict (sd_conditions definition) all) as [H1 H2]; [intros c Hc; apply Hall; left; by apply Hw|].
      destruct (asked_verdict (sd_asserts definition) all) as [A1 A2]; [intros c Hc; apply Hall; by right|].
      destruct (forallb check_holds (sd_conditions definition)); [|by destruct H2 as [? ->]].
      destruct (failed_check_with_filesystem_results _ (sd_conditions definition) _); [by specialize (H1 (mk_is_Some _ _ eq_refl))|].
      destruct (forallb check_holds (sd_asserts definition)); [|by destruct A2 as [? ->]].
      destruct (failed_check_with_filesystem_results _ (sd_asserts definition) _); [by specialize (A1 (mk_is_Some _ _ eq_refl))|done].
  - intros checks E. destruct (find_first registry_fails (sd_conditions definition)); [done|].
    destruct (find_first registry_fails (sd_asserts definition)); case_bool_decide; simplify_eq; [|by split_and!].
    split_and!; [done..|]. intros c Hc. apply Hfs, Hall. by left.
Qed.
End Checks.

(** The services of the checks below: none. *)
Definition console_check (kind : ServiceCheckKind) (argument : string) : ServiceCheck :=
  {| chk_kind := kind; chk_argument := argument |}.

Definition checked_app : ServiceDefinition :=
  {| (simple_system_boot "app" "/bin/app") with
     sd_conditions := [console_check CheckPath "/run/ready"];
     sd_asserts := [console_check CheckPath "/bin/app"; console_check CheckRegistry "Machine\System\Other"] |}.

(** The reason can name a check that holds. With every path present, the start
    of this service fails, as it must, for its registry assertion; but the
    helper was asked about the condition's path only, so the reason given is
    the first assertion's path, which the filesystem has. The comment on
    [evaluate_cacheable_pre_start_checks] says that the filesystem checks of
    both lists are gathered and that the completion reaches the same
    assertion. *)
Theorem assertion_reason_can_hold :
  decide_in_two_phases ∅ (λ _, true) "app" checked_app = DecAssertionFailed (console_check CheckPath "/bin/app") ∧
  check_holds ∅ (λ _, true) (console_check CheckPath "/bin/app") = true ∧
  check_holds ∅ (λ _, true) (console_check CheckRegistry "Machine\System\Other") = false.
Proof. vm_compute. auto. Qed.

(** ** Decisions a start cannot carry out

    A start may begin in any state but [Abandoned]; the transition its checks
    call for is not permitted from all of them. *)

#[local] Instance idle_kernel : ProcessController unit string := {|
  pidfd_matches_pid (_ _ : Z) (c : unit) := (c, Ok true);
  close_pidfd (_ : Z) (c : unit) := (c, Ok tt);
  signal_main (_ : ProcessTarget) (_ : ProcessSignal) (c : unit) := (c, Ok tt);
  kill_cgroup (_ : string) (c : unit) := (c, Ok tt);
  cgroup_populated (_ : string) (c : unit) := (c, Ok false);
  remove_cgroup (_ : string) (c : unit) := (c, Ok CgRemoved) |}.

(** A table taken through transitions. *)
Definition moved_table (definitions : list ServiceDefinition) (moves : list (string * ServiceState * TransitionCause))
    : gmap string ServiceEntry :=
  foldl (λ t '(service, to, cause), (transition_service service {| st_to := to; st_cause := cause |} t).1)
    (match from_boot_snapshot definitions with Ok t => t | Err _ => ∅ end) moves.

Definition state_with (services : gmap string ServiceEntry) (operations : OperationStore) : ExecState unit := {|
  xs_services := services;
  xs_operations := operations;
  xs_graph := graph_store_new;
  xs_jobs := job_store_new;
  xs_job_ids := 0;
  xs_start := start_store_new;
  xs_controller := tt;
|}.

Definition requested (type : OperationType) : OperationStore :=
  (request_operation (example_request 1 type 10) op_store_new).1.

Definition failed_moves : list (string * ServiceState * TransitionCause) :=
  [("app", StStarting, TcExplicitStart); ("app", StFailed, TcProcessCrash)].

Definition refused_transition {A} (r : option (ExecState unit * Result A (StartExecutionError string)))
    : option (ServiceState * ServiceState * TransitionCause) :=
  match r with
  | Some (_, Err (SeServiceTable (TransitionError (InvalidTransition _ from to cause)))) => Some (from, to, cause)
  | Some (_, Err (SeStartFailure (SfServiceTable (TransitionError (InvalidTransition _ from to cause))))) =>
      Some (from, to, cause)
  | _ => None
  end.

Definition conditional_app : ServiceDefinition :=
  {| (simple_system_boot "app" "/bin/app") with
     sd_conditions := [console_check CheckRegistry "Machine\System\Services\missing"] |}.

Definition asserting_app : ServiceDefinition :=
  {| (simple_system_boot "app" "/bin/app") with
     sd_asserts := [console_check CheckRegistry "Machine\System\Services\missing"] |}.

(** A start of a service that has failed is accepted, but when one of its
    conditions does not hold, or one of its assertions, the start is an error:
    [precheck_skipped] asks for Failed to Skipped and
    [apply_pending_pre_dependency_failure] for Failed to Failed, which the
    rules do not permit; so is the start of a completed oneshot whose condition
    no longer holds, and a relaunch whose assertion fails in Backoff. For a
    Skipped service the same error was fixed by [clear_skipped_for_explicit_start]. *)
Theorem decision_refused_by_state :
  let start definition moves :=
    refused_transition (begin_graph_pre_start_check app_request
      (state_with (moved_table [definition] moves) (requested OpStart))) in
  let completed := {| conditional_app with sd_service_type := TypeOneshot |} in
  start conditional_app failed_moves = Some (StFailed, StSkipped, TcConditionSkipped) ∧
  start completed [("app", StStarting, TcExplicitStart); ("app", StCompleted, TcExplicitStart)] =
    Some (StCompleted, StSkipped, TcConditionSkipped) ∧
  refused_transition (begin_ready_start app_request
    (state_with (moved_table [asserting_app] failed_moves) (requested OpStart))) =
    Some (StFailed, StFailed, TcAssertionError) ∧
  refused_transition (begin_ready_start app_request
    (state_with (moved_table [asserting_app] [("app", StStarting, TcExplicitStart); ("app", StBackoff, TcProcessCrash)])
       (requested OpStart))) = Some (StBackoff, StFailed, TcAssertionError).
Proof. vm_compute. auto. Qed.

(** Two services that share a terminal. *)
Definition console_pair : list ServiceDefinition :=
  [ {| (simple_system_boot "app" "/bin/app") with sd_console_path := Some "/dev/tty1" |};
    {| (simple_system_boot "getty" "/bin/getty") with sd_console_path := Some "/dev/tty1" |} ].

Definition restart_request : RestartStartExecutionRequest := {|
  rsr_service := "app"; rsr_operation_id := 1; rsr_resolved_identity := "SYSTEM";
  rsr_token_summary := requested_identity "SYSTEM"; rsr_started_at_ns := 20 |}.

(** The start leg of a restart enters Starting before its checks, and a
    terminal that another service took in between cannot skip it: Starting to
    Skipped is permitted for a condition only, so the restart is an error, not
    the skip that [tty_unavailable] is there for on every start path. *)
Theorem restart_leg_refused_by_terminal :
  refused_transition (begin_restart_start_leg restart_request
    (state_with (moved_table console_pair [("getty", StStarting, TcExplicitStart)])
       (start_operation 1 15 (requested OpRestart)).1)) = Some (StStarting, StSkipped, TcTtyUnavailable).
Proof. vm_compute. reflexivity. Qed.

(** ** Withdrawn definitions *)

(** "app" was starting when a reload withdrew it. *)
Definition withdrawn_state (definition : ServiceDefinition) : ExecState unit :=
  state_with (apply_definition_snapshot [] (moved_table [definition] [("app", StStarting, TcExplicitStart)])).1
    (start_operation 1 15 (requested OpStart)).1.

Definition app_job (definition : ServiceDefinition) : JobRecord :=
  new_service_main 7 {| ms_service := definition; ms_resolved_identity := "SYSTEM";
    ms_token_summary := requested_identity "SYSTEM"; ms_activation_generation := 1; ms_cgroup_generation := 0;
    ms_operation_id := 1; ms_created_at_ns := 20 |}.

Definition exited (definition : ServiceDefinition) (code : Z) : JobEvent :=
  job_event_new (app_job definition) (JevEnded 30 10 (Some code) None None).

(** The end of a start whose definition was withdrawn is an error. A oneshot
    that succeeds enters Completed and a process that crashes enters Backoff;
    either takes the withdrawn entry out of the table, and the next line
    ([mark_dependent_satisfied_since], or the deadline of the backoff) finds no
    such service, so the operation is neither completed nor failed and the
    service stays Starting. For a service that was Active,
    [apply_restart_evaluation] looks for a withdrawn definition first. *)
Theorem withdrawn_start_cannot_end :
  let oneshot := {| (simple_system_boot "app" "/bin/app") with sd_service_type := TypeOneshot |} in
  let simple := simple_system_boot "app" "/bin/app" in
  let ends definition code :=
    match apply_service_main_job_terminal (BoundaryError := string) (exited definition code) (withdrawn_state definition) with
    | Some (s, Err e) => Some (e, rt_state <$> table_runtime s.(xs_services) "app")
    | _ => None
    end in
  ends oneshot 0 =
    Some (JtStart (SeStartSatisfaction (SsServiceTable (UnknownService "app"))), Some StStarting) ∧
  ends simple 1 = Some (JtStartFailure (SfServiceTable (UnknownService "app")), Some StStarting).
Proof. vm_compute. auto. Qed.

(** ** The end of a main process *)

Section Exit.
Context {P BoundaryError : Type}.

(** What an exit makes of a service that was up. *)
Definition exit_state (entry : ServiceEntry) (ended : EndedJob) : ServiceState :=
  let definition := entry.(en_definition) in
  let crashed := bool_decide (entry.(en_runtime).(rt_state) = StReloading) || negb (is_success_for ended definition) in
  let restarts := crashed || bool_decide (definition.(sd_restart_policy) = PolicyAlways) in
  let cause := if crashed then TcProcessCrash else TcCleanExitRestart in
  if negb restarts then StInactive
  else if entry.(en_definition_removed) then if crashed then StFailed else StInactive
  else match (evaluate_restart_after_failure definition cause ended.(ej_exit_code)
                entry.(en_runtime).(rt_consecutive_restart_failures)).(re_action) with
       | EvalBackoff _ _ _ => StBackoff
       | EvalFail _ state => state
       end.

Definition is_up (state : ServiceState) : bool :=
  match state with StActive | StReloading => true | _ => false end.

(** A process whose end says nothing about its service any more. *)
Definition exits_late (entry : ServiceEntry) : bool :=
  match entry.(en_runtime).(rt_state), entry.(en_definition).(sd_service_type) with
  | StStarting, _ => false
  | (StActive | StReloading | StStopping), TypeSimple => false
  | _, _ => true
  end.

Lemma evaluation_cause definition cause exit_code failures :
  (cause = TcProcessCrash ∨ (cause = TcCleanExitRestart ∧ definition.(sd_restart_policy) = PolicyAlways)) →
  match (evaluate_restart_after_failure definition cause exit_code failures).(re_action) with
  | EvalBackoff c _ _ => c = cause
  | EvalFail c state => state = StFailed ∧ (c = TcRestartBudgetExhausted ∨ c = cause ∧ cause = TcProcessCrash)
  end.
Proof.
  intros Hc. unfold evaluate_restart_after_failure, fail. destruct Hc as [->|[-> ->]]; simpl;
    repeat case_match; simplify_eq/=; auto.
Qed.

(** The service is in [to], or its withdrawn entry is gone; nothing else has
    changed. *)
Record exit_effect (service : string) (entry : ServiceEntry) (to : ServiceState) (s s' : ExecState P) : Prop := {
  xe_state : match s'.(xs_services) !! service with
    | Some e => e.(en_runtime).(rt_state) = to
    | None => entry.(en_definition_removed) = true
    end;
  xe_others : ∀ other, other ≠ service → s'.(xs_services) !! other = s.(xs_services) !! other;
  xe_rest : set_services s.(xs_services) s' = s;
}.

Lemma active_transition_effect service event to cause s entry :
  s.(xs_services) !! service = Some entry →
  is_allowed_transition entry.(en_runtime).(rt_state) to cause = true →
  ∃ s' d, apply_active_transition (P := P) (BoundaryError := BoundaryError) service event to cause s = Some (s', Ok d) ∧
    d.(jtd_late_exit) = None ∧ exit_effect service entry to s s'.
Proof.
  intros E Ha. pose proof (transition_service_spec service {| st_to := to; st_cause := cause |} _ _ E) as H.
  unfold apply_active_transition, atomic, exec_atomic, on_services, mbind, exec_bind, exec_on.
  destruct (transition_service _ _ _) as [t' r]. simpl in H. rewrite Ha in H.
  destruct H as (Ho & result & -> & _ & Hst). simpl. eexists _, _. split; [reflexivity|]. split; [done|].
  split; simpl; [|done|by destruct s]. destruct (t' !! service); [by destruct Hst|by destruct Hst].
Qed.

Lemma backoff_effect service event cause until s entry :
  s.(xs_services) !! service = Some entry → entry.(en_definition_removed) = false →
  is_allowed_transition entry.(en_runtime).(rt_state) StBackoff cause = true →
  ∃ s' d, apply_restart_backoff (P := P) (BoundaryError := BoundaryError) service event cause until s = Some (s', Ok d) ∧
    d.(jtd_late_exit) = None ∧ exit_effect service entry StBackoff s s'.
Proof.
  intros E Hr Ha. pose proof (transition_service_spec service {| st_to := StBackoff; st_cause := cause |} _ _ E) as H.
  unfold apply_restart_backoff, atomic, exec_atomic, on_services, mbind, exec_bind, exec_on,
    transition_service_to_restart_backoff.
  destruct (transition_service _ _ _) as [t' r]. simpl in H. rewrite Ha in H.
  destruct H as (Ho & result & -> & _ & Hst). unfold with_entry.
  destruct (t' !! service) as [e'|] eqn:E'; [|destruct Hst; congruence]. destruct Hst as (Hst & _).
  unfold set_backoff. simpl. eexists _, _. split; [reflexivity|]. split; [done|].
  split; simpl; [by rewrite lookup_insert_eq| |by destruct s].
  intros other Hne. rewrite lookup_insert_ne by done. by apply Ho.
Qed.

Lemma restart_evaluation_effect service event ended cause s entry :
  s.(xs_services) !! service = Some entry →
  (entry.(en_runtime).(rt_state) = StActive ∨ entry.(en_runtime).(rt_state) = StReloading) →
  (cause = TcProcessCrash ∨
   cause = TcCleanExitRestart ∧ entry.(en_runtime).(rt_state) = StActive ∧
   entry.(en_definition).(sd_restart_policy) = PolicyAlways) →
  ∃ s' d, apply_restart_evaluation (P := P) (BoundaryError := BoundaryError) service event entry.(en_definition) ended cause s
      = Some (s', Ok d) ∧ d.(jtd_late_exit) = None ∧
    exit_effect service entry
      (if entry.(en_definition_removed) then if bool_decide (cause = TcProcessCrash) then StFailed else StInactive
       else match (evaluate_restart_after_failure entry.(en_definition) cause ended.(ej_exit_code)
                     entry.(en_runtime).(rt_consecutive_restart_failures)).(re_action) with
            | EvalBackoff _ _ _ => StBackoff
            | EvalFail _ state => state
            end) s s'.
Proof.
  intros E Hup Hc. unfold apply_restart_evaluation. unfold definition_removed.
  unfold mbind at 1, exec_bind at 1, exec_get. rewrite E. simpl. destruct (en_definition_removed entry) eqn:Hr.
  - destruct Hc as [->|(-> & Ha & _)]; simpl; apply active_transition_effect; try done;
      [by destruct Hup as [->| ->]|by rewrite Ha].
  - unfold require, table_runtime, mbind, exec_bind, exec_get, exec_lift. rewrite E. simpl.
    pose proof (evaluation_cause (en_definition entry) cause (ej_exit_code ended)
      (rt_consecutive_restart_failures (en_runtime entry))) as Hev.
    destruct (re_action _) as [c delay n|c state].
    + apply backoff_effect; try done. rewrite Hev by naive_solver.
      destruct Hc as [->|(-> & -> & _)]; [by destruct Hup as [->| ->]|done].
    + destruct Hev as [-> Hcs]; [naive_solver|]. apply active_transition_effect; [done|].
      by destruct Hcs as [->|[-> ->]], Hup as [->| ->].
Qed.

End Exit.

(** "app" is up and crashes. *)
Definition up_state : ExecState unit :=
  state_with (moved_table [simple_system_boot "app" "/bin/app"]
    [("app", StStarting, TcExplicitStart); ("app", StActive, TcExplicitStart)]) op_store_new.

