(* ===== verification/Release.v ===== *)
(** * Releasing starts

    Models what lets starts go: the supervisor's loop over the contexts of the
    execution graph ([src/src/supervisor/ready.rs], with the launch queues of
    [supervisor/work.rs]), and the relaunch of a service whose backoff is over
    ([src/src/execution/restart_policy/mod.rs], [src/src/control/restart_policy/mod.rs]).

    Both loops run until a queue of contexts is empty, and add to it what the
    starts they begin have settled. Their fuel is [release_fuel]: one round for
    each queued context, for each member that has not ended, and for each
    context and member that has still to be checked. *)

From S2P Require Import Prelude RustStr ServiceRuntime ServiceDef Ids Restart Cgroup ServiceTable Calendar.
From S2P Require Import OperationRecord OperationStore ExecCommand StartPlan ExecGraph JobRecord JobStore.
From S2P Require Import Effects StartState StartBegin.
From Stdlib Require Import String.
Open Scope string_scope.
Open Scope list_scope.
Open Scope Z_scope.

(** ** What is left to do in a graph *)

Definition pairs_where (p : GraphMemberStatus → bool) (self : GraphExecutionStore) : gset (GraphContextId * string) :=
  list_to_set (mjoin (map (λ '(id, context),
    map (λ '(service, _), (id, service)) (filter (λ '(_, member), p member.(gm_status) = true)
      (map_to_list context.(gc_members)))) (map_to_list self.(gs_contexts)))).

Definition status_is_live (status : GraphMemberStatus) : bool := negb (status_is_terminal status).

(** Dormant, or waiting for its check. *)
Definition status_is_unchecked (status : GraphMemberStatus) : bool :=
  match status with GsDormant | GsWaitingForPreStartCheck => true | _ => false end.

Definition live_pairs : GraphExecutionStore → gset (GraphContextId * string) := pairs_where status_is_live.
Definition unchecked_pairs : GraphExecutionStore → gset (GraphContextId * string) := pairs_where status_is_unchecked.

(** How many contexts a release can still queue. *)
Definition release_potential (self : GraphExecutionStore) : nat :=
  size (live_pairs self) + size (unchecked_pairs self) * size self.(gs_contexts).

Definition release_fuel (queue : list GraphContextId) (self : GraphExecutionStore) : nat :=
  S (List.length queue + release_potential self).

Section Release.
Context {P BoundaryError : Type} `{CalendarSyntax}.
Notation StartError := (StartExecutionError BoundaryError).

(** The part of the supervisor's work that a release changes. *)
Record ReleaseState : Type := {
  rl_exec : ExecState P;
  rl_operation_ids : Z;
  rl_pending_launches : list JobId;
  rl_pending_start_hook_launches : list JobId;
}.

Definition set_exec (v : ExecState P) (s : ReleaseState) : ReleaseState := {| s with rl_exec := v |}.
Definition set_operation_ids (v : Z) (s : ReleaseState) : ReleaseState := {| s with rl_operation_ids := v |}.

Definition in_stores {E F A} (wrap : F → E) (m : Step P F A) : Exec ReleaseState E A :=
  exec_within rl_exec set_exec wrap m.

(** ** The launch queues ([work.rs]) *)

Definition queue_start_dispatch (job_id : JobId) (job_kind : StartExecutionJobKind) (s : ReleaseState)
    : ReleaseState :=
  match job_kind with
  | StartsServiceMain => {| s with rl_pending_launches := s.(rl_pending_launches) ++ [job_id] |}
  | StartsPreStartHook _ =>
      {| s with rl_pending_start_hook_launches := s.(rl_pending_start_hook_launches) ++ [job_id] |}
  end.

Definition event_context_ids (events : list GraphExecutionEvent) : list GraphContextId :=
  btree_elements (list_to_set (map ge_context_id events) : gset GraphContextId).

(** ** The supervisor's loop ([ready.rs]) *)

Inductive ReleaseError : Type :=
| RlGraph (error : GraphExecutionError)
| RlStart (error : StartError)
| RlMissingStartCredentials (service : string).

(** [graph.release_ready(.., &|target, level| probe_level(services, target, level))]. *)
Definition release_context_starts {E} (wrap : GraphExecutionError → E) (context_id : GraphContextId)
    (max_parallel_starts : nat) : Step P E (list ReadyGraphOperation) :=
  services ← exec_get xs_services;
  on_graph wrap (release_ready (probe_level services) context_id max_parallel_starts).

Definition start_request {E} (missing : string → E) (ready : ReadyGraphOperation) (observed_at_ns : Z)
    : Step P E StartExecutionRequest :=
  definition ← require (missing ready.(rg_service)) (λ s, table_definition s.(xs_services) ready.(rg_service));
  mret {| ser_ready := ready; ser_resolved_identity := definition.(sd_identity);
          ser_token_summary := requested_identity definition.(sd_identity);
          ser_started_at_ns := observed_at_ns |}.

Definition not_from_hold (operation_id : OperationId) (ready : ReadyGraphOperation) : ReadyGraphOperation :=
  if bool_decide (ready.(rg_operation_id) = operation_id) then {| ready with rg_released_from_hold := false |}
  else ready.

Definition operation_held {E} (operation_id : OperationId) : Step P E bool := λ s,
  held ← is_operation_held operation_id s.(xs_graph);
  Some (s, Ok held).

Definition operation_pending (operation_id : OperationId) (s : ExecState P) : bool :=
  is_some_and (s.(xs_operations).(op_records) !! operation_id)
    (λ operation, bool_decide (operation.(or_state) = OsPending)).

Fixpoint restart_exited_hold_lifetimes (held : list OperationId) (ready : list ReadyGraphOperation)
    (observed_at_ns : Z) : Step P ReleaseError (list ReadyGraphOperation) :=
  match held with
  | [] => mret ready
  | operation_id :: held =>
      let ready := map (not_from_hold operation_id) ready in
      still ← operation_held operation_id;
      if still : bool then restart_exited_hold_lifetimes held ready observed_at_ns
      else
        pending ← exec_get (operation_pending operation_id);
        _ ← (if pending : bool then
               on_operations (λ e, RlStart (SeOperationStore e))
                 (store_restart_lifetime_clock operation_id observed_at_ns)
             else mret tt);
        _ ← exec_update (λ s, set_graph (clear_recorded_operation_hold operation_id s.(xs_graph)) s);
        restart_exited_hold_lifetimes held ready observed_at_ns
  end.

(** One start that is ready: the contexts it adds to the queue, and its job. *)
Definition release_one (observed_at_ns : Z) (ready : ReadyGraphOperation)
    : Exec ReleaseState ReleaseError (list GraphContextId * list StartExecutionDispatch) :=
  match ready.(rg_action) with
  | ReadyPreStartCheck =>
      request ← in_stores id (start_request RlMissingStartCredentials ready observed_at_ns);
      outcome ← in_stores RlStart (begin_graph_pre_start_check request);
      mret match outcome with
           | GpPassed dispatch => (dispatch.(gpp_graph_context_ids), [])
           | GpTerminal dispatch => (event_context_ids dispatch.(std_graph_events), [])
           | GpCheckPending _ => ([], [])
           end
  | ReadyStart =>
      request ← in_stores id (start_request RlMissingStartCredentials ready observed_at_ns);
      outcome ← in_stores RlStart (begin_prechecked_ready_start request);
      match outcome with
      | PrJob dispatch =>
          _ ← exec_update (queue_start_dispatch dispatch.(sed_job_id) dispatch.(sed_job_kind));
          mret ([], [dispatch])
      | PrTerminal dispatch => mret (event_context_ids dispatch.(std_graph_events), [])
      end
  end.

(** The starts of one context: what is queued after it, and the jobs. *)
Definition release_round (context_id : GraphContextId) (max_parallel_starts : nat) (observed_at_ns : Z)
    : Exec ReleaseState ReleaseError (list GraphContextId * list StartExecutionDispatch) :=
  held ← exec_get (λ s, recorded_held_operations s.(rl_exec).(xs_graph));
  ready ← in_stores id (release_context_starts RlGraph context_id max_parallel_starts);
  ready ← in_stores id (restart_exited_hold_lifetimes (btree_elements held) ready observed_at_ns);
  released ← exec_each (release_one observed_at_ns) ready;
  mret (mjoin (map fst released), mjoin (map snd released)).

Fixpoint release_loop (fuel : nat) (max_parallel_starts : nat) (observed_at_ns : Z) (queue : list GraphContextId)
    : Exec ReleaseState ReleaseError (list StartExecutionDispatch) :=
  match fuel with
  | O => λ _, None
  | S fuel =>
      match queue with
      | [] => mret []
      | context_id :: queue =>
          '(queued, dispatches) ← release_round context_id max_parallel_starts observed_at_ns;
          rest ← release_loop fuel max_parallel_starts observed_at_ns (queue ++ queued);
          mret (dispatches ++ rest)
      end
  end.

Definition release_for_context (max_parallel_starts : nat) (observed_at_ns : Z) (context_id : GraphContextId)
    : Exec ReleaseState ReleaseError (list StartExecutionDispatch) := λ s,
  release_loop (release_fuel [context_id] s.(rl_exec).(xs_graph)) max_parallel_starts observed_at_ns [context_id] s.

Definition release_after_graph_context_ids (context_ids : list GraphContextId) (max_parallel_starts : nat)
    (observed_at_ns : Z) : Exec ReleaseState ReleaseError (list StartExecutionDispatch) :=
  dispatches ← exec_each (release_for_context max_parallel_starts observed_at_ns)
    (btree_elements (list_to_set context_ids : gset GraphContextId));
  mret (mjoin dispatches).

Definition release_after_graph_events (events : list GraphExecutionEvent) (max_parallel_starts : nat)
    (observed_at_ns : Z) : Exec ReleaseState ReleaseError (list StartExecutionDispatch) :=
  dispatches ← exec_each (release_for_context max_parallel_starts observed_at_ns) (event_context_ids events);
  mret (mjoin dispatches).

Definition release_level_waiters_on (service : string) (max_parallel_starts : nat) (observed_at_ns : Z)
    : Exec ReleaseState ReleaseError (list StartExecutionDispatch) :=
  context_ids ← exec_get (λ s, contexts_with_level_dependency_on service s.(rl_exec).(xs_graph));
  release_after_graph_context_ids context_ids max_parallel_starts observed_at_ns.

(** ** Admission of a relaunch ([control/restart_policy/mod.rs]) *)

Inductive RestartPolicyAdmissionError : Type :=
| RaUnknownService (service : string)
| RaDefinitionRemoved (service : string)
| RaNotInBackoff (service : string) (state : ServiceState)
| RaMissingBackoffDeadline (service : string)
| RaBackoffNotDue (service : string) (due_at_ns now_ns : Z)
| RaIdAllocation (error : IdAllocationError)
| RaStartPlan (error : OnDemandStartPlanError)
| RaStartDispatch (error : OnDemandStartDispatchError).

Definition ensure_due_restart_backoff (service : string) (now_ns : Z) (services : ServiceTable)
    : Result unit RestartPolicyAdmissionError :=
  let? entry := ok_or (services !! service) (RaUnknownService service) in
  if entry.(en_definition_removed) then Err (RaDefinitionRemoved service)
  else if bool_decide (entry.(en_runtime).(rt_state) ≠ StBackoff) then
    Err (RaNotInBackoff service entry.(en_runtime).(rt_state))
  else
    let? due_at_ns := ok_or entry.(en_runtime).(rt_restart_backoff_until_ns) (RaMissingBackoffDeadline service) in
    if now_ns <? due_at_ns then Err (RaBackoffNotDue service due_at_ns now_ns) else Ok tt.

(** The store and the allocator's sequence number, with the result; [None] for
    a plan that ran out of fuel. *)
Definition admit_due_restart_policy_start (services : ServiceTable) (service : string) (now_ns : Z)
    (operations : OperationStore) (operation_ids : Z)
    : option (StartResult OnDemandStartDispatch RestartPolicyAdmissionError) :=
  match ensure_due_restart_backoff service now_ns services with
  | Err e => Some (operations, operation_ids, Err e)
  | Ok _ =>
      plan ← plan_restart_policy_start services service;
      match plan with
      | Err e => Some (operations, operation_ids, Err (RaStartPlan e))
      | Ok plan =>
          match allocate_batch operation_ids 1 now_ns with
          | (_, Err e) => Some (operations, operation_ids, Err (RaIdAllocation e))
          | (next_operation_ids, Ok ids) =>
              match dispatch_on_demand_start_plan plan (default 0 (head ids)) None now_ns operations
                      next_operation_ids with
              | (_, _, Err e) => Some (operations, operation_ids, Err (RaStartDispatch e))
              | (next_operations, next_operation_ids, Ok dispatch) =>
                  Some (next_operations, next_operation_ids, Ok dispatch)
              end
          end
      end
  end.

(** ** Relaunch ([execution/restart_policy/mod.rs]) *)

Inductive RestartPolicyRelaunchError : Type :=
| RrAdmission (error : RestartPolicyAdmissionError)
| RrServiceTable (error : ServiceTableError)
| RrGraphContext (error : GraphContextBuildError)
| RrGraphExecution (error : GraphExecutionError)
| RrMissingStartCredentials (service : string)
| RrStartDispatch (error : OnDemandStartDispatchError)
| RrStart (error : StartError).

Notation Relaunch := (Exec ReleaseState RestartPolicyRelaunchError).

Record RestartPolicyRelaunchDispatch : Type := {
  rrd_admission : OnDemandStartDispatch;
  rrd_context_id : GraphContextId;
  rrd_start_dispatches : list StartExecutionDispatch;
}.

Definition pending_deferred_operation (operations : OperationStore) (service : string) : option OperationId :=
  operation ← current_for_service operations service;
  if match operation.(or_operation_type) with OpStart | OpRestart => true | _ => false end &&
     bool_decide (operation.(or_state) = OsPending)
  then Some operation.(or_id) else None.

Definition set_admitted (operations : OperationStore) (operation_ids : Z) (s : ReleaseState) : ReleaseState :=
  set_operation_ids operation_ids (set_exec (set_operations operations s.(rl_exec)) s).

Definition admit_restart_backoff_start (service : string) (observed_at_ns : Z) : Relaunch OnDemandStartDispatch := λ s,
  let services := s.(rl_exec).(xs_services) in
  let operations := s.(rl_exec).(xs_operations) in
  match pending_deferred_operation operations service with
  | Some operation_id =>
      match ensure_due_restart_backoff service observed_at_ns services with
      | Err e => Some (s, Err (RrAdmission e))
      | Ok _ =>
          plan ← plan_restart_policy_start services service;
          match plan with
          | Err e => Some (s, Err (RrAdmission (RaStartPlan e)))
          | Ok plan =>
              let '(operations, operation_ids, r) :=
                dispatch_existing_requested_start_plan plan operation_id observed_at_ns operations s.(rl_operation_ids) in
              Some (set_admitted operations operation_ids s, map_err RrStartDispatch r)
          end
      end
  | None =>
      admitted ← admit_due_restart_policy_start services service observed_at_ns operations s.(rl_operation_ids);
      let '(operations, operation_ids, r) := admitted in
      Some (set_admitted operations operation_ids s, map_err RrAdmission r)
  end.

(** [next_graph.create_on_demand_context(&admission, &next_services)]. *)
Definition create_relaunch_context (admission : OnDemandStartDispatch) : Relaunch GraphContextId :=
  services ← exec_get (λ s, s.(rl_exec).(xs_services));
  exec_on (λ s, s.(rl_exec).(xs_graph)) (λ g s, set_exec (set_graph g s.(rl_exec)) s) RrGraphContext
    (create_on_demand_context admission services).

Definition relaunch_one (observed_at_ns : Z) (ready : ReadyGraphOperation)
    : Relaunch (list GraphContextId * list StartExecutionDispatch) :=
  request ← in_stores id (start_request RrMissingStartCredentials ready observed_at_ns);
  outcome ← in_stores RrStart (begin_ready_start request);
  mret match outcome with
       | OutJob dispatch => ([], [dispatch])
       | OutTerminal dispatch => (map ge_context_id dispatch.(std_graph_events), [])
       | OutCheckPending _ => ([], [])
       end.

Fixpoint relaunch_loop (fuel : nat) (max_parallel_starts : nat) (observed_at_ns : Z) (queue : list GraphContextId)
    : Relaunch (list StartExecutionDispatch) :=
  match fuel with
  | O => λ _, None
  | S fuel =>
      match queue with
      | [] => mret []
      | context_id :: queue =>
          ready ← in_stores id (release_context_starts RrGraphExecution context_id max_parallel_starts);
          released ← exec_each (relaunch_one observed_at_ns) ready;
          rest ← relaunch_loop fuel max_parallel_starts observed_at_ns (queue ++ mjoin (map fst released));
          mret (mjoin (map snd released) ++ rest)
      end
  end.

Definition run_relaunch (max_parallel_starts : nat) (observed_at_ns : Z) (context_id : GraphContextId)
    : Relaunch (list StartExecutionDispatch) := λ s,
  relaunch_loop (release_fuel [context_id] s.(rl_exec).(xs_graph)) max_parallel_starts observed_at_ns [context_id] s.

Definition begin_due_restart_policy_relaunch (service : string) (observed_at_ns : Z) (max_parallel_starts : nat)
    : Relaunch RestartPolicyRelaunchDispatch :=
  exec_atomic (λ _ before, before) (
    admission ← admit_restart_backoff_start service observed_at_ns;
    context_id ← create_relaunch_context admission;
    _ ← in_stores id (on_services RrServiceTable (consume_restart_backoff service));
    start_dispatches ← run_relaunch max_parallel_starts observed_at_ns context_id;
    mret {| rrd_admission := admission; rrd_context_id := context_id;
            rrd_start_dispatches := start_dispatches |}).
End Release.

Arguments ReleaseState : clear implicits.
