(* ===== verification/ReleaseInv.v ===== *)
(** * Releases end

    About [Release]: every round of the supervisor's loop either empties the
    queue or spends what is left to do in the graph, so the loop ends, with the
    fuel it is given, whatever the starts it begins turn into. *)

From S2P Require Import Prelude RustStr ServiceRuntime ServiceDef Ids Restart Cgroup ServiceTable Calendar.
From S2P Require Import Effects OperationRecord OperationStore ExecCommand OperationInv StartPlan StartPlanSpec.
From S2P Require Import JobRecord JobStore StartState StartBegin StartRun StartInv Release.
From S2P Require Import Graph ServiceTableInv ExecGraph ExecGraphSpec ExecGraphInv.
From Stdlib Require Import String.
Open Scope string_scope.
Open Scope list_scope.
Open Scope Z_scope.

(** ** What is left to do *)

Lemma elem_of_pairs p g id x :
  (id, x) ∈ pairs_where p g ↔
  ∃ c m, g.(gs_contexts) !! id = Some c ∧ c.(gc_members) !! x = Some m ∧ p m.(gm_status) = true.
Proof.
  unfold pairs_where. rewrite elem_of_list_to_set. rewrite list_elem_of_join. split.
  - intros (l & Hl & ([i c] & -> & Hc)%list_elem_of_fmap). simpl in Hl.
    apply list_elem_of_fmap in Hl as ([y m] & [= -> ->] & [Hp Hm]%list_elem_of_filter).
    apply elem_of_map_to_list in Hc, Hm. eauto.
  - intros (c & m & Hc & Hm & Hp). eexists. split; [|apply list_elem_of_fmap; exists (id, c); split; [reflexivity|by apply elem_of_map_to_list]].
    apply list_elem_of_fmap. exists (x, m). split; [done|]. apply list_elem_of_filter. split; [done|].
    by apply elem_of_map_to_list.
Qed.

(** A context whose members that are live, or unchecked, were so before. *)
Definition spends (c c' : GraphExecutionContext) : Prop :=
  evolves c c' ∧
  ∀ x m', c'.(gc_members) !! x = Some m' → status_is_unchecked m'.(gm_status) = true →
    ∃ m, c.(gc_members) !! x = Some m ∧ status_is_unchecked m.(gm_status) = true.

#[export] Instance spends_preorder : PreOrder spends.
Proof.
  split.
  - intros c. split; [done|]. eauto.
  - intros a b c [Hab Ha] [Hbc Hb]. split; [by etrans|]. intros x m Hm Hu. destruct (Hb x m Hm Hu) as (m1 & H1 & Hu1).
    by apply (Ha x m1).
Qed.

Definition store_spends (g g' : GraphExecutionStore) : Prop :=
  store_evolves g g' ∧ ∀ id c', g'.(gs_contexts) !! id = Some c' → ∃ c, g.(gs_contexts) !! id = Some c ∧ spends c c'.

#[export] Instance store_spends_preorder : PreOrder store_spends.
Proof.
  split.
  - intros g. split; [done|]. intros id c Hc. by exists c.
  - intros a b c [Hab Ha] [Hbc Hb]. split; [by etrans|]. intros id x Hx. destruct (Hb id x Hx) as (y & Hy & Hyx).
    destruct (Ha id y Hy) as (z & Hz & Hzy). exists z. split; [done|]. by etrans.
Qed.

Lemma spends_pairs g g' :
  store_spends g g' → live_pairs g' ⊆ live_pairs g ∧ unchecked_pairs g' ⊆ unchecked_pairs g ∧
  size g'.(gs_contexts) = size g.(gs_contexts).
Proof.
  intros [Hev Hs]. split_and!.
  - intros [id x] (c' & m' & Hc' & Hm' & Hp)%elem_of_pairs. destruct (Hs id c' Hc') as (c & Hc & Hcc & _).
    destruct (evolves_member _ _ _ _ Hcc Hm') as (m & Hm & Hmm). apply elem_of_pairs. exists c, m. split_and!; [done..|].
    unfold status_is_live in *. destruct (status_is_terminal (gm_status m)) eqn:E; [|done].
    rewrite (sm_ended _ _ Hmm E), E in Hp. done.
  - intros [id x] (c' & m' & Hc' & Hm' & Hp)%elem_of_pairs. destruct (Hs id c' Hc') as (c & Hc & _ & Hu).
    destruct (Hu x m' Hm' Hp) as (m & Hm & Hpm). apply elem_of_pairs. eauto.
  - rewrite <-!size_dom. f_equal. apply set_eq. intros id. rewrite !elem_of_dom.
    pose proof (se_contexts _ _ Hev id) as H. split; intros [c E]; rewrite E in H; inversion H; eauto.
Qed.

(** ** Operations on a context spend *)

Definition context_spends {A} (m : GraphM GraphExecutionContext A) : Prop := acts context_wf spends m.
Definition graph_spends {A} (m : GraphM GraphExecutionStore A) : Prop := acts graph_wf store_spends m.

Lemma spends_wf c c' : context_wf c → spends c c' → context_wf c'.
Proof. intros Hc [Hev _]. by eapply evolves_wf. Qed.

Lemma store_spends_wf g g' : graph_wf g → store_spends g g' → graph_wf g'.
Proof. intros Hg [Hev _]. by eapply store_evolves_wf. Qed.

Lemma context_spends_bind {A B} (m : GraphM GraphExecutionContext A) (k : A → GraphM GraphExecutionContext B) :
  context_spends m → (∀ a, context_spends (k a)) → context_spends (m ≫= k).
Proof. apply acts_bind; [apply _|apply spends_wf]. Qed.

Lemma graph_spends_bind {A B} (m : GraphM GraphExecutionStore A) (k : A → GraphM GraphExecutionStore B) :
  graph_spends m → (∀ a, graph_spends (k a)) → graph_spends (m ≫= k).
Proof. apply acts_bind; [apply _|apply store_spends_wf]. Qed.

Lemma on_context_lookup {A} id (m : GraphM GraphExecutionContext A) g c c' r :
  g.(gs_contexts) !! id = Some c → m c = Some (c', r) → evolves c c' →
  let g' := {| g with gs_contexts := <[id := c']> g.(gs_contexts) |} in
  on_context id m g = Some (g', r) ∧ store_evolves g g'.
Proof.
  intros E Em Hev g'. unfold on_context. rewrite E, Em. split; [done|]. split; try done. intros i. simpl.
  destruct (decide (i = id)) as [->|]; [rewrite lookup_insert_eq, E; by constructor|]. by rewrite lookup_insert_ne.
Qed.

Lemma insert_spends g id c c' :
  g.(gs_contexts) !! id = Some c → spends c c' →
  store_spends g {| g with gs_contexts := <[id := c']> g.(gs_contexts) |}.
Proof.
  intros E Hs. split.
  - split; try done. intros i. simpl. destruct (decide (i = id)) as [->|].
    + rewrite lookup_insert_eq, E. constructor. apply Hs.
    + by rewrite lookup_insert_ne.
  - simpl. intros i x [[<- <-]|[? Hx]]%lookup_insert_Some; [eauto|]. by exists x.
Qed.

Lemma on_context_spends {A} id (m : GraphM GraphExecutionContext A) : context_spends m → graph_spends (on_context id m).
Proof.
  intros Hm g Hg. unfold on_context. destruct (gs_contexts g !! id) as [c|] eqn:E.
  - destruct (Hm c) as (c' & r & -> & Hs); [by apply (gw_contexts g Hg id c E)|]. eexists _, _. split; [done|].
    by apply (insert_spends g id c).
  - by exists g, (Err (UnknownContext id)).
Qed.

Lemma graph_spends_each {A} op (body : GraphContextId → GraphM GraphExecutionStore (list A)) :
  (∀ id, graph_spends (body id)) → graph_spends (each_associated op body).
Proof.
  intros H. apply graph_spends_bind; [by apply acts_gets; apply _|]. intros ids.
  apply acts_each; [apply _|apply store_spends_wf|done].
Qed.

(** A member that is not unchecked afterwards. *)
Lemma update_spends s f c :
  (∀ m, c.(gc_members) !! s = Some m → same_member m (f m) ∧
     (status_is_unchecked (f m).(gm_status) = true → status_is_unchecked m.(gm_status) = true)) →
  spends c (update_member s f c).
Proof.
  intros H. split; [apply update_member_evolves; intros m Hm; by apply H|].
  intros x m'. rewrite lookup_update_member. case_bool_decide as Hx; [|eauto]. subst.
  intros (m & Hm & ->)%fmap_Some Hu. exists m. split; [done|]. by apply (H m Hm).
Qed.

Lemma status_spends s status c :
  status_is_unchecked status = false →
  (∀ m, c.(gc_members) !! s = Some m → status_is_terminal m.(gm_status) = false) →
  spends c (update_member s (with_status status) c).
Proof.
  intros Hu Hl. apply update_spends. intros m Hm. split; [apply same_status; auto|]. simpl. by rewrite Hu.
Qed.

Lemma activate_spends s c : spends c (activate_dependencies s c).
Proof.
  unfold activate_dependencies. generalize (map gd_target (edges_of c s)). intros l. revert c.
  induction l as [|t l IH]; intros c; simpl; [done|]. etrans; [|apply IH]. apply update_spends. intros m _.
  case_bool_decide as Hd; [|done]. split; [apply same_status; by rewrite Hd|]. by rewrite Hd.
Qed.

Lemma associated_service_spends op : context_spends (associated_service op).
Proof.
  apply context_spends_bind; [by apply acts_gets; apply _|]. intros o.
  apply context_spends_bind; [by apply acts_ok_or; apply _|]. intros m. by apply acts_ret; apply _.
Qed.

Lemma live_member_spends {A} s (k : GraphMember → GraphM GraphExecutionContext A) :
  (∀ c m, context_wf c → c.(gc_members) !! s = Some m → status_is_terminal m.(gm_status) = false →
     ∃ c' r, k m c = Some (c', r) ∧ spends c c') →
  context_spends (m ← get_live_member s; k m).
Proof.
  intros Hk c Hc. destruct (get_live_member_spec s c) as ([m|e] & E & H).
  - rewrite (bind_ok _ _ c c m) by done. destruct (H m eq_refl). by apply Hk.
  - exists c, (Err e). unfold mbind, graph_bind. by rewrite E.
Qed.

Lemma precheck_spends op : context_spends (mark_pre_start_check_passed op).
Proof.
  apply context_spends_bind; [apply associated_service_spends|]. intros s. apply live_member_spends. intros c m Hc E Hl.
  case_bool_decide; [by exists c, (Ok false)|]. do 2 eexists. split; [done|].
  etrans; [|apply activate_spends]. apply status_spends; [done|]. intros m' E'. by simplify_eq.
Qed.

(** Marking members with a status that is not unchecked. *)
Lemma foldl_spends status l c :
  status_is_unchecked status = false →
  evolves c (foldl (λ c d, update_member d (with_status status) c) c l) →
  spends c (foldl (λ c d, update_member d (with_status status) c) c l).
Proof.
  intros Hst Hev. split; [done|]. intros x m'. rewrite foldl_update_members. case_bool_decide; [|eauto].
  intros (m & Hm & ->)%fmap_Some. simpl. by rewrite Hst.
Qed.

Lemma prune_spends op :
  context_spends (service ← associated_service op; prune_dependencies_for_service service).
Proof.
  apply context_spends_bind; [apply associated_service_spends|]. intros s c _.
  destruct (prune_spec c s) as (c' & pruned & E & Hev & M). exists c', (Ok pruned). split; [done|].
  rewrite (md_state _ _ _ _ _ _ _ _ _ M) in *. by apply (foldl_spends GsPruned).
Qed.

Lemma note_holds_spends : context_spends note_holds_without_clock.
Proof.
  intros c _. destruct (note_holds_spec c) as (c' & E & Hev & Hst & _). exists c', (Ok tt). split; [done|].
  split; [done|]. intros x m' Hm' Hu. specialize (Hst x). unfold status_in in Hst. rewrite Hm' in Hst.
  destruct (gc_members c !! x) as [m|]; [|done]. simpl in Hst. exists m. split; [done|]. by injection Hst as <-.
Qed.

Lemma awaiting_spends op :
  context_spends (service ← associated_service op; _ ← mark_awaiting_restart service; note_holds_without_clock).
Proof.
  apply context_spends_bind; [apply associated_service_spends|]. intros s.
  apply context_spends_bind; [|intros; apply note_holds_spends]. apply live_member_spends. intros c m Hc E Hl.
  do 2 eexists. split; [done|]. apply update_spends. intros m' E'. simplify_eq.
  split; [|done]. etrans; [by apply same_status|apply same_held].
Qed.

(** *** Ends, counted *)

Definition event_pair (e : GraphExecutionEvent) : GraphContextId * string := (e.(ge_context_id), e.(ge_service)).

(** [events] end members that were live, each once. *)
Record ends (g g' : GraphExecutionStore) (events : list GraphExecutionEvent) : Prop := {
  en_spends : store_spends g g';
  en_once : NoDup (map event_pair events);
  en_live : ∀ e, e ∈ events → event_pair e ∈ live_pairs g ∧ event_pair e ∉ live_pairs g';
}.

Lemma ends_nil g g' : store_spends g g' → ends g g' [].
Proof. intros H. split; [done|constructor|]. by intros e ?%elem_of_nil. Qed.

Lemma ends_app g1 g2 g3 l1 l2 : ends g1 g2 l1 → ends g2 g3 l2 → ends g1 g3 (l1 ++ l2).
Proof.
  intros [S1 N1 L1] [S2 N2 L2]. destruct (spends_pairs _ _ S1) as (P1 & _ & _).
  destruct (spends_pairs _ _ S2) as (P2 & _ & _). split; [by etrans| |].
  - rewrite map_app. apply NoDup_app. split_and!; [done| |done].
    intros p (e1 & -> & H1)%list_elem_of_fmap (e2 & E & H2)%list_elem_of_fmap.
    destruct (L1 e1 H1), (L2 e2 H2). rewrite E in *. tauto.
  - intros e [He|He]%elem_of_app; [destruct (L1 e He)|destruct (L2 e He)]; set_solver.
Qed.

Lemma ends_count g g' events : ends g g' events → (size (live_pairs g') + List.length events ≤ size (live_pairs g))%nat.
Proof.
  intros [Hs Hn Hl]. destruct (spends_pairs _ _ Hs) as (P & _ & _).
  set (ps := list_to_set (map event_pair events) : gset (GraphContextId * string)).
  assert (∀ p, p ∈ ps → p ∈ live_pairs g ∧ p ∉ live_pairs g') as Hps.
  { intros p (e & -> & He)%elem_of_list_to_set%list_elem_of_fmap. by apply Hl. }
  assert (size ps = List.length events) as <- by (unfold ps; rewrite size_list_to_set by done; apply length_map).
  rewrite <-size_union by (intros p ? ?%Hps; tauto). apply subseteq_size. intros p [?|?%Hps]%elem_of_union; [auto|tauto].
Qed.

(** What the end of a member does to its context. *)
Lemma end_member_spec id s op outcome c :
  context_wf c → c.(gc_id) = id →
  ∃ c' r, end_member id s op outcome c = Some (c', r) ∧ spends c c' ∧
    ∀ events, r = Ok events → NoDup (map ge_service events) ∧ ∀ e, e ∈ events →
      e.(ge_context_id) = id ∧
      (∃ m, c.(gc_members) !! e.(ge_service) = Some m ∧ status_is_live m.(gm_status) = true) ∧
      (∀ m, c'.(gc_members) !! e.(ge_service) = Some m → status_is_live m.(gm_status) = false).
Proof.
  intros Hc Hid. unfold end_member. destruct (get_live_member_spec s c) as ([m|e] & E & Hm).
  2: { exists c, (Err e). split; [|done]. unfold mark_terminal, mbind, graph_bind. by rewrite E. }
  destruct (Hm m eq_refl) as [Em Hl]. set (final := match outcome with OutSatisfied => GsSatisfied | OutFailed => GsFailed end).
  set (c1 := update_member s (with_status final) c).
  rewrite (bind_ok _ _ c c1 tt) by (by apply (mark_terminal_ok c s m)).
  assert (spends c c1) as H1.
  { apply status_spends; [by destruct outcome|]. intros m' E'. by simplify_eq. }
  assert (∀ y, c1.(gc_members) !! s = Some y → status_is_live y.(gm_status) = false) as Hs1.
  { intros y. unfold c1. rewrite lookup_update_member, bool_decide_eq_true_2, Em by done. intros [= <-]. by destruct outcome. }
  case_bool_decide as Ho.
  - destruct (propagate_spec c1 s) as (c' & events & Ep & Hev & M). rewrite (bind_ok _ _ c1 c' events) by done.
    pose proof (md_state _ _ _ _ _ _ _ _ _ M) as Hst.
    assert (spends c1 c') as H2 by (rewrite Hst in *; by apply (foldl_spends GsFailed)).
    assert (∀ x, x ∈ map ge_service events → ∃ y, c1.(gc_members) !! x = Some y ∧ status_is_live y.(gm_status) = true ∧ x ≠ s) as Hx.
    { intros x Hin%(md_cand _ _ _ _ _ _ _ _ _ M). unfold fails_now in Hin.
      destruct (gc_members c1 !! x) as [y|] eqn:Ey; [|done]. simpl in Hin. exists y.
      assert (status_is_live (gm_status y) = true) as Hy by by destruct (gm_status y).
      split_and!; [done..|]. intros ->. rewrite (Hs1 y Ey) in Hy. done. }
    eexists _, _. split; [done|]. split; [by etrans|]. intros evs [= <-]. split.
    { simpl. apply NoDup_cons. split; [|apply M]. intros (y & _ & _ & ?)%Hx. done. }
    intros e [->|He]%elem_of_cons; simpl.
    + split_and!; [done|exists m; unfold status_is_live; by rewrite Hl|]. intros y Hy.
      destruct (evolves_member _ _ _ _ Hev Hy) as (y1 & Hy1 & Hsame). specialize (Hs1 y1 Hy1).
      unfold status_is_live in *. rewrite negb_false_iff in *. by rewrite (sm_ended _ _ Hsame Hs1).
    + pose proof (md_report _ _ _ _ _ _ _ _ _ M e He) as Hr.
      assert (e.(ge_service) ∈ map ge_service events) as Hin by by apply list_elem_of_fmap_2.
      destruct (Hx _ Hin) as (y & Hy & Hly & Hne). split_and!.
      * rewrite Hr. simpl. rewrite <-Hid. apply H1.
      * unfold c1 in Hy. rewrite lookup_update_member, bool_decide_eq_false_2 in Hy by done. eauto.
      * intros z. rewrite Hst. unfold fail_member. rewrite foldl_update_members, bool_decide_eq_true_2 by done.
        by intros (z1 & _ & ->)%fmap_Some.
  - rewrite (bind_ok _ _ c1 c1 []) by done. eexists _, _. split; [done|]. split; [done|]. intros evs [= <-].
    split; [apply NoDup_singleton|]. intros e ->%list_elem_of_singleton. simpl.
    split_and!; [done|exists m; unfold status_is_live; by rewrite Hl|done].
Qed.

(** ** Operations on the store *)

(** A computation whose events are ends. *)
Definition counted (m : GraphM GraphExecutionStore (list GraphExecutionEvent)) : Prop :=
  ∀ g, graph_wf g → ∃ g' r, m g = Some (g', r) ∧ store_spends g g' ∧ ∀ events, r = Ok events → ends g g' events.

Lemma counted_nil : counted (mret []).
Proof. intros g _. exists g, (Ok []). split_and!; [done..|]. intros ? [= <-]. by apply ends_nil. Qed.

Lemma counted_app m k : counted m → counted k → counted (a ← m; b ← k; mret (a ++ b)).
Proof.
  intros Hm Hk g Hg. destruct (Hm g Hg) as (g1 & [a|e] & E1 & S1 & H1).
  2: { exists g1, (Err e). unfold mbind, graph_bind. by rewrite E1. }
  rewrite (bind_ok _ _ g g1 a) by done. destruct (Hk g1) as (g2 & [b|e] & E2 & S2 & H2); [by eapply store_spends_wf|..].
  - rewrite (bind_ok _ _ g1 g2 b) by done. exists g2, (Ok (a ++ b)). split_and!; [done|by etrans|].
    intros ? [= <-]. eapply ends_app; eauto.
  - exists g2, (Err e). unfold mbind, graph_bind. rewrite E2. split_and!; [done|by etrans|done].
Qed.

Lemma counted_each {X} (f : X → GraphM GraphExecutionStore (list GraphExecutionEvent)) l :
  (∀ x, counted (f x)) → counted (extend_each f l).
Proof. intros Hf. induction l as [|x l IH]; simpl; [apply counted_nil|]. by apply counted_app. Qed.

Lemma counted_gets {X} (f : GraphExecutionStore → X) k : (∀ x, counted (k x)) → counted (x ← gets f; k x).
Proof. intros Hk g Hg. rewrite (bind_ok _ _ g g (f g)) by done. by apply Hk. Qed.

(** In a context, ends of its members. *)
Lemma on_context_counted id (m : GraphM GraphExecutionContext (list GraphExecutionEvent)) :
  (∀ c, context_wf c → c.(gc_id) = id →
   ∃ c' r, m c = Some (c', r) ∧ spends c c' ∧ ∀ events, r = Ok events →
     NoDup (map ge_service events) ∧ ∀ e, e ∈ events →
      e.(ge_context_id) = id ∧
      (∃ m, c.(gc_members) !! e.(ge_service) = Some m ∧ status_is_live m.(gm_status) = true) ∧
      (∀ m, c'.(gc_members) !! e.(ge_service) = Some m → status_is_live m.(gm_status) = false)) →
  counted (on_context id m).
Proof.
  intros Hm g Hg. unfold on_context. destruct (gs_contexts g !! id) as [c|] eqn:E.
  2: { by exists g, (Err (UnknownContext id)). }
  destruct (gw_contexts g Hg id c E) as (Hid & _ & Hc).
  destruct (Hm c Hc Hid) as (c' & r & -> & Hs & Hev). eexists _, _. split; [done|].
  assert (store_spends g {| g with gs_contexts := <[id := c']> g.(gs_contexts) |}) as Hsp by by apply (insert_spends g id c).
  split; [done|]. intros events ->. destruct (Hev events eq_refl) as [Hn Hl]. split; [done| |].
  - apply (NoDup_fmap_1 snd). assert (map ge_service events = snd <$> map event_pair events) as <-; [|done].
    unfold event_pair. clear. induction events; simpl; [done|]. by f_equal.
  - intros e He. destruct (Hl e He) as (Hi & (y & Hy & Hly) & Hz). unfold event_pair. rewrite Hi. split.
    + apply elem_of_pairs. eauto.
    + intros (c2 & z & Hc2 & Hz2 & Hlz)%elem_of_pairs. simpl in Hc2. rewrite lookup_insert_eq in Hc2. simplify_eq.
      by rewrite (Hz z Hz2) in Hlz.
Qed.

Lemma settle_counted service outcome : counted (settle_awaiting_restart service outcome).
Proof.
  apply counted_gets. intros ids. apply counted_each. intros id. apply on_context_counted. intros c Hc Hid.
  unfold settle_context. rewrite (bind_ok _ _ c c (c.(gc_members) !! service)) by done.
  assert (∃ c' r, (mret [] : GraphM GraphExecutionContext (list GraphExecutionEvent)) c = Some (c', r) ∧ spends c c' ∧
    ∀ events, r = Ok events → events = []) as Hnil.
  { exists c, (Ok []). split_and!; [done..|]. by intros ? [= <-]. }
  destruct (gc_members c !! service) as [m|]; [case_bool_decide|].
  - exists c, (Ok []). split_and!; [done..|]. intros ? [= <-]. split; [constructor|]. by intros e ?%elem_of_nil.
  - rewrite (bind_ok _ _ c c c.(gc_id)) by done. rewrite Hid. by apply end_member_spec.
  - exists c, (Ok []). split_and!; [done..|]. intros ? [= <-]. split; [constructor|]. by intros e ?%elem_of_nil.
Qed.

Lemma terminal_counted op outcome : counted (apply_operation_terminal op outcome).
Proof.
  intros g Hg. unfold apply_operation_terminal.
  assert (counted (each_associated op (λ id, apply_context_terminal id op outcome))) as H1.
  { apply counted_gets. intros ids. apply counted_each. intros id. apply on_context_counted. intros c Hc Hid.
    assert (associated_service op c =
      Some (c, map_ok gm_service (ok_or (member_for_operation c op) (UnknownAssociatedOperation op)))) as Ea.
    { unfold associated_service, mbind, graph_bind, gets. by destruct (member_for_operation c op). }
    destruct (member_for_operation c op) as [m|]; simpl in Ea.
    - rewrite (bind_ok _ _ c c m.(gm_service)) by done. by apply end_member_spec.
    - exists c, (Err (UnknownAssociatedOperation op)). split_and!; [|done..]. unfold mbind, graph_bind. by rewrite Ea. }
  destruct (H1 g Hg) as (g1 & [events|e] & E1 & S1 & N1).
  2: { exists g1, (Err e). unfold mbind, graph_bind. by rewrite E1. }
  rewrite (bind_ok _ _ g g1 events) by done. destruct events as [|ev events].
  { exists g1, (Ok []). split_and!; [done..|]. intros ? [= <-]. by apply ends_nil. }
  destruct (settle_counted ev.(ge_service) outcome g1) as (g2 & [settled|e] & E2 & S2 & N2);
    [by eapply store_spends_wf|..].
  - rewrite (bind_ok _ _ g1 g2 settled) by done. eexists _, _. split; [done|]. split; [by etrans|].
    intros ? [= <-]. apply (ends_app g g1 g2 (ev :: events)); auto.
  - exists g2, (Err e). unfold mbind, graph_bind. rewrite E2. split_and!; [done|by etrans|done].
Qed.

(** The contexts a passed check queues are contexts of the store. *)
Lemma extend_each_length {S X A} (f : X → GraphM S (list A)) l s s' out :
  (∀ x s s' o, f x s = Some (s', Ok o) → (List.length o ≤ 1)%nat) →
  extend_each f l s = Some (s', Ok out) → (List.length out ≤ List.length l)%nat.
Proof.
  intros Hf. revert s out. induction l as [|x l IH]; intros s out; simpl; [by intros [= _ <-]|].
  unfold mbind, graph_bind. destruct (f x s) as [[s1 [a|]]|] eqn:E1; [|done..].
  destruct (extend_each f l s1) as [[s2 [b|]]|] eqn:E2; [|done..]. intros [= <- <-]. rewrite length_app.
  apply Hf in E1. apply IH in E2. lia.
Qed.

Lemma precheck_store op g :
  graph_wf g → ∃ g' r, apply_pre_start_check_passed op g = Some (g', r) ∧ store_spends g g' ∧
    ∀ ids, r = Ok ids → (List.length ids ≤ size g.(gs_contexts))%nat.
Proof.
  intros Hg.
  assert (graph_spends (apply_pre_start_check_passed op)) as Hs.
  { apply graph_spends_each. intros id. apply graph_spends_bind; [apply on_context_spends, precheck_spends|].
    intros b. by apply acts_ret; apply _. }
  destruct (Hs g Hg) as (g' & r & E & H). exists g', r. split_and!; [done..|]. intros ids ->.
  unfold apply_pre_start_check_passed, each_associated in E. rewrite (bind_ok _ _ g g (associated_contexts op g)) in E by done.
  apply extend_each_length in E.
  2: { intros x s s' o. unfold mbind, graph_bind. destruct (on_context _ _ _) as [[s1 [[]|]]|]; intros [= _ <-]; simpl; lia. }
  etrans; [exact E|]. unfold associated_contexts. destruct (gs_associations g !! op) as [cs|] eqn:Ea; [|simpl; lia].
  rewrite <-size_dom. assert (List.length (btree_elements cs) = size cs) as ->.
  { unfold btree_elements. by rewrite merge_sort_Permutation. }
  apply subseteq_size. intros i Hi. destruct (gw_association g Hg op cs Ea) as [_ Hin].
  destruct (Hin i Hi) as (c & x & m & Hc & _). apply elem_of_dom. eauto.
Qed.

Lemma prune_store op : graph_spends (prune_dormant_dependencies op).
Proof. apply graph_spends_each. intros id. apply on_context_spends, prune_spends. Qed.

Lemma awaiting_store op : graph_spends (apply_operation_awaiting_restart op).
Proof.
  apply graph_spends_each. intros id. apply graph_spends_bind; [apply on_context_spends, awaiting_spends|].
  intros b. by apply acts_ret; apply _.
Qed.

(** *** Releases *)

Definition is_check (ready : ReadyGraphOperation) : bool :=
  match ready.(rg_action) with ReadyPreStartCheck => true | ReadyStart => false end.

(** How many of the starts that are let go are checks. *)
Definition checks_of (ready : list ReadyGraphOperation) : nat := List.length (filter (λ r, is_check r = true) ready).

(** The starts a release lets go, and what they spend. *)
Lemma release_store probe id slots g :
  graph_wf g → ∃ g' r, release_ready probe id slots g = Some (g', r) ∧ store_spends g g' ∧
    ∀ ready, r = Ok ready → (size (unchecked_pairs g') + checks_of ready ≤ size (unchecked_pairs g))%nat.
Proof.
  intros Hg. unfold release_ready. destruct (slots =? 0)%nat; [by exists g, (Err InvalidMaxParallelStarts)|].
  unfold on_context. destruct (gs_contexts g !! id) as [c|] eqn:E; [|by exists g, (Err (UnknownContext id))].
  destruct (gw_contexts g Hg id c E) as (Hid & _ & Hc).
  destruct (release_run probe id slots c Hc) as (c' & ops & -> & Hev & Hrel & Hst).
  assert (spends c c') as Hsp.
  { split; [done|]. intros x m' Hm' Hu. specialize (Hst x). unfold status_in in Hst. rewrite Hm' in Hst. simpl in Hst.
    case_bool_decide; [injection Hst as Hst; by rewrite Hst in Hu|].
    destruct (gc_members c !! x) as [m|]; [|done]. exists m. split; [done|]. by injection Hst as <-. }
  eexists _, _. split; [done|].
  assert (store_spends g {| g with gs_contexts := <[id := c']> g.(gs_contexts) |}) as Hss by by apply (insert_spends g id c).
  split; [done|]. intros ready [= <-]. destruct (spends_pairs _ _ Hss) as (_ & Hu & _).
  set (g' := {| g with gs_contexts := _ |}) in *.
  set (ps := list_to_set (map (λ r, (id, r.(rg_service))) (filter (λ r, is_check r = true) ops)) : gset (GraphContextId * string)).
  assert (NoDup (map rg_service ops)) as Hn by (rewrite (released_services _ _ Hrel); by apply NoDup_chosen).
  assert (size ps = checks_of ops) as <-.
  { unfold ps, checks_of. rewrite size_list_to_set; [by rewrite length_map|]. apply (NoDup_fmap_1 snd).
    rewrite map_map. simpl. eapply sublist_NoDup; [exact Hn|]. apply fmap_sublist, sublist_filter. }
  assert (∀ p, p ∈ ps → p ∈ unchecked_pairs g ∧ p ∉ unchecked_pairs g') as Hps.
  { intros p (r & -> & [Hr Hin]%list_elem_of_filter)%elem_of_list_to_set%list_elem_of_fmap.
    pose proof Hin as (i & Hi)%list_elem_of_lookup.
    destruct (Forall2_lookup_r _ _ _ _ _ Hrel Hi) as ([m a] & Hm & Hsv & _ & Ha).
    apply list_elem_of_lookup_2 in Hm. apply elem_of_chosen, elem_of_readies in Hm as [Hm Hrd]; [|done].
    simpl in *. apply readiness_spec in Hrd; [|done].
    assert (a = ReadyPreStartCheck) as -> by (unfold is_check in Hr; rewrite Ha in Hr; by destruct a).
    simpl in Hrd. split.
    - apply elem_of_pairs. exists c, m. rewrite Hsv, Hrd. done.
    - intros (c2 & m2 & Hc2 & Hm2 & Hu2)%elem_of_pairs. simpl in Hc2. rewrite lookup_insert_eq in Hc2.
      injection Hc2 as <-. specialize (Hst (rg_service r)). unfold status_in in Hst. rewrite Hm2 in Hst. simpl in Hst.
      rewrite bool_decide_eq_true_2 in Hst by by apply list_elem_of_fmap_2. injection Hst as Hst. by rewrite Hst in Hu2. }
  rewrite <-size_union by (intros p ? ?%Hps; tauto). apply subseteq_size. intros p [?|?%Hps]%elem_of_union; [auto|tauto].
Qed.

(** ** Steps of a start *)

Section Steps.
Context {P BoundaryError : Type}.
Notation Error := (StartExecutionError BoundaryError).

(** From [g], at least [n] members have ended and nothing has become unchecked. *)
Record spent (g : GraphExecutionStore) (n : nat) (s : ExecState P) : Prop := {
  sp_wf : graph_wf s.(xs_graph);
  sp_live : (size (live_pairs s.(xs_graph)) + n ≤ size (live_pairs g))%nat;
  sp_unchecked : (size (unchecked_pairs s.(xs_graph)) ≤ size (unchecked_pairs g))%nat;
  sp_contexts : size s.(xs_graph).(gs_contexts) = size g.(gs_contexts);
}.

Lemma spent_step g n s s' :
  spent g n s → store_spends s.(xs_graph) s'.(xs_graph) → spent g n s'.
Proof.
  intros [W L U C] H. destruct (spends_pairs _ _ H) as (HL%subseteq_size & HU%subseteq_size & HC).
  split; [by eapply store_spends_wf|lia..].
Qed.

Definition declining {E A} (m : Step P E A) : Prop := ∀ g n, triple (spent g n) m (λ _, spent g n).

Lemma declining_ret {E A} (a : A) : declining (mret a : Step P E A).
Proof. intros g n. by apply triple_ret'. Qed.
Lemma declining_fail {E A} (e : E) : declining (exec_fail e : Step P E A).
Proof. intros g n. apply triple_fail. Qed.
Lemma declining_get {E A} (f : ExecState P → A) : declining (exec_get f : Step P E A).
Proof. intros g n. eapply triple_conseq; [apply triple_get|done|]. by intros a s [? _]. Qed.
Lemma declining_lift {E A} (r : Result A E) : declining (exec_lift r : Step P E A).
Proof. intros g n. eapply triple_conseq; [apply triple_lift|done|]. by intros a s [? _]. Qed.
Lemma declining_bind {E A B} (m : Step P E A) (k : A → Step P E B) :
  declining m → (∀ a, declining (k a)) → declining (m ≫= k).
Proof. intros Hm Hk g n. eapply triple_bind; [apply Hm|]. intros a. apply Hk. Qed.
Lemma declining_map_err {E F A} (f : E → F) (m : Step P E A) : declining m → declining (exec_map_err f m).
Proof. intros Hm g n. apply triple_map_err, Hm. Qed.
Lemma declining_require {E A} (e : E) (f : ExecState P → option A) : declining (require e f).
Proof. apply declining_bind; [apply declining_get|]. intros. apply declining_lift. Qed.
Lemma declining_each {E X A} (body : X → Step P E A) xs : (∀ x, declining (body x)) → declining (exec_each body xs).
Proof.
  intros Hb. induction xs as [|x xs IH]; simpl; [apply declining_ret|].
  apply declining_bind; [done|]. intros a. apply declining_bind; [done|]. intros l. apply declining_ret.
Qed.

Lemma declining_on {T E F A} (get : ExecState P → T) set (wrap : F → E) (f : T → T * Result A F) :
  (∀ t s, (set t s).(xs_graph) = s.(xs_graph)) → declining (exec_on get set wrap f).
Proof.
  intros Hset g n s Hs. unfold exec_on. destruct (f (get s)) as [t r]. eexists _, _. split; [done|]. intros a _.
  apply (spent_step g n s); [done|]. by rewrite Hset.
Qed.
Lemma declining_update {E} (f : ExecState P → ExecState P) :
  (∀ s, (f s).(xs_graph) = s.(xs_graph)) → declining (exec_update f : Step P E unit).
Proof.
  intros Hf g n s Hs. eexists _, _. split; [done|]. intros a _. apply (spent_step g n s); [done|]. by rewrite Hf.
Qed.
Lemma declining_graph {E A} (wrap : GraphExecutionError → E) (m : GraphM GraphExecutionStore A) :
  graph_spends m → declining (on_graph wrap m).
Proof.
  intros Hm g n s Hs. unfold on_graph, exec_within. destruct (Hm _ (sp_wf _ _ _ Hs)) as (g' & r & -> & Hg).
  eexists _, _. split; [done|]. intros a _. by apply (spent_step g n s).
Qed.
Lemma declining_prune {E} (wrap : GraphExecutionError → E) op : declining (on_graph wrap (prune_dormant_dependencies op)).
Proof. apply declining_graph, prune_store. Qed.
Lemma declining_awaiting {E} (wrap : GraphExecutionError → E) op :
  declining (on_graph wrap (apply_operation_awaiting_restart op)).
Proof. apply declining_graph, awaiting_store. Qed.

(** A step on a copy: its success is the success of the step. *)
Lemma atomic_triple {E A} (m : Step P E A) Pre Post : triple Pre m Post → triple Pre (atomic m) Post.
Proof.
  intros Hm s Hs. destruct (Hm s Hs) as (s1 & [a|e] & Em & H1); unfold atomic, exec_atomic; rewrite Em;
    eexists _, _; (split; [done|]); done.
Qed.

Lemma terminal_spent {E} (wrap : GraphExecutionError → E) op outcome g n :
  triple (spent g n) (on_graph wrap (apply_operation_terminal op outcome))
    (λ events, spent g (n + List.length events)).
Proof.
  intros s Hs. unfold on_graph, exec_within.
  destruct (terminal_counted op outcome _ (sp_wf _ _ _ Hs)) as (g' & r & -> & Hg & Hc).
  eexists _, _. split; [done|]. intros events Hr. destruct r as [evs|]; [|done]. simpl in Hr. injection Hr as ->.
  pose proof (ends_count _ _ _ (Hc events eq_refl)) as Hn. destruct Hs as [W L U C].
  destruct (spends_pairs _ _ Hg) as (_ & HU%subseteq_size & HC).
  split; simpl; [by eapply store_spends_wf|lia..].
Qed.

Ltac decline_step :=
  match goal with
  | |- declining (mret _) => apply declining_ret
  | |- declining (exec_fail _) => apply declining_fail
  | |- declining (exec_get _) => apply declining_get
  | |- declining (exec_lift _) => apply declining_lift
  | |- declining (require _ _) => apply declining_require
  | |- declining (exec_map_err _ _) => apply declining_map_err
  | |- declining (exec_each _ _) => apply declining_each; intros ?
  | |- declining (_ ≫= _) => apply declining_bind; [|intros ?]
  | |- declining (match ?x with _ => _ end) => destruct x
  | |- declining (on_graph _ (prune_dormant_dependencies _)) => apply declining_prune
  | |- declining (on_graph _ (apply_operation_awaiting_restart _)) => apply declining_awaiting
  | |- declining (on_start _) => by apply declining_update
  | |- declining (exec_update _) => by apply declining_update
  | |- declining _ => by apply declining_on
  end.
Ltac declines := repeat (decline_step; cbv beta zeta).

Lemma declining_then {E A B} (m : Step P E A) (k : A → Step P E B) g n Post :
  declining m → (∀ a, triple (spent g n) (k a) Post) → triple (spent g n) (m ≫= k) Post.
Proof. intros Hm Hk. eapply triple_bind; [apply Hm|done]. Qed.

Lemma declining_last {E A} (m : Step P E A) g n (Post : A → ExecState P → Prop) :
  declining m → (∀ a s, spent g n s → Post a s) → triple (spent g n) m Post.
Proof. intros Hm Hp. eapply triple_conseq; [apply Hm|done|done]. Qed.

Tactic Notation "past" := apply declining_then; [solve [declines]|intros ?]; cbv beta zeta.

Lemma cancel_dormant_declines op at_ns : declining (cancel_dormant_dependencies op at_ns : Step P Error _).
Proof. unfold cancel_dormant_dependencies, cancel_pruned_operations. declines. Qed.

Lemma clear_skipped_declines service cause : declining (clear_skipped_for_explicit_start service cause : Step P Error _).
Proof. unfold clear_skipped_for_explicit_start. declines. Qed.

Lemma skip_declines service op at_ns cause message :
  declining (skip_service service op at_ns cause message : Step P Error _).
Proof. unfold skip_service. declines. Qed.

Lemma precheck_skipped_spent request reason cleared g :
  triple (spent g 0) (precheck_skipped request reason cleared : Step P Error _)
    (λ d, spent g (List.length d.(std_graph_events))).
Proof.
  unfold precheck_skipped. apply declining_then; [apply skip_declines|]. intros [transition completed].
  eapply triple_bind; [apply terminal_spent|]. intros events. apply declining_then; [apply cancel_dormant_declines|].
  intros cancelled. by apply triple_ret'.
Qed.

Lemma pre_dependency_spent op at_ns cause reason g :
  triple (spent g 0) (apply_pending_pre_dependency_failure op at_ns cause reason : Step P Error _)
    (λ d, spent g (List.length d.(pdf_graph_events))).
Proof.
  unfold apply_pending_pre_dependency_failure. eapply triple_bind; [apply terminal_spent|]. intros events.
  past. apply declining_then; [apply cancel_dormant_declines|]. intros. by apply triple_ret'.
Qed.

Lemma check_passed_spent {E} (wrap : GraphExecutionError → E) op g :
  triple (spent g 0) (on_graph wrap (apply_pre_start_check_passed op))
    (λ ids s, spent g 0 s ∧ (List.length ids ≤ size g.(gs_contexts))%nat).
Proof.
  intros s Hs. unfold on_graph, exec_within.
  destruct (precheck_store op _ (sp_wf _ _ _ Hs)) as (g' & r & -> & Hg & Hl).
  eexists _, _. split; [done|]. intros ids Hr. split; [by apply (spent_step g 0 s)|].
  destruct r as [ids'|]; [|done]. injection Hr as ->. rewrite <-(sp_contexts _ _ _ Hs). by apply Hl.
Qed.

(** What a check that was let go adds to the queue. *)
Definition precheck_queues (g : GraphExecutionStore) (outcome : GraphPreStartCheckOutcome) (s : ExecState P) : Prop :=
  match outcome with
  | GpPassed dispatch =>
      spent g 0 s ∧ (List.length dispatch.(gpp_graph_context_ids) ≤ size g.(gs_contexts))%nat
  | GpTerminal dispatch => spent g (List.length dispatch.(std_graph_events)) s
  | GpCheckPending _ => spent g 0 s
  end.

Lemma begin_precheck_spent request g :
  triple (spent g 0) (begin_graph_pre_start_check request : Step P Error _) (precheck_queues g).
Proof.
  apply atomic_triple. cbv zeta. apply declining_then; [apply clear_skipped_declines|]. intros cleared.
  past. past. past. destruct a1 as [|reason|check|checks].
  - unfold precheck_passed. past. eapply triple_bind; [apply check_passed_spent|]. intros ids. by apply triple_ret'.
  - eapply triple_bind; [apply precheck_skipped_spent|]. intros d. by apply triple_ret'.
  - unfold precheck_assertion_failed. eapply triple_bind; [apply pre_dependency_spent|]. intros d. by apply triple_ret'.
  - unfold precheck_filesystem_pending, get_operation. past. past. by apply triple_ret'.
Qed.

Definition start_queues (g : GraphExecutionStore) (outcome : PrecheckedReadyStartOutcome) (s : ExecState P) : Prop :=
  match outcome with
  | PrJob _ => spent g 0 s
  | PrTerminal dispatch => spent g (List.length dispatch.(std_graph_events)) s
  end.

Lemma create_initial_declines request : declining (create_initial_start_job request : Step P Error _).
Proof.
  unfold create_initial_start_job, create_initial_main_job, create_initial_pre_start_hook,
    record_request_readiness_deadline, allocate_job_id. declines.
Qed.

Lemma launch_declines request identity token activation cleared event deadline :
  declining (launch_ready_start request identity token activation cleared event deadline : Step P Error _).
Proof.
  unfold launch_ready_start, job_id_for_request, job_id_for_ready_start, allocate_job_id.
  do 2 (apply declining_bind; [declines|intros ?]). apply declining_bind; [apply create_initial_declines|intros ?]. declines.
Qed.

Lemma released_declines request definition : declining (start_released_operation request definition : Step P Error _).
Proof. unfold start_released_operation, get_operation. declines. Qed.

Lemma begin_prechecked_spent request g :
  triple (spent g 0) (begin_prechecked_ready_start request : Step P Error _) (start_queues g).
Proof.
  apply atomic_triple. cbv zeta. past. past. past. destruct a1 as [reason|].
  - eapply triple_bind; [apply precheck_skipped_spent|]. intros d. by apply triple_ret'.
  - apply declining_then; [apply released_declines|]. intros [event deadline].
    apply declining_then; [apply launch_declines|]. intros d. by apply triple_ret'.
Qed.

(** *** A start in one step *)

Lemma fail_dependents_declines target at_ns reason seen events :
  declining (fail_dependents target at_ns reason seen events : Step P _ _).
Proof.
  revert seen. induction events as [|event events IH]; intros seen; simpl; [apply declining_ret|].
  unfold fail_dependent. declines; apply IH.
Qed.

Lemma start_failure_spent request g :
  triple (spent g 0) (apply_start_failure request : Step P _ _)
    (λ d, spent g (List.length d.(sfd_graph_events))).
Proof.
  unfold apply_start_failure. past. past. apply atomic_triple. unfold restart_evaluation. past.
  destruct (re_action a1).
  - unfold hold_for_restart. past. past. past. by apply triple_ret'.
  - unfold fail_with_dependents, fail_dependents_after_graph_events. eapply triple_bind; [apply terminal_spent|].
    intros events. past. past. apply declining_then; [apply fail_dependents_declines|]. intros. by apply triple_ret'.
Qed.

Definition at_once_queues (g : GraphExecutionStore) (outcome : StartExecutionOutcome) (s : ExecState P) : Prop :=
  match outcome with
  | OutTerminal dispatch => spent g (List.length dispatch.(std_graph_events)) s
  | _ => spent g 0 s
  end.

Lemma begin_ready_spent request g :
  triple (spent g 0) (begin_ready_start request : Step P Error _) (at_once_queues g).
Proof.
  unfold begin_ready_start. cbv zeta. past. apply atomic_triple.
  apply declining_then; [apply clear_skipped_declines|]. intros cleared. past. past.
  apply declining_then; [apply released_declines|]. intros [event deadline]. past.
  destruct a2 as [|reason|check|checks].
  - apply declining_then; [apply launch_declines|]. intros d. by apply triple_ret'.
  - apply declining_then; [apply skip_declines|]. intros [transition completed].
    eapply triple_bind; [apply terminal_spent|]. intros events. by apply triple_ret'.
  - eapply triple_bind; [apply triple_map_err, start_failure_spent|]. intros d. by apply triple_ret'.
  - past. past. by apply triple_ret'.
Qed.

Lemma spent_trans g n s k s' : spent g n s → spent s.(xs_graph) k s' → spent g (n + k) s'.
Proof. intros [W L U C] [W' L' U' C']. split; [done|lia..]. Qed.

Lemma spent_refl s : graph_wf s.(xs_graph) → spent s.(xs_graph) 0 s.
Proof. intros W. split; [done|lia..]. Qed.
End Steps.

(** ** Holds *)

Lemma clear_hold_spends op g : store_spends g (clear_recorded_operation_hold op g).
Proof.
  split; [apply clear_hold_evolves|]. unfold clear_recorded_operation_hold. simpl.
  generalize (associated_contexts op g). intros l. generalize (gs_contexts g). clear g.
  induction l as [|i l IH]; intros m id c'; simpl; [intros; by exists c'|]. intros (c1 & Hc1 & Hs)%IH.
  rewrite lookup_alter in Hc1. case_decide as Hi; [|eauto]. subst. apply fmap_Some in Hc1 as (c & Hc & ->).
  exists c. split; [done|]. etrans; [|exact Hs]. split.
  - split; try done. intros x. simpl. rewrite lookup_fmap. destruct (gc_members c !! x); constructor.
    case_bool_decide; [apply same_held|done].
  - intros x m'. simpl. rewrite lookup_fmap. intros (y & Hy & ->)%fmap_Some Hu. exists y. split; [done|].
    by case_bool_decide.
Qed.

Lemma is_operation_held_total op g : is_Some (is_operation_held op g).
Proof.
  unfold is_operation_held.
  assert (∀ l b, is_Some (try_fold (λ '(context, member) acc,
    held ← waits_without_clock context member.(gm_service); Some (acc || held)) l b)) as H.
  { intros l. induction l as [|[c m] l IH]; intros b; simpl; [eauto|].
    destruct (waits_without_clock_spec c (gm_service m)) as (h & -> & _). simpl. apply IH. }
  destruct (H (operation_members op g) false) as [b ->]. simpl. eauto.
Qed.

(** ** The loop *)

Section Loop.
Context {P BoundaryError : Type} `{CalendarSyntax}.
Notation Error := (StartExecutionError BoundaryError).
Notation RError := (ReleaseError (BoundaryError := BoundaryError)).
Notation State := (ReleaseState P).

Definition graph_of (s : State) : GraphExecutionStore := s.(rl_exec).(xs_graph).

(** Running a step on the stores. *)
Lemma triple_in_stores {E F A} (wrap : F → E) (m : Step P F A) Pre Post :
  triple Pre m Post →
  triple (λ s : State, Pre s.(rl_exec)) (in_stores wrap m) (λ a s, Post a s.(rl_exec)).
Proof.
  intros Hm s Hs. unfold in_stores, exec_within. destruct (Hm _ Hs) as (x & r & -> & Hr).
  eexists _, _. split; [done|]. intros a Ha. simpl. apply Hr. destruct r; simpl in Ha; [|done]. by injection Ha as ->.
Qed.

Lemma start_request_declines {E} (missing : string → E) ready at_ns :
  declining (start_request missing ready at_ns : Step P E _).
Proof.
  unfold start_request. apply declining_bind; [apply declining_require|]. intros. apply declining_ret.
Qed.

Definition queued_by (g : GraphExecutionStore) (checks n : nat) (queued : list GraphContextId) (s : State) : Prop :=
  ∃ n', spent g n' s.(rl_exec) ∧ (List.length queued + n ≤ n' + checks * size g.(gs_contexts))%nat.

Lemma event_contexts_length events : (List.length (event_context_ids events) ≤ List.length events)%nat.
Proof.
  unfold event_context_ids, btree_elements. rewrite merge_sort_Permutation.
  change (size (list_to_set (map ge_context_id events) : gset GraphContextId) ≤ List.length events)%nat.
  rewrite <-(length_map ge_context_id). induction (map ge_context_id events) as [|x l IH]; simpl; [done|].
  rewrite size_union_alt, size_singleton.
  assert (size (list_to_set l ∖ {[x]} : gset GraphContextId) ≤ size (list_to_set l : gset GraphContextId))%nat
    by (apply subseteq_size; set_solver). lia.
Qed.

Lemma release_one_spent at_ns ready g n :
  triple (λ s, spent g n s.(rl_exec)) (release_one at_ns ready : Exec State RError _)
    (λ out, queued_by g (if is_check ready then 1 else 0) n out.1).
Proof.
  unfold release_one, is_check. destruct (rg_action ready).
  - eapply triple_bind; [apply triple_in_stores, start_request_declines|]. intros request. cbv beta.
    intros s Hs. destruct (triple_in_stores (E := RError) RlStart _ _ _ (begin_precheck_spent request (graph_of s)) s)
      as (s' & r & E & Hr); [by apply spent_refl, (sp_wf _ _ _ Hs)|].
    unfold mbind, exec_bind. rewrite E. destruct r as [out|e]; [|eexists _, _; by split].
    eexists _, _. split; [done|]. intros ? [= <-]. specialize (Hr out eq_refl). pose proof (sp_contexts _ _ _ Hs) as Hc.
    destruct out as [d|d|d]; simpl in *.
    + destruct Hr as [Hr Hl]. exists (n + 0)%nat. split; [by eapply spent_trans|]. unfold graph_of in Hl. simpl. lia.
    + eexists. split; [by eapply spent_trans|]. pose proof (event_contexts_length (std_graph_events d)). simpl. lia.
    + exists (n + 0)%nat. split; [by eapply spent_trans|]. simpl. lia.
  - eapply triple_bind; [apply triple_in_stores, start_request_declines|]. intros request. cbv beta.
    intros s Hs. destruct (triple_in_stores (E := RError) RlStart _ _ _ (begin_prechecked_spent request (graph_of s)) s)
      as (s' & r & E & Hr); [by apply spent_refl, (sp_wf _ _ _ Hs)|].
    unfold mbind, exec_bind. rewrite E. destruct r as [out|e]; [|eexists _, _; by split].
    specialize (Hr out eq_refl). destruct out as [d|d]; simpl in *.
    + eexists _, _. split; [done|]. intros ? [= <-]. exists (n + 0)%nat. split; [|simpl; lia].
      destruct (sed_job_kind d); simpl; by eapply spent_trans.
    + eexists _, _. split; [done|]. intros ? [= <-]. eexists. split; [by eapply spent_trans|].
      pose proof (event_contexts_length (std_graph_events d)). simpl. lia.
Qed.

Lemma release_each_spent at_ns ready g n :
  triple (λ s, spent g n s.(rl_exec)) (exec_each (release_one at_ns) ready : Exec State RError _)
    (λ out, queued_by g (checks_of ready) n (mjoin (map fst out))).
Proof.
  revert n. induction ready as [|r ready IH]; intros n; simpl.
  { apply triple_ret'. intros s Hs. exists n. split; [done|]. simpl. lia. }
  eapply triple_bind; [apply release_one_spent|]. intros out s (n' & Hs & Hl).
  destruct (IH n' s Hs) as (s2 & [outs|e] & E & Hr); unfold mbind, exec_bind; rewrite E; eexists _, _; (split; [done|]);
    [|done].
  intros ? [= <-]. destruct (Hr outs eq_refl) as (n'' & Hs2 & Hl2). exists n''. split; [done|].
  simpl. rewrite length_app. unfold checks_of in *. rewrite filter_cons.
  destruct (is_check r); [rewrite decide_True by done|rewrite decide_False by done]; simpl in *; lia.
Qed.

Lemma holds_spent held ready at_ns g n :
  triple (spent g n) (restart_exited_hold_lifetimes held ready at_ns : Step P RError _)
    (λ ready' s, spent g n s ∧ checks_of ready' = checks_of ready).
Proof.
  revert ready. induction held as [|op held IH]; intros ready; simpl; [by apply triple_ret'|].
  assert (checks_of (map (not_from_hold op) ready) = checks_of ready) as <-.
  { unfold checks_of. induction ready as [|r l IHl]; simpl; [done|]. rewrite !filter_cons.
    assert (is_check (not_from_hold op r) = is_check r) as -> by (unfold not_from_hold; by case_bool_decide).
    destruct (is_check r); [rewrite !decide_True by done; simpl; by rewrite IHl|by rewrite !decide_False]. }
  apply declining_then.
  { intros g0 n0 s Hs. unfold operation_held. destruct (is_operation_held_total op (xs_graph s)) as [b ->].
    eexists _, _. by split. }
  intros [].
  - apply IH.
  - apply declining_then; [apply declining_get|]. intros pending.
    apply declining_then; [destruct pending; [by apply declining_on|apply declining_ret]|]. intros _.
    apply declining_then; [|intros _; apply IH]. intros g0 n0 s Hs. eexists _, _. split; [done|]. intros _ _.
    apply (spent_step g0 n0 s); [done|]. apply clear_hold_spends.
Qed.

Lemma release_round_spent context_id slots at_ns g :
  triple (λ s, graph_wf g ∧ graph_of s = g) (release_round context_id slots at_ns : Exec State RError _)
    (λ out s, graph_wf (graph_of s) ∧
       (List.length out.1 + release_potential (graph_of s) ≤ release_potential g)%nat).
Proof.
  unfold release_round. eapply triple_bind; [apply triple_get|]. intros held. cbv beta.
  intros s [[Hg <-] _]. unfold release_context_starts.
  destruct (release_store (probe_level s.(rl_exec).(xs_services)) context_id slots (graph_of s) Hg)
    as (g1 & r & E & Hss & Hk).
  set (s1 := set_exec (set_graph g1 s.(rl_exec)) s).
  assert ((in_stores id (release_context_starts RlGraph context_id slots) : Exec State RError _) s =
    Some (s1, map_err id (map_err RlGraph r))) as E1.
  { unfold in_stores, exec_within, release_context_starts, mbind, exec_bind, exec_get, on_graph, exec_within, graph_of in *.
    simpl in E. by rewrite E. }
  unfold mbind at 1, exec_bind at 1. unfold release_context_starts in E1. rewrite E1.
  destruct r as [ready|e]; simpl; [|eexists _, _; by split].
  specialize (Hk ready eq_refl). destruct (spends_pairs _ _ Hss) as (HL%subseteq_size & _ & HC).
  refine ((_ : triple (λ s, spent g1 0 s.(rl_exec)) _ _) s1 _).
  2: { split; simpl; [by eapply store_spends_wf|lia..]. }
  eapply triple_bind; [apply triple_in_stores, holds_spent|]. intros ready'. cbv beta.
  intros s2 [Hs2 Hck]. destruct (release_each_spent at_ns ready' g1 0 s2 Hs2) as (s3 & r & E3 & Hr).
  unfold mbind, exec_bind. rewrite E3. destruct r as [outs|e]; eexists _, _; (split; [done|]); [|done].
  intros ? [= <-]. destruct (Hr outs eq_refl) as (n' & [W L U C] & Hq). split; [done|]. simpl.
  unfold release_potential, graph_of in *. rewrite Hck in Hq. rewrite C. nia.
Qed.

Lemma release_loop_ends fuel slots at_ns queue s :
  graph_wf (graph_of s) → (List.length queue + release_potential (graph_of s) < fuel)%nat →
  ∃ s' r, (release_loop fuel slots at_ns queue : Exec State RError _) s = Some (s', r).
Proof.
  revert queue s. induction fuel as [|fuel IH]; intros queue s Hg Hf; [lia|]. simpl.
  destruct queue as [|id queue]; [by eexists _, _|].
  destruct (release_round_spent id slots at_ns (graph_of s) s) as (s1 & [[queued dispatches]|e] & E & Hr); [done| |];
    unfold mbind at 1, exec_bind at 1; rewrite E; [|eauto]. destruct (Hr _ eq_refl) as [Hg1 Hp]. simpl in *.
  destruct (IH (queue ++ queued) s1) as (s2 & r & E2); [done|rewrite length_app; lia|].
  unfold mbind, exec_bind. rewrite E2. destruct r; eauto.
Qed.

(** *** The stores stay well formed *)

Definition work_wf (s : State) : Prop := exec_wf s.(rl_exec).

Lemma serves_in_stores {E F A} (wrap : F → E) (m : Step P F A) :
  serves exec_wf m → serves work_wf (in_stores wrap m : Exec State E A).
Proof. intros Hm. apply serves_within. intros s Hs. destruct (Hm _ Hs) as (t & r & -> & Ht). eauto. Qed.

Lemma serves_start_request {E} (missing : string → E) ready at_ns :
  serves exec_wf (start_request missing ready at_ns : Step P E _).
Proof. apply serves_bind; [apply serves_require|]. intros. apply serves_ret. Qed.

Lemma release_one_serves at_ns ready : serves work_wf (release_one at_ns ready : Exec State RError _).
Proof.
  unfold release_one. destruct (rg_action ready);
    (apply serves_bind; [apply serves_in_stores, serves_start_request|intros request]).
  - apply serves_bind; [apply serves_in_stores, begin_graph_pre_start_check_serves|]. intros. apply serves_ret.
  - apply serves_bind; [apply serves_in_stores, begin_prechecked_ready_start_serves|]. intros [d|d]; [|apply serves_ret].
    apply serves_bind; [|intros; apply serves_ret]. apply serves_update. intros s Hs. by destruct (sed_job_kind d).
Qed.

Lemma holds_serve held ready at_ns : serves exec_wf (restart_exited_hold_lifetimes held ready at_ns : Step P RError _).
Proof.
  revert ready. induction held as [|op held IH]; intros ready; simpl; [apply serves_ret|].
  apply serves_bind.
  { intros s Hs. unfold operation_held. destruct (is_operation_held_total op (xs_graph s)) as [b ->].
    eexists _, _. by split. }
  intros []; [apply IH|]. apply serves_bind; [apply serves_get|]. intros pending.
  apply serves_bind; [|intros _; apply serves_bind; [|intros _; apply IH]].
  - destruct pending; [|apply serves_ret]. apply serves_on. intros s [[? ? ? ?] ?]. split; [split|]; simpl; try done.
    eapply op_step_wf; [done|]. apply ostep_clock.
  - apply serves_update. intros s [[? ? ? ?] ?]. split; [split|]; simpl; try done.
    eapply store_evolves_wf; [apply clear_hold_evolves|done].
Qed.

Lemma release_round_serves context_id slots at_ns :
  serves work_wf (release_round context_id slots at_ns : Exec State RError _).
Proof.
  unfold release_round. apply serves_bind; [apply serves_get|]. intros held. apply serves_bind.
  - apply serves_in_stores. apply serves_bind; [apply serves_get|]. intros services. apply serves_within.
    intros s Hs. pose proof Hs as [[? ? Hg ?] ?].
    destruct (release_store (probe_level services) context_id slots _ Hg) as (g' & r & -> & Hss & _).
    eexists _, _. split; [done|]. split; [split|]; simpl; try done. by eapply store_spends_wf.
  - intros ready. apply serves_bind; [apply serves_in_stores, holds_serve|]. intros ready'.
    apply serves_bind; [apply serves_each; intros; apply release_one_serves|]. intros. apply serves_ret.
Qed.

Lemma release_loop_keeps fuel slots at_ns queue s s' r :
  work_wf s → (release_loop fuel slots at_ns queue : Exec State RError _) s = Some (s', r) → work_wf s'.
Proof.
  revert queue s r. induction fuel as [|fuel IH]; intros queue s r Hs; [done|]. simpl.
  destruct queue as [|id queue]; [by intros [= <- <-]|].
  destruct (release_round_serves id slots at_ns s Hs) as (s1 & [[queued dispatches]|e] & E & H1);
    unfold mbind at 1, exec_bind at 1; rewrite E; [|by intros [= <- _]].
  unfold mbind, exec_bind. destruct (release_loop fuel slots at_ns (queue ++ queued) s1) as [[s2 [rest|e]]|] eqn:E2;
    [|intros [= <- _]; by eapply IH|done]. intros [= <- _]. by eapply IH.
Qed.

(** Releasing a context ends. The loop pops a context, lets its starts go,
    and queues every context that a check or an end has touched; since each
    check and each end is spent for good, it empties its queue within
    [release_fuel] rounds, whatever the registry, the terminals and the
    conditions of the services turn the starts into; and every store is well
    formed afterwards, also when it stops at an error. *)
Theorem release_always_ends slots at_ns context_id s :
  work_wf s → ∃ s' r, (release_for_context slots at_ns context_id : Exec State RError _) s = Some (s', r) ∧ work_wf s'.
Proof.
  intros Hs. unfold release_for_context.
  destruct (release_loop_ends (release_fuel [context_id] (graph_of s)) slots at_ns [context_id] s) as (s' & r & E).
  - apply Hs.
  - unfold release_fuel. simpl. lia.
  - exists s', r. split; [done|]. by eapply release_loop_keeps.
Qed.

(** *** Relaunches *)

Notation LError := (RestartPolicyRelaunchError (BoundaryError := BoundaryError)).

Lemma relaunch_one_spent at_ns ready g n :
  triple (λ s, spent g n s.(rl_exec)) (relaunch_one at_ns ready : Exec State LError _)
    (λ out, queued_by g 0 n out.1).
Proof.
  unfold relaunch_one. eapply triple_bind; [apply triple_in_stores, start_request_declines|]. intros request. cbv beta.
  intros s Hs. destruct (triple_in_stores (E := LError) RrStart _ _ _ (begin_ready_spent request (graph_of s)) s)
    as (s' & r & E & Hr); [by apply spent_refl, (sp_wf _ _ _ Hs)|].
  unfold mbind, exec_bind. rewrite E. destruct r as [out|e]; [|eexists _, _; by split].
  eexists _, _. split; [done|]. intros ? [= <-]. specialize (Hr out eq_refl).
  destruct out as [d|d|d]; simpl in *; (eexists; split; [by eapply spent_trans|]); simpl; rewrite ?length_map; lia.
Qed.

Lemma relaunch_each_spent at_ns ready g n :
  triple (λ s, spent g n s.(rl_exec)) (exec_each (relaunch_one at_ns) ready : Exec State LError _)
    (λ out, queued_by g 0 n (mjoin (map fst out))).
Proof.
  revert n. induction ready as [|r ready IH]; intros n; simpl.
  { apply triple_ret'. intros s Hs. exists n. split; [done|]. simpl. lia. }
  eapply triple_bind; [apply relaunch_one_spent|]. intros out s (n' & Hs & Hl).
  destruct (IH n' s Hs) as (s2 & [outs|e] & E & Hr); unfold mbind, exec_bind; rewrite E; eexists _, _; (split; [done|]);
    [|done].
  intros ? [= <-]. destruct (Hr outs eq_refl) as (n'' & Hs2 & Hl2). exists n''. split; [done|].
  simpl. rewrite length_app. lia.
Qed.

Lemma relaunch_release_spent context_id slots g :
  triple (λ s, graph_wf g ∧ graph_of s = g)
    (in_stores id (release_context_starts RrGraphExecution context_id slots) : Exec State LError _)
    (λ ready s, spent g 0 s.(rl_exec)).
Proof.
  intros s [Hg <-]. unfold in_stores, exec_within, release_context_starts, mbind, exec_bind, exec_get, on_graph, exec_within.
  destruct (release_store (probe_level s.(rl_exec).(xs_services)) context_id slots (graph_of s) Hg) as (g1 & r & E & Hss & _).
  unfold graph_of in E. simpl. rewrite E. eexists _, _. split; [done|]. intros ready _.
  apply (spent_step (graph_of s) 0 s.(rl_exec)); [by apply spent_refl|done].
Qed.

Lemma relaunch_loop_ends fuel slots at_ns queue s :
  graph_wf (graph_of s) → (List.length queue + size (live_pairs (graph_of s)) < fuel)%nat →
  ∃ s' r, (relaunch_loop fuel slots at_ns queue : Exec State LError _) s = Some (s', r).
Proof.
  revert queue s. induction fuel as [|fuel IH]; intros queue s Hg Hf; [lia|]. simpl.
  destruct queue as [|id queue]; [by eexists _, _|].
  destruct (relaunch_release_spent id slots (graph_of s) s) as (s1 & [ready|e] & E & Hr); [done| |];
    unfold mbind at 1, exec_bind at 1; rewrite E; [|eauto].
  destruct (relaunch_each_spent at_ns ready (graph_of s) 0 s1 (Hr ready eq_refl)) as (s2 & [outs|e] & E2 & Hr2);
    unfold mbind at 1, exec_bind at 1; rewrite E2; [|eauto].
  destruct (Hr2 outs eq_refl) as (n' & [W L _ _] & Hq). simpl in Hf.
  destruct (IH (queue ++ mjoin (map fst outs)) s2) as (s3 & r & E3); [done|unfold graph_of in *; rewrite length_app; lia|].
  unfold mbind, exec_bind. rewrite E3. destruct r; eauto.
Qed.

Lemma admit_total service at_ns s :
  ∃ s' r, (admit_restart_backoff_start service at_ns : Exec State LError _) s = Some (s', r) ∧ graph_of s' = graph_of s.
Proof.
  unfold admit_restart_backoff_start, admit_due_restart_policy_start, plan_restart_policy_start.
  destruct (plan_start_spec (xs_services (rl_exec s)) service SrcRestartPolicy TcRestartPolicy) as (plan & E & _).
  rewrite E. destruct (pending_deferred_operation _ _); (destruct (ensure_due_restart_backoff _ _ _); [|by eauto]); simpl.
  - destruct plan as [plan|]; [|by eauto]. destruct (dispatch_existing_requested_start_plan _ _ _ _ _) as [[? ?] ?]. eauto.
  - destruct plan as [plan|]; [|by eauto]. destruct (allocate_batch _ _ _) as [? [?|]]; [|by eauto].
    destruct (dispatch_on_demand_start_plan _ _ _ _ _ _) as [[? ?] [?|]]; eauto.
Qed.

(** The relaunch of a service whose backoff is over always answers: its
    loop over the contexts ends as the supervisor's does, and a relaunch that
    is refused leaves the supervisor exactly as it was. *)
Theorem relaunch_always_answers service at_ns slots s :
  graph_wf (graph_of s) → (graph_of s).(gs_next_context_id) < u64_max →
  ∃ s' r, (begin_due_restart_policy_relaunch service at_ns slots : Exec State LError _) s = Some (s', r) ∧
    ∀ e, r = Err e → s' = s.
Proof.
  intros Hg Hn. unfold begin_due_restart_policy_relaunch, exec_atomic.
  destruct (admit_total service at_ns s) as (s1 & [admission|e] & E1 & G1);
    unfold mbind at 1, exec_bind at 1; rewrite E1; [|eexists _, _; split; [done|]; done].
  rewrite <-G1 in Hg, Hn. unfold create_relaunch_context.
  pose proof (graph_step_keeps _ _ Hg (gstep_on_demand _ admission s1.(rl_exec).(xs_services) Hn)) as [Hg2 _].
  unfold graph_of, mbind, exec_bind, exec_get, exec_on, in_stores, exec_within, on_services, exec_on in *. simpl.
  destruct (create_on_demand_context _ _ _) as [g2 [id|e]]; simpl in *; [|eexists _, _; split; [done|]; done].
  destruct (consume_restart_backoff service _) as [t [[]|e]]; simpl; [|eexists _, _; split; [done|]; done].
  set (s2 := set_exec _ _). unfold run_relaunch.
  destruct (relaunch_loop_ends (release_fuel [id] (graph_of s2)) slots at_ns [id] s2) as (s3 & r & E3).
  - done.
  - unfold release_fuel, release_potential. simpl. lia.
  - unfold mbind, exec_bind. unfold graph_of in E3. rewrite E3. destruct r; eexists _, _; (split; [done|]); done.
Qed.
End Loop.

(** ** A boot *)

Definition boot_start_request (id : OperationId) (service : string) : OperationRequest :=
  {| rq_id := id; rq_operation_type := OpStart; rq_service := service; rq_source := SrcBoot;
     rq_caller := None; rq_created_at_ns := 10 |}.

(** "db", "app" and "web" are planned, nothing has been let go. *)
Definition boot_work : ReleaseState unit := {|
  rl_exec := {|
    xs_services := match from_boot_snapshot late_definitions with Ok t => t | Err _ => ∅ end;
    xs_operations := foldl (λ operations request, (request_operation request operations).1) op_store_new
      [boot_start_request 1 "db"; boot_start_request 2 "app"; boot_start_request 3 "web"];
    xs_graph := late_store;
    xs_jobs := job_store_new;
    xs_job_ids := 0;
    xs_start := start_store_new;
    xs_controller := tt |};
  rl_operation_ids := 3;
  rl_pending_launches := [];
  rl_pending_start_hook_launches := [];
|}.

Lemma boot_work_wf : work_wf boot_work.
Proof.
  split; [|apply start_store_new_wf]. split; simpl.
  - destruct (from_boot_snapshot late_definitions) as [t|] eqn:E; [by eapply boot_wf|done].
  - apply op_reachable_store_wf. unfold op_reachable. eapply rtc_l; [apply (ostep_request _ (boot_start_request 1 "db")); simpl; lia|].
    eapply rtc_l; [apply (ostep_request _ (boot_start_request 2 "app")); simpl; lia|]. apply rtc_once.
    apply (ostep_request _ (boot_start_request 3 "web")). simpl. lia.
  - apply graph_reachable_wf, late_reachable.
  - apply (job_reachable_ledger_wf empty_ledger), rtc_refl.
Qed.

Lemma release_always_ends_witness :
  ∃ s' r, (release_for_context 4 20 0 : Exec (ReleaseState unit) (ReleaseError (BoundaryError := string)) _) boot_work
            = Some (s', r) ∧ work_wf s'.
Proof. apply release_always_ends. apply boot_work_wf. Defined.

(** "app" and "web" are checked and wait for "db", whose main process is
    queued for launch. *)
Example boot_release :
  match (release_for_context 4 20 0 : Exec (ReleaseState unit) (ReleaseError (BoundaryError := string)) _) boot_work with
  | Some (s, Ok dispatches) => map sed_job_id dispatches = [11] ∧ s.(rl_pending_launches) = [11] ∧
      map (λ c, (status_in c "db", status_in c "app", status_in c "web")) (btree_values (graph_of s).(gs_contexts)) =
        [(Some GsRunning, Some GsWaitingForDependencies, Some GsWaitingForDependencies)]
  | _ => False
  end.
Proof. vm_compute. auto. Qed.

(** *** A relaunch with a dependency *)

(** "app" requires "db"; it crashed at time 10 with a delay of a second, and
    "db" has been stopped since. *)
Definition relaunch_work : ReleaseState unit := {|
  rl_exec := {|
    xs_services :=
      let start := (transition_service "app" {| st_to := StStarting; st_cause := TcExplicitStart |}
        match from_boot_snapshot (take 2 late_definitions) with Ok t => t | Err _ => ∅ end).1 in
      (transition_service_to_restart_backoff "app" TcProcessCrash 1000000010 start).1;
    xs_operations := op_store_new;
    xs_graph := graph_store_new;
    xs_jobs := job_store_new;
    xs_job_ids := 0;
    xs_start := start_store_new;
    xs_controller := tt |};
  rl_operation_ids := 0;
  rl_pending_launches := [];
  rl_pending_start_hook_launches := [];
|}.

Definition relaunched : option (ReleaseState unit * list string) :=
  match @begin_due_restart_policy_relaunch unit string any_calendar "app" 1000000010 4 relaunch_work with
  | Some (s, Ok d) => Some (s, map (λ start, start.(sed_ready).(rg_service)) d.(rrd_start_dispatches))
  | _ => None
  end.

Lemma relaunch_always_answers_witness :
  ∃ s' r, @begin_due_restart_policy_relaunch unit string any_calendar "app" 1000000010 4 relaunch_work = Some (s', r) ∧
    ∀ e, r = Err e → s' = relaunch_work.
Proof. apply relaunch_always_answers; [apply graph_store_new_wf|]. vm_compute. reflexivity. Defined.

(** A relaunch starts its service before the dependencies it planned. The loop
    of [begin_due_restart_policy_relaunch] treats a start that the graph let go
    for its check like one whose dependencies are settled: "app" is started at
    once, and "db", which it requires and the plan starts with it, stays
    dormant. The graph activates a dependency when its dependent's check has
    passed, which this loop never reports, so no release lets "db" go; the
    supervisor's loop ([release_for_context]) distinguishes the two. *)
Theorem relaunch_overtakes_dependency :
  match relaunched with
  | Some (s, started) =>
      started = ["app"] ∧
      map (λ c, (status_in c "app", status_in c "db")) (btree_values (graph_of s).(gs_contexts)) =
        [(Some GsRunning, Some GsDormant)] ∧
      map or_state (List.concat (map (λ id, option_list ((rl_exec s).(xs_operations).(op_records) !! id))
        (active_for_service (rl_exec s).(xs_operations) "db"))) = [OsPending] ∧
      match release_ready (λ _ _, ProbeAbsent) 0 4 (graph_of s) with Some (_, Ok ready) => ready = [] | _ => False end
  | None => False
  end.
Proof. vm_compute. auto. Qed.

(** *** A start two contexts wait for *)

Definition shared_definitions : list ServiceDefinition :=
  [ {| (simple_system_boot "app" "/bin/app") with
       sd_conditions := [{| chk_kind := CheckPath; chk_argument := "/run/ready" |}] |};
    {| (simple_system_boot "web" "/bin/web") with sd_requires := ["app"] |} ].

Definition shared_work : ReleaseState unit := {|
  rl_exec := {|
    xs_services := match from_boot_snapshot shared_definitions with Ok t => t | Err _ => ∅ end;
    xs_operations := op_store_new;
    xs_graph := graph_store_new;
    xs_jobs := job_store_new;
    xs_job_ids := 0;
    xs_start := start_store_new;
    xs_controller := tt |};
  rl_operation_ids := 10;
  rl_pending_launches := [];
  rl_pending_start_hook_launches := [];
|}.

(** An administrator starts a service: plan, operations, context, release. *)
Definition admin_start (service : string) (id : OperationId) (s : ReleaseState unit)
    : option (ReleaseState unit * bool) :=
  match @plan_on_demand_start s.(rl_exec).(xs_services) any_calendar service with
  | Some (Ok plan) =>
      match dispatch_on_demand_start_plan plan id None 20 s.(rl_exec).(xs_operations) s.(rl_operation_ids) with
      | (operations, operation_ids, Ok dispatch) =>
          let s := set_admitted operations operation_ids s in
          match create_on_demand_context dispatch s.(rl_exec).(xs_services) s.(rl_exec).(xs_graph) with
          | (graph, Ok context_id) =>
              match (release_for_context 4 20 context_id : Exec (ReleaseState unit) (ReleaseError (BoundaryError := string)) _)
                      (set_exec (set_graph graph s.(rl_exec)) s) with
              | Some (s, r) => Some (s, is_ok r)
              | None => None
              end
          | _ => None
          end
      | _ => None
      end
  | _ => None
  end.

(** "app" is started and waits for its check; then "web", which requires it;
    the helper runs and reports that the path is there. *)
Definition shared_run :=
  '(s, _) ← admin_start "app" 1 shared_work;
  '(s, _) ← admin_start "web" 2 s;
  let helper := {| lh_service := "app"; lh_operation_id := 1; lh_checks := []; lh_pid := 100; lh_pidfd := 5;
                   lh_result_fd := 6; lh_cgroup_id := "" |} in
  let start := (record_running_pre_start_check_helper helper 20 s.(rl_exec).(xs_start)).1 in
  let s := set_exec (set_start start s.(rl_exec)) s in
  let report := {| frp_service := "app"; frp_operation_id := 1;
    frp_results := [{| fr_check := {| chk_kind := CheckPath; chk_argument := "/run/ready" |}; fr_satisfied := true |}] |} in
  '(exec, r) ← (complete_pre_start_check_helper 6 report : Step unit (StartExecutionError string) _) s.(rl_exec);
  match r with
  | Ok completion =>
      '(_, released) ← (release_after_graph_context_ids completion.(pcd_graph_context_ids) 4 30
        : Exec (ReleaseState unit) (ReleaseError (BoundaryError := string)) _) (set_exec exec s);
      Some (completion.(pcd_graph_context_ids), match released with Err e => Some e | Ok _ => None end)
  | Err _ => None
  end.

(** A start that two contexts wait for is let go twice. The second context
    joins the running operation of "app" as a member that runs; when the check
    of "app" passes, both members become ready to start. Releasing the first
    context takes the checked start, and releasing the second finds none: the
    completion of the check is an error, and nothing of it is kept. *)
Theorem shared_start_let_go_twice : shared_run = Some ([0; 1], Some (RlStart (SeMissingPrecheckedGraphStart 1))).
Proof. vm_compute. reflexivity. Qed.
