(* ===== verification/ControlRun.v ===== *)
(** * The store of stops, restarts and reloads under way

    Models [src/src/execution/control/store/]: the deadline of every stop that
    was begun, which of them are the stop leg of a restart, and the deadlines
    of reloads, by signal (a window to notice the reload in) or by command. *)

From S2P Require Import Prelude RustStr ServiceDef Ids Restart StartState ServiceRuntime Cgroup ServiceTable.
From S2P Require Import OperationRecord OperationStore ExecGraph JobRecord JobStore ExecCommand Effects StartState.
From S2P Require Import StartBegin StartRun.
From Stdlib Require Import String.
From stdpp Require Import pretty.
Open Scope string_scope.
Open Scope list_scope.
Open Scope Z_scope.

(** ** Stops ([store/stop.rs]) *)

Record StopTimeoutDeadline : Type := {
  sto_operation_id : OperationId;
  sto_service : string;
  sto_cgroup_id : string;
  sto_due_at_ns : Z;
}.

(** ** Reloads ([store/reload.rs]) *)

Inductive ReloadDetectionPhase : Type := DetectionWindow | ExtendedWait.

#[export] Instance reload_detection_phase_eq_dec : EqDecision ReloadDetectionPhase.
Proof. solve_decision. Defined.

Record ReloadDetectionDeadline : Type := {
  rdd_operation_id : OperationId;
  rdd_service : string;
  rdd_due_at_ns : Z;
  rdd_phase : ReloadDetectionPhase;
}.

Record ReloadCommandDeadline : Type := {
  rcd_operation_id : OperationId;
  rcd_job_id : JobId;
  rcd_service : string;
  rcd_cgroup_id : string;
  rcd_due_at_ns : Z;
}.

Record CancelledReloadDeadlines : Type := {
  crd_detections : list ReloadDetectionDeadline;
  crd_commands : list ReloadCommandDeadline;
}.

(** The three stores of [ControlExecutionStore] have a field, or three, each. *)
Record ControlExecutionStore : Type := {
  ces_stop_timeouts : gmap OperationId StopTimeoutDeadline;
  ces_restart_stop_legs : gmap OperationId string;
  ces_detections : gmap OperationId ReloadDetectionDeadline;
  ces_commands : gmap OperationId ReloadCommandDeadline;
  ces_command_ready : gset OperationId;
}.

Definition control_store_new : ControlExecutionStore :=
  {| ces_stop_timeouts := ∅; ces_restart_stop_legs := ∅; ces_detections := ∅; ces_commands := ∅;
     ces_command_ready := ∅ |}.

(** *** Stop timeouts *)

Definition record_stop_timeout (deadline : StopTimeoutDeadline) (self : ControlExecutionStore)
    : ControlExecutionStore :=
  {| self with ces_stop_timeouts := <[deadline.(sto_operation_id) := deadline]> self.(ces_stop_timeouts) |}.

Definition due_stop_timeouts (now_ns : Z) (self : ControlExecutionStore) : list StopTimeoutDeadline :=
  due_before sto_due_at_ns now_ns self.(ces_stop_timeouts).

Definition remove_stop_timeout (operation_id : OperationId) (self : ControlExecutionStore)
    : ControlExecutionStore * option StopTimeoutDeadline :=
  ({| self with ces_stop_timeouts := delete operation_id self.(ces_stop_timeouts) |},
   self.(ces_stop_timeouts) !! operation_id).

Definition stop_le (a b : StopTimeoutDeadline) : Prop := a.(sto_due_at_ns) ≤ b.(sto_due_at_ns).

#[export] Instance stop_le_dec : RelDecision stop_le.
Proof. intros a b. unfold stop_le. apply _. Defined.

Definition stop_timeout_for_service (service : string) (self : ControlExecutionStore)
    : option StopTimeoutDeadline :=
  min_by stop_le (filter (λ deadline, deadline.(sto_service) = service) (btree_values self.(ces_stop_timeouts))).

Definition extend_stop_timeout (operation_id : OperationId) (due_at_ns : Z) (self : ControlExecutionStore)
    : ControlExecutionStore * option StopTimeoutDeadline :=
  match self.(ces_stop_timeouts) !! operation_id with
  | None => (self, None)
  | Some deadline =>
      let deadline := {| deadline with sto_due_at_ns := due_at_ns |} in
      ({| self with ces_stop_timeouts := <[operation_id := deadline]> self.(ces_stop_timeouts) |}, Some deadline)
  end.

Definition next_stop_timeout (self : ControlExecutionStore) : option StopTimeoutDeadline :=
  next_due sto_due_at_ns sto_service self.(ces_stop_timeouts).

(** *** Stop legs of restarts *)

Definition record_restart_stop_leg (operation_id : OperationId) (service : string) (self : ControlExecutionStore)
    : ControlExecutionStore :=
  {| self with ces_restart_stop_legs := <[operation_id := service]> self.(ces_restart_stop_legs) |}.

Definition take_restart_stop_leg (operation_id : OperationId) (self : ControlExecutionStore)
    : ControlExecutionStore * option string :=
  ({| self with ces_restart_stop_legs := delete operation_id self.(ces_restart_stop_legs) |},
   self.(ces_restart_stop_legs) !! operation_id).

(** *** Reload windows *)

Definition record_reload_detection_deadline (deadline : ReloadDetectionDeadline) (self : ControlExecutionStore)
    : ControlExecutionStore :=
  {| self with ces_detections := <[deadline.(rdd_operation_id) := deadline]> self.(ces_detections) |}.

Definition due_reload_detection_deadlines (now_ns : Z) (self : ControlExecutionStore)
    : list ReloadDetectionDeadline := due_before rdd_due_at_ns now_ns self.(ces_detections).

Definition next_reload_detection_deadline (self : ControlExecutionStore) : option ReloadDetectionDeadline :=
  next_due rdd_due_at_ns rdd_service self.(ces_detections).

Definition remove_reload_detection_deadline (operation_id : OperationId) (self : ControlExecutionStore)
    : ControlExecutionStore * option ReloadDetectionDeadline :=
  ({| self with ces_detections := delete operation_id self.(ces_detections) |},
   self.(ces_detections) !! operation_id).

Definition extend_reload_detection_deadline (operation_id : OperationId) (due_at_ns : Z)
    (self : ControlExecutionStore) : ControlExecutionStore * option ReloadDetectionDeadline :=
  match self.(ces_detections) !! operation_id with
  | None => (self, None)
  | Some deadline =>
      let deadline := {| deadline with rdd_due_at_ns := due_at_ns |} in
      ({| self with ces_detections := <[operation_id := deadline]> self.(ces_detections) |}, Some deadline)
  end.

Definition observe_reload_reloading (operation_id : OperationId) (due_at_ns : Z) (self : ControlExecutionStore)
    : ControlExecutionStore * option ReloadDetectionDeadline :=
  match self.(ces_detections) !! operation_id with
  | None => (self, None)
  | Some deadline =>
      let deadline := {| deadline with rdd_due_at_ns := due_at_ns; rdd_phase := ExtendedWait |} in
      ({| self with ces_detections := <[operation_id := deadline]> self.(ces_detections) |}, Some deadline)
  end.

(** *** Reload commands *)

Definition record_reload_command_deadline (deadline : ReloadCommandDeadline) (self : ControlExecutionStore)
    : ControlExecutionStore :=
  {| self with ces_commands := <[deadline.(rcd_operation_id) := deadline]> self.(ces_commands) |}.

Definition due_reload_command_deadlines (now_ns : Z) (self : ControlExecutionStore) : list ReloadCommandDeadline :=
  due_before rcd_due_at_ns now_ns self.(ces_commands).

Definition next_reload_command_deadline (self : ControlExecutionStore) : option ReloadCommandDeadline :=
  next_due rcd_due_at_ns rcd_service self.(ces_commands).

Definition remove_reload_command_deadline (operation_id : OperationId) (self : ControlExecutionStore)
    : ControlExecutionStore * option ReloadCommandDeadline :=
  ({| self with
      ces_command_ready := self.(ces_command_ready) ∖ {[operation_id]};
      ces_commands := delete operation_id self.(ces_commands) |},
   self.(ces_commands) !! operation_id).

Definition extend_reload_command_deadline (operation_id : OperationId) (due_at_ns : Z)
    (self : ControlExecutionStore) : ControlExecutionStore * option ReloadCommandDeadline :=
  match self.(ces_commands) !! operation_id with
  | None => (self, None)
  | Some deadline =>
      let deadline := {| deadline with rcd_due_at_ns := due_at_ns |} in
      ({| self with ces_commands := <[operation_id := deadline]> self.(ces_commands) |}, Some deadline)
  end.

Definition has_reload_command_deadline (operation_id : OperationId) (self : ControlExecutionStore) : bool :=
  bool_decide (is_Some (self.(ces_commands) !! operation_id)).

Definition mark_reload_command_ready (operation_id : OperationId) (self : ControlExecutionStore)
    : ControlExecutionStore :=
  {| self with ces_command_ready := set_insert operation_id self.(ces_command_ready) |}.

Definition take_reload_command_ready (operation_id : OperationId) (self : ControlExecutionStore)
    : ControlExecutionStore * bool :=
  ({| self with ces_command_ready := self.(ces_command_ready) ∖ {[operation_id]} |},
   bool_decide (operation_id ∈ self.(ces_command_ready))).

(** The identifiers are collected first, then removed one by one. *)
Definition remove_each {D} (remove : OperationId → ControlExecutionStore → ControlExecutionStore * option D)
    (ids : list OperationId) (self : ControlExecutionStore) : ControlExecutionStore * list D :=
  foldl (λ '(self, removed) operation_id,
    let (self, deadline) := remove operation_id self in (self, removed ++ option_list deadline)) (self, []) ids.

Definition ids_of_service {D} (service_of : D → string) (service : string) (deadlines : gmap OperationId D)
    : list OperationId :=
  map fst (filter (λ p, service_of p.2 = service) (btree_iter deadlines)).

Definition cancel_reload_for_service (service : string) (self : ControlExecutionStore)
    : ControlExecutionStore * CancelledReloadDeadlines :=
  let detection_ids := ids_of_service rdd_service service self.(ces_detections) in
  let command_ids := ids_of_service rcd_service service self.(ces_commands) in
  let (self, detections) := remove_each remove_reload_detection_deadline detection_ids self in
  let (self, commands) := remove_each remove_reload_command_deadline command_ids self in
  (self, {| crd_detections := detections; crd_commands := commands |}).

(** * Stops, restarts and reloads of running services

    Models [src/src/execution/control/]: beginning a stop, the stop leg of a
    restart or a reload of a service's main process, and what ends them: a
    stop that is escalated, a reload window that closes, a reload command that
    ends or times out.

    A step works on copies of the stores that it assigns back at its end, so
    after an error the stores are what they were; a signal that was sent stays
    sent ([control_atomic]). *)

Section Control.
Context {P BoundaryError : Type} `{!ProcessController P BoundaryError}.

(** ** Data ([model.rs]) *)

Record ControlOperationRequest : Type := {
  cor_operation_id : OperationId;
  cor_observed_at_ns : Z;
}.

Inductive ControlOperationKind : Type := KStop | KRestartStopLeg | KReloadSignal | KReloadCommand.

Inductive ControlExecutionDetail : Type :=
| DetailSignal (target : ProcessTarget) (signal : ProcessSignal)
| DetailStopAlreadyAcknowledged (target : ProcessTarget)
| DetailReloadCommand (job_id : JobId) (job_event : JobEvent).

Record ControlExecutionDispatch : Type := {
  ced_operation_id : OperationId;
  ced_service : string;
  ced_kind : ControlOperationKind;
  ced_operation_event : OperationEvent;
  ced_service_transition : option ServiceTableTransition;
  ced_detail : ControlExecutionDetail;
  ced_deadline_ns : Z;
  ced_cancelled_reload_jobs : list JobEvent;
}.

Record StopEscalationDispatch : Type := {
  sed_operation_id : OperationId;
  sed_service : string;
  sed_cgroup_id : string;
  sed_escalated_at_ns : Z;
}.

Record ReloadDetectionCompletion : Type := {
  rdc_operation_event : OperationEvent;
  rdc_service_transition : ServiceTableTransition;
  rdc_phase : ReloadDetectionPhase;
}.

Record ReloadCommandTerminalDispatch : Type := {
  rct_job_event : JobEvent;
  rct_operation_event : OperationEvent;
  rct_service_transition : ServiceTableTransition;
}.

Record ReloadCommandTimeoutDispatch : Type := {
  rto_job_event : JobEvent;
  rto_operation_event : OperationEvent;
  rto_service_transition : ServiceTableTransition;
  rto_cgroup_id : string;
  rto_timed_out_at_ns : Z;
}.

Inductive ControlExecutionError : Type :=
| CeOperationStore (error : OperationStoreError)
| CeServiceTable (error : ServiceTableError)
| CeJobIdAllocation (error : IdAllocationError)
| CeJobStore (error : JobStoreError)
| CeHookJob (error : ServiceHookJobBuildError)
| CeBoundary (error : BoundaryError)
| CeUnsupportedOperationType (operation_id : OperationId) (operation_type : OperationType)
| CeMissingCurrentMainJob (service : string)
| CeMissingJobRecord (job_id : JobId)
| CeJobNotRunning (job_id : JobId)
| CeMissingProcessHandle (job_id : JobId)
| CeNotReloadHookJob (job_id : JobId) (job_type : JobType)
| CeMissingService (job_id : JobId)
| CeMissingOperation (job_id : JobId) (service : string)
| CeNotTerminalJobEvent (job_id : JobId) (state : JobState)
| CeInvalidExecReloadCommand (service exec_reload : string) (source : ExecutableCommandParseError)
| CeInvalidReloadSignal (service signal : string).

(** The stores a control operation works on ([ControlExecutionContext]). *)
Record ControlState : Type := {
  cx_exec : ExecState P;
  cx_control : ControlExecutionStore;
}.

Notation Control := (Exec ControlState ControlExecutionError).

Definition set_cx_exec (v : ExecState P) (s : ControlState) : ControlState := {| s with cx_exec := v |}.
Definition set_cx_control (v : ControlExecutionStore) (s : ControlState) : ControlState :=
  {| s with cx_control := v |}.

Definition in_exec {E F A} (wrap : F → E) (m : Step P F A) : Exec ControlState E A :=
  exec_within cx_exec set_cx_exec wrap m.
Definition on_control {E} (f : ControlExecutionStore → ControlExecutionStore) : Exec ControlState E unit :=
  exec_update (λ s, set_cx_control (f s.(cx_control)) s).
Definition on_control_with {E A} (f : ControlExecutionStore → ControlExecutionStore * A) : Exec ControlState E A :=
  exec_on cx_control set_cx_control (λ e : E, e) (λ store, let (store, a) := f store in (store, Ok a)).

Definition control_restore (now before : ControlState) : ControlState :=
  {| cx_exec := restore now.(cx_exec) before.(cx_exec); cx_control := before.(cx_control) |}.
Definition control_atomic {E A} (m : Exec ControlState E A) : Exec ControlState E A := exec_atomic control_restore m.

Definition send_signal (target : ProcessTarget) (signal : ProcessSignal) : Step P ControlExecutionError unit :=
  exec_on xs_controller set_controller CeBoundary (signal_main target signal).

(** [context.operations.get(id).ok_or(UnknownOperation { id })]. *)
Definition operation_record (operation_id : OperationId) : Step P ControlExecutionError OperationRecord :=
  require (CeOperationStore (UnknownOperation operation_id)) (λ s, s.(xs_operations).(op_records) !! operation_id).

(** ** The process ([target.rs]) *)

Definition process_target (service : string) (jobs : JobStore) : Result ProcessTarget ControlExecutionError :=
  let? job_id := ok_or (current_service_main_job jobs service) (CeMissingCurrentMainJob service) in
  let? job := ok_or (jobs.(js_records) !! job_id) (CeMissingJobRecord job_id) in
  if bool_decide (job.(jr_state) ≠ JsRunning) then Err (CeJobNotRunning job_id)
  else match job.(jr_pid), job.(jr_pidfd) with
       | Some pid, Some pidfd =>
           Ok {| pt_service := service; pt_pid := pid; pt_pidfd := pidfd; pt_cgroup_id := job.(jr_cgroup_id) |}
       | _, _ => Err (CeMissingProcessHandle job_id)
       end.

(** ** Stops ([stop.rs]) *)

Definition stop_transition_cause (source : OperationSource) : TransitionCause :=
  match source with
  | SrcBindsToPropagation => TcBindsToPropagation
  | SrcConflictResolution => TcConflictEviction
  | SrcShutdown => TcShutdownWave
  | _ => TcExplicitStop
  end.

Definition stop_deadline_ns (operation : OperationRecord) (started_at_ns : Z) (definition : ServiceDefinition) : Z :=
  if bool_decide (operation.(or_operation_type) = OpStop)
  then seconds_after operation.(or_created_at_ns) definition.(sd_stop_timeout_secs)
  else seconds_after started_at_ns definition.(sd_stop_timeout_secs).

Definition RELOAD_CANCELLED_REASON : string := "reload command cancelled by stop".

Definition cancel_reload_command_job (job_id : JobId) (now_ns : Z)
    : Step P ControlExecutionError (option JobEvent) :=
  found ← exec_get (λ s, s.(xs_jobs).(js_records) !! job_id);
  match found with
  | None => mret None
  | Some job =>
      match job.(jr_state) with
      | JsCreated =>
          event ← on_jobs CeJobStore (fail_job_before_start job_id now_ns RELOAD_CANCELLED_REASON);
          mret (Some event)
      | JsRunning =>
          event ← on_jobs CeJobStore (fail_running_job job_id now_ns (Some (Signal 9)) RELOAD_CANCELLED_REASON);
          mret (Some event)
      | _ => mret None
      end
  end.

(** A service that is already stopping: the stop takes over the leg in flight. *)
Definition adopt_stop (target : ProcessTarget) (operation : OperationRecord) (observed_at_ns : Z)
    (definition : ServiceDefinition) : Control Z :=
  adopted ← exec_get (λ s, stop_timeout_for_service target.(pt_service) s.(cx_control));
  match adopted with
  | Some deadline =>
      _ ← on_control_with (remove_stop_timeout deadline.(sto_operation_id));
      _ ← on_control_with (take_restart_stop_leg deadline.(sto_operation_id));
      mret deadline.(sto_due_at_ns)
  | None => mret (stop_deadline_ns operation observed_at_ns definition)
  end.

(** A service that is not: it is moved, and its process told unless it has
    said itself that it is stopping. *)
Definition begin_control_stop (target : ProcessTarget) (operation : OperationRecord) (observed_at_ns : Z)
    (definition : ServiceDefinition)
    : Step P ControlExecutionError (ServiceTableTransition * Z * ControlExecutionDetail) :=
  let cause := stop_transition_cause operation.(or_source) in
  transition ← on_services CeServiceTable
    (transition_service target.(pt_service) {| st_to := StStopping; st_cause := cause |});
  let deadline_ns := stop_deadline_ns operation observed_at_ns definition in
  _ ← on_services CeServiceTable (record_stopping_timeout target.(pt_service)
    {| ste_started_at_ns := observed_at_ns; ste_due_at_ns := deadline_ns; ste_cause := cause |});
  acknowledged ← exec_get (λ s, is_some_and (table_runtime s.(xs_services) target.(pt_service))
    (λ runtime, runtime.(rt_stopping_acknowledged)));
  if acknowledged : bool then mret (transition, deadline_ns, DetailStopAlreadyAcknowledged target)
  else
    _ ← send_signal target PsSigterm;
    mret (transition, deadline_ns, DetailSignal target PsSigterm).

Definition cancel_reload_command (observed_at_ns : Z) (deadline : ReloadCommandDeadline)
    : Step P ControlExecutionError (list JobEvent) :=
  _ ← kill CeBoundary deadline.(rcd_cgroup_id);
  event ← cancel_reload_command_job deadline.(rcd_job_id) observed_at_ns;
  mret (option_list event).

Definition cancel_reload (service : string) (observed_at_ns : Z) : Control (list JobEvent) :=
  cancelled ← on_control_with (cancel_reload_for_service service);
  events ← in_exec id (exec_each (cancel_reload_command observed_at_ns) cancelled.(crd_commands));
  mret (List.concat events).

Definition begin_stop_like_operation (request : ControlOperationRequest) (operation_type : OperationType)
    (target : ProcessTarget) (definition : ServiceDefinition) : Control ControlExecutionDispatch :=
  control_atomic (
    state ← exec_get (λ s, rt_state <$> table_runtime s.(cx_exec).(xs_services) target.(pt_service));
    operation_event ← in_exec id (on_operations CeOperationStore
      (start_operation request.(cor_operation_id) request.(cor_observed_at_ns)));
    operation ← in_exec id (operation_record request.(cor_operation_id));
    '(service_transition, deadline_ns, detail) ←
      (if bool_decide (state = Some StStopping) then
         deadline_ns ← adopt_stop target operation request.(cor_observed_at_ns) definition;
         mret (None, deadline_ns, DetailStopAlreadyAcknowledged target)
       else
         '(transition, deadline_ns, detail) ←
           in_exec id (begin_control_stop target operation request.(cor_observed_at_ns) definition);
         mret (Some transition, deadline_ns, detail));
    cancelled_reload_jobs ←
      (if bool_decide (state = Some StReloading)
       then cancel_reload target.(pt_service) request.(cor_observed_at_ns)
       else mret []);
    _ ← on_control (record_stop_timeout {|
      sto_operation_id := request.(cor_operation_id);
      sto_service := target.(pt_service);
      sto_cgroup_id := target.(pt_cgroup_id);
      sto_due_at_ns := deadline_ns |});
    _ ← (if bool_decide (operation_type = OpRestart)
         then on_control (record_restart_stop_leg request.(cor_operation_id) target.(pt_service))
         else mret tt);
    mret {| ced_operation_id := request.(cor_operation_id); ced_service := target.(pt_service);
            ced_kind := if bool_decide (operation_type = OpRestart) then KRestartStopLeg else KStop;
            ced_operation_event := operation_event; ced_service_transition := service_transition;
            ced_detail := detail; ced_deadline_ns := deadline_ns;
            ced_cancelled_reload_jobs := cancelled_reload_jobs |}).

Definition escalate_due_stop (deadline : StopTimeoutDeadline) (now_ns : Z) : Control StopEscalationDispatch :=
  control_atomic (
    _ ← on_control_with (remove_stop_timeout deadline.(sto_operation_id));
    _ ← in_exec id (kill CeBoundary deadline.(sto_cgroup_id));
    mret {| sed_operation_id := deadline.(sto_operation_id); sed_service := deadline.(sto_service);
            sed_cgroup_id := deadline.(sto_cgroup_id); sed_escalated_at_ns := now_ns |}).

(** ** Reloads by signal ([signal.rs]) *)

Definition RELOAD_DETECTION_WINDOW_NS : Z := 2 * NANOS_PER_SEC.

Definition accepted_reload_signals : list string :=
  ["SIGINT"; "SIGQUIT"; "SIGILL"; "SIGTRAP"; "SIGABRT"; "SIGBUS"; "SIGFPE"; "SIGUSR1"; "SIGSEGV"; "SIGUSR2";
   "SIGPIPE"; "SIGALRM"; "SIGTERM"; "SIGSTKFLT"; "SIGCHLD"; "SIGCONT"; "SIGTSTP"; "SIGTTIN"; "SIGTTOU"; "SIGURG";
   "SIGXCPU"; "SIGXFSZ"; "SIGVTALRM"; "SIGPROF"; "SIGWINCH"; "SIGIO"; "SIGPWR"; "SIGSYS"].

Definition canonical_reload_signal (service signal : string) : Result ProcessSignal ControlExecutionError :=
  if bool_decide (signal = "SIGHUP") then Ok PsSighup
  else if bool_decide (signal ∈ accepted_reload_signals) then Ok (PsNamed signal)
  else Err (CeInvalidReloadSignal service signal).

Definition begin_signal_reload (request : ControlOperationRequest) (target : ProcessTarget) (signal : ProcessSignal)
    : Control ControlExecutionDispatch :=
  control_atomic (
    operation_event ← in_exec id (on_operations CeOperationStore
      (start_operation request.(cor_operation_id) request.(cor_observed_at_ns)));
    service_transition ← in_exec id (on_services CeServiceTable
      (transition_service target.(pt_service) {| st_to := StReloading; st_cause := TcExplicitReload |}));
    let deadline_ns := u64_saturating_add request.(cor_observed_at_ns) RELOAD_DETECTION_WINDOW_NS in
    _ ← in_exec id (send_signal target signal);
    _ ← on_control (record_reload_detection_deadline {|
      rdd_operation_id := request.(cor_operation_id);
      rdd_service := target.(pt_service);
      rdd_due_at_ns := deadline_ns;
      rdd_phase := DetectionWindow |});
    mret {| ced_operation_id := request.(cor_operation_id); ced_service := target.(pt_service);
            ced_kind := KReloadSignal; ced_operation_event := operation_event;
            ced_service_transition := Some service_transition; ced_detail := DetailSignal target signal;
            ced_deadline_ns := deadline_ns; ced_cancelled_reload_jobs := [] |}).

(** ** Reloads by command ([command_reload.rs]) *)

Definition begin_command_reload (request : ControlOperationRequest) (target : ProcessTarget)
    (definition : ServiceDefinition) (argv : list string) : Control ControlExecutionDispatch :=
  control_atomic (
    job_id ← in_exec id (allocate_job_id CeJobIdAllocation request.(cor_observed_at_ns));
    runtime ← in_exec id (require (CeServiceTable (UnknownService target.(pt_service)))
      (λ s, table_runtime s.(xs_services) target.(pt_service)));
    operation_event ← in_exec id (on_operations CeOperationStore
      (start_operation request.(cor_operation_id) request.(cor_observed_at_ns)));
    operation ← in_exec id (operation_record request.(cor_operation_id));
    service_transition ← in_exec id (on_services CeServiceTable
      (transition_service target.(pt_service) {| st_to := StReloading; st_cause := TcExplicitReload |}));
    job ← exec_lift (map_err CeHookJob (new_reload_hook job_id {|
      hk_service := definition;
      hk_argv := argv;
      hk_hook_index := None;
      hk_resolved_identity := definition.(sd_identity);
      hk_token_summary := requested_identity definition.(sd_identity);
      hk_activation_generation := runtime.(rt_generation);
      hk_cgroup_generation := runtime.(rt_cgroup_generation);
      hk_operation_id := request.(cor_operation_id);
      hk_created_at_ns := request.(cor_observed_at_ns) |}));
    job_event ← in_exec id (on_jobs CeJobStore (create_job job));
    let deadline_ns := seconds_after operation.(or_created_at_ns) definition.(sd_start_timeout_secs) in
    _ ← on_control (record_reload_command_deadline {|
      rcd_operation_id := request.(cor_operation_id);
      rcd_job_id := job_id;
      rcd_service := target.(pt_service);
      rcd_cgroup_id := job.(jr_cgroup_id);
      rcd_due_at_ns := deadline_ns |});
    mret {| ced_operation_id := request.(cor_operation_id); ced_service := target.(pt_service);
            ced_kind := KReloadCommand; ced_operation_event := operation_event;
            ced_service_transition := Some service_transition;
            ced_detail := DetailReloadCommand job_id job_event;
            ced_deadline_ns := deadline_ns; ced_cancelled_reload_jobs := [] |}).

(** ** Reloads ([reload.rs]) *)

Inductive ReloadAction : Type :=
| ReloadBySignal (signal : ProcessSignal)
| ReloadByCommand (argv : list string).

Definition reload_action (service : string) (definition : ServiceDefinition)
    : Result ReloadAction ControlExecutionError :=
  match definition.(sd_exec_reload) with
  | None => Ok (ReloadBySignal PsSighup)
  | Some exec_reload =>
      match RustStr.strip_prefix "signal:" exec_reload with
      | Some signal => let? signal := canonical_reload_signal service signal in Ok (ReloadBySignal signal)
      | None =>
          match parse_executable_command exec_reload with
          | Ok argv => Ok (ReloadByCommand argv)
          | Err source => Err (CeInvalidExecReloadCommand service exec_reload source)
          end
      end
  end.

Definition begin_reload_operation (request : ControlOperationRequest) (target : ProcessTarget)
    (definition : ServiceDefinition) : Control ControlExecutionDispatch :=
  action ← exec_lift (reload_action target.(pt_service) definition);
  match action with
  | ReloadBySignal signal => begin_signal_reload request target signal
  | ReloadByCommand argv => begin_command_reload request target definition argv
  end.

Definition reload_detection_result (phase : ReloadDetectionPhase) : string :=
  match phase with
  | DetectionWindow => "reload signal advisory: detection window expired"
  | ExtendedWait => "reload signal advisory: service signalled RELOADING=1 but never completed reload"
  end.

Definition transition_reloaded_active (service : string) : Step P ControlExecutionError ServiceTableTransition :=
  on_services CeServiceTable (transition_service service {| st_to := StActive; st_cause := TcExplicitReload |}).

Definition complete_reload_detection_window (deadline : ReloadDetectionDeadline) (now_ns : Z)
    : Control ReloadDetectionCompletion :=
  control_atomic (
    _ ← on_control_with (remove_reload_detection_deadline deadline.(rdd_operation_id));
    service_transition ← in_exec id (transition_reloaded_active deadline.(rdd_service));
    operation_event ← in_exec id (on_operations CeOperationStore
      (complete_operation deadline.(rdd_operation_id) now_ns (reload_detection_result deadline.(rdd_phase))));
    mret {| rdc_operation_event := operation_event; rdc_service_transition := service_transition;
            rdc_phase := deadline.(rdd_phase) |}).

(** ** Beginning an operation ([dispatch.rs]) *)

Definition begin_control_operation (request : ControlOperationRequest) : Control ControlExecutionDispatch :=
  operation ← in_exec id (operation_record request.(cor_operation_id));
  target ← exec_get (λ s, process_target operation.(or_service) s.(cx_exec).(xs_jobs));
  target ← exec_lift target;
  definition ← in_exec id (require (CeServiceTable (UnknownService operation.(or_service)))
    (λ s, table_definition s.(xs_services) operation.(or_service)));
  match operation.(or_operation_type) with
  | OpStop | OpRestart => begin_stop_like_operation request operation.(or_operation_type) target definition
  | OpReload => begin_reload_operation request target definition
  | operation_type => exec_fail (CeUnsupportedOperationType request.(cor_operation_id) operation_type)
  end.

(** ** Reload commands that end ([terminal_event.rs], [terminal.rs]) *)

Definition validate_reload_hook_terminal_event (job_event : JobEvent) : Result unit ControlExecutionError :=
  if bool_decide (job_event.(je_job_type) ≠ JtReloadHook)
  then Err (CeNotReloadHookJob job_event.(je_job_id) job_event.(je_job_type))
  else if negb (job_is_terminal job_event.(je_state))
  then Err (CeNotTerminalJobEvent job_event.(je_job_id) job_event.(je_state))
  else Ok tt.

Definition reload_event_service (job_event : JobEvent) : Result string ControlExecutionError :=
  ok_or job_event.(je_service) (CeMissingService job_event.(je_job_id)).

Definition reload_event_operation_id (job_event : JobEvent) (service : string)
    : Result OperationId ControlExecutionError :=
  ok_or job_event.(je_operation_id) (CeMissingOperation job_event.(je_job_id) service).

Definition reload_command_succeeded (job_event : JobEvent) : bool :=
  match job_event.(je_detail) with
  | JevEnded _ _ (Some 0) None None => true
  | _ => false
  end.

Definition reload_ended_at_ns (job_event : JobEvent) : Result Z ControlExecutionError :=
  match job_event.(je_detail) with
  | JevEnded ended_at_ns _ _ _ _ => Ok ended_at_ns
  | _ => Err (CeNotTerminalJobEvent job_event.(je_job_id) job_event.(je_state))
  end.

Definition reload_command_failure_reason (job_event : JobEvent) : Result string ControlExecutionError :=
  match job_event.(je_detail) with
  | JevEnded _ _ (Some code) _ _ => Ok ("ExecReload command failed (exit " +:+ pretty code +:+ ")")
  | JevEnded _ _ None (Some signal) _ => Ok ("ExecReload command failed (signal " +:+ pretty signal +:+ ")")
  | JevEnded _ _ None None (Some cause) => Ok ("ExecReload command failed (" +:+ cause +:+ ")")
  | JevEnded _ _ None None None => Ok "ExecReload command failed"
  | _ => Err (CeNotTerminalJobEvent job_event.(je_job_id) job_event.(je_state))
  end.

Definition reload_command_success_result (ready_received : bool) : string :=
  if ready_received then "reload command confirmed" else "reload command advisory".

Definition complete_reload_command_job (job_event : JobEvent) : Control ReloadCommandTerminalDispatch :=
  _ ← exec_lift (validate_reload_hook_terminal_event job_event);
  service ← exec_lift (reload_event_service job_event);
  operation_id ← exec_lift (reload_event_operation_id job_event service);
  control_atomic (
    _ ← on_control_with (remove_reload_command_deadline operation_id);
    ready_received ← on_control_with (take_reload_command_ready operation_id);
    service_transition ← in_exec id (transition_reloaded_active service);
    ended_at_ns ← exec_lift (reload_ended_at_ns job_event);
    operation_event ←
      (if reload_command_succeeded job_event then
         in_exec id (on_operations CeOperationStore
           (complete_operation operation_id ended_at_ns (reload_command_success_result ready_received)))
       else
         reason ← exec_lift (reload_command_failure_reason job_event);
         in_exec id (on_operations CeOperationStore (fail_operation operation_id ended_at_ns reason)));
    mret {| rct_job_event := job_event; rct_operation_event := operation_event;
            rct_service_transition := service_transition |}).

Definition timeout_reload_command (deadline : ReloadCommandDeadline) (now_ns : Z)
    : Control ReloadCommandTimeoutDispatch :=
  control_atomic (
    _ ← on_control_with (remove_reload_command_deadline deadline.(rcd_operation_id));
    _ ← on_control_with (take_reload_command_ready deadline.(rcd_operation_id));
    _ ← in_exec id (kill CeBoundary deadline.(rcd_cgroup_id));
    job_event ← in_exec id (on_jobs CeJobStore
      (fail_running_job deadline.(rcd_job_id) now_ns (Some (Signal 9)) "reload command timed out"));
    service_transition ← in_exec id (transition_reloaded_active deadline.(rcd_service));
    operation_event ← in_exec id (on_operations CeOperationStore
      (fail_operation deadline.(rcd_operation_id) now_ns
         (operation_timeout_result "ExecReload command timed out")));
    mret {| rto_job_event := job_event; rto_operation_event := operation_event;
            rto_service_transition := service_transition; rto_cgroup_id := deadline.(rcd_cgroup_id);
            rto_timed_out_at_ns := now_ns |}).
End Control.

Arguments ControlExecutionError : clear implicits.
Arguments ControlState : clear implicits.
