(* ===== verification/Notify.v ===== *)
(** * Notify messages and stored descriptors

    Models [src/src/notify/parser.rs] (the lines a service sends on the notify
    socket) and [src/src/fd_store.rs] (the descriptors a service keeps with
    peinit). A descriptor is its number; an [OwnedFd] that is dropped is
    closed, so an operation's result lists what it drops. *)

From S2P Require Import Prelude RustStr ServiceDef.
From Stdlib Require Import String Ascii.
Open Scope string_scope.
Open Scope list_scope.
Open Scope Z_scope.

(** ** Messages ([notify/parser.rs]) *)

Inductive NotifyField : Type :=
| NfReady
| NfReloading
| NfStopping
| NfStatus (text : string)
| NfLevel (value : string)
| NfProgress (value : string)
| NfProgressUnit (value : string)
| NfErrno (value : string)
| NfExitStatus (value : string)
| NfWatchdog
| NfWatchdogUsec (value : string)
| NfExtendTimeoutUsec (value : string)
| NfFdStore
| NfFdName (name : string)
| NfFdStoreRemove
| NfFdPoll (value : string).

Record NotifyMessage : Type := { nm_fields : list NotifyField }.

Inductive NotifyParseError : Type := NpInvalidUtf8 | NpMalformedLine (line_index : nat).

Definition supported_field (key value : string) : option NotifyField :=
  if bool_decide (key = "READY") && bool_decide (value = "1") then Some NfReady
  else if bool_decide (key = "RELOADING") && bool_decide (value = "1") then Some NfReloading
  else if bool_decide (key = "STOPPING") && bool_decide (value = "1") then Some NfStopping
  else if bool_decide (key = "STATUS") then Some (NfStatus value)
  else if bool_decide (key = "LEVEL") then Some (NfLevel value)
  else if bool_decide (key = "PROGRESS") then Some (NfProgress value)
  else if bool_decide (key = "PROGRESS_UNIT") then Some (NfProgressUnit value)
  else if bool_decide (key = "ERRNO") then Some (NfErrno value)
  else if bool_decide (key = "EXIT_STATUS") then Some (NfExitStatus value)
  else if bool_decide (key = "WATCHDOG") && bool_decide (value = "1") then Some NfWatchdog
  else if bool_decide (key = "WATCHDOG_USEC") then Some (NfWatchdogUsec value)
  else if bool_decide (key = "EXTEND_TIMEOUT_USEC") then Some (NfExtendTimeoutUsec value)
  else if bool_decide (key = "FDSTORE") && bool_decide (value = "1") then Some NfFdStore
  else if bool_decide (key = "FDNAME") then Some (NfFdName value)
  else if bool_decide (key = "FDSTOREREMOVE") && bool_decide (value = "1") then Some NfFdStoreRemove
  else if bool_decide (key = "FDPOLL") then Some (NfFdPoll value)
  else None.

Definition equals_sign : ascii := "="%char.

(** The loop over the lines. *)
Fixpoint parse_lines (line_index : nat) (lines : list string) : Result (list NotifyField) NotifyParseError :=
  match lines with
  | [] => Ok []
  | line :: lines =>
      let line := strip_cr line in
      if str_is_empty line then parse_lines (S line_index) lines
      else match split_once equals_sign line with
           | None => Err (NpMalformedLine line_index)
           | Some (key, value) =>
               if str_is_empty key then Err (NpMalformedLine line_index)
               else
                 let? fields := parse_lines (S line_index) lines in
                 Ok (option_list (supported_field key value) ++ fields)
           end
  end.

Definition parse_notify_message (payload : string) : Result NotifyMessage NotifyParseError :=
  if is_utf8 payload then
    let? fields := parse_lines 0 (split_char newline payload) in Ok {| nm_fields := fields |}
  else Err NpInvalidUtf8.

(** ** Stored descriptors ([fd_store.rs]) *)

Record StoredFd : Type := {
  sfd_name : string;
  sfd_poll : bool;
  sfd_fd : Z;
}.

Record StoreFdRequest : Type := {
  sfq_name : option string;
  sfq_poll : bool;
  sfq_fd : Z;
}.

Inductive StoreFdOutcome : Type := FdStored | FdDisabled | FdFull.

#[export] Instance store_fd_outcome_eq_dec : EqDecision StoreFdOutcome.
Proof. solve_decision. Defined.

Definition FD_DEFAULT_NAME : string := "stored".

Definition stored_name (name : option string) : string :=
  match name with
  | Some name => if str_is_empty name then FD_DEFAULT_NAME else name
  | None => FD_DEFAULT_NAME
  end.

(** [FdStore] is its entries; [FdStoreTable] maps services to theirs. *)
Definition FdStoreTable : Type := gmap string (list StoredFd).

Definition fd_store_store (max_entries : Z) (request : StoreFdRequest) (entries : list StoredFd)
    : list StoredFd * StoreFdOutcome :=
  if max_entries =? 0 then (entries, FdDisabled)
  else if max_entries <=? Z.of_nat (List.length entries) then (entries, FdFull)
  else (entries ++ [{| sfd_name := stored_name request.(sfq_name); sfd_poll := request.(sfq_poll);
                       sfd_fd := request.(sfq_fd) |}], FdStored).

Definition fd_store_remove_name (name : string) (entries : list StoredFd) : list StoredFd * nat :=
  let kept := retain (λ entry, negb (bool_decide (entry.(sfd_name) = name))) entries in
  (kept, (List.length entries - List.length kept)%nat).

(** The entry is made before the store is asked ([entry(..).or_default()]). *)
Definition table_store (service : string) (max_entries : Z) (request : StoreFdRequest) (self : FdStoreTable)
    : FdStoreTable * StoreFdOutcome :=
  if max_entries =? 0 then (self, FdDisabled)
  else
    let (entries, outcome) := fd_store_store max_entries request (default [] (self !! service)) in
    (<[service := entries]> self, outcome).

Definition table_remove_name (service name : string) (self : FdStoreTable) : FdStoreTable * nat :=
  match self !! service with
  | None => (self, O)
  | Some entries =>
      let (entries, removed) := fd_store_remove_name name entries in
      (match entries with [] => delete service self | _ => <[service := entries]> self end, removed)
  end.

Definition clear_service (service : string) (self : FdStoreTable) : FdStoreTable := delete service self.

Definition retain_services (services : list string) (self : FdStoreTable) : FdStoreTable * list string :=
  let retained : gset string := list_to_set services in
  let removed := retain (λ service, negb (bool_decide (service ∈ retained))) (btree_keys self) in
  (foldl (λ self service, delete service self) self removed, removed).

(** ** Lemmas: lines *)

(** The line of a field, and the fields that can be sent: a value is one line. *)
Definition field_line (field : NotifyField) : string :=
  match field with
  | NfReady => "READY=1"
  | NfReloading => "RELOADING=1"
  | NfStopping => "STOPPING=1"
  | NfStatus text => "STATUS=" +:+ text
  | NfLevel value => "LEVEL=" +:+ value
  | NfProgress value => "PROGRESS=" +:+ value
  | NfProgressUnit value => "PROGRESS_UNIT=" +:+ value
  | NfErrno value => "ERRNO=" +:+ value
  | NfExitStatus value => "EXIT_STATUS=" +:+ value
  | NfWatchdog => "WATCHDOG=1"
  | NfWatchdogUsec value => "WATCHDOG_USEC=" +:+ value
  | NfExtendTimeoutUsec value => "EXTEND_TIMEOUT_USEC=" +:+ value
  | NfFdStore => "FDSTORE=1"
  | NfFdName name => "FDNAME=" +:+ name
  | NfFdStoreRemove => "FDSTOREREMOVE=1"
  | NfFdPoll value => "FDPOLL=" +:+ value
  end.

Definition one_line (s : string) : bool := str_all (λ c, negb (Ascii.eqb c newline)) s && bool_decide (strip_cr s = s).

(** What a line of a message says: nothing, one field, or something this
    version does not know. *)
Inductive line_says (line : string) : list NotifyField → Prop :=
| says_nothing : strip_cr line = "" → line_says line []
| says_field field : strip_cr line = field_line field → line_says line [field]
| says_unknown key value :
    strip_cr line = key +:+ String equals_sign value → key ≠ "" →
    str_all (λ c, negb (Ascii.eqb c equals_sign)) key = true →
    (∀ field, strip_cr line ≠ field_line field) → line_says line [].

Lemma field_line_split field : ∃ key value,
  split_once equals_sign (field_line field) = Some (key, value) ∧ key ≠ "" ∧ supported_field key value = Some field.
Proof. destruct field; eexists _, _; (split; [reflexivity|split; [done|reflexivity]]). Qed.

Lemma supported_field_line key value field :
  supported_field key value = Some field → field_line field = key +:+ String equals_sign value.
Proof.
  unfold supported_field. intros H.
  repeat match goal with
  | H : context [bool_decide (key = ?k)] |- _ => destruct (decide (key = k)) as [->|?];
      [rewrite (bool_decide_true (k = k)) in H by done; simpl in H|rewrite (bool_decide_false (key = k)) in H by done; simpl in H]
  | H : context [bool_decide (value = "1")] |- _ => case_bool_decide; subst
  | H : Some _ = Some _ |- _ => by injection H as <-
  | H : None = Some _ |- _ => done
  end.
Qed.

Lemma says_split line key value :
  split_once equals_sign (strip_cr line) = Some (key, value) → key ≠ "" →
  line_says line (option_list (supported_field key value)).
Proof.
  intros Hs Hk. pose proof (split_once_Some _ _ _ _ Hs) as [Hl Hkey].
  destruct (supported_field key value) as [field|] eqn:E; simpl.
  - apply says_field. by rewrite (supported_field_line _ _ _ E).
  - eapply says_unknown; [done..|]. intros field Hf. destruct (field_line_split field) as (k & v & Hs' & _ & Hf').
    rewrite <-Hf in Hs'. rewrite Hs in Hs'. congruence.
Qed.

Lemma says_blank_only line fields : line_says line fields → strip_cr line = "" → fields = [].
Proof.
  intros [|field H|] Hb; [done| |done]. rewrite Hb in H. by destruct field.
Qed.

Lemma says_split_only line fields : line_says line fields → strip_cr line ≠ "" →
  ∃ key value, split_once equals_sign (strip_cr line) = Some (key, value) ∧ key ≠ "" ∧
    fields = option_list (supported_field key value).
Proof.
  intros [|field H|key value H Hk Hkey Hno] Hb; [done| |].
  - rewrite H. destruct (field_line_split field) as (k & v & ? & ? & E). exists k, v. split_and!; [done..|].
    by rewrite E.
  - exists key, value. rewrite H. split_and!; [by apply split_once_app|done|].
    destruct (supported_field key value) as [field|] eqn:E; [|done].
    destruct (Hno field). by rewrite (supported_field_line _ _ _ E).
Qed.

Lemma str_is_empty_spec s : str_is_empty s = true ↔ s = "".
Proof. by destruct s. Qed.

(** One step of the loop, by what the line says. *)
Lemma parse_line_says i line lines fields : line_says line fields →
  parse_lines i (line :: lines) = (let? rest := parse_lines (S i) lines in Ok (fields ++ rest)).
Proof.
  intros Hl. cbn [parse_lines]. destruct (str_is_empty (strip_cr line)) eqn:Eb.
  - apply str_is_empty_spec in Eb. rewrite (says_blank_only _ _ Hl Eb). by destruct (parse_lines _ _).
  - destruct (says_split_only _ _ Hl) as (k & v & -> & Hk & ->).
    { intros E. by rewrite E in Eb. }
    destruct (str_is_empty k) eqn:Ek; [by apply str_is_empty_spec in Ek|]. done.
Qed.

Lemma parse_line_silent i line lines :
  (∃ fields, line_says line fields) ∨
  (∀ fields, ¬ line_says line fields) ∧ parse_lines i (line :: lines) = Err (NpMalformedLine i).
Proof.
  cbn [parse_lines]. destruct (str_is_empty (strip_cr line)) eqn:Eb.
  { left. exists []. apply says_nothing. by apply str_is_empty_spec. }
  assert (Hb : strip_cr line ≠ "") by (intros E; by rewrite E in Eb).
  destruct (split_once _ _) as [[k v]|] eqn:Es.
  - destruct (str_is_empty k) eqn:Ek.
    + right. split; [|done]. intros fields (k' & v' & E & Hk & _)%says_split_only; [|done].
      apply str_is_empty_spec in Ek. congruence.
    + left. eexists. eapply says_split; [done|]. intros ->. done.
  - right. split; [|done]. intros fields (k' & v' & E & _)%says_split_only; [congruence|done].
Qed.

Lemma parse_lines_Ok i lines fields :
  parse_lines i lines = Ok fields ↔ ∃ said, Forall2 line_says lines said ∧ fields = List.concat said.
Proof.
  revert i fields. induction lines as [|line lines IH]; intros i fields.
  { simpl. split; [intros [= <-]; exists []; split; [constructor|done]|].
    intros (said & H & ->). by inversion H. }
  split.
  - intros H. destruct (parse_line_silent i line lines) as [[f Hf]|[_ E]]; [|congruence].
    rewrite (parse_line_says i line lines f Hf) in H. destruct (parse_lines (S i) lines) as [rest|] eqn:E; [|done].
    injection H as <-. apply (IH (S i)) in E as (said & Hs & ->). exists (f :: said). split; [by constructor|done].
  - intros (said & H & ->). inversion H as [|? f ? said' Hf Hs]; subst. rewrite (parse_line_says i line lines f Hf).
    rewrite (proj2 (IH (S i) (List.concat said'))); [done|eauto].
Qed.

Lemma parse_lines_Err i lines e :
  parse_lines i lines = Err e ↔
  ∃ j line, lines !! j = Some line ∧ (∀ fields, ¬ line_says line fields) ∧
    (∀ k line', (k < j)%nat → lines !! k = Some line' → ∃ fields, line_says line' fields) ∧
    e = NpMalformedLine (i + j).
Proof.
  revert i e. induction lines as [|line lines IH]; intros i e.
  { split; [done|]. by intros (j & line & H & _). }
  destruct (parse_line_silent i line lines) as [[f Hf]|[Hno E]].
  - rewrite (parse_line_says i line lines f Hf). split.
    + destruct (parse_lines (S i) lines) as [rest|e'] eqn:E; [done|]. intros [= <-].
      apply IH in E as (j & l & Hj & Hn & Hp & ->). exists (S j), l. split_and!; [done|done| |].
      * intros [|k] l' Hk Hl; simpl in Hl; [injection Hl as <-; eauto|]. eapply Hp; [|done]. lia.
      * f_equal. lia.
    + intros ([|j] & l & Hj & Hn & Hp & ->).
      { injection Hj as <-. by destruct (Hn f). }
      assert (parse_lines (S i) lines = Err (NpMalformedLine (S i + j))) as ->; [|simpl; do 2 f_equal; lia].
      apply IH. exists j, l. split_and!; [done|done| |done]. intros k l' Hk. apply (Hp (S k)). lia.
  - rewrite E. split.
    + intros [= <-]. exists O, line. split_and!; [done|done|lia|]. f_equal. lia.
    + intros ([|j] & l & Hj & Hn & Hp & ->); [do 2 f_equal; lia|].
      destruct (Hp O line) as [f Hf]; [lia|done|]. by destruct (Hno f).
Qed.

Lemma split_join_lines lines : lines ≠ [] → Forall (λ l, one_line l = true) lines →
  split_char newline (str_join (String newline "") lines) = lines.
Proof.
  intros Hne Hl. induction Hl as [|l [|l' ls] [H _]%andb_true_iff Hls IH]; [done| |].
  - simpl. by apply split_char_none.
  - change (str_join _ (l :: l' :: ls)) with (l +:+ String newline (str_join (String newline "") (l' :: ls))).
    rewrite split_char_app by done. by rewrite IH.
Qed.

(** C37: The notify parser is exact. A payload is accepted precisely when it is
    UTF-8 and every line of it says something (nothing, a field, or a line
    with a key of a kind that is not known), and then the fields are those the
    lines say, in order; otherwise the error names the first line that says
    nothing sensible; and a message written one field a line reads back as the
    fields that were written. *)
Theorem notify_messages_exact :
  (∀ payload m, parse_notify_message payload = Ok m ↔
     is_utf8 payload = true ∧
     ∃ said, Forall2 line_says (split_char newline payload) said ∧ m.(nm_fields) = List.concat said) ∧
  (∀ payload i, parse_notify_message payload = Err (NpMalformedLine i) ↔
     is_utf8 payload = true ∧
     ∃ line, split_char newline payload !! i = Some line ∧ (∀ fields, ¬ line_says line fields) ∧
       ∀ k line', (k < i)%nat → split_char newline payload !! k = Some line' → ∃ fields, line_says line' fields) ∧
  (∀ fields, Forall (λ field, one_line (field_line field) = true) fields →
     let payload := str_join (String newline "") (map field_line fields) in
     is_utf8 payload = true → parse_notify_message payload = Ok {| nm_fields := fields |}).
Proof.
  unfold parse_notify_message. split_and!.
  - intros payload [m]. destruct (is_utf8 payload); [|naive_solver].
    destruct (parse_lines _ _) as [fields|e] eqn:E; simpl.
    + split; [intros [= ->]; split; [done|]; by apply (parse_lines_Ok 0)|].
      intros [_ H]. apply (parse_lines_Ok 0) in H. congruence.
    + split; [done|]. intros [_ H]. apply (parse_lines_Ok 0) in H. congruence.
  - intros payload i. destruct (is_utf8 payload); [|naive_solver].
    destruct (parse_lines _ _) as [fields|e] eqn:E; simpl.
    + split; [done|]. intros (_ & line & H). enough (parse_lines 0 (split_char newline payload) = Err (NpMalformedLine i)) by congruence.
      apply parse_lines_Err. exists i, line. naive_solver.
    + split.
      * intros [= ->]. split; [done|]. apply parse_lines_Err in E as (j & line & ? & ? & ? & [= ->]). eauto.
      * intros (_ & line & H). enough (parse_lines 0 (split_char newline payload) = Err (NpMalformedLine i)) by congruence.
        apply parse_lines_Err. exists i, line. naive_solver.
  - intros fields Hf. cbv zeta. intros ->. destruct (decide (fields = [])) as [->|Hne]; [done|].
    rewrite split_join_lines; [|by destruct fields|by apply Forall_map].
    enough (parse_lines 0 (map field_line fields) = Ok fields) as -> by done.
    apply parse_lines_Ok. exists (map (λ field, [field]) fields). split.
    + clear Hne. induction Hf as [|field fields [_ H]%andb_true_iff _ IH]; simpl; constructor; [|done].
      apply says_field. by apply bool_decide_eq_true in H.
    + clear. induction fields; simpl; congruence.
Qed.
