(* ===== verification/SubmittedDef.v ===== *)
(** * Submitted job definitions

    Models [src/src/submitted/definition.rs] (the [submit] request and its
    validation) and [progress.rs] (the [PROGRESS=] grammar).

    A request is a [serde_json] object. An object is the list of its entries in
    iteration order, and a number is what the class [JsonNumber] says about it:
    the integers it converts to. *)

From S2P Require Import Prelude RustStr ServiceRuntime ServiceDef.
From Stdlib Require Import String Ascii.
Open Scope string_scope.
Open Scope list_scope.

(** ** [serde_json] values *)

(** A JSON number, with [Value::as_u64] and [Value::as_i64] on it and
    [Number::from]. *)
Class JsonNumber : Type := {
  Number : Type;
  as_u64 : Number → option Z;
  as_i64 : Number → option Z;
  from_u64 : Z → Number;
}.

(** An integer that converts has the range of its type, and one that was made
    from a [u64] converts back. *)
Class JsonNumberLaws `{JsonNumber} : Prop := {
  as_u64_range : ∀ n v, as_u64 n = Some v → is_u64 v;
  as_u64_from : ∀ v, is_u64 v → as_u64 (from_u64 v) = Some v;
  as_i64_from : ∀ v, (0 ≤ v < 9223372036854775808)%Z → as_i64 (from_u64 v) = Some v;
}.

Inductive Value `{JsonNumber} : Type :=
| VNull
| VBool (b : bool)
| VNumber (n : Number)
| VString (s : string)
| VArray (values : list Value)
| VObject (entries : list (string * Value)).

Section Json.
Context `{JsonNumber}.

Definition JsonObject : Type := list (string * Value).

Definition json_get (object : JsonObject) (field : string) : option Value :=
  find_map (λ '(name, value), if bool_decide (name = field) then Some value else None) object.

Definition as_str (value : Value) : option string :=
  match value with VString s => Some s | _ => None end.
Definition value_as_u64 (value : Value) : option Z :=
  match value with VNumber n => as_u64 n | _ => None end.
Definition value_as_i64 (value : Value) : option Z :=
  match value with VNumber n => as_i64 n | _ => None end.
End Json.

(** ** The definition *)

Inductive JobReadiness : Type := ReadinessNone | ReadinessNotify.

#[export] Instance JobReadiness_eq_dec : EqDecision JobReadiness.
Proof. solve_decision. Defined.

Record SubmittedJobDefinition : Type := {
  sj_image_path : string;
  sj_arguments : list string;
  sj_environment : list ServiceEnvironmentVariable;
  sj_working_directory : string;
  sj_description : string;
  sj_timeout_secs : Z;
  sj_stop_timeout_secs : Z;
  sj_readiness : JobReadiness;
  sj_readiness_timeout_secs : Z;
  sj_success_exit_codes : list Z;
  sj_descriptor_names : list string;
  sj_output : bool;
  sj_security_descriptor_sddl : option string;
}.

Definition MAX_ARG_ENV_BYTES : Z := 2 * 1024 * 1024.
Definition SUBMITTED_STOP_TIMEOUT_SECS : Z := 10.
Definition SUBMITTED_READINESS_TIMEOUT_SECS : Z := 30.
Definition DEFAULT_WORKING_DIRECTORY : string := "/".

Definition expected_descriptor_count (self : SubmittedJobDefinition) : Z :=
  (Z.of_nat (List.length self.(sj_descriptor_names)) + Z.b2z self.(sj_output))%Z.

Definition submitted_success_exit_code (self : SubmittedJobDefinition) (code : Z) : bool :=
  bool_decide (code = 0)%Z || bool_decide (code ∈ self.(sj_success_exit_codes)).

Inductive SubmittedJobDefinitionError : Type :=
| InvalidField (field reason : string)
| DescriptorCountMismatch (expected attached : Z)
| ArgumentsTooLarge (bytes limit : Z).

Definition definition_error_message (self : SubmittedJobDefinitionError) : string :=
  match self with
  | InvalidField field reason => "invalid " +:+ field +:+ ": " +:+ reason
  | DescriptorCountMismatch expected attached =>
      "descriptors names " +:+ u64_to_string expected +:+ " descriptors but "
        +:+ u64_to_string attached +:+ " were attached"
  | ArgumentsTooLarge bytes limit =>
      "arguments and environment total " +:+ u64_to_string bytes +:+ " bytes, over the "
        +:+ u64_to_string limit +:+ " limit"
  end.

Definition nul : ascii := ascii_of_nat 0.
Definition has_nul (s : string) : bool := str_contains_char nul s.

(** [collect] of an iterator of results: the values, or the first error. *)
Fixpoint try_map {A B E} (f : A → Result B E) (l : list A) : Result (list B) E :=
  match l with
  | [] => Ok []
  | a :: l =>
      let? b := f a in
      let? bs := try_map f l in
      Ok (b :: bs)
  end.

Section Parse.
Context `{JsonNumber}.

Definition DefResult (A : Type) : Type := Result A SubmittedJobDefinitionError.

Definition required_path (object : JsonObject) (field : string) : DefResult string :=
  let? value := ok_or (json_get object field) (InvalidField field "is required") in
  let? value := ok_or (as_str value) (InvalidField field "must be a string") in
  if str_is_empty value then Err (InvalidField field "is empty")
  else if negb (starts_with "/" value) then Err (InvalidField field "must be absolute")
  else if has_nul value then Err (InvalidField field "contains NUL")
  else Ok value.

Definition optional_string (object : JsonObject) (field : string) : DefResult (option string) :=
  match json_get object field with
  | None | Some VNull => Ok None
  | Some (VString value) =>
      if has_nul value then Err (InvalidField field "contains NUL") else Ok (Some value)
  | Some _ => Err (InvalidField field "must be a string")
  end.

Definition optional_bool (object : JsonObject) (field : string) : DefResult (option bool) :=
  match json_get object field with
  | None | Some VNull => Ok None
  | Some (VBool value) => Ok (Some value)
  | Some _ => Err (InvalidField field "must be a boolean")
  end.

Definition optional_unsigned (object : JsonObject) (field : string) : DefResult (option Z) :=
  match json_get object field with
  | None | Some VNull => Ok None
  | Some value =>
      map_ok Some (ok_or (value_as_u64 value) (InvalidField field "must be a non-negative integer"))
  end.

Definition string_element (field : string) (value : Value) : DefResult string :=
  let? value := ok_or (as_str value) (InvalidField field "every element must be a string") in
  if has_nul value then Err (InvalidField field "an element contains NUL") else Ok value.

Definition optional_string_array (object : JsonObject) (field : string) : DefResult (list string) :=
  match json_get object field with
  | None | Some VNull => Ok []
  | Some (VArray values) => try_map (string_element field) values
  | Some _ => Err (InvalidField field "must be an array of strings")
  end.

Definition environment_entry (p : string * Value) : DefResult ServiceEnvironmentVariable :=
  let '(name, value) := p in
  let field := "environment" in
  if str_is_empty name then Err (InvalidField field "a variable name is empty")
  else if str_contains_char "="%char name
  then Err (InvalidField field ("name " +:+ str_debug name +:+ " contains '='"))
  else if has_nul name then Err (InvalidField field "a variable name contains NUL")
  else
    let? value := ok_or (as_str value) (InvalidField field "every value must be a string") in
    if has_nul value then Err (InvalidField field "a value contains NUL")
    else Ok {| env_name := name; env_value := value |}.

Definition optional_environment (object : JsonObject) : DefResult (list ServiceEnvironmentVariable) :=
  match json_get object "environment" with
  | None | Some VNull => Ok []
  | Some (VObject entries) => try_map environment_entry entries
  | Some _ => Err (InvalidField "environment" "must be an object of strings")
  end.

Definition exit_code_element (value : Value) : DefResult Z :=
  match value_as_i64 value with
  | Some code =>
      if ((0 <=? code) && (code <=? 255))%Z then Ok code
      else Err (InvalidField "success_exit_codes" "every element must be an integer in 0..=255")
  | None => Err (InvalidField "success_exit_codes" "every element must be an integer in 0..=255")
  end.

Definition optional_exit_codes (object : JsonObject) : DefResult (list Z) :=
  match json_get object "success_exit_codes" with
  | None | Some VNull => Ok []
  | Some (VArray values) => try_map exit_code_element values
  | Some _ => Err (InvalidField "success_exit_codes" "must be an array of integers")
  end.

Definition str_len (s : string) : Z := Z.of_nat (String.length s).

Definition arg_env_bytes (definition : SubmittedJobDefinition) : Z :=
  (str_len definition.(sj_image_path) + 1
   + foldr Z.add 0 (map (λ a, str_len a + 1) definition.(sj_arguments))
   + foldr Z.add 0 (map (λ v, str_len v.(env_name) + 1 + str_len v.(env_value) + 1)
       definition.(sj_environment)))%Z.

Definition check_descriptor_name (name : string) : DefResult unit :=
  if str_is_empty name then Err (InvalidField "descriptors" "a name is empty")
  else if str_contains_char ":"%char name
  then Err (InvalidField "descriptors"
    ("name " +:+ str_debug name +:+ " contains ':', the LISTEN_FDNAMES separator"))
  else if has_nul name then Err (InvalidField "descriptors" "a name contains NUL")
  else Ok tt.

Definition parse_readiness (value : option string) : DefResult JobReadiness :=
  match value with
  | None => Ok ReadinessNone
  | Some value =>
      if bool_decide (value = "none") then Ok ReadinessNone
      else if bool_decide (value = "notify") then Ok ReadinessNotify
      else Err (InvalidField "readiness" ("unknown value " +:+ str_debug value))
  end.

Definition parse_working_directory (object : JsonObject) : DefResult string :=
  match json_get object "working_directory" with
  | None | Some VNull => Ok DEFAULT_WORKING_DIRECTORY
  | Some _ => required_path object "working_directory"
  end.

(** The checks of the whole, once every field is read. *)
Definition check_definition (definition : SubmittedJobDefinition) (attached_descriptors : Z)
    : DefResult SubmittedJobDefinition :=
  let expected := expected_descriptor_count definition in
  if negb (bool_decide (expected = attached_descriptors))
  then Err (DescriptorCountMismatch expected attached_descriptors)
  else
    let bytes := arg_env_bytes definition in
    if (bytes >? MAX_ARG_ENV_BYTES)%Z then Err (ArgumentsTooLarge bytes MAX_ARG_ENV_BYTES)
    else Ok definition.

Definition parse_submitted_job_definition (object : JsonObject) (attached_descriptors : Z)
    : DefResult SubmittedJobDefinition :=
  let? image_path := required_path object "image_path" in
  let? arguments := optional_string_array object "arguments" in
  let? environment := optional_environment object in
  let? working_directory := parse_working_directory object in
  let? description := map_ok (default "") (optional_string object "description") in
  let? timeout_secs := map_ok (default 0%Z) (optional_unsigned object "timeout") in
  let? stop_timeout_secs :=
    map_ok (default SUBMITTED_STOP_TIMEOUT_SECS) (optional_unsigned object "stop_timeout") in
  if bool_decide (stop_timeout_secs = 0%Z) then Err (InvalidField "stop_timeout" "must be at least 1")
  else
    let? readiness := optional_string object "readiness" in
    let? readiness := parse_readiness readiness in
    let? readiness_timeout_secs :=
      map_ok (default SUBMITTED_READINESS_TIMEOUT_SECS) (optional_unsigned object "readiness_timeout") in
    let? success_exit_codes := optional_exit_codes object in
    let? descriptor_names := optional_string_array object "descriptors" in
    let? _ := try_map check_descriptor_name descriptor_names in
    let? output := map_ok (default false) (optional_bool object "output") in
    let? security_descriptor_sddl := optional_string object "security_descriptor" in
    if is_some_and security_descriptor_sddl str_is_empty
    then Err (InvalidField "security_descriptor" "is empty")
    else check_definition {|
      sj_image_path := image_path; sj_arguments := arguments; sj_environment := environment;
      sj_working_directory := working_directory; sj_description := description;
      sj_timeout_secs := timeout_secs; sj_stop_timeout_secs := stop_timeout_secs;
      sj_readiness := readiness; sj_readiness_timeout_secs := readiness_timeout_secs;
      sj_success_exit_codes := success_exit_codes; sj_descriptor_names := descriptor_names;
      sj_output := output; sj_security_descriptor_sddl := security_descriptor_sddl |}
      attached_descriptors.
End Parse.

(** ** Progress ([progress.rs]) *)

Inductive ProgressParseError : Type := PeMalformed | PeZeroTotal | PeCurrentExceedsTotal.

(** Digits only, and a value that fits 64 bits. *)
Definition parse_unsigned (text : string) : Result Z ProgressParseError :=
  if str_is_empty text || negb (str_all is_ascii_digit text) then Err PeMalformed
  else match parse_decimal 0 text with
       | Some n => if (n <=? u64_max)%Z then Ok n else Err PeMalformed
       | None => Err PeMalformed
       end.

Definition parse_progress (value : string) : Result JobProgress ProgressParseError :=
  let '(current, rest) :=
    match split_once "/"%char value with
    | Some (current, rest) => (current, Some rest)
    | None => (value, None)
    end in
  let? current := parse_unsigned current in
  match rest with
  | None => Ok {| jp_current := current; jp_total := None; jp_bounded := false |}
  | Some rest =>
      if str_is_empty rest then Ok {| jp_current := current; jp_total := None; jp_bounded := true |}
      else
        let? total := parse_unsigned rest in
        if bool_decide (total = 0%Z) then Err PeZeroTotal
        else if (current >? total)%Z then Err PeCurrentExceedsTotal
        else Ok {| jp_current := current; jp_total := Some total; jp_bounded := true |}
  end.

Definition parse_progress_unit (value : string) : option JobProgressUnit :=
  if bool_decide (value = "bytes") then Some UnitBytes
  else if bool_decide (value = "items") then Some UnitItems
  else if bool_decide (value = "percent") then Some UnitPercent
  else None.

(** ** What is accepted *)

Definition path_ok (path : string) : Prop := starts_with "/" path = true ∧ has_nul path = false.

Definition variable_ok (v : ServiceEnvironmentVariable) : Prop :=
  v.(env_name) ≠ "" ∧ str_contains_char "="%char v.(env_name) = false ∧
  has_nul v.(env_name) = false ∧ has_nul v.(env_value) = false.

Definition descriptor_name_ok (name : string) : Prop :=
  name ≠ "" ∧ str_contains_char ":"%char name = false ∧ has_nul name = false.

Record definition_ok (d : SubmittedJobDefinition) (attached_descriptors : Z) : Prop := {
  do_image_path : path_ok d.(sj_image_path);
  do_arguments : Forall (λ a, has_nul a = false) d.(sj_arguments);
  do_environment : Forall variable_ok d.(sj_environment);
  do_working_directory : path_ok d.(sj_working_directory);
  do_description : has_nul d.(sj_description) = false;
  do_timeout : is_u64 d.(sj_timeout_secs);
  do_stop_timeout : is_u64 d.(sj_stop_timeout_secs) ∧ d.(sj_stop_timeout_secs) ≠ 0%Z;
  do_readiness_timeout : is_u64 d.(sj_readiness_timeout_secs);
  do_exit_codes : Forall (λ code, 0 ≤ code ≤ 255)%Z d.(sj_success_exit_codes);
  do_descriptor_names : Forall descriptor_name_ok d.(sj_descriptor_names);
  do_sddl : ∀ sddl, d.(sj_security_descriptor_sddl) = Some sddl → sddl ≠ "" ∧ has_nul sddl = false;
  do_attached : expected_descriptor_count d = attached_descriptors;
  do_bytes : (arg_env_bytes d ≤ 2097152)%Z;
}.

Lemma str_is_empty_iff s : str_is_empty s = true ↔ s = "".
Proof. by destruct s. Qed.

Lemma try_map_Ok {A B E} (f : A → Result B E) (l : list A) (bs : list B) :
  try_map f l = Ok bs ↔ Forall2 (λ a b, f a = Ok b) l bs.
Proof.
  revert bs. induction l as [|a l IH]; intros bs; simpl.
  - split; [by intros [= <-]|]. by inversion 1.
  - destruct (f a) as [b|e] eqn:Ea; simpl.
    + destruct (try_map f l) as [bs'|e'] eqn:El; simpl.
      * split; [intros [= <-]; constructor; [done|by apply IH]|].
        inversion 1 as [|? b' ? bs'' Hb Hbs]; subst. apply IH in Hbs. congruence.
      * split; [done|]. inversion 1 as [|? b' ? bs'' Hb Hbs]; subst. apply IH in Hbs. congruence.
    + split; [done|]. inversion 1 as [|? b' ? bs'' Hb Hbs]; subst. congruence.
Qed.

Section Accepted.
Context `{JsonNumber}.

Lemma required_path_Ok object field path :
  required_path object field = Ok path ↔ json_get object field = Some (VString path) ∧ path_ok path.
Proof.
  unfold required_path, path_ok. split.
  - destruct (json_get object field) as [[]|]; simpl; try done.
    destruct (str_is_empty s); [done|]. destruct (starts_with "/" s) eqn:E2; [|done].
    destruct (has_nul s) eqn:E3; [done|]. by intros [= <-].
  - intros (-> & H1 & H2). simpl. destruct (str_is_empty path) eqn:E.
    + apply str_is_empty_iff in E as ->. done.
    + by rewrite H1, H2.
Qed.

Lemma optional_string_Ok object field o :
  optional_string object field = Ok o →
  ∀ s, o = Some s → has_nul s = false.
Proof.
  unfold optional_string. destruct (json_get object field) as [[]|]; try (by intros [= <-]).
  destruct (has_nul s) eqn:Es; [done|]. by intros [= <-] ? [= <-].
Qed.

Lemma optional_unsigned_Ok `{!JsonNumberLaws} object field o :
  optional_unsigned object field = Ok o → ∀ v, o = Some v → is_u64 v.
Proof.
  unfold optional_unsigned. destruct (json_get object field) as [[]|]; simpl; try (by intros [= <-]).
  destruct (as_u64 n) as [u|] eqn:En; [|done]. intros [= <-] ? [= <-]. by eapply as_u64_range.
Qed.

Lemma default_Ok {A E} (r : Result (option A) E) d a :
  map_ok (default d) r = Ok a → ∃ o, r = Ok o ∧ a = default d o.
Proof. destruct r as [o|]; simpl; [|done]. intros [= <-]. eauto. Qed.

Lemma optional_string_array_Ok object field l :
  optional_string_array object field = Ok l → Forall (λ s, has_nul s = false) l.
Proof.
  unfold optional_string_array. destruct (json_get object field) as [[]|]; try (by intros [= <-]).
  intros Hl%try_map_Ok. induction Hl as [|v s values l Hv _ IH]; constructor; [|done].
  unfold string_element in Hv. destruct v; simpl in Hv; try done. destruct (has_nul s0) eqn:Es; naive_solver.
Qed.

Lemma optional_environment_Ok object l : optional_environment object = Ok l → Forall variable_ok l.
Proof.
  unfold optional_environment. destruct (json_get object _) as [[]|]; try (by intros [= <-]).
  intros Hl%try_map_Ok. induction Hl as [|[name v] e values l Hv _ IH]; constructor; [|done].
  unfold environment_entry in Hv. destruct (str_is_empty name) eqn:E1; [done|].
  destruct (str_contains_char _ name) eqn:E2; [done|]. destruct (has_nul name) eqn:E3; [done|].
  destruct v; simpl in Hv; try done. destruct (has_nul s) eqn:E4; [done|]. injection Hv as <-.
  split_and!; simpl; try done. by intros ->.
Qed.

Lemma optional_exit_codes_Ok object l : optional_exit_codes object = Ok l → Forall (λ c, 0 ≤ c ≤ 255)%Z l.
Proof.
  unfold optional_exit_codes. destruct (json_get object _) as [[]|]; try (by intros [= <-]).
  intros Hl%try_map_Ok. induction Hl as [|v c values l Hv _ IH]; constructor; [|done].
  unfold exit_code_element in Hv. destruct (value_as_i64 v) as [code|]; [|done].
  destruct ((0 <=? code) && (code <=? 255))%Z eqn:Ec; [|done]. injection Hv as <-. lia.
Qed.

Lemma check_names_Ok l us : try_map check_descriptor_name l = Ok us → Forall descriptor_name_ok l.
Proof.
  intros Hl%try_map_Ok. induction Hl as [|name u l us Hv _ IH]; constructor; [|done].
  unfold check_descriptor_name in Hv. destruct (str_is_empty name) eqn:E1; [done|].
  destruct (str_contains_char _ name) eqn:E2; [done|]. destruct (has_nul name) eqn:E3; [done|].
  split_and!; [by intros ->|done..].
Qed.

Lemma check_definition_Ok d n d' :
  check_definition d n = Ok d' ↔ d' = d ∧ expected_descriptor_count d = n ∧ (arg_env_bytes d ≤ 2097152)%Z.
Proof.
  unfold check_definition. case_bool_decide; simpl; [|naive_solver].
  change MAX_ARG_ENV_BYTES with 2097152%Z. destruct (Z.gtb_spec (arg_env_bytes d) 2097152).
  - split; [done|]. lia.
  - naive_solver.
Qed.

Lemma parsed_definition_ok `{!JsonNumberLaws} object n d :
  parse_submitted_job_definition object n = Ok d → definition_ok d n.
Proof.
  unfold parse_submitted_job_definition. intros Hp.
  destruct (required_path object "image_path") as [path|] eqn:E1; [|done]. simpl in Hp. apply required_path_Ok in E1 as [_ E1].
  destruct (optional_string_array object "arguments") as [arguments|] eqn:E2; [|done]. simpl in Hp.
  apply optional_string_array_Ok in E2.
  destruct (optional_environment object) as [env|] eqn:E3; [|done]. apply optional_environment_Ok in E3.
  simpl in Hp. destruct (parse_working_directory object) as [wd|] eqn:E4; [|done].
  assert (path_ok wd) as Hwd.
  { unfold parse_working_directory in E4. destruct (json_get object "working_directory") as [[]|]; try (by injection E4 as <-);
      by apply required_path_Ok in E4 as [_ E4]. }
  simpl in Hp. destruct (map_ok (default "") _) as [description|] eqn:E5; [|done].
  apply default_Ok in E5 as (o5 & E5 & ->).
  simpl in Hp. destruct (map_ok (default 0%Z) _) as [timeout|] eqn:E6; [|done].
  apply default_Ok in E6 as (o6 & E6 & ->).
  simpl in Hp. destruct (map_ok (default SUBMITTED_STOP_TIMEOUT_SECS) _) as [stop|] eqn:E7; [|done].
  apply default_Ok in E7 as (o7 & E7 & ->).
  simpl in Hp. case_bool_decide as Hstop; [done|].
  destruct (optional_string object "readiness") as [rd|] eqn:E8; [|done].
  simpl in Hp. destruct (parse_readiness rd) as [readiness|] eqn:E9; [|done].
  simpl in Hp. destruct (map_ok (default SUBMITTED_READINESS_TIMEOUT_SECS) _) as [rt|] eqn:E10; [|done].
  apply default_Ok in E10 as (o10 & E10 & ->).
  simpl in Hp. destruct (optional_exit_codes object) as [codes|] eqn:E11; [|done].
  apply optional_exit_codes_Ok in E11.
  simpl in Hp. destruct (optional_string_array object "descriptors") as [names|] eqn:E12; [|done].
  simpl in Hp. destruct (try_map check_descriptor_name names) as [us|] eqn:E13; [|done].
  apply check_names_Ok in E13.
  simpl in Hp. destruct (map_ok (default false) _) as [output|] eqn:E14; [|done].
  simpl in Hp. destruct (optional_string object "security_descriptor") as [sddl|] eqn:E15; [|done].
  simpl in Hp. destruct (is_some_and sddl str_is_empty) eqn:E16; [done|].
  apply check_definition_Ok in Hp as (-> & Hn & Hb).
  split; simpl; try done.
  - destruct o5; simpl; [|done]. exact (optional_string_Ok _ _ _ E5 _ eq_refl).
  - destruct o6; simpl; [|done]. exact (optional_unsigned_Ok _ _ _ E6 _ eq_refl).
  - split; [|done]. destruct o7; simpl; [|done]. exact (optional_unsigned_Ok _ _ _ E7 _ eq_refl).
  - destruct o10; simpl; [|done]. exact (optional_unsigned_Ok _ _ _ E10 _ eq_refl).
  - intros s ->. split; [|exact (optional_string_Ok _ _ _ E15 _ eq_refl)]. intros ->. by simpl in E16.
Qed.

(** The request a client writes for a definition. *)
Definition readiness_wire (r : JobReadiness) : string :=
  match r with ReadinessNone => "none" | ReadinessNotify => "notify" end.

Definition request_of (d : SubmittedJobDefinition) : JsonObject :=
  [("image_path", VString d.(sj_image_path));
   ("arguments", VArray (map VString d.(sj_arguments)));
   ("environment", VObject (map (λ v, (v.(env_name), VString v.(env_value))) d.(sj_environment)));
   ("working_directory", VString d.(sj_working_directory));
   ("description", VString d.(sj_description));
   ("timeout", VNumber (from_u64 d.(sj_timeout_secs)));
   ("stop_timeout", VNumber (from_u64 d.(sj_stop_timeout_secs)));
   ("readiness", VString (readiness_wire d.(sj_readiness)));
   ("readiness_timeout", VNumber (from_u64 d.(sj_readiness_timeout_secs)));
   ("success_exit_codes", VArray (map (λ c, VNumber (from_u64 c)) d.(sj_success_exit_codes)));
   ("descriptors", VArray (map VString d.(sj_descriptor_names)));
   ("output", VBool d.(sj_output));
   ("security_descriptor", from_option VString VNull d.(sj_security_descriptor_sddl))].

Lemma try_map_map {A B C E} (f : A → Result B E) (g : C → A) (h : C → B) l :
  Forall (λ c, f (g c) = Ok (h c)) l → try_map f (map g l) = Ok (map h l).
Proof. induction 1 as [|c l Hc _ IH]; simpl; [done|]. by rewrite Hc; simpl; rewrite IH. Qed.

Lemma string_array_of object field (l : list string) :
  json_get object field = Some (VArray (map VString l)) → Forall (λ s, has_nul s = false) l →
  optional_string_array object field = Ok l.
Proof.
  intros E Hl. unfold optional_string_array. rewrite E, (try_map_map _ _ id); [by rewrite map_id|].
  eapply Forall_impl; [exact Hl|]. intros s Hs. unfold string_element. simpl. by rewrite Hs.
Qed.

Lemma environment_of object l :
  json_get object "environment" = Some (VObject (map (λ v, (v.(env_name), VString v.(env_value))) l)) →
  Forall variable_ok l → optional_environment object = Ok l.
Proof.
  intros E Hl. unfold optional_environment. rewrite E, (try_map_map _ _ id); [by rewrite map_id|].
  eapply Forall_impl; [exact Hl|]. intros [name value] (H1 & H2 & H3 & H4). unfold environment_entry. simpl in *.
  destruct (str_is_empty name) eqn:Ee; [by apply str_is_empty_iff in Ee|]. by rewrite H2, H3, H4.
Qed.

Lemma exit_codes_of `{!JsonNumberLaws} object l :
  json_get object "success_exit_codes" = Some (VArray (map (λ c, VNumber (from_u64 c)) l)) →
  Forall (λ c, 0 ≤ c ≤ 255)%Z l → optional_exit_codes object = Ok l.
Proof.
  intros E Hl. unfold optional_exit_codes. rewrite E, (try_map_map _ _ id); [by rewrite map_id|].
  eapply Forall_impl; [exact Hl|]. intros c Hc. cbn beta in Hc. unfold exit_code_element. simpl. rewrite as_i64_from by lia.
  destruct ((0 <=? c) && (c <=? 255))%Z eqn:Ec; [done|lia].
Qed.

Lemma string_of object field s :
  json_get object field = Some (VString s) → has_nul s = false → optional_string object field = Ok (Some s).
Proof. intros E Hs. unfold optional_string. by rewrite E, Hs. Qed.

Lemma unsigned_of `{!JsonNumberLaws} object field v :
  json_get object field = Some (VNumber (from_u64 v)) → is_u64 v → optional_unsigned object field = Ok (Some v).
Proof. intros E Hv. unfold optional_unsigned. rewrite E. simpl. by rewrite as_u64_from. Qed.

Lemma names_of l : Forall descriptor_name_ok l → is_ok (try_map check_descriptor_name l) = true.
Proof.
  induction 1 as [|name l (H1 & H2 & H3) _ IH]; simpl; [done|]. unfold check_descriptor_name at 1.
  destruct (str_is_empty name) eqn:Ee; [by apply str_is_empty_iff in Ee|]. rewrite H2, H3. simpl.
  by destruct (try_map check_descriptor_name l).
Qed.

Lemma parse_request_of `{!JsonNumberLaws} d n :
  definition_ok d n → parse_submitted_job_definition (request_of d) n = Ok d.
Proof.
  intros [H1 H2 H3 H4 H5 H6 [H7 H7'] H8 H9 H10 H11 H12 H13]. unfold parse_submitted_job_definition.
  rewrite (proj2 (required_path_Ok (request_of d) "image_path" _) (conj eq_refl H1)). cbn [map_ok].
  rewrite (string_array_of (request_of d) "arguments" _ eq_refl H2), (environment_of (request_of d) _ eq_refl H3).
  unfold parse_working_directory. rewrite (proj2 (required_path_Ok (request_of d) "working_directory" _) (conj eq_refl H4)).
  change (json_get (request_of d) "working_directory") with (Some (VString (sj_working_directory d))).
  cbn beta iota. rewrite (string_of (request_of d) "description" _ eq_refl H5), (unsigned_of (request_of d) "timeout" _ eq_refl H6).
  rewrite (unsigned_of (request_of d) "stop_timeout" _ eq_refl H7). cbn [map_ok default].
  rewrite (bool_decide_eq_false_2 _ H7').
  rewrite (string_of (request_of d) "readiness" (readiness_wire (sj_readiness d)) eq_refl) by by destruct (sj_readiness d).
  replace (parse_readiness (Some (readiness_wire (sj_readiness d)))) with
    (Ok (sj_readiness d) : DefResult JobReadiness) by by destruct (sj_readiness d).
  rewrite (unsigned_of (request_of d) "readiness_timeout" _ eq_refl H8), (exit_codes_of (request_of d) _ eq_refl H9).
  rewrite (string_array_of (request_of d) "descriptors" _ eq_refl).
  2:{ eapply Forall_impl; [exact H10|]. by intros name (_ & _ & ?). }
  pose proof (names_of _ H10) as Hn. destruct (try_map check_descriptor_name _) as [us|]; [|done]. cbn [map_ok default].
  change (optional_bool (request_of d) "output") with (Ok (Some (sj_output d)) : DefResult (option bool)).
  assert (optional_string (request_of d) "security_descriptor" = Ok (sj_security_descriptor_sddl d)) as ->.
  { destruct (sj_security_descriptor_sddl d) as [sddl|] eqn:Es.
    - apply string_of; [cbn; by rewrite Es|by apply H11].
    - unfold optional_string. cbn. by rewrite Es. }
  destruct (is_some_and (sj_security_descriptor_sddl d) str_is_empty) eqn:Ei.
  { destruct (sj_security_descriptor_sddl d) as [sddl|]; [|done]. apply str_is_empty_iff in Ei.
    by destruct (H11 _ eq_refl). }
  destruct d. simpl. by apply check_definition_Ok.
Qed.
End Accepted.

(** ** The theorems *)

(** The definitions a [submit] request can lead to are exactly the well
    formed ones: an absolute image path and working directory, no NUL in any
    text that becomes an argument, a variable or a path, no ['='] in a variable
    name and no [':'] in a descriptor name, exit codes in [0..=255], a stop
    timeout of at least a second, as many attached descriptors as the definition
    names, and arguments and environment that fit [execve]. Every such
    definition is reached, by the request that states each of its fields. *)
Theorem accepted_definitions_exact `{JsonNumberLaws} (d : SubmittedJobDefinition) (attached : Z) :
  (∃ object, parse_submitted_job_definition object attached = Ok d) ↔ definition_ok d attached.
Proof.
  split; [by intros [object ?%parsed_definition_ok]|]. intros Hd. exists (request_of d).
  by apply parse_request_of.
Qed.

(** Numbers as integers, for evaluation. *)
#[local] Instance z_number : JsonNumber := {|
  Number := Z;
  as_u64 n := if (0 <=? n)%Z && (n <=? u64_max)%Z then Some n else None;
  as_i64 n := if (-9223372036854775808 <=? n)%Z && (n <=? 9223372036854775807)%Z then Some n else None;
  from_u64 n := n |}.

#[local] Instance z_number_laws : JsonNumberLaws.
Proof.
  split; simpl.
  - intros n v. destruct ((0 <=? n)%Z && (n <=? u64_max)%Z) eqn:E; [|done]. intros [= <-]. unfold is_u64. lia.
  - intros v [? ?]. destruct ((0 <=? v)%Z && (v <=? u64_max)%Z) eqn:E; [done|lia].
  - intros v ?. destruct ((-9223372036854775808 <=? v)%Z && (v <=? 9223372036854775807)%Z) eqn:E; [done|lia].
Qed.

Definition example_submitted : SubmittedJobDefinition := {|
  sj_image_path := "/bin/backup"; sj_arguments := ["--all"];
  sj_environment := [{| env_name := "HOME"; env_value := "/" |}];
  sj_working_directory := "/"; sj_description := ""; sj_timeout_secs := 0;
  sj_stop_timeout_secs := 10; sj_readiness := ReadinessNotify; sj_readiness_timeout_secs := 30;
  sj_success_exit_codes := [3]%Z; sj_descriptor_names := ["store"]; sj_output := true;
  sj_security_descriptor_sddl := None |}.

Lemma accepted_definitions_exact_witness :
  (∃ object, parse_submitted_job_definition object 2 = Ok example_submitted) ↔
  definition_ok example_submitted 2.
Proof. exact (@accepted_definitions_exact z_number z_number_laws example_submitted 2). Defined.

(** *** Progress *)

Definition progress_ok (p : JobProgress) : Prop :=
  is_u64 p.(jp_current) ∧
  match p.(jp_total) with
  | None => True
  | Some total => is_u64 total ∧ (0 < total)%Z ∧ (p.(jp_current) ≤ total)%Z ∧ p.(jp_bounded) = true
  end.

(** A progress in the grammar's three forms: [N], [N/] and [N/T]. *)
Definition progress_text (p : JobProgress) : string :=
  u64_to_string p.(jp_current) +:+
  match p.(jp_total), p.(jp_bounded) with
  | Some total, _ => "/" +:+ u64_to_string total
  | None, true => "/"
  | None, false => ""
  end.

Lemma parse_decimal_nonneg acc s n :
  (0 ≤ acc)%Z → str_all is_ascii_digit s = true → parse_decimal acc s = Some n → (0 ≤ n)%Z.
Proof.
  revert acc. induction s as [|c s IH]; intros acc Ha; simpl; [by intros _ [= <-]|].
  destruct (is_ascii_digit c) eqn:Ec; simpl; [|done]. apply IH.
  unfold is_ascii_digit, in_range in Ec. lia.
Qed.

Lemma parse_unsigned_range s n : parse_unsigned s = Ok n → is_u64 n.
Proof.
  unfold parse_unsigned. destruct (str_is_empty s || negb (str_all is_ascii_digit s)) eqn:E; [done|].
  apply orb_false_iff in E as [_ E%negb_false_iff].
  destruct (parse_decimal 0 s) as [m|] eqn:Em; [|done]. destruct (m <=? u64_max)%Z eqn:Er; [|done].
  intros [= <-]. split; [|lia]. by eapply parse_decimal_nonneg.
Qed.

Lemma parse_unsigned_to_string n : is_u64 n → parse_unsigned (u64_to_string n) = Ok n.
Proof.
  intros [H0 H1]. unfold parse_unsigned.
  rewrite u64_to_string_nonempty, u64_to_string_digits, parse_decimal_to_string by done. simpl.
  destruct (n <=? u64_max)%Z eqn:E; [done|lia].
Qed.

Lemma digits_without_slash n : str_all (λ d, negb (Ascii.eqb d "/"%char)) (u64_to_string n) = true.
Proof.
  pose proof (u64_to_string_digits n) as Hd. induction (u64_to_string n) as [|c s IH]; [done|]. simpl in *.
  apply andb_true_iff in Hd as [Hc Hs]. rewrite IH, andb_true_r by done. by apply is_ascii_digit_not.
Qed.

Lemma parsed_progress_ok value p : parse_progress value = Ok p → progress_ok p.
Proof.
  unfold parse_progress, progress_ok.
  destruct (match split_once _ _ with Some (c, r) => _ | None => _ end) as [current rest].
  destruct (parse_unsigned current) as [c|] eqn:Ec; [|done]. apply parse_unsigned_range in Ec. cbn beta iota.
  destruct rest as [rest|]; [|by intros [= <-]]. destruct (str_is_empty rest); [by intros [= <-]|].
  destruct (parse_unsigned rest) as [t|] eqn:Et; [|done]. apply parse_unsigned_range in Et. cbn beta iota.
  case_bool_decide; [done|]. destruct (Z.gtb_spec c t); [done|]. intros [= <-]. simpl.
  pose proof Et as [Et1 Et2]. split; [exact Ec|]. split; [exact Et|]. split; [lia|]. split; [lia|done].
Qed.

(** The [PROGRESS=] grammar: whatever is accepted is a progress whose
    numbers fit 64 bits and whose total, where it has one, is positive and not
    below the current value; and each such progress, written as [N], [N/] or
    [N/T], is read back as it was. *)
Theorem progress_grammar_exact (p : JobProgress) :
  (parse_progress (progress_text p) = Ok p ↔ progress_ok p) ∧
  ∀ value, parse_progress value = Ok p → progress_ok p.
Proof.
  split; [|intros value; by apply parsed_progress_ok]. split; [by apply parsed_progress_ok|].
  intros [Hc Ht]. destruct p as [c [t|] [|]]; simpl in *.
  - destruct Ht as (Hu & Hp & Hle & _). unfold parse_progress, progress_text. simpl.
    rewrite split_once_app, !parse_unsigned_to_string by (done || apply digits_without_slash).
    rewrite u64_to_string_nonempty, bool_decide_eq_false_2 by lia. destruct (Z.gtb_spec c t); [lia|done].
  - by destruct Ht as (_ & _ & _ & ?).
  - unfold parse_progress, progress_text. simpl.
    rewrite (split_once_app _ _ ""), parse_unsigned_to_string by (done || apply digits_without_slash). done.
  - unfold parse_progress, progress_text. simpl. rewrite str_app_nil_r.
    rewrite (proj2 (split_once_None _ _) (digits_without_slash c)). by rewrite parse_unsigned_to_string.
Qed.
