(* ===== verification/NotifyRun.v ===== *)
(** * Applying notify messages

    Models [src/src/execution/notify/]: who sent a message ([auth.rs]), and the
    effect of each of its fields on the stores ([field.rs], [start.rs],
    [reload.rs], [dispatch.rs]). What the supervisor does after it is in
    [SupervisorNotify].

    The [message] of a failed pidfd check is the boundary's error itself, not
    its debug text. *)

From S2P Require Import Prelude RustStr ServiceRuntime ServiceDef Ids Restart Cgroup ServiceTable.
From S2P Require Import OperationRecord OperationStore ExecGraph JobRecord JobStore SubmittedDef Shutdown.
From S2P Require Import Effects StartState StartBegin StartRun ControlRun Notify.
From Stdlib Require Import String.
Open Scope string_scope.
Open Scope list_scope.
Open Scope Z_scope.

Section Notify.
Context {P BoundaryError : Type} `{!ProcessController P BoundaryError}.
Notation StartError := (StartExecutionError BoundaryError).
Notation CState := (ControlState P).

(** ** Data ([model.rs]) *)

Record AuthenticatedNotifySender : Type := {
  ns_service : string;
  ns_job_id : JobId;
  ns_operation_id : option OperationId;
  ns_generation : Z;
  ns_job_created_at_ns : Z;
  ns_cgroup_generation : Z;
}.

Inductive NotifyAppliedField : Type :=
| NaReady
| NaReloading
| NaStopping
| NaStatus (text : string)
| NaLevel (value : string)
| NaProgress (value : string)
| NaProgressUnit (value : string)
| NaErrno (value : string)
| NaExitStatus (value : string)
| NaWatchdog
| NaWatchdogUsec (value : string)
| NaExtendTimeoutUsec (value : string)
| NaFdStore
| NaFdName (name : string)
| NaFdStoreRemove
| NaFdPoll (value : string).

Record NotifyApplyDispatch : Type := {
  nad_sender : AuthenticatedNotifySender;
  nad_applied_fields : list NotifyAppliedField;
  nad_operation_events : list OperationEvent;
  nad_service_transitions : list ServiceTableTransition;
  nad_graph_events : list GraphExecutionEvent;
  nad_post_start_hook : option JobEvent;
  nad_progress_event : option ServiceProgressReport;
}.

Inductive NotifyApplyError : Type :=
| NeUnauthenticatedSender (pid : Z)
| NeMissingService (job_id : JobId)
| NeJobNotRunning (job_id : JobId) (state : JobState)
| NeMissingProcess (job_id : JobId)
| NePidfdMismatch (job_id : JobId) (pid pidfd : Z)
| NeProcessVerification (job_id : JobId) (pid pidfd : Z) (message : BoundaryError)
| NeGenerationMismatch (service : string) (job_generation runtime_generation : Z)
| NeMissingStartOperation (service : string) (job_id : JobId)
| NeMissingReloadOperation (service : string)
| NeUnsupportedReloadOperation (service : string) (operation_type : OperationType)
| NeUnsupportedReadyState (service : string) (state : ServiceState)
| NeServiceTable (error : ServiceTableError)
| NeOperationStore (error : OperationStoreError)
| NeStart (error : StartError).

Notation Notify := (Exec CState NotifyApplyError).

(** ** The sender ([auth.rs]) *)

Definition main_job (jobs : JobStore) (service : string) : option JobRecord :=
  job_id ← current_service_main_job jobs service;
  jobs.(js_records) !! job_id.

Definition service_claims_notify_sender (sender_pid : Z) (services : gmap string ServiceEntry) (jobs : JobStore)
    : bool :=
  existsb (λ service, is_some_and (main_job jobs service) (λ job, bool_decide (job.(jr_pid) = Some sender_pid)))
    (service_names services).

Definition matches_pid (job_id : JobId) (pidfd pid : Z) : Step P NotifyApplyError bool :=
  exec_on xs_controller set_controller (NeProcessVerification job_id pid pidfd) (pidfd_matches_pid pidfd pid).

(** A service whose current main job has the sender's pid: the job must be
    running, its pidfd must still be of that pid, and it must belong to the
    service's current activation. *)
Definition authenticate_main_job (service : string) (job_id : JobId) (job : JobRecord) (sender_pid : Z)
    : Step P NotifyApplyError AuthenticatedNotifySender :=
  if bool_decide (job.(jr_state) ≠ JsRunning) then exec_fail (NeJobNotRunning job_id job.(jr_state))
  else match job.(jr_pidfd) with
       | None => exec_fail (NeMissingProcess job_id)
       | Some pidfd =>
           matching ← matches_pid job_id pidfd sender_pid;
           if negb matching then exec_fail (NePidfdMismatch job_id sender_pid pidfd)
           else
             runtime ← require (NeServiceTable (UnknownService service))
               (λ s, table_runtime s.(xs_services) service);
             if bool_decide (job.(jr_activation_generation) ≠ runtime.(rt_generation)) then
               exec_fail (NeGenerationMismatch service job.(jr_activation_generation) runtime.(rt_generation))
             else mret {| ns_service := service; ns_job_id := job_id; ns_operation_id := job.(jr_operation_id);
                          ns_generation := job.(jr_activation_generation);
                          ns_job_created_at_ns := job.(jr_created_at_ns);
                          ns_cgroup_generation := job.(jr_cgroup_generation) |}
       end.

Fixpoint authenticate_among (sender_pid : Z) (services : list string)
    : Step P NotifyApplyError AuthenticatedNotifySender :=
  match services with
  | [] => exec_fail (NeUnauthenticatedSender sender_pid)
  | service :: services =>
      current ← exec_get (λ s, current_service_main_job s.(xs_jobs) service);
      match current with
      | None => authenticate_among sender_pid services
      | Some job_id =>
          job ← require (NeMissingService job_id) (λ s, s.(xs_jobs).(js_records) !! job_id);
          if bool_decide (job.(jr_pid) ≠ Some sender_pid) then authenticate_among sender_pid services
          else authenticate_main_job service job_id job sender_pid
      end
  end.

Definition authenticate_notify_sender (sender_pid : Z) : Step P NotifyApplyError AuthenticatedNotifySender :=
  services ← exec_get (λ s, service_names s.(xs_services));
  authenticate_among sender_pid services.

(** ** Fields ([field.rs]) *)

Definition applied (field : NotifyAppliedField) (dispatch : NotifyApplyDispatch) : NotifyApplyDispatch :=
  {| dispatch with nad_applied_fields := dispatch.(nad_applied_fields) ++ [field] |}.

Definition notify_service_state (service : string) : Notify ServiceState :=
  runtime ← in_exec id (require (NeServiceTable (UnknownService service))
    (λ s, table_runtime s.(xs_services) service));
  mret runtime.(rt_state).

(** *** Readiness of a start ([start.rs]) *)
Definition apply_start_ready (sender : AuthenticatedNotifySender) (observed_at_ns : Z)
    (dispatch : NotifyApplyDispatch) : Notify NotifyApplyDispatch :=
  definition ← in_exec id (require (NeServiceTable (UnknownService sender.(ns_service)))
    (λ s, table_definition s.(xs_services) sender.(ns_service)));
  if negb (requires_notify_readiness definition) then mret dispatch
  else
    operation_id ← exec_lift (ok_or sender.(ns_operation_id)
      (NeMissingStartOperation sender.(ns_service) sender.(ns_job_id)));
    readiness ← in_exec NeStart (complete_start_readiness {|
      srr_service := sender.(ns_service);
      srr_operation_id := operation_id;
      srr_job_id := sender.(ns_job_id);
      srr_job_created_at_ns := sender.(ns_job_created_at_ns);
      srr_activation_generation := sender.(ns_generation);
      srr_cgroup_generation := sender.(ns_cgroup_generation);
      srr_ready_at_ns := observed_at_ns;
      srr_result := "notify readiness: READY=1" |});
    _ ← in_exec id (on_start_with (remove_readiness_deadline operation_id));
    mret {| dispatch with
      nad_operation_events := dispatch.(nad_operation_events) ++ readiness.(srd_operation_events);
      nad_service_transitions := dispatch.(nad_service_transitions) ++ readiness.(srd_service_transitions);
      nad_graph_events := dispatch.(nad_graph_events) ++ readiness.(srd_graph_events);
      nad_post_start_hook := readiness.(srd_post_start_hook) |}.

(** *** Reloads ([reload.rs]) *)
Definition reload_operation (service : string) (operations : OperationStore)
    : Result OperationRecord NotifyApplyError :=
  let? operation := ok_or (current_for_service operations service) (NeMissingReloadOperation service) in
  if bool_decide (operation.(or_operation_type) ≠ OpReload) || bool_decide (operation.(or_state) ≠ OsRunning)
  then Err (NeUnsupportedReloadOperation service operation.(or_operation_type))
  else Ok operation.

Definition current_reload (service : string) : Notify OperationRecord :=
  operation ← exec_get (λ s, reload_operation service s.(cx_exec).(xs_operations));
  exec_lift operation.

Definition apply_reload_ready (sender : AuthenticatedNotifySender) (observed_at_ns : Z)
    (dispatch : NotifyApplyDispatch) : Notify NotifyApplyDispatch :=
  operation ← current_reload sender.(ns_service);
  let operation_id := operation.(or_id) in
  by_command ← exec_get (λ s, has_reload_command_deadline operation_id s.(cx_control));
  if by_command : bool then
    _ ← on_control (mark_reload_command_ready operation_id);
    mret dispatch
  else
    _ ← on_control_with (remove_reload_detection_deadline operation_id);
    transition ← in_exec id (on_services NeServiceTable
      (transition_service sender.(ns_service) {| st_to := StActive; st_cause := TcExplicitReload |}));
    operation_event ← in_exec id (on_operations NeOperationStore
      (complete_operation operation_id observed_at_ns "reload signal confirmed"));
    mret {| dispatch with
      nad_service_transitions := dispatch.(nad_service_transitions) ++ [transition];
      nad_operation_events := dispatch.(nad_operation_events) ++ [operation_event] |}.

Definition apply_reloading (sender : AuthenticatedNotifySender) (observed_at_ns : Z)
    (dispatch : NotifyApplyDispatch) : Notify NotifyApplyDispatch :=
  state ← notify_service_state sender.(ns_service);
  if bool_decide (state ≠ StReloading) then mret (applied NaReloading dispatch)
  else
    operation ← current_reload sender.(ns_service);
    by_command ← exec_get (λ s, has_reload_command_deadline operation.(or_id) s.(cx_control));
    _ ← (if by_command : bool then mret tt
         else
           definition ← in_exec id (require (NeServiceTable (UnknownService sender.(ns_service)))
             (λ s, table_definition s.(xs_services) sender.(ns_service)));
           _ ← on_control_with (observe_reload_reloading operation.(or_id)
             (seconds_after observed_at_ns definition.(sd_start_timeout_secs)));
           mret tt);
    mret (applied NaReloading dispatch).

Definition apply_ready (sender : AuthenticatedNotifySender) (observed_at_ns : Z) (dispatch : NotifyApplyDispatch)
    : Notify NotifyApplyDispatch :=
  state ← notify_service_state sender.(ns_service);
  dispatch ← match state with
             | StStarting => apply_start_ready sender observed_at_ns dispatch
             | StReloading => apply_reload_ready sender observed_at_ns dispatch
             | _ => mret dispatch
             end;
  mret (applied NaReady dispatch).

Definition on_sender {A} (sender : AuthenticatedNotifySender)
    (f : string → gmap string ServiceEntry → TableResult A) : Notify A :=
  in_exec id (on_services NeServiceTable (f sender.(ns_service))).

Definition apply_status (sender : AuthenticatedNotifySender) (text : string) (dispatch : NotifyApplyDispatch)
    : Notify NotifyApplyDispatch :=
  _ ← on_sender sender (λ service, update_status_text service text);
  mret (applied (NaStatus text) dispatch).

Definition apply_progress (sender : AuthenticatedNotifySender) (value : string) (dispatch : NotifyApplyDispatch)
    : Notify NotifyApplyDispatch :=
  match parse_progress value with
  | Err _ => mret dispatch
  | Ok progress =>
      _ ← on_sender sender (λ service, update_progress service progress);
      mret (applied (NaProgress value) dispatch)
  end.

Definition apply_progress_unit (sender : AuthenticatedNotifySender) (value : string)
    (dispatch : NotifyApplyDispatch) : Notify NotifyApplyDispatch :=
  match parse_progress_unit value with
  | None => mret dispatch
  | Some u =>
      _ ← on_sender sender (λ service, update_progress_unit service u);
      mret (applied (NaProgressUnit value) dispatch)
  end.

Definition apply_stopping (sender : AuthenticatedNotifySender) (dispatch : NotifyApplyDispatch)
    : Notify NotifyApplyDispatch :=
  _ ← on_sender sender acknowledge_stopping;
  mret (applied NaStopping dispatch).

Definition record_advisory_field (field : NotifyField) (dispatch : NotifyApplyDispatch) : NotifyApplyDispatch :=
  match field with
  | NfLevel value => applied (NaLevel value) dispatch
  | NfErrno value => applied (NaErrno value) dispatch
  | NfExitStatus value => applied (NaExitStatus value) dispatch
  | NfWatchdog => applied NaWatchdog dispatch
  | NfWatchdogUsec value => applied (NaWatchdogUsec value) dispatch
  | NfExtendTimeoutUsec value => applied (NaExtendTimeoutUsec value) dispatch
  | NfFdStore => applied NaFdStore dispatch
  | NfFdName name => applied (NaFdName name) dispatch
  | NfFdStoreRemove => applied NaFdStoreRemove dispatch
  | NfFdPoll value => applied (NaFdPoll value) dispatch
  | NfReady | NfReloading | NfStopping | NfStatus _ | NfProgress _ | NfProgressUnit _ => dispatch
  end.

Definition apply_notify_field (sender : AuthenticatedNotifySender) (observed_at_ns : Z) (field : NotifyField)
    (dispatch : NotifyApplyDispatch) : Notify NotifyApplyDispatch :=
  match field with
  | NfReady => apply_ready sender observed_at_ns dispatch
  | NfReloading => apply_reloading sender observed_at_ns dispatch
  | NfStatus text => apply_status sender text dispatch
  | NfStopping => apply_stopping sender dispatch
  | NfProgress value => apply_progress sender value dispatch
  | NfProgressUnit value => apply_progress_unit sender value dispatch
  | other => mret (record_advisory_field other dispatch)
  end.

(** ** Messages ([dispatch.rs]) *)

Fixpoint apply_notify_fields (sender : AuthenticatedNotifySender) (observed_at_ns : Z) (fields : list NotifyField)
    (dispatch : NotifyApplyDispatch) : Notify NotifyApplyDispatch :=
  match fields with
  | [] => mret dispatch
  | field :: fields =>
      dispatch ← apply_notify_field sender observed_at_ns field dispatch;
      apply_notify_fields sender observed_at_ns fields dispatch
  end.

Definition level_of (field : NotifyField) : option string :=
  match field with NfLevel value => Some value | _ => None end.

(** All the levels of a message are installed before its fields are applied. *)
Definition install_levels (sender : AuthenticatedNotifySender) (message : NotifyMessage) : Notify unit :=
  if existsb (λ field, bool_decide (is_Some (level_of field))) message.(nm_fields) then
    _ ← on_sender sender (λ service, update_levels service (omap level_of message.(nm_fields)));
    mret tt
  else mret tt.

Definition changes_progress (field : NotifyAppliedField) : bool :=
  match field with NaProgress _ | NaProgressUnit _ => true | _ => false end.

Record NotifyApplyRequest : Type := { nar_sender_pid : Z; nar_observed_at_ns : Z }.

Definition empty_dispatch (sender : AuthenticatedNotifySender) : NotifyApplyDispatch :=
  {| nad_sender := sender; nad_applied_fields := []; nad_operation_events := []; nad_service_transitions := [];
     nad_graph_events := []; nad_post_start_hook := None; nad_progress_event := None |}.

Definition apply_notify_message (request : NotifyApplyRequest) (message : NotifyMessage)
    : Notify NotifyApplyDispatch :=
  sender ← in_exec id (authenticate_notify_sender request.(nar_sender_pid));
  control_atomic (
    _ ← install_levels sender message;
    dispatch ← apply_notify_fields sender request.(nar_observed_at_ns) message.(nm_fields) (empty_dispatch sender);
    if existsb changes_progress dispatch.(nad_applied_fields) then
      event ← on_sender sender (λ service, take_progress_event service request.(nar_observed_at_ns));
      mret {| dispatch with nad_progress_event := event |}
    else mret dispatch).
End Notify.

Arguments NotifyApplyError : clear implicits.
