(* ===== verification/ControlInv.v ===== *)
(** * Properties of control operations and notify messages

    About [ControlRun] and [NotifyRun]: every step answers, keeps the stores
    well formed, and does all of its work or none of it; what a stop does, who
    may send a message, and what the notify protocol promises of a reload. *)

From S2P Require Import Prelude RustStr ServiceRuntime ServiceDef Ids Restart Cgroup ServiceTable ServiceTableInv.
From S2P Require Import OperationRecord OperationStore OperationInv ExecCommand ExecGraph ExecGraphInv.
From S2P Require Import JobRecord JobStore Effects StartState StartBegin StartRun StartInv.
From S2P Require Import ControlRun Notify SubmittedDef NotifyRun.
From Stdlib Require Import String.
Open Scope string_scope.
Open Scope list_scope.
Open Scope Z_scope.

(** ** The control store *)

Record control_store_wf (st : ControlExecutionStore) : Prop := {
  csw_stop : ∀ op d, st.(ces_stop_timeouts) !! op = Some d → d.(sto_operation_id) = op;
  csw_detection : ∀ op d, st.(ces_detections) !! op = Some d → d.(rdd_operation_id) = op;
  csw_command : ∀ op d, st.(ces_commands) !! op = Some d → d.(rcd_operation_id) = op;
  csw_ready : ∀ op, op ∈ st.(ces_command_ready) → is_Some (st.(ces_commands) !! op);
}.

Lemma control_store_new_wf : control_store_wf control_store_new.
Proof. split; simpl; [intros op d H; by rewrite lookup_empty in H..|]. intros op H. set_solver. Qed.

Ltac control_fields := split; simpl; [try eassumption..]; intros; lookups; eauto.

Section ControlStore.
Context (st : ControlExecutionStore) (Hst : control_store_wf st).

Lemma record_stop_timeout_wf d : control_store_wf (record_stop_timeout d st).
Proof using Hst. destruct Hst. control_fields. Qed.

Lemma remove_stop_timeout_wf op : control_store_wf (remove_stop_timeout op st).1.
Proof using Hst. destruct Hst. control_fields. Qed.

Lemma record_restart_leg_wf op service : control_store_wf (record_restart_stop_leg op service st).
Proof using Hst. destruct Hst. control_fields. Qed.

Lemma take_restart_leg_wf op : control_store_wf (take_restart_stop_leg op st).1.
Proof using Hst. destruct Hst. control_fields. Qed.

Lemma record_detection_wf d : control_store_wf (record_reload_detection_deadline d st).
Proof using Hst. destruct Hst. control_fields. Qed.

Lemma remove_detection_wf op : control_store_wf (remove_reload_detection_deadline op st).1.
Proof using Hst. destruct Hst. control_fields. Qed.

Lemma observe_reloading_wf op due : control_store_wf (observe_reload_reloading op due st).1.
Proof using Hst.
  unfold observe_reload_reloading. destruct (ces_detections st !! op) as [d|] eqn:E; [|done].
  destruct Hst as [? Hd]. control_fields. simpl. by eapply Hd.
Qed.

Lemma record_command_wf d : control_store_wf (record_reload_command_deadline d st).
Proof using Hst.
  destruct Hst as [? ? ? Hr]. control_fields.
  destruct (decide (rcd_operation_id d = op)) as [->|Hne]; lookups; eauto.
Qed.

Lemma remove_command_wf op : control_store_wf (remove_reload_command_deadline op st).1.
Proof using Hst.
  destruct Hst as [? ? ? Hr]. control_fields. rename H into Hin.
  apply elem_of_difference in Hin as [Hin Hne]. rewrite elem_of_singleton in Hne. rewrite lookup_delete_ne; auto.
Qed.

Lemma mark_ready_wf op : has_reload_command_deadline op st = true → control_store_wf (mark_reload_command_ready op st).
Proof using Hst.
  intros Hhas%bool_decide_eq_true. destruct Hst as [? ? ? Hr]. control_fields. rename H into Hin.
  apply elem_of_set_insert in Hin as [->|]; auto.
Qed.

Lemma take_ready_wf op : control_store_wf (take_reload_command_ready op st).1.
Proof using Hst. destruct Hst as [? ? ? Hr]. control_fields. set_solver. Qed.
End ControlStore.

Lemma remove_each_wf {D} (remove : OperationId → ControlExecutionStore → ControlExecutionStore * option D) ids st :
  (∀ op st, control_store_wf st → control_store_wf (remove op st).1) →
  control_store_wf st → control_store_wf (remove_each remove ids st).1.
Proof.
  intros Hr. unfold remove_each. generalize (@nil D) as removed. revert st.
  induction ids as [|op ids IH]; intros st removed Hst; [done|]. cbn [foldl].
  specialize (Hr op st Hst) as H1. destruct (remove op st) as [st' d]. by apply IH.
Qed.

Lemma cancel_reload_wf service st : control_store_wf st → control_store_wf (cancel_reload_for_service service st).1.
Proof.
  intros Hst. unfold cancel_reload_for_service.
  pose proof (remove_each_wf remove_reload_detection_deadline (ids_of_service rdd_service service st.(ces_detections)) st
    (λ op st H, remove_detection_wf st H op) Hst) as H1.
  destruct (remove_each remove_reload_detection_deadline _ st) as [st1 detections]. simpl in H1.
  pose proof (remove_each_wf remove_reload_command_deadline (ids_of_service rcd_service service st.(ces_commands)) st1
    (λ op st H, remove_command_wf st H op) H1) as H2.
  by destruct (remove_each remove_reload_command_deadline _ st1) as [st2 commands].
Qed.

(** ** The stores together *)

Section Inv.
Context {P BoundaryError : Type} `{!ProcessController P BoundaryError}.
Notation State := (ControlState P).

Definition control_wf (s : State) : Prop := exec_wf s.(cx_exec) ∧ control_store_wf s.(cx_control).

(** A step that returns and, when it succeeds, keeps the stores well formed. *)
Definition controls {E A} (m : Exec State E A) : Prop := triple control_wf m (λ _, control_wf).

Lemma controls_ret {E A} (a : A) : controls (mret a : Exec State E A).
Proof. by apply triple_ret'. Qed.

Lemma controls_fail {E A} (e : E) : controls (exec_fail e : Exec State E A).
Proof. apply triple_fail. Qed.

Lemma controls_get {E A} (f : State → A) : controls (exec_get f : Exec State E A).
Proof. eapply triple_conseq; [apply triple_get|done|]. by intros a s [? _]. Qed.

Lemma controls_lift {E A} (r : Result A E) : controls (exec_lift r : Exec State E A).
Proof. eapply triple_conseq; [apply triple_lift|done|]. by intros a s [? _]. Qed.

Lemma controls_bind {E A B} (m : Exec State E A) (k : A → Exec State E B) :
  controls m → (∀ a, controls (k a)) → controls (m ≫= k).
Proof. intros Hm Hk. by eapply triple_bind. Qed.

(** What a read or a lift found is known afterwards. *)
Lemma controls_lift_bind {E A B} (r : Result A E) (k : A → Exec State E B) :
  (∀ a, r = Ok a → controls (k a)) → controls (exec_lift r ≫= k).
Proof. intros Hk. destruct r as [a|e]; [by apply Hk|]. intros s Hs. eexists _, _. by split. Qed.

Lemma controls_in_exec {E F A} (wrap : F → E) (m : Step P F A) :
  triple exec_wf m (λ _, exec_wf) → controls (in_exec wrap m).
Proof.
  intros Hm s [Hs Hc]. destruct (Hm _ Hs) as (x & r & Em & H). unfold in_exec, exec_within. rewrite Em.
  eexists _, _. split; [done|]. intros a Ha. destruct r as [a'|e]; [|done]. split; [by apply (H a')|done].
Qed.

Lemma controls_quiet {E F A} (wrap : F → E) (m : Step P F A) : quiet m → controls (in_exec wrap m).
Proof. intros Hm. apply controls_in_exec. by apply (quiet_holds start_wf). Qed.

Lemma controls_on {E} f : (∀ st, control_store_wf st → control_store_wf (f st)) →
  controls (on_control f : Exec State E unit).
Proof. intros Hf s [Hs Hc]. eexists _, _. split; [done|]. intros [] _. by split; [|apply Hf]. Qed.

Lemma controls_on_with {E A} (f : ControlExecutionStore → ControlExecutionStore * A) :
  (∀ st, control_store_wf st → control_store_wf (f st).1) → controls (on_control_with f : Exec State E A).
Proof.
  intros Hf s [Hs Hc]. unfold on_control_with, exec_on. specialize (Hf _ Hc). destruct (f (cx_control s)) as [st a].
  eexists _, _. split; [done|]. intros ? _. by split.
Qed.

Lemma controls_serves {E A} (m : Exec State E A) : serves control_wf m → controls m.
Proof. apply triple_serves. Qed.

Lemma restore_wf now before : control_wf before → control_wf (control_restore now before).
Proof. intros [[[? ? ? ?] ?] ?]. split; [by split; [split|]|done]. Qed.

Lemma serves_control_atomic {E A} (m : Exec State E A) : controls m → serves control_wf (control_atomic m).
Proof. intros Hm. apply serves_atomic_triple; [exact Hm|]. intros now before. apply restore_wf. Qed.

Lemma quiet_signal target signal : quiet (send_signal target signal : Step P (ControlExecutionError BoundaryError) unit).
Proof. apply quiet_on; [|done]. intros s [? ? ? ?]. by split. Qed.

Lemma quiet_operation_record op :
  quiet (operation_record op : Step P (ControlExecutionError BoundaryError) OperationRecord).
Proof. apply quiet_require. Qed.

Lemma quiet_stopping_timeout {E} (wrap : ServiceTableError → E) service evidence :
  quiet (on_services wrap (record_stopping_timeout service evidence) : Step P E unit).
Proof. apply quiet_table_step. intros t. apply step_stopping_timeout. Qed.

Create HintDb controls discriminated.
#[local] Hint Resolve quiet_transition quiet_start_operation quiet_complete quiet_fail_operation quiet_fail_running
  quiet_fail_before quiet_kill quiet_signal quiet_operation_record quiet_stopping_timeout quiet_job_id
  quiet_require quiet_ret quiet_get quiet_lift quiet_fail : controls.
#[local] Hint Resolve record_stop_timeout_wf remove_stop_timeout_wf record_restart_leg_wf take_restart_leg_wf
  record_detection_wf remove_detection_wf observe_reloading_wf record_command_wf remove_command_wf take_ready_wf
  cancel_reload_wf : controls.

Ltac quiet_go := repeat first
  [ solve [eauto 2 with controls nocore]
  | apply quiet_bind; [|intros ?]
  | match goal with |- quiet (match ?x with _ => _ end) => destruct x end
  | apply quiet_each; intros ?
  | progress cbv zeta ].

Ltac control_step :=
  match goal with
  | |- controls (mret _) => apply controls_ret
  | |- controls (exec_fail _) => apply controls_fail
  | |- controls (exec_get _) => apply controls_get
  | |- controls (exec_lift _) => apply controls_lift
  | |- controls (in_exec _ _) => apply controls_quiet; solve [quiet_go]
  | |- controls (on_control _) => apply controls_on; intros; eauto 2 with controls nocore
  | |- controls (on_control_with _) => apply controls_on_with; intros; eauto 2 with controls nocore
  | |- controls (exec_lift _ ≫= _) => apply controls_lift_bind; intros ? ?
  | |- controls (_ ≫= _) => apply controls_bind; [|intros ?]
  | |- controls (match ?x with _ => _ end) => destruct x
  | |- controls (let _ := _ in _) => cbv zeta
  end.
Ltac control_go := repeat control_step.

(** *** Control operations *)

Lemma begin_stop_like_serves request type target definition :
  serves control_wf (begin_stop_like_operation request type target definition :
    Exec State (ControlExecutionError BoundaryError) _).
Proof.
  apply serves_control_atomic. unfold adopt_stop, cancel_reload, begin_control_stop, cancel_reload_command,
    cancel_reload_command_job. control_go.
Qed.

Lemma reload_hook_fresh id spec job : new_reload_hook id spec = Ok job → job_fresh job.
Proof. apply hook_job_fresh. Qed.

Lemma begin_signal_reload_serves request target signal :
  serves control_wf (begin_signal_reload request target signal : Exec State (ControlExecutionError BoundaryError) _).
Proof. apply serves_control_atomic. control_go. Qed.

Lemma map_err_Ok {A E F} (f : E → F) (r : Result A E) a : map_err f r = Ok a → r = Ok a.
Proof. by destruct r; simpl; intros; simplify_eq. Qed.

Lemma begin_command_reload_serves request target definition argv :
  serves control_wf (begin_command_reload request target definition argv :
    Exec State (ControlExecutionError BoundaryError) _).
Proof.
  apply serves_control_atomic. control_go.
  apply controls_quiet. apply quiet_create_job. eapply reload_hook_fresh, map_err_Ok. eassumption.
Qed.

Lemma escalate_serves deadline now_ns :
  serves control_wf (escalate_due_stop deadline now_ns : Exec State (ControlExecutionError BoundaryError) _).
Proof. apply serves_control_atomic. control_go. Qed.

Lemma detection_serves deadline now_ns :
  serves control_wf (complete_reload_detection_window deadline now_ns :
    Exec State (ControlExecutionError BoundaryError) _).
Proof. apply serves_control_atomic. unfold transition_reloaded_active. control_go. Qed.

Lemma command_job_serves job_event :
  serves control_wf (complete_reload_command_job job_event : Exec State (ControlExecutionError BoundaryError) _).
Proof.
  unfold complete_reload_command_job. do 3 (apply serves_bind; [apply serves_lift|intros ?]).
  apply serves_control_atomic. unfold transition_reloaded_active. control_go.
Qed.

Lemma command_timeout_serves deadline now_ns :
  serves control_wf (timeout_reload_command deadline now_ns : Exec State (ControlExecutionError BoundaryError) _).
Proof. apply serves_control_atomic. unfold transition_reloaded_active. control_go. Qed.

Lemma serves_in_exec {E F A} (wrap : F → E) (m : Step P F A) : serves exec_wf m → serves control_wf (in_exec wrap m).
Proof.
  intros Hm s [Hs Hc]. destruct (Hm _ Hs) as (x & r & Em & H). unfold in_exec, exec_within. rewrite Em.
  eexists _, _. split; [done|]. by split.
Qed.

Lemma begin_control_serves request :
  serves control_wf (begin_control_operation request : Exec State (ControlExecutionError BoundaryError) _).
Proof.
  unfold begin_control_operation, operation_record. apply serves_bind; [apply serves_in_exec, serves_require|].
  intros operation. apply serves_bind; [apply serves_get|]. intros target. apply serves_bind; [apply serves_lift|].
  intros t. apply serves_bind; [apply serves_in_exec, serves_require|]. intros definition.
  unfold begin_reload_operation. destruct (or_operation_type operation);
    try (by apply begin_stop_like_serves); try apply serves_fail.
  apply serves_bind; [apply serves_lift|]. intros [signal|argv];
    [apply begin_signal_reload_serves|apply begin_command_reload_serves].
Qed.

(** *** Notify messages *)

Lemma quiet_matches job_id pidfd pid : quiet (matches_pid job_id pidfd pid : Step P (NotifyApplyError BoundaryError) bool).
Proof. apply quiet_on; [|done]. intros s [? ? ? ?]. by split. Qed.

Lemma serves_matches job_id pidfd pid :
  serves exec_wf (matches_pid job_id pidfd pid : Step P (NotifyApplyError BoundaryError) bool).
Proof. apply serves_on. intros s [[? ? ? ?] ?]. by split; [split|]. Qed.

Lemma authenticate_serves pid :
  serves exec_wf (authenticate_notify_sender pid : Step P (NotifyApplyError BoundaryError) _).
Proof.
  unfold authenticate_notify_sender. apply serves_bind; [apply serves_get|]. intros services.
  induction services as [|service services IH]; cbn [authenticate_among]; [apply serves_fail|].
  apply serves_bind; [apply serves_get|]. intros [job_id|]; [|exact IH].
  apply serves_bind; [apply serves_require|]. intros job.
  case_bool_decide; [exact IH|]. unfold authenticate_main_job. case_bool_decide; [apply serves_fail|].
  destruct (jr_pidfd job); [|apply serves_fail]. apply serves_bind; [apply serves_matches|].
  intros [|]; [|apply serves_fail]. apply serves_bind; [apply serves_require|]. intros runtime.
  simpl. case_bool_decide; [apply serves_fail|apply serves_ret].
Qed.

Lemma controls_on_sender {A} sender (f : string → gmap string ServiceEntry → TableResult A) :
  (∀ t, table_step t (f sender.(ns_service) t).1) →
  controls (on_sender sender f : Exec State (NotifyApplyError BoundaryError) A).
Proof. intros Hf. apply controls_quiet, quiet_table_step. exact Hf. Qed.

Lemma controls_get_bind {E A B} (f : State → A) (k : A → Exec State E B) :
  (∀ a, triple (λ s, control_wf s ∧ a = f s) (k a) (λ _, control_wf)) → controls (exec_get f ≫= k).
Proof. intros Hk. eapply triple_bind; [apply triple_get|exact Hk]. Qed.

Lemma controls_triple {E A} (Pre : State → Prop) (m : Exec State E A) :
  controls m → (∀ s, Pre s → control_wf s) → triple Pre m (λ _, control_wf).
Proof. intros Hm HP. by eapply triple_conseq. Qed.

Lemma mark_ready_controls {E} op :
  triple (λ s, control_wf s ∧ true = has_reload_command_deadline op s.(cx_control))
    (on_control (mark_reload_command_ready op) : Exec State E unit) (λ _, control_wf).
Proof.
  intros s [[Hs Hc] Hhas]. eexists _, _. split; [done|]. intros [] _. split; [done|]. by apply mark_ready_wf.
Qed.

Lemma start_ready_controls sender at_ns dispatch :
  controls (apply_start_ready sender at_ns dispatch : Exec State (NotifyApplyError BoundaryError) _).
Proof.
  unfold apply_start_ready. control_step; [control_go|]. destruct (negb _); [control_go|].
  control_step. control_step; [apply controls_serves, serves_in_exec, complete_start_readiness_serves|].
  control_step; [|control_go]. apply controls_in_exec. intros s [Hs Hst]. eexists _, _. split; [done|].
  intros ? _. split; [by destruct Hs; split|by apply remove_readiness_wf].
Qed.

Lemma reload_ready_controls sender at_ns dispatch :
  controls (apply_reload_ready sender at_ns dispatch : Exec State (NotifyApplyError BoundaryError) _).
Proof.
  unfold apply_reload_ready, current_reload. control_step; [control_go|]. cbv zeta.
  apply controls_get_bind. intros [|].
  - eapply triple_bind; [apply mark_ready_controls|]. intros []. apply controls_ret.
  - apply controls_triple; [control_go|by intros s [? _]].
Qed.

Lemma notify_field_controls sender at_ns field dispatch :
  controls (apply_notify_field sender at_ns field dispatch : Exec State (NotifyApplyError BoundaryError) _).
Proof.
  destruct field; cbn [apply_notify_field]; try apply controls_ret.
  - unfold apply_ready, notify_service_state. control_step; [control_go|].
    control_step; [|control_go]. case_match; try apply controls_ret;
      [apply start_ready_controls|apply reload_ready_controls].
  - unfold apply_reloading, notify_service_state, current_reload. control_go.
  - unfold apply_stopping. control_step; [apply controls_on_sender; constructor|control_go].
  - unfold apply_status. control_step; [apply controls_on_sender; constructor|control_go].
  - unfold apply_progress. case_match; [|control_go].
    control_step; [apply controls_on_sender; constructor|control_go].
  - unfold apply_progress_unit. case_match; [|control_go].
    control_step; [apply controls_on_sender; constructor|control_go].
Qed.

Lemma notify_fields_controls sender at_ns fields dispatch :
  controls (apply_notify_fields sender at_ns fields dispatch : Exec State (NotifyApplyError BoundaryError) _).
Proof.
  revert dispatch. induction fields as [|field fields IH]; intros dispatch; cbn [apply_notify_fields];
    [apply controls_ret|]. apply controls_bind; [apply notify_field_controls|apply IH].
Qed.

Lemma notify_message_serves request message :
  serves control_wf (apply_notify_message request message : Exec State (NotifyApplyError BoundaryError) _).
Proof.
  unfold apply_notify_message. apply serves_bind; [apply serves_in_exec, authenticate_serves|]. intros sender.
  apply serves_control_atomic. unfold install_levels. control_step.
  - destruct (existsb _ _); [|control_go]. control_step; [apply controls_on_sender; constructor|control_go].
  - control_step; [apply notify_fields_controls|]. destruct (existsb _ _); [|control_go].
    control_step; [apply controls_on_sender; constructor|control_go].
Qed.

(** ** Events in any order

    What the supervisor hands to a control step, in whatever order, together
    with everything that happens to starts. *)
Inductive ControlEvent : Type :=
| CvStart (event : StartEvent)
| CvBegin (request : ControlOperationRequest)
| CvEscalate (deadline : StopTimeoutDeadline) (now_ns : Z)
| CvWindowClosed (deadline : ReloadDetectionDeadline) (now_ns : Z)
| CvCommandEnded (job_event : JobEvent)
| CvCommandTimeout (deadline : ReloadCommandDeadline) (now_ns : Z)
| CvNotify (request : NotifyApplyRequest) (message : NotifyMessage).

Inductive ControlEventError : Type :=
| FailedStartEvent (error : StartEventError (BoundaryError := BoundaryError))
| FailedControl (error : ControlExecutionError BoundaryError)
| FailedNotify (error : NotifyApplyError BoundaryError).

Definition control_answer {E A} (wrap : E → ControlEventError) (m : Exec State E A) : Exec State ControlEventError unit :=
  _ ← exec_map_err wrap m; mret tt.

Definition handle_control_event (event : ControlEvent) : Exec State ControlEventError unit :=
  match event with
  | CvStart event => in_exec FailedStartEvent (handle_start_event event)
  | CvBegin request => control_answer FailedControl (begin_control_operation request)
  | CvEscalate deadline now_ns => control_answer FailedControl (escalate_due_stop deadline now_ns)
  | CvWindowClosed deadline now_ns => control_answer FailedControl (complete_reload_detection_window deadline now_ns)
  | CvCommandEnded job_event => control_answer FailedControl (complete_reload_command_job job_event)
  | CvCommandTimeout deadline now_ns => control_answer FailedControl (timeout_reload_command deadline now_ns)
  | CvNotify request message => control_answer FailedNotify (apply_notify_message request message)
  end.

Fixpoint handle_control_events (events : list ControlEvent) (s : State) : option State :=
  match events with
  | [] => Some s
  | event :: events =>
      match handle_control_event event s with
      | Some (s, _) => handle_control_events events s
      | None => None
      end
  end.

Lemma serves_control_answer {E A} (wrap : E → ControlEventError) (m : Exec State E A) :
  serves control_wf m → serves control_wf (control_answer wrap m).
Proof. intros Hm. apply serves_bind; [by apply serves_map_err|]. intros. apply serves_ret. Qed.

Lemma handle_control_serves event : serves control_wf (handle_control_event event).
Proof.
  destruct event; cbn [handle_control_event]; try apply serves_control_answer.
  - apply serves_in_exec, handle_serves.
  - apply begin_control_serves.
  - apply escalate_serves.
  - apply detection_serves.
  - apply command_job_serves.
  - apply command_timeout_serves.
  - apply notify_message_serves.
Qed.

(** *** All or nothing *)

Notation undoes_control := (undone (control_restore (P := P))).

Lemma control_restore_same (s : State) : control_restore s s = s.
Proof. by destruct s as [[] ?]. Qed.

Lemma control_restore_trans (a b c : State) : control_restore a (control_restore b c) = control_restore a c.
Proof. done. Qed.

Lemma undoes_control_atomic {E A} (m : Exec State E A) : undoes_control (control_atomic m).
Proof. by apply undone_atomic. Qed.

Lemma reads_in_exec {E F A} (wrap : F → E) (m : Step P F A) : reads m → reads (in_exec wrap m).
Proof.
  intros Hm s s' r. unfold in_exec, exec_within. destruct (m (cx_exec s)) as [[x r']|] eqn:Em; [|done].
  apply Hm in Em as ->. intros [= <- _]. by destruct s.
Qed.

Lemma passes_in_exec {E F A} (wrap : F → E) (m : Step P F A) :
  passes restore m → passes control_restore (in_exec wrap m).
Proof.
  intros Hm s s' r. unfold in_exec, exec_within. destruct (m (cx_exec s)) as [[x r']|] eqn:Em; [|done].
  intros [= <- _]. unfold control_restore, set_cx_exec. simpl. by rewrite <- (Hm _ _ _ Em).
Qed.

Lemma undone_in_exec {E F A} (wrap : F → E) (m : Step P F A) :
  undone restore m → undoes_control (in_exec wrap m).
Proof.
  intros Hm s s' e. unfold in_exec, exec_within. destruct (m (cx_exec s)) as [[x [a|f]]|] eqn:Em; [done| |done].
  intros [= <- _]. unfold control_restore, set_cx_exec. simpl. by rewrite <- (Hm _ _ _ Em).
Qed.

Lemma passes_authenticate_among pid services :
  passes restore (authenticate_among pid services : Step P (NotifyApplyError BoundaryError) _).
Proof.
  assert (∀ s : ExecState P, restore s s = s) as Hs by (by intros []).
  assert (∀ a b c : ExecState P, restore a (restore b c) = restore a c) as Ht by done.
  induction services as [|service services IH]; cbn [authenticate_among]; [apply passes_reads, reads_fail; done|].
  apply passes_bind; [done|apply passes_reads, reads_get; done|]. intros [job_id|]; [|exact IH].
  apply passes_bind; [done|apply passes_reads, reads_require; done|]. intros job.
  case_bool_decide; [exact IH|]. unfold authenticate_main_job.
  case_bool_decide; [apply passes_reads, reads_fail; done|].
  destruct (jr_pidfd job); [|apply passes_reads, reads_fail; done].
  apply passes_bind; [done| |].
  { intros s s' r. unfold matches_pid, exec_on. destruct (pidfd_matches_pid _ _ _). by intros [= <- _]. }
  intros [|]; cbn [negb]; [|apply passes_reads, reads_fail; done].
  apply passes_bind; [done|apply passes_reads, reads_require; done|]. intros runtime.
  case_bool_decide; [apply passes_reads, reads_fail|apply passes_reads, reads_ret]; done.
Qed.

Lemma passes_authenticate pid :
  passes restore (authenticate_notify_sender pid : Step P (NotifyApplyError BoundaryError) _).
Proof.
  apply passes_bind; [done|apply passes_reads, reads_get; by intros []|]. apply passes_authenticate_among.
Qed.

Ltac undo_control := repeat
  match goal with
  | |- undoes_control (control_atomic _) => apply undoes_control_atomic
  | |- undoes_control (exec_fail _) => apply undone_reads; [exact control_restore_same|apply reads_fail]
  | |- undoes_control (exec_get _ ≫= _) =>
      apply undone_bind_reads; [exact control_restore_same|apply reads_get|intros ?]
  | |- undoes_control (exec_lift _ ≫= _) =>
      apply undone_bind_reads; [exact control_restore_same|apply reads_lift|intros ?]
  | |- undoes_control (in_exec _ (require _ _) ≫= _) =>
      apply undone_bind_reads; [exact control_restore_same|apply reads_in_exec, reads_require|intros ?]
  | |- undoes_control (match ?x with _ => _ end) => destruct x
  end.

Lemma handle_control_undoes event : undoes_control (handle_control_event event).
Proof.
  destruct event; cbn [handle_control_event];
    try (apply undone_bind_last; [apply undone_map_err|intros ?; apply never_fails_ret]).
  - apply undone_in_exec, handle_undoes.
  - unfold begin_control_operation, operation_record, begin_reload_operation. undo_control; apply undoes_control_atomic.
  - apply undoes_control_atomic.
  - apply undoes_control_atomic.
  - unfold complete_reload_command_job. undo_control.
  - apply undoes_control_atomic.
  - apply undone_bind_passes; [done|apply passes_in_exec, passes_authenticate|]. intros sender.
    apply undoes_control_atomic.
Qed.

(** Whatever happens to control operations, and in whatever order with what
    happens to starts - a stop, a restart or a reload that begins, a stop that
    is escalated, a reload window that closes, a reload command that ends or
    times out, a notify message with any fields from any process - every event
    is answered, and the stores stay well formed: each deadline is filed under
    its own operation, and a reload command marked ready is one that is still
    awaited. *)
Theorem control_events_keep_stores events s :
  control_wf s → ∃ s', handle_control_events events s = Some s' ∧ control_wf s'.
Proof.
  revert s. induction events as [|event events IH]; intros s Hs; simpl; [by exists s|].
  destruct (handle_control_serves event s Hs) as (s1 & r & -> & H1). by apply IH.
Qed.

(** A control operation or a notify message does all of its work or none:
    when it is refused - whichever field of the message is at fault - every
    store is exactly as it was, and only what the kernel was told stays told. *)
Theorem control_event_all_or_nothing event s s' e :
  handle_control_event event s = Some (s', Err e) →
  s'.(cx_control) = s.(cx_control) ∧ s'.(cx_exec).(xs_services) = s.(cx_exec).(xs_services) ∧
  s'.(cx_exec).(xs_operations) = s.(cx_exec).(xs_operations) ∧ s'.(cx_exec).(xs_graph) = s.(cx_exec).(xs_graph) ∧
  s'.(cx_exec).(xs_jobs) = s.(cx_exec).(xs_jobs) ∧ s'.(cx_exec).(xs_job_ids) = s.(cx_exec).(xs_job_ids) ∧
  s'.(cx_exec).(xs_start) = s.(cx_exec).(xs_start).
Proof. intros E%handle_control_undoes. rewrite E. done. Qed.

(** ** Who may speak for a service *)

(** The current main job of [service], running as [pid] in the service's
    current activation, whose pidfd the kernel says is of [pid]. *)
Definition speaks_for (s : ExecState P) (pid : Z) (sender : AuthenticatedNotifySender) : Prop :=
  ∃ job runtime pidfd controller,
    sender.(ns_service) ∈ service_names s.(xs_services) ∧
    current_service_main_job s.(xs_jobs) sender.(ns_service) = Some sender.(ns_job_id) ∧
    s.(xs_jobs).(js_records) !! sender.(ns_job_id) = Some job ∧
    job.(jr_state) = JsRunning ∧ job.(jr_pid) = Some pid ∧ job.(jr_pidfd) = Some pidfd ∧
    pidfd_matches_pid pidfd pid s.(xs_controller) = (controller, Ok true) ∧
    table_runtime s.(xs_services) sender.(ns_service) = Some runtime ∧
    runtime.(rt_generation) = job.(jr_activation_generation) ∧
    sender.(ns_operation_id) = job.(jr_operation_id) ∧ sender.(ns_generation) = job.(jr_activation_generation).

Lemma require_Ok {E A} (e : E) (f : ExecState P → option A) s s' a :
  require e f s = Some (s', Ok a) → s' = s ∧ f s = Some a.
Proof. unfold require, mbind, exec_bind, exec_get, exec_lift. destruct (f s); by intros [=]; subst. Qed.

Lemma authenticate_among_speaks pid services s s' sender :
  (authenticate_among pid services : Step P (NotifyApplyError BoundaryError) _) s = Some (s', Ok sender) →
  services ⊆ service_names s.(xs_services) → speaks_for s pid sender.
Proof.
  induction services as [|service services IH]; cbn [authenticate_among]; [done|]. intros E Hsub.
  apply exec_bind_Ok in E as (s1 & current & [= <- <-] & E).
  destruct (current_service_main_job (xs_jobs s) service) as [job_id|] eqn:Hcurrent; [|by apply IH; [|set_solver]].
  apply exec_bind_Ok in E as (s1 & job & [-> Hjob]%require_Ok & E).
  case_bool_decide as Hpid; [by apply IH; [|set_solver]|].
  unfold authenticate_main_job in E. case_bool_decide as Hst; [done|].
  destruct (jr_pidfd job) as [pidfd|] eqn:Hfd; [|done].
  apply exec_bind_Ok in E as (s1 & matching & Hm & E). destruct matching; [|done]. cbn [negb] in E.
  unfold matches_pid, exec_on in Hm. destruct (pidfd_matches_pid pidfd pid (xs_controller s)) as [c r] eqn:Hk.
  destruct r as [b|e]; [|done]. injection Hm as <- ->.
  apply exec_bind_Ok in E as (s2 & runtime & [-> Hrt]%require_Ok & E).
  case_bool_decide as Hg; [done|]. injection E as <- <-.
  exists job, runtime, pidfd, c. simpl. split_and!; try done. apply Hsub. set_solver.
Qed.

(** What a step that succeeds returns. *)
Definition yields {E A} (Q : A → Prop) (m : Exec State E A) : Prop := ∀ s s' a, m s = Some (s', Ok a) → Q a.

Lemma yields_ret {E A} (Q : A → Prop) (a : A) : Q a → yields Q (mret a : Exec State E A).
Proof. by intros H s s' a' [= _ <-]. Qed.

Lemma yields_fail {E A} (Q : A → Prop) (e : E) : yields Q (exec_fail e : Exec State E A).
Proof. by intros s s' a'. Qed.

Lemma yields_bind {E A B} (R : A → Prop) (Q : B → Prop) (m : Exec State E A) (k : A → Exec State E B) :
  yields R m → (∀ a, R a → yields Q (k a)) → yields Q (m ≫= k).
Proof. intros Hm Hk s s' b (s1 & a & E1 & E2)%exec_bind_Ok. by eapply Hk; [eapply Hm|]. Qed.

Lemma yields_any {E A} (m : Exec State E A) : yields (λ _, True) m.
Proof. done. Qed.

Lemma yields_atomic {E A} (Q : A → Prop) (m : Exec State E A) : yields Q m → yields Q (control_atomic m).
Proof.
  intros Hm s s' a. unfold control_atomic, exec_atomic. destruct (m s) as [[s1 [a'|e]]|] eqn:Em; [|done..].
  intros [= _ <-]. by eapply Hm.
Qed.

Ltac yield_step :=
  match goal with
  | |- yields _ (mret _) => apply yields_ret; try done
  | |- yields _ (exec_fail _) => apply yields_fail
  | |- yields _ (match ?x with _ => _ end) => destruct x
  | |- yields _ (_ ≫= _) => eapply yields_bind; [apply yields_any|intros ? _]
  end.

Lemma notify_field_sender sender sender' at_ns field dispatch :
  dispatch.(nad_sender) = sender' →
  yields (λ d, d.(nad_sender) = sender')
    (apply_notify_field sender at_ns field dispatch : Exec State (NotifyApplyError BoundaryError) _).
Proof.
  intros Hd. destruct field; cbn [apply_notify_field]; try by apply yields_ret.
  - unfold apply_ready. yield_step.
    apply (yields_bind (λ d : NotifyApplyDispatch, d.(nad_sender) = sender')); [|by intros d ?; yield_step].
    unfold apply_start_ready, apply_reload_ready. repeat yield_step.
  - unfold apply_reloading. repeat yield_step.
  - unfold apply_stopping. repeat yield_step.
  - unfold apply_status. repeat yield_step.
  - unfold apply_progress. repeat yield_step.
  - unfold apply_progress_unit. repeat yield_step.
Qed.

Lemma notify_fields_sender sender sender' at_ns fields dispatch :
  dispatch.(nad_sender) = sender' →
  yields (λ d, d.(nad_sender) = sender')
    (apply_notify_fields sender at_ns fields dispatch : Exec State (NotifyApplyError BoundaryError) _).
Proof.
  revert dispatch. induction fields as [|field fields IH]; intros dispatch Hd; cbn [apply_notify_fields];
    [by apply yields_ret|]. eapply yields_bind; [by apply notify_field_sender|]. by apply IH.
Qed.

(** C32: A notify message is only ever applied for a service whose current main
    process sent it: the sender's pid is that of the running main job of that
    service, the kernel confirms that the job's pidfd is still that process, and
    the job is of the service's current activation - a process of an earlier
    activation, a hook or a stranger cannot speak for it - and the message is
    recorded against that service and job. *)
Theorem notify_needs_main_process request message s s' dispatch :
  (apply_notify_message request message : Exec State (NotifyApplyError BoundaryError) _) s = Some (s', Ok dispatch) →
  speaks_for s.(cx_exec) request.(nar_sender_pid) dispatch.(nad_sender).
Proof.
  intros (s1 & sender & E1 & E2)%exec_bind_Ok.
  assert (dispatch.(nad_sender) = sender) as ->.
  { revert s1 s' dispatch E1 E2. intros s1 s' dispatch _. revert s1 s' dispatch. apply yields_atomic.
    yield_step. eapply yields_bind; [by apply (notify_fields_sender sender sender)|]. intros d Hd.
    by repeat yield_step. }
  unfold in_exec, exec_within in E1.
  destruct (authenticate_notify_sender _ _) as [[x [a|e]]|] eqn:Ea; [|done..]. injection E1 as <- <-.
  apply exec_bind_Ok in Ea as (s2 & services & [= <- <-] & Ea).
  by apply (authenticate_among_speaks _ _ _ _ _ Ea).
Qed.

End Inv.
