(* ===== verification/ControlSpec.v ===== *)
(** * What control operations do

    About [ControlRun] and [NotifyRun]: what a stop that begins leaves behind,
    how it ends a reload it interrupts and takes over a stop in flight, and
    where a reload does not do what it is there for. *)

From S2P Require Import Prelude RustStr ServiceRuntime ServiceDef Ids Restart Cgroup ServiceTable ServiceReload ServiceTableInv.
From S2P Require Import OperationRecord OperationStore OperationInv ExecCommand ExecGraph ExecGraphInv.
From S2P Require Import JobRecord JobStore Effects StartState StartBegin StartRun StartInv StartSpec.
From S2P Require Import ControlRun Notify SubmittedDef NotifyRun ControlInv.
From Stdlib Require Import String.
Open Scope string_scope.
Open Scope list_scope.
Open Scope Z_scope.

(** ** Cancelling a reload *)

Lemma elem_of_ids_of_service {D} (service_of : D → string) service (m : gmap OperationId D) op :
  op ∈ ids_of_service service_of service m ↔ ∃ d, m !! op = Some d ∧ service_of d = service.
Proof.
  unfold ids_of_service. rewrite list_elem_of_fmap. split.
  - intros ([op' d] & -> & [H1 H2]%list_elem_of_filter). apply elem_of_btree_iter in H2. by exists d.
  - intros (d & Hd & Hs). exists (op, d). split; [done|]. apply list_elem_of_filter. split; [done|].
    by apply elem_of_btree_iter.
Qed.

Lemma remove_each_fst {D} (remove : OperationId → ControlExecutionStore → ControlExecutionStore * option D) ids st :
  (remove_each remove ids st).1 = foldl (λ st op, (remove op st).1) st ids.
Proof.
  unfold remove_each. generalize (@nil D) as removed. revert st. induction ids as [|op ids IH]; intros st removed; [done|].
  cbn [foldl]. destruct (remove op st) as [st1 d]. by rewrite IH.
Qed.

Definition same_stops (a b : ControlExecutionStore) : Prop :=
  a.(ces_stop_timeouts) = b.(ces_stop_timeouts) ∧ a.(ces_restart_stop_legs) = b.(ces_restart_stop_legs).

Lemma remove_detections ids st :
  let st' := (remove_each remove_reload_detection_deadline ids st).1 in
  same_stops st' st ∧ st'.(ces_commands) = st.(ces_commands) ∧
  ∀ op d, st'.(ces_detections) !! op = Some d ↔ st.(ces_detections) !! op = Some d ∧ op ∉ ids.
Proof.
  cbv zeta. rewrite remove_each_fst. revert st. induction ids as [|id ids IH]; intros st; cbn [foldl].
  { split_and!; [done|done|]. intros op d. split; [intros; split; [done|apply not_elem_of_nil]|by intros []]. }
  destruct (IH (remove_reload_detection_deadline id st).1) as ([H1 H2] & H3 & H4). split_and!; [by split|done|].
  intros op d. rewrite H4. simpl. rewrite lookup_delete_Some, not_elem_of_cons. naive_solver.
Qed.

Lemma remove_commands ids st :
  let st' := (remove_each remove_reload_command_deadline ids st).1 in
  same_stops st' st ∧ st'.(ces_detections) = st.(ces_detections) ∧
  ∀ op d, st'.(ces_commands) !! op = Some d ↔ st.(ces_commands) !! op = Some d ∧ op ∉ ids.
Proof.
  cbv zeta. rewrite remove_each_fst. revert st. induction ids as [|id ids IH]; intros st; cbn [foldl].
  { split_and!; [done|done|]. intros op d. split; [intros; split; [done|apply not_elem_of_nil]|by intros []]. }
  destruct (IH (remove_reload_command_deadline id st).1) as ([H1 H2] & H3 & H4). split_and!; [by split|done|].
  intros op d. rewrite H4. simpl. rewrite lookup_delete_Some, not_elem_of_cons. naive_solver.
Qed.

(** No reload of [service] is awaited. *)
Definition no_reload_of (service : string) (st : ControlExecutionStore) : Prop :=
  (∀ op d, st.(ces_detections) !! op = Some d → d.(rdd_service) ≠ service) ∧
  (∀ op d, st.(ces_commands) !! op = Some d → d.(rcd_service) ≠ service).

Lemma cancel_reload_effect service st :
  let st' := (cancel_reload_for_service service st).1 in same_stops st' st ∧ no_reload_of service st'.
Proof.
  unfold cancel_reload_for_service.
  pose proof (remove_detections (ids_of_service rdd_service service st.(ces_detections)) st) as H1.
  destruct (remove_each remove_reload_detection_deadline _ st) as [st1 detections]. cbv zeta in H1. simpl in H1.
  pose proof (remove_commands (ids_of_service rcd_service service st.(ces_commands)) st1) as H2.
  destruct (remove_each remove_reload_command_deadline _ st1) as [st2 commands]. cbv zeta in H2 |- *. simpl in *.
  destruct H1 as ([A1 A2] & A3 & A4), H2 as ([B1 B2] & B3 & B4).
  split; [split; congruence|split].
  - intros op d Hd Hs. rewrite B3 in Hd. apply A4 in Hd as [Hd Hn]. apply Hn, elem_of_ids_of_service. eauto.
  - intros op d Hd Hs. apply B4 in Hd as [Hd Hn]. rewrite A3 in Hd. apply Hn, elem_of_ids_of_service. eauto.
Qed.

(** ** Stops that begin *)

Section Stop.
Context {P BoundaryError : Type} `{!ProcessController P BoundaryError}.
Notation State := (ControlState P).
Notation Error := (ControlExecutionError BoundaryError).

Lemma in_exec_Ok {E F A} (wrap : F → E) (m : Step P F A) (s s' : State) a :
  in_exec wrap m s = Some (s', Ok a) → ∃ x, m s.(cx_exec) = Some (x, Ok a) ∧ s' = set_cx_exec x s.
Proof.
  unfold in_exec, exec_within. destruct (m (cx_exec s)) as [[x [a'|e]]|]; [|done..]. intros [= <- <-]. by exists x.
Qed.

Lemma on_control_with_Ok {E A} (f : ControlExecutionStore → ControlExecutionStore * A) (s s' : State) a :
  (on_control_with f : Exec State E A) s = Some (s', Ok a) →
  a = (f s.(cx_control)).2 ∧ s' = set_cx_control (f s.(cx_control)).1 s.
Proof. unfold on_control_with, exec_on. destruct (f (cx_control s)) as [st b]. by intros [= <- <-]. Qed.

Lemma atomic_Ok {E A} (m : Exec State E A) s s' a :
  control_atomic m s = Some (s', Ok a) → m s = Some (s', Ok a).
Proof. unfold control_atomic, exec_atomic. by destruct (m s) as [[s1 [a'|e]]|]. Qed.

(** What cancelling a reload command may change of the execution's stores. *)
Definition jobs_only (now before : ExecState P) : ExecState P :=
  set_jobs now.(xs_jobs) (set_controller now.(xs_controller) before).

Lemma passes_cancel_commands at_ns commands :
  passes jobs_only (exec_each (cancel_reload_command at_ns) commands : Step P Error _).
Proof.
  assert (∀ s : ExecState P, jobs_only s s = s) as Hs by (by intros []).
  assert (∀ a b c : ExecState P, jobs_only a (jobs_only b c) = jobs_only a c) as Ht by done.
  assert (∀ f : JobStore → JobResult JobEvent, passes jobs_only (on_jobs CeJobStore f : Step P Error _)) as Hj.
  { intros f s s' r. unfold on_jobs, exec_on. destruct (f (xs_jobs s)). intros [= <- _]. by destruct s. }
  induction commands as [|d commands IH]; cbn [exec_each]; [by apply passes_reads, reads_ret|].
  apply passes_bind; [done| |].
  - unfold cancel_reload_command. apply passes_bind; [done| |].
    { intros s s' r. unfold kill, exec_on. destruct (kill_cgroup _ _). intros [= <- _]. by destruct s. }
    intros _. apply passes_bind; [done| |intros; by apply passes_reads, reads_ret].
    unfold cancel_reload_command_job. apply passes_bind; [done|by apply passes_reads, reads_get|].
    intros [job|]; [|by apply passes_reads, reads_ret].
    destruct (jr_state job); try (by apply passes_reads, reads_ret);
      (apply passes_bind; [done|apply Hj|intros; by apply passes_reads, reads_ret]).
  - intros a. apply passes_bind; [done|exact IH|]. intros l. by apply passes_reads, reads_ret.
Qed.

Lemma start_operation_Ok op at_ns st st' event :
  start_operation op at_ns st = (st', Ok event) →
  ∃ record, st.(op_records) !! op = Some record ∧ record.(or_state) = OsPending ∧
    st'.(op_records) !! op = Some {| record with or_state := OsRunning; or_started_at_ns := Some at_ns |}.
Proof.
  unfold start_operation. destruct (op_records st !! op) as [record|] eqn:E; [|done].
  destruct (op_start at_ns record) as [record'|] eqn:Es; [|done]. intros [= <- _].
  apply op_start_Ok in Es as (Hp & _ & ->). exists record. simpl. by rewrite lookup_insert_eq.
Qed.

(** The service is stopping. *)
Definition is_stopping (service : string) (s : ExecState P) : Prop :=
  rt_state <$> table_runtime s.(xs_services) service = Some StStopping.

#[local] Instance is_stopping_dec service s : Decision (is_stopping service s).
Proof. unfold is_stopping. apply _. Defined.

Lemma begin_control_stop_Ok target operation at_ns definition s s' transition due detail :
  (begin_control_stop target operation at_ns definition : Step P Error _) s = Some (s', Ok (transition, due, detail)) →
  is_stopping target.(pt_service) s' ∧ s'.(xs_operations) = s.(xs_operations) ∧
  due = stop_deadline_ns operation at_ns definition ∧
  (∀ other, other ≠ target.(pt_service) → s'.(xs_services) !! other = s.(xs_services) !! other).
Proof.
  intros (s1 & tr & (t & Htr & ->)%exec_on_Ok & E)%exec_bind_Ok.
  apply exec_bind_Ok in E as (s2 & [] & (t2 & Hrec & ->)%exec_on_Ok & E).
  apply exec_bind_Ok in E as (s3 & ack & [= <- <-] & E).
  assert (s'.(xs_services) = t2 ∧ s'.(xs_operations) = s.(xs_operations) ∧ due = stop_deadline_ns operation at_ns definition)
    as (Hs' & -> & ->).
  { destruct (is_some_and _ _); [by injection E as <- _ <- _|].
    apply exec_bind_Ok in E as (s4 & [] & (c & _ & ->)%exec_on_Ok & E). by injection E as <- _ <- _. }
  clear E. simpl in Htr, Hrec.
  destruct (s.(xs_services) !! pt_service target) as [entry|] eqn:Hentry;
    [|unfold transition_service in Htr; by rewrite Hentry in Htr].
  pose proof (transition_service_spec (pt_service target)
    {| st_to := StStopping; st_cause := stop_transition_cause operation.(or_source) |} _ _ Hentry) as Hspec.
  rewrite Htr in Hspec. destruct Hspec as [Hother _].
  unfold record_stopping_timeout, with_runtime, with_entry in Hrec.
  destruct (t !! pt_service target) as [e'|] eqn:He'; [|done].
  pose proof (transition_service_state _ _ _ _ _ _ Htr He') as Hstate. injection Hrec as <-.
  unfold is_stopping, table_runtime. rewrite Hs'. split_and!; try done.
  - rewrite lookup_insert_eq. simpl. by f_equal.
  - intros other Ho. rewrite lookup_insert_ne by done. by apply Hother.
Qed.

(** When the stop is due: an earlier stop of the same service that is in flight
    hands its deadline over. *)
Definition stop_due (s : State) (target : ProcessTarget) (operation : OperationRecord) (at_ns : Z)
    (definition : ServiceDefinition) : Z :=
  match stop_timeout_for_service target.(pt_service) s.(cx_control) with
  | Some earlier =>
      if bool_decide (is_stopping target.(pt_service) s.(cx_exec)) then earlier.(sto_due_at_ns)
      else stop_deadline_ns operation at_ns definition
  | None => stop_deadline_ns operation at_ns definition
  end.

(** The stop in flight that is taken over, if any. *)
Definition taken_over (s : State) (service : string) : option OperationId :=
  if bool_decide (is_stopping service s.(cx_exec))
  then sto_operation_id <$> stop_timeout_for_service service s.(cx_control) else None.

Definition after_take_over (s : State) (service : string) : ControlExecutionStore :=
  match taken_over s service with
  | Some earlier => (take_restart_stop_leg earlier (remove_stop_timeout earlier s.(cx_control)).1).1
  | None => s.(cx_control)
  end.

(** The service is brought to Stopping, by this stop or an earlier one. *)
Lemma stopping_leg_Ok target operation at_ns definition state (s s' : State) tr due detail :
  state = rt_state <$> table_runtime s.(cx_exec).(xs_services) target.(pt_service) →
  (if bool_decide (state = Some StStopping) then
     deadline_ns ← adopt_stop target operation at_ns definition;
     mret (None, deadline_ns, DetailStopAlreadyAcknowledged target)
   else
     '(transition, deadline_ns, detail) ← in_exec id (begin_control_stop target operation at_ns definition);
     mret (Some transition, deadline_ns, detail) : Exec State Error _) s = Some (s', Ok (tr, due, detail)) →
  is_stopping target.(pt_service) s'.(cx_exec) ∧ s'.(cx_exec).(xs_operations) = s.(cx_exec).(xs_operations) ∧
  (∀ other, other ≠ target.(pt_service) → s'.(cx_exec).(xs_services) !! other = s.(cx_exec).(xs_services) !! other) ∧
  due = stop_due s target operation at_ns definition ∧ s'.(cx_control) = after_take_over s target.(pt_service).
Proof.
  intros ->. unfold after_take_over, taken_over, stop_due.
  change (rt_state <$> table_runtime _ _ = _) with (is_stopping target.(pt_service) s.(cx_exec)).
  destruct (decide (is_stopping target.(pt_service) s.(cx_exec))) as [Hst|Hst].
  - rewrite !(bool_decide_true _ Hst). intros (s1 & deadline & E & E2)%exec_bind_Ok. injection E2 as <- _ <- _.
    apply exec_bind_Ok in E as (s2 & adopted & [= <- <-] & E).
    destruct (stop_timeout_for_service _ _) as [earlier|]; simpl.
    + apply exec_bind_Ok in E as (s2 & o2 & [_ ->]%on_control_with_Ok & E).
      apply exec_bind_Ok in E as (s3 & ? & [_ ->]%on_control_with_Ok & E). by injection E as <- <-.
    + by injection E as <- <-.
  - rewrite !(bool_decide_false _ Hst). intros (s1 & [[tr' due'] detail'] & (x & Hx & ->)%in_exec_Ok & E)%exec_bind_Ok.
    injection E as <- _ <- _. apply begin_control_stop_Ok in Hx as (H1 & H2 & -> & H3).
    split_and!; try done. by destruct (stop_timeout_for_service _ _).
Qed.

Lemma cancel_leg_Ok (reloading : bool) service at_ns (s s' : State) events :
  (if reloading then cancel_reload service at_ns else mret [] : Exec State Error _) s = Some (s', Ok events) →
  s'.(cx_exec).(xs_services) = s.(cx_exec).(xs_services) ∧
  s'.(cx_exec).(xs_operations) = s.(cx_exec).(xs_operations) ∧
  same_stops s'.(cx_control) s.(cx_control) ∧ (reloading = true → no_reload_of service s'.(cx_control)).
Proof.
  destruct reloading; [|by intros [= <- _]].
  intros (s1 & cancelled & [_ ->]%on_control_with_Ok & E)%exec_bind_Ok.
  apply exec_bind_Ok in E as (s2 & ? & (x & Hx & ->)%in_exec_Ok & E). injection E as <- _.
  apply passes_cancel_commands in Hx. rewrite Hx. simpl.
  destruct (cancel_reload_effect service (cx_control s)) as [H1 H2]. by split_and!.
Qed.

End Stop.

(** ** Reload commands *)

Section Reload.
Context {P BoundaryError : Type} `{!ProcessController P BoundaryError}.
Notation State := (ControlState P).
Notation Error := (ControlExecutionError BoundaryError).

Lemma complete_operation_Ok op at_ns result st st' event :
  complete_operation op at_ns result st = (st', Ok event) →
  ∃ record, st'.(op_records) !! op = Some record ∧ record.(or_result) = Some result.
Proof.
  unfold complete_operation, end_operation. destruct (op_records st !! op) as [record|] eqn:E; [|done].
  destruct (op_complete at_ns result record) as [record'|] eqn:Es; [|done].
  destruct (event_completed record') as [ev|]; [|done]. intros [= <- _]. exists record'.
  split; [simpl; apply lookup_insert_eq|]. unfold op_complete, op_finish in Es.
  destruct (_ && _); [done|]. destruct (ensure_completed_at _ _); [|done].
  simpl in Es. by injection Es as <-.
Qed.

(** A reload command that succeeds after the service has said it is ready was
    meant to be recorded as confirmed; it never is. [complete_reload_command_job]
    first removes the deadline, and [remove_reload_command_deadline] forgets the
    readiness with it, so [take_reload_command_ready] on the next line always
    finds nothing: every success is recorded as "reload command advisory". *)
Theorem reload_command_never_confirmed event (s s' : State) d op :
  (complete_reload_command_job event : Exec State Error _) s = Some (s', Ok d) →
  reload_command_succeeded event = true → event.(je_operation_id) = Some op →
  ∃ record, s'.(cx_exec).(xs_operations).(op_records) !! op = Some record ∧
    record.(or_result) = Some "reload command advisory".
Proof.
  intros E Hok Hop. unfold complete_reload_command_job in E.
  apply exec_bind_Ok in E as (s1 & [] & [= <- _] & E). apply exec_bind_Ok in E as (s1 & service & [= <- Hs] & E).
  apply exec_bind_Ok in E as (s1 & op' & [= <- Hid] & E).
  unfold reload_event_operation_id in Hid. rewrite Hop in Hid. injection Hid as <-.
  apply atomic_Ok in E. apply exec_bind_Ok in E as (s1 & o1 & [_ ->]%on_control_with_Ok & E).
  apply exec_bind_Ok in E as (s2 & ready & [-> ->]%on_control_with_Ok & E).
  assert ((take_reload_command_ready op (remove_reload_command_deadline op s.(cx_control)).1).2 = false) as Hready.
  { apply bool_decide_eq_false. simpl. set_solver. }
  apply exec_bind_Ok in E as (s3 & tr & (x & _ & ->)%in_exec_Ok & E).
  apply exec_bind_Ok in E as (s4 & ended & [= <- _] & E). rewrite Hok in E. cbn [cx_control set_cx_control] in E.
  rewrite Hready in E.
  apply exec_bind_Ok in E as (s4 & event' & (y & (ops & Hc & ->)%exec_on_Ok & ->)%in_exec_Ok & E). injection E as <- _.
  by eapply complete_operation_Ok.
Qed.

(** A reload command whose process has not been launched when its time is up -
    its set-up is still pending - cannot be timed out: [timeout_reload_command]
    asks for the failure of a running job, and a created one is refused, so
    the timeout is an error, the deadline stays due and every later turn meets
    it again. The timeouts of start hooks fail such a job before its start. *)
Theorem unlaunched_reload_command_cannot_time_out deadline now_ns (s : State) job :
  control_wf s →
  s.(cx_exec).(xs_jobs).(js_records) !! deadline.(rcd_job_id) = Some job → job.(jr_state) = JsCreated →
  ∃ s' e, (timeout_reload_command deadline now_ns : Exec State Error _) s = Some (s', Err e) ∧
    s'.(cx_control) = s.(cx_control).
Proof.
  intros Hs Hjob Hst. destruct (command_timeout_serves deadline now_ns s Hs) as (s' & [d|e] & E & _).
  - exfalso. apply atomic_Ok in E. apply exec_bind_Ok in E as (s1 & o1 & [_ ->]%on_control_with_Ok & E).
    apply exec_bind_Ok in E as (s2 & o2 & [_ ->]%on_control_with_Ok & E).
    apply exec_bind_Ok in E as (s3 & [] & (x & (c & _ & ->)%exec_on_Ok & ->)%in_exec_Ok & E).
    apply exec_bind_Ok in E as (s4 & event & (y & (jobs & Hf & ->)%exec_on_Ok & ->)%in_exec_Ok & E). simpl in Hf.
    unfold fail_running_job, finish_job in Hf. rewrite Hjob in Hf.
    unfold job_fail_running, job_end, job_ensure_state in Hf. rewrite Hst in Hf. done.
  - exists s', e. split; [done|]. apply undoes_control_atomic in E. by rewrite E.
Qed.
End Reload.

(** ** A service that is up *)

(** A kernel that does as it is told, or refuses signals. *)
#[local] Instance signal_kernel : ProcessController bool string := {|
  pidfd_matches_pid (_ _ : Z) (c : bool) := (c, Ok true);
  close_pidfd (_ : Z) (c : bool) := (c, Ok tt);
  signal_main (_ : ProcessTarget) (_ : ProcessSignal) (c : bool) := (c, if c then Ok tt else Err "no such process");
  kill_cgroup (_ : string) (c : bool) := (c, Ok tt);
  cgroup_populated (_ : string) (c : bool) := (c, Ok false);
  remove_cgroup (_ : string) (c : bool) := (c, Ok CgRemoved) |}.

Definition reloadable_app : ServiceDefinition :=
  {| (simple_system_boot "app" "/bin/app") with sd_exec_reload := Some "/bin/reread" |}.

Definition up_ledger : ledger :=
  let created := (create_job (app_job reloadable_app) job_store_new).1 in
  {| lg_store := (start_job_with_token_summary 7 {| ph_pid := 100; ph_pidfd := 5 |} (requested_identity "SYSTEM") 25
                    created).1; lg_opened := [5]; lg_closed := [] |}.

(** "app" is up as process 100, and an operation of [type] has been asked for. *)
Definition up_control (type : OperationType) (kernel : bool) : ControlState bool := {|
  cx_exec := {|
    xs_services := moved_table [reloadable_app] [("app", StStarting, TcExplicitStart); ("app", StActive, TcExplicitStart)];
    xs_operations := requested type;
    xs_graph := graph_store_new;
    xs_jobs := up_ledger.(lg_store);
    xs_job_ids := 8;
    xs_start := start_store_new;
    xs_controller := kernel |};
  cx_control := control_store_new |}.

Lemma moved_table_wf definitions moves : table_wf (moved_table definitions moves).
Proof.
  unfold moved_table. assert (∀ t, table_wf t → table_wf (foldl (λ t '(service, to, cause),
    (transition_service service {| st_to := to; st_cause := cause |} t).1) t moves)) as H.
  { induction moves as [|[[service to] cause] moves IH]; intros t Ht; [done|]. by apply IH, transition_service_wf. }
  apply H. destruct (from_boot_snapshot definitions) as [t|] eqn:E; [by eapply boot_wf|done].
Qed.

Lemma up_ledger_reachable : job_reachable up_ledger.
Proof.
  eapply rtc_l; [apply (jstep_create _ (app_job reloadable_app)), main_job_fresh|].
  apply rtc_once. eapply eq_ind; [apply (jstep_start _ 7 {| ph_pid := 100; ph_pidfd := 5 |} (requested_identity "SYSTEM") 25)|].
  vm_compute. reflexivity.
Qed.

Lemma up_control_wf type kernel : control_wf (up_control type kernel).
Proof.
  split; [|apply control_store_new_wf]. split; [|apply start_store_new_wf]. split; simpl.
  - apply moved_table_wf.
  - apply op_reachable_store_wf. apply rtc_once, ostep_request. simpl. lia.
  - apply graph_store_new_wf.
  - apply (job_reachable_ledger_wf _ up_ledger_reachable).
Qed.

Definition begin_one : ControlOperationRequest := {| cor_operation_id := 1; cor_observed_at_ns := 50 |}.

Definition from_app (fields : list NotifyField) : ControlEvent :=
  CvNotify {| nar_sender_pid := 100; nar_observed_at_ns := 60 |} {| nm_fields := fields |}.

Lemma control_events_keep_stores_witness :
  ∃ s, handle_control_events [CvBegin begin_one; from_app [NfReady; NfStatus "reloaded"]] (up_control OpReload true)
         = Some s ∧ control_wf s.
Proof. apply control_events_keep_stores. apply up_control_wf. Defined.

(** The kernel refuses the signal: the stop is refused with it. *)
Lemma control_event_all_or_nothing_witness :
  ∃ s' e, handle_control_event (CvBegin begin_one) (up_control OpStop false) = Some (s', Err e) ∧
    s'.(cx_exec).(xs_services) = (up_control OpStop false).(cx_exec).(xs_services).
Proof.
  destruct (handle_control_event (CvBegin begin_one) (up_control OpStop false)) as [[s' [[]|e]]|] eqn:E;
    [by vm_compute in E| |by vm_compute in E].
  exists s', e. split; [reflexivity|].
  destruct (control_event_all_or_nothing _ _ _ _ E) as (_ & H & _). exact H.
Defined.

Lemma notify_needs_main_process_witness :
  ∃ s' d, apply_notify_message {| nar_sender_pid := 100; nar_observed_at_ns := 60 |} {| nm_fields := [NfStopping] |}
    (up_control OpStop true) = Some (s', Ok d) ∧ speaks_for (up_control OpStop true).(cx_exec) 100 d.(nad_sender).
Proof.
  destruct (apply_notify_message {| nar_sender_pid := 100; nar_observed_at_ns := 60 |} {| nm_fields := [NfStopping] |}
    (up_control OpStop true)) as [[s' [d|e]]|] eqn:E; [|by vm_compute in E..].
  exists s', d. split; [reflexivity|]. exact (notify_needs_main_process _ _ _ _ _ E).
Defined.

Definition app_target : ProcessTarget :=
  {| pt_service := "app"; pt_pid := 100; pt_pidfd := 5; pt_cgroup_id := "/sys/fs/cgroup/peinit/app/main" |}.


Definition command_ended (job : JobRecord) : JobEvent :=
  job_event_new {| job with jr_state := JsCompleted |} (JevEnded 80 20 (Some 0) None None).

(** A reload command runs, the service says it is ready, the command succeeds:
    the result is advisory all the same. *)
Definition reloaded_app : option (bool * option string) :=
  s ← handle_control_events [CvBegin begin_one; from_app [NfReady]] (up_control OpReload true);
  job ← head (filter (λ job, jr_job_type job = JtReloadHook) (btree_values s.(cx_exec).(xs_jobs).(js_records)));
  let ready := bool_decide (1 ∈ s.(cx_control).(ces_command_ready)) in
  s ← handle_control_events [CvCommandEnded (command_ended job)] s;
  Some (ready, s.(cx_exec).(xs_operations).(op_records) !! 1 ≫= or_result).

Example confirmed_reload_is_advisory : reloaded_app = Some (true, Some "reload command advisory").
Proof. vm_compute. reflexivity. Qed.
