(* ===== verification/SubmittedStore.v ===== *)
(** * The store of submitted jobs

    Models [src/src/submitted/model.rs] (the entry of a job and its stop and
    outcome), [store.rs] (the store, its deadlines and its retention),
    [view.rs] (what a job is reported as) and the rights of [security.rs].

    The products of a number of seconds with [NANOS_PER_SEC] are plain [u64]
    multiplications in the code: they wrap, as the arithmetic of a release
    build does. *)

From S2P Require Import Prelude RustStr ServiceRuntime ServiceDef Ids Cgroup OperationRecord JobRecord.
From S2P Require Import JobStore ServiceTable SubmittedDef.
From Stdlib Require Import String.
Open Scope string_scope.
Open Scope list_scope.
Open Scope Z_scope.

(** ** Data ([model.rs]) *)

Definition DEFAULT_SUBMITTED_JOB_RETENTION_NS : Z := 60000000000.

Record JobIdentity : Type := { ji_user_sid : string; ji_logon_session : Z }.

Definition progress_unit_wire (u : JobProgressUnit) : string :=
  match u with UnitBytes => "bytes" | UnitItems => "items" | UnitPercent => "percent" end.

Inductive SubmittedJobCause : Type :=
| ScParentSetupFailure | ScPreExecFailure | ScReadinessTimeout | ScTimeout | ScExplicitStop
| ScShutdown | ScProcessUnkillable.

#[export] Instance SubmittedJobCause_eq_dec : EqDecision SubmittedJobCause.
Proof. solve_decision. Defined.

Definition cause_wire (c : SubmittedJobCause) : string :=
  match c with
  | ScParentSetupFailure => "parent_setup_failure"
  | ScPreExecFailure => "pre_exec_failure"
  | ScReadinessTimeout => "readiness_timeout"
  | ScTimeout => "timeout"
  | ScExplicitStop => "explicit_stop"
  | ScShutdown => "shutdown"
  | ScProcessUnkillable => "process_unkillable"
  end.

Inductive SubmittedJobStopPhase : Type := PhTerminating | PhKilled.

Record SubmittedJobStop : Type := {
  so_cause : SubmittedJobCause;
  so_requested_at_ns : Z;
  so_phase : SubmittedJobStopPhase;
  so_due_at_ns : Z;
}.

Record SubmittedJobOutcome : Type := {
  oc_state : JobState;
  oc_pid : option Z;
  oc_started_at_ns : option Z;
  oc_ended_at_ns : Z;
  oc_exit_code : option Z;
  oc_exit_signal : option Z;
  oc_failure_cause : option string;
  oc_retained_until_ns : Z;
}.

Inductive SubmittedNotifyField : Type :=
| SnReady
| SnStatus (text : string)
| SnLevel (value : string)
| SnProgress (progress : JobProgress)
| SnProgressUnit (unit_ : JobProgressUnit).

(** A descriptor is its bytes, which only the boundary reads. *)
Record JobSecurityDescriptor : Type := { sdesc_bytes : list Z }.

Record SubmittedJobEntry : Type := {
  se_job_id : JobId;
  se_submitter_sid : string;
  se_identity : JobIdentity;
  se_definition : SubmittedJobDefinition;
  se_security_descriptor : JobSecurityDescriptor;
  se_created_at_ns : Z;
  se_prepared_token_fd : option Z;
  se_attached_descriptors : list (string * Z);
  se_output_sink_fd : option Z;
  se_ready : option bool;
  se_status_text : option string;
  se_progress : option JobProgress;
  se_progress_unit : option JobProgressUnit;
  se_last_status_event_ns : option Z;
  se_stopping_acknowledged : bool;
  se_cause : option SubmittedJobCause;
  se_stop : option SubmittedJobStop;
  se_outcome : option SubmittedJobOutcome;
  se_cgroup_id : string;
  se_cgroup_cleanup_due_at_ns : option Z;
  se_output_drop_reported : bool;
}.

Definition entry_is_terminal (self : SubmittedJobEntry) : bool := bool_decide (is_Some self.(se_outcome)).
Definition entry_is_live (self : SubmittedJobEntry) : bool := bool_decide (self.(se_outcome) = None).
Definition matches_record (self : SubmittedJobEntry) (record : JobRecord) : bool :=
  bool_decide (record.(jr_id) = self.(se_job_id)).

(** ** The store ([store.rs]) *)

Inductive SubmittedJobStoreError : Type :=
| SeDuplicateJobId (id : JobId)
| SeUnknownJob (id : JobId)
| SeAlreadyTerminal (id : JobId)
| SeNotTerminal (id : JobId).

Inductive SubmittedJobDeadlineKind : Type := DkTimeout | DkReadinessTimeout | DkStopKill | DkPostKill | DkCgroupCleanup.

#[export] Instance SubmittedJobDeadlineKind_eq_dec : EqDecision SubmittedJobDeadlineKind.
Proof. solve_decision. Defined.

Record SubmittedJobDeadline : Type := {
  sdl_job_id : JobId;
  sdl_kind : SubmittedJobDeadlineKind;
  sdl_due_at_ns : Z;
}.

Record SubmittedJobListFilter : Type := {
  lf_submitter_sid : option string;
  lf_identity_sid : option string;
  lf_logon_session : option Z;
  lf_state : option JobState;
}.

Record SubmittedJobStore : Type := { sub_entries : gmap JobId SubmittedJobEntry }.

Definition submitted_store_new : SubmittedJobStore := {| sub_entries := ∅ |}.

Definition SubmittedResult (A : Type) : Type := SubmittedJobStore * Result A SubmittedJobStoreError.

Definition put_entry (id : JobId) (entry : SubmittedJobEntry) (self : SubmittedJobStore) : SubmittedJobStore :=
  {| sub_entries := <[id := entry]> self.(sub_entries) |}.

Definition submitted_ids (self : SubmittedJobStore) : list JobId := btree_keys self.(sub_entries).
Definition submitted_entries (self : SubmittedJobStore) : list SubmittedJobEntry :=
  btree_values self.(sub_entries).

Definition live_ids (self : SubmittedJobStore) : list JobId :=
  map se_job_id (filter (λ entry, entry_is_live entry = true) (submitted_entries self)).

Definition live_count_for_submitter (submitter_sid : string) (self : SubmittedJobStore) : Z :=
  Z.of_nat (List.length (filter (λ entry,
    entry_is_live entry && bool_decide (entry.(se_submitter_sid) = submitter_sid) = true)
    (submitted_entries self))).

Definition submitted_insert (entry : SubmittedJobEntry) (self : SubmittedJobStore) : SubmittedResult unit :=
  if bool_decide (is_Some (self.(sub_entries) !! entry.(se_job_id)))
  then (self, Err (SeDuplicateJobId entry.(se_job_id)))
  else (put_entry entry.(se_job_id) entry self, Ok tt).

Definition cause_from_terminal_record (state : JobState) (failure_cause : option string)
    : option SubmittedJobCause :=
  match state with
  | JsAbandoned => Some ScProcessUnkillable
  | JsFailed =>
      match failure_cause with
      | None => None
      | Some cause =>
          if starts_with "ParentSetupFailure" cause then Some ScParentSetupFailure
          else if starts_with "PreExecFailure" cause then Some ScPreExecFailure
          else None
      end
  | JsCreated | JsRunning | JsCompleted => None
  end.

Definition record_terminal (event : JobEvent) (retention_ns : Z) (self : SubmittedJobStore)
    : SubmittedResult SubmittedJobEntry :=
  match self.(sub_entries) !! event.(je_job_id) with
  | None => (self, Err (SeUnknownJob event.(je_job_id)))
  | Some entry =>
      if entry_is_terminal entry then (self, Err (SeAlreadyTerminal event.(je_job_id)))
      else
        match event.(je_detail) with
        | JevEnded ended_at_ns _ exit_code exit_signal failure_cause =>
            let cause :=
              match entry.(se_cause) with
              | Some cause => Some cause
              | None => cause_from_terminal_record event.(je_state) failure_cause
              end in
            let entry := {| entry with
              se_cause := cause;
              se_stop := None;
              se_outcome := Some {|
                oc_state := event.(je_state);
                oc_pid := event.(je_pid);
                oc_started_at_ns := event.(je_started_at_ns);
                oc_ended_at_ns := ended_at_ns;
                oc_exit_code := exit_code;
                oc_exit_signal := exit_signal;
                oc_failure_cause := failure_cause;
                oc_retained_until_ns := u64_saturating_add ended_at_ns retention_ns |} |} in
            (put_entry event.(je_job_id) entry self, Ok entry)
        | _ => (self, Err (SeNotTerminal event.(je_job_id)))
        end
  end.

(** [secs * NANOS_PER_SEC] *)
Definition secs_to_ns (secs : Z) : Z := ((secs * NANOS_PER_SEC) mod 18446744073709551616)%Z.

Definition begin_stop (id : JobId) (cause : SubmittedJobCause) (now_ns : Z) (self : SubmittedJobStore)
    : SubmittedResult bool :=
  match self.(sub_entries) !! id with
  | None => (self, Err (SeUnknownJob id))
  | Some entry =>
      if bool_decide (is_Some entry.(se_outcome)) || bool_decide (is_Some entry.(se_stop))
      then (self, Ok false)
      else
        let stop := {|
          so_cause := cause;
          so_requested_at_ns := now_ns;
          so_phase := PhTerminating;
          so_due_at_ns :=
            u64_saturating_add now_ns (secs_to_ns entry.(se_definition).(sj_stop_timeout_secs)) |} in
        (put_entry id {| entry with se_cause := Some cause; se_stop := Some stop |} self, Ok true)
  end.

Definition record_kill (id : JobId) (now_ns post_kill_timeout_secs : Z) (self : SubmittedJobStore)
    : SubmittedResult unit :=
  match self.(sub_entries) !! id with
  | None => (self, Err (SeUnknownJob id))
  | Some entry =>
      match entry.(se_stop) with
      | None => (self, Ok tt)
      | Some stop =>
          let stop := {| stop with
            so_phase := PhKilled;
            so_due_at_ns := u64_saturating_add now_ns (secs_to_ns post_kill_timeout_secs) |} in
          (put_entry id {| entry with se_stop := Some stop |} self, Ok tt)
      end
  end.

Definition entry_deadlines (entry : SubmittedJobEntry) (started_at_ns : option Z)
    : list SubmittedJobDeadline :=
  let deadline kind due := {| sdl_job_id := entry.(se_job_id); sdl_kind := kind; sdl_due_at_ns := due |} in
  let cleanup :=
    match entry.(se_cgroup_cleanup_due_at_ns) with
    | Some due => [deadline DkCgroupCleanup due]
    | None => []
    end in
  if entry_is_terminal entry then cleanup
  else
    match entry.(se_stop) with
    | Some stop =>
        cleanup ++ [deadline match stop.(so_phase) with PhTerminating => DkStopKill | PhKilled => DkPostKill end
                      stop.(so_due_at_ns)]
    | None =>
        match started_at_ns with
        | None => cleanup
        | Some started_at_ns =>
            cleanup
            ++ (if (0 <? entry.(se_definition).(sj_timeout_secs))%Z
                then [deadline DkTimeout
                        (u64_saturating_add started_at_ns (secs_to_ns entry.(se_definition).(sj_timeout_secs)))]
                else [])
            ++ (if bool_decide (entry.(se_definition).(sj_readiness) = ReadinessNotify) &&
                   bool_decide (entry.(se_ready) = Some false)
                then [deadline DkReadinessTimeout
                        (u64_saturating_add started_at_ns
                           (secs_to_ns entry.(se_definition).(sj_readiness_timeout_secs)))]
                else [])
        end
    end.

Definition all_deadlines (started_at_by_job : JobId → option Z) (self : SubmittedJobStore)
    : list SubmittedJobDeadline :=
  submitted_entries self ≫= (λ entry, entry_deadlines entry (started_at_by_job entry.(se_job_id))).

Definition deadline_le (a b : SubmittedJobDeadline) : Prop :=
  prod_le (a.(sdl_due_at_ns), a.(sdl_job_id)) (b.(sdl_due_at_ns), b.(sdl_job_id)).
#[export] Instance deadline_le_dec : RelDecision deadline_le.
Proof. intros a b. unfold deadline_le. apply _. Defined.

Definition next_deadline (started_at_by_job : JobId → option Z) (self : SubmittedJobStore)
    : option SubmittedJobDeadline :=
  min_by deadline_le (all_deadlines started_at_by_job self).

Definition due_deadlines (now_ns : Z) (started_at_by_job : JobId → option Z) (self : SubmittedJobStore)
    : list SubmittedJobDeadline :=
  sort_by deadline_le
    (filter (λ d, d.(sdl_due_at_ns) ≤ now_ns) (all_deadlines started_at_by_job self)).

Definition next_retention_deadline_ns (self : SubmittedJobStore) : option Z :=
  list_min (map oc_retained_until_ns (omap se_outcome (submitted_entries self))).

Definition purge_due (now_ns : Z) (entry : SubmittedJobEntry) : bool :=
  is_some_and entry.(se_outcome) (λ outcome, outcome.(oc_retained_until_ns) <=? now_ns)
  && bool_decide (entry.(se_cgroup_cleanup_due_at_ns) = None).

Definition purge_retained_until (now_ns : Z) (self : SubmittedJobStore) : SubmittedJobStore * list JobId :=
  let purged := map se_job_id (filter (λ entry, purge_due now_ns entry = true) (submitted_entries self)) in
  ({| sub_entries := foldl (λ m id, delete id m) self.(sub_entries) purged |}, purged).

Definition submitted_remove (id : JobId) (self : SubmittedJobStore)
    : SubmittedJobStore * option SubmittedJobEntry :=
  ({| sub_entries := delete id self.(sub_entries) |}, self.(sub_entries) !! id).

Definition filter_matches (f : SubmittedJobListFilter) (state_of : SubmittedJobEntry → JobState)
    (entry : SubmittedJobEntry) : bool :=
  is_none_or f.(lf_submitter_sid) (λ sid, bool_decide (entry.(se_submitter_sid) = sid))
  && is_none_or f.(lf_identity_sid) (λ sid, bool_decide (entry.(se_identity).(ji_user_sid) = sid))
  && is_none_or f.(lf_logon_session) (λ session, bool_decide (entry.(se_identity).(ji_logon_session) = session))
  && is_none_or f.(lf_state) (λ state, bool_decide (state_of entry = state)).

Definition filtered_ids (f : SubmittedJobListFilter) (state_of : SubmittedJobEntry → JobState)
    (self : SubmittedJobStore) : list JobId :=
  map se_job_id (filter (λ entry, filter_matches f state_of entry = true) (submitted_entries self)).

(** ** Rights ([security.rs]) *)

Definition JOB_QUERY : Z := 1.
Definition JOB_STOP : Z := 2.
Definition JOB_SIGNAL : Z := 4.
Definition JOB_ALL : Z := Z.lor (Z.lor JOB_QUERY JOB_STOP) JOB_SIGNAL.
Definition JOB_WIRE_NAMES : list (Z * string) :=
  [(JOB_QUERY, "query"); (JOB_STOP, "stop"); (JOB_SIGNAL, "signal")].
Definition access_from_granted_bits (bits : Z) : Z := Z.land bits JOB_ALL.
Definition access_contains (self other : Z) : bool := bool_decide (Z.land self other = other).
Definition access_wire_names (self : Z) : list string :=
  map snd (filter (λ p, access_contains self p.1 = true) JOB_WIRE_NAMES).

(** ** The view ([view.rs]) *)

Record JobViewState : Type := {
  vs_state : JobState;
  vs_pid : option Z;
  vs_started_at_ns : option Z;
  vs_ended_at_ns : option Z;
  vs_exit_code : option Z;
  vs_exit_signal : option Z;
}.

Definition outcome_view (outcome : SubmittedJobOutcome) : JobViewState := {|
  vs_state := outcome.(oc_state);
  vs_pid := match outcome.(oc_state) with JsAbandoned => outcome.(oc_pid) | _ => None end;
  vs_started_at_ns := outcome.(oc_started_at_ns);
  vs_ended_at_ns := Some outcome.(oc_ended_at_ns);
  vs_exit_code := outcome.(oc_exit_code);
  vs_exit_signal := outcome.(oc_exit_signal) |}.

Definition record_view (record : JobRecord) : JobViewState := {|
  vs_state := record.(jr_state);
  vs_pid := record.(jr_pid);
  vs_started_at_ns := record.(jr_started_at_ns);
  vs_ended_at_ns := record.(jr_ended_at_ns);
  vs_exit_code := record.(jr_exit_code);
  vs_exit_signal := record.(jr_exit_signal) |}.

Record JobView : Type := {
  jv_id : JobId;
  jv_state : JobViewState;
  jv_cause : option SubmittedJobCause;
  jv_submitter_sid : string;
  jv_identity_sid : string;
  jv_logon_session : Z;
  jv_description : string;
  jv_image_path : string;
  jv_ready : option bool;
  jv_status_text : option string;
  jv_progress : option JobProgress;
  jv_progress_unit : option JobProgressUnit;
  jv_created_at_ns : Z;
}.

Definition job_view (entry : SubmittedJobEntry) (record : option JobRecord) : option JobView :=
  let view state := {|
    jv_id := entry.(se_job_id); jv_state := state; jv_cause := entry.(se_cause);
    jv_submitter_sid := entry.(se_submitter_sid); jv_identity_sid := entry.(se_identity).(ji_user_sid);
    jv_logon_session := entry.(se_identity).(ji_logon_session);
    jv_description := entry.(se_definition).(sj_description);
    jv_image_path := entry.(se_definition).(sj_image_path);
    jv_ready := entry.(se_ready); jv_status_text := entry.(se_status_text);
    jv_progress := entry.(se_progress); jv_progress_unit := entry.(se_progress_unit);
    jv_created_at_ns := entry.(se_created_at_ns) |} in
  match entry.(se_outcome), record with
  | Some outcome, _ => Some (view (outcome_view outcome))
  | None, Some record => Some (view (record_view record))
  | None, None => None
  end.

Definition job_state_wire (state : JobState) : string :=
  match state with
  | JsCreated => "created" | JsRunning => "running" | JsCompleted => "completed"
  | JsFailed => "failed" | JsAbandoned => "abandoned"
  end.

Definition parse_job_state_wire (value : string) : option JobState :=
  if bool_decide (value = "created") then Some JsCreated
  else if bool_decide (value = "running") then Some JsRunning
  else if bool_decide (value = "completed") then Some JsCompleted
  else if bool_decide (value = "failed") then Some JsFailed
  else if bool_decide (value = "abandoned") then Some JsAbandoned
  else None.

(** ** Deadlines *)

#[local] Instance deadline_le_total : Total deadline_le.
Proof. intros a b. unfold deadline_le. apply (total prod_le). Qed.

(** The two ways the supervisor asks for deadlines agree: the deadline the
    timer is armed for is the first one that is due when its time has come, and
    before that nothing is due; without a deadline nothing is ever due. *)
Theorem submitted_deadlines_agree (started : JobId → option Z) (store : SubmittedJobStore) (now_ns : Z) :
  head (due_deadlines now_ns started store) =
    match next_deadline started store with
    | Some d => if decide (d.(sdl_due_at_ns) ≤ now_ns) then Some d else None
    | None => None
    end.
Proof.
  unfold due_deadlines, next_deadline. rewrite head_sort_by, min_by_filter; [done|apply _|].
  intros a b Hle Hb. unfold deadline_le, prod_le in Hle. simpl in *. destruct Hle as [Hle _]. lia.
Qed.

(** *** Long timeouts *)

(** A number of seconds below [2^64 / 10^9] is converted exactly. *)
Lemma secs_to_ns_exact secs : 0 ≤ secs ≤ 18446744073 → secs_to_ns secs = secs * 1000000000.
Proof. intros ?. unfold secs_to_ns, NANOS_PER_SEC. apply Z.mod_small. lia. Qed.

(** The deadlines of a running job that is not being stopped are exactly
    its run-time limit, if it has one, and its readiness limit, while it has not
    reported ready, each that many seconds after its start, for limits below
    [2^64 / 10^9] seconds (585 years) and a clock that has not come near the end
    of its range. *)
Theorem running_deadlines_exact (entry : SubmittedJobEntry) (started_at_ns : Z) (d : SubmittedJobDeadline) :
  se_outcome entry = None → se_stop entry = None → se_cgroup_cleanup_due_at_ns entry = None →
  0 ≤ sj_timeout_secs (se_definition entry) ≤ 9000000000 →
  0 ≤ sj_readiness_timeout_secs (se_definition entry) ≤ 9000000000 →
  0 ≤ started_at_ns ≤ 9000000000000000000 →
  d ∈ entry_deadlines entry (Some started_at_ns) ↔
    sdl_job_id d = se_job_id entry ∧
    ((sdl_kind d = DkTimeout ∧ sj_timeout_secs (se_definition entry) ≠ 0 ∧
      sdl_due_at_ns d = started_at_ns + sj_timeout_secs (se_definition entry) * 1000000000) ∨
     (sdl_kind d = DkReadinessTimeout ∧ sj_readiness (se_definition entry) = ReadinessNotify ∧
      se_ready entry = Some false ∧
      sdl_due_at_ns d = started_at_ns + sj_readiness_timeout_secs (se_definition entry) * 1000000000)).
Proof.
  intros Ho Hs Hc Ht Hr Hst. unfold entry_deadlines, entry_is_terminal. rewrite Ho, Hs, Hc. simpl.
  rewrite !secs_to_ns_exact, elem_of_app by lia.
  assert (∀ n, 0 ≤ n ≤ 9000000000 → u64_saturating_add started_at_ns (n * 1000000000) =
    started_at_ns + n * 1000000000) as Hsat by (intros; unfold u64_saturating_add, u64_max; lia).
  rewrite !Hsat by lia. clear Hsat.
  assert (∀ kind due, d ∈ [{| sdl_job_id := se_job_id entry; sdl_kind := kind; sdl_due_at_ns := due |}] ↔
    sdl_job_id d = se_job_id entry ∧ sdl_kind d = kind ∧ sdl_due_at_ns d = due) as Hd.
  { intros kind due. rewrite list_elem_of_singleton. destruct d. simpl. naive_solver. }
  destruct (Z.ltb_spec 0 (sj_timeout_secs (se_definition entry)));
    (destruct (bool_decide (sj_readiness (se_definition entry) = ReadinessNotify) &&
               bool_decide (se_ready entry = Some false)) eqn:Er;
     [apply andb_true_iff in Er as [Er1%bool_decide_eq_true Er2%bool_decide_eq_true]
     |apply andb_false_iff in Er as [Er%bool_decide_eq_false|Er%bool_decide_eq_false]]);
    rewrite ?Hd, ?elem_of_nil; intuition (try lia; try congruence).
Qed.

Definition example_entry (definition : SubmittedJobDefinition) : SubmittedJobEntry := {|
  se_job_id := 1; se_submitter_sid := "S-1-5-21-1"; se_identity := {| ji_user_sid := "S-1-5-21-1"; ji_logon_session := 1 |};
  se_definition := definition; se_security_descriptor := {| sdesc_bytes := [] |}; se_created_at_ns := 0;
  se_prepared_token_fd := None; se_attached_descriptors := []; se_output_sink_fd := None;
  se_ready := Some false; se_status_text := None; se_progress := None; se_progress_unit := None;
  se_last_status_event_ns := None; se_stopping_acknowledged := false; se_cause := None; se_stop := None;
  se_outcome := None; se_cgroup_id := ""; se_cgroup_cleanup_due_at_ns := None; se_output_drop_reported := false |}.

Lemma running_deadlines_exact_witness :
  {| sdl_job_id := 1; sdl_kind := DkReadinessTimeout; sdl_due_at_ns := 30000000005 |}
    ∈ entry_deadlines (example_entry example_submitted) (Some 5).
Proof.
  apply (running_deadlines_exact (example_entry example_submitted) 5);
    [reflexivity|reflexivity|reflexivity|simpl; lia|simpl; lia|lia|].
  split; [reflexivity|]. right. split; [reflexivity|]. split; [reflexivity|]. split; reflexivity.
Defined.

(** A run-time limit of 585 years is accepted and runs out after three tenths
    of a second: the conversion to nanoseconds wraps. *)
Theorem long_timeout_fires_at_once :
  let d := let e := example_submitted in {| e with sj_timeout_secs := 18446744074 |} in
  definition_ok d 2 ∧
  {| sdl_job_id := 1; sdl_kind := DkTimeout; sdl_due_at_ns := 290448389 |} ∈ entry_deadlines (example_entry d) (Some 5).
Proof.
  split.
  - assert (is_u64 18446744074) by (split; vm_compute; discriminate).
    assert (is_u64 10) by (split; vm_compute; discriminate).
    assert (is_u64 30) by (split; vm_compute; discriminate).
    split; try done; try (repeat constructor; done); try (repeat constructor; lia).
  - vm_compute. left.
Qed.

(** *** Retention *)

Lemma submitted_entries_ids store :
  (∀ id entry, sub_entries store !! id = Some entry → se_job_id entry = id) →
  map se_job_id (submitted_entries store) = btree_keys (sub_entries store).
Proof.
  intros H. unfold submitted_entries, btree_keys, btree_values. rewrite <-list_fmap_compose.
  apply list_fmap_ext. intros i [id entry] Hi%list_elem_of_lookup_2. simpl.
  apply H, elem_of_btree_iter, Hi.
Qed.

Lemma foldl_delete_lookup `{Countable K} {V} (l : list K) (m : gmap K V) k :
  foldl (λ m i, delete i m) m l !! k = if bool_decide (k ∈ l) then None else m !! k.
Proof.
  revert m. induction l as [|i l IH]; intros m; cbn [foldl].
  - by rewrite bool_decide_eq_false_2 by apply not_elem_of_nil.
  - rewrite IH. repeat case_bool_decide; try done; rewrite ?elem_of_cons in *.
    + naive_solver.
    + destruct (decide (k = i)) as [->|]; [by rewrite lookup_delete_eq|naive_solver].
    + rewrite lookup_delete_ne; [done|]. naive_solver.
Qed.

Lemma purge_due_iff now_ns entry :
  purge_due now_ns entry = true ↔ ∃ outcome, se_outcome entry = Some outcome ∧
    oc_retained_until_ns outcome ≤ now_ns ∧ se_cgroup_cleanup_due_at_ns entry = None.
Proof.
  unfold purge_due. destruct (se_outcome entry) as [o|]; simpl; [|naive_solver].
  rewrite andb_true_iff, bool_decide_eq_true, Z.leb_le. naive_solver.
Qed.

(** Purging removes exactly the finished jobs whose retention time has
    passed and whose control group needs no further attention, reports each of
    them, and leaves every other entry as it was. *)
Theorem submitted_purge_exact (now_ns : Z) (store : SubmittedJobStore) :
  (∀ id entry, sub_entries store !! id = Some entry → se_job_id entry = id) →
  let (store', purged) := purge_retained_until now_ns store in
  NoDup purged ∧
  (∀ id, id ∈ purged ↔ ∃ entry outcome, sub_entries store !! id = Some entry ∧ se_outcome entry = Some outcome ∧
    oc_retained_until_ns outcome ≤ now_ns ∧ se_cgroup_cleanup_due_at_ns entry = None) ∧
  (∀ id, sub_entries store' !! id = if bool_decide (id ∈ purged) then None else sub_entries store !! id).
Proof.
  intros Hk. unfold purge_retained_until. cbn zeta. split_and!.
  - eapply sublist_NoDup; [apply (NoDup_btree_keys (sub_entries store))|].
    rewrite <-submitted_entries_ids by done. apply fmap_sublist, sublist_filter.
  - intros id. rewrite list_elem_of_fmap. setoid_rewrite list_elem_of_filter. setoid_rewrite purge_due_iff.
    unfold submitted_entries. setoid_rewrite elem_of_btree_values. split.
    + intros (entry & -> & (o & ?) & k & Ek). exists entry, o. by rewrite (Hk k entry Ek).
    + intros (entry & o & E & ?). exists entry. split; [symmetry; by apply Hk|]. eauto.
  - intros id. simpl. apply foldl_delete_lookup.
Qed.

Definition finished_store (cleanup : option Z) : SubmittedJobStore :=
  let e := example_entry example_submitted in
  {| sub_entries := {[ 1 := {| e with se_outcome := Some {|
       oc_state := JsCompleted; oc_pid := None; oc_started_at_ns := Some 5; oc_ended_at_ns := 10;
       oc_exit_code := Some 0; oc_exit_signal := None; oc_failure_cause := None;
       oc_retained_until_ns := 60000000010 |}; se_cgroup_cleanup_due_at_ns := cleanup |} ]} |}.

Lemma submitted_purge_exact_witness :
  let (store', purged) := purge_retained_until 60000000010 (finished_store None) in
  NoDup purged ∧
  (∀ id, id ∈ purged ↔ ∃ entry outcome, sub_entries (finished_store None) !! id = Some entry ∧
    se_outcome entry = Some outcome ∧ oc_retained_until_ns outcome ≤ 60000000010 ∧
    se_cgroup_cleanup_due_at_ns entry = None) ∧
  (∀ id, sub_entries store' !! id =
    if bool_decide (id ∈ purged) then None else sub_entries (finished_store None) !! id).
Proof.
  apply (submitted_purge_exact 60000000010 (finished_store None)).
  intros id entry E. unfold finished_store in E. cbn [sub_entries] in E.
  apply lookup_singleton_Some in E as [<- <-]. reflexivity.
Defined.

(** While the control group of a finished job waits for its retry, the next
    retention deadline lies in the past and nothing is purged, so maintenance
    is due again at once. This happens when the post-kill timeout is set above
    the minute of retention. *)
Theorem retention_deadline_of_busy_cgroup :
  let store := finished_store (Some 90000000010) in
  next_retention_deadline_ns store = Some 60000000010 ∧
  purge_retained_until 70000000000 store = (store, []).
Proof. vm_compute. done. Qed.
