(* ===== verification/SubmittedRun.v ===== *)
(** * Running submitted jobs

    Models [src/src/supervisor/submitted/]: stopping a job ([stop.rs]), a job
    that never ran ([setup.rs]), a job that ended ([terminal.rs]), the due
    deadlines ([deadlines.rs]), shutdown ([shutdown.rs]) and the creation of a
    job once its identity and descriptor are at hand ([submit.rs]).

    The kernel is reached through the trait [ProcessController]
    ([boundary/model/process/control.rs]), here a class over its state and its
    errors. A step works on a copy of the stores that is kept only if it
    succeeds ([transaction]); closing a descriptor and the controller's calls
    are effects outside the copy and stay. *)

From S2P Require Import Prelude RustStr ServiceRuntime ServiceDef Ids Cgroup OperationRecord JobRecord.
From S2P Require Import JobStore ServiceTable SubmittedDef SubmittedStore Effects.
From stdpp Require Import pretty.
From Stdlib Require Import String.
Open Scope string_scope.
Open Scope list_scope.
Open Scope Z_scope.

Section Run.
Context {P BoundaryError : Type} `{!ProcessController P BoundaryError}.

(** The stores of a supervisor that submitted jobs live in. *)
Record SubmittedWork : Type := {
  w_jobs : JobStore;
  w_submitted : SubmittedJobStore;
  w_pending : list JobId;
  w_job_ids : Z;
}.

(** The stores, the kernel, and the descriptors closed so far. *)
Record World : Type := {
  wo_work : SubmittedWork;
  wo_controller : P;
  wo_closed : list Z;
}.

Inductive RunError : Type :=
| ReSubmitted (error : SubmittedJobStoreError)
| ReJobStore (error : JobStoreError)
| ReProcessControl (error : BoundaryError).

Definition Run (A : Type) : Type := Eff World RunError A.

Definition on_jobs {A} (f : JobStore → JobResult A) : Run A := λ w,
  let (jobs, r) := f w.(wo_work).(w_jobs) in
  let work := w.(wo_work) in
  ({| w with wo_work := {| work with w_jobs := jobs |} |}, map_err ReJobStore r).

Definition on_submitted {A} (f : SubmittedJobStore → SubmittedResult A) : Run A := λ w,
  let (submitted, r) := f w.(wo_work).(w_submitted) in
  let work := w.(wo_work) in
  ({| w with wo_work := {| work with w_submitted := submitted |} |}, map_err ReSubmitted r).

Definition on_controller {A} (f : P → P * Result A BoundaryError) : Run A := λ w,
  let (controller, r) := f w.(wo_controller) in
  ({| w with wo_controller := controller |}, map_err ReProcessControl r).

Definition get_entry (job_id : JobId) : Run (option SubmittedJobEntry) :=
  get_with (λ w, w.(wo_work).(w_submitted).(sub_entries) !! job_id).
Definition get_job (job_id : JobId) : Run (option JobRecord) :=
  get_with (λ w, w.(wo_work).(w_jobs).(js_records) !! job_id).

(** [if let Some(entry) = submitted.get_mut(id) { ... }] *)
Definition alter_entry (job_id : JobId) (f : SubmittedJobEntry → SubmittedJobEntry) : Run unit :=
  update_with (λ w,
    let work := w.(wo_work) in
    {| w with wo_work := {| work with
         w_submitted := {| sub_entries := alter f job_id work.(w_submitted).(sub_entries) |} |} |}).

Definition set_pending (pending : list JobId) : Run unit :=
  update_with (λ w, let work := w.(wo_work) in {| w with wo_work := {| work with w_pending := pending |} |}).

Definition close_fds (fds : list Z) : Run unit :=
  update_with (λ w, {| w with wo_closed := w.(wo_closed) ++ filter (λ fd, 0 ≤ fd) fds |}).

(** ** The end of a job ([terminal.rs], [setup.rs]) *)

Definition entry_fds (entry : SubmittedJobEntry) : list Z :=
  option_list entry.(se_prepared_token_fd) ++ map snd entry.(se_attached_descriptors)
    ++ option_list entry.(se_output_sink_fd).

Definition without_fds (entry : SubmittedJobEntry) : SubmittedJobEntry :=
  {| entry with se_prepared_token_fd := None; se_attached_descriptors := []; se_output_sink_fd := None |}.

Definition close_entry_descriptors (job_id : JobId) : Run unit :=
  entry ← get_entry job_id;
  match entry with
  | None => mret tt
  | Some entry => _ ← alter_entry job_id without_fds; close_fds (entry_fds entry)
  end.

Definition set_cause (cause : SubmittedJobCause) (entry : SubmittedJobEntry) : SubmittedJobEntry :=
  {| entry with se_cause := Some cause |}.
Definition set_cleanup (due : option Z) (entry : SubmittedJobEntry) : SubmittedJobEntry :=
  {| entry with se_cgroup_cleanup_due_at_ns := due |}.

Definition is_busy (o : CgroupRemoveOutcome) : bool := match o with CgBusy => true | _ => false end.

Definition release_job_cgroup (job_id : JobId) (cgroup_id : string) (now_ns post_kill_timeout_secs : Z)
    : Run bool :=
  outcome ← on_controller (remove_cgroup cgroup_id);
  let busy := is_busy outcome in
  _ ← alter_entry job_id (set_cleanup (then_some busy
        (u64_saturating_add now_ns (u64_saturating_mul post_kill_timeout_secs 1000000000))));
  mret busy.

Record SubmittedLaunchFailure : Type := { lf_job_event : JobEvent; lf_cause : SubmittedJobCause }.

Definition apply_submitted_setup_failure (job_id : JobId) (failed_at_ns : Z) (cause : SubmittedJobCause)
    (failure_cause : string) (post_kill_timeout_secs : Z) : Run SubmittedLaunchFailure :=
  _ ← alter_entry job_id (set_cause cause);
  _ ← close_entry_descriptors job_id;
  job_event ← on_jobs (fail_job_before_start job_id failed_at_ns failure_cause);
  entry ← on_submitted (record_terminal job_event DEFAULT_SUBMITTED_JOB_RETENTION_NS);
  _ ← release_job_cgroup job_id entry.(se_cgroup_id) failed_at_ns post_kill_timeout_secs;
  mret {| lf_job_event := job_event; lf_cause := cause |}.

Inductive ChildExitStatus : Type :=
| Exited (code : Z)
| Signaled (signal : Z) (core_dumped : bool).

Definition signal_failure_cause (signal : Z) (core_dumped : bool) : string :=
  if core_dumped then "ProcessCrash: signal " +:+ pretty signal +:+ " (core dumped)"
  else "ProcessCrash: signal " +:+ pretty signal.

Definition finish_reaped (job_id : JobId) (status : ChildExitStatus) (succeeded : bool) (ended_at_ns : Z)
    : JobStore → JobResult JobEvent :=
  match status with
  | Exited code =>
      if succeeded then complete_job job_id ended_at_ns code
      else fail_running_job job_id ended_at_ns (Some (ExitCode code)) ("ProcessExit: code " +:+ pretty code)
  | Signaled signal core_dumped =>
      fail_running_job job_id ended_at_ns (Some (Signal signal)) (signal_failure_cause signal core_dumped)
  end.

Record SubmittedTerminal : Type := {
  tm_job_event : JobEvent;
  tm_cause : option SubmittedJobCause;
  tm_cgroup_busy : bool;
}.

Definition exit_succeeded (entry : option SubmittedJobEntry) (status : ChildExitStatus) : bool :=
  match status with
  | Exited code => is_some_and entry (λ entry, submitted_success_exit_code entry.(se_definition) code)
  | Signaled _ _ => false
  end.

Definition apply_submitted_terminal (job_id : JobId) (status : ChildExitStatus) (ended_at_ns : Z)
    (post_kill_timeout_secs : Z) : Run SubmittedTerminal :=
  entry ← get_entry job_id;
  job_event ← on_jobs (finish_reaped job_id status (exit_succeeded entry status) ended_at_ns);
  entry ← get_entry job_id;
  match entry with
  | None => fail_with (ReSubmitted (SeUnknownJob job_id))
  | Some before =>
      _ ← close_entry_descriptors job_id;
      entry ← on_submitted (record_terminal job_event DEFAULT_SUBMITTED_JOB_RETENTION_NS);
      _ ← on_controller (kill_cgroup before.(se_cgroup_id));
      busy ← release_job_cgroup job_id before.(se_cgroup_id) ended_at_ns post_kill_timeout_secs;
      mret {| tm_job_event := job_event;
              tm_cause := match entry.(se_cause) with Some c => Some c | None => before.(se_cause) end;
              tm_cgroup_busy := busy |}
  end.

(** ** Stopping ([stop.rs]) *)

Inductive SubmittedStopOutcome : Type :=
| StopUnchanged
| StopCancelledBeforeStart (failure : SubmittedLaunchFailure)
| StopStopping (job_id : JobId) (cause : SubmittedJobCause) (signalled : bool).

Definition submitted_process_target (record : JobRecord) : Run ProcessTarget :=
  match record.(jr_pid), record.(jr_pidfd) with
  | Some pid, Some pidfd =>
      mret {| pt_service := to_canonical_string record.(jr_id); pt_pid := pid; pt_pidfd := pidfd;
              pt_cgroup_id := record.(jr_cgroup_id) |}
  | _, _ => fail_with (ReSubmitted (SeNotTerminal record.(jr_id)))
  end.

(** The queue without the first occurrence of a job. *)
Fixpoint remove_first (job_id : JobId) (queue : list JobId) : list JobId :=
  match queue with
  | [] => []
  | pending :: queue => if bool_decide (pending = job_id) then queue else pending :: remove_first job_id queue
  end.

Definition begin_submitted_stop (job_id : JobId) (cause : SubmittedJobCause) (now_ns : Z)
    (post_kill_timeout_secs : Z) : Run SubmittedStopOutcome :=
  entry ← get_entry job_id;
  match entry with
  | None => mret StopUnchanged
  | Some entry =>
      if bool_decide (is_Some entry.(se_outcome)) || bool_decide (is_Some entry.(se_stop))
      then mret StopUnchanged
      else
        record ← get_job job_id;
        match record with
        | None => mret StopUnchanged
        | Some record =>
            match record.(jr_state) with
            | JsCreated =>
                pending ← get_with (λ w, w.(wo_work).(w_pending));
                if bool_decide (job_id ∈ pending) then
                  _ ← set_pending (remove_first job_id pending);
                  failure ← apply_submitted_setup_failure job_id now_ns cause
                    (cause_wire cause +:+ ": stopped before launch") post_kill_timeout_secs;
                  mret (StopCancelledBeforeStart failure)
                else
                  _ ← on_submitted (begin_stop job_id cause now_ns);
                  _ ← on_controller (kill_cgroup record.(jr_cgroup_id));
                  mret (StopStopping job_id cause false)
            | _ =>
                _ ← on_submitted (begin_stop job_id cause now_ns);
                if negb entry.(se_stopping_acknowledged) then
                  target ← submitted_process_target record;
                  _ ← on_controller (signal_main target PsSigterm);
                  mret (StopStopping job_id cause true)
                else mret (StopStopping job_id cause false)
            end
        end
  end.

(** ** Deadlines ([deadlines.rs]) *)

Inductive SubmittedDeadlineDispatch : Type :=
| SdStop (job_id : JobId) (cause : SubmittedJobCause) (signalled : bool)
| SdKilled (job_id : JobId)
| SdAbandoned (job_event : JobEvent) (cgroup_id : string)
| SdCgroupCleanup (job_id : JobId) (leaked : bool).

Definition due_submitted_job_deadlines (now_ns : Z) (work : SubmittedWork) : list SubmittedJobDeadline :=
  due_deadlines now_ns (λ job_id, work.(w_jobs).(js_records) !! job_id ≫= jr_started_at_ns)
    work.(w_submitted).

Definition process_submitted_deadline (job_id : JobId) (kind : SubmittedJobDeadlineKind) (now_ns : Z)
    (post_kill_timeout_secs : Z) : Run (option SubmittedDeadlineDispatch) :=
  match kind with
  | DkTimeout | DkReadinessTimeout =>
      let cause := match kind with DkTimeout => ScTimeout | _ => ScReadinessTimeout end in
      outcome ← begin_submitted_stop job_id cause now_ns post_kill_timeout_secs;
      match outcome with
      | StopStopping job_id cause signalled => mret (Some (SdStop job_id cause signalled))
      | StopUnchanged | StopCancelledBeforeStart _ => mret None
      end
  | DkStopKill =>
      entry ← get_entry job_id;
      match entry with
      | None => mret None
      | Some entry =>
          _ ← on_controller (kill_cgroup entry.(se_cgroup_id));
          _ ← on_submitted (record_kill job_id now_ns post_kill_timeout_secs);
          mret (Some (SdKilled job_id))
      end
  | DkPostKill =>
      entry ← get_entry job_id;
      match entry with
      | None => mret None
      | Some entry =>
          record ← get_job job_id;
          if negb (is_some_and record (λ record, bool_decide (record.(jr_state) = JsRunning)))
          then mret None
          else
            populated ← on_controller (cgroup_populated entry.(se_cgroup_id));
            if (populated : bool) then
              _ ← alter_entry job_id (set_cause ScProcessUnkillable);
              _ ← close_entry_descriptors job_id;
              job_event ← on_jobs (abandon_job job_id now_ns "process survived SIGKILL");
              _ ← on_submitted (record_terminal job_event DEFAULT_SUBMITTED_JOB_RETENTION_NS);
              mret (Some (SdAbandoned job_event entry.(se_cgroup_id)))
            else
              _ ← on_submitted (record_kill job_id now_ns post_kill_timeout_secs);
              mret None
      end
  | DkCgroupCleanup =>
      entry ← get_entry job_id;
      match entry with
      | None => mret None
      | Some entry =>
          outcome ← on_controller (remove_cgroup entry.(se_cgroup_id));
          _ ← alter_entry job_id (set_cleanup None);
          mret (Some (SdCgroupCleanup job_id (is_busy outcome)))
      end
  end.

(** ** Shutdown ([shutdown.rs]) *)

Definition live_submitted_jobs_remain (work : SubmittedWork) : bool :=
  match live_ids work.(w_submitted) with [] => false | _ => true end.

Definition stop_submitted_jobs_for_shutdown (now_ns post_kill_timeout_secs : Z)
    : Run (list (JobId * SubmittedJobCause * bool)) :=
  ids ← get_with (λ w, live_ids w.(wo_work).(w_submitted));
  outcomes ← for_each (λ job_id, begin_submitted_stop job_id ScShutdown now_ns post_kill_timeout_secs) ids;
  mret (omap (λ o, match o with
                   | StopStopping job_id cause signalled => Some (job_id, cause, signalled)
                   | _ => None
                   end) outcomes).

Definition kill_live_submitted_job (now_ns post_kill_timeout_secs : Z) (job_id : JobId) : Run (option JobId) :=
  entry ← get_entry job_id;
  match entry with
  | None => mret None
  | Some entry =>
      _ ← (if bool_decide (entry.(se_stop) = None)
           then on_submitted (begin_stop job_id ScShutdown now_ns) else mret true);
      _ ← on_controller (kill_cgroup entry.(se_cgroup_id));
      _ ← on_submitted (record_kill job_id now_ns post_kill_timeout_secs);
      mret (Some job_id)
  end.

Definition kill_all_live_submitted_jobs (now_ns post_kill_timeout_secs : Z) : Run (list JobId) :=
  ids ← get_with (λ w, live_ids w.(wo_work).(w_submitted));
  killed ← for_each (kill_live_submitted_job now_ns post_kill_timeout_secs) ids;
  mret (omap id killed).

(** ** Submission ([submit.rs]) *)

Record PreparedJobIdentity : Type := {
  pi_token_fd : Z;
  pi_user_sid : string;
  pi_logon_session : Z;
  pi_summary : TokenSummary;
}.

Inductive JobIdentitySource : Type := AttachedToken (token : Z) | PeerPrimary (pidfd : Z).
Inductive JobIdentityError : Type := BadToken (reason : string) | IdentityBoundary (reason : string).
Inductive JobDescriptorError : Type := DescriptorInvalid (reason : string) | DescriptorBoundary (reason : string).

(** The identity provider and the descriptor factory ([boundary/model/jobs.rs],
    [submitted/security.rs]). *)
Class JobBoundary : Type := {
  prepare_job_identity : JobIdentitySource → P → P * Result PreparedJobIdentity JobIdentityError;
  default_job_descriptor : string → P → P * Result JobSecurityDescriptor JobDescriptorError;
  job_descriptor_from_sddl : string → P → P * Result JobSecurityDescriptor JobDescriptorError;
}.

Inductive JobsCommandError : Type :=
| JceDefinition (error : SubmittedJobDefinitionError)
| JceShuttingDown
| JceBadToken (reason : string)
| JceQuotaExceeded (submitter_sid : string) (live limit : Z)
| JceInvalidDescriptor (reason : string)
| JceInternal (reason : string)
| JceIdAllocation (error : IdAllocationError)
| JceJobStore (error : JobStoreError)
| JceSubmitted (error : SubmittedJobStoreError).

Definition is_quota_exempt (submitter_sid : string) : bool := bool_decide (submitter_sid = "S-1-5-18").

Definition identity_error (e : JobIdentityError) : JobsCommandError :=
  match e with BadToken r => JceBadToken r | IdentityBoundary r => JceInternal r end.
Definition descriptor_error (e : JobDescriptorError) : JobsCommandError :=
  match e with DescriptorInvalid r => JceInvalidDescriptor r | DescriptorBoundary r => JceInternal r end.

(** The record of a new job. *)
Definition submitted_spec (definition : SubmittedJobDefinition) (prepared : PreparedJobIdentity) (now_ns : Z)
    : SubmittedJobSpec := {|
  ss_identity_user_sid := prepared.(pi_user_sid);
  ss_token_summary := prepared.(pi_summary);
  ss_image_path := definition.(sj_image_path);
  ss_arguments := definition.(sj_arguments);
  ss_environment := definition.(sj_environment);
  ss_working_directory := definition.(sj_working_directory);
  ss_created_at_ns := now_ns |}.

Definition new_entry_for (job_id : JobId) (submitter_sid : string) (prepared : PreparedJobIdentity)
    (definition : SubmittedJobDefinition) (security_descriptor : JobSecurityDescriptor)
    (descriptors : list Z) (cgroup_id : string) (now_ns : Z) : SubmittedJobEntry :=
  let sink := if definition.(sj_output) then last descriptors else None in
  let rest := if definition.(sj_output) then take (List.length descriptors - 1) descriptors else descriptors in
  {| se_job_id := job_id;
     se_submitter_sid := submitter_sid;
     se_identity := {| ji_user_sid := prepared.(pi_user_sid); ji_logon_session := prepared.(pi_logon_session) |};
     se_definition := definition;
     se_security_descriptor := security_descriptor;
     se_created_at_ns := now_ns;
     se_prepared_token_fd := Some prepared.(pi_token_fd);
     se_attached_descriptors := zip definition.(sj_descriptor_names) rest;
     se_output_sink_fd := sink;
     se_ready := then_some (bool_decide (definition.(sj_readiness) = ReadinessNotify)) false;
     se_status_text := None; se_progress := None; se_progress_unit := None;
     se_last_status_event_ns := None; se_stopping_acknowledged := false;
     se_cause := None; se_stop := None; se_outcome := None;
     se_cgroup_id := cgroup_id; se_cgroup_cleanup_due_at_ns := None;
     se_output_drop_reported := false |}.

Context `{!JobBoundary, !JsonNumber}.

Definition ask {A F} (f : P → P * Result A F) (as_error : F → JobsCommandError)
    : Eff World JobsCommandError A := λ w,
  let (controller, r) := f w.(wo_controller) in
  ({| w with wo_controller := controller |}, map_err as_error r).

(** [refuse]: the prepared token is closed and the command fails. *)
Definition refuse {A} (token_fd : Z) (e : JobsCommandError) : Eff World JobsCommandError A := λ w,
  ({| w with wo_closed := w.(wo_closed) ++ filter (λ fd, 0 ≤ fd) [token_fd] |}, Err e).

Definition or_refuse {A} (token_fd : Z) (m : Eff World JobsCommandError A) : Eff World JobsCommandError A := λ w,
  match m w with
  | (w, Ok a) => (w, Ok a)
  | (w, Err e) => refuse token_fd e w
  end.

(** The transaction at the end: record, entry and launch queue together. *)
Definition create_submitted (token_fd : Z) (definition : SubmittedJobDefinition) (prepared : PreparedJobIdentity)
    (submitter_sid : string) (security_descriptor : JobSecurityDescriptor) (descriptors : list Z) (now_ns : Z)
    : Eff World JobsCommandError (JobId * JobEvent) := λ w,
  let work := w.(wo_work) in
  match allocate_batch work.(w_job_ids) 1 now_ns with
  | (_, Err e) => refuse token_fd (JceIdAllocation e) w
  | (_, Ok []) => (w, Err (JceInternal "no identifier"))
  | (job_ids, Ok (job_id :: _)) =>
      let record := new_submitted job_id (submitted_spec definition prepared now_ns) in
      match create_job record work.(w_jobs) with
      | (_, Err e) => refuse token_fd (JceJobStore e) w
      | (jobs, Ok job_event) =>
          let entry := new_entry_for job_id submitter_sid prepared definition security_descriptor
            descriptors record.(jr_cgroup_id) now_ns in
          match submitted_insert entry work.(w_submitted) with
          | (_, Err e) => (w, Err (JceSubmitted e))
          | (submitted, Ok _) =>
              ({| w with wo_work := {| w_jobs := jobs; w_submitted := submitted;
                                       w_pending := work.(w_pending) ++ [job_id]; w_job_ids := job_ids |} |},
               Ok (job_id, job_event))
          end
      end
  end.

Definition submit_job (source : JobIdentitySource) (object : JsonObject) (descriptors : list Z)
    (submitter_sid : string) (limit : Z) (shutting_down : bool) (now_ns : Z)
    : Eff World JobsCommandError (JobId * JobEvent) :=
  definition ← lift_result
    (map_err JceDefinition (parse_submitted_job_definition object (Z.of_nat (List.length descriptors))));
  if (shutting_down : bool) then fail_with JceShuttingDown
  else
    prepared ← ask (prepare_job_identity source) identity_error;
    live ← get_with (λ w, live_count_for_submitter submitter_sid w.(wo_work).(w_submitted));
    if negb (is_quota_exempt submitter_sid) && (limit <=? live)
    then refuse prepared.(pi_token_fd) (JceQuotaExceeded submitter_sid live limit)
    else
      security_descriptor ← or_refuse prepared.(pi_token_fd)
        (ask match definition.(sj_security_descriptor_sddl) with
             | Some sddl => job_descriptor_from_sddl sddl
             | None => default_job_descriptor submitter_sid
             end descriptor_error);
      create_submitted prepared.(pi_token_fd) definition prepared submitter_sid security_descriptor
        descriptors now_ns.
End Run.
