(* ===== verification/ShutdownRun.v ===== *)
(** * The supervisor's work during a shutdown

    The part of [SupervisorWork] ([src/src/supervisor/work.rs]) that the run of
    a shutdown and the steps after a notify message change, the runtime of a
    shutdown ([src/src/shutdown/model.rs]), and the steps of other components
    as steps on this state. A step that fails is not committed: what remains
    are the effects on the kernel and the descriptors that were closed
    ([work_atomic]). *)

From S2P Require Import Prelude RustStr ServiceRuntime ServiceDef Ids Restart Cgroup ServiceTable Shutdown.
From S2P Require Import OperationRecord OperationStore ExecGraph JobRecord JobStore SubmittedDef SubmittedStore.
From S2P Require Import SubmittedRun Effects StartState StartBegin StartRun ControlRun.
From S2P Require Import Notify MainProcess.
From Stdlib Require Import String.
From Stdlib Require Import String Ascii.
Open Scope string_scope.
Open Scope list_scope.
Open Scope Z_scope.

(** ** The runtime of a shutdown ([shutdown/model.rs]) *)

Record ShutdownStopDeadline : Type := {
  ssd_service : string;
  ssd_cgroup_id : string;
  ssd_started_at_ns : Z;
  ssd_due_at_ns : Z;
  ssd_wave : nat;
  ssd_operation_id : option OperationId;
}.

Record ShutdownPostKillDeadline : Type := {
  spk_service : string;
  spk_cgroup_id : string;
  spk_due_at_ns : Z;
}.

(** A failed final action carries the boundary's error, not its debug text. *)
Inductive ShutdownFinalizationState (BoundaryError : Type) : Type :=
| FinWaitingForServices
| FinReady
| FinFailed (error : option BoundaryError) (next_retry_at_ns : Z)
| FinCompleted.
Arguments FinWaitingForServices {_}.
Arguments FinReady {_}.
Arguments FinFailed {_} error next_retry_at_ns.
Arguments FinCompleted {_}.

Definition waiting_for_services {BoundaryError} (state : ShutdownFinalizationState BoundaryError) : bool :=
  match state with FinWaitingForServices => true | _ => false end.

Record ShutdownRuntime {BoundaryError : Type} : Type := {
  shr_kind : ShutdownKind;
  shr_initiated_at_ns : Z;
  shr_global_deadline_ns : Z;
  shr_global_timeout_fired : bool;
  shr_plan : ShutdownPlan;
  shr_current_wave : nat;
  shr_stop_deadlines : list ShutdownStopDeadline;
  shr_post_kill_deadlines : list ShutdownPostKillDeadline;
  shr_finalization : ShutdownFinalizationState BoundaryError;
}.
Arguments ShutdownRuntime : clear implicits.

(** ** Processes still being set up ([execution/launch/model.rs]) *)

Inductive ProcessCleanupResource : Type := CrToken | CrMainCgroup.

Record ProcessCleanupEvidence : Type := {
  pce_fd : Z;
  pce_resource : ProcessCleanupResource;
  pce_error : string;
}.

Record LaunchedProcess : Type := {
  lp_pid : Z;
  lp_pidfd : Z;
  lp_stdout_fd : option Z;
  lp_stderr_fd : option Z;
  lp_setup_status_fd : option Z;
  lp_cleanup_evidence : list ProcessCleanupEvidence;
}.

Record PendingLaunchSetup : Type := {
  pls_job_id : JobId;
  pls_process : LaunchedProcess;
  pls_token_summary : TokenSummary;
  pls_launched_at_ns : Z;
  pls_setup_deadline_ns : Z;
}.

Section Work.
Context {P BoundaryError : Type}.

Record ShutdownWork : Type := {
  sw_control : ControlState P;
  sw_operation_ids : Z;
  sw_fd_store : FdStoreTable;
  sw_submitted : SubmittedJobStore;
  sw_pending_submitted_launches : list JobId;
  sw_pending_launches : list JobId;
  sw_pending_start_hook_launches : list JobId;
  sw_pending_post_hook_launches : list JobId;
  sw_pending_control_launches : list JobId;
  sw_pending_process_setups : gmap Z PendingLaunchSetup;
  sw_shutdown : option (ShutdownRuntime BoundaryError);
  sw_closed : list Z;
}.

Definition wk_exec (w : ShutdownWork) : ExecState P := w.(sw_control).(cx_exec).
Definition wk_services (w : ShutdownWork) : gmap string ServiceEntry := (wk_exec w).(xs_services).
Definition wk_operations (w : ShutdownWork) : OperationStore := (wk_exec w).(xs_operations).
Definition wk_jobs (w : ShutdownWork) : JobStore := (wk_exec w).(xs_jobs).

Definition set_sw_control (v : ControlState P) (w : ShutdownWork) : ShutdownWork := {| w with sw_control := v |}.
Definition set_wk_exec (v : ExecState P) (w : ShutdownWork) : ShutdownWork :=
  set_sw_control (set_cx_exec v w.(sw_control)) w.
Definition set_sw_operation_ids (v : Z) (w : ShutdownWork) : ShutdownWork := {| w with sw_operation_ids := v |}.
Definition set_sw_shutdown (v : option (ShutdownRuntime BoundaryError)) (w : ShutdownWork) : ShutdownWork :=
  {| w with sw_shutdown := v |}.

(** Steps on the stores, and on the stores with the control store. *)
Definition work_exec {E F A} (wrap : F → E) (m : Step P F A) : Exec ShutdownWork E A :=
  exec_within wk_exec set_wk_exec wrap m.
Definition work_control {E F A} (wrap : F → E) (m : Exec (ControlState P) F A) : Exec ShutdownWork E A :=
  exec_within sw_control set_sw_control wrap m.

(** Steps of submitted jobs, which see the jobs, their own store and the kernel. *)
Definition world_of (w : ShutdownWork) : @World P :=
  {| wo_work := {| w_jobs := wk_jobs w; w_submitted := w.(sw_submitted);
                   w_pending := w.(sw_pending_submitted_launches); w_job_ids := (wk_exec w).(xs_job_ids) |};
     wo_controller := (wk_exec w).(xs_controller); wo_closed := w.(sw_closed) |}.

Definition set_world (v : @World P) (w : ShutdownWork) : ShutdownWork :=
  let exec := wk_exec w in
  let w := {| w with sw_submitted := v.(wo_work).(w_submitted);
                     sw_pending_submitted_launches := v.(wo_work).(w_pending); sw_closed := v.(wo_closed) |} in
  set_wk_exec {| exec with xs_jobs := v.(wo_work).(w_jobs); xs_job_ids := v.(wo_work).(w_job_ids);
                           xs_controller := v.(wo_controller) |} w.

Definition work_submitted {E A} (wrap : RunError → E) (m : @Run P BoundaryError A) : Exec ShutdownWork E A :=
  exec_on world_of set_world wrap m.

Definition close_work_fds {E} (fds : list Z) : Exec ShutdownWork E unit :=
  exec_update (λ w, {| w with sw_closed := w.(sw_closed) ++ retain (λ fd, 0 <=? fd) fds |}).

(** What a failed step leaves. *)
Definition work_restore (now before : ShutdownWork) : ShutdownWork :=
  let before := set_wk_exec (set_controller (wk_exec now).(xs_controller) (wk_exec before)) before in
  {| before with sw_closed := now.(sw_closed) |}.
(** [SupervisorWork::commit]: the descriptors of services that are gone are
    dropped, and operations learn the descriptor of their service. *)
Definition work_commit (w : ShutdownWork) : ShutdownWork :=
  let services := wk_services w in
  let exec := wk_exec w in
  let w := {| w with sw_fd_store := (retain_services (service_names services) w.(sw_fd_store)).1 |} in
  set_wk_exec {| exec with xs_operations := adopt_service_security services exec.(xs_operations) |} w.
Definition commit_work {E} : Exec ShutdownWork E unit := exec_update work_commit.

Definition work_atomic {E A} (m : Exec ShutdownWork E A) : Exec ShutdownWork E A := exec_atomic work_restore m.
End Work.

Arguments ShutdownWork : clear implicits.

(** * The run of a shutdown

    Models the supervisor's run of a graceful shutdown
    ([src/src/supervisor/shutdown*.rs]): beginning it, stopping one wave after
    another, what the exit of a job means, the stop, post-kill and global
    timeouts, the forced reboot, and the final action with its retries. The
    plan it follows is [Shutdown.plan_graceful_shutdown].

    The debug texts of what a shutdown waits for, and the payload of events,
    are left out. *)

Section Run.
Context {P BoundaryError : Type} `{!ProcessController P BoundaryError}.
Notation Work := (ShutdownWork P BoundaryError).
Notation Runtime := (ShutdownRuntime BoundaryError).

(** ** Errors *)

Inductive ShutdownError : Type :=
| ShAlreadyInProgress (kind : ShutdownKind)
| ShPlan (error : ShutdownPlanError)
| ShServiceTable (error : ServiceTableError)
| ShOperationStore (error : OperationStoreError)
| ShJobStore (error : JobStoreError)
| ShMissingRunningService (service : string)
| ShMissingJobRecord (job_id : JobId)
| ShJobNotRunning (job_id : JobId)
| ShMissingProcessHandle (job_id : JobId)
| ShInvalidTimeoutExtension (service value : string)
| ShNoShutdownInProgress
| ShShutdownNotReady
| ShFinalActionRetryNotDue (next_retry_at_ns now_ns : Z)
| ShBoundary (error : BoundaryError).

(** The part of [SupervisorError] a shutdown can end in. *)
Inductive SupervisorShutdownError : Type :=
| SuShutdown (error : ShutdownError)
| SuJobStore (error : JobStoreError)
| SuRequestIdAllocation (error : IdAllocationError)
| SuSubmitted (error : @RunError BoundaryError).

Notation ShutdownM := (Exec Work ShutdownError).
Notation SupervisorM := (Exec Work SupervisorShutdownError).

Definition get_work {E A} (f : Work → A) : Exec Work E A := exec_get f.

Definition work_shutdown : ShutdownM Runtime :=
  shutdown ← exec_get sw_shutdown;
  exec_lift (ok_or shutdown ShNoShutdownInProgress).

Definition update_shutdown (f : Runtime → Runtime) : ShutdownM unit :=
  shutdown ← work_shutdown;
  exec_update (set_sw_shutdown (Some (f shutdown))).

Definition kill_group (cgroup_id : string) : ShutdownM unit := work_exec ShBoundary (kill id cgroup_id).

Definition on_work_services {A} (f : gmap string ServiceEntry → TableResult A) : ShutdownM A :=
  work_exec id (on_services ShServiceTable f).
Definition on_work_operations {A} (f : OperationStore → StoreResult A) : ShutdownM A :=
  work_exec id (on_operations ShOperationStore f).
Definition on_work_jobs {A} (f : JobStore → JobResult A) : ShutdownM A :=
  work_exec id (StartState.on_jobs ShJobStore f).

Definition runtime_state (w : Work) (service : string) : option ServiceState :=
  rt_state <$> table_runtime (wk_services w) service.

(** ** The operations that observe the stops ([shutdown_operations.rs]) *)

Definition participants (plan : ShutdownPlan) : list ShutdownStopParticipant :=
  plan.(sh_stop_waves) ≫= sw_services.

Definition request_stops (plan : ShutdownPlan) (now_ns : Z) : SupervisorM (list OperationEvent) :=
  ids ← exec_on sw_operation_ids set_sw_operation_ids SuRequestIdAllocation
    (λ n, allocate_batch n (List.length (participants plan)) now_ns);
  events ← exec_each (λ '(participant, id),
    outcome ← exec_map_err SuShutdown
      (on_work_operations (observe_shutdown_stop id participant.(sp_service) now_ns));
    mret outcome.(ro_events)) (zip (participants plan) ids);
  mret (List.concat events).

Definition active_stop (service : string) (operations : OperationStore) : option OperationId :=
  find_first (λ id, is_some_and (operations.(op_records) !! id)
    (λ operation, bool_decide (operation.(or_source) = SrcShutdown))) (active_for_service operations service).

Definition start_stop (service : string) (now_ns : Z) : ShutdownM (list OperationEvent) :=
  operations ← exec_get wk_operations;
  match active_stop service operations with
  | None => mret []
  | Some id =>
      if is_some_and (operations.(op_records) !! id) (λ op, bool_decide (op.(or_state) = OsPending)) then
        event ← on_work_operations (start_operation id now_ns);
        mret [event]
      else mret []
  end.

Definition fail_stop (service : string) (now_ns : Z) (reason : string) : ShutdownM (list OperationEvent) :=
  operations ← exec_get wk_operations;
  match active_stop service operations with
  | None => mret []
  | Some id =>
      event ← on_work_operations (fail_operation id now_ns reason);
      mret [event]
  end.

Definition settle_observation (now_ns : Z) (observation : OperationId * string) : ShutdownM (list OperationEvent) :=
  let '(id, service) := observation in
  state ← exec_get (λ w, runtime_state w service);
  match state with
  | None | Some StInactive | Some StSkipped =>
      event ← on_work_operations (complete_operation id now_ns "inactive");
      mret [event]
  | Some StFailed | Some StAbandoned =>
      event ← on_work_operations (fail_operation id now_ns "service failed during shutdown");
      mret [event]
  | _ => mret []
  end.

Definition settle_stopped (now_ns : Z) : ShutdownM (list OperationEvent) :=
  observations ← exec_get (λ w,
    map (λ op, (op.(or_id), op.(or_service)))
      (filter (λ op, op.(or_source) = SrcShutdown) (active_records (wk_operations w))));
  events ← exec_each (settle_observation now_ns) observations;
  mret (List.concat events).

(** ** Completed oneshots and starts ([shutdown_completed.rs], [shutdown_starting.rs]) *)

Definition clear_completed_services (plan : ShutdownPlan) : ShutdownM (list ServiceTableTransition) :=
  exec_each (λ service, on_work_services
    (transition_service service {| st_to := StInactive; st_cause := TcShutdownWave |}))
    plan.(sh_completed_to_clear).

Fixpoint jobs_in_state (state : JobState) (jobs : JobStore) (ids : list JobId) : Result (list JobId) ShutdownError :=
  match ids with
  | [] => Ok []
  | job_id :: ids =>
      let? job := ok_or (jobs.(js_records) !! job_id) (ShMissingJobRecord job_id) in
      let? matching := jobs_in_state state jobs ids in
      Ok (if bool_decide (job.(jr_state) = state) then job_id :: matching else matching)
  end.

Definition active_jobs_in_state (service : string) (state : JobState) : ShutdownM (list JobId) :=
  matching ← exec_get (λ w, jobs_in_state state (wk_jobs w) (active_jobs_for_service (wk_jobs w) service));
  exec_lift matching.

Definition without_jobs (job_ids queue : list JobId) : list JobId :=
  retain (λ job_id, negb (bool_decide (job_id ∈ job_ids))) queue.

Definition remove_pending_jobs (job_ids : list JobId) (w : Work) : Work :=
  {| w with
     sw_pending_launches := without_jobs job_ids w.(sw_pending_launches);
     sw_pending_start_hook_launches := without_jobs job_ids w.(sw_pending_start_hook_launches);
     sw_pending_post_hook_launches := without_jobs job_ids w.(sw_pending_post_hook_launches);
     sw_pending_control_launches := without_jobs job_ids w.(sw_pending_control_launches) |}.

(** [cleanup_pending_setup_process] ([process_setup.rs]). *)
Definition cleanup_pending_setup_process (process : LaunchedProcess) (cgroup_id : string) : ShutdownM unit :=
  _ ← kill_group cgroup_id;
  close_work_fds (process.(lp_pidfd) :: option_list process.(lp_stdout_fd) ++ option_list process.(lp_stderr_fd)).

Definition drop_pending_setup (setup_status_fd : Z) : ShutdownM (list (JobId * Z)) :=
  setup ← exec_get (λ w, w.(sw_pending_process_setups) !! setup_status_fd);
  match setup with
  | None => mret []
  | Some setup =>
      _ ← exec_update (λ w, {| w with
        sw_pending_process_setups := delete setup_status_fd w.(sw_pending_process_setups) |});
      job ← exec_get (λ w, (wk_jobs w).(js_records) !! setup.(pls_job_id));
      job ← exec_lift (ok_or job (ShMissingJobRecord setup.(pls_job_id)));
      _ ← cleanup_pending_setup_process setup.(pls_process) job.(jr_cgroup_id);
      mret [(setup.(pls_job_id), setup_status_fd)]
  end.

Definition drop_pending_setups (job_ids : list JobId) : ShutdownM (list (JobId * Z)) :=
  setup_fds ← exec_get (λ w,
    map fst (filter (λ p, p.2.(pls_job_id) ∈ job_ids) (btree_iter w.(sw_pending_process_setups))));
  cancelled ← exec_each drop_pending_setup setup_fds;
  mret (List.concat cancelled).

Definition fail_unforked_startup_jobs (service : string) (now_ns : Z)
    : ShutdownM (list JobEvent * list (JobId * Z)) :=
  created_jobs ← active_jobs_in_state service JsCreated;
  _ ← exec_update (remove_pending_jobs created_jobs);
  setups ← drop_pending_setups created_jobs;
  job_events ← exec_each (λ job_id,
    on_work_jobs (fail_job_before_start job_id now_ns "startup cancelled by shutdown")) created_jobs;
  mret (job_events, setups).

Definition service_root_cgroup_id (service : string) : ShutdownM string :=
  runtime ← exec_get (λ w, table_runtime (wk_services w) service);
  runtime ← exec_lift (ok_or runtime (ShPlan (MissingRuntime service)));
  mret (service_cgroup_root_path service runtime.(rt_cgroup_generation)).

Record SupervisorShutdownKillDispatch : Type := {
  skd_service : string;
  skd_cgroup_id : string;
  skd_service_transition : ServiceTableTransition;
}.

Record StartingServiceKillResult : Type := {
  sks_killed_starting : list SupervisorShutdownKillDispatch;
  sks_operation_events : list OperationEvent;
  sks_job_events : list JobEvent;
  sks_cancelled_setups : list (JobId * Z);
  sks_post_kill_deadlines : list ShutdownPostKillDeadline;
}.

Definition fail_start_operation (service : string) (now_ns : Z) : ShutdownM (list OperationEvent) :=
  operation ← exec_get (λ w, current_for_service (wk_operations w) service);
  match operation with
  | None => mret []
  | Some operation =>
      _ ← work_exec id (on_start (remove_pre_start_hook_deadline operation.(or_id)));
      _ ← work_exec id (on_start (remove_pre_start_sequence operation.(or_id)));
      _ ← work_exec id (on_start_with (remove_readiness_deadline operation.(or_id)));
      event ← on_work_operations (fail_operation operation.(or_id) now_ns "startup killed by shutdown");
      mret [event]
  end.

Definition kill_starting_service (now_ns post_kill_timeout_secs : Z) (service : string)
    : ShutdownM StartingServiceKillResult :=
  operation_events ← fail_start_operation service now_ns;
  '(job_events, setups) ← fail_unforked_startup_jobs service now_ns;
  running ← active_jobs_in_state service JsRunning;
  cgroup_id ← service_root_cgroup_id service;
  _ ← kill_group cgroup_id;
  service_transition ← on_work_services
    (transition_service service {| st_to := StFailed; st_cause := TcShutdownWave |});
  mret {| sks_killed_starting := [{| skd_service := service; skd_cgroup_id := cgroup_id;
                                     skd_service_transition := service_transition |}];
          sks_operation_events := operation_events; sks_job_events := job_events;
          sks_cancelled_setups := setups;
          sks_post_kill_deadlines :=
            match running with
            | [] => []
            | _ => [{| spk_service := service; spk_cgroup_id := cgroup_id;
                       spk_due_at_ns := seconds_after now_ns post_kill_timeout_secs |}]
            end |}.

Definition kill_starting_services (plan : ShutdownPlan) (now_ns post_kill_timeout_secs : Z)
    : ShutdownM StartingServiceKillResult :=
  results ← exec_each (kill_starting_service now_ns post_kill_timeout_secs) plan.(sh_starting_to_kill);
  mret {| sks_killed_starting := results ≫= sks_killed_starting;
          sks_operation_events := results ≫= sks_operation_events;
          sks_job_events := results ≫= sks_job_events;
          sks_cancelled_setups := results ≫= sks_cancelled_setups;
          sks_post_kill_deadlines := results ≫= sks_post_kill_deadlines |}.

(** ** Waves ([shutdown_wave/]) *)

(** Why the evidence of a stop under way could not give a deadline. *)
Inductive Unsubstantiated : Type :=
| NoTimeoutOfOperation
| NoStartOfOperation
| NoStoppingTimeout
| NotStopping
| CauseMismatch
| NotAStopCause
| DueBeforeStart.

Record RetainedStopDeadline : Type := {
  rsd_deadline : ShutdownStopDeadline;
  rsd_unsubstantiated : option Unsubstantiated;
}.

Definition retained_stop_cause (cause : TransitionCause) : bool :=
  match cause with
  | TcExplicitStop | TcShutdownWave | TcConflictEviction | TcBindsToPropagation => true
  | _ => false
  end.

Definition is_running_stop (operation : OperationRecord) : bool :=
  bool_decide (operation.(or_state) = OsRunning) &&
  match operation.(or_operation_type) with OpStop | OpRestart => true | _ => false end.

Definition retained_stop_deadline (service : string) (wave_index : nat) (now_ns : Z)
    : ShutdownM RetainedStopDeadline :=
  cgroup_id ← service_root_cgroup_id service;
  let deadline started_at_ns due_at_ns operation_id := {|
    ssd_service := service; ssd_cgroup_id := cgroup_id; ssd_started_at_ns := started_at_ns;
    ssd_due_at_ns := due_at_ns; ssd_wave := wave_index; ssd_operation_id := operation_id |} in
  let substitute reason := {| rsd_deadline := deadline now_ns now_ns None; rsd_unsubstantiated := Some reason |} in
  current ← exec_get (λ w, current_for_service (wk_operations w) service);
  let in_flight := match current with
                   | Some operation => if is_running_stop operation then Some operation else None
                   | None => None
                   end in
  match in_flight with
  | Some operation =>
      retained ← exec_get (λ w, w.(sw_control).(cx_control).(ces_stop_timeouts) !! operation.(or_id));
      mret match retained with
           | None => substitute NoTimeoutOfOperation
           | Some retained =>
               match operation.(or_started_at_ns) with
               | None => substitute NoStartOfOperation
               | Some started_at_ns =>
                   {| rsd_deadline := deadline started_at_ns retained.(sto_due_at_ns) (Some operation.(or_id));
                      rsd_unsubstantiated := None |}
               end
           end
  | None =>
      runtime ← exec_get (λ w, table_runtime (wk_services w) service);
      runtime ← exec_lift (ok_or runtime (ShPlan (MissingRuntime service)));
      mret match runtime.(rt_stopping_timeout) with
           | None => substitute NoStoppingTimeout
           | Some retained =>
               if bool_decide (runtime.(rt_state) ≠ StStopping) then substitute NotStopping
               else if bool_decide (runtime.(rt_cause) ≠ Some retained.(ste_cause)) then substitute CauseMismatch
               else if negb (retained_stop_cause retained.(ste_cause)) then substitute NotAStopCause
               else if retained.(ste_due_at_ns) <? retained.(ste_started_at_ns) then substitute DueBeforeStart
               else {| rsd_deadline := deadline retained.(ste_started_at_ns) retained.(ste_due_at_ns) None;
                       rsd_unsubstantiated := None |}
           end
  end.

Definition shutdown_stop_deadline_ns (service : string) (started_at_ns : Z) : ShutdownM Z :=
  definition ← exec_get (λ w, table_definition (wk_services w) service);
  definition ← exec_lift (ok_or definition (ShPlan (MissingDefinition service)));
  mret (seconds_after started_at_ns definition.(sd_stop_timeout_secs)).

(** The same checks as [ControlRun.process_target], with this error type. *)
Definition shutdown_process_target (service : string) (jobs : JobStore) : Result ProcessTarget ShutdownError :=
  let? job_id := ok_or (current_service_main_job jobs service) (ShMissingRunningService service) in
  let? job := ok_or (jobs.(js_records) !! job_id) (ShMissingJobRecord job_id) in
  if bool_decide (job.(jr_state) ≠ JsRunning) then Err (ShJobNotRunning job_id)
  else match job.(jr_pid), job.(jr_pidfd) with
       | Some pid, Some pidfd =>
           Ok {| pt_service := service; pt_pid := pid; pt_pidfd := pidfd; pt_cgroup_id := job.(jr_cgroup_id) |}
       | _, _ => Err (ShMissingProcessHandle job_id)
       end.

Definition service_done_for_shutdown (state : ServiceState) : bool :=
  match state with StInactive | StFailed | StAbandoned | StSkipped => true | _ => false end.

Definition participant_done_for_shutdown (w : Work) (service : string) : bool :=
  is_none_or (runtime_state w service) service_done_for_shutdown.

Record SupervisorShutdownStopDispatch : Type := {
  ssp_service : string;
  ssp_already_stopping : bool;
  ssp_target : option ProcessTarget;
  ssp_signal : option ProcessSignal;
  ssp_service_transition : option ServiceTableTransition;
  ssp_deadline : option ShutdownStopDeadline;
  ssp_unsubstantiated_deadline : option Unsubstantiated;
}.

(** What one participant adds to the wave: its deadline and its dispatch. *)
Definition begin_stopping_participant (service : string) (wave_index : nat) (now_ns : Z)
    : ShutdownM (SupervisorShutdownStopDispatch * list OperationEvent) :=
  retained ← retained_stop_deadline service wave_index now_ns;
  events ← start_stop service now_ns;
  mret ({| ssp_service := service; ssp_already_stopping := true; ssp_target := None; ssp_signal := None;
           ssp_service_transition := None; ssp_deadline := Some retained.(rsd_deadline);
           ssp_unsubstantiated_deadline := retained.(rsd_unsubstantiated) |}, events).

Definition begin_running_participant (service : string) (wave_index : nat) (now_ns : Z)
    : ShutdownM (SupervisorShutdownStopDispatch * list OperationEvent) :=
  target ← exec_get (λ w, shutdown_process_target service (wk_jobs w));
  target ← exec_lift target;
  acknowledged ← exec_get (λ w, is_some_and (table_runtime (wk_services w) service) rt_stopping_acknowledged);
  _ ← (if acknowledged : bool then mret tt
       else work_exec id (exec_on xs_controller set_controller ShBoundary (signal_main target PsSigterm)));
  service_transition ← on_work_services
    (transition_service service {| st_to := StStopping; st_cause := TcShutdownWave |});
  due_at_ns ← shutdown_stop_deadline_ns service now_ns;
  _ ← on_work_services (record_stopping_timeout service
    {| ste_started_at_ns := now_ns; ste_due_at_ns := due_at_ns; ste_cause := TcShutdownWave |});
  events ← start_stop service now_ns;
  cgroup_id ← service_root_cgroup_id service;
  operation_id ← exec_get (λ w, active_stop service (wk_operations w));
  mret ({| ssp_service := service; ssp_already_stopping := false; ssp_target := Some target;
           ssp_signal := then_some (negb acknowledged) PsSigterm;
           ssp_service_transition := Some service_transition;
           ssp_deadline := Some {| ssd_service := service; ssd_cgroup_id := cgroup_id; ssd_started_at_ns := now_ns;
                                   ssd_due_at_ns := due_at_ns; ssd_wave := wave_index;
                                   ssd_operation_id := operation_id |};
           ssp_unsubstantiated_deadline := None |}, events).

Definition begin_participant (wave_index : nat) (now_ns : Z) (participant : ShutdownStopParticipant)
    : ShutdownM (list SupervisorShutdownStopDispatch * list OperationEvent) :=
  let service := participant.(sp_service) in
  done ← exec_get (λ w, participant_done_for_shutdown w service);
  if done : bool then mret ([], [])
  else
    '(dispatch, events) ← (if participant.(sp_already_stopping)
                           then begin_stopping_participant service wave_index now_ns
                           else begin_running_participant service wave_index now_ns);
    mret ([dispatch], events).

(** The deadlines of the wave are those of its dispatches. *)
Definition begin_stop_wave (plan : ShutdownPlan) (wave_index : nat) (now_ns : Z)
    : ShutdownM (list SupervisorShutdownStopDispatch * list ShutdownStopDeadline * list OperationEvent) :=
  match plan.(sh_stop_waves) !! wave_index with
  | None => mret ([], [], [])
  | Some wave =>
      begun ← exec_each (begin_participant wave_index now_ns) wave.(sw_services);
      let dispatches := begun ≫= fst in
      mret (dispatches, omap ssp_deadline dispatches, begun ≫= snd)
  end.

(** ** Progress ([shutdown_progress.rs]) *)

Definition is_empty {A} (l : list A) : bool := match l with [] => true | _ => false end.

Definition live_jobs_remain (w : Work) : bool := live_submitted_jobs_remain (world_of w).(wo_work).

Definition nothing_pending (w : Work) (shutdown : Runtime) : bool :=
  is_empty shutdown.(shr_stop_deadlines) && is_empty shutdown.(shr_post_kill_deadlines) &&
  negb (live_jobs_remain w).

Definition wave_complete (w : Work) (shutdown : Runtime) (wave_index : nat) : bool :=
  match shutdown.(shr_plan).(sh_stop_waves) !! wave_index with
  | None => nothing_pending w shutdown
  | Some wave => forallb (λ participant, participant_done_for_shutdown w participant.(sp_service)) wave.(sw_services)
  end.

(** The loop over the waves; each turn moves to a later wave or ends. *)
Fixpoint advance_waves (fuel : nat) (shutdown : Runtime) (now_ns : Z)
    : ShutdownM (Runtime * list SupervisorShutdownStopDispatch * list OperationEvent) :=
  match fuel with
  | O => λ _, None
  | S fuel =>
      complete ← exec_get (λ w, wave_complete w shutdown shutdown.(shr_current_wave));
      if negb complete then mret (shutdown, [], [])
      else
        let next_wave := S shutdown.(shr_current_wave) in
        if (List.length shutdown.(shr_plan).(sh_stop_waves) <=? next_wave)%nat then
          pending ← exec_get (λ w, nothing_pending w shutdown);
          mret (if pending && waiting_for_services shutdown.(shr_finalization)
                then {| shutdown with shr_finalization := FinReady |} else shutdown, [], [])
        else
          let shutdown := {| shutdown with shr_current_wave := next_wave |} in
          complete ← exec_get (λ w, wave_complete w shutdown next_wave);
          if complete : bool then advance_waves fuel shutdown now_ns
          else
            '(dispatches, deadlines, events) ← begin_stop_wave shutdown.(shr_plan) next_wave now_ns;
            let shutdown := {| shutdown with
              shr_stop_deadlines := shutdown.(shr_stop_deadlines) ++ deadlines |} in
            '(shutdown, later, later_events) ← advance_waves fuel shutdown now_ns;
            mret (shutdown, dispatches ++ later, events ++ later_events)
  end.

Definition wave_fuel (shutdown : Runtime) : nat := S (List.length shutdown.(shr_plan).(sh_stop_waves)).

(** The runtime is taken out of the work, and put back at the end. *)
Definition advance_shutdown_progress (now_ns : Z)
    : ShutdownM (list SupervisorShutdownStopDispatch * list OperationEvent) :=
  settled ← settle_stopped now_ns;
  shutdown ← work_shutdown;
  _ ← exec_update (set_sw_shutdown None);
  '(shutdown, dispatches, events) ← advance_waves (wave_fuel shutdown) shutdown now_ns;
  _ ← exec_update (set_sw_shutdown (Some shutdown));
  mret (dispatches, settled ++ events).

(** ** Beginning ([shutdown.rs]) *)

Record SupervisorShutdownDispatch : Type := {
  shd_operation_events : list OperationEvent;
  shd_runtime : Runtime;
  shd_completed_transitions : list ServiceTableTransition;
  shd_starting : StartingServiceKillResult;
  shd_first_wave : list SupervisorShutdownStopDispatch;
  shd_submitted_stops : list (JobId * SubmittedJobCause * bool);
}.

(** The plan comes from a search with fuel; [Shutdown] shows it returns. *)
Definition planned_shutdown : SupervisorM ShutdownPlan := λ w,
  match plan_graceful_shutdown (wk_services w) with
  | None => None
  | Some r => Some (w, map_err (λ e, SuShutdown (ShPlan e)) r)
  end.

Definition begin_shutdown (settings : ShutdownSettings) (kind : ShutdownKind) (now_ns : Z)
    : SupervisorM SupervisorShutdownDispatch :=
  current ← exec_get sw_shutdown;
  match current with
  | Some shutdown => exec_fail (SuShutdown (ShAlreadyInProgress shutdown.(shr_kind)))
  | None =>
      plan ← planned_shutdown;
      work_atomic (
        requested ← request_stops plan now_ns;
        completed ← exec_map_err SuShutdown (clear_completed_services plan);
        starting ← exec_map_err SuShutdown
          (kill_starting_services plan now_ns settings.(shs_post_kill_timeout_secs));
        '(first_wave, stop_deadlines, events) ← exec_map_err SuShutdown (begin_stop_wave plan 0 now_ns);
        submitted ← work_submitted SuSubmitted
          (stop_submitted_jobs_for_shutdown now_ns settings.(shs_post_kill_timeout_secs));
        live ← exec_get live_jobs_remain;
        let finalization :=
          if is_empty plan.(sh_stop_waves) && is_empty starting.(sks_post_kill_deadlines) && negb live
          then FinReady else FinWaitingForServices in
        let runtime := {|
          shr_kind := kind; shr_initiated_at_ns := now_ns;
          shr_global_deadline_ns := seconds_after now_ns settings.(shs_global_timeout_secs);
          shr_global_timeout_fired := false; shr_plan := plan; shr_current_wave := 0;
          shr_stop_deadlines := stop_deadlines;
          shr_post_kill_deadlines := starting.(sks_post_kill_deadlines);
          shr_finalization := finalization |} in
        _ ← exec_update (set_sw_shutdown (Some runtime));
        _ ← commit_work;
        mret {| shd_operation_events := requested ++ events; shd_runtime := runtime;
                shd_completed_transitions := completed; shd_starting := starting;
                shd_first_wave := first_wave; shd_submitted_stops := submitted |})
  end.

(** ** Jobs that end ([shutdown_terminal.rs], [shutdown_terminal/exit.rs]) *)

Definition shutdown_stopped_state (cause : option TransitionCause) : ServiceState :=
  match cause with
  | Some TcConflictEviction | Some TcBindsToPropagation => StFailed
  | _ => StInactive
  end.

Definition shutdown_stopped_cause (cause : option TransitionCause) : TransitionCause :=
  match cause with
  | Some TcConflictEviction => TcConflictEviction
  | Some TcBindsToPropagation => TcBindsToPropagation
  | Some TcShutdownWave => TcShutdownWave
  | _ => TcExplicitStop
  end.

Definition remove_stop_timeouts (operation_ids : list OperationId) : ShutdownM unit :=
  _ ← exec_each (λ operation_id, work_control id (on_control_with (remove_stop_timeout operation_id))) operation_ids;
  mret tt.

Definition remove_shutdown_deadlines_for_service (service : string) : ShutdownM unit :=
  shutdown ← work_shutdown;
  let operation_ids := omap ssd_operation_id
    (filter (λ deadline, deadline.(ssd_service) = service) shutdown.(shr_stop_deadlines)) in
  _ ← exec_update (set_sw_shutdown (Some {| shutdown with
    shr_stop_deadlines := filter (λ deadline, deadline.(ssd_service) ≠ service) shutdown.(shr_stop_deadlines);
    shr_post_kill_deadlines :=
      filter (λ deadline, deadline.(spk_service) ≠ service) shutdown.(shr_post_kill_deadlines) |}));
  remove_stop_timeouts operation_ids.

Definition shutdown_exit_clears_fd_store (state : ServiceState) : bool :=
  match state with StActive | StReloading | StStarting | StStopping | StAbandoned => true | _ => false end.

Definition shutdown_job_succeeded (definition : ServiceDefinition) (job_event : JobEvent) : bool :=
  match job_event.(je_detail) with
  | JevEnded _ _ exit_code None None => is_some_and exit_code (is_success_exit_code definition)
  | _ => false
  end.

Definition transition_shutdown_service (service : string) (to : ServiceState) (cause : TransitionCause)
    : ShutdownM (option ServiceTableTransition) :=
  transition ← on_work_services (transition_service service {| st_to := to; st_cause := cause |});
  mret (Some transition).

Definition apply_shutdown_active_exit (service : string) (job_event : JobEvent)
    : ShutdownM (option ServiceTableTransition) :=
  definition ← exec_get (λ w, table_definition (wk_services w) service);
  definition ← exec_lift (ok_or definition (ShPlan (MissingDefinition service)));
  if shutdown_job_succeeded definition job_event
  then transition_shutdown_service service StInactive TcCleanExit
  else transition_shutdown_service service StFailed TcProcessCrash.

Definition apply_shutdown_job_exit (job_event : JobEvent) : ShutdownM (option ServiceTableTransition) :=
  match job_event.(je_service) with
  | None => mret None
  | Some service =>
      _ ← remove_shutdown_deadlines_for_service service;
      runtime ← exec_get (λ w, table_runtime (wk_services w) service);
      match runtime with
      | None => mret None
      | Some runtime =>
          _ ← (if shutdown_exit_clears_fd_store runtime.(rt_state)
               then exec_update (λ w, {| w with sw_fd_store := clear_service service w.(sw_fd_store) |})
               else mret tt);
          match runtime.(rt_state) with
          | StActive => apply_shutdown_active_exit service job_event
          | StReloading => transition_shutdown_service service StFailed TcProcessCrash
          | StStarting => transition_shutdown_service service StFailed TcShutdownWave
          | StStopping => transition_shutdown_service service (shutdown_stopped_state runtime.(rt_cause))
                            (shutdown_stopped_cause runtime.(rt_cause))
          | _ => mret None
          end
      end
  end.

Record SupervisorShutdownTerminalDispatch : Type := {
  sht_operation_events : list OperationEvent;
  sht_job_event : JobEvent;
  sht_service_transition : option ServiceTableTransition;
  sht_next_wave : list SupervisorShutdownStopDispatch;
  sht_finalization : ShutdownFinalizationState BoundaryError;
}.

Definition finish_shutdown_terminal_job (finish : JobStore → JobResult JobEvent) (ended_at_ns : Z)
    : SupervisorM SupervisorShutdownTerminalDispatch :=
  work_atomic (
    _ ← exec_map_err SuShutdown work_shutdown;
    job_event ← work_exec id (StartState.on_jobs SuJobStore finish);
    service_transition ← exec_map_err SuShutdown (apply_shutdown_job_exit job_event);
    '(next_wave, operation_events) ← exec_map_err SuShutdown (advance_shutdown_progress ended_at_ns);
    shutdown ← exec_map_err SuShutdown work_shutdown;
    _ ← commit_work;
    mret {| sht_operation_events := operation_events; sht_job_event := job_event;
            sht_service_transition := service_transition; sht_next_wave := next_wave;
            sht_finalization := shutdown.(shr_finalization) |}).

Definition complete_shutdown_job (job_id : JobId) (ended_at_ns exit_code : Z)
    : SupervisorM SupervisorShutdownTerminalDispatch :=
  finish_shutdown_terminal_job (complete_job job_id ended_at_ns exit_code) ended_at_ns.

Definition fail_running_shutdown_job (job_id : JobId) (ended_at_ns : Z) (exit : option JobExit)
    (failure_cause : string) : SupervisorM SupervisorShutdownTerminalDispatch :=
  finish_shutdown_terminal_job (fail_running_job job_id ended_at_ns exit failure_cause) ended_at_ns.

(** ** Timeouts ([shutdown_timeout.rs], [shutdown_timeout_actions/]) *)

Record SupervisorShutdownCgroupKillDispatch : Type := {
  sck_service : string;
  sck_cgroup_id : string;
  sck_killed_at_ns : Z;
}.

Definition shutdown_global_timeout_due (now_ns : Z) (w : Work) : bool :=
  is_some_and w.(sw_shutdown) (λ shutdown,
    negb shutdown.(shr_global_timeout_fired) && waiting_for_services shutdown.(shr_finalization) &&
    (shutdown.(shr_global_deadline_ns) <=? now_ns)).

Definition record_post_kill_deadline (service cgroup_id : string) (now_ns post_kill_timeout_secs : Z)
    : ShutdownM unit :=
  update_shutdown (λ shutdown,
    if existsb (λ deadline, bool_decide (deadline.(spk_service) = service)) shutdown.(shr_post_kill_deadlines)
    then shutdown
    else {| shutdown with shr_post_kill_deadlines := shutdown.(shr_post_kill_deadlines) ++
              [{| spk_service := service; spk_cgroup_id := cgroup_id;
                  spk_due_at_ns := seconds_after now_ns post_kill_timeout_secs |}] |}).

Definition kill_stop_deadline (now_ns post_kill_timeout_secs : Z) (deadline : ShutdownStopDeadline)
    : ShutdownM SupervisorShutdownCgroupKillDispatch :=
  _ ← remove_stop_timeouts (option_list deadline.(ssd_operation_id));
  _ ← kill_group deadline.(ssd_cgroup_id);
  _ ← record_post_kill_deadline deadline.(ssd_service) deadline.(ssd_cgroup_id) now_ns post_kill_timeout_secs;
  mret {| sck_service := deadline.(ssd_service); sck_cgroup_id := deadline.(ssd_cgroup_id);
          sck_killed_at_ns := now_ns |}.

Definition process_due_stop_deadlines (now_ns post_kill_timeout_secs : Z)
    : ShutdownM (list SupervisorShutdownCgroupKillDispatch) :=
  shutdown ← work_shutdown;
  let due := filter (λ deadline, deadline.(ssd_due_at_ns) ≤ now_ns) shutdown.(shr_stop_deadlines) in
  let pending := filter (λ deadline, ¬ deadline.(ssd_due_at_ns) ≤ now_ns) shutdown.(shr_stop_deadlines) in
  _ ← exec_update (set_sw_shutdown (Some {| shutdown with shr_stop_deadlines := pending |}));
  exec_each (kill_stop_deadline now_ns post_kill_timeout_secs) due.

Definition remaining_shutdown_services (w : Work) : list string :=
  match w.(sw_shutdown) with
  | None => []
  | Some shutdown =>
      map sp_service (filter (λ participant,
        is_some_and (runtime_state w participant.(sp_service)) (λ state, negb (service_done_for_shutdown state)))
        (participants shutdown.(shr_plan)))
  end.

Definition kill_remaining_service (now_ns post_kill_timeout_secs : Z) (service : string)
    : ShutdownM SupervisorShutdownCgroupKillDispatch :=
  cgroup_id ← service_root_cgroup_id service;
  _ ← kill_group cgroup_id;
  state ← exec_get (λ w, runtime_state w service);
  _ ← match state with
      | Some StActive | Some StReloading =>
          _ ← on_work_services (transition_service service {| st_to := StStopping; st_cause := TcShutdownWave |});
          mret tt
      | _ => mret tt
      end;
  _ ← record_post_kill_deadline service cgroup_id now_ns post_kill_timeout_secs;
  mret {| sck_service := service; sck_cgroup_id := cgroup_id; sck_killed_at_ns := now_ns |}.

Definition kill_all_remaining_services (now_ns post_kill_timeout_secs : Z)
    : ShutdownM (list SupervisorShutdownCgroupKillDispatch) :=
  remaining ← exec_get remaining_shutdown_services;
  _ ← exec_update (λ w, set_sw_shutdown
    ((λ shutdown, {| shutdown with shr_stop_deadlines := [] |}) <$> w.(sw_shutdown)) w);
  exec_each (kill_remaining_service now_ns post_kill_timeout_secs) remaining.

(** [cleanup_service_cgroup_tree] ([cgroup_cleanup/tree.rs]). *)
Definition path_join (root child : string) : string :=
  if str_is_empty root then child
  else match strip_suffix_char "/"%char root with
       | Some _ => root +:+ child
       | None => root +:+ "/" +:+ child
       end.

Definition service_cgroup_cleanup_order (root_cgroup_id : string) : list string :=
  map (path_join root_cgroup_id) ["main"; "hooks"; "health"] ++ [root_cgroup_id].

Definition cleanup_service_cgroup_tree (root_cgroup_id : string)
    : ShutdownM (list (string * CgroupRemoveOutcome)) :=
  exec_each (λ cgroup_id,
    outcome ← work_exec id (exec_on xs_controller set_controller ShBoundary (remove_cgroup cgroup_id));
    mret (cgroup_id, outcome)) (service_cgroup_cleanup_order root_cgroup_id).

Record SupervisorShutdownAbandonedDispatch : Type := {
  sad_service : string;
  sad_cgroup_id : string;
  sad_service_transition : ServiceTableTransition;
}.

(** A group that is still populated: its jobs are abandoned, the leak is
    recorded, and so is the service. *)
Definition abandon_service (deadline : ShutdownPostKillDeadline) (state : option ServiceState) (now_ns : Z)
    : ShutdownM (list SupervisorShutdownAbandonedDispatch * list JobEvent) :=
  let service := deadline.(spk_service) in
  job_ids ← active_jobs_in_state service JsRunning;
  job_events ← exec_each (λ job_id, on_work_jobs (abandon_job job_id now_ns "process survived SIGKILL")) job_ids;
  _ ← on_work_services (record_leaked_cgroup service deadline.(spk_cgroup_id) LkServiceTree now_ns);
  if bool_decide (state = Some StAbandoned) then mret ([], job_events)
  else
    transition ← on_work_services
      (transition_service service {| st_to := StAbandoned; st_cause := TcProcessUnkillable |});
    mret ([{| sad_service := service; sad_cgroup_id := deadline.(spk_cgroup_id);
              sad_service_transition := transition |}], job_events).

Definition emptied_service (deadline : ShutdownPostKillDeadline) (state : option ServiceState) (now_ns : Z)
    : ShutdownM (list SupervisorShutdownAbandonedDispatch * list JobEvent) :=
  let service := deadline.(spk_service) in
  job_ids ← active_jobs_in_state service JsRunning;
  job_events ← exec_each (λ job_id, on_work_jobs (fail_running_job job_id now_ns None
    "service cgroup emptied after SIGKILL before exit status was observed")) job_ids;
  _ ← cleanup_service_cgroup_tree deadline.(spk_cgroup_id);
  _ ← (if bool_decide (state = Some StStopping) then
         cause ← exec_get (λ w, runtime ← table_runtime (wk_services w) service; runtime.(rt_cause));
         _ ← on_work_services (transition_service service
           {| st_to := shutdown_stopped_state cause; st_cause := shutdown_stopped_cause cause |});
         mret tt
       else mret tt);
  mret ([], job_events).

Definition process_post_kill_deadline (now_ns : Z) (deadline : ShutdownPostKillDeadline)
    : ShutdownM (list SupervisorShutdownAbandonedDispatch * list JobEvent) :=
  state ← exec_get (λ w, runtime_state w deadline.(spk_service));
  populated ← work_exec id
    (exec_on xs_controller set_controller ShBoundary (cgroup_populated deadline.(spk_cgroup_id)));
  if populated : bool then abandon_service deadline state now_ns else emptied_service deadline state now_ns.

Record PostKillDeadlineDispatch : Type := {
  pkd_abandoned : list SupervisorShutdownAbandonedDispatch;
  pkd_job_events : list JobEvent;
  pkd_processed : nat;
}.

Definition process_due_post_kill_deadlines (now_ns : Z) : ShutdownM PostKillDeadlineDispatch :=
  shutdown ← work_shutdown;
  let due := filter (λ deadline, deadline.(spk_due_at_ns) ≤ now_ns) shutdown.(shr_post_kill_deadlines) in
  let pending := filter (λ deadline, ¬ deadline.(spk_due_at_ns) ≤ now_ns) shutdown.(shr_post_kill_deadlines) in
  _ ← exec_update (set_sw_shutdown (Some {| shutdown with shr_post_kill_deadlines := pending |}));
  processed ← exec_each (process_post_kill_deadline now_ns) due;
  mret {| pkd_abandoned := processed ≫= fst; pkd_job_events := processed ≫= snd;
          pkd_processed := List.length due |}.

Record SupervisorShutdownTimeoutDispatch : Type := {
  stt_operation_events : list OperationEvent;
  stt_global_timeout : bool;
  stt_cgroup_kills : list SupervisorShutdownCgroupKillDispatch;
  stt_job_events : list JobEvent;
  stt_abandoned : list SupervisorShutdownAbandonedDispatch;
  stt_next_wave : list SupervisorShutdownStopDispatch;
  stt_finalization : ShutdownFinalizationState BoundaryError;
  stt_submitted : list SubmittedDeadlineDispatch;
}.

(** The global timeout, or the stop timeouts that are due. *)
Definition kill_due_services (settings : ShutdownSettings) (now_ns : Z)
    : SupervisorM (bool * list SubmittedDeadlineDispatch * list SupervisorShutdownCgroupKillDispatch) :=
  let post_kill_timeout_secs := settings.(shs_post_kill_timeout_secs) in
  due ← exec_get (shutdown_global_timeout_due now_ns);
  if due : bool then
    _ ← exec_update (λ w, set_sw_shutdown
      ((λ shutdown, {| shutdown with shr_global_timeout_fired := true |}) <$> w.(sw_shutdown)) w);
    killed ← work_submitted SuSubmitted (kill_all_live_submitted_jobs now_ns post_kill_timeout_secs);
    kills ← exec_map_err SuShutdown (kill_all_remaining_services now_ns post_kill_timeout_secs);
    mret (true, map SdKilled killed, kills)
  else
    kills ← exec_map_err SuShutdown (process_due_stop_deadlines now_ns post_kill_timeout_secs);
    mret (false, [], kills).

Definition fail_stops (global_timeout : bool) (now_ns : Z) (kills : list SupervisorShutdownCgroupKillDispatch)
    : ShutdownM (list OperationEvent) :=
  events ← exec_each (λ kill, fail_stop kill.(sck_service) now_ns
    (if global_timeout then "shutdown global timeout" else "operation_timeout: StopTimeout expired")) kills;
  mret (List.concat events).

(** Nothing is committed when nothing was due: the copy is dropped. *)
Definition process_due_shutdown_timeouts (settings : ShutdownSettings) (now_ns : Z)
    : SupervisorM (option SupervisorShutdownTimeoutDispatch) := λ before,
  let run : SupervisorM (option SupervisorShutdownTimeoutDispatch) :=
    _ ← exec_map_err SuShutdown work_shutdown;
    '(global_timeout, killed, kills) ← kill_due_services settings now_ns;
    failed ← exec_map_err SuShutdown (fail_stops global_timeout now_ns kills);
    post_kill ← exec_map_err SuShutdown (process_due_post_kill_deadlines now_ns);
    submitted ← exec_each (λ deadline, work_submitted SuSubmitted
        (process_submitted_deadline deadline.(sdl_job_id) deadline.(sdl_kind) now_ns
           settings.(shs_post_kill_timeout_secs)))
      (due_submitted_job_deadlines now_ns (world_of before).(wo_work));
    let submitted := killed ++ omap id submitted in
    if is_empty kills && is_empty post_kill.(pkd_job_events) && is_empty post_kill.(pkd_abandoned) &&
       is_empty submitted && negb global_timeout && (post_kill.(pkd_processed) =? 0)%nat
    then
      _ ← exec_update (λ now, work_restore now before);
      mret None
    else
      '(next_wave, events) ← exec_map_err SuShutdown (advance_shutdown_progress now_ns);
      shutdown ← exec_map_err SuShutdown work_shutdown;
      _ ← commit_work;
      mret (Some {| stt_operation_events := failed ++ events; stt_global_timeout := global_timeout;
                    stt_cgroup_kills := kills; stt_job_events := post_kill.(pkd_job_events);
                    stt_abandoned := post_kill.(pkd_abandoned); stt_next_wave := next_wave;
                    stt_finalization := shutdown.(shr_finalization); stt_submitted := submitted |}) in
  work_atomic run before.

(** ** Submitted jobs that end ([submitted/terminal.rs], [submitted/shutdown.rs], [child_reap.rs]) *)

Definition apply_submitted_reap (settings : ShutdownSettings) (job_id : JobId) (status : ChildExitStatus)
    (ended_at_ns : Z) : SupervisorM SubmittedTerminal :=
  work_atomic (
    terminal ← work_submitted SuSubmitted
      (apply_submitted_terminal job_id status ended_at_ns settings.(shs_post_kill_timeout_secs));
    _ ← commit_work;
    mret terminal).

Definition advance_shutdown_after_submitted_job (now_ns : Z) : SupervisorM (list OperationEvent) :=
  work_atomic (
    '(_, events) ← exec_map_err SuShutdown (advance_shutdown_progress now_ns);
    _ ← commit_work;
    mret events).

(** Two transactions, one after the other. *)
Definition reap_submitted_job (settings : ShutdownSettings) (job_id : JobId) (status : ChildExitStatus)
    (ended_at_ns : Z) : SupervisorM (SubmittedTerminal * list OperationEvent) :=
  terminal ← apply_submitted_reap settings job_id status ended_at_ns;
  shutdown ← exec_get sw_shutdown;
  match shutdown with
  | None => mret (terminal, [])
  | Some _ =>
      events ← advance_shutdown_after_submitted_job ended_at_ns;
      mret (terminal, events)
  end.

(** ** The forced reboot ([shutdown_immediate.rs]) *)

Definition immediate_runtime (kind : ShutdownKind) (now_ns : Z) : Runtime := {|
  shr_kind := kind; shr_initiated_at_ns := now_ns; shr_global_deadline_ns := now_ns;
  shr_global_timeout_fired := true;
  shr_plan := {| sh_completed_to_clear := []; sh_starting_to_kill := []; sh_stop_waves := []; sh_ignored := [] |};
  shr_current_wave := 0; shr_stop_deadlines := []; shr_post_kill_deadlines := [];
  shr_finalization := FinFailed None now_ns |}.

Definition kill_process_cgroup (now_ns : Z) (service : string)
    : ShutdownM (list SupervisorShutdownCgroupKillDispatch) :=
  runtime ← exec_get (λ w, table_runtime (wk_services w) service);
  match runtime with
  | None => mret []
  | Some runtime =>
      match process_presence runtime.(rt_state) with
      | PpNone => mret []
      | _ =>
          let cgroup_id := service_cgroup_root_path service runtime.(rt_cgroup_generation) in
          _ ← kill_group cgroup_id;
          mret [{| sck_service := service; sck_cgroup_id := cgroup_id; sck_killed_at_ns := now_ns |}]
      end
  end.

(** The kills and the runtime; the final action follows in [finalize_shutdown]. *)
Definition force_reboot_shutdown (now_ns : Z)
    : SupervisorM (list OperationEvent * list SupervisorShutdownCgroupKillDispatch) :=
  work_atomic (
    services ← exec_get (λ w, service_names (wk_services w));
    killed ← exec_map_err SuShutdown (exec_each (kill_process_cgroup now_ns) services);
    let killed := List.concat killed in
    events ← exec_map_err SuShutdown
      (exec_each (λ kill, fail_stop kill.(sck_service) now_ns "forced reboot") killed);
    _ ← exec_update (set_sw_shutdown (Some (immediate_runtime KindReboot now_ns)));
    _ ← commit_work;
    mret (List.concat events, killed)).

(** ** Deadlines ([shutdown_driver.rs]) *)

Inductive ShutdownDeadlineKind : Type :=
| GlobalTimeout
| StopTimeout (service : string)
| PostKillTimeout (service : string)
| FinalActionRetry
| SubmittedJobDeadlineOf (job_id : JobId).

Definition deadline_sort_key (kind : ShutdownDeadlineKind) : Z :=
  match kind with
  | StopTimeout _ => 0
  | PostKillTimeout _ => 1
  | SubmittedJobDeadlineOf _ => 1
  | GlobalTimeout => 2
  | FinalActionRetry => 3
  end.

Record ShutdownDeadline : Type := { shl_due_at_ns : Z; shl_kind : ShutdownDeadlineKind }.

Definition shutdown_deadline_le (a b : ShutdownDeadline) : Prop :=
  prod_le (a.(shl_due_at_ns), deadline_sort_key a.(shl_kind)) (b.(shl_due_at_ns), deadline_sort_key b.(shl_kind)).

#[export] Instance shutdown_deadline_le_dec : RelDecision shutdown_deadline_le.
Proof. intros a b. unfold shutdown_deadline_le. apply _. Defined.

Definition shutdown_deadlines (w : Work) (shutdown : Runtime) : list ShutdownDeadline :=
  (if negb shutdown.(shr_global_timeout_fired) && waiting_for_services shutdown.(shr_finalization)
   then [{| shl_due_at_ns := shutdown.(shr_global_deadline_ns); shl_kind := GlobalTimeout |}] else []) ++
  map (λ d, {| shl_due_at_ns := d.(ssd_due_at_ns); shl_kind := StopTimeout d.(ssd_service) |})
    shutdown.(shr_stop_deadlines) ++
  map (λ d, {| shl_due_at_ns := d.(sdl_due_at_ns); shl_kind := SubmittedJobDeadlineOf d.(sdl_job_id) |})
    (due_submitted_job_deadlines u64_max (world_of w).(wo_work)) ++
  map (λ d, {| shl_due_at_ns := d.(spk_due_at_ns); shl_kind := PostKillTimeout d.(spk_service) |})
    shutdown.(shr_post_kill_deadlines) ++
  match shutdown.(shr_finalization) with
  | FinFailed _ next_retry_at_ns => [{| shl_due_at_ns := next_retry_at_ns; shl_kind := FinalActionRetry |}]
  | _ => []
  end.

Definition next_shutdown_deadline (w : Work) : option ShutdownDeadline :=
  shutdown ← w.(sw_shutdown);
  min_by shutdown_deadline_le (shutdown_deadlines w shutdown).
End Run.
