(* ===== verification/ShutdownFinal.v ===== *)
(** * The final action of a shutdown

    Models [src/src/supervisor/shutdown_finalize.rs] (saving the seed, taking
    the mounts down, syncing and rebooting, with retries) and
    [src/src/supervisor/shutdown_signal.rs] (what SIGTERM, SIGPWR and SIGINT
    ask for). The system calls are the trait [ShutdownFinalizer]
    ([boundary/model/shutdown.rs]), a class here. A failed action keeps the
    boundary's error, not its debug text. *)

From S2P Require Import Prelude RustStr Shutdown Effects StartState ShutdownRun.
From Stdlib Require Import String Ascii Sorted Permutation.
Open Scope string_scope.
Open Scope list_scope.
Open Scope Z_scope.

Class ShutdownFinalizer (F BoundaryError : Type) : Type := {
  save_random_seed : F → F * Result unit BoundaryError;
  snapshot_mounts_of : F → F * Result (list string) BoundaryError;
  unmount : string → F → F * Result unit BoundaryError;
  remount_readonly : string → F → F * Result unit BoundaryError;
  sync_filesystems : F → F * Result unit BoundaryError;
  reboot : ShutdownKind → F → F * Result unit BoundaryError;
  monotonic_now_ns : F → F * option Z;
}.

Definition FINAL_ACTION_RETRY_INTERVAL_NS : Z := 1000000000.

(** The segments of a path, and its depth. *)
Definition path_segments (path : string) : list string :=
  retain (λ segment, negb (str_is_empty segment)) (split_char "/"%char path).
Definition mount_depth (mount_point : string) : nat := List.length (path_segments mount_point).

(** Deeper mounts first, then by name. *)
Definition mount_le (a b : string) : Prop :=
  prod_le (- Z.of_nat (mount_depth a), a) (- Z.of_nat (mount_depth b), b).

#[export] Instance mount_le_dec : RelDecision mount_le.
Proof. intros a b. unfold mount_le. apply _. Defined.
#[export] Instance mount_le_total : Total mount_le.
Proof. intros a b. unfold mount_le. apply (total prod_le). Qed.
#[export] Instance mount_le_trans : Transitive mount_le.
Proof. intros a b c. unfold mount_le. apply (transitivity (R := prod_le)). Qed.

Section Final.
Context {F BoundaryError : Type} `{!ShutdownFinalizer F BoundaryError}.

Inductive CleanupActionResult : Type := CleanupOk | CleanupFailed (error : BoundaryError).

Definition cleanup_result (result : Result unit BoundaryError) : CleanupActionResult :=
  match result with Ok _ => CleanupOk | Err error => CleanupFailed error end.

Record MountCleanupResult : Type := {
  mcr_mount_point : string;
  mcr_unmount : CleanupActionResult;
  mcr_remount_readonly : option CleanupActionResult;
}.

Record ShutdownFinalizationReport : Type := {
  fnr_random_seed : CleanupActionResult;
  fnr_snapshot_mounts : CleanupActionResult;
  fnr_mount_results : list MountCleanupResult;
  fnr_root_remount : CleanupActionResult;
  fnr_sync_result : CleanupActionResult;
  fnr_reboot_result : CleanupActionResult;
}.

(** An action of the finalizer that cannot fail the step. *)
Definition act {E A} (f : F → F * A) : Eff F E A := λ s, let (s, a) := f s in (s, Ok a).
Definition attempt {E} (f : F → F * Result unit BoundaryError) : Eff F E CleanupActionResult :=
  result ← act f;
  mret (cleanup_result result).

Definition snapshot_mounts {E} : Eff F E (CleanupActionResult * list string) :=
  mounts ← act snapshot_mounts_of;
  mret match mounts with
       | Ok mount_points =>
           (CleanupOk, sort_by mount_le (retain (λ mount_point, negb (bool_decide (mount_point = "/"))) mount_points))
       | Err error => (CleanupFailed error, [])
       end.

Definition cleanup_mount {E} (mount_point : string) : Eff F E MountCleanupResult :=
  unmounted ← attempt (unmount mount_point);
  remounted ← match unmounted with
              | CleanupOk => mret None
              | CleanupFailed _ => result ← attempt (remount_readonly mount_point); mret (Some result)
              end;
  mret {| mcr_mount_point := mount_point; mcr_unmount := unmounted; mcr_remount_readonly := remounted |}.

Definition time_after_attempt {E} (now_ns : Z) : Eff F E Z :=
  after ← act monotonic_now_ns;
  mret match after with Some after_ns => Z.max after_ns now_ns | None => now_ns end.

Definition finalization_after_reboot_result (result : CleanupActionResult) (attempted_at_ns : Z)
    : ShutdownFinalizationState BoundaryError :=
  match result with
  | CleanupOk => FinCompleted
  | CleanupFailed error =>
      FinFailed (Some error) (u64_saturating_add attempted_at_ns FINAL_ACTION_RETRY_INTERVAL_NS)
  end.

Definition run_shutdown_finalization {E} (kind : ShutdownKind) (now_ns : Z)
    : Eff F E (ShutdownFinalizationReport * ShutdownFinalizationState BoundaryError) :=
  random_seed ← attempt save_random_seed;
  '(snapshot, mount_points) ← snapshot_mounts;
  mount_results ← for_each cleanup_mount mount_points;
  root_remount ← attempt (remount_readonly "/");
  sync_result ← attempt sync_filesystems;
  reboot_result ← attempt (reboot kind);
  attempted_at_ns ← time_after_attempt now_ns;
  mret ({| fnr_random_seed := random_seed; fnr_snapshot_mounts := snapshot; fnr_mount_results := mount_results;
           fnr_root_remount := root_remount; fnr_sync_result := sync_result; fnr_reboot_result := reboot_result |},
        finalization_after_reboot_result reboot_result attempted_at_ns).

Definition retry_shutdown_final_action {E} (kind : ShutdownKind) (now_ns : Z)
    : Eff F E (ShutdownFinalizationReport * ShutdownFinalizationState BoundaryError) :=
  sync_result ← attempt sync_filesystems;
  reboot_result ← attempt (reboot kind);
  attempted_at_ns ← time_after_attempt now_ns;
  mret ({| fnr_random_seed := CleanupOk; fnr_snapshot_mounts := CleanupOk; fnr_mount_results := [];
           fnr_root_remount := CleanupOk; fnr_sync_result := sync_result; fnr_reboot_result := reboot_result |},
        finalization_after_reboot_result reboot_result attempted_at_ns).

(** The runtime, and the answer. *)
Definition finalize_shutdown (shutdown : option (ShutdownRuntime BoundaryError)) (now_ns : Z)
    : Eff F (@ShutdownError BoundaryError)
        (ShutdownRuntime BoundaryError * ShutdownFinalizationReport) :=
  shutdown ← lift_result (ok_or shutdown ShNoShutdownInProgress);
  '(report, finalization) ←
    match shutdown.(shr_finalization) with
    | FinReady => run_shutdown_finalization shutdown.(shr_kind) now_ns
    | FinFailed _ next_retry_at_ns =>
        if next_retry_at_ns <=? now_ns then retry_shutdown_final_action shutdown.(shr_kind) now_ns
        else fail_with (ShFinalActionRetryNotDue next_retry_at_ns now_ns)
    | FinWaitingForServices => fail_with ShShutdownNotReady
    | FinCompleted => fail_with ShShutdownNotReady
    end;
  mret ({| shutdown with shr_finalization := finalization |}, report).

(** [finalize_due_shutdown] acts exactly when this holds ([shutdown_driver.rs]). *)
Definition shutdown_finalization_due (shutdown : option (ShutdownRuntime BoundaryError)) (now_ns : Z) : bool :=
  match shr_finalization <$> shutdown with
  | Some FinReady => true
  | Some (FinFailed _ next_retry_at_ns) => next_retry_at_ns <=? now_ns
  | _ => false
  end.
End Final.

(** ** Signals ([shutdown_signal.rs]) *)

Section Signals.
Context {P BoundaryError : Type} `{!ProcessController P BoundaryError}.
Notation SupervisorM := (Exec (ShutdownWork P BoundaryError) SupervisorShutdownError).

Inductive SupervisorShutdownSignalAction : Type :=
| SaGraceful (dispatch : @SupervisorShutdownDispatch BoundaryError)
| SaAlreadyInProgress (kind : ShutdownKind)
| SaForced (kills : list SupervisorShutdownCgroupKillDispatch).

Definition begin_unless_in_progress (settings : ShutdownSettings) (kind : ShutdownKind) (observed_at_ns : Z)
    : SupervisorM SupervisorShutdownSignalAction :=
  current ← exec_get sw_shutdown;
  match current with
  | Some shutdown => mret (SaAlreadyInProgress shutdown.(shr_kind))
  | None =>
      dispatch ← begin_shutdown settings kind observed_at_ns;
      mret (SaGraceful dispatch)
  end.

(** The presses are counted beside the work, and stay counted after an error. *)
Definition handle_shutdown_signal (settings : ShutdownSettings) (signal : ShutdownSignal) (observed_at_ns : Z)
    (tracker : ShutdownSignalTracker) : ShutdownSignalTracker * SupervisorM SupervisorShutdownSignalAction :=
  match signal with
  | Sigterm | Sigpwr => (tracker, begin_unless_in_progress settings KindPoweroff observed_at_ns)
  | Sigint =>
      let (tracker, forced) := record_sigint observed_at_ns tracker in
      (tracker, if forced then
                  '(_, kills) ← force_reboot_shutdown observed_at_ns;
                  mret (SaForced kills)
                else begin_unless_in_progress settings KindReboot observed_at_ns)
  end.
End Signals.

(** ** The order of the mounts *)

Section Sorting.
Context {A : Type} (le : A → A → Prop) `{!RelDecision le, !Total le, !Transitive le}.

Lemma insert_by_perm x l : insert_by le x l ≡ₚ x :: l.
Proof using RelDecision0.
  induction l as [|y l IH]; simpl; [done|]. destruct (decide (le y x)); [|done]. rewrite IH. constructor.
Qed.

Lemma sort_by_perm l : sort_by le l ≡ₚ l.
Proof using RelDecision0.
  induction l as [|x l IH] using rev_ind; [done|]. unfold sort_by in *. rewrite foldl_app. simpl.
  rewrite insert_by_perm, IH. by rewrite Permutation_cons_append.
Qed.

Lemma insert_by_sorted x l : StronglySorted le l → StronglySorted le (insert_by le x l).
Proof using RelDecision0 Total0 Transitive0.
  induction l as [|y l IH]; simpl; intros Hs; [by repeat constructor|].
  inversion Hs as [|? ? Hl Hy]; subst. destruct (decide (le y x)) as [Hle|Hle].
  - constructor; [auto|]. rewrite insert_by_perm. by constructor.
  - assert (le x y) by (by destruct (total le x y)). constructor; [done|]. constructor; [done|].
    eapply Forall_impl; [exact Hy|]. intros z Hz. by etrans.
Qed.

Lemma sort_by_sorted l : StronglySorted le (sort_by le l).
Proof using RelDecision0 Total0 Transitive0.
  induction l as [|x l IH] using rev_ind; [constructor|]. unfold sort_by in *. rewrite foldl_app.
  by apply insert_by_sorted.
Qed.

Lemma StronglySorted_lookup l i j a b :
  StronglySorted le l → (i < j)%nat → l !! i = Some a → l !! j = Some b → le a b.
Proof.
  intros Hs. revert i j. induction Hs as [|x l Hs IH Hx]; intros i j Hij Ha Hb; [done|].
  destruct j as [|j]; [lia|]. destruct i as [|i]; simpl in *.
  - injection Ha as <-. rewrite Forall_forall in Hx. by apply Hx, list_elem_of_lookup_2 with j.
  - by apply (IH i j); [lia|..].
Qed.
End Sorting.

(** [b] is a mount below [a]: its path goes on from [a]'s. *)
Definition mounted_below (a b : string) : Prop :=
  ∃ rest, rest ≠ [] ∧ path_segments b = path_segments a ++ rest.

Lemma mounted_below_not_le a b : mounted_below a b → ¬ mount_le a b.
Proof.
  intros (rest & Hne & E) [H _]. simpl in H. unfold mount_depth in H. rewrite E, length_app in H.
  destruct rest; [done|]. simpl in H. lia.
Qed.

Section FinalExact.
Context {F BoundaryError : Type} `{!ShutdownFinalizer F BoundaryError}.

(** Read-only remounts are for what could not be unmounted. *)
Definition mount_handled (result : @MountCleanupResult BoundaryError) : Prop :=
  result.(mcr_remount_readonly) = None ↔ result.(mcr_unmount) = CleanupOk.

Lemma attempt_run {E} (g : F → F * Result unit BoundaryError) (f : F) : attempt (E := E) g f = ((g f).1, Ok (cleanup_result (g f).2)).
Proof. unfold attempt, act, mbind, eff_bind. by destruct (g f). Qed.

Lemma cleanup_mount_run {E} mount (f : F) : ∃ f' result,
  cleanup_mount (E := E) mount f = (f', Ok result) ∧ result.(mcr_mount_point) = mount ∧ mount_handled result.
Proof.
  unfold cleanup_mount. rewrite (bind_Ok _ _ _ _ _ (attempt_run _ f)).
  destruct (cleanup_result _) as [|e]; [by eexists _, _|].
  eexists _, _. split.
  { etrans; [eapply bind_Ok; rewrite (bind_Ok _ _ _ _ _ (attempt_run _ _)); reflexivity|reflexivity]. }
  split; [done|]. unfold mount_handled. simpl. by split.
Qed.

Lemma cleanup_mounts_run {E} l (f : F) : ∃ f' results,
  for_each (E := E) cleanup_mount l f = (f', Ok results) ∧ map mcr_mount_point results = l ∧
  Forall mount_handled results.
Proof.
  revert f. induction l as [|mount l IH]; intros f; [by exists f, []|].
  cbn [for_each]. destruct (cleanup_mount_run (E := E) mount f) as (f1 & result & E1 & Hm & Hh).
  rewrite (bind_Ok _ _ _ _ _ E1). destruct (IH f1) as (f2 & results & E2 & Hms & Hhs).
  rewrite (bind_Ok _ _ _ _ _ E2). exists f2, (result :: results). split; [done|].
  split; [simpl; congruence|by constructor].
Qed.

Lemma snapshot_mounts_run {E} (f : F) : ∃ r,
  snapshot_mounts (E := E) f = ((snapshot_mounts_of f).1, Ok r) ∧
  ∀ mounts, (snapshot_mounts_of f).2 = Ok mounts →
    r.2 = sort_by mount_le (retain (λ mount, negb (bool_decide (mount = "/"))) mounts).
Proof.
  unfold snapshot_mounts, act, mbind, eff_bind. destruct (snapshot_mounts_of f) as [f1 [mounts|e]]; simpl.
  - eexists. split; [done|]. by intros ? [= <-].
  - eexists. by split.
Qed.

(** The order the mounts are taken down in. *)
Lemma mount_order_ok mounts :
  let handled := sort_by mount_le (retain (λ mount, negb (bool_decide (mount = "/"))) mounts) in
  handled ≡ₚ filter (λ mount, mount ≠ "/") mounts ∧
  ∀ i j a b, handled !! i = Some a → handled !! j = Some b → mounted_below a b → (j < i)%nat.
Proof.
  split.
  - rewrite sort_by_perm. unfold retain. erewrite list_filter_iff; [done|].
    intros x. by rewrite negb_true_iff, bool_decide_eq_false.
  - intros i j a b Ha Hb Hbelow. destruct (decide (j < i)%nat) as [|Hge]; [done|exfalso].
    apply (mounted_below_not_le a b Hbelow). destruct (decide (i = j)) as [->|Hne].
    + assert (a = b) as <- by congruence. destruct Hbelow as (rest & Hrest & E).
      apply (f_equal List.length) in E. rewrite length_app in E. by destruct rest; [|simpl in E; lia].
    + eapply StronglySorted_lookup; [apply (sort_by_sorted mount_le)| |exact Ha|exact Hb]. lia.
Qed.

Lemma run_finalization_run {E} kind now_ns (f : F) : ∃ f' report finalization,
  run_shutdown_finalization (E := E) kind now_ns f = (f', Ok (report, finalization)) ∧
  (∀ mounts, (snapshot_mounts_of (save_random_seed f).1).2 = Ok mounts →
     map mcr_mount_point report.(fnr_mount_results) =
       sort_by mount_le (retain (λ mount, negb (bool_decide (mount = "/"))) mounts)) ∧
  Forall mount_handled report.(fnr_mount_results) ∧
  ∃ attempted_at_ns, now_ns ≤ attempted_at_ns ∧
    finalization = finalization_after_reboot_result report.(fnr_reboot_result) attempted_at_ns.
Proof.
  destruct (snapshot_mounts_run (E := E) (save_random_seed f).1) as ([snapshot mount_points] & Es & Hr).
  destruct (cleanup_mounts_run (E := E) mount_points (snapshot_mounts_of (save_random_seed f).1).1)
    as (f3 & results & E3 & Hm & Hh).
  eexists _, _, _. split.
  { unfold run_shutdown_finalization. rewrite (bind_Ok _ _ _ _ _ (attempt_run _ f)).
    rewrite (bind_Ok _ _ _ _ _ Es). rewrite (bind_Ok _ _ _ _ _ E3).
    do 3 rewrite (bind_Ok _ _ _ _ _ (attempt_run _ _)). unfold time_after_attempt, act, mbind, eff_bind.
    rewrite (surjective_pairing (monotonic_now_ns _)). reflexivity. }
  cbn. split_and!; [|done|].
  - intros mounts Hmounts. by rewrite Hm, <-(Hr _ Hmounts).
  - eexists. split; [|done]. destruct (monotonic_now_ns _).2; lia.
Qed.

End FinalExact.

(** A machine with a busy disk whose reboot call fails. *)
#[local] Instance stubborn_machine : ShutdownFinalizer unit string := {|
  save_random_seed (f : unit) := (f, Ok tt);
  snapshot_mounts_of (f : unit) := (f, Ok ["/"; "/home"; "/var"; "/home/ada/disk"; "/home/ada"]);
  unmount (mount : string) (f : unit) := (f, if bool_decide (mount = "/var") then Err "busy" else Ok tt);
  remount_readonly (_ : string) (f : unit) := (f, Ok tt);
  sync_filesystems (f : unit) := (f, Ok tt);
  reboot (_ : ShutdownKind) (f : unit) := (f, Err "not permitted");
  monotonic_now_ns (f : unit) := (f, Some 7) |}.

Definition ready_runtime : ShutdownRuntime string := {|
  shr_kind := KindReboot; shr_initiated_at_ns := 1; shr_global_deadline_ns := 90000000001;
  shr_global_timeout_fired := false;
  shr_plan := {| sh_completed_to_clear := []; sh_starting_to_kill := []; sh_stop_waves := []; sh_ignored := [] |};
  shr_current_wave := 0; shr_stop_deadlines := []; shr_post_kill_deadlines := [];
  shr_finalization := FinReady |}.

Example mounts_go_deepest_first :
  (λ r, match r with Ok (_, report) => map mcr_mount_point report.(fnr_mount_results) | Err _ => [] end)
    (finalize_shutdown (Some ready_runtime) 5 tt).2 = ["/home/ada/disk"; "/home/ada"; "/home"; "/var"].
Proof. vm_compute. reflexivity. Qed.

