(* ===== verification/BootTrackers.v ===== *)
(** * After the boot plan: settling, success and the boot window

    Models what the supervisor keeps of a boot once its plan runs: the services
    that start when the boot has settled ([src/src/supervisor/boot_settle.rs]),
    whether the boot counts as a success ([boot_success.rs]), and which
    definitions a reload must not replace while the plan runs
    ([boot_window.rs]).

    The counter of boot attempts is a parameter: a function on its state. *)

From S2P Require Import Prelude RustStr ServiceRuntime ServiceDef Ids Roles Calendar Restart Cgroup ServiceTable.
From S2P Require Import ServiceReload Graph OperationRecord OperationStore OperationInv BootGraph BootGraphSpec BootPlan BootRun.
From S2P Require Import ExecGraph JobRecord JobStore ShutdownFinal.
From Stdlib Require Import String.
Open Scope string_scope.
Open Scope list_scope.
Open Scope Z_scope.

(** ** Services that wait for the boot to settle ([boot_settle.rs]) *)

Record BootSettleTracker : Type := {
  bst_awaiting : list string;
  bst_pending_starts : list string;
  bst_deadline_ns : Z;
  bst_settled_due_at_ns : Z;
  bst_fired : bool;
}.

Definition boot_settle_tracker_default : BootSettleTracker :=
  {| bst_awaiting := []; bst_pending_starts := []; bst_deadline_ns := 0; bst_settled_due_at_ns := 0; bst_fired := false |}.

(** Starts when the boot has settled, unless it is disabled. *)
Definition starts_when_settled (services : ServiceTable) (service : string) : bool :=
  is_some_and (table_definition services service) (λ definition,
    has_boot_settled_trigger definition && negb definition.(sd_disabled)).

Definition tty_rank (services : ServiceTable) (service : string) : Z :=
  default 0 (sd_console_precedence <$> table_definition services service).

(** [right.cmp(left).then_with(|| left_name.cmp(right_name))]. *)
Definition settled_before (a b : Z * string) : Prop := prod_le (- a.1, a.2) (- b.1, b.2).

#[export] Instance settled_before_dec : RelDecision settled_before.
Proof. intros a b. unfold settled_before. apply _. Defined.

Definition settled_starts (services : ServiceTable) : list string :=
  map snd (sort_by settled_before
    (map (λ service, (tty_rank services service, service)) (retain (starts_when_settled services) (service_names services)))).

Definition settle_configure_phase2 (services : ServiceTable) (awaiting : list string) (observed_at_ns settle_timeout_secs : Z)
    : BootSettleTracker := {|
  bst_awaiting := awaiting;
  bst_pending_starts := settled_starts services;
  bst_deadline_ns := u64_saturating_add observed_at_ns (u64_saturating_mul settle_timeout_secs NANOS_PER_SEC);
  bst_settled_due_at_ns := Z.max observed_at_ns 1;
  bst_fired := false |}.

Definition settle_is_terminal (state : ServiceState) : bool :=
  match state with
  | StActive | StCompleted | StFailed | StSkipped | StAbandoned | StInactive => true
  | StStarting | StReloading | StStopping | StBackoff => false
  end.

Definition is_settled (self : BootSettleTracker) (services : ServiceTable) : bool :=
  forallb (λ service,
    match table_runtime services service with
    | None => true
    | Some runtime => settle_is_terminal runtime.(rt_state)
    end) self.(bst_awaiting).

Record BootSettleDeadline : Type := { bsd_due_at_ns : Z; bsd_services : list string }.
Record BootSettleDue : Type := { bsu_services : list string; bsu_timed_out : bool }.

Definition settle_next_deadline (self : BootSettleTracker) (services : ServiceTable) : option BootSettleDeadline :=
  match self.(bst_fired), self.(bst_pending_starts) with
  | true, _ | _, [] => None
  | false, pending =>
      Some {| bsd_due_at_ns := if is_settled self services then self.(bst_settled_due_at_ns) else self.(bst_deadline_ns);
              bsd_services := pending |}
  end.

Definition settle_take_due (self : BootSettleTracker) (services : ServiceTable) (now_ns : Z)
    : BootSettleTracker * option BootSettleDue :=
  match settle_next_deadline self services with
  | None => (self, None)
  | Some deadline =>
      if now_ns <? deadline.(bsd_due_at_ns) then (self, None)
      else ({| self with bst_fired := true |},
            Some {| bsu_services := deadline.(bsd_services); bsu_timed_out := negb (is_settled self services) |})
  end.

(** ** The success of a boot ([boot_success.rs]) *)

Record BootModeRecord : Type := { bmr_mode : BootMode; bmr_downgrade : list SafeModeDowngrade }.

Definition boot_mode_from_plan (plan : Phase2BootPlan) : BootModeRecord :=
  {| bmr_mode := plan.(bp_mode); bmr_downgrade := plan.(bp_safe_mode_downgrade) |}.

Definition boot_mode_reason (self : BootModeRecord) : BootModeReason :=
  match self.(bmr_downgrade), self.(bmr_mode) with
  | _ :: _, _ => ReasonSafeModeDowngrade
  | [], ModeFull => ReasonNormal
  | [], _ => ReasonRequested
  end.

Record BootSuccessTracker : Type := {
  bsk_required_critical_services : list string;
  bsk_grace_secs : Z;
  bsk_empty_critical_satisfied_since_ns : option Z;
  bsk_reset_attempted : bool;
  bsk_reset_error : option string;
}.

Definition is_critical_service (services : ServiceTable) (service : string) : bool :=
  is_some_and (table_definition services service) (λ definition, bool_decide (definition.(sd_error_control) = EcCritical)).

Definition success_configure_phase2 (services : ServiceTable) (plan : Phase2BootPlan) (retained_satisfied : list string)
    (grace_secs : Z) : BootSuccessTracker := {|
  bsk_required_critical_services := sort_dedup (retain (is_critical_service services)
    (map ps_service plan.(bp_starts) ++ map bs_service plan.(bp_blocked) ++ retained_satisfied));
  bsk_grace_secs := grace_secs;
  bsk_empty_critical_satisfied_since_ns :=
    match plan.(bp_mode) with ModeRecovery => None | _ => Some plan.(bp_observed_at_ns) end;
  bsk_reset_attempted := false;
  bsk_reset_error := None |}.

(** Since when the service satisfies its dependents, if it does. *)
Definition satisfied_since (services : ServiceTable) (service : string) : option Z :=
  runtime ← table_runtime services service;
  if satisfies_dependents runtime.(rt_state) then runtime.(rt_dependent_satisfied_since_ns) else None.

Fixpoint latest_satisfied (services : ServiceTable) (since_ns : Z) (required : list string) : option Z :=
  match required with
  | [] => Some since_ns
  | service :: required =>
      service_since_ns ← satisfied_since services service;
      latest_satisfied services (Z.max since_ns service_since_ns) required
  end.

Definition required_satisfied_since_ns (self : BootSuccessTracker) (services : ServiceTable) : option Z :=
  match self.(bsk_required_critical_services) with
  | [] => self.(bsk_empty_critical_satisfied_since_ns)
  | required => latest_satisfied services 0 required
  end.

Record BootSuccessDeadline : Type := {
  bud_due_at_ns : Z;
  bud_satisfied_since_ns : Z;
  bud_required_critical_services : list string;
}.

Definition success_next_deadline (self : BootSuccessTracker) (services : ServiceTable) : option BootSuccessDeadline :=
  if self.(bsk_reset_attempted) then None
  else
    since_ns ← required_satisfied_since_ns self services;
    Some {| bud_due_at_ns := u64_saturating_add since_ns (u64_saturating_mul self.(bsk_grace_secs) NANOS_PER_SEC);
            bud_satisfied_since_ns := since_ns;
            bud_required_critical_services := self.(bsk_required_critical_services) |}.

Record BootConfirmation : Type := {
  bcf_confirmed : bool;
  bcf_waiting_on : list string;
  bcf_due_at_ns : option Z;
  bcf_error : option string;
}.

Definition confirmation (self : BootSuccessTracker) (services : ServiceTable) : BootConfirmation :=
  if self.(bsk_reset_attempted) then
    {| bcf_confirmed := bool_decide (self.(bsk_reset_error) = None); bcf_waiting_on := []; bcf_due_at_ns := None;
       bcf_error := self.(bsk_reset_error) |}
  else
    {| bcf_confirmed := false;
       bcf_waiting_on := retain (λ service, bool_decide (satisfied_since services service = None))
         self.(bsk_required_critical_services);
       bcf_due_at_ns := bud_due_at_ns <$> success_next_deadline self services; bcf_error := None |}.

Record SupervisorBootSuccessDispatch (E : Type) : Type := {
  sbs_required_critical_services : list string;
  sbs_satisfied_since_ns : Z;
  sbs_due_at_ns : Z;
  sbs_reset_result : Result unit E;
}.
Arguments sbs_required_critical_services {E}.
Arguments sbs_satisfied_since_ns {E}.
Arguments sbs_due_at_ns {E}.
Arguments sbs_reset_result {E}.

Section Success.
Context {C E : Type} (reset_boot_attempt_counter : C → C * Result unit E) (debug : E → string).

Definition success_process_due (services : ServiceTable) (now_ns : Z) (self : BootSuccessTracker) (counter : C)
    : BootSuccessTracker * C * option (SupervisorBootSuccessDispatch E) :=
  match success_next_deadline self services with
  | None => (self, counter, None)
  | Some deadline =>
      if now_ns <? deadline.(bud_due_at_ns) then (self, counter, None)
      else
        let (counter, result) := reset_boot_attempt_counter counter in
        ({| self with bsk_reset_attempted := true;
                      bsk_reset_error := match result with Err error => Some (debug error) | Ok _ => None end |},
         counter,
         Some {| sbs_required_critical_services := deadline.(bud_required_critical_services);
                 sbs_satisfied_since_ns := deadline.(bud_satisfied_since_ns);
                 sbs_due_at_ns := deadline.(bud_due_at_ns); sbs_reset_result := result |})
  end.
End Success.

(** ** The boot window ([boot_window.rs]) *)

Record DeferredRegistryReload : Type := { drr_services : list string }.

Definition launch_seen (context : GraphExecutionContext) (jobs : JobStore) (service : string) : bool :=
  is_some_and (member ← context.(gc_members) !! service; job_id ← member.(gm_reserved_job_id); jobs.(js_records) !! job_id)
    (λ job, negb (bool_decide (job.(jr_state) = JsCreated))).

Definition frozen_boot_plan_members (boot_plan_context : option GraphContextId) (graph : GraphExecutionStore)
    (jobs : JobStore) : option (list string) :=
  match boot_plan_context with
  | None => Some []
  | Some context_id =>
      match graph.(gs_contexts) !! context_id with
      | None => Some []
      | Some context =>
          unattempted ← store_unattempted_launches context_id graph;
          Some (retain (λ service, negb (launch_seen context jobs service)) unattempted)
      end
  end.

Definition boot_plan_in_progress (boot_plan_context : option GraphContextId) (graph : GraphExecutionStore)
    (jobs : JobStore) : option bool :=
  frozen ← frozen_boot_plan_members boot_plan_context graph jobs;
  Some (match frozen with [] => false | _ => true end).

Definition record_deferred_definitions (services : list string) (deferred : option DeferredRegistryReload)
    : option DeferredRegistryReload :=
  match services with
  | [] => deferred
  | _ => Some {| drr_services := sort_dedup (match deferred with Some d => d.(drr_services) | None => [] end ++ services) |}
  end.

Definition take_due_deferred_registry_reload (boot_plan_context : option GraphContextId) (graph : GraphExecutionStore)
    (jobs : JobStore) (deferred : option DeferredRegistryReload)
    : option (option DeferredRegistryReload * option DeferredRegistryReload) :=
  in_progress ← boot_plan_in_progress boot_plan_context graph jobs;
  Some (if in_progress : bool then (deferred, None) else (None, deferred)).

(** ** What starts once the boot has settled *)

#[local] Instance settled_before_trans : Transitive settled_before.
Proof. intros a b c. unfold settled_before. apply prod_le_trans. Qed.
#[local] Instance settled_before_total : Total settled_before.
Proof. intros a b. unfold settled_before. apply prod_le_total. Qed.

Lemma elem_of_settled_starts services s : s ∈ settled_starts services ↔ starts_when_settled services s = true.
Proof.
  unfold settled_starts. rewrite list_elem_of_fmap. split.
  - intros ([k x] & -> & Hin). rewrite sort_by_perm in Hin. apply list_elem_of_fmap in Hin as (y & [= _ ->] & Hy).
    by apply elem_of_retain in Hy as [? _].
  - intros Hs. exists (tty_rank services s, s). split; [done|]. rewrite sort_by_perm. apply list_elem_of_fmap. exists s. split; [done|].
    apply elem_of_retain. split; [done|]. unfold service_names. apply elem_of_btree_keys.
    unfold starts_when_settled, table_definition in Hs. destruct (services !! s); [by eexists|done].
Qed.

Lemma NoDup_settled_starts services : NoDup (settled_starts services).
Proof.
  unfold settled_starts. rewrite sort_by_perm. rewrite <-list_fmap_compose. simpl.
  rewrite (list_fmap_ext _ id); [|done]. rewrite list_fmap_id. apply NoDup_retain, NoDup_btree_keys.
Qed.

(** The terminal goes to the service with the highest precedence. *)
Lemma settled_starts_order services i j a b :
  (i < j)%nat → settled_starts services !! i = Some a → settled_starts services !! j = Some b →
  tty_rank services b < tty_rank services a ∨ tty_rank services a = tty_rank services b ∧ btree_le a b.
Proof.
  intros Hij. unfold settled_starts. rewrite !list_lookup_fmap.
  set (l := sort_by settled_before _). pose proof (sort_by_sorted settled_before
    (map (λ service, (tty_rank services service, service)) (retain (starts_when_settled services) (service_names services)))) as Hs.
  fold l in Hs. destruct (l !! i) as [[ka x]|] eqn:Ei; [|done]. destruct (l !! j) as [[kb y]|] eqn:Ej; [|done].
  simpl. intros [= ->] [= ->]. assert (∀ p, p ∈ l → p.1 = tty_rank services p.2) as Hk.
  { intros p Hp. unfold l in Hp. rewrite sort_by_perm in Hp. by apply list_elem_of_fmap in Hp as (z & -> & _). }
  pose proof (Hk _ (list_elem_of_lookup_2 _ _ _ Ei)) as Ha. pose proof (Hk _ (list_elem_of_lookup_2 _ _ _ Ej)) as Hb.
  simpl in Ha, Hb. pose proof (StronglySorted_lookup settled_before _ _ _ _ _ Hs Hij Ei Ej) as Hle.
  unfold settled_before, prod_le in Hle. simpl in Hle. subst ka kb.
  destruct Hle as [Hle Hn]. change (- tty_rank services a ≤ - tty_rank services b) in Hle.
  destruct (decide (tty_rank services a = tty_rank services b)) as [Heq|Hne]; [right; split; [done|apply Hn; lia]|left; lia].
Qed.

(** [awaiting] has stopped moving. *)
Definition at_rest_all (services : ServiceTable) (awaiting : list string) : Prop :=
  ∀ service runtime, service ∈ awaiting → table_runtime services service = Some runtime →
    settle_is_terminal runtime.(rt_state) = true.

Lemma is_settled_iff self services : is_settled self services = true ↔ at_rest_all services self.(bst_awaiting).
Proof.
  unfold is_settled, at_rest_all. rewrite forallb_forall. setoid_rewrite <-list_elem_of_In. split.
  - intros Hall s r Hs Hr. specialize (Hall s Hs). by rewrite Hr in Hall.
  - intros Hall s Hs. destruct (table_runtime services s) as [r|] eqn:Hr; [|done]. by eapply Hall.
Qed.

(** What waits for the boot to settle starts once, and in time. It starts
    when every service of the boot plan has stopped moving, or when the wait is
    over, whichever comes first, and the answer says which; nothing starts
    earlier, and nothing again. It is every service with the trigger that is not
    disabled, the one that ranks highest for a terminal first. *)
Theorem boot_settle_exact services0 services awaiting observed_at_ns timeout_secs now_ns :
  let t := settle_configure_phase2 services0 awaiting observed_at_ns timeout_secs in
  let '(t', r) := settle_take_due t services now_ns in
  let settled := at_rest_all services awaiting in
  let over := u64_saturating_add observed_at_ns (u64_saturating_mul timeout_secs NANOS_PER_SEC) ≤ now_ns in
  (is_Some r ↔ (∃ s, starts_when_settled services0 s = true) ∧
     (settled ∧ Z.max observed_at_ns 1 ≤ now_ns ∨ ~ settled ∧ over)) ∧
  (r = None → t' = t) ∧
  ∀ due, r = Some due →
    (∀ s, s ∈ due.(bsu_services) ↔ starts_when_settled services0 s = true) ∧ NoDup due.(bsu_services) ∧
    (∀ i j a b, (i < j)%nat → due.(bsu_services) !! i = Some a → due.(bsu_services) !! j = Some b →
       tty_rank services0 b < tty_rank services0 a ∨ tty_rank services0 a = tty_rank services0 b ∧ btree_le a b) ∧
    (due.(bsu_timed_out) = true ↔ ~ settled) ∧
    ∀ services' now_ns', settle_take_due t' services' now_ns' = (t', None).
Proof.
  intros t. pose proof (is_settled_iff t services) as Hset. simpl in Hset.
  pose proof (elem_of_settled_starts services0) as Hel. unfold settle_take_due at 1, settle_next_deadline at 1. simpl.
  destruct (settled_starts services0) as [|s0 starts] eqn:Es.
  { split_and!; [|done|done]. split; [by intros [? ?]|]. intros [[s Hs] _]. apply Hel in Hs. by apply elem_of_nil in Hs. }
  assert (∃ s, starts_when_settled services0 s = true) as Hex by (exists s0; apply Hel; left).
  set (due_at := if is_settled t services then _ else _).
  assert ((due_at ≤ now_ns) ↔ (at_rest_all services awaiting ∧ Z.max observed_at_ns 1 ≤ now_ns ∨
    ~ at_rest_all services awaiting ∧ u64_saturating_add observed_at_ns (u64_saturating_mul timeout_secs NANOS_PER_SEC) ≤ now_ns)) as Hdue.
  { unfold due_at. destruct (is_settled t services); simpl.
    - assert (at_rest_all services awaiting) by (by apply Hset). tauto.
    - assert (~ at_rest_all services awaiting) by (by intros ?%Hset). tauto. }
  cbn [bsd_due_at_ns bsd_services]. destruct (Z.ltb_spec now_ns due_at) as [Hlt|Hle]; simpl.
  { split_and!; [|done|done]. split; [by intros [? ?]|]. intros [_ Hd%Hdue]. lia. }
  split_and!; [split; [intros _; split; [done|by apply Hdue]|by eexists]|done|]. intros due [= <-]. simpl.
  split_and!; [exact Hel|rewrite <-Es; apply NoDup_settled_starts|..|done].
  - intros i j a b. rewrite <-Es. apply settled_starts_order.
  - rewrite negb_true_iff. destruct (is_settled t services); [|split; [intros _ ?%Hset; done|done]].
    split; [done|]. intros Hn. destruct Hn. by apply Hset.
Qed.

(** ** When a boot counts as a success *)

(** Every required service has satisfied its dependents since [since_ns] or
    earlier. *)
Definition all_satisfied_by (services : ServiceTable) (required : list string) (since_ns : Z) : Prop :=
  ∀ service, service ∈ required → ∃ ns, satisfied_since services service = Some ns ∧ ns ≤ since_ns.

Lemma latest_satisfied_exact services required : ∀ from_ns since_ns,
  latest_satisfied services from_ns required = Some since_ns ↔
  all_satisfied_by services required since_ns ∧ from_ns ≤ since_ns ∧
  (since_ns = from_ns ∨ ∃ service, service ∈ required ∧ satisfied_since services service = Some since_ns).
Proof.
  induction required as [|s required IH]; intros from_ns since_ns; simpl.
  { split.
    - intros [= ->]. split_and!; [intros s Hs; by apply elem_of_nil in Hs|lia|by left].
    - intros (_ & _ & [->|(s & Hs & _)]); [done|by apply elem_of_nil in Hs]. }
  destruct (satisfied_since services s) as [ns|] eqn:Es; simpl; unfold all_satisfied_by.
  2:{ split; [done|]. intros (Hall & _). destruct (Hall s) as (? & ? & _); [left|congruence]. }
  rewrite IH. unfold all_satisfied_by. split.
  - intros (Hall & Hle & Hor). split_and!; [|lia|].
    + intros x [->|Hx]%elem_of_cons; [exists ns; split; [done|lia]|by apply Hall].
    + destruct Hor as [->|(x & Hx & Ex)]; [|right; exists x; split; [by right|done]].
      destruct (Z.max_spec from_ns ns) as [[_ ->]|[_ ->]]; [right; exists s; split; [by left|done]|by left].
  - intros (Hall & Hle & Hor). destruct (Hall s) as (n & En & Hn); [left|]. rewrite Es in En. injection En as <-.
    split_and!; [intros x Hx; apply Hall; by right|lia|].
    destruct Hor as [->|(x & [->|Hx]%elem_of_cons & Ex)]; [left; lia| |right; by exists x].
    rewrite Es in Ex. injection Ex as ->. left. lia.
Qed.

Lemma latest_satisfied_none services required from_ns :
  latest_satisfied services from_ns required = None ↔ ∃ service, service ∈ required ∧ satisfied_since services service = None.
Proof.
  revert from_ns. induction required as [|s required IH]; intros from_ns; simpl.
  { split; [done|]. intros (s & Hs & _). by apply elem_of_nil in Hs. }
  destruct (satisfied_since services s) as [ns|] eqn:Es; simpl.
  - rewrite IH. split; intros (x & Hx & Ex); exists x; [split; [by right|done]|].
    apply elem_of_cons in Hx as [->|Hx]; [congruence|done].
  - split; [intros _; exists s; split; [left|done]|done].
Qed.

Lemma elem_of_required services plan retained grace s :
  s ∈ (success_configure_phase2 services plan retained grace).(bsk_required_critical_services) ↔
  is_critical_service services s = true ∧
  (s ∈ map ps_service plan.(bp_starts) ∨ s ∈ map bs_service plan.(bp_blocked) ∨ s ∈ retained).
Proof. simpl. rewrite elem_of_sort_dedup, elem_of_retain, !elem_of_app. tauto. Qed.

(** Critical in the boot's definitions, and planned, blocked or still running
    from before. *)
Definition boot_requires (services : ServiceTable) (plan : Phase2BootPlan) (retained : list string) (service : string) : Prop :=
  is_critical_service services service = true ∧
  (service ∈ map ps_service plan.(bp_starts) ∨ service ∈ map bs_service plan.(bp_blocked) ∨ service ∈ retained).

(** The grace period of [grace_secs] that began at [since_ns] is over. *)
Definition grace_over (since_ns grace_secs now_ns : Z) : Prop :=
  u64_saturating_add since_ns (u64_saturating_mul grace_secs NANOS_PER_SEC) ≤ now_ns.

Lemma grace_over_mono since_ns since_ns' grace_secs now_ns :
  since_ns ≤ since_ns' → grace_over since_ns' grace_secs now_ns → grace_over since_ns grace_secs now_ns.
Proof. unfold grace_over, u64_saturating_add. lia. Qed.

(** The deadline exists and has passed when every required service is satisfied
    and has been for the grace period. *)
Lemma required_grace_over services required grace_secs now_ns :
  (∀ s ns, satisfied_since services s = Some ns → 0 ≤ ns) → required ≠ [] →
  (∃ since_ns, latest_satisfied services 0 required = Some since_ns ∧ grace_over since_ns grace_secs now_ns) ↔
  ∀ s, s ∈ required → ∃ ns, satisfied_since services s = Some ns ∧ grace_over ns grace_secs now_ns.
Proof.
  intros Hpos Hne. split.
  - intros (since & (Hall & _ & _)%latest_satisfied_exact & Hg) s Hs. destruct (Hall s Hs) as (ns & Ens & Hle).
    exists ns. split; [done|]. by eapply grace_over_mono.
  - intros Hall. destruct (latest_satisfied services 0 required) as [since|] eqn:E.
    2:{ apply latest_satisfied_none in E as (s & Hs & En). destruct (Hall s Hs) as (? & ? & _). congruence. }
    exists since. split; [done|]. apply latest_satisfied_exact in E as (Hby & Hge & Hor).
    assert (∃ s, s ∈ required ∧ satisfied_since services s = Some since) as (s & Hs & Es).
    { destruct Hor as [->|Hex]; [|done]. destruct required as [|s rest]; [done|].
      destruct (Hby s) as (ns & Ens & Hle); [left|]. exists s. split; [left|]. rewrite Ens. f_equal.
      specialize (Hpos _ _ Ens). lia. }
    destruct (Hall s Hs) as (ns & Ens & Hg). congruence.
Qed.

(** The deadline has passed exactly when the boot should count. *)
Lemma success_due_iff services0 plan retained grace_secs services now_ns :
  (∀ s ns, satisfied_since services s = Some ns → 0 ≤ ns) →
  let required := boot_requires services0 plan retained in
  (∃ d, success_next_deadline (success_configure_phase2 services0 plan retained grace_secs) services = Some d ∧
     d.(bud_due_at_ns) ≤ now_ns) ↔
  (∃ s, required s) ∧
    (∀ s, required s → ∃ ns, satisfied_since services s = Some ns ∧ grace_over ns grace_secs now_ns) ∨
  ~ (∃ s, required s) ∧ plan.(bp_mode) ≠ ModeRecovery ∧ grace_over plan.(bp_observed_at_ns) grace_secs now_ns.
Proof.
  intros Hpos required. assert (∀ s, s ∈ _ ↔ required s) as Hreq by apply (elem_of_required services0 plan retained grace_secs).
  unfold success_next_deadline, required_satisfied_since_ns.
  set (t := success_configure_phase2 _ _ _ _) in *. change (bsk_reset_attempted t) with false. cbn iota.
  change (bsk_grace_secs t) with grace_secs.
  change (bsk_empty_critical_satisfied_since_ns t) with
    (match plan.(bp_mode) with ModeRecovery => None | _ => Some plan.(bp_observed_at_ns) end).
  destruct (bsk_required_critical_services t) as [|s0 rest].
  - assert (~ ∃ s, required s) as Hno by (intros [s Hs%Hreq]; by apply elem_of_nil in Hs).
    trans (plan.(bp_mode) ≠ ModeRecovery ∧ grace_over plan.(bp_observed_at_ns) grace_secs now_ns); [|tauto].
    destruct (bp_mode plan); simpl; split; try (intros (d & [= <-] & Hd); done); intros [Hm Hg]; by eauto.
  - assert (∃ s, required s) as Hyes by (exists s0; apply Hreq; left).
    trans (∀ s, required s → ∃ ns, satisfied_since services s = Some ns ∧ grace_over ns grace_secs now_ns); [|tauto].
    setoid_rewrite <-Hreq. rewrite <-required_grace_over by done. split.
    + intros (d & (since & E & [= <-])%bind_Some & Hd). by exists since.
    + intros (since & -> & Hg). by eexists.
Qed.

(** C24: A boot counts as a success exactly when it should. The counter of boot
    attempts is reset when every critical service of the plan, those that were
    blocked and those kept from before included, satisfies its dependents and has
    done so for the whole grace period; a boot without any counts once the grace
    period has passed, unless it is a recovery boot. Until then the counter is
    not touched; afterwards it is never reset again, whatever the services do,
    and the boot is reported as confirmed when the reset worked. *)
Theorem boot_confirmation_exact {C E} (reset : C → C * Result unit E) debug services0 plan retained grace_secs services now_ns counter :
  (∀ s ns, satisfied_since services s = Some ns → 0 ≤ ns) →
  let t := success_configure_phase2 services0 plan retained grace_secs in
  let required := boot_requires services0 plan retained in
  let '(t', counter', r) := success_process_due reset debug services now_ns t counter in
  (is_Some r ↔
     (∃ s, required s) ∧
       (∀ s, required s → ∃ ns, satisfied_since services s = Some ns ∧ grace_over ns grace_secs now_ns) ∨
     ~ (∃ s, required s) ∧ plan.(bp_mode) ≠ ModeRecovery ∧ grace_over plan.(bp_observed_at_ns) grace_secs now_ns) ∧
  (r = None → t' = t ∧ counter' = counter ∧ (confirmation t' services).(bcf_confirmed) = false ∧
     ∀ s, s ∈ (confirmation t' services).(bcf_waiting_on) ↔ required s ∧ satisfied_since services s = None) ∧
  ∀ dispatch, r = Some dispatch →
    (counter', dispatch.(sbs_reset_result)) = reset counter ∧
    ∀ services', ((confirmation t' services').(bcf_confirmed) = true ↔ dispatch.(sbs_reset_result) = Ok tt) ∧
      ∀ now_ns' counter', success_process_due reset debug services' now_ns' t' counter' = (t', counter', None).
Proof.
  intros Hpos t required. pose proof (success_due_iff services0 plan retained grace_secs services now_ns Hpos) as Hdue.
  fold t required in Hdue. unfold success_process_due at 1.
  assert (∀ s, s ∈ (confirmation t services).(bcf_waiting_on) ↔ required s ∧ satisfied_since services s = None) as Hwait.
  { intros s. pose proof (elem_of_required services0 plan retained grace_secs s) as Hel. unfold confirmation. simpl in Hel |- *.
    rewrite elem_of_retain, bool_decide_eq_true, Hel. unfold required, boot_requires. tauto. }
  destruct (success_next_deadline t services) as [d|] eqn:Ed.
  2:{ split_and!; [|done|done]. split; [by intros [? ?]|]. intros (? & ? & _)%Hdue. congruence. }
  destruct (Z.ltb_spec now_ns d.(bud_due_at_ns)) as [Hlt|Hle].
  { split_and!; [|done|done]. split; [by intros [? ?]|]. intros (d' & [= <-] & Hd)%Hdue. lia. }
  destruct (reset counter) as [counter' result] eqn:Er.
  split_and!; [|done|].
  { split; [intros _; apply Hdue; by exists d|by eexists]. }
  intros dispatch [= <-]. simpl. split; [done|]. intros services'. split; [|done].
  unfold confirmation. simpl. rewrite bool_decide_eq_true. by destruct result as [[]|?].
Qed.

Definition vital_app : ServiceTable :=
  {["app" := {| en_definition := {| (simple_system_boot "app" "/bin/app") with sd_error_control := EcCritical |};
                en_pending_definition := None;
                en_runtime := {| (inactive "app") with rt_state := StActive; rt_dependent_satisfied_since_ns := Some 1000 |};
                en_definition_removed := false |}]}.

Definition plan_of_app : Phase2BootPlan :=
  {| bp_mode := ModeFull; bp_observed_at_ns := 500; bp_max_parallel_starts := 4; bp_starts := [];
     bp_blocked := []; bp_safe_mode_downgrade := []; bp_warnings := [] |}.

Lemma boot_confirmation_exact_witness :
  let reset := λ n : nat, (0%nat, Ok tt : Result unit unit) in
  let t := success_configure_phase2 vital_app plan_of_app ["app"] 30 in
  (∃ s, boot_requires vital_app plan_of_app ["app"] s) ∧
  (∃ d, (success_process_due reset (λ _, "") vital_app 30000001000 t 2%nat).2 = Some d) ∧
  (success_process_due reset (λ _, "") vital_app 30000000999 t 2%nat) = (t, 2%nat, None).
Proof.
  assert (∀ s ns, satisfied_since vital_app s = Some ns → 0 ≤ ns) as Hpos.
  { intros s ns. unfold satisfied_since, table_runtime, vital_app. destruct (decide (s = "app")) as [->|Hne].
    - rewrite lookup_singleton_eq. simpl. intros [= <-]. lia.
    - rewrite lookup_singleton_ne by done. done. }
  split_and!; [exists "app"; split; [reflexivity|right; right; left]| |reflexivity].
  pose proof (boot_confirmation_exact (λ n : nat, (0%nat, Ok tt : Result unit unit)) (λ _, "") vital_app plan_of_app ["app"] 30
    vital_app 30000001000 2%nat Hpos) as H.
  simpl in H. destruct (success_process_due _ _ _ _ _ _) as [[t' c'] [d|]] eqn:E; [by exists d|].
  exfalso. destruct H as [H _]. refine (is_Some_None (proj2 H _)). left. split; [exists "app"; split; [reflexivity|right; right; left]|].
  intros s [_ [Hs|[Hs|Hs]]]; [inversion Hs|inversion Hs|]. apply list_elem_of_singleton in Hs as ->.
  exists 1000. split; [reflexivity|]. by vm_compute.
Defined.
