(* ===== verification/SubmittedInv.v ===== *)
(** * The stores of submitted jobs agree

    A submitted job is in two stores: its entry here, and its record in the job
    store while it has not ended. This file states what ties them together,
    breaks every operation of [SubmittedRun] into moves that keep it, and shows
    that no submitter ever has more live jobs than its quota. *)

From S2P Require Import Prelude RustStr ServiceRuntime ServiceDef Ids Cgroup OperationRecord JobRecord.
From S2P Require Import JobStore ServiceTable SubmittedDef SubmittedStore Effects SubmittedRun.
From Stdlib Require Import String.
Open Scope string_scope.
Open Scope list_scope.
Open Scope Z_scope.

(** ** The invariant *)

(** The control group of the submitted job the job store has under [id]. *)
Definition submitted_record (jobs : JobStore) (id : JobId) : option string :=
  match jobs.(js_records) !! id with
  | Some r => if bool_decide (r.(jr_job_type) = JtSubmitted) then Some r.(jr_cgroup_id) else None
  | None => None
  end.

Definition entry_at (w : SubmittedWork) (id : JobId) : option SubmittedJobEntry :=
  w.(w_submitted).(sub_entries) !! id.

Record sub_wf (w : SubmittedWork) : Prop := {
  sb_jobs : jobs_wf w.(w_jobs);
  sb_keys : ∀ id e, entry_at w id = Some e → e.(se_job_id) = id;
  sb_live : ∀ id e, entry_at w id = Some e → e.(se_outcome) = None →
    submitted_record w.(w_jobs) id = Some e.(se_cgroup_id);
  sb_ended : ∀ id e o, entry_at w id = Some e → e.(se_outcome) = Some o →
    submitted_record w.(w_jobs) id = None ∧ e.(se_stop) = None ∧ entry_fds e = [] ∧
    job_is_terminal o.(oc_state) = true;
  sb_records : ∀ id, is_Some (submitted_record w.(w_jobs) id) → is_Some (entry_at w id);
}.

Definition within_quota (limit : Z) (w : SubmittedWork) : Prop :=
  ∀ sid, is_quota_exempt sid = false → live_count_for_submitter sid w.(w_submitted) ≤ Z.max 0 limit.

(** ** Moves *)

(** What no operation changes of an entry. *)
Definition same_entry (e e' : SubmittedJobEntry) : Prop :=
  e'.(se_job_id) = e.(se_job_id) ∧ e'.(se_submitter_sid) = e.(se_submitter_sid) ∧
  e'.(se_cgroup_id) = e.(se_cgroup_id).

Definition with_entry_at (id : JobId) (e : SubmittedJobEntry) (jobs : JobStore) (w : SubmittedWork)
    : SubmittedWork :=
  {| w with w_jobs := jobs; w_submitted := put_entry id e w.(w_submitted) |}.

Inductive sub_move (limit : Z) (w : SubmittedWork) : SubmittedWork → Prop :=
| mv_entry id e e' :
    entry_at w id = Some e → same_entry e e' → e'.(se_outcome) = e.(se_outcome) →
    (e.(se_outcome) ≠ None → e'.(se_stop) = e.(se_stop) ∧ (entry_fds e' = entry_fds e ∨ entry_fds e' = [])) →
    sub_move limit w (with_entry_at id e' w.(w_jobs) w)
| mv_end id e e' o finish jobs event :
    entry_at w id = Some e → same_entry e e' → e.(se_outcome) = None →
    job_ends finish → finish_job id finish w.(w_jobs) = (jobs, Ok event) →
    e'.(se_outcome) = Some o → job_is_terminal o.(oc_state) = true → e'.(se_stop) = None → entry_fds e' = [] →
    sub_move limit w (with_entry_at id e' jobs w)
| mv_create record e jobs event :
    job_fresh record → record.(jr_job_type) = JtSubmitted →
    create_job record w.(w_jobs) = (jobs, Ok event) → entry_at w record.(jr_id) = None →
    e.(se_job_id) = record.(jr_id) → e.(se_outcome) = None → e.(se_cgroup_id) = record.(jr_cgroup_id) →
    (is_quota_exempt e.(se_submitter_sid) = false →
     live_count_for_submitter e.(se_submitter_sid) w.(w_submitted) < limit) →
    sub_move limit w (with_entry_at record.(jr_id) e jobs w)
| mv_jobs jobs :
    jobs_wf jobs → (∀ id, submitted_record jobs id = submitted_record w.(w_jobs) id) →
    sub_move limit w {| w with w_jobs := jobs |}
| mv_queue pending job_ids : sub_move limit w {| w with w_pending := pending; w_job_ids := job_ids |}
| mv_remove id e :
    entry_at w id = Some e → e.(se_outcome) ≠ None →
    sub_move limit w {| w with w_submitted := {| sub_entries := delete id w.(w_submitted).(sub_entries) |} |}.

(** *** The moves keep the invariant *)

Lemma entry_at_with id e jobs w id' :
  entry_at (with_entry_at id e jobs w) id' = if bool_decide (id' = id) then Some e else entry_at w id'.
Proof.
  unfold entry_at, with_entry_at. simpl. case_bool_decide as H; [subst; apply lookup_insert_eq|].
  by apply lookup_insert_ne.
Qed.

Lemma submitted_record_records jobs jobs' id :
  js_records jobs' !! id = js_records jobs !! id → submitted_record jobs' id = submitted_record jobs id.
Proof. intros E. unfold submitted_record. by rewrite E. Qed.

Lemma created_records record jobs jobs' event :
  jobs_wf jobs → create_job record jobs = (jobs', Ok event) →
  js_records jobs !! jr_id record = None ∧ js_records jobs' = <[jr_id record := record]> (js_records jobs).
Proof.
  intros Hwf. unfold create_job. destruct (ensure_can_create record jobs) as [[]|e] eqn:Ec; [|done].
  intros [= <- _]. split; [by apply can_create_new|]. apply with_job_records.
Qed.

Lemma move_wf limit w w' : sub_move limit w w' → sub_wf w → sub_wf w'.
Proof.
  intros Hm Hwf. pose proof Hwf as [H1 H2 H3 H4 H5].
  destruct Hm as [id e e' He (Hi & Hs & Hc) Ho Hk|id e e' o finish jobs event He (Hi & Hs & Hc) Hn Hends Hf Ho Ht Hst Hfd
    |record e jobs event Hfr Hty Hcr Hnew Hi Hn Hc _|jobs Hj Hsame|pending ids|id e He Ho].
  - split; simpl; [done|..].
    + intros i x. rewrite entry_at_with. case_bool_decide as E; [|apply H2]. subst. intros [= <-].
      rewrite Hi. by apply H2.
    + intros i x. rewrite entry_at_with. case_bool_decide as E; [|apply H3]. subst. intros [= <-] Hx.
      rewrite Hc. apply H3; [done|]. by rewrite <-Ho.
    + intros i x o. rewrite entry_at_with. case_bool_decide as E; [|apply H4]. subst. intros [= <-] Hx.
      rewrite Ho in Hx. destruct (Hk ltac:(congruence)) as [-> Hfd]. destruct (H4 _ e o He Hx) as (? & ? & Hfe & ?).
      split_and!; try done. destruct Hfd as [Hfd|Hfd]; congruence.
    + intros i Hr. rewrite entry_at_with. case_bool_decide; [by eexists|]. by apply H5.
  - pose proof (finish_job_spec id finish _ Hends H1) as Hsp. rewrite Hf in Hsp.
    destruct Hsp as (Hwf' & r & Er & _ & _ & Hrec & _).
    assert (∀ i, submitted_record jobs i = if bool_decide (i = id) then None else submitted_record (w_jobs w) i) as Hsr.
    { intros i. unfold submitted_record. rewrite Hrec. case_bool_decide; [subst; by rewrite lookup_delete_eq|].
      by rewrite lookup_delete_ne by congruence. }
    split; simpl; [done|..].
    + intros i x. rewrite entry_at_with. case_bool_decide as E; [|apply H2]. subst. intros [= <-].
      rewrite Hi. by apply H2.
    + intros i x. rewrite entry_at_with, Hsr. case_bool_decide; [intros [= <-] ?; congruence|apply H3].
    + intros i x o'. rewrite entry_at_with, Hsr. case_bool_decide; [|apply H4]. intros [= <-] Hx.
      split_and!; try done. congruence.
    + intros i. rewrite entry_at_with, Hsr. case_bool_decide; [by intros [? ?]|apply H5].
  - pose proof (create_job_wf record (w_jobs w) Hfr H1) as Hwf'.
    destruct (created_records record (w_jobs w) jobs event H1 Hcr) as [Hnone Hrec]. rewrite Hcr in Hwf'.
    assert (∀ i, submitted_record jobs i =
      if bool_decide (i = jr_id record) then Some (jr_cgroup_id record) else submitted_record (w_jobs w) i) as Hsr.
    { intros i. unfold submitted_record. rewrite Hrec. case_bool_decide as E.
      - subst. rewrite lookup_insert_eq. by rewrite bool_decide_eq_true_2.
      - by rewrite lookup_insert_ne by congruence. }
    split; simpl; [done|..].
    + intros i x. rewrite entry_at_with. case_bool_decide; [|apply H2]. intros [= <-]. congruence.
    + intros i x. rewrite entry_at_with, Hsr. case_bool_decide; [intros [= <-] _; congruence|apply H3].
    + intros i x o. rewrite entry_at_with, Hsr. case_bool_decide; [intros [= <-] ?; congruence|apply H4].
    + intros i. rewrite entry_at_with, Hsr. case_bool_decide; [by eexists|apply H5].
  - split; simpl; [done|apply H2|..].
    + intros i x. rewrite Hsame. apply H3.
    + intros i x o. rewrite Hsame. apply H4.
    + intros i. rewrite Hsame. apply H5.
  - by split.
  - assert (∀ i x, entry_at {| w with w_submitted := {| sub_entries := delete id (sub_entries (w_submitted w)) |} |} i = Some x ↔
      i ≠ id ∧ entry_at w i = Some x) as Hd.
    { intros i x. unfold entry_at. simpl. rewrite lookup_delete_Some. naive_solver. }
    split; simpl; [done|..].
    + intros i x [_ ?]%Hd. auto.
    + intros i x [_ ?]%Hd. auto.
    + intros i x o [_ ?]%Hd. eauto.
    + intros i Hr. destruct (H5 i Hr) as [x Hx]. exists x. apply Hd. split; [|done]. intros ->.
      assert (x = e) as -> by congruence. destruct (se_outcome e) as [o|] eqn:Eo; [|done].
      destruct (H4 id e o He Eo) as [E _]. rewrite E in Hr. by destruct Hr.
Qed.

(** *** The moves keep the quota *)

Definition counts_for (sid : string) (e : SubmittedJobEntry) : bool :=
  entry_is_live e && bool_decide (e.(se_submitter_sid) = sid).

Definition counted (sid : string) (store : SubmittedJobStore) : gmap JobId SubmittedJobEntry :=
  filter (λ p : JobId * SubmittedJobEntry, counts_for sid p.2 = true) store.(sub_entries).

Lemma live_count_size sid store : live_count_for_submitter sid store = Z.of_nat (size (counted sid store)).
Proof.
  unfold live_count_for_submitter, counted. f_equal. rewrite map_filter_alt.
  rewrite map_size_list_to_map.
  2:{ eapply sublist_NoDup; [apply (NoDup_fst_map_to_list (sub_entries store))|].
      apply fmap_sublist, sublist_filter. }
  unfold submitted_entries, btree_values.
  rewrite <-(btree_iter_Permutation (sub_entries store)).
  induction (btree_iter (sub_entries store)) as [|p l IH]; [done|]. rewrite fmap_cons, !filter_cons.
  unfold counts_for at 1. repeat case_decide; simpl; congruence.
Qed.

Lemma counted_put sid id e store :
  counted sid (put_entry id e store) =
    if counts_for sid e then <[id := e]> (counted sid store) else delete id (counted sid store).
Proof.
  unfold counted, put_entry. simpl. rewrite map_filter_insert. simpl.
  destruct (counts_for sid e); [by rewrite decide_True|]. rewrite decide_False by done. apply map_filter_delete.
Qed.

(** Putting an entry that counts for no one it did not count for before does
    not raise a count. *)
Lemma live_count_put sid id e store :
  (counts_for sid e = true → ∃ e0, store.(sub_entries) !! id = Some e0 ∧ counts_for sid e0 = true) →
  live_count_for_submitter sid (put_entry id e store) ≤ live_count_for_submitter sid store.
Proof.
  intros H. rewrite !live_count_size, counted_put. apply Nat2Z.inj_le. destruct (counts_for sid e) eqn:E.
  - destruct (H eq_refl) as (e0 & E0 & H0). rewrite map_size_insert_Some; [done|].
    exists e0. by apply map_lookup_filter_Some.
  - apply map_subseteq_size, delete_subseteq.
Qed.

Lemma live_count_put_new sid id e store :
  live_count_for_submitter sid (put_entry id e store) ≤ live_count_for_submitter sid store + 1.
Proof.
  rewrite !live_count_size, counted_put. destruct (counts_for sid e).
  - destruct (counted sid store !! id) eqn:E;
      [rewrite map_size_insert_Some by eauto|rewrite map_size_insert_None by done]; lia.
  - pose proof (map_subseteq_size _ _ (delete_subseteq (counted sid store) id)). lia.
Qed.

Lemma live_count_delete sid id store :
  live_count_for_submitter sid {| sub_entries := delete id store.(sub_entries) |} ≤
  live_count_for_submitter sid store.
Proof.
  rewrite !live_count_size. apply Nat2Z.inj_le, map_subseteq_size. unfold counted. simpl.
  rewrite map_filter_delete. apply delete_subseteq.
Qed.

Lemma move_quota limit w w' : sub_move limit w w' → within_quota limit w → within_quota limit w'.
Proof.
  intros Hm Hq sid Hsid. specialize (Hq sid Hsid).
  destruct Hm as [id e e' He (Hi & Hs & Hc) Ho Hk|id e e' o finish jobs event He (Hi & Hs & Hc) Hn Hends Hf Ho Ht Hst Hfd
    |record e jobs event Hfr Hty Hcr Hnew Hi Hn Hc Hlim|jobs Hj Hsame|pending ids|id e He Ho]; try exact Hq; simpl.
  - etrans; [apply live_count_put|exact Hq]. intros Hcount. exists e. split; [exact He|].
    unfold counts_for, entry_is_live in *. by rewrite <-Ho, <-Hs.
  - etrans; [apply live_count_put|exact Hq]. unfold counts_for, entry_is_live. by rewrite Ho.
  - destruct (decide (se_submitter_sid e = sid)) as [<-|Hne].
    + pose proof (live_count_put_new (se_submitter_sid e) (jr_id record) e (w_submitted w)). specialize (Hlim Hsid). lia.
    + etrans; [apply live_count_put|exact Hq]. unfold counts_for. rewrite (bool_decide_eq_false_2 _ Hne), andb_false_r. done.
  - etrans; [apply live_count_delete|exact Hq].
Qed.

(** ** The operations as moves *)

Section Ops.
Context {P BoundaryError : Type} `{!ProcessController P BoundaryError} (limit : Z).
Notation World := (@World P).
Notation Run := (@Run P BoundaryError).

Definition moves (w w' : World) : Prop :=
  sub_wf w.(wo_work) → rtc (sub_move limit) w.(wo_work) w'.(wo_work).

Lemma rtc_move_wf (a b : SubmittedWork) : rtc (sub_move limit) a b → sub_wf a → sub_wf b.
Proof. induction 1 as [|a b c Hm _ IH]; [done|]. intros Ha. by apply IH, (move_wf limit a b). Qed.

#[local] Instance moves_preorder : PreOrder moves.
Proof.
  split; [by intros w _|]. intros a b c Hab Hbc Ha. specialize (Hab Ha). etrans; [exact Hab|].
  by apply Hbc, (rtc_move_wf _ _ Hab).
Qed.

(** An operation that succeeds has made only moves. *)
Definition makes_moves {A} (m : Run A) : Prop := ∀ w w' a, m w = (w', Ok a) → moves w w'.

Lemma bind_Ok_inv {A B} (m : Run A) (k : A → Run B) w w' b :
  (m ≫= k) w = (w', Ok b) → ∃ w1 a, m w = (w1, Ok a) ∧ k a w1 = (w', Ok b).
Proof. unfold mbind, eff_bind. destruct (m w) as [w1 [a|e]] eqn:Em; [|done]. intros ?. by exists w1, a. Qed.

Lemma makes_moves_bind {A B} (m : Run A) (k : A → Run B) :
  makes_moves m → (∀ a, makes_moves (k a)) → makes_moves (m ≫= k).
Proof.
  intros Hm Hk w w' b (w1 & a & E1 & E2)%bind_Ok_inv. etrans; [by eapply Hm|by eapply Hk].
Qed.

Lemma makes_moves_ret {A} (a : A) : makes_moves (mret a).
Proof. intros w w' b E. unfold mret, eff_ret in E. simplify_eq. reflexivity. Qed.

Lemma makes_moves_fail {A} e : makes_moves (fail_with e : Run A).
Proof. intros w w' b E. discriminate E. Qed.

Lemma makes_moves_get {A} (f : World → A) : makes_moves (get_with f).
Proof. intros w w' b E. unfold get_with in E. simplify_eq. reflexivity. Qed.

Lemma makes_moves_for_each {X A} (body : X → Run A) xs : (∀ x, makes_moves (body x)) → makes_moves (for_each body xs).
Proof.
  intros Hb. induction xs as [|x xs IH]; simpl; [apply makes_moves_ret|].
  apply makes_moves_bind; [done|]. intros a. apply makes_moves_bind; [done|]. intros l. apply makes_moves_ret.
Qed.

(** The kernel is not one of the stores. *)
Lemma on_controller_work {A} (f : P → P * Result A BoundaryError) w w' r :
  on_controller f w = (w', r) → wo_work w' = wo_work w.
Proof. unfold on_controller. destruct (f (wo_controller w)) as [c x]. by intros [= <- _]. Qed.

Lemma makes_moves_controller {A} (f : P → P * Result A BoundaryError) : makes_moves (on_controller f).
Proof. intros w w' a E _. by rewrite (on_controller_work f w w' _ E). Qed.

Lemma makes_moves_close fds : makes_moves (close_fds fds).
Proof. intros w w' a E. unfold close_fds, update_with in E. simplify_eq. by intros _. Qed.

(** An entry altered in place. *)
Lemma alter_entry_work id (f : SubmittedJobEntry → SubmittedJobEntry) (w w' : World) u :
  (alter_entry id f : Run unit) w = (w', Ok u) →
  wo_work w' = match entry_at (wo_work w) id with
               | Some e => with_entry_at id (f e) (w_jobs (wo_work w)) (wo_work w)
               | None => wo_work w
               end.
Proof.
  intros E. unfold alter_entry, update_with in E. simplify_eq. simpl. unfold entry_at, with_entry_at, put_entry. destruct (wo_work w) as [jobs [m] pd ids]. simpl.
  rewrite alter_alt. by destruct (m !! id).
Qed.

Lemma makes_moves_alter id f :
  (∀ e, same_entry e (f e) ∧ se_outcome (f e) = se_outcome e ∧
    (se_outcome e ≠ None → se_stop (f e) = se_stop e ∧ (entry_fds (f e) = entry_fds e ∨ entry_fds (f e) = []))) →
  makes_moves (alter_entry id f).
Proof.
  intros Hf w w' u E _. rewrite (alter_entry_work id f w w' u E).
  destruct (entry_at (wo_work w) id) as [e|] eqn:Ee; [|done]. destruct (Hf e) as (H1 & H2 & H3).
  apply rtc_once. by apply (mv_entry limit _ id e).
Qed.

Lemma makes_moves_close_entry id : makes_moves (close_entry_descriptors id).
Proof.
  apply makes_moves_bind; [apply makes_moves_get|]. intros [e|]; [|apply makes_moves_ret].
  apply makes_moves_bind; [|intros _; apply makes_moves_close]. apply makes_moves_alter.
  intros e0. split_and!; try done. intros _. split; [done|]. by right.
Qed.

Lemma makes_moves_begin_stop id cause now : makes_moves (on_submitted (begin_stop id cause now)).
Proof.
  intros w w' a. unfold on_submitted, begin_stop.
  destruct (sub_entries (w_submitted (wo_work w)) !! id) as [e|] eqn:Ee; [|done].
  destruct (bool_decide (is_Some (se_outcome e)) || bool_decide (is_Some (se_stop e))) eqn:Eb.
  - intros [= <- _] _. by destruct w as [[] ? ?].
  - intros [= <- _] _. apply orb_false_iff in Eb as [Eo%bool_decide_eq_false _]. simpl. apply rtc_once.
    apply (mv_entry limit (wo_work w) id e); try done. intros Hne. destruct Eo. by apply not_eq_None_Some.
Qed.

Lemma makes_moves_record_kill id now secs : makes_moves (on_submitted (record_kill id now secs)).
Proof.
  intros w w' a. unfold on_submitted, record_kill.
  destruct (sub_entries (w_submitted (wo_work w)) !! id) as [e|] eqn:Ee; [|done].
  destruct (se_stop e) as [stop|] eqn:Es.
  - intros [= <- _] Hwf. simpl. apply rtc_once.
    apply (mv_entry limit (wo_work w) id e); try done. intros Hne. apply not_eq_None_Some in Hne as [o Eo].
    destruct (sb_ended _ Hwf id e o Ee Eo) as (_ & ? & _). congruence.
  - intros [= <- _] _. by destruct w as [[] ? ?].
Qed.

Lemma makes_moves_pending pending : makes_moves (set_pending pending).
Proof.
  intros w w' a E _. unfold set_pending, update_with in E. simplify_eq. simpl. apply rtc_once. by apply (mv_queue limit (wo_work w) pending (w_job_ids (wo_work w))).
Qed.

(** *** Ending a job *)

Lemma record_terminal_Ok event retention store store' e' :
  record_terminal event retention store = (store', Ok e') →
  ∃ e o, sub_entries store !! je_job_id event = Some e ∧ se_outcome e = None ∧
    store' = put_entry (je_job_id event) e' store ∧ same_entry e e' ∧ se_outcome e' = Some o ∧
    oc_state o = je_state event ∧ se_stop e' = None ∧ entry_fds e' = entry_fds e.
Proof.
  unfold record_terminal. destruct (sub_entries store !! je_job_id event) as [e|]; [|done].
  unfold entry_is_terminal. case_bool_decide as Ht; [done|]. apply eq_None_not_Some in Ht.
  destruct (je_detail event); try done. intros [= <- <-]. by eexists e, _.
Qed.

Lemma on_jobs_Ok {A} (f : JobStore → JobResult A) (w w' : World) a :
  (on_jobs f : Run A) w = (w', Ok a) →
  ∃ jobs, f (w_jobs (wo_work w)) = (jobs, Ok a) ∧
    wo_work w' = let work := wo_work w in {| work with w_jobs := jobs |}.
Proof. unfold on_jobs. destruct (f _) as [jobs [x|e]]; simpl; [|done]. intros [= <- <-]. eauto. Qed.

Lemma on_submitted_Ok {A} (f : SubmittedJobStore → SubmittedResult A) (w w' : World) a :
  (on_submitted f : Run A) w = (w', Ok a) →
  ∃ store, f (w_submitted (wo_work w)) = (store, Ok a) ∧
    wo_work w' = let work := wo_work w in {| work with w_submitted := store |}.
Proof. unfold on_submitted. destruct (f _) as [store [x|e]]; simpl; [|done]. intros [= <- <-]. eauto. Qed.

Lemma close_entry_Ok id (w w' : World) u :
  (close_entry_descriptors id : Run unit) w = (w', Ok u) →
  wo_work w' = match entry_at (wo_work w) id with
               | Some e => with_entry_at id (without_fds e) (w_jobs (wo_work w)) (wo_work w)
               | None => wo_work w
               end.
Proof.
  unfold close_entry_descriptors. intros (w1 & entry & E1 & E2)%bind_Ok_inv.
  unfold get_entry, get_with in E1. simplify_eq. fold (entry_at (wo_work w1) id) in E2.
  destruct (entry_at (wo_work w1) id) as [e|] eqn:Ee.
  - apply bind_Ok_inv in E2 as (w2 & [] & E2 & E3). apply alter_entry_work in E2. rewrite Ee in E2.
    unfold close_fds, update_with in E3. by simplify_eq.
  - unfold mret, eff_ret in E2. by simplify_eq.
Qed.

(** The job's record finished and its entry closed and recorded, in whichever
    order the first two come, is one move. *)
Lemma end_move id finish retention (work : SubmittedWork) jobs event store e' :
  sub_wf work → job_ends finish → finish_job id finish (w_jobs work) = (jobs, Ok event) →
  record_terminal event retention
    {| sub_entries := alter without_fds id (sub_entries (w_submitted work)) |} = (store, Ok e') →
  rtc (sub_move limit) work {| work with w_jobs := jobs; w_submitted := store |}.
Proof.
  intros Hwf Hends Hf Hr. pose proof (finish_job_spec id finish _ Hends (sb_jobs _ Hwf)) as Hsp.
  rewrite Hf in Hsp. destruct Hsp as (_ & r & _ & Hid & Hterm & _).
  apply record_terminal_Ok in Hr as (e1 & o & E1 & Hn & -> & (S1 & S2 & S3) & Ho & Hos & Hst & Hfd). rewrite Hid in *.
  simpl in E1. rewrite lookup_alter_eq in E1.
  apply fmap_Some in E1 as (e & Ee & ->). simpl in *.
  replace ({| work with w_jobs := jobs; w_submitted := put_entry id e' {| sub_entries := alter without_fds id (sub_entries (w_submitted work)) |} |})
    with (with_entry_at id e' jobs work).
  2:{ unfold with_entry_at, put_entry. f_equal. f_equal. simpl. by rewrite (alter_alt_Some _ _ _ e), insert_insert_eq. }
  apply rtc_once. apply (mv_end limit work id e e' o finish jobs event); try done. by rewrite Hos.
Qed.

Lemma close_then_end {A} id finish retention (k : JobEvent → SubmittedJobEntry → Run A) :
  job_ends finish → (∀ event e, makes_moves (k event e)) →
  makes_moves (_ ← close_entry_descriptors id; event ← on_jobs (finish_job id finish);
               e ← on_submitted (record_terminal event retention); k event e).
Proof.
  intros Hends Hk w w' a (w1 & [] & E1%close_entry_Ok & E)%bind_Ok_inv.
  apply bind_Ok_inv in E as (w2 & event & (jobs & Ej & Hw2)%on_jobs_Ok & E).
  apply bind_Ok_inv in E as (w3 & e & (store & Es & Hw3)%on_submitted_Ok & E).
  etrans; [|by eapply Hk]. intros Hwf. rewrite Hw3, Hw2. simpl. rewrite Hw2 in Es. simpl in Es.
  replace (w_submitted (wo_work w1)) with
    {| sub_entries := alter without_fds id (sub_entries (w_submitted (wo_work w))) |} in Es.
  2:{ rewrite E1, alter_alt. unfold entry_at, with_entry_at, put_entry.
      destruct (wo_work w) as [? [m] ? ?]. simpl. by destruct (m !! id). }
  assert (w_jobs (wo_work w1) = w_jobs (wo_work w) ∧ w_pending (wo_work w1) = w_pending (wo_work w) ∧
    w_job_ids (wo_work w1) = w_job_ids (wo_work w)) as (Hj & Hp & Hi).
  { rewrite E1. by destruct (entry_at (wo_work w) id). }
  rewrite Hj in Ej. pose proof (end_move id finish retention (wo_work w) jobs event store e Hwf Hends Ej Es) as Hm.
  destruct (wo_work w1). simpl in *. subst. exact Hm.
Qed.

Lemma end_then_close {A} id finish retention (k : SubmittedJobEntry → JobEvent → SubmittedJobEntry → Run A) :
  job_ends finish → (∀ before event e, makes_moves (k before event e)) →
  makes_moves (event ← on_jobs (finish_job id finish); entry ← get_entry id;
               match entry with
               | None => fail_with (ReSubmitted (SeUnknownJob id))
               | Some before => _ ← close_entry_descriptors id;
                                e ← on_submitted (record_terminal event retention); k before event e
               end).
Proof.
  intros Hends Hk w w' a (w1 & event & (jobs & Ej & Hw1)%on_jobs_Ok & E)%bind_Ok_inv.
  apply bind_Ok_inv in E as (w2 & entry & Eg & E). unfold get_entry, get_with in Eg. simplify_eq.
  destruct (sub_entries (w_submitted (wo_work w2)) !! id) as [before|] eqn:Eb; [|done].
  apply bind_Ok_inv in E as (w3 & [] & E3%close_entry_Ok & E).
  apply bind_Ok_inv in E as (w4 & e & (store & Es & Hw4)%on_submitted_Ok & E).
  etrans; [|by eapply Hk]. intros Hwf. rewrite Hw4. simpl.
  unfold entry_at in E3. rewrite Eb in E3.
  assert (w_submitted (wo_work w3) =
    {| sub_entries := alter without_fds id (sub_entries (w_submitted (wo_work w))) |}) as Hs3.
  { rewrite E3. unfold with_entry_at, put_entry. simpl. f_equal. rewrite Hw1 in Eb |- *. simpl in *.
    by rewrite (alter_alt_Some _ _ _ before). }
  rewrite Hs3 in Es.
  pose proof (end_move id finish retention (wo_work w) jobs event store e Hwf Hends Ej Es) as Hm.
  rewrite E3, Hw1. exact Hm.
Qed.

(** *** Each operation *)

#[local] Hint Resolve makes_moves_ret makes_moves_fail makes_moves_get makes_moves_controller makes_moves_close
  makes_moves_close_entry makes_moves_pending makes_moves_begin_stop makes_moves_record_kill
  makes_moves_for_each : moves.

#[local] Hint Extern 0 (makes_moves (get_entry _)) => apply makes_moves_get : moves.
#[local] Hint Extern 0 (makes_moves (get_job _)) => apply makes_moves_get : moves.

(** Go past a step that makes moves. *)
Tactic Notation "next" simple_intropattern(p) := apply makes_moves_bind; [solve [eauto with moves]|intros p].

Lemma makes_moves_release id cgroup now secs : makes_moves (release_job_cgroup id cgroup now secs).
Proof.
  next outcome.
  apply makes_moves_bind; [|intros _; apply makes_moves_ret]. apply makes_moves_alter.
  intros e. split_and!; try done. intros _. split; [done|by left].
Qed.

Lemma makes_moves_set_cause id cause : makes_moves (alter_entry id (set_cause cause)).
Proof. apply makes_moves_alter. intros e. split_and!; try done. intros _. split; [done|by left]. Qed.

#[local] Hint Resolve makes_moves_release makes_moves_set_cause : moves.

Lemma makes_moves_setup_failure id at_ns cause text secs :
  makes_moves (apply_submitted_setup_failure id at_ns cause text secs).
Proof.
  next _.
  apply close_then_end; [apply ends_fail_before_start|]. intros event e.
  next _. apply makes_moves_ret.
Qed.

Lemma makes_moves_terminal id status at_ns secs : makes_moves (apply_submitted_terminal id status at_ns secs).
Proof.
  next entry.
  assert (∃ finish, job_ends finish ∧
    finish_reaped id status (exit_succeeded entry status) at_ns = finish_job id finish) as (finish & Hends & ->).
  { unfold finish_reaped. destruct status; [destruct (exit_succeeded entry _)|]; eexists;
      (split; [|done]); [apply ends_complete|apply ends_fail_running|apply ends_fail_running]. }
  apply (end_then_close id finish DEFAULT_SUBMITTED_JOB_RETENTION_NS (λ before event e,
    _ ← on_controller (kill_cgroup before.(se_cgroup_id));
    busy ← release_job_cgroup id before.(se_cgroup_id) at_ns secs;
    mret {| tm_job_event := event;
            tm_cause := match e.(se_cause) with Some c => Some c | None => before.(se_cause) end;
            tm_cgroup_busy := busy |})); [done|].
  intros before event e. next _.
  next busy. apply makes_moves_ret.
Qed.

Lemma makes_moves_target r : makes_moves (submitted_process_target r).
Proof.
  unfold submitted_process_target. destruct (jr_pid r), (jr_pidfd r); try apply makes_moves_ret; apply makes_moves_fail.
Qed.

#[local] Hint Resolve makes_moves_target makes_moves_setup_failure : moves.

Lemma makes_moves_stop id cause now secs : makes_moves (begin_submitted_stop id cause now secs).
Proof.
  next [e|]; [|apply makes_moves_ret].
  destruct (_ || _); [apply makes_moves_ret|].
  next [r|]; [|apply makes_moves_ret].
  assert (makes_moves (_ ← on_submitted (begin_stop id cause now);
    if negb (se_stopping_acknowledged e)
    then target ← submitted_process_target r; _ ← on_controller (signal_main target PsSigterm);
         mret (StopStopping id cause true)
    else mret (StopStopping id cause false))) as Hrun.
  { next _.
    destruct (negb _); [|apply makes_moves_ret]. next target.
    next _. apply makes_moves_ret. }
  destruct (jr_state r); try exact Hrun.
  next pending. destruct (bool_decide _).
  - next _.
    next failure. apply makes_moves_ret.
  - next _.
    next _. apply makes_moves_ret.
Qed.

#[local] Hint Resolve makes_moves_stop : moves.

Lemma makes_moves_deadline id kind now secs : makes_moves (process_submitted_deadline id kind now secs).
Proof.
  assert (∀ cause, makes_moves (outcome ← begin_submitted_stop id cause now secs;
    match outcome with
    | StopStopping job_id cause signalled => mret (Some (SdStop job_id cause signalled))
    | StopUnchanged | StopCancelledBeforeStart _ => mret None
    end)) as Hstop.
  { intros cause. next []; apply makes_moves_ret. }
  destruct kind; [apply Hstop|apply Hstop|..];
    (next [e|]; [|apply makes_moves_ret]).
  - next _.
    next _. apply makes_moves_ret.
  - next r. destruct (negb _); [apply makes_moves_ret|].
    next [].
    + next _.
      apply (close_then_end id _ _ (λ event _, mret (Some (SdAbandoned event (se_cgroup_id e)))));
        [apply ends_abandon|]. intros event e'. apply makes_moves_ret.
    + next _. apply makes_moves_ret.
  - next outcome.
    apply makes_moves_bind; [|intros _; apply makes_moves_ret]. apply makes_moves_alter.
    intros e0. split_and!; try done. intros _. split; [done|by left].
Qed.

Lemma makes_moves_shutdown now secs : makes_moves (stop_submitted_jobs_for_shutdown now secs).
Proof.
  next ids.
  apply makes_moves_bind; [|intros os; apply makes_moves_ret].
  apply makes_moves_for_each. intros id. apply makes_moves_stop.
Qed.

Lemma makes_moves_kill_all now secs : makes_moves (kill_all_live_submitted_jobs now secs).
Proof.
  next ids.
  apply makes_moves_bind; [|intros os; apply makes_moves_ret].
  apply makes_moves_for_each. intros id. next [e|]; [|apply makes_moves_ret].
  apply makes_moves_bind; [case_bool_decide; [apply makes_moves_begin_stop|apply makes_moves_ret]|]. intros _.
  next _.
  next _. apply makes_moves_ret.
Qed.
End Ops.

(** ** Steps *)

Section Steps.
Context {P BoundaryError : Type} `{!ProcessController P BoundaryError, !JobBoundary (P := P), !JsonNumber}.
Context (limit : Z).
Notation World := (@World P).
Notation Run := (@Run P BoundaryError).

(** A step on a copy of the stores: the copy is kept if the step succeeds, what
    the kernel was told stays either way. *)
Definition commit_ok {A} (m : Run A) (w : World) : World :=
  match m w with
  | (w', Ok _) => w'
  | (w', Err _) => {| w' with wo_work := wo_work w |}
  end.

Inductive sub_step (w : World) : World → Prop :=
| step_submit source object descriptors sid shutting_down now :
    sub_step w (submit_job source object descriptors sid limit shutting_down now w).1
| step_stop id cause now secs : sub_step w (commit_ok (begin_submitted_stop id cause now secs) w)
| step_setup_failure id at_ns cause text secs :
    sub_step w (commit_ok (apply_submitted_setup_failure id at_ns cause text secs) w)
| step_reaped id status at_ns secs : sub_step w (commit_ok (apply_submitted_terminal id status at_ns secs) w)
| step_deadline id kind now secs : sub_step w (commit_ok (process_submitted_deadline id kind now secs) w)
| step_shutdown now secs : sub_step w (commit_ok (stop_submitted_jobs_for_shutdown now secs) w)
| step_kill_all now secs : sub_step w (commit_ok (kill_all_live_submitted_jobs now secs) w)
| step_purge now :
    let work := w.(wo_work) in
    sub_step w {| w with wo_work := {| work with w_submitted := (purge_retained_until now work.(w_submitted)).1 |} |}
| step_other_jobs jobs pending :
    (* launches and the jobs of services *)
    let work := w.(wo_work) in
    jobs_wf jobs → (∀ id, submitted_record jobs id = submitted_record work.(w_jobs) id) →
    sub_step w {| w with wo_work := {| work with w_jobs := jobs; w_pending := pending |} |}.

Definition quiet_world (controller : P) : World := {|
  wo_work := {| w_jobs := job_store_new; w_submitted := submitted_store_new; w_pending := []; w_job_ids := 0 |};
  wo_controller := controller;
  wo_closed := [] |}.

Definition sub_reachable (controller : P) : World → Prop := rtc sub_step (quiet_world controller).

(** *** Submission *)

Lemma create_submitted_moves token d prepared sid sdesc fds now (w : World) :
  (is_quota_exempt sid = false → live_count_for_submitter sid (w_submitted (wo_work w)) < limit) →
  moves limit w (create_submitted token d prepared sid sdesc fds now w).1.
Proof.
  intros Hq Hwf. unfold create_submitted.
  destruct (allocate_batch (w_job_ids (wo_work w)) 1 now) as [ids [[|id ?]|e]]; try by simpl.
  destruct (create_job _ (w_jobs (wo_work w))) as [jobs [event|e]] eqn:Ec; [|by simpl].
  unfold submitted_insert. set (entry := new_entry_for _ _ _ _ _ _ _ _). case_bool_decide as Hs; [by simpl|].
  simpl. apply eq_None_not_Some in Hs. set (record := new_submitted id _) in Ec.
  apply (rtc_l _ _ (with_entry_at (jr_id record) entry jobs (wo_work w))).
  - by apply (mv_create limit _ record entry jobs event).
  - apply rtc_once. apply (mv_queue limit (with_entry_at (jr_id record) entry jobs (wo_work w))).
Qed.

Lemma ask_work {A F} (f : P → P * Result A F) as_error (w : World) : wo_work (ask f as_error w).1 = wo_work w.
Proof. unfold ask. by destruct (f (wo_controller w)). Qed.

Lemma submit_moves source object fds sid shutting now (w : World) :
  moves limit w (submit_job source object fds sid limit shutting now w).1.
Proof.
  unfold submit_job, lift_result, mbind, eff_bind at 1.
  destruct (map_err JceDefinition _) as [d|e]; [|by intros _]. destruct shutting; [by intros _|].
  unfold eff_bind. pose proof (ask_work (prepare_job_identity source) identity_error w) as Hw.
  destruct (ask _ _ w) as [w1 [prepared|e]]; simpl in Hw; [|intros _; simpl; by rewrite Hw].
  unfold get_with. destruct (negb (is_quota_exempt sid) && _) eqn:Eq; [intros _; simpl; by rewrite Hw|].
  unfold or_refuse.
  set (factory := match sj_security_descriptor_sddl d with Some _ => _ | None => _ end).
  pose proof (ask_work factory descriptor_error w1) as Hw2.
  destruct (ask factory _ w1) as [w2 [sdesc|e]]; simpl in Hw2; [|intros _; simpl; by rewrite Hw2, Hw].
  unfold moves. rewrite <-Hw, <-Hw2. apply create_submitted_moves. rewrite Hw2. intros Hex. rewrite Hex in Eq.
  simpl in Eq. lia.
Qed.

(** *** Purging *)

Lemma delete_moves ids (work : SubmittedWork) :
  NoDup ids → (∀ id, id ∈ ids → ∃ e, entry_at work id = Some e ∧ se_outcome e ≠ None) →
  rtc (sub_move limit) work
    {| work with w_submitted := {| sub_entries := foldl (λ m id, delete id m) (sub_entries (w_submitted work)) ids |} |}.
Proof.
  revert work. induction ids as [|id ids IH]; intros work Hnd Hids; simpl.
  - by destruct work as [? [] ? ?].
  - apply NoDup_cons in Hnd as [Hni Hnd]. destruct (Hids id) as (e & He & Ho); [left|].
    eapply rtc_l; [by apply (mv_remove limit work id e)|].
    specialize (IH {| work with w_submitted := {| sub_entries := delete id (sub_entries (w_submitted work)) |} |} Hnd).
    simpl in IH. apply IH. intros i Hi. destruct (Hids i) as (x & Hx & ?); [by right|]. exists x. split; [|done].
    unfold entry_at in *. simpl. rewrite lookup_delete_ne; [done|]. set_solver.
Qed.

Lemma purge_moves now (work : SubmittedWork) :
  sub_wf work →
  rtc (sub_move limit) work {| work with w_submitted := (purge_retained_until now (w_submitted work)).1 |}.
Proof.
  intros Hwf. unfold purge_retained_until. simpl. apply delete_moves.
  - eapply sublist_NoDup; [apply (NoDup_btree_keys (sub_entries (w_submitted work)))|].
    rewrite <-submitted_entries_ids by apply (sb_keys _ Hwf). apply fmap_sublist, sublist_filter.
  - intros id (e & -> & (Hd & Hin)%list_elem_of_filter)%list_elem_of_fmap.
    apply elem_of_btree_values in Hin as (k & Ek). apply purge_due_iff in Hd as (o & Eo & _).
    exists e. rewrite (sb_keys _ Hwf k e Ek). split; [done|]. congruence.
Qed.

Lemma step_moves (w w' : World) : sub_step w w' → moves limit w w'.
Proof.
  assert (∀ A (m : Run A), makes_moves limit m → moves limit w (commit_ok m w)) as Hc.
  { intros A m Hm. unfold commit_ok. destruct (m w) as [w1 [a|e]] eqn:E; [by eapply Hm|by intros _]. }
  intros Hst.
  destruct Hst; try apply Hc.
  - apply submit_moves.
  - apply makes_moves_stop.
  - apply makes_moves_setup_failure.
  - apply makes_moves_terminal.
  - apply makes_moves_deadline.
  - apply makes_moves_shutdown.
  - apply makes_moves_kill_all.
  - intros Hwf. by apply purge_moves.
  - intros _. simpl. eapply rtc_l; [by apply (mv_jobs limit (wo_work w) jobs)|]. apply rtc_once.
    apply (mv_queue limit (let work0 := wo_work w in {| work0 with w_jobs := jobs |}) pending).
Qed.

Lemma quiet_world_wf c : sub_wf (wo_work (quiet_world c)).
Proof.
  split; simpl; try done; try (intros; by rewrite lookup_empty in *).
  - exact (proj1 (job_reachable_ledger_wf empty_ledger (rtc_refl _ _))).
  - intros id [? E]. by unfold submitted_record in E; simpl in E; rewrite lookup_empty in E.
Qed.

Lemma reachable_sub_wf c w : sub_reachable c w → sub_wf (wo_work w) ∧ within_quota limit (wo_work w).
Proof.
  intros Hr.
  assert (sub_wf (wo_work (quiet_world c)) ∧ within_quota limit (wo_work (quiet_world c))) as Hq.
  { split; [apply quiet_world_wf|]. intros sid _. rewrite live_count_size. vm_compute size. lia. }
  unfold sub_reachable in Hr. revert Hq.
  induction Hr as [|a b w Hs _ IH]; [done|]. intros [Ha Hq]. apply IH.
  pose proof (step_moves a b Hs Ha) as Hm. split; [by eapply rtc_move_wf|].
  clear -Hm Hq. induction Hm as [|x y z Hm _ IH]; [done|]. apply IH. by eapply move_quota.
Qed.

(** C25: The two stores a submitted job is in agree in every state peinit can
    reach, through submissions, stops, failed set-ups, exits, deadlines,
    shutdown and purging, on failing steps too: a live job has its record in the
    job store under its own identifier and control group; a finished one has
    none, is not being stopped and holds no descriptor any more; and no record
    of a submitted job is without its entry. *)
Theorem submitted_stores_agree (c : P) (w : World) :
  sub_reachable c w → sub_wf w.(wo_work).
Proof. intros Hr. by apply (reachable_sub_wf c w). Qed.

(** No submitter other than the system itself ever has more live jobs than
    the limit, whatever is submitted, stopped or reaped in between. *)
Theorem submitter_quota_holds (c : P) (w : World) (sid : string) :
  sub_reachable c w → is_quota_exempt sid = false →
  live_count_for_submitter sid w.(wo_work).(w_submitted) ≤ Z.max 0 limit.
Proof. intros Hr Hs. by apply (reachable_sub_wf c w). Qed.
End Steps.

(** ** A concrete system *)

(** A kernel that does as it is told, except that it can be set not to remove
    control groups. *)
#[local] Instance example_kernel : ProcessController bool string := {|
  pidfd_matches_pid (_ _ : Z) (c : bool) := (c, Ok true);
  close_pidfd (_ : Z) (c : bool) := (c, Ok tt);
  signal_main (_ : ProcessTarget) (_ : ProcessSignal) (c : bool) := (c, Ok tt);
  kill_cgroup (_ : string) (c : bool) := (c, Ok tt);
  cgroup_populated (_ : string) (c : bool) := (c, Ok false);
  remove_cgroup (_ : string) (c : bool) := (c, if c then Ok CgRemoved else Err "rmdir failed") |}.

#[local] Instance example_boundary : JobBoundary (P := bool) := {|
  prepare_job_identity (_ : JobIdentitySource) (c : bool) :=
    (c, Ok {| pi_token_fd := 20; pi_user_sid := "S-1-5-21-7"; pi_logon_session := 1; pi_summary := example_summary |});
  default_job_descriptor (_ : string) (c : bool) := (c, Ok {| sdesc_bytes := [] |});
  job_descriptor_from_sddl (_ : string) (c : bool) := (c, Ok {| sdesc_bytes := [] |}) |}.

#[local] Instance integer_numbers : JsonNumber := {|
  Number := Z; as_u64 (n : Z) := Some n; as_i64 (n : Z) := Some n; from_u64 (n : Z) := n |}.

(** One job is submitted with a descriptor and an output sink. *)
Definition one_job (kernel : bool) : World (P := bool) :=
  (submit_job (PeerPrimary 5) (request_of example_submitted) [30; 31] "S-1-5-21-7" 1 false 1000000
     (quiet_world kernel)).1.

Definition the_job (w : World (P := bool)) : JobId :=
  match live_ids w.(wo_work).(w_submitted) with id :: _ => id | [] => 0 end.

Lemma submitted_stores_agree_witness : sub_wf (one_job true).(wo_work).
Proof.
  apply (submitted_stores_agree 1 true (one_job true)). eapply rtc_l; [apply step_submit|apply rtc_refl].
Defined.

Lemma submitter_quota_holds_witness :
  live_count_for_submitter "S-1-5-21-7" (one_job true).(wo_work).(w_submitted) = 1 ∧
  live_count_for_submitter "S-1-5-21-7" (one_job true).(wo_work).(w_submitted) ≤ Z.max 0 1.
Proof.
  split; [vm_compute; reflexivity|].
  apply (submitter_quota_holds 1 true (one_job true)); [|reflexivity].
  eapply rtc_l; [apply step_submit|apply rtc_refl].
Defined.

(** ** Where the code departs from what it says *)

(** The job has been forked and waits for [exec]: it is no longer queued. *)
Definition forked (w : World (P := bool)) : World (P := bool) :=
  let work := w.(wo_work) in {| w with wo_work := {| work with w_pending := [] |} |}.

(** A job stopped while its process is being set up is reported to have failed
    before [exec]: the failed set-up writes its own cause over the recorded
    one. *)
Theorem stop_during_setup_loses_its_cause :
  let w := forked (one_job true) in
  let stopped := commit_ok (begin_submitted_stop (the_job w) ScExplicitStop 2000000 5) w in
  let ended := commit_ok (apply_submitted_setup_failure (the_job w) 3000000 ScPreExecFailure "PreExecFailure: killed" 5) stopped in
  (se_cause <$> entry_at stopped.(wo_work) (the_job w)) = Some (Some ScExplicitStop) ∧
  (se_cause <$> entry_at ended.(wo_work) (the_job w)) = Some (Some ScPreExecFailure).
Proof. vm_compute. done. Qed.

(** A job whose set-up never ends is not given up after its post-kill timeout:
    the check finds no running process, does nothing, and the deadline stays
    due, however often it is processed. *)
Theorem post_kill_of_setup_stays_due :
  let w := forked (one_job true) in
  let w := commit_ok (begin_submitted_stop (the_job w) ScShutdown 2000000 5) w in
  let w := commit_ok (process_submitted_deadline (the_job w) DkStopKill 10002000000 5) w in
  let later := 100000000000 in
  map sdl_kind (due_submitted_job_deadlines later w.(wo_work)) = [DkPostKill] ∧
  process_submitted_deadline (the_job w) DkPostKill later 5 w = (w, Ok None) ∧
  live_submitted_jobs_remain w.(wo_work) = true.
Proof. vm_compute. done. Qed.

(** A cancellation that fails after closing a queued job's descriptors is
    undone in the stores only: the job is still live and queued and names
    descriptors that are closed, which its launch or its next end will use and
    close again. *)
Theorem failed_cancel_keeps_closed_descriptors :
  let w := one_job false in
  let w' := commit_ok (begin_submitted_stop (the_job w) ScExplicitStop 2000000 5) w in
  w'.(wo_closed) = [20; 30; 31] ∧
  (entry_fds <$> entry_at w'.(wo_work) (the_job w)) = Some [20; 30; 31] ∧
  w'.(wo_work).(w_pending) = [the_job w].
Proof. vm_compute. done. Qed.
