(* ===== verification/ShutdownInv.v ===== *)
(** * Properties of a shutdown

    About [ShutdownRun]: every step of a shutdown answers; a service only ever
    winds down; the final action waits until every service and every submitted
    job has stopped; and a shutdown that waits always has a deadline to wake it
    up. *)

From S2P Require Import Prelude RustStr ServiceRuntime ServiceDef Ids Restart Cgroup ServiceTable ServiceTableInv Shutdown.
From S2P Require Import OperationRecord OperationStore ExecGraph JobRecord JobStore SubmittedDef SubmittedStore SubmittedRun.
From S2P Require Import SubmittedInv ExecCommand OperationInv StartInv StartSpec Effects StartState StartBegin StartRun.
From S2P Require Import ControlRun Notify ShutdownRun.
From Stdlib Require Import String.
Open Scope string_scope.
Open Scope list_scope.
Open Scope Z_scope.

(** ** Winding down *)

Definition state_of_service (t : gmap string ServiceEntry) (service : string) : option ServiceState :=
  rt_state <$> table_runtime t service.

(** Nothing is left to do for a service in this state, or for one that is gone. *)
Definition done_state (state : option ServiceState) : Prop := is_none_or state service_done_for_shutdown = true.

(** The shutdown has dealt with it: it is stopping, or done. *)
Definition dealt_with (state : option ServiceState) : Prop := state = Some StStopping ∨ done_state state.

Definition settles (before after : option ServiceState) : Prop :=
  after = before ∨ (dealt_with after ∧ (done_state before → done_state after)).

#[local] Instance settles_preorder : PreOrder settles.
Proof.
  split; [by left|]. intros a b c [->|[H1 H2]] [->|[H3 H4]]; [by left|right; auto..].
Qed.

Lemma settles_done a b : settles a b → done_state a → done_state b.
Proof. intros [->|[_ H]]; auto. Qed.

Lemma settles_dealt_with a b : settles a b → dealt_with a → dealt_with b.
Proof. intros [->|[H _]]; auto. Qed.

Definition winds_down (t t' : gmap string ServiceEntry) : Prop :=
  ∀ service, settles (state_of_service t service) (state_of_service t' service).

#[local] Instance winds_down_preorder : PreOrder winds_down.
Proof.
  split; [by intros t service|]. intros a b c Hab Hbc service. etrans; [apply Hab|apply Hbc].
Qed.

(** The transitions a shutdown asks for. *)
Definition winding_state (to : ServiceState) : bool :=
  bool_decide (to = StStopping) || service_done_for_shutdown to.

Lemma done_never_stops from cause : service_done_for_shutdown from = true → is_allowed_transition from StStopping cause = false.
Proof. by destruct from, cause. Qed.

Lemma transition_winds_down service to cause t :
  winding_state to = true → winds_down t (transition_service service {| st_to := to; st_cause := cause |} t).1.
Proof.
  intros Hto other. destruct (t !! service) as [e|] eqn:E.
  2:{ unfold transition_service. rewrite E. by left. }
  pose proof (transition_service_spec service {| st_to := to; st_cause := cause |} t e E) as Hspec.
  destruct (transition_service _ _ t) as [t' r]. destruct Hspec as [Hother Hspec]. simpl fst.
  unfold state_of_service, table_runtime. destruct (decide (other = service)) as [->|Hne]; [|left; by rewrite Hother].
  simpl in Hspec. destruct (is_allowed_transition _ _ _) eqn:Ha; [|destruct Hspec as [-> _]; by left].
  destruct Hspec as (result & _ & _ & Hs). right. destruct (t' !! service) as [e'|]; [|by split; [right|]].
  destruct Hs as (Hst & _). simpl. rewrite Hst. unfold dealt_with, done_state. simpl.
  unfold winding_state in Hto. apply orb_true_iff in Hto as [->%bool_decide_eq_true|Hd]; [|by split; [right|]].
  split; [by left|]. rewrite E. simpl. intros Hd. by rewrite (done_never_stops _ _ Hd) in Ha.
Qed.

(** Updates of a runtime that do not touch its state. *)
Lemma with_runtime_winds_down {A} service (f : ServiceRuntimeSnapshot → ServiceRuntimeSnapshot * A) t :
  (∀ r, rt_state (f r).1 = rt_state r) → winds_down t (with_runtime service f t).1.
Proof.
  intros Hf other. left. unfold with_runtime, with_entry, state_of_service, table_runtime.
  destruct (t !! service) as [e|] eqn:E; [|done]. specialize (Hf e.(en_runtime)).
  destruct (f (en_runtime e)) as [r a]. simpl. destruct (decide (other = service)) as [->|].
  - rewrite lookup_insert_eq, E. simpl. by f_equal.
  - by rewrite lookup_insert_ne.
Qed.

Lemma stopping_timeout_winds_down service evidence t : winds_down t (record_stopping_timeout service evidence t).1.
Proof. by apply with_runtime_winds_down. Qed.

Lemma leak_winds_down service path kind at_ns t : winds_down t (record_leaked_cgroup service path kind at_ns t).1.
Proof.
  apply with_runtime_winds_down. intros r. unfold record_leak. by destruct (existsb _ _).
Qed.

#[local] Hint Resolve transition_winds_down stopping_timeout_winds_down leak_winds_down : winding.

Section Inv.
Context {P BoundaryError : Type} `{!ProcessController P BoundaryError}.
Notation Work := (ShutdownWork P BoundaryError).
Notation Runtime := (ShutdownRuntime BoundaryError).
Notation Error := (@ShutdownError BoundaryError).
Notation ShutdownM := (Exec Work Error).

(** ** Steps that only wind down

    Services wind down; the runtime of the shutdown and the submitted jobs are
    not touched. *)
Definition mild (w w' : Work) : Prop :=
  winds_down (wk_services w) (wk_services w') ∧ w'.(sw_shutdown) = w.(sw_shutdown) ∧
  w'.(sw_submitted) = w.(sw_submitted).

#[local] Instance mild_preorder : PreOrder mild.
Proof.
  split; [by intros w; split_and!|]. intros a b c (H1 & H2 & H3) (H4 & H5 & H6).
  split_and!; [by etrans|congruence..].
Qed.

Notation gentle m := (relates mild m).

Lemma gentle_reads {E A} (m : Exec Work E A) : reads m → gentle m.
Proof. apply relates_reads; apply _. Qed.

Lemma gentle_bind {E A B} (m : Exec Work E A) (k : A → Exec Work E B) :
  gentle m → (∀ a, gentle (k a)) → gentle (m ≫= k).
Proof. apply relates_bind; apply _. Qed.

Lemma gentle_each {E X A} (body : X → Exec Work E A) xs : (∀ x, gentle (body x)) → gentle (exec_each body xs).
Proof. apply relates_each; apply _. Qed.

Lemma gentle_exec {E F A} (wrap : F → E) (m : Step P F A) :
  relates (λ s s' : ExecState P, winds_down s.(xs_services) s'.(xs_services)) m → gentle (work_exec wrap m).
Proof. intros Hm. eapply relates_within; [exact Hm|]. intros w s H. by split_and!. Qed.

(** A step on one store other than the services, or on the kernel. *)
Lemma gentle_elsewhere {T E F G A} (get : ExecState P → T) set (wrap : F → E) (unwrap : G → F) (f : T → T * Result A G) :
  (∀ t s, (set t s).(xs_services) = s.(xs_services)) → gentle (work_exec wrap (exec_on get set unwrap f)).
Proof. intros Hs. apply gentle_exec, relates_on. intros s. rewrite Hs. reflexivity. Qed.

Lemma gentle_services {A} (f : gmap string ServiceEntry → TableResult A) :
  (∀ t, winds_down t (f t).1) → gentle (on_work_services f : ShutdownM A).
Proof. intros Hf. apply gentle_exec, relates_on. intros s. apply Hf. Qed.

Lemma gentle_operations {A} (f : OperationStore → StoreResult A) : gentle (on_work_operations f : ShutdownM A).
Proof. by apply gentle_elsewhere. Qed.

Lemma gentle_jobs {A} (f : JobStore → JobResult A) : gentle (on_work_jobs f : ShutdownM A).
Proof. by apply gentle_elsewhere. Qed.

Lemma gentle_kill cgroup_id : gentle (kill_group cgroup_id : ShutdownM unit).
Proof. by apply gentle_elsewhere. Qed.

Lemma gentle_control {E F A} (wrap : F → E) f : gentle (work_control wrap (on_control_with f) : Exec Work E A).
Proof.
  eapply (relates_within _ (λ s s' : ControlState P, s'.(cx_exec) = s.(cx_exec))).
  - intros s s' r. unfold on_control_with, exec_on. destruct (f (cx_control s)). by intros [= <- _].
  - intros w s H. split_and!; [|done..]. unfold wk_services, wk_exec. simpl. rewrite H. reflexivity.
Qed.

Lemma gentle_update (f : Work → Work) : (∀ w, mild w (f w)) → gentle (exec_update f : ShutdownM unit).
Proof. intros Hf. apply relates_update, Hf. Qed.

Lemma mild_same (w w' : Work) :
  wk_services w' = wk_services w → w'.(sw_shutdown) = w.(sw_shutdown) → w'.(sw_submitted) = w.(sw_submitted) → mild w w'.
Proof. intros H1 H2 H3. split_and!; [|done..]. by rewrite H1. Qed.

Ltac gentle_step :=
  match goal with
  | |- gentle (mret _) => apply gentle_reads, reads_ret
  | |- gentle (exec_fail _) => apply gentle_reads, reads_fail
  | |- gentle (exec_get _) => apply gentle_reads, reads_get
  | |- gentle (exec_lift _) => apply gentle_reads, reads_lift
  | |- gentle (exec_map_err _ _) => apply relates_map_err
  | |- gentle (exec_each _ _) => apply gentle_each; intros ?
  | |- gentle (exec_update _) => apply gentle_update; intros ?; by apply mild_same
  | |- gentle (on_work_services (transition_service _ _)) =>
      apply gentle_services; intros ?; apply transition_winds_down; first [reflexivity|eassumption]
  | |- gentle (on_work_services (record_stopping_timeout _ _)) =>
      apply gentle_services; intros ?; apply stopping_timeout_winds_down
  | |- gentle (on_work_services (record_leaked_cgroup _ _ _ _)) =>
      apply gentle_services; intros ?; apply leak_winds_down
  | |- gentle (on_work_operations _) => apply gentle_operations
  | |- gentle (on_work_jobs _) => apply gentle_jobs
  | |- gentle (kill_group _) => apply gentle_kill
  | |- gentle (work_control _ (on_control_with _)) => apply gentle_control
  | |- gentle (work_exec _ (exec_on _ _ _ _)) => by apply gentle_elsewhere
  | |- gentle (work_exec _ (on_start _)) => apply gentle_exec, relates_update; intros ?; reflexivity
  | |- gentle (work_exec _ (on_start_with _)) => by apply gentle_elsewhere
  | |- gentle (close_work_fds _) => apply gentle_update; intros ?; by apply mild_same
  | |- gentle (_ ≫= _) => apply gentle_bind; [|intros ?]
  | |- gentle (match ?x with _ => _ end) => destruct x
  | |- gentle (let _ := _ in _) => cbv zeta
  end.
Ltac gently := repeat gentle_step.

Lemma gentle_start_stop service now_ns : gentle (start_stop service now_ns : ShutdownM _).
Proof. unfold start_stop. gently. Qed.

Lemma gentle_fail_stop service now_ns reason : gentle (fail_stop service now_ns reason : ShutdownM _).
Proof. unfold fail_stop. gently. Qed.

Lemma gentle_settle now_ns : gentle (settle_stopped now_ns : ShutdownM _).
Proof. unfold settle_stopped, settle_observation. gently. Qed.

Lemma gentle_active_jobs service state : gentle (active_jobs_in_state service state : ShutdownM _).
Proof. unfold active_jobs_in_state. gently. Qed.

Lemma gentle_root service : gentle (service_root_cgroup_id service : ShutdownM _).
Proof. unfold service_root_cgroup_id. gently. Qed.

Lemma gentle_clear_completed plan : gentle (clear_completed_services plan : ShutdownM _).
Proof. unfold clear_completed_services. gently. Qed.

Lemma gentle_remove_timeouts ids : gentle (remove_stop_timeouts ids : ShutdownM _).
Proof. unfold remove_stop_timeouts. gently. Qed.

Ltac gently_using := repeat first [gentle_step | by eauto 2 with gentle nocore].
Create HintDb gentle discriminated.
#[local] Hint Resolve gentle_start_stop gentle_fail_stop gentle_settle gentle_active_jobs gentle_root
  gentle_clear_completed gentle_remove_timeouts : gentle.

Lemma gentle_kill_starting plan now_ns secs : gentle (kill_starting_services plan now_ns secs : ShutdownM _).
Proof.
  unfold kill_starting_services, kill_starting_service, fail_start_operation, fail_unforked_startup_jobs,
    drop_pending_setups, drop_pending_setup, cleanup_pending_setup_process. gently_using.
Qed.

Lemma gentle_begin_wave plan wave now_ns : gentle (begin_stop_wave plan wave now_ns : ShutdownM _).
Proof.
  unfold begin_stop_wave, begin_participant, begin_stopping_participant, begin_running_participant,
    retained_stop_deadline, shutdown_stop_deadline_ns. gently_using.
Qed.

Lemma stopped_state_winds cause : winding_state (shutdown_stopped_state cause) = true.
Proof. by destruct cause as [[]|]. Qed.

Lemma stopped_state_done cause : service_done_for_shutdown (shutdown_stopped_state cause) = true.
Proof. by destruct cause as [[]|]. Qed.

Lemma gentle_post_kill now_ns deadline : gentle (process_post_kill_deadline now_ns deadline : ShutdownM _).
Proof.
  unfold process_post_kill_deadline, abandon_service, emptied_service, cleanup_service_cgroup_tree.
  gently_using. apply gentle_services. intros t. apply transition_winds_down, stopped_state_winds.
Qed.

(** ** The runtime of a shutdown *)

Definition state_in (w : Work) (service : string) : option ServiceState := state_of_service (wk_services w) service.

(** What a participant of the plan can be. *)
Definition settled (state : option ServiceState) : Prop :=
  state = Some StActive ∨ state = Some StReloading ∨ dealt_with state.

Lemma settles_settled a b : settles a b → settled a → settled b.
Proof. intros [->|[H _]]; [done|]. by right; right. Qed.

Definition has_post_kill (r : Runtime) (service : string) : Prop :=
  ∃ d, d ∈ r.(shr_post_kill_deadlines) ∧ d.(spk_service) = service.

Record shutdown_base (w : Work) (r : Runtime) : Prop := {
  so_settled : ∀ p, p ∈ participants r.(shr_plan) → settled (state_in w p.(sp_service));
  so_stopping : ∀ p, p ∈ participants r.(shr_plan) → p.(sp_already_stopping) = true →
    dealt_with (state_in w p.(sp_service));
  so_waves : ∀ i wave p, (i < r.(shr_current_wave))%nat → r.(shr_plan).(sh_stop_waves) !! i = Some wave →
    p ∈ wave.(sw_services) → done_state (state_in w p.(sp_service));
  so_stops : ∀ d, d ∈ r.(shr_stop_deadlines) → dealt_with (state_in w d.(ssd_service));
  so_kills : ∀ d, d ∈ r.(shr_post_kill_deadlines) → dealt_with (state_in w d.(spk_service));
  so_ready : r.(shr_finalization) = FinReady →
    (∀ p, p ∈ participants r.(shr_plan) → done_state (state_in w p.(sp_service))) ∧
    r.(shr_stop_deadlines) = [] ∧ r.(shr_post_kill_deadlines) = [];
}.

(** After the global timeout every participant that is left has been killed. *)
Definition covered (w : Work) (r : Runtime) : Prop :=
  r.(shr_global_timeout_fired) = true → ∀ p, p ∈ participants r.(shr_plan) →
    done_state (state_in w p.(sp_service)) ∨ has_post_kill r p.(sp_service).

(** ... and if it still waits, it waits for a deadline or a submitted job. *)
Definition awake (w : Work) (r : Runtime) : Prop :=
  r.(shr_global_timeout_fired) = true → waiting_for_services r.(shr_finalization) = true →
  r.(shr_stop_deadlines) ≠ [] ∨ r.(shr_post_kill_deadlines) ≠ [] ∨ live_jobs_remain w = true.

Lemma base_winds (w w' : Work) (r : Runtime) :
  winds_down (wk_services w) (wk_services w') → shutdown_base w r → shutdown_base w' r.
Proof.
  intros Hw [H1 H2 H3 H4 H5 H6]. split.
  - intros p Hp. eapply settles_settled; [apply Hw|apply (H1 p Hp)].
  - intros p Hp Hs. eapply settles_dealt_with; [apply Hw|apply (H2 p Hp Hs)].
  - intros i wave p Hi Hwave Hp. eapply settles_done; [apply Hw|by eapply H3].
  - intros d Hd. eapply settles_dealt_with; [apply Hw|apply (H4 d Hd)].
  - intros d Hd. eapply settles_dealt_with; [apply Hw|apply (H5 d Hd)].
  - intros Hr. destruct (H6 Hr) as (Hd & ? & ?). split_and!; try done. intros p Hp.
    eapply settles_done; [apply Hw|apply (Hd p Hp)].
Qed.

Lemma covered_winds (w w' : Work) (r : Runtime) : winds_down (wk_services w) (wk_services w') → covered w r → covered w' r.
Proof.
  intros Hw Hc Hf p Hp. destruct (Hc Hf p Hp) as [Hd|Hk]; [|by right]. left.
  eapply settles_done; [apply Hw|done].
Qed.

Lemma live_same (w w' : Work) : w'.(sw_submitted) = w.(sw_submitted) → live_jobs_remain w' = live_jobs_remain w.
Proof. intros H. unfold live_jobs_remain, live_submitted_jobs_remain. simpl. by rewrite H. Qed.

(** ** Waves *)

Lemma done_participant (w : Work) service : participant_done_for_shutdown w service = true ↔ done_state (state_in w service).
Proof. done. Qed.

Lemma wave_done (w : Work) (r : Runtime) i wave :
  r.(shr_plan).(sh_stop_waves) !! i = Some wave → wave_complete w r i = true →
  ∀ p, p ∈ wave.(sw_services) → done_state (state_in w p.(sp_service)).
Proof.
  intros E. unfold wave_complete. rewrite E, forallb_forall. intros H p Hp. apply H. by apply list_elem_of_In.
Qed.

Lemma wave_participant (r : Runtime) i wave p :
  r.(shr_plan).(sh_stop_waves) !! i = Some wave → p ∈ wave.(sw_services) → p ∈ participants r.(shr_plan).
Proof.
  intros E Hp. unfold participants. apply list_elem_of_bind. exists wave. split; [done|]. by eapply list_elem_of_lookup_2.
Qed.

Lemma participant_wave (r : Runtime) p :
  p ∈ participants r.(shr_plan) → ∃ i wave, r.(shr_plan).(sh_stop_waves) !! i = Some wave ∧ p ∈ wave.(sw_services).
Proof.
  unfold participants. rewrite list_elem_of_bind. intros (wave & Hp & (i & Hi)%list_elem_of_lookup_1). eauto.
Qed.

Lemma is_empty_true {A} (l : list A) : is_empty l = true ↔ l = [].
Proof. by destruct l. Qed.

Lemma nothing_pending_true (w : Work) (r : Runtime) :
  nothing_pending w r = true ↔
  r.(shr_stop_deadlines) = [] ∧ r.(shr_post_kill_deadlines) = [] ∧ live_jobs_remain w = false.
Proof.
  unfold nothing_pending. rewrite !andb_true_iff, !is_empty_true, negb_true_iff. tauto.
Qed.

Lemma nothing_pending_false (w : Work) (r : Runtime) :
  nothing_pending w r = false →
  r.(shr_stop_deadlines) ≠ [] ∨ r.(shr_post_kill_deadlines) ≠ [] ∨ live_jobs_remain w = true.
Proof.
  intros H. destruct (shr_stop_deadlines r) eqn:E1; [|by left]. destruct (shr_post_kill_deadlines r) eqn:E2; [|by right; left].
  destruct (live_jobs_remain w) eqn:E3; [by right; right|].
  exfalso. assert (nothing_pending w r = true) as Ht by (by apply nothing_pending_true). congruence.
Qed.

(** A wave that is not complete keeps the shutdown awake. *)
Lemma incomplete_awake (w : Work) (r : Runtime) :
  wave_complete w r r.(shr_current_wave) = false → covered w r → awake w r.
Proof.
  intros Hw Hc Hf _. unfold wave_complete in Hw.
  destruct (sh_stop_waves (shr_plan r) !! shr_current_wave r) as [wave|] eqn:E; [|by apply nothing_pending_false].
  right; left.
  assert (∃ p, p ∈ wave.(sw_services) ∧ ¬ done_state (state_in w p.(sp_service))) as (p & Hp & Hnd).
  { clear E. induction (sw_services wave) as [|q l IH]; [done|]. simpl in Hw. apply andb_false_iff in Hw as [Ef|Ef].
    - exists q. split; [left|]. unfold done_state. intros Hd. unfold participant_done_for_shutdown, runtime_state in Ef.
      unfold state_in, state_of_service in Hd. congruence.
    - destruct (IH Ef) as (p & ? & ?). exists p. split; [by right|done]. }
  destruct (Hc Hf p) as [|(d & Hd & _)]; [by eapply wave_participant|done|].
  intros E0. rewrite E0 in Hd. by apply not_elem_of_nil in Hd.
Qed.

Lemma work_services_Ok {A} (f : gmap string ServiceEntry → TableResult A) (w w' : Work) a :
  (on_work_services f : ShutdownM A) w = Some (w', Ok a) →
  f (wk_services w) = (wk_services w', Ok a) ∧ w'.(sw_shutdown) = w.(sw_shutdown) ∧
  w'.(sw_submitted) = w.(sw_submitted).
Proof. intros (t & (t' & Hf & ->)%exec_on_Ok & ->)%exec_within_Ok. by split_and!. Qed.

(** A service that was moved to a state of the shutdown is in it, or gone. *)
Lemma moved_state service to cause (w w' : Work) a :
  (on_work_services (transition_service service {| st_to := to; st_cause := cause |}) : ShutdownM _) w =
    Some (w', Ok a) →
  state_in w' service = Some to ∨ state_in w' service = None.
Proof.
  intros (Hf & _)%work_services_Ok. unfold state_in, state_of_service, table_runtime.
  destruct (wk_services w' !! service) as [e|] eqn:E; [left|by right].
  pose proof (transition_service_state _ _ _ _ _ _ Hf E) as Hs. simpl in Hs. simpl. by f_equal.
Qed.

Lemma moved_done service to cause (w w' : Work) a :
  (on_work_services (transition_service service {| st_to := to; st_cause := cause |}) : ShutdownM _) w =
    Some (w', Ok a) → service_done_for_shutdown to = true → done_state (state_in w' service).
Proof. intros [H|H]%moved_state Hd; by rewrite H. Qed.

Lemma moved_dealt_with service cause (w w' : Work) a :
  (on_work_services (transition_service service {| st_to := StStopping; st_cause := cause |}) : ShutdownM _) w =
    Some (w', Ok a) → dealt_with (state_in w' service).
Proof. intros [H|H]%moved_state; rewrite H; [by left|by right]. Qed.

Lemma mild_dealt_with (w w' : Work) service : mild w w' → dealt_with (state_in w service) → dealt_with (state_in w' service).
Proof. intros (Hw & _). apply settles_dealt_with, Hw. Qed.

Lemma mild_done (w w' : Work) service : mild w w' → done_state (state_in w service) → done_state (state_in w' service).
Proof. intros (Hw & _). apply settles_done, Hw. Qed.

Definition dispatches_dealt_with (w : Work) (l : list SupervisorShutdownStopDispatch) : Prop :=
  ∀ dispatch d, dispatch ∈ l → dispatch.(ssp_deadline) = Some d → dealt_with (state_in w d.(ssd_service)).

Ltac gentle_run E := let H := fresh in
  match type of E with
  | ?m ?w = Some (?w', _) => assert (mild w w') as H by (refine ((_ : gentle m) _ _ _ E); solve [gently_using])
  end; clear E; rename H into E.

Lemma retained_deadline_service service wave now_ns (w w' : Work) r :
  (retained_stop_deadline service wave now_ns : ShutdownM _) w = Some (w', Ok r) →
  r.(rsd_deadline).(ssd_service) = service.
Proof.
  intros (w1 & cgroup & _ & E)%exec_bind_Ok. apply exec_bind_Ok in E as (w2 & current & _ & E).
  destruct current as [operation|]; [destruct (is_running_stop operation)|].
  - apply exec_bind_Ok in E as (w3 & retained & _ & [= <- <-]).
    destruct retained as [d|]; [destruct (or_started_at_ns operation)|]; done.
  - apply exec_bind_Ok in E as (w3 & runtime & _ & E). apply exec_bind_Ok in E as (w4 & rt & _ & [= <- <-]).
    by repeat case_match.
  - apply exec_bind_Ok in E as (w3 & runtime & _ & E). apply exec_bind_Ok in E as (w4 & rt & _ & [= <- <-]).
    by repeat case_match.
Qed.

Lemma begun_participant wave now_ns p (w w' : Work) l :
  (p.(sp_already_stopping) = true → dealt_with (state_in w p.(sp_service))) →
  (begin_participant wave now_ns p : ShutdownM _) w = Some (w', Ok l) → dispatches_dealt_with w' l.1.
Proof.
  intros Hp (w1 & done & [= <- <-] & E)%exec_bind_Ok. destruct (participant_done_for_shutdown w (sp_service p)).
  { injection E as <- <-. intros dispatch d Hd. by apply not_elem_of_nil in Hd. }
  apply exec_bind_Ok in E as (w1 & [dispatch events] & E & [= <- <-]). simpl. intros dispatch' d ->%list_elem_of_singleton.
  destruct (sp_already_stopping p) eqn:Hs.
  - apply exec_bind_Ok in E as (w2 & retained & E2 & E). apply exec_bind_Ok in E as (w3 & ev & E3 & [= <- <- <-]).
    intros [= <-]. pose proof (retained_deadline_service _ _ _ _ _ _ E2) as ->.
    unfold retained_stop_deadline in E2. gentle_run E2. gentle_run E3.
    eapply mild_dealt_with; [exact E3|]. eapply mild_dealt_with; [exact E2|]. by apply Hp.
  - apply exec_bind_Ok in E as (w2 & t1 & [= <- _] & E). apply exec_bind_Ok in E as (w2 & target & [= <- _] & E).
    apply exec_bind_Ok in E as (w2 & ack & [= <- _] & E). apply exec_bind_Ok in E as (w2 & u & _ & E).
    apply exec_bind_Ok in E as (w3 & tr & Htr%moved_dealt_with & E).
    apply exec_bind_Ok in E as (w4 & due & E4 & E). apply exec_bind_Ok in E as (w5 & u5 & E5 & E).
    apply exec_bind_Ok in E as (w6 & ev & E6 & E). apply exec_bind_Ok in E as (w7 & cgroup & E7 & E).
    apply exec_bind_Ok in E as (w8 & op & [= <- _] & [= <- <- <-]). intros [= <-]. simpl.
    unfold shutdown_stop_deadline_ns in E4. gentle_run E4. gentle_run E5. gentle_run E6. gentle_run E7.
    do 4 (eapply mild_dealt_with; [eassumption|]). done.
Qed.

Lemma begun_wave r now_ns i (w w' : Work) dispatches deadlines events :
  shutdown_base w r → (begin_stop_wave r.(shr_plan) i now_ns : ShutdownM _) w = Some (w', Ok (dispatches, deadlines, events)) →
  ∀ d, d ∈ deadlines → dealt_with (state_in w' d.(ssd_service)).
Proof.
  intros Hb. unfold begin_stop_wave. destruct (sh_stop_waves (shr_plan r) !! i) as [wave|] eqn:Ewave.
  2:{ intros [= _ _ <- _] d Hd. by apply not_elem_of_nil in Hd. }
  intros (w1 & begun & E & [= <- <- <- <-])%exec_bind_Ok d.
  rewrite list_elem_of_omap. intros (dispatch & Hd & Hdl). apply list_elem_of_bind in Hd as (l & Hd & Hl).
  eapply (each_establishes mild (λ p w, p.(sp_already_stopping) = true → dealt_with (state_in w p.(sp_service)))
    (λ _ l w, dispatches_dealt_with w l.1)) in E.
  - apply list_elem_of_lookup in Hl as [k Hk]. destruct (Forall2_lookup_r _ _ _ _ _ E Hk) as (p & _ & H).
    by eapply H.
  - intros p. unfold begin_participant, begin_stopping_participant, begin_running_participant,
      retained_stop_deadline, shutdown_stop_deadline_ns. gently_using.
  - intros p a b H Hm Hs. eapply mild_dealt_with; [exact Hm|auto].
  - intros p l0 a b H Hm dispatch' d' Hin Hd'. eapply mild_dealt_with; [exact Hm|by eapply H].
  - intros p a b l0 _ H E'. by eapply begun_participant.
  - intros p Hp Hs. eapply (so_stopping _ _ Hb); [by eapply wave_participant|done].
Qed.

(** What advancing leaves: services have wound down, and the runtime is in order
    and awake; when it has become ready, no submitted job is live. *)
Definition advanced (w : Work) (r : Runtime) (w' : Work) (r' : Runtime) : Prop :=
  winds_down (wk_services w) (wk_services w') ∧ w'.(sw_submitted) = w.(sw_submitted) ∧
  shutdown_base w' r' ∧ covered w' r' ∧ awake w' r' ∧
  (r.(shr_finalization) ≠ FinReady → r'.(shr_finalization) = FinReady → live_jobs_remain w' = false).

Lemma next_wave_base (w : Work) (r : Runtime) :
  shutdown_base w r → wave_complete w r r.(shr_current_wave) = true →
  shutdown_base w {| r with shr_current_wave := S r.(shr_current_wave) |}.
Proof.
  intros [H1 H2 H3 H4 H5 H6] Hc. split; simpl; try done.
  intros i wave p Hi Hw Hp. destruct (decide (i = shr_current_wave r)) as [->|].
  - by eapply wave_done.
  - eapply H3; [|done..]. lia.
Qed.

Lemma last_wave_done (w : Work) (r : Runtime) :
  shutdown_base w r → wave_complete w r r.(shr_current_wave) = true →
  (List.length r.(shr_plan).(sh_stop_waves) <=? S r.(shr_current_wave))%nat = true →
  ∀ p, p ∈ participants r.(shr_plan) → done_state (state_in w p.(sp_service)).
Proof.
  intros Hb Hc Hlen%Nat.leb_le p (i & wave & Hi & Hp)%participant_wave.
  pose proof (lookup_lt_Some _ _ _ Hi) as Hlt.
  destruct (decide (i = shr_current_wave r)) as [->|]; [by eapply wave_done|].
  eapply (so_waves _ _ Hb); [|done..]. lia.
Qed.

Lemma more_stops_base (w : Work) (r : Runtime) deadlines :
  shutdown_base w r → (∀ d, d ∈ deadlines → dealt_with (state_in w d.(ssd_service))) →
  r.(shr_finalization) ≠ FinReady →
  shutdown_base w {| r with shr_stop_deadlines := r.(shr_stop_deadlines) ++ deadlines |}.
Proof.
  intros [H1 H2 H3 H4 H5 H6] Hd Hr. split; simpl; try done. intros d [?|?]%elem_of_app; auto.
Qed.

Lemma not_all_done (w : Work) (r : Runtime) i :
  shutdown_base w r → (i < List.length r.(shr_plan).(sh_stop_waves))%nat → wave_complete w r i = false →
  r.(shr_finalization) ≠ FinReady.
Proof.
  intros Hb Hi Hw Hr. destruct (so_ready _ _ Hb Hr) as [Hd _]. apply lookup_lt_is_Some in Hi as [wave Hwave].
  assert (wave_complete w r i = true); [|congruence]. unfold wave_complete. rewrite Hwave. apply forallb_forall.
  intros p Hp%list_elem_of_In. apply (Hd p). by eapply wave_participant.
Qed.

Lemma advance_waves_ok fuel now_ns (w w' : Work) (r r' : Runtime) dispatches events :
  shutdown_base w r → covered w r →
  (advance_waves fuel r now_ns : ShutdownM _) w = Some (w', Ok (r', dispatches, events)) → advanced w r w' r'.
Proof.
  revert r w dispatches events. induction fuel as [|fuel IH]; intros r w dispatches events Hb Hc; [done|].
  cbn [advance_waves]. intros (w1 & complete & [= <- <-] & E)%exec_bind_Ok.
  destruct (wave_complete w r (shr_current_wave r)) eqn:Hw; cbn [negb] in E.
  2:{ injection E as <- <- _ _. split_and!; try done. by apply incomplete_awake. }
  destruct (_ <=? _)%nat eqn:Hlen in E.
  { apply exec_bind_Ok in E as (w1 & pending & [= <- <-] & [= <- <- _ _]).
    destruct (nothing_pending w r) eqn:Hp; simpl.
    - destruct (waiting_for_services (shr_finalization r)) eqn:Hwait.
      + pose proof (last_wave_done w r Hb Hw Hlen) as Hd. apply nothing_pending_true in Hp as (Hp1 & Hp2 & Hp3).
        destruct Hb as [H1 H2 H3 H4 H5 H6]. split_and!; try done.
      + split_and!; try done. intros _ Hwt. congruence.
    - split_and!; try done. intros _ _. by apply nothing_pending_false. }
  apply Nat.leb_gt in Hlen.
  pose proof (next_wave_base w r Hb Hw) as Hb1. set (r1 := {| r with shr_current_wave := _ |}) in *.
  apply exec_bind_Ok in E as (w1 & complete & [= <- <-] & E).
  change (wave_complete w (_) _) with (wave_complete w r1 (S (shr_current_wave r))) in E.
  destruct (wave_complete w r1 (S (shr_current_wave r))) eqn:Hw1.
  { destruct (IH _ _ _ _ Hb1 Hc E) as (? & ? & ? & ? & ? & ?). by split_and!. }
  pose proof (not_all_done w r1 _ Hb1 Hlen Hw1) as Hnr.
  apply exec_bind_Ok in E as (w1 & [[ds deadlines] ev] & E1 & E).
  pose proof (begun_wave r1 _ _ _ _ _ _ _ Hb1 E1) as Hdl. apply gentle_begin_wave in E1 as (Hwd & _ & Hsub).
  apply exec_bind_Ok in E as (w2 & [[r2 later] lev] & E2 & [= <- <- _ _]).
  apply IH in E2 as (G1 & G2 & G3 & G4 & G5 & G6).
  - split_and!; try done; [by etrans|congruence].
  - apply more_stops_base; [|done|done]. by eapply base_winds.
  - eapply covered_winds; [exact Hwd|]. exact Hc.
Qed.

Lemma advance_ok now_ns (w w' : Work) (r : Runtime) out :
  w.(sw_shutdown) = Some r → shutdown_base w r → covered w r →
  (advance_shutdown_progress now_ns : ShutdownM _) w = Some (w', Ok out) →
  ∃ r', w'.(sw_shutdown) = Some r' ∧ advanced w r w' r'.
Proof.
  intros Hr Hb Hc (w1 & settled & E1 & E)%exec_bind_Ok. apply gentle_settle in E1 as (Hw1 & Hs1 & Hu1).
  apply exec_bind_Ok in E as (w2 & r0 & E2 & E). unfold work_shutdown in E2.
  apply exec_bind_Ok in E2 as (w3 & o & [= <- <-] & E2). rewrite Hs1, Hr in E2. injection E2 as <- <-.
  apply exec_bind_Ok in E as (w3 & [] & [= <-] & E).
  apply exec_bind_Ok in E as (w4 & [[r' ds] ev] & E4 & E). apply exec_bind_Ok in E as (w5 & [] & [= <-] & [= <- _]).
  exists r'. split; [done|]. apply advance_waves_ok in E4 as (G1 & G2 & G3 & G4 & G5 & G6).
  - split_and!.
    + etrans; [exact Hw1|exact G1].
    + simpl. rewrite G2. exact Hu1.
    + by eapply (base_winds w4).
    + by eapply (covered_winds w4).
    + exact G5.
    + exact G6.
  - by eapply (base_winds w).
  - by eapply (covered_winds w).
Qed.

(** ** Jobs that end *)

Definition without_service (service : string) (r : Runtime) : Runtime :=
  {| r with
     shr_stop_deadlines := filter (λ deadline, deadline.(ssd_service) ≠ service) r.(shr_stop_deadlines);
     shr_post_kill_deadlines := filter (λ deadline, deadline.(spk_service) ≠ service) r.(shr_post_kill_deadlines) |}.

Lemma without_service_base (w : Work) (r : Runtime) service :
  shutdown_base w r → shutdown_base w (without_service service r).
Proof.
  intros [H1 H2 H3 H4 H5 H6]. split; simpl; try done.
  - intros d [_ Hd]%list_elem_of_filter. auto.
  - intros d [_ Hd]%list_elem_of_filter. auto.
  - intros Hr. destruct (H6 Hr) as (? & -> & ->). done.
Qed.

Lemma without_service_covered (w : Work) (r : Runtime) service :
  covered w r → done_state (state_in w service) → covered w (without_service service r).
Proof.
  intros Hc Hd Hf p Hp. destruct (decide (p.(sp_service) = service)) as [->|Hne]; [by left|].
  destruct (Hc Hf p Hp) as [|(d & Hin & Hs)]; [by left|]. right. exists d. split; [|done].
  apply list_elem_of_filter. split; [congruence|done].
Qed.

Lemma work_shutdown_Ok (w w' : Work) r :
  (work_shutdown : ShutdownM _) w = Some (w', Ok r) → w' = w ∧ w.(sw_shutdown) = Some r.
Proof.
  intros (w1 & o & [= <- <-] & E)%exec_bind_Ok. injection E as <- E. by destruct (sw_shutdown w); simplify_eq/=.
Qed.

Lemma removed_deadlines service (w w' : Work) u r :
  w.(sw_shutdown) = Some r → (remove_shutdown_deadlines_for_service service : ShutdownM unit) w = Some (w', Ok u) →
  mild (set_sw_shutdown (Some (without_service service r)) w) w'.
Proof.
  intros Hr (w1 & r0 & [-> E1]%work_shutdown_Ok & E)%exec_bind_Ok. rewrite Hr in E1. injection E1 as <-.
  cbv zeta in E. apply exec_bind_Ok in E as (w2 & [] & [= <-] & E). by apply gentle_remove_timeouts in E.
Qed.

(** The end of a participant's process is the end of the participant. *)
Lemma job_exit_settles job_event (w w' : Work) r out :
  w.(sw_shutdown) = Some r → shutdown_base w r → covered w r →
  (apply_shutdown_job_exit job_event : ShutdownM _) w = Some (w', Ok out) →
  ∃ r', w'.(sw_shutdown) = Some r' ∧ r'.(shr_finalization) = r.(shr_finalization) ∧
    w'.(sw_submitted) = w.(sw_submitted) ∧ shutdown_base w' r' ∧ covered w' r'.
Proof.
  intros Hr Hb Hc. unfold apply_shutdown_job_exit. destruct (je_service job_event) as [service|].
  2:{ intros [= <- _]. by exists r. }
  intros (w1 & u & E1 & E)%exec_bind_Ok. apply (removed_deadlines _ _ _ _ _ Hr) in E1 as (Hw1 & Hs1 & Hu1).
  apply exec_bind_Ok in E as (w2 & runtime & [= <- <-] & E).
  pose proof (without_service_base _ _ service Hb) as Hb1.
  assert (winds_down (wk_services w) (wk_services w1)) as Hw1' by exact Hw1.
  pose proof (base_winds _ _ _ Hw1' Hb1) as Hb2.
  assert (∀ w2, mild w1 w2 → (settled (state_in w1 service) → done_state (state_in w2 service)) →
    ∃ r', sw_shutdown w2 = Some r' ∧ shr_finalization r' = shr_finalization r ∧ sw_submitted w2 = sw_submitted w ∧
      shutdown_base w2 r' ∧ covered w2 r') as Hfinish.
  { intros w2 (Hw2 & Hs2 & Hu2) Hdone. exists (without_service service r).
    split_and!; [by rewrite Hs2, Hs1|done|by rewrite Hu2, Hu1|by eapply base_winds|].
    intros Hf p Hp. destruct (decide (sp_service p = service)) as [Heq|Hne].
    - left. rewrite Heq. apply Hdone. rewrite <- Heq. apply (so_settled _ _ Hb2 p Hp).
    - destruct (Hc Hf p Hp) as [Hd|(d & Hd & Hds)].
      + left. eapply settles_done; [apply Hw2|]. by eapply settles_done; [apply Hw1'|].
      + right. exists d. split; [|done]. apply list_elem_of_filter. split; [congruence|done]. }
  destruct (table_runtime (wk_services w1) service) as [rt|] eqn:Hrt.
  2:{ injection E as <- _. apply Hfinish; [done|]. intros _. unfold done_state, state_in, state_of_service. by rewrite Hrt. }
  apply exec_bind_Ok in E as (w2 & u2 & E2 & E).
  assert (mild w1 w2) as H12.
  { destruct (shutdown_exit_clears_fd_store _); injection E2 as <-; [|done]. by apply mild_same. }
  clear E2.
  assert (state_in w1 service = Some (rt_state rt)) as Hst by (unfold state_in, state_of_service; by rewrite Hrt).
  assert (∀ to cause, winding_state to = true → service_done_for_shutdown to = true →
    (transition_shutdown_service service to cause : ShutdownM _) w2 = Some (w', Ok out) →
    mild w1 w' ∧ done_state (state_in w' service)) as Hmove.
  { intros to cause Hto Hd (w3 & tr & E3 & [= <- _])%exec_bind_Ok. split; [|by eapply moved_done].
    etrans; [exact H12|]. refine ((_ : gentle _) _ _ _ E3). gently_using. }
  destruct (rt_state rt) eqn:Ert;
    try (apply Hmove in E as [? ?]; [by apply Hfinish|reflexivity..]);
    try (injection E as <- _; apply Hfinish; [exact H12|]; intros Hset; eapply mild_done; [exact H12|];
         rewrite Hst in Hset |- *; by destruct Hset as [Hset|[Hset|[Hset|Hset]]]).
  - unfold apply_shutdown_active_exit in E. apply exec_bind_Ok in E as (w3 & d1 & [= <- _] & E).
    apply exec_bind_Ok in E as (w3 & d2 & [= <- _] & E).
    destruct (shutdown_job_succeeded d2 job_event); (apply Hmove in E as [? ?]; [by apply Hfinish|reflexivity..]).
  - destruct (Hmove _ _ (stopped_state_winds _) (stopped_state_done (rt_cause rt)) E). by apply Hfinish.
Qed.

(** ** Kills *)

Definition add_kills (extra : list ShutdownPostKillDeadline) (r : Runtime) : Runtime :=
  {| r with shr_post_kill_deadlines := r.(shr_post_kill_deadlines) ++ extra |}.

(** Services wind down and post-kill deadlines are added. *)
Definition killing (w w' : Work) : Prop :=
  winds_down (wk_services w) (wk_services w') ∧ w'.(sw_submitted) = w.(sw_submitted) ∧
  ∃ extra, w'.(sw_shutdown) = add_kills extra <$> w.(sw_shutdown).

Lemma add_kills_nil (r : Runtime) : add_kills [] r = r.
Proof. unfold add_kills. rewrite app_nil_r. by destruct r. Qed.

Lemma add_kills_app (r : Runtime) a b : add_kills b (add_kills a r) = add_kills (a ++ b) r.
Proof. unfold add_kills. simpl. by rewrite app_assoc. Qed.

#[local] Instance killing_preorder : PreOrder killing.
Proof.
  split.
  - intros w. split_and!; try done. exists []. destruct (sw_shutdown w); [|done]. simpl. by rewrite add_kills_nil.
  - intros a b c (H1 & H2 & ea & H3) (H4 & H5 & eb & H6). split_and!; [by etrans|congruence|].
    exists (ea ++ eb). rewrite H6, H3. destruct (sw_shutdown a); [|done]. simpl. by rewrite add_kills_app.
Qed.

Lemma mild_killing w w' : mild w w' → killing w w'.
Proof.
  intros (H1 & H2 & H3). split_and!; try done. exists []. rewrite H2. destruct (sw_shutdown w); [|done].
  simpl. by rewrite add_kills_nil.
Qed.

Lemma gentle_kills {E A} (m : Exec Work E A) : gentle m → relates killing m.
Proof. intros Hm w w' r E0. by eapply mild_killing, Hm. Qed.

Lemma recorded_kill service cgroup_id now_ns secs (w w' : Work) u :
  (record_post_kill_deadline service cgroup_id now_ns secs : ShutdownM unit) w = Some (w', Ok u) →
  ∃ r extra, w.(sw_shutdown) = Some r ∧ w' = set_sw_shutdown (Some (add_kills extra r)) w ∧
    has_post_kill (add_kills extra r) service ∧ (∀ d, d ∈ extra → d.(spk_service) = service).
Proof.
  intros (w1 & r & [-> Hr]%work_shutdown_Ok & E)%exec_bind_Ok. injection E as <- _. exists r.
  destruct (existsb _ _) eqn:He.
  - exists []. rewrite add_kills_nil. split_and!; try done; [|intros d Hd; by apply not_elem_of_nil in Hd].
    apply existsb_exists in He as (d & Hd & Hs%bool_decide_eq_true). exists d. split; [by apply list_elem_of_In|done].
  - eexists. split_and!; [done|reflexivity| |].
    + eexists. split; [apply elem_of_app; right; apply list_elem_of_singleton; reflexivity|done].
    + by intros d ->%list_elem_of_singleton.
Qed.

Lemma record_kill_relates service cgroup_id now_ns secs :
  relates killing (record_post_kill_deadline service cgroup_id now_ns secs : ShutdownM unit).
Proof.
  intros w w' [u|e] E.
  - apply recorded_kill in E as (r & extra & Hr & -> & _). split_and!; try done. exists extra. by rewrite Hr.
  - unfold record_post_kill_deadline, update_shutdown, work_shutdown, mbind, exec_bind, exec_get, exec_lift in E.
    destruct (sw_shutdown w); [done|]. by injection E as <- _.
Qed.

Lemma killed_base (w : Work) (r : Runtime) extra :
  shutdown_base w r → (∀ d, d ∈ extra → dealt_with (state_in w d.(spk_service))) →
  r.(shr_finalization) ≠ FinReady → shutdown_base w (add_kills extra r).
Proof.
  intros [H1 H2 H3 H4 H5 H6] He Hr. split; simpl; try done. intros d [?|?]%elem_of_app; auto.
Qed.

Lemma has_post_kill_more (r : Runtime) extra service : has_post_kill r service → has_post_kill (add_kills extra r) service.
Proof. intros (d & Hd & Hs). exists d. split; [|done]. apply elem_of_app. by left. Qed.

(** What has been killed has a post-kill deadline, and is dealt with. *)
Definition is_killed (w : Work) (service : string) : Prop :=
  dealt_with (state_in w service) ∧ ∃ r, w.(sw_shutdown) = Some r ∧ has_post_kill r service.

Lemma is_killed_killing (w w' : Work) service : killing w w' → is_killed w service → is_killed w' service.
Proof.
  intros (H1 & _ & extra & H3) (Hd & r & Hr & Hk). split; [eapply settles_dealt_with; [apply H1|done]|].
  rewrite Hr in H3. exists (add_kills extra r). split; [done|]. by apply has_post_kill_more.
Qed.

(** In a run of kills the new deadlines are those of services that were dealt with. *)
Definition kills_in_order (w w' : Work) (services : list string) : Prop :=
  killing w w' ∧ ∀ r, w.(sw_shutdown) = Some r → ∃ extra, w'.(sw_shutdown) = Some (add_kills extra r) ∧
    ∀ d, d ∈ extra → d.(spk_service) ∈ services.

Lemma kills_in_order_nil w : kills_in_order w w [].
Proof. split; [done|]. intros r Hr. exists []. rewrite add_kills_nil. split; [done|]. intros d Hd. by apply not_elem_of_nil in Hd. Qed.

Lemma kills_in_order_app w w1 w2 a b :
  kills_in_order w w1 a → kills_in_order w1 w2 b → kills_in_order w w2 (a ++ b).
Proof.
  intros [K1 H1] [K2 H2]. split; [by etrans|]. intros r Hr. destruct (H1 r Hr) as (e1 & E1 & Hin1).
  destruct (H2 _ E1) as (e2 & E2 & Hin2). exists (e1 ++ e2). rewrite E2, add_kills_app. split; [done|].
  intros d [?|?]%elem_of_app; apply elem_of_app; auto.
Qed.

Lemma kills_of_mild w w' services : mild w w' → kills_in_order w w' services.
Proof.
  intros Hm. split; [by apply mild_killing|]. intros r Hr. exists []. destruct Hm as (_ & -> & _).
  rewrite add_kills_nil. split; [done|]. intros d Hd. by apply not_elem_of_nil in Hd.
Qed.

Lemma kills_of_record service cgroup_id now_ns secs (w w' : Work) u :
  (record_post_kill_deadline service cgroup_id now_ns secs : ShutdownM unit) w = Some (w', Ok u) →
  kills_in_order w w' [service].
Proof.
  intros E. split; [by eapply record_kill_relates|]. apply recorded_kill in E as (r0 & extra & Hr & -> & _ & He).
  intros r Hr'. rewrite Hr in Hr'. injection Hr' as <-. exists extra. split; [done|]. intros d Hd.
  apply list_elem_of_singleton. auto.
Qed.

Lemma kills_base (w w' : Work) (r : Runtime) services :
  w.(sw_shutdown) = Some r → shutdown_base w r → kills_in_order w w' services →
  (∀ s, s ∈ services → dealt_with (state_in w' s)) → (r.(shr_finalization) = FinReady → services = []) →
  ∃ extra, w'.(sw_shutdown) = Some (add_kills extra r) ∧ shutdown_base w' (add_kills extra r) ∧
    (covered w r → covered w' (add_kills extra r)) ∧ w'.(sw_submitted) = w.(sw_submitted) ∧
    winds_down (wk_services w) (wk_services w').
Proof.
  intros Hr Hb [(Hw & Hu & _) Hk] Hd Hready. destruct (Hk r Hr) as (extra & Hr' & Hin). exists extra.
  split_and!; try done.
  - pose proof (base_winds _ _ _ Hw Hb) as [H1 H2 H3 H4 H5 H6]. split; simpl; try done.
    + intros d [?|?]%elem_of_app; auto.
    + intros Hf. specialize (Hready Hf) as ->. destruct (H6 Hf) as (? & ? & ->). split_and!; try done.
      destruct extra as [|d extra]; [done|]. specialize (Hin d). rewrite elem_of_cons in Hin. set_solver.
  - intros Hc Hf p Hp. destruct (Hc Hf p Hp) as [Hdone|Hpk]; [left|right; by apply has_post_kill_more].
    eapply settles_done; [apply Hw|done].
Qed.

Lemma each_kills {X A} (f : X → string) (body : X → ShutdownM A) xs (w w' : Work) l :
  (∀ x w w' a, body x w = Some (w', Ok a) → kills_in_order w w' [f x]) →
  exec_each body xs w = Some (w', Ok l) → kills_in_order w w' (map f xs).
Proof.
  intros Hb. revert w l. induction xs as [|x xs IH]; intros w l; simpl.
  { intros [= <- _]. apply kills_in_order_nil. }
  intros (w1 & a & E1 & E)%exec_bind_Ok. apply exec_bind_Ok in E as (w2 & l2 & E2 & [= <- _]).
  apply (kills_in_order_app w w1 w2 [f x]); [by eapply Hb|by eapply IH].
Qed.

(** *** Stop timeouts *)

Lemma killed_stop now_ns secs d (w w' : Work) a :
  (kill_stop_deadline now_ns secs d : ShutdownM _) w = Some (w', Ok a) → kills_in_order w w' [d.(ssd_service)].
Proof.
  intros (w1 & u1 & E1%gentle_remove_timeouts & E)%exec_bind_Ok.
  apply exec_bind_Ok in E as (w2 & u2 & E2%gentle_kill & E). apply exec_bind_Ok in E as (w3 & u3 & E3 & [= <- _]).
  apply kills_of_record in E3. apply (kills_in_order_app w w2 _ []); [|done]. apply kills_of_mild. by etrans.
Qed.

Lemma due_stops_ok now_ns secs (w w' : Work) r l :
  w.(sw_shutdown) = Some r → shutdown_base w r → covered w r →
  (process_due_stop_deadlines now_ns secs : ShutdownM _) w = Some (w', Ok l) →
  ∃ r', w'.(sw_shutdown) = Some r' ∧ r'.(shr_finalization) = r.(shr_finalization) ∧
    w'.(sw_submitted) = w.(sw_submitted) ∧ shutdown_base w' r' ∧ covered w' r'.
Proof.
  intros Hr Hb Hc (w1 & r0 & [-> E1]%work_shutdown_Ok & E)%exec_bind_Ok. rewrite Hr in E1. injection E1 as <-.
  cbv zeta in E. apply exec_bind_Ok in E as (w2 & [] & [= <-] & E).
  set (r1 := {| r with shr_stop_deadlines := _ |}) in E. set (w1 := set_sw_shutdown (Some r1) w) in E.
  assert (shutdown_base w1 r1) as Hb1.
  { destruct Hb as [H1 H2 H3 H4 H5 H6]. split; simpl; try done.
    - intros d [_ Hd]%list_elem_of_filter. by apply H4.
    - intros Hf. destruct (H6 Hf) as (? & -> & ?). done. }
  apply (each_kills ssd_service) in E; [|intros; by eapply killed_stop].
  destruct (kills_base w1 w' r1 _ eq_refl Hb1 E) as (extra & Hr' & Hb' & Hc' & Hu' & _).
  - intros s (d & -> & [_ Hd]%list_elem_of_filter)%list_elem_of_fmap. destruct E as [(Hw & _) _].
    eapply settles_dealt_with; [apply Hw|]. apply (so_stops _ _ Hb d Hd).
  - intros Hf. destruct (so_ready _ _ Hb Hf) as (_ & -> & _). done.
  - exists (add_kills extra r1). split_and!; try done. by apply Hc'.
Qed.

(** *** The global timeout *)

Lemma killed_remaining now_ns secs service (w w' : Work) a :
  settled (state_in w service) → (kill_remaining_service now_ns secs service : ShutdownM _) w = Some (w', Ok a) →
  kills_in_order w w' [service] ∧ is_killed w' service.
Proof.
  intros Hset (w1 & cg & E1%gentle_root & E)%exec_bind_Ok. apply exec_bind_Ok in E as (w2 & u2 & E2%gentle_kill & E).
  apply exec_bind_Ok in E as (w3 & st & [= <- <-] & E).
  assert (mild w w2) as H02 by (by etrans).
  assert (settled (state_in w2 service)) as Hset2 by (eapply settles_settled; [apply H02|done]).
  apply exec_bind_Ok in E as (w3 & u3 & E3 & E).
  assert (mild w2 w3 ∧ dealt_with (state_in w3 service)) as [H23 Hd3].
  { change (runtime_state w2 service) with (state_in w2 service) in E3.
    destruct Hset2 as [Hs|[Hs|Hs]]; [rewrite Hs in E3..|].
    1,2: apply exec_bind_Ok in E3 as (w4 & tr & E4 & [= <- _]); split; [|by eapply moved_dealt_with];
      refine ((_ : gentle _) _ _ _ E4); gently_using.
    assert (w3 = w2) as ->; [|done].
    destruct Hs as [Hs|Hs]; [rewrite Hs in E3; by injection E3 as <-|].
    unfold done_state in Hs. destruct (state_in w2 service) as [[]|]; try done; by injection E3 as <-. }
  apply exec_bind_Ok in E as (w4 & u4 & E4 & [= <- _]). split.
  - apply (kills_in_order_app w w3 _ []); [|by eapply kills_of_record]. apply kills_of_mild. by etrans.
  - apply recorded_kill in E4 as (r & extra & Hr & -> & Hk & _). split; [exact Hd3|]. by exists (add_kills extra r).
Qed.

Lemma all_killed now_ns secs services (w w' : Work) l :
  (∀ s, s ∈ services → settled (state_in w s)) →
  exec_each (kill_remaining_service now_ns secs : string → ShutdownM _) services w = Some (w', Ok l) →
  kills_in_order w w' services ∧ ∀ s, s ∈ services → is_killed w' s.
Proof.
  revert w l. induction services as [|service services IH]; intros w l Hset; simpl.
  { intros [= <- _]. split; [apply kills_in_order_nil|]. intros s Hs. by apply not_elem_of_nil in Hs. }
  intros (w1 & a & E1 & E)%exec_bind_Ok. apply exec_bind_Ok in E as (w2 & l2 & E2 & [= <- _]).
  apply killed_remaining in E1 as [K1 I1]; [|apply Hset; left].
  destruct (IH w1 l2) as [K2 I2]; [|done|].
  { intros s Hs. eapply settles_settled; [apply K1|]. apply Hset. by right. }
  split; [by apply (kills_in_order_app w w1 w2 [service])|].
  intros s [->|Hs]%elem_of_cons; [|auto]. eapply is_killed_killing; [apply K2|done].
Qed.

Lemma kill_all_ok now_ns secs (w w' : Work) r l :
  w.(sw_shutdown) = Some r → shutdown_base w r → r.(shr_finalization) ≠ FinReady →
  (kill_all_remaining_services now_ns secs : ShutdownM _) w = Some (w', Ok l) →
  ∃ r', w'.(sw_shutdown) = Some r' ∧ r'.(shr_finalization) = r.(shr_finalization) ∧
    w'.(sw_submitted) = w.(sw_submitted) ∧ shutdown_base w' r' ∧ covered w' r'.
Proof.
  intros Hr Hb Hnr (w1 & remaining & [= <- <-] & E)%exec_bind_Ok.
  apply exec_bind_Ok in E as (w2 & [] & [= <-] & E). rewrite Hr in E. simpl in E.
  set (r1 := {| r with shr_stop_deadlines := [] |}) in E. set (w1 := set_sw_shutdown (Some r1) w) in E.
  assert (shutdown_base w1 r1) as Hb1.
  { destruct Hb as [H1 H2 H3 H4 H5 H6]. split; simpl; try done. intros d Hd. by apply not_elem_of_nil in Hd. }
  assert (∀ s, s ∈ remaining_shutdown_services w → ∃ p, p ∈ participants r.(shr_plan) ∧ sp_service p = s) as Hrem.
  { unfold remaining_shutdown_services. rewrite Hr. intros s (p & -> & [_ Hp]%list_elem_of_filter)%list_elem_of_fmap. eauto. }
  assert (kills_in_order w1 w' (remaining_shutdown_services w) ∧
    ∀ s, s ∈ remaining_shutdown_services w → is_killed w' s) as [Hko Hkilled].
  { eapply all_killed; [|exact E]. intros s (p & Hp & <-)%Hrem. apply (so_settled _ _ Hb p Hp). }
  destruct (kills_base w1 w' r1 _ eq_refl Hb1 Hko) as (extra & Hr' & Hb' & _ & Hu' & Hw').
  - intros s Hs. apply (Hkilled s Hs).
  - done.
  - exists (add_kills extra r1). split_and!; try done. intros _ p Hp.
    destruct (decide (done_state (state_in w' p.(sp_service)))) as [|Hnd]; [by left|right].
    assert (p.(sp_service) ∈ remaining_shutdown_services w) as Hin.
    { unfold remaining_shutdown_services. rewrite Hr. apply list_elem_of_fmap. exists p. split; [done|].
      apply list_elem_of_filter. split; [|done].
      destruct (runtime_state w (sp_service p)) as [st|] eqn:Est; simpl.
      - destruct (service_done_for_shutdown st) eqn:Hsd; [|done]. exfalso. apply Hnd.
        eapply settles_done; [apply Hw'|]. unfold done_state, state_of_service. change (wk_services w1) with (wk_services w).
        unfold runtime_state in Est. by rewrite Est.
      - exfalso. apply Hnd. eapply settles_done; [apply Hw'|]. unfold done_state, state_of_service.
        change (wk_services w1) with (wk_services w). unfold runtime_state in Est. by rewrite Est. }
    destruct (Hkilled _ Hin) as (_ & r2 & Hr2 & Hk). rewrite Hr' in Hr2. by injection Hr2 as <-.
Qed.
(** *** Post-kill deadlines *)

Lemma post_kill_done now_ns d (w w' : Work) a :
  dealt_with (state_in w d.(spk_service)) →
  (process_post_kill_deadline now_ns d : ShutdownM _) w = Some (w', Ok a) → done_state (state_in w' d.(spk_service)).
Proof.
  intros Hd E. pose proof (gentle_post_kill _ _ _ _ _ E) as Hm.
  apply exec_bind_Ok in E as (w1 & st & [= <- <-] & E). change (runtime_state w (spk_service d)) with (state_in w (spk_service d)) in E.
  destruct (decide (done_state (state_in w (spk_service d)))) as [|Hnd]; [by eapply mild_done|].
  destruct Hd as [Hd|]; [|done]. rewrite Hd in E.
  apply exec_bind_Ok in E as (w1 & populated & _ & E). destruct populated.
  - apply exec_bind_Ok in E as (w2 & ids & _ & E). apply exec_bind_Ok in E as (w3 & evs & _ & E).
    apply exec_bind_Ok in E as (w4 & leaked & _ & E). rewrite bool_decide_false in E by done.
    apply exec_bind_Ok in E as (w5 & tr & E5 & [= <- _]). by eapply moved_done.
  - apply exec_bind_Ok in E as (w2 & ids & _ & E). apply exec_bind_Ok in E as (w3 & evs & _ & E).
    apply exec_bind_Ok in E as (w4 & cleaned & _ & E). rewrite bool_decide_true in E by done.
    apply exec_bind_Ok in E as (w5 & [] & E5 & [= <- _]).
    apply exec_bind_Ok in E5 as (w6 & cause & _ & E6). apply exec_bind_Ok in E6 as (w7 & tr & E7 & [= <-]).
    eapply moved_done; [exact E7|apply stopped_state_done].
Qed.

Lemma due_post_kills_ok now_ns (w w' : Work) r out :
  w.(sw_shutdown) = Some r → shutdown_base w r → covered w r →
  (process_due_post_kill_deadlines now_ns : ShutdownM _) w = Some (w', Ok out) →
  ∃ r', w'.(sw_shutdown) = Some r' ∧ r'.(shr_finalization) = r.(shr_finalization) ∧
    w'.(sw_submitted) = w.(sw_submitted) ∧ shutdown_base w' r' ∧ covered w' r'.
Proof.
  intros Hr Hb Hc (w1 & r0 & [-> E1]%work_shutdown_Ok & E)%exec_bind_Ok. rewrite Hr in E1. injection E1 as <-.
  cbv zeta in E. apply exec_bind_Ok in E as (w2 & [] & [= <-] & E).
  set (r1 := {| r with shr_post_kill_deadlines := _ |}) in E. set (w1 := set_sw_shutdown (Some r1) w) in E.
  apply exec_bind_Ok in E as (w2 & processed & E & [= <- _]).
  assert (mild w1 w2) as (Hw & Hs & Hu).
  { refine ((_ : gentle _) _ _ _ E). apply gentle_each. intros d. apply gentle_post_kill. }
  apply (each_establishes mild (λ d w, dealt_with (state_in w d.(spk_service)))
    (λ d _ w, done_state (state_in w d.(spk_service)))) in E.
  - exists r1. split_and!; [by rewrite Hs|done|by rewrite Hu| |].
    + apply (base_winds w1); [exact Hw|]. destruct Hb as [H1 H2 H3 H4 H5 H6]. split; simpl; try done.
      * intros d [_ Hd]%list_elem_of_filter. by apply H5.
      * intros Hf. destruct (H6 Hf) as (? & ? & ->). done.
    + intros Hf p Hp. destruct (Hc Hf p Hp) as [Hd|(d & Hd & Hds)]; [left; eapply settles_done; [apply Hw|done]|].
      destruct (decide (d.(spk_due_at_ns) ≤ now_ns)) as [Hdue|Hnot].
      * left. rewrite <- Hds. assert (d ∈ filter (λ d, d.(spk_due_at_ns) ≤ now_ns) r.(shr_post_kill_deadlines)) as Hin
          by (by apply list_elem_of_filter). apply list_elem_of_lookup in Hin as [i Hi].
        destruct (Forall2_lookup_l _ _ _ _ _ E Hi) as (? & _ & Hdone). exact Hdone.
      * right. exists d. split; [|done]. by apply list_elem_of_filter.
  - intros d. apply gentle_post_kill.
  - intros d a b Hd Hm. by eapply mild_dealt_with.
  - intros d l a b Hd Hm. by eapply mild_done.
  - intros d a b l _ Hd E'. by eapply post_kill_done.
  - intros d [_ Hd]%list_elem_of_filter. apply (so_kills _ _ Hb d Hd).
Qed.

(** ** Events *)

Notation SError := (@SupervisorShutdownError BoundaryError).
Notation SupervisorM := (Exec Work SError).

(** A shutdown that has come from finalization state [f] and may be advanced. *)
Definition prepared (f : ShutdownFinalizationState BoundaryError) (w : Work) : Prop :=
  ∃ r, w.(sw_shutdown) = Some r ∧ r.(shr_finalization) = f ∧ shutdown_base w r ∧ covered w r.

Definition shutdown_inv (w : Work) : Prop :=
  ∀ r, w.(sw_shutdown) = Some r → shutdown_base w r ∧ covered w r ∧ awake w r.

Definition fin_of (w : Work) : option (ShutdownFinalizationState BoundaryError) := shr_finalization <$> w.(sw_shutdown).

(** When a step makes the shutdown ready, no submitted job is live. *)
Definition ready_when_idle (w w' : Work) : Prop :=
  fin_of w ≠ Some FinReady → fin_of w' = Some FinReady → live_jobs_remain w' = false.

Lemma prepared_mild f w w' : mild w w' → prepared f w → prepared f w'.
Proof.
  intros (Hw & Hs & _) (r & Hr & Hf & Hb & Hc). exists r. rewrite Hs. split_and!; try done;
    [by eapply base_winds|by eapply covered_winds].
Qed.

Lemma prepared_same f (w w' : Work) :
  wk_services w' = wk_services w → w'.(sw_shutdown) = w.(sw_shutdown) → prepared f w → prepared f w'.
Proof.
  intros Hw Hs (r & Hr & Hf & Hb & Hc). exists r. rewrite Hs.
  assert (winds_down (wk_services w) (wk_services w')) as Hwd by (rewrite Hw; reflexivity).
  split_and!; try done; [by eapply base_winds|by eapply covered_winds].
Qed.

Lemma advance_prepared now_ns f (w w' : Work) out :
  prepared f w → (advance_shutdown_progress now_ns : ShutdownM _) w = Some (w', Ok out) →
  shutdown_inv w' ∧ (f ≠ FinReady → fin_of w' = Some FinReady → live_jobs_remain w' = false).
Proof.
  intros (r & Hr & <- & Hb & Hc) E. destruct (advance_ok _ _ _ _ _ Hr Hb Hc E) as (r' & Hr' & _ & _ & H1 & H2 & H3 & H4).
  split; [intros r0 Hr0; rewrite Hr' in Hr0; by injection Hr0 as <-|].
  intros Hf. unfold fin_of. rewrite Hr'. intros [= Hf']. auto.
Qed.

(** Submitted jobs know nothing of services or of the shutdown. *)
Definition same_services (w w' : Work) : Prop :=
  wk_services w' = wk_services w ∧ w'.(sw_shutdown) = w.(sw_shutdown).

#[local] Instance same_services_preorder : PreOrder same_services.
Proof. split; [done|]. intros a b c [? ?] [? ?]. split; congruence. Qed.

Lemma submitted_same {A} (m : @Run P BoundaryError A) :
  relates same_services (work_submitted SuSubmitted m : SupervisorM A).
Proof. apply relates_on. by intros w. Qed.

Lemma inv_prepared (w : Work) (r : Runtime) :
  shutdown_inv w → w.(sw_shutdown) = Some r → prepared r.(shr_finalization) w.
Proof. intros Hi Hr. destruct (Hi r Hr) as (? & ? & _). by exists r. Qed.

Lemma prepared_inv_restore (now w : Work) : shutdown_inv w → shutdown_inv (work_restore now w).
Proof.
  intros Hi r Hr. destruct (Hi r Hr) as (Hb & Hc & Ha). split_and!;
    [by eapply (base_winds w)|by eapply (covered_winds w)|]. exact Ha.
Qed.

(** Committing touches neither the services nor the shutdown. *)
Lemma committed_step (w w' : Work) :
  shutdown_inv w' ∧ ready_when_idle w w' → shutdown_inv (work_commit w') ∧ ready_when_idle w (work_commit w').
Proof.
  intros [Hi Hr]. split; [|exact Hr]. intros r E. destruct (Hi r E) as (Hb & Hc & Ha).
  split_and!; [by eapply (base_winds w')|by eapply (covered_winds w')|]. exact Ha.
Qed.

(** *** A job of a service ends *)
Lemma terminal_step finish ended_at_ns (w w' : Work) out :
  shutdown_inv w → (finish_shutdown_terminal_job finish ended_at_ns : SupervisorM _) w = Some (w', Ok out) →
  shutdown_inv w' ∧ ready_when_idle w w'.
Proof.
  intros Hi E%exec_atomic_Ok. apply exec_bind_Ok in E as (w1 & r & [-> Hr]%exec_map_err_Ok%work_shutdown_Ok & E).
  pose proof (inv_prepared w r Hi Hr) as Hp.
  apply exec_bind_Ok in E as (w2 & ev & E2 & E).
  apply (prepared_mild _ w w2) in Hp; [|refine ((_ : gentle _) _ _ _ E2); by apply gentle_elsewhere].
  apply exec_bind_Ok in E as (w3 & tr & E3%exec_map_err_Ok & E). destruct Hp as (r2 & Hr2 & Hf2 & Hb2 & Hc2).
  destruct (job_exit_settles _ _ _ _ _ Hr2 Hb2 Hc2 E3) as (r3 & Hr3 & Hf3 & _ & Hb3 & Hc3).
  apply exec_bind_Ok in E as (w4 & [waves events] & E4%exec_map_err_Ok & E).
  apply (advance_prepared _ r.(shr_finalization)) in E4 as [Hinv Hready]; [|exists r3; split_and!; congruence || done].
  apply exec_bind_Ok in E as (w5 & r5 & [-> _]%exec_map_err_Ok%work_shutdown_Ok & E).
  apply exec_bind_Ok in E as (w6 & [] & [= <-] & [= <- _]). apply committed_step.
  split; [done|]. intros Hn Hy. apply Hready; [|done]. intros Hrr. apply Hn. unfold fin_of. rewrite Hr. simpl. by f_equal.
Qed.

(** *** A turn *)
Lemma kill_due_prepared settings now_ns (w w' : Work) (r : Runtime) out :
  shutdown_inv w → w.(sw_shutdown) = Some r →
  (kill_due_services settings now_ns : SupervisorM _) w = Some (w', Ok out) → prepared r.(shr_finalization) w'.
Proof.
  intros Hi Hr (w1 & due & [= <- <-] & E)%exec_bind_Ok. destruct (Hi r Hr) as (Hb & Hc & _).
  destruct (shutdown_global_timeout_due now_ns w) eqn:Hdue.
  - unfold shutdown_global_timeout_due in Hdue. rewrite Hr in Hdue. simpl in Hdue.
    apply andb_true_iff in Hdue as [[_ Hwait]%andb_true_iff _].
    assert (r.(shr_finalization) ≠ FinReady) as Hnr by (intros H0; by rewrite H0 in Hwait).
    apply exec_bind_Ok in E as (w2 & [] & [= <-] & E). rewrite Hr in E. simpl in E.
    set (r1 := {| r with shr_global_timeout_fired := true |}) in E. set (w1 := set_sw_shutdown (Some r1) w) in E.
    assert (shutdown_base w1 r1) as Hb1 by (by destruct Hb).
    apply exec_bind_Ok in E as (w2 & killed & E2 & E). apply submitted_same in E2 as [Hs2 Hr2].
    apply exec_bind_Ok in E as (w3 & kills & E3%exec_map_err_Ok & [= <- _]).
    assert (shutdown_base w2 r1) as Hb2 by (eapply base_winds; [|exact Hb1]; by rewrite Hs2).
    destruct (kill_all_ok _ _ _ _ _ _ Hr2 Hb2 Hnr E3) as (r3 & ? & ? & _ & ? & ?). by exists r3.
  - apply exec_bind_Ok in E as (w3 & kills & E3%exec_map_err_Ok & [= <- _]).
    destruct (due_stops_ok _ _ _ _ _ _ Hr Hb Hc E3) as (r3 & ? & ? & _ & ? & ?). by exists r3.
Qed.

Lemma turn_step settings now_ns (w w' : Work) out :
  shutdown_inv w → (process_due_shutdown_timeouts settings now_ns : SupervisorM _) w = Some (w', Ok out) →
  shutdown_inv w' ∧ ready_when_idle w w'.
Proof.
  intros Hi E%exec_atomic_Ok. apply exec_bind_Ok in E as (w1 & r & [-> Hr]%exec_map_err_Ok%work_shutdown_Ok & E).
  apply exec_bind_Ok in E as (w2 & [[global killed] kills] & E2 & E).
  pose proof (kill_due_prepared _ _ _ _ _ _ Hi Hr E2) as Hp.
  apply exec_bind_Ok in E as (w3 & failed & E3%exec_map_err_Ok & E).
  apply (prepared_mild _ w2 w3) in Hp.
  2:{ refine ((_ : gentle _) _ _ _ E3). unfold fail_stops. gently_using. }
  apply exec_bind_Ok in E as (w4 & post_kill & E4%exec_map_err_Ok & E). destruct Hp as (r3 & Hr3 & Hf3 & Hb3 & Hc3).
  destruct (due_post_kills_ok _ _ _ _ _ Hr3 Hb3 Hc3 E4) as (r4 & Hr4 & Hf4 & _ & Hb4 & Hc4).
  apply exec_bind_Ok in E as (w5 & submitted & E5 & E). cbv zeta in E.
  assert (same_services w4 w5) as [Hs5 Hr5].
  { eapply (relates_each same_services); [|exact E5]. intros d. apply submitted_same. }
  assert (prepared r.(shr_finalization) w5) as Hp.
  { apply (prepared_same _ w4); [done..|]. exists r4. split_and!; congruence || done. }
  destruct (_ && _) in E.
  { apply exec_bind_Ok in E as (w6 & [] & [= <-] & [= <- _]). split; [by apply prepared_inv_restore|].
    intros Hn Hy. done. }
  apply exec_bind_Ok in E as (w6 & [waves events] & E6%exec_map_err_Ok & E).
  apply (advance_prepared _ _ _ _ _ Hp) in E6 as [Hinv Hready].
  apply exec_bind_Ok in E as (w7 & r7 & [-> _]%exec_map_err_Ok%work_shutdown_Ok & E).
  apply exec_bind_Ok in E as (w8 & [] & [= <-] & [= <- _]). apply committed_step.
  split; [done|]. intros Hn Hy. apply Hready; [|done]. intros Hrr. apply Hn. unfold fin_of. rewrite Hr. simpl. by f_equal.
Qed.

(** *** The beginning *)

Lemma killed_starting now_ns secs service (w w' : Work) res :
  (kill_starting_service now_ns secs service : ShutdownM _) w = Some (w', Ok res) →
  ∀ d, d ∈ res.(sks_post_kill_deadlines) → done_state (state_in w' d.(spk_service)).
Proof.
  intros (w1 & ops & _ & E)%exec_bind_Ok. apply exec_bind_Ok in E as (w2 & [jobs setups] & _ & E).
  apply exec_bind_Ok in E as (w3 & running & _ & E). apply exec_bind_Ok in E as (w4 & cg & _ & E).
  apply exec_bind_Ok in E as (w5 & u & _ & E). apply exec_bind_Ok in E as (w6 & tr & E6 & [= <- <-]).
  apply moved_done in E6; [|done]. intros d. simpl. destruct running; [intros Hd; by apply not_elem_of_nil in Hd|].
  by intros ->%list_elem_of_singleton.
Qed.

Lemma kill_starting_done plan now_ns secs (w w' : Work) res :
  (kill_starting_services plan now_ns secs : ShutdownM _) w = Some (w', Ok res) →
  ∀ d, d ∈ res.(sks_post_kill_deadlines) → done_state (state_in w' d.(spk_service)).
Proof.
  intros (w1 & results & E & [= <- <-])%exec_bind_Ok d. simpl. rewrite list_elem_of_bind. intros (res & Hd & Hres).
  apply (each_establishes mild (λ _ _, True) (λ _ res w, ∀ d, d ∈ res.(sks_post_kill_deadlines) →
    done_state (state_in w d.(spk_service)))) in E.
  - apply list_elem_of_lookup in Hres as [i Hi]. destruct (Forall2_lookup_r _ _ _ _ _ E Hi) as (s & _ & H). auto.
  - intros s. unfold kill_starting_service, fail_start_operation, fail_unforked_startup_jobs,
      drop_pending_setups, drop_pending_setup, cleanup_pending_setup_process. gently_using.
  - done.
  - intros s res' a b H Hm d' Hd'. eapply mild_done; [exact Hm|auto].
  - intros s a b res' _ _ E'. by eapply killed_starting.
  - done.
Qed.

Definition fresh_runtime (plan : ShutdownPlan) : Runtime := {|
  shr_kind := KindPoweroff; shr_initiated_at_ns := 0; shr_global_deadline_ns := 0; shr_global_timeout_fired := false;
  shr_plan := plan; shr_current_wave := 0; shr_stop_deadlines := []; shr_post_kill_deadlines := [];
  shr_finalization := FinWaitingForServices |}.

Lemma fresh_base (w : Work) plan : shutdown_plan_ok (wk_services w) plan → shutdown_base w (fresh_runtime plan).
Proof.
  intros Hp.
  assert (∀ p, p ∈ participants plan → ∃ r, table_runtime (wk_services w) p.(sp_service) = Some r ∧
    stops_in_wave r.(rt_state) = true ∧ p.(sp_already_stopping) = bool_decide (r.(rt_state) = StStopping)) as Hpart.
  { intros p Hin. apply (participant_wave (fresh_runtime plan)) in Hin as (i & wave & Hi & Hin).
    destruct (proj1 (po_waves _ _ Hp p)) as (r & Hr & Hs & ->); [exists i, wave; by split|]. by exists r. }
  split; simpl; try done; try (intros d Hd; by apply not_elem_of_nil in Hd).
  - intros p Hin. destruct (Hpart p Hin) as (r & Hr & Hs & _). unfold settled, dealt_with, state_in, state_of_service.
    rewrite Hr. simpl. destruct (rt_state r); auto; done.
  - intros p Hin Hst. destruct (Hpart p Hin) as (r & Hr & _ & Hb). rewrite Hst in Hb. symmetry in Hb.
    apply bool_decide_eq_true in Hb. left. unfold state_in, state_of_service. rewrite Hr. simpl. by f_equal.
  - intros i wave p Hi. lia.
Qed.

Lemma gentle_request_stops plan now_ns : gentle (request_stops plan now_ns : SupervisorM _).
Proof.
  unfold request_stops. apply gentle_bind; [|intros ids; gently_using].
  apply relates_on. intros w. by apply mild_same.
Qed.

Lemma begin_step settings kind now_ns (w w' : Work) out :
  (begin_shutdown settings kind now_ns : SupervisorM _) w = Some (w', Ok out) → shutdown_inv w' ∧ ready_when_idle w w'.
Proof.
  intros (w0 & current & [= <- <-] & E)%exec_bind_Ok. destruct (sw_shutdown w); [done|].
  apply exec_bind_Ok in E as (w0 & plan & E0 & E).
  unfold planned_shutdown in E0. destruct (plan_graceful_shutdown_spec (wk_services w)) as (r & Hplan & Hok).
  rewrite Hplan in E0. destruct r as [plan'|e]; [|done]. injection E0 as <- <-.
  apply exec_atomic_Ok in E. pose proof (fresh_base w plan' Hok) as Hb0.
  apply exec_bind_Ok in E as (w1 & requested & E1%gentle_request_stops & E).
  apply exec_bind_Ok in E as (w2 & completed & E2%exec_map_err_Ok%gentle_clear_completed & E).
  apply exec_bind_Ok in E as (w3 & starting & E3%exec_map_err_Ok & E).
  pose proof (kill_starting_done _ _ _ _ _ _ E3) as Hk3. apply gentle_kill_starting in E3.
  assert (mild w w3) as H03 by (by etrans; [exact E1|etrans; [exact E2|exact E3]]).
  assert (shutdown_base w3 (fresh_runtime plan')) as Hb3 by (by eapply (base_winds w); [apply H03|]).
  apply exec_bind_Ok in E as (w4 & [[first stops] events] & E4%exec_map_err_Ok & E).
  pose proof (begun_wave (fresh_runtime plan') _ _ _ _ _ _ _ Hb3 E4) as Hd4.
  assert (sh_stop_waves plan' = [] → stops = []) as Hnone.
  { intros He. unfold begin_stop_wave in E4. rewrite He in E4. by injection E4. }
  apply gentle_begin_wave in E4. pose proof (base_winds _ _ _ (proj1 E4) Hb3) as Hb4.
  apply exec_bind_Ok in E as (w5 & sub & E5 & E). apply submitted_same in E5 as [Hs5 _].
  apply exec_bind_Ok in E as (w6 & live & [= <- <-] & E). cbv zeta in E.
  apply exec_bind_Ok in E as (w7 & [] & [= <-] & E). apply exec_bind_Ok in E as (w8 & [] & [= <-] & [= <- _]).
  apply committed_step. assert (winds_down (wk_services w4) (wk_services w5)) as Hw45 by (rewrite Hs5; reflexivity).
  pose proof (base_winds _ _ _ Hw45 Hb4) as [H1 H2 H3 H4 H5 H6]. split.
  - intros r [= <-]. split_and!; [|done|done]. split; simpl; try done.
    + intros d Hd. eapply settles_dealt_with; [apply Hw45|]. by apply Hd4.
    + intros d Hd. right. eapply settles_done; [apply Hw45|]. eapply mild_done; [exact E4|]. by apply Hk3.
    + destruct (is_empty (sh_stop_waves plan')) eqn:Ew; simpl; [|done]. apply is_empty_true in Ew.
      destruct (is_empty (sks_post_kill_deadlines starting)) eqn:Ek; simpl; [|done]. apply is_empty_true in Ek.
      intros _. split_and!; [|auto|done]. intros p. unfold participants. rewrite Ew. intros Hin. by apply not_elem_of_nil in Hin.
  - intros _. unfold fin_of. simpl. destruct (live_jobs_remain w5) eqn:El; [|by rewrite (live_same w5)].
    rewrite andb_false_r. done.
Qed.

(** *** The forced reboot *)
Lemma force_step now_ns (w w' : Work) out :
  (force_reboot_shutdown now_ns : SupervisorM _) w = Some (w', Ok out) → shutdown_inv w' ∧ ready_when_idle w w'.
Proof.
  intros E%exec_atomic_Ok. apply exec_bind_Ok in E as (w1 & names & [= <- _] & E).
  apply exec_bind_Ok in E as (w2 & killed & _ & E). cbv zeta in E. apply exec_bind_Ok in E as (w3 & events & _ & E).
  apply exec_bind_Ok in E as (w4 & [] & [= <-] & E). apply exec_bind_Ok in E as (w5 & [] & [= <-] & [= <- _]).
  apply committed_step. split; [|done]. intros r [= <-]. split_and!; [|intros _ p Hp; by apply not_elem_of_nil in Hp|done].
  split; simpl; try done; try (intros d Hd; by apply not_elem_of_nil in Hd).
Qed.

(** *** A submitted job ends *)
Lemma reap_step settings id status at_ns (w w' : Work) out :
  shutdown_inv w → (reap_submitted_job settings id status at_ns : SupervisorM _) w = Some (w', Ok out) →
  (shutdown_inv w' ∧ ready_when_idle w w').
Proof.
  intros Hi (w1 & terminal & E1%exec_atomic_Ok & E)%exec_bind_Ok.
  apply exec_bind_Ok in E1 as (w0 & t0 & E1 & E0). apply exec_bind_Ok in E0 as (w0' & [] & [= <-] & [= <- _]).
  assert (same_services w (work_commit w0)) as [Hs1 Hr1] by (apply submitted_same in E1; exact E1).
  clear E1. set (w1 := work_commit w0) in *. clearbody w1.
  apply exec_bind_Ok in E as (w2 & current & [= <- <-] & E). rewrite Hr1 in E.
  destruct (sw_shutdown w) as [r|] eqn:Hr.
  - apply exec_bind_Ok in E as (w2 & events & E2%exec_atomic_Ok & [= <- _]).
    apply exec_bind_Ok in E2 as (w3 & [ds ev] & E3%exec_map_err_Ok & E2).
    apply exec_bind_Ok in E2 as (w4 & [] & [= <-] & [= <- _]). apply committed_step.
    pose proof (prepared_same _ w w1 Hs1 (eq_trans Hr1 (eq_sym Hr)) (inv_prepared w r Hi Hr)) as Hp.
    apply (advance_prepared _ _ _ _ _ Hp) in E3 as [Hinv Hready]. split; [done|].
    intros Hn Hy. apply Hready; [|done]. intros Hf. apply Hn. unfold fin_of. rewrite Hr. simpl. by f_equal.
  - injection E as <- _. split; [intros r Hr0; congruence|]. unfold ready_when_idle, fin_of. by rewrite Hr1.
Qed.

(** *** Every step answers *)

Ltac return_step :=
  match goal with
  | |- returns (mret _) => apply returns_ret
  | |- returns (exec_fail _) => apply returns_fail
  | |- returns (exec_get _) => apply returns_get
  | |- returns (exec_lift _) => apply returns_lift
  | |- returns (exec_update _) => apply returns_update
  | |- returns commit_work => apply returns_update
  | |- returns (exec_on _ _ _ _) => apply returns_on
  | |- returns (exec_map_err _ _) => apply returns_map_err
  | |- returns (work_submitted _ _) => apply returns_on
  | |- returns (on_work_services _) => apply returns_within, returns_on
  | |- returns (on_work_operations _) => apply returns_within, returns_on
  | |- returns (on_work_jobs _) => apply returns_within, returns_on
  | |- returns (kill_group _) => apply returns_within, returns_on
  | |- returns (work_exec _ (on_start _)) => apply returns_within, returns_update
  | |- returns (work_exec _ _) => apply returns_within, returns_on
  | |- returns (work_control _ _) => apply returns_within, returns_on
  | |- returns (close_work_fds _) => apply returns_update
  | |- returns (exec_each _ _) => apply returns_each; intros ?
  | |- returns (_ ≫= _) => apply returns_bind; [|intros ?]
  | |- returns (match ?x with _ => _ end) => destruct x
  | |- returns (let _ := _ in _) => cbv zeta
  end.
Ltac returning := repeat return_step.

Lemma begin_wave_returns plan i now_ns : returns (begin_stop_wave plan i now_ns : ShutdownM _).
Proof.
  unfold begin_stop_wave, begin_participant, begin_stopping_participant, begin_running_participant,
    retained_stop_deadline, shutdown_stop_deadline_ns, start_stop, service_root_cgroup_id. returning.
Qed.

Lemma advance_waves_returns fuel now_ns (r : Runtime) :
  (0 < fuel)%nat → (List.length r.(shr_plan).(sh_stop_waves) ≤ fuel + r.(shr_current_wave))%nat →
  returns (advance_waves fuel r now_ns : ShutdownM _).
Proof.
  revert r. induction fuel as [|fuel IH]; intros r Hpos Hlen; [lia|]. cbn [advance_waves].
  apply returns_bind; [apply returns_get|]. intros complete. destruct (negb complete); [apply returns_ret|].
  destruct (_ <=? _)%nat eqn:Hle; [returning|]. apply Nat.leb_gt in Hle.
  apply returns_bind; [apply returns_get|]. intros done.
  assert (∀ r', r'.(shr_plan) = r.(shr_plan) → r'.(shr_current_wave) = S r.(shr_current_wave) →
    returns (advance_waves fuel r' now_ns : ShutdownM _)) as Hrec.
  { intros r' Hp Hw. apply IH; [lia|]. rewrite Hp, Hw. lia. }
  destruct done; [by apply Hrec|]. apply returns_bind; [apply begin_wave_returns|]. intros [[ds dls] ev].
  apply returns_bind; [by apply Hrec|]. intros [[r' later] lev]. apply returns_ret.
Qed.

Lemma work_shutdown_returns : returns (work_shutdown : ShutdownM _).
Proof. unfold work_shutdown. returning. Qed.

Lemma advance_returns now_ns : returns (advance_shutdown_progress now_ns : ShutdownM _).
Proof.
  unfold advance_shutdown_progress, settle_stopped, settle_observation.
  apply returns_bind; [returning|]. intros settled. apply returns_bind; [apply work_shutdown_returns|]. intros r.
  apply returns_bind; [apply returns_update|]. intros _.
  apply returns_bind; [apply advance_waves_returns; unfold wave_fuel; lia|]. intros [[r' ds] ev]. returning.
Qed.

Lemma job_exit_returns job_event : returns (apply_shutdown_job_exit job_event : ShutdownM _).
Proof.
  unfold apply_shutdown_job_exit, remove_shutdown_deadlines_for_service, remove_stop_timeouts, apply_shutdown_active_exit,
    transition_shutdown_service. repeat first [apply work_shutdown_returns | return_step].
Qed.

Lemma finish_returns finish ended_at_ns : returns (finish_shutdown_terminal_job finish ended_at_ns : SupervisorM _).
Proof.
  apply returns_atomic. repeat first [apply work_shutdown_returns | apply job_exit_returns | apply advance_returns | return_step].
Qed.

(** ** The theorems *)

Inductive ShutdownEvent : Type :=
| SvBegin (settings : ShutdownSettings) (kind : ShutdownKind) (now_ns : Z)
| SvJobCompleted (job_id : JobId) (ended_at_ns exit_code : Z)
| SvJobFailed (job_id : JobId) (ended_at_ns : Z) (exit : option JobExit) (failure_cause : string)
| SvTurn (settings : ShutdownSettings) (now_ns : Z)
| SvSubmittedReaped (settings : ShutdownSettings) (job_id : JobId) (status : ChildExitStatus) (ended_at_ns : Z)
| SvForceReboot (now_ns : Z).

Definition shutdown_answer {A} (m : SupervisorM A) : SupervisorM unit := _ ← m; mret tt.

Definition handle_shutdown_event (event : ShutdownEvent) : SupervisorM unit :=
  match event with
  | SvBegin settings kind now_ns => shutdown_answer (begin_shutdown settings kind now_ns)
  | SvJobCompleted job_id ended_at_ns exit_code => shutdown_answer (complete_shutdown_job job_id ended_at_ns exit_code)
  | SvJobFailed job_id ended_at_ns exit failure_cause =>
      shutdown_answer (fail_running_shutdown_job job_id ended_at_ns exit failure_cause)
  | SvTurn settings now_ns => shutdown_answer (process_due_shutdown_timeouts settings now_ns)
  | SvSubmittedReaped settings job_id status ended_at_ns =>
      shutdown_answer (reap_submitted_job settings job_id status ended_at_ns)
  | SvForceReboot now_ns => shutdown_answer (force_reboot_shutdown now_ns)
  end.

(** All but the reap of a submitted job are a single transaction. *)
Definition one_transaction (event : ShutdownEvent) : bool :=
  match event with SvSubmittedReaped _ _ _ _ => false | _ => true end.

Lemma answer_Ok {A} (m : SupervisorM A) w w' u : shutdown_answer m w = Some (w', Ok u) → ∃ a, m w = Some (w', Ok a).
Proof. intros (w1 & a & E & [= <- _])%exec_bind_Ok. by exists a. Qed.

Lemma event_step event (w w' : Work) u :
  shutdown_inv w → handle_shutdown_event event w = Some (w', Ok u) → shutdown_inv w' ∧ ready_when_idle w w'.
Proof.
  intros Hi. destruct event; cbn [handle_shutdown_event]; intros [out E]%answer_Ok.
  - by eapply begin_step.
  - by eapply terminal_step.
  - by eapply terminal_step.
  - by eapply turn_step.
  - by eapply reap_step.
  - by eapply force_step.
Qed.

Lemma work_restore_trans (a b c : Work) : work_restore a (work_restore b c) = work_restore a c.
Proof. done. Qed.

Lemma work_restore_same (w : Work) : work_restore w w = w.
Proof. by destruct w as [[[]]]. Qed.

Lemma event_undone event : one_transaction event = true → undone work_restore (handle_shutdown_event event).
Proof.
  intros Hone. destruct event; try done; cbn [handle_shutdown_event];
    (apply undone_bind_last; [|intros ?; apply never_fails_ret]).
  - unfold begin_shutdown. apply undone_bind_reads; [exact work_restore_same|apply reads_get|]. intros [r|].
    + apply undone_reads; [exact work_restore_same|apply reads_fail].
    + apply undone_bind_reads; [exact work_restore_same| |].
      * intros w w' r. unfold planned_shutdown. destruct (plan_graceful_shutdown (wk_services w)) as [x|]; [|done].
        by intros [= <- _].
      * intros plan. by apply undone_atomic.
  - by apply undone_atomic.
  - by apply undone_atomic.
  - intros w w' e. unfold process_due_shutdown_timeouts. by apply undone_atomic.
  - by apply undone_atomic.
Qed.

(** What happens to a supervisor in the course of a shutdown: an event that is
    answered, or a transaction that is refused. *)
Inductive shutdown_step (w w' : Work) : Prop :=
| ss_done event : handle_shutdown_event event w = Some (w', Ok tt) → shutdown_step w w'
| ss_refused event e : one_transaction event = true → handle_shutdown_event event w = Some (w', Err e) →
    shutdown_step w w'.

Lemma step_inv w w' : shutdown_step w w' → shutdown_inv w → shutdown_inv w' ∧ ready_when_idle w w'.
Proof.
  intros [event E|event e Hone E] Hi; [by eapply event_step|].
  apply event_undone in E; [|done]. rewrite E. split; [by apply prepared_inv_restore|].
  intros Hn Hy. by destruct Hn.
Qed.

Lemma reachable_inv w0 w : w0.(sw_shutdown) = None → rtc shutdown_step w0 w → shutdown_inv w.
Proof.
  intros H0 H. assert (shutdown_inv w0) as Hi by (intros r Hr; congruence). clear H0.
  induction H as [|w1 w2 w3 Hs _ IH]; [done|]. apply IH. by eapply step_inv.
Qed.

(** Every event of a shutdown is answered: its beginning, the end of a job,
    the reap of a submitted job, a turn with whatever timeouts are due, the
    forced reboot. The plan's search and the loop over the waves end in every
    state of the stores. *)
Theorem shutdown_always_answers event (w : Work) : ∃ w' r, handle_shutdown_event event w = Some (w', r).
Proof.
  enough (returns (handle_shutdown_event event)) as H by (destruct (H w) as [[w' r] E]; eauto).
  destruct event; cbn [handle_shutdown_event]; (apply returns_bind; [|intros; apply returns_ret]).
  - unfold begin_shutdown. apply returns_bind; [apply returns_get|]. intros [r|]; [apply returns_fail|].
    apply returns_bind.
    { intros w0. unfold planned_shutdown. destruct (plan_graceful_shutdown_spec (wk_services w0)) as (r & -> & _). by eexists. }
    intros plan. apply returns_atomic. unfold request_stops, clear_completed_services, kill_starting_services,
      kill_starting_service, fail_start_operation, fail_unforked_startup_jobs, active_jobs_in_state, drop_pending_setups,
      drop_pending_setup, cleanup_pending_setup_process, service_root_cgroup_id.
    repeat first [apply begin_wave_returns | return_step].
  - apply finish_returns.
  - apply finish_returns.
  - intros w0. apply returns_atomic. unfold kill_due_services, kill_all_remaining_services, kill_remaining_service,
      process_due_stop_deadlines, kill_stop_deadline, record_post_kill_deadline, update_shutdown, remove_stop_timeouts,
      fail_stops, fail_stop, process_due_post_kill_deadlines, process_post_kill_deadline, abandon_service,
      emptied_service, cleanup_service_cgroup_tree, active_jobs_in_state, service_root_cgroup_id.
    repeat first [apply advance_returns | apply work_shutdown_returns | return_step].
  - unfold reap_submitted_job, apply_submitted_reap, advance_shutdown_after_submitted_job.
    repeat first [apply returns_atomic | apply advance_returns | return_step].
  - apply returns_atomic. unfold kill_process_cgroup, fail_stop. returning.
Qed.

(** C5: The final action waits for everything. In whatever order a shutdown's
    services and submitted jobs end, time out or are killed, when it is ready
    for its final action every service of every wave has stopped (or is gone
    from the table) and no stop or post-kill check is outstanding; and at the
    moment it becomes ready no submitted job is live. *)
Theorem final_action_waits (w0 w w' : Work) :
  w0.(sw_shutdown) = None → rtc shutdown_step w0 w → shutdown_step w w' →
  ∀ r, w'.(sw_shutdown) = Some r → r.(shr_finalization) = FinReady →
    (∀ p, p ∈ participants r.(shr_plan) → participant_done_for_shutdown w' p.(sp_service) = true) ∧
    r.(shr_stop_deadlines) = [] ∧ r.(shr_post_kill_deadlines) = [] ∧
    (fin_of w ≠ Some FinReady → live_jobs_remain w' = false).
Proof.
  intros H0 Hreach Hs r Hr Hf. destruct (step_inv _ _ Hs (reachable_inv _ _ H0 Hreach)) as [Hi Hready].
  destruct (Hi r Hr) as (Hb & _ & _). destruct (so_ready _ _ Hb Hf) as (Hd & ? & ?). split_and!; try done.
  intros Hn. apply Hready; [done|]. unfold fin_of. rewrite Hr. simpl. by f_equal.
Qed.


(** A step of a shutdown that is refused leaves every store and the shutdown
    itself exactly as they were; only what the kernel was told, and descriptors
    that were closed, stay so. *)
Theorem shutdown_all_or_nothing event (w w' : Work) e :
  one_transaction event = true → handle_shutdown_event event w = Some (w', Err e) →
  w'.(sw_shutdown) = w.(sw_shutdown) ∧ wk_services w' = wk_services w ∧ wk_operations w' = wk_operations w ∧
  wk_jobs w' = wk_jobs w ∧ w'.(sw_submitted) = w.(sw_submitted) ∧
  w'.(sw_control).(cx_control) = w.(sw_control).(cx_control) ∧ w'.(sw_fd_store) = w.(sw_fd_store) ∧
  w'.(sw_pending_process_setups) = w.(sw_pending_process_setups).
Proof. intros Hone E%event_undone; [|done]. rewrite E. done. Qed.
End Inv.

(** ** Shutdowns of a small system *)

(** A kernel that does as it is told; its control groups stay populated or not. *)
#[local] Instance shutdown_kernel : ProcessController bool string := {|
  pidfd_matches_pid (_ _ : Z) (c : bool) := (c, Ok true);
  close_pidfd (_ : Z) (c : bool) := (c, Ok tt);
  signal_main (_ : ProcessTarget) (_ : ProcessSignal) (c : bool) := (c, Ok tt);
  kill_cgroup (_ : string) (c : bool) := (c, Ok tt);
  cgroup_populated (_ : string) (c : bool) := (c, Ok c);
  remove_cgroup (_ : string) (c : bool) := (c, Ok CgRemoved) |}.

(** "app" needs "db". *)
Definition app_and_db : list ServiceDefinition :=
  [ {| (simple_system_boot "app" "/bin/app") with sd_requires := ["db"] |}; simple_system_boot "db" "/bin/db" ].

Definition main_job_of (id : JobId) (definition : ServiceDefinition) : JobRecord :=
  new_service_main id {| ms_service := definition; ms_resolved_identity := "SYSTEM";
    ms_token_summary := requested_identity "SYSTEM"; ms_activation_generation := 1; ms_cgroup_generation := 0;
    ms_operation_id := 1; ms_created_at_ns := 20 |}.

Definition with_main (id pid : Z) (definition : ServiceDefinition) (jobs : JobStore) : JobStore :=
  (start_job_with_token_summary id {| ph_pid := pid; ph_pidfd := pid |} (requested_identity "SYSTEM") 25
     (create_job (main_job_of id definition) jobs).1).1.

Definition work_with {E} (services : gmap string ServiceEntry) (jobs : JobStore) (populated : bool)
    : ShutdownWork bool E := {|
  sw_control := {|
    cx_exec := {| xs_services := services; xs_operations := op_store_new; xs_graph := graph_store_new; xs_jobs := jobs;
                  xs_job_ids := 0; xs_start := start_store_new; xs_controller := populated |};
    cx_control := control_store_new |};
  sw_operation_ids := 0; sw_fd_store := ∅; sw_submitted := {| sub_entries := ∅ |}; sw_pending_submitted_launches := [];
  sw_pending_launches := []; sw_pending_start_hook_launches := []; sw_pending_post_hook_launches := [];
  sw_pending_control_launches := []; sw_pending_process_setups := ∅; sw_shutdown := None; sw_closed := [] |}.

Definition both_up (populated : bool) : ShutdownWork bool string :=
  work_with (moved_table app_and_db
      [("app", StStarting, TcExplicitStart); ("app", StActive, TcExplicitStart);
       ("db", StStarting, TcExplicitStart); ("db", StActive, TcExplicitStart)])
    (foldr (λ '(id, definition), with_main id id definition) job_store_new (zip [7; 8] app_and_db)) populated.

Definition run_events (events : list ShutdownEvent) (w : ShutdownWork bool string)
    : option (ShutdownWork bool string * bool) :=
  foldl (λ acc event,
    '(w, ok) ← acc; '(w, r) ← handle_shutdown_event event w; Some (w, ok && is_ok r)) (Some (w, true)) events.

Definition begin_at_100 : ShutdownEvent := SvBegin shutdown_settings_default KindPoweroff 100.

(** The two waves in order: "app" exits, then "db", and the shutdown is ready. *)
Example two_waves :
  let states w := (state_in w "app", state_in w "db") in
  let after events := (λ '(w, ok), (states w, fin_of w, ok)) <$> run_events events (both_up false) in
  after [begin_at_100] = Some ((Some StStopping, Some StActive), Some FinWaitingForServices, true) ∧
  after [begin_at_100; SvJobCompleted 7 200 0] =
    Some ((Some StInactive, Some StStopping), Some FinWaitingForServices, true) ∧
  after [begin_at_100; SvJobCompleted 7 200 0; SvJobCompleted 8 300 0] =
    Some ((Some StInactive, Some StInactive), Some FinReady, true).
Proof. vm_compute. auto. Qed.

Definition stepped (event : ShutdownEvent) (w : ShutdownWork bool string) : ShutdownWork bool string :=
  default w (fst <$> handle_shutdown_event event w).

Definition accepted (event : ShutdownEvent) (w : ShutdownWork bool string) : bool :=
  match handle_shutdown_event event w with Some (_, Ok _) => true | _ => false end.

Lemma accepted_step event w : accepted event w = true → shutdown_step w (stepped event w).
Proof.
  unfold accepted, stepped. destruct (handle_shutdown_event event w) as [[w' [[]|e]]|] eqn:E; [|done..].
  intros _. by eapply ss_done.
Qed.

Definition begun : ShutdownWork bool string := stepped begin_at_100 (both_up false).
Definition app_ended : ShutdownWork bool string := stepped (SvJobCompleted 7 200 0) begun.
Definition both_ended : ShutdownWork bool string := stepped (SvJobCompleted 8 300 0) app_ended.

Lemma begun_reachable : rtc shutdown_step (both_up false) begun.
Proof. apply rtc_once, accepted_step. by vm_compute. Qed.

Lemma app_ended_reachable : rtc shutdown_step (both_up false) app_ended.
Proof. eapply rtc_r; [apply begun_reachable|]. apply accepted_step. by vm_compute. Qed.

Lemma fin_of_Some (w : ShutdownWork bool string) f :
  fin_of w = Some f → ∃ r, w.(sw_shutdown) = Some r ∧ r.(shr_finalization) = f.
Proof. unfold fin_of. destruct (sw_shutdown w) as [r|]; [|done]. intros [= <-]. by exists r. Qed.

Lemma refused_step event w :
  accepted event w = false → match handle_shutdown_event event w with None => true | _ => false end = false →
  ∃ e, handle_shutdown_event event w = Some (stepped event w, Err e).
Proof.
  unfold accepted, stepped. destruct (handle_shutdown_event event w) as [[w' [u|e]]|]; [done| |done].
  intros _ _. by exists e.
Qed.

Lemma final_action_waits_witness :
  fin_of both_ended = Some FinReady ∧ (shr_stop_deadlines <$> both_ended.(sw_shutdown)) = Some [] ∧
  live_jobs_remain both_ended = false.
Proof.
  assert (fin_of both_ended = Some FinReady) as Hf by (vm_compute; reflexivity).
  assert (shutdown_step app_ended both_ended) as Hs by (apply accepted_step; vm_compute; reflexivity).
  assert (fin_of app_ended ≠ Some FinReady) as Hn by (vm_compute; discriminate).
  split; [exact Hf|]. destruct (fin_of_Some _ _ Hf) as (r & Hr & Hfin).
  destruct (final_action_waits (both_up false) app_ended both_ended eq_refl app_ended_reachable Hs r Hr Hfin)
    as (_ & Hd & _ & Hl).
  rewrite Hr. split; [exact (f_equal Some Hd)|exact (Hl Hn)].
Defined.


(** A second shutdown is refused, and the first goes on as it was. *)
Lemma shutdown_all_or_nothing_witness :
  accepted begin_at_100 begun = false ∧ (stepped begin_at_100 begun).(sw_shutdown) = begun.(sw_shutdown).
Proof.
  assert (accepted begin_at_100 begun = false) as Ha by (vm_compute; reflexivity). split; [exact Ha|].
  assert (match handle_shutdown_event begin_at_100 begun with None => true | _ => false end = false) as Hn
    by (vm_compute; reflexivity).
  destruct (refused_step _ _ Ha Hn) as [e Eh].
  apply (shutdown_all_or_nothing begin_at_100 begun _ e eq_refl Eh).
Defined.

(** The global timeout moves every service that is left to Stopping, those of
    the later waves too. When "app" is reaped before "db", wave 1 begins and asks
    "db" to move to Stopping once more: the transition is refused, and with it
    the reap of "app". *)
Example global_timeout_breaks_next_wave :
  let timeout := SvTurn shutdown_settings_default (100 + 90 * 1000000000) in
  let states w := (state_in w "app", state_in w "db") in
  let after events := (λ '(w, ok), (states w, fin_of w, ok)) <$> run_events events (both_up true) in
  after [begin_at_100; timeout] = Some ((Some StStopping, Some StStopping), Some FinWaitingForServices, true) ∧
  after [begin_at_100; timeout; SvJobCompleted 7 90000000200 0] =
    Some ((Some StStopping, Some StStopping), Some FinWaitingForServices, false).
Proof. vm_compute. auto. Qed.

(** A submitted job that runs, and no services. *)
Definition job_up : ShutdownWork bool string :=
  let w := one_job false in
  let work := w.(wo_work) in
  let jobs := (start_job_with_token_summary (the_job w) {| ph_pid := 50; ph_pidfd := 50 |} (requested_identity "SYSTEM")
    1500000 work.(w_jobs)).1 in
  set_world {| w with wo_work := {| work with w_pending := []; w_jobs := jobs |} |}
    (work_with ∅ job_store_new false).

(** The job is killed at 10 s and its group is found empty at 15 s, before its
    exit is reaped. The check arms itself anew, but the turn that did nothing
    else drops its copy of the stores: the check stays due, however often it is
    processed. *)
Example rearmed_post_kill_check_is_dropped :
  let due events := (λ '(w, ok), (map (λ d, (d.(sdl_kind), d.(sdl_due_at_ns)))
    (due_submitted_job_deadlines u64_max (world_of w).(wo_work)), ok)) <$> run_events events job_up in
  let begin := SvBegin shutdown_settings_default KindPoweroff 2000000 in
  let kill := SvTurn shutdown_settings_default 10002000000 in
  let check := SvTurn shutdown_settings_default 15002000000 in
  due [begin] = Some ([(DkStopKill, 10002000000)], true) ∧
  due [begin; kill] = Some ([(DkPostKill, 15002000000)], true) ∧
  due [begin; kill; check] = Some ([(DkPostKill, 15002000000)], true) ∧
  due [begin; kill; check; check] = Some ([(DkPostKill, 15002000000)], true).
Proof. vm_compute. auto. Qed.
