(* ===== verification/SupWork.v ===== *)
(** * The supervisor's own stores

    Models what the supervisor keeps beside the stores of services, operations,
    jobs and starts: the watchdog records ([src/src/supervisor/watchdog/model.rs]),
    the health checks ([supervisor/health/model/]), the control groups to be
    cleaned up after a kill ([supervisor/cgroup_cleanup/]), conflicts and
    failure chains ([supervisor/relationships/model.rs]), and the queue of
    operations for the control boundary ([supervisor/control_boundary.rs]). *)

From S2P Require Import Prelude RustStr ServiceRuntime ServiceDef Ids Cgroup ServiceTable OperationRecord.
From S2P Require Import OperationStore ExecGraph JobRecord StartState Restart Calendar Shutdown ExecCommand.
From S2P Require Import StartPlan Lifecycle JobStore SubmittedStore SubmittedRun Effects StartState StartBegin StartRun MainProcess.
From S2P Require Import Release ControlRun Notify ShutdownRun.
From Stdlib Require Import String.
Open Scope string_scope.
Open Scope list_scope.
Open Scope Z_scope.

(** ** Due and next deadlines of a store in key order *)

Section Due.
Context {D : Type} (due_at_ns : D → Z) (service : D → string).

Definition due_among (now_ns : Z) (deadlines : list D) : list D :=
  filter (λ deadline, due_at_ns deadline ≤ now_ns) deadlines.

Definition next_among (deadlines : list D) : option D := min_by (due_le due_at_ns service) deadlines.
End Due.

(** ** The watchdog ([watchdog/model.rs]) *)

Record WatchdogRecord : Type := {
  wr_service : string;
  wr_activation_generation : Z;
  wr_cgroup_generation : Z;
  wr_interval_usec : Z;
  wr_due_at_ns : Z;
}.

Definition WatchdogStore : Type := gmap string WatchdogRecord.

Record WatchdogDeadline : Type := {
  wdl_service : string;
  wdl_generation : Z;
  wdl_cgroup_generation : Z;
  wdl_due_at_ns : Z;
}.

Inductive WatchdogUpdate : Type :=
| WdArmed (due_at_ns : Z)
| WdDisabled
| WdIgnored.

Definition watchdog_due_at (observed_at_ns interval_usec : Z) : Z :=
  u64_saturating_add observed_at_ns (u64_saturating_mul interval_usec 1000).

Definition cancel_watchdog (service : string) (self : WatchdogStore) : WatchdogStore := delete service self.

Definition arm_watchdog (service : string) (activation_generation cgroup_generation interval_usec observed_at_ns : Z)
    (self : WatchdogStore) : WatchdogStore :=
  if interval_usec =? 0 then cancel_watchdog service self
  else <[service := {| wr_service := service; wr_activation_generation := activation_generation;
                       wr_cgroup_generation := cgroup_generation; wr_interval_usec := interval_usec;
                       wr_due_at_ns := watchdog_due_at observed_at_ns interval_usec |}]> self.

Definition reset_watchdog (service : string) (generation observed_at_ns : Z) (self : WatchdogStore)
    : WatchdogStore * WatchdogUpdate :=
  match self !! service with
  | None => (self, WdIgnored)
  | Some record =>
      if bool_decide (record.(wr_activation_generation) ≠ generation) then (self, WdIgnored)
      else
        let due_at_ns := watchdog_due_at observed_at_ns record.(wr_interval_usec) in
        (<[service := {| record with wr_due_at_ns := due_at_ns |}]> self, WdArmed due_at_ns)
  end.

Definition update_watchdog_interval (service : string)
    (activation_generation cgroup_generation interval_usec observed_at_ns : Z) (self : WatchdogStore)
    : WatchdogStore * WatchdogUpdate :=
  if interval_usec =? 0 then (cancel_watchdog service self, WdDisabled)
  else (arm_watchdog service activation_generation cgroup_generation interval_usec observed_at_ns self,
        WdArmed (watchdog_due_at observed_at_ns interval_usec)).

Definition watchdog_deadlines (self : WatchdogStore) : list WatchdogDeadline :=
  map (λ record, {| wdl_service := record.(wr_service); wdl_generation := record.(wr_activation_generation);
                    wdl_cgroup_generation := record.(wr_cgroup_generation);
                    wdl_due_at_ns := record.(wr_due_at_ns) |}) (btree_values self).

Definition next_watchdog_deadline (self : WatchdogStore) : option WatchdogDeadline :=
  next_among wdl_due_at_ns wdl_service (watchdog_deadlines self).
Definition due_watchdog_deadlines (now_ns : Z) (self : WatchdogStore) : list WatchdogDeadline :=
  due_among wdl_due_at_ns now_ns (watchdog_deadlines self).

(** ** Health checks ([health/model/]) *)

Record RunningHealthCheckInvocation : Type := {
  rhi_job_id : JobId;
  rhi_health_cgroup_id : string;
  rhi_timeout_due_at_ns : Z;
}.

Inductive HealthCheckInvocation : Type :=
| InvPending (job_id : JobId) (health_cgroup_id : string)
| InvRunning (running : RunningHealthCheckInvocation).

Definition invocation_job_id (self : HealthCheckInvocation) : JobId :=
  match self with InvPending job_id _ => job_id | InvRunning running => running.(rhi_job_id) end.

Record HealthCheckRecord : Type := {
  hcr_service : string;
  hcr_activation_generation : Z;
  hcr_cgroup_generation : Z;
  hcr_next_interval_due_at_ns : Z;
  hcr_invocation : option HealthCheckInvocation;
}.

Definition HealthCheckStore : Type := gmap string HealthCheckRecord.

Record HealthCheckIntervalDeadline : Type := {
  hid_service : string;
  hid_activation_generation : Z;
  hid_cgroup_generation : Z;
  hid_due_at_ns : Z;
}.

Record HealthCheckTimeoutDeadline : Type := {
  htd_service : string;
  htd_activation_generation : Z;
  htd_cgroup_generation : Z;
  htd_job_id : JobId;
  htd_health_cgroup_id : string;
  htd_due_at_ns : Z;
}.

Definition schedule_interval (service : string) (activation_generation cgroup_generation due_at_ns : Z)
    (self : HealthCheckStore) : HealthCheckStore :=
  let invocation :=
    record ← self !! service;
    if bool_decide (record.(hcr_activation_generation) = activation_generation) &&
       bool_decide (record.(hcr_cgroup_generation) = cgroup_generation)
    then record.(hcr_invocation) else None in
  <[service := {| hcr_service := service; hcr_activation_generation := activation_generation;
                  hcr_cgroup_generation := cgroup_generation; hcr_next_interval_due_at_ns := due_at_ns;
                  hcr_invocation := invocation |}]> self.

(** The callers drop the invocation that is returned. *)
Definition cancel_health (service : string) (self : HealthCheckStore) : HealthCheckStore := delete service self.

Definition has_invocation (self : HealthCheckStore) (service : string) (activation_generation : Z) : bool :=
  is_some_and (self !! service) (λ record,
    bool_decide (record.(hcr_activation_generation) = activation_generation) &&
    bool_decide (is_Some record.(hcr_invocation))).

Definition record_pending_invocation (service : string) (activation_generation : Z) (job_id : JobId)
    (health_cgroup_id : string) (self : HealthCheckStore) : HealthCheckStore * bool :=
  match self !! service with
  | None => (self, false)
  | Some record =>
      if bool_decide (record.(hcr_activation_generation) ≠ activation_generation) ||
         bool_decide (is_Some record.(hcr_invocation))
      then (self, false)
      else (<[service := {| record with hcr_invocation := Some (InvPending job_id health_cgroup_id) |}]> self, true)
  end.

Definition invoked_by (job_id : JobId) (record : HealthCheckRecord) : bool :=
  is_some_and record.(hcr_invocation) (λ invocation, bool_decide (invocation_job_id invocation = job_id)).

(** The first record, in the order of the services, whose check runs as [job_id]. *)
Definition record_by_job (job_id : JobId) (self : HealthCheckStore) : option (string * HealthCheckRecord) :=
  find_first (λ '(_, record), invoked_by job_id record) (btree_iter self).

(** A record that already runs loses its invocation: it is taken before it is
    looked at. *)
Definition mark_invocation_running (job_id : JobId) (timeout_due_at_ns : Z) (self : HealthCheckStore)
    : HealthCheckStore * option RunningHealthCheckInvocation :=
  match record_by_job job_id self with
  | None => (self, None)
  | Some (service, record) =>
      match record.(hcr_invocation) with
      | Some (InvPending job_id health_cgroup_id) =>
          let running := {| rhi_job_id := job_id; rhi_health_cgroup_id := health_cgroup_id;
                            rhi_timeout_due_at_ns := timeout_due_at_ns |} in
          (<[service := {| record with hcr_invocation := Some (InvRunning running) |}]> self, Some running)
      | _ => (<[service := {| record with hcr_invocation := None |}]> self, None)
      end
  end.

Definition remove_invocation (job_id : JobId) (self : HealthCheckStore)
    : HealthCheckStore * option HealthCheckInvocation :=
  match record_by_job job_id self with
  | None => (self, None)
  | Some (service, record) =>
      (<[service := {| record with hcr_invocation := None |}]> self, record.(hcr_invocation))
  end.

Definition interval_deadlines (self : HealthCheckStore) : list HealthCheckIntervalDeadline :=
  map (λ record, {| hid_service := record.(hcr_service);
                    hid_activation_generation := record.(hcr_activation_generation);
                    hid_cgroup_generation := record.(hcr_cgroup_generation);
                    hid_due_at_ns := record.(hcr_next_interval_due_at_ns) |}) (btree_values self).

Definition timeout_deadline (record : HealthCheckRecord) : option HealthCheckTimeoutDeadline :=
  match record.(hcr_invocation) with
  | Some (InvRunning running) => Some {|
      htd_service := record.(hcr_service); htd_activation_generation := record.(hcr_activation_generation);
      htd_cgroup_generation := record.(hcr_cgroup_generation); htd_job_id := running.(rhi_job_id);
      htd_health_cgroup_id := running.(rhi_health_cgroup_id); htd_due_at_ns := running.(rhi_timeout_due_at_ns) |}
  | _ => None
  end.

Definition timeout_deadlines (self : HealthCheckStore) : list HealthCheckTimeoutDeadline :=
  omap timeout_deadline (btree_values self).

Definition next_interval_deadline (self : HealthCheckStore) : option HealthCheckIntervalDeadline :=
  next_among hid_due_at_ns hid_service (interval_deadlines self).
Definition due_interval_deadlines (now_ns : Z) (self : HealthCheckStore) : list HealthCheckIntervalDeadline :=
  due_among hid_due_at_ns now_ns (interval_deadlines self).
Definition next_timeout_deadline (self : HealthCheckStore) : option HealthCheckTimeoutDeadline :=
  next_among htd_due_at_ns htd_service (timeout_deadlines self).
Definition due_timeout_deadlines (now_ns : Z) (self : HealthCheckStore) : list HealthCheckTimeoutDeadline :=
  due_among htd_due_at_ns now_ns (timeout_deadlines self).

(** ** Control groups to be cleaned up ([cgroup_cleanup/model.rs], [store.rs]) *)

Inductive CgroupCleanupKind : Type :=
| CkHooks
| CkHealth
| CkHelper
| CkServiceTree
| CkStopMain (operation_id : OperationId) (root_cgroup_id : string).

Record CgroupCleanupDeadline : Type := {
  ccd_service : string;
  ccd_cgroup_id : string;
  ccd_kind : CgroupCleanupKind;
  ccd_due_at_ns : Z;
}.

Definition CgroupCleanupStore : Type := gmap string CgroupCleanupDeadline.

(** A stop that is not the one on record has a fresh period of grace. *)
Definition another_stop (existing deadline : CgroupCleanupDeadline) : bool :=
  match existing.(ccd_kind), deadline.(ccd_kind) with
  | CkStopMain old _, CkStopMain new _ => bool_decide (old ≠ new)
  | _, _ => false
  end.

Definition record_cleanup (deadline : CgroupCleanupDeadline) (self : CgroupCleanupStore) : CgroupCleanupStore :=
  match self !! deadline.(ccd_cgroup_id) with
  | Some existing =>
      if another_stop existing deadline then <[deadline.(ccd_cgroup_id) := deadline]> self
      else if existing.(ccd_due_at_ns) <=? deadline.(ccd_due_at_ns) then self
      else <[deadline.(ccd_cgroup_id) := deadline]> self
  | None => <[deadline.(ccd_cgroup_id) := deadline]> self
  end.

Definition cgroup_cleanup_due_at_ns (now_ns post_kill_timeout_secs : Z) : Z :=
  seconds_after now_ns post_kill_timeout_secs.

Definition record_cgroup_cleanup (service cgroup_id : string) (kind : CgroupCleanupKind)
    (now_ns post_kill_timeout_secs : Z) (self : CgroupCleanupStore) : CgroupCleanupStore :=
  record_cleanup {| ccd_service := service; ccd_cgroup_id := cgroup_id; ccd_kind := kind;
                    ccd_due_at_ns := cgroup_cleanup_due_at_ns now_ns post_kill_timeout_secs |} self.

Definition next_cleanup_deadline (self : CgroupCleanupStore) : option CgroupCleanupDeadline :=
  next_among ccd_due_at_ns ccd_service (btree_values self).
Definition due_cleanup_deadlines (now_ns : Z) (self : CgroupCleanupStore) : list CgroupCleanupDeadline :=
  due_among ccd_due_at_ns now_ns (btree_values self).

Definition remove_cleanup (cgroup_id : string) (self : CgroupCleanupStore)
    : CgroupCleanupStore * option CgroupCleanupDeadline := (delete cgroup_id self, self !! cgroup_id).

Definition stops_main_for (operation_id : OperationId) (deadline : CgroupCleanupDeadline) : bool :=
  match deadline.(ccd_kind) with CkStopMain owner _ => bool_decide (owner = operation_id) | _ => false end.

Definition remove_stop_main (operation_id : OperationId) (self : CgroupCleanupStore) : CgroupCleanupStore :=
  filter (λ p, stops_main_for operation_id p.2 = false) self.

(** ** Conflicts and failure chains ([relationships/model.rs]) *)

Record PendingConflictContext : Type := {
  pcc_context_id : GraphContextId;
  pcc_start_services : gset string;
  pcc_blockers : gset string;
}.

Record OnFailureChain : Type := { ofc_services : list string }.

Inductive SupervisorOnFailureLoopSuppressionReason : Type :=
| SupCycle
| SupMaxDepth (max_depth : nat).

Record SupervisorOnFailureLoopSuppressedDispatch : Type := {
  ofl_failed_service : string;
  ofl_attempted_handler : string;
  ofl_chain : list string;
  ofl_reason : SupervisorOnFailureLoopSuppressionReason;
}.

Record RelationshipStore : Type := {
  rs_conflict_contexts : gmap GraphContextId PendingConflictContext;
  rs_on_failure_chains : gmap string OnFailureChain;
  rs_audit_events : list SupervisorOnFailureLoopSuppressedDispatch;
}.

Definition relationship_store_new : RelationshipStore :=
  {| rs_conflict_contexts := ∅; rs_on_failure_chains := ∅; rs_audit_events := [] |}.

Definition record_conflict_context (context_id : GraphContextId) (start_services blockers : gset string)
    (self : RelationshipStore) : RelationshipStore :=
  {| self with rs_conflict_contexts := <[context_id := {|
       pcc_context_id := context_id; pcc_start_services := start_services; pcc_blockers := blockers |}]>
       self.(rs_conflict_contexts) |}.

Definition pending_conflict_contexts (self : RelationshipStore) : list PendingConflictContext :=
  btree_values self.(rs_conflict_contexts).

Definition remove_conflict_context (context_id : GraphContextId) (self : RelationshipStore)
    : RelationshipStore * option PendingConflictContext :=
  ({| self with rs_conflict_contexts := delete context_id self.(rs_conflict_contexts) |},
   self.(rs_conflict_contexts) !! context_id).

Definition record_on_failure_chain (service : string) (chain : OnFailureChain) (self : RelationshipStore)
    : RelationshipStore :=
  {| self with rs_on_failure_chains := <[service := chain]> self.(rs_on_failure_chains) |}.

Definition take_on_failure_chain (service : string) (self : RelationshipStore)
    : RelationshipStore * option OnFailureChain :=
  ({| self with rs_on_failure_chains := delete service self.(rs_on_failure_chains) |},
   self.(rs_on_failure_chains) !! service).

Definition clear_on_failure_chain (service : string) (self : RelationshipStore) : RelationshipStore :=
  {| self with rs_on_failure_chains := delete service self.(rs_on_failure_chains) |}.

Definition on_failure_chain_services (self : RelationshipStore) : list string :=
  btree_keys self.(rs_on_failure_chains).

Definition record_audit_event (event : SupervisorOnFailureLoopSuppressedDispatch) (self : RelationshipStore)
    : RelationshipStore := {| self with rs_audit_events := self.(rs_audit_events) ++ [event] |}.

Definition drain_audit_events (self : RelationshipStore)
    : RelationshipStore * list SupervisorOnFailureLoopSuppressedDispatch :=
  ({| self with rs_audit_events := [] |}, self.(rs_audit_events)).

Definition MAX_DEPTH : nat := 16.

Definition chain_root : OnFailureChain := {| ofc_services := [] |}.

Definition with_handler (self : OnFailureChain) (service : string)
    : Result OnFailureChain SupervisorOnFailureLoopSuppressionReason :=
  if (MAX_DEPTH <=? List.length self.(ofc_services))%nat then Err (SupMaxDepth MAX_DEPTH)
  else if bool_decide (service ∈ self.(ofc_services)) then Err SupCycle
  else Ok {| ofc_services := self.(ofc_services) ++ [service] |}.

Definition path_with_attempted_handler (self : OnFailureChain) (service : string) : list string :=
  self.(ofc_services) ++ [service].

(** ** The control boundary's queue ([control_boundary.rs]) *)

Inductive PendingControlRequirement : Type :=
| StopProcess
| ReloadProcess
| RestartProcess.

Record PendingControlOperation : Type := {
  pco_operation_id : OperationId;
  pco_service : string;
  pco_operation_type : OperationType;
  pco_requirement : PendingControlRequirement;
}.

Definition requirement_for (operation_type : OperationType) : option PendingControlRequirement :=
  match operation_type with
  | OpStop => Some StopProcess
  | OpReload => Some ReloadProcess
  | OpRestart => Some RestartProcess
  | OpStart | OpReset => None
  end.

Definition operation_lives (operations : OperationStore) (operation_id : OperationId) : bool :=
  is_some_and (operations.(op_records) !! operation_id) (λ operation, negb (op_is_terminal operation.(or_state))).

Definition retain_live_boundaries (operations : OperationStore) (queue : list PendingControlOperation)
    : list PendingControlOperation :=
  retain (λ pending, operation_lives operations pending.(pco_operation_id)) queue.

(** The queue it leaves, and what was queued. *)
Definition queue_control_boundary_for (operations : OperationStore) (services : ServiceTable)
    (operation_id : OperationId) (queue : list PendingControlOperation)
    : list PendingControlOperation * option PendingControlOperation :=
  let queue := retain_live_boundaries operations queue in
  match operations.(op_records) !! operation_id with
  | None => (queue, None)
  | Some record =>
      if bool_decide (record.(or_state) ≠ OsPending) then (queue, None)
      else if is_some_and (table_runtime services record.(or_service))
                (λ runtime, bool_decide (runtime.(rt_state) = StBackoff)) then (queue, None)
      else if is_queued_behind_live operations record.(or_id) then (queue, None)
      else
        match requirement_for record.(or_operation_type) with
        | None => (queue, None)
        | Some requirement =>
            let pending := {| pco_operation_id := record.(or_id); pco_service := record.(or_service);
                              pco_operation_type := record.(or_operation_type);
                              pco_requirement := requirement |} in
            if existsb (λ pending, bool_decide (pending.(pco_operation_id) = record.(or_id))) queue
            then (queue, Some pending)
            else (queue ++ [pending], Some pending)
        end
  end.

Definition queue_control_boundary (operations : OperationStore) (services : ServiceTable)
    (outcome : OperationRequestOutcome) (queue : list PendingControlOperation)
    : list PendingControlOperation * option PendingControlOperation :=
  if bool_decide (outcome.(ro_returned_operation_id) ≠ outcome.(ro_stored_operation_id))
  then (retain_live_boundaries operations queue, None)
  else queue_control_boundary_for operations services outcome.(ro_returned_operation_id) queue.

(** * The supervisor's work

    The transaction every step of the supervisor runs in ([SupervisorWork],
    [src/src/supervisor/work.rs]) with its own stores beside those a
    shutdown changes ([ShutdownWork]), the supervisor's errors
    ([supervisor/state/error.rs]), and what follows every change of a service's
    state: scheduling its health checks and its watchdog
    ([supervisor/health/interval/scheduling.rs], [supervisor/watchdog/scheduling.rs]). *)

(** ** How a hold was settled ([dispatch/relationship.rs]) *)

Inductive SupervisorHeldRestartAbandonReason : Type :=
| ArStopped
| ArWithdrawn
| ArFailed.

Inductive SupervisorHeldRestartOutcome : Type :=
| HrReleased
| HrAbandoned (reason : SupervisorHeldRestartAbandonReason).

Record SupervisorHeldRestartSettlementDispatch : Type := {
  hrs_target : string;
  hrs_outcome : SupervisorHeldRestartOutcome;
  hrs_operation_events : list OperationEvent;
  hrs_service_transitions : list ServiceTableTransition;
  hrs_graph_events : list GraphExecutionEvent;
  hrs_start_dispatches : list StartExecutionDispatch;
}.

(** ** A reboot left to the end of the turn ([critical_budget.rs]) *)

Inductive CriticalRebootTrigger : Type :=
| TriggerServiceMainTerminal
| TriggerHealthCheckFailure
| TriggerWatchdogTimeout
| TriggerRestartBudgetExhausted.

Record DeferredCriticalReboot : Type := {
  dcr_service : string;
  dcr_trigger : CriticalRebootTrigger;
  dcr_observed_at_ns : option Z;
}.

(** ** The state ([work.rs])

    The settlements of held restarts are appended as they happen rather than on
    commit. The deferred reboot is the supervisor's own, outside its work. *)

Section Work.
Context {P BoundaryError : Type}.

Record SupervisorWork : Type := {
  su_shutdown_work : ShutdownWork P BoundaryError;
  su_cgroup_cleanup : CgroupCleanupStore;
  su_health : HealthCheckStore;
  su_watchdog : WatchdogStore;
  su_relationships : RelationshipStore;
  su_pending_health_launches : list JobId;
  su_pending_control_operations : list PendingControlOperation;
  su_held_restart_settlements : list SupervisorHeldRestartSettlementDispatch;
  su_deferred_critical_reboot : option DeferredCriticalReboot;
}.

Definition su_control (w : SupervisorWork) : ControlState P := w.(su_shutdown_work).(sw_control).
Definition su_exec (w : SupervisorWork) : ExecState P := wk_exec w.(su_shutdown_work).
Definition su_services (w : SupervisorWork) : ServiceTable := (su_exec w).(xs_services).
Definition su_operations (w : SupervisorWork) : OperationStore := (su_exec w).(xs_operations).
Definition su_jobs (w : SupervisorWork) : JobStore := (su_exec w).(xs_jobs).
Definition su_graph (w : SupervisorWork) : GraphExecutionStore := (su_exec w).(xs_graph).
Definition su_shutdown (w : SupervisorWork) : option (ShutdownRuntime BoundaryError) :=
  w.(su_shutdown_work).(sw_shutdown).

Definition set_su_shutdown_work (v : ShutdownWork P BoundaryError) (w : SupervisorWork) : SupervisorWork :=
  {| w with su_shutdown_work := v |}.
Definition set_su_control (v : ControlState P) (w : SupervisorWork) : SupervisorWork :=
  set_su_shutdown_work (set_sw_control v w.(su_shutdown_work)) w.
Definition set_su_exec (v : ExecState P) (w : SupervisorWork) : SupervisorWork :=
  set_su_shutdown_work (set_wk_exec v w.(su_shutdown_work)) w.

(** The part a release changes. *)
Definition release_view (w : SupervisorWork) : ReleaseState P :=
  let work := w.(su_shutdown_work) in
  {| rl_exec := wk_exec work; rl_operation_ids := work.(sw_operation_ids);
     rl_pending_launches := work.(sw_pending_launches);
     rl_pending_start_hook_launches := work.(sw_pending_start_hook_launches) |}.

Definition set_release_view (v : ReleaseState P) (w : SupervisorWork) : SupervisorWork :=
  let work := set_wk_exec v.(rl_exec) w.(su_shutdown_work) in
  set_su_shutdown_work {| work with
    sw_operation_ids := v.(rl_operation_ids); sw_pending_launches := v.(rl_pending_launches);
    sw_pending_start_hook_launches := v.(rl_pending_start_hook_launches) |} w.

(** ** Errors ([state/error.rs], [health/model/error.rs], [watchdog/model.rs]) *)

Inductive HealthCheckError : Type :=
| HeMissingService (job_id : JobId)
| HeUnknownService (service : string)
| HeMissingMainJob (service : string)
| HeInvalidCommand (service command : string) (source : ExecutableCommandParseError)
| HeJobIdAllocation (error : IdAllocationError)
| HeJobBuild (error : ServiceHookJobBuildError)
| HeJobStore (error : JobStoreError)
| HeServiceTable (error : ServiceTableError)
| HeBoundary (error : BoundaryError)
| HeNotHealthCheckJob (job_id : JobId) (job_type : JobType)
| HeNotTerminalJobEvent (job_id : JobId) (state : JobState).

Inductive WatchdogError : Type :=
| WeInvalidRuntimeUpdate (service value : string)
| WeUnknownService (service : string)
| WeMissingMainJob (service : string)
| WeJobStore (error : JobStoreError)
| WeServiceTable (error : ServiceTableError)
| WeBoundary (error : BoundaryError).

(** [execution/launch/model.rs] *)
Inductive LaunchCreatedJobError : Type :=
| LeJobStore (error : JobStoreError)
| LeNotServiceMainJob (job_id : JobId)
| LeNotReloadHookJob (job_id : JobId) (job_type : JobType)
| LeNotPreExecHookJob (job_id : JobId) (job_type : JobType)
| LeNotPostExecHookJob (job_id : JobId) (job_type : JobType)
| LeNotHealthCheckJob (job_id : JobId) (job_type : JobType)
| LeNotSubmittedJob (job_id : JobId) (job_type : JobType)
| LeServiceMainJobMissingService (job_id : JobId)
| LeJobNotCreated (job_id : JobId) (state : JobState)
| LeStartBeforeCreation (job_id : JobId) (created_at_ns launched_at_ns : Z)
| LeBoundary (error : BoundaryError).

(** The errors of timers and of the registry do not arise here.
    [SeShutdownInProgress] is [Shutdown(AlreadyInProgress { kind })]. *)
Inductive SupervisorError : Type :=
| SeShutdownInProgress (kind : ShutdownKind)
| SeFilesystemCheck (error : BoundaryError)
| SeGraphContext (error : GraphContextBuildError)
| SeGraph (error : GraphExecutionError)
| SeMissingStartCredentials (service : string)
| SeRequestIdAllocation (error : IdAllocationError)
| SeStarting (error : StartExecutionError BoundaryError)
| SeLifecycle (error : LifecycleCommandError)
| SeJobs (error : JobStoreError)
| SeJobTerminal (error : ServiceMainJobTerminalError (BoundaryError := BoundaryError))
| SeControl (error : ControlExecutionError BoundaryError)
| SeHealth (error : HealthCheckError)
| SeWatchdog (error : WatchdogError)
| SeProcessControl (error : BoundaryError)
| SeClock (error : BoundaryError)
| SeLaunch (error : LaunchCreatedJobError)
| SeJobStarted (error : ServiceMainJobStartedError (BoundaryError := BoundaryError))
| SeSubmitted (error : SubmittedJobStoreError).

Notation SupM := (Exec SupervisorWork SupervisorError).

Definition release_error (error : ReleaseError (BoundaryError := BoundaryError)) : SupervisorError :=
  match error with
  | RlGraph error => SeGraph error
  | RlStart error => SeStarting error
  | RlMissingStartCredentials service => SeMissingStartCredentials service
  end.

(** ** Steps of the components as steps of the supervisor *)

Definition sup_exec {E F A} (wrap : F → E) (m : Step P F A) : Exec SupervisorWork E A :=
  exec_within su_exec set_su_exec wrap m.
Definition sup_control {E F A} (wrap : F → E) (m : Exec (ControlState P) F A) : Exec SupervisorWork E A :=
  exec_within su_control set_su_control wrap m.
Definition sup_release {A} (m : Exec (ReleaseState P) (ReleaseError (BoundaryError := BoundaryError)) A) : SupM A :=
  exec_within release_view set_release_view release_error m.

Definition update_relationships {E} (f : RelationshipStore → RelationshipStore) : Exec SupervisorWork E unit :=
  exec_update (λ w, {| w with su_relationships := f w.(su_relationships) |}).
Definition update_health {E} (f : HealthCheckStore → HealthCheckStore) : Exec SupervisorWork E unit :=
  exec_update (λ w, {| w with su_health := f w.(su_health) |}).
Definition update_watchdog {E} (f : WatchdogStore → WatchdogStore) : Exec SupervisorWork E unit :=
  exec_update (λ w, {| w with su_watchdog := f w.(su_watchdog) |}).
Definition update_cleanup {E} (f : CgroupCleanupStore → CgroupCleanupStore) : Exec SupervisorWork E unit :=
  exec_update (λ w, {| w with su_cgroup_cleanup := f w.(su_cgroup_cleanup) |}).
Definition update_control_store {E} (f : ControlExecutionStore → ControlExecutionStore) : Exec SupervisorWork E unit :=
  exec_update (λ w, let control := su_control w in
    set_su_control {| control with cx_control := f control.(cx_control) |} w).
Definition update_fd_store {E} (f : FdStoreTable → FdStoreTable) : Exec SupervisorWork E unit :=
  exec_update (λ w, let work := w.(su_shutdown_work) in
    set_su_shutdown_work {| work with sw_fd_store := f work.(sw_fd_store) |} w).

(** An allocation from the operation identifiers. *)
Definition allocate_operation_id (observed_at_ns : Z) : SupM OperationId :=
  ids ← exec_on (λ w, w.(su_shutdown_work).(sw_operation_ids))
    (λ n w, set_su_shutdown_work (set_sw_operation_ids n w.(su_shutdown_work)) w) SeRequestIdAllocation
    (λ n, allocate_batch n 1 observed_at_ns);
  mret (default 0 (head ids)).

(** [queue_start_dispatches], [queue_restart_start_dispatches] and their kin. *)
Definition queue_start_job {E} (job_id : JobId) (job_kind : StartExecutionJobKind) : Exec SupervisorWork E unit :=
  exec_update (λ w, set_release_view (queue_start_dispatch job_id job_kind (release_view w)) w).

Definition queue_restart_start_dispatches {E} (dispatches : list RestartStartExecutionDispatch)
    : Exec SupervisorWork E unit :=
  _ ← exec_each (λ dispatch, queue_start_job dispatch.(rsd_job_id) dispatch.(rsd_job_kind)) dispatches;
  mret tt.

Definition queue_created_post_hook_job {E} (event : JobEvent) : Exec SupervisorWork E unit :=
  exec_update (λ w,
    if bool_decide (event.(je_job_type) = JtPostExecHook) then
      let work := w.(su_shutdown_work) in
      set_su_shutdown_work {| work with
        sw_pending_post_hook_launches := work.(sw_pending_post_hook_launches) ++ [event.(je_job_id)] |} w
    else w).

Definition queue_created_health_check_job {E} (event : JobEvent) : Exec SupervisorWork E unit :=
  exec_update (λ w,
    if bool_decide (event.(je_job_type) = JtHealthCheck) then
      {| w with su_pending_health_launches := w.(su_pending_health_launches) ++ [event.(je_job_id)] |}
    else w).

(** [commit]; a failed step leaves what it did to the kernel and the descriptors
    it closed. *)
Definition sup_commit (w : SupervisorWork) : SupervisorWork :=
  set_su_shutdown_work (work_commit w.(su_shutdown_work)) w.
Definition commit_supervisor {E} : Exec SupervisorWork E unit := exec_update sup_commit.

Definition sup_restore (now before : SupervisorWork) : SupervisorWork :=
  set_su_shutdown_work (work_restore now.(su_shutdown_work) before.(su_shutdown_work)) before.
Definition sup_atomic {E A} (m : Exec SupervisorWork E A) : Exec SupervisorWork E A := exec_atomic sup_restore m.

Definition note_deferred_critical_reboot {E} (service : string) (trigger : CriticalRebootTrigger)
    (observed_at_ns : option Z) : Exec SupervisorWork E unit :=
  exec_update (λ w, {| w with su_deferred_critical_reboot := Some {|
    dcr_service := service; dcr_trigger := trigger; dcr_observed_at_ns := observed_at_ns |} |}).

(** ** Health checks of services that change state ([health/interval/scheduling.rs]) *)

Definition health_enabled (definition : ServiceDefinition) : bool :=
  bool_decide (definition.(sd_service_type) = TypeSimple) && bool_decide (is_Some definition.(sd_health_check)).

Definition schedule_active_service_health (service : string) (generation observed_at_ns : Z) (w : SupervisorWork)
    : SupervisorWork :=
  match table_definition (su_services w) service, table_runtime (su_services w) service with
  | Some definition, Some runtime =>
      if negb (health_enabled definition) then {| w with su_health := cancel_health service w.(su_health) |}
      else {| w with su_health := schedule_interval service generation runtime.(rt_cgroup_generation)
                (seconds_after observed_at_ns definition.(sd_health_check_interval_secs)) w.(su_health) |}
  | _, _ => w
  end.

Definition apply_health_scheduling_after_transition (observed_at_ns : Z) (w : SupervisorWork)
    (transition : ServiceTableTransition) : SupervisorWork :=
  let event := transition.(tt_event) in
  if bool_decide (event.(ev_to) = StActive) then
    schedule_active_service_health event.(ev_service) event.(ev_generation) observed_at_ns w
  else if bool_decide (event.(ev_from) = StActive) then
    {| w with su_health := cancel_health event.(ev_service) w.(su_health) |}
  else w.

Definition apply_health_scheduling_after_transitions {E} (transitions : list ServiceTableTransition)
    (observed_at_ns : Z) : Exec SupervisorWork E unit :=
  exec_update (λ w, foldl (apply_health_scheduling_after_transition observed_at_ns) w transitions).

Definition apply_health_scheduling_after_post_start {E} (service : string) (observed_at_ns : Z)
    : Exec SupervisorWork E unit :=
  exec_update (λ w,
    match table_runtime (su_services w) service with
    | Some runtime =>
        if bool_decide (runtime.(rt_state) ≠ StActive) then w
        else schedule_active_service_health service runtime.(rt_generation) observed_at_ns w
    | None => w
    end).

(** ** Watchdogs of services that change state ([watchdog/scheduling.rs]) *)

Definition USEC_PER_SEC : Z := 1000000.

Definition schema_interval_usec (definition : ServiceDefinition) : Z :=
  if bool_decide (definition.(sd_service_type) ≠ TypeSimple) then 0
  else u64_saturating_mul definition.(sd_watchdog_timeout_secs) USEC_PER_SEC.

Definition schedule_active_service_watchdog (service : string) (generation observed_at_ns : Z) (w : SupervisorWork)
    : SupervisorWork :=
  let cancelled := {| w with su_watchdog := cancel_watchdog service w.(su_watchdog) |} in
  match table_definition (su_services w) service with
  | None => cancelled
  | Some definition =>
      let interval_usec := schema_interval_usec definition in
      if interval_usec =? 0 then cancelled
      else
        match table_runtime (su_services w) service with
        | None => cancelled
        | Some runtime =>
            {| w with su_watchdog := arm_watchdog service generation runtime.(rt_cgroup_generation) interval_usec
                 observed_at_ns w.(su_watchdog) |}
        end
  end.

Definition apply_watchdog_scheduling_after_transition (observed_at_ns : Z) (w : SupervisorWork)
    (transition : ServiceTableTransition) : SupervisorWork :=
  let event := transition.(tt_event) in
  if bool_decide (event.(ev_to) = StActive) then
    schedule_active_service_watchdog event.(ev_service) event.(ev_generation) observed_at_ns w
  else if bool_decide (event.(ev_from) = StActive) then
    {| w with su_watchdog := cancel_watchdog event.(ev_service) w.(su_watchdog) |}
  else w.

Definition apply_watchdog_scheduling_after_transitions {E} (transitions : list ServiceTableTransition)
    (observed_at_ns : Z) : Exec SupervisorWork E unit :=
  exec_update (λ w, foldl (apply_watchdog_scheduling_after_transition observed_at_ns) w transitions).

Definition apply_watchdog_scheduling_after_post_start {E} (service : string) (observed_at_ns : Z)
    : Exec SupervisorWork E unit :=
  exec_update (λ w,
    match table_runtime (su_services w) service with
    | Some runtime =>
        if bool_decide (runtime.(rt_state) ≠ StActive) then w
        else schedule_active_service_watchdog service runtime.(rt_generation) observed_at_ns w
    | None => w
    end).
End Work.

Arguments SupervisorWork : clear implicits.
Arguments HealthCheckError : clear implicits.
Arguments WatchdogError : clear implicits.
Arguments LaunchCreatedJobError : clear implicits.
Arguments SupervisorError : clear implicits.
