(* ===== verification/Relationships.v ===== *)
(** * What a change of one service means for others

    Models [src/src/supervisor/relationships/]: conflicts that gate a start
    ([conflict.rs]), stops and starts that a relationship asks for
    ([operation.rs], [start.rs]) and the reactions to transitions
    ([reaction.rs], [reaction/]); with the settlement of starts that are held
    for a restart ([src/src/supervisor/held_starts.rs]), the reboot owed to a
    critical service ([supervisor/critical_budget.rs]) and the promotion of
    queued operations ([supervisor/control/promote.rs]).

    Reactions settle held starts, and the settlement of a held start reacts to
    the dependents it fails. The recursion is bounded by fuel, one level for
    each member of the execution graph that has not ended and one more:
    [settle_always_ends] shows that it is enough. [None] is running out of it,
    or of the fuel of a plan or a release. *)

From S2P Require Import Prelude RustStr ServiceRuntime ServiceDef Ids Restart Cgroup ServiceTable Calendar Tty.
From S2P Require Import OperationRecord OperationStore ExecCommand StartPlan Lifecycle JobRecord JobStore SubmittedRun.
From S2P Require Import Effects ExecGraph StartState StartBegin StartRun MainProcess Release.
From S2P Require Import ControlRun Notify ShutdownRun SupWork.
From Stdlib Require Import String.
Open Scope string_scope.
Open Scope list_scope.
Open Scope Z_scope.

(** ** The reboot owed to a critical service ([critical_budget.rs]) *)

Definition critical_budget_reboot_owed (services : ServiceTable) (service : string) : bool :=
  match table_definition services service with
  | None => false
  | Some definition =>
      if bool_decide (definition.(sd_error_control) ≠ EcCritical) then false
      else is_some_and (table_runtime services service) (λ runtime,
        bool_decide (runtime.(rt_state) = StFailed) &&
        bool_decide (runtime.(rt_cause) = Some TcRestartBudgetExhausted))
  end.

(** ** Conflicts ([conflict.rs]) *)

Definition is_running (services : ServiceTable) (service : string) : bool :=
  is_some_and (table_runtime services service) (λ runtime,
    match runtime.(rt_state) with StActive | StReloading => true | _ => false end).

Definition push_active_blocker (services : ServiceTable) (start_services : gset string) (candidate : string)
    (blockers : gset string) : gset string :=
  if bool_decide (candidate ∈ start_services) then blockers
  else if is_running services candidate then set_insert candidate blockers
  else blockers.

Definition conflicts_of (services : ServiceTable) (service : string) : list string :=
  match table_definition services service with Some definition => definition.(sd_conflicts) | None => [] end.

Definition active_conflicts_for_start (services : ServiceTable) (start_services : gset string) : gset string :=
  let blockers := foldl (λ blockers service,
    foldl (λ blockers target, push_active_blocker services start_services target blockers) blockers
      (conflicts_of services service)) ∅ (btree_elements start_services) in
  foldl (λ blockers candidate,
    if bool_decide (candidate ∈ start_services) then blockers
    else if existsb (λ target, bool_decide (target ∈ start_services)) (conflicts_of services candidate)
    then push_active_blocker services start_services candidate blockers
    else blockers) blockers (service_names services).

Definition blocker_still_present (services : ServiceTable) (blocker : string) : bool :=
  is_some_and (table_runtime services blocker) (λ runtime,
    match runtime.(rt_state) with
    | StStarting | StActive | StReloading | StStopping | StAbandoned => true
    | _ => false
    end).

(** ** When a held start is decided ([held_starts.rs]) *)

Definition decided_outcome (services : ServiceTable) (target : string) : option SupervisorHeldRestartOutcome :=
  match table_runtime services target with
  | None => Some (HrAbandoned ArWithdrawn)
  | Some runtime =>
      if satisfies_dependents runtime.(rt_state) then Some HrReleased
      else
        match runtime.(rt_state) with
        | StBackoff | StStarting | StStopping => None
        | StInactive => Some (HrAbandoned ArStopped)
        | StFailed | StAbandoned => Some (HrAbandoned ArFailed)
        | StActive | StReloading | StCompleted | StSkipped => Some HrReleased
        end
  end.

Definition abandon_reason (target : string) (reason : SupervisorHeldRestartAbandonReason) : string :=
  let what := match reason with
              | ArStopped => "was stopped"
              | ArWithdrawn => "had its definition withdrawn"
              | ArFailed => "failed"
              end in
  "DependencyFailure: dependency " +:+ target +:+ " " +:+ what +:+ " while its dependents waited for its restart".

Section Relationships.
Context {P BoundaryError : Type} `{CalendarSyntax}.
Notation Work := (SupervisorWork P BoundaryError).
Notation SupM := (Exec Work (SupervisorError BoundaryError)).

(** ** Stops that a relationship asks for ([operation.rs]) *)

Definition queue_boundary {E} (f : OperationStore → ServiceTable → list PendingControlOperation →
    list PendingControlOperation * option PendingControlOperation) : Exec Work E (option PendingControlOperation) :=
  λ w,
    let (queue, pending) := f (su_operations w) (su_services w) w.(su_pending_control_operations) in
    Some ({| w with su_pending_control_operations := queue |}, Ok pending).

Definition queue_relationship_stop (service : string) (source : OperationSource) (observed_at_ns : Z) : SupM unit :=
  operation_id ← allocate_operation_id observed_at_ns;
  outcome ← sup_exec id (on_operations (λ e, SeLifecycle (LcOperationStore e)) (request_operation {|
    rq_id := operation_id; rq_operation_type := OpStop; rq_service := service; rq_source := source;
    rq_caller := None; rq_created_at_ns := observed_at_ns |}));
  _ ← queue_boundary (λ operations services, queue_control_boundary operations services outcome);
  mret tt.

(** ** Starts that conflicts gate *)

Definition release_in_work (context_id : GraphContextId) (max_parallel_starts : nat) (observed_at_ns : Z)
    : SupM (list StartExecutionDispatch) :=
  sup_release (release_for_context max_parallel_starts observed_at_ns context_id).

Definition gate_start_context (context_id : GraphContextId) (start_services : gset string) (observed_at_ns : Z)
    (max_parallel_starts : nat) : SupM (list StartExecutionDispatch) :=
  blockers ← exec_get (λ w, active_conflicts_for_start (su_services w) start_services);
  if bool_decide (blockers = ∅) then release_in_work context_id max_parallel_starts observed_at_ns
  else
    _ ← exec_each (λ blocker, queue_relationship_stop blocker SrcConflictResolution observed_at_ns)
      (btree_elements blockers);
    _ ← update_relationships (record_conflict_context context_id start_services blockers);
    mret [].

(** ** Starts that a relationship asks for ([start.rs]) *)

Inductive RelationshipStartPlan : Type :=
| PlanBindsToRecovery
| PlanOnFailure
| PlanTtyRelease.

#[export] Instance RelationshipStartPlan_eq_dec : EqDecision RelationshipStartPlan.
Proof. solve_decision. Defined.

(** The source of a request is that of its plan. *)
Definition plan_relationship_start (plan : RelationshipStartPlan) (services : ServiceTable) (service : string)
    : option (Result OnDemandStartPlan OnDemandStartPlanError) :=
  match plan with
  | PlanBindsToRecovery => plan_binds_to_recovery_start services service
  | PlanOnFailure => plan_on_failure_start services service
  | PlanTtyRelease => plan_tty_release_start services service
  end.

Definition planned_relationship_start (plan : RelationshipStartPlan) (service : string) : SupM OnDemandStartPlan :=
  λ w,
    match plan_relationship_start plan (su_services w) service with
    | None => None
    | Some r => Some (w, map_err (λ e, SeLifecycle (LcStartPlan e)) r)
    end.

(** A dispatch changes the operations and their identifiers together. *)
Definition on_admission {A} (f : OperationStore → Z → StartResult A OnDemandStartDispatchError) : SupM A :=
  exec_on (λ w, (su_operations w, w.(su_shutdown_work).(sw_operation_ids)))
    (λ '(operations, operation_ids) w,
       set_su_shutdown_work (set_sw_operation_ids operation_ids
         (set_wk_exec (set_operations operations (su_exec w)) w.(su_shutdown_work))) w)
    (λ e, SeLifecycle (LcStartDispatch e))
    (λ '(operations, operation_ids), f operations operation_ids).

Definition create_start_context (dispatch : OnDemandStartDispatch) : SupM GraphContextId :=
  services ← exec_get su_services;
  exec_on su_graph (λ g w, set_su_exec (set_graph g (su_exec w)) w) SeGraphContext
    (create_on_demand_context dispatch services).

Definition services_started (plan : OnDemandStartPlan) : gset string := list_to_set (map pst_service plan.(osp_starts)).

(** The handler of a failure is marked with the chain of handlers it ends. *)
Definition keep_on_failure_chain (service : string) (chain : option OnFailureChain) (dispatch : OnDemandStartDispatch)
    : SupM unit :=
  let requested := dispatch.(osd_requested_operation) in
  live ← exec_get (λ w, operation_lives (su_operations w) requested.(ro_returned_operation_id));
  match chain with
  | Some chain =>
      if bool_decide (requested.(ro_returned_operation_id) = requested.(ro_stored_operation_id)) && live
      then update_relationships (record_on_failure_chain service chain)
      else mret tt
  | None => mret tt
  end.

Definition dispatch_relationship_start (plan : RelationshipStartPlan) (service : string)
    (chain : option OnFailureChain) (observed_at_ns : Z) (max_parallel_starts : nat)
    : SupM (list StartExecutionDispatch) :=
  satisfied ← exec_get (λ w, is_some_and (su_services w !! service)
                               (λ entry, start_is_already_satisfied entry.(en_runtime).(rt_state)));
  if satisfied : bool then mret []
  else
    request_id ← allocate_operation_id observed_at_ns;
    start_plan ← planned_relationship_start plan service;
    outcome ← on_admission (dispatch_on_demand_start_plan start_plan request_id None observed_at_ns);
    _ ← (if bool_decide (plan = PlanOnFailure) then keep_on_failure_chain service chain outcome else mret tt);
    context_id ← create_start_context outcome;
    if bool_decide (services_started start_plan = ∅) then mret []
    else gate_start_context context_id (services_started start_plan) observed_at_ns max_parallel_starts.

(** ** Reactions ([reaction/]) *)

Definition leaves_satisfied (event : ServiceTransitionEvent) : bool :=
  satisfies_dependents event.(ev_from) && negb (satisfies_dependents event.(ev_to)).

Definition binds_to_dependents (services : ServiceTable) (target : string) : list string :=
  retain (λ service, negb (bool_decide (service = target)) &&
      is_some_and (table_definition services service) (λ definition,
        existsb (λ binds_to, bool_decide (binds_to = target)) definition.(sd_binds_to)))
    (service_names services).

Definition stop_bound_dependent (observed_at_ns : Z) (dependent : string) : SupM unit :=
  running ← exec_get (λ w, is_running (su_services w) dependent);
  if running : bool then queue_relationship_stop dependent SrcBindsToPropagation observed_at_ns else mret tt.

Definition propagate_binds_to (observed_at_ns : Z) (transition : ServiceTableTransition) : SupM unit :=
  let event := transition.(tt_event) in
  if negb (leaves_satisfied event) then mret tt
  else
    dependents ← exec_get (λ w, binds_to_dependents (su_services w) event.(ev_service));
    _ ← exec_each (stop_bound_dependent observed_at_ns) dependents;
    mret tt.

Definition apply_binds_to_propagation (transitions : list ServiceTableTransition) (observed_at_ns : Z) : SupM unit :=
  _ ← exec_each (propagate_binds_to observed_at_ns) transitions;
  mret tt.

Definition failed_due_to_binds_to_propagation (services : ServiceTable) (service : string) : bool :=
  is_some_and (table_runtime services service) (λ runtime,
    bool_decide (runtime.(rt_state) = StFailed) && bool_decide (runtime.(rt_cause) = Some TcBindsToPropagation)).

Definition recover_bound_dependent (observed_at_ns : Z) (max_parallel_starts : nat) (dependent : string)
    : SupM (list StartExecutionDispatch) :=
  failed ← exec_get (λ w, failed_due_to_binds_to_propagation (su_services w) dependent);
  if failed : bool
  then dispatch_relationship_start PlanBindsToRecovery dependent None observed_at_ns max_parallel_starts
  else mret [].

Definition recover_binds_to (observed_at_ns : Z) (max_parallel_starts : nat) (transition : ServiceTableTransition)
    : SupM (list StartExecutionDispatch) :=
  let event := transition.(tt_event) in
  if bool_decide (event.(ev_to) ≠ StActive) || satisfies_dependents event.(ev_from) then mret []
  else
    dependents ← exec_get (λ w, binds_to_dependents (su_services w) event.(ev_service));
    dispatches ← exec_each (recover_bound_dependent observed_at_ns max_parallel_starts) dependents;
    mret (mjoin dispatches).

Definition apply_binds_to_recovery_starts (transitions : list ServiceTableTransition) (observed_at_ns : Z)
    (max_parallel_starts : nat) : SupM (list StartExecutionDispatch) :=
  dispatches ← exec_each (recover_binds_to observed_at_ns max_parallel_starts) transitions;
  mret (mjoin dispatches).

Definition on_failure_target (services : ServiceTable) (service : string) : option string :=
  table_definition services service ≫= sd_on_failure.

(** The four [continue]s come first. *)
Definition start_failure_handler (observed_at_ns : Z) (max_parallel_starts : nat)
    (transition : ServiceTableTransition) : SupM (list StartExecutionDispatch) :=
  let event := transition.(tt_event) in
  if bool_decide (event.(ev_to) ≠ StFailed) || negb (triggers_on_failure event.(ev_cause)) then mret []
  else
    owed ← exec_get (λ w, critical_budget_reboot_owed (su_services w) event.(ev_service));
    if owed : bool then mret []
    else
      found ← exec_get (λ w, on_failure_target (su_services w) event.(ev_service));
      match found with
      | None => mret []
      | Some target =>
          if bool_decide (target = event.(ev_service)) then mret []
          else
            taken ← exec_get (λ w, (take_on_failure_chain event.(ev_service) w.(su_relationships)).2);
            _ ← update_relationships (λ self, (take_on_failure_chain event.(ev_service) self).1);
            let chain := default chain_root taken in
            match with_handler chain target with
            | Err reason =>
                _ ← update_relationships (record_audit_event {|
                  ofl_failed_service := event.(ev_service); ofl_attempted_handler := target;
                  ofl_chain := path_with_attempted_handler chain target; ofl_reason := reason |});
                mret []
            | Ok chain =>
                dispatch_relationship_start PlanOnFailure target (Some chain) observed_at_ns max_parallel_starts
            end
      end.

Definition apply_on_failure_starts (transitions : list ServiceTableTransition) (observed_at_ns : Z)
    (max_parallel_starts : nat) : SupM (list StartExecutionDispatch) :=
  dispatches ← exec_each (start_failure_handler observed_at_ns max_parallel_starts) transitions;
  mret (mjoin dispatches).

Definition clear_finished_chain (self : RelationshipStore) (transition : ServiceTableTransition) : RelationshipStore :=
  let event := transition.(tt_event) in
  match event.(ev_to) with
  | StCompleted | StInactive | StSkipped | StAbandoned => clear_on_failure_chain event.(ev_service) self
  | _ => self
  end.

Definition clear_finished_on_failure_chains (transitions : list ServiceTableTransition) : SupM unit :=
  update_relationships (λ self, foldl clear_finished_chain self transitions).

Definition release_unblocked_context (observed_at_ns : Z) (max_parallel_starts : nat)
    (context : PendingConflictContext) : SupM (list StartExecutionDispatch) :=
  blocked ← exec_get (λ w, existsb (blocker_still_present (su_services w)) (btree_elements context.(pcc_blockers)));
  if blocked : bool then mret []
  else
    removed ← exec_get (λ w, (remove_conflict_context context.(pcc_context_id) w.(su_relationships)).2);
    _ ← update_relationships (λ self, (remove_conflict_context context.(pcc_context_id) self).1);
    match removed with
    | None => mret []
    | Some context =>
        gate_start_context context.(pcc_context_id) context.(pcc_start_services) observed_at_ns max_parallel_starts
    end.

Definition release_unblocked_conflict_contexts (observed_at_ns : Z) (max_parallel_starts : nat)
    : SupM (list StartExecutionDispatch) :=
  pending ← exec_get (λ w, pending_conflict_contexts w.(su_relationships));
  dispatches ← exec_each (release_unblocked_context observed_at_ns max_parallel_starts) pending;
  mret (mjoin dispatches).

Definition release_level_waiters (observed_at_ns : Z) (max_parallel_starts : nat) (transition : ServiceTableTransition)
    : SupM (list StartExecutionDispatch) :=
  let event := transition.(tt_event) in
  if negb (leaves_satisfied event) then mret []
  else sup_release (release_level_waiters_on event.(ev_service) max_parallel_starts observed_at_ns).

Definition release_level_waiters_after_transitions (transitions : list ServiceTableTransition) (observed_at_ns : Z)
    (max_parallel_starts : nat) : SupM (list StartExecutionDispatch) :=
  dispatches ← exec_each (release_level_waiters observed_at_ns max_parallel_starts) transitions;
  mret (mjoin dispatches).

(** The terminals let go of, in order, each with who let it go. *)
Definition released_terminals (transitions : list ServiceTableTransition) : gmap string (list string) :=
  foldl (λ released transition,
    match transition.(tt_released_tty) with
    | None => released
    | Some tty => <[tty := default [] (released !! tty) ++ [transition.(tt_event).(ev_service)]]> released
    end) ∅ transitions.

Definition hand_terminal_on (observed_at_ns : Z) (max_parallel_starts : nat) (released : string * list string)
    : SupM (list StartExecutionDispatch) :=
  let '(tty, released_by) := released in
  held ← exec_get (λ w, tty_holder (su_services w) tty EmptyString);
  match held with
  | Some _ => mret []
  | None =>
      candidate ← exec_get (λ w, tty_release_candidate (su_services w) tty released_by);
      match candidate with
      | None => mret []
      | Some candidate =>
          dispatch_relationship_start PlanTtyRelease candidate None observed_at_ns max_parallel_starts
      end
  end.

Definition apply_tty_release_starts (transitions : list ServiceTableTransition) (observed_at_ns : Z)
    (max_parallel_starts : nat) : SupM (list StartExecutionDispatch) :=
  dispatches ← exec_each (hand_terminal_on observed_at_ns max_parallel_starts)
    (btree_iter (released_terminals transitions));
  mret (mjoin dispatches).

(** ** The reactions in order ([reaction.rs]), and settlement ([held_starts.rs]) *)

Definition react (settle : SupM unit) (transitions : list ServiceTableTransition) (observed_at_ns : Z)
    (max_parallel_starts : nat) : SupM (list StartExecutionDispatch) :=
  _ ← clear_finished_on_failure_chains transitions;
  shutting_down ← exec_get (λ w, bool_decide (is_Some (su_shutdown w)));
  if shutting_down : bool then mret []
  else
    _ ← apply_binds_to_propagation transitions observed_at_ns;
    _ ← settle;
    handlers ← apply_on_failure_starts transitions observed_at_ns max_parallel_starts;
    recovered ← apply_binds_to_recovery_starts transitions observed_at_ns max_parallel_starts;
    unblocked ← release_unblocked_conflict_contexts observed_at_ns max_parallel_starts;
    waiters ← release_level_waiters_after_transitions transitions observed_at_ns max_parallel_starts;
    terminals ← apply_tty_release_starts transitions observed_at_ns max_parallel_starts;
    mret (handlers ++ recovered ++ unblocked ++ waiters ++ terminals).

Definition graph_outcome_of (outcome : SupervisorHeldRestartOutcome) : GraphTerminalOutcome :=
  match outcome with HrReleased => OutSatisfied | HrAbandoned _ => OutFailed end.

Definition fail_held_dependents (target : string) (outcome : SupervisorHeldRestartOutcome)
    (graph_events : list GraphExecutionEvent) (observed_at_ns : Z) : SupM DependentFailures :=
  match outcome with
  | HrReleased => mret {| df_operation_events := []; df_service_transitions := [] |}
  | HrAbandoned reason =>
      sup_exec (λ e, SeStarting (SeStartFailure e))
        (fail_dependents_after_graph_events graph_events target observed_at_ns (abandon_reason target reason))
  end.

Definition settle_target (settle : SupM unit) (observed_at_ns : Z) (max_parallel_starts : nat) (target : string)
    : SupM unit :=
  decided ← exec_get (λ w, decided_outcome (su_services w) target);
  match decided with
  | None => mret tt
  | Some outcome =>
      graph_events ← sup_exec id (on_graph SeGraph (settle_awaiting_restart target (graph_outcome_of outcome)));
      failures ← fail_held_dependents target outcome graph_events observed_at_ns;
      reacted ← react settle failures.(df_service_transitions) observed_at_ns max_parallel_starts;
      released ← sup_release (release_after_graph_events graph_events max_parallel_starts observed_at_ns);
      exec_update (λ w, {| w with su_held_restart_settlements := w.(su_held_restart_settlements) ++ [{|
        hrs_target := target; hrs_outcome := outcome; hrs_operation_events := failures.(df_operation_events);
        hrs_service_transitions := failures.(df_service_transitions); hrs_graph_events := graph_events;
        hrs_start_dispatches := reacted ++ released |}] |})
  end.

Fixpoint settle_loop (fuel : nat) (observed_at_ns : Z) (max_parallel_starts : nat) : SupM unit :=
  match fuel with
  | O => λ _, None
  | S fuel =>
      targets ← exec_get (λ w, awaiting_restart_services (su_graph w));
      _ ← exec_each (settle_target (settle_loop fuel observed_at_ns max_parallel_starts) observed_at_ns
                       max_parallel_starts) targets;
      mret tt
  end.

Definition settle_fuel (w : Work) : nat := S (size (live_pairs (su_graph w))).

Definition settle_held_restarts (observed_at_ns : Z) (max_parallel_starts : nat) : SupM unit := λ w,
  settle_loop (settle_fuel w) observed_at_ns max_parallel_starts w.

Definition apply_relationship_reactions_after_transitions (transitions : list ServiceTableTransition)
    (observed_at_ns : Z) (max_parallel_starts : nat) : SupM (list StartExecutionDispatch) :=
  react (settle_held_restarts observed_at_ns max_parallel_starts) transitions observed_at_ns max_parallel_starts.

Definition has_settleable_held_restarts (w : Work) : bool :=
  existsb (λ target, bool_decide (is_Some (decided_outcome (su_services w) target)))
    (awaiting_restart_services (su_graph w)).

Definition settle_held_restarts_now (now_ns : Z) (max_parallel_starts : nat) : SupM unit :=
  sup_atomic (
    _ ← settle_held_restarts now_ns max_parallel_starts;
    commit_supervisor).

(** ** Queued operations whose turn has come ([control/promote.rs]) *)

Inductive PromotedOperationOutcome : Type :=
| PmControlBoundary
| PmStartPlan
| PmDeferred
| PmCompleted
| PmFailed.

Record SupervisorPromotedOperationDispatch : Type := {
  pod_operation_id : OperationId;
  pod_service : string;
  pod_operation_type : OperationType;
  pod_outcome : PromotedOperationOutcome;
  pod_operation_events : list OperationEvent;
  pod_context_id : option GraphContextId;
  pod_start_dispatches : list StartExecutionDispatch;
  pod_pending_control_operation : option PendingControlOperation;
}.

Definition promoted (operation : OperationRecord) (outcome : PromotedOperationOutcome)
    (events : list OperationEvent) : SupervisorPromotedOperationDispatch := {|
  pod_operation_id := operation.(or_id); pod_service := operation.(or_service);
  pod_operation_type := operation.(or_operation_type); pod_outcome := outcome; pod_operation_events := events;
  pod_context_id := None; pod_start_dispatches := []; pod_pending_control_operation := None |}.

Definition end_promoted (operation : OperationRecord) (outcome : PromotedOperationOutcome)
    (finish : OperationStore → StoreResult OperationEvent) : SupM SupervisorPromotedOperationDispatch :=
  event ← sup_exec id (on_operations (λ e, SeLifecycle (LcOperationStore e)) finish);
  mret (promoted operation outcome [event]).

(** [format!("{findings:?}")] and the other debug texts are not spelled out. *)
Definition START_VALIDATION_REASON : string := "invalid_state: start definition validation failed".
Definition NOT_ADMITTED_REASON : string := "invalid_state: not admitted in the state the service is in".

Definition queued_start_plan (operation : OperationRecord) (w : Work)
    : option (Result OnDemandStartPlan OnDemandStartPlanError) :=
  plan_queued_start (su_services w) operation.(or_service) operation.(or_source).

Definition promote_to_start (operation : OperationRecord) (now_ns : Z) (max_parallel_starts : nat)
    : SupM SupervisorPromotedOperationDispatch := λ w,
  match queued_start_plan operation w with
  | None => None
  | Some (Err (StartValidation _)) =>
      end_promoted operation PmFailed (fail_operation operation.(or_id) now_ns START_VALIDATION_REASON) w
  | Some (Err error) => Some (w, Err (SeLifecycle (LcStartPlan error)))
  | Some (Ok plan) =>
      (admission ← on_admission (dispatch_existing_requested_start_plan plan operation.(or_id) now_ns);
       context_id ← create_start_context admission;
       dispatches ← gate_start_context context_id (services_started admission.(osd_plan)) now_ns max_parallel_starts;
       mret {| pod_operation_id := operation.(or_id); pod_service := operation.(or_service);
               pod_operation_type := operation.(or_operation_type); pod_outcome := PmStartPlan;
               pod_operation_events := admission.(osd_events); pod_context_id := Some context_id;
               pod_start_dispatches := dispatches; pod_pending_control_operation := None |}) w
  end.

Definition promote_to_boundary (operation : OperationRecord) : SupM SupervisorPromotedOperationDispatch :=
  pending ← queue_boundary (λ operations services, queue_control_boundary_for operations services operation.(or_id));
  mret {| pod_operation_id := operation.(or_id); pod_service := operation.(or_service);
          pod_operation_type := operation.(or_operation_type); pod_outcome := PmControlBoundary;
          pod_operation_events := []; pod_context_id := None; pod_start_dispatches := [];
          pod_pending_control_operation := pending |}.

Definition promote_one (now_ns : Z) (max_parallel_starts : nat) (operation : OperationRecord)
    : SupM SupervisorPromotedOperationDispatch :=
  state ← exec_get (λ w, rt_state <$> table_runtime (su_services w) operation.(or_service));
  match operation.(or_operation_type), state with
  | (OpStop | OpRestart | OpReload), Some (StActive | StReloading | StStarting | StStopping) =>
      promote_to_boundary operation
  | (OpStart | OpRestart), Some (StInactive | StCompleted | StFailed | StSkipped) =>
      promote_to_start operation now_ns max_parallel_starts
  | (OpStart | OpRestart), Some StBackoff => mret (promoted operation PmDeferred [])
  | OpStop, Some (StInactive | StCompleted | StFailed | StSkipped | StBackoff) =>
      end_promoted operation PmCompleted (complete_operation operation.(or_id) now_ns "inactive")
  | OpStart, Some (StActive | StReloading | StStarting) =>
      end_promoted operation PmCompleted (complete_operation operation.(or_id) now_ns "active")
  | OpStart, Some StStopping =>
      _ ← sup_exec id (exec_update (λ s, set_operations (requeue_behind_head operation.(or_id) s.(xs_operations)) s));
      mret (promoted operation PmDeferred [])
  | _, Some _ => end_promoted operation PmFailed (fail_operation operation.(or_id) now_ns NOT_ADMITTED_REASON)
  | _, None =>
      end_promoted operation PmFailed
        (fail_operation operation.(or_id) now_ns "unknown_service: the service is no longer defined")
  end.

Definition promote_ready (now_ns : Z) (max_parallel_starts : nat) (operation : OperationRecord)
    : SupM SupervisorPromotedOperationDispatch :=
  _ ← sup_exec id (exec_update (λ s, set_operations (clear_queued_behind operation.(or_id) s.(xs_operations)) s));
  promote_one now_ns max_parallel_starts operation.

Definition promote_queued_operations (now_ns : Z) (max_parallel_starts : nat)
    : SupM (list SupervisorPromotedOperationDispatch) :=
  ready ← exec_get (λ w, ready_queued_operations (su_operations w));
  match ready with
  | [] => mret []
  | _ =>
      sup_atomic (
        dispatches ← exec_each (promote_ready now_ns max_parallel_starts) ready;
        _ ← commit_supervisor;
        mret dispatches)
  end.
End Relationships.
