(* ===== verification/SupervisorRun.v ===== *)
(** * Main processes that end, operations that begin, timers that fire

    Models the supervisor's transactions around the components: the end of a
    service's main process ([src/src/supervisor/terminal.rs], [terminal/],
    [restart.rs], [fd_store_lifecycle.rs]), the next operation of the control
    boundary ([control/pending.rs]), a stop that is escalated
    ([control/stop.rs]), restarts that are due ([restart.rs]) and timers that
    fire ([timer.rs], [timer/]).

    The final reboot for a critical service is left to the end of the turn, as
    the runtime asks for it. The debug text of an error in the result of an
    operation is left out. *)

From S2P Require Import Prelude RustStr ServiceRuntime ServiceDef Ids Restart Cgroup ServiceTable Calendar Tty Shutdown.
From S2P Require Import OperationRecord OperationStore ExecCommand StartPlan Lifecycle JobRecord JobStore SubmittedRun.
From S2P Require Import Effects ExecGraph StartState StartBegin StartRun MainProcess Release.
From S2P Require Import ControlRun Notify ShutdownRun SupWork Relationships.
From Stdlib Require Import String Ascii.
Open Scope string_scope.
Open Scope list_scope.
Open Scope Z_scope.

(** ** Paths ([std::path::Path], and [cgroup_cleanup/tree.rs]) *)

(** Whether a piece between slashes is a component: empty ones are not, and
    ["."] only at the start of a relative path. *)
Definition is_component (first : bool) (piece : string) : bool :=
  negb (str_is_empty piece) && (negb (bool_decide (piece = ".")) || first).

(** The pieces with whether each is a component. *)
Definition path_pieces (path : string) : list (string * bool) :=
  imap (λ i piece, (piece, is_component (Nat.eqb i 0) piece)) (split_char "/"%char path).

(** Without the last component and what follows it. *)
Fixpoint drop_last_component (pieces : list (string * bool)) : option (list (string * bool)) :=
  match pieces with
  | [] => None
  | (piece, is_component) :: rest =>
      match drop_last_component rest with
      | Some rest => Some ((piece, is_component) :: rest)
      | None => if is_component : bool then Some [] else None
      end
  end.

(** Up to the last component. *)
Fixpoint trim_pieces (pieces : list (string * bool)) : list string :=
  match pieces with
  | [] => []
  | (piece, is_component) :: rest =>
      match trim_pieces rest with
      | [] => if is_component : bool then [piece] else []
      | rest => piece :: rest
      end
  end.

Definition parent_cgroup_path (cgroup_id : string) : option string :=
  pieces ← drop_last_component (path_pieces cgroup_id);
  Some match trim_pieces pieces with
       | [] => if starts_with "/" cgroup_id then "/" else ""
       | pieces => str_join "/" pieces
       end.

Definition path_file_name (path : string) : option string :=
  match last (trim_pieces (path_pieces path)) with
  | Some name => if bool_decide (name = "..") || bool_decide (name = ".") then None else Some name
  | None => None
  end.

(** ** Stored descriptors and explicit stops ([fd_store_lifecycle.rs]) *)

Definition explicit_stop_record_clears_fd_store (record : OperationRecord) : bool :=
  bool_decide (record.(or_operation_type) = OpStop) && bool_decide (record.(or_source) = SrcAdmin).

Definition explicit_stop_event_clears_fd_store (event : OperationEvent) : bool :=
  bool_decide (event.(oe_operation_type) = OpStop) && bool_decide (event.(oe_source) = SrcAdmin) &&
  match event.(oe_detail) with EvCompleted _ _ | EvFailed _ _ => true | _ => false end.

(** The settings of the supervisor that these steps read. *)
Record SupervisorSettings : Type := {
  sst_max_parallel_starts : nat;
  sst_post_kill_timeout_secs : Z;
}.

Section Run.
Context {P BoundaryError : Type} `{CalendarSyntax} `{!ProcessController P BoundaryError}.
Notation Work := (SupervisorWork P BoundaryError).
Notation SupM := (Exec Work (SupervisorError BoundaryError)).
Notation Terminal := ServiceMainJobTerminalDispatch.

Definition control_error (error : OperationStoreError) : SupervisorError BoundaryError :=
  SeControl (CeOperationStore error).

Definition sup_jobs {A} (f : JobStore → JobResult A) : SupM A := sup_exec id (StartState.on_jobs SeJobs f).
Definition sup_operations {A} (f : OperationStore → StoreResult A) : SupM A :=
  sup_exec id (on_operations control_error f).
Definition sup_services {A} (f : ServiceTable → TableResult A) : SupM A :=
  sup_exec id (on_services (λ e, SeControl (CeServiceTable e)) f).

(** ** Reloads that the end of the main process cuts short ([terminal/cleanup.rs]) *)

(** [ReloadCleanupController]: with a process controller, or without one. *)
Definition kill_reload_cgroup (wrap : BoundaryError → SupervisorError BoundaryError) (with_controller : bool)
    (cgroup_id : string) : SupM bool :=
  if with_controller then _ ← sup_exec id (kill wrap cgroup_id); mret true else mret false.

Definition fail_running_reload_operation (operation_id : OperationId) (observed_at_ns : Z) (reason : string)
    : SupM (list OperationEvent) :=
  operation ← exec_get (λ w, (su_operations w).(op_records) !! operation_id);
  if is_some_and operation (λ operation,
       bool_decide (operation.(or_operation_type) = OpReload) && bool_decide (operation.(or_state) = OsRunning))
  then event ← sup_operations (fail_operation operation_id observed_at_ns reason); mret [event]
  else mret [].

Definition fail_running_reload_command_job (settings : SupervisorSettings) (with_controller : bool)
    (service : string) (job_id : JobId) (cgroup_id : string) (observed_at_ns : Z) : SupM (list JobEvent) :=
  killed ← kill_reload_cgroup (λ e, SeControl (CeBoundary e)) with_controller cgroup_id;
  if killed : bool then
    _ ← update_cleanup (record_cgroup_cleanup service cgroup_id CkHooks observed_at_ns
                          settings.(sst_post_kill_timeout_secs));
    event ← sup_jobs (fail_running_job job_id observed_at_ns (Some (Signal 9))
      "reload command killed because service main exited during reload");
    mret [event]
  else
    event ← sup_jobs (fail_running_job job_id observed_at_ns None
      "reload command cancelled because service main exited during reload");
    mret [event].

Definition fail_reload_command_job (settings : SupervisorSettings) (with_controller : bool) (service : string)
    (job_id : JobId) (cgroup_id : string) (observed_at_ns : Z) : SupM (list JobEvent) :=
  job ← exec_get (λ w, (su_jobs w).(js_records) !! job_id);
  match jr_state <$> job with
  | Some JsCreated =>
      _ ← exec_update (λ w, let work := w.(su_shutdown_work) in
        set_su_shutdown_work {| work with sw_pending_control_launches :=
          retain (λ pending, negb (bool_decide (pending = job_id))) work.(sw_pending_control_launches) |} w);
      event ← sup_jobs (fail_job_before_start job_id observed_at_ns
        "reload command cancelled because service main exited during reload");
      mret [event]
  | Some JsRunning =>
      fail_running_reload_command_job settings with_controller service job_id cgroup_id observed_at_ns
  | _ => mret []
  end.

Definition EXITED_DURING_RELOAD : string := "reload failed: main process exited during reload".

(** The operations and the jobs that end with a reload of [service]. *)
Definition cancel_reload_of (settings : SupervisorSettings) (with_controller : bool) (observed_at_ns : Z)
    (service : string) : SupM (list OperationEvent * list JobEvent) :=
  cancelled ← exec_get (λ w, (cancel_reload_for_service service (su_control w).(cx_control)).2);
  _ ← update_control_store (λ store, (cancel_reload_for_service service store).1);
  detections ← exec_each (λ deadline,
    fail_running_reload_operation deadline.(rdd_operation_id) observed_at_ns EXITED_DURING_RELOAD)
    cancelled.(crd_detections);
  commands ← exec_each (λ deadline,
    events ← fail_running_reload_operation deadline.(rcd_operation_id) observed_at_ns EXITED_DURING_RELOAD;
    jobs ← fail_reload_command_job settings with_controller service deadline.(rcd_job_id) deadline.(rcd_cgroup_id)
             observed_at_ns;
    mret (events, jobs)) cancelled.(crd_commands);
  mret (mjoin detections ++ mjoin (map fst commands), mjoin (map snd commands)).

Definition crashed_while_reloading (transition : ServiceTableTransition) : bool :=
  bool_decide (transition.(tt_event).(ev_from) = StReloading) &&
  bool_decide (transition.(tt_event).(ev_cause) = TcProcessCrash).

Definition cancel_reload_after_main_exit (settings : SupervisorSettings) (with_controller : bool)
    (dispatch : Terminal) (observed_at_ns : Z) : SupM (Terminal * list JobEvent) :=
  cancelled ← exec_each (cancel_reload_of settings with_controller observed_at_ns)
    (map (λ transition, transition.(tt_event).(ev_service))
       (retain crashed_while_reloading dispatch.(jtd_service_transitions)));
  mret ({| dispatch with jtd_operation_events := dispatch.(jtd_operation_events) ++ mjoin (map fst cancelled) |},
        mjoin (map snd cancelled)).

Definition remove_satisfied_readiness_deadlines (dispatch : Terminal) : SupM unit :=
  sup_exec id (exec_update (λ s, set_start (foldl (λ store event,
    (remove_readiness_deadline event.(oe_operation_id) store).1) s.(xs_start) dispatch.(jtd_operation_events)) s)).

Definition remove_satisfied_stop_deadlines (dispatch : Terminal) : SupM unit :=
  _ ← update_control_store (λ store, foldl (λ store event,
    (remove_stop_timeout event.(oe_operation_id) store).1) store dispatch.(jtd_operation_events));
  update_cleanup (λ store, foldl (λ store event,
    remove_stop_main event.(oe_operation_id) store) store dispatch.(jtd_operation_events)).

Definition clear_fd_store_after_explicit_stop (dispatch : Terminal) : SupM unit :=
  update_fd_store (λ store, foldl (λ store event,
    if explicit_stop_event_clears_fd_store event then clear_service event.(oe_service) store else store)
    store dispatch.(jtd_operation_events)).

Definition clear_fd_store_after_definition_discard (dispatch : Terminal) : SupM unit :=
  update_fd_store (λ store, foldl (λ store transition,
    if transition.(tt_discarded_definition_removed) then clear_service transition.(tt_event).(ev_service) store
    else store) store dispatch.(jtd_service_transitions)).

(** ** The end of the main process ([terminal.rs]) *)

Definition budget_exhausted (transition : ServiceTableTransition) : bool :=
  bool_decide (transition.(tt_event).(ev_to) = StFailed) &&
  bool_decide (transition.(tt_event).(ev_cause) = TcRestartBudgetExhausted).

Definition service_is_critical (services : ServiceTable) (service : string) : bool :=
  is_some_and (table_definition services service) (λ definition,
    bool_decide (definition.(sd_error_control) = EcCritical)).

Definition critical_reboot_due (dispatch : Terminal) (w : Work) : bool :=
  if bool_decide (is_Some (su_shutdown w)) then false
  else
    match dispatch.(jtd_job_event).(je_service) with
    | None => false
    | Some service => service_is_critical (su_services w) service && existsb budget_exhausted dispatch.(jtd_service_transitions)
    end.

Definition terminal_event_time (dispatch : Terminal) : SupM Z :=
  match dispatch.(jtd_job_event).(je_detail) with
  | JevEnded ended_at_ns _ _ _ _ => mret ended_at_ns
  | _ => exec_fail (SeJobTerminal (JtNotTerminalEvent dispatch.(jtd_job_event).(je_job_id)))
  end.

Definition RESTART_DEFINITION_REMOVED : string := "definition_removed_during_restart_stop_leg".

Definition restart_leg_request (service : string) (operation_id : OperationId) (definition : ServiceDefinition)
    (started_at_ns : Z) : RestartStartExecutionRequest := {|
  rsr_service := service; rsr_operation_id := operation_id; rsr_resolved_identity := definition.(sd_identity);
  rsr_token_summary := requested_identity definition.(sd_identity); rsr_started_at_ns := started_at_ns |}.

Definition start_restart_leg (service : string) (operation_id : OperationId) (started_at_ns : Z)
    : SupM (list RestartStartExecutionDispatch) :=
  definition ← sup_exec id (require (SeMissingStartCredentials service)
    (λ s, table_definition s.(xs_services) service));
  outcome ← sup_exec SeStarting
    (begin_restart_start_leg (restart_leg_request service operation_id definition started_at_ns));
  mret match outcome with RsJob dispatch => [dispatch] | RsTerminal _ | RsCheckPending _ => [] end.

(** The start leg, and the events of a restart whose definition is gone. *)
Definition begin_restart_start_after_stop (dispatch : Terminal) (started_at_ns : Z)
    : SupM (Terminal * list RestartStartExecutionDispatch) :=
  match dispatch.(jtd_job_event).(je_service) with
  | None => mret (dispatch, [])
  | Some service =>
      current ← exec_get (λ w, current_for_service (su_operations w) service);
      match current with
      | None => mret (dispatch, [])
      | Some operation =>
          if bool_decide (operation.(or_operation_type) ≠ OpRestart) || bool_decide (operation.(or_state) ≠ OsRunning)
          then mret (dispatch, [])
          else
            leg ← exec_get (λ w, (take_restart_stop_leg operation.(or_id) (su_control w).(cx_control)).2);
            _ ← update_control_store (λ store, (take_restart_stop_leg operation.(or_id) store).1);
            match leg with
            | None => mret (dispatch, [])
            | Some _ =>
                _ ← update_control_store (λ store, (remove_stop_timeout operation.(or_id) store).1);
                _ ← update_cleanup (remove_stop_main operation.(or_id));
                if existsb tt_discarded_definition_removed dispatch.(jtd_service_transitions) then
                  event ← sup_operations (abort_operation operation.(or_id) started_at_ns RESTART_DEFINITION_REMOVED);
                  mret ({| dispatch with jtd_operation_events := dispatch.(jtd_operation_events) ++ [event] |}, [])
                else
                  dispatches ← start_restart_leg service operation.(or_id) started_at_ns;
                  mret (dispatch, dispatches)
            end
      end
  end.

(** *** Timers ([timer/]) *)

Record TimerStartDispatch : Type := {
  tsd_requested_operation_id : OperationId;
  tsd_outcome : OnDemandStartDispatch;
  tsd_context_id : GraphContextId;
  tsd_start_dispatches : list StartExecutionDispatch;
}.

Definition dispatch_timer_start_for_work (settings : SupervisorSettings) (service : string) (observed_at_ns : Z)
    : SupM TimerStartDispatch :=
  request_id ← allocate_operation_id observed_at_ns;
  plan ← (λ w : Work,
    match plan_timer_start (su_services w) service with
    | None => None
    | Some r => Some (w, map_err (λ e, SeLifecycle (LcStartPlan e)) r)
    end);
  outcome ← on_admission (dispatch_on_demand_start_plan plan request_id None observed_at_ns);
  context_id ← create_start_context outcome;
  start_dispatches ← gate_start_context context_id (services_started plan) observed_at_ns
    settings.(sst_max_parallel_starts);
  mret {| tsd_requested_operation_id := request_id; tsd_outcome := outcome; tsd_context_id := context_id;
          tsd_start_dispatches := start_dispatches |}.

Definition timer_run_pending (services : ServiceTable) (transition : ServiceTableTransition) : bool :=
  let event := transition.(tt_event) in
  match event.(ev_to) with StCompleted | StInactive => true | _ => false end &&
  is_some_and (table_definition services event.(ev_service)) (λ definition,
    bool_decide (definition.(sd_service_type) = TypeOneshot)) &&
  is_some_and (table_runtime services event.(ev_service)) rt_pending_timer.

Definition start_pending_timer_run (settings : SupervisorSettings) (observed_at_ns : Z)
    (transition : ServiceTableTransition) : SupM (list StartExecutionDispatch) :=
  pending ← exec_get (λ w, timer_run_pending (su_services w) transition);
  if pending : bool then
    let service := transition.(tt_event).(ev_service) in
    _ ← sup_exec id (on_services (λ e, SeLifecycle (LcServiceTable e)) (clear_pending_timer service));
    timer_start ← dispatch_timer_start_for_work settings service observed_at_ns;
    mret timer_start.(tsd_start_dispatches)
  else mret [].

Definition start_pending_timer_runs_after_terminal (settings : SupervisorSettings) (terminal : Terminal)
    (observed_at_ns : Z) : SupM (list StartExecutionDispatch) :=
  dispatches ← exec_each (start_pending_timer_run settings observed_at_ns) terminal.(jtd_service_transitions);
  mret (mjoin dispatches).

(** *** The transaction *)

Record SupervisorTerminalDispatch : Type := {
  svt_terminal : Terminal;
  svt_cleanup_job_events : list JobEvent;
  svt_start_dispatches : list StartExecutionDispatch;
  svt_restart_start_dispatches : list RestartStartExecutionDispatch;
}.

Definition schedule_after_terminal (terminal : Terminal) (observed_at_ns : Z) : SupM unit :=
  match terminal.(jtd_post_start_hook) with
  | Some post_start_hook => queue_created_post_hook_job post_start_hook
  | None =>
      _ ← apply_health_scheduling_after_transitions terminal.(jtd_service_transitions) observed_at_ns;
      apply_watchdog_scheduling_after_transitions terminal.(jtd_service_transitions) observed_at_ns
  end.

Definition settle_deadlines_after_terminal (terminal : Terminal) : SupM unit :=
  _ ← remove_satisfied_readiness_deadlines terminal;
  _ ← remove_satisfied_stop_deadlines terminal;
  _ ← clear_fd_store_after_explicit_stop terminal;
  clear_fd_store_after_definition_discard terminal.

(** What follows when no reboot is due: restarts, reactions, releases, timers. *)
Definition continue_after_terminal (settings : SupervisorSettings) (terminal : Terminal)
    (cleanup_job_events : list JobEvent) (observed_at_ns : Z) : SupM SupervisorTerminalDispatch :=
  '(terminal, restarts) ← begin_restart_start_after_stop terminal observed_at_ns;
  _ ← queue_restart_start_dispatches restarts;
  reacted ← apply_relationship_reactions_after_transitions terminal.(jtd_service_transitions) observed_at_ns
    settings.(sst_max_parallel_starts);
  released ← sup_release (release_after_graph_events terminal.(jtd_graph_events) settings.(sst_max_parallel_starts)
    observed_at_ns);
  timed ← start_pending_timer_runs_after_terminal settings terminal observed_at_ns;
  _ ← commit_supervisor;
  mret {| svt_terminal := terminal; svt_cleanup_job_events := cleanup_job_events;
          svt_start_dispatches := reacted ++ released ++ timed; svt_restart_start_dispatches := restarts |}.

Definition apply_terminal_job_event (settings : SupervisorSettings) (with_controller : bool)
    (finish : JobStore → JobResult JobEvent) : SupM SupervisorTerminalDispatch :=
  sup_atomic (
    jobs ← exec_get su_jobs;
    job_event ← sup_jobs finish;
    _ ← (if is_some_and (jobs.(js_records) !! job_event.(je_job_id)) (λ job, bool_decide (is_Some job.(jr_console_path)))
         then kill_reload_cgroup SeProcessControl with_controller job_event.(je_cgroup_id) else mret false);
    terminal ← sup_exec SeJobTerminal (apply_service_main_job_terminal job_event);
    observed_at_ns ← terminal_event_time terminal;
    '(terminal, cleanup_job_events) ← cancel_reload_after_main_exit settings with_controller terminal observed_at_ns;
    _ ← schedule_after_terminal terminal observed_at_ns;
    _ ← settle_deadlines_after_terminal terminal;
    reboot ← exec_get (critical_reboot_due terminal);
    if reboot : bool then
      _ ← commit_supervisor;
      _ ← match terminal.(jtd_job_event).(je_service) with
          | Some service => note_deferred_critical_reboot service TriggerServiceMainTerminal
                              terminal.(jtd_job_event).(je_ended_at_ns)
          | None => mret tt
          end;
      mret {| svt_terminal := terminal; svt_cleanup_job_events := cleanup_job_events; svt_start_dispatches := [];
              svt_restart_start_dispatches := [] |}
    else continue_after_terminal settings terminal cleanup_job_events observed_at_ns).

Definition complete_main_job (settings : SupervisorSettings) (with_controller : bool) (job_id : JobId)
    (ended_at_ns exit_code : Z) : SupM SupervisorTerminalDispatch :=
  apply_terminal_job_event settings with_controller (complete_job job_id ended_at_ns exit_code).

Definition fail_running_main_job (settings : SupervisorSettings) (with_controller : bool) (job_id : JobId)
    (ended_at_ns : Z) (exit : option JobExit) (failure_cause : string) : SupM SupervisorTerminalDispatch :=
  apply_terminal_job_event settings with_controller (fail_running_job job_id ended_at_ns exit failure_cause).

(** ** Timers that fire ([timer.rs], [timer/classification.rs]) *)

Inductive TimerFiringAction : Type :=
| FiringStart
| FiringPendingOneshot
| FiringSimpleNoop
| FiringStateNoop (state : ServiceState)
| FiringDisabled.

Definition classify_timer_firing (definition : ServiceDefinition) (state : ServiceState) : TimerFiringAction :=
  match definition.(sd_service_type), state with
  | TypeOneshot, (StInactive | StCompleted | StFailed) | TypeSimple, (StInactive | StFailed) => FiringStart
  | TypeOneshot, (StActive | StStarting) => FiringPendingOneshot
  | TypeSimple, (StActive | StStarting) => FiringSimpleNoop
  | _, state => FiringStateNoop state
  end.

Inductive SupervisorTimerAction : Type :=
| TimerStarted (timer_start : TimerStartDispatch)
| TimerPendingOneshot (newly_pending : bool)
| TimerSimpleNoop
| TimerStateNoop (state : ServiceState)
| TimerDisabled
| TimerShutdownInProgress
| TimerServiceGone.

Definition handle_timer_firing (settings : SupervisorSettings) (service : string) (observed_at_ns : Z)
    : SupM SupervisorTimerAction :=
  shutting_down ← exec_get (λ w, bool_decide (is_Some (su_shutdown w)));
  if shutting_down : bool then mret TimerShutdownInProgress
  else
    found ← exec_get (λ w, (table_definition (su_services w) service, table_runtime (su_services w) service));
    match found with
    | (Some definition, Some runtime) =>
        match (if definition.(sd_disabled) then FiringDisabled
               else classify_timer_firing definition runtime.(rt_state)) with
        | FiringStart =>
            sup_atomic (
              timer_start ← dispatch_timer_start_for_work settings service observed_at_ns;
              _ ← commit_supervisor;
              mret (TimerStarted timer_start))
        | FiringPendingOneshot =>
            newly_pending ← sup_exec id (on_services (λ e, SeLifecycle (LcServiceTable e)) (set_pending_timer service));
            mret (TimerPendingOneshot newly_pending)
        | FiringSimpleNoop => mret TimerSimpleNoop
        | FiringStateNoop state => mret (TimerStateNoop state)
        | FiringDisabled => mret TimerDisabled
        end
    | _ => mret TimerServiceGone
    end.

(** ** Restarts that are due ([restart.rs]) *)

Record SupervisorRestartBackoffFailureDispatch : Type := {
  rbf_due : RestartBackoffDeadline;
  rbf_service_transition : ServiceTableTransition;
  rbf_operation_event : option OperationEvent;
}.

(** The text of the error stands in for [format!("{error:?}")]. *)
Definition RELAUNCH_REFUSED : string := internal_error_result "the restart could not be executed".

Definition fail_relaunch_after_internal_error (due : RestartBackoffDeadline) (now_ns : Z)
    : SupM SupervisorRestartBackoffFailureDispatch :=
  transition ← sup_exec id (on_services (λ e, SeStarting (SeServiceTable e))
    (transition_service due.(bd_service) {| st_to := StFailed; st_cause := TcInternalError |}));
  current ← exec_get (λ w, current_for_service (su_operations w) due.(bd_service));
  match current with
  | Some operation =>
      if bool_decide (operation.(or_state) = OsPending) then
        event ← sup_operations (fail_operation operation.(or_id) now_ns RELAUNCH_REFUSED);
        mret {| rbf_due := due; rbf_service_transition := transition; rbf_operation_event := Some event |}
      else mret {| rbf_due := due; rbf_service_transition := transition; rbf_operation_event := None |}
  | None => mret {| rbf_due := due; rbf_service_transition := transition; rbf_operation_event := None |}
  end.

Inductive DueRestart : Type :=
| DueRelaunched (due : RestartBackoffDeadline) (relaunch : RestartPolicyRelaunchDispatch)
| DueRefused (failure : SupervisorRestartBackoffFailureDispatch).

(** A relaunch that is refused is that service's failure, not the turn's. *)
Definition try_relaunch (service : string) (now_ns : Z) (max_parallel_starts : nat)
    : SupM (option RestartPolicyRelaunchDispatch) := λ w,
  match begin_due_restart_policy_relaunch (BoundaryError := BoundaryError) service now_ns max_parallel_starts
          (release_view w) with
  | None => None
  | Some (v, Ok relaunch) => Some (set_release_view v w, Ok (Some relaunch))
  | Some (v, Err _) => Some (set_release_view v w, Ok None)
  end.

Definition process_due_restart (settings : SupervisorSettings) (now_ns : Z) (deadline : RestartBackoffDeadline)
    : SupM DueRestart :=
  relaunched ← try_relaunch deadline.(bd_service) now_ns settings.(sst_max_parallel_starts);
  match relaunched with
  | Some relaunch =>
      _ ← exec_each (λ dispatch, queue_start_job dispatch.(StartBegin.sed_job_id) dispatch.(sed_job_kind))
        relaunch.(rrd_start_dispatches);
      mret (DueRelaunched deadline relaunch)
  | None =>
      failure ← fail_relaunch_after_internal_error deadline now_ns;
      _ ← settle_held_restarts now_ns settings.(sst_max_parallel_starts);
      mret (DueRefused failure)
  end.

Definition process_due_restart_backoffs (settings : SupervisorSettings) (now_ns : Z) : SupM (list DueRestart) :=
  sup_atomic (
    due ← exec_get (λ w, due_restart_backoffs now_ns (su_services w));
    dispatches ← exec_each (process_due_restart settings now_ns) due;
    _ ← commit_supervisor;
    mret dispatches).

(** ** The next operation of the control boundary ([control/pending.rs]) *)

Record SupervisorControlFailureDispatch : Type := {
  scf_operation_id : OperationId;
  scf_service : string;
  scf_operation_type : OperationType;
  scf_operation_event : OperationEvent;
  scf_error : ControlExecutionError BoundaryError;
}.

(** The text of the error stands in for [format!("{error:?}")]. *)
Definition CONTROL_REFUSED : string := internal_error_result "the operation could not be executed".

(** An operation that cannot begin fails, and only it. *)
Definition try_begin_control (operation_id : OperationId) (observed_at_ns : Z)
    : SupM (Result ControlExecutionDispatch (ControlExecutionError BoundaryError)) := λ w,
  match begin_control_operation {| cor_operation_id := operation_id; cor_observed_at_ns := observed_at_ns |}
          (su_control w) with
  | None => None
  | Some (control, r) => Some (set_su_control control w, Ok r)
  end.

Definition follow_control_execution (settings : SupervisorSettings) (execution : ControlExecutionDispatch)
    (observed_at_ns : Z) : SupM unit :=
  _ ← exec_update (λ w, let work := w.(su_shutdown_work) in
    let queued := match execution.(ced_detail) with
                  | DetailReloadCommand job_id _ => work.(sw_pending_control_launches) ++ [job_id]
                  | _ => work.(sw_pending_control_launches)
                  end in
    set_su_shutdown_work {| work with sw_pending_control_launches :=
      retain (λ job_id, negb (existsb (λ job, bool_decide (job.(je_job_id) = job_id))
        execution.(ced_cancelled_reload_jobs))) queued |} w);
  _ ← match execution.(ced_kind) with
      | KStop | KRestartStopLeg =>
          cancelled ← exec_get (λ w, (cancel_post_start_for_service execution.(ced_service) (su_exec w).(xs_start)).2);
          _ ← sup_exec id (exec_update (λ s,
            set_start (cancel_post_start_for_service execution.(ced_service) s.(xs_start)).1 s));
          _ ← exec_each (λ deadline,
            sup_exec id (kill (λ e, SeControl (CeBoundary e)) deadline.(qd_hooks_cgroup_id))) cancelled;
          mret tt
      | _ => mret tt
      end;
  let transitions := option_list execution.(ced_service_transition) in
  _ ← apply_health_scheduling_after_transitions transitions observed_at_ns;
  _ ← apply_watchdog_scheduling_after_transitions transitions observed_at_ns;
  _ ← apply_relationship_reactions_after_transitions transitions observed_at_ns settings.(sst_max_parallel_starts);
  mret tt.

Definition fail_refused_control (pending : PendingControlOperation) (error : ControlExecutionError BoundaryError)
    (observed_at_ns : Z) : SupM SupervisorControlFailureDispatch :=
  event ← sup_operations (fail_operation pending.(pco_operation_id) observed_at_ns CONTROL_REFUSED);
  mret {| scf_operation_id := pending.(pco_operation_id); scf_service := pending.(pco_service);
          scf_operation_type := pending.(pco_operation_type); scf_operation_event := event; scf_error := error |}.

(** Pops the queue until an operation begins: the failures on the way, and it. *)
Fixpoint execute_pending_control (settings : SupervisorSettings) (observed_at_ns : Z)
    (queue : list PendingControlOperation)
    : SupM (list SupervisorControlFailureDispatch * option ControlExecutionDispatch) :=
  match queue with
  | [] => mret ([], None)
  | pending :: queue =>
      _ ← exec_update (λ w, {| w with su_pending_control_operations := queue |});
      live ← exec_get (λ w, operation_lives (su_operations w) pending.(pco_operation_id));
      if negb live then execute_pending_control settings observed_at_ns queue
      else
        begun ← try_begin_control pending.(pco_operation_id) observed_at_ns;
        match begun with
        | Err error =>
            failure ← fail_refused_control pending error observed_at_ns;
            '(failures, execution) ← execute_pending_control settings observed_at_ns queue;
            mret (failure :: failures, execution)
        | Ok execution =>
            _ ← follow_control_execution settings execution observed_at_ns;
            mret ([], Some execution)
        end
  end.

Definition execute_next_pending_control_operation (settings : SupervisorSettings) (observed_at_ns : Z)
    : SupM (list SupervisorControlFailureDispatch * option ControlExecutionDispatch) :=
  sup_atomic (
    queue ← exec_get su_pending_control_operations;
    executed ← execute_pending_control settings observed_at_ns queue;
    _ ← commit_supervisor;
    mret executed).

(** ** A stop that is escalated ([control/stop.rs]) *)

Definition process_next_due_stop_timeout (settings : SupervisorSettings) (now_ns : Z)
    : SupM (option StopEscalationDispatch) :=
  due ← exec_get (λ w, next_among sto_due_at_ns sto_service (due_stop_timeouts now_ns (su_control w).(cx_control)));
  match due with
  | None => mret None
  | Some deadline =>
      sup_atomic (
        escalation ← sup_control SeControl (escalate_due_stop deadline now_ns);
        let cgroup_id := escalation.(ControlRun.sed_cgroup_id) in
        _ ← update_cleanup (record_cgroup_cleanup escalation.(ControlRun.sed_service) cgroup_id
          (CkStopMain escalation.(ControlRun.sed_operation_id) (default cgroup_id (parent_cgroup_path cgroup_id)))
          now_ns settings.(sst_post_kill_timeout_secs));
        _ ← commit_supervisor;
        mret (Some escalation))
  end.
End Run.
