(* ===== verification/SupervisorChecks.v ===== *)
(** * Watchdogs, health checks and control groups to clean up

    Models what the supervisor does when a watchdog is fed or runs out
    ([src/src/supervisor/watchdog/notify.rs], [timeout.rs]), when a health check
    is due, ends or times out ([supervisor/health/]), and when the period of
    grace of a killed control group is over ([supervisor/cgroup_cleanup/]).

    The launch of a health check's process is in [SupervisorLaunch]; what follows
    a launch that succeeded or failed is here. *)

From S2P Require Import Prelude RustStr ServiceRuntime ServiceDef Ids Restart Cgroup ServiceTable FailureDispatch Calendar Tty.
From S2P Require Import OperationRecord OperationStore ExecCommand StartPlan Lifecycle JobRecord JobStore SubmittedRun.
From S2P Require Import Effects ExecGraph StartState StartBegin StartRun MainProcess Release.
From S2P Require Import ControlRun Notify SubmittedDef NotifyRun ShutdownRun SupWork Relationships SupervisorRun.
From Stdlib Require Import String.
Open Scope string_scope.
Open Scope list_scope.
Open Scope Z_scope.

(** ** Dispatches ([dispatch/watchdog.rs], [dispatch/health.rs]) *)

Record SupervisorWatchdogNotifyDispatch : Type := {
  wnd_service : string;
  wnd_generation : Z;
  wnd_outcome : WatchdogUpdate;
}.

Inductive SupervisorWatchdogTimeoutOutcome : Type :=
| WtRestartScheduled
| WtFailed
| WtStale.

Record SupervisorWatchdogTimeoutDispatch : Type := {
  wtd_service : string;
  wtd_generation : Z;
  wtd_job_event : option JobEvent;
  wtd_outcome : SupervisorWatchdogTimeoutOutcome;
  wtd_service_transitions : list ServiceTableTransition;
  wtd_killed_cgroup_id : option string;
  wtd_timed_out_at_ns : Z;
}.

Inductive SupervisorHealthCheckIntervalAction : Type :=
| HiCreated (job_event : JobEvent)
| HiSkippedOverlap (job_id : option JobId)
| HiSkippedState (state : ServiceState)
| HiNotConfigured.

Record SupervisorHealthCheckIntervalDispatch : Type := {
  hci_service : string;
  hci_action : SupervisorHealthCheckIntervalAction;
}.

Inductive SupervisorHealthCheckOutcome : Type :=
| HoHealthy
| HoUnhealthy (consecutive_failures retries : Z)
| HoRestartScheduled (consecutive_failures retries : Z)
| HoFailed (consecutive_failures retries : Z)
| HoNotLaunched
| HoStale.

Record SupervisorHealthCheckTerminalDispatch : Type := {
  hct_job_event : JobEvent;
  hct_service_job_event : option JobEvent;
  hct_outcome : SupervisorHealthCheckOutcome;
  hct_service_transitions : list ServiceTableTransition;
  hct_killed_cgroup_id : string;
}.

Record SupervisorLeakedCgroupDispatch : Type := {
  slc_service : string;
  slc_path : string;
  slc_kind : LeakedCgroupKind;
  slc_detected_at_ns : Z;
}.

Section Checks.
Context {P BoundaryError : Type} `{CalendarSyntax} `{!ProcessController P BoundaryError}.
Notation Work := (SupervisorWork P BoundaryError).
Notation SupM := (Exec Work (SupervisorError BoundaryError)).
Notation WatchdogM := (Exec Work (WatchdogError BoundaryError)).

Definition active_in_generation (services : ServiceTable) (service : string) (generation : Z) : bool :=
  is_some_and (table_runtime services service) (λ runtime,
    bool_decide (runtime.(rt_state) = StActive) && bool_decide (runtime.(rt_generation) = generation)).

(** ** The watchdog is fed ([watchdog/notify.rs]) *)

Definition watchdog_notified (notify : NotifyApplyDispatch) (update : WatchdogUpdate) : SupervisorWatchdogNotifyDispatch :=
  {| wnd_service := notify.(nad_sender).(ns_service); wnd_generation := notify.(nad_sender).(ns_generation);
     wnd_outcome := update |}.

Definition on_watchdog {E} (f : WatchdogStore → WatchdogStore * WatchdogUpdate) : Exec Work E WatchdogUpdate :=
  λ w, let (store, update) := f w.(su_watchdog) in Some ({| w with su_watchdog := store |}, Ok update).

Definition apply_watchdog_keepalive (notify : NotifyApplyDispatch) (observed_at_ns : Z)
    : WatchdogM SupervisorWatchdogNotifyDispatch :=
  let sender := notify.(nad_sender) in
  active ← exec_get (λ w, active_in_generation (su_services w) sender.(ns_service) sender.(ns_generation));
  update ← (if active : bool
            then on_watchdog (reset_watchdog sender.(ns_service) sender.(ns_generation) observed_at_ns)
            else mret WdIgnored);
  mret (watchdog_notified notify update).

Definition apply_watchdog_interval_update (notify : NotifyApplyDispatch) (value : string) (observed_at_ns : Z)
    : WatchdogM SupervisorWatchdogNotifyDispatch :=
  let sender := notify.(nad_sender) in
  interval_usec ← exec_lift (ok_or (parse_u64 value) (WeInvalidRuntimeUpdate sender.(ns_service) value));
  runtime ← exec_get (λ w, table_runtime (su_services w) sender.(ns_service));
  active ← exec_get (λ w, active_in_generation (su_services w) sender.(ns_service) sender.(ns_generation));
  update ← match runtime with
           | Some runtime =>
               if active : bool
               then on_watchdog (update_watchdog_interval sender.(ns_service) sender.(ns_generation)
                      runtime.(rt_cgroup_generation) interval_usec observed_at_ns)
               else mret WdIgnored
           | None => mret WdIgnored
           end;
  mret (watchdog_notified notify update).

Definition apply_watchdog_notify_field (notify : NotifyApplyDispatch) (observed_at_ns : Z) (field : NotifyAppliedField)
    : WatchdogM (list SupervisorWatchdogNotifyDispatch) :=
  match field with
  | NaWatchdog => d ← apply_watchdog_keepalive notify observed_at_ns; mret [d]
  | NaWatchdogUsec value => d ← apply_watchdog_interval_update notify value observed_at_ns; mret [d]
  | _ => mret []
  end.

Definition apply_watchdog_notify_fields (notify : NotifyApplyDispatch) (observed_at_ns : Z)
    : WatchdogM (list SupervisorWatchdogNotifyDispatch) :=
  dispatches ← exec_each (apply_watchdog_notify_field notify observed_at_ns) notify.(nad_applied_fields);
  mret (mjoin dispatches).

(** ** The watchdog runs out ([watchdog/timeout.rs]) *)

Definition watchdog_transition_error (error : WatchdogTransitionError) : WatchdogError BoundaryError :=
  match error with
  | WdUnknownService service => WeUnknownService service
  | WdServiceTable error => WeServiceTable error
  end.

Definition stale_watchdog (deadline : WatchdogDeadline) (now_ns : Z) : SupervisorWatchdogTimeoutDispatch := {|
  wtd_service := deadline.(wdl_service); wtd_generation := deadline.(wdl_generation); wtd_job_event := None;
  wtd_outcome := WtStale; wtd_service_transitions := []; wtd_killed_cgroup_id := None; wtd_timed_out_at_ns := now_ns |}.

(** The running main job of a service, or [missing]. *)
Definition running_main_job {E} (service : string) (missing : E) (wrap : JobStoreError → E) : Exec Work E JobId :=
  found ← exec_get (λ w, current_service_main_job (su_jobs w) service);
  job_id ← exec_lift (ok_or found missing);
  job ← exec_get (λ w, (su_jobs w).(js_records) !! job_id);
  job ← exec_lift (ok_or job (wrap (UnknownJob job_id)));
  if bool_decide (job.(jr_job_type) ≠ JtServiceMain) || bool_decide (job.(jr_state) ≠ JsRunning)
  then exec_fail missing else mret job_id.

Definition time_watchdog_out (deadline : WatchdogDeadline) (definition : ServiceDefinition) (job_id : JobId)
    (now_ns : Z) : WatchdogM SupervisorWatchdogTimeoutDispatch :=
  let service := deadline.(wdl_service) in
  _ ← update_watchdog (cancel_watchdog service);
  let killed_cgroup_id := service_cgroup_root_path service deadline.(wdl_cgroup_generation) in
  _ ← sup_exec id (kill WeBoundary killed_cgroup_id);
  job_event ← sup_exec id (StartState.on_jobs WeJobStore
    (fail_running_job job_id now_ns (Some (Signal 9)) "watchdog timed out"));
  transition ← sup_exec id (exec_on xs_services set_services watchdog_transition_error
    (apply_watchdog_timeout_transition service definition now_ns));
  mret {| wtd_service := service; wtd_generation := deadline.(wdl_generation); wtd_job_event := Some job_event;
          wtd_outcome := if bool_decide (transition.(tt_event).(ev_to) = StBackoff) then WtRestartScheduled else WtFailed;
          wtd_service_transitions := [transition]; wtd_killed_cgroup_id := Some killed_cgroup_id;
          wtd_timed_out_at_ns := now_ns |}.

Definition process_watchdog_deadline_in_work (deadline : WatchdogDeadline) (now_ns : Z)
    : WatchdogM SupervisorWatchdogTimeoutDispatch :=
  let service := deadline.(wdl_service) in
  active ← exec_get (λ w, active_in_generation (su_services w) service deadline.(wdl_generation));
  if negb active then
    _ ← update_watchdog (cancel_watchdog service);
    mret (stale_watchdog deadline now_ns)
  else
    definition ← exec_get (λ w, table_definition (su_services w) service);
    definition ← exec_lift (ok_or definition (WeUnknownService service));
    job_id ← running_main_job service (WeMissingMainJob service) WeJobStore;
    time_watchdog_out deadline definition job_id now_ns.

Definition watchdog_critical_reboot_due (dispatch : SupervisorWatchdogTimeoutDispatch) (w : Work) : bool :=
  service_is_critical (su_services w) dispatch.(wtd_service) && existsb budget_exhausted dispatch.(wtd_service_transitions).

(** The dispatch, and whether a reboot is due. *)
Definition process_due_watchdog (settings : SupervisorSettings) (now_ns : Z) (deadline : WatchdogDeadline)
    : SupM (SupervisorWatchdogTimeoutDispatch * bool) :=
  dispatch ← exec_map_err SeWatchdog (process_watchdog_deadline_in_work deadline now_ns);
  reboot ← exec_get (watchdog_critical_reboot_due dispatch);
  _ ← (if reboot : bool then mret []
       else apply_relationship_reactions_after_transitions dispatch.(wtd_service_transitions) now_ns
              settings.(sst_max_parallel_starts));
  _ ← match dispatch.(wtd_killed_cgroup_id) with
      | Some cgroup_id => update_cleanup (record_cgroup_cleanup dispatch.(wtd_service) cgroup_id CkServiceTree now_ns
                            settings.(sst_post_kill_timeout_secs))
      | None => mret tt
      end;
  mret (dispatch, reboot).

Definition process_due_watchdog_timeouts (settings : SupervisorSettings) (now_ns : Z)
    : SupM (list SupervisorWatchdogTimeoutDispatch) :=
  sup_atomic (
    due ← exec_get (λ w, due_watchdog_deadlines now_ns w.(su_watchdog));
    dispatches ← exec_each (process_due_watchdog settings now_ns) due;
    _ ← commit_supervisor;
    _ ← match find_first snd dispatches with
        | Some (dispatch, _) =>
            note_deferred_critical_reboot dispatch.(wtd_service) TriggerWatchdogTimeout (Some now_ns)
        | None => mret tt
        end;
    mret (map fst dispatches)).

(** ** A health check is due ([health/interval/due.rs]) *)

Definition create_health_check_job (definition : ServiceDefinition) (activation_generation cgroup_generation now_ns : Z)
    : SupM JobEvent :=
  command ← exec_lift (ok_or definition.(sd_health_check) (SeHealth (HeUnknownService definition.(sd_name))));
  argv ← exec_lift (map_err (λ e, SeHealth (HeInvalidCommand definition.(sd_name) command e))
    (parse_executable_command command));
  ids ← sup_exec id (exec_on xs_job_ids set_job_ids (λ e, SeHealth (HeJobIdAllocation e))
    (λ n, allocate_batch n 1 now_ns));
  let job_id := default 0 (head ids) in
  job ← exec_lift (map_err (λ e, SeHealth (HeJobBuild e)) (new_health_check job_id {|
    hc_service := definition; hc_argv := argv; hc_resolved_identity := definition.(sd_identity);
    hc_token_summary := requested_identity definition.(sd_identity);
    hc_activation_generation := activation_generation; hc_cgroup_generation := cgroup_generation;
    hc_created_at_ns := now_ns |}));
  job_event ← sup_exec id (StartState.on_jobs (λ e, SeHealth (HeJobStore e)) (create_job job));
  _ ← update_health (λ store,
    (record_pending_invocation definition.(sd_name) activation_generation job_id job.(jr_cgroup_id) store).1);
  mret job_event.

Definition running_health_check (jobs : JobStore) (service : string) : option JobId :=
  find_first (λ job_id, is_some_and (jobs.(js_records) !! job_id)
    (λ job, bool_decide (job.(jr_job_type) = JtHealthCheck))) (active_jobs_for_service jobs service).

Definition process_due_health_check_interval (now_ns : Z) (deadline : HealthCheckIntervalDeadline)
    : SupM SupervisorHealthCheckIntervalDispatch :=
  let service := deadline.(hid_service) in
  let answer action : SupervisorHealthCheckIntervalDispatch := {| hci_service := service; hci_action := action |} in
  let cancelled action : SupM SupervisorHealthCheckIntervalDispatch :=
    _ ← update_health (cancel_health service); mret (answer action) in
  found ← exec_get (λ w, (table_definition (su_services w) service, table_runtime (su_services w) service));
  match found with
  | (Some definition, Some runtime) =>
      if bool_decide (runtime.(rt_generation) ≠ deadline.(hid_activation_generation)) ||
         bool_decide (runtime.(rt_state) ≠ StActive)
      then cancelled (HiSkippedState runtime.(rt_state))
      else if negb (health_enabled definition) then cancelled HiNotConfigured
      else
        _ ← update_health (schedule_interval service deadline.(hid_activation_generation)
          deadline.(hid_cgroup_generation) (seconds_after now_ns definition.(sd_health_check_interval_secs)));
        overlap ← exec_get (λ w, has_invocation w.(su_health) service deadline.(hid_activation_generation));
        if overlap : bool then
          job_id ← exec_get (λ w, running_health_check (su_jobs w) service);
          mret (answer (HiSkippedOverlap job_id))
        else
          job_event ← create_health_check_job definition deadline.(hid_activation_generation)
            deadline.(hid_cgroup_generation) now_ns;
          _ ← queue_created_health_check_job job_event;
          mret (answer (HiCreated job_event))
  | _ => cancelled HiNotConfigured
  end.

Definition process_due_health_check_intervals (now_ns : Z) : SupM (list SupervisorHealthCheckIntervalDispatch) :=
  sup_atomic (
    due ← exec_get (λ w, due_interval_deadlines now_ns w.(su_health));
    dispatches ← exec_each (process_due_health_check_interval now_ns) due;
    _ ← commit_supervisor;
    mret dispatches).

(** ** The launch of a health check ([health/launch.rs]) *)

Definition stale_pending_health_check (w : Work) (job_id : JobId) : bool :=
  match (su_jobs w).(js_records) !! job_id with
  | Some job =>
      match job.(jr_service) with
      | Some service =>
          negb (is_some_and (table_runtime (su_services w) service)
                  (λ runtime, bool_decide (runtime.(rt_state) = StActive))) ||
          negb (has_invocation w.(su_health) service job.(jr_activation_generation))
      | None => true
      end
  | None => true
  end.

Definition mark_health_invocation_running (job_id : JobId) (launched_at_ns : Z) : SupM unit :=
  timeout_secs ← exec_get (λ w,
    job ← (su_jobs w).(js_records) !! job_id; service ← job.(jr_service);
    definition ← table_definition (su_services w) service; Some definition.(sd_health_check_timeout_secs));
  timeout_secs ← exec_lift (ok_or timeout_secs (SeHealth (HeJobStore (UnknownJob job_id))));
  update_health (λ store, (mark_invocation_running job_id (seconds_after launched_at_ns timeout_secs) store).1).

(** ** A health check ends ([health/terminal_apply/], [health/escalation.rs]) *)

Definition health_error (error : ServiceTableError) : SupervisorError BoundaryError := SeHealth (HeServiceTable error).
Definition health_job_error (error : JobStoreError) : SupervisorError BoundaryError := SeHealth (HeJobStore error).

Definition health_check_succeeded (job_event : JobEvent) : bool :=
  match job_event.(je_detail) with
  | JevEnded _ _ (Some code) None None => code =? 0
  | _ => false
  end.

Definition validate_health_check_terminal (job_event : JobEvent) : Result unit (SupervisorError BoundaryError) :=
  if bool_decide (job_event.(je_job_type) ≠ JtHealthCheck) then
    Err (SeHealth (HeNotHealthCheckJob job_event.(je_job_id) job_event.(je_job_type)))
  else if negb (job_is_terminal job_event.(je_state)) then
    Err (SeHealth (HeNotTerminalJobEvent job_event.(je_job_id) job_event.(je_state)))
  else Ok tt.

Definition health_dispatch (job_event : JobEvent) (outcome : SupervisorHealthCheckOutcome)
    (service_transitions : list ServiceTableTransition) (killed_cgroup_id : string)
    : SupervisorHealthCheckTerminalDispatch := {|
  hct_job_event := job_event; hct_service_job_event := None; hct_outcome := outcome;
  hct_service_transitions := service_transitions; hct_killed_cgroup_id := killed_cgroup_id |}.

Definition apply_health_check_failure (job_event : JobEvent) (cgroup_id service : string)
    (definition : ServiceDefinition) (observed_at_ns : Z) : SupM SupervisorHealthCheckTerminalDispatch :=
  let retries := definition.(sd_health_check_retries) in
  failures ← sup_exec id (on_services health_error (record_health_failure service observed_at_ns));
  if failures <? retries then mret (health_dispatch job_event (HoUnhealthy failures retries) [] cgroup_id)
  else
    runtime ← exec_get (λ w, table_runtime (su_services w) service);
    runtime ← exec_lift (ok_or runtime (SeHealth (HeUnknownService service)));
    let evaluation := evaluate_restart_after_failure definition TcHealthCheckFailure None
                        runtime.(rt_consecutive_restart_failures) in
    _ ← update_health (cancel_health service);
    transition ← sup_exec id (on_services health_error (apply_evaluation service evaluation observed_at_ns));
    let outcome := match evaluation.(re_action) with
                   | EvalBackoff _ _ _ => HoRestartScheduled failures retries
                   | EvalFail _ _ => HoFailed failures retries
                   end in
    mret (health_dispatch job_event outcome [transition] cgroup_id).

Definition apply_health_check_terminal_in_work (job_event : JobEvent) (cgroup_id : string) (observed_at_ns : Z)
    : SupM SupervisorHealthCheckTerminalDispatch :=
  _ ← exec_lift (validate_health_check_terminal job_event);
  let stale := health_dispatch job_event HoStale [] cgroup_id in
  service ← exec_lift (ok_or job_event.(je_service) (SeHealth (HeMissingService job_event.(je_job_id))));
  invocation ← exec_get (λ w, (remove_invocation job_event.(je_job_id) w.(su_health)).2);
  _ ← update_health (λ store, (remove_invocation job_event.(je_job_id) store).1);
  found ← exec_get (λ w, (table_definition (su_services w) service, table_runtime (su_services w) service));
  match invocation, found with
  | Some _, (Some definition, Some runtime) =>
      if bool_decide (runtime.(rt_state) ≠ StActive) then mret stale
      else if health_check_succeeded job_event then
        _ ← sup_exec id (on_services health_error (record_health_success service observed_at_ns));
        mret (health_dispatch job_event HoHealthy [] cgroup_id)
      else apply_health_check_failure job_event cgroup_id service definition observed_at_ns
  | _, _ => mret stale
  end.

Definition health_outcome_requires_service_termination (outcome : SupervisorHealthCheckOutcome) : bool :=
  match outcome with HoRestartScheduled _ _ | HoFailed _ _ => true | _ => false end.

Definition terminate_service_after_health_escalation (settings : SupervisorSettings)
    (terminal : SupervisorHealthCheckTerminalDispatch) (service : string) (cgroup_generation now_ns : Z)
    : SupM SupervisorHealthCheckTerminalDispatch :=
  if negb (health_outcome_requires_service_termination terminal.(hct_outcome)) then mret terminal
  else
    let service_cgroup_id := service_cgroup_root_path service cgroup_generation in
    _ ← sup_exec id (kill (λ e, SeHealth (HeBoundary e)) service_cgroup_id);
    job_id ← running_main_job service (SeHealth (HeMissingMainJob service)) health_job_error;
    job_event ← sup_exec id (StartState.on_jobs health_job_error
      (fail_running_job job_id now_ns (Some (Signal 9)) "health check failed"));
    _ ← update_cleanup (record_cgroup_cleanup service service_cgroup_id CkServiceTree now_ns
          settings.(sst_post_kill_timeout_secs));
    mret {| terminal with hct_service_job_event := Some job_event |}.

Definition health_critical_reboot_due (dispatch : SupervisorHealthCheckTerminalDispatch) (w : Work) : bool :=
  match dispatch.(hct_job_event).(je_service) with
  | None => false
  | Some service => service_is_critical (su_services w) service && existsb budget_exhausted dispatch.(hct_service_transitions)
  end.

(** What follows the end of a check: the watchdog, and the reactions unless a
    reboot is due. *)
Definition follow_health_check (settings : SupervisorSettings) (terminal : SupervisorHealthCheckTerminalDispatch)
    (observed_at_ns : Z) : SupM bool :=
  _ ← apply_watchdog_scheduling_after_transitions terminal.(hct_service_transitions) observed_at_ns;
  reboot ← exec_get (health_critical_reboot_due terminal);
  _ ← (if reboot : bool then mret []
       else apply_relationship_reactions_after_transitions terminal.(hct_service_transitions) observed_at_ns
              settings.(sst_max_parallel_starts));
  mret reboot.

Definition note_health_reboot (terminal : SupervisorHealthCheckTerminalDispatch) (observed_at_ns : option Z) : SupM unit :=
  match terminal.(hct_job_event).(je_service) with
  | Some service => note_deferred_critical_reboot service TriggerHealthCheckFailure observed_at_ns
  | None => mret tt
  end.

(** *** Its process ended ([health/terminal.rs]) *)
Definition apply_health_check_terminal_job_event (settings : SupervisorSettings) (job_id : JobId) (observed_at_ns : Z)
    (finish : JobStore → JobResult JobEvent) : SupM SupervisorHealthCheckTerminalDispatch :=
  sup_atomic (
    job ← exec_get (λ w, (su_jobs w).(js_records) !! job_id);
    job ← exec_lift (ok_or job (health_job_error (UnknownJob job_id)));
    let cgroup_id := job.(jr_cgroup_id) in
    job_event ← sup_exec id (StartState.on_jobs health_job_error finish);
    _ ← sup_exec id (kill (λ e, SeHealth (HeBoundary e)) cgroup_id);
    terminal ← apply_health_check_terminal_in_work job_event cgroup_id observed_at_ns;
    terminal ← match job.(jr_service) with
               | Some service => terminate_service_after_health_escalation settings terminal service
                                   job.(jr_cgroup_generation) observed_at_ns
               | None => mret terminal
               end;
    reboot ← follow_health_check settings terminal observed_at_ns;
    _ ← match job.(jr_service) with
        | Some service => update_cleanup (record_cgroup_cleanup service cgroup_id CkHealth observed_at_ns
                            settings.(sst_post_kill_timeout_secs))
        | None => mret tt
        end;
    _ ← commit_supervisor;
    _ ← (if reboot : bool then note_health_reboot terminal terminal.(hct_job_event).(je_ended_at_ns) else mret tt);
    mret terminal).

(** *** It never ran, or takes too long ([terminal_apply/fail_job.rs], [health/timeout.rs]) *)

Definition fail_launched_health_check_in_work (job_id : JobId) (failed_at_ns : Z) (reason : string)
    : SupM SupervisorHealthCheckTerminalDispatch :=
  job ← exec_get (λ w, (su_jobs w).(js_records) !! job_id);
  job ← exec_lift (ok_or job (health_job_error (UnknownJob job_id)));
  job_event ← sup_exec id (StartState.on_jobs health_job_error (fail_job_before_start job_id failed_at_ns reason));
  _ ← update_health (λ store, (remove_invocation job_id store).1);
  mret (health_dispatch job_event HoNotLaunched [] job.(jr_cgroup_id)).

Definition fail_created_health_check_in_work (job_id : JobId) (failed_at_ns : Z) (reason : string)
    : SupM SupervisorHealthCheckTerminalDispatch :=
  job ← exec_get (λ w, (su_jobs w).(js_records) !! job_id);
  job ← exec_lift (ok_or job (health_job_error (UnknownJob job_id)));
  job_event ← sup_exec id (StartState.on_jobs health_job_error (fail_job_before_start job_id failed_at_ns reason));
  apply_health_check_terminal_in_work job_event job.(jr_cgroup_id) failed_at_ns.

Definition fail_timed_out_health_check_in_work (job_id : JobId) (now_ns : Z)
    : SupM SupervisorHealthCheckTerminalDispatch :=
  job ← exec_get (λ w, (su_jobs w).(js_records) !! job_id);
  job ← exec_lift (ok_or job (health_job_error (UnknownJob job_id)));
  job_event ← sup_exec id (StartState.on_jobs health_job_error
    match job.(jr_state) with
    | JsCreated => fail_job_before_start job_id now_ns "health check timed out before launch"
    | _ => fail_running_job job_id now_ns (Some (Signal 9)) "health check timed out"
    end);
  apply_health_check_terminal_in_work job_event job.(jr_cgroup_id) now_ns.

Definition process_due_health_check_timeout (settings : SupervisorSettings) (now_ns : Z)
    (deadline : HealthCheckTimeoutDeadline) : SupM (SupervisorHealthCheckTerminalDispatch * bool) :=
  _ ← sup_exec id (kill (λ e, SeHealth (HeBoundary e)) deadline.(htd_health_cgroup_id));
  terminal ← fail_timed_out_health_check_in_work deadline.(htd_job_id) now_ns;
  terminal ← terminate_service_after_health_escalation settings terminal deadline.(htd_service)
    deadline.(htd_cgroup_generation) now_ns;
  reboot ← follow_health_check settings terminal now_ns;
  _ ← update_cleanup (record_cgroup_cleanup deadline.(htd_service) deadline.(htd_health_cgroup_id) CkHealth now_ns
        settings.(sst_post_kill_timeout_secs));
  mret (terminal, reboot).

Definition process_due_health_check_timeouts (settings : SupervisorSettings) (now_ns : Z)
    : SupM (list SupervisorHealthCheckTerminalDispatch) :=
  sup_atomic (
    due ← exec_get (λ w, due_timeout_deadlines now_ns w.(su_health));
    dispatches ← exec_each (process_due_health_check_timeout settings now_ns) due;
    _ ← commit_supervisor;
    _ ← match find_first snd dispatches with
        | Some (terminal, _) => note_health_reboot terminal (Some now_ns)
        | None => mret tt
        end;
    mret (map fst dispatches)).

(** ** Control groups whose period of grace is over ([cgroup_cleanup/process.rs], [stop_main.rs]) *)

Definition record_leak_in_work (service cgroup_id : string) (kind : LeakedCgroupKind) (now_ns : Z)
    : SupM (list SupervisorLeakedCgroupDispatch) :=
  recorded ← sup_services (record_leaked_cgroup service cgroup_id kind now_ns);
  mret (if recorded : bool then
          [{| slc_service := service; slc_path := cgroup_id; slc_kind := kind; slc_detected_at_ns := now_ns |}]
        else []).

Definition busy_cgroup_kind (cgroup_id : string) : LeakedCgroupKind :=
  match path_file_name cgroup_id with
  | Some name => if bool_decide (name = "hooks") then LkHooks
                 else if bool_decide (name = "health") then LkHealth else LkServiceTree
  | None => LkServiceTree
  end.

Definition sup_cleanup_tree (root_cgroup_id : string) : SupM (list string) :=
  outcomes ← exec_each (λ cgroup_id,
    outcome ← sup_exec id (exec_on xs_controller set_controller SeProcessControl (remove_cgroup cgroup_id));
    mret (cgroup_id, outcome)) (service_cgroup_cleanup_order root_cgroup_id);
  mret (map fst (retain (λ '(_, outcome), match outcome with CgBusy => true | _ => false end) outcomes)).

Definition record_busy_cgroups (service : string) (busy : list string) (now_ns : Z)
    : SupM (list SupervisorLeakedCgroupDispatch) :=
  leaks ← exec_each (λ cgroup_id, record_leak_in_work service cgroup_id (busy_cgroup_kind cgroup_id) now_ns) busy;
  mret (mjoin leaks).

(** Whether the next instance of the service is in the tree. *)
Definition service_tree_back_in_use (w : Work) (deadline : CgroupCleanupDeadline) : bool :=
  match deadline.(ccd_kind) with
  | CkServiceTree =>
      is_some_and (job_id ← current_service_main_job (su_jobs w) deadline.(ccd_service);
                   (su_jobs w).(js_records) !! job_id) (λ job,
        match job.(jr_state) with JsCreated | JsRunning => true | _ => false end &&
        (bool_decide (job.(jr_cgroup_id) = deadline.(ccd_cgroup_id)) ||
         bool_decide (parent_cgroup_path job.(jr_cgroup_id) = Some deadline.(ccd_cgroup_id))))
  | _ => false
  end.

Definition STOP_POST_KILL_TIMEOUT_RESULT : string := "service cgroup remained populated after SIGKILL".

Definition follow_stop_main (settings : SupervisorSettings) (transition : ServiceTableTransition) (now_ns : Z)
    : SupM unit :=
  _ ← apply_health_scheduling_after_transitions [transition] now_ns;
  _ ← apply_watchdog_scheduling_after_transitions [transition] now_ns;
  _ ← apply_relationship_reactions_after_transitions [transition] now_ns settings.(sst_max_parallel_starts);
  mret tt.

Definition apply_stop_main_abandoned (settings : SupervisorSettings) (service root_cgroup_id : string)
    (operation_id : OperationId) (now_ns : Z) : SupM (list SupervisorLeakedCgroupDispatch) :=
  stopping ← exec_get (λ w, is_some_and (table_runtime (su_services w) service)
                              (λ runtime, bool_decide (runtime.(rt_state) = StStopping)));
  if negb stopping then mret []
  else
    clears ← exec_get (λ w, is_some_and ((su_operations w).(op_records) !! operation_id)
                              explicit_stop_record_clears_fd_store);
    leaks ← record_leak_in_work service root_cgroup_id LkServiceTree now_ns;
    transition ← sup_services (transition_service service {| st_to := StAbandoned; st_cause := TcProcessUnkillable |});
    _ ← update_control_store (λ store, (take_restart_stop_leg operation_id store).1);
    live ← exec_get (λ w, operation_lives (su_operations w) operation_id);
    _ ← (if live : bool then
           _ ← sup_operations (fail_operation operation_id now_ns
                                 (operation_timeout_result STOP_POST_KILL_TIMEOUT_RESULT));
           mret tt
         else mret tt);
    _ ← (if clears : bool then update_fd_store (clear_service service) else mret tt);
    _ ← follow_stop_main settings transition now_ns;
    mret leaks.

Definition begin_restart_start_after_post_kill (service : string) (operation_id : OperationId) (now_ns : Z)
    (definition_removed : bool) : SupM (list RestartStartExecutionDispatch) :=
  leg ← exec_get (λ w, (take_restart_stop_leg operation_id (su_control w).(cx_control)).2);
  _ ← update_control_store (λ store, (take_restart_stop_leg operation_id store).1);
  match leg with
  | None => mret []
  | Some _ =>
      if definition_removed then
        _ ← sup_operations (abort_operation operation_id now_ns RESTART_DEFINITION_REMOVED);
        mret []
      else start_restart_leg service operation_id now_ns
  end.

Definition apply_stop_main_empty (settings : SupervisorSettings) (service : string) (operation_id : OperationId)
    (now_ns : Z) : SupM (list RestartStartExecutionDispatch) :=
  runtime ← exec_get (λ w, table_runtime (su_services w) service);
  match runtime with
  | None => mret []
  | Some runtime =>
      if bool_decide (runtime.(rt_state) ≠ StStopping) then mret []
      else
        operation ← exec_get (λ w, (su_operations w).(op_records) !! operation_id);
        transition ← sup_services (transition_service service
          {| st_to := shutdown_stopped_state runtime.(rt_cause); st_cause := shutdown_stopped_cause runtime.(rt_cause) |});
        _ ← follow_stop_main settings transition now_ns;
        match operation with
        | None => mret []
        | Some operation =>
            match operation.(or_operation_type) with
            | OpStop =>
                _ ← (if op_is_terminal operation.(or_state) then mret tt
                     else _ ← sup_operations (complete_operation operation_id now_ns "inactive"); mret tt);
                _ ← (if explicit_stop_record_clears_fd_store operation then update_fd_store (clear_service service)
                     else mret tt);
                mret []
            | OpRestart =>
                begin_restart_start_after_post_kill service operation_id now_ns
                  transition.(tt_discarded_definition_removed)
            | _ => mret []
            end
        end
  end.

Definition process_populated_cgroup_cleanup (settings : SupervisorSettings) (deadline : CgroupCleanupDeadline)
    (now_ns : Z) : SupM (list SupervisorLeakedCgroupDispatch) :=
  let leaked kind := record_leak_in_work deadline.(ccd_service) deadline.(ccd_cgroup_id) kind now_ns in
  match deadline.(ccd_kind) with
  | CkHooks => leaked LkHooks
  | CkHealth => leaked LkHealth
  | CkHelper => leaked LkHelper
  | CkServiceTree => leaked LkServiceTree
  | CkStopMain operation_id root_cgroup_id =>
      apply_stop_main_abandoned settings deadline.(ccd_service) root_cgroup_id operation_id now_ns
  end.

Definition process_empty_cgroup_cleanup (settings : SupervisorSettings) (deadline : CgroupCleanupDeadline) (now_ns : Z)
    : SupM (list SupervisorLeakedCgroupDispatch * list RestartStartExecutionDispatch) :=
  match deadline.(ccd_kind) with
  | CkHooks | CkHealth | CkHelper =>
      _ ← sup_exec id (exec_on xs_controller set_controller SeProcessControl (remove_cgroup deadline.(ccd_cgroup_id)));
      mret ([], [])
  | CkServiceTree =>
      busy ← sup_cleanup_tree deadline.(ccd_cgroup_id);
      leaks ← record_busy_cgroups deadline.(ccd_service) busy now_ns;
      mret (leaks, [])
  | CkStopMain operation_id root_cgroup_id =>
      busy ← sup_cleanup_tree root_cgroup_id;
      leaks ← record_busy_cgroups deadline.(ccd_service) busy now_ns;
      restarts ← apply_stop_main_empty settings deadline.(ccd_service) operation_id now_ns;
      mret (leaks, restarts)
  end.

(** A stop that is over, or no longer the one under way, has nothing to clean. *)
Definition stop_main_superseded (w : Work) (deadline : CgroupCleanupDeadline) : bool :=
  match deadline.(ccd_kind) with
  | CkStopMain operation_id _ =>
      negb (is_some_and (current_for_service (su_operations w) deadline.(ccd_service)) (λ operation,
              bool_decide (operation.(or_id) = operation_id) && negb (op_is_terminal operation.(or_state)))) ||
      negb (is_some_and (table_runtime (su_services w) deadline.(ccd_service))
              (λ runtime, bool_decide (runtime.(rt_state) = StStopping)))
  | _ => false
  end.

(** Whether the deadline was still there, the leaks and the start legs. *)
Definition process_cgroup_cleanup (settings : SupervisorSettings) (now_ns : Z) (due : CgroupCleanupDeadline)
    : SupM (bool * (list SupervisorLeakedCgroupDispatch * list RestartStartExecutionDispatch)) :=
  removed ← exec_get (λ w, (remove_cleanup due.(ccd_cgroup_id) w.(su_cgroup_cleanup)).2);
  _ ← update_cleanup (λ store, (remove_cleanup due.(ccd_cgroup_id) store).1);
  match removed with
  | None => mret (false, ([], []))
  | Some deadline =>
      idle ← exec_get (λ w, stop_main_superseded w deadline || service_tree_back_in_use w deadline);
      if idle : bool then mret (true, ([], []))
      else
        populated ← sup_exec id (exec_on xs_controller set_controller SeProcessControl
          (cgroup_populated deadline.(ccd_cgroup_id)));
        if populated : bool then
          leaks ← process_populated_cgroup_cleanup settings deadline now_ns;
          mret (true, (leaks, []))
        else
          result ← process_empty_cgroup_cleanup settings deadline now_ns;
          mret (true, result)
  end.

Definition process_due_cgroup_cleanups (settings : SupervisorSettings) (now_ns : Z)
    : SupM (option (list SupervisorLeakedCgroupDispatch)) :=
  due ← exec_get (λ w, due_cleanup_deadlines now_ns w.(su_cgroup_cleanup));
  match due with
  | [] => mret None
  | _ =>
      sup_atomic (
        results ← exec_each (process_cgroup_cleanup settings now_ns) due;
        _ ← queue_restart_start_dispatches (mjoin (map (λ r, r.2.2) results));
        _ ← commit_supervisor;
        mret (then_some (existsb fst results) (mjoin (map (λ r, r.2.1) results))))
  end.
End Checks.
