(* ===== verification/SupervisorStarts.v ===== *)
(** * Starts and reloads under way

    Models the supervisor's transactions for what comes back from a start or a
    reload: hooks before the start that end or run out of time
    ([src/src/supervisor/start_hooks.rs]), the helper that checks the filesystem
    ([pre_start_checks.rs]), hooks after the start ([post_start_hooks/]), and
    reloads by command or by signal ([control/reload/]).

    The launch of a hook is in [SupervisorLaunch]. The launcher
    of the filesystem helper is the class [FilesystemCheckHelperLauncher]. *)

From S2P Require Import Prelude RustStr ServiceRuntime ServiceDef Ids Restart Cgroup ServiceTable Calendar Tty Shutdown.
From S2P Require Import OperationRecord OperationStore ExecCommand StartPlan Lifecycle JobRecord JobStore SubmittedRun.
From S2P Require Import Effects ExecGraph StartState StartBegin StartRun MainProcess Release.
From S2P Require Import ControlRun Notify ShutdownRun SupWork Relationships SupervisorRun.
From Stdlib Require Import String.
Open Scope string_scope.
Open Scope list_scope.
Open Scope Z_scope.

(** [str::ends_with]. *)
Fixpoint ends_with (suffix s : string) : bool :=
  bool_decide (s = suffix) || match s with EmptyString => false | String _ s => ends_with suffix s end.

(** ** The filesystem helper's launcher *)

Record FilesystemCheckHelperRequest : Type := {
  fhr_service : string;
  fhr_operation_id : OperationId;
  fhr_cgroup_id : string;
  fhr_checks : list ServiceCheck;
}.

Class FilesystemCheckHelperLauncher (L BoundaryError : Type) : Type := {
  launch_filesystem_check_helper : FilesystemCheckHelperRequest → L → L * Result LaunchedFilesystemCheckHelper BoundaryError;
}.

(** ** Dispatches *)

Record SupervisorPreStartHookTerminalDispatch : Type := {
  pht_terminal : HookTerminalDispatch;
  pht_start_dispatches : list StartExecutionDispatch;
}.

Record SupervisorPreStartHookTimeoutDispatch : Type := {
  pho_timeout : StartTimeoutDispatch;
  pho_start_dispatches : list StartExecutionDispatch;
}.

Record SupervisorPostStartHookTerminalDispatch : Type := {
  qht_terminal : HookTerminalDispatch;
  qht_start_dispatches : list StartExecutionDispatch;
}.

Record SupervisorPostStartHookTimeoutDispatch : Type := {
  qho_timeout : StartTimeoutDispatch;
  qho_start_dispatches : list StartExecutionDispatch;
}.

Record SupervisorFilesystemCheckCompletionDispatch : Type := {
  fcc_completion : PreStartCheckCompletionDispatch;
  fcc_start_dispatches : list StartExecutionDispatch;
}.

Record SupervisorFilesystemCheckTimeoutDispatch : Type := {
  fct_timeout : PreStartCheckTimeoutDispatch;
  fct_start_dispatches : list StartExecutionDispatch;
}.

Section Starts.
Context {P BoundaryError : Type} `{CalendarSyntax} `{!ProcessController P BoundaryError}.
Notation Work := (SupervisorWork P BoundaryError).
Notation SupM := (Exec Work (SupervisorError BoundaryError)).

Definition su_start (w : Work) : StartExecutionStore := (su_exec w).(xs_start).

(** [queue_created_start_job] of [work.rs]. *)
Definition queue_created_start_job {E} (event : JobEvent) : Exec Work E unit :=
  exec_update (λ w,
    let work := w.(su_shutdown_work) in
    match event.(je_job_type) with
    | JtServiceMain => set_su_shutdown_work {| work with
        sw_pending_launches := work.(sw_pending_launches) ++ [event.(je_job_id)] |} w
    | JtPreExecHook => set_su_shutdown_work {| work with
        sw_pending_start_hook_launches := work.(sw_pending_start_hook_launches) ++ [event.(je_job_id)] |} w
    | _ => w
    end).

Definition queue_if_created (event : option JobEvent) (queue : JobEvent → SupM unit) : SupM unit :=
  match event with Some event => queue event | None => mret tt end.

(** What reacts to the transitions, then what the graph released. *)
Definition react_and_release (settings : SupervisorSettings) (transitions : list ServiceTableTransition)
    (graph_events : list GraphExecutionEvent) (observed_at_ns : Z) : SupM (list StartExecutionDispatch) :=
  let slots := settings.(sst_max_parallel_starts) in
  reactions ← apply_relationship_reactions_after_transitions transitions observed_at_ns slots;
  released ← sup_release (release_after_graph_events graph_events slots observed_at_ns);
  mret (reactions ++ released).

Definition record_cleanup_in_work (settings : SupervisorSettings) (service cgroup_id : string) (kind : CgroupCleanupKind)
    (at_ns : Z) : SupM unit :=
  update_cleanup (record_cgroup_cleanup service cgroup_id kind at_ns settings.(sst_post_kill_timeout_secs)).

(** ** Hooks before the start ([start_hooks.rs]) *)

Definition record_pre_start_hook_cleanup (settings : SupervisorSettings) (service cgroup_id : string)
    (observed_at_ns : Z) : SupM unit :=
  if ends_with "/hooks" cgroup_id then record_cleanup_in_work settings service cgroup_id CkHooks observed_at_ns
  else
    _ ← record_cleanup_in_work settings service (cgroup_id +:+ "/hooks") CkHooks observed_at_ns;
    record_cleanup_in_work settings service cgroup_id CkServiceTree observed_at_ns.

(** A kill that names its service is followed by a clean-up. *)
Definition cleanup_after_kill (killed service : option string) (cleanup : string → string → SupM unit) : SupM unit :=
  match killed, service with
  | Some cgroup_id, Some service => cleanup service cgroup_id
  | _, _ => mret tt
  end.

Definition apply_pre_start_hook_terminal_job_event (settings : SupervisorSettings) (finish : JobStore → JobResult JobEvent)
    (observed_at_ns : Z) : SupM SupervisorPreStartHookTerminalDispatch :=
  sup_atomic (
    job_event ← sup_jobs finish;
    terminal ← sup_exec SeStarting (complete_pre_start_hook_job job_event);
    _ ← queue_if_created terminal.(StartRun.htd_next_job_event) queue_created_start_job;
    starts ← react_and_release settings terminal.(StartRun.htd_service_transitions) terminal.(htd_graph_events)
      observed_at_ns;
    _ ← cleanup_after_kill terminal.(htd_killed_cgroup_id) terminal.(StartRun.htd_job_event).(je_service)
      (λ service cgroup_id, record_pre_start_hook_cleanup settings service cgroup_id observed_at_ns);
    _ ← commit_supervisor;
    mret {| pht_terminal := terminal; pht_start_dispatches := starts |}).

Definition sup_complete_pre_start_hook_job (settings : SupervisorSettings) (job_id : JobId) (ended_at_ns exit_code : Z)
    : SupM SupervisorPreStartHookTerminalDispatch :=
  apply_pre_start_hook_terminal_job_event settings (complete_job job_id ended_at_ns exit_code) ended_at_ns.

Definition fail_running_pre_start_hook_job (settings : SupervisorSettings) (job_id : JobId) (ended_at_ns : Z)
    (exit : option JobExit) (failure_cause : string) : SupM SupervisorPreStartHookTerminalDispatch :=
  apply_pre_start_hook_terminal_job_event settings (fail_running_job job_id ended_at_ns exit failure_cause) ended_at_ns.

Definition process_next_due_pre_start_hook_timeout (settings : SupervisorSettings) (now_ns : Z)
    : SupM (option SupervisorPreStartHookTimeoutDispatch) :=
  due ← exec_get (λ w, min_by (due_le hd_due_at_ns hd_service) (due_pre_start_hook_deadlines now_ns (su_start w)));
  match due with
  | None => mret None
  | Some deadline =>
      sup_atomic (
        timeout ← sup_exec SeStarting (timeout_pre_start_hook deadline now_ns);
        starts ← react_and_release settings timeout.(tod_service_transitions) timeout.(tod_graph_events) now_ns;
        _ ← record_cleanup_in_work settings deadline.(hd_service) deadline.(hd_hooks_cgroup_id) CkHooks now_ns;
        _ ← record_cleanup_in_work settings deadline.(hd_service) deadline.(hd_service_cgroup_id) CkServiceTree now_ns;
        _ ← commit_supervisor;
        mret (Some {| pho_timeout := timeout; pho_start_dispatches := starts |}))
  end.

(** ** The filesystem helper ([pre_start_checks.rs]) *)

Definition launch_next_pending_filesystem_check_helper {L} `{!FilesystemCheckHelperLauncher L BoundaryError}
    (launcher : L) (launched_at_ns : Z) (w : Work)
    : Work * L * Result (option LaunchedFilesystemCheckHelper) (SupervisorError BoundaryError) :=
  let (start, popped) := pop_pending_pre_start_check_launch (su_start w) in
  match popped with
  | None => (w, launcher, Ok None)
  | Some pending =>
      match launch_filesystem_check_helper
              {| fhr_service := pending.(pc_service); fhr_operation_id := pending.(pc_operation_id);
                 fhr_cgroup_id := pending_helper_cgroup_id pending; fhr_checks := pending.(pc_checks) |} launcher with
      | (launcher, Err error) => (w, launcher, Err (SeFilesystemCheck error))
      | (launcher, Ok helper) =>
          let start := (record_running_pre_start_check_helper helper launched_at_ns start).1 in
          (sup_commit (set_su_exec (set_start start (su_exec w)) w), launcher, Ok (Some helper))
      end
  end.

(** The starts a completed check lets go: the context it belongs to comes last. *)
Definition starts_after_check (settings : SupervisorSettings) (completion : PreStartCheckCompletionDispatch)
    (observed_at_ns : Z) : SupM (list StartExecutionDispatch) :=
  _ ← queue_if_created completion.(pcd_job_event) queue_created_start_job;
  starts ← react_and_release settings completion.(pcd_service_transitions) completion.(pcd_graph_events) observed_at_ns;
  contexts ← sup_release (release_after_graph_context_ids completion.(pcd_graph_context_ids)
    settings.(sst_max_parallel_starts) observed_at_ns);
  mret (starts ++ contexts).

Definition complete_filesystem_check_helper (settings : SupervisorSettings) (result_fd : Z)
    (report : FilesystemCheckReport) (observed_at_ns : Z) : SupM SupervisorFilesystemCheckCompletionDispatch :=
  sup_atomic (
    completion ← sup_exec SeStarting (complete_pre_start_check_helper result_fd report);
    starts ← starts_after_check settings completion observed_at_ns;
    _ ← commit_supervisor;
    mret {| fcc_completion := completion; fcc_start_dispatches := starts |}).

Definition process_due_filesystem_check_timeout (settings : SupervisorSettings) (operation_id : OperationId) (now_ns : Z)
    : SupM (option SupervisorFilesystemCheckTimeoutDispatch) :=
  due ← exec_get (λ w, find_first (λ deadline, bool_decide (deadline.(cd_operation_id) = operation_id))
    (due_pre_start_check_deadlines now_ns (su_start w)));
  match due with
  | None => mret None
  | Some deadline =>
      sup_atomic (
        timeout ← sup_exec SeStarting (timeout_pre_start_check_helper deadline now_ns);
        starts ← starts_after_check settings timeout.(pct_completion) now_ns;
        _ ← record_cleanup_in_work settings deadline.(cd_service) deadline.(cd_helper_cgroup_id) CkHelper now_ns;
        _ ← commit_supervisor;
        mret (Some {| fct_timeout := timeout; fct_start_dispatches := starts |}))
  end.

(** ** Hooks after the start ([post_start_hooks/]) *)

Definition complete_post_start_hook_in_work (job_event : JobEvent) : SupM HookTerminalDispatch :=
  terminal ← sup_exec SeStarting (complete_post_start_hook_job job_event);
  _ ← queue_if_created terminal.(StartRun.htd_next_job_event) queue_created_post_hook_job;
  mret terminal.

Definition schedule_after_post_start_service (service : string) (observed_at_ns : Z) : SupM unit :=
  _ ← apply_health_scheduling_after_post_start service observed_at_ns;
  apply_watchdog_scheduling_after_post_start service observed_at_ns.

Definition schedule_after_final_post_start_hook (terminal : HookTerminalDispatch) (observed_at_ns : Z) : SupM unit :=
  cleanup_after_kill terminal.(htd_killed_cgroup_id) terminal.(StartRun.htd_job_event).(je_service)
    (λ service _, schedule_after_post_start_service service observed_at_ns).

Definition apply_post_start_hook_terminal_job_event (settings : SupervisorSettings)
    (finish : JobStore → JobResult JobEvent) (observed_at_ns : Z) : SupM SupervisorPostStartHookTerminalDispatch :=
  sup_atomic (
    job_event ← sup_jobs finish;
    terminal ← complete_post_start_hook_in_work job_event;
    starts ← react_and_release settings terminal.(StartRun.htd_service_transitions) terminal.(htd_graph_events)
      observed_at_ns;
    _ ← schedule_after_final_post_start_hook terminal observed_at_ns;
    _ ← cleanup_after_kill terminal.(htd_killed_cgroup_id) terminal.(StartRun.htd_job_event).(je_service)
      (λ service cgroup_id, record_cleanup_in_work settings service cgroup_id CkHooks observed_at_ns);
    _ ← commit_supervisor;
    mret {| qht_terminal := terminal; qht_start_dispatches := starts |}).

Definition sup_complete_post_start_hook_job (settings : SupervisorSettings) (job_id : JobId) (ended_at_ns exit_code : Z)
    : SupM SupervisorPostStartHookTerminalDispatch :=
  apply_post_start_hook_terminal_job_event settings (complete_job job_id ended_at_ns exit_code) ended_at_ns.

Definition fail_running_post_start_hook_job (settings : SupervisorSettings) (job_id : JobId) (ended_at_ns : Z)
    (exit : option JobExit) (failure_cause : string) : SupM SupervisorPostStartHookTerminalDispatch :=
  apply_post_start_hook_terminal_job_event settings (fail_running_job job_id ended_at_ns exit failure_cause) ended_at_ns.

Definition process_next_due_post_start_hook_timeout (settings : SupervisorSettings) (now_ns : Z)
    : SupM (option SupervisorPostStartHookTimeoutDispatch) :=
  due ← exec_get (λ w, min_by (due_le qd_due_at_ns qd_service) (due_post_start_hook_deadlines now_ns (su_start w)));
  match due with
  | None => mret None
  | Some deadline =>
      sup_atomic (
        timeout ← sup_exec SeStarting (timeout_post_start_hook deadline now_ns);
        _ ← exec_update (λ w, let work := w.(su_shutdown_work) in
          set_su_shutdown_work {| work with sw_pending_post_hook_launches :=
            retain (λ job_id, negb (bool_decide (job_id = deadline.(qd_job_id)))) work.(sw_pending_post_hook_launches) |} w);
        starts ← react_and_release settings timeout.(tod_service_transitions) timeout.(tod_graph_events) now_ns;
        _ ← schedule_after_post_start_service deadline.(qd_service) now_ns;
        _ ← record_cleanup_in_work settings deadline.(qd_service) deadline.(qd_hooks_cgroup_id) CkHooks now_ns;
        _ ← commit_supervisor;
        mret (Some {| qho_timeout := timeout; qho_start_dispatches := starts |}))
  end.

(** ** Reloads ([control/reload/]) *)

(** What follows the transition that ends a reload. *)
Definition follow_reload (settings : SupervisorSettings) (transition : ServiceTableTransition) (at_ns : Z) : SupM unit :=
  _ ← apply_health_scheduling_after_transitions [transition] at_ns;
  _ ← apply_watchdog_scheduling_after_transitions [transition] at_ns;
  _ ← apply_relationship_reactions_after_transitions [transition] at_ns settings.(sst_max_parallel_starts);
  mret tt.

Definition process_reload_detection_window (settings : SupervisorSettings) (now_ns : Z) (deadline : ReloadDetectionDeadline)
    : SupM ReloadDetectionCompletion :=
  completion ← sup_control SeControl (complete_reload_detection_window deadline now_ns);
  _ ← follow_reload settings completion.(rdc_service_transition) now_ns;
  mret completion.

Definition process_due_reload_detection_windows (settings : SupervisorSettings) (now_ns : Z)
    : SupM (list ReloadDetectionCompletion) :=
  sup_atomic (
    due ← exec_get (λ w, due_reload_detection_deadlines now_ns (su_control w).(cx_control));
    dispatches ← exec_each (process_reload_detection_window settings now_ns) due;
    _ ← commit_supervisor;
    mret dispatches).

Definition reload_terminal_event_time (job_event : JobEvent) : SupM Z :=
  match job_event.(je_detail) with
  | JevEnded ended_at_ns _ _ _ _ => mret ended_at_ns
  | _ => exec_fail (SeControl (CeNotTerminalJobEvent job_event.(je_job_id) job_event.(je_state)))
  end.

Definition apply_reload_command_terminal_job_event (settings : SupervisorSettings) (job_id : JobId)
    (finish : JobStore → JobResult JobEvent) : SupM ReloadCommandTerminalDispatch :=
  sup_atomic (
    job ← sup_exec id (require (SeJobs (UnknownJob job_id)) (λ s, s.(xs_jobs).(js_records) !! job_id));
    job_event ← sup_jobs finish;
    terminal ← sup_control SeControl (complete_reload_command_job job_event);
    event_time ← reload_terminal_event_time terminal.(rct_job_event);
    _ ← follow_reload settings terminal.(rct_service_transition) event_time;
    _ ← sup_exec id (kill (λ e, SeControl (CeBoundary e)) job.(jr_cgroup_id));
    _ ← match job.(jr_service) with
        | Some service => record_cleanup_in_work settings service job.(jr_cgroup_id) CkHooks event_time
        | None => mret tt
        end;
    _ ← commit_supervisor;
    mret terminal).

Definition sup_complete_reload_command_job (settings : SupervisorSettings) (job_id : JobId) (ended_at_ns exit_code : Z)
    : SupM ReloadCommandTerminalDispatch :=
  apply_reload_command_terminal_job_event settings job_id (complete_job job_id ended_at_ns exit_code).

Definition sup_fail_running_reload_command_job (settings : SupervisorSettings) (job_id : JobId) (ended_at_ns : Z)
    (exit : option JobExit) (failure_cause : string) : SupM ReloadCommandTerminalDispatch :=
  apply_reload_command_terminal_job_event settings job_id (fail_running_job job_id ended_at_ns exit failure_cause).

Definition process_next_due_reload_command_timeout (settings : SupervisorSettings) (now_ns : Z)
    : SupM (option ReloadCommandTimeoutDispatch) :=
  due ← exec_get (λ w, min_by (due_le rcd_due_at_ns rcd_service)
    (due_reload_command_deadlines now_ns (su_control w).(cx_control)));
  match due with
  | None => mret None
  | Some deadline =>
      sup_atomic (
        timeout ← sup_control SeControl (timeout_reload_command deadline now_ns);
        _ ← follow_reload settings timeout.(rto_service_transition) now_ns;
        _ ← record_cleanup_in_work settings
              (default timeout.(rto_service_transition).(tt_event).(ev_service) timeout.(rto_job_event).(je_service))
              timeout.(rto_cgroup_id) CkHooks now_ns;
        _ ← commit_supervisor;
        mret (Some timeout))
  end.
End Starts.
