(* ===== verification/SupervisorLifecycle.v ===== *)
(** * Commands on services, and the upkeep of operations

    Models the supervisor's transaction for a command of a caller
    ([src/src/supervisor/lifecycle.rs], [lifecycle/]) and its periodic upkeep
    ([operation_maintenance.rs], [operation_maintenance/]): operations that ran
    out of time, starts whose main process is not up in time, restart windows
    and failure chains that are over, and records that are no longer kept.

    The time of a command is given: the clock that [run_lifecycle_command] reads
    is not modelled. *)

From S2P Require Import Prelude RustStr ServiceRuntime ServiceDef Ids Restart Cgroup ServiceTable Calendar Tty Shutdown.
From S2P Require Import OperationRecord OperationStore ExecCommand StartPlan Lifecycle JobRecord JobStore SubmittedStore SubmittedRun.
From S2P Require Import Effects ExecGraph StartState StartBegin StartRun MainProcess Release.
From S2P Require Import ControlRun Notify ShutdownRun SupWork Relationships SupervisorRun SupervisorChecks SupervisorStarts.
From Stdlib Require Import String.
Open Scope string_scope.
Open Scope list_scope.
Open Scope Z_scope.

(** [synchronous_clear_fd_store_service] of [fd_store_lifecycle.rs]. *)
Definition synchronous_clear_fd_store_service (outcome : LifecycleCommandOutcome) : option string :=
  match outcome with
  | SynchronousClear clear =>
      then_some (explicit_stop_event_clears_fd_store clear.(sc_completed)) clear.(sc_completed).(oe_service)
  | _ => None
  end.

Definition is_empty {A} (l : list A) : bool := match l with [] => true | _ => false end.

Record SupervisorLifecycleDispatch : Type := {
  sld_outcome : LifecycleCommandOutcome;
  sld_context_id : option GraphContextId;
  sld_start_dispatches : list StartExecutionDispatch;
  sld_pending_control_operation : option PendingControlOperation;
  sld_lifecycle_warnings : list string;
}.

Definition empty_lifecycle_dispatch (outcome : LifecycleCommandOutcome) (pending : option PendingControlOperation)
    : SupervisorLifecycleDispatch := {|
  sld_outcome := outcome; sld_context_id := None; sld_start_dispatches := [];
  sld_pending_control_operation := pending; sld_lifecycle_warnings := [] |}.

Section Lifecycle.
Context {P BoundaryError : Type} `{CalendarSyntax} `{!ProcessController P BoundaryError}.
Notation Work := (SupervisorWork P BoundaryError).
Notation Error := (SupervisorError BoundaryError).
Notation SupM := (Exec Work Error).

(** A step that says whether its work is kept: work that is not kept, or that
    fails, is dropped. *)
Definition sup_kept {A} (m : SupM (A * bool)) : SupM A := λ w,
  match m w with
  | None => None
  | Some (w', Ok (a, true)) => Some (w', Ok a)
  | Some (w', Ok (a, false)) => Some (sup_restore w' w, Ok a)
  | Some (w', Err e) => Some (sup_restore w' w, Err e)
  end.

(** ** The admission of a command ([lifecycle/request.rs]) *)

Definition admit_supervisor_lifecycle_command (request : LifecycleCommandRequest) : SupM LifecycleCommandOutcome := λ w,
  match admit_lifecycle_command_with_operation_ids request (su_services w, su_operations w)
          w.(su_shutdown_work).(sw_operation_ids) with
  | None => None
  | Some (services, operations, operation_ids, r) =>
      Some (set_su_shutdown_work (set_sw_operation_ids operation_ids
              (set_wk_exec (set_operations operations (set_services services (su_exec w))) w.(su_shutdown_work))) w,
            map_err SeLifecycle r)
  end.

(** ** What an admitted command leads to ([lifecycle/finish.rs]) *)

Definition superseded (event : OperationEvent) : bool :=
  match event.(oe_state) with OsAborted | OsCancelled => true | _ => false end.

Definition drop_superseded_readiness_deadlines (events : list OperationEvent) : SupM unit :=
  sup_exec id (exec_update (λ s, set_start (foldl (λ store event,
    if superseded event then (remove_readiness_deadline event.(oe_operation_id) store).1 else store)
    s.(xs_start) events) s)).

Definition finish_lifecycle_outcome (settings : SupervisorSettings) (outcome : LifecycleCommandOutcome)
    (observed_at_ns : Z) : SupM (SupervisorLifecycleDispatch * bool) :=
  match outcome with
  | OnDemandStart dispatch =>
      context_id ← create_start_context dispatch;
      starts ← gate_start_context context_id (services_started dispatch.(osd_plan)) observed_at_ns
        settings.(sst_max_parallel_starts);
      _ ← commit_supervisor;
      mret ({| sld_outcome := outcome; sld_context_id := Some context_id; sld_start_dispatches := starts;
               sld_pending_control_operation := None; sld_lifecycle_warnings := [] |}, true)
  | OperationAccepted operation =>
      _ ← drop_superseded_readiness_deadlines operation.(ro_events);
      pending ← queue_boundary (λ operations services, queue_control_boundary operations services operation);
      _ ← commit_supervisor;
      mret (empty_lifecycle_dispatch outcome pending, true)
  | SynchronousClear _ =>
      _ ← match synchronous_clear_fd_store_service outcome with
          | Some service => update_fd_store (clear_service service)
          | None => mret tt
          end;
      _ ← settle_held_restarts observed_at_ns settings.(sst_max_parallel_starts);
      _ ← commit_supervisor;
      mret (empty_lifecycle_dispatch outcome None, true)
  | OutcomeAlready _ | OutcomeNoop _ => mret (empty_lifecycle_dispatch outcome None, false)
  end.

(** ** Commands ([lifecycle.rs]) *)

Definition service_is_abandoned (services : ServiceTable) (service : string) : Result bool Error :=
  match services !! service with
  | None => Err (SeLifecycle (LcUnknownService service))
  | Some entry =>
      if entry.(en_definition_removed) then Err (SeLifecycle (LcDefinitionRemoved service))
      else Ok (bool_decide (entry.(en_runtime).(rt_state) = StAbandoned))
  end.

Definition reject_abandoned_reset_without_controller (services : ServiceTable) (command : LifecycleCommand)
    (service : string) : Result unit Error :=
  if bool_decide (command = CmdReset) then
    match service_is_abandoned services service with
    | Err e => Err e
    | Ok true => Err (SeLifecycle (LcInvalidState service command StAbandoned))
    | Ok false => Ok tt
    end
  else Ok tt.

Definition refuse_in_shutdown (w : Work) : Result unit Error :=
  match su_shutdown w with Some shutdown => Err (SeShutdownInProgress shutdown.(shr_kind)) | None => Ok tt end.

(** Allocate an identifier, admit the command, and do what follows. *)
Definition run_admitted_command (settings : SupervisorSettings) (command : LifecycleCommand) (service : string)
    (caller : option TokenSummary) (created_at_ns : Z) : SupM SupervisorLifecycleDispatch :=
  sup_kept (
    request_id ← allocate_operation_id created_at_ns;
    outcome ← admit_supervisor_lifecycle_command {| lr_id := request_id; lr_command := command; lr_service := service;
      lr_caller := caller; lr_created_at_ns := created_at_ns |};
    finish_lifecycle_outcome settings outcome created_at_ns).

Definition run_lifecycle_command_at (settings : SupervisorSettings) (command : LifecycleCommand) (service : string)
    (caller : option TokenSummary) (created_at_ns : Z) : SupM SupervisorLifecycleDispatch :=
  permitted ← exec_get refuse_in_shutdown;
  _ ← exec_lift permitted;
  accepted ← exec_get (λ w, reject_abandoned_reset_without_controller (su_services w) command service);
  _ ← exec_lift accepted;
  run_admitted_command settings command service caller created_at_ns.

(** *** A reset of an abandoned service ([lifecycle/abandoned_reset.rs]) *)

(** [(0..=current).rev()]. *)
Definition generations_down_from (current : Z) : list Z := map (λ i, current - Z.of_nat i) (seq 0 (S (Z.to_nat current))).

Definition leak_generation (service : string) (current : Z) (leak : LeakedCgroup) : option Z :=
  if bool_decide (leak.(lk_kind) = LkServiceTree) then
    find_first (λ generation, bool_decide (service_cgroup_root_path service generation = leak.(lk_path)))
      (generations_down_from current)
  else None.

Definition abandoned_generation (services : ServiceTable) (service : string) : Result Z Error :=
  match services !! service with
  | None => Err (SeLifecycle (LcUnknownService service))
  | Some entry =>
      let runtime := entry.(en_runtime) in
      if bool_decide (runtime.(rt_state) ≠ StAbandoned)
      then Err (SeLifecycle (LcInvalidState service CmdReset runtime.(rt_state)))
      else
        let current := runtime.(rt_cgroup_generation) in
        Ok (default current (head (omap (leak_generation service current) (rev runtime.(rt_leaked_cgroups)))))
  end.

Definition abandoned_reset_warning (service : string) : string :=
  "abandoned main cgroup for service " +:+ service +:+
  " is still populated after reset -- cgroup remains leaked; underlying D-state process requires investigation".

Definition run_abandoned_reset_command (settings : SupervisorSettings) (service : string) (caller : option TokenSummary)
    (created_at_ns : Z) : SupM SupervisorLifecycleDispatch :=
  permitted ← exec_get refuse_in_shutdown;
  _ ← exec_lift permitted;
  generation ← exec_get (λ w, abandoned_generation (su_services w) service);
  generation ← exec_lift generation;
  main_populated ← sup_exec id (exec_on xs_controller set_controller SeProcessControl
    (cgroup_populated (service_job_cgroup_path service generation KindMain)));
  _ ← (if main_populated : bool then mret []
       else sup_cleanup_tree (service_cgroup_root_path service generation));
  dispatch ← run_admitted_command settings CmdReset service caller created_at_ns;
  mret (if main_populated : bool
        then {| dispatch with sld_lifecycle_warnings :=
                  dispatch.(sld_lifecycle_warnings) ++ [abandoned_reset_warning service] |}
        else dispatch).

Definition run_lifecycle_command_with_process_controller (settings : SupervisorSettings) (command : LifecycleCommand)
    (service : string) (caller : option TokenSummary) (created_at_ns : Z) : SupM SupervisorLifecycleDispatch :=
  abandoned ← exec_get (λ w,
    if bool_decide (command = CmdReset) then service_is_abandoned (su_services w) service else Ok false);
  abandoned ← exec_lift abandoned;
  if abandoned : bool then run_abandoned_reset_command settings service caller created_at_ns
  else run_lifecycle_command_at settings command service caller created_at_ns.

(** ** When an operation has run out of time ([operation_maintenance/deadlines.rs]) *)

Definition operation_lifetime_ns (operation_type : OperationType) (definition : ServiceDefinition) : Z :=
  let seconds :=
    match operation_type with
    | OpStart | OpReload | OpReset => definition.(sd_start_timeout_secs)
    | OpStop => definition.(sd_stop_timeout_secs)
    | OpRestart => u64_saturating_add definition.(sd_stop_timeout_secs) definition.(sd_start_timeout_secs)
    end in
  u64_saturating_mul seconds NANOS_PER_SEC.

(** [or_else] on options. *)
Definition or_else {A} (a b : option A) : option A := match a with Some _ => a | None => b end.

Definition operation_phase_deadline_ns (w : Work) (operation : OperationRecord) : option Z :=
  if bool_decide (operation.(or_source) = SrcShutdown) && bool_decide (operation.(or_state) = OsRunning) then
    shutdown ← su_shutdown w;
    ssd_due_at_ns <$> find_first (λ deadline, bool_decide (deadline.(ssd_service) = operation.(or_service)))
      shutdown.(shr_stop_deadlines)
  else
    let control := (su_control w).(cx_control) in
    let stop := sto_due_at_ns <$> control.(ces_stop_timeouts) !! operation.(or_id) in
    match operation.(or_operation_type) with
    | OpStart | OpRestart => or_else (rd_due_at_ns <$> (su_start w).(ses_readiness) !! operation.(or_id)) stop
    | OpStop => stop
    | OpReload => or_else (rcd_due_at_ns <$> control.(ces_commands) !! operation.(or_id))
                    (rdd_due_at_ns <$> control.(ces_detections) !! operation.(or_id))
    | OpReset => None
    end.

Definition operation_timeout_deadline_ns (w : Work) (operation : OperationRecord) : option Z :=
  match operation_phase_deadline_ns w operation with
  | Some due_at_ns => Some due_at_ns
  | None =>
      definition ← table_definition (su_services w) operation.(or_service);
      Some (u64_saturating_add operation.(or_lifetime_from_ns)
              (operation_lifetime_ns operation.(or_operation_type) definition))
  end.

(** The search for a hold always ends ([is_operation_held_total]). *)
Definition operation_is_held (w : Work) (operation_id : OperationId) : bool :=
  default false (is_operation_held operation_id (su_graph w)).

Definition operation_timeout_expired (w : Work) (operation_id : OperationId) (now_ns : Z) : bool :=
  negb (operation_is_held w operation_id) &&
  is_some_and ((su_operations w).(op_records) !! operation_id ≫= operation_timeout_deadline_ns w) (λ due, due <=? now_ns).

Definition pending_operation_lifetime_applies (w : Work) (operation : OperationRecord) : bool :=
  bool_decide (operation.(or_state) = OsPending) && negb (operation_is_held w operation.(or_id)).

Definition job_is_current_service_main_start_timeout_candidate (w : Work) (job_id : JobId) (operation : OperationRecord)
    : bool :=
  is_some_and ((su_jobs w).(js_records) !! job_id) (λ job,
    bool_decide (job.(jr_operation_id) = Some operation.(or_id)) &&
    match job.(jr_state) with JsCreated | JsRunning => true | _ => false end).

Definition running_service_main_start_timeout_due_for (w : Work) (operation : OperationRecord) : bool :=
  bool_decide (operation.(or_state) = OsRunning) &&
  match operation.(or_operation_type) with OpStart | OpRestart => true | _ => false end &&
  is_some_and (table_runtime (su_services w) operation.(or_service)) (λ runtime,
    bool_decide (runtime.(rt_state) = StStarting)) &&
  bool_decide (readiness_deadline_for_service operation.(or_service) (su_start w) = None) &&
  is_some_and (current_service_main_job (su_jobs w) operation.(or_service)) (λ job_id,
    job_is_current_service_main_start_timeout_candidate w job_id operation).

Definition timed_operations (w : Work) (applies : OperationRecord → bool) : list OperationRecord :=
  retain applies (active_records (su_operations w)).

Definition operation_due (w : Work) (now_ns : Z) (operation : OperationRecord) : bool :=
  is_some_and (operation_timeout_deadline_ns w operation) (λ due, due <=? now_ns).

Definition due_pending_operation_timeouts (w : Work) (now_ns : Z) : list OperationRecord :=
  retain (operation_due w now_ns) (timed_operations w (pending_operation_lifetime_applies w)).

Definition next_pending_operation_timeout_deadline_ns (w : Work) : option Z :=
  list_min (omap (operation_timeout_deadline_ns w) (timed_operations w (pending_operation_lifetime_applies w))).

Record RunningServiceMainStartTimeout : Type := { smt_operation_id : OperationId; smt_job_id : JobId }.

Definition due_running_service_main_start_timeouts (w : Work) (now_ns : Z) : list RunningServiceMainStartTimeout :=
  omap (λ operation,
    job_id ← current_service_main_job (su_jobs w) operation.(or_service);
    Some {| smt_operation_id := operation.(or_id); smt_job_id := job_id |})
    (retain (operation_due w now_ns) (timed_operations w (running_service_main_start_timeout_due_for w))).

Definition next_running_service_main_start_timeout_deadline_ns (w : Work) : option Z :=
  list_min (omap (operation_timeout_deadline_ns w) (timed_operations w (running_service_main_start_timeout_due_for w))).

(** ** Failure chains that are over ([operation_maintenance/on_failure_chain.rs]) *)

Record SupervisorOnFailureChainSettledDispatch : Type := { ocs_service : string; ocs_due_at_ns : Z }.

Definition chain_settle_deadline (services : ServiceTable) (service : string)
    : option SupervisorOnFailureChainSettledDispatch :=
  runtime ← table_runtime services service;
  if bool_decide (runtime.(rt_state) ≠ StActive) then None
  else
    since_ns ← runtime.(rt_dependent_satisfied_since_ns);
    definition ← table_definition services service;
    Some {| ocs_service := service;
            ocs_due_at_ns := u64_saturating_add since_ns (u64_saturating_mul definition.(sd_restart_window_secs) NANOS_PER_SEC) |}.

Definition on_failure_chain_settle_deadlines (w : Work) : list SupervisorOnFailureChainSettledDispatch :=
  omap (chain_settle_deadline (su_services w)) (on_failure_chain_services w.(su_relationships)).

Definition due_on_failure_chain_settles (w : Work) (now_ns : Z) : list SupervisorOnFailureChainSettledDispatch :=
  retain (λ settle, settle.(ocs_due_at_ns) <=? now_ns) (on_failure_chain_settle_deadlines w).

Definition next_on_failure_chain_settle_deadline_ns (w : Work) : option Z :=
  list_min (map ocs_due_at_ns (on_failure_chain_settle_deadlines w)).

Definition still_settled (w : Work) (candidate : SupervisorOnFailureChainSettledDispatch) (now_ns : Z) : bool :=
  is_some_and (chain_settle_deadline (su_services w) candidate.(ocs_service)) (λ settle,
    settle.(ocs_due_at_ns) <=? now_ns).

Definition settle_due_on_failure_chain (now_ns : Z) (candidate : SupervisorOnFailureChainSettledDispatch)
    : SupM (list SupervisorOnFailureChainSettledDispatch) :=
  settled ← exec_get (λ w, still_settled w candidate now_ns);
  if settled : bool then
    _ ← update_relationships (clear_on_failure_chain candidate.(ocs_service));
    mret [candidate]
  else mret [].

Definition settle_due_on_failure_chains (due : list SupervisorOnFailureChainSettledDispatch) (now_ns : Z)
    : SupM (list SupervisorOnFailureChainSettledDispatch) :=
  settled ← exec_each (settle_due_on_failure_chain now_ns) due;
  mret (mjoin settled).

(** ** The turn ([operation_maintenance.rs]) *)

Definition OPERATION_TIMEOUT_DETAIL : string := "operation maximum lifetime expired".
Definition DEPENDENCY_TIMEOUT_DETAIL : string := "dependency operation timed out before graph start could complete".

Definition fail_timed_out_operation (operation_id : OperationId) (now_ns : Z) (event : GraphExecutionEvent)
    : SupM (list OperationEvent) :=
  let detail := if bool_decide (event.(ge_operation_id) = operation_id) then OPERATION_TIMEOUT_DETAIL
                else DEPENDENCY_TIMEOUT_DETAIL in
  lives ← exec_get (λ w, operation_lives (su_operations w) event.(ge_operation_id));
  if lives : bool then
    failed ← sup_operations (fail_operation event.(ge_operation_id) now_ns (operation_timeout_result detail));
    mret [failed]
  else mret [].

Definition fail_pending_operation_timeout (operation_id : OperationId) (now_ns : Z)
    : SupM (list OperationEvent * list GraphExecutionEvent) :=
  graph_events ← sup_exec id (on_graph SeGraph (apply_operation_failed operation_id));
  match graph_events with
  | [] =>
      failed ← sup_operations (fail_operation operation_id now_ns (operation_timeout_result OPERATION_TIMEOUT_DETAIL));
      mret ([failed], [])
  | _ =>
      failed ← exec_each (fail_timed_out_operation operation_id now_ns) graph_events;
      mret (mjoin failed, graph_events)
  end.

Definition process_pending_operation_timeout (now_ns : Z) (operation : OperationRecord)
    : SupM (list OperationEvent * list GraphExecutionEvent) :=
  lives ← exec_get (λ w, operation_lives (su_operations w) operation.(or_id));
  if lives : bool then fail_pending_operation_timeout operation.(or_id) now_ns else mret ([], []).

Definition process_due_service_main_start_timeout (settings : SupervisorSettings) (job_id : JobId) (now_ns : Z)
    : SupM (StartTimeoutDispatch * list StartExecutionDispatch) :=
  timeout ← sup_exec SeStarting (timeout_service_main_start job_id now_ns);
  _ ← exec_update (λ w, let work := w.(su_shutdown_work) in
    set_su_shutdown_work {| work with sw_pending_launches :=
      retain (λ pending, negb (bool_decide (pending = job_id))) work.(sw_pending_launches) |} w);
  starts ← react_and_release settings timeout.(tod_service_transitions) timeout.(tod_graph_events) now_ns;
  mret (timeout, starts).

Definition process_service_main_start_timeout (settings : SupervisorSettings) (now_ns : Z)
    (due : RunningServiceMainStartTimeout) : SupM (list (StartTimeoutDispatch * list StartExecutionDispatch)) :=
  lives ← exec_get (λ w, operation_lives (su_operations w) due.(smt_operation_id));
  if lives : bool then
    '(timeout, starts) ← process_due_service_main_start_timeout settings due.(smt_job_id) now_ns;
    _ ← cleanup_after_kill timeout.(tod_killed_cgroup_id) (timeout.(tod_job_event) ≫= je_service)
      (λ service cgroup_id, record_cleanup_in_work settings service cgroup_id CkServiceTree now_ns);
    mret [(timeout, starts)]
  else mret [].

Definition same_window_reset (a b : RestartWindowResetDeadline) : bool :=
  bool_decide (a.(wd_service) = b.(wd_service)) && bool_decide (a.(wd_due_at_ns) = b.(wd_due_at_ns)).

Definition reset_due_restart_window (now_ns : Z) (reset : RestartWindowResetDeadline) : SupM (list RestartWindowResetDeadline) :=
  still_due ← exec_get (λ w, existsb (same_window_reset reset) (due_restart_window_resets now_ns (su_services w)));
  if still_due : bool then
    _ ← sup_services (reset_restart_failures_after_window reset.(wd_service));
    mret [reset]
  else mret [].

Record DueOperationMaintenance : Type := {
  dom_pending_operation_timeouts : list OperationRecord;
  dom_running_service_main_start_timeouts : list RunningServiceMainStartTimeout;
  dom_restart_window_resets : list RestartWindowResetDeadline;
  dom_on_failure_chain_settles : list SupervisorOnFailureChainSettledDispatch;
}.

Definition due_operation_maintenance (with_controller : bool) (now_ns : Z) (w : Work) : DueOperationMaintenance := {|
  dom_pending_operation_timeouts := due_pending_operation_timeouts w now_ns;
  dom_running_service_main_start_timeouts :=
    if with_controller then due_running_service_main_start_timeouts w now_ns else [];
  dom_restart_window_resets := due_restart_window_resets now_ns (su_services w);
  dom_on_failure_chain_settles := due_on_failure_chain_settles w now_ns |}.

Definition requires_supervisor_work (due : DueOperationMaintenance) : bool :=
  negb (is_empty due.(dom_pending_operation_timeouts) && is_empty due.(dom_running_service_main_start_timeouts) &&
        is_empty due.(dom_restart_window_resets) && is_empty due.(dom_on_failure_chain_settles)).

Record SupervisorOperationMaintenanceTurn : Type := {
  omt_operation_timeouts : list OperationEvent;
  omt_service_main_start_timeouts : list StartTimeoutDispatch;
  omt_graph_events : list GraphExecutionEvent;
  omt_relationship_audit_events : list SupervisorOnFailureLoopSuppressedDispatch;
  omt_start_dispatches : list StartExecutionDispatch;
  omt_restart_window_resets : list RestartWindowResetDeadline;
  omt_on_failure_chain_settles : list SupervisorOnFailureChainSettledDispatch;
  omt_retired_graph_contexts : list GraphContextId;
  omt_purged_operations : list OperationId;
  omt_purged_jobs : list JobId;
}.

Definition maintenance_turn_default : SupervisorOperationMaintenanceTurn := {|
  omt_operation_timeouts := []; omt_service_main_start_timeouts := []; omt_graph_events := [];
  omt_relationship_audit_events := []; omt_start_dispatches := []; omt_restart_window_resets := [];
  omt_on_failure_chain_settles := []; omt_retired_graph_contexts := []; omt_purged_operations := [];
  omt_purged_jobs := [] |}.

Definition process_due_work (settings : SupervisorSettings) (due : DueOperationMaintenance) (now_ns : Z)
    : SupM SupervisorOperationMaintenanceTurn :=
  sup_atomic (
    pending ← exec_each (process_pending_operation_timeout now_ns) due.(dom_pending_operation_timeouts);
    started ← exec_each (process_service_main_start_timeout settings now_ns)
      due.(dom_running_service_main_start_timeouts);
    let started := mjoin started in
    resets ← exec_each (reset_due_restart_window now_ns) due.(dom_restart_window_resets);
    settles ← settle_due_on_failure_chains due.(dom_on_failure_chain_settles) now_ns;
    _ ← commit_supervisor;
    let turn := maintenance_turn_default in
    mret {| turn with
      omt_operation_timeouts := mjoin (map fst pending) ++ mjoin (map (λ t, t.1.(tod_operation_events)) started);
      omt_service_main_start_timeouts := map fst started;
      omt_graph_events := mjoin (map snd pending) ++ mjoin (map (λ t, t.1.(tod_graph_events)) started);
      omt_start_dispatches := mjoin (map snd started);
      omt_restart_window_resets := mjoin resets;
      omt_on_failure_chain_settles := settles |}).

Definition DEFAULT_TERMINAL_OPERATION_RETENTION_NS : Z := 60000000000.

(** What is kept no longer: events that were reported, graphs, operations, jobs. *)
Definition sweep_retained (now_ns : Z) (turn : SupervisorOperationMaintenanceTurn)
    : SupM SupervisorOperationMaintenanceTurn := λ w,
  let (relationships, audit_events) := drain_audit_events w.(su_relationships) in
  let (graph, retired) := retire_drained_contexts (su_graph w) in
  let (operations, purged_operations) :=
    purge_terminal_retained_until now_ns DEFAULT_TERMINAL_OPERATION_RETENTION_NS (su_operations w) in
  let (submitted, purged_jobs) := purge_retained_until now_ns w.(su_shutdown_work).(sw_submitted) in
  let work := set_wk_exec (set_operations operations (set_graph graph (su_exec w))) w.(su_shutdown_work) in
  let swept := set_su_shutdown_work {| work with sw_submitted := submitted |} w in
  Some ({| swept with su_relationships := relationships |},
        Ok {| turn with omt_relationship_audit_events := audit_events; omt_retired_graph_contexts := retired;
                        omt_purged_operations := purged_operations; omt_purged_jobs := purged_jobs |}).

Definition process_due_operation_maintenance (settings : SupervisorSettings) (with_controller : bool) (now_ns : Z)
    : SupM SupervisorOperationMaintenanceTurn :=
  due ← exec_get (due_operation_maintenance with_controller now_ns);
  turn ← (if requires_supervisor_work due then process_due_work settings due now_ns else mret maintenance_turn_default);
  sweep_retained now_ns turn.

Definition next_operation_maintenance_deadline_ns (w : Work) : option Z :=
  list_min (omap id [
    next_pending_operation_timeout_deadline_ns w;
    next_running_service_main_start_timeout_deadline_ns w;
    next_restart_window_reset_deadline_ns (su_services w);
    next_on_failure_chain_settle_deadline_ns w;
    next_terminal_retention_deadline_ns DEFAULT_TERMINAL_OPERATION_RETENTION_NS (su_operations w);
    next_retention_deadline_ns w.(su_shutdown_work).(sw_submitted)]).
End Lifecycle.
