(* ===== verification/SupervisorNotify.v ===== *)
(** * A notify message reaches the supervisor

    Models [src/src/supervisor/notify/]: what the supervisor does with a message
    of a service once its sender is known ([apply.rs]), the descriptors that came
    with it ([fd_store.rs]), the deadlines it asks to move
    ([timeout_extension.rs], [shutdown_timeout.rs]) and a readiness that did not
    come in time ([readiness_timeout.rs]).

    The messages of submitted jobs, which [apply_notify_datagram] tries first when
    no service claims the sender, are not part of it. *)

From S2P Require Import Prelude RustStr ServiceRuntime ServiceDef Ids Restart Cgroup ServiceTable FailureDispatch Calendar Tty.
From S2P Require Import OperationRecord OperationStore ExecCommand StartPlan Lifecycle JobRecord JobStore SubmittedRun.
From S2P Require Import Effects ExecGraph StartState StartBegin StartRun MainProcess Release.
From S2P Require Import ControlRun Notify SubmittedDef NotifyRun ShutdownRun SupWork Relationships SupervisorRun SupervisorChecks.
From Stdlib Require Import String.
Open Scope string_scope.
Open Scope list_scope.
Open Scope Z_scope.

(** ** Dispatches *)

Record SupervisorFdStoreRejectionDispatch : Type := {
  fsr_service : string;
  fsr_name : string;
  fsr_outcome : StoreFdOutcome;
}.

Inductive TimeoutExtensionError : Type :=
| TeInvalidValue (service value : string)
| TeMissingDefinition (service : string).

(** The errors of [ShutdownError] that an extension has. *)
Inductive ShutdownExtensionError : Type :=
| SxInvalidTimeoutExtension (service value : string)
| SxMissingDefinition (service : string).

Definition NANOS_PER_USEC : Z := 1000.

(** ** The descriptors of a message ([fd_store.rs]) *)

Record FdStoreDirective : Type := {
  fsd_store : bool;
  fsd_remove : bool;
  fsd_name : option string;
  fsd_poll : bool;
}.

Definition directive_field (directive : FdStoreDirective) (field : NotifyField) : FdStoreDirective :=
  match field with
  | NfFdStore => {| directive with fsd_store := true |}
  | NfFdStoreRemove => {| directive with fsd_remove := true |}
  | NfFdName name => {| directive with fsd_name := Some name |}
  | NfFdPoll value => if bool_decide (value = "0") then {| directive with fsd_poll := false |} else directive
  | _ => directive
  end.

Definition directive_from_message (message : NotifyMessage) : FdStoreDirective :=
  foldl directive_field {| fsd_store := false; fsd_remove := false; fsd_name := None; fsd_poll := true |} message.(nm_fields).

Definition effective_name (self : FdStoreDirective) : string :=
  match self.(fsd_name) with
  | Some name => if str_is_empty name then FD_DEFAULT_NAME else name
  | None => FD_DEFAULT_NAME
  end.

(** The loop over the descriptors. *)
Fixpoint store_descriptors (service : string) (max_entries : Z) (directive : FdStoreDirective) (fds : list Z)
    (table : FdStoreTable) : FdStoreTable * list SupervisorFdStoreRejectionDispatch :=
  match fds with
  | [] => (table, [])
  | fd :: fds =>
      let name := effective_name directive in
      let (table, outcome) :=
        table_store service max_entries {| sfq_name := Some name; sfq_poll := directive.(fsd_poll); sfq_fd := fd |} table in
      let '(table, rejections) := store_descriptors service max_entries directive fds table in
      (table, (if bool_decide (outcome = FdStored) then []
               else [{| fsr_service := service; fsr_name := name; fsr_outcome := outcome |}]) ++ rejections)
  end.

Section Notify.
Context {P BoundaryError : Type} `{CalendarSyntax} `{!ProcessController P BoundaryError}.
Notation Work := (SupervisorWork P BoundaryError).
Notation SupM := (Exec Work (SupervisorError BoundaryError)).
Notation NotifyM := (Exec Work (NotifyApplyError BoundaryError)).
Notation ExtendM := (Exec Work TimeoutExtensionError).
Notation ShutdownM := (Exec Work ShutdownExtensionError).

Definition su_fd_store (w : Work) : FdStoreTable := w.(su_shutdown_work).(sw_fd_store).
Definition su_start_store (w : Work) : StartExecutionStore := (su_exec w).(xs_start).
Definition su_control_store (w : Work) : ControlExecutionStore := (su_control w).(cx_control).

Definition apply_fd_store_notify_fields (message : NotifyMessage) (service : string) (fds : list Z)
    : NotifyM (list SupervisorFdStoreRejectionDispatch) :=
  let directive := directive_from_message message in
  if directive.(fsd_remove) && bool_decide (directive.(fsd_name) = None) then mret []
  else
    _ ← (if directive.(fsd_remove)
         then update_fd_store (λ table, (table_remove_name service (default "" directive.(fsd_name)) table).1)
         else mret tt);
    if negb directive.(fsd_store) then mret []
    else
      definition ← exec_get (λ w, table_definition (su_services w) service);
      definition ← exec_lift (ok_or definition (NeServiceTable (UnknownService service)));
      let stored (w : Work) := store_descriptors service definition.(sd_fd_store_max) directive fds (su_fd_store w) in
      rejections ← exec_get (λ w, (stored w).2);
      _ ← exec_update (λ w, let work := w.(su_shutdown_work) in
            set_su_shutdown_work {| work with sw_fd_store := (stored w).1 |} w);
      mret rejections.

(** ** Deadlines of a stop in shutdown ([shutdown_timeout.rs]) *)

Definition find_stop_deadline (service : string) (shutdown : ShutdownRuntime BoundaryError) : option ShutdownStopDeadline :=
  find_first (λ deadline, bool_decide (deadline.(ssd_service) = service)) shutdown.(shr_stop_deadlines).

(** The first deadline of the service gets [due_at_ns]. *)
Fixpoint move_stop_deadline (service : string) (due_at_ns : Z) (deadlines : list ShutdownStopDeadline)
    : list ShutdownStopDeadline :=
  match deadlines with
  | [] => []
  | deadline :: deadlines =>
      if bool_decide (deadline.(ssd_service) = service) then {| deadline with ssd_due_at_ns := due_at_ns |} :: deadlines
      else deadline :: move_stop_deadline service due_at_ns deadlines
  end.

Definition extended_stop_deadline (deadline : ShutdownStopDeadline) (stop_timeout_secs requested_extension_usec global_deadline_ns
    observed_at_ns : Z) : Z :=
  let requested_deadline_ns := u64_saturating_add observed_at_ns (u64_saturating_mul requested_extension_usec NANOS_PER_USEC) in
  let service_cap_ns := u64_saturating_add deadline.(ssd_started_at_ns)
    (u64_saturating_mul (u64_saturating_mul stop_timeout_secs 4) NANOS_PER_SEC) in
  Z.min (Z.min requested_deadline_ns service_cap_ns) global_deadline_ns.

Definition extend_shutdown_stop_deadline (service value : string) (observed_at_ns : Z) : ShutdownM unit :=
  found ← exec_get (λ w, shutdown ← su_shutdown w; deadline ← find_stop_deadline service shutdown; Some (shutdown, deadline));
  match found with
  | None => mret tt
  | Some (shutdown, deadline) =>
      requested ← exec_lift (ok_or (parse_u64 value) (SxInvalidTimeoutExtension service value));
      definition ← exec_get (λ w, table_definition (su_services w) service);
      definition ← exec_lift (ok_or definition (SxMissingDefinition service));
      let extended := extended_stop_deadline deadline definition.(sd_stop_timeout_secs) requested
        shutdown.(shr_global_deadline_ns) observed_at_ns in
      _ ← exec_update (λ w : Work, let work := w.(su_shutdown_work) in
            set_su_shutdown_work {| work with sw_shutdown := Some {| shutdown with
              shr_stop_deadlines := move_stop_deadline service extended shutdown.(shr_stop_deadlines) |} |} w);
      match deadline.(ssd_operation_id) with
      | Some operation_id => update_control_store (λ store, (extend_stop_timeout operation_id extended store).1)
      | None => mret tt
      end
  end.

Definition extension_value (field : NotifyAppliedField) : option string :=
  match field with NaExtendTimeoutUsec value => Some value | _ => None end.

Definition apply_shutdown_timeout_extensions (notify : NotifyApplyDispatch) (observed_at_ns : Z) : ShutdownM unit :=
  _ ← exec_each (λ value, extend_shutdown_stop_deadline notify.(nad_sender).(ns_service) value observed_at_ns)
    (omap extension_value notify.(nad_applied_fields));
  mret tt.

(** ** Deadlines of a start, a stop or a reload ([timeout_extension.rs]) *)

Inductive PhaseTimeout : Type := PhaseStart | PhaseStop.

Definition base_timeout_secs (self : PhaseTimeout) (definition : ServiceDefinition) : Z :=
  match self with PhaseStart => definition.(sd_start_timeout_secs) | PhaseStop => definition.(sd_stop_timeout_secs) end.

(** The moment a phase of an operation is counted from, and the last one its
    deadline may have. *)
Definition cap_base_ns (operation : OperationRecord) (observed_at_ns : Z) : Z :=
  if bool_decide (operation.(or_operation_type) = OpRestart) then default observed_at_ns operation.(or_started_at_ns)
  else operation.(or_lifetime_from_ns).

Definition phase_cap_ns (w : Work) (definition : ServiceDefinition) (operation : OperationRecord) (observed_at_ns : Z)
    (phase : PhaseTimeout) : Z :=
  let cap_ns := u64_saturating_add (cap_base_ns operation observed_at_ns)
    (u64_saturating_mul (u64_saturating_mul (base_timeout_secs phase definition) 4) NANOS_PER_SEC) in
  let global_cap_ns := default u64_max (shr_global_deadline_ns <$> su_shutdown w) in
  Z.min cap_ns global_cap_ns.

Definition clamped_deadline (service : string) (operation : OperationRecord) (requested_usec observed_at_ns : Z)
    (phase : PhaseTimeout) : ExtendM Z :=
  definition ← exec_get (λ w, table_definition (su_services w) service);
  definition ← exec_lift (ok_or definition (TeMissingDefinition service));
  cap ← exec_get (λ w, phase_cap_ns w definition operation observed_at_ns phase);
  let requested_ns := u64_saturating_add observed_at_ns (u64_saturating_mul requested_usec NANOS_PER_USEC) in
  mret (Z.min requested_ns cap).

Definition parse_extension_usec (service value : string) : Result Z TimeoutExtensionError :=
  ok_or (parse_u64 value) (TeInvalidValue service value).

Definition extend_start_timeout (service value : string) (observed_at_ns : Z) : ExtendM unit :=
  requested_usec ← exec_lift (parse_extension_usec service value);
  found ← exec_get (λ w,
    deadline ← readiness_deadline_for_service service (su_start_store w);
    operation ← (su_operations w).(op_records) !! deadline.(rd_operation_id); Some (deadline, operation));
  match found with
  | None => mret tt
  | Some (deadline, operation) =>
      due_at_ns ← clamped_deadline service operation requested_usec observed_at_ns PhaseStart;
      sup_exec id (on_start (λ store, (extend_readiness_deadline deadline.(rd_operation_id) due_at_ns store).1))
  end.

Definition extend_stop_timeout_of (service value : string) (observed_at_ns : Z) : ExtendM unit :=
  requested_usec ← exec_lift (parse_extension_usec service value);
  found ← exec_get (λ w,
    deadline ← stop_timeout_for_service service (su_control_store w);
    operation ← (su_operations w).(op_records) !! deadline.(sto_operation_id); Some (deadline, operation));
  match found with
  | None => mret tt
  | Some (deadline, operation) =>
      due_at_ns ← clamped_deadline service operation requested_usec observed_at_ns PhaseStop;
      update_control_store (λ store, (extend_stop_timeout deadline.(sto_operation_id) due_at_ns store).1)
  end.

Definition current_running_reload_operation (w : Work) (service : string) : option OperationRecord :=
  operation ← current_for_service (su_operations w) service;
  then_some (bool_decide (operation.(or_operation_type) = OpReload) && bool_decide (operation.(or_state) = OsRunning)) operation.

Definition extend_reload_timeout (service value : string) (observed_at_ns : Z) : ExtendM unit :=
  requested_usec ← exec_lift (parse_extension_usec service value);
  found ← exec_get (λ w, current_running_reload_operation w service);
  match found with
  | None => mret tt
  | Some operation =>
      due_at_ns ← clamped_deadline service operation requested_usec observed_at_ns PhaseStart;
      update_control_store (λ store,
        match extend_reload_command_deadline operation.(or_id) due_at_ns store with
        | (store, Some _) => store
        | (store, None) => (extend_reload_detection_deadline operation.(or_id) due_at_ns store).1
        end)
  end.

Definition apply_transition_timeout_extension (service : string) (observed_at_ns : Z) (value : string) : ExtendM unit :=
  state ← exec_get (λ w, rt_state <$> table_runtime (su_services w) service);
  match state with
  | Some StStarting => extend_start_timeout service value observed_at_ns
  | Some StStopping => extend_stop_timeout_of service value observed_at_ns
  | Some StReloading => extend_reload_timeout service value observed_at_ns
  | _ => mret tt
  end.

(** Whether this service's stop wave has begun. *)
Definition has_stop_deadline (service : string) (w : Work) : bool :=
  is_some_and (su_shutdown w) (λ shutdown,
    existsb (λ deadline, bool_decide (deadline.(ssd_service) = service)) shutdown.(shr_stop_deadlines)).

Definition apply_transition_timeout_extensions (notify : NotifyApplyDispatch) (observed_at_ns : Z) : ExtendM unit :=
  let service := notify.(nad_sender).(ns_service) in
  stopping ← exec_get (has_stop_deadline service);
  if stopping : bool then mret tt
  else
    _ ← exec_each (apply_transition_timeout_extension service observed_at_ns)
      (omap extension_value notify.(nad_applied_fields));
    mret tt.

(** ** A message of a service ([apply.rs]) *)

Inductive SupervisorNotifyError : Type :=
| SnNotify (error : NotifyApplyError BoundaryError)
| SnShutdown (error : ShutdownExtensionError)
| SnTimeoutExtension (error : TimeoutExtensionError)
| SnSupervisor (error : SupervisorError BoundaryError).
Notation SupNotifyM := (Exec Work SupervisorNotifyError).

Record SupervisorNotifyDispatch : Type := {
  snd_notify : NotifyApplyDispatch;
  snd_fd_store_rejections : list SupervisorFdStoreRejectionDispatch;
  snd_watchdog_notifications : list SupervisorWatchdogNotifyDispatch;
  snd_start_dispatches : list StartExecutionDispatch;
}.

Definition is_level (field : NotifyAppliedField) : bool := match field with NaLevel _ => true | _ => false end.

(** What follows the message in the supervisor's own stores. *)
Definition follow_notify (message : NotifyMessage) (fds : list Z) (notify : NotifyApplyDispatch) (observed_at_ns : Z)
    : SupNotifyM (list SupervisorFdStoreRejectionDispatch * list SupervisorWatchdogNotifyDispatch) :=
  rejections ← exec_map_err SnNotify (apply_fd_store_notify_fields message notify.(nad_sender).(ns_service) fds);
  _ ← exec_map_err SnShutdown (apply_shutdown_timeout_extensions notify observed_at_ns);
  _ ← exec_map_err SnTimeoutExtension (apply_transition_timeout_extensions notify observed_at_ns);
  _ ← match notify.(nad_post_start_hook) with
      | Some hook => queue_created_post_hook_job hook
      | None =>
          _ ← apply_health_scheduling_after_transitions notify.(nad_service_transitions) observed_at_ns;
          apply_watchdog_scheduling_after_transitions notify.(nad_service_transitions) observed_at_ns
      end;
  notifications ← exec_map_err (λ e, SnSupervisor (SeWatchdog e)) (apply_watchdog_notify_fields notify observed_at_ns);
  mret (rejections, notifications).

(** The starts a message lets go: of what reacts to its transitions, of what the
    graph released, and of what waited for a level. *)
Definition starts_after_notify (settings : SupervisorSettings) (notify : NotifyApplyDispatch) (observed_at_ns : Z)
    : SupM (list StartExecutionDispatch) :=
  let slots := settings.(sst_max_parallel_starts) in
  reactions ← apply_relationship_reactions_after_transitions notify.(nad_service_transitions) observed_at_ns slots;
  released ← sup_release (release_after_graph_events notify.(nad_graph_events) slots observed_at_ns);
  waiters ← (if existsb is_level notify.(nad_applied_fields)
             then sup_release (release_level_waiters_on notify.(nad_sender).(ns_service) slots observed_at_ns)
             else mret []);
  mret (reactions ++ released ++ waiters).

Definition apply_service_notify (settings : SupervisorSettings) (sender_pid : Z) (message : NotifyMessage) (fds : list Z)
    (observed_at_ns : Z) : SupNotifyM SupervisorNotifyDispatch :=
  sup_atomic (
    notify ← sup_control SnNotify (apply_notify_message
      {| nar_sender_pid := sender_pid; nar_observed_at_ns := observed_at_ns |} message);
    followed ← follow_notify message fds notify observed_at_ns;
    starts ← exec_map_err SnSupervisor (starts_after_notify settings notify observed_at_ns);
    _ ← commit_supervisor;
    mret {| snd_notify := notify; snd_fd_store_rejections := followed.1; snd_watchdog_notifications := followed.2;
            snd_start_dispatches := starts |}).

(** ** A readiness that did not come ([readiness_timeout.rs]) *)

Record SupervisorReadinessTimeoutDispatch : Type := {
  srt_timeout : StartTimeoutDispatch;
  srt_start_dispatches : list StartExecutionDispatch;
}.

Definition next_due_readiness (now_ns : Z) (w : Work) : option ReadinessDeadline :=
  min_by (due_le rd_due_at_ns rd_service) (due_readiness_deadlines now_ns (su_start_store w)).

Definition process_next_due_readiness_timeout (settings : SupervisorSettings) (now_ns : Z)
    : SupM (option SupervisorReadinessTimeoutDispatch) :=
  due ← exec_get (next_due_readiness now_ns);
  match due with
  | None => mret None
  | Some deadline =>
      let slots := settings.(sst_max_parallel_starts) in
      sup_atomic (
        timeout ← sup_exec SeStarting (timeout_readiness deadline now_ns);
        reactions ← apply_relationship_reactions_after_transitions timeout.(tod_service_transitions) now_ns slots;
        released ← sup_release (release_after_graph_events timeout.(tod_graph_events) slots now_ns);
        _ ← update_cleanup (record_cgroup_cleanup deadline.(rd_service) deadline.(rd_service_cgroup_id) CkServiceTree now_ns
              settings.(sst_post_kill_timeout_secs));
        _ ← commit_supervisor;
        mret (Some {| srt_timeout := timeout; srt_start_dispatches := reactions ++ released |}))
  end.
End Notify.

Arguments SupervisorNotifyError : clear implicits.
