(* ===== verification/SettleInv.v ===== *)
(** * Held starts are settled in a bounded number of rounds

    About [Relationships]: reactions and settlements call one another, and the
    recursion ends. A settlement ends a member of the execution graph for good;
    what follows it inside the recursion creates no context, because the only
    transitions it reacts to are those of dependents that fail before they were
    started. *)

From S2P Require Import Prelude RustStr ServiceRuntime ServiceDef Ids Restart Cgroup ServiceTable Calendar Tty.
From S2P Require Import OperationRecord OperationStore OperationInv ExecCommand StartPlan StartPlanSpec Lifecycle.
From S2P Require Import JobRecord JobStore SubmittedRun FailureDispatch.
From S2P Require Import Effects ExecGraph StartState StartBegin StartRun MainProcess Release.
From S2P Require Import Graph ServiceTableInv ExecGraphSpec ExecGraphInv StartInv ReleaseInv.
From S2P Require Import ControlRun ControlInv Notify ShutdownRun SupWork Relationships.
From Stdlib Require Import String.
Open Scope string_scope.
Open Scope list_scope.
Open Scope Z_scope.

(** ** Steps that create no context *)

Definition graph_stays {A} (m : GraphM GraphExecutionStore A) : Prop :=
  ∀ g g' r, m g = Some (g', r) → g'.(gs_next_context_id) = g.(gs_next_context_id).

Lemma graph_stays_ret {A} (a : A) : graph_stays (mret a).
Proof. by intros g g' r [= <- _]. Qed.

Lemma graph_stays_gets {A} (f : GraphExecutionStore → A) : graph_stays (gets f).
Proof. by intros g g' r [= <- _]. Qed.

Lemma graph_stays_bind {A B} (m : GraphM GraphExecutionStore A) (k : A → GraphM GraphExecutionStore B) :
  graph_stays m → (∀ a, graph_stays (k a)) → graph_stays (m ≫= k).
Proof.
  intros Hm Hk g g' r. unfold mbind, graph_bind. destruct (m g) as [[g1 [a|e]]|] eqn:E; [| |done].
  - intros H%Hk. rewrite H. by eapply Hm.
  - intros [= <- _]. by eapply Hm.
Qed.

Lemma graph_stays_context {A} id (m : GraphM GraphExecutionContext A) : graph_stays (on_context id m).
Proof.
  intros g g' r. unfold on_context. destruct (gs_contexts g !! id) as [c|]; [|by intros [= <- _]].
  destruct (m c) as [[c' r']|]; [|done]. by intros [= <- _].
Qed.

Lemma graph_stays_each {X A} (f : X → GraphM GraphExecutionStore (list A)) l :
  (∀ x, graph_stays (f x)) → graph_stays (extend_each f l).
Proof.
  intros Hf. induction l as [|x l IH]; simpl; [apply graph_stays_ret|].
  apply graph_stays_bind; [done|]. intros a. apply graph_stays_bind; [done|]. intros b. apply graph_stays_ret.
Qed.

Lemma graph_stays_settle service outcome : graph_stays (settle_awaiting_restart service outcome).
Proof.
  apply graph_stays_bind; [apply graph_stays_gets|]. intros. apply graph_stays_each. intros. apply graph_stays_context.
Qed.

Lemma graph_stays_terminal op outcome : graph_stays (apply_operation_terminal op outcome).
Proof.
  apply graph_stays_bind.
  - apply graph_stays_bind; [apply graph_stays_gets|]. intros. apply graph_stays_each. intros. apply graph_stays_context.
  - intros [|event events]; [apply graph_stays_ret|]. apply graph_stays_bind; [apply graph_stays_settle|].
    intros. apply graph_stays_ret.
Qed.

Lemma graph_stays_check op : graph_stays (apply_pre_start_check_passed op).
Proof.
  apply graph_stays_bind; [apply graph_stays_gets|]. intros. apply graph_stays_each. intros.
  apply graph_stays_bind; [apply graph_stays_context|]. intros. apply graph_stays_ret.
Qed.

Lemma graph_stays_prune op : graph_stays (prune_dormant_dependencies op).
Proof.
  apply graph_stays_bind; [apply graph_stays_gets|]. intros. apply graph_stays_each. intros. apply graph_stays_context.
Qed.

Lemma graph_stays_awaiting op : graph_stays (apply_operation_awaiting_restart op).
Proof.
  apply graph_stays_bind; [apply graph_stays_gets|]. intros. apply graph_stays_each. intros.
  apply graph_stays_bind; [apply graph_stays_context|]. intros. apply graph_stays_ret.
Qed.

Lemma graph_stays_release probe id slots : graph_stays (release_ready probe id slots).
Proof. unfold release_ready. destruct (slots =? 0)%nat; [by intros g g' r [= <- _]|]. apply graph_stays_context. Qed.

Section Stays.
Context {P : Type}.

Definition next_of (s : ExecState P) : Z := s.(xs_graph).(gs_next_context_id).
Definition same_next (s s' : ExecState P) : Prop := next_of s' = next_of s.

#[export] Instance same_next_preorder : PreOrder same_next.
Proof. split; [done|]. intros a b c Hab Hbc. unfold same_next in *. congruence. Qed.

Definition stays {E A} (m : Step P E A) : Prop := relates same_next m.

Lemma stays_on {T E F A} (get : ExecState P → T) set (wrap : F → E) (f : T → T * Result A F) :
  (∀ t s, (set t s).(xs_graph) = s.(xs_graph)) → stays (exec_on get set wrap f).
Proof. intros Hset. apply relates_on. intros s. unfold same_next, next_of. by rewrite Hset. Qed.

Lemma stays_update {E} (f : ExecState P → ExecState P) :
  (∀ s, (f s).(xs_graph) = s.(xs_graph)) → stays (exec_update f : Step P E unit).
Proof. intros Hf. apply relates_update. intros s. unfold same_next, next_of. by rewrite Hf. Qed.

Lemma stays_graph {E A} (wrap : GraphExecutionError → E) (m : GraphM GraphExecutionStore A) :
  graph_stays m → stays (on_graph wrap m).
Proof.
  intros Hm s s' r. unfold on_graph, exec_within. destruct (m (xs_graph s)) as [[g r']|] eqn:Em; [|done].
  intros [= <- _]. unfold same_next, next_of. simpl. by eapply Hm.
Qed.

Lemma stays_reads {E A} (m : Step P E A) : reads m → stays m.
Proof. apply relates_reads, _. Qed.
Lemma stays_bind {E A B} (m : Step P E A) (k : A → Step P E B) : stays m → (∀ a, stays (k a)) → stays (m ≫= k).
Proof. apply relates_bind, _. Qed.
Lemma stays_map_err {E F A} (f : E → F) (m : Step P E A) : stays m → stays (exec_map_err f m).
Proof. apply relates_map_err. Qed.
Lemma stays_each {E X A} (body : X → Step P E A) xs : (∀ x, stays (body x)) → stays (exec_each body xs).
Proof. apply relates_each, _. Qed.

Lemma stays_require {E A} (e : E) (f : ExecState P → option A) : stays (require e f).
Proof. apply stays_reads, reads_bind; [apply reads_get|]. intros. apply reads_lift. Qed.

Lemma stays_atomic {E A} (m : Step P E A) : stays m → stays (atomic m).
Proof. intros Hm. apply relates_atomic; [exact Hm|]. done. Qed.
End Stays.

Ltac stay_step :=
  match goal with
  | |- stays (mret _) => apply stays_reads, reads_ret
  | |- stays (exec_fail _) => apply stays_reads, reads_fail
  | |- stays (exec_get _) => apply stays_reads, reads_get
  | |- stays (exec_lift _) => apply stays_reads, reads_lift
  | |- stays (require _ _) => apply stays_require
  | |- stays (exec_map_err _ _) => apply stays_map_err
  | |- stays (exec_each _ _) => apply stays_each; intros ?
  | |- stays (atomic _) => apply stays_atomic
  | |- stays (_ ≫= _) => apply stays_bind; [|intros ?]
  | |- stays (match ?x with _ => _ end) => destruct x
  | |- stays (let _ := _ in _) => cbv zeta
  | |- stays (on_graph _ (apply_operation_satisfied _)) => apply stays_graph, graph_stays_terminal
  | |- stays (on_graph _ (apply_operation_failed _)) => apply stays_graph, graph_stays_terminal
  | |- stays (on_graph _ (apply_operation_terminal _ _)) => apply stays_graph, graph_stays_terminal
  | |- stays (on_graph _ (prune_dormant_dependencies _)) => apply stays_graph, graph_stays_prune
  | |- stays (on_graph _ (apply_operation_awaiting_restart _)) => apply stays_graph, graph_stays_awaiting
  | |- stays (on_graph _ (apply_pre_start_check_passed _)) => apply stays_graph, graph_stays_check
  | |- stays (on_graph _ (settle_awaiting_restart _ _)) => apply stays_graph, graph_stays_settle
  | |- stays (on_graph _ (release_ready _ _ _)) => apply stays_graph, graph_stays_release
  | |- stays (on_start _) => by apply stays_update
  | |- stays (exec_update _) => by apply stays_update
  | |- stays _ => by apply stays_on
  end.
Ltac stay := repeat (stay_step; cbv beta zeta).

Section Starts.
Context {P BoundaryError : Type}.
Notation Error := (StartExecutionError BoundaryError).

Lemma fail_dependents_stays target at_ns reason seen events :
  stays (fail_dependents target at_ns reason seen events : Step P _ _).
Proof.
  revert seen. induction events as [|event events IH]; intros seen; simpl; [stay|].
  unfold fail_dependent. stay; apply IH.
Qed.

Lemma start_failure_stays request : stays (apply_start_failure request : Step P _ _).
Proof.
  unfold apply_start_failure, restart_evaluation, hold_for_restart, fail_with_dependents,
    fail_dependents_after_graph_events.
  stay; apply fail_dependents_stays.
Qed.

Lemma precheck_stays request : stays (begin_graph_pre_start_check request : Step P Error _).
Proof.
  unfold begin_graph_pre_start_check, precheck_passed, precheck_skipped, precheck_assertion_failed,
    precheck_filesystem_pending, apply_pending_pre_dependency_failure, cancel_dormant_dependencies,
    cancel_pruned_operations, clear_skipped_for_explicit_start, skip_service, get_operation.
  stay.
Qed.

Lemma launch_stays request identity token activation cleared event deadline :
  stays (launch_ready_start request identity token activation cleared event deadline : Step P Error _).
Proof.
  unfold launch_ready_start, job_id_for_request, job_id_for_ready_start, create_initial_start_job, create_initial_main_job,
    create_initial_pre_start_hook, record_request_readiness_deadline, allocate_job_id. stay.
Qed.

Lemma prechecked_stays request : stays (begin_prechecked_ready_start request : Step P Error _).
Proof.
  unfold begin_prechecked_ready_start, precheck_skipped, start_released_operation, get_operation, skip_service,
    cancel_dormant_dependencies, cancel_pruned_operations.
  stay; apply launch_stays.
Qed.
End Starts.

(** ** Releases *)

Section Releases.
Context {P BoundaryError : Type} `{CalendarSyntax}.
Notation Error := (StartExecutionError BoundaryError).
Notation RError := (ReleaseError (BoundaryError := BoundaryError)).
Notation State := (ReleaseState P).

(** A release creates no context and asks for no operation. *)
Definition same_counters (s s' : State) : Prop :=
  same_next s.(rl_exec) s'.(rl_exec) ∧ s'.(rl_operation_ids) = s.(rl_operation_ids).

#[export] Instance same_counters_preorder : PreOrder same_counters.
Proof. split; [done|]. intros a b c [? ?] [? ?]. split; [by etrans|congruence]. Qed.

Lemma counters_in_stores {E F A} (wrap : F → E) (m : Step P F A) :
  stays m → relates same_counters (in_stores wrap m : Exec State E A).
Proof. intros Hm. by apply (relates_within _ same_next). Qed.

Lemma request_stays {E} (missing : string → E) ready at_ns : stays (start_request missing ready at_ns : Step P E _).
Proof. unfold start_request. stay. Qed.

Lemma holds_stay held ready at_ns : stays (restart_exited_hold_lifetimes held ready at_ns : Step P RError _).
Proof.
  revert ready. induction held as [|op held IH]; intros ready; simpl; [stay|]. apply stays_bind.
  - intros s s' r. unfold operation_held. destruct (is_operation_held _ _); [|done]. by intros [= <- _].
  - intros []; stay; try apply IH. by intros s s' r [= <- _].
Qed.

Lemma release_one_counters at_ns ready : relates same_counters (release_one at_ns ready : Exec State RError _).
Proof.
  unfold release_one. destruct (rg_action ready);
    (apply relates_bind; [apply _|apply counters_in_stores, request_stays|intros request]).
  - apply relates_bind; [apply _|apply counters_in_stores, precheck_stays|intros]. apply relates_reads, reads_ret. apply _.
  - apply relates_bind; [apply _|apply counters_in_stores, prechecked_stays|]. intros [d|d];
      [|apply relates_reads, reads_ret; apply _].
    apply relates_bind; [apply _| |intros; apply relates_reads, reads_ret; apply _]. apply relates_update.
    intros s. by destruct (sed_job_kind d).
Qed.

Lemma release_loop_counters fuel slots at_ns queue :
  relates same_counters (release_loop fuel slots at_ns queue : Exec State RError _).
Proof.
  revert queue. induction fuel as [|fuel IH]; intros queue; [by intros s s' r|]. simpl.
  destruct queue as [|id queue]; [apply relates_reads, reads_ret; apply _|].
  apply relates_bind; [apply _| |intros [queued dispatches]; apply relates_bind;
    [apply _|apply IH|intros; apply relates_reads, reads_ret; apply _]].
  unfold release_round. apply relates_bind; [apply _|apply relates_reads, reads_get; apply _|intros held].
  apply relates_bind; [apply _| |intros ready].
  - apply counters_in_stores. unfold release_context_starts. stay.
  - apply relates_bind; [apply _|apply counters_in_stores, holds_stay|intros ready'].
    apply relates_bind; [apply _|apply relates_each; [apply _|intros; apply release_one_counters]|].
    intros. apply relates_reads, reads_ret. apply _.
Qed.

Lemma release_counters slots at_ns id : relates same_counters (release_for_context slots at_ns id : Exec State RError _).
Proof. intros s s' r. unfold release_for_context. apply release_loop_counters. Qed.

(** *** What is left to do does not grow *)

Lemma spent_weaken g n k (s : ExecState P) : (k ≤ n)%nat → spent g n s → spent g k s.
Proof. intros Hk [W L U C]. split; [done|lia..]. Qed.

Lemma declining_from_start {E A} (m : Step P E A) : (∀ g, triple (spent g 0) m (λ _, spent g 0)) → declining m.
Proof.
  intros Hm g n s Hs. destruct (Hm (xs_graph s) s) as (s' & r & Em & Hr); [by apply spent_refl, (sp_wf _ _ _ Hs)|].
  exists s', r. split; [done|]. intros a Ha. rewrite <-(Nat.add_0_r n). eapply spent_trans; [done|]. by apply (Hr a).
Qed.

Lemma precheck_declines request : declining (begin_graph_pre_start_check request : Step P Error _).
Proof.
  apply declining_from_start. intros g. eapply triple_conseq; [apply begin_precheck_spent|done|].
  intros [d|d|d] s; simpl; [by intros [? _]| |done]. apply spent_weaken. lia.
Qed.

Lemma prechecked_declines request : declining (begin_prechecked_ready_start request : Step P Error _).
Proof.
  apply declining_from_start. intros g. eapply triple_conseq; [apply begin_prechecked_spent|done|].
  intros [d|d] s; simpl; [done|]. apply spent_weaken. lia.
Qed.

Definition releasing {E A} (m : Exec State E A) : Prop :=
  ∀ g n, triple (λ s, spent g n s.(rl_exec)) m (λ _ s, spent g n s.(rl_exec)).

Lemma releasing_in {E F A} (wrap : F → E) (m : Step P F A) : declining m → releasing (in_stores wrap m).
Proof. intros Hm g n. apply (triple_in_stores wrap m _ (λ _, spent g n)), Hm. Qed.

Lemma releasing_bind {E A B} (m : Exec State E A) (k : A → Exec State E B) :
  releasing m → (∀ a, releasing (k a)) → releasing (m ≫= k).
Proof. intros Hm Hk g n. eapply triple_bind; [apply Hm|]. intros a. apply Hk. Qed.

Lemma releasing_ret {E A} (a : A) : releasing (mret a : Exec State E A).
Proof. intros g n. by apply triple_ret'. Qed.

Lemma releasing_each {E X A} (body : X → Exec State E A) xs :
  (∀ x, releasing (body x)) → releasing (exec_each body xs).
Proof.
  intros Hb. induction xs as [|x xs IH]; simpl; [apply releasing_ret|].
  apply releasing_bind; [done|]. intros a. apply releasing_bind; [done|]. intros. apply releasing_ret.
Qed.

Lemma release_one_declines at_ns ready : releasing (release_one at_ns ready : Exec State RError _).
Proof.
  unfold release_one. destruct (rg_action ready);
    (apply releasing_bind; [apply releasing_in, start_request_declines|intros request]).
  - apply releasing_bind; [apply releasing_in, precheck_declines|intros]. apply releasing_ret.
  - apply releasing_bind; [apply releasing_in, prechecked_declines|]. intros [d|d]; [|apply releasing_ret].
    apply releasing_bind; [|intros; apply releasing_ret]. intros g n s Hs. eexists _, _. split; [done|].
    intros _ _. by destruct (sed_job_kind d).
Qed.

Lemma release_round_declines id slots at_ns : releasing (release_round id slots at_ns : Exec State RError _).
Proof.
  unfold release_round. apply releasing_bind; [|intros held].
  { intros g n s Hs. eexists _, _. by split. }
  apply releasing_bind; [apply releasing_in|intros ready].
  { unfold release_context_starts. apply declining_bind; [apply declining_get|]. intros services. apply declining_graph.
    intros g Hg. destruct (release_store (probe_level services) id slots g Hg) as (g' & r & ? & ? & _). eauto. }
  apply releasing_bind; [apply releasing_in|intros ready'].
  { intros g n. eapply triple_conseq; [apply holds_spent|done|]. by intros a s [? _]. }
  apply releasing_bind; [apply releasing_each; intros; apply release_one_declines|].
  intros. apply releasing_ret.
Qed.

Lemma release_loop_declines fuel slots at_ns queue g n s s' out :
  spent g n s.(rl_exec) → (release_loop fuel slots at_ns queue : Exec State RError _) s = Some (s', Ok out) →
  spent g n s'.(rl_exec).
Proof.
  revert queue s out. induction fuel as [|fuel IH]; intros queue s out Hs; [done|]. simpl.
  destruct queue as [|id queue]; [by intros [= <- <-]|].
  intros (s1 & [queued dispatches] & E1 & E0)%exec_bind_Ok. apply exec_bind_Ok in E0 as (s2 & rest & E2 & [= <- <-]).
  destruct (release_round_declines id slots at_ns g n s Hs) as (s1' & r & E & Hr). rewrite E1 in E. simplify_eq.
  eapply IH; [|exact E2]. by apply (Hr _ eq_refl).
Qed.

Lemma release_declines slots at_ns id : releasing (release_for_context slots at_ns id : Exec State RError _).
Proof.
  intros g n s Hs. unfold release_for_context.
  destruct (release_loop_ends (BoundaryError := BoundaryError) (release_fuel [id] (graph_of s)) slots at_ns [id] s) as (s' & r & E).
  - apply (sp_wf _ _ _ Hs).
  - unfold release_fuel. simpl. lia.
  - exists s', r. split; [done|]. intros out ->. by eapply release_loop_declines.
Qed.

Lemma release_serves slots at_ns id : serves work_wf (release_for_context slots at_ns id : Exec State RError _).
Proof.
  intros s Hs. unfold release_for_context.
  destruct (release_loop_ends (BoundaryError := BoundaryError) (release_fuel [id] (graph_of s)) slots at_ns [id] s) as (s' & r & E).
  - apply Hs.
  - unfold release_fuel. simpl. lia.
  - exists s', r. split; [done|]. by eapply release_loop_keeps.
Qed.
End Releases.

(** ** The supervisor's stores *)

(** A chain ends in the handler it is kept for, names no handler twice and is
    no longer than the limit. *)
Definition chain_wf (service : string) (chain : OnFailureChain) : Prop :=
  last chain.(ofc_services) = Some service ∧ NoDup chain.(ofc_services) ∧
  (List.length chain.(ofc_services) ≤ MAX_DEPTH)%nat.

(** A start waits for somebody, and not for itself. *)
Definition conflict_wf (id : GraphContextId) (context : PendingConflictContext) : Prop :=
  context.(pcc_context_id) = id ∧ context.(pcc_blockers) ≠ ∅ ∧ context.(pcc_blockers) ## context.(pcc_start_services).

Record relationships_wf (self : RelationshipStore) : Prop := {
  rw_conflicts : map_Forall conflict_wf self.(rs_conflict_contexts);
  rw_chains : map_Forall chain_wf self.(rs_on_failure_chains);
}.

Section Supervisor.
Context {P BoundaryError : Type}.
Notation Work := (SupervisorWork P BoundaryError).
Notation Error := (SupervisorError BoundaryError).
Notation SupM := (Exec Work Error).

(** Contexts never outnumber the operations that were asked for, so their
    numbers do not wrap around: an allocation of operations fails first. *)
Record sup_wf (w : Work) : Prop := {
  uw_control : control_wf (su_control w);
  uw_ids : next_of (su_exec w) ≤ w.(su_shutdown_work).(sw_operation_ids);
  uw_watchdog : map_Forall (λ service record, record.(wr_service) = service) w.(su_watchdog);
  uw_health : map_Forall (λ service record, record.(hcr_service) = service) w.(su_health);
  uw_cleanup : map_Forall (λ cgroup_id deadline, deadline.(ccd_cgroup_id) = cgroup_id) w.(su_cgroup_cleanup);
  uw_relationships : relationships_wf w.(su_relationships);
  uw_queue : NoDup (map pco_operation_id w.(su_pending_control_operations));
  uw_setups : map_Forall (λ _ setup, 0 ≤ setup.(pls_launched_at_ns)) w.(su_shutdown_work).(sw_pending_process_setups);
}.

Record tracked (g : GraphExecutionStore) (n : nat) (w : Work) : Prop := {
  tr_wf : sup_wf w;
  tr_spent : spent g n (su_exec w);
}.

(** Steps that answer and keep the stores well formed; and those that, besides,
    give the graph nothing more to do. *)
Definition sound {E A} (m : Exec Work E A) : Prop := triple sup_wf m (λ _, sup_wf).
Definition eases {E A} (m : Exec Work E A) : Prop := ∀ g n, triple (tracked g n) m (λ _, tracked g n).

Lemma eases_sound {E A} (m : Exec Work E A) : eases m → sound m.
Proof.
  intros Hm w Hw. destruct (Hm (su_graph w) 0%nat w) as (w' & r & Em & Hr).
  - split; [done|]. apply spent_refl. apply Hw.
  - exists w', r. split; [done|]. intros a Ha. by apply (Hr a).
Qed.

Lemma sound_ret {E A} (a : A) : sound (mret a : Exec Work E A).
Proof. by apply triple_ret'. Qed.
Lemma sound_get {E A} (f : Work → A) : sound (exec_get f : Exec Work E A).
Proof. eapply triple_conseq; [apply triple_get|done|]. by intros a s [? _]. Qed.
Lemma sound_lift {E A} (r : Result A E) : sound (exec_lift r : Exec Work E A).
Proof. eapply triple_conseq; [apply triple_lift|done|]. by intros a s [? _]. Qed.
Lemma sound_fail {E A} (e : E) : sound (exec_fail e : Exec Work E A).
Proof. apply triple_fail. Qed.
Lemma sound_bind {E A B} (m : Exec Work E A) (k : A → Exec Work E B) : sound m → (∀ a, sound (k a)) → sound (m ≫= k).
Proof. intros Hm Hk. by eapply triple_bind. Qed.
Lemma sound_each {E X A} (body : X → Exec Work E A) xs : (∀ x, sound (body x)) → sound (exec_each body xs).
Proof.
  intros Hb. induction xs as [|x xs IH]; simpl; [apply sound_ret|].
  apply sound_bind; [done|]. intros a. apply sound_bind; [done|]. intros. apply sound_ret.
Qed.
Lemma sound_map_err {E F A} (f : E → F) (m : Exec Work E A) : sound m → sound (exec_map_err f m).
Proof. apply triple_map_err. Qed.

Lemma eases_ret {E A} (a : A) : eases (mret a : Exec Work E A).
Proof. intros g n. by apply triple_ret'. Qed.
Lemma eases_get {E A} (f : Work → A) : eases (exec_get f : Exec Work E A).
Proof. intros g n. eapply triple_conseq; [apply triple_get|done|]. by intros a s [? _]. Qed.
Lemma eases_lift {E A} (r : Result A E) : eases (exec_lift r : Exec Work E A).
Proof. intros g n. eapply triple_conseq; [apply triple_lift|done|]. by intros a s [? _]. Qed.
Lemma eases_fail {E A} (e : E) : eases (exec_fail e : Exec Work E A).
Proof. intros g n. apply triple_fail. Qed.
Lemma eases_bind {E A B} (m : Exec Work E A) (k : A → Exec Work E B) : eases m → (∀ a, eases (k a)) → eases (m ≫= k).
Proof. intros Hm Hk g n. eapply triple_bind; [apply Hm|]. intros a. apply Hk. Qed.
Lemma eases_each {E X A} (body : X → Exec Work E A) xs : (∀ x, eases (body x)) → eases (exec_each body xs).
Proof.
  intros Hb. induction xs as [|x xs IH]; simpl; [apply eases_ret|].
  apply eases_bind; [done|]. intros a. apply eases_bind; [done|]. intros. apply eases_ret.
Qed.

(** *** Steps on the stores of starts *)

Definition keeps_wf {E A} (m : Step P E A) : Prop := triple exec_wf m (λ _, exec_wf).

Lemma keeps_wf_quiet {E A} (m : Step P E A) : quiet m → keeps_wf m.
Proof. apply (quiet_holds start_wf). Qed.
Lemma keeps_wf_serves {E A} (m : Step P E A) : serves exec_wf m → keeps_wf m.
Proof. apply triple_serves. Qed.

Lemma sound_exec {E F A} (wrap : F → E) (m : Step P F A) : keeps_wf m → stays m → sound (sup_exec wrap m).
Proof.
  intros Hm Hs w Hw. pose proof Hw as [[Hx Hc] Hi ? ? ? ? ? ?]. unfold sup_exec, exec_within.
  destruct (Hm (su_exec w) Hx) as (x & r & Em & Hr). rewrite Em. eexists _, _. split; [done|]. intros a Ha.
  destruct r as [a'|e]; [|done]. pose proof (Hs _ _ _ Em) as Hn. split; simpl; try done.
  - split; [by apply (Hr a')|done].
  - change (next_of x ≤ sw_operation_ids (su_shutdown_work w)). by rewrite Hn.
Qed.

Lemma eases_exec {E F A} (wrap : F → E) (m : Step P F A) :
  keeps_wf m → stays m → declining m → eases (sup_exec wrap m).
Proof.
  intros Hm Hs Hd g n w [Hw Hsp]. destruct (sound_exec wrap m Hm Hs w Hw) as (w' & r & Em & Hr).
  exists w', r. split; [done|]. intros a Ha. split; [by apply (Hr a)|]. subst r.
  apply exec_within_Ok in Em as (x & Ex & ->). destruct (Hd g n _ Hsp) as (x' & r & Ex' & Hx). rewrite Ex in Ex'.
  simplify_eq. by apply (Hx a).
Qed.

(** *** Releases *)

Lemma eases_release {A} (m : Exec (ReleaseState P) (ReleaseError (BoundaryError := BoundaryError)) A) :
  serves work_wf m → relates same_counters m → releasing m → eases (sup_release m : SupM A).
Proof.
  intros Hm Hs Hd g n w [Hw Hsp]. pose proof Hw as [[Hx Hc] Hi ? ? ? ? ? ?]. unfold sup_release, exec_within.
  destruct (Hm (release_view w)) as (v & r & Em & Hv); [done|]. rewrite Em. eexists _, _. split; [done|]. intros a Ha.
  destruct r as [a'|e]; [|done]. destruct (Hs _ _ _ Em) as [Hn Ho]. split.
  - split; simpl; try done. change (next_of (rl_exec v) ≤ rl_operation_ids v). by rewrite Hn, Ho.
  - destruct (Hd g n (release_view w)) as (v' & r & Ev & Hx'); [done|]. rewrite Em in Ev. simplify_eq.
    by apply (Hx' a').
Qed.

(** *** Updates of the other stores *)

Lemma eases_update {E} (f : Work → Work) :
  (∀ w, sup_wf w → sup_wf (f w)) → (∀ w, (su_exec (f w)).(xs_graph) = (su_exec w).(xs_graph)) →
  eases (exec_update f : Exec Work E unit).
Proof.
  intros Hf Hg g n w [Hw Hs]. eexists _, _. split; [done|]. intros _ _. split; [by apply Hf|].
  eapply spent_step; [exact Hs|]. by rewrite Hg.
Qed.

Lemma eases_relationships {E} (f : RelationshipStore → RelationshipStore) :
  (∀ s, relationships_wf s → relationships_wf (f s)) → eases (update_relationships f : Exec Work E unit).
Proof. intros Hf. apply eases_update; [|done]. intros w [? ? ? ? ? ? ? ?]. split; simpl; auto. Qed.

Lemma eases_health {E} (f : HealthCheckStore → HealthCheckStore) :
  (∀ s, map_Forall (λ service record, record.(hcr_service) = service) s →
        map_Forall (λ service record, record.(hcr_service) = service) (f s)) →
  eases (update_health f : Exec Work E unit).
Proof. intros Hf. apply eases_update; [|done]. intros w [? ? ? ? ? ? ? ?]. split; simpl; auto. Qed.

Lemma eases_watchdog {E} (f : WatchdogStore → WatchdogStore) :
  (∀ s, map_Forall (λ service record, record.(wr_service) = service) s →
        map_Forall (λ service record, record.(wr_service) = service) (f s)) →
  eases (update_watchdog f : Exec Work E unit).
Proof. intros Hf. apply eases_update; [|done]. intros w [? ? ? ? ? ? ? ?]. split; simpl; auto. Qed.

Lemma eases_cleanup {E} (f : CgroupCleanupStore → CgroupCleanupStore) :
  (∀ s, map_Forall (λ cgroup_id deadline, deadline.(ccd_cgroup_id) = cgroup_id) s →
        map_Forall (λ cgroup_id deadline, deadline.(ccd_cgroup_id) = cgroup_id) (f s)) →
  eases (update_cleanup f : Exec Work E unit).
Proof. intros Hf. apply eases_update; [|done]. intros w [? ? ? ? ? ? ? ?]. split; simpl; auto. Qed.

Lemma eases_control_store {E} (f : ControlExecutionStore → ControlExecutionStore) :
  (∀ s, control_store_wf s → control_store_wf (f s)) → eases (update_control_store f : Exec Work E unit).
Proof.
  intros Hf. apply eases_update; [|done]. intros w [[? ?] ? ? ? ? ? ? ?]. split; simpl; try done. split; simpl; auto.
Qed.

Lemma eases_allocate at_ns : eases (allocate_operation_id at_ns : SupM OperationId).
Proof.
  unfold allocate_operation_id. apply eases_bind; [|intros; apply eases_ret]. intros g n w [Hw Hs].
  unfold exec_on. destruct (allocate_batch _ 1 at_ns) as [ids r] eqn:Ea. eexists _, _. split; [done|]. intros a Ha.
  destruct r as [l|e]; [|done]. apply allocated_length in Ea as [_ ->]. split; [|exact Hs].
  destruct Hw as [? Hi ? ? ? ? ? ?]. split; simpl; try done.
  change (next_of (su_exec w) ≤ sw_operation_ids (su_shutdown_work w) + Z.of_nat 1). lia.
Qed.
End Supervisor.

(** ** Conflicts *)

Lemma elem_of_push_blocker services start candidate blockers x :
  x ∈ push_active_blocker services start candidate blockers ↔
  x ∈ blockers ∨ x = candidate ∧ candidate ∉ start ∧ is_running services candidate = true.
Proof.
  unfold push_active_blocker. case_bool_decide as Hc; [naive_solver|].
  destruct (is_running services candidate); [rewrite elem_of_set_insert|]; naive_solver.
Qed.

Lemma elem_of_foldl_blockers {A} (step : gset string → A → gset string) (adds : A → string → Prop) l blockers x :
  (∀ blockers a, x ∈ step blockers a ↔ x ∈ blockers ∨ adds a x) →
  x ∈ foldl step blockers l ↔ x ∈ blockers ∨ ∃ a, a ∈ l ∧ adds a x.
Proof.
  intros Hs. revert blockers. induction l as [|a l IH]; intros blockers; simpl.
  - split; [by left|]. intros [?|(a & ?%elem_of_nil & _)]; done.
  - rewrite IH, Hs. setoid_rewrite elem_of_cons. naive_solver.
Qed.

(** The services that are running, conflict with a service of the start, one
    way or the other, and are not themselves part of it. *)
Lemma elem_of_active_conflicts services start x :
  x ∈ active_conflicts_for_start services start ↔
  is_running services x = true ∧ x ∉ start ∧
  ∃ s, s ∈ start ∧ (x ∈ conflicts_of services s ∨ s ∈ conflicts_of services x).
Proof.
  unfold active_conflicts_for_start.
  rewrite (elem_of_foldl_blockers _ (λ candidate x, x = candidate ∧ is_running services x = true ∧ x ∉ start ∧
    ∃ s, s ∈ start ∧ s ∈ conflicts_of services x)).
  2: { intros blockers c. case_bool_decide as Hc; [naive_solver|]. destruct (existsb _ _) eqn:Ex.
    - rewrite elem_of_push_blocker. apply existsb_exists in Ex as (s & Hs & Hin%bool_decide_eq_true).
      apply list_elem_of_In in Hs. naive_solver.
    - split; [by left|]. intros [?|(-> & _ & _ & s & Hin & Hs)]; [done|]. exfalso.
      assert (existsb (λ target, bool_decide (target ∈ start)) (conflicts_of services c) = true) as Ht; [|congruence].
      apply existsb_exists. exists s. split; [by apply list_elem_of_In|by apply bool_decide_eq_true]. }
  rewrite (elem_of_foldl_blockers _ (λ s x, x ∈ conflicts_of services s ∧ is_running services x = true ∧ x ∉ start)).
  2: { intros blockers s. rewrite (elem_of_foldl_blockers _ (λ target x, x = target ∧ is_running services x = true ∧ x ∉ start)).
    - naive_solver.
    - intros b t. rewrite elem_of_push_blocker. naive_solver. }
  setoid_rewrite elem_of_btree_elements. split.
  - intros [[?%elem_of_empty|(s & Hs & Hc & Hr & Hn)]|(c & Hc & -> & Hr & Hn & s & Hs & Hi)]; [done|..]; eauto 8.
  - intros (Hr & Hn & s & Hs & [Hc|Hc]); [left; right; eauto 6|]. right. exists x. split; [|eauto 8].
    unfold is_running, table_runtime in Hr. unfold service_names. apply elem_of_btree_keys.
    destruct (services !! x); [eauto|done].
Qed.

(** ** Transitions that nothing reacts to *)

(** A transition that starts no handler and no dependent, hands no terminal on
    and ends no claim. *)
Record still (t : ServiceTableTransition) : Prop := {
  sl_from : satisfies_dependents t.(tt_event).(ev_from) = false;
  sl_active : t.(tt_event).(ev_to) ≠ StActive;
  sl_handler : triggers_on_failure t.(tt_event).(ev_cause) = false;
  sl_terminal : t.(tt_released_tty) = None;
}.

Lemma dependency_failure_still service at_ns t t' tr entry :
  t !! service = Some entry → entry.(en_runtime).(rt_state) = StInactive →
  transition_after_failure service TcDependencyFailure at_ns None t = (t', Ok tr) → still tr.
Proof.
  intros He Hst. unfold transition_after_failure, table_definition, table_runtime. rewrite He. simpl.
  unfold evaluate_restart_after_failure. simpl. unfold apply_evaluation. simpl. unfold transition_service. rewrite He.
  unfold transition. rewrite Hst. simpl. unfold discard_drained_definition_removed. by intros [= <- <-].
Qed.

Section Dependents.
Context {P : Type}.

(** Every dependent that a settlement fails had not been started. *)
Lemma fail_dependents_still target at_ns reason seen events (s s' : ExecState P) failures :
  fail_dependents target at_ns reason seen events s = Some (s', Ok failures) →
  Forall still failures.(df_service_transitions).
Proof.
  revert seen s failures. induction events as [|event events IH]; intros seen s failures; simpl.
  { intros [= <- <-]. constructor. }
  destruct (_ || _); [apply IH|].
  intros (s1 & ended & [= <- <-] & E)%exec_bind_Ok. destruct (ended_or_unknown _ _); [by eapply IH|].
  apply exec_bind_Ok in E as (s2 & [failed moved] & E1 & E). apply exec_bind_Ok in E as (s3 & rest & E2 & [= <- <-]).
  simpl. apply Forall_app. split; [|by eapply IH]. unfold fail_dependent in E1.
  apply exec_bind_Ok in E1 as (s4 & inactive & [= <- <-] & E1).
  apply exec_bind_Ok in E1 as (s5 & moved' & E3 & E1). apply exec_bind_Ok in E1 as (s6 & failed' & _ & [= _ _ <-]).
  destruct (is_some_and _ _) eqn:Ei.
  - apply exec_bind_Ok in E3 as (s7 & t & (x & Ht & _)%exec_on_Ok & [= _ <-]). simpl. constructor; [|constructor].
    unfold is_some_and, table_runtime in Ei. destruct (xs_services s !! ge_service event) as [entry|] eqn:He; [|done].
    apply bool_decide_eq_true in Ei. by eapply dependency_failure_still.
  - injection E3 as _ <-. constructor.
Qed.
End Dependents.

(** ** The boundary's queue *)

Lemma NoDup_live_boundaries operations queue :
  NoDup (map pco_operation_id queue) → NoDup (map pco_operation_id (retain_live_boundaries operations queue)).
Proof.
  intros H. eapply sublist_NoDup; [exact H|]. apply fmap_sublist. unfold retain_live_boundaries, retain. apply sublist_filter.
Qed.

Lemma NoDup_boundary_for operations services id queue :
  NoDup (map pco_operation_id queue) →
  NoDup (map pco_operation_id (queue_control_boundary_for operations services id queue).1).
Proof.
  intros H%(NoDup_live_boundaries operations). unfold queue_control_boundary_for.
  destruct (op_records operations !! id) as [r|]; [|done]. case_bool_decide; [done|]. destruct (is_some_and _ _); [done|].
  destruct (is_queued_behind_live _ _); [done|]. destruct (requirement_for _); [|done].
  destruct (existsb _ _) eqn:Ex; [done|]. simpl. rewrite map_app. apply NoDup_app. split_and!; [done| |apply NoDup_singleton].
  intros x (q & -> & Hp)%list_elem_of_fmap Hx. apply list_elem_of_singleton in Hx. simpl in Hx.
  assert (existsb (λ pending, bool_decide (pco_operation_id pending = or_id r))
    (retain_live_boundaries operations queue) = true) as Ht; [|congruence].
  apply existsb_exists. exists q. split; [by apply list_elem_of_In|by apply bool_decide_eq_true].
Qed.

Lemma NoDup_boundary operations services outcome queue :
  NoDup (map pco_operation_id queue) →
  NoDup (map pco_operation_id (queue_control_boundary operations services outcome queue).1).
Proof.
  intros H. unfold queue_control_boundary. case_bool_decide; [by apply NoDup_live_boundaries|by apply NoDup_boundary_for].
Qed.

(** ** Reactions *)

Section React.
Context {P BoundaryError : Type} `{CalendarSyntax}.
Context (at_ns : Z) (Hat : 0 ≤ at_ns) (slots : nat).
Notation Work := (SupervisorWork P BoundaryError).
Notation Error := (SupervisorError BoundaryError).
Notation SupM := (Exec Work Error).

Lemma eases_known {A B} (f : Work → A) (k : A → SupM B) :
  (∀ g n w, tracked g n w → triple (tracked g n) (k (f w)) (λ _, tracked g n)) → eases (exec_get f ≫= k).
Proof. intros Hk g n w Hw. unfold mbind, exec_bind, exec_get. by apply (Hk g n w Hw). Qed.

Lemma eases_boundary {E} f :
  (∀ operations services queue, NoDup (map pco_operation_id queue) →
     NoDup (map pco_operation_id (f operations services queue).1)) →
  eases (queue_boundary f : Exec Work E _).
Proof.
  intros Hf g n w [[? ? ? ? ? ? Hq] Hs]. unfold queue_boundary.
  specialize (Hf (su_operations w) (su_services w) _ Hq). destruct (f _ _ _) as [queue pending].
  eexists _, _. split; [done|]. intros _ _. by split; [split|].
Qed.

Lemma eases_stop service source : eases (queue_relationship_stop service source at_ns : SupM unit).
Proof using Hat.
  unfold queue_relationship_stop. apply eases_bind; [apply eases_allocate|]. intros id. apply eases_bind; [|intros outcome].
  - apply eases_exec.
    + apply keeps_wf_quiet, quiet_operations. intros s. by apply ostep_request.
    + by apply stays_on.
    + by apply declining_on.
  - apply eases_bind; [|intros; apply eases_ret]. apply eases_boundary. intros. by apply NoDup_boundary.
Qed.

Lemma eases_release_context id : eases (release_in_work id slots at_ns : SupM _).
Proof. apply eases_release; [apply release_serves|apply release_counters|apply release_declines]. Qed.

Lemma eases_gate id start : eases (gate_start_context id start at_ns slots : SupM _).
Proof using Hat.
  unfold gate_start_context. apply eases_known. intros g n w Hw. case_bool_decide as Hb; [apply eases_release_context|].
  apply eases_bind; [apply eases_each; intros; apply eases_stop|]. intros _.
  apply eases_bind; [|intros; apply eases_ret]. apply eases_relationships. intros s [Hc Hch]. split; [|done]. simpl.
  apply map_Forall_insert_2; [|done]. split_and!; [done..|]. simpl. intros x Hx. by apply elem_of_active_conflicts in Hx as (_ & ? & _).
Qed.

Lemma eases_unblocked context : eases (release_unblocked_context at_ns slots context : SupM _).
Proof using Hat.
  unfold release_unblocked_context. apply eases_bind; [apply eases_get|]. intros []; [apply eases_ret|].
  apply eases_bind; [apply eases_get|]. intros removed. apply eases_bind; [|intros _].
  - apply eases_relationships. intros s [? ?]. split; [|done]. simpl. by apply map_Forall_delete.
  - destruct removed; [apply eases_gate|apply eases_ret].
Qed.

Lemma eases_clear transitions : eases (clear_finished_on_failure_chains transitions : SupM unit).
Proof.
  apply eases_relationships. induction transitions as [|t transitions IH]; simpl; [done|]. intros s Hs. apply IH.
  unfold clear_finished_chain. destruct Hs as [? ?]. destruct (ev_to _); try done; (split; [done|]); simpl; by apply map_Forall_delete.
Qed.

Lemma eases_conflicts : eases (release_unblocked_conflict_contexts at_ns slots : SupM _).
Proof using Hat.
  unfold release_unblocked_conflict_contexts. apply eases_bind; [apply eases_get|]. intros pending.
  apply eases_bind; [apply eases_each; intros; apply eases_unblocked|]. intros. apply eases_ret.
Qed.

Lemma eases_propagation transitions : eases (apply_binds_to_propagation transitions at_ns : SupM unit).
Proof using Hat.
  unfold apply_binds_to_propagation. apply eases_bind; [|intros; apply eases_ret]. apply eases_each. intros t.
  unfold propagate_binds_to. destruct (negb _); [apply eases_ret|]. apply eases_bind; [apply eases_get|]. intros dependents.
  apply eases_bind; [|intros; apply eases_ret]. apply eases_each. intros x. unfold stop_bound_dependent.
  apply eases_bind; [apply eases_get|]. intros []; [apply eases_stop|apply eases_ret].
Qed.

Lemma eases_level_waiters transitions : eases (release_level_waiters_after_transitions transitions at_ns slots : SupM _).
Proof.
  unfold release_level_waiters_after_transitions. apply eases_bind; [|intros; apply eases_ret]. apply eases_each. intros t.
  unfold release_level_waiters. destruct (negb _); [apply eases_ret|]. unfold release_level_waiters_on, release_after_graph_context_ids.
  apply eases_release.
  - apply serves_bind; [apply serves_get|]. intros ids. apply serves_bind; [|intros; apply serves_ret].
    apply serves_each. intros. apply release_serves.
  - apply relates_bind; [apply _|apply relates_reads, reads_get; apply _|]. intros ids.
    apply relates_bind; [apply _| |intros; apply relates_reads, reads_ret; apply _].
    apply relates_each; [apply _|]. intros. apply release_counters.
  - apply releasing_bind; [intros g n s Hs; eexists _, _; by split|]. intros ids.
    apply releasing_bind; [|intros; apply releasing_ret]. apply releasing_each. intros. apply release_declines.
Qed.

Lemma eases_release_each ids :
  eases (sup_release (dispatches ← exec_each (release_for_context slots at_ns) ids; mret (mjoin dispatches)) : SupM _).
Proof.
  apply eases_release.
  - apply serves_bind; [|intros; apply serves_ret]. apply serves_each. intros. apply release_serves.
  - apply relates_bind; [apply _| |intros; apply relates_reads, reads_ret; apply _].
    apply relates_each; [apply _|]. intros. apply release_counters.
  - apply releasing_bind; [|intros; apply releasing_ret]. apply releasing_each. intros. apply release_declines.
Qed.

Lemma eases_release_events events : eases (sup_release (release_after_graph_events events slots at_ns) : SupM _).
Proof. apply eases_release_each. Qed.

(** *** Still transitions *)

Lemma each_nothing {S E X A} (body : X → Exec S E (list A)) (Q : X → Prop) xs (s : S) :
  (∀ x s, Q x → body x s = Some (s, Ok [])) → Forall Q xs →
  ∃ out, exec_each body xs s = Some (s, Ok out) ∧ mjoin out = [].
Proof.
  intros Hb. induction 1 as [|x xs Hx _ (out & Eo & Hj)]; simpl; [by exists []|].
  exists ([] :: out). unfold mbind, exec_bind. rewrite (Hb x s Hx), Eo. done.
Qed.

Lemma still_reactions transitions (w : Work) :
  Forall still transitions →
  apply_on_failure_starts transitions at_ns slots w = Some (w, Ok []) ∧
  apply_binds_to_recovery_starts transitions at_ns slots w = Some (w, Ok []) ∧
  apply_tty_release_starts transitions at_ns slots w = Some (w, Ok []).
Proof.
  intros Hs. split_and!.
  - unfold apply_on_failure_starts. destruct (each_nothing (start_failure_handler at_ns slots) still transitions w)
      as (out & E & Hj); [|done|]; [|unfold mbind at 1, exec_bind; rewrite E; by rewrite Hj].
    intros t w' [_ _ Ht _]. unfold start_failure_handler. by rewrite Ht, orb_true_r.
  - unfold apply_binds_to_recovery_starts. destruct (each_nothing (recover_binds_to at_ns slots) still transitions w)
      as (out & E & Hj); [|done|]; [|unfold mbind at 1, exec_bind; rewrite E; by rewrite Hj].
    intros t w' [_ Ha _ _]. unfold recover_binds_to. by rewrite bool_decide_eq_true_2.
  - assert (released_terminals transitions = ∅) as Hr.
    { unfold released_terminals. induction Hs as [|t l [_ _ _ Ht] _ IH]; simpl; [done|]. by rewrite Ht. }
    unfold apply_tty_release_starts. by rewrite Hr.
Qed.

Lemma react_still settle transitions g n :
  triple (tracked g n) settle (λ _, tracked g n) → Forall still transitions →
  triple (tracked g n) (react settle transitions at_ns slots : SupM _) (λ _, tracked g n).
Proof using Hat.
  intros Hsettle Hs. unfold react. eapply triple_bind; [apply eases_clear|]. intros [].
  eapply triple_bind; [apply eases_get|]. intros [|]; [apply eases_ret|].
  eapply triple_bind; [apply eases_propagation|]. intros []. eapply triple_bind; [exact Hsettle|]. intros [].
  intros w Hw. destruct (still_reactions transitions w Hs) as (E1 & E2 & _).
  rewrite (exec_bind_at _ _ w w []) by done. rewrite (exec_bind_at _ _ w w []) by done. clear E1 E2. revert w Hw.
  refine (_ : triple _ _ _). eapply triple_bind; [apply eases_conflicts|]. intros unblocked.
  eapply triple_bind; [apply eases_level_waiters|]. intros waiters w Hw.
  destruct (still_reactions transitions w Hs) as (_ & _ & E3). rewrite (exec_bind_at _ _ w w []) by done.
  eexists _, _. split; [done|]. by intros _ _.
Qed.
End React.

(** ** A settlement ends somebody *)

Lemma end_member_reports id s op outcome c c' events : end_member id s op outcome c = Some (c', Ok events) → events ≠ [].
Proof.
  unfold end_member, mbind, graph_bind. destruct (mark_terminal s outcome c) as [[c1 [?|?]]|]; [|done..].
  case_bool_decide; [destruct (propagate_hard_dependency_failure s c1) as [[c2 [l|?]]|]; [|done..]|]; by intros [= _ <-].
Qed.

Lemma settle_each_reports service outcome ids id c m g g' events :
  id ∈ ids → g.(gs_contexts) !! id = Some c → c.(gc_members) !! service = Some m → m.(gm_status) = GsAwaitingRestart →
  extend_each (λ id, on_context id (settle_context service outcome)) ids g = Some (g', Ok events) → events ≠ [].
Proof.
  intros Hin Hc Hm Hst. revert g events Hc. induction ids as [|x ids IH]; intros g events Hc; [by apply elem_of_nil in Hin|].
  simpl. unfold mbind, graph_bind. destruct (on_context x _ g) as [[g1 [a|?]]|] eqn:E1; [|done..].
  destruct (extend_each _ ids g1) as [[g2 [b|?]]|] eqn:E2; [|done..]. intros [= -> <-] [-> ->]%app_nil.
  unfold on_context in E1. destruct (decide (x = id)) as [->|Hne].
  - rewrite Hc in E1. destruct (settle_context service outcome c) as [[c1 r]|] eqn:Es; [|done]. injection E1 as <- ->.
    unfold settle_context, mbind, graph_bind, gets in Es. rewrite Hm, bool_decide_eq_false_2 in Es by tauto.
    by apply end_member_reports in Es.
  - apply elem_of_cons in Hin as [->|Hin]; [done|]. apply (IH Hin g1 [] ) in E2; [done|].
    destruct (gs_contexts g !! x) as [cx|] eqn:Ex; [|by injection E1 as <-].
    destruct (settle_context service outcome cx) as [[c1 r]|]; [|done]. injection E1 as <- _. simpl.
    by rewrite lookup_insert_ne.
Qed.

Lemma elem_of_awaiting g service :
  service ∈ awaiting_restart_services g → graph_wf g →
  ∃ id c m, g.(gs_contexts) !! id = Some c ∧ c.(gc_members) !! service = Some m ∧ m.(gm_status) = GsAwaitingRestart.
Proof.
  unfold awaiting_restart_services. rewrite elem_of_btree_elements, elem_of_list_to_set.
  intros (m & -> & [Hst Hin]%list_elem_of_filter)%list_elem_of_fmap Hg.
  apply list_elem_of_join in Hin as (l & Hm & (c & -> & Hc)%list_elem_of_fmap).
  apply elem_of_btree_values in Hc as (id & Hc). apply elem_of_btree_values in Hm as (x & Hm).
  exists id, c, m. destruct (gw_contexts g Hg id c Hc) as (_ & _ & Hw). rewrite (cw_keys _ Hw _ _ Hm). done.
Qed.

Lemma settle_reports service outcome g g' events :
  graph_wf g → service ∈ awaiting_restart_services g →
  settle_awaiting_restart service outcome g = Some (g', Ok events) → (1 ≤ List.length events)%nat.
Proof.
  intros Hg Hin E. destruct (elem_of_awaiting g service Hin Hg) as (id & c & m & Hc & Hm & Hst).
  unfold settle_awaiting_restart in E. rewrite (bind_ok _ _ g g (btree_keys g.(gs_contexts))) in E by done.
  apply (settle_each_reports service outcome _ id c m) in E; [by destruct events; [|simpl; lia]|..]; try done.
  apply elem_of_btree_keys. eauto.
Qed.

(** ** Settlement *)

Section Settle.
Context {P BoundaryError : Type} `{CalendarSyntax}.
Context (at_ns : Z) (Hat : 0 ≤ at_ns) (slots : nat).
Notation Work := (SupervisorWork P BoundaryError).
Notation Error := (SupervisorError BoundaryError).
Notation SupM := (Exec Work Error).

Lemma tracked_weaken g n k (w : Work) : (k ≤ n)%nat → tracked g n w → tracked g k w.
Proof. intros Hk [? ?]. split; [done|]. by eapply spent_weaken. Qed.

(** The members that a settlement ends, counted; at least one if somebody
    waits for the service. *)
Lemma settle_graph_run target outcome g n (w : Work) :
  tracked g n w →
  ∃ w' r, (sup_exec id (on_graph SeGraph (settle_awaiting_restart target outcome)) : SupM _) w = Some (w', r) ∧
    ∀ events, r = Ok events → tracked g (n + List.length events) w' ∧
      (target ∈ awaiting_restart_services (su_graph w) → (1 ≤ List.length events)%nat).
Proof.
  intros [Hw Hs]. assert (graph_wf (su_graph w)) as Hg by apply Hw.
  destruct (settle_counted target outcome (su_graph w) Hg) as (g' & r & E & Hsp & Hc).
  assert (sound (sup_exec id (on_graph SeGraph (settle_awaiting_restart target outcome)) : SupM _)) as Hsound.
  { apply sound_exec; [|apply stays_graph, graph_stays_settle]. apply keeps_wf_quiet, quiet_graph.
    apply store_operations_act. }
  destruct (Hsound w Hw) as (w' & r' & Ew & Hw'). exists w', r'. split; [done|]. intros events ->.
  specialize (Hw' events eq_refl). unfold sup_exec, exec_within, on_graph, exec_within in Ew. unfold su_graph in E.
  rewrite E in Ew. injection Ew as <- Hr. destruct r as [evs|]; [|done]. simpl in Hr. injection Hr as ->.
  pose proof (ends_count _ _ _ (Hc events eq_refl)) as Hn. split; [split; [done|]|].
  - destruct Hs as [W L U C]. destruct (spends_pairs _ _ Hsp) as (_ & HU%subseteq_size & HC).
    unfold su_graph in *. split; simpl; [by eapply store_spends_wf|lia..].
  - intros Hin. by eapply (settle_reports target outcome (su_graph w)).
Qed.

Lemma fail_held_run target outcome events g n :
  triple (tracked g n) (fail_held_dependents target outcome events at_ns : SupM _)
    (λ failures w, tracked g n w ∧ Forall still failures.(df_service_transitions)).
Proof.
  unfold fail_held_dependents. destruct outcome as [|reason]; [apply triple_ret'; intros w Hw; split; [done|constructor]|].
  unfold fail_dependents_after_graph_events.
  assert (eases (sup_exec (λ e, SeStarting (SeStartFailure e))
    (fail_dependents target at_ns (abandon_reason target reason) ∅ events) : SupM _)) as He.
  { apply eases_exec; [apply keeps_wf_quiet, quiet_fail_dependents|apply fail_dependents_stays|apply fail_dependents_declines]. }
  intros w Hw. destruct (He g n w Hw) as (w' & r & E & Hr). exists w', r. split; [done|]. intros failures Hf.
  split; [by apply (Hr failures)|]. subst r. apply exec_within_Ok in E as (x & E & _). by eapply fail_dependents_still.
Qed.

Context (fuel : nat) (settle : SupM unit) (g : GraphExecutionStore).
Context (Hsettle : ∀ k, (size (live_pairs g) < fuel + k)%nat → triple (tracked g k) settle (λ _, tracked g k)).

Lemma settle_target_run n k target (w : Work) :
  tracked g n w → (1 ≤ k → target ∈ awaiting_restart_services (su_graph w))%nat → (k ≤ 1)%nat →
  (size (live_pairs g) < fuel + (n + k))%nat →
  ∃ w' r, settle_target settle at_ns slots target w = Some (w', r) ∧ ∀ a, r = Ok a → w' = w ∨ tracked g (n + k) w'.
Proof using Hat Hsettle.
  intros Hw Hin Hk Hfuel. unfold settle_target. rewrite (exec_bind_at _ _ w w (decided_outcome (su_services w) target)) by done.
  destruct (decided_outcome (su_services w) target) as [outcome|]; [|eexists _, _; split; [done|]; by left].
  destruct (settle_graph_run target (graph_outcome_of outcome) g n w Hw) as (w1 & [events|e] & E1 & H1).
  2: { rewrite (exec_bind_Err_at _ _ w w1 e) by done. by eexists _, _. }
  rewrite (exec_bind_at _ _ w w1 events) by done. destruct (H1 events eq_refl) as [Hw1 Hev].
  assert (k ≤ List.length events)%nat as Hlen by (destruct k as [|[|k]]; [lia|apply Hev, Hin; lia|lia]).
  match goal with |- ∃ w' r, ?m w1 = _ ∧ _ =>
    cut (triple (tracked g (n + List.length events)) m (λ _, tracked g (n + k))) end.
  { intros Hm. destruct (Hm w1 Hw1) as (w' & r & E & Hr). exists w', r. split; [exact E|]. intros a Ha. right.
    by apply (Hr a). }
  eapply triple_bind; [apply fail_held_run|]. intros failures.
  intros w2 [Hw2 Hstill]. revert w2 Hw2. refine (_ : triple _ _ _).
  eapply triple_bind; [apply react_still; [done| |done]|].
  { apply Hsettle. lia. }
  intros reacted. eapply triple_bind; [apply eases_release_events|]. intros released w3 Hw3. eexists _, _. split; [done|].
  intros _ _. destruct Hw3 as [[? ? ? ? ? ? ? ?] Hs3]. split; [by split|].
  eapply spent_weaken; [|exact Hs3]. lia.
Qed.

Lemma settle_targets_run n targets (w0 w : Work) :
  tracked g n w0 → (∀ x, x ∈ targets → x ∈ awaiting_restart_services (su_graph w0)) →
  (size (live_pairs g) < fuel + (n + 1))%nat → w = w0 ∨ tracked g (n + 1) w →
  ∃ w' r, exec_each (settle_target settle at_ns slots) targets w = Some (w', r) ∧ ∀ a, r = Ok a → tracked g n w'.
Proof using Hat Hsettle.
  intros Hw0 Hin Hfuel. revert w. induction targets as [|x targets IH]; intros w Hw; simpl.
  { eexists _, _. split; [done|]. intros a _. destruct Hw as [->|Hw]; [done|]. eapply tracked_weaken; [|exact Hw]. lia. }
  assert (∃ w' r, settle_target settle at_ns slots x w = Some (w', r) ∧ ∀ a, r = Ok a → w' = w0 ∨ tracked g (n + 1) w')
    as (w1 & r & E & Hr).
  { destruct Hw as [->|Hw].
    - apply settle_target_run; [done|intros _; apply Hin; left|lia|lia].
    - destruct (settle_target_run (n + 1) 0 x w Hw) as (w1 & r & E & Hr); [lia|lia|lia|]. exists w1, r. split; [done|].
      intros a Ha. right. rewrite Nat.add_0_r in Hr. by destruct (Hr a Ha) as [->|?]. }
  destruct r as [[]|e]; [|rewrite (exec_bind_Err_at _ _ w w1 e) by done; by eexists _, _].
  rewrite (exec_bind_at _ _ w w1 ()) by done.
  destruct (IH (λ y Hy, Hin y (list_elem_of_further _ _ _ Hy)) w1 (Hr () eq_refl)) as (w2 & [l|e] & E2 & H2).
  - rewrite (exec_bind_at _ _ w1 w2 l) by done. eexists _, _. split; [done|]. intros a _. by apply (H2 l).
  - rewrite (exec_bind_Err_at _ _ w1 w2 e) by done. by eexists _, _.
Qed.
End Settle.

Section Ends.
Context {P BoundaryError : Type} `{CalendarSyntax}.
Context (at_ns : Z) (Hat : 0 ≤ at_ns) (slots : nat).
Notation Work := (SupervisorWork P BoundaryError).
Notation Error := (SupervisorError BoundaryError).
Notation SupM := (Exec Work Error).

Lemma settle_loop_tracked fuel g n :
  (size (live_pairs g) < fuel + n)%nat →
  triple (tracked g n) (settle_loop fuel at_ns slots : SupM unit) (λ _, tracked g n).
Proof using Hat.
  revert n. induction fuel as [|fuel IH]; intros n Hfuel w Hw.
  { destruct Hw as [_ [_ L _ _]]. lia. }
  simpl. rewrite (exec_bind_at _ _ w w (awaiting_restart_services (su_graph w))) by done.
  destruct (settle_targets_run at_ns Hat slots fuel (settle_loop fuel at_ns slots) g IH n
    (awaiting_restart_services (su_graph w)) w w Hw) as (w1 & [l|e] & E & H1); [done|lia|by left|..].
  - rewrite (exec_bind_at _ _ w w1 l) by done. eexists _, _. split; [done|]. intros a _. by apply (H1 l).
  - rewrite (exec_bind_Err_at _ _ w w1 e) by done. by eexists _, _.
Qed.

Lemma eases_settle : eases (settle_held_restarts at_ns slots : SupM unit).
Proof using Hat.
  intros g n w Hw. unfold settle_held_restarts, settle_fuel.
  destruct (settle_loop_tracked (S (size (live_pairs (su_graph w)))) (su_graph w) 0) with (s := w) as (w' & r & E & Hr).
  - lia.
  - split; [apply Hw|]. apply spent_refl. apply (tr_spent _ _ _ Hw).
  - exists w', r. split; [done|]. intros a Ha. destruct (Hr a Ha) as [Hw' Hs']. split; [done|].
    rewrite <-(Nat.add_0_r n). eapply spent_trans; [apply (tr_spent _ _ _ Hw)|exact Hs'].
Qed.
End Ends.
