(* ===== verification/SupervisorInv.v ===== *)
(** * Properties of the supervisor's transactions

    About [Relationships], [SupervisorRun] and [SupervisorChecks]: every
    transaction answers and leaves the stores well formed, or as they were; the
    recursion between reactions and settlements ends; who blocks a start, who
    is started for a failure, and what a watchdog, a timer and the clean-up of
    a control group do. *)

From S2P Require Import Prelude RustStr ServiceRuntime ServiceDef Ids Restart Cgroup ServiceTable Calendar Tty.
From S2P Require Import OperationRecord OperationStore OperationInv ExecCommand StartPlan StartPlanSpec Lifecycle.
From S2P Require Import JobRecord JobStore SubmittedRun FailureDispatch.
From S2P Require Import Effects ExecGraph StartState StartBegin StartRun MainProcess Release.
From S2P Require Import Graph ServiceTableInv ExecGraphSpec ExecGraphInv StartInv ReleaseInv.
From S2P Require Import ControlRun ControlInv Notify SubmittedDef NotifyRun ShutdownRun SupWork Relationships.
From S2P Require Import SupervisorRun SupervisorChecks SettleInv.
From Stdlib Require Import String.
Open Scope string_scope.
Open Scope list_scope.
Open Scope Z_scope.

(** ** Starts that a relationship or a timer asks for *)

Section Starts.
Context {P BoundaryError : Type} `{CalendarSyntax}.
Context (at_ns : Z) (Hat : 0 ≤ at_ns) (slots : nat).
Notation Work := (SupervisorWork P BoundaryError).
Notation Error := (SupervisorError BoundaryError).
Notation SupM := (Exec Work Error).

(** An operation has been asked for that has no context yet. *)
Record roomy (w : Work) : Prop := {
  ry_wf : sup_wf w;
  ry_next : next_of (su_exec w) < w.(su_shutdown_work).(sw_operation_ids);
  ry_max : next_of (su_exec w) < u64_max;
}.

Lemma allocated_bound next t next' ids : allocate_batch next 1 t = (next', Ok ids) → next' = next + 1 ∧ next < u64_max.
Proof.
  intros E. pose proof (allocated_length _ _ _ _ _ E) as [_ ->]. split; [lia|]. unfold allocate_batch, u64_checked_add in E.
  change (Z.of_nat 1) with 1 in E. destruct (Z.leb_spec (next + 1) u64_max); [lia|]. by simpl in E.
Qed.

Lemma allocate_roomy : triple sup_wf (allocate_operation_id at_ns : SupM OperationId) (λ _, roomy).
Proof.
  unfold allocate_operation_id. apply (triple_bind _ (λ _, roomy)); [|intros; by apply triple_ret']. intros w Hw.
  unfold exec_on. destruct (allocate_batch _ 1 at_ns) as [ids r] eqn:Ea. eexists _, _. split; [done|]. intros a Ha.
  destruct r as [l|e]; [|done]. apply allocated_bound in Ea as [-> Hm]. destruct Hw as [? Hi ? ? ? ? ? ?].
  change (next_of (su_exec w) ≤ sw_operation_ids (su_shutdown_work w)) in Hi.
  split; [split; simpl; try done|..].
  - change (next_of (su_exec w) ≤ sw_operation_ids (su_shutdown_work w) + 1). lia.
  - change (next_of (su_exec w) < sw_operation_ids (su_shutdown_work w) + 1). lia.
  - change (next_of (su_exec w) < u64_max). lia.
Qed.

Definition planned (plan : OnDemandStartPlan) (w : Work) : Prop :=
  ∃ service source cause, plan_start (su_services w) service source cause = Some (Ok plan).

Lemma admission_roomy plan id :
  triple (λ w, roomy w ∧ planned plan w) (on_admission (dispatch_on_demand_start_plan plan id None at_ns) : SupM _)
    (λ _, roomy).
Proof using Hat.
  intros w [[Hw Hn Hm] (service & source & cause & Hp)]. unfold on_admission, exec_on.
  pose proof Hw as [[[[? Ho ? ?] ?] ?] ? ? ? ? ? ? ?].
  pose proof (start_dispatch_spec _ _ _ _ plan id None at_ns (su_operations w) (sw_operation_ids (su_shutdown_work w)) Hp Ho Hat)
    as Hd.
  destruct (dispatch_on_demand_start_plan _ _ _ _ _ _) as [[operations ids] r]. destruct Hd as [Hop Hr].
  eexists _, _. split; [done|]. intros d Hd. destruct r as [d'|e]; [|done]. destruct Hr as (_ & _ & ->).
  split; [split; simpl; try done|..].
  - change (next_of (su_exec w) ≤ sw_operation_ids (su_shutdown_work w) + Z.of_nat (Nat.pred (List.length (osp_starts plan)))). lia.
  - change (next_of (su_exec w) < sw_operation_ids (su_shutdown_work w) + Z.of_nat (Nat.pred (List.length (osp_starts plan)))). lia.
  - exact Hm.
Qed.

Lemma create_context_sound dispatch : triple roomy (create_start_context dispatch : SupM _) (λ _, sup_wf).
Proof.
  intros w [Hw Hn Hm]. pose proof Hw as [[[[? ? Hg ?] ?] ?] Hi ? ? ? ? ? ?].
  unfold create_start_context, mbind, exec_bind, exec_get, exec_on.
  pose proof (graph_step_keeps (su_graph w) _ Hg (gstep_on_demand _ dispatch (su_services w) Hm)) as [Hg' _].
  unfold create_on_demand_context in *. destruct (on_demand_context _ _ _) as [c|e] eqn:Ec; simpl in *;
    (eexists _, _; split; [done|]); [|done]. intros a _. split; simpl; try done.
  change (u64_wrapping_add (gc_id c) 1 ≤ sw_operation_ids (su_shutdown_work w)).
  apply on_demand_context_wf in Ec as [_ Hid]. change (gc_id c = next_of (su_exec w)) in Hid.
  rewrite Hid, u64_wrapping_add_small; [lia|]. pose proof (gw_next _ Hg) as Hpos.
  change (0 ≤ next_of (su_exec w)) in Hpos. unfold is_u64, u64_max in *. lia.
Qed.

Lemma planned_sound (f : ServiceTable → option (Result OnDemandStartPlan OnDemandStartPlanError)) service source cause :
  (∀ services, f services = plan_start services service source cause) →
  triple roomy (λ w : Work, match f (su_services w) with
                            | None => None
                            | Some r => Some (w, map_err (λ e, SeLifecycle (LcStartPlan e) : Error) r)
                            end) (λ plan w, roomy w ∧ planned plan w).
Proof.
  intros Hf w Hw. destruct (plan_start_spec (su_services w) service source cause) as (r & Er & _).
  rewrite Hf, Er. eexists _, _. split; [done|]. intros plan Hp. destruct r as [plan'|]; [|done]. injection Hp as ->.
  split; [done|]. by exists service, source, cause.
Qed.

Lemma planned_relationship_sound plan service :
  triple roomy (planned_relationship_start plan service : SupM _) (λ plan w, roomy w ∧ planned plan w).
Proof.
  destruct plan; [apply (planned_sound (λ services, plan_binds_to_recovery_start services service) service
      SrcBindsToRecovery TcBindsToRecovery)
    |apply (planned_sound (λ services, plan_on_failure_start services service) service SrcOnFailure TcExplicitStart)
    |apply (planned_sound (λ services, plan_tty_release_start services service) service SrcTtyRelease TcExplicitStart)];
    done.
Qed.

Lemma keep_chain_roomy service chain dispatch :
  (∀ c, chain = Some c → chain_wf service c) →
  triple roomy (keep_on_failure_chain service chain dispatch : SupM unit) (λ _, roomy).
Proof.
  intros Hc. unfold keep_on_failure_chain. eapply triple_bind; [apply triple_get|]. intros live w [Hw ->].
  destruct chain as [c|]; [|eexists _, _; by split]. destruct (_ && _); [|eexists _, _; by split].
  eexists _, _. split; [done|]. intros _ _. destruct Hw as [[? ? ? ? ? [? ?] ?] ? ?]. split; [split|..]; simpl; try done.
  split; [done|]. simpl. apply map_Forall_insert_2; [by apply Hc|done].
Qed.

Lemma start_sound plan service chain :
  (∀ c, chain = Some c → chain_wf service c) →
  sound (dispatch_relationship_start plan service chain at_ns slots : SupM _).
Proof using Hat.
  intros Hc. unfold dispatch_relationship_start. apply sound_bind; [apply sound_get|]. intros []; [apply sound_ret|].
  eapply triple_bind; [apply allocate_roomy|]. intros id. eapply triple_bind; [apply planned_relationship_sound|].
  intros start_plan. eapply triple_bind; [apply admission_roomy|]. intros outcome.
  eapply (triple_bind _ (λ _, roomy)).
  { case_bool_decide; [by apply keep_chain_roomy|by apply triple_ret']. }
  intros _. eapply triple_bind; [apply create_context_sound|]. intros context_id.
  case_bool_decide; [apply sound_ret|]. by apply eases_sound, eases_gate.
Qed.

(** ** Reactions *)

Lemma handler_sound t : sound (start_failure_handler at_ns slots t : SupM _).
Proof using Hat.
  unfold start_failure_handler. cbv zeta. destruct (_ || _); [apply sound_ret|]. apply sound_bind; [apply sound_get|].
  intros []; [apply sound_ret|]. apply sound_bind; [apply sound_get|]. intros [target|]; [|apply sound_ret].
  case_bool_decide; [apply sound_ret|].
  eapply triple_bind with (Mid := λ taken w, sup_wf w ∧ ∀ c, taken = Some c → ∃ s, chain_wf s c).
  { intros w Hw. eexists _, _. split; [done|]. intros ? [= <-]. split; [done|]. intros c Hc.
    exists (tt_event t).(ev_service). by apply (rw_chains _ (uw_relationships _ Hw)). }
  intros taken w [Hw Ht]. revert w Hw. refine (_ : triple _ _ _). apply sound_bind.
  { apply eases_sound, eases_relationships. intros s [? ?]. split; [done|]. by apply map_Forall_delete. }
  intros _. destruct (with_handler (default chain_root taken) target) as [chain|reason] eqn:Ew.
  - apply start_sound. intros c [= <-]. unfold with_handler in Ew.
    destruct (Nat.leb_spec MAX_DEPTH (List.length (ofc_services (default chain_root taken)))) as [|Hlen]; [done|].
    case_bool_decide as Hin; [done|]. injection Ew as <-. unfold chain_wf. simpl. split_and!.
    + by rewrite last_snoc.
    + apply NoDup_app. split_and!; [|set_solver|apply NoDup_singleton]. destruct taken as [c|]; [|constructor].
      by destruct (Ht c eq_refl) as (s & _ & ? & _).
    + rewrite length_app. simpl. lia.
  - apply sound_bind; [|intros; apply sound_ret]. apply eases_sound, eases_relationships. intros s [? ?]. by split.
Qed.

Lemma react_sound settle transitions :
  sound settle → sound (react settle transitions at_ns slots : SupM _).
Proof using Hat.
  intros Hs. unfold react. apply sound_bind; [apply eases_sound, eases_clear|]. intros _.
  apply sound_bind; [apply sound_get|]. intros []; [apply sound_ret|].
  apply sound_bind; [by apply eases_sound, eases_propagation|]. intros _. apply sound_bind; [done|]. intros _.
  apply sound_bind; [|intros handlers].
  { apply sound_bind; [apply sound_each; intros; apply handler_sound|]. intros. apply sound_ret. }
  apply sound_bind; [|intros recovered].
  { apply sound_bind; [|intros; apply sound_ret]. apply sound_each. intros t. unfold recover_binds_to. cbv zeta.
    destruct (_ || _); [apply sound_ret|]. apply sound_bind; [apply sound_get|]. intros dependents.
    apply sound_bind; [|intros; apply sound_ret]. apply sound_each. intros x. unfold recover_bound_dependent.
    apply sound_bind; [apply sound_get|]. intros []; [by apply start_sound|apply sound_ret]. }
  apply sound_bind; [by apply eases_sound, eases_conflicts|]. intros unblocked.
  apply sound_bind; [apply eases_sound, eases_level_waiters|]. intros waiters.
  apply sound_bind; [|intros; apply sound_ret].
  apply sound_bind; [|intros; apply sound_ret]. apply sound_each. intros [tty released_by]. unfold hand_terminal_on.
  apply sound_bind; [apply sound_get|]. intros [|]; [apply sound_ret|]. apply sound_bind; [apply sound_get|].
  intros [candidate|]; [by apply start_sound|apply sound_ret].
Qed.

Lemma reactions_sound transitions :
  sound (apply_relationship_reactions_after_transitions transitions at_ns slots : SupM _).
Proof using Hat. apply react_sound. by apply eases_sound, eases_settle. Qed.

Lemma timer_start_sound settings service :
  sound (dispatch_timer_start_for_work settings service at_ns : SupM _).
Proof using Hat.
  unfold dispatch_timer_start_for_work. eapply triple_bind; [apply allocate_roomy|]. intros id.
  eapply triple_bind.
  { by apply (planned_sound (λ services, plan_timer_start services service) service SrcTimer TcTimer). }
  intros plan. eapply triple_bind; [apply admission_roomy|]. intros outcome.
  eapply triple_bind; [apply create_context_sound|]. intros context_id.
  apply sound_bind; [by apply eases_sound, eases_gate|]. intros. apply sound_ret.
Qed.
End Starts.

(** ** Steps of the components that create no context *)

Section Components.
Context {P BoundaryError : Type} `{!ProcessController P BoundaryError}.
Notation StartError := (StartExecutionError BoundaryError).

Lemma satisfaction_stays request : stays (apply_start_satisfaction request : Step P _ _).
Proof. unfold apply_start_satisfaction, satisfied_state. stay. Qed.

Lemma readiness_stays request : stays (complete_start_readiness request : Step P StartError _).
Proof.
  unfold complete_start_readiness, begin_post_start_hooks, satisfied_state, get_operation, allocate_job_id. stay; apply satisfaction_stays.
Qed.

Lemma main_terminal_stays event :
  stays (apply_service_main_job_terminal (BoundaryError := BoundaryError) event : Step P _ _).
Proof.
  unfold apply_service_main_job_terminal, apply_oneshot_start_success, apply_start_process_failure,
    apply_active_simple_exit, apply_reloading_simple_exit, apply_restart_evaluation, apply_active_transition,
    apply_restart_backoff, apply_stopping_simple_exit, apply_stopped_transition, terminal_operation_id.
  stay; first [apply readiness_stays|apply start_failure_stays].
Qed.

Lemma restart_leg_stays request : stays (begin_restart_start_leg request : Step P StartError _).
Proof.
  unfold begin_restart_start_leg, get_operation, create_initial_start_job, create_initial_main_job,
    create_initial_pre_start_hook, record_request_readiness_deadline, allocate_job_id, skip_service,
    clear_skipped_for_explicit_start, assertion_failure, job_id_for_ready_start.
  stay; apply start_failure_stays.
Qed.

(** Steps of control operations. *)
Definition control_stays {E A} (m : Exec (ControlState P) E A) : Prop :=
  relates (λ s s', same_next s.(cx_exec) s'.(cx_exec)) m.

#[local] Instance control_next_preorder : PreOrder (λ s s' : ControlState P, same_next s.(cx_exec) s'.(cx_exec)).
Proof. split; [done|]. intros a b c Hab Hbc. by etrans. Qed.

Lemma control_stays_in {E F A} (wrap : F → E) (m : Step P F A) : stays m → control_stays (in_exec wrap m).
Proof. intros Hm. by apply (relates_within _ same_next). Qed.
Lemma control_stays_bind {E A B} (m : Exec (ControlState P) E A) (k : A → Exec (ControlState P) E B) :
  control_stays m → (∀ a, control_stays (k a)) → control_stays (m ≫= k).
Proof. apply relates_bind, _. Qed.
Lemma control_stays_reads {E A} (m : Exec (ControlState P) E A) : reads m → control_stays m.
Proof. apply relates_reads, _. Qed.
Lemma control_stays_each {E X A} (body : X → Exec (ControlState P) E A) xs :
  (∀ x, control_stays (body x)) → control_stays (exec_each body xs).
Proof. apply relates_each, _. Qed.
Lemma control_stays_atomic {E A} (m : Exec (ControlState P) E A) : control_stays m → control_stays (control_atomic m).
Proof. intros Hm. apply relates_atomic; [exact Hm|]. done. Qed.
Lemma control_stays_on {E} f : control_stays (on_control f : Exec (ControlState P) E unit).
Proof. by apply relates_update. Qed.
Lemma control_stays_on_with {E A} (f : ControlExecutionStore → ControlExecutionStore * A) :
  control_stays (on_control_with f : Exec (ControlState P) E A).
Proof. by apply relates_on. Qed.
End Components.

Ltac control_stay_step :=
  match goal with
  | |- control_stays (mret _) => apply control_stays_reads, reads_ret
  | |- control_stays (exec_fail _) => apply control_stays_reads, reads_fail
  | |- control_stays (exec_get _) => apply control_stays_reads, reads_get
  | |- control_stays (exec_lift _) => apply control_stays_reads, reads_lift
  | |- control_stays (exec_each _ _) => apply control_stays_each; intros ?
  | |- control_stays (control_atomic _) => apply control_stays_atomic
  | |- control_stays (on_control _) => apply control_stays_on
  | |- control_stays (on_control_with _) => apply control_stays_on_with
  | |- control_stays (in_exec _ _) => apply control_stays_in; solve [stay]
  | |- control_stays (_ ≫= _) => apply control_stays_bind; [|intros ?]
  | |- control_stays (match ?x with _ => _ end) => destruct x
  | |- control_stays (let _ := _ in _) => cbv zeta
  end.
Ltac control_stay := repeat (control_stay_step; cbv beta zeta).

Section Control.
Context {P BoundaryError : Type} `{!ProcessController P BoundaryError}.

Lemma begin_control_stays request :
  control_stays (begin_control_operation request : Exec (ControlState P) (ControlExecutionError BoundaryError) _).
Proof.
  unfold begin_control_operation, operation_record, begin_stop_like_operation, begin_reload_operation, begin_signal_reload,
    begin_command_reload, adopt_stop, cancel_reload, begin_control_stop, cancel_reload_command, cancel_reload_command_job.
  unfold operation_record, allocate_job_id. control_stay.
Qed.

Lemma escalate_stays deadline now_ns :
  control_stays (escalate_due_stop deadline now_ns : Exec (ControlState P) (ControlExecutionError BoundaryError) _).
Proof. unfold escalate_due_stop. control_stay. Qed.
End Control.

(** ** Steps of a transaction *)

Create HintDb sound discriminated.

Ltac sound_step :=
  match goal with
  | |- sound (mret _) => apply sound_ret
  | |- sound (exec_fail _) => apply sound_fail
  | |- sound (exec_get _) => apply sound_get
  | |- sound (exec_lift _) => apply sound_lift
  | |- sound (exec_map_err _ _) => apply sound_map_err
  | |- sound (exec_each _ _) => apply sound_each; intros ?
  | |- sound (_ ≫= _) => apply sound_bind; [|intros ?]
  | |- sound (match ?x with _ => _ end) => destruct x
  | |- sound (let _ := _ in _) => cbv zeta
  | |- _ => solve [auto with sound nocore]
  end.
Ltac sounds := repeat (sound_step; cbv beta zeta).

Section Transactions.
Context {P BoundaryError : Type} `{CalendarSyntax} `{!ProcessController P BoundaryError}.
Notation Work := (SupervisorWork P BoundaryError).
Notation Error := (SupervisorError BoundaryError).
Notation SupM := (Exec Work Error).

Lemma sound_control {E F A} (wrap : F → E) (m : Exec (ControlState P) F A) :
  serves control_wf m → control_stays m → sound (sup_control wrap m : Exec Work E A).
Proof.
  intros Hm Hs w Hw. pose proof Hw as [Hc Hi ? ? ? ? ? ?]. unfold sup_control, exec_within.
  destruct (Hm (su_control w) Hc) as (c & r & Em & Hr). rewrite Em. eexists _, _. split; [done|]. intros a _.
  pose proof (Hs _ _ _ Em) as Hn. split; simpl; try done.
  change (next_of (cx_exec c) ≤ sw_operation_ids (su_shutdown_work w)). by rewrite Hn.
Qed.

Lemma sound_update {E} (f : Work → Work) : (∀ w, sup_wf w → sup_wf (f w)) → sound (exec_update f : Exec Work E unit).
Proof. intros Hf w Hw. eexists _, _. split; [done|]. intros _ _. by apply Hf. Qed.

Lemma sound_kill {E F} (wrap : F → E) (wrap' : BoundaryError → F) cgroup_id :
  sound (sup_exec wrap (kill wrap' cgroup_id) : Exec Work E unit).
Proof. apply sound_exec; [apply keeps_wf_quiet, quiet_kill|by apply stays_on]. Qed.

Lemma sound_jobs {E F A} (wrap : F → E) (wrap' : JobStoreError → F) (f : JobStore → JobResult A) :
  (∀ s, jobs_wf s → jobs_wf (f s).1) → sound (sup_exec wrap (StartState.on_jobs wrap' f) : Exec Work E A).
Proof. intros Hf. apply sound_exec; [by apply keeps_wf_quiet, quiet_jobs|by apply stays_on]. Qed.

Lemma sound_operations {E F A} (wrap : F → E) (wrap' : OperationStoreError → F) (f : OperationStore → StoreResult A) :
  (∀ s, op_step s (f s).1) → sound (sup_exec wrap (on_operations wrap' f) : Exec Work E A).
Proof. intros Hf. apply sound_exec; [by apply keeps_wf_quiet, quiet_operations|by apply stays_on]. Qed.

Lemma sound_services {E F A} (wrap : F → E) (wrap' : ServiceTableError → F) (f : gmap string ServiceEntry → TableResult A) :
  (∀ t, table_wf t → table_wf (f t).1) → sound (sup_exec wrap (on_services wrap' f) : Exec Work E A).
Proof. intros Hf. apply sound_exec; [by apply keeps_wf_quiet, quiet_services|by apply stays_on]. Qed.

Lemma sound_transition {E F} (wrap : F → E) (wrap' : ServiceTableError → F) service t :
  sound (sup_exec wrap (on_services wrap' (transition_service service t)) : Exec Work E _).
Proof. apply sound_services. intros s Hs. by apply transition_service_wf. Qed.

Lemma finish_wf id at_ns exit cause code (s : JobStore) :
  jobs_wf s →
  jobs_wf (fail_running_job id at_ns exit cause s).1 ∧ jobs_wf (fail_job_before_start id at_ns cause s).1 ∧
  jobs_wf (complete_job id at_ns code s).1.
Proof.
  intros Hs. split_and!; apply finish_job_wf; auto using ends_fail_running, ends_fail_before_start, ends_complete.
Qed.

Lemma sound_fail_running {E F} (wrap : F → E) (wrap' : JobStoreError → F) id at_ns exit cause :
  sound (sup_exec wrap (StartState.on_jobs wrap' (fail_running_job id at_ns exit cause)) : Exec Work E _).
Proof. apply sound_jobs. intros s Hs. by apply (finish_wf id at_ns exit cause 0 s). Qed.

Lemma sound_fail_before {E F} (wrap : F → E) (wrap' : JobStoreError → F) id at_ns cause :
  sound (sup_exec wrap (StartState.on_jobs wrap' (fail_job_before_start id at_ns cause)) : Exec Work E _).
Proof. apply sound_jobs. intros s Hs. by apply (finish_wf id at_ns None cause 0 s). Qed.

Lemma sound_fail_operation {E F} (wrap : F → E) (wrap' : OperationStoreError → F) id at_ns reason :
  sound (sup_exec wrap (on_operations wrap' (fail_operation id at_ns reason)) : Exec Work E _).
Proof. apply sound_operations. intros s. apply ostep_fail. Qed.

Lemma sound_complete_operation {E F} (wrap : F → E) (wrap' : OperationStoreError → F) id at_ns result :
  sound (sup_exec wrap (on_operations wrap' (complete_operation id at_ns result)) : Exec Work E _).
Proof. apply sound_operations. intros s. apply ostep_complete. Qed.

Lemma sound_abort_operation {E F} (wrap : F → E) (wrap' : OperationStoreError → F) id at_ns reason :
  sound (sup_exec wrap (on_operations wrap' (abort_operation id at_ns reason)) : Exec Work E _).
Proof. apply sound_operations. intros s. apply ostep_abort. Qed.

Lemma sound_fd_store {E} f : sound (update_fd_store f : Exec Work E unit).
Proof. apply sound_update. intros w [? ? ? ? ? ? ? ?]. by split. Qed.

Lemma sound_queue_start {E} id kind : sound (queue_start_job id kind : Exec Work E unit).
Proof. apply sound_update. intros w [? ? ? ? ? ? ? ?]. destruct kind; by split. Qed.

Lemma sound_queue_post {E} event : sound (queue_created_post_hook_job event : Exec Work E unit).
Proof. apply sound_update. intros w [? ? ? ? ? ? ? ?]. case_bool_decide; by split. Qed.

Lemma sound_queue_health {E} event : sound (queue_created_health_check_job event : Exec Work E unit).
Proof. apply sound_update. intros w [? ? ? ? ? ? ? ?]. case_bool_decide; by split. Qed.

Lemma sound_note {E} service trigger at_ns : sound (note_deferred_critical_reboot service trigger at_ns : Exec Work E unit).
Proof. apply sound_update. intros w [? ? ? ? ? ? ? ?]. by split. Qed.

Lemma sound_commit {E} : sound (commit_supervisor : Exec Work E unit).
Proof.
  apply sound_update. intros w [[[[? ? ? ?] ?] ?] ? ? ? ? ? ? ?]. split; simpl; try done.
  split; [split; [split|]|]; simpl; try done. eapply op_step_wf; [done|]. apply ostep_security.
Qed.

Lemma sound_record_cleanup {E} service cgroup_id kind at_ns secs :
  sound (update_cleanup (record_cgroup_cleanup service cgroup_id kind at_ns secs) : Exec Work E unit).
Proof.
  apply eases_sound, eases_cleanup. intros s Hs. unfold record_cgroup_cleanup, record_cleanup.
  destruct (s !! _); [destruct (another_stop _ _); [|destruct (_ <=? _); [done|]]|]; by apply map_Forall_insert_2.
Qed.

Lemma sound_remove_stop_main {E} op : sound (update_cleanup (remove_stop_main op) : Exec Work E unit).
Proof. apply eases_sound, eases_cleanup. intros s Hs i d [? _]%map_lookup_filter_Some. by apply Hs. Qed.

Lemma sound_remove_stop_timeout {E} op :
  sound (update_control_store (λ store, (remove_stop_timeout op store).1) : Exec Work E unit).
Proof. apply eases_sound, eases_control_store. intros s Hs. by apply remove_stop_timeout_wf. Qed.

Lemma sound_take_leg {E} op :
  sound (update_control_store (λ store, (take_restart_stop_leg op store).1) : Exec Work E unit).
Proof. apply eases_sound, eases_control_store. intros s Hs. by apply take_restart_leg_wf. Qed.

Lemma sound_cancel_reload {E} service :
  sound (update_control_store (λ store, (cancel_reload_for_service service store).1) : Exec Work E unit).
Proof. apply eases_sound, eases_control_store. intros s Hs. by apply cancel_reload_wf. Qed.

(** *** Scheduling *)

Lemma cancel_health_wf service (w : Work) :
  sup_wf w → sup_wf {| w with su_health := cancel_health service w.(su_health) |}.
Proof. intros [? ? ? ? ? ? ? ?]. split; simpl; try done. by apply map_Forall_delete. Qed.

Lemma cancel_watchdog_wf service (w : Work) :
  sup_wf w → sup_wf {| w with su_watchdog := cancel_watchdog service w.(su_watchdog) |}.
Proof. intros [? ? ? ? ? ? ? ?]. split; simpl; try done. by apply map_Forall_delete. Qed.

Lemma arm_keyed service activation cgroup interval at_ns (s : WatchdogStore) :
  map_Forall (λ service record, record.(wr_service) = service) s →
  map_Forall (λ service record, record.(wr_service) = service) (arm_watchdog service activation cgroup interval at_ns s).
Proof. intros Hs. unfold arm_watchdog. destruct (_ =? _); [by apply map_Forall_delete|by apply map_Forall_insert_2]. Qed.

Lemma schedule_health_wf service generation at_ns (w : Work) :
  sup_wf w → sup_wf (schedule_active_service_health service generation at_ns w).
Proof.
  intros Hw. unfold schedule_active_service_health. destruct (table_definition _ _); [|done]. destruct (table_runtime _ _); [|done].
  destruct (negb _); [by apply cancel_health_wf|]. destruct Hw as [? ? ? ? ? ? ? ?]. split; simpl; try done.
  by apply map_Forall_insert_2.
Qed.

Lemma schedule_watchdog_wf service generation at_ns (w : Work) :
  sup_wf w → sup_wf (schedule_active_service_watchdog service generation at_ns w).
Proof.
  intros Hw. unfold schedule_active_service_watchdog. destruct (table_definition _ _); [|by apply cancel_watchdog_wf].
  destruct (_ =? _); [by apply cancel_watchdog_wf|]. destruct (table_runtime _ _); [|by apply cancel_watchdog_wf].
  destruct Hw as [? ? ? ? ? ? ? ?]. split; simpl; try done. by apply arm_keyed.
Qed.

Lemma sound_health_scheduling {E} transitions at_ns :
  sound (apply_health_scheduling_after_transitions transitions at_ns : Exec Work E unit).
Proof.
  apply sound_update. induction transitions as [|t l IH]; simpl; [done|]. intros w Hw. apply IH.
  unfold apply_health_scheduling_after_transition. case_bool_decide; [by apply schedule_health_wf|].
  case_bool_decide; [by apply cancel_health_wf|done].
Qed.

Lemma sound_watchdog_scheduling {E} transitions at_ns :
  sound (apply_watchdog_scheduling_after_transitions transitions at_ns : Exec Work E unit).
Proof.
  apply sound_update. induction transitions as [|t l IH]; simpl; [done|]. intros w Hw. apply IH.
  unfold apply_watchdog_scheduling_after_transition. case_bool_decide; [by apply schedule_watchdog_wf|].
  case_bool_decide; [by apply cancel_watchdog_wf|done].
Qed.

(** *** Transactions *)

Lemma restore_sup_wf (now before : Work) : sup_wf before → sup_wf (sup_restore now before).
Proof. intros [[[[? ? ? ?] ?] ?] ? ? ? ? ? ? ?]. split; simpl; try done. Qed.

Lemma serves_transaction {E A} (m : Exec Work E A) : sound m → serves sup_wf (sup_atomic m).
Proof. intros Hm. apply serves_atomic_triple; [exact Hm|]. intros now before. apply restore_sup_wf. Qed.
End Transactions.

#[export] Hint Resolve sound_kill sound_transition sound_fail_running sound_fail_before sound_fail_operation
  sound_complete_operation sound_abort_operation sound_fd_store sound_queue_start sound_queue_post sound_queue_health sound_note
  sound_commit sound_record_cleanup sound_remove_stop_main sound_remove_stop_timeout sound_take_leg sound_cancel_reload
  sound_health_scheduling sound_watchdog_scheduling reactions_sound timer_start_sound : sound.

(** ** The end of a main process *)

(** [m] speaks of [event]. *)
Definition says {P BoundaryError} (event : JobEvent)
    (m : Step P (ServiceMainJobTerminalError (BoundaryError := BoundaryError)) ServiceMainJobTerminalDispatch) : Prop :=
  ∀ s s' d, m s = Some (s', Ok d) → d.(jtd_job_event) = event.

Lemma says_bind {P BoundaryError A} event
    (m : Step P (ServiceMainJobTerminalError (BoundaryError := BoundaryError)) A) k :
  (∀ a, says event (k a)) → says event (m ≫= k).
Proof. intros Hk s s' d (s1 & a & _ & E)%exec_bind_Ok. by eapply Hk. Qed.

Lemma says_atomic {P BoundaryError} event (m : Step P (ServiceMainJobTerminalError (BoundaryError := BoundaryError)) _) :
  says event m → says event (atomic m).
Proof. intros Hm s s' d E%exec_atomic_Ok. by eapply Hm. Qed.

Lemma main_terminal_says {P BoundaryError} event :
  says event (apply_service_main_job_terminal (BoundaryError := BoundaryError) event : Step P _ _).
Proof.
  unfold apply_service_main_job_terminal, apply_oneshot_start_success, apply_start_process_failure,
    apply_active_simple_exit, apply_reloading_simple_exit, apply_restart_evaluation, apply_active_transition,
    apply_restart_backoff, apply_stopping_simple_exit.
  repeat match goal with
  | |- says _ (_ ≫= _) => apply says_bind; intros ?
  | |- says _ (atomic _) => apply says_atomic
  | |- says _ (match ?x with _ => _ end) => destruct x
  | |- says _ (mret _) => by intros ? ? ? [= _ <-]
  | |- says _ (exec_fail _) => done
  end.
Qed.

(** A step that ends a job, at a time that is not negative. *)
Definition ends_job (finish : JobStore → JobResult JobEvent) : Prop :=
  ∃ id step, finish = finish_job id step ∧ ∃ expected action state at_ns cause exit,
    step = job_end expected action state at_ns cause exit ∧ job_is_terminal state = true ∧ 0 ≤ at_ns.

Lemma ends_job_wf finish s : ends_job finish → jobs_wf s → jobs_wf (finish s).1.
Proof.
  intros (id & step & -> & expected & action & state & at_ns & cause & exit & -> & Ht & _). apply finish_job_wf.
  by exists expected, action, state, at_ns, cause, exit.
Qed.

Definition event_time_ok (event : JobEvent) : Prop :=
  match event.(je_detail) with JevEnded at_ns _ _ _ _ => 0 ≤ at_ns | _ => True end.

Lemma ends_job_time finish s s' event : ends_job finish → finish s = (s', Ok event) → event_time_ok event.
Proof.
  intros (id & step & -> & expected & action & state & at_ns & cause & exit & -> & _ & Hat). unfold finish_job.
  destruct (js_records s !! id) as [r|]; [|done]. destruct (job_end _ _ _ _ _ _ r) as [r'|] eqn:Ee; [|done].
  unfold job_end in Ee. destruct (job_ensure_state _ _ _); [|done]. destruct (ensure_ended_at _ _); [|done].
  injection Ee as <-. unfold job_event_ended. simpl. by intros [= _ <-].
Qed.

Lemma ends_complete_main id at_ns code : 0 ≤ at_ns → ends_job (complete_job id at_ns code).
Proof. intros ?. eexists _, _. split; [done|]. do 6 eexists. split; [done|done]. Qed.
Lemma ends_fail_main id at_ns exit cause : 0 ≤ at_ns → ends_job (fail_running_job id at_ns exit cause).
Proof. intros ?. eexists _, _. split; [done|]. do 6 eexists. split; [done|done]. Qed.

Section Terminal.
Context {P BoundaryError : Type} `{CalendarSyntax} `{!ProcessController P BoundaryError}.
Notation Work := (SupervisorWork P BoundaryError).
Notation Error := (SupervisorError BoundaryError).
Notation SupM := (Exec Work Error).
Context (settings : SupervisorSettings).

Lemma sound_jobs_step {A} (f : JobStore → JobResult A) :
  (∀ s, jobs_wf s → jobs_wf (f s).1) → sound (sup_jobs f : SupM A).
Proof. apply sound_jobs. Qed.

Lemma sound_fail_running_step id at_ns exit cause : sound (sup_jobs (fail_running_job id at_ns exit cause) : SupM _).
Proof. apply sound_fail_running. Qed.
Lemma sound_fail_before_step id at_ns cause : sound (sup_jobs (fail_job_before_start id at_ns cause) : SupM _).
Proof. apply sound_fail_before. Qed.
Lemma sound_fail_operation_step id at_ns reason : sound (sup_operations (fail_operation id at_ns reason) : SupM _).
Proof. apply sound_fail_operation. Qed.
Lemma sound_complete_step id at_ns result : sound (sup_operations (complete_operation id at_ns result) : SupM _).
Proof. apply sound_complete_operation. Qed.
Lemma sound_abort_step id at_ns reason : sound (sup_operations (abort_operation id at_ns reason) : SupM _).
Proof. apply sound_abort_operation. Qed.

#[local] Hint Resolve sound_fail_running_step sound_fail_before_step sound_fail_operation_step sound_complete_step
  sound_abort_step : sound.

Lemma sound_kill_reload wrap with_controller cgroup_id : sound (kill_reload_cgroup wrap with_controller cgroup_id : SupM _).
Proof. unfold kill_reload_cgroup. sounds. Qed.

#[local] Hint Resolve sound_kill_reload : sound.

Lemma sound_control_launches {E} (f : list JobId → list JobId) :
  sound (exec_update (λ w : Work, let work := w.(su_shutdown_work) in
    set_su_shutdown_work {| work with sw_pending_control_launches := f work.(sw_pending_control_launches) |} w)
    : Exec Work E unit).
Proof. apply sound_update. intros w [? ? ? ? ? ? ? ?]. by split. Qed.

Lemma sound_cancel_reload_of with_controller at_ns service :
  sound (cancel_reload_of settings with_controller at_ns service : SupM _).
Proof.
  unfold cancel_reload_of, fail_running_reload_operation, fail_reload_command_job, fail_running_reload_command_job.
  sounds. apply sound_control_launches.
Qed.

Lemma sound_start_updates {E} (f : StartExecutionStore → StartExecutionStore) :
  (∀ st, start_wf st → start_wf (f st)) →
  sound (sup_exec id (exec_update (λ s, set_start (f s.(xs_start)) s)) : Exec Work E unit).
Proof.
  intros Hf. apply sound_exec; [|by apply stays_update]. intros s [[? ? ? ?] Hst]. eexists _, _. split; [done|].
  intros _ _. split; [by split|]. by apply Hf.
Qed.

Lemma sound_settle_deadlines terminal : sound (settle_deadlines_after_terminal terminal : SupM unit).
Proof.
  unfold settle_deadlines_after_terminal, remove_satisfied_readiness_deadlines, remove_satisfied_stop_deadlines,
    clear_fd_store_after_explicit_stop, clear_fd_store_after_definition_discard.
  apply sound_bind; [|intros _; apply sound_bind; [apply sound_bind; [|intros _]|intros _; sounds]].
  - apply (sound_start_updates (λ st, foldl _ st _)). induction (jtd_operation_events terminal) as [|e l IH]; simpl; [done|].
    intros st Hst. apply IH. by apply remove_readiness_wf.
  - apply eases_sound, eases_control_store. induction (jtd_operation_events terminal) as [|e l IH]; simpl; [done|].
    intros st Hst. apply IH. by apply remove_stop_timeout_wf.
  - apply eases_sound, eases_cleanup. induction (jtd_operation_events terminal) as [|e l IH]; simpl; [done|].
    intros st Hst. apply IH. intros i d [? _]%map_lookup_filter_Some. by apply Hst.
Qed.

Lemma sound_start_leg service op at_ns : sound (start_restart_leg service op at_ns : SupM _).
Proof.
  unfold start_restart_leg. apply sound_bind; [|intros definition; apply sound_bind; [|intros; apply sound_ret]].
  - apply sound_exec; [|apply stays_require]. apply keeps_wf_quiet, quiet_require.
  - apply sound_exec; [|apply restart_leg_stays]. apply keeps_wf_serves, begin_restart_start_leg_serves.
Qed.

#[local] Hint Resolve sound_start_leg sound_settle_deadlines sound_cancel_reload_of : sound.

Lemma sound_restart_after_stop terminal at_ns : sound (begin_restart_start_after_stop terminal at_ns : SupM _).
Proof. unfold begin_restart_start_after_stop. sounds. Qed.

Lemma sound_schedule terminal at_ns : sound (schedule_after_terminal terminal at_ns : SupM unit).
Proof. unfold schedule_after_terminal. sounds. Qed.

Lemma sound_queue_restarts {E} dispatches : sound (queue_restart_start_dispatches dispatches : Exec Work E unit).
Proof. unfold queue_restart_start_dispatches. sounds. Qed.

Lemma sound_release_events events slots at_ns : sound (sup_release (release_after_graph_events events slots at_ns) : SupM _).
Proof. apply eases_sound, eases_release_events. Qed.

Lemma sound_pending_timers terminal at_ns :
  0 ≤ at_ns → sound (start_pending_timer_runs_after_terminal settings terminal at_ns : SupM _).
Proof.
  intros Hat. unfold start_pending_timer_runs_after_terminal, start_pending_timer_run. sounds.
  apply sound_services. intros t Ht. eapply step_wf; [exact Ht|]. apply step_clear_timer.
Qed.

#[local] Hint Resolve sound_restart_after_stop sound_schedule sound_queue_restarts sound_release_events sound_pending_timers : sound.

Lemma sound_continue terminal events at_ns :
  0 ≤ at_ns → sound (continue_after_terminal settings terminal events at_ns : SupM _).
Proof. intros Hat. unfold continue_after_terminal. sounds. Qed.

Lemma terminal_sound with_controller finish :
  ends_job finish →
  serves sup_wf (apply_terminal_job_event settings with_controller finish : SupM _).
Proof.
  intros Hf. apply serves_transaction. apply sound_bind; [apply sound_get|]. intros jobs.
  apply triple_bind with (Mid := λ event w, sup_wf w ∧ event_time_ok event).
  { intros w Hw. destruct (sound_jobs_step finish (λ s, ends_job_wf finish s Hf) w Hw) as (w' & r & E & Hr).
    exists w', r. split; [done|]. intros event ->. split; [by apply (Hr event)|].
    apply exec_within_Ok in E as (x & E & _). apply exec_on_Ok in E as (t & E & _). by eapply ends_job_time. }
  intros event w [Hw Ht]. revert w Hw. refine (_ : triple _ _ _).
  apply sound_bind; [destruct (is_some_and _ _); sounds|]. intros killed.
  apply triple_bind with (Mid := λ d w, sup_wf w ∧ d.(jtd_job_event) = event).
  { intros w Hw. assert (sound (sup_exec SeJobTerminal (apply_service_main_job_terminal event) : SupM _)) as Hs.
    { apply sound_exec; [apply keeps_wf_serves, apply_service_main_job_terminal_serves|apply main_terminal_stays]. }
    destruct (Hs w Hw) as (w' & r & E & Hr). exists w', r. split; [done|]. intros d ->. split; [by apply (Hr d)|].
    apply exec_within_Ok in E as (x & E & _). by eapply main_terminal_says. }
  intros terminal w [Hw He]. revert w Hw. refine (_ : triple _ _ _).
  apply triple_bind with (Mid := λ at_ns w, sup_wf w ∧ 0 ≤ at_ns).
  { intros w Hw. unfold terminal_event_time. rewrite He. unfold event_time_ok in Ht. destruct (je_detail event);
      eexists _, _; (split; [done|]); intros a Ha; try done. by injection Ha as <-. }
  intros at_ns w [Hw Hat]. revert w Hw. refine (_ : triple _ _ _).
  apply sound_bind; [unfold cancel_reload_after_main_exit; sounds|]. intros [terminal' cleanup].
  apply sound_bind; [sounds|]. intros _. apply sound_bind; [sounds|]. intros _. apply sound_bind; [sounds|].
  intros []; [sounds|]. by apply sound_continue.
Qed.
End Terminal.
