(* ===== verification/SupervisorLifecycleInv.v ===== *)
(** * Starts, reloads, commands and upkeep keep the stores

    About [SupervisorStarts], [SupervisorLifecycle] and the readiness timeout of
    [SupervisorNotify]: every transaction answers, and leaves the stores well
    formed. *)

From S2P Require Import Prelude RustStr ServiceRuntime ServiceDef Ids Restart Cgroup ServiceTable Calendar Tty.
From S2P Require Import Shutdown OperationRecord OperationStore OperationInv ExecCommand StartPlan StartPlanSpec.
From S2P Require Import Lifecycle JobRecord JobStore SubmittedStore SubmittedRun FailureDispatch Effects ExecGraph.
From S2P Require Import StartState StartBegin StartRun MainProcess Release Graph ServiceTableInv.
From S2P Require Import ExecGraphSpec ExecGraphInv StartInv ReleaseInv ControlRun ControlInv Notify.
From S2P Require Import SubmittedDef NotifyRun ShutdownRun SupWork Relationships.
From S2P Require Import SupervisorRun SupervisorChecks SupervisorStarts SupervisorLifecycle SupervisorNotify.
From S2P Require Import SettleInv SupervisorInv.
From Stdlib Require Import String.
Open Scope string_scope.
Open Scope list_scope.
Open Scope Z_scope.

(** ** Steps of the components that create no context *)

Section Components.
Context {P BoundaryError : Type} `{!ProcessController P BoundaryError}.
Notation Error := (StartExecutionError BoundaryError).

Lemma check_pending_stays fd pending results : stays (complete_pre_start_check_from_pending fd pending results : Step P Error _).
Proof.
  unfold complete_pre_start_check_from_pending, apply_check_passed, apply_check_skipped, apply_check_assertion_failed,
    check_passed_job, create_initial_start_job, create_initial_main_job, create_initial_pre_start_hook,
    record_request_readiness_deadline, skip_service, apply_pending_pre_dependency_failure, cancel_dormant_dependencies,
    cancel_pruned_operations, job_id_for_ready_start, allocate_job_id, get_operation.
  stay; apply start_failure_stays.
Qed.

Lemma check_helper_stays fd report : stays (complete_pre_start_check_helper fd report : Step P Error _).
Proof. unfold complete_pre_start_check_helper. stay; apply check_pending_stays. Qed.

Lemma check_timeout_stays deadline now_ns : stays (timeout_pre_start_check_helper deadline now_ns : Step P Error _).
Proof. unfold timeout_pre_start_check_helper. stay; apply check_pending_stays. Qed.

Lemma pre_hook_stays event : stays (complete_pre_start_hook_job event : Step P Error _).
Proof.
  unfold complete_pre_start_hook_job, apply_pre_start_hook_success, apply_pre_start_hook_failure, create_next_hook,
    create_main_after_hooks, allocate_job_id.
  stay; apply start_failure_stays.
Qed.

Lemma post_operation_stays sequence now_ns : stays (complete_post_start_operation sequence now_ns : Step P Error _).
Proof. unfold complete_post_start_operation, get_operation. stay; apply satisfaction_stays. Qed.

Lemma post_hook_stays event : stays (complete_post_start_hook_job event : Step P Error _).
Proof.
  unfold complete_post_start_hook_job, apply_post_start_hook_terminal, create_next_post_start_hook, allocate_job_id.
  stay; apply post_operation_stays.
Qed.

Lemma pre_timeout_stays deadline now_ns : stays (timeout_pre_start_hook deadline now_ns : Step P Error _).
Proof. unfold timeout_pre_start_hook, fail_timed_out_job. stay; apply start_failure_stays. Qed.

Lemma post_timeout_stays deadline now_ns : stays (timeout_post_start_hook deadline now_ns : Step P Error _).
Proof. unfold timeout_post_start_hook, fail_timed_out_job. stay; apply post_operation_stays. Qed.

Lemma readiness_timeout_stays deadline now_ns : stays (timeout_readiness deadline now_ns : Step P Error _).
Proof. unfold timeout_readiness, fail_killed_main_job. stay; apply start_failure_stays. Qed.

Lemma main_start_timeout_stays id now_ns : stays (timeout_service_main_start id now_ns : Step P Error _).
Proof. unfold timeout_service_main_start, fail_timed_out_job. stay; apply start_failure_stays. Qed.

Notation CError := (ControlExecutionError BoundaryError).

Lemma detection_stays deadline now_ns :
  control_stays (complete_reload_detection_window deadline now_ns : Exec (ControlState P) CError _).
Proof. unfold complete_reload_detection_window, transition_reloaded_active. control_stay. Qed.

Lemma command_job_stays event : control_stays (complete_reload_command_job event : Exec (ControlState P) CError _).
Proof. unfold complete_reload_command_job, transition_reloaded_active. control_stay. Qed.

Lemma command_timeout_stays deadline now_ns :
  control_stays (timeout_reload_command deadline now_ns : Exec (ControlState P) CError _).
Proof. unfold timeout_reload_command, transition_reloaded_active. control_stay. Qed.

(** The end of a reload command speaks of the job that ended. *)
Lemma command_job_event event (s s' : ControlState P) d :
  (complete_reload_command_job event : Exec _ CError _) s = Some (s', Ok d) → d.(rct_job_event) = event.
Proof.
  unfold complete_reload_command_job. intros (s1 & ? & _ & (s2 & ? & _ & (s3 & ? & _ & E%exec_atomic_Ok)%exec_bind_Ok)%exec_bind_Ok)%exec_bind_Ok.
  repeat (apply exec_bind_Ok in E as (? & ? & _ & E)). by injection E as <- <-.
Qed.
End Components.

(** ** Transactions *)

Section Transactions.
Context {P BoundaryError : Type} `{CalendarSyntax} `{!ProcessController P BoundaryError}.
Notation Work := (SupervisorWork P BoundaryError).
Notation Error := (SupervisorError BoundaryError).
Notation SupM := (Exec Work Error).
Context (settings : SupervisorSettings) (now_ns : Z) (Hnow : 0 ≤ now_ns).

Lemma sound_starting {A} (m : Step P (StartExecutionError BoundaryError) A) :
  serves exec_wf m → stays m → sound (sup_exec SeStarting m : SupM A).
Proof. intros Hm. apply sound_exec. by apply keeps_wf_serves. Qed.

Lemma sound_queue_created {E} event : sound (queue_created_start_job event : Exec Work E unit).
Proof. apply sound_update. intros w [? ? ? ? ? ? ? ?]. destruct (je_job_type event); by split. Qed.

Lemma sound_queue_if event queue : (∀ e, sound (queue e)) → sound (queue_if_created event queue : SupM unit).
Proof. intros Hq. destruct event; [apply Hq|apply sound_ret]. Qed.

Lemma sound_released_events events slots at_ns : sound (sup_release (release_after_graph_events events slots at_ns) : SupM _).
Proof. apply eases_sound, eases_release_events. Qed.

Lemma sound_released_contexts ids slots at_ns : sound (sup_release (release_after_graph_context_ids ids slots at_ns) : SupM _).
Proof. apply eases_sound, eases_release_each. Qed.

Lemma sound_react_and_release transitions events : sound (react_and_release settings transitions events now_ns : SupM _).
Proof using Hnow. unfold react_and_release. cbv zeta. sounds. apply sound_released_events. Qed.

Lemma sound_cleanup service cgroup_id kind at_ns : sound (record_cleanup_in_work settings service cgroup_id kind at_ns : SupM unit).
Proof. unfold record_cleanup_in_work. sounds. Qed.

Lemma sound_after_kill killed service cleanup :
  (∀ s c, sound (cleanup s c)) → sound (cleanup_after_kill killed service cleanup : SupM unit).
Proof. intros Hc. unfold cleanup_after_kill. sounds. Qed.

#[local] Hint Resolve sound_queue_created sound_react_and_release sound_cleanup sound_released_contexts : sound.

(** *** Hooks before the start *)

Lemma sound_pre_hook_cleanup service cgroup_id : sound (record_pre_start_hook_cleanup settings service cgroup_id now_ns : SupM unit).
Proof. unfold record_pre_start_hook_cleanup. sounds. Qed.

Lemma pre_hook_serves finish :
  ends_job finish → serves sup_wf (apply_pre_start_hook_terminal_job_event settings finish now_ns : SupM _).
Proof using Hnow.
  intros Hf. apply serves_transaction. sounds.
  - apply sound_jobs. intros s. by apply ends_job_wf.
  - apply sound_starting; [apply complete_pre_start_hook_job_serves|apply pre_hook_stays].
  - apply sound_queue_if. intros. sounds.
  - apply sound_after_kill. intros. apply sound_pre_hook_cleanup.
Qed.

Lemma pre_timeout_serves : serves sup_wf (process_next_due_pre_start_hook_timeout settings now_ns : SupM _).
Proof using Hnow.
  apply serves_bind; [apply serves_get|]. intros [deadline|]; [|apply serves_ret]. apply serves_transaction. sounds.
  apply sound_starting; [apply timeout_pre_start_hook_serves|apply pre_timeout_stays].
Qed.

(** *** The filesystem helper *)

Lemma sound_after_check completion : sound (starts_after_check settings completion now_ns : SupM _).
Proof using Hnow. unfold starts_after_check. sounds. apply sound_queue_if. intros. sounds. Qed.

#[local] Hint Resolve sound_after_check : sound.

Lemma check_serves fd report : serves sup_wf (complete_filesystem_check_helper settings fd report now_ns : SupM _).
Proof using Hnow.
  apply serves_transaction. sounds.
  apply sound_starting; [apply complete_pre_start_check_helper_serves|apply check_helper_stays].
Qed.

Lemma check_timeout_serves op : serves sup_wf (process_due_filesystem_check_timeout settings op now_ns : SupM _).
Proof using Hnow.
  apply serves_bind; [apply serves_get|]. intros [deadline|]; [|apply serves_ret]. apply serves_transaction. sounds.
  apply sound_starting; [apply timeout_pre_start_check_helper_serves|apply check_timeout_stays].
Qed.

(** *** Hooks after the start *)

Lemma sound_health_after_post {E} service at_ns : sound (apply_health_scheduling_after_post_start service at_ns : Exec Work E unit).
Proof.
  apply sound_update. intros w Hw. destruct (table_runtime _ _); [|done]. case_bool_decide; [done|]. by apply schedule_health_wf.
Qed.

Lemma sound_watchdog_after_post {E} service at_ns : sound (apply_watchdog_scheduling_after_post_start service at_ns : Exec Work E unit).
Proof.
  apply sound_update. intros w Hw. destruct (table_runtime _ _); [|done]. case_bool_decide; [done|]. by apply schedule_watchdog_wf.
Qed.

#[local] Hint Resolve sound_health_after_post sound_watchdog_after_post : sound.

Lemma sound_after_post service at_ns : sound (schedule_after_post_start_service service at_ns : SupM unit).
Proof. unfold schedule_after_post_start_service. sounds. Qed.

#[local] Hint Resolve sound_after_post : sound.

Lemma post_hook_serves finish :
  ends_job finish → serves sup_wf (apply_post_start_hook_terminal_job_event settings finish now_ns : SupM _).
Proof using Hnow.
  intros Hf. apply serves_transaction. unfold complete_post_start_hook_in_work, schedule_after_final_post_start_hook. sounds.
  - apply sound_jobs. intros s. by apply ends_job_wf.
  - apply sound_starting; [apply complete_post_start_hook_job_serves|apply post_hook_stays].
  - apply sound_queue_if. intros. sounds.
  - apply sound_after_kill. intros. sounds.
  - apply sound_after_kill. intros. sounds.
Qed.

Lemma post_timeout_serves : serves sup_wf (process_next_due_post_start_hook_timeout settings now_ns : SupM _).
Proof using Hnow.
  apply serves_bind; [apply serves_get|]. intros [deadline|]; [|apply serves_ret]. apply serves_transaction. sounds.
  - apply sound_starting; [apply timeout_post_start_hook_serves|apply post_timeout_stays].
  - apply sound_update. intros w [? ? ? ? ? ? ? ?]. by split.
Qed.

Lemma readiness_timeout_serves : serves sup_wf (process_next_due_readiness_timeout settings now_ns : SupM _).
Proof using Hnow.
  apply serves_bind; [apply serves_get|]. intros [deadline|]; [|apply serves_ret]. apply serves_transaction. sounds.
  - apply sound_starting; [apply timeout_readiness_serves|apply readiness_timeout_stays].
  - apply sound_released_events.
Qed.

(** *** Reloads *)

Lemma sound_follow_reload transition at_ns : 0 ≤ at_ns → sound (follow_reload settings transition at_ns : SupM unit).
Proof. intros Hat. unfold follow_reload. sounds. Qed.

Lemma detections_serve : serves sup_wf (process_due_reload_detection_windows settings now_ns : SupM _).
Proof using Hnow.
  apply serves_transaction. unfold process_reload_detection_window. sounds; [|by apply sound_follow_reload].
  apply sound_control; [apply detection_serves|apply detection_stays].
Qed.

Lemma command_timeout_turn_serves : serves sup_wf (process_next_due_reload_command_timeout settings now_ns : SupM _).
Proof using Hnow.
  apply serves_bind; [apply serves_get|]. intros [deadline|]; [|apply serves_ret]. apply serves_transaction. sounds.
  - apply sound_control; [apply command_timeout_serves|apply command_timeout_stays].
  - by apply sound_follow_reload.
Qed.

Lemma command_terminal_serves job_id finish :
  ends_job finish → serves sup_wf (apply_reload_command_terminal_job_event settings job_id finish : SupM _).
Proof.
  intros Hf. apply serves_transaction. apply sound_bind.
  { apply sound_exec; [|apply stays_require]. apply keeps_wf_quiet, quiet_require. }
  intros job. apply triple_bind with (Mid := λ event w, sup_wf w ∧ event_time_ok event).
  { intros w Hw. destruct (sound_jobs_step finish (λ s, ends_job_wf finish s Hf) w Hw)
      as (w' & r & E & Hr).
    exists w', r. split; [done|]. intros event ->. split; [by apply (Hr event)|].
    apply exec_within_Ok in E as (x & E & _). apply exec_on_Ok in E as (t & E & _). by eapply ends_job_time. }
  intros event w [Hw Ht]. revert w Hw. refine (_ : triple _ _ _).
  apply triple_bind with (Mid := λ d w, sup_wf w ∧ d.(rct_job_event) = event).
  { intros w Hw. assert (sound (sup_control SeControl (complete_reload_command_job event) : SupM _)) as Hs.
    { apply sound_control; [apply command_job_serves|apply command_job_stays]. }
    destruct (Hs w Hw) as (w' & r & E & Hr). exists w', r. split; [done|]. intros d ->. split; [by apply (Hr d)|].
    apply exec_within_Ok in E as (x & E & _). by eapply command_job_event. }
  intros terminal w [Hw He]. revert w Hw. refine (_ : triple _ _ _).
  apply triple_bind with (Mid := λ at_ns w, sup_wf w ∧ 0 ≤ at_ns).
  { intros w Hw. unfold reload_terminal_event_time. rewrite He. unfold event_time_ok in Ht. destruct (je_detail event);
      eexists _, _; (split; [done|]); intros a Ha; try done. by injection Ha as <-. }
  intros at_ns w [Hw Hat]. revert w Hw. refine (_ : triple _ _ _).
  apply sound_bind; [by apply sound_follow_reload|]. intros _. sounds.
Qed.
End Transactions.

(** * Commands and upkeep keep the stores

    About [SupervisorLifecycle]: every command and every turn of upkeep answers
    and leaves the stores well formed, and one that fails changes nothing. *)

Section Commands.
Context {P BoundaryError : Type} `{CalendarSyntax} `{!ProcessController P BoundaryError}.
Notation Work := (SupervisorWork P BoundaryError).
Notation Error := (SupervisorError BoundaryError).
Notation SupM := (Exec Work Error).
Context (settings : SupervisorSettings) (at_ns : Z) (Hat : 0 ≤ at_ns).

(** ** Work that may be dropped *)

Lemma serves_kept {A} (m : SupM (A * bool)) : sound m → serves sup_wf (sup_kept m).
Proof.
  intros Hm w Hw. unfold sup_kept. destruct (Hm w Hw) as (w' & r & -> & Hr).
  destruct r as [[a []]|e]; eexists _, _; (split; [done|]); [by eapply Hr|..]; by apply restore_sup_wf.
Qed.

Lemma serves_controller {E A} (wrap : BoundaryError → E) (f : P → P * Result A BoundaryError) :
  serves sup_wf (sup_exec id (exec_on xs_controller set_controller wrap f) : Exec Work E A).
Proof.
  intros w Hw. unfold sup_exec, exec_within, exec_on. destruct (f _) as [c r]. eexists _, _. split; [done|].
  destruct Hw as [[[[? ? ? ?] ?] ?] ? ? ? ? ? ? ?]. split; simpl; try done.
Qed.

(** ** Admission *)

Lemma admission_sound request :
  request.(lr_created_at_ns) = at_ns →
  triple roomy (admit_supervisor_lifecycle_command request : SupM _)
    (λ outcome w, match outcome with OnDemandStart _ => roomy w | _ => sup_wf w end).
Proof using Hat.
  intros Hr w [Hw Hn Hm]. pose proof Hw as [[[[Ht Ho ? ?] ?] ?] Hi ? ? ? ? ? ?]. unfold admit_supervisor_lifecycle_command.
  destruct (admission_answers request (su_services w) (su_operations w) (sw_operation_ids (su_shutdown_work w)) Ht Ho)
    as (services & operations & ids & r & -> & Ht' & Ho' & Ha); [lia|].
  assert (sw_operation_ids (su_shutdown_work w) ≤ ids) as Hle.
  { destruct r as [[]|]; simpl in Ha; destruct_and?; lia. }
  eexists _, _. split; [done|]. intros outcome E. destruct r as [o|e]; [|done]. injection E as ->.
  set (w' := set_su_shutdown_work _ w). assert (sup_wf w') as Hw'.
  { split; simpl; try done. change (next_of (su_exec w) ≤ ids). lia. }
  destruct outcome; try done. split; [done|..].
  - change (next_of (su_exec w) < ids). lia.
  - exact Hm.
Qed.

Lemma sound_drop_superseded events : sound (drop_superseded_readiness_deadlines events : SupM unit).
Proof.
  apply (sound_start_updates (λ st, foldl _ st events)). induction events as [|e l IH]; simpl; [done|].
  intros st Hst. apply IH. destruct (superseded e); [by apply remove_readiness_wf|done].
Qed.

Lemma finish_sound outcome :
  triple (λ w, match outcome with OnDemandStart _ => roomy w | _ => sup_wf w end)
    (finish_lifecycle_outcome settings outcome at_ns : SupM _) (λ _, sup_wf).
Proof using Hat.
  unfold finish_lifecycle_outcome. destruct outcome as [operation|dispatch|status|status|clear].
  - apply sound_bind; [apply sound_drop_superseded|]. intros _. apply sound_bind; [|intros; sounds].
    apply eases_sound, eases_boundary. intros. by apply NoDup_boundary.
  - eapply triple_bind; [apply create_context_sound|]. intros context_id.
    apply sound_bind; [by apply eases_sound, eases_gate|]. intros. sounds.
  - apply sound_ret.
  - apply sound_ret.
  - apply sound_bind; [sounds|]. intros _. apply sound_bind; [by apply eases_sound, eases_settle|]. intros. sounds.
Qed.

Lemma run_admitted_serves command service caller :
  serves sup_wf (run_admitted_command settings command service caller at_ns : SupM _).
Proof using Hat.
  apply serves_kept. eapply triple_bind; [apply allocate_roomy|]. intros id.
  eapply triple_bind; [by apply admission_sound|]. intros outcome. apply finish_sound.
Qed.

Lemma run_command_at_serves command service caller :
  serves sup_wf (run_lifecycle_command_at settings command service caller at_ns : SupM _).
Proof using Hat.
  unfold run_lifecycle_command_at. repeat (apply serves_bind; [first [apply serves_get|apply serves_lift]|intros ?]).
  apply run_admitted_serves.
Qed.

Lemma command_serves command service caller :
  serves sup_wf (run_lifecycle_command_with_process_controller settings command service caller at_ns : SupM _).
Proof using Hat.
  unfold run_lifecycle_command_with_process_controller, run_abandoned_reset_command.
  repeat (apply serves_bind; [first [apply serves_get|apply serves_lift]|intros ?]).
  match goal with |- context [if ?b then _ else _] => destruct b end; [|apply run_command_at_serves].
  repeat (apply serves_bind; [first [apply serves_get|apply serves_lift]|intros ?]).
  apply serves_bind; [apply serves_controller|]. intros populated. apply serves_bind.
  { destruct populated; [apply serves_ret|]. unfold sup_cleanup_tree. apply serves_bind; [|intros; apply serves_ret].
    apply serves_each. intros cgroup_id. apply serves_bind; [apply serves_controller|]. intros. apply serves_ret. }
  intros _. apply serves_bind; [apply run_admitted_serves|]. intros. apply serves_ret.
Qed.

(** ** Upkeep *)

Lemma sound_graph_failed op : sound (sup_exec id (on_graph SeGraph (apply_operation_failed op)) : SupM _).
Proof. apply sound_exec; [apply keeps_wf_quiet, quiet_op_failed|apply stays_graph, graph_stays_terminal]. Qed.

Lemma sound_fail_in_work id reason : sound (sup_operations (fail_operation id at_ns reason) : SupM _).
Proof. apply sound_fail_operation. Qed.

#[local] Hint Resolve sound_graph_failed sound_fail_in_work : sound.

Lemma sound_pending_timeout operation : sound (process_pending_operation_timeout at_ns operation : SupM _).
Proof.
  unfold process_pending_operation_timeout, fail_pending_operation_timeout, fail_timed_out_operation. sounds.
Qed.

Lemma sound_main_start_timeout due : sound (process_service_main_start_timeout settings at_ns due : SupM _).
Proof using Hat.
  unfold process_service_main_start_timeout, process_due_service_main_start_timeout. sounds.
  - apply sound_starting; [apply timeout_service_main_start_serves|apply main_start_timeout_stays].
  - apply sound_update. intros w [? ? ? ? ? ? ? ?]. by split.
  - by apply sound_react_and_release.
  - apply sound_after_kill. intros. apply sound_cleanup.
Qed.

Lemma sound_window_reset reset : sound (reset_due_restart_window at_ns reset : SupM _).
Proof.
  unfold reset_due_restart_window. sounds. apply sound_services. intros t Ht. eapply step_wf; [exact Ht|]. apply step_reset_failures.
Qed.

Lemma sound_chain_settle candidate : sound (settle_due_on_failure_chain at_ns candidate : SupM _).
Proof.
  unfold settle_due_on_failure_chain. sounds. apply eases_sound, eases_relationships. intros s [? ?]. split; [done|].
  by apply map_Forall_delete.
Qed.

Lemma due_work_serves due : serves sup_wf (process_due_work settings due at_ns : SupM _).
Proof using Hat.
  apply serves_transaction. unfold settle_due_on_failure_chains. sounds.
  - apply sound_pending_timeout.
  - apply sound_main_start_timeout.
  - apply sound_window_reset.
  - apply sound_chain_settle.
Qed.

Lemma retired_next g : (retire_drained_contexts g).1.(gs_next_context_id) = g.(gs_next_context_id).
Proof. unfold retire_drained_contexts. by destruct (map _ _). Qed.

Lemma sweep_serves turn : serves sup_wf (sweep_retained at_ns turn : SupM _).
Proof.
  intros w Hw. pose proof Hw as [[[[? Ho Hg ?] ?] ?] Hi ? ? ? [? ?] ?]. unfold sweep_retained.
  pose proof (graph_step_keeps (su_graph w) _ Hg (gstep_retire _)) as [Hg' _].
  pose proof (op_step_wf (su_operations w) _ Ho (ostep_purge _ at_ns DEFAULT_TERMINAL_OPERATION_RETENTION_NS)) as Ho'.
  pose proof (retired_next (su_graph w)) as Hn.
  destruct (retire_drained_contexts _) as [graph retired]. destruct (purge_terminal_retained_until _ _ _) as [operations purged].
  destruct (purge_retained_until _ _) as [submitted jobs]. simpl in *. eexists _, _. split; [done|]. split; simpl; try done.
  change (gs_next_context_id graph ≤ sw_operation_ids (su_shutdown_work w)). by rewrite Hn.
Qed.

Lemma maintenance_serves with_controller :
  serves sup_wf (process_due_operation_maintenance settings with_controller at_ns : SupM _).
Proof using Hat.
  unfold process_due_operation_maintenance. apply serves_bind; [apply serves_get|]. intros due.
  apply serves_bind; [|intros; apply sweep_serves]. destruct (requires_supervisor_work due); [apply due_work_serves|apply serves_ret].
Qed.
End Commands.

(** * Upkeep wakes when there is something to do

    About [SupervisorLifecycle]: the deadline that the supervisor's timer is set
    to is neither early nor late, and an operation that is held does not run out
    of time. *)

(** ** Deadlines that have come *)

(** [next] is a deadline that is not after [now_ns]. *)
Definition has_come (now_ns : Z) (next : option Z) : Prop := ∃ due, next = Some due ∧ due ≤ now_ns.

Lemma list_min_has_come now_ns l : has_come now_ns (list_min l) ↔ ∃ due, due ∈ l ∧ due ≤ now_ns.
Proof.
  split.
  - intros (due & [Hin _]%list_min_Some & Hle). by exists due.
  - intros (due & Hin & Hle). destruct (list_min l) as [m|] eqn:Em.
    + apply list_min_Some in Em as [_ Hmin]. exists m. split; [done|]. specialize (Hmin _ Hin). lia.
    + apply list_min_None in Em. rewrite Em in Hin. by apply elem_of_nil in Hin.
Qed.

Lemma list_min_omap_has_come {X} now_ns (f : X → option Z) l :
  has_come now_ns (list_min (omap f l)) ↔ ∃ x due, x ∈ l ∧ f x = Some due ∧ due ≤ now_ns.
Proof.
  rewrite list_min_has_come. split.
  - intros (due & (x & Hx & E)%list_elem_of_omap & Hle). by exists x, due.
  - intros (x & due & Hx & E & Hle). exists due. split; [|done]. apply list_elem_of_omap. by exists x.
Qed.

Lemma list_min_among now_ns l : has_come now_ns (list_min (omap id l)) ↔ Exists (has_come now_ns) l.
Proof.
  rewrite list_min_omap_has_come, Exists_exists. split.
  - intros (x & due & Hx & E & Hle). exists x. split; [done|]. by exists due.
  - intros (x & Hx & due & E & Hle). by exists x, due.
Qed.

Lemma not_empty_elem {X} (l : list X) : is_empty l = false ↔ ∃ x, x ∈ l.
Proof.
  destruct l as [|x l]; simpl; [|split; [exists x; left|done]]. split; [done|]. intros [x Hx]. by apply elem_of_nil in Hx.
Qed.

Section Timer.
Context {P BoundaryError : Type}.
Notation Work := (SupervisorWork P BoundaryError).

Lemma due_operations_come (w : Work) now_ns applies :
  has_come now_ns (list_min (omap (operation_timeout_deadline_ns w) (timed_operations w applies))) ↔
  ∃ operation, operation ∈ retain (operation_due w now_ns) (timed_operations w applies).
Proof.
  rewrite list_min_omap_has_come. unfold operation_due. split.
  - intros (x & due & Hx & E & Hle). exists x. apply elem_of_retain. split; [|done]. rewrite E. simpl. by apply Z.leb_le.
  - intros (x & [Hd Hx]%elem_of_retain). destruct (operation_timeout_deadline_ns w x) as [due|] eqn:E; [|done].
    apply Z.leb_le in Hd. by exists x, due.
Qed.

(** A start that is timed by its main process has one. *)
Lemma main_start_jobs (w : Work) operation :
  running_service_main_start_timeout_due_for w operation = true →
  is_Some (current_service_main_job (su_jobs w) operation.(or_service)).
Proof.
  unfold running_service_main_start_timeout_due_for. intros [_ Hj]%andb_true_iff.
  destruct (current_service_main_job _ _); [by eexists|done].
Qed.

Lemma due_main_starts_come (w : Work) now_ns :
  has_come now_ns (next_running_service_main_start_timeout_deadline_ns w) ↔
  ∃ due, due ∈ due_running_service_main_start_timeouts w now_ns.
Proof.
  unfold next_running_service_main_start_timeout_deadline_ns, due_running_service_main_start_timeouts.
  rewrite due_operations_come. split.
  - intros (x & Hx). pose proof Hx as [_ [Ha _]%elem_of_retain]%elem_of_retain. apply main_start_jobs in Ha as [job Ej].
    eexists. apply list_elem_of_omap. exists x. split; [exact Hx|]. rewrite Ej. done.
  - intros (due & (x & Hx & _)%list_elem_of_omap). by exists x.
Qed.

Lemma due_windows_come now_ns (services : ServiceTable) :
  has_come now_ns (next_restart_window_reset_deadline_ns services) ↔ ∃ reset, reset ∈ due_restart_window_resets now_ns services.
Proof.
  unfold next_restart_window_reset_deadline_ns, due_restart_window_resets. rewrite list_min_has_come. split.
  - intros (due & (d & -> & Hd)%list_elem_of_fmap & Hle). exists d. apply elem_of_retain. split; [by apply Z.leb_le|done].
  - intros (d & [Hle%Z.leb_le Hd]%elem_of_retain). exists (wd_due_at_ns d). split; [|done]. apply list_elem_of_fmap. by exists d.
Qed.

Lemma due_chains_come (w : Work) now_ns :
  has_come now_ns (next_on_failure_chain_settle_deadline_ns w) ↔ ∃ settle, settle ∈ due_on_failure_chain_settles w now_ns.
Proof.
  unfold next_on_failure_chain_settle_deadline_ns, due_on_failure_chain_settles. rewrite list_min_has_come. split.
  - intros (due & (d & -> & Hd)%list_elem_of_fmap & Hle). exists d. apply elem_of_retain. split; [by apply Z.leb_le|done].
  - intros (d & [Hle%Z.leb_le Hd]%elem_of_retain). exists (ocs_due_at_ns d). split; [|done]. apply list_elem_of_fmap. by exists d.
Qed.

Lemma due_work_requires (w : Work) now_ns :
  requires_supervisor_work (due_operation_maintenance true now_ns w) = true ↔
  has_come now_ns (next_pending_operation_timeout_deadline_ns w) ∨
  has_come now_ns (next_running_service_main_start_timeout_deadline_ns w) ∨
  has_come now_ns (next_restart_window_reset_deadline_ns (su_services w)) ∨
  has_come now_ns (next_on_failure_chain_settle_deadline_ns w).
Proof.
  unfold requires_supervisor_work, next_pending_operation_timeout_deadline_ns.
  rewrite due_operations_come, due_main_starts_come, due_windows_come, due_chains_come.
  rewrite negb_true_iff, !andb_false_iff, !not_empty_elem. simpl. unfold due_pending_operation_timeouts. tauto.
Qed.

Lemma kept_operations_come (operations : OperationStore) retention_ns now_ns :
  has_come now_ns (next_terminal_retention_deadline_ns retention_ns operations) ↔
  ∃ record completed, record ∈ btree_values operations.(op_records) ∧ terminal_completed_at record = Some completed ∧
    u64_saturating_add completed retention_ns ≤ now_ns.
Proof.
  unfold next_terminal_retention_deadline_ns. rewrite list_min_omap_has_come. split.
  - intros (x & due & Hx & E & Hle). destruct (terminal_completed_at x) as [c|] eqn:Ec; [|done]. injection E as <-. by exists x, c.
  - intros (x & c & Hx & E & Hle). exists x. rewrite E. eauto.
Qed.

Lemma kept_jobs_come (submitted : SubmittedJobStore) now_ns :
  has_come now_ns (next_retention_deadline_ns submitted) ↔
  ∃ entry outcome, entry ∈ submitted_entries submitted ∧ entry.(se_outcome) = Some outcome ∧
    outcome.(oc_retained_until_ns) ≤ now_ns.
Proof.
  unfold next_retention_deadline_ns. rewrite list_min_has_come. split.
  - intros (due & (o & -> & (e & He & Eo)%list_elem_of_omap)%list_elem_of_fmap & Hle). by exists e, o.
  - intros (e & o & He & Eo & Hle). exists (oc_retained_until_ns o). split; [|done]. apply list_elem_of_fmap.
    exists o. split; [done|]. apply list_elem_of_omap. by exists e.
Qed.

End Timer.
