(* ===== verification/SupervisorEvents.v ===== *)
(** * Every event of the supervisor keeps its stores

    About [SupervisorRun] and [SupervisorChecks]: watchdogs, health checks,
    timers, the operations of the control boundary, stops that are escalated and
    the ends of main processes each answer, and leave the stores well formed; and
    so does every event of the supervisor, with those of [SupervisorStarts] and
    [SupervisorLifecycle]. *)

From S2P Require Import Prelude RustStr ServiceRuntime ServiceDef Ids Restart Cgroup ServiceTable Calendar Tty.
From S2P Require Import OperationRecord OperationStore OperationInv ExecCommand StartPlan StartPlanSpec Lifecycle.
From S2P Require Import JobRecord JobStore SubmittedRun FailureDispatch.
From S2P Require Import Effects ExecGraph StartState StartBegin StartRun MainProcess Release.
From S2P Require Import Graph ServiceTableInv ExecGraphSpec ExecGraphInv StartInv ReleaseInv.
From S2P Require Import ControlRun ControlInv Notify SubmittedDef NotifyRun ShutdownRun SupWork Relationships.
From S2P Require Import SupervisorRun SupervisorChecks SupervisorStarts SupervisorLifecycle SupervisorNotify SettleInv SupervisorInv.
From S2P Require Import SubmittedStore SupervisorLifecycleInv.
From Stdlib Require Import String.
Open Scope string_scope.
Open Scope list_scope.
Open Scope Z_scope.

(** ** Steps on the supervisor's own stores *)

Lemma evaluation_wf service evaluation at_ns t : table_wf t → table_wf (apply_evaluation service evaluation at_ns t).1.
Proof. intros Ht. unfold apply_evaluation. destruct (re_action _); [by apply backoff_wf|by apply transition_service_wf]. Qed.

Lemma watchdog_transition_wf service definition now_ns t :
  table_wf t → table_wf (apply_watchdog_timeout_transition service definition now_ns t).1.
Proof.
  intros Ht. unfold apply_watchdog_timeout_transition. destruct (ok_or _ _); [|done].
  match goal with |- context [apply_evaluation ?s ?e ?at_ns t] => pose proof (evaluation_wf s e at_ns t Ht) as Hw end.
  by destruct (apply_evaluation _ _ _ _).
Qed.

Definition keyed (s : HealthCheckStore) : Prop := map_Forall (λ service record, record.(hcr_service) = service) s.

Lemma record_by_job_keyed job_id s service record :
  keyed s → record_by_job job_id s = Some (service, record) → record.(hcr_service) = service.
Proof. intros Hs [Hin _]%find_first_Some. by apply elem_of_btree_iter, Hs in Hin. Qed.

Lemma remove_invocation_keyed job_id s : keyed s → keyed (remove_invocation job_id s).1.
Proof.
  intros Hs. unfold remove_invocation. destruct (record_by_job job_id s) as [[service record]|] eqn:Ej; [|done].
  apply map_Forall_insert_2; [exact (record_by_job_keyed _ _ _ _ Hs Ej)|done].
Qed.

Lemma pending_invocation_keyed service activation job_id cgroup_id s :
  keyed s → keyed (record_pending_invocation service activation job_id cgroup_id s).1.
Proof.
  intros Hs. unfold record_pending_invocation. destruct (s !! service) as [record|] eqn:Er; [|done].
  destruct (_ || _); [done|]. apply map_Forall_insert_2; [exact (Hs _ _ Er)|done].
Qed.

Lemma health_check_fresh id spec job : new_health_check id spec = Ok job → job_fresh job.
Proof. unfold new_health_check. destruct (hc_argv spec); [done|]. by intros [= <-]. Qed.

(** What is left of a hook's deadline has its sequence: both are of one service. *)
Lemma cancel_post_start_wf service st : start_wf st → start_wf (cancel_post_start_for_service service st).1.
Proof.
  intros [? ? ? ? ? Hq Hd]. split; simpl; try done.
  - intros op q [Hl _]%map_lookup_filter_Some. by apply Hq.
  - intros op d [Hl Hs]%map_lookup_filter_Some. destruct (Hd op d Hl) as (? & q & Hlq & Hsv). split; [done|].
    exists q. split; [|done]. apply map_lookup_filter_Some. split; [done|]. simpl in *. by rewrite Hsv.
Qed.

Section Checks.
Context {P BoundaryError : Type} `{CalendarSyntax} `{!ProcessController P BoundaryError}.
Notation Work := (SupervisorWork P BoundaryError).
Notation SupM := (Exec Work (SupervisorError BoundaryError)).
Context (settings : SupervisorSettings) (now_ns : Z) (Hnow : 0 ≤ now_ns).

Lemma sound_cancel_watchdog {E} service : sound (update_watchdog (cancel_watchdog service) : Exec Work E unit).
Proof. apply eases_sound, eases_watchdog. intros s Hs. by apply map_Forall_delete. Qed.

Lemma sound_cancel_health {E} service : sound (update_health (cancel_health service) : Exec Work E unit).
Proof. apply eases_sound, eases_health. intros s Hs. by apply map_Forall_delete. Qed.

Lemma sound_remove_invocation {E} job_id :
  sound (update_health (λ store, (remove_invocation job_id store).1) : Exec Work E unit).
Proof. apply eases_sound, eases_health. intros s Hs. by apply remove_invocation_keyed. Qed.

Lemma sound_pending_invocation {E} service activation job_id cgroup_id :
  sound (update_health (λ store, (record_pending_invocation service activation job_id cgroup_id store).1) : Exec Work E unit).
Proof. apply eases_sound, eases_health. intros s Hs. by apply pending_invocation_keyed. Qed.

Lemma sound_schedule_interval {E} service activation generation due :
  sound (update_health (schedule_interval service activation generation due) : Exec Work E unit).
Proof. apply eases_sound, eases_health. intros s Hs. by apply map_Forall_insert_2. Qed.

Lemma sound_table_step {E F A} (wrap : F → E) (wrap' : ServiceTableError → F) (f : gmap string ServiceEntry → TableResult A) :
  (∀ t, table_step t (f t).1) → sound (sup_exec wrap (on_services wrap' f) : Exec Work E A).
Proof. intros Hf. apply sound_services. intros t Ht. by eapply step_wf. Qed.

Lemma sound_main_job {E} service (missing : E) wrap : sound (running_main_job service missing wrap : Exec Work E _).
Proof. unfold running_main_job. sounds. Qed.

#[local] Hint Resolve sound_cancel_watchdog sound_cancel_health sound_remove_invocation sound_pending_invocation
  sound_schedule_interval sound_main_job : sound.

(** *** Watchdogs *)

Lemma sound_time_out deadline definition job_id :
  sound (time_watchdog_out deadline definition job_id now_ns : Exec Work (WatchdogError BoundaryError) _).
Proof.
  unfold time_watchdog_out. sounds. apply sound_exec; [|by apply stays_on]. apply keeps_wf_quiet, quiet_on; [|done].
  intros s [? ? ? ?]. split; simpl; try done. by apply watchdog_transition_wf.
Qed.

Lemma watchdogs_serve : serves sup_wf (process_due_watchdog_timeouts settings now_ns : SupM _).
Proof using Hnow.
  apply serves_transaction. unfold process_due_watchdog, process_watchdog_deadline_in_work. sounds. apply sound_time_out.
Qed.

(** *** Health checks *)

Lemma sound_create_check definition activation generation :
  sound (create_health_check_job definition activation generation now_ns : SupM _).
Proof.
  unfold create_health_check_job. do 2 (apply sound_bind; [sounds|intros ?]). apply sound_bind.
  { apply sound_exec; [|by apply stays_on]. apply keeps_wf_quiet, quiet_on; [|done]. intros s [? ? ? ?]. by split. }
  intros ids. cbv zeta. intros w Hw. destruct (new_health_check _ _) as [job|] eqn:Ej; [|by eexists _, _].
  rewrite (exec_bind_at _ _ w w job) by done. revert w Hw. refine (_ : triple _ _ _). apply sound_bind; [|intros ?; sounds].
  apply sound_jobs. intros s Hs. apply create_job_wf; [|done]. by eapply health_check_fresh.
Qed.

#[local] Hint Resolve sound_create_check : sound.

Lemma intervals_serve : serves sup_wf (process_due_health_check_intervals now_ns : SupM _).
Proof. apply serves_transaction. unfold process_due_health_check_interval. sounds. Qed.

Lemma sound_health_failure event cgroup_id service definition :
  sound (apply_health_check_failure event cgroup_id service definition now_ns : SupM _).
Proof.
  unfold apply_health_check_failure. cbv zeta. apply sound_bind; [apply sound_table_step; intros; apply step_health_failure|].
  intros failures. sounds. apply sound_services. intros t Ht. by apply evaluation_wf.
Qed.

#[local] Hint Resolve sound_health_failure : sound.

Lemma sound_health_terminal event cgroup_id : sound (apply_health_check_terminal_in_work event cgroup_id now_ns : SupM _).
Proof.
  unfold apply_health_check_terminal_in_work. sounds. apply sound_table_step. intros. apply step_health_success.
Qed.

Lemma sound_escalation terminal service generation :
  sound (terminate_service_after_health_escalation settings terminal service generation now_ns : SupM _).
Proof. unfold terminate_service_after_health_escalation. sounds. Qed.

Lemma sound_follow_check terminal : sound (follow_health_check settings terminal now_ns : SupM _).
Proof using Hnow. unfold follow_health_check. sounds. Qed.

Lemma sound_note_health terminal at_ns : sound (note_health_reboot terminal at_ns : SupM unit).
Proof. unfold note_health_reboot. sounds. Qed.

#[local] Hint Resolve sound_health_terminal sound_escalation sound_follow_check sound_note_health : sound.

Lemma health_terminal_serves job_id finish :
  ends_job finish → serves sup_wf (apply_health_check_terminal_job_event settings job_id now_ns finish : SupM _).
Proof using Hnow.
  intros Hf. apply serves_transaction. sounds; apply sound_jobs; intros s; by apply ends_job_wf.
Qed.

Lemma health_timeouts_serve : serves sup_wf (process_due_health_check_timeouts settings now_ns : SupM _).
Proof using Hnow.
  apply serves_transaction. unfold process_due_health_check_timeout, fail_timed_out_health_check_in_work. sounds.
  apply sound_jobs. intros s Hs. pose proof (finish_wf (htd_job_id x) now_ns (Some (Signal 9)) "health check timed out" 0 s Hs).
  pose proof (finish_wf (htd_job_id x) now_ns None "health check timed out before launch" 0 s Hs). destruct (jr_state _); tauto.
Qed.

(** *** Timers *)

Lemma serves_table_step {E F A} (wrap : F → E) (wrap' : ServiceTableError → F) (f : gmap string ServiceEntry → TableResult A) :
  (∀ t, table_step t (f t).1) → serves sup_wf (sup_exec wrap (on_services wrap' f) : Exec Work E A).
Proof.
  intros Hf w [[[[Ht ? ? ?] ?] ?] ? ? ? ? ? ? ?]. unfold sup_exec, exec_within, on_services, exec_on. specialize (Hf (xs_services (su_exec w))).
  destruct (f _) as [t r]. eexists _, _. split; [done|]. split; simpl; try done.
  split; [split; [split|]|]; simpl; try done. by eapply step_wf.
Qed.

Lemma timer_serves service : serves sup_wf (handle_timer_firing settings service now_ns : SupM _).
Proof using Hnow.
  unfold handle_timer_firing. apply serves_bind; [apply serves_get|]. intros []; [apply serves_ret|].
  apply serves_bind; [apply serves_get|]. intros [[definition|] [runtime|]]; try apply serves_ret.
  destruct (if sd_disabled definition then _ else _); try apply serves_ret.
  - apply serves_transaction. sounds.
  - apply serves_bind; [|intros; apply serves_ret]. apply serves_table_step. intros. apply step_set_timer.
Qed.

(** *** Control operations and stops *)

Lemma sound_follow_control execution : sound (follow_control_execution settings execution now_ns : SupM unit).
Proof using Hnow.
  unfold follow_control_execution. apply sound_bind.
  { apply sound_update. intros w [? ? ? ? ? ? ? ?]. by split. }
  intros _. apply sound_bind; [|intros _; sounds].
  assert (sound (sup_exec id (exec_update (λ s, set_start (cancel_post_start_for_service (ced_service execution) s.(xs_start)).1 s))
    : SupM unit)) as Hc.
  { apply (sound_start_updates (λ st, (cancel_post_start_for_service (ced_service execution) st).1)). intros st Hst. by apply cancel_post_start_wf. }
  destruct (ced_kind execution); sounds; exact Hc.
Qed.

Lemma sound_try_begin operation_id : sound (try_begin_control operation_id now_ns : SupM _).
Proof.
  intros w Hw. unfold try_begin_control. pose proof Hw as [Hc Hi ? ? ? ? ? ?].
  set (request := {| cor_operation_id := operation_id; cor_observed_at_ns := now_ns |}).
  destruct (begin_control_serves (BoundaryError := BoundaryError) request (su_control w) Hc) as (c & r & Em & Hr). rewrite Em.
  pose proof (begin_control_stays request _ _ _ Em) as Hn. eexists _, _. split; [done|]. intros a _. split; simpl; try done.
  change (next_of (cx_exec c) ≤ sw_operation_ids (su_shutdown_work w)). by rewrite Hn.
Qed.

Lemma sound_pending_control queue :
  NoDup (map pco_operation_id queue) → sound (execute_pending_control settings now_ns queue : SupM _).
Proof using Hnow.
  induction queue as [|pending queue IH]; simpl; intros Hq; [apply sound_ret|]. apply NoDup_cons in Hq as [_ Hq].
  apply sound_bind; [apply sound_update; intros w [? ? ? ? ? ? ? ?]; by split|]. intros _.
  apply sound_bind; [apply sound_get|]. intros []; simpl; [|by apply IH].
  apply sound_bind; [apply sound_try_begin|]. intros [execution|error].
  - apply sound_bind; [apply sound_follow_control|]. intros. apply sound_ret.
  - unfold fail_refused_control. specialize (IH Hq). sounds. apply sound_fail_operation.
Qed.

Lemma pending_control_serves : serves sup_wf (execute_next_pending_control_operation settings now_ns : SupM _).
Proof using Hnow.
  apply serves_transaction. intros w Hw. rewrite (exec_bind_at _ _ w w (su_pending_control_operations w)) by done.
  pose proof (uw_queue _ Hw) as Hq. revert Hq. generalize (su_pending_control_operations w). intros queue Hq. revert w Hw.
  refine (_ : triple _ _ _). apply sound_bind; [by apply sound_pending_control|]. intros. sounds.
Qed.

Lemma stop_timeout_serves : serves sup_wf (process_next_due_stop_timeout settings now_ns : SupM _).
Proof.
  unfold process_next_due_stop_timeout. apply serves_bind; [apply serves_get|]. intros [deadline|]; [|apply serves_ret].
  apply serves_transaction. apply sound_bind; [|intros; sounds].
  apply sound_control; [apply escalate_serves|apply escalate_stays].
Qed.
End Checks.

(** ** Events *)

(** What the supervisor is told, and when: processes that ended, clocks that
    ran out, operations that wait for their turn. *)
Inductive SupervisorEvent : Type :=
| UvMainCompleted (with_controller : bool) (job_id : JobId) (exit_code : Z)
| UvMainFailed (with_controller : bool) (job_id : JobId) (exit : option JobExit) (cause : string)
| UvHealthCompleted (job_id : JobId) (exit_code : Z)
| UvHealthFailed (job_id : JobId) (exit : option JobExit) (cause : string)
| UvWatchdogs
| UvHealthIntervals
| UvHealthTimeouts
| UvTimer (service : string)
| UvControl
| UvStopTimeout
| UvSettle
| UvPreHookCompleted (job_id : JobId) (exit_code : Z)
| UvPreHookFailed (job_id : JobId) (exit : option JobExit) (cause : string)
| UvPreHookTimeout
| UvCheckCompleted (result_fd : Z) (report : FilesystemCheckReport)
| UvCheckTimeout (operation_id : OperationId)
| UvPostHookCompleted (job_id : JobId) (exit_code : Z)
| UvPostHookFailed (job_id : JobId) (exit : option JobExit) (cause : string)
| UvPostHookTimeout
| UvReadinessTimeout
| UvReloadDetections
| UvReloadCompleted (job_id : JobId) (exit_code : Z)
| UvReloadFailed (job_id : JobId) (exit : option JobExit) (cause : string)
| UvReloadTimeout
| UvCommand (command : LifecycleCommand) (service : string) (caller : option TokenSummary)
| UvMaintenance (with_controller : bool).

Section Events.
Context {P BoundaryError : Type} `{CalendarSyntax} `{!ProcessController P BoundaryError}.
Notation Work := (SupervisorWork P BoundaryError).
Notation Error := (SupervisorError BoundaryError).
Notation SupM := (Exec Work Error).
Context (settings : SupervisorSettings).

Definition done_with {A} (m : SupM A) : SupM unit := _ ← m; mret tt.

Definition handle_supervisor_event (event : SupervisorEvent) (at_ns : Z) : SupM unit :=
  match event with
  | UvMainCompleted with_controller job_id exit_code =>
      done_with (complete_main_job settings with_controller job_id at_ns exit_code)
  | UvMainFailed with_controller job_id exit cause =>
      done_with (fail_running_main_job settings with_controller job_id at_ns exit cause)
  | UvHealthCompleted job_id exit_code =>
      done_with (apply_health_check_terminal_job_event settings job_id at_ns (complete_job job_id at_ns exit_code))
  | UvHealthFailed job_id exit cause =>
      done_with (apply_health_check_terminal_job_event settings job_id at_ns (fail_running_job job_id at_ns exit cause))
  | UvWatchdogs => done_with (process_due_watchdog_timeouts settings at_ns)
  | UvHealthIntervals => done_with (process_due_health_check_intervals at_ns)
  | UvHealthTimeouts => done_with (process_due_health_check_timeouts settings at_ns)
  | UvTimer service => done_with (handle_timer_firing settings service at_ns)
  | UvControl => done_with (execute_next_pending_control_operation settings at_ns)
  | UvStopTimeout => done_with (process_next_due_stop_timeout settings at_ns)
  | UvSettle => done_with (settle_held_restarts_now at_ns settings.(sst_max_parallel_starts))
  | UvPreHookCompleted job_id exit_code => done_with (sup_complete_pre_start_hook_job settings job_id at_ns exit_code)
  | UvPreHookFailed job_id exit cause => done_with (fail_running_pre_start_hook_job settings job_id at_ns exit cause)
  | UvPreHookTimeout => done_with (process_next_due_pre_start_hook_timeout settings at_ns)
  | UvCheckCompleted result_fd report => done_with (complete_filesystem_check_helper settings result_fd report at_ns)
  | UvCheckTimeout operation_id => done_with (process_due_filesystem_check_timeout settings operation_id at_ns)
  | UvPostHookCompleted job_id exit_code => done_with (sup_complete_post_start_hook_job settings job_id at_ns exit_code)
  | UvPostHookFailed job_id exit cause => done_with (fail_running_post_start_hook_job settings job_id at_ns exit cause)
  | UvPostHookTimeout => done_with (process_next_due_post_start_hook_timeout settings at_ns)
  | UvReadinessTimeout => done_with (process_next_due_readiness_timeout settings at_ns)
  | UvReloadDetections => done_with (process_due_reload_detection_windows settings at_ns)
  | UvReloadCompleted job_id exit_code => done_with (sup_complete_reload_command_job settings job_id at_ns exit_code)
  | UvReloadFailed job_id exit cause => done_with (sup_fail_running_reload_command_job settings job_id at_ns exit cause)
  | UvReloadTimeout => done_with (process_next_due_reload_command_timeout settings at_ns)
  | UvCommand command service caller =>
      done_with (run_lifecycle_command_with_process_controller settings command service caller at_ns)
  | UvMaintenance with_controller => done_with (process_due_operation_maintenance settings with_controller at_ns)
  end.

(** A turn that is refused is over; the next one goes on from what it left. *)
Definition handle_supervisor_events (events : list (SupervisorEvent * Z)) (w : Work) : option Work :=
  foldl (λ acc '(event, at_ns), w ← acc; fst <$> handle_supervisor_event event at_ns w) (Some w) events.

Lemma serves_done_with {A} (m : SupM A) : serves sup_wf m → serves sup_wf (done_with m).
Proof. intros Hm. apply serves_bind; [done|]. intros. apply serves_ret. Qed.

Lemma event_serves event at_ns : 0 ≤ at_ns → serves sup_wf (handle_supervisor_event event at_ns).
Proof.
  intros Hat. destruct event; apply serves_done_with;
    auto using watchdogs_serve, intervals_serve, health_timeouts_serve, timer_serves, pending_control_serves, stop_timeout_serves,
      pre_timeout_serves, check_serves, check_timeout_serves, post_timeout_serves, readiness_timeout_serves, detections_serve,
      command_timeout_turn_serves, command_serves, maintenance_serves.
  - by apply terminal_sound, ends_complete_main.
  - by apply terminal_sound, ends_fail_main.
  - by apply health_terminal_serves, ends_complete_main.
  - by apply health_terminal_serves, ends_fail_main.
  - apply serves_transaction. apply sound_bind; [by apply eases_sound, eases_settle|]. intros. apply sound_commit.
  - by apply pre_hook_serves, ends_complete_main.
  - by apply pre_hook_serves, ends_fail_main.
  - by apply post_hook_serves, ends_complete_main.
  - by apply post_hook_serves, ends_fail_main.
  - by apply command_terminal_serves, ends_complete_main.
  - by apply command_terminal_serves, ends_fail_main.
Qed.

(** *** Refused events *)

Lemma sup_restore_same (w : Work) : sup_restore w w = w.
Proof. by destruct w as [[[[] ?]]]. Qed.

Lemma sup_undone_done_with {A} (m : SupM A) : undone sup_restore m → undone sup_restore (done_with m).
Proof. intros Hm. apply undone_bind_last; [done|]. intros. apply never_fails_ret. Qed.

Lemma sup_undone_atomic {A} (m : SupM A) : undone sup_restore (sup_atomic m).
Proof. apply undone_atomic. by intros now before. Qed.

Lemma sup_undone_reads {A} (m : SupM A) : reads m → undone sup_restore m.
Proof. apply undone_reads, sup_restore_same. Qed.

Lemma sup_undone_read {A B} (f : Work → A) (k : A → SupM B) :
  (∀ a, undone sup_restore (k a)) → undone sup_restore (exec_get f ≫= k).
Proof. apply undone_bind_reads; [exact sup_restore_same|apply reads_get]. Qed.

(** A timer is marked as pending on a service that is there. *)
Lemma sup_undone_pending service :
  undone sup_restore (sup_exec id (on_services (λ e, SeLifecycle (LcServiceTable e)) (set_pending_timer service)) : SupM bool).
Proof.
  intros w w' e. unfold sup_exec, exec_within, on_services, exec_on, set_pending_timer, with_runtime, with_entry.
  destruct (xs_services (su_exec w) !! service); [done|]. intros [= <- _]. by destruct w as [[[[] ?]]].
Qed.

(** A turn for what is due first. *)
Lemma sup_undone_next {D A} (f : Work → option D) (k : D → SupM (option A)) :
  (∀ d, undone sup_restore (k d)) →
  undone sup_restore (due ← exec_get f; match due with None => mret None | Some d => k d end).
Proof. intros Hk. apply sup_undone_read. intros [d|]; [apply Hk|apply sup_undone_reads, reads_ret]. Qed.

Lemma sup_undone_kept {A} (m : SupM (A * bool)) : undone sup_restore (sup_kept m).
Proof. intros w w' e. unfold sup_kept. destruct (m w) as [[w1 [[a []]|e1]]|]; [done|done| |done]. by intros [= <- _]. Qed.

(** What is asked of the kernel is not undone, and is all that is left. *)
Lemma sup_passes_controller {A} (wrap : BoundaryError → Error) (f : P → P * Result A BoundaryError) :
  passes sup_restore (sup_exec id (exec_on xs_controller set_controller wrap f) : SupM A).
Proof.
  intros w w' r. unfold sup_exec, exec_within, exec_on. destruct (f _) as [c r']. intros [= <- _]. by destruct w as [[[[] ?]]].
Qed.

Lemma sup_passes_ret {A} (a : A) : passes sup_restore (mret a : SupM A).
Proof. apply passes_reads; [exact sup_restore_same|apply reads_ret]. Qed.

Lemma sup_passes_bind {A B} (m : SupM A) (k : A → SupM B) :
  passes sup_restore m → (∀ a, passes sup_restore (k a)) → passes sup_restore (m ≫= k).
Proof. by apply passes_bind. Qed.

Lemma sup_passes_tree root : passes sup_restore (sup_cleanup_tree root : SupM _).
Proof.
  apply sup_passes_bind; [|intros; apply sup_passes_ret]. generalize (service_cgroup_cleanup_order root).
  intros l. induction l as [|cgroup_id l IH]; simpl; [apply sup_passes_ret|]. apply sup_passes_bind.
  - apply sup_passes_bind; [apply sup_passes_controller|]. intros. apply sup_passes_ret.
  - intros a. apply sup_passes_bind; [exact IH|]. intros. apply sup_passes_ret.
Qed.

Lemma sup_undone_passed {A B} (m : SupM A) (k : A → SupM B) :
  passes sup_restore m → (∀ a, undone sup_restore (k a)) → undone sup_restore (m ≫= k).
Proof. by apply undone_bind_passes. Qed.

Lemma sup_undone_lifted {A B} (r : Result A Error) (k : A → SupM B) :
  (∀ a, undone sup_restore (k a)) → undone sup_restore (exec_lift r ≫= k).
Proof. apply undone_bind_reads; [exact sup_restore_same|apply reads_lift]. Qed.

Lemma sup_undone_command command service caller at_ns :
  undone sup_restore (run_lifecycle_command_with_process_controller settings command service caller at_ns : SupM _).
Proof.
  unfold run_lifecycle_command_with_process_controller, run_lifecycle_command_at, run_abandoned_reset_command.
  apply sup_undone_read. intros r. apply sup_undone_lifted. intros [].
  - apply sup_undone_read. intros ?. apply sup_undone_lifted. intros _. apply sup_undone_read. intros ?.
    apply sup_undone_lifted. intros generation. apply sup_undone_passed; [apply sup_passes_controller|]. intros populated.
    apply sup_undone_passed; [destruct populated; [apply sup_passes_ret|apply sup_passes_tree]|]. intros _.
    apply undone_bind_last; [apply sup_undone_kept|]. intros. apply never_fails_ret.
  - apply sup_undone_read. intros ?. apply sup_undone_lifted. intros _. apply sup_undone_read. intros ?.
    apply sup_undone_lifted. intros _. apply sup_undone_kept.
Qed.

Lemma sup_undone_maintenance with_controller at_ns :
  undone sup_restore (process_due_operation_maintenance settings with_controller at_ns : SupM _).
Proof.
  unfold process_due_operation_maintenance. apply sup_undone_read. intros due. apply undone_bind_last.
  - destruct (requires_supervisor_work due); [apply sup_undone_atomic|apply sup_undone_reads, reads_ret].
  - intros turn w w' e. unfold sweep_retained. destruct (drain_audit_events _), (retire_drained_contexts _).
    destruct (purge_terminal_retained_until _ _ _), (purge_retained_until _ _). done.
Qed.

Lemma sup_undone_timer service at_ns : undone sup_restore (handle_timer_firing settings service at_ns : SupM _).
Proof.
  unfold handle_timer_firing. apply sup_undone_read. intros []; [apply sup_undone_reads, reads_ret|].
  apply sup_undone_read. intros [[definition|] [runtime|]]; try apply sup_undone_reads, reads_ret.
  destruct (if sd_disabled definition then _ else _); try apply sup_undone_reads, reads_ret; [apply sup_undone_atomic|].
  apply undone_bind_last; [apply sup_undone_pending|]. intros. apply never_fails_ret.
Qed.

Lemma sup_event_undone event at_ns : undone sup_restore (handle_supervisor_event event at_ns).
Proof.
  destruct event; apply sup_undone_done_with; try apply sup_undone_atomic;
    try (apply sup_undone_next; intros; apply sup_undone_atomic);
    auto using sup_undone_timer, sup_undone_command, sup_undone_maintenance.
Qed.
End Events.
