(* ===== verification/SupervisorSpec.v ===== *)
(** * What the supervisor promises

    About [Relationships], [SupervisorRun] and [SupervisorChecks]: its stores
    stay well formed, its recursions end, an event that is refused changes
    nothing, a start waits for those it conflicts with, and a watchdog that runs
    out ends the run it was armed for and no other. *)

From S2P Require Import Prelude RustStr ServiceRuntime ServiceDef Ids Restart Cgroup ServiceTable Calendar Tty.
From S2P Require Import OperationRecord OperationStore OperationInv ExecCommand StartPlan StartPlanSpec Lifecycle.
From S2P Require Import JobRecord JobStore SubmittedRun FailureDispatch.
From S2P Require Import Effects ExecGraph StartState StartBegin StartRun MainProcess Release.
From S2P Require Import Graph ServiceTableInv ExecGraphSpec ExecGraphInv StartInv StartSpec ReleaseInv.
From S2P Require Import ControlRun ControlInv ControlSpec Notify SubmittedDef NotifyRun ShutdownRun ShutdownInv.
From S2P Require Import SupWork Relationships SupervisorRun SupervisorChecks SettleInv SupervisorInv SupervisorEvents.
From Stdlib Require Import String.
Open Scope string_scope.
Open Scope list_scope.
Open Scope Z_scope.

(** ** The transition of a watchdog that runs out *)

Lemma transition_event service tr t t' moved :
  transition_service service tr t = (t', Ok moved) →
  ∃ e, t !! service = Some e ∧ moved.(tt_event).(ev_from) = e.(en_runtime).(rt_state) ∧
    moved.(tt_event).(ev_to) = tr.(st_to).
Proof.
  rewrite transition_service_unfold. destruct (t !! service) as [e|] eqn:Ee; [|done].
  destruct (transition tr (en_runtime e)) as [r [ev|]] eqn:Et; [|done]. intros [= _ <-].
  apply transition_Ok_inv in Et as (_ & -> & _). by exists e.
Qed.

Lemma watchdog_transition_event service definition now_ns t t' moved :
  apply_watchdog_timeout_transition service definition now_ns t = (t', Ok moved) →
  ∃ e, t !! service = Some e ∧ moved.(tt_event).(ev_from) = e.(en_runtime).(rt_state) ∧
    (moved.(tt_event).(ev_to) = StBackoff ∨ moved.(tt_event).(ev_to) = StFailed).
Proof.
  unfold apply_watchdog_timeout_transition, apply_evaluation. destruct (ok_or _ _) as [runtime|]; [|done].
  destruct (evaluate_restart_after_failure _ _ _ _) as [[cause delay failures|cause state]] eqn:Ev; simpl.
  - unfold transition_service_to_restart_backoff. destruct (transition_service _ _ _) as [t1 [tr|]] eqn:Et; [|done].
    apply transition_event in Et as (e & He & Hf & Ht). unfold with_entry.
    destruct (t1 !! service); [|done]. intros [= _ <-]. exists e. auto.
  - apply evaluation_fail in Ev as ->. destruct (transition_service _ _ _) as [t1 [tr|]] eqn:Et; [|done].
    intros [= _ <-]. apply transition_event in Et as (e & He & Hf & Ht). exists e. auto.
Qed.


Section Spec.
Context {P BoundaryError : Type} `{CalendarSyntax} `{!ProcessController P BoundaryError}.
Notation Work := (SupervisorWork P BoundaryError).
Notation Error := (SupervisorError BoundaryError).
Notation SupM := (Exec Work Error).

(** Whatever sequence of events the supervisor is told of, at times that are
    not negative (ends of main processes, hooks, check helpers, health checks and
    reload commands, those of them, watchdogs and stops that ran out of time,
    timers, commands of clients, the upkeep of operations, operations that wait
    for the control boundary, held starts), it answers every one, and its stores
    stay well formed: services, operations, jobs, starts, the graph, the
    supervisor's own stores, conflicts that wait for somebody else, failure
    chains that are bounded and name no handler twice, and a queue that holds no
    operation twice. *)
Theorem supervisor_events_keep_stores settings events (w : Work) :
  sup_wf w → Forall (λ p, 0 ≤ p.2) events →
  ∃ w', handle_supervisor_events settings events w = Some w' ∧ sup_wf w'.
Proof.
  intros Hw Hev. unfold handle_supervisor_events. revert w Hw.
  induction Hev as [|[event at_ns] events Hat _ IH]; intros w Hw; simpl in *; [by exists w|].
  destruct (event_serves settings event at_ns Hat w Hw) as (w1 & r & E1 & Hw1). rewrite E1. simpl. by apply IH.
Qed.

(** C6: The settlement of held starts ends: settling a service whose restart is
    decided may decide others, which are settled in turn, and the recursion
    comes to its end with the stores well formed and no more starts under way
    than before. *)
Theorem settlements_always_end at_ns slots (w : Work) :
  sup_wf w → 0 ≤ at_ns →
  ∃ w' r, (settle_held_restarts at_ns slots : SupM unit) w = Some (w', r) ∧
    (r = Ok tt → sup_wf w' ∧ (size (live_pairs (su_graph w')) ≤ size (live_pairs (su_graph w)))%nat).
Proof.
  intros Hw Hat. destruct (eases_settle at_ns Hat slots (su_graph w) 0%nat w) as (w' & r & E1 & Hr).
  - split; [done|]. apply spent_refl. apply Hw.
  - exists w', r. split; [done|]. intros ->. destruct (Hr tt eq_refl) as [Hw' [_ Hl _ _]]. split; [done|].
    unfold su_graph in *. lia.
Qed.

(** ** Conflicts *)

(** What a stop that a relationship asks for leaves alone. *)
Definition asks_only (w w' : Work) : Prop :=
  su_services w' = su_services w ∧ su_jobs w' = su_jobs w ∧ su_graph w' = su_graph w ∧
  w'.(su_relationships) = w.(su_relationships).

#[local] Instance asks_only_preorder : PreOrder asks_only.
Proof. split; [done|]. intros a b c (? & ? & ? & ?) (? & ? & ? & ?). unfold asks_only. split_and!; congruence. Qed.

Lemma relationship_stop_asks service source at_ns : relates asks_only (queue_relationship_stop service source at_ns : SupM unit).
Proof.
  unfold queue_relationship_stop, allocate_operation_id. apply relates_bind; [apply _| |intros id].
  { apply relates_bind; [apply _|by apply relates_on|]. intros. apply relates_reads, reads_ret. apply _. }
  apply relates_bind; [apply _| |intros outcome].
  { apply (relates_within _ (λ x x' : ExecState P, xs_services x' = xs_services x ∧ xs_jobs x' = xs_jobs x ∧
      xs_graph x' = xs_graph x)); [by apply relates_on|]. intros w x (? & ? & ?). done. }
  apply relates_bind; [apply _| |intros; apply relates_reads, reads_ret; apply _].
  intros w w' r. unfold queue_boundary. destruct (queue_control_boundary _ _ _ _). by intros [= <- _].
Qed.

(** C14: A start waits for those it conflicts with. Either nobody who runs outside
    the start conflicts, one way or the other, with a service of it, and the
    start is let go; or nothing of it is: no process, no transition and no step
    of the graph, and its context is recorded as waiting for exactly those. *)
Theorem conflicting_start_waits context_id start at_ns slots (w w' : Work) dispatches :
  (gate_start_context context_id start at_ns slots : SupM _) w = Some (w', Ok dispatches) →
  let conflicting x := is_running (su_services w) x = true ∧ x ∉ start ∧
    ∃ s, s ∈ start ∧ (x ∈ conflicts_of (su_services w) s ∨ s ∈ conflicts_of (su_services w) x) in
  (∀ x, ~ conflicting x) ∧ release_in_work context_id slots at_ns w = Some (w', Ok dispatches) ∨
  dispatches = [] ∧ su_services w' = su_services w ∧ su_jobs w' = su_jobs w ∧ su_graph w' = su_graph w ∧
  ∃ context, w'.(su_relationships).(rs_conflict_contexts) !! context_id = Some context ∧
    context.(pcc_start_services) = start ∧ context.(pcc_blockers) ≠ ∅ ∧ ∀ x, x ∈ context.(pcc_blockers) ↔ conflicting x.
Proof.
  unfold gate_start_context. intros (w0 & blockers & [= -> <-] & Hrun)%exec_bind_Ok. cbv zeta.
  case_bool_decide as Hb; [left|right].
  - split; [|done]. intros x Hx%elem_of_active_conflicts. rewrite Hb in Hx. by apply elem_of_empty in Hx.
  - apply exec_bind_Ok in Hrun as (w1 & stops & E1 & Hrun).
    apply (relates_each asks_only) in E1 as (Hs & Hj & Hg & _); [|intros; apply relationship_stop_asks].
    apply exec_bind_Ok in Hrun as (w2 & [] & [= <-] & [= <- <-]). split_and!; try done.
    eexists. split; [apply lookup_insert_eq|]. simpl. split_and!; [done..|]. intros x. apply elem_of_active_conflicts.
Qed.

(** ** Watchdogs *)

Lemma running_main_job_Ok {E} service (missing : E) wrap (w w' : Work) job_id :
  running_main_job service missing wrap w = Some (w', Ok job_id) →
  w' = w ∧ ∃ job, current_service_main_job (su_jobs w) service = Some job_id ∧ (su_jobs w).(js_records) !! job_id = Some job ∧
    job.(jr_job_type) = JtServiceMain ∧ job.(jr_state) = JsRunning.
Proof.
  unfold running_main_job, mbind, exec_bind, exec_get, exec_lift. destruct (current_service_main_job _ _) as [id|]; [|done]. simpl.
  destruct (js_records (su_jobs w) !! id) as [job|] eqn:Ej; [|done]. simpl.
  destruct (bool_decide_reflect (jr_job_type job ≠ JtServiceMain)) as [|Ht]; [done|].
  destruct (bool_decide_reflect (jr_state job ≠ JsRunning)) as [|Hs]; [done|]. intros [= <- <-]. split; [done|].
  exists job. by split_and!; [| |apply dec_stable..].
Qed.

Lemma active_entry services service generation :
  active_in_generation services service generation = true →
  ∃ e, services !! service = Some e ∧ e.(en_runtime).(rt_state) = StActive.
Proof.
  unfold active_in_generation, table_runtime. destruct (services !! service) as [e|]; [|done]. simpl.
  intros [Ha%bool_decide_eq_true _]%andb_true_iff. by exists e.
Qed.

Lemma time_watchdog_out_Ok deadline definition job_id now_ns (w w' : Work) d :
  jobs_wf (su_jobs w) →
  (time_watchdog_out deadline definition job_id now_ns : Exec Work (WatchdogError BoundaryError) _) w = Some (w', Ok d) →
  let service := deadline.(wdl_service) in
  ∃ event moved, d.(wtd_job_event) = Some event ∧ event.(je_job_id) = job_id ∧
    d.(wtd_killed_cgroup_id) = Some (service_cgroup_root_path service deadline.(wdl_cgroup_generation)) ∧
    d.(wtd_service_transitions) = [moved] ∧
    (∃ e, su_services w !! service = Some e ∧ moved.(tt_event).(ev_from) = e.(en_runtime).(rt_state) ∧
      (moved.(tt_event).(ev_to) = StBackoff ∨ moved.(tt_event).(ev_to) = StFailed)) ∧
    d.(wtd_outcome) = (if bool_decide (moved.(tt_event).(ev_to) = StBackoff) then WtRestartScheduled else WtFailed) ∧
    (su_jobs w').(js_records) = delete job_id (su_jobs w).(js_records) ∧
    w'.(su_watchdog) = delete service w.(su_watchdog) ∧ su_graph w' = su_graph w ∧ su_operations w' = su_operations w.
Proof.
  intros Hj Hrun. unfold time_watchdog_out in Hrun. cbv zeta in Hrun.
  apply exec_bind_Ok in Hrun as (w2 & [] & [= <-] & Hrun).
  apply exec_bind_Ok in Hrun as (w3 & [] & E3 & Hrun). apply exec_within_Ok in E3 as (x3 & E3 & ->).
  apply exec_on_Ok in E3 as (c & _ & ->).
  apply exec_bind_Ok in Hrun as (w4 & event & E4 & Hrun). apply exec_within_Ok in E4 as (x4 & E4 & ->).
  apply exec_on_Ok in E4 as (jobs & Ef & ->).
  apply exec_bind_Ok in Hrun as (w5 & moved & E5 & Hrun). apply exec_within_Ok in E5 as (x5 & E5 & ->).
  apply exec_on_Ok in E5 as (t & Et & ->). injection Hrun as <- <-.
  pose proof (finish_job_spec job_id _ _ (ends_fail_running now_ns (Some (Signal 9)) "watchdog timed out") Hj) as Hf.
  match type of Hf with match ?x with _ => _ end => replace x with (jobs, Ok event : Result JobEvent JobStoreError) in Hf by (symmetry; exact Ef) end.
  destruct Hf as (_ & r & _ & Hid & _ & Hr & _).
  apply watchdog_transition_event in Et. by exists event, moved.
Qed.

End Spec.

(** ** A small system *)

Import Calendar.Utc.
#[local] Existing Instance shutdown_kernel.

Definition settings_default : SupervisorSettings := {| sst_max_parallel_starts := 4; sst_post_kill_timeout_secs := 10 |}.

(** The supervisor with nothing of its own to do. *)
Definition supervising {P E} (work : ShutdownWork P E) : SupervisorWork P E := {|
  su_shutdown_work := work; su_cgroup_cleanup := ∅; su_health := ∅; su_watchdog := ∅;
  su_relationships := relationship_store_new; su_pending_health_launches := []; su_pending_control_operations := [];
  su_held_restart_settlements := []; su_deferred_critical_reboot := None |}.

Lemma supervising_wf {P E} (work : ShutdownWork P E) :
  control_wf work.(sw_control) → next_of (wk_exec work) ≤ work.(sw_operation_ids) →
  work.(sw_pending_process_setups) = ∅ → sup_wf (supervising work).
Proof. intros Hc Hn Hs. split; simpl; try done; [apply NoDup_nil_2|]. rewrite Hs. apply map_Forall_empty. Qed.

(** "web" is up with a watchdog of five seconds; "www", its handler on failure,
    conflicts with "db", which is up as well. *)
Definition web_system : list ServiceDefinition :=
  [ {| (simple_system_boot "web" "/bin/web") with sd_restart_policy := PolicyNever; sd_on_failure := Some "www" |};
    {| (simple_system_boot "www" "/bin/www") with sd_conflicts := ["db"] |};
    simple_system_boot "db" "/bin/db" ].

Definition web_shutdown_work : ShutdownWork bool string :=
  work_with (moved_table web_system
      [("web", StStarting, TcExplicitStart); ("web", StActive, TcExplicitStart);
       ("db", StStarting, TcExplicitStart); ("db", StActive, TcExplicitStart)])
    (with_main 7 7 (simple_system_boot "web" "/bin/web") job_store_new) false.

Definition web_up : SupervisorWork bool string :=
  let w := supervising web_shutdown_work in
  {| w with su_watchdog := arm_watchdog "web" 1 0 5000000 100 ∅ |}.

Lemma with_main_wf id pid definition jobs : jobs_wf jobs → jobs_wf (with_main id pid definition jobs).
Proof.
  intros Hj. unfold with_main.
  pose proof (start_job_spec id {| ph_pid := pid; ph_pidfd := pid |} (requested_identity "SYSTEM") 25
    _ (create_job_wf (main_job_of id definition) jobs (main_job_fresh _ _) Hj)) as Hs.
  destruct (start_job_with_token_summary _ _ _ _ _) as [s' [ev|e]]; by destruct Hs.
Qed.

Lemma web_control_wf : control_wf web_shutdown_work.(sw_control).
Proof.
  split; [|apply control_store_new_wf]. split; [|apply start_store_new_wf]. split; simpl.
  - apply moved_table_wf.
  - apply op_reachable_store_wf, rtc_refl.
  - apply graph_store_new_wf.
  - apply with_main_wf, (job_reachable_ledger_wf empty_ledger), rtc_refl.
Qed.

Lemma web_up_wf : sup_wf web_up.
Proof.
  destruct (supervising_wf web_shutdown_work web_control_wf (Z.le_refl 0) eq_refl) as [? ? ? ? ? ? ? ?]. split; try done.
  apply arm_keyed, map_Forall_empty.
Qed.

(** The watchdog of "web" runs out: "web" fails, "www" is to be started for it,
    waits for "db", and "db" is asked to stop; once "db" is down "www" starts. *)
Example handler_waits_for_conflict :
  match handle_supervisor_event settings_default UvWatchdogs 6000000000 web_up with
  | Some (w, Ok _) =>
      map (λ s, rt_state <$> table_runtime (su_services w) s) ["web"; "www"; "db"] = [Some StFailed; Some StInactive; Some StActive] ∧
      map (λ c, (btree_elements c.(pcc_start_services), btree_elements c.(pcc_blockers)))
        (btree_values w.(su_relationships).(rs_conflict_contexts)) = [(["www"], ["db"])] ∧
      map ofc_services (btree_values w.(su_relationships).(rs_on_failure_chains)) = [["www"]] ∧
      map pco_service w.(su_pending_control_operations) = ["db"]
  | _ => False
  end.
Proof. vm_compute. auto. Qed.

Lemma supervisor_events_keep_stores_witness :
  ∃ w, handle_supervisor_events settings_default [(UvWatchdogs, 6000000000); (UvControl, 6000000001); (UvTimer "db", 6000000002)]
    web_up = Some w ∧ sup_wf w.
Proof. apply supervisor_events_keep_stores; [apply web_up_wf|]. repeat constructor; simpl; lia. Defined.

Lemma settlements_always_end_witness :
  ∃ w' r, (settle_held_restarts 6000000000 4 : Exec _ (SupervisorError string) unit) web_up = Some (w', r) ∧
    (r = Ok tt → sup_wf w' ∧ (size (live_pairs (su_graph w')) ≤ size (live_pairs (su_graph web_up)))%nat).
Proof. apply settlements_always_end; [apply web_up_wf|lia]. Defined.


Lemma conflicting_start_waits_witness :
  ∃ w' d, (gate_start_context 0 {["www"]} 6000000000 4 : Exec _ (SupervisorError string) _) web_up = Some (w', Ok d) ∧
    d = [] ∧ is_Some (w'.(su_relationships).(rs_conflict_contexts) !! 0).
Proof.
  assert (is_running (su_services web_up) "db" = true) as Hr by (vm_compute; reflexivity).
  assert (conflicts_of (su_services web_up) "www" = ["db"]) as Hdb by (vm_compute; reflexivity).
  destruct ((gate_start_context 0 {["www"]} 6000000000 4 : Exec _ (SupervisorError string) _) web_up) as [[w' [d|e]]|] eqn:E1;
    [|by vm_compute in E1..].
  exists w', d. split; [reflexivity|].
  destruct (conflicting_start_waits _ _ _ _ _ _ _ E1) as [[Hno _]|(-> & _ & _ & _ & context & Hc & _)].
  - exfalso. apply (Hno "db"). split; [exact Hr|]. split; [by apply not_elem_of_singleton_2|]. exists "www".
    split; [by apply elem_of_singleton_2|].
    left. rewrite Hdb. left.
  - split; [reflexivity|]. exists context. exact Hc.
Defined.

Definition web_deadline : WatchdogDeadline :=
  {| wdl_service := "web"; wdl_generation := 1; wdl_cgroup_generation := 0; wdl_due_at_ns := 5000000100 |}.

