(* ===== verification/SupervisorLaunch.v ===== *)
(** * Launching jobs

    Models [src/src/execution/launch/]: the environment of a process, which
    job may be launched for what, and the launch of a created job, which either
    runs at once or is being set up; and the supervisor's transactions around it
    ([src/src/supervisor/launch/], [post_start_hooks/launch.rs],
    [post_start_hooks/failure.rs], [health/launch.rs], [submitted/launch.rs],
    [process_setup.rs], [pending_queue.rs]): the next queued job of each kind,
    what a launch that failed means for the start it belongs to, and what the
    report of a process that was being set up means.

    The kernel is the class [LaunchBoundary]: the clock, tokens, the launcher of
    processes and the duplication of descriptors. The duplicates made for a
    launch are closed by whoever owns them and are not followed. The debug text
    of an error is the parameter [debug_launch]. *)

From S2P Require Import Prelude RustStr ServiceRuntime ServiceDef Ids Restart Cgroup ServiceTable Calendar Tty Shutdown.
From S2P Require Import OperationRecord OperationStore ExecCommand StartPlan Lifecycle JobRecord JobStore SubmittedStore SubmittedRun.
From S2P Require Import Effects ExecGraph StartState StartBegin StartRun MainProcess Release.
From S2P Require Import ControlRun Notify ShutdownRun SupWork Relationships SupervisorRun SupervisorChecks SupervisorStarts.
From stdpp Require Import pretty.
From Stdlib Require Import String.
Open Scope string_scope.
Open Scope list_scope.
Open Scope Z_scope.

(** ** Errors of the boundary ([boundary/model/error.rs], [process/launch_failure.rs]) *)

Inductive ProcessPreExecStep : Type :=
| PxCloseErrorPipeRead | PxSetStdio | PxResetSignals | PxInstallToken | PxSetRlimits | PxSetOomScore
| PxSetWorkingDirectory | PxSetEnvironment | PxSetNotifySocket | PxInjectStoredFileDescriptors | PxCreateSession
| PxAcquireControllingTerminal | PxExec.

Definition step_id (self : ProcessPreExecStep) : Z :=
  match self with
  | PxCloseErrorPipeRead => 1
  | PxSetStdio => 2
  | PxResetSignals => 3
  | PxInstallToken => 4
  | PxSetRlimits => 5
  | PxSetOomScore => 6
  | PxSetWorkingDirectory => 7
  | PxSetEnvironment => 8
  | PxSetNotifySocket => 9
  | PxInjectStoredFileDescriptors => 10
  | PxExec => 11
  | PxCreateSession => 12
  | PxAcquireControllingTerminal => 13
  end.

Definition step_from_id (id : Z) : option ProcessPreExecStep :=
  match id with
  | 1 => Some PxCloseErrorPipeRead
  | 2 => Some PxSetStdio
  | 3 => Some PxResetSignals
  | 4 => Some PxInstallToken
  | 5 => Some PxSetRlimits
  | 6 => Some PxSetOomScore
  | 7 => Some PxSetWorkingDirectory
  | 8 => Some PxSetEnvironment
  | 9 => Some PxSetNotifySocket
  | 10 => Some PxInjectStoredFileDescriptors
  | 11 => Some PxExec
  | 12 => Some PxCreateSession
  | 13 => Some PxAcquireControllingTerminal
  | _ => None
  end.

Definition step_label (self : ProcessPreExecStep) : string :=
  match self with
  | PxCloseErrorPipeRead => "close-error-pipe-read"
  | PxSetStdio => "set-stdio"
  | PxResetSignals => "reset-signals"
  | PxInstallToken => "install-token"
  | PxSetRlimits => "set-rlimits"
  | PxSetOomScore => "set-oom-score"
  | PxSetWorkingDirectory => "set-working-directory"
  | PxSetEnvironment => "set-environment"
  | PxSetNotifySocket => "set-notify-socket"
  | PxInjectStoredFileDescriptors => "inject-stored-file-descriptors"
  | PxCreateSession => "create-session"
  | PxAcquireControllingTerminal => "acquire-controlling-terminal"
  | PxExec => "exec"
  end.

Record ProcessPreExecError : Type := { ppe_step : ProcessPreExecStep; ppe_errno : Z }.

Inductive ProcessLaunchError : Type :=
| PlParentSetup (message : string) (cleanup_evidence : list ProcessCleanupEvidence)
| PlPreExec (error : ProcessPreExecError) (cleanup_evidence : list ProcessCleanupEvidence)
| PlMalformedPreExec (message : string) (cleanup_evidence : list ProcessCleanupEvidence).

Inductive BoundaryError : Type :=
| BeRegistry (message : string)
| BeClock (message : string)
| BeToken (message : string)
| BeProcess (message : string)
| BeProcessLaunch (error : ProcessLaunchError)
| BeTimer (message : string)
| BeRecovery (message : string)
| BeShutdown (message : string)
| BeEventdLog (message : string)
| BeKmes (message : string)
| BeKmesRefused (errno : Z) (message : string).

Notation LaunchError := (LaunchCreatedJobError BoundaryError).

(** ** What is launched ([boundary/model/process/launch.rs], [process/token.rs]) *)

Record TokenHandle : Type := { th_fd : Z; th_identity : string; th_summary : TokenSummary }.
Record EnvironmentVariable : Type := { ev_name : string; ev_value : string }.
Record ProcessInheritedFd : Type := { pif_name : string; pif_fd : Z }.

Record ProcessLaunchSpec : Type := {
  pl_job : JobRecord;
  pl_token : TokenHandle;
  pl_environment : list EnvironmentVariable;
  pl_inherited_fds : list ProcessInheritedFd;
  pl_setup_timeout_secs : Z;
  pl_output_pipe_buffer_bytes : Z;
}.

Inductive ProcessSetupStatus : Type :=
| StatusPending
| StatusExecSucceeded
| StatusPreExecFailed (error : ProcessPreExecError)
| StatusMalformedPreExec (message : string).

(** [Clock], [TokenProvider], [ProcessLauncher], and [SharedFd::duplicate_min]
    with the text of its error. *)
Class LaunchBoundary (B : Type) : Type := {
  monotonic_ns : B → B * Result Z BoundaryError;
  materialize_service_token : JobRecord → B → B * Result TokenHandle BoundaryError;
  materialize_prepared_token : JobRecord → Z → B → B * Result TokenHandle BoundaryError;
  provision_service_runtime_directories : ServiceDefinition → B → B * Result unit BoundaryError;
  launch_service : ProcessLaunchSpec → B → B * Result LaunchedProcess BoundaryError;
  launch_job : ProcessLaunchSpec → B → B * Result LaunchedProcess BoundaryError;
  duplicate_min : Z → Z → B → B * Result Z string;
}.

(** ** The environment of a process ([environment.rs]) *)

Definition PATH : string := "PATH".
Definition NOTIFY_SOCKET : string := "NOTIFY_SOCKET".
Definition LISTEN_FDS : string := "LISTEN_FDS".
Definition LISTEN_FDNAMES : string := "LISTEN_FDNAMES".
Definition LISTEN_PID : string := "LISTEN_PID".
Definition DEFAULT_PATH : string := "/sbin:/bin".
Definition PROTOCOL_VARIABLES : list string := [NOTIFY_SOCKET; LISTEN_FDS; LISTEN_FDNAMES; LISTEN_PID].

Definition is_protocol_variable (name : string) : bool := bool_decide (name ∈ PROTOCOL_VARIABLES).

Definition uses_compiled_in_environment_only (job : JobRecord) : bool :=
  bool_decide (job.(jr_resolved_identity) = SYSTEM_IDENTITY) && bool_decide (job.(jr_service) = Some REGISTRYD_NAME).

Definition add_variable (variables : gmap string string) (variable : ServiceEnvironmentVariable) : gmap string string :=
  if is_protocol_variable variable.(env_name) then variables
  else <[variable.(env_name) := variable.(env_value)]> variables.

Definition launch_variables (job : JobRecord) (notify_socket_path : string)
    (global_environment : list ServiceEnvironmentVariable) (inherited_fds : list ProcessInheritedFd)
    : gmap string string :=
  let variables := <[PATH := DEFAULT_PATH]> ∅ in
  let variables := if uses_compiled_in_environment_only job then variables
                   else foldl add_variable variables global_environment in
  let variables := foldl add_variable variables job.(jr_environment) in
  let variables := <[NOTIFY_SOCKET := notify_socket_path]> variables in
  match inherited_fds with
  | [] => variables
  | _ => <[LISTEN_FDNAMES := str_join ":" (map pif_name inherited_fds)]>
           (<[LISTEN_FDS := u64_to_string (Z.of_nat (List.length inherited_fds))]> variables)
  end.

Definition build_launch_environment_with_inherited_fds (job : JobRecord) (notify_socket_path : string)
    (global_environment : list ServiceEnvironmentVariable) (inherited_fds : list ProcessInheritedFd)
    : list EnvironmentVariable :=
  map (λ p, {| ev_name := p.1; ev_value := p.2 |})
    (btree_iter (launch_variables job notify_socket_path global_environment inherited_fds)).

Definition build_launch_environment (job : JobRecord) (notify_socket_path : string) : list EnvironmentVariable :=
  build_launch_environment_with_inherited_fds job notify_socket_path [] [].

(** ** Which job may be launched for what ([target.rs]) *)

Inductive LaunchTarget : Type :=
| TgServiceMain | TgReloadHook | TgPreExecHook | TgPostExecHook | TgHealthCheck | TgSubmitted.

Definition validate_service_main_job (job : JobRecord) : Result unit LaunchError :=
  if bool_decide (job.(jr_job_type) ≠ JtServiceMain) then Err (LeNotServiceMainJob job.(jr_id))
  else if bool_decide (job.(jr_service) = None) then Err (LeServiceMainJobMissingService job.(jr_id))
  else Ok tt.

Definition validate_reload_hook_job (job : JobRecord) : Result unit LaunchError :=
  if bool_decide (job.(jr_job_type) = JtReloadHook) then Ok tt
  else Err (LeNotReloadHookJob job.(jr_id) job.(jr_job_type)).
Definition validate_pre_exec_hook_job (job : JobRecord) : Result unit LaunchError :=
  if bool_decide (job.(jr_job_type) = JtPreExecHook) then Ok tt
  else Err (LeNotPreExecHookJob job.(jr_id) job.(jr_job_type)).
Definition validate_post_exec_hook_job (job : JobRecord) : Result unit LaunchError :=
  if bool_decide (job.(jr_job_type) = JtPostExecHook) then Ok tt
  else Err (LeNotPostExecHookJob job.(jr_id) job.(jr_job_type)).
Definition validate_health_check_job (job : JobRecord) : Result unit LaunchError :=
  if bool_decide (job.(jr_job_type) = JtHealthCheck) then Ok tt
  else Err (LeNotHealthCheckJob job.(jr_id) job.(jr_job_type)).
Definition validate_submitted_job (job : JobRecord) : Result unit LaunchError :=
  if bool_decide (job.(jr_job_type) = JtSubmitted) then Ok tt
  else Err (LeNotSubmittedJob job.(jr_id) job.(jr_job_type)).

Definition validate_job_type (self : LaunchTarget) (job : JobRecord) : Result unit LaunchError :=
  match self with
  | TgServiceMain => validate_service_main_job job
  | TgReloadHook => validate_reload_hook_job job
  | TgPreExecHook => validate_pre_exec_hook_job job
  | TgPostExecHook => validate_post_exec_hook_job job
  | TgHealthCheck => validate_health_check_job job
  | TgSubmitted => validate_submitted_job job
  end.

Definition validate_created_at (job : JobRecord) (launched_at_ns : Z) : Result unit LaunchError :=
  if bool_decide (job.(jr_state) ≠ JsCreated) then Err (LeJobNotCreated job.(jr_id) job.(jr_state))
  else if launched_at_ns <? job.(jr_created_at_ns)
  then Err (LeStartBeforeCreation job.(jr_id) job.(jr_created_at_ns) launched_at_ns)
  else Ok tt.

Definition launch_target_validate (self : LaunchTarget) (job : JobRecord) (launched_at_ns : Z) : Result unit LaunchError :=
  let? _ := validate_job_type self job in
  validate_created_at job launched_at_ns.

Definition target_launch {B} `{!LaunchBoundary B} (self : LaunchTarget) (spec : ProcessLaunchSpec)
    : B → B * Result LaunchedProcess BoundaryError :=
  match self with
  | TgServiceMain => launch_service spec
  | TgReloadHook | TgPreExecHook | TgPostExecHook | TgHealthCheck | TgSubmitted => launch_job spec
  end.

(** ** The launch of a created job ([model.rs], [dispatch/core.rs]) *)

Inductive LaunchTokenSource : Type := ServiceIdentity | Prepared (token_fd : Z).

Record LaunchCreatedJobRequest : Type := {
  lq_job_id : JobId;
  lq_launched_at_ns : Z;
  lq_notify_socket_path : string;
  lq_setup_timeout_secs : Z;
  lq_output_pipe_buffer_bytes : Z;
  lq_token_source : LaunchTokenSource;
}.

Record LaunchCreatedJobDispatch : Type := {
  ld_job_id : JobId;
  ld_process : LaunchedProcess;
  ld_job_event : JobEvent;
}.

Inductive LaunchCreatedJobResult : Type :=
| LaunchStarted (dispatch : LaunchCreatedJobDispatch)
| LaunchPendingSetup (setup : PendingLaunchSetup).

Definition setup_deadline_ns (launched_at_ns setup_timeout_secs : Z) : Z :=
  u64_saturating_add launched_at_ns (u64_saturating_mul setup_timeout_secs 1000000000).

Definition launch_spec (job : JobRecord) (token : TokenHandle) (notify_socket_path : string)
    (global_environment : list ServiceEnvironmentVariable) (inherited_fds : list ProcessInheritedFd)
    (setup_timeout_secs output_pipe_buffer_bytes : Z) : ProcessLaunchSpec := {|
  pl_job := job;
  pl_token := token;
  pl_environment := build_launch_environment_with_inherited_fds job notify_socket_path global_environment inherited_fds;
  pl_inherited_fds := inherited_fds;
  pl_setup_timeout_secs := setup_timeout_secs;
  pl_output_pipe_buffer_bytes := output_pipe_buffer_bytes;
|}.

(** The name of a descriptor and its value, as its owner holds them. *)
Definition inherited (p : string * Z) : ProcessInheritedFd := {| pif_name := p.1; pif_fd := p.2 |}.

(** Runs whatever [m] did: the end of a scope that owns something. *)
Definition exec_after {S E A} (f : S → S) (m : Exec S E A) : Exec S E A := λ s,
  match m s with Some (s, r) => Some (f s, r) | None => None end.

(** The result of a step as a value. *)
Definition exec_try {S E F A} (m : Exec S E A) : Exec S F (Result A E) := λ s,
  match m s with Some (s, r) => Some (s, Ok r) | None => None end.

(** ** Dispatches ([supervisor/dispatch/launch.rs], [control.rs], [health.rs], [submitted.rs]) *)

Record SupervisorPendingProcessSetupDispatch : Type := {
  pps_job_id : JobId;
  pps_job_type : JobType;
  pps_setup_status_fd : Z;
}.

Record SupervisorLaunchDispatch : Type := {
  sld_launch : LaunchCreatedJobDispatch;
  sld_started : ServiceMainJobStartedDispatch;
  sld_start_dispatches : list StartExecutionDispatch;
}.

Record SupervisorLaunchFailureDispatch : Type := {
  slf_job_event : JobEvent;
  slf_failure : StartFailureDispatch;
  slf_start_dispatches : list StartExecutionDispatch;
}.

Inductive SupervisorServiceLaunchDispatch : Type :=
| SvLaunched (dispatch : SupervisorLaunchDispatch)
| SvFailed (failure : SupervisorLaunchFailureDispatch)
| SvPendingSetup (pending : SupervisorPendingProcessSetupDispatch).

Record SupervisorStartHookLaunchFailureDispatch : Type := {
  shf_job_event : JobEvent;
  shf_failure : StartFailureDispatch;
  shf_killed_cgroup_id : string;
  shf_start_dispatches : list StartExecutionDispatch;
}.

Inductive SupervisorStartHookLaunchResult : Type :=
| ShLaunched (launch : LaunchCreatedJobDispatch)
| ShFailed (failure : SupervisorStartHookLaunchFailureDispatch)
| ShPendingSetup (pending : SupervisorPendingProcessSetupDispatch).

Record SupervisorPostStartHookLaunchFailureDispatch : Type := {
  phf_terminal : HookTerminalDispatch;
  phf_start_dispatches : list StartExecutionDispatch;
}.

Inductive SupervisorPostStartHookLaunchResult : Type :=
| PhLaunched (launch : LaunchCreatedJobDispatch)
| PhFailed (failure : SupervisorPostStartHookLaunchFailureDispatch)
| PhPendingSetup (pending : SupervisorPendingProcessSetupDispatch).

Inductive SupervisorControlLaunchResult : Type :=
| CtLaunched (launch : LaunchCreatedJobDispatch)
| CtPendingSetup (pending : SupervisorPendingProcessSetupDispatch).

Inductive SupervisorHealthCheckLaunchResult : Type :=
| HkLaunched (launch : LaunchCreatedJobDispatch)
| HkFailed (terminal : SupervisorHealthCheckTerminalDispatch)
| HkCancelled (job_event : JobEvent) (reason : string)
| HkPendingSetup (pending : SupervisorPendingProcessSetupDispatch).

Record SupervisorSubmittedLaunchDispatch : Type := {
  sbl_launch : LaunchCreatedJobDispatch;
  sbl_output_sink_fd : option Z;
}.

Inductive SupervisorSubmittedLaunchResult : Type :=
| SbLaunched (dispatch : SupervisorSubmittedLaunchDispatch)
| SbFailed (failure : SubmittedLaunchFailure)
| SbPendingSetup (pending : SupervisorPendingProcessSetupDispatch).

Inductive SupervisorProcessSetupDispatch : Type :=
| PsPending (pending : SupervisorPendingProcessSetupDispatch)
| PsStale (setup_status_fd : Z)
| PsServiceMainLaunched (dispatch : SupervisorLaunchDispatch)
| PsServiceMainFailed (failure : SupervisorLaunchFailureDispatch)
| PsStartHookLaunched (launch : LaunchCreatedJobDispatch)
| PsStartHookFailed (failure : SupervisorStartHookLaunchFailureDispatch)
| PsPostHookLaunched (launch : LaunchCreatedJobDispatch)
| PsPostHookFailed (failure : SupervisorPostStartHookLaunchFailureDispatch)
| PsControlLaunched (launch : LaunchCreatedJobDispatch)
| PsControlTimeout (timeout : ReloadCommandTimeoutDispatch)
| PsHealthCheckLaunched (launch : LaunchCreatedJobDispatch)
| PsHealthCheckFailed (terminal : SupervisorHealthCheckTerminalDispatch)
| PsSubmittedLaunched (dispatch : SupervisorSubmittedLaunchDispatch)
| PsSubmittedFailed (failure : SubmittedLaunchFailure).

(** ** Classification of failures ([launch/failure/classify.rs], [post_start_hooks/failure.rs]) *)

Definition pre_exec_text (error : ProcessPreExecError) : string :=
  step_label error.(ppe_step) +:+ " failed with errno " +:+ pretty error.(ppe_errno).

(** What the boundary says, when it is about a launch. *)
Definition launch_failure_detail (error : LaunchError) : option string :=
  match error with
  | LeBoundary (BeToken message) => Some ("token materialization failed: " +:+ message)
  | LeBoundary (BeProcess message) => Some message
  | LeBoundary (BeProcessLaunch (PlParentSetup message _)) => Some message
  | LeBoundary (BeProcessLaunch (PlPreExec error _)) => Some (pre_exec_text error)
  | LeBoundary (BeProcessLaunch (PlMalformedPreExec message _)) => Some ("malformed child setup evidence: " +:+ message)
  | _ => None
  end.

Record ClassifiedLaunchFailure : Type := { clf_cause : TransitionCause; clf_reason : string }.

Definition clf_parent_setup (message : string) : ClassifiedLaunchFailure :=
  {| clf_cause := TcParentSetupFailure; clf_reason := "ParentSetupFailure: " +:+ message |}.

Definition classify_launch_failure (error : LaunchError) : option ClassifiedLaunchFailure :=
  match error with
  | LeBoundary (BeToken message) => Some (clf_parent_setup ("token materialization failed: " +:+ message))
  | LeBoundary (BeProcess message) => Some (clf_parent_setup message)
  | LeBoundary (BeProcessLaunch (PlParentSetup message _)) => Some (clf_parent_setup message)
  | LeBoundary (BeProcessLaunch (PlPreExec error _)) =>
      Some {| clf_cause := TcPreExecFailure; clf_reason := "PreExecFailure: " +:+ pre_exec_text error |}
  | LeBoundary (BeProcessLaunch (PlMalformedPreExec message _)) =>
      Some {| clf_cause := TcPreExecFailure;
              clf_reason := "PreExecFailure: malformed child setup evidence: " +:+ message |}
  | _ => None
  end.

Definition pre_start_hook_launch_failure_reason (error : LaunchError) : option string :=
  (λ detail, "PreHookFailure: launch failed: " +:+ detail) <$> launch_failure_detail error.

Definition post_start_hook_launch_failure_reason (error : LaunchError) : option string :=
  (λ detail, "ExecStartPostFailure: launch failed: " +:+ detail) <$> launch_failure_detail error.

(** Settings a launch reads: the notify socket, the size of the output pipe and
    the environment every job gets. *)
Record LaunchSettings : Type := {
  ln_notify_socket_path : string;
  ln_output_pipe_buffer_bytes : Z;
  ln_global_environment : list ServiceEnvironmentVariable;
}.

Definition DEFAULT_START_TIMEOUT_SECS : Z := 30.
Definition DEFAULT_HEALTH_CHECK_TIMEOUT_SECS : Z := 5.

Section Launch.
Context {P : Type} `{CalendarSyntax} `{!ProcessController P BoundaryError}.
Context (debug_launch : LaunchError → string).
Notation Work := (SupervisorWork P BoundaryError).
Notation Error := (SupervisorError BoundaryError).
Notation SupM := (Exec Work Error).

(** A step of submitted jobs. *)
Definition run_error (error : RunError (BoundaryError := BoundaryError)) : Error :=
  match error with
  | ReSubmitted error => SeSubmitted error
  | ReJobStore error => SeJobs error
  | ReProcessControl error => SeProcessControl error
  end.

Definition sup_submitted {A} (m : @Run P BoundaryError A) : SupM A :=
  exec_within su_shutdown_work set_su_shutdown_work id (work_submitted run_error m).

Definition find_job (job_id : JobId) : SupM JobRecord :=
  job ← exec_get (λ w, (su_jobs w).(js_records) !! job_id);
  exec_lift (ok_or job (SeJobs (UnknownJob job_id))).

Definition sup_on_start (f : StartExecutionStore → StartExecutionStore) : SupM unit :=
  sup_exec id (on_start f).

Definition close_descriptors (fds : list Z) (w : Work) : Work :=
  let work := w.(su_shutdown_work) in
  set_su_shutdown_work {| work with sw_closed := work.(sw_closed) ++ retain (λ fd, 0 <=? fd) fds |} w.

(** ** Processes being set up ([launch/mod.rs]) *)

Definition insert_pending_setup (fd : Z) (setup : PendingLaunchSetup) (w : Work) : Work :=
  let work := w.(su_shutdown_work) in
  set_su_shutdown_work {| work with sw_pending_process_setups := <[fd := setup]> work.(sw_pending_process_setups) |} w.

Definition record_pending_process_setup (setup : PendingLaunchSetup) : SupM SupervisorPendingProcessSetupDispatch :=
  job ← find_job setup.(pls_job_id);
  setup_status_fd ← exec_lift (ok_or setup.(pls_process).(lp_setup_status_fd)
    (SeLaunch (LeBoundary (BeProcess ("pending launch for job " +:+ to_canonical_string setup.(pls_job_id) +:+ " has no setup status fd")))));
  _ ← exec_update (insert_pending_setup setup_status_fd setup);
  mret {| pps_job_id := setup.(pls_job_id); pps_job_type := job.(jr_job_type); pps_setup_status_fd := setup_status_fd |}.

(** ** A main process runs, or could not be launched ([launch/service.rs], [launch/failure/service.rs]) *)

Definition remove_readiness_deadlines_for_completed_operations (events : list OperationEvent) : SupM unit :=
  sup_on_start (λ start, foldl (λ start event, (remove_readiness_deadline event.(oe_operation_id) start).1) start events).

Definition apply_started_service_launch (launch : LaunchCreatedJobDispatch) (launched_at_ns : Z) (max_parallel_starts : nat)
    : SupM SupervisorLaunchDispatch :=
  _ ← match launch.(ld_job_event).(je_service) with
      | Some service => update_fd_store (clear_service service)
      | None => mret tt
      end;
  started ← sup_exec SeJobStarted (apply_service_main_job_started launch.(ld_job_event));
  let transitions := started.(jsd_service_transitions) in
  _ ← match started.(jsd_post_start_hook) with
      | Some event => queue_created_post_hook_job event
      | None =>
          _ ← apply_health_scheduling_after_transitions transitions launched_at_ns;
          apply_watchdog_scheduling_after_transitions transitions launched_at_ns
      end;
  reactions ← apply_relationship_reactions_after_transitions transitions launched_at_ns max_parallel_starts;
  _ ← remove_readiness_deadlines_for_completed_operations started.(jsd_operation_events);
  released ← sup_release (release_after_graph_events started.(jsd_graph_events) max_parallel_starts launched_at_ns);
  mret {| sld_launch := launch; sld_started := started; sld_start_dispatches := reactions ++ released |}.

Definition cgroup_cleanup_delay_secs (cause : TransitionCause) (post_kill_timeout_secs : Z) : Z :=
  match cause with TcParentSetupFailure => 0 | _ => post_kill_timeout_secs end.

Definition record_failed_service_launch_cleanup (service : string) (event_service : option string)
    (cgroup_generation failed_at_ns : Z) (cause : TransitionCause) (post_kill_timeout_secs : Z) : SupM unit :=
  update_cleanup (record_cgroup_cleanup (default service event_service)
    (service_cgroup_root_path service cgroup_generation) CkServiceTree failed_at_ns
    (cgroup_cleanup_delay_secs cause post_kill_timeout_secs)).

Definition start_failure_error (error : StartFailureError) : Error := SeStarting (SeStartFailure error).

Definition missing_operation (job_id : JobId) (service : string) : Error := SeStarting (SeMissingOperation job_id service).

Definition apply_service_launch_failure (settings : SupervisorSettings) (job_id : JobId) (failed_at_ns : Z)
    (error : LaunchError) : SupM (option SupervisorLaunchFailureDispatch) :=
  match classify_launch_failure error with
  | None => mret None
  | Some classification =>
      job ← find_job job_id;
      job_event ← sup_jobs (fail_job_before_start job_id failed_at_ns classification.(clf_reason));
      service ← exec_lift (ok_or job_event.(je_service) (SeLaunch (LeServiceMainJobMissingService job_id)));
      operation_id ← exec_lift (ok_or job_event.(je_operation_id) (missing_operation job_id service));
      _ ← sup_on_start (λ start, (remove_readiness_deadline operation_id start).1);
      failure ← sup_exec start_failure_error (apply_start_failure {|
        sfr_service := service; sfr_operation_id := operation_id; sfr_failed_at_ns := failed_at_ns;
        sfr_failure_cause := classification.(clf_cause); sfr_reason := classification.(clf_reason);
        sfr_exit_code := None |});
      starts ← react_and_release settings failure.(sfd_service_transitions) failure.(sfd_graph_events) failed_at_ns;
      _ ← record_failed_service_launch_cleanup service job_event.(je_service) job.(jr_cgroup_generation) failed_at_ns
            classification.(clf_cause) settings.(sst_post_kill_timeout_secs);
      mret (Some {| slf_job_event := job_event; slf_failure := failure; slf_start_dispatches := starts |})
  end.

(** ** A hook before the start could not be launched ([launch/failure/pre_start_hook.rs]) *)

Definition record_failed_pre_start_hook_cleanup (settings : SupervisorSettings) (service killed_cgroup_id : string)
    (failed_at_ns : Z) : SupM unit :=
  _ ← record_cleanup_in_work settings service (killed_cgroup_id +:+ "/hooks") CkHooks failed_at_ns;
  record_cleanup_in_work settings service killed_cgroup_id CkServiceTree failed_at_ns.

(** The copies of the stores that are assigned back at the end: an error leaves
    the stores as they were, and the control group killed. *)
Definition fail_pre_start_hook (job_id : JobId) (service : string) (operation_id : OperationId)
    (killed_cgroup_id : string) (failed_at_ns : Z) (reason : string) : Step P Error (JobEvent * StartFailureDispatch) :=
  atomic (
    _ ← on_start (remove_pre_start_hook_deadline operation_id);
    _ ← on_start (remove_pre_start_sequence operation_id);
    _ ← kill (λ e, SeStarting (SeBoundary e)) killed_cgroup_id;
    job_event ← StartState.on_jobs SeJobs (fail_job_before_start job_id failed_at_ns reason);
    failure ← exec_map_err start_failure_error (apply_start_failure {|
      sfr_service := service; sfr_operation_id := operation_id; sfr_failed_at_ns := failed_at_ns;
      sfr_failure_cause := TcPreHookFailure; sfr_reason := reason; sfr_exit_code := None |});
    mret (job_event, failure)).

Definition apply_pre_start_hook_launch_failure (settings : SupervisorSettings) (job_id : JobId) (failed_at_ns : Z)
    (error : LaunchError) : SupM (option SupervisorStartHookLaunchFailureDispatch) :=
  match pre_start_hook_launch_failure_reason error with
  | None => mret None
  | Some reason =>
      job ← find_job job_id;
      service ← exec_lift (ok_or job.(jr_service) (SeStarting (SeMissingService job_id)));
      operation_id ← exec_lift (ok_or job.(jr_operation_id) (missing_operation job_id service));
      let killed_cgroup_id := service_cgroup_root_path service job.(jr_cgroup_generation) in
      '(job_event, failure) ← sup_exec id
        (fail_pre_start_hook job_id service operation_id killed_cgroup_id failed_at_ns reason);
      _ ← record_failed_pre_start_hook_cleanup settings (default service job_event.(je_service)) killed_cgroup_id failed_at_ns;
      starts ← react_and_release settings failure.(sfd_service_transitions) failure.(sfd_graph_events) failed_at_ns;
      mret (Some {| shf_job_event := job_event; shf_failure := failure; shf_killed_cgroup_id := killed_cgroup_id;
                    shf_start_dispatches := starts |})
  end.

(** ** A hook after the start could not be launched ([post_start_hooks/failure.rs]) *)

Definition apply_post_start_hook_launch_failure (settings : SupervisorSettings) (job_id : JobId) (failed_at_ns : Z)
    (error : LaunchError) : SupM (option SupervisorPostStartHookLaunchFailureDispatch) :=
  match post_start_hook_launch_failure_reason error with
  | None => mret None
  | Some reason =>
      job_event ← sup_jobs (fail_job_before_start job_id failed_at_ns reason);
      terminal ← complete_post_start_hook_in_work job_event;
      starts ← react_and_release settings terminal.(StartRun.htd_service_transitions) terminal.(htd_graph_events) failed_at_ns;
      _ ← schedule_after_final_post_start_hook terminal failed_at_ns;
      mret (Some {| phf_terminal := terminal; phf_start_dispatches := starts |})
  end.

(** ** A submitted job runs ([submitted/launch.rs]) *)

Definition update_submitted (f : gmap JobId SubmittedJobEntry → gmap JobId SubmittedJobEntry) (w : Work) : Work :=
  let work := w.(su_shutdown_work) in
  set_su_shutdown_work {| work with sw_submitted := {| sub_entries := f work.(sw_submitted).(sub_entries) |} |} w.

Definition find_submitted (job_id : JobId) : SupM SubmittedJobEntry :=
  entry ← exec_get (λ w, w.(su_shutdown_work).(sw_submitted).(sub_entries) !! job_id);
  exec_lift (ok_or entry (SeSubmitted (SeUnknownJob job_id))).

Definition apply_started_submitted_launch (launch : LaunchCreatedJobDispatch) : SupM SupervisorSubmittedLaunchDispatch :=
  entry ← find_submitted launch.(ld_job_id);
  _ ← exec_update (update_submitted (<[launch.(ld_job_id) := {| entry with se_output_sink_fd := None |}]>));
  mret {| sbl_launch := launch; sbl_output_sink_fd := entry.(se_output_sink_fd) |}.

(** ** The report of a process being set up ([process_setup.rs]) *)

Definition pending_setup_dispatch (w : Work) (setup_status_fd : Z) : option SupervisorPendingProcessSetupDispatch :=
  setup ← w.(su_shutdown_work).(sw_pending_process_setups) !! setup_status_fd;
  job ← (su_jobs w).(js_records) !! setup.(pls_job_id);
  Some {| pps_job_id := setup.(pls_job_id); pps_job_type := job.(jr_job_type); pps_setup_status_fd := setup_status_fd |}.

Definition complete_started_launch (settings : SupervisorSettings) (launch : LaunchCreatedJobDispatch) (job_type : JobType)
    (launched_at_ns : Z) : SupM SupervisorProcessSetupDispatch :=
  match job_type with
  | JtServiceMain =>
      dispatch ← apply_started_service_launch launch launched_at_ns settings.(sst_max_parallel_starts);
      mret (PsServiceMainLaunched dispatch)
  | JtPreExecHook => mret (PsStartHookLaunched launch)
  | JtPostExecHook => mret (PsPostHookLaunched launch)
  | JtReloadHook => mret (PsControlLaunched launch)
  | JtHealthCheck =>
      _ ← mark_health_invocation_running launch.(ld_job_id) launched_at_ns;
      mret (PsHealthCheckLaunched launch)
  | JtSubmitted =>
      dispatch ← apply_started_submitted_launch launch;
      mret (PsSubmittedLaunched dispatch)
  end.

Definition or_launch_error {A B} (wrap : A → B) (error : LaunchError) (dispatch : option A) : SupM B :=
  exec_lift (ok_or (wrap <$> dispatch) (SeLaunch error)).

Definition complete_failed_launch (settings : SupervisorSettings) (job_id : JobId) (job_type : JobType)
    (failed_at_ns : Z) (error : LaunchError) : SupM SupervisorProcessSetupDispatch :=
  match job_type with
  | JtServiceMain =>
      dispatch ← apply_service_launch_failure settings job_id failed_at_ns error;
      or_launch_error PsServiceMainFailed error dispatch
  | JtPreExecHook =>
      dispatch ← apply_pre_start_hook_launch_failure settings job_id failed_at_ns error;
      or_launch_error PsStartHookFailed error dispatch
  | JtPostExecHook =>
      dispatch ← apply_post_start_hook_launch_failure settings job_id failed_at_ns error;
      or_launch_error PsPostHookFailed error dispatch
  | JtHealthCheck =>
      job ← find_job job_id;
      terminal ← fail_created_health_check_in_work job_id failed_at_ns ("health check launch failed: " +:+ debug_launch error);
      terminal ← match job.(jr_service) with
                 | Some service => terminate_service_after_health_escalation settings terminal service
                                     job.(jr_cgroup_generation) failed_at_ns
                 | None => mret terminal
                 end;
      mret (PsHealthCheckFailed terminal)
  | JtSubmitted =>
      failure ← sup_submitted (apply_submitted_setup_failure job_id failed_at_ns ScPreExecFailure
        ("PreExecFailure: " +:+ debug_launch error) settings.(sst_post_kill_timeout_secs));
      mret (PsSubmittedFailed failure)
  | JtReloadHook => exec_fail (SeLaunch error)
  end.

Definition release_setup_process (process : LaunchedProcess) (cgroup_id : string) : SupM unit :=
  _ ← sup_exec SeProcessControl (kill id cgroup_id);
  exec_update (close_descriptors (process.(lp_pidfd) :: option_list process.(lp_stdout_fd) ++ option_list process.(lp_stderr_fd))).

Definition fail_setup (settings : SupervisorSettings) (setup : PendingLaunchSetup) (job : JobRecord)
    (observed_at_ns : Z) (error : ProcessLaunchError) : SupM SupervisorProcessSetupDispatch :=
  _ ← release_setup_process setup.(pls_process) job.(jr_cgroup_id);
  complete_failed_launch settings setup.(pls_job_id) job.(jr_job_type) observed_at_ns (LeBoundary (BeProcessLaunch error)).

Definition complete_setup (settings : SupervisorSettings) (setup : PendingLaunchSetup) (job : JobRecord)
    (status : ProcessSetupStatus) (observed_at_ns : Z) : SupM SupervisorProcessSetupDispatch :=
  let process := setup.(pls_process) in
  match status with
  | StatusExecSucceeded =>
      job_event ← sup_jobs (start_job_with_token_summary setup.(pls_job_id)
        {| ph_pid := process.(lp_pid); ph_pidfd := process.(lp_pidfd) |} setup.(pls_token_summary) setup.(pls_launched_at_ns));
      complete_started_launch settings {| ld_job_id := setup.(pls_job_id);
        ld_process := {| process with lp_setup_status_fd := None |}; ld_job_event := job_event |}
        job.(jr_job_type) setup.(pls_launched_at_ns)
  | StatusPreExecFailed error =>
      fail_setup settings setup job observed_at_ns (PlPreExec error process.(lp_cleanup_evidence))
  | StatusMalformedPreExec message =>
      fail_setup settings setup job observed_at_ns (PlMalformedPreExec message process.(lp_cleanup_evidence))
  | StatusPending => λ _, None (* unreachable *)
  end.

Definition remove_pending_setup (fd : Z) (w : Work) : Work :=
  let work := w.(su_shutdown_work) in
  set_su_shutdown_work {| work with sw_pending_process_setups := delete fd work.(sw_pending_process_setups) |} w.

Definition process_pending_process_setup_status (settings : SupervisorSettings) (setup_status_fd : Z)
    (status : ProcessSetupStatus) (observed_at_ns : Z) : SupM SupervisorProcessSetupDispatch :=
  match status with
  | StatusPending =>
      exec_get (λ w, match pending_setup_dispatch w setup_status_fd with
                     | Some pending => PsPending pending
                     | None => PsStale setup_status_fd
                     end)
  | _ =>
      sup_atomic (
        setup ← exec_get (λ w, w.(su_shutdown_work).(sw_pending_process_setups) !! setup_status_fd);
        match setup with
        | None => mret (PsStale setup_status_fd)
        | Some setup =>
            _ ← exec_update (remove_pending_setup setup_status_fd);
            job ← find_job setup.(pls_job_id);
            dispatch ← complete_setup settings setup job status observed_at_ns;
            _ ← commit_supervisor;
            mret dispatch
        end)
  end.

(** ** The state of a launch

    The supervisor, the boundary a launch uses, and the count of queue entries
    without a job ([stale_launch_entries]), which like the queue is changed
    outside the transaction. *)

Section Boundary.
Context {B : Type} `{!LaunchBoundary B}.

Record LaunchState : Type := {
  lx_work : Work;
  lx_boundary : B;
  lx_stale_launch_entries : nat;
}.

Notation LaunchM := (Exec LaunchState Error).

Definition set_lx_work (v : Work) (s : LaunchState) : LaunchState := {| s with lx_work := v |}.
Definition set_lx_boundary (v : B) (s : LaunchState) : LaunchState := {| s with lx_boundary := v |}.

Definition in_work {E F A} (wrap : F → E) (m : Exec Work F A) : Exec LaunchState E A :=
  exec_within lx_work set_lx_work wrap m.
Definition ask_boundary {E F A} (wrap : F → E) (f : B → B * Result A F) : Exec LaunchState E A :=
  exec_on lx_boundary set_lx_boundary wrap f.
Definition get_launch_work {E A} (f : Work → A) : Exec LaunchState E A := exec_get (λ s, f s.(lx_work)).
Definition change_work (f : Work → Work) : LaunchM unit := in_work id (exec_update f).

(** A transaction that fails leaves what it did to the kernel. *)
Definition launch_restore (now before : LaunchState) : LaunchState :=
  set_lx_work (sup_restore now.(lx_work) before.(lx_work)) now.
Definition launch_atomic {E A} (m : Exec LaunchState E A) : Exec LaunchState E A := exec_atomic launch_restore m.

(** ** The launch ([dispatch/core.rs]) *)

Definition launch_created_job_result (request : LaunchCreatedJobRequest) (target : LaunchTarget)
    (global_environment : list ServiceEnvironmentVariable) (inherited_fds : list ProcessInheritedFd)
    : Exec LaunchState LaunchError LaunchCreatedJobResult :=
  let job_id := request.(lq_job_id) in
  job ← get_launch_work (λ w, (su_jobs w).(js_records) !! job_id);
  job ← exec_lift (ok_or job (LeJobStore (UnknownJob job_id)));
  _ ← exec_lift (launch_target_validate target job request.(lq_launched_at_ns));
  token ← ask_boundary LeBoundary
    match request.(lq_token_source) with
    | ServiceIdentity => materialize_service_token job
    | Prepared token_fd => materialize_prepared_token job token_fd
    end;
  process ← ask_boundary LeBoundary (target_launch target (launch_spec job token request.(lq_notify_socket_path)
    global_environment inherited_fds request.(lq_setup_timeout_secs) request.(lq_output_pipe_buffer_bytes)));
  match process.(lp_setup_status_fd) with
  | Some _ =>
      mret (LaunchPendingSetup {| pls_job_id := job_id; pls_process := process; pls_token_summary := token.(th_summary);
        pls_launched_at_ns := request.(lq_launched_at_ns);
        pls_setup_deadline_ns := setup_deadline_ns request.(lq_launched_at_ns) request.(lq_setup_timeout_secs) |})
  | None =>
      job_event ← in_work id (sup_exec id (StartState.on_jobs LeJobStore (start_job_with_token_summary job_id
        {| ph_pid := process.(lp_pid); ph_pidfd := process.(lp_pidfd) |} token.(th_summary) request.(lq_launched_at_ns))));
      mret (LaunchStarted {| ld_job_id := job_id; ld_process := process; ld_job_event := job_event |})
  end.

(** ** Queues and requests ([pending_queue.rs], [launch/request.rs]) *)

Fixpoint drop_stale (jobs : JobStore) (queue : list JobId) : list JobId * nat :=
  match queue with
  | [] => ([], 0%nat)
  | job_id :: rest =>
      if bool_decide (is_Some (jobs.(js_records) !! job_id)) then (queue, 0%nat)
      else let (queue, dropped) := drop_stale jobs rest in (queue, S dropped)
  end.

Definition next_live_front (get : Work → list JobId) (set : list JobId → Work → Work) : LaunchM (option JobId) := λ s,
  let (queue, dropped) := drop_stale (su_jobs s.(lx_work)) (get s.(lx_work)) in
  Some ({| lx_work := set queue s.(lx_work); lx_boundary := s.(lx_boundary);
           lx_stale_launch_entries := s.(lx_stale_launch_entries) + dropped |}, Ok (head queue)).

Definition launch_setup_timeout_secs (w : Work) (job_id : JobId) : Z :=
  match (su_jobs w).(js_records) !! job_id with
  | None => DEFAULT_START_TIMEOUT_SECS
  | Some job =>
      let definition := service ← job.(jr_service); table_definition (su_services w) service in
      match job.(jr_job_type) with
      | JtHealthCheck => default DEFAULT_HEALTH_CHECK_TIMEOUT_SECS (sd_health_check_timeout_secs <$> definition)
      | JtServiceMain | JtPreExecHook | JtPostExecHook | JtReloadHook =>
          default DEFAULT_START_TIMEOUT_SECS (sd_start_timeout_secs <$> definition)
      | JtSubmitted => DEFAULT_START_TIMEOUT_SECS
      end
  end.

Definition launch_request_with_token (launching : LaunchSettings) (w : Work) (job_id : JobId) (launched_at_ns : Z)
    (token_source : LaunchTokenSource) : LaunchCreatedJobRequest := {|
  lq_job_id := job_id;
  lq_launched_at_ns := launched_at_ns;
  lq_notify_socket_path := launching.(ln_notify_socket_path);
  lq_setup_timeout_secs := launch_setup_timeout_secs w job_id;
  lq_output_pipe_buffer_bytes := launching.(ln_output_pipe_buffer_bytes);
  lq_token_source := token_source;
|}.

Definition launch_request (launching : LaunchSettings) (w : Work) (job_id : JobId) (launched_at_ns : Z)
    : LaunchCreatedJobRequest :=
  launch_request_with_token launching w job_id launched_at_ns ServiceIdentity.

(** Queues by their place in the work. *)
Definition set_pending_launches (v : list JobId) (w : Work) : Work :=
  let work := w.(su_shutdown_work) in set_su_shutdown_work {| work with sw_pending_launches := v |} w.
Definition set_pending_start_hook_launches (v : list JobId) (w : Work) : Work :=
  let work := w.(su_shutdown_work) in set_su_shutdown_work {| work with sw_pending_start_hook_launches := v |} w.
Definition set_pending_post_hook_launches (v : list JobId) (w : Work) : Work :=
  let work := w.(su_shutdown_work) in set_su_shutdown_work {| work with sw_pending_post_hook_launches := v |} w.
Definition set_pending_control_launches (v : list JobId) (w : Work) : Work :=
  let work := w.(su_shutdown_work) in set_su_shutdown_work {| work with sw_pending_control_launches := v |} w.
Definition set_pending_submitted_launches (v : list JobId) (w : Work) : Work :=
  let work := w.(su_shutdown_work) in set_su_shutdown_work {| work with sw_pending_submitted_launches := v |} w.
Definition set_pending_health_launches (v : list JobId) (w : Work) : Work := {| w with su_pending_health_launches := v |}.

(** The frame of every launch: the next live job of the queue, the time, and a
    transaction that takes the job off the queue. The request is made from the
    supervisor as it was before. *)
Definition launch_next {A} (launching : LaunchSettings) (get : Work → list JobId) (set : list JobId → Work → Work)
    (body : JobId → Z → LaunchCreatedJobRequest → LaunchM A) : LaunchM (option A) :=
  front ← next_live_front get set;
  match front with
  | None => mret None
  | Some job_id =>
      launched_at_ns ← ask_boundary SeClock monotonic_ns;
      request ← get_launch_work (λ w, launch_request launching w job_id launched_at_ns);
      launch_atomic (
        _ ← change_work (λ w, set (tail (get w)) w);
        dispatch ← body job_id launched_at_ns request;
        _ ← in_work id commit_supervisor;
        mret (Some dispatch))
  end.

(** ** Hooks before the start, reload commands and hooks after the start
    ([launch/hooks.rs], [launch/control.rs], [post_start_hooks/launch.rs]) *)

Definition launch_next_pending_start_hook_job_with_controller (settings : SupervisorSettings) (launching : LaunchSettings)
    : LaunchM (option SupervisorStartHookLaunchResult) :=
  launch_next launching (λ w, w.(su_shutdown_work).(sw_pending_start_hook_launches)) set_pending_start_hook_launches
    (λ job_id launched_at_ns request,
      launch ← exec_try (launch_created_job_result request TgPreExecHook launching.(ln_global_environment) []);
      match launch with
      | Ok (LaunchStarted launch) => mret (ShLaunched launch)
      | Ok (LaunchPendingSetup setup) =>
          pending ← in_work id (record_pending_process_setup setup); mret (ShPendingSetup pending)
      | Err error =>
          failure ← in_work id (apply_pre_start_hook_launch_failure settings job_id launched_at_ns error);
          in_work id (or_launch_error ShFailed error failure)
      end).

Definition launch_next_pending_control_job (launching : LaunchSettings) : LaunchM (option SupervisorControlLaunchResult) :=
  launch_next launching (λ w, w.(su_shutdown_work).(sw_pending_control_launches)) set_pending_control_launches
    (λ job_id launched_at_ns request,
      launch ← exec_map_err SeLaunch
        (launch_created_job_result request TgReloadHook launching.(ln_global_environment) []);
      match launch with
      | LaunchStarted launch => mret (CtLaunched launch)
      | LaunchPendingSetup setup =>
          pending ← in_work id (record_pending_process_setup setup); mret (CtPendingSetup pending)
      end).

Definition launch_next_pending_post_hook_job_with_controller (settings : SupervisorSettings) (launching : LaunchSettings)
    : LaunchM (option SupervisorPostStartHookLaunchResult) :=
  launch_next launching (λ w, w.(su_shutdown_work).(sw_pending_post_hook_launches)) set_pending_post_hook_launches
    (λ job_id launched_at_ns request,
      launch ← exec_try (launch_created_job_result request TgPostExecHook launching.(ln_global_environment) []);
      match launch with
      | Ok (LaunchStarted launch) => mret (PhLaunched launch)
      | Ok (LaunchPendingSetup setup) =>
          pending ← in_work id (record_pending_process_setup setup); mret (PhPendingSetup pending)
      | Err error =>
          failure ← in_work id (apply_post_start_hook_launch_failure settings job_id launched_at_ns error);
          in_work id (or_launch_error PhFailed error failure)
      end).

(** ** Main processes ([launch/service.rs], [launch/fd_inheritance.rs]) *)

Definition launch_parent_setup (message : string) : LaunchError := LeBoundary (BeProcessLaunch (PlParentSetup message [])).

Definition i32_max : Z := 2147483647.

Definition inherited_fd_duplicate_min (count : nat) : Result Z LaunchError :=
  if i32_max <? Z.of_nat count then Err (launch_parent_setup "stored fd count exceeds RawFd range")
  else if i32_max <? 3 + Z.of_nat count then Err (launch_parent_setup "stored fd count exceeds inherited fd range")
  else Ok (3 + Z.of_nat count).

Definition duplicate_stored_fd (service : string) (min_fd : Z) (entry : StoredFd)
    : Exec LaunchState LaunchError ProcessInheritedFd :=
  fd ← ask_boundary (λ error, launch_parent_setup ("duplicate stored fd '" +:+ entry.(sfd_name) +:+ "' for service '" +:+
    service +:+ "' failed: " +:+ error)) (duplicate_min entry.(sfd_fd) min_fd);
  mret {| pif_name := entry.(sfd_name); pif_fd := fd |}.

Definition stored_fds_of_job (w : Work) (job_id : JobId) : option (string * list StoredFd) :=
  job ← (su_jobs w).(js_records) !! job_id;
  if bool_decide (job.(jr_job_type) ≠ JtServiceMain) then None
  else
    service ← job.(jr_service);
    store ← w.(su_shutdown_work).(sw_fd_store) !! service;
    Some (service, store).

Definition inherited_fds_for_job (job_id : JobId) : Exec LaunchState LaunchError (list ProcessInheritedFd) :=
  stored ← get_launch_work (λ w, stored_fds_of_job w job_id);
  match stored with
  | None => mret []
  | Some (service, store) =>
      min_fd ← exec_lift (inherited_fd_duplicate_min (List.length store));
      exec_each (duplicate_stored_fd service min_fd) store
  end.

Definition service_definition_for_runtime_provisioning (job_id : JobId) (w : Work) : Result ServiceDefinition LaunchError :=
  let? job := ok_or ((su_jobs w).(js_records) !! job_id) (LeJobStore (UnknownJob job_id)) in
  let? service := ok_or job.(jr_service) (LeServiceMainJobMissingService job_id) in
  ok_or (table_definition (su_services w) service)
    (LeBoundary (BeProcess ("service definition for " +:+ service +:+
      " is unavailable during runtime directory provisioning"))).

Definition launch_service_main (launching : LaunchSettings) (job_id : JobId) (request : LaunchCreatedJobRequest)
    : Exec LaunchState LaunchError LaunchCreatedJobResult :=
  definition ← get_launch_work (service_definition_for_runtime_provisioning job_id);
  definition ← exec_lift definition;
  _ ← ask_boundary LeBoundary (provision_service_runtime_directories definition);
  inherited_fds ← inherited_fds_for_job job_id;
  launch_created_job_result request TgServiceMain launching.(ln_global_environment) inherited_fds.

Definition launch_next_pending_service_job (settings : SupervisorSettings) (launching : LaunchSettings)
    : LaunchM (option SupervisorServiceLaunchDispatch) :=
  launch_next launching (λ w, w.(su_shutdown_work).(sw_pending_launches)) set_pending_launches
    (λ job_id launched_at_ns request,
      launch ← exec_try (launch_service_main launching job_id request);
      match launch with
      | Ok (LaunchStarted launch) =>
          dispatch ← in_work id (apply_started_service_launch launch launched_at_ns settings.(sst_max_parallel_starts));
          mret (SvLaunched dispatch)
      | Ok (LaunchPendingSetup setup) =>
          pending ← in_work id (record_pending_process_setup setup); mret (SvPendingSetup pending)
      | Err error =>
          failure ← in_work id (apply_service_launch_failure settings job_id launched_at_ns error);
          in_work id (or_launch_error SvFailed error failure)
      end).

(** ** Health checks ([health/launch.rs]) *)

Definition launch_health_check (launching : LaunchSettings) (job_id : JobId) (launched_at_ns : Z)
    (request : LaunchCreatedJobRequest) : LaunchM SupervisorHealthCheckLaunchResult :=
  launch ← exec_try (launch_created_job_result request TgHealthCheck launching.(ln_global_environment) []);
  match launch with
  | Ok (LaunchStarted launch) =>
      _ ← in_work id (mark_health_invocation_running job_id launched_at_ns);
      mret (HkLaunched launch)
  | Ok (LaunchPendingSetup setup) =>
      pending ← in_work id (record_pending_process_setup setup); mret (HkPendingSetup pending)
  | Err error =>
      terminal ← in_work id (fail_launched_health_check_in_work job_id launched_at_ns
        ("health check launch failed: " +:+ debug_launch error));
      mret (HkFailed terminal)
  end.

Definition launch_next_pending_health_check_job (launching : LaunchSettings)
    : LaunchM (option SupervisorHealthCheckLaunchResult) :=
  launch_next launching su_pending_health_launches set_pending_health_launches
    (λ job_id launched_at_ns request,
      stale ← get_launch_work (λ w, stale_pending_health_check w job_id);
      if stale : bool then
        job_event ← in_work id (sup_exec id (StartState.on_jobs health_job_error
          (fail_job_before_start job_id launched_at_ns "health check cancelled")));
        mret (HkCancelled job_event "health check cancelled")
      else launch_health_check launching job_id launched_at_ns request).

(** ** Submitted jobs ([submitted/launch.rs])

    The descriptors taken from the entry are closed when their owner goes: those
    the process inherits at the latest after the launch, the prepared token after
    it. *)

Definition take_launch_descriptors (job_id : JobId) : LaunchM (option Z * list (string * Z)) :=
  entry ← in_work id (find_submitted job_id);
  _ ← change_work (update_submitted (<[job_id := {| entry with se_prepared_token_fd := None; se_attached_descriptors := [] |}]>));
  mret (entry.(se_prepared_token_fd), entry.(se_attached_descriptors)).

Definition fail_submitted_launch (settings : SupervisorSettings) (job_id : JobId) (launched_at_ns : Z) (text : string)
    : LaunchM SupervisorSubmittedLaunchResult :=
  failure ← in_work id (sup_submitted (apply_submitted_setup_failure job_id launched_at_ns ScParentSetupFailure text
    settings.(sst_post_kill_timeout_secs)));
  mret (SbFailed failure).

Definition close_in_launch (fds : list Z) (s : LaunchState) : LaunchState :=
  set_lx_work (close_descriptors fds s.(lx_work)) s.

Definition launch_submitted (settings : SupervisorSettings) (launching : LaunchSettings) (job_id : JobId)
    (launched_at_ns : Z) : LaunchM SupervisorSubmittedLaunchResult :=
  '(token, descriptors) ← take_launch_descriptors job_id;
  let fds := map snd descriptors in
  match token with
  | None =>
      exec_after (close_in_launch fds)
        (fail_submitted_launch settings job_id launched_at_ns "ParentSetupFailure: no prepared token")
  | Some token_fd =>
      request ← get_launch_work (λ w, launch_request_with_token launching w job_id launched_at_ns (Prepared token_fd));
      launch ← exec_after (close_in_launch (fds ++ [token_fd])) (exec_try
        (launch_created_job_result request TgSubmitted launching.(ln_global_environment) (map inherited descriptors)));
      match launch with
      | Ok (LaunchPendingSetup setup) =>
          pending ← in_work id (record_pending_process_setup setup); mret (SbPendingSetup pending)
      | Ok (LaunchStarted launch) =>
          dispatch ← in_work id (apply_started_submitted_launch launch); mret (SbLaunched dispatch)
      | Err error =>
          fail_submitted_launch settings job_id launched_at_ns ("ParentSetupFailure: " +:+ debug_launch error)
      end
  end.

Definition launch_next_pending_submitted_job (settings : SupervisorSettings) (launching : LaunchSettings)
    : LaunchM (option SupervisorSubmittedLaunchResult) :=
  launch_next launching (λ w, w.(su_shutdown_work).(sw_pending_submitted_launches)) set_pending_submitted_launches
    (λ job_id launched_at_ns _, launch_submitted settings launching job_id launched_at_ns).
End Boundary.
End Launch.

Arguments LaunchState : clear implicits.
