(* ===== verification/SupervisorLaunchInv.v ===== *)
(** * Launches keep the stores

    About [SupervisorLaunch]: the environment of a process is exact; every launch
    and every report of a process being set up answers and leaves the stores well
    formed, interleaved with the other events of the supervisor in any order. *)

From S2P Require Import Prelude RustStr ServiceRuntime ServiceDef Ids Restart Cgroup ServiceTable Calendar Tty.
From S2P Require Import Shutdown OperationRecord OperationStore OperationInv ExecCommand StartPlan StartPlanSpec.
From S2P Require Import Lifecycle JobRecord JobStore SubmittedStore SubmittedRun FailureDispatch Effects ExecGraph.
From S2P Require Import StartState StartBegin StartRun MainProcess Release Graph ServiceTableInv.
From S2P Require Import ExecGraphSpec ExecGraphInv StartInv StartSpec ReleaseInv ControlRun ControlInv ControlSpec Notify.
From S2P Require Import SubmittedDef NotifyRun ShutdownRun ShutdownInv SupWork Relationships.
From S2P Require Import SupervisorRun SupervisorChecks SupervisorStarts SupervisorLifecycle SupervisorNotify.
From S2P Require Import SettleInv SupervisorInv SupervisorLifecycleInv SupervisorEvents SupervisorSpec SupervisorLaunch.
From Stdlib Require Import String.
Open Scope string_scope.
Open Scope list_scope.
Open Scope Z_scope.

(** Steps that do not touch the jobs. *)
Ltac same_jobs := intros; intros ? ?; assumption.

Section Works.
Context {P : Type} `{CalendarSyntax} `{!ProcessController P BoundaryError}.
Context (debug_launch : LaunchError → string).
Notation Work := (SupervisorWork P BoundaryError).
Notation Error := (SupervisorError BoundaryError).
Notation SupM := (Exec Work Error).

(** ** Steps of submitted jobs *)

(** [m] keeps the job store well formed, whether it succeeds or not. *)
Definition keeps_jobs {A} (m : @Run P BoundaryError A) : Prop :=
  ∀ w, jobs_wf w.(wo_work).(w_jobs) → jobs_wf (m w).1.(wo_work).(w_jobs).

Lemma keeps_jobs_bind {A C} (m : @Run P BoundaryError A) (k : A → @Run P BoundaryError C) :
  keeps_jobs m → (∀ a, keeps_jobs (k a)) → keeps_jobs (m ≫= k).
Proof.
  intros Hm Hk w Hw. specialize (Hm w Hw). unfold mbind, eff_bind. destruct (m w) as [w1 [a|e]]; [by apply Hk|done].
Qed.

Lemma setup_failure_keeps_jobs id at_ns cause text secs : keeps_jobs (apply_submitted_setup_failure id at_ns cause text secs).
Proof.
  unfold apply_submitted_setup_failure, close_entry_descriptors, release_job_cgroup.
  apply keeps_jobs_bind; [same_jobs|intros _]. apply keeps_jobs_bind.
  { apply keeps_jobs_bind; [same_jobs|]. intros [e|]; [|same_jobs]. apply keeps_jobs_bind; same_jobs. }
  intros _. apply keeps_jobs_bind.
  { intros w Hw. unfold SubmittedRun.on_jobs. destruct (finish_wf id at_ns None text 0 _ Hw) as (_ & Hf & _).
    by destruct (fail_job_before_start _ _ _ _) as [jobs r]. }
  intros event. apply keeps_jobs_bind.
  { intros w Hw. unfold on_submitted. by destruct (record_terminal _ _ _) as [s r]. }
  intros entry. apply keeps_jobs_bind; [|same_jobs]. apply keeps_jobs_bind; [|intros outcome; apply keeps_jobs_bind; same_jobs].
  intros w Hw. unfold on_controller. by destruct (remove_cgroup _ _) as [p r].
Qed.

Lemma sound_submitted {A} (m : @Run P BoundaryError A) : keeps_jobs m → sound (sup_submitted m : SupM A).
Proof.
  intros Hm w [[[[? ? ? Hj] ?] ?] ? ? ? ? ? ? ?]. unfold sup_submitted, work_submitted, exec_within, exec_on.
  specialize (Hm (world_of w.(su_shutdown_work)) Hj). destruct (m _) as [v r]. eexists _, _. split; [done|].
  intros a _. by repeat (split; simpl in *; try done).
Qed.

(** ** What follows a launch *)

Context (settings : SupervisorSettings) (at_ns : Z) (Hat : 0 ≤ at_ns).

Lemma sound_find_job job_id : sound (find_job job_id : SupM JobRecord).
Proof. unfold find_job. sounds. Qed.

Lemma sound_or_error {A C} (wrap : A → C) error dispatch : sound (or_launch_error wrap error dispatch : SupM C).
Proof. unfold or_launch_error. sounds. Qed.

Lemma sound_on_start f : (∀ st, start_wf st → start_wf (f st)) → sound (sup_on_start f : SupM unit).
Proof.
  intros Hf. apply sound_exec; [|by apply stays_update]. apply keeps_wf_serves. intros s [Hs Hst]. eexists _, _.
  split; [done|]. split; [by destruct Hs|by apply Hf].
Qed.

Lemma sound_record_setup setup : 0 ≤ setup.(pls_launched_at_ns) → sound (record_pending_process_setup setup : SupM _).
Proof.
  intros Hs. unfold record_pending_process_setup. sounds; [apply sound_find_job|]. apply sound_update.
  intros w [? ? ? ? ? ? ? ?]. split; simpl; try done. by apply map_Forall_insert_2.
Qed.

Lemma main_started_stays event : stays (apply_service_main_job_started (BoundaryError := BoundaryError) event : Step P _ _).
Proof. unfold apply_service_main_job_started, apply_alive_readiness. stay. apply readiness_stays. Qed.

Lemma sound_started_launch launch slots : sound (apply_started_service_launch launch at_ns slots : SupM _).
Proof using Hat.
  unfold apply_started_service_launch, remove_readiness_deadlines_for_completed_operations. sounds.
  - apply sound_exec; [apply keeps_wf_serves, apply_service_main_job_started_serves|apply main_started_stays].
  - apply sound_on_start. induction (jsd_operation_events a0) as [|event events IH]; intros st Hst; simpl; [done|].
    by apply IH, remove_readiness_wf.
  - apply sound_released_events.
Qed.

Lemma sound_start_failure request : sound (sup_exec start_failure_error (apply_start_failure request) : SupM _).
Proof. apply sound_exec; [apply keeps_wf_serves, apply_start_failure_serves|apply start_failure_stays]. Qed.

Lemma sound_fail_created {E F} (wrap : F → E) (wrap' : JobStoreError → F) id cause :
  sound (sup_exec wrap (StartState.on_jobs wrap' (fail_job_before_start id at_ns cause)) : Exec Work E _).
Proof. apply sound_jobs. intros s Hs. by apply (finish_wf id at_ns None cause 0). Qed.

Lemma sound_react transitions events : sound (react_and_release settings transitions events at_ns : SupM _).
Proof using Hat. by apply sound_react_and_release. Qed.

Lemma sound_launch_cleanup service cgroup_id kind : sound (record_cleanup_in_work settings service cgroup_id kind at_ns : SupM unit).
Proof. apply sound_cleanup. Qed.

#[local] Hint Resolve sound_find_job sound_or_error sound_start_failure sound_fail_created sound_react sound_launch_cleanup : sound.

Lemma sound_service_failure job_id error : sound (apply_service_launch_failure settings job_id at_ns error : SupM _).
Proof using Hat.
  unfold apply_service_launch_failure, sup_jobs, record_failed_service_launch_cleanup. sounds.
  apply sound_on_start. intros st Hst. by apply remove_readiness_wf.
Qed.

Lemma pre_hook_failure_serves job_id service operation_id cgroup_id reason :
  serves exec_wf (fail_pre_start_hook job_id service operation_id cgroup_id at_ns reason : Step P Error _) ∧
  stays (fail_pre_start_hook job_id service operation_id cgroup_id at_ns reason : Step P Error _).
Proof.
  split.
  - apply serves_keeping.
    apply keeping_update with (K := λ st, start_wf st ∧ st.(ses_pre_deadlines) !! operation_id = None).
    { intros st Hst. split; [by apply remove_pre_deadline_wf|]. apply lookup_delete_eq. }
    eapply keeping_update; [intros st [Hst Hd]; by apply remove_pre_sequence_wf|].
    apply keeping_quiet; [apply quiet_kill|]. intros _.
    apply keeping_quiet; [apply quiet_jobs; intros s Hs; by apply (finish_wf job_id at_ns None reason 0)|]. intros event.
    apply keeping_quiet; [apply quiet_map_err, quiet_start_failure|]. intros failure. by apply keeping_ret.
  - unfold fail_pre_start_hook. stay. apply start_failure_stays.
Qed.

Lemma sound_pre_hook_failure job_id error : sound (apply_pre_start_hook_launch_failure settings job_id at_ns error : SupM _).
Proof using Hat.
  unfold apply_pre_start_hook_launch_failure, record_failed_pre_start_hook_cleanup. sounds.
  destruct (pre_hook_failure_serves job_id a0 a1 (service_cgroup_root_path a0 (jr_cgroup_generation a)) s).
  by apply sound_exec; [apply keeps_wf_serves|].
Qed.

Lemma sound_post_hook_failure job_id error : sound (apply_post_start_hook_launch_failure settings job_id at_ns error : SupM _).
Proof using Hat.
  unfold apply_post_start_hook_launch_failure, complete_post_start_hook_in_work, schedule_after_final_post_start_hook, sup_jobs.
  sounds.
  - apply sound_starting; [apply complete_post_start_hook_job_serves|apply post_hook_stays].
  - apply sound_queue_if. intros e. sounds.
  - apply sound_after_kill. intros service cgroup_id. apply sound_after_post.
Qed.

Lemma sound_submitted_failure job_id cause text secs :
  sound (sup_submitted (apply_submitted_setup_failure job_id at_ns cause text secs) : SupM _).
Proof. apply sound_submitted, setup_failure_keeps_jobs. Qed.

Lemma sound_update_submitted f : sound (exec_update (update_submitted f) : SupM unit).
Proof. apply sound_update. intros w [? ? ? ? ? ? ? ?]. by split. Qed.

Lemma sound_started_submitted launch : sound (apply_started_submitted_launch launch : SupM _).
Proof. unfold apply_started_submitted_launch, find_submitted. sounds. apply sound_update_submitted. Qed.

Lemma sound_mark_health job_id : sound (mark_health_invocation_running job_id at_ns : SupM unit).
Proof.
  unfold mark_health_invocation_running. sounds. apply eases_sound, eases_health. intros s Hs. unfold mark_invocation_running.
  destruct (record_by_job job_id s) as [[service record]|] eqn:Ej; [|done].
  destruct (hcr_invocation record) as [[]|]; (apply map_Forall_insert_2; [exact (record_by_job_keyed _ _ _ _ Hs Ej)|done]).
Qed.

Lemma sound_health_not_launched job_id reason : sound (fail_launched_health_check_in_work job_id at_ns reason : SupM _).
Proof. unfold fail_launched_health_check_in_work. sounds. apply sound_remove_invocation. Qed.

Lemma sound_health_failed job_id reason : sound (fail_created_health_check_in_work job_id at_ns reason : SupM _).
Proof. unfold fail_created_health_check_in_work. sounds. apply sound_health_terminal. Qed.

Lemma sound_failed_launch job_id job_type error : sound (complete_failed_launch debug_launch settings job_id job_type at_ns error : SupM _).
Proof using Hat.
  unfold complete_failed_launch. destruct job_type; sounds;
    auto using sound_service_failure, sound_pre_hook_failure, sound_post_hook_failure, sound_health_failed,
      sound_escalation, sound_submitted_failure.
Qed.

Lemma sound_close fds : sound (exec_update (close_descriptors fds) : SupM unit).
Proof. apply sound_update. intros w [? ? ? ? ? ? ? ?]. by split. Qed.

Lemma sound_fail_setup setup job error : sound (fail_setup debug_launch settings setup job at_ns error : SupM _).
Proof using Hat. unfold fail_setup, release_setup_process. sounds; [apply sound_close|apply sound_failed_launch]. Qed.
End Works.

Section Setup.
Context {P : Type} `{CalendarSyntax} `{!ProcessController P BoundaryError}.
Context (debug_launch : LaunchError → string) (settings : SupervisorSettings) (at_ns : Z) (Hat : 0 ≤ at_ns).
Notation Work := (SupervisorWork P BoundaryError).
Notation SupM := (Exec Work (SupervisorError BoundaryError)).

Lemma start_job_wf id process summary launched_at_ns (s : JobStore) :
  jobs_wf s → jobs_wf (start_job_with_token_summary id process summary launched_at_ns s).1.
Proof.
  intros Hs. pose proof (start_job_spec id process summary launched_at_ns s Hs) as H'.
  destruct (start_job_with_token_summary _ _ _ _ _) as [s' [event|e]]; by destruct H'.
Qed.

Lemma sound_started launch job_type launched_at_ns :
  0 ≤ launched_at_ns → sound (complete_started_launch settings launch job_type launched_at_ns : SupM _).
Proof.
  intros Hl. unfold complete_started_launch. destruct job_type; sounds;
    auto using sound_started_launch, sound_mark_health, sound_started_submitted.
Qed.

Lemma sound_complete_setup setup job status :
  status ≠ StatusPending → 0 ≤ setup.(pls_launched_at_ns) → sound (complete_setup debug_launch settings setup job status at_ns : SupM _).
Proof using Hat.
  intros Hne Hl. unfold complete_setup. destruct status; [done| |by apply sound_fail_setup..]. cbv zeta. apply sound_bind.
  - apply sound_jobs. intros s. apply start_job_wf.
  - intros event. by apply sound_started.
Qed.

Lemma sound_setup_report fd status : status ≠ StatusPending → sound (
  setup ← exec_get (λ w : Work, w.(su_shutdown_work).(sw_pending_process_setups) !! fd);
  match setup with
  | None => mret (PsStale fd)
  | Some setup =>
      _ ← exec_update (remove_pending_setup fd);
      job ← find_job setup.(pls_job_id);
      dispatch ← complete_setup debug_launch settings setup job status at_ns;
      _ ← commit_supervisor;
      mret dispatch
  end : SupM _).
Proof using Hat.
  intros Hne w Hw. unfold mbind, exec_bind, exec_get.
  destruct (w.(su_shutdown_work).(sw_pending_process_setups) !! fd) as [setup|] eqn:Es; [|eexists _, _; split; [done|by intros ? [= <-]]].
  pose proof (uw_setups _ Hw _ _ Es) as Hl. simpl in Hl. clear Es. revert w Hw. change (sound (
      _ ← exec_update (remove_pending_setup fd); job ← find_job setup.(pls_job_id);
      dispatch ← complete_setup debug_launch settings setup job status at_ns; _ ← commit_supervisor; mret dispatch : SupM _)).
  sounds; [|apply sound_find_job|by apply sound_complete_setup].
  apply sound_update. intros w [? ? ? ? ? ? ? ?]. split; simpl; try done. by apply map_Forall_delete.
Qed.

Lemma setup_report_serves fd status : serves sup_wf (process_pending_process_setup_status debug_launch settings fd status at_ns : SupM _).
Proof using Hat.
  unfold process_pending_process_setup_status. destruct status; [apply serves_get|apply serves_transaction, sound_setup_report; done..].
Qed.
End Setup.

(** ** Launches *)

(** The clock does not go below zero. *)
Class ClockLaws {B} `{LaunchBoundary B} : Prop :=
  monotonic_nonneg : ∀ b b' now_ns, monotonic_ns b = (b', Ok now_ns) → 0 ≤ now_ns.

Section Launches.
Context {P B : Type} `{CalendarSyntax} `{!ProcessController P BoundaryError} `{!LaunchBoundary B}.
Context (debug_launch : LaunchError → string) (settings : SupervisorSettings) (launching : LaunchSettings).
Notation Work := (SupervisorWork P BoundaryError).
Notation State := (LaunchState P B).
Notation LaunchM := (Exec State (SupervisorError BoundaryError)).

Definition launch_wf (s : State) : Prop := sup_wf s.(lx_work).
Definition launches {E A} (m : Exec State E A) : Prop := triple launch_wf m (λ _, launch_wf).

Lemma launches_bind {E A C} (m : Exec State E A) (k : A → Exec State E C) : launches m → (∀ a, launches (k a)) → launches (m ≫= k).
Proof. intros Hm Hk. by eapply triple_bind. Qed.

Lemma launches_serves {E A} (m : Exec State E A) : serves launch_wf m → launches m.
Proof. apply triple_serves. Qed.

Lemma launches_work {E F A} (wrap : F → E) (m : Exec Work F A) : sound m → launches (in_work wrap m : Exec State E A).
Proof.
  intros Hm s Hs. destruct (Hm _ Hs) as (w & r & Em & Hr). unfold in_work, exec_within. rewrite Em. eexists _, _.
  split; [done|]. intros a Ha. destruct r as [a'|e]; [by apply (Hr a')|done].
Qed.

Lemma serves_boundary {E F A} (wrap : F → E) (f : B → B * Result A F) : serves launch_wf (ask_boundary wrap f : Exec State E A).
Proof. by apply serves_on. Qed.

(** A launch that is being set up began at a time that is not negative. *)
Definition setup_in_time (r : LaunchCreatedJobResult) : Prop :=
  match r with LaunchPendingSetup setup => 0 ≤ setup.(pls_launched_at_ns) | LaunchStarted _ => True end.

Definition attempts {E} (m : Exec State E LaunchCreatedJobResult) : Prop :=
  ∀ s, launch_wf s → ∃ s' r, m s = Some (s', r) ∧ launch_wf s' ∧ ∀ a, r = Ok a → setup_in_time a.

Lemma attempts_bind {E A} (m : Exec State E A) (k : A → Exec State E LaunchCreatedJobResult) :
  serves launch_wf m → (∀ a, attempts (k a)) → attempts (m ≫= k).
Proof.
  intros Hm Hk s Hs. destruct (Hm s Hs) as (s1 & [a|e] & Em & H1); unfold mbind, exec_bind; rewrite Em; [by apply Hk|].
  by eexists _, _.
Qed.

Lemma attempts_created request target environment fds :
  0 ≤ request.(lq_launched_at_ns) → attempts (launch_created_job_result request target environment fds).
Proof.
  intros Hl. unfold launch_created_job_result. cbv zeta. apply attempts_bind; [apply serves_get|]. intros job.
  apply attempts_bind; [apply serves_lift|]. intros job'. apply attempts_bind; [apply serves_lift|]. intros _.
  apply attempts_bind; [apply serves_boundary|]. intros token. apply attempts_bind; [apply serves_boundary|]. intros process.
  destruct (lp_setup_status_fd process); [intros s Hs; eexists _, _; split_and!; [done..|]; by intros ? [= <-]|].
  apply attempts_bind; [|intros event s Hs; eexists _, _; split_and!; [done..|]; by intros ? [= <-]].
  intros s [[[[? ? ? Hj] ?] ?] ? ? ? ? ? ? ?]. unfold in_work, sup_exec, exec_within, StartState.on_jobs, exec_on.
  match goal with |- context [start_job_with_token_summary ?i ?p ?t ?n ?js] => pose proof (start_job_wf i p t n js Hj) end.
  destruct (start_job_with_token_summary _ _ _ _ _) as [jobs r]. eexists _, _. split; [done|].
  by repeat (split; simpl in *; try done).
Qed.

Lemma attempts_main job_id request : 0 ≤ request.(lq_launched_at_ns) → attempts (launch_service_main launching job_id request).
Proof.
  intros Hl. unfold launch_service_main. apply attempts_bind; [apply serves_get|]. intros definition.
  apply attempts_bind; [apply serves_lift|]. intros d. apply attempts_bind; [apply serves_boundary|]. intros _.
  apply attempts_bind; [|intros fds; by apply attempts_created]. unfold inherited_fds_for_job. apply serves_bind; [apply serves_get|].
  intros [[service store]|]; [|apply serves_ret]. apply serves_bind; [apply serves_lift|]. intros min_fd. apply serves_each.
  intros entry. unfold duplicate_stored_fd. apply serves_bind; [apply serves_boundary|]. intros fd. apply serves_ret.
Qed.

Lemma launches_try {A} (m : Exec State LaunchError LaunchCreatedJobResult) (k : Result LaunchCreatedJobResult LaunchError → LaunchM A) :
  attempts m → (∀ a, setup_in_time a → launches (k (Ok a))) → (∀ e, launches (k (Err e))) → launches (exec_try m ≫= k).
Proof.
  intros Hm Ho He s Hs. destruct (Hm s Hs) as (s1 & r & Em & H1 & Hr). unfold mbind, exec_bind, exec_try. rewrite Em.
  destruct r as [a|e]; [by apply (Ho a); auto|by apply He].
Qed.

Lemma launches_record {A} (wrap : SupervisorPendingProcessSetupDispatch → A) setup :
  setup_in_time (LaunchPendingSetup setup) →
  launches (pending ← in_work id (record_pending_process_setup setup); mret (wrap pending) : LaunchM A).
Proof.
  intros Hs. apply launches_bind; [by apply launches_work, sound_record_setup|]. intros pending. apply launches_serves, serves_ret.
Qed.

Lemma launches_give {A C} (m : Exec Work (SupervisorError BoundaryError) A) (wrap : A → C) :
  sound m → launches (a ← in_work id m; mret (wrap a) : LaunchM C).
Proof. intros Hm. apply launches_bind; [by apply launches_work|]. intros a. apply launches_serves, serves_ret. Qed.

Lemma launches_fail_with {A C} (m : Exec Work (SupervisorError BoundaryError) (option A)) (wrap : A → C) error :
  sound m → launches (failure ← in_work id m; in_work id (or_launch_error wrap error failure) : LaunchM C).
Proof. intros Hm. apply launches_bind; [by apply launches_work|]. intros a. apply launches_work, sound_or_error. Qed.

Context (clock : ClockLaws).

Lemma launch_next_serves {A} (get : Work → list JobId) set (body : JobId → Z → LaunchCreatedJobRequest → LaunchM A) :
  (∀ v w, sup_wf w → sup_wf (set v w)) →
  (∀ job_id at_ns request, 0 ≤ at_ns → request.(lq_launched_at_ns) = at_ns → launches (body job_id at_ns request)) →
  serves launch_wf (launch_next launching get set body).
Proof using clock.
  intros Hset Hbody. unfold launch_next. apply serves_bind.
  { intros s Hs. unfold next_live_front. destruct (drop_stale _ _) as [queue dropped]. eexists _, _. split; [done|]. by apply Hset. }
  intros [job_id|]; [|apply serves_ret]. intros s Hs. unfold mbind at 1, exec_bind at 1, ask_boundary, exec_on.
  destruct (monotonic_ns (lx_boundary s)) as [b [at_ns|e]] eqn:Ec; [|by eexists _, _]. pose proof (clock _ _ _ Ec) as Hat. simpl.
  set (s1 := set_lx_boundary b s). assert (launch_wf s1) as Hs1 by exact Hs. clearbody s1. clear Ec.
  unfold mbind at 1, exec_bind at 1, get_launch_work, exec_get. revert Hs1.
  set (request := launch_request launching (lx_work s1) job_id at_ns).
  assert (request.(lq_launched_at_ns) = at_ns) as Hr by done. clearbody request. revert s1.
  apply (serves_atomic_triple launch_wf launch_restore); [|intros now before Hb; by apply restore_sup_wf].
  apply launches_bind; [apply launches_work, sound_update; auto|]. intros _.
  apply launches_bind; [by apply Hbody|]. intros dispatch.
  apply launches_bind; [apply launches_work; sounds|]. intros _. apply launches_serves, serves_ret.
Qed.

Ltac set_queue := intros v w [? ? ? ? ? ? ? ?]; by split.

Lemma start_hook_launch_serves :
  serves launch_wf (launch_next_pending_start_hook_job_with_controller settings launching : LaunchM _).
Proof using clock.
  apply launch_next_serves; [set_queue|]. intros job_id at_ns request Hat Hr. apply launches_try; [apply attempts_created; lia|..].
  - intros [launch|setup] Ht; [apply launches_serves, serves_ret|by apply launches_record].
  - intros error. by apply launches_fail_with, sound_pre_hook_failure.
Qed.

Lemma control_launch_serves : serves launch_wf (launch_next_pending_control_job launching : LaunchM _).
Proof using clock.
  apply launch_next_serves; [set_queue|]. intros job_id at_ns request Hat Hr s Hs.
  assert (0 ≤ lq_launched_at_ns request) as Hl by lia.
  destruct (attempts_created request TgReloadHook (ln_global_environment launching) [] Hl s Hs) as (s1 & r & E & H1 & Ht).
  unfold mbind, exec_bind, exec_map_err. rewrite E. destruct r as [[launch|setup]|e]; simpl.
  - eexists _, _. split; [done|]. by intros ? [= <-].
  - apply (launches_record CtPendingSetup setup); [by apply (Ht (LaunchPendingSetup setup))|done].
  - by eexists _, _.
Qed.

Lemma post_hook_launch_serves :
  serves launch_wf (launch_next_pending_post_hook_job_with_controller settings launching : LaunchM _).
Proof using clock.
  apply launch_next_serves; [set_queue|]. intros job_id at_ns request Hat Hr. apply launches_try; [apply attempts_created; lia|..].
  - intros [launch|setup] Ht; [apply launches_serves, serves_ret|by apply launches_record].
  - intros error. by apply launches_fail_with, sound_post_hook_failure.
Qed.

Lemma service_launch_serves : serves launch_wf (launch_next_pending_service_job settings launching : LaunchM _).
Proof using clock.
  apply launch_next_serves; [set_queue|]. intros job_id at_ns request Hat Hr. apply launches_try; [apply attempts_main; lia|..].
  - intros [launch|setup] Ht; [by apply launches_give, sound_started_launch|by apply launches_record].
  - intros error. by apply launches_fail_with, sound_service_failure.
Qed.

Lemma health_launch_serves : serves launch_wf (launch_next_pending_health_check_job debug_launch launching : LaunchM _).
Proof using clock.
  apply launch_next_serves; [set_queue|]. intros job_id at_ns request Hat Hr.
  apply launches_bind; [apply launches_serves, serves_get|]. intros [].
  - apply launches_give. apply sound_fail_created.
  - apply launches_try; [apply attempts_created; lia|..].
    + intros [launch|setup] Ht; [by apply (launches_give _ (λ _, HkLaunched launch)), sound_mark_health|by apply launches_record].
    + intros error. by apply launches_give, sound_health_not_launched.
Qed.

(** *** Submitted jobs *)

Lemma launches_after {E A} f (m : Exec State E A) : launches m → (∀ s, launch_wf s → launch_wf (f s)) → launches (exec_after f m).
Proof.
  intros Hm Hf s Hs. destruct (Hm s Hs) as (s1 & r & E1 & Hr). unfold exec_after. rewrite E1. eexists _, _. split; [done|].
  intros a Ha. by apply Hf, (Hr a).
Qed.

Lemma close_wf fds (s : State) : launch_wf s → launch_wf (close_in_launch fds s).
Proof. intros [? ? ? ? ? ? ? ?]. by split. Qed.

Lemma launches_submitted_failure job_id at_ns text : launches (fail_submitted_launch settings job_id at_ns text : LaunchM _).
Proof. apply launches_give, sound_submitted_failure. Qed.

Lemma launches_after_try {A} f (m : Exec State LaunchError LaunchCreatedJobResult) (k : Result LaunchCreatedJobResult LaunchError → LaunchM A) :
  attempts m → (∀ s, launch_wf s → launch_wf (f s)) → (∀ a, setup_in_time a → launches (k (Ok a))) →
  (∀ e, launches (k (Err e))) → launches (exec_after f (exec_try m) ≫= k).
Proof.
  intros Hm Hf Ho He s Hs. destruct (Hm s Hs) as (s1 & r & Em & H1 & Hr). unfold mbind, exec_bind, exec_after, exec_try. rewrite Em.
  destruct r as [a|e]; [by apply (Ho a); auto|by apply He; auto].
Qed.

Lemma launches_submitted job_id at_ns : 0 ≤ at_ns → launches (launch_submitted debug_launch settings launching job_id at_ns : LaunchM _).
Proof.
  intros Hat. unfold launch_submitted, take_launch_descriptors. apply launches_bind.
  { apply launches_bind; [apply launches_work; unfold find_submitted; sounds|]. intros entry.
    apply launches_bind; [apply launches_work, sound_update_submitted|]. intros _. apply launches_serves, serves_ret. }
  intros [[token_fd|] descriptors]; cbv zeta.
  2:{ apply launches_after; [apply launches_submitted_failure|intros; by apply close_wf]. }
  eapply triple_bind; [apply triple_get|]. intros request s [Hs Hr].
  assert (0 ≤ request.(lq_launched_at_ns)) as Hl by by rewrite Hr. clear Hr. revert s Hs.
  apply launches_after_try; [by apply attempts_created|intros; by apply close_wf|..].
  - intros [launch|setup] Ht; [apply launches_give, sound_started_submitted|by apply launches_record].
  - intros error. apply launches_submitted_failure.
Qed.

Lemma submitted_launch_serves :
  serves launch_wf (launch_next_pending_submitted_job debug_launch settings launching : LaunchM _).
Proof using clock. apply launch_next_serves; [set_queue|]. intros job_id at_ns request Hat _. by apply launches_submitted. Qed.

(** ** The supervisor with its launches *)

End Launches.

Inductive LaunchEvent : Type :=
| LvStartHook
| LvPostHook
| LvControl
| LvHealthCheck
| LvService
| LvSubmitted
| LvSetup (setup_status_fd : Z) (status : ProcessSetupStatus) (observed_at_ns : Z)
| LvOther (event : SupervisorEvent) (at_ns : Z).

(** The times that an event brings with it are not negative. *)
Definition event_in_time (event : LaunchEvent) : Prop :=
  match event with LvSetup _ _ at_ns | LvOther _ at_ns => 0 ≤ at_ns | _ => True end.

Section System.
Context {P B : Type} `{CalendarSyntax} `{!ProcessController P BoundaryError} `{!LaunchBoundary B}.
Context (debug_launch : LaunchError → string) (settings : SupervisorSettings) (launching : LaunchSettings).
Notation State := (LaunchState P B).
Notation LaunchM := (Exec State (SupervisorError BoundaryError)).

Definition ended {A} (m : LaunchM A) : LaunchM unit := _ ← m; mret tt.

Definition handle_launch_event (event : LaunchEvent) : LaunchM unit :=
  match event with
  | LvStartHook => ended (launch_next_pending_start_hook_job_with_controller settings launching)
  | LvPostHook => ended (launch_next_pending_post_hook_job_with_controller settings launching)
  | LvControl => ended (launch_next_pending_control_job launching)
  | LvHealthCheck => ended (launch_next_pending_health_check_job debug_launch launching)
  | LvService => ended (launch_next_pending_service_job settings launching)
  | LvSubmitted => ended (launch_next_pending_submitted_job debug_launch settings launching)
  | LvSetup fd status at_ns => ended (in_work id (process_pending_process_setup_status debug_launch settings fd status at_ns))
  | LvOther event at_ns => in_work id (handle_supervisor_event settings event at_ns)
  end.

(** One event after another, whatever each answers. *)
Definition handle_launch_events (events : list LaunchEvent) (s : State) : option State :=
  foldl (λ s event, s ← s; fst <$> handle_launch_event event s) (Some s) events.

Lemma serves_ended {A} (m : LaunchM A) : serves launch_wf m → serves launch_wf (ended m).
Proof. intros Hm. apply serves_bind; [done|]. intros a. apply serves_ret. Qed.

Lemma serves_in_work {E F A} (wrap : F → E) (m : Exec (SupervisorWork P BoundaryError) F A) :
  serves sup_wf m → serves launch_wf (in_work wrap m : Exec State E A).
Proof. intros Hm. apply serves_within. intros s Hs. destruct (Hm _ Hs) as (w & r & E1 & Hw). eauto. Qed.

Lemma launch_event_serves event : ClockLaws (B := B) → event_in_time event → serves launch_wf (handle_launch_event event).
Proof.
  intros clock Ht. destruct event; simpl in *; try apply serves_ended; auto using start_hook_launch_serves,
    post_hook_launch_serves, control_launch_serves, health_launch_serves, service_launch_serves, submitted_launch_serves,
    serves_in_work, setup_report_serves, event_serves.
Qed.

End System.

(** ** The environment of a process *)

(** The value that a list of variables gives to [name]: its last one. *)
Definition given (name : string) (variables : list ServiceEnvironmentVariable) : option string :=
  last (map env_value (retain (λ variable, bool_decide (variable.(env_name) = name)) variables)).

(** What a process finds under [name]. *)
Definition variable_of (job : JobRecord) (notify_socket_path : string) (global_environment : list ServiceEnvironmentVariable)
    (inherited_fds : list ProcessInheritedFd) (name : string) : option string :=
  if bool_decide (name = NOTIFY_SOCKET) then Some notify_socket_path
  else if bool_decide (name = LISTEN_FDS) then
    if is_empty inherited_fds then None else Some (u64_to_string (Z.of_nat (List.length inherited_fds)))
  else if bool_decide (name = LISTEN_FDNAMES) then
    if is_empty inherited_fds then None else Some (str_join ":" (map pif_name inherited_fds))
  else if bool_decide (name = LISTEN_PID) then None
  else
    let configured := if uses_compiled_in_environment_only job then None else given name global_environment in
    let standard := if bool_decide (name = PATH) then Some DEFAULT_PATH else None in
    match given name job.(jr_environment), configured with
    | Some value, _ => Some value
    | None, Some value => Some value
    | None, None => standard
    end.

Lemma lookup_added name variables m :
  foldl add_variable m variables !! name =
  if is_protocol_variable name then m !! name else match given name variables with Some value => Some value | None => m !! name end.
Proof.
  induction variables as [|v l IH] using rev_ind; [by destruct (is_protocol_variable name)|].
  rewrite foldl_app. simpl. unfold add_variable at 1.
  assert (given name (l ++ [v]) = if bool_decide (env_name v = name) then Some (env_value v) else given name l) as ->.
  { unfold given, retain. rewrite filter_app, map_app, filter_cons, filter_nil. destruct (decide _) as [Hb|Hb]; simpl.
    - by rewrite Hb, last_snoc.
    - apply not_true_is_false in Hb. by rewrite Hb, app_nil_r. }
  destruct (is_protocol_variable (env_name v)) eqn:Hv.
  - rewrite IH. destruct (is_protocol_variable name) eqn:Hn; [done|]. case_bool_decide as He; [congruence|done].
  - case_bool_decide as He; [by rewrite <- He, lookup_insert_eq, Hv|]. by rewrite lookup_insert_ne.
Qed.

Lemma protocol_variables name :
  is_protocol_variable name = bool_decide (name = NOTIFY_SOCKET) || bool_decide (name = LISTEN_FDS) ||
    bool_decide (name = LISTEN_FDNAMES) || bool_decide (name = LISTEN_PID).
Proof. unfold is_protocol_variable, PROTOCOL_VARIABLES. repeat case_bool_decide; simpl; set_solver. Qed.

Lemma lookup_insert_bool {V} (m : gmap string V) name key value :
  <[key := value]> m !! name = if bool_decide (name = key) then Some value else m !! name.
Proof. case_bool_decide; [subst; apply lookup_insert_eq|by apply lookup_insert_ne]. Qed.

(** Below the variables of the protocols, of which no layer has any. *)
Lemma lookup_layers job global name :
  foldl add_variable (if uses_compiled_in_environment_only job then <[PATH := DEFAULT_PATH]> ∅
                      else foldl add_variable (<[PATH := DEFAULT_PATH]> ∅) global) job.(jr_environment) !! name =
  if is_protocol_variable name then None
  else match given name job.(jr_environment), (if uses_compiled_in_environment_only job then None else given name global) with
       | Some value, _ => Some value
       | None, Some value => Some value
       | None, None => if bool_decide (name = PATH) then Some DEFAULT_PATH else None
       end.
Proof.
  assert ((<[PATH := DEFAULT_PATH]> ∅ : gmap string string) !! name =
    if is_protocol_variable name then None else if bool_decide (name = PATH) then Some DEFAULT_PATH else None) as H0.
  { rewrite lookup_insert_bool, lookup_empty. case_bool_decide as He; [by subst|]. by destruct (is_protocol_variable name). }
  rewrite lookup_added. destruct (uses_compiled_in_environment_only job); rewrite ?lookup_added, H0;
    by destruct (is_protocol_variable name), (given name (jr_environment job)).
Qed.

Lemma lookup_launch_variables job path global fds name : launch_variables job path global fds !! name = variable_of job path global fds name.
Proof.
  unfold launch_variables, variable_of. cbv zeta. pose proof (lookup_layers job global name) as Hl. rewrite protocol_variables in Hl.
  destruct fds as [|fd fds]; cbn [is_empty]; rewrite !lookup_insert_bool, Hl; repeat case_bool_decide; simplify_eq; done.
Qed.


(** ** A small system *)

Import Calendar.Utc.

(** A kernel that does as it is told and numbers what it hands out. *)
#[local] Instance obliging_kernel : ProcessController bool BoundaryError := {|
  pidfd_matches_pid (_ _ : Z) (c : bool) := (c, Ok true);
  close_pidfd (_ : Z) (c : bool) := (c, Ok tt);
  signal_main (_ : ProcessTarget) (_ : ProcessSignal) (c : bool) := (c, Ok tt);
  kill_cgroup (_ : string) (c : bool) := (c, Ok tt);
  cgroup_populated (_ : string) (c : bool) := (c, Ok c);
  remove_cgroup (_ : string) (c : bool) := (c, Ok CgRemoved) |}.

Definition token_for (fd : Z) (job : JobRecord) : TokenHandle :=
  {| th_fd := fd; th_identity := job.(jr_resolved_identity); th_summary := requested_identity job.(jr_resolved_identity) |}.

Definition process_at (pid : Z) : LaunchedProcess := {|
  lp_pid := pid; lp_pidfd := pid + 1; lp_stdout_fd := Some (pid + 2); lp_stderr_fd := None;
  lp_setup_status_fd := Some (pid + 3); lp_cleanup_evidence := [] |}.

#[local] Instance counting_boundary : LaunchBoundary Z := {|
  monotonic_ns (b : Z) := (b, Ok (Z.max 0 b));
  materialize_service_token (job : JobRecord) (b : Z) := (b + 1, Ok (token_for b job));
  materialize_prepared_token (job : JobRecord) (fd b : Z) := (b, Ok (token_for fd job));
  provision_service_runtime_directories (_ : ServiceDefinition) (b : Z) := (b, Ok tt);
  launch_service (_ : ProcessLaunchSpec) (b : Z) := (b + 4, Ok (process_at b));
  launch_job (_ : ProcessLaunchSpec) (b : Z) := (b + 4, Ok (process_at b));
  duplicate_min (_ floor b : Z) := (b + 1, Ok (Z.max floor b)) |}.

#[local] Instance counting_clock : ClockLaws (B := Z).
Proof. intros b b' now_ns [= _ <-]. lia. Qed.

(** "app" has a command to run before its own, and has moved through [moves]. *)
Definition app_system (moves : list (string * ServiceState * TransitionCause)) : LaunchState bool Z := {|
  lx_work := supervising (work_with (moved_table
    [ {| (simple_system_boot "app" "/bin/app") with sd_exec_start_pre := ["/bin/prepare"] |} ] moves) job_store_new false);
  lx_boundary := 100; lx_stale_launch_entries := 0 |}.

Lemma app_system_wf moves : sup_wf (app_system moves).(lx_work).
Proof.
  apply supervising_wf; [|exact (Z.le_refl 0)|reflexivity]. split; [|apply control_store_new_wf].
  split; [|apply start_store_new_wf]. split; simpl.
  - apply moved_table_wf.
  - apply op_reachable_store_wf, rtc_refl.
  - apply graph_store_new_wf.
  - apply (job_reachable_ledger_wf empty_ledger), rtc_refl.
Qed.

Definition launching_default : LaunchSettings :=
  {| ln_notify_socket_path := "/run/notify"; ln_output_pipe_buffer_bytes := 65536; ln_global_environment := [] |}.

(** "app" is started: its first command is launched and its set-up is reported. *)
Definition prepare_launched : list LaunchEvent :=
  [LvOther (UvCommand CmdStart "app" None) 50; LvStartHook; LvSetup 104 StatusExecSucceeded 200].

