(* ===== verification/SupervisorContain.v ===== *)
(** * Containing an internal error

    Models [src/src/supervisor/internal_error.rs]: an error on a path that is
    about one service fails that service and nothing else. The job is retired,
    the operation fails, the service goes to Failed, the deadlines of its active
    operations are dropped, and what reacts to a failure reacts.

    The debug text of an error is the parameter [debug_error]. *)

From S2P Require Import Prelude RustStr ServiceRuntime ServiceDef Ids Restart Cgroup ServiceTable Calendar Tty.
From S2P Require Import Shutdown OperationRecord OperationStore OperationInv ExecCommand StartPlan StartPlanSpec.
From S2P Require Import Lifecycle JobRecord JobStore SubmittedStore SubmittedRun FailureDispatch Effects ExecGraph.
From S2P Require Import StartState StartBegin StartRun MainProcess Release Graph ServiceTableInv.
From S2P Require Import ExecGraphSpec ExecGraphInv StartInv StartSpec ReleaseInv ControlRun ControlInv Notify.
From S2P Require Import SubmittedDef NotifyRun ShutdownRun ShutdownInv SupWork Relationships.
From S2P Require Import SupervisorRun SupervisorChecks SupervisorStarts SupervisorLifecycle SupervisorNotify.
From S2P Require Import SettleInv SupervisorInv SupervisorLifecycleInv SupervisorEvents SupervisorSpec SupervisorLaunch SupervisorLaunchInv.
From Stdlib Require Import String.
Open Scope string_scope.
Open Scope list_scope.
Open Scope Z_scope.

Record SupervisorInternalErrorSubject : Type := {
  ies_service : option string;
  ies_job_id : option JobId;
}.

Definition is_attributable (self : SupervisorInternalErrorSubject) : bool :=
  bool_decide (is_Some self.(ies_service)) || bool_decide (is_Some self.(ies_job_id)).

Record SupervisorInternalErrorDispatch : Type := {
  ied_step : string;
  ied_subject : SupervisorInternalErrorSubject;
  ied_error : string;
  ied_observed_at_ns : Z;
  ied_job_event : option JobEvent;
  ied_service_job_event : option JobEvent;
  ied_operation_event : option OperationEvent;
  ied_service_transition : option ServiceTableTransition;
  ied_start_dispatches : list StartExecutionDispatch;
}.

Definition changed_nothing (self : SupervisorInternalErrorDispatch) : bool :=
  bool_decide (self.(ied_job_event) = None) && bool_decide (self.(ied_service_job_event) = None) &&
  bool_decide (self.(ied_operation_event) = None) && bool_decide (self.(ied_service_transition) = None) &&
  bool_decide (self.(ied_start_dispatches) = []).

(** [if let Ok(value) = ...]: a failure is dropped. *)
Definition exec_ok {S E F A} (m : Exec S E A) : Exec S F (option A) :=
  r ← exec_try m;
  mret (match r with Ok a => Some a | Err _ => None end).

Section Contain.
Context {P : Type} `{CalendarSyntax} `{!ProcessController P BoundaryError}.
Context (debug_error : SupervisorError BoundaryError → string) (settings : SupervisorSettings).
Notation Work := (SupervisorWork P BoundaryError).
Notation Error := (SupervisorError BoundaryError).
Notation SupM := (Exec Work Error).

(** ** Who an error is about *)

Definition internal_error_subject_for_job (w : Work) (job_id : option JobId) : SupervisorInternalErrorSubject := {|
  ies_service := id ← job_id; job ← (su_jobs w).(js_records) !! id; job.(jr_service);
  ies_job_id := job_id;
|}.

Definition internal_error_subject_for_setup (w : Work) (setup_status_fd : Z) : SupervisorInternalErrorSubject :=
  internal_error_subject_for_job w
    (pls_job_id <$> w.(su_shutdown_work).(sw_pending_process_setups) !! setup_status_fd).

Definition internal_error_subject_for_pid (w : Work) (pid : Z) : SupervisorInternalErrorSubject :=
  internal_error_subject_for_job w
    match active_job_by_pid (su_jobs w) pid with
    | Some job_id => Some job_id
    | None => pls_job_id <$> find_first (λ setup, bool_decide (setup.(pls_process).(lp_pid) = pid))
                (btree_values w.(su_shutdown_work).(sw_pending_process_setups))
    end.

(** ** The steps *)

(** The set-up of the job is dropped; its status descriptor is the runtime's. *)
Definition drop_setup_of_job (job_id : JobId) (w : Work) : Work :=
  match find_first (λ p, bool_decide (p.2.(pls_job_id) = job_id))
          (btree_iter w.(su_shutdown_work).(sw_pending_process_setups)) with
  | Some (fd, setup) =>
      let process := setup.(pls_process) in
      close_descriptors (process.(lp_pidfd) :: option_list process.(lp_stdout_fd) ++ option_list process.(lp_stderr_fd))
        (remove_pending_setup fd w)
  | None => w
  end.

Definition retire_job (job_id : JobId) (now_ns : Z) (cause : string) : SupM (option JobEvent) :=
  job ← exec_get (λ w, (su_jobs w).(js_records) !! job_id);
  match job with
  | None => mret None
  | Some job =>
      _ ← exec_ok (sup_exec SeProcessControl (kill id job.(jr_cgroup_id)));
      _ ← exec_update (drop_setup_of_job job_id);
      match job.(jr_state) with
      | JsCreated => exec_ok (sup_jobs (fail_job_before_start job_id now_ns cause))
      | JsRunning => exec_ok (sup_jobs (fail_running_job job_id now_ns None cause))
      | _ => mret None
      end
  end.

(** The main job of the service, when the error was about another of its jobs. *)
Definition retire_main_job (subject : SupervisorInternalErrorSubject) (now_ns : Z) (cause : string) : SupM (option JobEvent) :=
  main ← exec_get (λ w, service ← subject.(ies_service); main ← current_service_main_job (su_jobs w) service;
    if bool_decide (Some main ≠ subject.(ies_job_id)) then Some main else None);
  match main with
  | None => mret None
  | Some main =>
      event ← retire_job main now_ns cause;
      match event with
      | None => mret None
      | Some event =>
          _ ← update_cleanup (record_cgroup_cleanup (default "" event.(je_service)) event.(je_cgroup_id) CkServiceTree now_ns
                settings.(sst_post_kill_timeout_secs));
          mret (Some event)
      end
  end.

Definition unended (operation : OperationRecord) : bool :=
  match operation.(or_state) with OsPending | OsRunning => true | _ => false end.

Definition fail_current_operation (service : string) (now_ns : Z) (cause : string) : SupM (option OperationEvent) :=
  operation ← exec_get (λ w, operation ← current_for_service (su_operations w) service;
    if unended operation then Some operation else None);
  match operation with
  | None => mret None
  | Some operation => exec_ok (sup_operations (fail_operation operation.(or_id) now_ns cause))
  end.

Definition can_fail (state : ServiceState) : bool :=
  match state with StStarting | StActive | StReloading | StStopping | StBackoff => true | _ => false end.

Definition fail_service (service : string) : SupM (option ServiceTableTransition) :=
  runtime ← exec_get (λ w, table_runtime (su_services w) service);
  match runtime with
  | None => mret None
  | Some runtime =>
      if negb (can_fail runtime.(rt_state)) then mret None
      else exec_ok (sup_services (transition_service service {| st_to := StFailed; st_cause := TcInternalError |}))
  end.

Definition clear_operation_deadlines (operation_id : OperationId) : SupM unit :=
  _ ← update_control_store (λ control, (remove_stop_timeout operation_id control).1);
  _ ← sup_on_start (λ start, (remove_readiness_deadline operation_id start).1);
  _ ← sup_on_start (remove_pre_start_hook_deadline operation_id);
  _ ← sup_on_start (remove_post_start_hook_deadline operation_id);
  sup_on_start (remove_pre_start_check_deadline operation_id).

Definition clear_service_deadlines (service : string) : SupM unit :=
  _ ← sup_on_start (λ start, (remove_readiness_deadlines_for_service service start).1);
  operations ← exec_get (λ w, map or_id (retain (λ operation, bool_decide (operation.(or_service) = service))
    (active_records (su_operations w))));
  _ ← exec_each clear_operation_deadlines operations;
  _ ← update_control_store (λ control, (cancel_reload_for_service service control).1);
  _ ← sup_on_start (λ start, (cancel_post_start_for_service service start).1);
  _ ← update_health (cancel_health service);
  update_watchdog (cancel_watchdog service).

(** The reactions to the failure run on a copy, so that one that fails leaves
    the containment as it is. *)
Definition react_on_copy (transition : ServiceTableTransition) (now_ns : Z)
    : SupM (Result (list StartExecutionDispatch) Error) :=
  exec_try (exec_atomic (λ _ before, before) (
    dispatches ← apply_relationship_reactions_after_transitions [transition] now_ns settings.(sst_max_parallel_starts);
    _ ← exec_each (λ dispatch, queue_start_job dispatch.(sed_job_id) dispatch.(sed_job_kind)) dispatches;
    mret dispatches)).

Definition react_to_containment (transition : option ServiceTableTransition) (error : string) (now_ns : Z)
    : SupM (list StartExecutionDispatch * string) :=
  match transition with
  | None => mret ([], error)
  | Some transition =>
      _ ← apply_health_scheduling_after_transitions [transition] now_ns;
      _ ← apply_watchdog_scheduling_after_transitions [transition] now_ns;
      reacted ← react_on_copy transition now_ns;
      mret (match reacted with
            | Ok dispatches => (dispatches, error)
            | Err reaction => ([], error +:+ "; relationship reactions not applied: " +:+ debug_error reaction)
            end)
  end.

Definition of_option {A B} (value : option A) (f : A → SupM (option B)) : SupM (option B) :=
  match value with Some a => f a | None => mret None end.

(** The containment, once the service that the error is about is known. *)
Definition contain (subject : SupervisorInternalErrorSubject) (step error : string) (now_ns : Z)
    : SupM SupervisorInternalErrorDispatch :=
  let service := subject.(ies_service) in
  let cause := internal_error_result (step +:+ ": " +:+ error) in
  job_event ← of_option subject.(ies_job_id) (λ job_id, retire_job job_id now_ns cause);
  service_job_event ← retire_main_job subject now_ns cause;
  operation_event ← of_option service (λ service, fail_current_operation service now_ns cause);
  transition ← of_option service fail_service;
  _ ← match service with Some service => clear_service_deadlines service | None => mret tt end;
  '(starts, error) ← react_to_containment transition error now_ns;
  _ ← commit_supervisor;
  mret {| ied_step := step; ied_subject := subject; ied_error := error; ied_observed_at_ns := now_ns;
          ied_job_event := job_event; ied_service_job_event := service_job_event;
          ied_operation_event := operation_event; ied_service_transition := transition;
          ied_start_dispatches := starts |}.

Definition subject_service (w : Work) (subject : SupervisorInternalErrorSubject) : option string :=
  match subject.(ies_service) with
  | Some service => Some service
  | None => (internal_error_subject_for_job w subject.(ies_job_id)).(ies_service)
  end.

Definition fail_after_internal_error (subject : SupervisorInternalErrorSubject) (step error : string) (now_ns : Z)
    : SupM SupervisorInternalErrorDispatch :=
  service ← exec_get (λ w, subject_service w subject);
  contain {| ies_service := service; ies_job_id := subject.(ies_job_id) |} step error now_ns.

(** ** What a containment leaves behind *)

(** [m] answers with a value, from every state of [Pre]. *)
Definition ends {A} (Pre : Work → Prop) (m : SupM A) (Post : A → Work → Prop) : Prop :=
  ∀ w, Pre w → ∃ w' a, m w = Some (w', Ok a) ∧ Post a w'.

(** The stores are well formed and the services are [services]. *)
Definition serving (services : ServiceTable) (w : Work) : Prop := sup_wf w ∧ su_services w = services.

Lemma ends_bind {A B} Pre (Mid : A → Work → Prop) (m : SupM A) (k : A → SupM B) Post :
  ends Pre m Mid → (∀ a, ends (Mid a) (k a) Post) → ends Pre (m ≫= k) Post.
Proof.
  intros Hm Hk w Hw. destruct (Hm w Hw) as (w1 & a & E1 & H1). unfold mbind, exec_bind. rewrite E1. by apply Hk.
Qed.

Lemma ends_ret {A} (a : A) (Post : A → Work → Prop) : ends (Post a) (mret a) Post.
Proof. intros w Hw. by eexists _, _. Qed.

Lemma ends_get {A} (Pre : Work → Prop) (f : Work → A) : ends Pre (exec_get f) (λ a w, Pre w ∧ a = f w).
Proof. intros w Hw. by eexists _, _. Qed.

Lemma ends_known {A B} (Pre : Work → Prop) (f : Work → A) (k : A → SupM B) Post :
  (∀ a, ends Pre (k a) Post) → ends Pre (exec_get f ≫= k) Post.
Proof. intros Hk w Hw. by apply (Hk (f w)). Qed.

Lemma ends_update (Pre Post : Work → Prop) f : (∀ w, Pre w → Post (f w)) → ends Pre (exec_update f) (λ _, Post).
Proof. intros Hf w Hw. eexists _, _. split; [done|]. by apply Hf. Qed.

Lemma ends_ok {A} (I : Work → Prop) (m : SupM A) : serves I m → ends I (exec_ok m) (λ _, I).
Proof.
  intros Hm w Hw. destruct (Hm w Hw) as (w1 & r & E1 & H1). unfold exec_ok, mbind, exec_bind, exec_try. rewrite E1. by eexists _, _.
Qed.

Lemma ends_each {X A} (I : Work → Prop) (body : X → SupM A) xs :
  (∀ x, ends I (body x) (λ _, I)) → ends I (exec_each body xs) (λ _, I).
Proof.
  intros Hb. induction xs as [|x xs IH]; simpl; [apply (ends_ret [] (λ _, I))|].
  eapply ends_bind; [apply Hb|]. intros a. eapply ends_bind; [apply IH|]. intros l. apply (ends_ret (a :: l) (λ _, I)).
Qed.

(** Steps in the stores of the start execution that leave the services alone. *)
Lemma serves_stores {F A} (wrap : F → Error) (m : Step P F A) services :
  (∀ s, exec_wf s → ∃ s' r, m s = Some (s', r) ∧ exec_wf s' ∧ s'.(xs_services) = s.(xs_services) ∧ same_next s s') →
  serves (serving services) (sup_exec wrap m).
Proof.
  intros Hm w [Hw Hs]. pose proof Hw as [[He Hc] Hi ? ? ? ? ? ?]. destruct (Hm (su_exec w) He) as (s' & r & E1 & He' & Hs' & Hn).
  unfold sup_exec, exec_within. rewrite E1. eexists _, _. split; [done|]. split; [|by rewrite <- Hs].
  split; simpl; try done. change (next_of s' ≤ sw_operation_ids (su_shutdown_work w)). by rewrite Hn.
Qed.

Lemma serves_jobs {A} (f : JobStore → JobResult A) services :
  (∀ s, jobs_wf s → jobs_wf (f s).1) → serves (serving services) (sup_jobs f).
Proof.
  intros Hf. apply serves_stores. intros s [[? ? ? Hj] ?]. unfold StartState.on_jobs, exec_on. specialize (Hf _ Hj).
  destruct (f _) as [jobs r]. eexists _, _. split; [done|]. split; [|done]. by split; [split|].
Qed.

Lemma serves_operations {A} (f : OperationStore → StoreResult A) services :
  (∀ s, op_step s (f s).1) → serves (serving services) (sup_operations f).
Proof.
  intros Hf. apply serves_stores. intros s [[? Ho ? ?] ?]. unfold on_operations, exec_on. specialize (Hf (xs_operations s)).
  destruct (f _) as [operations r]. eexists _, _. split; [done|]. split; [|done]. split; [split|]; simpl; try done.
  by eapply op_step_wf.
Qed.

Lemma serves_kill cgroup_id services : serves (serving services) (sup_exec SeProcessControl (kill id cgroup_id)).
Proof.
  apply serves_stores. intros s Hs. unfold kill, exec_on. destruct (kill_cgroup _ _) as [c r]. eexists _, _. split; [done|].
  split; [|done]. destruct Hs as [[? ? ? ?] ?]. by split; [split|].
Qed.

Lemma serving_drop services job_id w : serving services w → serving services (drop_setup_of_job job_id w).
Proof.
  intros [[? ? ? ? ? ? ? Hp] Hs]. unfold drop_setup_of_job. destruct (find_first _ _) as [[fd setup]|]; [|done].
  split; [|exact Hs]. split; simpl; try done. by apply map_Forall_delete.
Qed.

Lemma retire_ends job_id now_ns cause services :
  ends (serving services) (retire_job job_id now_ns cause) (λ _, serving services).
Proof.
  unfold retire_job. apply ends_known. intros [job|]; [|apply (ends_ret None (λ _, serving services))].
  eapply ends_bind; [apply ends_ok, serves_kill|]. intros ?.
  eapply ends_bind; [apply ends_update, serving_drop|]. intros [].
  destruct (jr_state job); try apply (ends_ret None (λ _, serving services)); apply ends_ok, serves_jobs; intros s Hs.
  - by apply (finish_wf job_id now_ns None cause 0).
  - by apply (finish_wf job_id now_ns None cause 0).
Qed.

Lemma ends_kept f services :
  sound (exec_update f : SupM unit) → (∀ w, su_services (f w) = su_services w) →
  ends (serving services) (exec_update f) (λ _, serving services).
Proof.
  intros Hf Hs. apply ends_update. intros w [Hw <-]. split; [|apply Hs]. destruct (Hf w Hw) as (w1 & r & [= <- <-] & Hr).
  by apply (Hr tt).
Qed.

Lemma retire_main_ends subject now_ns cause services :
  ends (serving services) (retire_main_job subject now_ns cause) (λ _, serving services).
Proof.
  unfold retire_main_job. apply ends_known. intros [main|]; [|apply (ends_ret None (λ _, serving services))].
  eapply ends_bind; [apply retire_ends|]. intros [event|]; [|apply (ends_ret None (λ _, serving services))].
  eapply ends_bind; [apply ends_kept; [apply sound_record_cleanup|done]|]. intros [].
  apply (ends_ret (Some event) (λ _, serving services)).
Qed.

Lemma fail_operation_ends service now_ns cause services :
  ends (serving services) (fail_current_operation service now_ns cause) (λ _, serving services).
Proof.
  unfold fail_current_operation. apply ends_known. intros [operation|]; [|apply (ends_ret None (λ _, serving services))].
  apply ends_ok, serves_operations. intros s. apply ostep_fail.
Qed.

(** The states of a service that an internal error fails. *)
Definition failing_states : list ServiceState := [StStarting; StActive; StReloading; StStopping; StBackoff].

Lemma can_fail_iff state : can_fail state = true ↔ state ∈ failing_states.
Proof. unfold failing_states. destruct state; simpl; set_solver. Qed.

(** The failure that is reported for a service when the services are [services]. *)
Definition failure_of (services : ServiceTable) (service : string) (transition : option ServiceTableTransition) : Prop :=
  match rt_state <$> table_runtime services service with
  | None => transition = None
  | Some state =>
      if decide (state ∈ failing_states)
      then ∃ t, transition = Some t ∧ t.(tt_event).(ev_from) = state ∧ t.(tt_event).(ev_to) = StFailed ∧
             t.(tt_event).(ev_cause) = TcInternalError
      else transition = None
  end.

Lemma can_fail_allowed state : can_fail state = true → is_allowed_transition state StFailed TcInternalError = true.
Proof. by destruct state. Qed.

Lemma transition_to_failed service runtime (services : ServiceTable) :
  table_runtime services service = Some runtime → can_fail runtime.(rt_state) = true →
  ∃ services' t, transition_service service {| st_to := StFailed; st_cause := TcInternalError |} services = (services', Ok t) ∧
    t.(tt_event).(ev_from) = runtime.(rt_state) ∧ t.(tt_event).(ev_to) = StFailed ∧ t.(tt_event).(ev_cause) = TcInternalError.
Proof.
  unfold table_runtime, transition_service. intros Er Hc. destruct (services !! service) as [entry|]; [|done]. injection Er as ->.
  unfold transition. cbn [st_to st_cause]. rewrite (can_fail_allowed _ Hc). cbv beta iota zeta delta [negb].
  destruct (discard_drained_definition_removed _ _) as [services' discarded]. by eexists _, _.
Qed.

Lemma fail_service_ends service services :
  ends (serving services) (fail_service service) (λ transition w, sup_wf w ∧ failure_of services service transition).
Proof.
  unfold fail_service. eapply ends_bind; [apply ends_get|]. intros runtime w [[Hw Hs] ->]. rewrite Hs. unfold failure_of.
  destruct (table_runtime services service) as [runtime|] eqn:Er; simpl; [|by eexists _, _].
  destruct (decide (rt_state runtime ∈ failing_states)) as [Hc|Hc]; rewrite <- can_fail_iff in Hc; [|apply not_true_is_false in Hc];
    rewrite Hc; simpl; [|by eexists _, _].
  pose proof (serves_table_step (id : Error → Error) (λ e, SeControl (CeServiceTable e))
    (transition_service service {| st_to := StFailed; st_cause := TcInternalError |}) (λ t, step_transition t service _) w Hw)
    as (w1 & r & E1 & H1).
  unfold sup_services, exec_ok, mbind, exec_bind, exec_try. rewrite E1. eexists _, _. split; [done|]. split; [done|].
  destruct (transition_to_failed service runtime services Er Hc) as (services' & t & Et & Hfrom & Hto & Hcause).
  unfold sup_exec, exec_within, on_services, exec_on in E1. change (xs_services (su_exec w)) with (su_services w) in E1.
  rewrite Hs, Et in E1. injection E1 as _ <-. by exists t.
Qed.

Lemma ends_sound_update f : sound (exec_update f : SupM unit) → ends sup_wf (exec_update f) (λ _, sup_wf).
Proof. intros Hf. apply ends_update. intros w Hw. destruct (Hf w Hw) as (w1 & r & [= <- <-] & Hr). by apply (Hr tt). Qed.

Lemma ends_on_start f : (∀ st, start_wf st → start_wf (f st)) → ends sup_wf (sup_on_start f) (λ _, sup_wf).
Proof.
  intros Hf w Hw. destruct (sound_on_start f Hf w Hw) as (w1 & r & E1 & Hr).
  assert (r = Ok tt) as -> by by injection E1. eexists _, _. split; [done|]. by apply (Hr tt).
Qed.

Lemma remove_readiness_of_wf service st : start_wf st → start_wf (remove_readiness_deadlines_for_service service st).1.
Proof.
  unfold remove_readiness_deadlines_for_service. generalize (map rd_operation_id
    (filter (λ deadline, rd_service deadline = service) (btree_values (ses_readiness st)))) (@nil ReadinessDeadline).
  intros ops. revert st. induction ops as [|op ops IH]; intros st removed Hst; [done|].
  apply (IH (remove_readiness_deadline op st).1). by apply remove_readiness_wf.
Qed.

Lemma clear_operation_ends operation_id : ends sup_wf (clear_operation_deadlines operation_id) (λ _, sup_wf).
Proof.
  unfold clear_operation_deadlines.
  eapply ends_bind; [apply ends_sound_update, sound_remove_stop_timeout|]. intros [].
  eapply ends_bind; [apply ends_on_start; intros; by apply remove_readiness_wf|]. intros [].
  eapply ends_bind; [apply ends_on_start; intros; by apply remove_pre_deadline_wf|]. intros [].
  eapply ends_bind; [apply ends_on_start; intros; by apply remove_post_deadline_wf|]. intros [].
  apply ends_on_start. intros. by apply remove_check_deadline_wf.
Qed.

Lemma clear_service_ends service : ends sup_wf (clear_service_deadlines service) (λ _, sup_wf).
Proof.
  unfold clear_service_deadlines.
  eapply ends_bind; [apply ends_on_start; intros; by apply remove_readiness_of_wf|]. intros [].
  apply ends_known. intros operations. eapply ends_bind; [apply ends_each; intros; apply clear_operation_ends|]. intros ?.
  eapply ends_bind; [apply ends_sound_update, sound_cancel_reload|]. intros [].
  eapply ends_bind; [apply ends_on_start; intros; by apply cancel_post_start_wf|]. intros [].
  eapply ends_bind; [apply ends_sound_update, sound_cancel_health|]. intros [].
  apply ends_sound_update, sound_cancel_watchdog.
Qed.

Lemma react_ends transition now_ns : 0 ≤ now_ns → ends sup_wf (react_on_copy transition now_ns) (λ _, sup_wf).
Proof.
  intros Hn w Hw. unfold react_on_copy, exec_try.
  assert (sound (dispatches ← apply_relationship_reactions_after_transitions [transition] now_ns settings.(sst_max_parallel_starts);
    _ ← exec_each (λ dispatch, queue_start_job dispatch.(sed_job_id) dispatch.(sed_job_kind)) dispatches;
    mret dispatches : SupM _)) as Hm by (sounds; by apply reactions_sound).
  destruct (serves_atomic_triple sup_wf (λ _ before, before) _ Hm (λ _ _ Hb, Hb) w Hw) as (w1 & r & E1 & H1).
  rewrite E1. by eexists _, _.
Qed.

Lemma react_to_containment_ends transition error now_ns :
  0 ≤ now_ns → ends sup_wf (react_to_containment transition error now_ns) (λ _, sup_wf).
Proof.
  intros Hn. unfold react_to_containment. destruct transition as [t|]; [|apply (ends_ret _ (λ _, sup_wf))].
  eapply ends_bind; [apply ends_sound_update, sound_health_scheduling|]. intros [].
  eapply ends_bind; [apply ends_sound_update, sound_watchdog_scheduling|]. intros [].
  eapply ends_bind; [by apply react_ends|]. intros ?. apply (ends_ret _ (λ _, sup_wf)).
Qed.

Lemma contain_ends subject step error now_ns services :
  0 ≤ now_ns → ends (serving services) (contain subject step error now_ns) (λ d w', sup_wf w' ∧
    d.(ied_subject) = subject ∧ d.(ied_step) = step ∧ d.(ied_observed_at_ns) = now_ns ∧
    match subject.(ies_service) with
    | Some service => failure_of services service d.(ied_service_transition)
    | None => d.(ied_service_transition) = None
    end).
Proof.
  intros Hn. unfold contain. cbv zeta. eapply ends_bind with (Mid := λ _, serving services).
  { destruct (ies_job_id subject); [apply retire_ends|apply (ends_ret None (λ _, serving services))]. }
  intros job_event. eapply ends_bind; [apply retire_main_ends|]. intros service_job_event.
  eapply ends_bind with (Mid := λ _, serving services).
  { destruct (ies_service subject); [apply fail_operation_ends|apply (ends_ret None (λ _, serving services))]. }
  intros operation_event.
  eapply ends_bind with (Mid := λ transition w', sup_wf w' ∧
    match ies_service subject with Some service => failure_of services service transition | None => transition = None end).
  { destruct (ies_service subject); [apply fail_service_ends|]. intros v [Hv _]. by eexists _, _. }
  intros transition v [Hv Ht]. revert v Hv. apply ends_bind with (Mid := λ _, sup_wf).
  { destruct (ies_service subject); [apply clear_service_ends|apply (ends_ret tt (λ _, sup_wf))]. }
  intros _. eapply ends_bind; [by apply react_to_containment_ends|]. intros [starts error'].
  eapply ends_bind; [apply ends_sound_update, sound_commit|]. intros [] v Hv. by eexists _, _.
Qed.

End Contain.

(** ** A small system *)

Import Calendar.Utc.
#[local] Existing Instance obliging_kernel.
#[local] Existing Instance counting_boundary.


(** The operation of the service is failed before the deadlines of its active
    operations are dropped, so the deadline of a hook outlives the containment:
    when it comes due it is about a job that is gone, and it is an error again,
    whatever the service is doing by then. *)
Example contained_hook_deadline_fires :
  match handle_launch_events (λ _, "error") settings_default launching_default prepare_launched (app_system []) with
  | Some s =>
      match fail_after_internal_error (λ _, "error") settings_default (internal_error_subject_for_pid s.(lx_work) 101)
              "job terminal" "refused" 300 s.(lx_work) with
      | Some (w, Ok _) =>
          rt_state <$> table_runtime (su_services w) "app" = Some StFailed ∧
          map hd_due_at_ns (btree_values (su_start w).(ses_pre_deadlines)) = [30000000050] ∧
          match handle_supervisor_event settings_default UvPreHookTimeout 30000000050 w with
          | Some (w', Err (SeStarting (SeJobStore (UnknownJob _)))) =>
              map hd_due_at_ns (btree_values (su_start w').(ses_pre_deadlines)) = [30000000050]
          | _ => False
          end
      | _ => False
      end
  | None => False
  end.
Proof. vm_compute. auto. Qed.
