(* ===== verification/RegistryValue.v ===== *)
(** * Values of the registry

    Models [src/src/registry/value.rs]: the raw values of a key, the errors of
    decoding a definition, and the decoding of text, lists, numbers and bytes;
    and their encoding, as [src/src/client/definition.rs] writes them. *)

From S2P Require Import Prelude RustStr ExecCommand ServiceDef.
From Stdlib Require Import Ascii String.
Open Scope string_scope.
Open Scope list_scope.
Open Scope Z_scope.

Inductive RegistryValueType : Type :=
| RegSz
| RegMultiSz
| RegDword
| RegBinary
| RegOther (ty : Z).

#[export] Instance RegistryValueType_eq_dec : EqDecision RegistryValueType.
Proof. solve_decision. Defined.

Record RawRegistryValue : Type := {
  rv_name : string;
  rv_value_type : RegistryValueType;
  rv_data : string;
}.

#[export] Instance RawRegistryValue_eq_dec : EqDecision RawRegistryValue.
Proof. solve_decision. Defined.

Inductive RegistryStringDecodeError : Type :=
| StrMissingTerminator
| StrInteriorNul (byte_index : nat)
| StrInvalidUtf8.

Inductive RegistryMultiStringDecodeError : Type :=
| MultiMissingTerminator
| MultiInvalidUtf8 (item_index : nat).

Inductive ServiceRegistryDecodeError : Type :=
| InvalidServiceName (service : string)
| InvalidProvisionedPathName (name : string)
| MissingProvisionedPathField (entry field : string)
| MissingImagePath
| DuplicateField (field : string)
| TypeMismatch (field : string) (expected actual : RegistryValueType)
| MalformedString (field : string) (reason : RegistryStringDecodeError)
| MalformedMultiString (field : string) (reason : RegistryMultiStringDecodeError)
| MalformedDword (field : string) (actual_len : nat)
| UnknownDword (field : string) (value : Z)
| InvalidSuccessExitCode (value : string)
| InvalidEnvironmentVariable (value : string)
| InvalidListEntry (field value : string)
| InvalidServiceReference (field value : string)
| InvalidTrigger (value : string)
| InvalidAbsolutePath (field value : string)
| InvalidRuntimeDirectory (field value : string)
| InvalidProvisionedPathKind (entry value : string)
| InvalidExecutableCommand (field value : string) (source : ExecutableCommandParseError)
| InvalidReloadSignal (value : string)
| InvalidCheck (field value : string)
| NonCachedRegistryCheck (field key : string)
| FieldRequiresTtyPath (field : string).

Notation Decoded A := (Result A ServiceRegistryDecodeError).

(** The value the failure is about, when it is about one value. *)
Definition decode_error_field (self : ServiceRegistryDecodeError) : option string :=
  match self with
  | InvalidServiceName _ => Some "name"
  | MissingProvisionedPathField _ field | DuplicateField field | TypeMismatch field _ _ | MalformedString field _
  | MalformedMultiString field _ | MalformedDword field _ | UnknownDword field _ | InvalidListEntry field _
  | InvalidServiceReference field _ | InvalidAbsolutePath field _ | InvalidRuntimeDirectory field _
  | InvalidExecutableCommand field _ _ | InvalidCheck field _ | NonCachedRegistryCheck field _
  | FieldRequiresTtyPath field => Some field
  | InvalidProvisionedPathName _ | MissingImagePath | InvalidSuccessExitCode _ | InvalidEnvironmentVariable _
  | InvalidTrigger _ | InvalidProvisionedPathKind _ _ | InvalidReloadSignal _ => None
  end.

(** ** Text *)

Definition NUL : ascii := ascii_of_nat 0.

(** All but the last byte, and the last. *)
Fixpoint split_last (s : string) : option (string * ascii) :=
  match s with
  | EmptyString => None
  | String c s =>
      match split_last s with
      | Some (init, last) => Some (String c init, last)
      | None => Some (EmptyString, c)
      end
  end.

Fixpoint position_of (c : ascii) (s : string) : option nat :=
  match s with
  | EmptyString => None
  | String d s => if Ascii.eqb d c then Some O else S <$> position_of c s
  end.

Definition decode_registry_string (data : string) : Result string RegistryStringDecodeError :=
  match split_last data with
  | Some (payload, last) =>
      if Ascii.eqb last NUL then
        match position_of NUL payload with
        | Some byte_index => Err (StrInteriorNul byte_index)
        | None => if is_utf8 payload then Ok payload else Err StrInvalidUtf8
        end
      else Err StrMissingTerminator
  | None => Err StrMissingTerminator
  end.

(** ** Lists *)

(** The loop over the terminated pieces: what is left after [start], cut at
    every NUL. The piece after the last NUL is never read. *)
Fixpoint multi_string_loop (pieces : list string) (item_index : nat) (values : list string)
    : Result (list string) RegistryMultiStringDecodeError :=
  match pieces with
  | [] | [_] => Err MultiMissingTerminator
  | item :: rest =>
      if str_is_empty item && bool_decide (rest = [EmptyString]) then Ok values
      else if is_utf8 item then multi_string_loop rest (S item_index) (values ++ [item])
      else Err (MultiInvalidUtf8 item_index)
  end.

Definition decode_registry_multi_string (data : string) : Result (list string) RegistryMultiStringDecodeError :=
  match split_last data with
  | Some (_, last) =>
      if Ascii.eqb last NUL then multi_string_loop (split_char NUL data) 0 [] else Err MultiMissingTerminator
  | None => Err MultiMissingTerminator
  end.

(** ** Numbers *)

(** [u32::from_le_bytes] of exactly four bytes. *)
Definition le_u32 (data : string) : option Z :=
  match data with
  | String a (String b (String c (String d EmptyString))) =>
      Some (byte_val a + 256 * (byte_val b + 256 * (byte_val c + 256 * byte_val d)))
  | _ => None
  end.

(** ** Fields *)

Definition expect_type (value : RawRegistryValue) (field : string) (expected : RegistryValueType) : Decoded unit :=
  if bool_decide (value.(rv_value_type) = expected) then Ok tt
  else Err (TypeMismatch field expected value.(rv_value_type)).

Definition decode_sz_field (value : RawRegistryValue) (field : string) : Decoded string :=
  let? _ := expect_type value field RegSz in
  map_err (MalformedString field) (decode_registry_string value.(rv_data)).

Definition decode_multi_sz_field (value : RawRegistryValue) (field : string) : Decoded (list string) :=
  let? _ := expect_type value field RegMultiSz in
  map_err (MalformedMultiString field) (decode_registry_multi_string value.(rv_data)).

Definition decode_dword_field (value : RawRegistryValue) (field : string) : Decoded Z :=
  let? _ := expect_type value field RegDword in
  match le_u32 value.(rv_data) with
  | Some n => Ok n
  | None => Err (MalformedDword field (String.length value.(rv_data)))
  end.

Definition decode_binary_field (value : RawRegistryValue) (field : string) : Decoded string :=
  let? _ := expect_type value field RegBinary in
  Ok value.(rv_data).

(** ** Encoding ([client/definition.rs]) *)

Definition sz (text : string) : string := text +:+ String NUL EmptyString.

Fixpoint multi_sz (items : list string) : string :=
  match items with
  | [] => String NUL EmptyString
  | item :: items => item +:+ String NUL (multi_sz items)
  end.

(** [u32::to_le_bytes]. *)
Definition le_bytes (n : Z) : string :=
  let byte k := ascii_of_N (Z.to_N (Z.shiftr n k mod 256)) in
  String (byte 0) (String (byte 8) (String (byte 16) (String (byte 24) EmptyString))).

(** ** Text, lists and numbers have one encoding each *)

Definition no_nul (s : string) : bool := str_all (λ c, negb (Ascii.eqb c NUL)) s.

(** What the registry can hold as an item. *)
Definition storable (s : string) : Prop := no_nul s = true ∧ is_utf8 s = true.

Lemma split_last_app s c : split_last (s +:+ String c EmptyString) = Some (s, c).
Proof. induction s as [|d s IH]; simpl; [done|]. by rewrite IH. Qed.

Lemma split_last_None s : split_last s = None → s = EmptyString.
Proof. destruct s as [|d s]; simpl; [done|]. by destruct (split_last s) as [[? ?]|]. Qed.

Lemma split_last_Some s init c : split_last s = Some (init, c) → s = init +:+ String c EmptyString.
Proof.
  revert init. induction s as [|d s IH]; intros init; simpl; [done|].
  destruct (split_last s) as [[i l]|] eqn:El.
  - intros [= <- <-]. simpl. by rewrite <-(IH i).
  - apply split_last_None in El as ->. by intros [= <- <-].
Qed.

Lemma position_of_None c s : position_of c s = None ↔ str_all (λ d, negb (Ascii.eqb d c)) s = true.
Proof.
  induction s as [|d s IH]; simpl; [done|]. destruct (Ascii.eqb d c); simpl; [done|].
  rewrite <-IH. by destruct (position_of c s).
Qed.

Lemma decode_string_exact data s : decode_registry_string data = Ok s ↔ data = sz s ∧ storable s.
Proof.
  unfold decode_registry_string, storable, no_nul. rewrite <-position_of_None. split.
  - destruct (split_last data) as [[payload l]|] eqn:El; [|done]. destruct (Ascii.eqb_spec l NUL) as [->|]; [|done].
    destruct (position_of NUL payload) eqn:Ep; [done|]. destruct (is_utf8 payload) eqn:Eu; [|done]. intros [= <-].
    by apply split_last_Some in El.
  - intros (-> & Hp & Hu). unfold sz. by rewrite split_last_app, Ascii.eqb_refl, Hp, Hu.
Qed.

(** *** Lists *)

Lemma join_split_char c s :
  str_join (String c EmptyString) (split_char c s) = s ∧ Forall (λ p, str_all (λ d, negb (Ascii.eqb d c)) p = true) (split_char c s) ∧
  split_char c s ≠ [].
Proof.
  induction s as [|d s (IHj & IHf & IHn)]; simpl; [by repeat constructor|].
  destruct (split_char c s) as [|p rest] eqn:Es; [done|]. destruct (Ascii.eqb_spec d c) as [->|Hne].
  - split_and!; [|by constructor|done]. change (String c (str_join (String c EmptyString) (p :: rest)) = String c s). by rewrite IHj.
  - apply Forall_cons in IHf as [Hp Hr]. split_and!; [|constructor; [simpl; by rewrite (proj2 (Ascii.eqb_neq d c) Hne)|done]|done].
    destruct rest; simpl in *; by rewrite <-IHj.
Qed.

Lemma multi_sz_split items :
  Forall (λ s, no_nul s = true) items → split_char NUL (multi_sz items) = items ++ [EmptyString; EmptyString].
Proof. induction 1 as [|s items Hs _ IH]; simpl; [done|]. rewrite split_char_app by exact Hs. by rewrite IH. Qed.

Lemma multi_sz_join items : multi_sz items = str_join (String NUL EmptyString) (items ++ [EmptyString; EmptyString]).
Proof.
  induction items as [|s items IH]; [done|]. simpl. rewrite IH. by destruct items.
Qed.

Lemma multi_sz_last items : ∃ init, split_last (multi_sz items) = Some (init, NUL).
Proof.
  induction items as [|s items [init IH]]; [by exists EmptyString|]. simpl.
  exists (s +:+ String NUL init). apply split_last_Some in IH. rewrite IH.
  change (s +:+ String NUL (init +:+ String NUL "")) with (s +:+ (String NUL init +:+ String NUL "")).
  by rewrite <-str_app_assoc, split_last_app.
Qed.

Lemma multi_loop_exact pieces i values items :
  multi_string_loop pieces i values = Ok items ↔
  ∃ l, items = values ++ l ∧ pieces = l ++ [EmptyString; EmptyString] ∧ Forall (λ s, is_utf8 s = true) l.
Proof.
  revert i values. induction pieces as [|p pieces IH]; intros i values.
  { split; [done|]. intros (l & _ & Hl & _). by destruct l. }
  destruct pieces as [|q rest]; [split; [done|]; intros (l & _ & Hl & _); by destruct l as [|? [|? ?]]|].
  change (multi_string_loop (p :: q :: rest) i values) with
    (if str_is_empty p && bool_decide (q :: rest = [EmptyString]) then Ok values
     else if is_utf8 p then multi_string_loop (q :: rest) (S i) (values ++ [p]) else Err (MultiInvalidUtf8 i)).
  destruct (str_is_empty p && bool_decide (q :: rest = [EmptyString])) eqn:Ee.
  { apply andb_true_iff in Ee as [Hp [= -> ->]%bool_decide_eq_true]. destruct p; [|done]. split.
    - intros [= <-]. exists []. by rewrite app_nil_r.
    - intros (l & -> & Hl & _). destruct l as [|a [|b [|? ?]]]; simplify_eq/=. by rewrite app_nil_r. }
  split.
  - destruct (is_utf8 p) eqn:Eu; [|done]. intros (l & -> & -> & Hl)%IH. exists (p :: l). rewrite <-app_assoc. split_and!; [done..|].
    by constructor.
  - intros (l & -> & Hl & Hu). destruct l as [|a l]; [by simplify_eq/=|]. injection Hl as -> Hl.
    apply Forall_cons in Hu as [-> Hu]. apply IH. exists l. rewrite <-app_assoc. done.
Qed.

(** *** Numbers *)

Lemma byte_of_val c : ascii_of_N (Z.to_N (byte_val c)) = c.
Proof. unfold byte_val. rewrite N2Z.id. apply ascii_N_embedding. Qed.

Lemma val_of_byte n : 0 ≤ n < 256 → byte_val (ascii_of_N (Z.to_N n)) = n.
Proof. intros Hn. unfold byte_val. rewrite N_ascii_embedding by lia. lia. Qed.

(** The base-256 digits of a number are what it is made of. *)
Lemma le_digits a b c d :
  0 ≤ a < 256 → 0 ≤ b < 256 → 0 ≤ c < 256 → 0 ≤ d < 256 →
  let n := a + 256 * (b + 256 * (c + 256 * d)) in
  n mod 256 = a ∧ n / 256 mod 256 = b ∧ n / 65536 mod 256 = c ∧ n / 16777216 mod 256 = d.
Proof. intros. subst n. split_and!; Z.div_mod_to_equations; lia. Qed.

Lemma le_u32_exact data n : le_u32 data = Some n ↔ data = le_bytes n ∧ is_u32 n.
Proof.
  unfold le_bytes. rewrite !Z.shiftr_div_pow2 by lia. change (2 ^ 0) with 1. rewrite Z.div_1_r.
  change (2 ^ 8) with 256. change (2 ^ 16) with 65536. change (2 ^ 24) with 16777216. split.
  - destruct data as [|a [|b [|c [|d [|]]]]]; simpl; try done. intros [= <-].
    destruct (le_digits (byte_val a) (byte_val b) (byte_val c) (byte_val d)) as (-> & -> & -> & ->); try apply byte_val_range.
    rewrite !byte_of_val. split; [done|].
    pose proof (byte_val_range a); pose proof (byte_val_range b); pose proof (byte_val_range c); pose proof (byte_val_range d).
    unfold is_u32, u32_max. lia.
  - intros [-> Hn]. simpl. rewrite !val_of_byte by (apply Z.mod_pos_bound; lia). f_equal.
    unfold is_u32, u32_max in Hn. Z.div_mod_to_equations; lia.
Qed.

Lemma registry_multi_exact data items : decode_registry_multi_string data = Ok items ↔ data = multi_sz items ∧ Forall storable items.
Proof.
  unfold decode_registry_multi_string.
  destruct (join_split_char NUL data) as (Hj & Hf & _). split.
  - destruct (split_last data) as [[init l]|] eqn:El; [|done]. destruct (Ascii.eqb l NUL); [|done].
    rewrite multi_loop_exact. intros (l' & -> & Hs & Hu). simpl. rewrite Hs in Hj, Hf. rewrite <-Hj, multi_sz_join. split; [done|].
    apply Forall_app in Hf as [Hf _]. by apply Forall_and.
  - intros [-> [Hn Hu]%Forall_and]. destruct (multi_sz_last items) as [init ->]. rewrite Ascii.eqb_refl.
    rewrite multi_sz_split by done. apply multi_loop_exact. by exists items.
Qed.

(** C19: Text, lists and numbers have exactly one encoding in the registry:
    decoding gives back what was encoded, for every text without a NUL and every
    number of 32 bits, and what is not such an encoding, terminators and length
    included, is refused. *)
Theorem registry_encodings_exact :
  (∀ data s, decode_registry_string data = Ok s ↔ data = sz s ∧ storable s) ∧
  (∀ data items, decode_registry_multi_string data = Ok items ↔ data = multi_sz items ∧ Forall storable items) ∧
  (∀ data n, le_u32 data = Some n ↔ data = le_bytes n ∧ is_u32 n).
Proof. split_and!; [exact decode_string_exact|exact registry_multi_exact|exact le_u32_exact]. Qed.

(** * The fields of a service definition

    Models [src/src/registry/fields.rs]: the names of the fields, what each
    holds, and the values of those that are one of a few. *)

Inductive FieldKind : Type :=
| KText
| KList
| KNumber (unit : option string)
| KYesNo
| KChoice (names : list (Z * string))
| KBinary.

#[export] Instance FieldKind_eq_dec : EqDecision FieldKind.
Proof. solve_decision. Defined.

Definition field_value_type (self : FieldKind) : RegistryValueType :=
  match self with
  | KText => RegSz
  | KList => RegMultiSz
  | KNumber _ | KYesNo | KChoice _ => RegDword
  | KBinary => RegBinary
  end.

Inductive FieldGroup : Type :=
| GrAbout | GrExecution | GrTypeAndReadiness | GrActivation | GrIdentity | GrDependencies | GrSupervision
| GrTransitionPhases | GrOther.

Inductive TakesEffect : Type := AtRestart | AtNextStart | AtRuntime.

Record FieldInfo : Type := {
  fi_name : string;
  fi_kind : FieldKind;
  fi_group : FieldGroup;
  fi_takes_effect : TakesEffect;
  fi_default : option string;
}.

Definition SECONDS : FieldKind := KNumber (Some "seconds").
Definition COUNT : FieldKind := KNumber None.

Inductive Field : Type :=
| FImagePath | FArguments | FType | FTriggers | FDisabled | FSafeMode | FIdentity | FRequiredPrivileges
| FRequires | FWants | FBindsTo | FConflicts | FProvides | FOnFailure | FReadiness | FNotifyAccess | FRemainAfterExit
| FSuccessExitCodes | FExecStartPre | FExecStartPost | FHookIdentity | FExecReload | FPreStartCheckTimeout
| FStartTimeout | FStopTimeout | FWatchdogTimeout | FHealthCheck | FHealthCheckInterval | FHealthCheckTimeout
| FHealthCheckRetries | FFdStoreMax | FEnvironment | FWorkingDirectory | FRuntimeDirectories | FLimitNoFile
| FLimitCore | FConditions | FAsserts | FDisplayName | FDescription | FRestartPolicy | FRestartMaxRetries
| FRestartWindow | FRestartDelay | FErrorControl | FServiceSecurity | FTimerPersistent | FTtyPath | FTtyPrecedence
| FTimerJitter.

#[export] Instance Field_eq_dec : EqDecision Field.
Proof. solve_decision. Defined.

Definition field_name (self : Field) : string :=
  match self with
  | FImagePath => "ImagePath"
  | FArguments => "Arguments"
  | FType => "Type"
  | FTriggers => "Triggers"
  | FDisabled => "Disabled"
  | FSafeMode => "SafeMode"
  | FIdentity => "Identity"
  | FRequiredPrivileges => "RequiredPrivileges"
  | FRequires => "Requires"
  | FWants => "Wants"
  | FBindsTo => "BindsTo"
  | FConflicts => "Conflicts"
  | FProvides => "Provides"
  | FOnFailure => "OnFailure"
  | FReadiness => "Readiness"
  | FNotifyAccess => "NotifyAccess"
  | FRemainAfterExit => "RemainAfterExit"
  | FSuccessExitCodes => "SuccessExitCodes"
  | FExecStartPre => "ExecStartPre"
  | FExecStartPost => "ExecStartPost"
  | FHookIdentity => "HookIdentity"
  | FExecReload => "ExecReload"
  | FPreStartCheckTimeout => "PreStartCheckTimeout"
  | FStartTimeout => "StartTimeout"
  | FStopTimeout => "StopTimeout"
  | FWatchdogTimeout => "WatchdogTimeout"
  | FHealthCheck => "HealthCheck"
  | FHealthCheckInterval => "HealthCheckInterval"
  | FHealthCheckTimeout => "HealthCheckTimeout"
  | FHealthCheckRetries => "HealthCheckRetries"
  | FFdStoreMax => "FdStoreMax"
  | FEnvironment => "Environment"
  | FWorkingDirectory => "WorkingDirectory"
  | FRuntimeDirectories => "RuntimeDirectories"
  | FLimitNoFile => "LimitNOFILE"
  | FLimitCore => "LimitCORE"
  | FConditions => "Conditions"
  | FAsserts => "Asserts"
  | FDisplayName => "DisplayName"
  | FDescription => "Description"
  | FRestartPolicy => "RestartPolicy"
  | FRestartMaxRetries => "RestartMaxRetries"
  | FRestartWindow => "RestartWindow"
  | FRestartDelay => "RestartDelay"
  | FErrorControl => "ErrorControl"
  | FServiceSecurity => "ServiceSecurity"
  | FTimerPersistent => "TimerPersistent"
  | FTtyPath => "TTYPath"
  | FTtyPrecedence => "TTYPrecedence"
  | FTimerJitter => "TimerJitter"
  end.

(** The macro gives every field its entry. *)
Definition field_info_of (self : Field) : FieldInfo :=
  let info kind group effect default : FieldInfo := {| fi_name := field_name self; fi_kind := kind; fi_group := group;
    fi_takes_effect := effect; fi_default := default |} in
  match self with
  | FImagePath => info KText GrExecution AtRestart None
  | FArguments => info KList GrExecution AtRuntime None
  | FType => info (KChoice [(0, "Simple"); (1, "Oneshot")]) GrTypeAndReadiness AtRestart (Some "Simple")
  | FTriggers => info KList GrActivation AtRestart None
  | FDisabled => info KYesNo GrActivation AtRestart (Some "no")
  | FSafeMode => info KYesNo GrActivation AtRuntime (Some "no")
  | FIdentity => info KText GrIdentity AtRestart (Some "LocalService")
  | FRequiredPrivileges => info KList GrIdentity AtRestart None
  | FRequires => info KList GrDependencies AtNextStart None
  | FWants => info KList GrDependencies AtNextStart None
  | FBindsTo => info KList GrDependencies AtNextStart None
  | FConflicts => info KList GrDependencies AtNextStart None
  | FProvides => info KList GrDependencies AtRuntime None
  | FOnFailure => info KText GrDependencies AtNextStart None
  | FReadiness => info (KChoice [(0, "Notify"); (1, "Alive")]) GrTypeAndReadiness AtRuntime (Some "Notify")
  | FNotifyAccess => info (KChoice [(0, "Main")]) GrOther AtRuntime (Some "Main")
  | FRemainAfterExit => info KYesNo GrTypeAndReadiness AtRestart (Some "no")
  | FSuccessExitCodes => info KList GrTypeAndReadiness AtRuntime None
  | FExecStartPre => info KList GrTransitionPhases AtRuntime None
  | FExecStartPost => info KList GrTransitionPhases AtRuntime None
  | FHookIdentity => info KText GrIdentity AtRuntime (Some "the service's Identity")
  | FExecReload => info KText GrTransitionPhases AtRuntime (Some "signal:HUP")
  | FPreStartCheckTimeout => info SECONDS GrActivation AtRuntime (Some "5")
  | FStartTimeout => info SECONDS GrTransitionPhases AtRuntime (Some "30")
  | FStopTimeout => info SECONDS GrTransitionPhases AtRuntime (Some "10")
  | FWatchdogTimeout => info SECONDS GrSupervision AtRuntime (Some "0, none")
  | FHealthCheck => info KText GrSupervision AtRuntime None
  | FHealthCheckInterval => info SECONDS GrSupervision AtRuntime (Some "30")
  | FHealthCheckTimeout => info SECONDS GrSupervision AtRuntime (Some "5")
  | FHealthCheckRetries => info COUNT GrSupervision AtRuntime (Some "3")
  | FFdStoreMax => info COUNT GrOther AtRuntime (Some "0, none")
  | FEnvironment => info KList GrExecution AtRuntime None
  | FWorkingDirectory => info KText GrExecution AtRuntime (Some "/")
  | FRuntimeDirectories => info KList GrExecution AtRuntime None
  | FLimitNoFile => info COUNT GrExecution AtRuntime None
  | FLimitCore => info (KNumber (Some "bytes")) GrExecution AtRuntime None
  | FConditions => info KList GrActivation AtNextStart None
  | FAsserts => info KList GrActivation AtNextStart None
  | FDisplayName => info KText GrAbout AtRuntime None
  | FDescription => info KText GrAbout AtRuntime None
  | FRestartPolicy => info (KChoice [(0, "Never"); (1, "OnFailure"); (2, "Always")]) GrSupervision AtRuntime (Some "OnFailure")
  | FRestartMaxRetries => info COUNT GrSupervision AtRuntime (Some "5")
  | FRestartWindow => info SECONDS GrSupervision AtRuntime (Some "120")
  | FRestartDelay => info SECONDS GrSupervision AtRuntime (Some "1")
  | FErrorControl => info (KChoice [(0, "Normal"); (1, "Critical")]) GrSupervision AtRestart (Some "Normal")
  | FServiceSecurity => info KBinary GrOther AtRuntime (Some "the Services key's, or the built-in default")
  | FTimerPersistent => info KYesNo GrActivation AtRuntime (Some "yes")
  | FTtyPath => info KText GrExecution AtRuntime None
  | FTtyPrecedence => info COUNT GrExecution AtRuntime (Some "0")
  | FTimerJitter => info SECONDS GrActivation AtRuntime (Some "0")
  end.

Definition ALL_FIELDS : list Field := [
  FImagePath; FArguments; FType; FTriggers; FDisabled; FSafeMode; FIdentity; FRequiredPrivileges; FRequires;
  FWants; FBindsTo; FConflicts; FProvides; FOnFailure; FReadiness; FNotifyAccess; FRemainAfterExit; FSuccessExitCodes;
  FExecStartPre; FExecStartPost; FHookIdentity; FExecReload; FPreStartCheckTimeout; FStartTimeout; FStopTimeout;
  FWatchdogTimeout; FHealthCheck; FHealthCheckInterval; FHealthCheckTimeout; FHealthCheckRetries; FFdStoreMax;
  FEnvironment; FWorkingDirectory; FRuntimeDirectories; FLimitNoFile; FLimitCore; FConditions; FAsserts;
  FDisplayName; FDescription; FRestartPolicy; FRestartMaxRetries; FRestartWindow; FRestartDelay; FErrorControl;
  FServiceSecurity; FTimerPersistent; FTtyPath; FTtyPrecedence; FTimerJitter ].

Definition field_from_name (name : string) : option Field :=
  find_first (λ field, eq_ignore_ascii_case (field_name field) name) ALL_FIELDS.

Definition service_field (name : string) : option FieldInfo :=
  find_first (λ info, eq_ignore_ascii_case info.(fi_name) name) (map field_info_of ALL_FIELDS).

(** ** Numbers that name something *)

Definition parse_bool (field : string) (value : Z) : Decoded bool :=
  if value =? 0 then Ok false else if value =? 1 then Ok true else Err (UnknownDword field value).

Definition parse_timer_persistent (value : Z) : Decoded bool := parse_bool "TimerPersistent" value.

Definition parse_notify_access (value : Z) : Decoded NotifyAccess :=
  if value =? 0 then Ok NotifyMain else Err (UnknownDword "NotifyAccess" value).

Definition parse_error_control (value : Z) : Decoded ErrorControl :=
  if value =? 0 then Ok EcNormal else if value =? 1 then Ok EcCritical else Err (UnknownDword "ErrorControl" value).

Definition parse_service_type (value : Z) : Decoded ServiceType :=
  if value =? 0 then Ok TypeSimple else if value =? 1 then Ok TypeOneshot else Err (UnknownDword "Type" value).

Definition parse_restart_policy (value : Z) : Decoded RestartPolicy :=
  if value =? 0 then Ok PolicyNever
  else if value =? 1 then Ok PolicyOnFailure
  else if value =? 2 then Ok PolicyAlways
  else Err (UnknownDword "RestartPolicy" value).

Definition parse_readiness (value : Z) : Decoded Readiness :=
  if value =? 0 then Ok ReadyNotify else if value =? 1 then Ok ReadyAlive else Err (UnknownDword "Readiness" value).

(** ** Triggers *)

Definition BOOT_SUB_TRIGGERS : list (string * ServiceTrigger) := [("settled", TriggerBootSettled)].
Definition TTY_SUB_TRIGGERS : list (string * ServiceTrigger) := [("released", TriggerTtyReleased)].

Definition sub_trigger (value sub : string) (triggers : list (string * ServiceTrigger)) : Decoded ServiceTrigger :=
  ok_or (snd <$> find_first (λ '(name, _), bool_decide (name = sub)) triggers) (InvalidTrigger value).

Definition ends_with_char (c : ascii) (s : string) : bool :=
  match split_last s with Some (_, last) => Ascii.eqb last c | None => false end.

Definition classify_trigger (value : string) : Decoded ServiceTrigger :=
  if bool_decide (value = "boot") then Ok TriggerBoot
  else
    match strip_prefix "boot:" value with
    | Some sub => sub_trigger value sub BOOT_SUB_TRIGGERS
    | None =>
        if bool_decide (value = "tty") then Err (InvalidTrigger value)
        else
          match strip_prefix "tty:" value with
          | Some sub => sub_trigger value sub TTY_SUB_TRIGGERS
          | None =>
              if bool_decide (value = "timer") || bool_decide (value = "timer:") || str_is_empty value ||
                 starts_with ":" value || ends_with_char ":" value
              then Err (InvalidTrigger value)
              else
                match strip_prefix "timer:" value with
                | Some schedule => Ok (TriggerTimer schedule)
                | None => Ok (TriggerOther value)
                end
          end
    end.

(** ** Exit codes *)

(** [str::parse::<i32>]: an optional sign and at least one digit. *)
Definition parse_i32 (s : string) : option Z :=
  let parse (digits : string) (sign : Z) :=
    if str_is_empty digits then None
    else match parse_decimal 0 digits with
         | Some n => if (-2147483648 <=? sign * n) && (sign * n <=? 2147483647) then Some (sign * n) else None
         | None => None
         end in
  match strip_prefix "+" s with
  | Some digits => parse digits 1
  | None => match strip_prefix "-" s with Some digits => parse digits (-1) | None => parse s 1 end
  end.

Fixpoint success_exit_codes_loop (values : list string) (codes : list Z) : Decoded (list Z) :=
  match values with
  | [] => Ok codes
  | value :: values =>
      match parse_i32 value with
      | None => Err (InvalidSuccessExitCode value)
      | Some code =>
          if (0 <=? code) && (code <=? 255) then
            success_exit_codes_loop values (if bool_decide (code ∈ codes) then codes else codes ++ [code])
          else Err (InvalidSuccessExitCode value)
      end
  end.

Definition parse_success_exit_codes (values : list string) : Decoded (list Z) := success_exit_codes_loop values [].
