(* ===== verification/RegistryService.v ===== *)
(** * Service definitions from the registry

    Models [src/src/registry/service.rs], [service/builder.rs],
    [service/apply.rs] and [service/parse/]: a definition is built from the
    values of its key, each value once and in any order. *)

From S2P Require Import Prelude RustStr ServiceDef ExecCommand OperationRecord OperationStore SubmittedDef.
From S2P Require Import StartState StartBegin RegistryValue.
From Stdlib Require Import Ascii String.
Open Scope string_scope.
Open Scope list_scope.
Open Scope Z_scope.

(** ** Parsing of fields ([parse/]) *)

Definition field_checked {A} (valid : A → bool) (error : A → ServiceRegistryDecodeError) (entry : A) : Decoded A :=
  if valid entry then Ok entry else Err (error entry).

(** *** [string.rs] *)

Definition parse_non_empty_list (value : RawRegistryValue) (field : Field) : Decoded (list string) :=
  let? entries := decode_multi_sz_field value (field_name field) in
  try_map (field_checked (λ entry, negb (str_is_empty entry)) (InvalidListEntry (field_name field))) entries.

Definition parse_optional_string (value : RawRegistryValue) (field : Field) : Decoded (option string) :=
  let? parsed := decode_sz_field value (field_name field) in
  Ok (if str_is_empty parsed then None else Some parsed).

Definition parse_identity_field (value : RawRegistryValue) (field : Field) : Decoded (option string) :=
  let? parsed := decode_sz_field value (field_name field) in
  Ok (if str_is_empty parsed then None else Some (default parsed (canonical_well_known_identity parsed))).

Definition parse_absolute_path_field (value : RawRegistryValue) (field : Field) : Decoded string :=
  let? parsed := decode_sz_field value (field_name field) in
  field_checked (starts_with "/") (InvalidAbsolutePath (field_name field)) parsed.

Definition is_valid_runtime_directory_name (value : string) : bool :=
  negb (str_is_empty value) && negb (bool_decide (value = ".")) && negb (bool_decide (value = "..")) &&
  str_all (λ byte, negb (Ascii.eqb byte "/" || Ascii.eqb byte backslash || in_range 0 31 byte || in_range 127 127 byte)) value.

Definition parse_runtime_directories (value : RawRegistryValue) (field : Field) : Decoded (list ServiceRuntimeDirectory) :=
  let? entries := decode_multi_sz_field value (field_name field) in
  try_map (λ entry, if is_valid_runtime_directory_name entry then Ok {| dir_name := entry |}
                    else Err (InvalidRuntimeDirectory (field_name field) entry)) entries.

(** *** [reference.rs] *)

Definition is_ascii_graphic (c : ascii) : bool := in_range 33 126 c.

Definition is_valid_level (level : string) : bool :=
  negb (str_is_empty level) && (String.length level <=? 64)%nat && str_all is_ascii_graphic level.

Definition valid_dependency_reference (value : string) : bool :=
  let '(service, level) := split_target value in
  is_valid_service_name service && match level with Some level => is_valid_level level | None => true end.

Definition parse_service_reference_list (value : RawRegistryValue) (field : Field) : Decoded (list string) :=
  let? entries := decode_multi_sz_field value (field_name field) in
  try_map (field_checked valid_dependency_reference (InvalidServiceReference (field_name field))) entries.

Definition parse_role_name_list (value : RawRegistryValue) (field : Field) : Decoded (list string) :=
  let? entries := decode_multi_sz_field value (field_name field) in
  try_map (field_checked is_valid_service_name (InvalidServiceReference (field_name field))) entries.

Definition parse_service_reference_field (value : RawRegistryValue) (field : Field) : Decoded string :=
  let? parsed := decode_sz_field value (field_name field) in
  field_checked is_valid_service_name (InvalidServiceReference (field_name field)) parsed.

(** *** [command.rs] *)

Definition validate_executable_command (field : Field) (value : string) : Decoded unit :=
  match parse_executable_command value with
  | Ok _ => Ok tt
  | Err source => Err (InvalidExecutableCommand (field_name field) value source)
  end.

Definition parse_executable_command_field (value : RawRegistryValue) (field : Field) : Decoded string :=
  let? parsed := decode_sz_field value (field_name field) in
  let? _ := validate_executable_command field parsed in
  Ok parsed.

Definition parse_executable_command_list (value : RawRegistryValue) (field : Field) : Decoded (list string) :=
  let? entries := decode_multi_sz_field value (field_name field) in
  try_map (λ entry, let? _ := validate_executable_command field entry in Ok entry) entries.

Definition ACCEPTED_RELOAD_SIGNALS : list string := [
  "SIGHUP"; "SIGINT"; "SIGQUIT"; "SIGILL"; "SIGTRAP"; "SIGABRT"; "SIGBUS"; "SIGFPE"; "SIGUSR1"; "SIGSEGV"; "SIGUSR2";
  "SIGPIPE"; "SIGALRM"; "SIGTERM"; "SIGSTKFLT"; "SIGCHLD"; "SIGCONT"; "SIGTSTP"; "SIGTTIN"; "SIGTTOU"; "SIGURG"; "SIGXCPU";
  "SIGXFSZ"; "SIGVTALRM"; "SIGPROF"; "SIGWINCH"; "SIGIO"; "SIGPWR"; "SIGSYS" ].

Definition is_accepted_reload_signal (signal : string) : bool := bool_decide (signal ∈ ACCEPTED_RELOAD_SIGNALS).

Definition validate_exec_reload (value : string) : Decoded unit :=
  match strip_prefix "signal:" value with
  | Some signal => if is_accepted_reload_signal signal then Ok tt else Err (InvalidReloadSignal value)
  | None => validate_executable_command FExecReload value
  end.

(** *** [environment.rs] *)

Definition parse_environment_variable (value : string) : Decoded ServiceEnvironmentVariable :=
  match split_once "=" value with
  | None => Err (InvalidEnvironmentVariable value)
  | Some (name, variable_value) =>
      if str_is_empty name || str_contains_char NUL name then Err (InvalidEnvironmentVariable value)
      else Ok {| env_name := name; env_value := variable_value |}
  end.

Definition parse_environment_variables (values : list string) : Decoded (list ServiceEnvironmentVariable) :=
  try_map parse_environment_variable values.

(** *** [checks.rs] *)

Definition parse_service_check (field : Field) (value : string) : Decoded ServiceCheck :=
  let invalid : Decoded ServiceCheck := Err (InvalidCheck (field_name field) value) in
  match split_once ":" value with
  | None => invalid
  | Some (kind, argument) =>
      let check kind : Decoded ServiceCheck := Ok {| chk_kind := kind; chk_argument := argument |} in
      if str_is_empty argument then invalid
      else if bool_decide (kind = "path") then check CheckPath
      else if bool_decide (kind = "file") then check CheckFile
      else if bool_decide (kind = "directory") then check CheckDirectory
      else if bool_decide (kind = "registry") then
        match cached_registry_key argument with
        | Some _ => check CheckRegistry
        | None => Err (NonCachedRegistryCheck (field_name field) argument)
        end
      else invalid
  end.

Definition parse_service_checks (value : RawRegistryValue) (field : Field) : Decoded (list ServiceCheck) :=
  let? entries := decode_multi_sz_field value (field_name field) in
  try_map (parse_service_check field) entries.

(** ** The builder ([builder.rs]) *)

Definition DEFAULT_IDENTITY : string := "LocalService".

Record DefinitionBuilder : Type := {
  db_name : string;
  db_image_path : option string;
  db_arguments : list string;
  db_service_type : ServiceType;
  db_triggers : list ServiceTrigger;
  db_disabled : bool;
  db_safe_mode : bool;
  db_identity : string;
  db_required_privileges : list string;
  db_requires : list string;
  db_wants : list string;
  db_binds_to : list string;
  db_conflicts : list string;
  db_provides : list string;
  db_on_failure : option string;
  db_readiness : Readiness;
  db_notify_access : NotifyAccess;
  db_remain_after_exit : bool;
  db_success_exit_codes : list Z;
  db_exec_start_pre : list string;
  db_exec_start_post : list string;
  db_hook_identity : option string;
  db_exec_reload : option string;
  db_pre_start_check_timeout_secs : Z;
  db_start_timeout_secs : Z;
  db_stop_timeout_secs : Z;
  db_watchdog_timeout_secs : Z;
  db_health_check : option string;
  db_health_check_interval_secs : Z;
  db_health_check_timeout_secs : Z;
  db_health_check_retries : Z;
  db_fd_store_max : Z;
  db_environment : list ServiceEnvironmentVariable;
  db_working_directory : string;
  db_console_path : option string;
  db_console_precedence : Z;
  db_runtime_directories : list ServiceRuntimeDirectory;
  db_limit_nofile : option Z;
  db_limit_core : option Z;
  db_conditions : list ServiceCheck;
  db_asserts : list ServiceCheck;
  db_display_name : option string;
  db_description : option string;
  db_restart_policy : RestartPolicy;
  db_restart_max_retries : Z;
  db_restart_window_secs : Z;
  db_restart_delay_secs : Z;
  db_error_control : ErrorControl;
  db_service_security : ServiceSecurityDescriptor;
  db_timer_persistent : bool;
  db_timer_jitter_secs : Z;
}.

Definition builder_new (service_name : string) : DefinitionBuilder := {|
  db_name := service_name;
  db_image_path := None;
  db_arguments := [];
  db_service_type := TypeSimple;
  db_triggers := [];
  db_disabled := false;
  db_safe_mode := false;
  db_identity := DEFAULT_IDENTITY;
  db_required_privileges := [];
  db_requires := [];
  db_wants := [];
  db_binds_to := [];
  db_conflicts := [];
  db_provides := [];
  db_on_failure := None;
  db_readiness := ReadyNotify;
  db_notify_access := NotifyMain;
  db_remain_after_exit := false;
  db_success_exit_codes := [];
  db_exec_start_pre := [];
  db_exec_start_post := [];
  db_hook_identity := None;
  db_exec_reload := None;
  db_pre_start_check_timeout_secs := 5;
  db_start_timeout_secs := 30;
  db_stop_timeout_secs := 10;
  db_watchdog_timeout_secs := 0;
  db_health_check := None;
  db_health_check_interval_secs := 30;
  db_health_check_timeout_secs := 5;
  db_health_check_retries := 3;
  db_fd_store_max := 0;
  db_environment := [];
  db_working_directory := "/";
  db_console_path := None;
  db_console_precedence := 0;
  db_runtime_directories := [];
  db_limit_nofile := None;
  db_limit_core := None;
  db_conditions := [];
  db_asserts := [];
  db_display_name := None;
  db_description := None;
  db_restart_policy := PolicyOnFailure;
  db_restart_max_retries := 5;
  db_restart_window_secs := 120;
  db_restart_delay_secs := 1;
  db_error_control := EcNormal;
  db_service_security := SdDefault;
  db_timer_persistent := true;
  db_timer_jitter_secs := 0;
|}.

(** Both terminal fields need a terminal. *)
Definition builder_finish (self : DefinitionBuilder) : Decoded ServiceDefinition :=
  let safe_mode := if bool_decide (self.(db_error_control) = EcCritical) then true else self.(db_safe_mode) in
  if bool_decide (self.(db_console_path) = None) && bool_decide (TriggerTtyReleased ∈ self.(db_triggers)) then
    Err (FieldRequiresTtyPath "Triggers")
  else if bool_decide (self.(db_console_path) = None) && negb (self.(db_console_precedence) =? 0) then
    Err (FieldRequiresTtyPath "TTYPrecedence")
  else
    let? image_path := ok_or self.(db_image_path) MissingImagePath in
    Ok {|
      sd_name := self.(db_name);
      sd_image_path := image_path;
      sd_arguments := self.(db_arguments);
      sd_service_type := self.(db_service_type);
      sd_triggers := self.(db_triggers);
      sd_disabled := self.(db_disabled);
      sd_safe_mode := safe_mode;
      sd_identity := self.(db_identity);
      sd_required_privileges := self.(db_required_privileges);
      sd_requires := self.(db_requires);
      sd_wants := self.(db_wants);
      sd_binds_to := self.(db_binds_to);
      sd_conflicts := self.(db_conflicts);
      sd_provides := self.(db_provides);
      sd_on_failure := self.(db_on_failure);
      sd_readiness := self.(db_readiness);
      sd_notify_access := self.(db_notify_access);
      sd_remain_after_exit := self.(db_remain_after_exit);
      sd_success_exit_codes := self.(db_success_exit_codes);
      sd_exec_start_pre := self.(db_exec_start_pre);
      sd_exec_start_post := self.(db_exec_start_post);
      sd_hook_identity := self.(db_hook_identity);
      sd_exec_reload := self.(db_exec_reload);
      sd_pre_start_check_timeout_secs := self.(db_pre_start_check_timeout_secs);
      sd_start_timeout_secs := self.(db_start_timeout_secs);
      sd_stop_timeout_secs := self.(db_stop_timeout_secs);
      sd_watchdog_timeout_secs := self.(db_watchdog_timeout_secs);
      sd_health_check := self.(db_health_check);
      sd_health_check_interval_secs := self.(db_health_check_interval_secs);
      sd_health_check_timeout_secs := self.(db_health_check_timeout_secs);
      sd_health_check_retries := self.(db_health_check_retries);
      sd_fd_store_max := self.(db_fd_store_max);
      sd_environment := self.(db_environment);
      sd_working_directory := self.(db_working_directory);
      sd_runtime_directories := self.(db_runtime_directories);
      sd_limit_nofile := self.(db_limit_nofile);
      sd_limit_core := self.(db_limit_core);
      sd_conditions := self.(db_conditions);
      sd_asserts := self.(db_asserts);
      sd_display_name := self.(db_display_name);
      sd_description := self.(db_description);
      sd_restart_policy := self.(db_restart_policy);
      sd_restart_max_retries := self.(db_restart_max_retries);
      sd_restart_window_secs := self.(db_restart_window_secs);
      sd_restart_delay_secs := self.(db_restart_delay_secs);
      sd_error_control := self.(db_error_control);
      sd_service_security := self.(db_service_security);
      sd_timer_persistent := self.(db_timer_persistent);
      sd_timer_jitter_secs := self.(db_timer_jitter_secs);
      sd_console_path := self.(db_console_path);
      sd_console_precedence := self.(db_console_precedence);
      sd_compiled_in := false;
    |}.

(** ** One value ([apply.rs]) *)

Definition apply_service_field (builder : DefinitionBuilder) (field : Field) (value : RawRegistryValue)
    : Decoded DefinitionBuilder :=
  let b := builder in
  let dword := decode_dword_field value (field_name field) in
  let strings := decode_multi_sz_field value (field_name field) in
  match field with
  | FImagePath => let? v := parse_absolute_path_field value FImagePath in Ok {| b with db_image_path := Some v |}
  | FArguments => let? v := strings in Ok {| b with db_arguments := v |}
  | FType => let? n := dword in let? v := parse_service_type n in Ok {| b with db_service_type := v |}
  | FTriggers =>
      let? entries := strings in let? v := try_map classify_trigger entries in
      Ok {| b with db_triggers := v |}
  | FDisabled => let? n := dword in let? v := parse_bool "Disabled" n in Ok {| b with db_disabled := v |}
  | FSafeMode => let? n := dword in let? v := parse_bool "SafeMode" n in Ok {| b with db_safe_mode := v |}
  | FIdentity =>
      let? parsed := parse_identity_field value FIdentity in
      Ok match parsed with Some v => {| b with db_identity := v |} | None => b end
  | FRequiredPrivileges =>
      let? v := parse_non_empty_list value FRequiredPrivileges in
      Ok {| b with db_required_privileges := v |}
  | FRequires => let? v := parse_service_reference_list value FRequires in Ok {| b with db_requires := v |}
  | FProvides => let? v := parse_role_name_list value FProvides in Ok {| b with db_provides := v |}
  | FWants => let? v := parse_service_reference_list value FWants in Ok {| b with db_wants := v |}
  | FBindsTo => let? v := parse_service_reference_list value FBindsTo in Ok {| b with db_binds_to := v |}
  | FConflicts => let? v := parse_service_reference_list value FConflicts in Ok {| b with db_conflicts := v |}
  | FOnFailure => let? v := parse_service_reference_field value FOnFailure in Ok {| b with db_on_failure := Some v |}
  | FReadiness => let? n := dword in let? v := parse_readiness n in Ok {| b with db_readiness := v |}
  | FNotifyAccess => let? n := dword in let? v := parse_notify_access n in Ok {| b with db_notify_access := v |}
  | FRemainAfterExit =>
      let? n := dword in let? v := parse_bool "RemainAfterExit" n in
      Ok {| b with db_remain_after_exit := v |}
  | FSuccessExitCodes =>
      let? entries := strings in let? v := parse_success_exit_codes entries in
      Ok {| b with db_success_exit_codes := v |}
  | FExecStartPre =>
      let? v := parse_executable_command_list value FExecStartPre in
      Ok {| b with db_exec_start_pre := v |}
  | FExecStartPost =>
      let? v := parse_executable_command_list value FExecStartPost in
      Ok {| b with db_exec_start_post := v |}
  | FHookIdentity => let? v := parse_identity_field value FHookIdentity in Ok {| b with db_hook_identity := v |}
  | FExecReload =>
      let? v := decode_sz_field value "ExecReload" in let? _ := validate_exec_reload v in
      Ok {| b with db_exec_reload := Some v |}
  | FPreStartCheckTimeout => let? v := dword in Ok {| b with db_pre_start_check_timeout_secs := v |}
  | FStartTimeout => let? v := dword in Ok {| b with db_start_timeout_secs := v |}
  | FStopTimeout => let? v := dword in Ok {| b with db_stop_timeout_secs := v |}
  | FWatchdogTimeout => let? v := dword in Ok {| b with db_watchdog_timeout_secs := v |}
  | FHealthCheck =>
      let? v := parse_executable_command_field value FHealthCheck in
      Ok {| b with db_health_check := Some v |}
  | FHealthCheckInterval => let? v := dword in Ok {| b with db_health_check_interval_secs := v |}
  | FHealthCheckTimeout => let? v := dword in Ok {| b with db_health_check_timeout_secs := v |}
  | FHealthCheckRetries => let? v := dword in Ok {| b with db_health_check_retries := v |}
  | FFdStoreMax => let? v := dword in Ok {| b with db_fd_store_max := v |}
  | FEnvironment =>
      let? entries := strings in let? v := parse_environment_variables entries in
      Ok {| b with db_environment := v |}
  | FWorkingDirectory =>
      let? v := parse_absolute_path_field value FWorkingDirectory in
      Ok {| b with db_working_directory := v |}
  | FTtyPath =>
      let? path := decode_sz_field value (field_name FTtyPath) in
      if str_is_empty path then Ok {| b with db_console_path := None |}
      else if starts_with "/" path then Ok {| b with db_console_path := Some path |}
      else Err (InvalidAbsolutePath (field_name FTtyPath) path)
  | FTtyPrecedence => let? v := dword in Ok {| b with db_console_precedence := v |}
  | FRuntimeDirectories =>
      let? v := parse_runtime_directories value FRuntimeDirectories in
      Ok {| b with db_runtime_directories := v |}
  | FLimitNoFile => let? v := dword in Ok {| b with db_limit_nofile := Some v |}
  | FLimitCore => let? v := dword in Ok {| b with db_limit_core := Some v |}
  | FConditions => let? v := parse_service_checks value FConditions in Ok {| b with db_conditions := v |}
  | FAsserts => let? v := parse_service_checks value FAsserts in Ok {| b with db_asserts := v |}
  | FDisplayName => let? v := parse_optional_string value FDisplayName in Ok {| b with db_display_name := v |}
  | FDescription => let? v := parse_optional_string value FDescription in Ok {| b with db_description := v |}
  | FRestartPolicy => let? n := dword in let? v := parse_restart_policy n in Ok {| b with db_restart_policy := v |}
  | FRestartMaxRetries => let? v := dword in Ok {| b with db_restart_max_retries := v |}
  | FRestartWindow => let? v := dword in Ok {| b with db_restart_window_secs := v |}
  | FRestartDelay => let? v := dword in Ok {| b with db_restart_delay_secs := v |}
  | FErrorControl => let? n := dword in let? v := parse_error_control n in Ok {| b with db_error_control := v |}
  | FServiceSecurity =>
      let? bytes := decode_binary_field value "ServiceSecurity" in
      Ok {| b with db_service_security := SdRegistryBinary bytes |}
  | FTimerPersistent =>
      let? n := dword in let? v := parse_timer_persistent n in
      Ok {| b with db_timer_persistent := v |}
  | FTimerJitter => let? v := dword in Ok {| b with db_timer_jitter_secs := v |}
  end.

(** ** All of them ([service.rs]) *)

Fixpoint apply_registry_values (values : list RawRegistryValue) (seen_fields : list Field) (builder : DefinitionBuilder)
    : Decoded DefinitionBuilder :=
  match values with
  | [] => Ok builder
  | value :: values =>
      match field_from_name value.(rv_name) with
      | None => apply_registry_values values seen_fields builder
      | Some field =>
          if bool_decide (field ∈ seen_fields) then Err (DuplicateField (field_name field))
          else
            let? builder := apply_service_field builder field value in
            apply_registry_values values (field :: seen_fields) builder
      end
  end.

Definition build_service_definition_from_registry_values (service_name : string) (values : list RawRegistryValue)
    : Decoded ServiceDefinition :=
  if is_valid_service_name service_name then
    let? builder := apply_registry_values values [] (builder_new service_name) in
    builder_finish builder
  else Err (InvalidServiceName service_name).

Definition build_service_security_from_registry_value (value : RawRegistryValue) : Decoded ServiceSecurityDescriptor :=
  let? bytes := decode_binary_field value "ServiceSecurity" in
  Ok (SdRegistryBinary bytes).

Definition apply_inherited_service_security (definitions : list ServiceDefinition)
    (inherited : option ServiceSecurityDescriptor) : list ServiceDefinition :=
  match inherited with
  | None | Some SdDefault => definitions
  | Some inherited =>
      map (λ definition : ServiceDefinition,
        match definition.(sd_service_security) with
        | SdDefault => {| definition with sd_service_security := inherited |}
        | SdRegistryBinary _ => definition
        end) definitions
  end.
