(* ===== verification/RegistrySpec.v ===== *)
(** * Definitions in the registry: what is accepted, and what it means

    About [RegistryService]: the order of the values of a key does not matter,
    and every definition that is accepted is well formed. *)

From S2P Require Import Prelude RustStr ServiceDef ExecCommand SubmittedDef.
From S2P Require Import Ids Restart Cgroup ServiceRuntime ServiceTable JobRecord JobStore Effects ExecGraph.
From S2P Require Import OperationRecord OperationStore StartState StartBegin ControlRun RegistryValue RegistryService.
From Stdlib Require Import Ascii String.
Open Scope string_scope.
Open Scope list_scope.
Open Scope Z_scope.

(** ** What a field sets *)

Inductive slot_value : Type :=
| SvText (v : string)
| SvOptText (v : option string)
| SvTexts (v : list string)
| SvType (v : ServiceType)
| SvTriggers (v : list ServiceTrigger)
| SvBool (v : bool)
| SvReadiness (v : Readiness)
| SvNotify (v : NotifyAccess)
| SvCodes (v : list Z)
| SvNumber (v : Z)
| SvEnvironment (v : list ServiceEnvironmentVariable)
| SvDirectories (v : list ServiceRuntimeDirectory)
| SvOptNumber (v : option Z)
| SvChecks (v : list ServiceCheck)
| SvPolicy (v : RestartPolicy)
| SvErrorControl (v : ErrorControl)
| SvSecurity (v : ServiceSecurityDescriptor).

Definition slot (field : Field) (b : DefinitionBuilder) : slot_value :=
  match field with
  | FImagePath => SvOptText b.(db_image_path)
  | FArguments => SvTexts b.(db_arguments)
  | FType => SvType b.(db_service_type)
  | FTriggers => SvTriggers b.(db_triggers)
  | FDisabled => SvBool b.(db_disabled)
  | FSafeMode => SvBool b.(db_safe_mode)
  | FIdentity => SvText b.(db_identity)
  | FRequiredPrivileges => SvTexts b.(db_required_privileges)
  | FRequires => SvTexts b.(db_requires)
  | FProvides => SvTexts b.(db_provides)
  | FWants => SvTexts b.(db_wants)
  | FBindsTo => SvTexts b.(db_binds_to)
  | FConflicts => SvTexts b.(db_conflicts)
  | FOnFailure => SvOptText b.(db_on_failure)
  | FReadiness => SvReadiness b.(db_readiness)
  | FNotifyAccess => SvNotify b.(db_notify_access)
  | FRemainAfterExit => SvBool b.(db_remain_after_exit)
  | FSuccessExitCodes => SvCodes b.(db_success_exit_codes)
  | FExecStartPre => SvTexts b.(db_exec_start_pre)
  | FExecStartPost => SvTexts b.(db_exec_start_post)
  | FHookIdentity => SvOptText b.(db_hook_identity)
  | FExecReload => SvOptText b.(db_exec_reload)
  | FPreStartCheckTimeout => SvNumber b.(db_pre_start_check_timeout_secs)
  | FStartTimeout => SvNumber b.(db_start_timeout_secs)
  | FStopTimeout => SvNumber b.(db_stop_timeout_secs)
  | FWatchdogTimeout => SvNumber b.(db_watchdog_timeout_secs)
  | FHealthCheck => SvOptText b.(db_health_check)
  | FHealthCheckInterval => SvNumber b.(db_health_check_interval_secs)
  | FHealthCheckTimeout => SvNumber b.(db_health_check_timeout_secs)
  | FHealthCheckRetries => SvNumber b.(db_health_check_retries)
  | FFdStoreMax => SvNumber b.(db_fd_store_max)
  | FEnvironment => SvEnvironment b.(db_environment)
  | FWorkingDirectory => SvText b.(db_working_directory)
  | FTtyPath => SvOptText b.(db_console_path)
  | FTtyPrecedence => SvNumber b.(db_console_precedence)
  | FRuntimeDirectories => SvDirectories b.(db_runtime_directories)
  | FLimitNoFile => SvOptNumber b.(db_limit_nofile)
  | FLimitCore => SvOptNumber b.(db_limit_core)
  | FConditions => SvChecks b.(db_conditions)
  | FAsserts => SvChecks b.(db_asserts)
  | FDisplayName => SvOptText b.(db_display_name)
  | FDescription => SvOptText b.(db_description)
  | FRestartPolicy => SvPolicy b.(db_restart_policy)
  | FRestartMaxRetries => SvNumber b.(db_restart_max_retries)
  | FRestartWindow => SvNumber b.(db_restart_window_secs)
  | FRestartDelay => SvNumber b.(db_restart_delay_secs)
  | FErrorControl => SvErrorControl b.(db_error_control)
  | FServiceSecurity => SvSecurity b.(db_service_security)
  | FTimerPersistent => SvBool b.(db_timer_persistent)
  | FTimerJitter => SvNumber b.(db_timer_jitter_secs)
  end.

Lemma builders_equal b c : db_name b = db_name c → (∀ field, slot field b = slot field c) → b = c.
Proof.
  intros Hn Hs. destruct b, c; simpl in *; subst.
  pose proof (Hs FImagePath) as [= ->].
  pose proof (Hs FArguments) as [= ->].
  pose proof (Hs FType) as [= ->].
  pose proof (Hs FTriggers) as [= ->].
  pose proof (Hs FDisabled) as [= ->].
  pose proof (Hs FSafeMode) as [= ->].
  pose proof (Hs FIdentity) as [= ->].
  pose proof (Hs FRequiredPrivileges) as [= ->].
  pose proof (Hs FRequires) as [= ->].
  pose proof (Hs FProvides) as [= ->].
  pose proof (Hs FWants) as [= ->].
  pose proof (Hs FBindsTo) as [= ->].
  pose proof (Hs FConflicts) as [= ->].
  pose proof (Hs FOnFailure) as [= ->].
  pose proof (Hs FReadiness) as [= ->].
  pose proof (Hs FNotifyAccess) as [= ->].
  pose proof (Hs FRemainAfterExit) as [= ->].
  pose proof (Hs FSuccessExitCodes) as [= ->].
  pose proof (Hs FExecStartPre) as [= ->].
  pose proof (Hs FExecStartPost) as [= ->].
  pose proof (Hs FHookIdentity) as [= ->].
  pose proof (Hs FExecReload) as [= ->].
  pose proof (Hs FPreStartCheckTimeout) as [= ->].
  pose proof (Hs FStartTimeout) as [= ->].
  pose proof (Hs FStopTimeout) as [= ->].
  pose proof (Hs FWatchdogTimeout) as [= ->].
  pose proof (Hs FHealthCheck) as [= ->].
  pose proof (Hs FHealthCheckInterval) as [= ->].
  pose proof (Hs FHealthCheckTimeout) as [= ->].
  pose proof (Hs FHealthCheckRetries) as [= ->].
  pose proof (Hs FFdStoreMax) as [= ->].
  pose proof (Hs FEnvironment) as [= ->].
  pose proof (Hs FWorkingDirectory) as [= ->].
  pose proof (Hs FTtyPath) as [= ->].
  pose proof (Hs FTtyPrecedence) as [= ->].
  pose proof (Hs FRuntimeDirectories) as [= ->].
  pose proof (Hs FLimitNoFile) as [= ->].
  pose proof (Hs FLimitCore) as [= ->].
  pose proof (Hs FConditions) as [= ->].
  pose proof (Hs FAsserts) as [= ->].
  pose proof (Hs FDisplayName) as [= ->].
  pose proof (Hs FDescription) as [= ->].
  pose proof (Hs FRestartPolicy) as [= ->].
  pose proof (Hs FRestartMaxRetries) as [= ->].
  pose proof (Hs FRestartWindow) as [= ->].
  pose proof (Hs FRestartDelay) as [= ->].
  pose proof (Hs FErrorControl) as [= ->].
  pose proof (Hs FServiceSecurity) as [= ->].
  pose proof (Hs FTimerPersistent) as [= ->].
  pose proof (Hs FTimerJitter) as [= ->].
  reflexivity.
Qed.

(** A field that was applied says what it says, whatever the builder was. *)
Ltac applied :=
  repeat match goal with
  | H : context [match ?x with _ => _ end] |- _ =>
      match type of H with _ = Ok _ => destruct x eqn:?; try discriminate H end
  | H : Ok _ = Ok _ |- _ => injection H as <-
  end.

Lemma apply_others field value b b' :
  apply_service_field b field value = Ok b' →
  db_name b' = db_name b ∧ ∀ other, other ≠ field → slot other b' = slot other b.
Proof.
  intros Ha. destruct field; unfold apply_service_field in Ha; cbv zeta in Ha; applied;
    (split; [reflexivity|]); intros [] Hne; try reflexivity; by destruct Hne.
Qed.

Lemma apply_own field value b b' c :
  apply_service_field b field value = Ok b' → slot field b = slot field c →
  ∃ c', apply_service_field c field value = Ok c' ∧ slot field c' = slot field b'.
Proof.
  intros Ha Hs. destruct field; unfold apply_service_field in *; cbv zeta in *; applied;
    repeat match goal with H : ?x = Ok _ |- context [?x] => rewrite H end; eexists; (split; [reflexivity|]); done.
Qed.

(** ** The order of values *)

Lemma apply_seen values seen seen' b :
  (∀ field, field ∈ seen ↔ field ∈ seen') → apply_registry_values values seen b = apply_registry_values values seen' b.
Proof.
  revert seen seen' b. induction values as [|v values IH]; intros seen seen' b Hs; simpl; [done|].
  destruct (field_from_name (rv_name v)) as [field|]; [|by apply IH].
  rewrite (bool_decide_ext _ _ (Hs field)). destruct (bool_decide _); [done|].
  destruct (apply_service_field b field v) as [b'|]; [|done]. apply IH. intros f. rewrite !elem_of_cons, Hs. done.
Qed.

(** Two values of different fields can be applied in either order. *)
Lemma apply_swap f g x y b b1 b2 :
  f ≠ g → apply_service_field b f x = Ok b1 → apply_service_field b1 g y = Ok b2 →
  ∃ c, apply_service_field b g y = Ok c ∧ apply_service_field c f x = Ok b2.
Proof.
  intros Hne E1 E2. destruct (apply_others _ _ _ _ E1) as [N1 O1]. destruct (apply_others _ _ _ _ E2) as [N2 O2].
  destruct (apply_own g y b1 b2 b E2) as (c1 & F1 & S1); [apply O1; congruence|].
  destruct (apply_others _ _ _ _ F1) as [M1 P1].
  destruct (apply_own f x b b1 c1 E1) as (c2 & F2 & S2); [symmetry; by apply P1|].
  destruct (apply_others _ _ _ _ F2) as [M2 P2]. exists c1. split; [done|]. rewrite F2. f_equal.
  apply builders_equal; [congruence|]. intros h. destruct (decide (h = f)) as [->|Hf].
  - rewrite S2. symmetry. by apply O2.
  - rewrite (P2 h Hf). destruct (decide (h = g)) as [->|Hg]; [by rewrite S1|].
    rewrite (P1 h Hg), (O2 h Hg), (O1 h Hf). done.
Qed.

Lemma apply_permutation values values' seen b b' :
  values ≡ₚ values' → apply_registry_values values seen b = Ok b' → apply_registry_values values' seen b = Ok b'.
Proof.
  intros Hp. revert seen b. induction Hp as [|x l l' _ IH|x y l|l1 l2 l3 _ IH1 _ IH2]; intros seen b; simpl; [done| | |by auto].
  - destruct (field_from_name (rv_name x)); [|by apply IH]. destruct (bool_decide _); [done|].
    destruct (apply_service_field b _ x) as [b1|]; [|done]. apply IH.
  - destruct (field_from_name (rv_name y)) as [g|], (field_from_name (rv_name x)) as [f|]; try done.
    destruct (bool_decide_reflect (g ∈ seen)) as [|Hg]; [done|]. destruct (apply_service_field b g y) as [b1|] eqn:E1; [|done].
    destruct (bool_decide_reflect (f ∈ g :: seen)) as [|Hf]; [done|]. destruct (apply_service_field b1 f x) as [b2|] eqn:E2; [|done].
    destruct (apply_swap g f y x b b1 b2) as (c & F1 & F2); [set_solver|done|done|].
    rewrite bool_decide_eq_false_2 by set_solver. rewrite F1, bool_decide_eq_false_2, F2 by set_solver.
    intros <-. apply apply_seen. set_solver.
Qed.

(** C18: The order in which a key lists its values does not matter: if the values
    are accepted in one order they are accepted in every order, and the
    definition is the same. *)
Theorem value_order_does_not_matter name values values' definition :
  values ≡ₚ values' → build_service_definition_from_registry_values name values = Ok definition →
  build_service_definition_from_registry_values name values' = Ok definition.
Proof.
  intros Hp. unfold build_service_definition_from_registry_values. destruct (is_valid_service_name name); [|done].
  destruct (apply_registry_values values [] _) as [b|] eqn:Eb; [|done].
  by rewrite (apply_permutation _ _ _ _ _ Hp Eb).
Qed.

(** ** What is accepted *)

Definition runs (command : string) : Prop := is_ok (parse_executable_command command) = true.

Definition reloads (exec_reload : string) : Prop :=
  match strip_prefix "signal:" exec_reload with
  | Some signal => signal ∈ ACCEPTED_RELOAD_SIGNALS
  | None => runs exec_reload
  end.

Definition check_ok (check : ServiceCheck) : Prop :=
  check.(chk_argument) ≠ "" ∧ (check.(chk_kind) = CheckRegistry → is_Some (cached_registry_key check.(chk_argument))).

Definition variable_ok (variable : ServiceEnvironmentVariable) : Prop :=
  variable.(env_name) ≠ "" ∧ str_contains_char "=" variable.(env_name) = false.

Definition trigger_ok (trigger : ServiceTrigger) : Prop :=
  match trigger with
  | TriggerTimer schedule => schedule ≠ ""
  | TriggerOther text => text ≠ "" ∧ text ≠ "boot" ∧ text ≠ "tty" ∧ text ≠ "timer" ∧
      strip_prefix "boot:" text = None ∧ strip_prefix "tty:" text = None ∧ strip_prefix "timer:" text = None
  | _ => True
  end.

(** What holds of a builder at any time. *)
Record builder_ok (b : DefinitionBuilder) : Prop := {
  bo_image : ∀ path, b.(db_image_path) = Some path → starts_with "/" path = true;
  bo_directory : starts_with "/" b.(db_working_directory) = true;
  bo_console : ∀ path, b.(db_console_path) = Some path → starts_with "/" path = true;
  bo_triggers : Forall trigger_ok b.(db_triggers);
  bo_requires : Forall (λ s, valid_dependency_reference s = true) b.(db_requires);
  bo_wants : Forall (λ s, valid_dependency_reference s = true) b.(db_wants);
  bo_binds_to : Forall (λ s, valid_dependency_reference s = true) b.(db_binds_to);
  bo_conflicts : Forall (λ s, valid_dependency_reference s = true) b.(db_conflicts);
  bo_provides : Forall (λ s, is_valid_service_name s = true) b.(db_provides);
  bo_on_failure : ∀ s, b.(db_on_failure) = Some s → is_valid_service_name s = true;
  bo_codes : NoDup b.(db_success_exit_codes) ∧ Forall (λ n, 0 ≤ n ≤ 255) b.(db_success_exit_codes);
  bo_pre : Forall runs b.(db_exec_start_pre);
  bo_post : Forall runs b.(db_exec_start_post);
  bo_health : ∀ command, b.(db_health_check) = Some command → runs command;
  bo_reload : ∀ text, b.(db_exec_reload) = Some text → reloads text;
  bo_environment : Forall variable_ok b.(db_environment);
  bo_directories : Forall (λ d, is_valid_runtime_directory_name d.(dir_name) = true) b.(db_runtime_directories);
  bo_conditions : Forall check_ok b.(db_conditions);
  bo_asserts : Forall check_ok b.(db_asserts);
  bo_privileges : Forall (λ s, s ≠ "") b.(db_required_privileges);
  bo_identity : b.(db_identity) ≠ "" ∧ ∀ s, b.(db_hook_identity) = Some s → s ≠ "";
  bo_numbers : Forall is_u32 [b.(db_pre_start_check_timeout_secs); b.(db_start_timeout_secs); b.(db_stop_timeout_secs);
    b.(db_watchdog_timeout_secs); b.(db_health_check_interval_secs); b.(db_health_check_timeout_secs);
    b.(db_health_check_retries); b.(db_fd_store_max); b.(db_console_precedence); b.(db_restart_max_retries);
    b.(db_restart_window_secs); b.(db_restart_delay_secs); b.(db_timer_jitter_secs)];
}.

Lemma try_map_Forall {A B E} (f : A → Result B E) (Q : B → Prop) l l' :
  (∀ a b, f a = Ok b → Q b) → try_map f l = Ok l' → Forall Q l'.
Proof.
  intros Hf. revert l'. induction l as [|a l IH]; intros l'; simpl; [by intros [= <-]|].
  destruct (f a) as [b|] eqn:Ef; [|done]. destruct (try_map f l) as [bs|]; [|done]. intros [= <-].
  constructor; [by eapply Hf|by apply IH].
Qed.

Lemma field_checked_Ok {A} valid error (a b : A) : field_checked valid error a = Ok b → b = a ∧ valid b = true.
Proof. unfold field_checked. destruct (valid a) eqn:Ev; [|done]. by intros [= <-]. Qed.

Lemma checked_list {A} valid error (l l' : list A) :
  try_map (field_checked valid error) l = Ok l' → Forall (λ a, valid a = true) l'.
Proof. apply try_map_Forall. by intros a b [_ ?]%field_checked_Ok. Qed.

Lemma not_empty (s : string) : negb (str_is_empty s) = true → s ≠ "".
Proof. by destruct s. Qed.

Lemma exit_codes_ok values codes out :
  NoDup codes ∧ Forall (λ n, 0 ≤ n ≤ 255) codes → success_exit_codes_loop values codes = Ok out →
  NoDup out ∧ Forall (λ n, 0 ≤ n ≤ 255) out.
Proof.
  revert codes. induction values as [|v values IH]; intros codes Hc; simpl; [by intros [= <-]|].
  destruct (parse_i32 v) as [n|]; [|done]. destruct (_ && _) eqn:Er; [|done].
  apply andb_true_iff in Er as [?%Z.leb_le ?%Z.leb_le]. apply IH. case_bool_decide as Hin; [done|]. destruct Hc as [Hn Hf].
  split; [apply NoDup_app; split_and!; [done|set_solver|apply NoDup_singleton]|].
  apply Forall_app. split; [done|]. by repeat constructor.
Qed.

Lemma command_ok field s : validate_executable_command field s = Ok tt → runs s.
Proof. unfold validate_executable_command, runs. by destruct (parse_executable_command s). Qed.

Lemma commands_ok field l l' :
  try_map (λ entry, let? _ := validate_executable_command field entry in Ok entry) l = Ok l' → Forall runs l'.
Proof.
  apply try_map_Forall. intros a b. destruct (validate_executable_command field a) as [[]|] eqn:Ev; [|done].
  intros [= <-]. by eapply command_ok.
Qed.

Lemma exec_reload_ok s : validate_exec_reload s = Ok tt → reloads s.
Proof.
  unfold validate_exec_reload, reloads, is_accepted_reload_signal. destruct (strip_prefix "signal:" s).
  - by case_bool_decide.
  - apply command_ok.
Qed.

Lemma service_check_ok field s c : parse_service_check field s = Ok c → check_ok c.
Proof.
  unfold parse_service_check, check_ok. destruct (split_once _ s) as [[kind argument]|]; [|done].
  destruct (str_is_empty argument) eqn:Ea; [done|]. assert (argument ≠ "") by (by destruct argument).
  repeat (case_bool_decide; [by intros [= <-]|]).
  case_bool_decide; [|done]. destruct (cached_registry_key argument) eqn:Ek; [|done]. intros [= <-]. simpl. rewrite Ek. eauto.
Qed.

Lemma environment_variable_ok s v : parse_environment_variable s = Ok v → variable_ok v.
Proof.
  unfold parse_environment_variable, variable_ok. destruct (split_once _ s) as [[name value]|] eqn:Es; [|done].
  destruct (str_is_empty name) eqn:En; [done|]. simpl. destruct (str_contains_char NUL name); [done|]. intros [= <-]. simpl.
  apply split_once_Some in Es as [_ Hs]. split; [by destruct name|]. unfold str_contains_char. by rewrite Hs.
Qed.

Lemma dword_ok value field n : decode_dword_field value field = Ok n → is_u32 n.
Proof.
  unfold decode_dword_field. destruct (expect_type _ _ _); [|done]. destruct (le_u32 _) eqn:El; [|done].
  intros [= <-]. by apply le_u32_exact in El as [_ ?].
Qed.

Lemma sub_trigger_Ok value sub table t : sub_trigger value sub table = Ok t → ∃ name, (name, t) ∈ table.
Proof.
  unfold sub_trigger. destruct (find_first _ table) as [[name t']|] eqn:Ef; [|done]. intros [= <-].
  apply find_first_Some in Ef as [Hin _]. eauto.
Qed.

Lemma classified_trigger_ok s t : classify_trigger s = Ok t → trigger_ok t.
Proof.
  unfold classify_trigger. case_bool_decide as Hb; [by intros [= <-]|].
  destruct (strip_prefix "boot:" s) eqn:E1.
  { intros (name & Ht)%sub_trigger_Ok. unfold BOOT_SUB_TRIGGERS in Ht. apply list_elem_of_singleton in Ht. by simplify_eq. }
  case_bool_decide as Ht; [done|]. destruct (strip_prefix "tty:" s) eqn:E2.
  { intros (name & Hi)%sub_trigger_Ok. unfold TTY_SUB_TRIGGERS in Hi. apply list_elem_of_singleton in Hi. by simplify_eq. }
  case_bool_decide as H3; [done|]. case_bool_decide as H4; [done|]. destruct (str_is_empty s) eqn:E5; [done|].
  destruct (_ || _); [done|]. destruct (strip_prefix "timer:" s) as [schedule|] eqn:E6; intros [= <-]; simpl.
  - intros ->. apply strip_prefix_Some in E6. by rewrite str_app_nil_r in E6.
  - split_and!; try done. by destruct s.
Qed.

(** Solves what a field leaves of [builder_ok] with a fact about the field. *)
Ltac field_fact :=
  repeat match goal with
  | H : _ = _ |- _ => progress unfold parse_absolute_path_field, parse_service_reference_field, parse_service_reference_list,
      parse_role_name_list, parse_executable_command_field, parse_executable_command_list, parse_runtime_directories,
      parse_service_checks, parse_non_empty_list, parse_environment_variables, parse_identity_field in H
  end; applied;
  repeat match goal with
  | H : field_checked _ _ _ = Ok _ |- _ => apply field_checked_Ok in H as [? H]; subst
  | H : try_map (field_checked _ _) _ = Ok _ |- _ => apply checked_list in H
  | H : try_map classify_trigger _ = Ok _ |- _ => apply (try_map_Forall _ trigger_ok) in H; [|exact classified_trigger_ok]
  | H : try_map (parse_service_check _) _ = Ok _ |- _ => apply (try_map_Forall _ check_ok) in H; [|exact (service_check_ok _)]
  | H : try_map parse_environment_variable _ = Ok _ |- _ =>
      apply (try_map_Forall _ variable_ok) in H; [|exact environment_variable_ok]
  | H : try_map _ _ = Ok _ |- _ => first [apply commands_ok in H
      | apply (try_map_Forall _ (λ d, is_valid_runtime_directory_name (dir_name d) = true)) in H;
          [|by intros a d; destruct (is_valid_runtime_directory_name a) eqn:?; [intros [= <-]|]]]
  | H : parse_success_exit_codes _ = Ok _ |- _ => apply exit_codes_ok in H; [|by split; constructor]
  | H : validate_executable_command _ _ = Ok ?u |- _ => destruct u; apply command_ok in H
  | H : validate_exec_reload _ = Ok ?u |- _ => destruct u; apply exec_reload_ok in H
  | H : decode_dword_field _ _ = Ok _ |- _ => apply dword_ok in H
  end.

Lemma canonical_identity_nonempty s : s ≠ "" → default s (canonical_well_known_identity s) ≠ "".
Proof. intros Hs. unfold canonical_well_known_identity. repeat case_match; done. Qed.

Lemma nonempty_of s : str_is_empty s = false → s ≠ "".
Proof. by destruct s. Qed.

Lemma apply_builder_ok field value b b' : apply_service_field b field value = Ok b' → builder_ok b → builder_ok b'.
Proof.
  intros Ha Hb. destruct field; unfold apply_service_field in Ha; cbv zeta in Ha; applied; field_fact; try exact Hb;
    destruct Hb as [? ? ? ? ? ? ? ? ? ? ? ? ? ? ? ? ? ? ? ? [? ?] Hn]; try (split; simpl; [try done..]); try (intros ? [= <-]; done);
    try (rewrite !Forall_cons in Hn |- *; tauto).
  - simplify_eq. split; [|done]. by apply canonical_identity_nonempty, nonempty_of.
  - eapply Forall_impl; [done|]. apply not_empty.
  - split; [done|]. intros ? [= <-]. by apply canonical_identity_nonempty, nonempty_of.
Qed.

Lemma builder_new_ok name : builder_ok (builder_new name).
Proof. split; simpl; try done; try (by constructor); [split; constructor|]. repeat constructor; vm_compute; done. Qed.

Lemma apply_values_ok values seen b b' :
  apply_registry_values values seen b = Ok b' → builder_ok b → builder_ok b' ∧ db_name b' = db_name b.
Proof.
  revert seen b. induction values as [|v values IH]; intros seen b; simpl; [by intros [= <-]|].
  destruct (field_from_name (rv_name v)) as [field|]; [|apply IH]. destruct (bool_decide _); [done|].
  destruct (apply_service_field b field v) as [b1|] eqn:E1; [|done]. intros E2 Hb.
  destruct (IH _ _ E2) as [Hb' ->]; [by eapply apply_builder_ok|]. split; [done|]. by eapply apply_others.
Qed.

(** A definition that was accepted. *)
Record definition_ok (d : ServiceDefinition) : Prop := {
  do_name : is_valid_service_name d.(sd_name) = true;
  do_paths : starts_with "/" d.(sd_image_path) = true ∧ starts_with "/" d.(sd_working_directory) = true;
  do_console : ∀ path, d.(sd_console_path) = Some path → starts_with "/" path = true;
  do_terminal : d.(sd_console_path) = None → TriggerTtyReleased ∉ d.(sd_triggers) ∧ d.(sd_console_precedence) = 0;
  do_triggers : Forall trigger_ok d.(sd_triggers);
  do_references : Forall (λ s, valid_dependency_reference s = true)
    (d.(sd_requires) ++ d.(sd_wants) ++ d.(sd_binds_to) ++ d.(sd_conflicts));
  do_roles : Forall (λ s, is_valid_service_name s = true) (d.(sd_provides) ++ option_list d.(sd_on_failure));
  do_codes : NoDup d.(sd_success_exit_codes) ∧ Forall (λ n, 0 ≤ n ≤ 255) d.(sd_success_exit_codes);
  do_commands : Forall runs (d.(sd_exec_start_pre) ++ d.(sd_exec_start_post) ++ option_list d.(sd_health_check));
  do_reload : Forall reloads (option_list d.(sd_exec_reload));
  do_environment : Forall variable_ok d.(sd_environment);
  do_directories : Forall (λ e, is_valid_runtime_directory_name e.(dir_name) = true) d.(sd_runtime_directories);
  do_checks : Forall check_ok (d.(sd_conditions) ++ d.(sd_asserts));
  do_identity : d.(sd_identity) ≠ "" ∧ Forall (λ s, s ≠ "") (option_list d.(sd_hook_identity) ++ d.(sd_required_privileges));
  do_safe_mode : d.(sd_error_control) = EcCritical → d.(sd_safe_mode) = true;
  do_compiled_in : d.(sd_compiled_in) = false;
  do_numbers : Forall is_u32 [d.(sd_pre_start_check_timeout_secs); d.(sd_start_timeout_secs); d.(sd_stop_timeout_secs);
    d.(sd_watchdog_timeout_secs); d.(sd_health_check_interval_secs); d.(sd_health_check_timeout_secs);
    d.(sd_health_check_retries); d.(sd_fd_store_max); d.(sd_console_precedence); d.(sd_restart_max_retries);
    d.(sd_restart_window_secs); d.(sd_restart_delay_secs); d.(sd_timer_jitter_secs)];
}.

Lemma Forall_option {A} (Q : A → Prop) (o : option A) : (∀ a, o = Some a → Q a) → Forall Q (option_list o).
Proof. intros Ho. destruct o as [a|]; simpl; [constructor; [by apply Ho|constructor]|constructor]. Qed.

Lemma finish_ok b d :
  builder_finish b = Ok d → builder_ok b → is_valid_service_name b.(db_name) = true → definition_ok d.
Proof.
  unfold builder_finish. intros Hf Hb Hname. destruct Hb as [Hi ? ? ? ? ? ? ? ? ? [? ?] ? ? ? ? ? ? ? ? ? [? ?] ?].
  destruct (bool_decide_reflect (db_console_path b = None)) as [Hc|Hc]; simpl in Hf.
  - destruct (bool_decide_reflect (TriggerTtyReleased ∈ db_triggers b)) as [|Ht]; [done|]. simpl in Hf.
    destruct (Z.eqb_spec (db_console_precedence b) 0) as [Hp|]; [|done]. simpl in Hf.
    destruct (db_image_path b) as [path|] eqn:Ei; [|done]. injection Hf as <-.
    split; simpl; rewrite ?Forall_app; split_and?; auto using Forall_option; try done. intros ->. by rewrite bool_decide_eq_true_2.
  - destruct (db_image_path b) as [path|] eqn:Ei; [|done]. injection Hf as <-.
    split; simpl; rewrite ?Forall_app; split_and?; auto using Forall_option; try done. intros ->. by rewrite bool_decide_eq_true_2.
Qed.

Lemma build_definition_ok name values d :
  build_service_definition_from_registry_values name values = Ok d → definition_ok d ∧ d.(sd_name) = name.
Proof.
  unfold build_service_definition_from_registry_values. destruct (is_valid_service_name name) eqn:En; [|done].
  destruct (apply_registry_values values [] _) as [b|] eqn:Eb; [|done]. intros Hf.
  destruct (apply_values_ok _ _ _ _ Eb (builder_new_ok name)) as [Hb Hn]. simpl in Hn. split.
  - apply (finish_ok b); [done..|]. by rewrite Hn.
  - revert Hf. unfold builder_finish. repeat (destruct (_ && _); [done|]). destruct (db_image_path b); [|done].
    intros [= <-]. exact Hn.
Qed.

(** C10: Every definition that is accepted from the registry is well formed: the
    name, every reference, role, path, directory, check, variable, trigger and
    exit code is of its form, every command and every reload can be read, what
    concerns a terminal comes with one, a critical service is part of safe mode,
    no definition claims to be compiled in, and numbers keep their width. *)
Theorem accepted_definitions_wf name values d :
  build_service_definition_from_registry_values name values = Ok d → definition_ok d ∧ d.(sd_name) = name.
Proof. apply build_definition_ok. Qed.

(** C23: A definition that was accepted can be carried out: whatever it says of a
    reload gives a signal or a command, and every command it names, for hooks and
    for health checks, is a program with its arguments; none of them is refused
    when its time comes. *)
Theorem accepted_definitions_run {BoundaryError : Type} name values d service :
  build_service_definition_from_registry_values name values = Ok d →
  is_ok (reload_action (BoundaryError := BoundaryError) service d) = true ∧
  Forall (λ command, ∃ argv, parse_executable_command command = Ok argv ∧ argv ≠ [])
    (d.(sd_exec_start_pre) ++ d.(sd_exec_start_post) ++ option_list d.(sd_health_check)).
Proof.
  intros [Hd _]%build_definition_ok. split.
  - pose proof (do_reload d Hd) as Hr. unfold reload_action. destruct (sd_exec_reload d) as [text|]; [|done].
    simpl in Hr. apply Forall_cons in Hr as [Hr _]. unfold reloads, runs in Hr. destruct (strip_prefix "signal:" text) as [signal|].
    + unfold canonical_reload_signal. case_bool_decide as Hs; [done|]. rewrite bool_decide_eq_true_2; [done|].
      unfold ACCEPTED_RELOAD_SIGNALS in Hr. apply elem_of_cons in Hr as [?|Hr]; done.
    + by destruct (parse_executable_command text).
  - eapply Forall_impl; [apply (do_commands d Hd)|]. intros command Hr. unfold runs in Hr.
    destruct (parse_executable_command command) as [argv|] eqn:Ep; [|done]. exists argv. split; [done|].
    intros ->. revert Ep. unfold parse_executable_command. repeat (case_match; try done).
Qed.

(** ** A definition *)

Definition value_of (field : Field) (data : string) : RawRegistryValue :=
  {| rv_name := field_name field; rv_value_type := field_value_type (field_info_of field).(fi_kind); rv_data := data |}.

Definition sshd_values : list RawRegistryValue :=
  [ value_of FImagePath (sz "/usr/sbin/sshd"); value_of FRequires (multi_sz ["lpsd"; "netd:routed"]);
    value_of FTriggers (multi_sz ["boot"; "timer:daily"]); value_of FErrorControl (le_bytes 1);
    value_of FSuccessExitCodes (multi_sz ["0"; "3"; "+3"]); value_of FExecReload (sz "signal:SIGHUP");
    {| rv_name := "identity"; rv_value_type := RegSz; rv_data := sz "system" |};
    {| rv_name := "LastTimerRun"; rv_value_type := RegOther 11; rv_data := "12345678" |} ].

Definition sshd_definition : option ServiceDefinition :=
  match build_service_definition_from_registry_values "sshd" sshd_values with Ok d => Some d | Err _ => None end.

(** Names of fields are read in any case, identities are made canonical, exit
    codes are kept once, and values that are no fields are left alone. *)
Example sshd_is_accepted :
  (λ d, (d.(sd_identity), d.(sd_success_exit_codes), d.(sd_safe_mode), d.(sd_triggers))) <$> sshd_definition =
  Some ("SYSTEM", [0; 3], true, [TriggerBoot; TriggerTimer "daily"]).
Proof. vm_compute. reflexivity. Qed.

Lemma value_order_does_not_matter_witness :
  ∃ d, build_service_definition_from_registry_values "sshd" sshd_values = Ok d ∧
       build_service_definition_from_registry_values "sshd" (rev sshd_values) = Ok d.
Proof.
  destruct (build_service_definition_from_registry_values "sshd" sshd_values) as [d|e] eqn:Eb; [|by vm_compute in Eb].
  exists d. split; [reflexivity|]. apply (value_order_does_not_matter "sshd" sshd_values (rev sshd_values) d).
  - exact (Permutation_rev sshd_values).
  - exact Eb.
Defined.

Lemma accepted_definitions_wf_witness :
  ∃ d, build_service_definition_from_registry_values "sshd" sshd_values = Ok d ∧ definition_ok d ∧ d.(sd_name) = "sshd".
Proof.
  destruct (build_service_definition_from_registry_values "sshd" sshd_values) as [d|e] eqn:Eb; [|by vm_compute in Eb].
  exists d. split; [reflexivity|]. exact (accepted_definitions_wf "sshd" sshd_values d Eb).
Defined.

(** The reload that the table of fields gives as the default cannot be written
    down: as a value it is refused. *)
Lemma documented_reload_default_refused :
  (field_info_of FExecReload).(fi_default) = Some "signal:HUP" ∧
  validate_exec_reload "signal:HUP" = Err (InvalidReloadSignal "signal:HUP") ∧
  validate_exec_reload "signal:SIGHUP" = Ok tt.
Proof. vm_compute. auto. Qed.

Lemma accepted_definitions_run_witness :
  ∃ d, build_service_definition_from_registry_values "sshd" sshd_values = Ok d ∧
       is_ok (reload_action (BoundaryError := string) "sshd" d) = true.
Proof.
  destruct (build_service_definition_from_registry_values "sshd" sshd_values) as [d|e] eqn:Eb; [|by vm_compute in Eb].
  exists d. split; [reflexivity|]. exact (proj1 (accepted_definitions_run "sshd" sshd_values d "sshd" Eb)).
Defined.
