(* ===== verification/RegistryConfig.v ===== *)
(** * Settings, provisioned paths, and edits of a definition

    Models the settings of [src/src/registry/config.rs] that are read from the
    values of a key, the decoding of provisioned paths
    ([registry/provisioning.rs]), the assembly of the definitions that were read
    ([registry/lcs/service.rs]), and the edits a client makes to the values of a
    definition ([client/definition.rs]). The statement of a value as text is left
    out. *)

From S2P Require Import Prelude RustStr ServiceRuntime ServiceDef ExecCommand SubmittedDef Calendar ServiceTable.
From S2P Require Import ServiceReload OperationRecord OperationStore StartState StartBegin RegistryValue.
From S2P Require Import RegistryService BootRun.
From Stdlib Require Import Ascii String.
Open Scope string_scope.
Open Scope list_scope.
Open Scope Z_scope.

(** ** Settings ([config.rs]) *)

Definition value_named (field : string) (values : list RawRegistryValue) : option RawRegistryValue :=
  find_first (λ value, bool_decide (value.(rv_name) = field)) values.

Definition optional_init_dword (values : list RawRegistryValue) (field : string) : Decoded (option Z) :=
  match value_named field values with
  | None => Ok None
  | Some value => let? n := decode_dword_field value field in Ok (Some n)
  end.

Definition build_max_parallel_starts (values : list RawRegistryValue) : Decoded (option Z) :=
  optional_init_dword values "MaxParallelStarts".
Definition build_boot_success_grace (values : list RawRegistryValue) : Decoded (option Z) :=
  optional_init_dword values "BootSuccessGrace".
Definition build_shutdown_timeout (values : list RawRegistryValue) : Decoded (option Z) :=
  optional_init_dword values "ShutdownTimeout".
Definition build_post_kill_timeout (values : list RawRegistryValue) : Decoded (option Z) :=
  optional_init_dword values "PostKillTimeout".
Definition build_settle_timeout (values : list RawRegistryValue) : Decoded (option Z) :=
  optional_init_dword values "SettleTimeout".
Definition build_log_read_bytes_per_event (values : list RawRegistryValue) : Decoded (option Z) :=
  optional_init_dword values "LogReadBytesPerEvent".
Definition build_pre_eventd_buffer (values : list RawRegistryValue) : Decoded (option Z) :=
  optional_init_dword values "PreEventdBuffer".
Definition build_max_log_line_length (values : list RawRegistryValue) : Decoded (option Z) :=
  optional_init_dword values "MaxLogLineLength".
Definition build_max_log_buffer_per_service (values : list RawRegistryValue) : Decoded (option Z) :=
  optional_init_dword values "MaxLogBufferPerService".

Definition build_global_environment (values : list RawRegistryValue) : Decoded (list ServiceEnvironmentVariable) :=
  try_map (λ value,
    let? decoded := decode_sz_field value "EnvVars" in
    if str_is_empty value.(rv_name) || str_contains_char "=" value.(rv_name)
    then Err (InvalidEnvironmentVariable (value.(rv_name) +:+ "=" +:+ decoded))
    else Ok {| env_name := value.(rv_name); env_value := decoded |}) values.

Definition build_eventd_log_socket_path (values : list RawRegistryValue) : option string :=
  value ← value_named "LogSocketPath" values;
  match decode_sz_field value "LogSocketPath" with
  | Ok path => if str_is_empty path then None else Some path
  | Err _ => None
  end.

Definition build_control_security (values : list RawRegistryValue) : Decoded ControlSecurityDescriptor :=
  match value_named "ControlSecurity" values with
  | None => Ok CsdDefault
  | Some value => let? bytes := decode_binary_field value "ControlSecurity" in Ok (CsdRegistryBinary bytes)
  end.

Definition control_socket_limits_default : ControlSocketLimits := {|
  csl_max_connections := 256; csl_max_connections_per_user := 16; csl_max_request_bytes := 65536;
  csl_connection_timeout_secs := 30 |}.

Definition build_control_socket_limits (values : list RawRegistryValue) : Decoded ControlSocketLimits :=
  let defaults := control_socket_limits_default in
  let? connections := optional_init_dword values "MaxControlConnections" in
  let? per_user := optional_init_dword values "MaxControlConnectionsPerUser" in
  let? request := optional_init_dword values "MaxRequestSize" in
  let? timeout := optional_init_dword values "ConnectionTimeout" in
  Ok {| csl_max_connections := default defaults.(csl_max_connections) connections;
        csl_max_connections_per_user := default defaults.(csl_max_connections_per_user) per_user;
        csl_max_request_bytes := default defaults.(csl_max_request_bytes) request;
        csl_connection_timeout_secs := default defaults.(csl_connection_timeout_secs) timeout |}.

Definition jobs_socket_limits_default : JobsSocketLimits := {|
  jsl_max_connections := 64; jsl_max_message_bytes := 32768; jsl_connection_timeout_secs := 30;
  jsl_max_jobs_per_submitter := 64 |}.

Definition build_jobs_socket_limits (values : list RawRegistryValue) : Decoded JobsSocketLimits :=
  let defaults := jobs_socket_limits_default in
  let? connections := optional_init_dword values "MaxJobsConnections" in
  let? message := optional_init_dword values "MaxJobMessageSize" in
  let? timeout := optional_init_dword values "JobsConnectionTimeout" in
  let? jobs := optional_init_dword values "MaxJobsPerSubmitter" in
  Ok {| jsl_max_connections := default defaults.(jsl_max_connections) connections;
        jsl_max_message_bytes := default defaults.(jsl_max_message_bytes) message;
        jsl_connection_timeout_secs := default defaults.(jsl_connection_timeout_secs) timeout;
        jsl_max_jobs_per_submitter := default defaults.(jsl_max_jobs_per_submitter) jobs |}.

(** ** Provisioned paths ([provisioning.rs]) *)

Inductive ProvisionedPathKind : Type := PathDirectory | PathFile.
Inductive ProvisionedPathSecurity : Type := PathDefault | PathRegistryBinary (bytes : string).

Record ProvisionedPath : Type := {
  pp_name : string;
  pp_kind : ProvisionedPathKind;
  pp_path : string;
  pp_security : ProvisionedPathSecurity;
  pp_required : bool;
}.

Inductive ProvisionedPathField : Type := PfKind | PfPath | PfSecurity | PfRequired.

#[export] Instance ProvisionedPathField_eq_dec : EqDecision ProvisionedPathField.
Proof. solve_decision. Defined.

Definition path_field_name (self : ProvisionedPathField) : string :=
  match self with PfKind => "Kind" | PfPath => "Path" | PfSecurity => "Security" | PfRequired => "Required" end.

Definition path_field_from_name (name : string) : option ProvisionedPathField :=
  find_first (λ field, eq_ignore_ascii_case name (path_field_name field)) [PfKind; PfPath; PfSecurity; PfRequired].

Record ProvisionedPathBuilder : Type := {
  pb_name : string;
  pb_kind : option ProvisionedPathKind;
  pb_path : option string;
  pb_security : ProvisionedPathSecurity;
  pb_required : bool;
}.

Definition path_builder_new (name : string) : ProvisionedPathBuilder :=
  {| pb_name := name; pb_kind := None; pb_path := None; pb_security := PathDefault; pb_required := false |}.

Definition parse_path_kind (entry value : string) : Decoded ProvisionedPathKind :=
  if bool_decide (value = "directory") then Ok PathDirectory
  else if bool_decide (value = "file") then Ok PathFile
  else Err (InvalidProvisionedPathKind entry value).

Definition path_builder_apply (self : ProvisionedPathBuilder) (field : ProvisionedPathField) (value : RawRegistryValue)
    : Decoded ProvisionedPathBuilder :=
  match field with
  | PfKind =>
      let? text := decode_sz_field value "Kind" in
      let? kind := parse_path_kind self.(pb_name) text in
      Ok {| self with pb_kind := Some kind |}
  | PfPath =>
      let? path := decode_sz_field value "Path" in
      if starts_with "/" path then Ok {| self with pb_path := Some path |}
      else Err (InvalidAbsolutePath "Path" path)
  | PfSecurity =>
      let? bytes := decode_binary_field value "Security" in
      Ok {| self with pb_security := PathRegistryBinary bytes |}
  | PfRequired =>
      let? n := decode_dword_field value "Required" in
      let? required := parse_bool "Required" n in
      Ok {| self with pb_required := required |}
  end.

Definition path_builder_finish (self : ProvisionedPathBuilder) : Decoded ProvisionedPath :=
  let? kind := ok_or self.(pb_kind) (MissingProvisionedPathField self.(pb_name) "Kind") in
  let? path := ok_or self.(pb_path) (MissingProvisionedPathField self.(pb_name) "Path") in
  Ok {| pp_name := self.(pb_name); pp_kind := kind; pp_path := path; pp_security := self.(pb_security);
        pp_required := self.(pb_required) |}.

Fixpoint apply_path_values (values : list RawRegistryValue) (seen : list ProvisionedPathField)
    (builder : ProvisionedPathBuilder) : Decoded ProvisionedPathBuilder :=
  match values with
  | [] => Ok builder
  | value :: values =>
      match path_field_from_name value.(rv_name) with
      | None => apply_path_values values seen builder
      | Some field =>
          if bool_decide (field ∈ seen) then Err (DuplicateField (path_field_name field))
          else
            let? builder := path_builder_apply builder field value in
            apply_path_values values (field :: seen) builder
      end
  end.

Definition build_provisioned_path_from_registry_values (name : string) (values : list RawRegistryValue)
    : Decoded ProvisionedPath :=
  if is_valid_service_name name then
    let? builder := apply_path_values values [] (path_builder_new name) in
    path_builder_finish builder
  else Err (InvalidProvisionedPathName name).

(** The entries, and those that are skipped with the error of each. *)
Definition build_provisioned_path_registry_snapshot (raw_entries : list (string * list RawRegistryValue))
    : list ProvisionedPath * list (string * ServiceRegistryDecodeError) :=
  foldl (λ '(entries, warnings) '(name, values),
    match build_provisioned_path_from_registry_values name values with
    | Ok entry => (entries ++ [entry], warnings)
    | Err error => (entries, warnings ++ [(name, error)])
    end) ([], []) raw_entries.

(** ** The definitions that were read ([lcs/service.rs])

    The keys are read by the registry's library: [read name] is the values of a
    key, or the text of the error; [console] is the system console, which the
    kernel names; [debug] is the text of a decoding error. *)

Definition unique_sorted_service_names (names : list string) : list string := btree_elements (list_to_set names).

Section Read.
Context (read : string → Result (list RawRegistryValue) string) (console : Result string string).
Context (debug : ServiceRegistryDecodeError → string).

Definition undecodable_definition (name : string) (field : option string) (message : string) : UndecodableService :=
  {| un_name := name; un_field := field; un_message := message |}.

Definition read_service_definition (name : string) : Result ServiceDefinition UndecodableService :=
  match read name with
  | Err message => Err (undecodable_definition name None message)
  | Ok values =>
      match build_service_definition_from_registry_values name values with
      | Err error => Err (undecodable_definition name (decode_error_field error) (debug error))
      | Ok definition =>
          if bool_decide (definition.(sd_console_path) = Some "/dev/console") then
            match console with
            | Ok path => Ok {| definition with sd_console_path := Some path |}
            | Err message => Err (undecodable_definition name (Some "TTYPath") message)
            end
          else if bool_decide (definition.(sd_console_path) = Some "/dev/tty0") then
            Ok {| definition with sd_console_path := Some "/dev/tty1" |}
          else Ok definition
      end
  end.

Definition read_service_definitions (names : list string) (inherited_security : option ServiceSecurityDescriptor)
    : ServiceDefinitionsRead :=
  let '(definitions, undecodable) :=
    foldl (λ '(definitions, undecodable) name,
      match read_service_definition name with
      | Ok definition => (definitions ++ [definition], undecodable)
      | Err entry => (definitions, undecodable ++ [entry])
      end) ([], []) (unique_sorted_service_names names) in
  {| sdr_definitions := apply_inherited_service_security definitions inherited_security;
     sdr_undecodable := undecodable; sdr_inherited_service_security := inherited_security |}.
End Read.

(** ** Edits ([client/definition.rs]) *)

Record ServiceKey : Type := {
  de_name : string;
  de_values : list RawRegistryValue;
}.

Inductive Change : Type :=
| ChangeSet (value : RawRegistryValue)
| ChangeUnset (name : string).

Inductive EditError : Type :=
| NotAField (field : string)
| NotANumber (field : string)
| NotYesNo (field : string)
| NotAChoice (field : string) (names : list string)
| NotText (field : string)
| NotAList (field : string).

Definition de_get (self : ServiceKey) (field : string) : option RawRegistryValue :=
  find_first (λ value, eq_ignore_ascii_case value.(rv_name) field) self.(de_values).

Definition de_unset (self : ServiceKey) (field : string) : ServiceKey :=
  {| self with de_values := retain (λ value, negb (eq_ignore_ascii_case value.(rv_name) field)) self.(de_values) |}.

(** The first value of the name, changed in place, or a new one at the end. *)
Fixpoint put_value (info : FieldInfo) (data : string) (values : list RawRegistryValue) : list RawRegistryValue :=
  match values with
  | [] => [{| rv_name := info.(fi_name); rv_value_type := field_value_type info.(fi_kind); rv_data := data |}]
  | value :: values =>
      if eq_ignore_ascii_case value.(rv_name) info.(fi_name)
      then {| value with rv_value_type := field_value_type info.(fi_kind); rv_data := data |} :: values
      else value :: put_value info data values
  end.

Definition de_put (self : ServiceKey) (info : FieldInfo) (data : string) : ServiceKey :=
  {| self with de_values := put_value info data self.(de_values) |}.

(** [str::parse::<u32>]. *)
Definition parse_u32 (s : string) : option Z :=
  n ← parse_u64 s; if n <=? u32_max then Some n else None.

Definition choice_number (names : list (Z * string)) (text : string) : option Z :=
  match find_first (λ '(_, name), eq_ignore_ascii_case name text) names with
  | Some (number, _) => Some number
  | None =>
      number ← parse_u32 text;
      if existsb (λ '(value, _), value =? number) names then Some number else None
  end.

Definition list_items (text : string) : list string :=
  retain (λ line, negb (str_is_empty line)) (map trim (lines text)).

Definition field_data (info : FieldInfo) (text : string) : Result string EditError :=
  match info.(fi_kind) with
  | KText => Ok (sz (trim text))
  | KList => Ok (multi_sz (list_items text))
  | KNumber _ => match parse_u32 (trim text) with Some n => Ok (le_bytes n) | None => Err (NotANumber info.(fi_name)) end
  | KYesNo =>
      let word := to_ascii_lowercase (trim text) in
      if bool_decide (word ∈ ["yes"; "1"; "true"; "on"]) then Ok (le_bytes 1)
      else if bool_decide (word ∈ ["no"; "0"; "false"; "off"]) then Ok (le_bytes 0)
      else Err (NotYesNo info.(fi_name))
  | KChoice names =>
      match choice_number names (trim text) with
      | Some number => Ok (le_bytes number)
      | None => Err (NotAChoice info.(fi_name) (map snd names))
      end
  | KBinary => Err (NotText info.(fi_name))
  end.

Definition de_set (self : ServiceKey) (field text : string) : Result ServiceKey EditError :=
  match service_field field with
  | None => Err (NotAField field)
  | Some info =>
      if str_is_empty (trim text) then Ok (de_unset self info.(fi_name))
      else let? data := field_data info text in Ok (de_put self info data)
  end.

Definition de_set_list (self : ServiceKey) (field : string) (items : list string) : Result ServiceKey EditError :=
  match service_field field with
  | None => Err (NotAList field)
  | Some info =>
      if bool_decide (info.(fi_kind) = KList) then Ok (de_put self info (multi_sz items)) else Err (NotAList field)
  end.

Definition de_others (self : ServiceKey) : list RawRegistryValue :=
  retain (λ value, bool_decide (service_field value.(rv_name) = None)) self.(de_values).

(** The texts of [Definition::set]'s errors. *)
Definition edit_error_text (error : EditError) : string :=
  match error with
  | NotAField field => field +:+ " is not a field of a service definition."
  | NotANumber field => field +:+ " is a whole number, from 0 to " +:+ u64_to_string u32_max +:+ "."
  | NotYesNo field => field +:+ " is yes or no."
  | NotAChoice field names => field +:+ " is one of " +:+ str_join ", " names +:+ "."
  | NotText field => field +:+ " is not set from text."
  | NotAList field => field +:+ " is not a list."
  end.

(** *** What is wrong with it *)

Record Problem : Type := {
  pb_field : option string;
  pb_message : string;
}.

Definition type_words (value_type : RegistryValueType) : string :=
  match value_type with
  | RegSz => "text (REG_SZ)"
  | RegMultiSz => "a list (REG_MULTI_SZ)"
  | RegDword => "a number (REG_DWORD)"
  | RegBinary => "bytes (REG_BINARY)"
  | RegOther other => "registry type " +:+ u64_to_string other
  end.

Definition in_quotes (value : string) : string := "“" +:+ value +:+ "”".

Definition words_for (field : string) : string :=
  match fi_kind <$> service_field field with
  | Some KYesNo => " It is yes or no."
  | Some (KChoice names) => " It is one of " +:+ str_join ", " (map snd names) +:+ "."
  | _ => ""
  end.

Definition command_problem (field value : string) (source : ExecutableCommandParseError) : string :=
  match source with
  | CommandEmpty => field +:+ " has a command with nothing in it."
  | UnclosedDoubleQuote => in_quotes value +:+ " has a double quote that is not closed."
  | RelativeExecutable executable =>
      "The program in " +:+ in_quotes value +:+ " is a path from the root, beginning with /, which " +:+
      in_quotes executable +:+ " is not."
  end.

Definition problem (error : ServiceRegistryDecodeError) : Problem :=
  let about field message : Problem := {| pb_field := Some field; pb_message := message |} in
  match error with
  | InvalidServiceName service => about "name" (in_quotes service +:+
      " is not a service name: a name is 1 to 128 letters, digits, dots, dashes and underscores.")
  | MissingImagePath => about "ImagePath" "It needs a program to run: ImagePath is not set."
  | DuplicateField field => about field (field +:+ " is set twice, under names that differ only in case.")
  | TypeMismatch field expected actual =>
      about field (field +:+ " is " +:+ type_words expected +:+ ", but holds " +:+ type_words actual +:+ ".")
  | MalformedString field _ => about field (field +:+ " is not text the service manager can read.")
  | MalformedMultiString field _ => about field (field +:+ " is not a list the service manager can read.")
  | MalformedDword field _ => about field (field +:+ " is not a 32-bit number.")
  | UnknownDword field value =>
      about field (u64_to_string value +:+ " is not something " +:+ field +:+ " can be." +:+ words_for field)
  | InvalidSuccessExitCode value => about "SuccessExitCodes" (in_quotes value +:+
      " is not an exit code: each is a number from 0 to 255.")
  | InvalidEnvironmentVariable value => about "Environment" (in_quotes value +:+ " is not a variable: each is NAME=value.")
  | InvalidListEntry field value => about field (in_quotes value +:+ " cannot be one of " +:+ field +:+ ".")
  | InvalidServiceReference field value => about field (in_quotes value +:+
      " is not a service: each is a service's name, with a readiness level after a colon if it has one (netd:routed).")
  | InvalidTrigger value => about "Triggers" (in_quotes value +:+
      " is not a trigger: boot, boot:settled, tty:released and timer: followed by a schedule are.")
  | InvalidAbsolutePath field value =>
      about field (field +:+ " is a path from the root, beginning with /, which " +:+ in_quotes value +:+ " is not.")
  | InvalidRuntimeDirectory field value => about field (in_quotes value +:+ " is not a directory name to make under /run.")
  | InvalidExecutableCommand field value source => about field (command_problem field value source)
  | InvalidReloadSignal value => about "ExecReload" (in_quotes value +:+
      " is not a signal: signal: is followed by a signal's name, as in signal:HUP.")
  | InvalidCheck field value => about field (in_quotes value +:+ " is not a check " +:+ field +:+ " can make.")
  | NonCachedRegistryCheck field key => about field (field +:+ " checks " +:+ key +:+
      ", a registry key the service manager does not keep and so cannot check.")
  | FieldRequiresTtyPath field => about field (field +:+ " means something only with a terminal, and TTYPath is not set.")
  | InvalidProvisionedPathName _ | MissingProvisionedPathField _ _ | InvalidProvisionedPathKind _ _ =>
      {| pb_field := None; pb_message := "It is not a service definition." |}
  end.

(** Whether the decoder would take it, and every schedule. *)
Definition schedule_problem `{CalendarSyntax} (trigger : ServiceTrigger) : option Problem :=
  match trigger with
  | TriggerTimer schedule =>
      error ← schedule_error schedule;
      Some {| pb_field := Some "Triggers";
              pb_message := "“timer:" +:+ schedule +:+ "” is not a schedule: " +:+ error +:+ "." |}
  | _ => None
  end.

Definition de_check `{CalendarSyntax} (self : ServiceKey) : Result unit Problem :=
  match build_service_definition_from_registry_values self.(de_name) self.(de_values) with
  | Err error => Err (problem error)
  | Ok decoded =>
      match find_map schedule_problem decoded.(sd_triggers) with
      | Some problem => Err problem
      | None => Ok tt
      end
  end.

Definition changes (from to : ServiceKey) : list Change :=
  map ChangeSet (retain (λ value, negb (bool_decide (de_get from value.(rv_name) = Some value))) to.(de_values)) ++
  map (λ value, ChangeUnset value.(rv_name))
    (retain (λ value, bool_decide (de_get to value.(rv_name) = None)) from.(de_values)).

(** * Edits of a definition reach it

    About [RegistryConfig]: the changes written turn one definition into the
    other and touch nothing else, and what a person states is what the decoder
    reads back. *)

(** ** Names without their case *)

Lemma same_name a b : eq_ignore_ascii_case a b = true ↔ to_ascii_lowercase a = to_ascii_lowercase b.
Proof. unfold eq_ignore_ascii_case. by rewrite bool_decide_eq_true. Qed.

(** A key holds one value of a name, whatever its case. *)
Definition names_distinct (d : ServiceKey) : Prop := NoDup (map (λ value, to_ascii_lowercase value.(rv_name)) d.(de_values)).

Lemma get_case d a b : to_ascii_lowercase a = to_ascii_lowercase b → de_get d a = de_get d b.
Proof.
  intros Hab. unfold de_get, eq_ignore_ascii_case. rewrite Hab. done.
Qed.

Lemma get_Some d name v : de_get d name = Some v → v ∈ d.(de_values) ∧ to_ascii_lowercase v.(rv_name) = to_ascii_lowercase name.
Proof. by intros [Hin Hn%same_name]%find_first_Some. Qed.

Lemma get_None d name v :
  de_get d name = None → v ∈ d.(de_values) → to_ascii_lowercase v.(rv_name) ≠ to_ascii_lowercase name.
Proof.
  unfold de_get. rewrite find_first_None. intros Hn Hin Heq%same_name. specialize (Hn v Hin). simpl in Hn. congruence.
Qed.

Lemma get_unique d v u :
  names_distinct d → v ∈ d.(de_values) → u ∈ d.(de_values) → to_ascii_lowercase v.(rv_name) = to_ascii_lowercase u.(rv_name) → v = u.
Proof.
  unfold names_distinct. intros Hd (i & Hi)%list_elem_of_lookup (j & Hj)%list_elem_of_lookup Heq.
  assert (i = j) as ->; [|congruence]. eapply NoDup_lookup; [exact Hd|..]; rewrite list_lookup_fmap.
  - by rewrite Hi.
  - rewrite Hj. simpl. by rewrite Heq.
Qed.

(** ** Writing *)

(** What a key that held [held] under [name] holds after a change. *)
Definition write_change (name : string) (held : option RawRegistryValue) (change : Change) : option RawRegistryValue :=
  match change with
  | ChangeSet value => if eq_ignore_ascii_case value.(rv_name) name then Some value else held
  | ChangeUnset unset => if eq_ignore_ascii_case unset name then None else held
  end.

Definition written (changes : list Change) (from : ServiceKey) (name : string) : option RawRegistryValue :=
  foldl (write_change name) (de_get from name) changes.

Lemma write_sets name l held v :
  (∀ u, u ∈ l → to_ascii_lowercase u.(rv_name) = to_ascii_lowercase name → u = v) →
  v ∈ l ∧ to_ascii_lowercase v.(rv_name) = to_ascii_lowercase name ∨ held = Some v →
  foldl (write_change name) held (map ChangeSet l) = Some v.
Proof.
  revert held. induction l as [|u l IH]; intros held Hu Hv; simpl.
  { destruct Hv as [[?%elem_of_nil _]|?]; done. }
  apply IH; [intros x Hx; apply Hu; by right|]. destruct (eq_ignore_ascii_case (rv_name u) name) eqn:En.
  - apply same_name in En. rewrite (Hu u) by (done || left). by right.
  - destruct Hv as [[[->|Hin]%elem_of_cons Hn]|?]; [|by left|by right]. apply same_name in Hn. congruence.
Qed.

Lemma write_no_sets name l held :
  (∀ u, u ∈ l → to_ascii_lowercase u.(rv_name) ≠ to_ascii_lowercase name) →
  foldl (write_change name) held (map ChangeSet l) = held.
Proof.
  revert held. induction l as [|u l IH]; intros held Hu; simpl; [done|].
  destruct (eq_ignore_ascii_case (rv_name u) name) eqn:En; [|apply IH; intros; apply Hu; by right].
  apply same_name in En. exfalso. eapply Hu; [left|done].
Qed.

Lemma write_unsets name l held :
  foldl (write_change name) held (map (λ u, ChangeUnset u.(rv_name)) l) =
  if existsb (λ u, eq_ignore_ascii_case u.(rv_name) name) l then None else held.
Proof.
  revert held. induction l as [|u l IH]; intros held; simpl; [done|]. rewrite IH.
  destruct (eq_ignore_ascii_case (rv_name u) name); [by destruct (existsb _ _)|done].
Qed.

(** The changes that are written turn the definition that was read into the
    edited one: under every name, in any case, the key then holds what the
    edited definition holds. Nothing is written that is not a change: a value
    that is set is not what was there, and a value that is taken away was there
    and is not wanted. *)
Theorem changes_exact from to :
  names_distinct from → names_distinct to →
  (∀ name, written (changes from to) from name = de_get to name) ∧
  (∀ value, ChangeSet value ∈ changes from to → value ∈ to.(de_values) ∧ de_get from value.(rv_name) ≠ Some value) ∧
  (∀ name, ChangeUnset name ∈ changes from to → is_Some (de_get from name) ∧ de_get to name = None).
Proof.
  intros Hf Ht. unfold changes. split_and!.
  - intros name. unfold written. rewrite foldl_app, write_unsets.
    set (kept := retain _ (de_values to)). set (gone := retain _ (de_values from)).
    destruct (de_get to name) as [v|] eqn:Ev.
    + destruct (get_Some _ _ _ Ev) as [Hv Hn]. assert (existsb (λ u, eq_ignore_ascii_case (rv_name u) name) gone = false) as ->.
      { apply not_true_iff_false. intros (u & Hu%list_elem_of_In & Hs%same_name)%existsb_exists. apply elem_of_retain in Hu as [Hg _].
        apply bool_decide_eq_true in Hg. rewrite (get_case _ _ _ Hs) in Hg. congruence. }
      apply write_sets; [intros u [_ Hu]%elem_of_retain Hs; apply (get_unique to); [done..|congruence]|].
      destruct (decide (de_get from (rv_name v) = Some v)) as [Hsame|Hdiff].
      * right. by rewrite <-(get_case _ _ _ Hn).
      * left. split; [|done]. apply elem_of_retain. split; [|done]. by rewrite bool_decide_eq_false_2.
    + rewrite write_no_sets by (intros u [_ Hu]%elem_of_retain; by apply (get_None to)).
      destruct (existsb _ gone) eqn:Eg; [done|]. destruct (de_get from name) as [u|] eqn:Eu; [|done]. exfalso.
      destruct (get_Some _ _ _ Eu) as [Hu Hn]. apply not_true_iff_false in Eg. apply Eg. apply existsb_exists. exists u.
      split; [|by apply same_name]. apply list_elem_of_In, elem_of_retain. split; [|done]. apply bool_decide_eq_true.
      by rewrite (get_case _ _ _ Hn).
  - intros value [Hin|Hin]%elem_of_app; apply list_elem_of_fmap in Hin as (u & Hu & Hr); [|done]. injection Hu as ->.
    apply elem_of_retain in Hr as [Hd Hin]. by apply negb_true_iff, bool_decide_eq_false in Hd.
  - intros name [Hin|Hin]%elem_of_app; apply list_elem_of_fmap in Hin as (u & Hu & Hr); [done|]. injection Hu as ->.
    apply elem_of_retain in Hr as [Hd%bool_decide_eq_true Hin]. split; [|done].
    destruct (de_get from (rv_name u)) eqn:Eg; [eauto|]. exfalso. by eapply get_None.
Qed.

(** ** What is stated is what is read *)

Lemma service_field_Some field info :
  service_field field = Some info →
  to_ascii_lowercase info.(fi_name) = to_ascii_lowercase field ∧ ∃ f, f ∈ ALL_FIELDS ∧ info = field_info_of f.
Proof.
  intros [Hin Hn%same_name]%find_first_Some. split; [done|]. apply list_elem_of_fmap in Hin as (f & -> & Hf). eauto.
Qed.

Lemma put_get info data name values :
  let found l := find_first (λ value, eq_ignore_ascii_case value.(rv_name) name) l in
  if eq_ignore_ascii_case info.(fi_name) name
  then ∃ v, found (put_value info data values) = Some v ∧ v.(rv_value_type) = field_value_type info.(fi_kind) ∧ v.(rv_data) = data
  else found (put_value info data values) = found values.
Proof.
  cbv zeta. destruct (eq_ignore_ascii_case (fi_name info) name) eqn:En.
  - apply same_name in En. induction values as [|u values IH]; simpl.
    { rewrite (proj2 (same_name _ _) En). by eexists. }
    destruct (eq_ignore_ascii_case (rv_name u) (fi_name info)) eqn:Eu; simpl.
    + apply same_name in Eu. rewrite (proj2 (same_name (rv_name u) name)) by congruence. by eexists.
    + destruct (eq_ignore_ascii_case (rv_name u) name) eqn:Ex; [|done]. apply same_name in Ex.
      assert (eq_ignore_ascii_case (rv_name u) (fi_name info) = true) by (apply same_name; congruence). congruence.
  - induction values as [|u values IH]; simpl; [by rewrite En|].
    destruct (eq_ignore_ascii_case (rv_name u) (fi_name info)) eqn:Eu; simpl; [|by rewrite IH].
    assert (eq_ignore_ascii_case (rv_name u) name = false) as ->; [|done].
    apply not_true_iff_false. intros Ex%same_name. apply same_name in Eu. apply not_true_iff_false in En. apply En, same_name. congruence.
Qed.

Lemma find_retain {A} (p q : A → bool) l : (∀ x, p x = true → q x = true) → find_first p (retain q l) = find_first p l.
Proof.
  intros Hpq. induction l as [|x l IH]; [done|]. unfold retain in *. rewrite filter_cons. simpl.
  destruct (decide (q x = true)) as [Hq|Hq]; simpl; [by rewrite IH|]. rewrite IH. destruct (p x) eqn:Ep; [|done].
  by apply Hpq in Ep.
Qed.

(** Numbers of choices are small. *)
Lemma choices_are_u32 f names n :
  (field_info_of f).(fi_kind) = KChoice names → n ∈ names.*1 → is_u32 n.
Proof.
  intros Hk Hn. assert (forallb (λ m, (0 <=? m) && (m <=? u32_max)) names.*1 = true) as Hall.
  { destruct f; simpl in Hk; try discriminate Hk; injection Hk as <-; reflexivity. }
  rewrite forallb_forall in Hall. apply list_elem_of_In in Hn. apply Hall in Hn. unfold is_u32. lia.
Qed.

Lemma choice_number_in names text n : choice_number names text = Some n → n ∈ names.*1.
Proof.
  unfold choice_number. destruct (find_first _ names) as [[m name]|] eqn:Ef.
  - intros [= <-]. apply find_first_Some in Ef as [Hin _]. apply list_elem_of_fmap. by exists (m, name).
  - destruct (parse_u32 text) as [m|]; simpl; [|done]. destruct (existsb _ names) eqn:Ee; [|done]. intros [= <-].
    apply existsb_exists in Ee as ([v name] & Hin & ->%Z.eqb_eq). apply list_elem_of_fmap. exists (m, name).
    split; [done|]. by apply list_elem_of_In.
Qed.

Lemma parse_decimal_digits acc s n : parse_decimal acc s = Some n → str_all is_ascii_digit s = true.
Proof. revert acc. induction s as [|c s IH]; intros acc; simpl; [done|]. destruct (is_ascii_digit c); [apply IH|done]. Qed.

Lemma parse_u64_nonneg s n : parse_u64 s = Some n → 0 ≤ n.
Proof.
  unfold parse_u64. destruct (str_is_empty _); [done|]. destruct (parse_decimal 0 _) as [m|] eqn:Em; [|done].
  destruct (m <=? u64_max); [|done]. intros [= <-].
  eapply parse_decimal_nonneg; [|by eapply parse_decimal_digits|exact Em]. lia.
Qed.

Lemma parse_u32_range s n : parse_u32 s = Some n → is_u32 n.
Proof.
  unfold parse_u32. destruct (parse_u64 s) as [m|] eqn:Em; simpl; [|done]. destruct (Z.leb_spec m u32_max); [|done].
  intros [= <-]. apply parse_u64_nonneg in Em. by split.
Qed.

(** What the value of a field says once [text] was stated. *)
Definition reads_as (info : FieldInfo) (text data : string) : Prop :=
  match info.(fi_kind) with
  | KText => storable (trim text) → decode_registry_string data = Ok (trim text)
  | KList => Forall storable (list_items text) → decode_registry_multi_string data = Ok (list_items text)
  | KNumber _ => ∃ n, parse_u32 (trim text) = Some n ∧ le_u32 data = Some n
  | KYesNo => le_u32 data = Some (if bool_decide (to_ascii_lowercase (trim text) ∈ ["yes"; "1"; "true"; "on"]) then 1 else 0)
  | KChoice names => ∃ n, choice_number names (trim text) = Some n ∧ n ∈ names.*1 ∧ le_u32 data = Some n
  | KBinary => False
  end.

Lemma field_data_reads f text data : field_data (field_info_of f) text = Ok data → reads_as (field_info_of f) text data.
Proof.
  unfold field_data, reads_as. destruct (fi_kind (field_info_of f)) eqn:Ek.
  - intros [= <-] Hs. by apply decode_string_exact.
  - intros [= <-] Hs. by apply registry_multi_exact.
  - destruct (parse_u32 (trim text)) as [n|] eqn:En; [|done]. intros [= <-]. exists n. split; [done|]. apply le_u32_exact.
    split; [done|]. by eapply parse_u32_range.
  - case_bool_decide; [by intros [= <-]|]. case_bool_decide; [by intros [= <-]|done].
  - destruct (choice_number names (trim text)) as [n|] eqn:En; [|done]. intros [= <-]. exists n. split; [done|].
    pose proof (choice_number_in _ _ _ En) as Hin. split; [done|]. apply le_u32_exact. split; [done|]. by eapply choices_are_u32.
  - done.
Qed.

(** What a person states of a field is what the service manager reads back:
    the value has the type of the field and decodes to the text, the list, the
    number, the answer or the choice that was stated; nothing stated leaves no
    value; and no other value changes. *)
Theorem stated_value_is_read d field text d' :
  de_set d field text = Ok d' →
  (∃ info, service_field field = Some info ∧
    if str_is_empty (trim text) then de_get d' field = None
    else ∃ value, de_get d' field = Some value ∧ value.(rv_value_type) = field_value_type info.(fi_kind) ∧
      reads_as info text value.(rv_data)) ∧
  ∀ name, eq_ignore_ascii_case field name = false → de_get d' name = de_get d name.
Proof.
  unfold de_set. destruct (service_field field) as [info|] eqn:Es; [|done].
  destruct (service_field_Some _ _ Es) as (Hn & f & _ & ->). destruct (str_is_empty (trim text)).
  - intros [= <-]. split.
    + eexists. split; [done|]. unfold de_get. apply find_first_None. intros u [Hu _]%elem_of_retain. simpl in Hu.
      unfold eq_ignore_ascii_case in *. by rewrite Hn in Hu; apply negb_true_iff in Hu.
    + intros name Hne. unfold de_get. apply find_retain. intros u Hu%same_name. apply negb_true_iff, not_true_iff_false.
      intros Hx%same_name. apply not_true_iff_false in Hne. apply Hne, same_name. congruence.
  - destruct (field_data (field_info_of f) text) as [data|] eqn:Ed; [|done]. intros [= <-]. split.
    + eexists. split; [done|]. pose proof (put_get (field_info_of f) data field (de_values d)) as Hp. cbv zeta in Hp.
      rewrite (proj2 (same_name _ _) Hn) in Hp. destruct Hp as (v & Hv & Ht & <-). exists v. split; [exact Hv|]. split; [done|].
      by apply field_data_reads.
    + intros name Hne. pose proof (put_get (field_info_of f) data name (de_values d)) as Hp. cbv zeta in Hp.
      unfold eq_ignore_ascii_case in Hp, Hne. rewrite Hn, Hne in Hp. exact Hp.
Qed.

(** ** An edit *)

Definition sshd_key : ServiceKey := {|
  de_name := "sshd";
  de_values := [ {| rv_name := "imagepath"; rv_value_type := RegSz; rv_data := sz "/usr/sbin/sshd" |};
                 {| rv_name := "Requires"; rv_value_type := RegMultiSz; rv_data := multi_sz ["lpsd"] |};
                 {| rv_name := "LastTimerRun"; rv_value_type := RegOther 11; rv_data := "12345678" |} ] |}.

Definition sshd_edited : ServiceKey :=
  match (let? d := de_set sshd_key "Requires" "  " in de_set d "StopTimeout" " 20 ") with Ok d => d | Err _ => sshd_key end.

Lemma changes_exact_witness :
  (∀ name, written (changes sshd_key sshd_edited) sshd_key name = de_get sshd_edited name) ∧
  changes sshd_key sshd_edited =
    [ChangeSet {| rv_name := "StopTimeout"; rv_value_type := RegDword; rv_data := le_bytes 20 |}; ChangeUnset "Requires"].
Proof.
  split; [|vm_compute; reflexivity].
  apply (changes_exact sshd_key sshd_edited); unfold names_distinct; apply (bool_decide_eq_true_1 _); vm_compute; reflexivity.
Defined.

Lemma stated_value_is_read_witness :
  ∃ d', de_set sshd_key "stoptimeout" " 20 " = Ok d' ∧ de_get d' "ImagePath" = de_get sshd_key "ImagePath".
Proof.
  destruct (de_set sshd_key "stoptimeout" " 20 ") as [d'|e] eqn:Es; [|by vm_compute in Es].
  exists d'. split; [reflexivity|]. apply (stated_value_is_read sshd_key "stoptimeout" " 20 " d' Es). vm_compute. reflexivity.
Defined.
