(* ===== verification/ControlWire.v ===== *)
(** * The control wire

    Models [src/src/control/wire/]: the vocabulary of requests and answers
    ([model.rs], [response/labels.rs]), frames ([frame.rs]), the buffers of a
    connection ([buffer.rs], [write_buffer.rs]), the reading of a request
    ([parser.rs]) and the times in answers ([response/time.rs]).

    Bytes are the characters of a string. The text of a request is read by
    [serde_json], which is the parameter [from_slice] here; an answer is written
    by it, which is the parameter [to_vec]. *)

From S2P Require Import Prelude RustStr ServiceRuntime ServiceDef OperationRecord JobRecord SubmittedDef.
From S2P Require Import SubmittedStore Shutdown RegistryValue.
From Stdlib Require Import Ascii String.
Open Scope string_scope.
Open Scope list_scope.
Open Scope Z_scope.

(** ** Slices *)

Fixpoint str_take (n : nat) (s : string) : string :=
  match n, s with
  | S n, String c s => String c (str_take n s)
  | _, _ => EmptyString
  end.

Fixpoint str_drop (n : nat) (s : string) : string :=
  match n, s with
  | S n, String _ s => str_drop n s
  | O, s => s
  | _, EmptyString => EmptyString
  end.

(** ** The vocabulary ([model.rs]) *)

Inductive ControlCommand : Type :=
| CmdStart | CmdStop | CmdRestart | CmdReload | CmdReset | CmdStatus | CmdList | CmdShutdown | CmdReloadConfig
| CmdOperationStatus | CmdJobList | CmdJobStatus | CmdJobStop | CmdBoot.

#[export] Instance ControlCommand_eq_dec : EqDecision ControlCommand.
Proof. solve_decision. Defined.

Definition command_as_str (self : ControlCommand) : string :=
  match self with
  | CmdStart => "start" | CmdStop => "stop" | CmdRestart => "restart" | CmdReload => "reload" | CmdReset => "reset"
  | CmdStatus => "status" | CmdList => "list" | CmdShutdown => "shutdown" | CmdReloadConfig => "reload-config"
  | CmdOperationStatus => "operation-status" | CmdJobList => "job-list" | CmdJobStatus => "job-status"
  | CmdJobStop => "job-stop" | CmdBoot => "boot"
  end.

Definition ALL_COMMANDS : list ControlCommand :=
  [CmdStart; CmdStop; CmdRestart; CmdReload; CmdReset; CmdStatus; CmdList; CmdShutdown; CmdReloadConfig;
   CmdOperationStatus; CmdJobList; CmdJobStatus; CmdJobStop; CmdBoot].

(** The match on the words, one arm for each command. *)
Definition command_parse (value : string) : option ControlCommand :=
  find_first (λ command, bool_decide (command_as_str command = value)) ALL_COMMANDS.

Definition default_wait (self : ControlCommand) : bool :=
  bool_decide (self ∈ [CmdStart; CmdStop; CmdRestart; CmdJobStop]).

Inductive ControlRequestParseError : Type := PeMalformedRequest | PeInvalidCommand | PeInvalidArguments.

Inductive ControlErrorCode : Type :=
| EcAccessDenied | EcUnknownService | EcUnknownOperation | EcUnknownJob | EcMalformedRequest | EcRequestTooLarge
| EcInvalidCommand | EcInvalidArguments | EcInvalidState | EcOperationTimeout | EcInternalError.

Definition code_as_str (self : ControlErrorCode) : string :=
  match self with
  | EcAccessDenied => "ACCESS_DENIED" | EcUnknownService => "UNKNOWN_SERVICE" | EcUnknownOperation => "UNKNOWN_OPERATION"
  | EcUnknownJob => "UNKNOWN_JOB" | EcMalformedRequest => "MALFORMED_REQUEST" | EcRequestTooLarge => "REQUEST_TOO_LARGE"
  | EcInvalidCommand => "INVALID_COMMAND" | EcInvalidArguments => "INVALID_ARGUMENTS" | EcInvalidState => "INVALID_STATE"
  | EcOperationTimeout => "OPERATION_TIMEOUT" | EcInternalError => "INTERNAL_ERROR"
  end.

Definition ALL_CODES : list ControlErrorCode :=
  [EcAccessDenied; EcUnknownService; EcUnknownOperation; EcUnknownJob; EcMalformedRequest; EcRequestTooLarge;
   EcInvalidCommand; EcInvalidArguments; EcInvalidState; EcOperationTimeout; EcInternalError].

Definition code_parse (value : string) : option ControlErrorCode :=
  find_first (λ code, bool_decide (code_as_str code = value)) ALL_CODES.

Definition code_of_parse_error (error : ControlRequestParseError) : ControlErrorCode :=
  match error with
  | PeMalformedRequest => EcMalformedRequest
  | PeInvalidCommand => EcInvalidCommand
  | PeInvalidArguments => EcInvalidArguments
  end.

Inductive ControlFrameRejectReason : Type := FrMalformedRequest | FrRequestTooLarge.

Definition code_of_reject (reason : ControlFrameRejectReason) : ControlErrorCode :=
  match reason with FrMalformedRequest => EcMalformedRequest | FrRequestTooLarge => EcRequestTooLarge end.

Inductive ControlResponseStatus : Type := StatusOk | StatusError.

Definition status_as_str (self : ControlResponseStatus) : string :=
  match self with StatusOk => "ok" | StatusError => "error" end.

Definition status_parse (value : string) : option ControlResponseStatus :=
  if bool_decide (value = "ok") then Some StatusOk else if bool_decide (value = "error") then Some StatusError else None.

Inductive ControlFrameDecision : Type :=
| FrameComplete (body : string) (consumed : nat)
| FrameIncomplete
| FrameReject (reason : ControlFrameRejectReason).

(** ** Frames ([frame.rs]) *)

Definition control_frame_decision (buffer : string) (max_request_bytes : nat) : ControlFrameDecision :=
  match position_of newline buffer with
  | Some newline_index =>
      if (max_request_bytes <? newline_index)%nat then FrameReject FrRequestTooLarge
      else match newline_index with
           | O => FrameReject FrMalformedRequest
           | _ => FrameComplete (str_take newline_index buffer) (newline_index + 1)%nat
           end
  | None =>
      if (max_request_bytes <? String.length buffer)%nat then FrameReject FrRequestTooLarge else FrameIncomplete
  end.

(** ** The read buffer ([buffer.rs]) *)

Record ControlConnectionBuffer : Type := { cb_bytes : string }.

Inductive ControlBufferConsumeError : Type := ConsumeTooMany (requested available : nat).

Definition buffer_append (bytes : string) (self : ControlConnectionBuffer) : ControlConnectionBuffer :=
  {| cb_bytes := self.(cb_bytes) +:+ bytes |}.

Definition frame_decision (max_request_bytes : nat) (self : ControlConnectionBuffer) : ControlFrameDecision :=
  control_frame_decision self.(cb_bytes) max_request_bytes.

Definition holds_complete_frame (self : ControlConnectionBuffer) : bool := str_contains_char newline self.(cb_bytes).

Definition buffer_len (self : ControlConnectionBuffer) : nat := String.length self.(cb_bytes).

Definition buffer_consume (count : nat) (self : ControlConnectionBuffer)
    : Result ControlConnectionBuffer ControlBufferConsumeError :=
  if (buffer_len self <? count)%nat then Err (ConsumeTooMany count (buffer_len self))
  else Ok {| cb_bytes := str_drop count self.(cb_bytes) |}.

Definition buffer_clear (self : ControlConnectionBuffer) : ControlConnectionBuffer := {| cb_bytes := EmptyString |}.

(** ** The write buffer ([write_buffer.rs]) *)

Record ControlWriteBuffer : Type := {
  wb_bytes : string;
  wb_written : nat;
}.

Inductive ControlWriteBufferError : Type := AdvancePastEnd (written pending : nat).

Definition compact_if_empty (self : ControlWriteBuffer) : ControlWriteBuffer :=
  if (self.(wb_written) =? String.length self.(wb_bytes))%nat then {| wb_bytes := EmptyString; wb_written := O |} else self.

Definition pending_slice (self : ControlWriteBuffer) : string := str_drop self.(wb_written) self.(wb_bytes).

Definition pending_len (self : ControlWriteBuffer) : nat := String.length (pending_slice self).

Definition write_is_empty (self : ControlWriteBuffer) : bool := (pending_len self =? 0)%nat.

Definition write_enqueue (bytes : string) (self : ControlWriteBuffer) : ControlWriteBuffer :=
  let self := compact_if_empty self in
  {| self with wb_bytes := self.(wb_bytes) +:+ bytes |}.

Definition advance_written (count : nat) (self : ControlWriteBuffer) : Result ControlWriteBuffer ControlWriteBufferError :=
  let pending := pending_len self in
  if (pending <? count)%nat then Err (AdvancePastEnd count pending)
  else Ok (compact_if_empty {| self with wb_written := (self.(wb_written) + count)%nat |}).

(** ** Requests ([parser.rs]) *)

Record ParsedControlRequest : Type := {
  pcr_command : ControlCommand;
  pcr_service : option string;
  pcr_wait : bool;
  pcr_shutdown_kind : option ShutdownKind;
  pcr_operation_id : option string;
  pcr_job_id : option string;
  pcr_job_filter : option SubmittedJobListFilter;
}.

Definition command_requires_service (command : ControlCommand) : bool :=
  bool_decide (command ∈ [CmdStart; CmdStop; CmdRestart; CmdReload; CmdReset; CmdStatus]).

Definition is_sid_string (value : string) : bool :=
  match split_char "-" value with
  | s :: one :: part :: parts =>
      bool_decide (s = "S") && bool_decide (one = "1") &&
      forallb (λ part, negb (str_is_empty part) && str_all is_ascii_digit part) (part :: parts)
  | _ => false
  end.

Definition parse_shutdown_kind (value : string) : Result ShutdownKind ControlRequestParseError :=
  if bool_decide (value = "poweroff") then Ok KindPoweroff
  else if bool_decide (value = "reboot") then Ok KindReboot
  else if bool_decide (value = "halt") then Ok KindHalt
  else Err PeInvalidArguments.

Section Request.
Context `{JsonNumber}.

Definition required_string_field (object : JsonObject) (field : string) : Result string ControlRequestParseError :=
  ok_or (json_get object field ≫= as_str) PeInvalidArguments.

Definition sid_filter (object : JsonObject) (field : string) : Result (option string) ControlRequestParseError :=
  match json_get object field with
  | None | Some VNull => Ok None
  | Some (VString sid) => if is_sid_string sid then Ok (Some sid) else Err PeInvalidArguments
  | Some _ => Err PeInvalidArguments
  end.

Definition parse_job_filter (object : JsonObject) : Result SubmittedJobListFilter ControlRequestParseError :=
  let? logon_session :=
    match json_get object "logon_session" with
    | None | Some VNull => Ok None
    | Some value => let? n := ok_or (value_as_u64 value) PeInvalidArguments in Ok (Some n)
    end in
  let? state :=
    match json_get object "state" with
    | None | Some VNull => Ok None
    | Some value => let? s := ok_or (as_str value ≫= parse_job_state_wire) PeInvalidArguments in Ok (Some s)
    end in
  let? submitter_sid := sid_filter object "submitter" in
  let? identity_sid := sid_filter object "identity" in
  Ok {| lf_submitter_sid := submitter_sid; lf_identity_sid := identity_sid; lf_logon_session := logon_session;
        lf_state := state |}.

(** The value of a field that only some commands have. *)
Definition when {A} (b : bool) (r : Result A ControlRequestParseError) : Result (option A) ControlRequestParseError :=
  if b then let? a := r in Ok (Some a) else Ok None.

Definition control_request_of (object : JsonObject) : Result ParsedControlRequest ControlRequestParseError :=
  let? command_value := ok_or (json_get object "command" ≫= as_str) PeInvalidCommand in
  let? command := ok_or (command_parse command_value) PeInvalidCommand in
  let? wait :=
    match json_get object "wait" with
    | Some (VBool b) => Ok b
    | Some _ => Err PeInvalidArguments
    | None => Ok (default_wait command)
    end in
  let? service :=
    if command_requires_service command then when true (required_string_field object "service")
    else Ok (json_get object "service" ≫= as_str) in
  let? shutdown_kind := when (bool_decide (command = CmdShutdown))
    (let? kind := required_string_field object "type" in parse_shutdown_kind kind) in
  let? operation_id := when (bool_decide (command = CmdOperationStatus)) (required_string_field object "operation_id") in
  let? job_id := when (bool_decide (command ∈ [CmdJobStatus; CmdJobStop])) (required_string_field object "job_id") in
  let? job_filter := when (bool_decide (command = CmdJobList)) (parse_job_filter object) in
  Ok {| pcr_command := command; pcr_service := service; pcr_wait := wait; pcr_shutdown_kind := shutdown_kind;
        pcr_operation_id := operation_id; pcr_job_id := job_id; pcr_job_filter := job_filter |}.

Definition parse_control_request (from_slice : string → option Value) (body : string)
    : Result ParsedControlRequest ControlRequestParseError :=
  match from_slice body with
  | Some (VObject object) => control_request_of object
  | _ => Err PeMalformedRequest
  end.
End Request.

(** ** Errors in answers ([response.rs]) *)

Definition control_client_error_message (error : ControlErrorCode) : string :=
  match error with
  | EcMalformedRequest => "malformed control request"
  | EcRequestTooLarge => "control request too large"
  | EcInvalidCommand => "invalid control command"
  | EcInvalidArguments => "invalid control arguments"
  | _ => "control request failed"
  end.

Section Response.
Context `{JsonNumber} (to_vec : Value → Result string string).

Definition response_line (response : Value) : Result string string :=
  let? line := to_vec response in Ok (line +:+ String newline "").

Definition control_error_response_line (code : ControlErrorCode) (message : string) : Result string string :=
  response_line (VObject
    [("status", VString (status_as_str StatusError)); ("code", VString (code_as_str code)); ("message", VString message)]).

Definition control_system_ok_response_line : Result string string :=
  response_line (VObject [("status", VString (status_as_str StatusOk))]).
End Response.

(** ** Labels ([response/labels.rs]) *)

Definition service_state_wire (state : ServiceState) : string :=
  match state with
  | StInactive => "inactive" | StStarting => "starting" | StActive => "active" | StReloading => "reloading"
  | StStopping => "stopping" | StCompleted => "completed" | StBackoff => "backoff" | StFailed => "failed"
  | StAbandoned => "abandoned" | StSkipped => "skipped"
  end.

Definition service_state_from_wire (label : string) : option ServiceState :=
  find_first (λ state, bool_decide (service_state_wire state = label))
    [StInactive; StStarting; StActive; StReloading; StStopping; StCompleted; StBackoff; StFailed; StAbandoned; StSkipped].

Definition service_health_wire (status : ServiceHealthStatus) : string :=
  match status with HsUnknown => "unknown" | HsHealthy => "healthy" | HsUnhealthy => "unhealthy" end.

Definition service_health_from_wire (label : string) : option ServiceHealthStatus :=
  find_first (λ status, bool_decide (service_health_wire status = label)) [HsUnknown; HsHealthy; HsUnhealthy].

Definition operation_state_wire (state : OperationState) : string :=
  match state with
  | OsPending => "pending" | OsRunning => "running" | OsCompleted => "completed" | OsFailed => "failed"
  | OsMerged => "merged" | OsCancelled => "cancelled" | OsAborted => "aborted"
  end.

Definition operation_state_from_wire (label : string) : option OperationState :=
  find_first (λ state, bool_decide (operation_state_wire state = label))
    [OsPending; OsRunning; OsCompleted; OsFailed; OsMerged; OsCancelled; OsAborted].

Definition transition_cause_wire (cause : TransitionCause) : string :=
  match cause with
  | TcExplicitStart => "explicit_start" | TcDependencyStart => "dependency_start" | TcRestartPolicy => "restart_policy"
  | TcBindsToRecovery => "binds_to_recovery" | TcExplicitStop => "explicit_stop" | TcExplicitReload => "explicit_reload"
  | TcExplicitReset => "explicit_reset" | TcConflictEviction => "conflict_eviction"
  | TcBindsToPropagation => "binds_to_propagation" | TcTimer => "timer" | TcShutdownWave => "shutdown_wave"
  | TcProcessCrash => "process_crash" | TcCleanExit => "clean_exit" | TcCleanExitRestart => "clean_exit_restart"
  | TcReadinessTimeout => "readiness_timeout" | TcWatchdogTimeout => "watchdog_timeout"
  | TcHealthCheckFailure => "health_check_failure" | TcPreHookFailure => "pre_hook_failure"
  | TcParentSetupFailure => "parent_setup_failure" | TcPreExecFailure => "pre_exec_failure"
  | TcDependencyFailure => "dependency_failure" | TcRestartBudgetExhausted => "restart_budget_exhausted"
  | TcCycleDetected => "cycle_detected" | TcValidationError => "validation_error" | TcAssertionError => "assertion_error"
  | TcConditionSkipped => "condition_skipped" | TcTtyUnavailable => "tty_unavailable"
  | TcProcessUnkillable => "process_unkillable" | TcInternalError => "internal_error"
  end.

Definition job_type_wire (job_type : JobType) : string :=
  match job_type with
  | JtServiceMain => "service_main" | JtPreExecHook => "pre_exec_hook" | JtPostExecHook => "post_exec_hook"
  | JtReloadHook => "reload_hook" | JtHealthCheck => "health_check" | JtSubmitted => "submitted"
  end.

Definition operation_type_wire (operation_type : OperationType) : string :=
  match operation_type with
  | OpStart => "start" | OpStop => "stop" | OpRestart => "restart" | OpReload => "reload" | OpReset => "reset"
  end.

Definition operation_source_wire (source : OperationSource) : string :=
  match source with
  | SrcAdmin => "admin" | SrcBoot => "boot" | SrcShutdown => "shutdown" | SrcDependencyPropagation => "dependency_propagation"
  | SrcRestartPolicy => "restart_policy" | SrcTimer => "timer" | SrcBindsToRecovery => "binds_to_recovery"
  | SrcBindsToPropagation => "binds_to_propagation" | SrcConflictResolution => "conflict_resolution"
  | SrcOnFailure => "on_failure" | SrcTtyRelease => "tty_release"
  end.

(** ** Times ([response/time.rs]) *)

Record ControlResponseTimeProjection : Type := {
  monotonic_now_ns : Z;
  realtime_now_ns : Z;
}.

Definition u64_saturating_sub (a b : Z) : Z := Z.max 0 (a - b).

Definition uptime_seconds (self : ControlResponseTimeProjection) (started_at_ns : option Z) : option Z :=
  (λ started_at_ns, u64_saturating_sub self.(monotonic_now_ns) started_at_ns / 1000000000) <$> started_at_ns.

Definition project_unix_ns (self : ControlResponseTimeProjection) (monotonic_event_ns : Z) : Z :=
  if monotonic_event_ns <=? self.(monotonic_now_ns)
  then u64_saturating_sub self.(realtime_now_ns) (self.(monotonic_now_ns) - monotonic_event_ns)
  else u64_saturating_add self.(realtime_now_ns) (monotonic_event_ns - self.(monotonic_now_ns)).

(** Division of [i64], which truncates. *)
Definition wire_civil_from_days (days_since_unix_epoch : Z) : Z * Z * Z :=
  let z := days_since_unix_epoch + 719468 in
  let era := Z.quot (if 0 <=? z then z else z - 146096) 146097 in
  let doe := z - era * 146097 in
  let yoe := Z.quot (doe - Z.quot doe 1460 + Z.quot doe 36524 - Z.quot doe 146096) 365 in
  let y := yoe + era * 400 in
  let doy := doe - (365 * yoe + Z.quot yoe 4 - Z.quot yoe 100) in
  let mp := Z.quot (5 * doy + 2) 153 in
  let day := doy - Z.quot (153 * mp + 2) 5 + 1 in
  let month := mp + (if mp <? 10 then 3 else -9) in
  let year := y + (if month <=? 2 then 1 else 0) in
  (year, month, day).

(** [{n:0w}]. *)
Definition zero_padded (w : nat) (n : Z) : string :=
  let digits := u64_to_string n in
  String.concat "" (repeat "0" (w - String.length digits)) +:+ digits.

Definition civil_text (year month day hour minute second nanos : Z) : string :=
  zero_padded 4 year +:+ "-" +:+ zero_padded 2 month +:+ "-" +:+ zero_padded 2 day +:+ "T" +:+ zero_padded 2 hour +:+ ":"
  +:+ zero_padded 2 minute +:+ ":" +:+ zero_padded 2 second +:+ "." +:+ zero_padded 9 nanos +:+ "Z".

Definition rfc3339_from_unix_ns (ns : Z) : string :=
  let seconds := ns / 1000000000 in
  let nanos := ns mod 1000000000 in
  let days := seconds / 86400 in
  let seconds_of_day := seconds mod 86400 in
  let '(year, month, day) := wire_civil_from_days days in
  let hour := seconds_of_day / 3600 in
  let minute := (seconds_of_day mod 3600) / 60 in
  let second := seconds_of_day mod 60 in
  civil_text year month day hour minute second nanos.

Definition realtime_timestamp (self : ControlResponseTimeProjection) (monotonic_event_ns : Z) : string :=
  rfc3339_from_unix_ns (project_unix_ns self monotonic_event_ns).

(** * What the control wire keeps

    About [ControlWire]: a frame is a line of the buffer, the write buffer
    hands on what was put in it in order, the words of the wire are each
    other's inverse, and a timestamp names the instant it was made from. *)

(** ** Slices *)

Lemma take_drop_str n s : str_take n s +:+ str_drop n s = s.
Proof. revert s. induction n as [|n IH]; intros [|c s]; simpl; [done..|]. by rewrite IH. Qed.

Lemma length_app_str s t : String.length (s +:+ t) = (String.length s + String.length t)%nat.
Proof. induction s as [|c s IH]; simpl; [done|]. by rewrite IH. Qed.

Lemma drop_app_str s t : str_drop (String.length s) (s +:+ t) = t.
Proof. by induction s. Qed.

Lemma take_app_str s t : str_take (String.length s) (s +:+ t) = s.
Proof. induction s as [|c s IH]; simpl; [by destruct t|]. by rewrite IH. Qed.

Lemma length_drop_str n s : String.length (str_drop n s) = (String.length s - n)%nat.
Proof. revert s. induction n as [|n IH]; intros [|c s]; simpl; auto. Qed.

Lemma length_take_str n s : String.length (str_take n s) = Nat.min n (String.length s).
Proof. revert s. induction n as [|n IH]; intros [|c s]; simpl; auto. Qed.

Lemma drop_drop_str n m s : str_drop n (str_drop m s) = str_drop (m + n) s.
Proof. revert s. induction m as [|m IH]; intros [|c s]; simpl; auto. by destruct n. Qed.

Lemma drop_app_le n s t : (n ≤ String.length s)%nat → str_drop n (s +:+ t) = str_drop n s +:+ t.
Proof. revert s. induction n as [|n IH]; intros [|c s] Hn; simpl in *; [done..|lia|]. apply IH. lia. Qed.

(** ** Frames *)

Definition no_newline (s : string) : Prop := str_contains_char newline s = false.

Definition line_of (body : string) : string := body +:+ String newline "".

Lemma no_newline_cons c s : no_newline (String c s) ↔ c ≠ newline ∧ no_newline s.
Proof. unfold no_newline, str_contains_char. simpl. destruct (Ascii.eqb_spec c newline); simpl; naive_solver. Qed.

Lemma no_newline_app s t : no_newline (s +:+ t) ↔ no_newline s ∧ no_newline t.
Proof. induction s as [|c s IH]; simpl; [by split; [|intros [_ ?]]|]. rewrite !no_newline_cons, IH. tauto. Qed.

Lemma position_of_newline s n :
  position_of newline s = Some n ↔
  ∃ body rest, s = body +:+ String newline rest ∧ no_newline body ∧ String.length body = n.
Proof.
  revert n. induction s as [|c s IH]; intros n; simpl.
  { split; [done|]. intros ([|] & rest & ? & _); done. }
  destruct (Ascii.eqb_spec c newline) as [->|Hc].
  - split; [intros [= <-]; by exists "", s|]. intros ([|d body] & rest & Hs & Hn & <-); [done|].
    apply no_newline_cons in Hn as [Hn _]. simpl in Hs. congruence.
  - rewrite fmap_Some. split.
    + intros (m & (body & rest & -> & Hn & <-)%IH & ->). exists (String c body), rest.
      split_and!; [done| |done]. by apply no_newline_cons.
    + intros ([|d body] & rest & Hs & Hn & <-); simpl in Hs; [congruence|]. apply no_newline_cons in Hn as [_ Hn].
      exists (String.length body). split; [|done]. apply IH. exists body, rest. split_and!; [congruence|done..].
Qed.

Lemma position_of_no_newline s : position_of newline s = None ↔ no_newline s.
Proof. rewrite position_of_None. unfold no_newline, str_contains_char. by rewrite negb_false_iff. Qed.

Lemma holds_frame s : holds_complete_frame {| cb_bytes := s |} = true ↔ ∃ n, position_of newline s = Some n.
Proof.
  unfold holds_complete_frame. simpl. rewrite <-not_false_iff_true. fold (no_newline s). rewrite <-position_of_no_newline.
  destruct (position_of newline s) as [n|]; [|naive_solver]. split; [by exists n|done].
Qed.

(** What a decision says of the buffer: a complete frame is its first line,
    without the newline, and a buffer is refused for an empty line or for more
    than may be kept before a newline. *)
Lemma frame_decision_exact s max :
  match control_frame_decision s max with
  | FrameComplete body consumed =>
      consumed = String.length (line_of body) ∧ body ≠ "" ∧ no_newline body ∧ (String.length body ≤ max)%nat ∧
      s = line_of body +:+ str_drop consumed s
  | FrameIncomplete => no_newline s ∧ (String.length s ≤ max)%nat
  | FrameReject FrMalformedRequest => ∃ rest, s = String newline rest
  | FrameReject FrRequestTooLarge => ∃ body rest, s = body +:+ rest ∧ no_newline body ∧ (max < String.length body)%nat
  end.
Proof.
  unfold control_frame_decision. destruct (position_of newline s) as [n|] eqn:En.
  - apply position_of_newline in En as (body & rest & -> & Hn & Hlen). destruct (Nat.ltb_spec max n).
    + exists body, (String newline rest). split_and!; [done..|lia].
    + destruct n as [|n]; [destruct body; [by exists rest|done]|]. rewrite <-Hlen, take_app_str. unfold line_of.
      rewrite length_app_str. simpl. split_and!; [done|by intros ->|done|lia|].
      replace (body +:+ String newline rest) with ((body +:+ String newline "") +:+ rest) by (by rewrite str_app_assoc).
      rewrite <-length_app_str with (t := String newline ""), drop_app_str. done.
  - apply position_of_no_newline in En. destruct (Nat.ltb_spec max (String.length s)); [|done].
    exists s, "". by rewrite str_app_nil_r.
Qed.

(** ** The write buffer *)

(** What was written never passes what there is. *)
Definition write_ok (b : ControlWriteBuffer) : Prop := (b.(wb_written) ≤ String.length b.(wb_bytes))%nat.

Lemma compact_keeps b : write_ok b → write_ok (compact_if_empty b) ∧ pending_slice (compact_if_empty b) = pending_slice b.
Proof.
  unfold write_ok, compact_if_empty, pending_slice. intros Hb. destruct (Nat.eqb_spec (wb_written b) (String.length (wb_bytes b))) as [He|]; simpl; [|done].
  split; [lia|]. rewrite He. rewrite <-(str_app_nil_r (wb_bytes b)) at 2. by rewrite drop_app_str.
Qed.

Lemma enqueue_keeps bytes b : write_ok b → write_ok (write_enqueue bytes b) ∧ pending_slice (write_enqueue bytes b) = pending_slice b +:+ bytes.
Proof.
  intros [Hok Hp]%compact_keeps. unfold write_enqueue. split.
  - unfold write_ok in *. simpl. rewrite length_app_str. lia.
  - rewrite <-Hp. unfold pending_slice. simpl. by apply drop_app_le.
Qed.

(** Bytes leave the front of what is pending, and no more of them than there are. *)
Lemma advance_exact count b :
  write_ok b →
  match advance_written count b with
  | Ok b' => write_ok b' ∧ pending_slice b = str_take count (pending_slice b) +:+ pending_slice b' ∧ (count ≤ pending_len b)%nat
  | Err (AdvancePastEnd written pending) => written = count ∧ pending = pending_len b ∧ (pending < count)%nat
  end.
Proof.
  intros Hb. unfold advance_written. destruct (Nat.ltb_spec (pending_len b) count) as [|Hc]; [done|].
  assert (write_ok {| b with wb_written := (wb_written b + count)%nat |}) as Hok.
  { unfold write_ok, pending_len, pending_slice in *. simpl. rewrite length_drop_str in Hc. lia. }
  apply compact_keeps in Hok as [Hok Hp]. split; [done|]. split; [|done]. rewrite Hp. unfold pending_slice at 3. simpl.
  rewrite <-drop_drop_str. by rewrite take_drop_str.
Qed.

(** ** Words *)

(** A list that holds everything and words that differ make reading the inverse
    of writing. *)
Lemma words_inverse {A} (word : A → string) (all : list A) x s :
  NoDup (map word all) → (∀ y, y ∈ all) →
  find_first (λ y, bool_decide (word y = s)) all = Some x ↔ word x = s.
Proof.
  intros Hd Hall. split.
  - intros [_ Hw]%find_first_Some. by apply bool_decide_eq_true in Hw.
  - intros <-. destruct (find_first _ all) as [y|] eqn:Ef.
    + apply find_first_Some in Ef as [_ Hw%bool_decide_eq_true]. f_equal.
      destruct (proj1 (list_elem_of_lookup _ _) (Hall x)) as [i Hi]. destruct (proj1 (list_elem_of_lookup _ _) (Hall y)) as [j Hj].
      assert (i = j) as ->; [|congruence]. eapply NoDup_lookup; [exact Hd|..]; rewrite list_lookup_fmap.
      * by rewrite Hi.
      * rewrite Hj. simpl. by rewrite Hw.
    + rewrite find_first_None in Ef. specialize (Ef x (Hall x)). by rewrite bool_decide_eq_false in Ef.
Qed.

Ltac words_inverse :=
  intros; apply words_inverse; [apply (bool_decide_eq_true_1 _); vm_compute; reflexivity
                               |intros []; apply list_elem_of_In; vm_compute; tauto].

(** The words of the wire stand for one thing each: a command, an error
    code, a state, a health or the state of an operation is read from a text
    exactly when the text is its word, so the client reads back what the service
    manager wrote. *)
Theorem wire_words_exact :
  (∀ command text, command_parse text = Some command ↔ command_as_str command = text) ∧
  (∀ code text, code_parse text = Some code ↔ code_as_str code = text) ∧
  (∀ status text, status_parse text = Some status ↔ status_as_str status = text) ∧
  (∀ state text, service_state_from_wire text = Some state ↔ service_state_wire state = text) ∧
  (∀ health text, service_health_from_wire text = Some health ↔ service_health_wire health = text) ∧
  (∀ state text, operation_state_from_wire text = Some state ↔ operation_state_wire state = text) ∧
  (∀ state text, parse_job_state_wire text = Some state ↔ job_state_wire state = text).
Proof.
  split_and!; [words_inverse|words_inverse| |words_inverse|words_inverse|words_inverse|].
  - intros status text. unfold status_parse. repeat case_bool_decide; destruct status; naive_solver.
  - intros state text. unfold parse_job_state_wire. repeat case_bool_decide; destruct state; naive_solver.
Qed.

(** ** Days *)

Definition leap (year : Z) : bool := (year mod 4 =? 0) && (negb (year mod 100 =? 0) || (year mod 400 =? 0)).

Definition year_length (year : Z) : Z := if leap year then 366 else 365.

Definition month_length (year month : Z) : Z :=
  if month =? 2 then (if leap year then 29 else 28)
  else if bool_decide (month ∈ [4; 6; 9; 11]) then 30 else 31.

(** The days of the [n] years from 1970 on. *)
Fixpoint years_days (n : nat) : Z :=
  match n with O => 0 | S n => years_days n + year_length (1970 + Z.of_nat n) end.

Fixpoint months_days (year : Z) (n : nat) : Z :=
  match n with O => 0 | S n => months_days year n + month_length year (1 + Z.of_nat n) end.

(** The day a date is, counted from 1970-01-01. *)
Definition date_days (year month day : Z) : Z :=
  years_days (Z.to_nat (year - 1970)) + months_days year (Z.to_nat (month - 1)) + (day - 1).

Definition valid_date (year month day : Z) : bool :=
  (1 <=? month) && (month <=? 12) && (1 <=? day) && (day <=? month_length year month).

(** Days before a year, in closed form. *)
Definition before_year (year : Z) : Z := 365 * year + (year - 1) / 4 - (year - 1) / 100 + (year - 1) / 400.

Lemma before_year_step year : before_year (year + 1) = before_year year + year_length year.
Proof.
  unfold before_year, year_length, leap. replace (year + 1 - 1) with year by lia.
  destruct (Z.eqb_spec (year mod 4) 0), (Z.eqb_spec (year mod 100) 0), (Z.eqb_spec (year mod 400) 0); simpl;
    Z.div_mod_to_equations; lia.
Qed.

Lemma years_days_closed n : years_days n = before_year (1970 + Z.of_nat n) - before_year 1970.
Proof.
  induction n as [|n IH]; [done|]. simpl years_days. rewrite IH.
  replace (1970 + Z.of_nat (S n)) with (1970 + Z.of_nat n + 1) by lia. rewrite before_year_step. lia.
Qed.

Lemma leap_period year era : leap (year + 400 * era) = leap year.
Proof.
  unfold leap. replace ((year + 400 * era) mod 4) with (year mod 4) by (Z.div_mod_to_equations; lia).
  replace ((year + 400 * era) mod 100) with (year mod 100) by (Z.div_mod_to_equations; lia).
  by replace ((year + 400 * era) mod 400) with (year mod 400) by (Z.div_mod_to_equations; lia).
Qed.

Lemma month_length_period year era month : month_length (year + 400 * era) month = month_length year month.
Proof. unfold month_length. by rewrite leap_period. Qed.

Lemma months_days_period year era n : months_days (year + 400 * era) n = months_days year n.
Proof. induction n as [|n IH]; simpl; [done|]. by rewrite IH, month_length_period. Qed.

Lemma before_year_period year era : before_year (year + 400 * era) = before_year year + 146097 * era.
Proof. unfold before_year. Z.div_mod_to_equations. lia. Qed.

(** *** Years that begin in March

    An era is four hundred years from the first of March of a year that 400
    divides; its days are counted from 0. *)

(** The first day of a year of the era. *)
Definition march (yoe : Z) : Z := 365 * yoe + yoe / 4 - yoe / 100.

(** The day after the last one. *)
Definition march_end (yoe : Z) : Z := if yoe =? 399 then 146097 else march (yoe + 1).

(** The days without the leap days, which the division by 365 is of. *)
Definition levelled (doe : Z) : Z := doe - Z.quot doe 1460 + Z.quot doe 36524 - Z.quot doe 146096.

Definition year_of_era (doe : Z) : Z := Z.quot (levelled doe) 365.

Definition month_day (doy : Z) : Z * Z :=
  let mp := Z.quot (5 * doy + 2) 153 in
  (mp + (if mp <? 10 then 3 else -9), doy - Z.quot (153 * mp + 2) 5 + 1).

Fixpoint all_below (p : Z → bool) (n : nat) : bool :=
  match n with O => true | S n => p (Z.of_nat n) && all_below p n end.

Lemma all_below_spec p n k : all_below p n = true → 0 ≤ k < Z.of_nat n → p k = true.
Proof.
  induction n as [|n IH]; [lia|]. cbn [all_below]. intros [Hp Hn]%andb_true_iff Hk.
  destruct (decide (k = Z.of_nat n)) as [->|]; [done|]. apply IH; [done|lia].
Qed.

Lemma levelled_step doe : 0 ≤ doe → levelled doe ≤ levelled (doe + 1).
Proof. intros Hd. unfold levelled. rewrite !Z.quot_div_nonneg by lia. Z.div_mod_to_equations. lia. Qed.

Lemma levelled_mono doe doe' : 0 ≤ doe ≤ doe' → levelled doe ≤ levelled doe'.
Proof.
  intros [Hd Hle]. replace doe' with (doe + Z.of_nat (Z.to_nat (doe' - doe))) by lia.
  induction (Z.to_nat (doe' - doe)) as [|n IH]; [by rewrite Z.add_0_r|].
  replace (doe + Z.of_nat (S n)) with (doe + Z.of_nat n + 1) by lia. pose proof (levelled_step (doe + Z.of_nat n)). lia.
Qed.

(** At both ends of a year the division gives the year. *)
Lemma year_ends :
  all_below (λ yoe, (year_of_era (march yoe) =? yoe) && (year_of_era (march_end yoe - 1) =? yoe) && (0 <=? march yoe) && (march yoe <? march_end yoe)
                    && (march_end yoe =? march yoe + year_length (yoe + 1)) && (0 <=? levelled (march yoe))) 400 = true.
Proof. vm_compute. reflexivity. Qed.

Lemma year_of_era_exact doe :
  0 ≤ doe < 146097 → let yoe := year_of_era doe in
  0 ≤ yoe < 400 ∧ march yoe ≤ doe < march yoe + year_length (yoe + 1).
Proof.
  intros Hdoe. assert (∃ yoe, 0 ≤ yoe < 400 ∧ march yoe ≤ doe < march_end yoe) as (yoe & Hy & Hm).
  { assert (∀ n, (n < 400)%nat → doe < march_end (Z.of_nat n) → ∃ yoe, 0 ≤ yoe < 400 ∧ march yoe ≤ doe < march_end yoe) as Hn.
    { induction n as [|n IH]; intros Hn Hlt; [exists 0; split; [lia|]; change (march 0) with 0; split; [lia|exact Hlt]|].
      destruct (decide (doe < march_end (Z.of_nat n))) as [|Hge]; [apply IH; [lia|done]|]. exists (Z.of_nat (S n)). split; [lia|].
      split; [|done]. unfold march_end in Hge. rewrite (proj2 (Z.eqb_neq _ _)) in Hge by lia.
      replace (Z.of_nat (S n)) with (Z.of_nat n + 1) by lia. lia. }
    apply (Hn 399%nat); [lia|]. change (march_end (Z.of_nat 399)) with 146097. lia. }
  pose proof (all_below_spec _ _ _ year_ends Hy) as He. simpl in He.
  apply andb_true_iff in He as [[[[[H1%Z.eqb_eq H2%Z.eqb_eq]%andb_true_iff H3]%andb_true_iff H4]%andb_true_iff H5%Z.eqb_eq]%andb_true_iff H6].
  assert (year_of_era doe = yoe) as Hyoe; [|cbv zeta; rewrite Hyoe; split; [done|lia]].
  unfold year_of_era in *. pose proof (levelled_mono (march yoe) doe) as Hlo. pose proof (levelled_mono doe (march_end yoe - 1)) as Hhi.
  rewrite Z.quot_div_nonneg in * by lia. Z.div_mod_to_equations. lia.
Qed.

(** *** Months *)

Lemma month_length_leap year year' month : leap year = leap year' → month_length year month = month_length year' month.
Proof. unfold month_length. by intros ->. Qed.

Lemma months_days_leap year year' n : leap year = leap year' → months_days year n = months_days year' n.
Proof. intros Hl. induction n as [|n IH]; simpl; [done|]. by rewrite IH, (month_length_leap _ year'). Qed.

(** A day of a year that begins in March, in a year [year] of its months: the
    last two months are of the year after. *)
Definition doy_ok (year doy : Z) : bool :=
  let '(month, day) := month_day doy in
  (1 <=? month) && (month <=? 12) && (1 <=? day) && Bool.eqb (306 <=? doy) (month <=? 2) &&
  if month <=? 2
  then (months_days year (Z.to_nat (month - 1)) + (day - 1) =? doy - 306)
       && ((365 <=? doy) && negb (leap year) || (day <=? month_length year month))
  else (months_days year (Z.to_nat (month - 1)) + (day - 1) =? doy + 59 + (if leap year then 1 else 0))
       && (day <=? month_length year month).

Lemma doys_ok : all_below (doy_ok 0) 366 && all_below (doy_ok 1) 366 = true.
Proof. vm_compute. reflexivity. Qed.

Lemma doy_exact year doy : 0 ≤ doy < 366 → doy_ok year doy = true.
Proof.
  intros Hd. pose proof doys_ok as [H0 H1]%andb_true_iff.
  assert (doy_ok (if leap year then 0 else 1) doy = true) as Hok.
  { destruct (leap year); [by apply (all_below_spec _ 366)|by apply (all_below_spec _ 366)]. }
  revert Hok. unfold doy_ok. destruct (month_day doy) as [month day].
  assert (leap (if leap year then 0 else 1) = leap year) as Hl by (by destruct (leap year)).
  by rewrite (months_days_leap _ year), (month_length_leap _ year), Hl.
Qed.

(** A day of an era has the date the code computes. *)
Lemma civil_of_era era doe :
  0 ≤ doe < 146097 → 0 ≤ era → wire_civil_from_days (doe + era * 146097 - 719468) =
    let yoe := year_of_era doe in let '(month, day) := month_day (doe - march yoe) in
    (yoe + era * 400 + (if month <=? 2 then 1 else 0), month, day).
Proof.
  intros Hdoe Hera. unfold wire_civil_from_days. replace (doe + era * 146097 - 719468 + 719468) with (doe + era * 146097) by lia.
  rewrite (proj2 (Z.leb_le 0 _)) by lia. assert (Z.quot (doe + era * 146097) 146097 = era) as ->.
  { rewrite Z.quot_div_nonneg by lia. rewrite Z.div_add by lia. rewrite Z.div_small; lia. }
  replace (doe + era * 146097 - era * 146097) with doe by lia. fold (levelled doe) (year_of_era doe).
  destruct (year_of_era_exact doe Hdoe) as [Hy _]. unfold march, month_day. by rewrite !(Z.quot_div_nonneg (year_of_era doe)) by lia.
Qed.

Lemma civil_exact days :
  0 ≤ days → let '(year, month, day) := wire_civil_from_days days in
  valid_date year month day = true ∧ date_days year month day = days.
Proof.
  intros Hd. set (doe := (days + 719468) mod 146097). set (era := (days + 719468) / 146097).
  assert (days = doe + era * 146097 - 719468 ∧ 0 ≤ doe < 146097 ∧ 4 ≤ era) as (Hdays & Hdoe & Hera).
  { unfold doe, era. Z.div_mod_to_equations. lia. }
  rewrite Hdays, (civil_of_era era doe Hdoe) by lia. cbv zeta. destruct (year_of_era_exact doe Hdoe) as [Hy Hm]. cbv zeta in Hm.
  set (yoe := year_of_era doe) in *. set (doy := doe - march yoe). clearbody yoe.
  assert (0 ≤ doy < 366) as Hdoy by (unfold doy, year_length in *; destruct (leap (yoe + 1)); lia).
  destruct (month_day doy) as [month day] eqn:Em.
  set (year := yoe + (if month <=? 2 then 1 else 0)).
  pose proof (doy_exact year doy Hdoy) as Hok. unfold doy_ok in Hok. rewrite Em in Hok.
  apply andb_true_iff in Hok as [[[[Hm1 Hm2]%andb_true_iff Hd1]%andb_true_iff Hjan%eqb_prop]%andb_true_iff Hok].
  replace (yoe + era * 400 + (if month <=? 2 then 1 else 0)) with (year + 400 * era) by (unfold year; lia).
  assert (1970 ≤ year + 400 * era) as H1970.
  { unfold year. destruct (decide (era = 4)) as [->|]; [|destruct (month <=? 2); lia]. unfold doy, march in *.
    destruct (Z.leb_spec 306 (doe - (365 * yoe + yoe / 4 - yoe / 100))); rewrite <-Hjan; unfold year_length in Hm;
      destruct (leap (yoe + 1)); Z.div_mod_to_equations; lia. }
  assert (before_year year = if month <=? 2 then march yoe + 365 else march yoe - (if leap year then 1 else 0)) as Hbefore.
  { unfold year. destruct (month <=? 2).
    - unfold before_year, march. replace (yoe + 1 - 1) with yoe by lia. Z.div_mod_to_equations. lia.
    - rewrite Z.add_0_r. pose proof (before_year_step yoe) as Hs. unfold year_length in Hs.
      assert (before_year (yoe + 1) = march yoe + 365) as He.
      { unfold before_year, march. replace (yoe + 1 - 1) with yoe by lia. Z.div_mod_to_equations. lia. }
      destruct (leap yoe); lia. }
  unfold valid_date, date_days. rewrite month_length_period, months_days_period, years_days_closed.
  replace (1970 + Z.of_nat (Z.to_nat (year + 400 * era - 1970))) with (year + 400 * era) by lia. rewrite before_year_period.
  change (before_year 1970) with 719527. rewrite Hm1, Hm2, Hd1. simpl. rewrite Hbefore. destruct (month <=? 2).
  - apply andb_true_iff in Hok as [Hpos%Z.eqb_eq Hlen]. split; [|unfold doy in *; lia].
    apply orb_true_iff in Hlen as [[Hlast Hl]%andb_true_iff|]; [|done]. exfalso. apply Z.leb_le in Hlast. apply negb_true_iff in Hl.
    unfold year, year_length, doy in *. rewrite Hl in Hm. lia.
  - apply andb_true_iff in Hok as [Hpos%Z.eqb_eq Hlen]. split; [done|unfold doy in *; lia].
Qed.

(** ** Timestamps *)

Definition same_instant (year month day hour minute second nanos ns : Z) : Prop :=
  valid_date year month day = true ∧ 0 ≤ hour < 24 ∧ 0 ≤ minute < 60 ∧ 0 ≤ second < 60 ∧ 0 ≤ nanos < 1000000000 ∧
  (((date_days year month day * 24 + hour) * 60 + minute) * 60 + second) * 1000000000 + nanos = ns.

Lemma rfc3339_exact ns :
  0 ≤ ns → ∃ year month day hour minute second nanos,
    rfc3339_from_unix_ns ns = civil_text year month day hour minute second nanos ∧
    same_instant year month day hour minute second nanos ns.
Proof.
  intros Hns. unfold rfc3339_from_unix_ns. pose proof (civil_exact (ns / 1000000000 / 86400)) as Hc.
  destruct (wire_civil_from_days _) as [[year month] day]. repeat eexists; try (apply Z.mod_pos_bound; lia).
  all: destruct Hc as [Hv Hd]; [Z.div_mod_to_equations; lia|]; try exact Hv; rewrite ?Hd; clear Hv Hd; Z.div_mod_to_equations; lia.
Qed.

(** The time an answer gives of an event is the wall clock's: a date of the
    calendar with its leap years and a time of the day that together are the
    instant the wall clock showed when the event was seen, kept within the range
    of the clock. *)
Theorem timestamp_names_the_instant time event_ns :
  is_u64 time.(monotonic_now_ns) → is_u64 time.(realtime_now_ns) → is_u64 event_ns →
  ∃ year month day hour minute second nanos,
    realtime_timestamp time event_ns = civil_text year month day hour minute second nanos ∧
    same_instant year month day hour minute second nanos
      (Z.min u64_max (Z.max 0 (time.(realtime_now_ns) + event_ns - time.(monotonic_now_ns)))).
Proof.
  intros [? ?] [? ?] [? ?]. unfold realtime_timestamp.
  assert (project_unix_ns time event_ns =
          Z.min u64_max (Z.max 0 (realtime_now_ns time + event_ns - monotonic_now_ns time))) as ->.
  { unfold project_unix_ns, u64_saturating_sub, u64_saturating_add. destruct (Z.leb_spec event_ns (monotonic_now_ns time)); lia. }
  apply rfc3339_exact. unfold u64_max. lia.
Qed.

Definition example_time : ControlResponseTimeProjection :=
  {| monotonic_now_ns := 5000000000; realtime_now_ns := 1709210101123456789 |}.

(** A leap day. *)
Example leap_day_timestamp : realtime_timestamp example_time 3000000000 = "2024-02-29T12:34:59.123456789Z".
Proof. vm_compute. reflexivity. Qed.

Lemma timestamp_names_the_instant_witness :
  ∃ year month day hour minute second nanos,
    realtime_timestamp example_time 3000000000 = civil_text year month day hour minute second nanos ∧
    same_instant year month day hour minute second nanos 1709210099123456789.
Proof.
  apply (timestamp_names_the_instant example_time 3000000000); split; simpl; unfold u64_max; lia.
Defined.
