(* ===== verification/ControlConnection.v ===== *)
(** * Control connections

    Models [src/src/control/connection/] (the state of a connection, reading
    and writing it, the table of connections and who is let in),
    [control/socket/connection.rs] (what a system call says),
    [jobs/connection/] (the same for the jobs socket) and
    [supervisor/control_connection/] (a turn of a connection: the frames that are
    served, the answers, the waits).

    What is behind a connection is the class [ControlConnectionIo]. What a
    command does is the class [ControlBody]: [run_body] is the supervisor's
    [run_checked_control_body_with_response], of which a turn only uses the
    answer and the wait; the theorems about turns hold for every one. *)

From S2P Require Import Prelude RustStr ServiceRuntime ServiceDef Ids OperationRecord JobRecord SubmittedDef SubmittedStore Shutdown.
From S2P Require Import RegistryValue ControlWire.
From Stdlib Require Import Ascii String.
Open Scope string_scope.
Open Scope list_scope.
Open Scope Z_scope.

(** ** The socket ([socket/connection.rs]) *)

Inductive ControlSocketRead : Type := SrBytes (bytes : string) | SrEof | SrWouldBlock.
Inductive ControlSocketWrite : Type := SwComplete | SwPartial (written : nat) | SwWouldBlock.

(** What the kernel answers: a count of bytes, or an error number. *)
Inductive SysReturn (E : Type) : Type := SysCount (n : nat) | SysError (error : E).
Arguments SysCount {E} n.
Arguments SysError {E} error.

Section Socket.
Context {E : Type} (is_would_block : E → bool).

(** [read] into a buffer, of which the kernel filled [buffer] up to the count. *)
Definition socket_read (buffer : string) (rc : SysReturn E) : Result ControlSocketRead E :=
  match rc with
  | SysCount O => Ok SrEof
  | SysCount n => Ok (SrBytes (str_take n buffer))
  | SysError error => if is_would_block error then Ok SrWouldBlock else Err error
  end.

Definition socket_write (bytes : string) (rc : SysReturn E) : Result ControlSocketWrite E :=
  match rc with
  | SysError error => if is_would_block error then Ok SwWouldBlock else Err error
  | SysCount written =>
      if (written =? String.length bytes)%nat then Ok SwComplete
      else if (written =? 0)%nat then Ok SwWouldBlock
      else Ok (SwPartial written)
  end.
End Socket.

(** ** The state of a connection ([state.rs]) *)

Record ControlOperationWait : Type := { cow_operation_id : OperationId; cow_service : string }.

Inductive ControlPendingWait : Type :=
| WaitOperation (wait : ControlOperationWait)
| WaitJob (job_id : JobId) (granted : Z).

Record ControlConnectionState : Type := {
  ccs_read_buffer : ControlConnectionBuffer;
  ccs_write_buffer : ControlWriteBuffer;
  ccs_close_after_write : bool;
  ccs_pending_wait : option ControlPendingWait;
  ccs_last_activity_ns : option Z;
}.

Definition connection_state_new : ControlConnectionState := {|
  ccs_read_buffer := {| cb_bytes := "" |}; ccs_write_buffer := {| wb_bytes := ""; wb_written := 0 |};
  ccs_close_after_write := false; ccs_pending_wait := None; ccs_last_activity_ns := None |}.

Definition enqueue_response (response_line : string) (close_after_response : bool) (self : ControlConnectionState)
    : ControlConnectionState :=
  {| self with ccs_write_buffer := write_enqueue response_line self.(ccs_write_buffer);
     ccs_close_after_write := self.(ccs_close_after_write) || close_after_response |}.

Definition set_pending_wait (wait : ControlPendingWait) (self : ControlConnectionState) : ControlConnectionState :=
  {| self with ccs_pending_wait := Some wait |}.

Definition clear_pending_wait (self : ControlConnectionState) : ControlConnectionState :=
  {| self with ccs_pending_wait := None |}.

Definition mark_activity (observed_at_ns : Z) (self : ControlConnectionState) : ControlConnectionState :=
  {| self with ccs_last_activity_ns := Some observed_at_ns |}.

Definition holds_runnable_frame (self : ControlConnectionState) : bool :=
  bool_decide (self.(ccs_pending_wait) = None) && holds_complete_frame self.(ccs_read_buffer).

Definition idle_deadline (last_activity_ns : option Z) (timeout_secs : Z) : option Z :=
  (λ last_activity_ns, u64_saturating_add last_activity_ns (u64_saturating_mul timeout_secs 1000000000)) <$> last_activity_ns.

Definition idle_deadline_ns (timeout_secs : Z) (self : ControlConnectionState) : option Z :=
  if bool_decide (is_Some self.(ccs_pending_wait)) || negb (write_is_empty self.(ccs_write_buffer))
     || holds_complete_frame self.(ccs_read_buffer)
  then None else idle_deadline self.(ccs_last_activity_ns) timeout_secs.

Definition idle_timeout_expired (now_ns timeout_secs : Z) (self : ControlConnectionState) : bool :=
  is_some_and (idle_deadline_ns timeout_secs self) (λ deadline_ns, deadline_ns <=? now_ns).

(** ** Reading and writing ([io.rs], [record.rs], [turn.rs]) *)

Class ControlConnectionIo (I : Type) : Type := {
  ReadError : Type;
  WriteError : Type;
  read_control : nat → I → Result ControlSocketRead ReadError * I;
  write_control : string → I → Result ControlSocketWrite WriteError * I;
}.

Inductive ControlPeerToken : Type := BorrowedRawFd (fd : Z) | OwnedTokenFd (fd : Z).

Record ControlPeer : Type := { cp_token : ControlPeerToken; cp_summary : TokenSummary }.

Record ControlConnectionRecord (I : Type) : Type := {
  ccr_io : I;
  ccr_peer : ControlPeer;
  ccr_state : ControlConnectionState;
}.
Arguments ccr_io {I} _.
Arguments ccr_peer {I} _.
Arguments ccr_state {I} _.

Inductive ControlConnectionReadTurn : Type :=
| ReadBytes (read_bytes buffered_bytes : nat)
| ReadEof
| ReadWouldBlock (buffered_bytes : nat).

#[export] Instance ControlConnectionReadTurn_eq_dec : EqDecision ControlConnectionReadTurn.
Proof. solve_decision. Defined.

Inductive ControlConnectionWriteTurn : Type :=
| WriteIdle (close_after_write : bool)
| WriteComplete (written : nat) (close_after_write : bool)
| WritePartial (written pending_bytes : nat)
| WriteWouldBlock (pending_bytes : nat).

Definition record_new_with_activity {I} (io : I) (peer : ControlPeer) (observed_at_ns : option Z)
    : ControlConnectionRecord I :=
  {| ccr_io := io; ccr_peer := peer;
     ccr_state := match observed_at_ns with
                  | Some at_ns => mark_activity at_ns connection_state_new
                  | None => connection_state_new
                  end |}.

Definition with_state {I} (state : ControlConnectionState) (self : ControlConnectionRecord I) : ControlConnectionRecord I :=
  {| ccr_io := self.(ccr_io); ccr_peer := self.(ccr_peer); ccr_state := state |}.

Section Io.
Context {I : Type} `{Io : ControlConnectionIo I}.

Inductive ControlConnectionWriteTurnError : Type :=
| WriteSocket (error : WriteError)
| WriteBuffer (error : ControlWriteBufferError).

Definition read_control_connection (max_read_bytes : nat) (self : ControlConnectionRecord I)
    : Result ControlConnectionReadTurn ReadError * ControlConnectionRecord I :=
  let '(read, io) := read_control max_read_bytes self.(ccr_io) in
  let state := self.(ccr_state) in
  let at_state state := {| ccr_io := io; ccr_peer := self.(ccr_peer); ccr_state := state |} in
  match read with
  | Err error => (Err error, at_state state)
  | Ok (SrBytes bytes) =>
      let buffer := buffer_append bytes state.(ccs_read_buffer) in
      (Ok (ReadBytes (String.length bytes) (buffer_len buffer)), at_state {| state with ccs_read_buffer := buffer |})
  | Ok SrEof => (Ok ReadEof, at_state state)
  | Ok SrWouldBlock => (Ok (ReadWouldBlock (buffer_len state.(ccs_read_buffer))), at_state state)
  end.

Definition flush_control_connection (self : ControlConnectionRecord I)
    : Result ControlConnectionWriteTurn ControlConnectionWriteTurnError * ControlConnectionRecord I :=
  let state := self.(ccr_state) in
  let buffer := state.(ccs_write_buffer) in
  if write_is_empty buffer then (Ok (WriteIdle state.(ccs_close_after_write)), self)
  else
    let pending_before := pending_len buffer in
    let '(write, io) := write_control (pending_slice buffer) self.(ccr_io) in
    let at_buffer buffer :=
      {| ccr_io := io; ccr_peer := self.(ccr_peer); ccr_state := {| state with ccs_write_buffer := buffer |} |} in
    let advanced count k :=
      match advance_written count buffer with
      | Ok buffer => (Ok (k buffer), at_buffer buffer)
      | Err error => (Err (WriteBuffer error), at_buffer buffer)
      end in
    match write with
    | Err error => (Err (WriteSocket error), at_buffer buffer)
    | Ok SwComplete => advanced pending_before (λ _, WriteComplete pending_before state.(ccs_close_after_write))
    | Ok (SwPartial written) => advanced written (λ buffer, WritePartial written (pending_len buffer))
    | Ok SwWouldBlock => (Ok (WriteWouldBlock pending_before), at_buffer buffer)
    end.
End Io.

(** ** The table ([table.rs]) *)

Inductive ControlConnectionAdmissionDecision : Type := AdmitAccept | AdmitRejectAtSocket.

#[export] Instance ControlConnectionAdmissionDecision_eq_dec : EqDecision ControlConnectionAdmissionDecision.
Proof. solve_decision. Defined.

Inductive ControlConnectionAdmission (R : Type) : Type :=
| AdmissionAccepted (fd : Z) (active_connections : nat)
| AdmissionRejectedAtSocket (fd : Z) (record : R) (active_connections : nat) (max_connections : Z).
Arguments AdmissionAccepted {R}.
Arguments AdmissionRejectedAtSocket {R}.

Inductive ControlConnectionTableError : Type := AlreadyTracked (fd : Z).

Record ControlConnectionTable (R : Type) : Type := {
  cct_max_connections : Z;
  cct_max_connections_per_caller : Z;
  cct_records : gmap Z R;
}.
Arguments cct_max_connections {R} _.
Arguments cct_max_connections_per_caller {R} _.
Arguments cct_records {R} _.

Definition control_connection_admission_decision (active_connections : nat) (max_connections : Z)
    : ControlConnectionAdmissionDecision :=
  if max_connections <=? Z.of_nat active_connections then AdmitRejectAtSocket else AdmitAccept.

Section Table.
Context {R : Type}.

(** No bound for a caller until it is set: [usize::MAX]. *)
Definition table_new (max_connections : Z) : ControlConnectionTable R :=
  {| cct_max_connections := max_connections; cct_max_connections_per_caller := u64_max; cct_records := ∅ |}.

Definition set_max_connections (max_connections : Z) (self : ControlConnectionTable R) : ControlConnectionTable R :=
  {| self with cct_max_connections := max_connections |}.

Definition set_max_connections_per_caller (per_caller : Z) (self : ControlConnectionTable R) : ControlConnectionTable R :=
  {| self with cct_max_connections_per_caller := per_caller |}.

Definition table_len (self : ControlConnectionTable R) : nat := size self.(cct_records).

Definition admission_decision (self : ControlConnectionTable R) : ControlConnectionAdmissionDecision :=
  control_connection_admission_decision (table_len self) self.(cct_max_connections).

Definition with_records (records : gmap Z R) (self : ControlConnectionTable R) : ControlConnectionTable R :=
  {| self with cct_records := records |}.

Definition admit_connection (fd : Z) (record : R) (self : ControlConnectionTable R)
    : Result (ControlConnectionAdmission R) ControlConnectionTableError * ControlConnectionTable R :=
  if bool_decide (is_Some (self.(cct_records) !! fd)) then (Err (AlreadyTracked fd), self)
  else if bool_decide (admission_decision self = AdmitRejectAtSocket) then
    (Ok (AdmissionRejectedAtSocket fd record (table_len self) self.(cct_max_connections)), self)
  else
    let self := with_records (<[fd := record]> self.(cct_records)) self in
    (Ok (AdmissionAccepted fd (table_len self)), self).

Definition table_remove (fd : Z) (self : ControlConnectionTable R) : ControlConnectionTable R :=
  with_records (delete fd self.(cct_records)) self.

(** What a borrow for change leaves under [fd]. *)
Definition table_put (fd : Z) (record : R) (self : ControlConnectionTable R) : ControlConnectionTable R :=
  with_records (<[fd := record]> self.(cct_records)) self.

Definition table_fds (self : ControlConnectionTable R) : list Z := btree_keys self.(cct_records).

(** The descriptors of the records of which [p] holds, in order, and the first
    of the times [f] gives of them. *)
Definition fds_with (p : R → bool) (self : ControlConnectionTable R) : list Z :=
  omap (λ '(fd, record), then_some (p record) fd) (btree_iter self.(cct_records)).

Definition first_deadline (f : R → option Z) (self : ControlConnectionTable R) : option Z :=
  list_min (omap f (btree_values self.(cct_records))).
End Table.

Section Records.
Context {I : Type}.

Definition has_pending_waits (self : ControlConnectionTable (ControlConnectionRecord I)) : bool :=
  existsb (λ record, bool_decide (is_Some record.(ccr_state).(ccs_pending_wait))) (btree_values self.(cct_records)).

Definition fds_with_runnable_frames (self : ControlConnectionTable (ControlConnectionRecord I)) : list Z :=
  fds_with (λ record, holds_runnable_frame record.(ccr_state)) self.

Definition idle_fds (now_ns timeout_secs : Z) (self : ControlConnectionTable (ControlConnectionRecord I)) : list Z :=
  fds_with (λ record, idle_timeout_expired now_ns timeout_secs record.(ccr_state)) self.

Definition next_idle_deadline_ns (timeout_secs : Z) (self : ControlConnectionTable (ControlConnectionRecord I)) : option Z :=
  first_deadline (λ record, idle_deadline_ns timeout_secs record.(ccr_state)) self.
End Records.

(** ** Who is let in ([accept.rs]) *)

Definition CONTROL_SYSTEM_SID : string := "S-1-5-18".

Class ControlListener (L I : Type) : Type := {
  AcceptError : Type;
  accept_control : L → Result (option I) AcceptError * L;
  control_fd : I → Z;
  control_peer : I → Result ControlPeer string;
}.

Inductive ControlConnectionAcceptTurn : Type :=
| AcceptAccepted (fd : Z) (active_connections : nat)
| AcceptRejectedAtSocket (fd : Z) (active_connections : nat) (max_connections : Z)
| AcceptRejectedForCaller (fd : Z) (sid : string) (held : nat) (max_per_caller : Z)
| AcceptPeerRejected (fd : Z) (error : string)
| AcceptWouldBlock.

Section Accept.
Context {L I : Type} `{Listener : ControlListener L I}.

Inductive ControlConnectionAcceptError : Type :=
| AcceptSocket (error : AcceptError)
| AcceptTable (error : ControlConnectionTableError).

Definition record_caller (record : ControlConnectionRecord I) : string := caller_sid record.(ccr_peer).(cp_summary).

(** The connections [sid] holds. *)
Definition held_by (sid : string) (table : ControlConnectionTable (ControlConnectionRecord I)) : nat :=
  List.length (retain (λ record, bool_decide (record_caller record = sid)) (btree_values table.(cct_records))).

Definition admit_accepted (connection : I) (peer : ControlPeer) (observed_at_ns : option Z)
    (table : ControlConnectionTable (ControlConnectionRecord I))
    : Result ControlConnectionAcceptTurn ControlConnectionAcceptError * ControlConnectionTable (ControlConnectionRecord I) :=
  let fd := control_fd connection in
  let sid := caller_sid peer.(cp_summary) in
  let max_per_caller := table.(cct_max_connections_per_caller) in
  if negb (bool_decide (sid = CONTROL_SYSTEM_SID)) && (max_per_caller <=? Z.of_nat (held_by sid table)) then
    (Ok (AcceptRejectedForCaller fd sid (held_by sid table) max_per_caller), table)
  else
    let '(admission, table) := admit_connection fd (record_new_with_activity connection peer observed_at_ns) table in
    (match admission with
     | Err error => Err (AcceptTable error)
     | Ok (AdmissionAccepted _ active) => Ok (AcceptAccepted fd active)
     | Ok (AdmissionRejectedAtSocket _ _ active max) => Ok (AcceptRejectedAtSocket fd active max)
     end, table).

Definition accept_control_connection_at (observed_at_ns : option Z) (listener : L)
    (table : ControlConnectionTable (ControlConnectionRecord I))
    : Result ControlConnectionAcceptTurn ControlConnectionAcceptError * L * ControlConnectionTable (ControlConnectionRecord I) :=
  let '(accepted, listener) := accept_control listener in
  match accepted with
  | Err error => (Err (AcceptSocket error), listener, table)
  | Ok None => (Ok AcceptWouldBlock, listener, table)
  | Ok (Some connection) =>
      match control_peer connection with
      | Err error => (Ok (AcceptPeerRejected (control_fd connection) error), listener, table)
      | Ok peer => let '(turn, table) := admit_accepted connection peer observed_at_ns table in (turn, listener, table)
      end
  end.
End Accept.

(** ** Frames ([supervisor/control_connection/frame/]) *)

Inductive ControlCommandBodyResponse (D E : Type) : Type :=
| BodyAccepted (response_line : option string) (dispatch : D) (wait : option ControlPendingWait)
| BodyRejected (response_line : string) (error : E).
Arguments BodyAccepted {D E}.
Arguments BodyRejected {D E}.

(** What a supervisor [S] does with the body of a request, in its usual work and
    in shutdown; an error is one of writing the answer. The dispatch is what the
    caller of a turn hears of it, with the rights that were refused. *)
Class ControlBody (S : Type) : Type := {
  BodyDispatch : Type;
  BodyError : Type;
  run_body : ControlPeer → string → S → Result (ControlCommandBodyResponse BodyDispatch BodyError) string * S;
  ShutdownBodyDispatch : Type;
  ShutdownBodyError : Type;
  run_shutdown_body :
    ControlPeer → string → S → Result (string * (ShutdownBodyDispatch + ShutdownBodyError)) string * S;
}.

Section Turn.
Context {S : Type} `{Body : ControlBody S}.
Context `{JsonNumber} (to_vec : Value → Result string string).

Definition frame_reject_response_line (reason : ControlFrameRejectReason) : Result string string :=
  let code := code_of_reject reason in
  control_error_response_line to_vec code (control_client_error_message code).

Inductive SupervisorControlFrameTurn : Type :=
| FtIncomplete (buffered_bytes : nat)
| FtRejectedFrame (reason : ControlFrameRejectReason) (line : string) (close_after_response : bool)
| FtShutdownAccepted (line : string) (dispatch : ShutdownBodyDispatch) (remaining_bytes : nat)
| FtShutdownRejected (line : string) (error : ShutdownBodyError) (remaining_bytes : nat)
| FtCommandAccepted (line : option string) (dispatch : BodyDispatch) (wait : option ControlPendingWait)
    (remaining_bytes : nat)
| FtCommandRejected (line : string) (error : BodyError) (remaining_bytes : nat).

Definition frame_response_line (self : SupervisorControlFrameTurn) : option string :=
  match self with
  | FtIncomplete _ => None
  | FtRejectedFrame _ line _ | FtShutdownAccepted line _ _ | FtShutdownRejected line _ _ | FtCommandRejected line _ _ => Some line
  | FtCommandAccepted line _ _ _ => line
  end.

Definition frame_wait (self : SupervisorControlFrameTurn) : option ControlPendingWait :=
  match self with FtCommandAccepted _ _ wait _ => wait | _ => None end.

Definition frame_close_after_response (self : SupervisorControlFrameTurn) : bool :=
  match self with FtRejectedFrame _ _ close_after_response => close_after_response | _ => false end.

Inductive SupervisorControlFrameTurnError : Type :=
| FteBuffer (error : ControlBufferConsumeError)
| FteResponseSerialize (message : string).

(** The next frame, of which [run] serves the body. *)
Definition next_frame (run : string → S → Result (nat → SupervisorControlFrameTurn) string * S) (max_request_bytes : nat)
    (buffer : ControlConnectionBuffer) (s : S)
    : Result SupervisorControlFrameTurn SupervisorControlFrameTurnError * ControlConnectionBuffer * S :=
  match frame_decision max_request_bytes buffer with
  | FrameIncomplete => (Ok (FtIncomplete (buffer_len buffer)), buffer, s)
  | FrameReject reason =>
      match frame_reject_response_line reason with
      | Err message => (Err (FteResponseSerialize message), buffer, s)
      | Ok line => (Ok (FtRejectedFrame reason line true), buffer_clear buffer, s)
      end
  | FrameComplete body consumed =>
      match buffer_consume consumed buffer with
      | Err error => (Err (FteBuffer error), buffer, s)
      | Ok buffer =>
          let '(response, s) := run body s in
          match response with
          | Err message => (Err (FteResponseSerialize message), buffer, s)
          | Ok turn => (Ok (turn (buffer_len buffer)), buffer, s)
          end
      end
  end.

Definition process_next_control_frame (peer : ControlPeer) : nat → ControlConnectionBuffer → S → _ :=
  next_frame (λ body s,
    let '(response, s) := run_body peer body s in
    (map_ok (λ response,
       match response with
       | BodyAccepted line dispatch wait => FtCommandAccepted line dispatch wait
       | BodyRejected line error => FtCommandRejected line error
       end) response, s)).

Definition process_next_shutdown_control_frame (peer : ControlPeer) : nat → ControlConnectionBuffer → S → _ :=
  next_frame (λ body s,
    let '(response, s) := run_shutdown_body peer body s in
    (map_ok (λ '(line, result),
       match result with
       | inl dispatch => FtShutdownAccepted line dispatch
       | inr error => FtShutdownRejected line error
       end) response, s)).

Record SupervisorControlConnectionFrameTurn : Type := {
  cft_frame : SupervisorControlFrameTurn;
  cft_pending_write_bytes : nat;
  cft_close_after_write : bool;
}.

(** The answer of a frame is queued, and its wait is set. *)
Definition keep_frame (frame : SupervisorControlFrameTurn) (connection : ControlConnectionState) : ControlConnectionState :=
  let connection :=
    match frame_response_line frame with
    | Some line => enqueue_response line (frame_close_after_response frame) connection
    | None => connection
    end in
  match frame_wait frame with Some wait => set_pending_wait wait connection | None => connection end.

Definition connection_frame
    (process : nat → ControlConnectionBuffer → S
               → Result SupervisorControlFrameTurn SupervisorControlFrameTurnError * ControlConnectionBuffer * S)
    (max_request_bytes : nat) (connection : ControlConnectionState) (s : S)
    : Result SupervisorControlConnectionFrameTurn SupervisorControlFrameTurnError * ControlConnectionState * S :=
  let '(frame, buffer, s) := process max_request_bytes connection.(ccs_read_buffer) s in
  let connection := {| connection with ccs_read_buffer := buffer |} in
  match frame with
  | Err error => (Err error, connection, s)
  | Ok frame =>
      let connection := keep_frame frame connection in
      (Ok {| cft_frame := frame; cft_pending_write_bytes := pending_len connection.(ccs_write_buffer);
             cft_close_after_write := connection.(ccs_close_after_write) |}, connection, s)
  end.

Definition process_next_control_connection_frame (peer : ControlPeer) := connection_frame (process_next_control_frame peer).
Definition process_next_shutdown_control_connection_frame (peer : ControlPeer) :=
  connection_frame (process_next_shutdown_control_frame peer).

(** ** Turns ([supervisor/control_connection/turn/]) *)

Definition should_close_connection (read : ControlConnectionReadTurn) (write : ControlConnectionWriteTurn) : bool :=
  match write with
  | WritePartial _ _ | WriteWouldBlock _ => false
  | WriteIdle close_after_write | WriteComplete _ close_after_write =>
      bool_decide (read = ReadEof) || close_after_write
  end.

Definition control_connection_observed_activity {T} (read : ControlConnectionReadTurn) (frames : list T)
    (write : ControlConnectionWriteTurn) : bool :=
  match read with ReadBytes read_bytes _ => (0 <? read_bytes)%nat | _ => false end
  || negb (bool_decide (List.length frames = O))
  || match write with
     | WriteComplete written _ | WritePartial written _ => (0 <? written)%nat
     | _ => false
     end.

(** The condition of the loop over the frames that are here. *)
Definition more_frames {T} (read : ControlConnectionReadTurn) (frames : list T) (connection : ControlConnectionState) : bool :=
  negb (bool_decide (read = ReadEof)) && bool_decide (connection.(ccs_pending_wait) = None)
  && negb connection.(ccs_close_after_write)
  && (bool_decide (List.length frames = O) || holds_complete_frame connection.(ccs_read_buffer)).

(** [None] when the fuel is spent before the loop is left. *)
Fixpoint frame_loop (fuel : nat) (peer : ControlPeer) (max_request_bytes : nat) (read : ControlConnectionReadTurn)
    (frames : list SupervisorControlConnectionFrameTurn) (connection : ControlConnectionState) (s : S)
    : option (Result (list SupervisorControlConnectionFrameTurn) SupervisorControlFrameTurnError * ControlConnectionState * S) :=
  if more_frames read frames connection then
    match fuel with
    | O => None
    | Datatypes.S fuel =>
        let '(frame, connection, s) := process_next_control_connection_frame peer max_request_bytes connection s in
        match frame with
        | Err error => Some (Err error, connection, s)
        | Ok frame => frame_loop fuel peer max_request_bytes read (frames ++ [frame]) connection s
        end
    end
  else Some (Ok frames, connection, s).

(** Each round but the first takes a line off the buffer. *)
Definition frame_fuel (connection : ControlConnectionState) : nat := (buffer_len connection.(ccs_read_buffer) + 1)%nat.

Section Connection.
Context {I : Type} `{Io : ControlConnectionIo I}.

Record SupervisorControlConnectionTurn : Type := {
  cnt_read : ControlConnectionReadTurn;
  cnt_frames : list SupervisorControlConnectionFrameTurn;
  cnt_write : ControlConnectionWriteTurn;
  cnt_close_connection : bool;
}.

Inductive SupervisorControlConnectionTurnError : Type :=
| TurnRead (error : ReadError)
| TurnFrame (error : SupervisorControlFrameTurnError)
| TurnWrite (error : ControlConnectionWriteTurnError (I := I)).

Definition TurnResult : Type :=
  Result SupervisorControlConnectionTurn SupervisorControlConnectionTurnError * ControlConnectionRecord I * S.

(** The end of a turn: what is queued is written. *)
Definition finish_turn (observed_at_ns : Z) (read : ControlConnectionReadTurn)
    (frames : list SupervisorControlConnectionFrameTurn) (connection : ControlConnectionRecord I) (s : S) : TurnResult :=
  let '(write, connection) := flush_control_connection connection in
  match write with
  | Err error => (Err (TurnWrite error), connection, s)
  | Ok write =>
      let close_connection := should_close_connection read write in
      let state := connection.(ccr_state) in
      let state := if control_connection_observed_activity read frames write then mark_activity observed_at_ns state else state in
      (Ok {| cnt_read := read; cnt_frames := frames; cnt_write := write; cnt_close_connection := close_connection |},
       with_state state connection, s)
  end.

Definition process_control_connection_turn (max_read_bytes max_request_bytes : nat) (observed_at_ns : Z)
    (connection : ControlConnectionRecord I) (s : S) : option TurnResult :=
  let '(read, connection) := read_control_connection max_read_bytes connection in
  match read with
  | Err error => Some (Err (TurnRead error), connection, s)
  | Ok read =>
      let state := connection.(ccr_state) in
      '(frames, state, s) ← frame_loop (frame_fuel state) connection.(ccr_peer) max_request_bytes read [] state s;
      let connection := with_state state connection in
      match frames with
      | Err error => Some (Err (TurnFrame error), connection, s)
      | Ok frames => Some (finish_turn observed_at_ns read frames connection s)
      end
  end.

(** In shutdown a turn serves one frame. *)
Definition process_shutdown_control_connection_turn (max_read_bytes max_request_bytes : nat) (observed_at_ns : Z)
    (connection : ControlConnectionRecord I) (s : S) : TurnResult :=
  let '(read, connection) := read_control_connection max_read_bytes connection in
  match read with
  | Err error => (Err (TurnRead error), connection, s)
  | Ok read =>
      if bool_decide (read = ReadEof) then finish_turn observed_at_ns read [] connection s
      else
        let '(frame, state, s) :=
          process_next_shutdown_control_connection_frame connection.(ccr_peer) max_request_bytes connection.(ccr_state) s in
        let connection := with_state state connection in
        match frame with
        | Err error => (Err (TurnFrame error), connection, s)
        | Ok frame => finish_turn observed_at_ns read [frame] connection s
        end
  end.

(** *** The table's connections ([table_turn.rs]) *)

Record SupervisorControlConnectionTableTurn : Type := {
  ctt_fd : Z;
  ctt_turn : SupervisorControlConnectionTurn;
  ctt_removed : bool;
  ctt_active_connections : nat;
}.

Inductive SupervisorControlConnectionTableTurnError : Type :=
| MissingConnection (fd : Z)
| TableConnection (error : SupervisorControlConnectionTurnError).

Definition table_turn (fd : Z) (turned : TurnResult) (connections : ControlConnectionTable (ControlConnectionRecord I))
    : Result SupervisorControlConnectionTableTurn SupervisorControlConnectionTableTurnError
      * ControlConnectionTable (ControlConnectionRecord I) * S :=
  let '(turn, connection, s) := turned in
  let connections := table_put fd connection connections in
  match turn with
  | Err error => (Err (TableConnection error), connections, s)
  | Ok turn =>
      let connections := if turn.(cnt_close_connection) then table_remove fd connections else connections in
      (Ok {| ctt_fd := fd; ctt_turn := turn; ctt_removed := turn.(cnt_close_connection);
             ctt_active_connections := table_len connections |}, connections, s)
  end.

Definition process_control_connection_table_turn (max_read_bytes max_request_bytes : nat) (observed_at_ns fd : Z)
    (connections : ControlConnectionTable (ControlConnectionRecord I)) (s : S)
    : option (Result SupervisorControlConnectionTableTurn SupervisorControlConnectionTableTurnError
              * ControlConnectionTable (ControlConnectionRecord I) * S) :=
  match connections.(cct_records) !! fd with
  | None => Some (Err (MissingConnection fd), connections, s)
  | Some connection =>
      turned ← process_control_connection_turn max_read_bytes max_request_bytes observed_at_ns connection s;
      Some (table_turn fd turned connections)
  end.

Definition process_shutdown_control_connection_table_turn (max_read_bytes max_request_bytes : nat) (observed_at_ns fd : Z)
    (connections : ControlConnectionTable (ControlConnectionRecord I)) (s : S)
    : Result SupervisorControlConnectionTableTurn SupervisorControlConnectionTableTurnError
      * ControlConnectionTable (ControlConnectionRecord I) * S :=
  match connections.(cct_records) !! fd with
  | None => (Err (MissingConnection fd), connections, s)
  | Some connection =>
      table_turn fd (process_shutdown_control_connection_turn max_read_bytes max_request_bytes observed_at_ns connection s)
        connections
  end.
End Connection.
End Turn.

(** ** Waits ([supervisor/control_connection/wait.rs])

    [answer] is the supervisor's: the line a wait is answered with, or [None]
    while what it waits for has not ended. *)

Inductive SupervisorControlWaitCompletion : Type := DoneOperation (id : OperationId) | DoneJob (id : JobId).

Definition wait_completion (wait : ControlPendingWait) : SupervisorControlWaitCompletion :=
  match wait with WaitOperation wait => DoneOperation wait.(cow_operation_id) | WaitJob id _ => DoneJob id end.

Record SupervisorControlWaitFlush : Type := {
  cwf_fd : Z;
  cwf_completion : SupervisorControlWaitCompletion;
  cwf_write : ControlConnectionWriteTurn;
}.

Section Wait.
Context {I : Type} `{Io : ControlConnectionIo I} (answer : ControlPendingWait → option (Result string string)).

Inductive SupervisorControlWaitFlushError : Type :=
| FlushResponse (message : string)
| FlushWrite (error : ControlConnectionWriteTurnError (I := I)).

(** One connection of the loop: [None] when it has nothing to be told. *)
Definition flush_wait (observed_at_ns fd : Z) (connection : ControlConnectionRecord I)
    : option (Result SupervisorControlWaitFlush SupervisorControlWaitFlushError * ControlConnectionRecord I) :=
  pending ← connection.(ccr_state).(ccs_pending_wait);
  line ← answer pending;
  match line with
  | Err message => Some (Err (FlushResponse message), connection)
  | Ok line =>
      let state := enqueue_response line false (clear_pending_wait connection.(ccr_state)) in
      let '(write, connection) := flush_control_connection (with_state state connection) in
      match write with
      | Err error => Some (Err (FlushWrite error), connection)
      | Ok write =>
          let wrote := match write with
                       | WriteComplete written _ | WritePartial written _ => (0 <? written)%nat
                       | _ => false
                       end in
          let state := connection.(ccr_state) in
          let state := if wrote then mark_activity observed_at_ns state else state in
          Some (Ok {| cwf_fd := fd; cwf_completion := wait_completion pending; cwf_write := write |}, with_state state connection)
      end
  end.

Fixpoint flush_waits (observed_at_ns : Z) (fds : list Z) (completed : list SupervisorControlWaitFlush)
    (connections : ControlConnectionTable (ControlConnectionRecord I))
    : Result (list SupervisorControlWaitFlush) SupervisorControlWaitFlushError
      * ControlConnectionTable (ControlConnectionRecord I) :=
  match fds with
  | [] => (Ok completed, connections)
  | fd :: fds =>
      match connections.(cct_records) !! fd ≫= flush_wait observed_at_ns fd with
      | None => flush_waits observed_at_ns fds completed connections
      | Some (flushed, connection) =>
          let connections := table_put fd connection connections in
          match flushed with
          | Err error => (Err error, connections)
          | Ok flushed => flush_waits observed_at_ns fds (completed ++ [flushed]) connections
          end
      end
  end.

Definition flush_terminal_control_waits (observed_at_ns : Z) (connections : ControlConnectionTable (ControlConnectionRecord I))
    : Result (list SupervisorControlWaitFlush) SupervisorControlWaitFlushError
      * ControlConnectionTable (ControlConnectionRecord I) :=
  flush_waits observed_at_ns (table_fds connections) [] connections.
End Wait.

(** ** Connections to the jobs socket ([jobs/connection/]) *)

Inductive JobsWaitCondition : Type := UntilTerminal | UntilReady.

Inductive JobsPendingWait : Type :=
| JobsSubmit (id : JobId)
| JobsWait (id : JobId) (condition : JobsWaitCondition)
| JobsStop (id : JobId).

Definition jobs_wait_job_id (self : JobsPendingWait) : JobId :=
  match self with JobsSubmit id | JobsWait id _ | JobsStop id => id end.

(** A record that is queued; a descriptor is the queue's own. *)
Record JobsOutgoing : Type := { jo_bytes : string; jo_fd : option Z }.

Record JobsConnectionState : Type := {
  jcs_pending_wait : option JobsPendingWait;
  jcs_outgoing : list JobsOutgoing;
  jcs_close_after_write : bool;
  jcs_last_activity_ns : option Z;
}.

Definition jobs_state_new : JobsConnectionState :=
  {| jcs_pending_wait := None; jcs_outgoing := []; jcs_close_after_write := false; jcs_last_activity_ns := None |}.

Definition jobs_enqueue (bytes : string) (fd : option Z) (close_after : bool) (self : JobsConnectionState) : JobsConnectionState :=
  {| self with jcs_outgoing := self.(jcs_outgoing) ++ [{| jo_bytes := bytes; jo_fd := fd |}];
     jcs_close_after_write := self.(jcs_close_after_write) || close_after |}.

Definition jobs_idle_deadline_ns (timeout_secs : Z) (self : JobsConnectionState) : option Z :=
  if bool_decide (is_Some self.(jcs_pending_wait)) || negb (bool_decide (List.length self.(jcs_outgoing) = O)) then None
  else idle_deadline self.(jcs_last_activity_ns) timeout_secs.

Definition jobs_idle_timeout_expired (now_ns timeout_secs : Z) (self : JobsConnectionState) : bool :=
  is_some_and (jobs_idle_deadline_ns timeout_secs self) (λ deadline_ns, deadline_ns <=? now_ns).

Class JobsConnectionIo (I : Type) : Type := {
  JobsWriteError : Type;
  write_jobs : string → option Z → I → Result bool JobsWriteError * I;
}.

Record JobsConnectionFlush : Type := { jf_sent : nat; jf_pending : nat; jf_close_after_write : bool }.

Section Jobs.
Context {I : Type} `{Io : JobsConnectionIo I}.

(** The queue is sent record by record, each whole, until one would block;
    [write_jobs] answers whether it was sent. *)
Fixpoint jobs_send (outgoing : list JobsOutgoing) (sent : nat) (io : I)
    : Result nat JobsWriteError * list JobsOutgoing * I :=
  match outgoing with
  | [] => (Ok sent, [], io)
  | front :: rest =>
      let '(write, io) := write_jobs front.(jo_bytes) front.(jo_fd) io in
      match write with
      | Err error => (Err error, front :: rest, io)
      | Ok true => jobs_send rest (sent + 1)%nat io
      | Ok false => (Ok sent, front :: rest, io)
      end
  end.

Definition jobs_flush (self : JobsConnectionState) (io : I)
    : Result JobsConnectionFlush JobsWriteError * JobsConnectionState * I :=
  let '(sent, outgoing, io) := jobs_send self.(jcs_outgoing) O io in
  let self := {| self with jcs_outgoing := outgoing |} in
  (map_ok (λ sent, {| jf_sent := sent; jf_pending := List.length outgoing; jf_close_after_write := self.(jcs_close_after_write) |}) sent,
   self, io).
End Jobs.
