(* ===== verification/ControlConnectionSpec.v ===== *)
(** * Connections serve their requests in order

    About [ControlConnection]: a turn serves the lines that are here and ends,
    over its life a connection loses, repeats and reorders nothing, the table
    keeps its limits, and a connection is idle exactly when nothing of it is in
    flight and its time has passed. *)

From S2P Require Import Prelude RustStr ServiceRuntime ServiceDef Ids OperationRecord JobRecord SubmittedDef SubmittedStore Shutdown.
From S2P Require Import RegistryValue ControlWire ControlConnection.
From Stdlib Require Import Ascii String.
Open Scope string_scope.
Open Scope list_scope.
Open Scope Z_scope.

(** ** A turn serves the lines that are here *)

(** What can be the body of a frame. *)
Definition frame_ok (max : nat) (body : string) : Prop :=
  body ≠ "" ∧ no_newline body ∧ (String.length body ≤ max)%nat.

Fixpoint lines_of (bodies : list string) : string :=
  match bodies with [] => "" | body :: bodies => line_of body +:+ lines_of bodies end.

(** A buffer that is refused: an empty line, or too much before a newline. *)
Definition frame_refused (max : nat) (s : string) (reason : ControlFrameRejectReason) : Prop :=
  control_frame_decision s max = FrameReject reason.

Lemma lines_of_app bodies bodies' : lines_of (bodies ++ bodies') = lines_of bodies +:+ lines_of bodies'.
Proof. induction bodies as [|b bodies IH]; simpl; [done|]. by rewrite IH, str_app_assoc. Qed.

Section Turns.
Context {S : Type} `{Body : ControlBody S}.
Context `{JsonNumber} (to_vec : Value → Result string string).

Definition response_text {D E} (response : ControlCommandBodyResponse D E) : string :=
  match response with BodyAccepted line _ _ => default "" line | BodyRejected line _ => line end.

Definition response_wait {D E} (response : ControlCommandBodyResponse D E) : option ControlPendingWait :=
  match response with BodyAccepted _ _ wait => wait | BodyRejected _ _ => None end.

(** The bodies are run one after the other, their answers in their order; only
    the last can be waited for. *)
Inductive runs (peer : ControlPeer) : S → list string → string → option ControlPendingWait → S → Prop :=
| runs_nil s : runs peer s [] "" None s
| runs_cons s body response s1 bodies out wait s2 :
    run_body peer body s = (Ok response, s1) → response_wait response = None → runs peer s1 bodies out wait s2 →
    runs peer s (body :: bodies) (response_text response +:+ out) wait s2
| runs_wait s body response s1 wait :
    run_body peer body s = (Ok response, s1) → response_wait response = Some wait →
    runs peer s [body] (response_text response) (Some wait) s1.

(** What the rounds leave of the state they found. *)
Definition rounds (peer : ControlPeer) (max : nat) (from to : ControlConnectionState) (s s' : S) : Prop :=
  ∃ bodies out wait left, from.(ccs_read_buffer).(cb_bytes) = lines_of bodies +:+ left ∧ Forall (frame_ok max) bodies ∧
    runs peer s bodies out wait s' ∧ to.(ccs_last_activity_ns) = from.(ccs_last_activity_ns) ∧
    write_ok to.(ccs_write_buffer) ∧ to.(ccs_pending_wait) = wait ∧
    (to.(ccs_read_buffer).(cb_bytes) = left ∧ to.(ccs_close_after_write) = false ∧ (wait = None → no_newline left) ∧
     pending_slice to.(ccs_write_buffer) = pending_slice from.(ccs_write_buffer) +:+ out
     ∨ wait = None ∧ to.(ccs_read_buffer).(cb_bytes) = "" ∧ to.(ccs_close_after_write) = true ∧
       ∃ reason line, frame_refused max left reason ∧ frame_reject_response_line to_vec reason = Ok line ∧
         pending_slice to.(ccs_write_buffer) = pending_slice from.(ccs_write_buffer) +:+ out +:+ line).

(** A turn fails only where an answer cannot be written. *)
Definition unwritten (peer : ControlPeer) (error : SupervisorControlFrameTurnError) (s' : S) : Prop :=
  ∃ message, error = FteResponseSerialize message ∧
    ((∃ reason, frame_reject_response_line to_vec reason = Err message) ∨
     ∃ body s, run_body peer body s = (Err message, s')).

Definition open_state (c : ControlConnectionState) : Prop :=
  c.(ccs_pending_wait) = None ∧ c.(ccs_close_after_write) = false ∧ write_ok c.(ccs_write_buffer).

(** One round, by what the buffer begins with. *)
Lemma one_round peer max c s :
  open_state c →
  let '(frame, c', s') := process_next_control_connection_frame to_vec peer max c s in
  match control_frame_decision c.(ccs_read_buffer).(cb_bytes) max with
  | FrameIncomplete => ∃ f, frame = Ok f ∧ c' = c ∧ s' = s
  | FrameReject reason =>
      match frame_reject_response_line to_vec reason with
      | Ok line => (∃ f, frame = Ok f) ∧ s' = s ∧ c'.(ccs_read_buffer).(cb_bytes) = "" ∧ c'.(ccs_close_after_write) = true ∧
          c'.(ccs_pending_wait) = None ∧ c'.(ccs_last_activity_ns) = c.(ccs_last_activity_ns) ∧ write_ok c'.(ccs_write_buffer) ∧
          pending_slice c'.(ccs_write_buffer) = pending_slice c.(ccs_write_buffer) +:+ line
      | Err message => frame = Err (FteResponseSerialize message)
      end
  | FrameComplete body consumed =>
      match run_body peer body s with
      | (Ok response, s1) => (∃ f, frame = Ok f) ∧ s' = s1 ∧
          c'.(ccs_read_buffer).(cb_bytes) = str_drop consumed c.(ccs_read_buffer).(cb_bytes) ∧ c'.(ccs_close_after_write) = false ∧
          c'.(ccs_pending_wait) = response_wait response ∧ c'.(ccs_last_activity_ns) = c.(ccs_last_activity_ns) ∧
          write_ok c'.(ccs_write_buffer) ∧
          pending_slice c'.(ccs_write_buffer) = pending_slice c.(ccs_write_buffer) +:+ response_text response
      | (Err message, s1) => frame = Err (FteResponseSerialize message) ∧ s' = s1
      end
  end.
Proof.
  intros (Hw & Hcl & Hok). unfold process_next_control_connection_frame, connection_frame, process_next_control_frame, next_frame, frame_decision.
  pose proof (frame_decision_exact (cb_bytes (ccs_read_buffer c)) max) as Hd.
  destruct c as [[bytes] wb cl w act]; simpl in *; subst. destruct (control_frame_decision bytes max) as [body consumed| |reason].
  - destruct Hd as (Hcons & _ & _ & _ & Hs). unfold buffer_consume, buffer_len. simpl.
    assert ((String.length bytes <? consumed)%nat = false) as ->.
    { apply Nat.ltb_ge. rewrite Hs, length_app_str. lia. }
    destruct (run_body peer body s) as [[response|message] s1]; simpl; [|done].
    destruct response as [[line|] dispatch wait|line error]; simpl.
    + destruct (enqueue_keeps line wb Hok) as [? ?]. destruct wait; simpl; split_and!; eauto.
    + destruct wait; simpl; rewrite str_app_nil_r; split_and!; eauto.
    + destruct (enqueue_keeps line wb Hok) as [? ?]. split_and!; eauto.
  - eauto.
  - destruct (frame_reject_response_line to_vec reason) as [line|message]; simpl; [|done].
    destruct (enqueue_keeps line wb Hok) as [? ?]. split_and!; eauto.
Qed.

Lemma runs_no_bodies peer max c s :
  open_state c → no_newline c.(ccs_read_buffer).(cb_bytes) → rounds peer max c c s s.
Proof.
  intros (Hw & Hcl & Hok) Hn. exists [], "", None, (cb_bytes (ccs_read_buffer c)).
  split_and!; eauto using runs_nil. left. rewrite str_app_nil_r. done.
Qed.

Lemma stopped_more {T} read (frames : list T) c :
  is_Some c.(ccs_pending_wait) ∨ c.(ccs_close_after_write) = true → more_frames read frames c = false.
Proof.
  unfold more_frames. intros [[w ->]| ->]; [|by rewrite andb_false_r].
  rewrite (bool_decide_eq_false_2 (Some w = None)) by done. by rewrite andb_false_r.
Qed.

Lemma quiet_more {T} read (frames : list T) c :
  frames ≠ [] → no_newline c.(ccs_read_buffer).(cb_bytes) → more_frames read frames c = false.
Proof.
  intros Hf Hn. unfold more_frames, holds_complete_frame. rewrite Hn, orb_false_r.
  rewrite (bool_decide_eq_false_2 (List.length frames = 0%nat)) by (by destruct frames). by rewrite andb_false_r.
Qed.

Lemma rounds_cons peer max c c1 c2 s s1 s2 body consumed response :
  control_frame_decision c.(ccs_read_buffer).(cb_bytes) max = FrameComplete body consumed →
  run_body peer body s = (Ok response, s1) → response_wait response = None →
  c1.(ccs_read_buffer).(cb_bytes) = str_drop consumed c.(ccs_read_buffer).(cb_bytes) →
  c1.(ccs_last_activity_ns) = c.(ccs_last_activity_ns) →
  pending_slice c1.(ccs_write_buffer) = pending_slice c.(ccs_write_buffer) +:+ response_text response →
  rounds peer max c1 c2 s1 s2 → rounds peer max c c2 s s2.
Proof.
  intros Hd Hrun Hw Hb Ha Hp (bodies & out & wait & left & Hbuf & Hall & Hruns & Hact & Hok & Hwait & Hend).
  pose proof (frame_decision_exact (cb_bytes (ccs_read_buffer c)) max) as He. rewrite Hd in He.
  destruct He as (_ & Hne & Hnn & Hlen & Hs). exists (body :: bodies), (response_text response +:+ out), wait, left.
  split_and!; [|by constructor|by eapply runs_cons|congruence|done|done|].
  - rewrite Hs, <-Hb, Hbuf. simpl. by rewrite str_app_assoc.
  - rewrite Hp in Hend. destruct Hend as [(? & ? & ? & ->)|(? & ? & ? & reason & line & ? & ? & ->)]; [left|right].
    + by rewrite str_app_assoc.
    + split_and!; [done..|]. exists reason, line. by rewrite !str_app_assoc.
Qed.

Lemma loop_rounds fuel peer max read frames c s :
  open_state c → read ≠ ReadEof → (String.length c.(ccs_read_buffer).(cb_bytes) + (if frames is [] then 1 else 0) ≤ fuel)%nat →
  ∃ result c' s', frame_loop to_vec fuel peer max read frames c s = Some (result, c', s') ∧
    match result with Ok _ => rounds peer max c c' s s' | Err error => unwritten peer error s' end.
Proof.
  intros Hopen Hread. revert frames c s Hopen. induction fuel as [|fuel IH]; intros frames c s Hopen Hfuel.
  all: cbn [frame_loop]; destruct (more_frames read frames c) eqn:Em;
    [|exists (Ok frames), c, s; split; [done|]; apply runs_no_bodies; [done|];
      unfold more_frames in Em; destruct Hopen as (Hw & Hcl & _);
      rewrite (bool_decide_eq_false_2 _ Hread), (bool_decide_eq_true_2 _ Hw), Hcl in Em; simpl in Em;
      apply orb_false_iff in Em as [_ Em]; exact Em].
  - exfalso. assert (String.length (cb_bytes (ccs_read_buffer c)) = 0%nat ∧ frames ≠ []) as [Hl Hf].
    { destruct frames; [lia|]. split; [lia|done]. }
    rewrite quiet_more in Em; [done|done|]. by destruct (cb_bytes (ccs_read_buffer c)).
  - pose proof (one_round peer max c s Hopen) as Hr.
    destruct (process_next_control_connection_frame to_vec peer max c s) as [[frame c'] s'].
    pose proof (frame_decision_exact (cb_bytes (ccs_read_buffer c)) max) as He.
    destruct (control_frame_decision (cb_bytes (ccs_read_buffer c)) max) as [body consumed| |reason] eqn:Ed.
    + destruct (run_body peer body s) as [[response|message] s1] eqn:Erun.
      2: { destruct Hr as [-> ->]. eexists _, _, _. split; [done|]. exists message. eauto. }
      destruct Hr as ((f & ->) & -> & Hb & Hcl & Hw & Ha & Hok & Hp). destruct (response_wait response) as [wait|] eqn:Ew.
      * assert (∀ n, frame_loop to_vec n peer max read (frames ++ [f]) c' s1 = Some (Ok (frames ++ [f]), c', s1)) as ->.
        { intros n. destruct n; cbn [frame_loop]; by rewrite stopped_more by (left; rewrite Hw; eauto). }
        eexists _, _, _. split; [done|]. destruct He as (_ & Hne & Hnn & Hlen & Hs).
        exists [body], (response_text response), (Some wait), (str_drop consumed (cb_bytes (ccs_read_buffer c))).
        split_and!; [simpl; by rewrite str_app_nil_r|by constructor|by eapply runs_wait|done..|]. left. by split_and!.
      * destruct (IH (frames ++ [f]) c' s1) as (result & c2 & s2 & Hl & Hres).
        { by split_and!. }
        { rewrite Hb, length_drop_str. destruct He as (-> & _). unfold line_of in *. rewrite length_app_str. simpl.
          destruct frames; simpl in *; lia. }
        exists result, c2, s2. split; [exact Hl|]. destruct result; [|done]. by eapply rounds_cons.
    + destruct Hr as (f & -> & -> & ->). destruct He as [Hn _].
      assert (∀ n, frame_loop to_vec n peer max read (frames ++ [f]) c s = Some (Ok (frames ++ [f]), c, s)) as ->.
      { intros n. destruct n; cbn [frame_loop]; by rewrite quiet_more by (try done; by destruct frames). }
      eexists _, _, _. split; [done|]. by apply runs_no_bodies.
    + destruct (frame_reject_response_line to_vec reason) as [line|message] eqn:Eline.
      2: { subst frame. eexists _, _, _. split; [done|]. exists message. eauto. }
      destruct Hr as ((f & ->) & -> & Hb & Hcl & Hw & Ha & Hok & Hp).
      assert (∀ n, frame_loop to_vec n peer max read (frames ++ [f]) c' s = Some (Ok (frames ++ [f]), c', s)) as ->.
      { intros n. destruct n; cbn [frame_loop]; by rewrite stopped_more by (by right). }
      eexists _, _, _. split; [done|]. exists [], "", None, (cb_bytes (ccs_read_buffer c)).
      split_and!; [done|constructor|constructor|done..|]. right. split_and!; [done..|]. exists reason, line. by split_and!.
Qed.

(** C21: The rounds of a turn end, and they serve what is in the buffer line by
    line: the supervisor runs the leading lines in their order, each once, whole
    and within the limit, and their answers are queued in that order behind what
    was queued. They stop before the rest of the buffer, which is kept and holds
    no whole line unless a request is to be waited for; or at a line that is
    refused, which is answered and closes the connection. They fail only where
    an answer cannot be written. *)
Theorem turn_serves_its_lines peer max read c s :
  open_state c → read ≠ ReadEof →
  ∃ result c' s', frame_loop to_vec (frame_fuel c) peer max read [] c s = Some (result, c', s') ∧
    match result with Ok _ => rounds peer max c c' s s' | Err error => unwritten peer error s' end.
Proof. intros Hopen Hread. apply loop_rounds; [done..|]. unfold frame_fuel, buffer_len. done. Qed.

(** ** The life of a connection *)

Section Life.
Context {I : Type} `{Io : ControlConnectionIo I}.

(** What has come from the peer and what has gone to it, as a stream socket
    counts them: a read takes the bytes it gives, and a write sends what it
    says. *)
Class ControlIoStream : Type := {
  received : I → string;
  sent : I → string;
  read_stream : ∀ n io,
    let '(r, io') := read_control n io in
    sent io' = sent io ∧ received io' = received io +:+ match r with Ok (SrBytes bytes) => bytes | _ => "" end;
  write_stream : ∀ bytes io,
    let '(w, io') := write_control bytes io in
    received io' = received io ∧
    match w with
    | Ok SwComplete => sent io' = sent io +:+ bytes
    | Ok (SwPartial n) => (n ≤ String.length bytes)%nat ∧ sent io' = sent io +:+ str_take n bytes
    | _ => sent io' = sent io
    end;
}.
Context `{Stream : ControlIoStream}.

(** What happens on a connection: a request is run with an answer, and is waited
    for or not; a wait is answered; a line is refused. *)
Inductive Event : Type :=
| EvServed (body text : string) (waits : bool)
| EvTold (line : string)
| EvRefused (line : string).

Definition event_body (event : Event) : option string := match event with EvServed body _ _ => Some body | _ => None end.
Definition event_text (event : Event) : string :=
  match event with EvServed _ text _ => text | EvTold line | EvRefused line => line end.

Fixpoint texts_of (events : list Event) : string :=
  match events with [] => "" | event :: events => event_text event +:+ texts_of events end.

Inductive Mode : Type := ModeOpen | ModeWaiting | ModeRefused.

(** A request that is waited for is answered before another is served, and
    nothing happens after a refusal. *)
Definition mode_step (mode : option Mode) (event : Event) : option Mode :=
  match mode, event with
  | Some ModeOpen, EvServed _ _ waits => Some (if waits then ModeWaiting else ModeOpen)
  | Some ModeOpen, EvRefused _ => Some ModeRefused
  | Some ModeWaiting, EvTold _ => Some ModeOpen
  | _, _ => None
  end.

Definition mode_of (events : list Event) : option Mode := foldl mode_step (Some ModeOpen) events.

Definition mode_state (c : ControlConnectionState) : Mode :=
  if bool_decide (is_Some c.(ccs_pending_wait)) then ModeWaiting
  else if c.(ccs_close_after_write) then ModeRefused else ModeOpen.

(** A request that was served was one the supervisor ran. *)
Definition event_real (peer : ControlPeer) (event : Event) : Prop :=
  match event with
  | EvServed body text waits =>
      body ≠ "" ∧ no_newline body ∧
      ∃ s response s', run_body peer body s = (Ok response, s') ∧ text = response_text response ∧
        waits = bool_decide (is_Some (response_wait response))
  | _ => True
  end.

(** The account of a connection. *)
Definition account (events : list Event) (r : ControlConnectionRecord I) : Prop :=
  mode_of events = Some (mode_state r.(ccr_state)) ∧ Forall (event_real r.(ccr_peer)) events ∧
  write_ok r.(ccr_state).(ccs_write_buffer) ∧
  (r.(ccr_state).(ccs_close_after_write) = true → r.(ccr_state).(ccs_pending_wait) = None) ∧
  sent r.(ccr_io) +:+ pending_slice r.(ccr_state).(ccs_write_buffer) = texts_of events ∧
  ∃ rest, received r.(ccr_io) = lines_of (omap event_body events) +:+ rest ∧
    (mode_state r.(ccr_state) ≠ ModeRefused → rest = r.(ccr_state).(ccs_read_buffer).(cb_bytes)).

(** The life of a connection: it is accepted, it has turns while the supervisor
    does other work between them, and its waits are answered. *)
Inductive life : ControlConnectionRecord I → Prop :=
| life_new io peer at_ns : received io = "" → sent io = "" → life (record_new_with_activity io peer at_ns)
| life_turn r s max_read max at_ns turn r' s' :
    life r → process_control_connection_turn to_vec max_read max at_ns r s = Some (Ok turn, r', s') → life r'
| life_told r answer at_ns fd flushed r' :
    life r → flush_wait answer at_ns fd r = Some (Ok flushed, r') → life r'.

Lemma texts_of_app events events' : texts_of (events ++ events') = texts_of events +:+ texts_of events'.
Proof. induction events as [|e events IH]; simpl; [done|]. by rewrite IH, str_app_assoc. Qed.

(** Writing sends from the front of what is queued. *)
Lemma flush_account r write r' :
  write_ok r.(ccr_state).(ccs_write_buffer) → flush_control_connection r = (Ok write, r') →
  r'.(ccr_peer) = r.(ccr_peer) ∧ received r'.(ccr_io) = received r.(ccr_io) ∧
  (∃ wb, r'.(ccr_state) = {| r.(ccr_state) with ccs_write_buffer := wb |} ∧ write_ok wb ∧
    sent r'.(ccr_io) +:+ pending_slice wb = sent r.(ccr_io) +:+ pending_slice r.(ccr_state).(ccs_write_buffer)).
Proof.
  intros Hok. unfold flush_control_connection. destruct r as [io peer c]. simpl in *. destruct (write_is_empty (ccs_write_buffer c)).
  - intros [= _ <-]. simpl. split_and!; [done..|]. exists (ccs_write_buffer c). by destruct c.
  - pose proof (write_stream (pending_slice (ccs_write_buffer c)) io) as Hw.
    destruct (write_control _ io) as [w io'] eqn:Ew. destruct Hw as [Hrec Hw].
    destruct w as [[|n|]|e]; [| | |done].
    + pose proof (advance_exact (pending_len (ccs_write_buffer c)) _ Hok) as Ha.
      destruct (advance_written _ _) as [wb|] eqn:Ead; [|done]. intros [= _ <-]. simpl. destruct Ha as (Hok' & Hp & _).
      split_and!; [done..|]. exists wb. split_and!; [done..|]. rewrite Hw.
      assert (str_take (pending_len (ccs_write_buffer c)) (pending_slice (ccs_write_buffer c)) = pending_slice (ccs_write_buffer c)) as Ht.
      { unfold pending_len. rewrite <-(str_app_nil_r (pending_slice (ccs_write_buffer c))) at 2. apply take_app_str. }
      rewrite Ht in Hp. rewrite str_app_assoc. by rewrite <-Hp.
    + pose proof (advance_exact n _ Hok) as Ha. destruct (advance_written n _) as [wb|] eqn:Ead; [|done]. intros [= _ <-]. simpl.
      destruct Ha as (Hok' & Hp & _). destruct Hw as [_ Hs]. split_and!; [done..|]. exists wb. split_and!; [done..|].
      rewrite Hs, str_app_assoc. by rewrite <-Hp.
    + intros [= _ <-]. simpl. split_and!; [done..|]. exists (ccs_write_buffer c). split_and!; [by destruct c|done|by rewrite Hw].
Qed.

Lemma runs_events peer max s bodies out wait s' :
  runs peer s bodies out wait s' → Forall (frame_ok max) bodies →
  ∃ events, omap event_body events = bodies ∧ texts_of events = out ∧ Forall (event_real peer) events ∧
    mode_of events = Some (if bool_decide (is_Some wait) then ModeWaiting else ModeOpen).
Proof.
  induction 1 as [s|s body response s1 bodies out wait s2 Hrun Hw _ IH|s body response s1 wait Hrun Hw]; intros Hall.
  - exists []. by repeat constructor.
  - apply Forall_cons in Hall as [(Hne & Hnn & _) Hall]. destruct (IH Hall) as (events & Hb & Ht & Hr & Hm).
    exists (EvServed body (response_text response) false :: events). split_and!; [by rewrite <-Hb|by rewrite <-Ht| |exact Hm].
    constructor; [|done]. split_and!; [done..|]. exists s, response, s1. by rewrite Hw.
  - apply Forall_cons in Hall as [(Hne & Hnn & _) _]. exists [EvServed body (response_text response) true].
    split_and!; [done|simpl; by rewrite str_app_nil_r| |done].
    constructor; [|done]. split_and!; [done..|]. exists s, response, s1. by rewrite Hw.
Qed.

Lemma mode_of_app events events' : mode_of (events ++ events') = foldl mode_step (mode_of events) events'.
Proof. unfold mode_of. apply foldl_app. Qed.

Lemma read_account events n r read r' :
  account events r → read_control_connection n r = (Ok read, r') → account events r' ∧ r'.(ccr_peer) = r.(ccr_peer).
Proof.
  intros (Hm & Hr & Hok & Hcl & Hs & rest & Hrec & Hrest). unfold read_control_connection.
  pose proof (read_stream n r.(ccr_io)) as Hread. destruct (read_control n (ccr_io r)) as [rd io]. destruct Hread as [Hsent Hrc].
  destruct rd as [[bytes| |]|]; [| | |done]; intros [= _ <-]; (split; [|done]); simpl.
  - split_and!; [exact Hm|done|done|exact Hcl|simpl; by rewrite Hsent|]. exists (rest +:+ bytes). split.
    + simpl. by rewrite Hrc, Hrec, str_app_assoc.
    + simpl. intros Hmode. rewrite Hrest; [done|exact Hmode].
  - split_and!; [exact Hm|done|done|exact Hcl|simpl; by rewrite Hsent|]. exists rest. simpl. by rewrite Hrc, str_app_nil_r.
  - split_and!; [exact Hm|done|done|exact Hcl|simpl; by rewrite Hsent|]. exists rest. simpl. by rewrite Hrc, str_app_nil_r.
Qed.

(** A connection that is not open is left as it is. *)
Lemma loop_idle fuel peer max read c s :
  more_frames read (@nil SupervisorControlConnectionFrameTurn) c = false →
  frame_loop to_vec fuel peer max read [] c s = Some (Ok [], c, s).
Proof. destruct fuel; cbn [frame_loop]; by intros ->. Qed.

Lemma rounds_account events max r c' s s' :
  account events r → open_state r.(ccr_state) → rounds r.(ccr_peer) max r.(ccr_state) c' s s' →
  ∃ more, account (events ++ more) (with_state c' r).
Proof.
  intros (Hm & Hr & _ & _ & Hs & rest & Hrec & Hrest) (Hw & Hcl & Hok).
  intros (bodies & out & wait & left & Hbuf & Hall & Hruns & _ & Hok' & Hwait & Hend).
  assert (mode_state (ccr_state r) = ModeOpen) as Hopen by (unfold mode_state; by rewrite Hw, Hcl). rewrite Hopen in *.
  rewrite Hrest in Hrec by done. rewrite Hbuf in Hrec.
  destruct (runs_events _ _ _ _ _ _ _ Hruns Hall) as (new & Hb & Ht & Hreal & Hmode).
  destruct Hend as [(Hleft & Hcl' & _ & Hp)|(-> & Hempty & Hcl' & reason & line & _ & _ & Hp)].
  - exists new. unfold account. cbn [with_state ccr_io ccr_peer ccr_state]. rewrite mode_of_app, Hm, omap_app, lines_of_app, texts_of_app, Hb, Ht, Hp. unfold mode_of in Hmode. split_and!.
    + rewrite Hmode. unfold mode_state. by rewrite Hwait, Hcl'; case_bool_decide.
    + by apply Forall_app.
    + done.
    + by rewrite Hcl'.
    + by rewrite <-str_app_assoc, Hs.
    + exists left. rewrite Hrec, str_app_assoc. done.
  - exists (new ++ [EvRefused line]). unfold account. cbn [with_state ccr_io ccr_peer ccr_state].
    rewrite mode_of_app, Hm, foldl_app, !omap_app, !lines_of_app, !texts_of_app, Hb, Ht, Hp. unfold mode_of in Hmode. split_and!.
    + rewrite Hmode. unfold mode_state. by rewrite Hwait, Hcl'.
    + rewrite !Forall_app. split_and!; [done..|]. by constructor.
    + done.
    + done.
    + simpl. rewrite str_app_nil_r, <-Hs, !str_app_assoc. done.
    + exists left. simpl. rewrite str_app_nil_r, Hrec, str_app_assoc. split; [done|]. unfold mode_state. by rewrite Hwait, Hcl'.
Qed.

Lemma finish_account events at_ns read frames r s turn r' s' :
  account events r → finish_turn (I := I) at_ns read frames r s = (Ok turn, r', s') → account events r'.
Proof.
  intros (Hm & Hr & Hok & Hcl & Hs & rest & Hrec & Hrest). unfold finish_turn.
  destruct (flush_control_connection r) as [[write|] r1] eqn:Ef; [|done].
  destruct (flush_account r write r1 Hok Ef) as (Hpeer & Hrc & wb & Hst & Hwb & Hsent). intros [= _ <- _].
  unfold account. simpl. rewrite Hpeer, Hrc. assert (∀ b : bool, mode_state (if b then mark_activity at_ns (ccr_state r1) else ccr_state r1) = mode_state (ccr_state r)) as ->.
  { intros []; rewrite Hst; done. }
  destruct (control_connection_observed_activity read frames write); rewrite Hst; simpl; split_and!; try done; try congruence; by exists rest.
Qed.

Lemma turn_account events r s max_read max at_ns turn r' s' :
  account events r → process_control_connection_turn to_vec max_read max at_ns r s = Some (Ok turn, r', s') →
  ∃ more, account (events ++ more) r'.
Proof.
  intros Hacc. unfold process_control_connection_turn. destruct (read_control_connection max_read r) as [[read|] r1] eqn:Er; [|done].
  destruct (read_account _ _ _ _ _ Hacc Er) as [Hacc1 _]. simpl.
  destruct (more_frames read (@nil SupervisorControlConnectionFrameTurn) (ccr_state r1)) eqn:Em.
  - assert (open_state (ccr_state r1) ∧ read ≠ ReadEof) as [Hopen Hread].
    { unfold more_frames in Em. apply andb_true_iff in Em as [[[Hre Hw]%andb_true_iff Hc]%andb_true_iff _].
      apply negb_true_iff in Hre, Hc. split; [|by apply bool_decide_eq_false in Hre].
      split_and!; [by apply bool_decide_eq_true in Hw|done|]. by destruct Hacc1 as (_ & _ & ? & _). }
    destruct (loop_rounds (frame_fuel (ccr_state r1)) (ccr_peer r1) max read [] (ccr_state r1) s Hopen Hread) as (result & c' & s1 & -> & Hres).
    { unfold frame_fuel, buffer_len. done. }
    simpl. destruct result as [frames|]; [|done]. destruct (rounds_account _ _ _ _ _ _ Hacc1 Hopen Hres) as [more Hmore].
    intros [= Hf]. exists more. by eapply finish_account.
  - rewrite loop_idle by done. simpl. intros [= Hf]. exists []. rewrite app_nil_r. eapply finish_account; [|exact Hf].
    by destruct r1.
Qed.

Lemma told_account events r answer at_ns fd flushed r' :
  account events r → flush_wait answer at_ns fd r = Some (Ok flushed, r') → ∃ line, account (events ++ [EvTold line]) r'.
Proof.
  intros (Hm & Hr & Hok & Hcl & Hs & rest & Hrec & Hrest). unfold flush_wait.
  destruct (ccs_pending_wait (ccr_state r)) as [wait|] eqn:Ew; simpl; [|done]. destruct (answer wait) as [[line|]|]; simpl; [|done..].
  assert (ccs_close_after_write (ccr_state r) = false) as Hopen.
  { destruct (ccs_close_after_write (ccr_state r)) eqn:E; [|done]. by specialize (Hcl eq_refl). }
  assert (mode_state (ccr_state r) = ModeWaiting) as Hmode by (unfold mode_state; by rewrite Ew). rewrite Hmode in *.
  set (c1 := enqueue_response line false (clear_pending_wait (ccr_state r))).
  destruct (enqueue_keeps line _ Hok) as [Hok1 Hp1].
  destruct (flush_control_connection (with_state c1 r)) as [[write|] r1] eqn:Ef; [|done].
  destruct (flush_account (with_state c1 r) write r1 Hok1 Ef) as (Hpeer & Hrc & wb & Hst & Hwb & Hsent). intros [= _ <-].
  exists line. unfold account. cbn [with_state ccr_io ccr_peer ccr_state]. rewrite mode_of_app, Hm, omap_app, lines_of_app, texts_of_app, Hpeer, Hrc. simpl in Hsent. rewrite Hp1 in Hsent.
  destruct (match write with WriteComplete written _ | WritePartial written _ => _ | _ => _ end); rewrite Hst; simpl;
    unfold mode_state; simpl; rewrite Hopen; simpl; rewrite !str_app_nil_r.
  all: (split_and!; [done|rewrite Forall_app; split; [done|by constructor]|done|done|by rewrite Hsent, <-str_app_assoc, Hs|]).
  all: exists rest; split; [done|]; intros _; by apply Hrest.
Qed.

(** C4: Over its whole life, however its bytes are cut into reads and writes, a
    connection loses, repeats and reorders nothing. What was received is the
    requests that were served, a line each and in their order, and then what is
    still in the buffer; what was sent and what is queued is the answers, whole
    and in the order of what happened. A request that is waited for is answered
    before the next one is served, and nothing is served after a refusal. *)
Theorem connection_keeps_its_order r : life r → ∃ events, account events r.
Proof.
  induction 1 as [io peer at_ns Hr Hs|r s mr max at_ns turn r' s' _ [events IH] Ht|r answer at_ns fd flushed r' _ [events IH] Ht].
  - exists []. destruct at_ns; unfold account; simpl; rewrite Hr, Hs.
    all: split_and!; [done|constructor|unfold write_ok; simpl; lia|done|done|by exists ""].
  - destruct (turn_account _ _ _ _ _ _ _ _ _ IH Ht) as [more Hm]. eauto.
  - destruct (told_account _ _ _ _ _ _ _ IH Ht) as [line Hm]. eauto.
Qed.
End Life.
End Turns.

(** ** The table keeps its limits *)

Section Limits.
Context {L I S : Type} `{Listener : ControlListener L I} `{Io : ControlConnectionIo I} `{Body : ControlBody S}.
Context `{JsonNumber} (to_vec : Value → Result string string).

Definition count_of (sid : string) (records : gmap Z (ControlConnectionRecord I)) : nat :=
  List.length (retain (λ record, bool_decide (record_caller record = sid)) (btree_values records)).

Lemma count_perm sid records :
  count_of sid records = List.length (filter (λ record, bool_decide (record_caller record = sid) = true) (map_to_list records).*2).
Proof. unfold count_of, retain, btree_values. by rewrite btree_iter_Permutation. Qed.

Lemma count_insert_fresh sid records fd r :
  records !! fd = None →
  count_of sid (<[fd := r]> records) = (count_of sid records + if bool_decide (record_caller r = sid) then 1 else 0)%nat.
Proof.
  intros Hf. rewrite !count_perm. rewrite map_to_list_insert by done. rewrite fmap_cons, filter_cons. cbn [snd].
  destruct (bool_decide (record_caller r = sid)); [rewrite decide_True by done|rewrite decide_False by done]; simpl; lia.
Qed.

Lemma count_delete sid records fd : (count_of sid (delete fd records) ≤ count_of sid records)%nat.
Proof.
  destruct (records !! fd) as [r|] eqn:Ef; [|by rewrite delete_id].
  rewrite <-(insert_delete_id records fd r) at 2 by done. rewrite count_insert_fresh by apply lookup_delete_eq. lia.
Qed.

(** A change of a record that keeps its peer changes no count. *)
Lemma count_put sid records fd r r' :
  records !! fd = Some r → r'.(ccr_peer) = r.(ccr_peer) → count_of sid (<[fd := r']> records) = count_of sid records.
Proof.
  intros Hf Hp. rewrite <-(insert_delete_id records fd r) at 2 by done. rewrite <-insert_delete_eq.
  rewrite !count_insert_fresh by apply lookup_delete_eq. unfold record_caller. by rewrite Hp.
Qed.

Definition within_limits (table : ControlConnectionTable (ControlConnectionRecord I)) : Prop :=
  Z.of_nat (table_len table) ≤ table.(cct_max_connections) ∧
  ∀ sid, sid ≠ CONTROL_SYSTEM_SID → Z.of_nat (held_by sid table) ≤ table.(cct_max_connections_per_caller).

Lemma admit_within connection peer at_ns table :
  within_limits table → within_limits (admit_accepted connection peer at_ns table).2.
Proof.
  intros Hwl. pose proof Hwl as [Hn Hsid]. unfold admit_accepted. destruct (negb _ && _) eqn:Eq; [done|].
  unfold admit_connection. destruct (bool_decide_reflect (is_Some (cct_records table !! control_fd connection))) as [Hf|Hf]; [exact Hwl|]. destruct (bool_decide_reflect (admission_decision table = AdmitRejectAtSocket)) as [Ha|Ha]; [exact Hwl|]. simpl.
  assert (cct_records table !! control_fd connection = None) as Hnone by (by apply eq_None_not_Some).
  unfold admission_decision, control_connection_admission_decision in Ha.
  destruct (Z.leb_spec (cct_max_connections table) (Z.of_nat (table_len table))) as [|Hlt]; [done|]. split; simpl.
  - unfold table_len in *. simpl. rewrite map_size_insert_None by done. lia.
  - intros sid Hsys. specialize (Hsid sid Hsys). unfold held_by in *. simpl.
    fold (count_of sid (<[control_fd connection := record_new_with_activity connection peer at_ns]> (cct_records table))).
    rewrite count_insert_fresh by done. fold (count_of sid (cct_records table)) in Hsid. destruct (bool_decide_reflect (record_caller (record_new_with_activity connection peer at_ns) = sid)) as [Hc|Hc]; [|lia].
    unfold record_caller in Hc. simpl in Hc. subst sid. rewrite bool_decide_eq_false_2 in Eq by done. simpl in Eq.
    apply Z.leb_gt in Eq. unfold held_by in Eq. fold (count_of (caller_sid (cp_summary peer)) (cct_records table)) in Eq. lia.
Qed.

Lemma put_within fd r r' table :
  within_limits table → table.(cct_records) !! fd = Some r → r'.(ccr_peer) = r.(ccr_peer) → within_limits (table_put fd r' table).
Proof.
  intros [Hn Hsid] Hf Hp. split; simpl.
  - unfold table_len in *. simpl. by rewrite map_size_insert_Some by eauto.
  - intros sid Hsys. unfold held_by. simpl. fold (count_of sid (<[fd := r']> (cct_records table))). rewrite (count_put _ _ _ r) by done. by apply Hsid.
Qed.

Lemma remove_within fd table : within_limits table → within_limits (table_remove fd table).
Proof.
  intros [Hn Hsid]. split; simpl.
  - unfold table_len in *. simpl. rewrite map_size_delete. destruct (cct_records table !! fd); simpl; unfold id; lia.
  - intros sid Hsys. unfold held_by. simpl. pose proof (count_delete sid (cct_records table) fd). specialize (Hsid sid Hsys).
    unfold held_by in Hsid. fold (count_of sid (cct_records table)) in Hsid. unfold count_of in *. lia.
Qed.

(** No turn and no answer changes the peer of a connection. *)
Lemma flush_peer (r : ControlConnectionRecord I) : (flush_control_connection r).2.(ccr_peer) = r.(ccr_peer).
Proof.
  unfold flush_control_connection. destruct (write_is_empty _); [done|]. destruct (write_control _ _) as [[[|n|]|e] io]; simpl; try done.
  all: by destruct (advance_written _ _).
Qed.

Lemma read_peer n (r : ControlConnectionRecord I) : (read_control_connection n r).2.(ccr_peer) = r.(ccr_peer).
Proof. unfold read_control_connection. destruct (read_control n (ccr_io r)) as [[[| |]|] io]; done. Qed.

Lemma finish_peer at_ns read frames (r : ControlConnectionRecord I) (s : S) : (finish_turn at_ns read frames r s).1.2.(ccr_peer) = r.(ccr_peer).
Proof.
  unfold finish_turn. pose proof (flush_peer r) as Hp. destruct (flush_control_connection r) as [[w|] r1]; simpl in *; done.
Qed.

Lemma turn_peer mr max at_ns (r : ControlConnectionRecord I) s result r' s' :
  process_control_connection_turn to_vec mr max at_ns r s = Some (result, r', s') → r'.(ccr_peer) = r.(ccr_peer).
Proof.
  unfold process_control_connection_turn. pose proof (read_peer mr r) as Hp. destruct (read_control_connection mr r) as [[read|] r1]; simpl in *.
  - destruct (frame_loop _ _ _ _ _ _ _ _) as [[[frames c] s1]|]; simpl; [|done]. destruct frames as [frames|]; [|by intros [= _ <- _]].
    intros [= Hf]. pose proof (finish_peer at_ns read frames (with_state c r1) s1) as Hq. rewrite Hf in Hq. simpl in Hq. congruence.
  - by intros [= _ <- _].
Qed.

Lemma shutdown_turn_peer mr max at_ns (r : ControlConnectionRecord I) s :
  (process_shutdown_control_connection_turn to_vec mr max at_ns r s).1.2.(ccr_peer) = r.(ccr_peer).
Proof.
  unfold process_shutdown_control_connection_turn. pose proof (read_peer mr r) as Hp. destruct (read_control_connection mr r) as [[read|] r1]; simpl in *; [|done].
  destruct (bool_decide (read = ReadEof)); [by rewrite finish_peer|].
  destruct (process_next_shutdown_control_connection_frame _ _ _ _ _) as [[[frame|] c] s1]; [by rewrite finish_peer|done].
Qed.

Lemma told_peer answer at_ns fd (r : ControlConnectionRecord I) flushed r' :
  flush_wait answer at_ns fd r = Some (flushed, r') → r'.(ccr_peer) = r.(ccr_peer).
Proof.
  unfold flush_wait. destruct (ccs_pending_wait _) as [wait|]; simpl; [|done]. destruct (answer wait) as [[line|]|]; simpl; [|by intros [= _ <-]|done].
  match goal with |- context [flush_control_connection ?x] => pose proof (flush_peer x) as Hp; destruct (flush_control_connection x) as [[w|] r1] end.
  all: simpl in *; intros [= _ <-]; done.
Qed.

Lemma turned_within fd r turned table :
  within_limits table → table.(cct_records) !! fd = Some r → turned.1.2.(ccr_peer) = r.(ccr_peer) →
  within_limits (table_turn (S := S) fd turned table).1.2.
Proof.
  intros Hw Hf Hp. destruct turned as [[[turn|] r'] s']; simpl in *; [|by eapply put_within].
  destruct (cnt_close_connection turn); simpl; [apply remove_within|]; by eapply put_within.
Qed.

Lemma flushed_within answer at_ns fds completed table :
  within_limits table → within_limits (flush_waits answer at_ns fds completed table).2.
Proof.
  revert completed table. induction fds as [|fd fds IH]; intros completed table Hw; simpl; [done|].
  destruct (cct_records table !! fd) as [r|] eqn:Ef; simpl; [|by apply IH].
  destruct (flush_wait answer at_ns fd r) as [[flushed r']|] eqn:Efl; [|by apply IH].
  assert (within_limits (table_put fd r' table)) by (eapply put_within; [done..|by eapply told_peer]). destruct flushed; [by apply IH|done].
Qed.

(** What happens to the table, for limits that do not change. *)
Inductive table_life (max per_caller : Z) : ControlConnectionTable (ControlConnectionRecord I) → Prop :=
| tl_new : table_life max per_caller (set_max_connections_per_caller per_caller (table_new max))
| tl_accept at_ns listener table :
    table_life max per_caller table → table_life max per_caller (accept_control_connection_at at_ns listener table).2
| tl_turn mr mq at_ns fd table s result table' s' :
    table_life max per_caller table →
    process_control_connection_table_turn to_vec mr mq at_ns fd table s = Some (result, table', s') → table_life max per_caller table'
| tl_shutdown_turn mr mq at_ns fd table s :
    table_life max per_caller table →
    table_life max per_caller (process_shutdown_control_connection_table_turn to_vec mr mq at_ns fd table s).1.2
| tl_told answer at_ns table :
    table_life max per_caller table → table_life max per_caller (flush_terminal_control_waits answer at_ns table).2
| tl_close fd table : table_life max per_caller table → table_life max per_caller (table_remove fd table).

End Limits.

(** ** Idle connections *)

(** Nothing of a connection is in flight: no wait, no answer that is not
    written, no request that is not served. *)
Definition at_rest (c : ControlConnectionState) : Prop :=
  c.(ccs_pending_wait) = None ∧ pending_slice c.(ccs_write_buffer) = "" ∧ no_newline c.(ccs_read_buffer).(cb_bytes).

Lemma idle_deadline_at_rest timeout c d :
  idle_deadline_ns timeout c = Some d ↔
  at_rest c ∧ ∃ last, c.(ccs_last_activity_ns) = Some last ∧ d = Z.min (last + Z.min (timeout * 1000000000) u64_max) u64_max.
Proof.
  unfold idle_deadline_ns, at_rest, write_is_empty, pending_len, holds_complete_frame.
  destruct (ccs_pending_wait c) as [w|]; simpl; [naive_solver|]. fold (no_newline (cb_bytes (ccs_read_buffer c))).
  destruct (pending_slice (ccs_write_buffer c)); simpl; [|naive_solver]. unfold no_newline.
  destruct (str_contains_char newline (cb_bytes (ccs_read_buffer c))); [naive_solver|].
  unfold idle_deadline, u64_saturating_add, u64_saturating_mul. destruct (ccs_last_activity_ns c); simpl; naive_solver.
Qed.

Lemma elem_of_fds_with {R} (p : R → bool) table fd :
  fd ∈ fds_with p table ↔ ∃ r, table.(cct_records) !! fd = Some r ∧ p r = true.
Proof.
  unfold fds_with. rewrite list_elem_of_omap. split.
  - intros ([fd' r] & Hin%elem_of_btree_iter & Ht). unfold then_some in Ht. destruct (p r) eqn:Ep; [|done]. injection Ht as ->. eauto.
  - intros (r & Hr & Hp). exists (fd, r). rewrite elem_of_btree_iter. split; [done|]. by rewrite Hp.
Qed.

Lemma first_deadline_Some {R} (f : R → option Z) table d :
  first_deadline f table = Some d →
  (∃ fd r, table.(cct_records) !! fd = Some r ∧ f r = Some d) ∧
  ∀ fd r d', table.(cct_records) !! fd = Some r → f r = Some d' → d ≤ d'.
Proof.
  unfold first_deadline. intros [Hin Hmin]%list_min_Some. split.
  - apply list_elem_of_omap in Hin as (r & [fd Hr]%elem_of_btree_values & Hf). eauto.
  - intros fd r d' Hr Hf. apply Hmin. apply list_elem_of_omap. exists r. split; [|done]. apply elem_of_btree_values. eauto.
Qed.

(** A connection is closed for being idle exactly when nothing of it is in
    flight and its time since it last did something has passed, and the timer
    that is set for it is neither early nor late: before the next deadline no
    connection is idle, and from then on one is. *)
Theorem idle_connections_exact {I} (table : ControlConnectionTable (ControlConnectionRecord I)) now_ns timeout_secs :
  (∀ fd, fd ∈ idle_fds now_ns timeout_secs table ↔
    ∃ r last, table.(cct_records) !! fd = Some r ∧ at_rest r.(ccr_state) ∧
      r.(ccr_state).(ccs_last_activity_ns) = Some last ∧
      Z.min (last + Z.min (timeout_secs * 1000000000) u64_max) u64_max ≤ now_ns) ∧
  (idle_fds now_ns timeout_secs table ≠ [] ↔ ∃ d, next_idle_deadline_ns timeout_secs table = Some d ∧ d ≤ now_ns).
Proof.
  assert (∀ fd, fd ∈ idle_fds now_ns timeout_secs table ↔
    ∃ r d, table.(cct_records) !! fd = Some r ∧ idle_deadline_ns timeout_secs r.(ccr_state) = Some d ∧ d ≤ now_ns) as Hidle.
  { intros fd. unfold idle_fds. rewrite elem_of_fds_with. unfold idle_timeout_expired. split.
    - intros (r & Hr & Hd). destruct (idle_deadline_ns timeout_secs (ccr_state r)) as [d|] eqn:Ed; [|done]. apply Z.leb_le in Hd. eauto.
    - intros (r & d & Hr & Hd & Hle). exists r. rewrite Hd. split; [done|]. by apply Z.leb_le. }
  split.
  - intros fd. rewrite Hidle. setoid_rewrite idle_deadline_at_rest. naive_solver.
  - split.
    + intros Hne. destruct (idle_fds now_ns timeout_secs table) as [|fd l] eqn:El; [done|].
      assert (fd ∈ fd :: l) as (r & d & Hr & Hd & Hle)%Hidle by left. unfold next_idle_deadline_ns.
      destruct (first_deadline _ table) as [d'|] eqn:Ef.
      * exists d'. split; [done|]. destruct (first_deadline_Some _ _ _ Ef) as [_ Hmin]. specialize (Hmin fd r d Hr Hd). lia.
      * exfalso. unfold first_deadline in Ef. apply list_min_None in Ef.
        assert (d ∈ (omap (λ record, idle_deadline_ns timeout_secs (ccr_state record)) (btree_values (cct_records table)))) as Hin.
        { apply list_elem_of_omap. exists r. split; [|done]. apply elem_of_btree_values. eauto. }
        rewrite Ef in Hin. by apply elem_of_nil in Hin.
    + intros (d & Hd & Hle) Hnil. destruct (first_deadline_Some _ _ _ Hd) as [(fd & r & Hr & Hf) _].
      assert (fd ∈ idle_fds now_ns timeout_secs table) as Hin by (apply Hidle; eauto). rewrite Hnil in Hin. by apply elem_of_nil in Hin.
Qed.

(** ** The jobs socket sends its records in order *)

(** What was queued is what was sent, record by record, and what is left. *)
Lemma jobs_send_order {I} `{JobsConnectionIo I} outgoing sent io :
  let '(result, rest, _) := jobs_send outgoing sent io in
  ∃ gone, outgoing = gone ++ rest ∧ match result with Ok n => n = (sent + List.length gone)%nat | Err _ => rest ≠ [] end.
Proof.
  revert sent io. induction outgoing as [|front tail IH]; intros sent io; simpl; [exists []; split; [done|simpl; lia]|].
  destruct (write_jobs _ _ io) as [[[]|e] io']; [|exists []; split; [done|simpl; lia]|by exists []].
  specialize (IH (sent + 1)%nat io'). destruct (jobs_send tail (sent + 1) io') as [[result rest] io'']. destruct IH as (d & -> & Hr).
  exists (front :: d). split; [done|]. destruct result; [|done]. simpl. lia.
Qed.

(** ** A connection *)

(** A peer that sends its bytes in pieces, and a socket that takes four bytes at
    a time. *)
Record Script : Type := { sc_pieces : list string; sc_received : string; sc_sent : string }.

Definition script_read (n : nat) (io : Script) : Result ControlSocketRead unit * Script :=
  match io.(sc_pieces) with
  | [] => (Ok SrWouldBlock, io)
  | piece :: pieces =>
      (Ok (SrBytes piece), {| sc_pieces := pieces; sc_received := io.(sc_received) +:+ piece; sc_sent := io.(sc_sent) |})
  end.

Definition script_write (bytes : string) (io : Script) : Result ControlSocketWrite unit * Script :=
  let written := Nat.min 4 (String.length bytes) in
  let io := {| io with sc_sent := io.(sc_sent) +:+ str_take written bytes |} in
  (if (written =? String.length bytes)%nat then Ok SwComplete else Ok (SwPartial written), io).

#[local] Instance script_io : ControlConnectionIo Script :=
  {| ReadError := unit; WriteError := unit; read_control := script_read; write_control := script_write |}.

#[local] Program Instance script_stream : ControlIoStream :=
  {| received := sc_received; sent := sc_sent |}.
Next Obligation.
  intros n io. simpl. unfold script_read. destruct (sc_pieces io); simpl; [by rewrite str_app_nil_r|done].
Qed.
Next Obligation.
  intros bytes io. unfold write_control, script_io, script_write. destruct (Nat.eqb_spec (Nat.min 4 (String.length bytes)) (String.length bytes)) as [Hl|].
  - cbn [sc_received sc_sent]. rewrite Hl. split; [done|]. f_equal.
    rewrite <-(str_app_nil_r bytes) at 2. apply take_app_str.
  - cbn [sc_received sc_sent]. split; [done|]. split; [lia|done].
Qed.

(** A supervisor that answers a body with itself, and makes [stop] be waited
    for. *)
#[local] Instance echo_body : ControlBody (list string) := {|
  BodyDispatch := unit; BodyError := unit;
  run_body _ body s :=
    (Ok (if bool_decide (body = "stop") then BodyAccepted None tt (Some (WaitJob 7 3)) else BodyAccepted (Some (line_of body)) tt None),
     s ++ [body]);
  ShutdownBodyDispatch := unit; ShutdownBodyError := unit;
  run_shutdown_body _ body s := (Ok (line_of body, inl tt), s ++ [body]) |}.

#[local] Instance wire_number : JsonNumber :=
  {| Number := Z; as_u64 n := Some n; as_i64 n := Some n; from_u64 n := n |}.

Definition example_vec (response : Value) : Result string string := Ok "{}".

Definition example_caller : TokenSummary :=
  {| ts_identity := "S-1-5-21-7"; ts_user_sid := "S-1-5-21-7"; ts_group_sids := []; ts_present_privileges := []; ts_enabled_privileges := [] |}.

Definition example_connection : ControlConnectionRecord Script :=
  record_new_with_activity
    {| sc_pieces := ["li"; "st" +:+ String newline "stop" +:+ String newline "bo"; "ot" +:+ String newline ""];
       sc_received := ""; sc_sent := "" |}
    {| cp_token := OwnedTokenFd 9; cp_summary := example_caller |} (Some 100).

(** The connection and the bodies that were run, after [n] turns. *)
Fixpoint after_turns (n : nat) : option (ControlConnectionRecord Script * list string) :=
  match n with
  | O => Some (example_connection, [])
  | S n =>
      '(r, s) ← after_turns n;
      '(result, r, s) ← process_control_connection_turn example_vec 64 64 200 r s;
      match result with Ok _ => Some (r, s) | Err _ => None end
  end.

(** Two requests are served, the second waits, and the third stays behind it. *)
Example third_request_waits :
  (λ '(r, s), (s, r.(ccr_state).(ccs_read_buffer).(cb_bytes), r.(ccr_io).(sc_sent))) <$> after_turns 3 =
  Some (["list"; "stop"], "boot" +:+ String newline "", line_of "list").
Proof. vm_compute. reflexivity. Qed.

Lemma after_turns_life n r s : after_turns n = Some (r, s) → life example_vec r.
Proof.
  revert r s. induction n as [|n IH]; intros r s; simpl.
  - intros [= <- <-]. by apply life_new.
  - destruct (after_turns n) as [[r0 s0]|] eqn:Ea; [|done]. cbn [mbind option_bind].
    destruct (process_control_connection_turn example_vec 64 64 200 r0 s0) as [[[result r1] s1]|] eqn:Et; [|done]. cbn.
    destruct result; [|done]. intros [= <- <-]. eapply life_turn; [by eapply IH|exact Et].
Qed.

Lemma connection_keeps_its_order_witness :
  ∃ r s, after_turns 3 = Some (r, s) ∧ ∃ events, account events r.
Proof.
  destruct (after_turns 3) as [[r s]|] eqn:Ea; [|by vm_compute in Ea]. exists r, s. split; [reflexivity|].
  apply (connection_keeps_its_order example_vec r). exact (after_turns_life 3 r s Ea).
Defined.

Definition two_lines : ControlConnectionState :=
  {| connection_state_new with ccs_read_buffer := {| cb_bytes := line_of "list" +:+ line_of "stop" +:+ "bo" |} |}.

Lemma turn_serves_its_lines_witness :
  ∃ result c' s', frame_loop example_vec (frame_fuel two_lines) (ccr_peer example_connection) 64 (ReadBytes 12 12) [] two_lines [] =
    Some (result, c', s') ∧
    match result with
    | Ok _ => rounds example_vec (ccr_peer example_connection) 64 two_lines c' [] s'
    | Err error => unwritten example_vec (ccr_peer example_connection) error s'
    end.
Proof.
  apply (turn_serves_its_lines example_vec (ccr_peer example_connection) 64 (ReadBytes 12 12) two_lines []); [|done].
  split_and!; [reflexivity..|]. unfold write_ok. simpl. lia.
Defined.

(** Every connection that is accepted is the script's, under descriptor 5. *)
#[local] Instance script_listener : ControlListener unit Script := {|
  AcceptError := unit; accept_control l := (Ok (Some example_connection.(ccr_io)), l); control_fd _ := 5;
  control_peer _ := Ok {| cp_token := OwnedTokenFd 9; cp_summary := example_caller |} |}.

Definition one_connection : ControlConnectionTable (ControlConnectionRecord Script) :=
  (accept_control_connection_at (Some 100) tt (set_max_connections_per_caller 1 (table_new 2))).2.

(** The next one of the same caller is turned away. *)
Example caller_is_bounded :
  (accept_control_connection_at (Some 150) tt one_connection).1.1 =
  Ok (AcceptRejectedForCaller 5 "S-1-5-21-7" 1 1).
Proof. vm_compute. reflexivity. Qed.

