(* ===== verification/SupervisorNotifySpec.v ===== *)
(** * What a notify message can do

    About [SupervisorNotify]: a deadline that a service moves stays within its
    bounds, descriptors are kept in order or refused, and a message that is
    refused changes nothing. *)

From S2P Require Import Prelude RustStr ServiceRuntime ServiceDef Ids Restart Cgroup ServiceTable Calendar Tty.
From S2P Require Import OperationRecord OperationStore OperationInv ExecCommand StartPlan StartPlanSpec Lifecycle.
From S2P Require Import JobRecord JobStore SubmittedRun FailureDispatch.
From S2P Require Import Effects ExecGraph StartState StartBegin StartRun MainProcess Release.
From S2P Require Import Graph ServiceTableInv ExecGraphSpec ExecGraphInv StartInv StartSpec ReleaseInv.
From S2P Require Import ControlRun ControlInv ControlSpec Notify SubmittedDef NotifyRun ShutdownRun ShutdownInv.
From S2P Require Import SupWork Relationships SupervisorRun SupervisorChecks SettleInv SupervisorInv SupervisorEvents SupervisorSpec SupervisorNotify.
From Stdlib Require Import String.
Open Scope string_scope.
Open Scope list_scope.
Open Scope Z_scope.

(** ** Deadlines *)

Section Extensions.
Context {P BoundaryError : Type} `{CalendarSyntax} `{!ProcessController P BoundaryError}.
Notation Work := (SupervisorWork P BoundaryError).

(** A time that a deadline of [service] may be moved to: an operation of the
    store and the definition of the service bound it, and so does a shutdown. *)
Definition allowed_until (service : string) (observed_at_ns : Z) (w : Work) (phase : PhaseTimeout) (due_at_ns : Z) : Prop :=
  ∃ definition operation id, table_definition (su_services w) service = Some definition ∧
    (su_operations w).(op_records) !! id = Some operation ∧
    due_at_ns ≤ cap_base_ns operation observed_at_ns + base_timeout_secs phase definition * 4 * NANOS_PER_SEC ∧
    ∀ shutdown, su_shutdown w = Some shutdown → due_at_ns ≤ shutdown.(shr_global_deadline_ns).

(** The deadlines of [m'] are those of [m], but for their times, which are
    [allowed]. *)
Definition moved_within {D} (set_due : Z → D → D) (allowed : OperationId → D → Z → Prop) (m m' : gmap OperationId D) : Prop :=
  ∀ op, m' !! op = m !! op ∨ ∃ d due, m !! op = Some d ∧ allowed op d due ∧ m' !! op = Some (set_due due d).

Lemma moved_same {D} (set_due : Z → D → D) allowed m : moved_within set_due allowed m m.
Proof. intros op. by left. Qed.

Lemma moved_insert {D} (set_due : Z → D → D) (allowed : OperationId → D → Z → Prop) m op d due :
  m !! op = Some d → allowed op d due → moved_within set_due allowed m (<[op := set_due due d]> m).
Proof.
  intros Hd Ha op'. destruct (decide (op' = op)) as [->|]; [|left; by rewrite lookup_insert_ne].
  right. exists d, due. by rewrite lookup_insert_eq.
Qed.

Definition set_readiness_due (due : Z) (d : ReadinessDeadline) : ReadinessDeadline := {| d with rd_due_at_ns := due |}.
Definition set_stop_due (due : Z) (d : StopTimeoutDeadline) : StopTimeoutDeadline := {| d with sto_due_at_ns := due |}.
Definition set_detection_due (due : Z) (d : ReloadDetectionDeadline) : ReloadDetectionDeadline := {| d with rdd_due_at_ns := due |}.
Definition set_command_due (due : Z) (d : ReloadCommandDeadline) : ReloadCommandDeadline := {| d with rcd_due_at_ns := due |}.

(** The reload that a service is in the middle of. *)
Definition reloads_as (service : string) (w : Work) (op : OperationId) : Prop :=
  ∃ operation, current_running_reload_operation w service = Some operation ∧ operation.(or_id) = op.

(** What an extension leaves: the deadlines of the service's own start, stop and
    reload within their bounds, and the rest as it was. *)
Definition extended (service : string) (observed_at_ns : Z) (w w' : Work) : Prop :=
  let until := allowed_until service observed_at_ns w in
  moved_within set_readiness_due (λ _ d due, d.(rd_service) = service ∧ until PhaseStart due)
     (su_start_store w).(ses_readiness) (su_start_store w').(ses_readiness) ∧
  moved_within set_stop_due (λ _ d due, d.(sto_service) = service ∧ until PhaseStop due)
     (su_control_store w).(ces_stop_timeouts) (su_control_store w').(ces_stop_timeouts) ∧
  moved_within set_detection_due (λ op _ due, reloads_as service w op ∧ until PhaseStart due)
     (su_control_store w).(ces_detections) (su_control_store w').(ces_detections) ∧
  moved_within set_command_due (λ op _ due, reloads_as service w op ∧ until PhaseStart due)
     (su_control_store w).(ces_commands) (su_control_store w').(ces_commands) ∧
  su_services w' = su_services w ∧ su_operations w' = su_operations w ∧ su_jobs w' = su_jobs w ∧ su_graph w' = su_graph w ∧
  su_shutdown w' = su_shutdown w.

Lemma extended_same service at_ns w : extended service at_ns w w.
Proof. unfold extended. split_and!; try done; apply moved_same. Qed.

(** The bound a deadline is clamped to. *)
Lemma clamped_allowed service id operation usec at_ns phase w w' r :
  (su_operations w).(op_records) !! id = Some operation →
  (clamped_deadline service operation usec at_ns phase : Exec Work _ _) w = Some (w', r) →
  w' = w ∧ ∀ due, r = Ok due → allowed_until service at_ns w phase due.
Proof.
  intros Ho. unfold clamped_deadline, mbind, exec_bind, exec_get, exec_lift.
  destruct (table_definition (su_services w) service) as [definition|] eqn:Ed; simpl; intros [= <- <-]; (split; [done|]); [|done].
  intros due [= <-]. exists definition, operation, id. split_and!; [done..| |].
  - unfold phase_cap_ns, u64_saturating_add, u64_saturating_mul, NANOS_PER_SEC. lia.
  - intros shutdown Hs. unfold phase_cap_ns. rewrite Hs. simpl. lia.
Qed.

Lemma min_by_in {D} (R : D → D → Prop) `{!RelDecision R} l d : min_by R l = Some d → d ∈ l.
Proof.
  destruct l as [|a l]; [done|]. intros [= <-]. revert a. induction l as [|x l IH]; intros a; simpl; [left|].
  specialize (IH (if decide (R a x) then a else x)). destruct (decide (R a x)); set_solver.
Qed.

(** The deadline of a service that is found is one of the store, under its key. *)
Lemma of_service_found {D} (R : D → D → Prop) `{!RelDecision R} (service_of : D → string) (key : D → OperationId)
    service (m : gmap OperationId D) d :
  (∀ op d, m !! op = Some d → key d = op) →
  min_by R (filter (λ d, service_of d = service) (btree_values m)) = Some d → m !! key d = Some d ∧ service_of d = service.
Proof.
  intros Hk [Hs (op & Hop)%elem_of_btree_values]%min_by_in%list_elem_of_filter. by rewrite (Hk op d Hop).
Qed.

Lemma extend_start_extended service value at_ns w w' r :
  start_wf (su_start_store w) →
  (extend_start_timeout service value at_ns : Exec Work _ _) w = Some (w', r) → extended service at_ns w w'.
Proof.
  intros Hwf. unfold extend_start_timeout, mbind, exec_bind at 1, exec_lift.
  destruct (parse_extension_usec service value) as [usec|]; [|intros [= <- _]; apply extended_same].
  unfold exec_bind at 1, exec_get. destruct (readiness_deadline_for_service service (su_start_store w)) as [d|] eqn:Ed; simpl;
    [|intros [= <- _]; apply extended_same].
  destruct (op_records (su_operations w) !! rd_operation_id d) as [operation|] eqn:Eo; simpl; [|intros [= <- _]; apply extended_same].
  destruct (of_service_found _ _ rd_operation_id _ _ _ (stw_readiness _ Hwf) Ed) as [Hd Hs].
  unfold exec_bind. destruct (clamped_deadline _ _ _ _ _ w) as [[w1 r1]|] eqn:Ec; [|done].
  destruct (clamped_allowed _ _ _ _ _ _ _ _ _ Eo Ec) as [-> Hdue]. destruct r1 as [due|]; [|intros [= <- _]; apply extended_same].
  intros [= <- _]. unfold extend_readiness_deadline. unfold su_start_store in Hd |- *. rewrite Hd. unfold extended, su_start_store. simpl.
  split_and!; try reflexivity; try apply moved_same. apply (moved_insert set_readiness_due); [exact Hd|]. auto.
Qed.

Lemma extend_stop_extended service value at_ns w w' r :
  control_store_wf (su_control_store w) →
  (extend_stop_timeout_of service value at_ns : Exec Work _ _) w = Some (w', r) → extended service at_ns w w'.
Proof.
  intros Hwf. unfold extend_stop_timeout_of, mbind, exec_bind at 1, exec_lift.
  destruct (parse_extension_usec service value) as [usec|]; [|intros [= <- _]; apply extended_same].
  unfold exec_bind at 1, exec_get. destruct (stop_timeout_for_service service (su_control_store w)) as [d|] eqn:Ed; simpl;
    [|intros [= <- _]; apply extended_same].
  destruct (op_records (su_operations w) !! sto_operation_id d) as [operation|] eqn:Eo; simpl; [|intros [= <- _]; apply extended_same].
  destruct (of_service_found _ _ sto_operation_id _ _ _ (csw_stop _ Hwf) Ed) as [Hd Hs].
  unfold exec_bind. destruct (clamped_deadline _ _ _ _ _ w) as [[w1 r1]|] eqn:Ec; [|done].
  destruct (clamped_allowed _ _ _ _ _ _ _ _ _ Eo Ec) as [-> Hdue]. destruct r1 as [due|]; [|intros [= <- _]; apply extended_same].
  intros [= <- _]. unfold extend_stop_timeout. unfold su_control_store in Hd |- *. rewrite Hd. unfold extended, su_control_store. simpl.
  split_and!; try reflexivity; try apply moved_same. apply (moved_insert set_stop_due); [exact Hd|]. auto.
Qed.

Lemma extend_reload_extended service value at_ns w w' r :
  (extend_reload_timeout service value at_ns : Exec Work _ _) w = Some (w', r) → extended service at_ns w w'.
Proof.
  unfold extend_reload_timeout, mbind, exec_bind at 1, exec_lift.
  destruct (parse_extension_usec service value) as [usec|]; [|intros [= <- _]; apply extended_same].
  unfold exec_bind at 1, exec_get. destruct (current_running_reload_operation w service) as [operation|] eqn:Er; simpl;
    [|intros [= <- _]; apply extended_same].
  assert (∃ id, op_records (su_operations w) !! id = Some operation) as [id Eo].
  { unfold current_running_reload_operation in Er. destruct (current_for_service (su_operations w) service) as [o|] eqn:Ecur; simpl in Er; [|done].
    unfold then_some in Er. destruct (_ && _); [|done]. injection Er as ->. unfold current_for_service in Ecur.
    apply find_map_Some in Ecur as (id & _ & Hid). eauto. }
  unfold exec_bind. destruct (clamped_deadline _ _ _ _ _ w) as [[w1 r1]|] eqn:Ec; [|done].
  destruct (clamped_allowed _ _ _ _ _ _ _ _ _ Eo Ec) as [-> Hdue]. destruct r1 as [due|]; [|intros [= <- _]; apply extended_same].
  assert (reloads_as service w (or_id operation)) as Hre by (by exists operation). specialize (Hdue due eq_refl).
  intros [= <- _]. unfold extended, su_control_store. simpl. unfold extend_reload_command_deadline, extend_reload_detection_deadline.
  destruct (ces_commands (cx_control (su_control w)) !! or_id operation) as [d|] eqn:Ecmd; simpl.
  - split_and!; try reflexivity; try apply moved_same. by apply (moved_insert set_command_due).
  - destruct (ces_detections (cx_control (su_control w)) !! or_id operation) as [d|] eqn:Edet; simpl.
    + split_and!; try reflexivity; try apply moved_same. by apply (moved_insert set_detection_due).
    + split_and!; try reflexivity; apply moved_same.
Qed.


(** A message that the supervisor refuses, for its sender, a field or what
    would follow from it, changes nothing the supervisor keeps: the fields before
    the one that failed are undone too. *)
Theorem notify_all_or_nothing settings pid message fds at_ns (w w' : Work) e :
  apply_service_notify settings pid message fds at_ns w = Some (w', Err e) →
  su_services w' = su_services w ∧ su_operations w' = su_operations w ∧ su_jobs w' = su_jobs w ∧ su_graph w' = su_graph w ∧
  su_start_store w' = su_start_store w ∧ su_control_store w' = su_control_store w ∧ su_fd_store w' = su_fd_store w ∧
  su_shutdown w' = su_shutdown w ∧ w'.(su_health) = w.(su_health) ∧ w'.(su_watchdog) = w.(su_watchdog) ∧
  w'.(su_relationships) = w.(su_relationships) ∧ w'.(su_cgroup_cleanup) = w.(su_cgroup_cleanup).
Proof.
  intros E1. assert (w' = sup_restore w' w) as ->; [|split_and!; reflexivity].
  revert E1. apply (undone_atomic sup_restore). intros a b. reflexivity.
Qed.
End Extensions.

(** ** Descriptors *)

Definition stored_as (directive : FdStoreDirective) (fd : Z) : StoredFd :=
  {| sfd_name := effective_name directive; sfd_poll := directive.(fsd_poll); sfd_fd := fd |}.

Lemma effective_stored directive : stored_name (Some (effective_name directive)) = effective_name directive.
Proof. unfold stored_name, effective_name. destruct (fsd_name directive) as [name|]; [|done]. destruct (str_is_empty name) eqn:En; [done|by rewrite En]. Qed.

(** The descriptors of a message are kept in the order they came until the
    store of the service is full, under the name and the polling the message
    says, behind those that were kept before; each of the others is refused, and
    the answer names every refusal. Stores of other services stay as they are. *)
Theorem descriptors_kept_or_refused service max directive fds (table : FdStoreTable) :
  0 ≤ max →
  let '(table', refused) := store_descriptors service max directive fds table in
  let before := default [] (table !! service) in
  let room := (Z.to_nat max - List.length before)%nat in
  default [] (table' !! service) = before ++ map (stored_as directive) (take room fds) ∧
  List.length refused = (List.length fds - room)%nat ∧
  Forall (λ r, r.(fsr_service) = service ∧ r.(fsr_name) = effective_name directive ∧
               r.(fsr_outcome) = if max =? 0 then FdDisabled else FdFull) refused ∧
  ∀ other, other ≠ service → table' !! other = table !! other.
Proof.
  intros Hmax. revert table. induction fds as [|fd fds IH]; intros table; cbn [store_descriptors].
  { rewrite take_nil, app_nil_r. split_and!; [done|simpl; lia|constructor|done]. }
  unfold table_store. destruct (Z.eqb_spec max 0) as [->|Hne].
  - specialize (IH table). destruct (store_descriptors service 0 directive fds table) as [table' refused].
    replace (Z.to_nat 0 - _)%nat with 0%nat in * by lia. cbn [take map] in *. destruct IH as (Hk & Hn & Hall & Ho).
    split_and!; [done|simpl; lia| |done]. constructor; [|exact Hall]. done.
  - assert (∀ entries, (<[service := entries]> table : FdStoreTable) !! service = Some entries) as Hl by (intros; apply (lookup_insert_eq (M := gmap string))).
    unfold fd_store_store. rewrite (proj2 (Z.eqb_neq max 0)) by done. cbn [sfq_name sfq_poll sfq_fd].
    set (before := default [] (table !! service)) in *.
    destruct (Z.leb_spec max (Z.of_nat (List.length before))) as [Hfull|Hroom].
    + specialize (IH (<[service := before]> table)). destruct (store_descriptors service max directive fds _) as [table' refused].
      cbv zeta in IH. rewrite Hl in IH. cbn [default from_option id] in IH. replace (Z.to_nat max - List.length before)%nat with 0%nat in * by lia.
      cbn [take map] in *. destruct IH as (Hk & Hn & Hall & Ho). split_and!; [done|simpl; lia|constructor; [done|exact Hall]|].
      intros other Hother. rewrite Ho by done. by apply (lookup_insert_ne (M := gmap string)).
    + rewrite effective_stored. fold (stored_as directive fd).
      specialize (IH (<[service := before ++ [stored_as directive fd]]> table)).
      destruct (store_descriptors service max directive fds _) as [table' refused].
      cbv zeta in IH. rewrite Hl in IH. cbn [default from_option id] in IH. rewrite length_app in IH. cbn [List.length] in IH.
      replace (Z.to_nat max - List.length before)%nat with (S (Z.to_nat max - (List.length before + 1)))%nat by lia.
      cbn [take map]. destruct IH as (Hk & Hn & Hall & Ho). split_and!; [by rewrite Hk, <-app_assoc|simpl; lia|exact Hall|].
      intros other Hother. rewrite Ho by done. by apply (lookup_insert_ne (M := gmap string)).
Qed.

(** ** A stop that asks for more time *)

Import Calendar.Utc.
#[local] Existing Instance shutdown_kernel.

(** "app" is stopping for operation 1, which began at 10; its timeout is the
    default of ten seconds. *)
Definition app_stopping : SupervisorWork bool string :=
  let work := work_with (moved_table app_and_db
      [("app", StStarting, TcExplicitStart); ("app", StActive, TcExplicitStart); ("app", StStopping, TcExplicitStop)])
    job_store_new false in
  let exec := set_operations (start_operation 1 20 (request_operation (example_request 1 OpStop 10) op_store_new).1).1 (wk_exec work) in
  supervising (set_sw_control {|
    cx_exec := exec;
    cx_control := record_stop_timeout {| sto_operation_id := 1; sto_service := "app"; sto_cgroup_id := "/app"; sto_due_at_ns := 100 |}
      control_store_new |} work).

Lemma app_stopping_wf : sup_wf app_stopping.
Proof.
  apply supervising_wf; [|exact (Z.le_refl 0)|reflexivity]. split.
  - split; [|apply start_store_new_wf]. split; simpl.
    + apply moved_table_wf.
    + apply op_reachable_store_wf. eapply rtc_l; [apply (ostep_request _ (example_request 1 OpStop 10)); simpl; lia|].
      apply rtc_once, ostep_start.
    + apply graph_store_new_wf.
    + apply (job_reachable_ledger_wf empty_ledger), rtc_refl.
  - split; simpl; intros op; [|intros d Hd; by rewrite lookup_empty in Hd..|set_solver].
    intros d Hd. apply lookup_insert_Some in Hd as [[<- <-]|[_ Hd]]; [done|by rewrite lookup_empty in Hd].
Qed.

(** A year is asked for, and four times the timeout is given. *)
Example a_year_is_capped :
  match apply_transition_timeout_extension "app" 1000 "31536000000000" app_stopping with
  | Some (w, Ok _) => sto_due_at_ns <$> (su_control_store w).(ces_stop_timeouts) !! 1 = Some (10 + 4 * 10 * NANOS_PER_SEC)
  | _ => False
  end.
Proof. vm_compute. reflexivity. Qed.


(** A message of somebody no service knows. *)
Lemma notify_all_or_nothing_witness :
  ∃ w' e, apply_service_notify settings_default 4242 {| nm_fields := [NfStatus "up"] |} [] 1000 app_stopping = Some (w', Err e) ∧
    su_services w' = su_services app_stopping.
Proof.
  destruct (apply_service_notify settings_default 4242 {| nm_fields := [NfStatus "up"] |} [] 1000 app_stopping) as [[w' [d|e]]|] eqn:E1;
    [by vm_compute in E1| |by vm_compute in E1].
  exists w', e. split; [reflexivity|]. apply (notify_all_or_nothing _ _ _ _ _ _ _ _ E1).
Defined.

Lemma descriptors_kept_or_refused_witness :
  let '(table', refused) := store_descriptors "app" 2
    {| fsd_store := true; fsd_remove := false; fsd_name := Some "listen"; fsd_poll := true |} [5; 6; 7] ∅ in
  List.length refused = 1%nat.
Proof.
  pose proof (descriptors_kept_or_refused "app" 2
    {| fsd_store := true; fsd_remove := false; fsd_name := Some "listen"; fsd_poll := true |} [5; 6; 7] ∅) as Hd.
  destruct (store_descriptors _ _ _ _ _) as [table' refused]. destruct Hd as (_ & Hn & _); [lia|]. rewrite Hn. reflexivity.
Defined.
